(* ===== verification/_CoqProject ===== *)
-Q . S2P
Prelude.v
Text.v
Zrle.v
Bits.v
BitCodec.v
Crc32.v
Vars.v
Utf8.v
Floats.v
Doubles.v
Columns.v
ExprEval.v
ExprPlan.v
ExprSound.v
StateError.v
Lexer.v
ExprParse.v
Schema.v
SchemaCodec.v
Layout.v
Geometry.v
Cql.v
Features.v
LittleEndian.v
ChunkFormat.v
WalFrame.v
Fuel.v
WalReplay.v
TxnHistory.v
VersionClock.v
Files.v
TxnIntent.v
ConditionalIntent.v
TxnCommit.v
TxnRecovery.v
TxnDiff.v
BlockOps.v
TxnSession.v
Isolation.v
ChunkLoad.v
SnapshotGeneration.v
TxnAtomic.v
