(* ===== verification/Prelude.v ===== *)
(** * chunkdb: a verification library

    chunkdb is a database of a two-dimensional world of blocks.  A table has
    typed columns; its blocks lie in chunks; a chunk is stored as an image (a
    checkpoint) and a write-ahead log of the changes since.  This library
    models the storage engine of src/src and src/include/chunkdb as Rocq
    functions and proves what it promises.

    ** How the parts fit together

    A write takes the locks of its chunks, a version from the version clock, and
    appends a frame to the write-ahead log of each chunk.  A checkpoint writes
    the chunk as an image.  A load reads the image, replays the log over it and
    brings the result to the current version of the table's schema.  A
    transaction reads at a snapshot, validates at its commit that nothing it read
    has changed, and writes several logs under an intent that says how to undo
    them.  A start of the store deals with the intents that are left.  A read-only
    process reads the same files between two looks at the generation counter of
    the writer, and stops at the boundary of an intent.

    ** The files

    Foundations:
    - [Prelude]: errors and the error monad, integers at their width, byte
      vectors, little-endian numbers, lists, tactics and hints;
    - [Text]: decimal numbers and the searches in strings;
    - [Bits], [BitCodec]: bits of byte vectors, src/bit_codec.cpp;
    - [LittleEndian]: the fields of the file formats (chunk_format.cpp);
    - [Crc32]: crc32.cpp, crc32_clmul.cpp, crc32_armv8.cpp;
    - [Zrle]: zrle.cpp;
    - [Files]: a disk that forgets what was not synced, calls that fail or
      during which the process dies, and the routines of durability_io.cpp and
      atomic_write.cpp on it.

    Data of a table:
    - [Utf8], [Floats], [Columns]: values of columns and their conversions
      (schema.cpp);
    - [Schema], [SchemaCodec]: the schema, its history, its changes and its
      encoding (schema.cpp);
    - [Layout]: the payload of a chunk and its translation between schema
      versions (chunk_layout.cpp);
    - [Vars]: text and bytes values of a chunk (chunk_vars.cpp);
    - [Geometry]: coordinates and sizes (geometry.cpp);
    - [Features]: feature flags (feature_flags.cpp).

    The language of statements:
    - [StateError]: a monad of state and errors, with weakest preconditions, for
      the parsers;
    - [Lexer]: tokens and the reading of them (cql.cpp, cql_lexer.hpp);
    - [Cql]: statements and HELLO (cql.cpp, cql.hpp);
    - [Doubles]: IEEE arithmetic of doubles on their bits;
    - [ExprEval]: evaluation of planned expressions (expr_eval.cpp,
      expr_program.hpp);
    - [ExprPlan]: the checks, types and compilation of expressions (expr.cpp);
      [ExprSound]: what planning promises to evaluation;
    - [ExprParse]: the parser of expressions (expr.cpp).

    Files of a chunk:
    - [ChunkFormat]: images (chunk_format.cpp);
    - [WalFrame], [WalReplay]: frames and replay (wal_writer.cpp, wal_replay.cpp,
      and the checks of block_ops.cpp they share); [Fuel]: no loop of these runs
      out of fuel, on any input;
    - [BlockOps]: setting, deleting and reading blocks of a chunk
      (block_ops.cpp);
    - [ChunkLoad]: loading a chunk (chunk_cache.cpp);
    - [SnapshotGeneration]: the files of a chunk as a read-only process collects
      them while a writer runs (snapshot_generation.cpp).

    Versions and transactions:
    - [VersionClock]: version tokens, threads and crashes (version_clock.cpp);
    - [TxnHistory]: the states kept for open snapshots (txn_history.cpp), as a
      heap of linked nodes;
    - [TxnSession]: the read set and the private copies of a session's
      transaction, and the targets of its commit (engine_cql.cpp, txn_commit.cpp);
    - [Isolation]: the threads around them (txn_commit.cpp, block_ops.cpp,
      engine_cql.cpp), against the interface [HistoryOps] with its laws [HistoryLaws], which [TxnHistory]
      implements;
    - [TxnIntent], [ConditionalIntent]: the records of intents (txn_intent.cpp,
      conditional_intent.cpp) and the paths of files (file_layout.cpp);
    - [TxnDiff]: the frame a transaction writes to a chunk (txn_commit.cpp);
    - [TxnCommit], [TxnRecovery]: the files a commit writes and what a start
      does with them (txn_commit.cpp, txn_intent.cpp);
    - [TxnAtomic]: the parts together.

    ** How code becomes definitions

    A definition has the name of the function, method or type it translates; a
    loop of a function has a name of its own next to it.  Exceptions are the
    error side of [res], with the class and the fixed part of the message.
    Unsigned arithmetic is on [Z] with [wrap] where the width matters; bytes are
    [Z] in lists.  Undefined behaviour (a read out of range, a dangling pointer)
    is the error [undefined], and theorems show it does not happen.  A loop that
    is not structural has fuel: the length of what it consumes, or the size of
    the structure it walks (for a parser twice the length of the line, as a token
    may be looked at before it is taken, and the limit on parentheses for the
    recursion); running out is the error [out_of_fuel], and theorems show it does
    not happen.

    Stateful code passes its state.  Code over files is a function of the disk
    and of a list of [choice]s, one for each system call: it works, it fails, or
    the process dies in it; a theorem for all lists is a theorem for all failures
    and crash points.  A power loss ([Files.crashed]) keeps what was synced and any
    part of the rest.  Threads are steps on a shared state, one for each
    point at which another thread can intervene, and a theorem for all
    sequences of steps is one for all interleavings.  A reader in another process
    is a function of what the disk and the counter are at each moment and of a
    schedule, which says how much later each of its calls comes and whether it
    works; its loop of attempts has fuel for the 8 attempts without a sleep and
    the 18 that the sleeps of the budget allow, which is shown to be enough.

    Arguments stand for what is not in the sources: the clock of the machine, the
    processor's instructions for checksums (classes with the laws their manuals
    state), whether a process is alive, the random parts of names, the bits of the
    NaN a processor gives.

    ** What is shown

    - Storage formats: every writer is undone by its reader (bit strings, zero
      runs, values, schemas, images, frames, logs, intents, clock records); the
      readers terminate on every input and accept only well-formed states.
    - Optimised code computes its reference definition: the checksum kernels, the
      bit-string loops, the packed value store (a finite map).
    - Schema changes: every version can be rebuilt, ids are not reused, a
      translated chunk has the converted value in every cell, undo restores
      the very bytes.
    - Blocks: a block that is set reads as the values given, with defaults for
      the rest, and a deleted one as absent, while no other block changes; a
      refused write has a reason the schema states; a state a transaction
      writes is one the table can hold.
    - Crash safety of a log: a replay finds exactly the complete frames, over
      any checkpoint.
    - Transactions: reads at a snapshot are consistent in every interleaving, and
      no chunk a committed transaction found or wrote changed between its snapshot
      and its commit, where the chunks validated are computed from what its
      statements did; a commit is atomic through failures, crashes and power
      losses; recovery gets to its end and leaves no intent; readers in other
      processes see a chunk as before a commit or as after it, and chunks of one
      generation alike; version tokens are unique until the 64-bit clock wraps.
      The clock of [Isolation] does not wrap; [Isolation.versions_fit] says how
      many steps that holds for.
    - What the theorems on the files of a commit ([TxnAtomic]) assume is in
      [TxnRecovery.ready]: the WALs of the chunks are synced and have no second
      hard link, as a backup makes them, and the other transaction intents in the
      directory are committed ones.
    - Statements: every line parses to a well-formed statement or a ParseError, and
      the parameters of a statement are those the server reads after the line.
    - Expressions: every text parses or is refused, a planned expression evaluates
      without a type error, and what an assignment stores fits its column;
      128-bit arithmetic is exact or refused, and integers compare with doubles
      exactly.
    - Findings: [TxnAtomic.recovered_commit_undone], [TxnAtomic.replaced_wal_not_atomic]
      and [VersionClock.clock_wraps_after_exhaustion] evaluate executions in which
      a promise is not kept.

    ** Not modelled

    - The server, its protocol, TLS, users and login: sockets, threads and OpenSSL.
    - The execution of statements against tables.  The planner's messages are
      shortened; their positions are not modelled.
    - The catalog of tables, migrations and backups.
    - The change feed, its slots and archive.
    - The cache of chunks: eviction, background checkpoints, the pool of log
      streams, group commit and the barrier of FLUSH WAL.
    - Logging, metrics, permissions of files, failpoints, the Windows branches,
      benchmarks and tests. *)
From stdpp Require Import prelude strings gmap sorting.
From Stdlib Require Import ZArith Lia Btauto.

#[local] Open Scope Z_scope.

Declare Scope chunkdb_scope.
Delimit Scope chunkdb_scope with chunkdb.

(** ** Errors *)

(** The exception classes the sources throw; the message is the fixed part of
    the text.  Two are never thrown by the program: [undefined] marks an
    operation without defined behaviour (an access out of range), and
    [out_of_fuel] a model loop that ran out of fuel; the theorems show where
    neither can happen. *)
Inductive exn : Type :=
| runtime_error (what : string)
| invalid_argument (what : string)
| logic_error (what : string)
| out_of_range (what : string)
| length_error (what : string)
| overflow_error (what : string)
| conflict_error (what : string)
| parse_error (what : string)
| undefined (what : string)
| out_of_fuel.

(** A computation that returns or throws. *)
Inductive res (A : Type) : Type :=
| Ok (a : A)
| Err (e : exn).
Arguments Ok {A} a.
Arguments Err {A} e.

#[global] Instance exn_eq_dec : EqDecision exn.
Proof. solve_decision. Defined.

#[global] Instance res_ret : MRet res := fun A a => Ok a.
#[global] Instance res_bind : MBind res :=
  fun A B f m => match m with Ok a => f a | Err e => Err e end.

(** [throw_if b e; k]: the guard [if (b) throw e;] followed by [k]. *)
Definition throw_if (b : bool) (e : exn) : res unit := if b then Err e else Ok tt.

Definition is_ok {A} (r : res A) : bool := match r with Ok _ => true | Err _ => false end.

Lemma bind_ok {A B} (m : res A) (f : A -> res B) b :
  (m ≫= f) = Ok b <-> exists a, m = Ok a /\ f a = Ok b.
Proof.
  destruct m as [a|e]; simpl; split.
  - intros H. by exists a.
  - by intros (a' & [= ->] & H).
  - done.
  - by intros (? & ? & ?).
Qed.

Lemma throw_if_ok b e u : throw_if b e = Ok u <-> b = false.
Proof. destruct b, u; simpl; split; congruence. Qed.

Lemma throw_if_false b e : b = false -> throw_if b e = Ok tt.
Proof. by intros ->. Qed.

Lemma throw_if_true b e : b = true -> throw_if b e = Err e.
Proof. by intros ->. Qed.

Lemma bind_Ok_l {A B} (a : A) (f : A -> res B) : (Ok a ≫= f) = f a.
Proof. done. Qed.

(** Breaks a hypothesis [(x ← m; k x) = Ok b] into its steps. *)
Ltac res_inv :=
  repeat match goal with
  | H : (_ ≫= _) = Ok _ |- _ =>
      apply bind_ok in H; let a := fresh "a" in let Ha := fresh "Hs" in
      destruct H as (a & Ha & H)
  | H : throw_if _ _ = Ok _ |- _ => apply throw_if_ok in H
  | H : Ok _ = Ok _ |- _ => injection H as H
  | H : mret _ = Ok _ |- _ => injection H as H
  | H : Err _ = Ok _ |- _ => discriminate H
  end.

(** Case analysis of every variable of type [unit]. *)
Ltac units := repeat match goal with u : unit |- _ => destruct u end.

(** Passes the guard at the head of the left-hand side; [t] proves it false. *)
Tactic Notation "pass_guard" "by" tactic3(t) :=
  match goal with
  | |- (throw_if ?b ?e ≫= _) = _ =>
      rewrite (throw_if_false b e) by t; rewrite bind_Ok_l
  | |- context [throw_if ?b ?e ≫= _] =>
      rewrite (throw_if_false b e) by t; rewrite bind_Ok_l
  end.

(** Takes the throw of the guard at the head; [t] proves it true. *)
Tactic Notation "fail_guard" "by" tactic3(t) :=
  match goal with
  | |- (throw_if ?b ?e ≫= _) = _ => rewrite (throw_if_true b e) by t; reflexivity
  end.

(** A left fold whose step may throw. *)
Fixpoint fold_res {A S} (f : S -> A -> res S) (s : S) (l : list A) : res S :=
  match l with
  | [] => Ok s
  | x :: l' => s' ← f s x; fold_res f s' l'
  end.

Lemma fold_res_pure {A S} (f : S -> A -> S) l : forall s,
  fold_res (fun s a => Ok (f s a)) s l = Ok (fold_left f l s).
Proof. induction l as [|a l IH]; intros s; cbn; [done|apply IH]. Qed.

(** An invariant of the steps is an invariant of the loop. *)
Lemma fold_res_inv {A S} (f : S -> A -> res S) (I : S -> Prop) l : forall s s',
  (forall s a s', a ∈ l -> I s -> f s a = Ok s' -> I s') -> I s -> fold_res f s l = Ok s' -> I s'.
Proof.
  induction l as [|a l IH]; intros s s' Hf Hs H; cbn in H; [by injection H as <-|].
  res_inv. apply (IH a0); [|by apply (Hf s a); [left|..]|done].
  intros s1 b s2 Hb. apply Hf. by right.
Qed.

Lemma fold_res_app {A S} (f : S -> A -> res S) s l1 l2 :
  fold_res f s (l1 ++ l2) = (s' ← fold_res f s l1; fold_res f s' l2).
Proof.
  revert s; induction l1 as [|x l1 IH]; intros s; simpl; [done|].
  destruct (f s x) as [s'|e]; simpl; [apply IH|done].
Qed.

(** ** Machine integers *)

(** [wrap w x]: conversion of [x] to an unsigned integer of [w] bits. *)
Definition wrap (w x : Z) : Z := x mod 2 ^ w.
Abbreviation u8 := (wrap 8).
Abbreviation u16 := (wrap 16).
Abbreviation u32 := (wrap 32).
Abbreviation u64 := (wrap 64).

(** [signed w x]: the two's complement value of the low [w] bits of [x]. *)
Definition signed (w x : Z) : Z :=
  let y := x mod 2 ^ w in if y <? 2 ^ (w - 1) then y else y - 2 ^ w.
Abbreviation i64 := (signed 64).

Definition in_u (w x : Z) : Prop := 0 <= x < 2 ^ w.
Definition in_i (w x : Z) : Prop := - 2 ^ (w - 1) <= x < 2 ^ (w - 1).

Lemma wrap_small w x : in_u w x -> wrap w x = x.
Proof. intros H. by apply Z.mod_small. Qed.

Lemma wrap_bound w x : 0 <= w -> in_u w (wrap w x).
Proof. intros H. apply Z.mod_pos_bound. by apply Z.pow_pos_nonneg. Qed.

Lemma wrap_idem w x : 0 <= w -> wrap w (wrap w x) = wrap w x.
Proof. intros H. by apply wrap_small, wrap_bound. Qed.

Lemma pow2_split w : 0 < w -> 2 ^ w = 2 * 2 ^ (w - 1).
Proof. intros H. rewrite <- Z.pow_succ_r by lia. f_equal. lia. Qed.

(** A signed value survives the cast to unsigned and back. *)
Lemma signed_wrap w x : 0 < w -> in_i w x -> signed w (wrap w x) = x.
Proof.
  intros Hw Hx. unfold signed, wrap, in_i in *.
  rewrite Z.mod_mod by (apply Z.pow_nonzero; lia).
  pose proof (pow2_split w Hw) as Hp.
  assert (0 < 2 ^ (w - 1)) by (apply Z.pow_pos_nonneg; lia).
  destruct (decide (0 <= x)) as [H0|H0].
  - rewrite Z.mod_small by lia. case_match; lia.
  - replace x with (x + 2 ^ w + (-1) * 2 ^ w) by lia.
    rewrite Z.mod_add, Z.mod_small by lia. case_match; lia.
Qed.

Lemma signed_bound w x : 0 < w -> in_i w (signed w x).
Proof.
  intros Hw. unfold signed, in_i.
  pose proof (pow2_split w Hw) as Hp.
  assert (0 < 2 ^ (w - 1)) by (apply Z.pow_pos_nonneg; lia).
  pose proof (Z.mod_pos_bound x (2 ^ w)). case_match; lia.
Qed.

(** An unsigned value survives the cast to signed and back. *)
Lemma wrap_signed w x : 0 < w -> in_u w x -> wrap w (signed w x) = x.
Proof.
  intros Hw Hx. unfold signed, wrap, in_u in *.
  pose proof (pow2_split w Hw) as Hp.
  assert (0 < 2 ^ (w - 1)) by (apply Z.pow_pos_nonneg; lia).
  rewrite (Z.mod_small x) by lia. case_match.
  - by rewrite Z.mod_small.
  - replace (x - 2 ^ w) with (x + (-1) * 2 ^ w) by lia.
    by rewrite Z.mod_add, Z.mod_small by lia.
Qed.

(** ** Byte vectors *)

(** A [std::vector<std::uint8_t>] or a [std::string]: its bytes. *)
Abbreviation bytes := (list Z).
Abbreviation len l := (Z.of_nat (length l)).

Definition byte_ok (b : Z) : Prop := 0 <= b < 256.
Definition bytes_ok (l : bytes) : Prop := Forall byte_ok l.

#[global] Instance byte_ok_dec b : Decision (byte_ok b).
Proof. unfold byte_ok. apply _. Defined.

(** The bytes of a string literal. *)
Fixpoint str (s : string) : bytes :=
  match s with
  | EmptyString => []
  | String c s' => Z.of_nat (Ascii.nat_of_ascii c) :: str s'
  end.

(** [data[i]]. *)
Definition byte_at (l : bytes) (i : Z) : Z := nth (Z.to_nat i) l 0.

(** The [n] bytes from [off]. *)
Definition slice (l : bytes) (off n : Z) : bytes :=
  take (Z.to_nat n) (drop (Z.to_nat off) l).

(** [std::memcpy(data + off, bs)]. *)
Definition splice (l : bytes) (off : Z) (bs : bytes) : bytes :=
  take (Z.to_nat off) l ++ bs ++ drop (Z.to_nat off + length bs) l.

(** [std::vector(n, 0)]. *)
Definition zeros (n : Z) : bytes := replicate (Z.to_nat n) 0.

(** [n] bytes of [v], the lowest first. *)
Fixpoint le_bytes (n : nat) (v : Z) : bytes :=
  match n with
  | O => []
  | S n' => Z.land v 255 :: le_bytes n' (Z.shiftr v 8)
  end.

(** The little-endian value of some bytes. *)
Fixpoint le_value (l : bytes) : Z :=
  match l with
  | [] => 0
  | b :: l' => Z.lor b (Z.shiftl (le_value l') 8)
  end.

(** [std::vector::insert(begin + at, xs)] and [erase(begin + a, begin + b)]. *)
Definition insert_at {A} (l : list A) (at_ : nat) (xs : list A) : list A :=
  take at_ l ++ xs ++ drop at_ l.
Definition erase {A} (l : list A) (a b : nat) : list A := take a l ++ drop b l.

(** [std::lower_bound] over the indices [first, first + count): halving, with
    [less i] the comparison of element [i] with the wanted value.  The count
    falls with every turn, so [count] turns are enough. *)
Fixpoint lower_bound_loop (fuel : nat) (less : nat -> bool) (first count : nat) : nat :=
  match fuel with
  | O => first
  | S fuel' =>
      if (count =? 0)%nat then first
      else
        let half := (count / 2)%nat in
        let mid := (first + half)%nat in
        if less mid then lower_bound_loop fuel' less (mid + 1) (count - (half + 1))
        else lower_bound_loop fuel' less first half
  end.

Definition lower_bound (less : nat -> bool) (count : nat) : nat :=
  lower_bound_loop count less 0 count.

(** ** Bits *)

Create Rewrite HintDb zbits.
#[export] Hint Rewrite Z.land_spec Z.lor_spec Z.lxor_spec Z.ldiff_spec Z.bits_0 : zbits.
#[export] Hint Rewrite Z.shiftl_spec Z.shiftr_spec using lia : zbits.

(** Proves an equality of two integers bit by bit: [i] is the bit index. *)
Ltac bitwise i :=
  apply Z.bits_inj'; intros i ?; autorewrite with zbits.

Lemma testbit_255 i : 0 <= i -> Z.testbit 255 i = bool_decide (i < 8).
Proof.
  intros Hi. change 255 with (Z.ones 8). rewrite Z.testbit_ones_nonneg by lia.
  destruct (Z.ltb_spec i 8); symmetry; [apply bool_decide_eq_true|apply bool_decide_eq_false]; lia.
Qed.

(** Bits above the width of a value are clear. *)
Lemma testbit_above w x i : in_u w x -> w <= i -> Z.testbit x i = false.
Proof.
  intros [H0 H1] Hi. destruct (decide (w < 0)) as [Hw|Hw].
  { rewrite Z.pow_neg_r in H1 by lia. lia. }
  destruct (decide (x = 0)) as [->|Hx]; [apply Z.bits_0|].
  apply Z.bits_above_log2; [lia|]. apply Z.log2_lt_pow2; [lia|].
  eapply Z.lt_le_trans; [exact H1|]. apply Z.pow_le_mono_r; lia.
Qed.

Lemma in_u_bits w x : 0 <= w -> 0 <= x -> (forall i, w <= i -> Z.testbit x i = false) -> in_u w x.
Proof.
  intros Hw Hx Hb. split; [done|].
  destruct (decide (x = 0)) as [->|Hx0]; [apply Z.pow_pos_nonneg; lia|].
  apply Z.log2_lt_pow2; [lia|].
  destruct (decide (Z.log2 x < w)) as [|Hl]; [done|].
  specialize (Hb (Z.log2 x) ltac:(lia)). rewrite Z.bit_log2 in Hb by lia. done.
Qed.

Lemma byte_bits_above b i : byte_ok b -> 8 <= i -> Z.testbit b i = false.
Proof. intros Hb Hi. by apply (testbit_above 8). Qed.

Lemma land_255 b : Z.land b 255 = b mod 256.
Proof. change 255 with (Z.ones 8). by rewrite Z.land_ones. Qed.

Lemma byte_land_255 b : byte_ok (Z.land b 255).
Proof. rewrite land_255. apply Z.mod_pos_bound. lia. Qed.

Lemma lor_shiftl_8 b v : byte_ok b -> Z.lor b (Z.shiftl v 8) = b + 256 * v.
Proof.
  intros Hb.
  assert (Z.land b (Z.shiftl v 8) = 0) as Hd.
  { bitwise i. destruct (decide (i < 8)).
    - rewrite (Z.testbit_neg_r v) by lia. apply andb_false_r.
    - by rewrite byte_bits_above by (done || lia). }
  rewrite <- Z.lxor_lor, <- Z.add_nocarry_lxor by done.
  rewrite Z.shiftl_mul_pow2 by lia. change (2 ^ 8) with 256. lia.
Qed.

(** ** Little-endian integers *)

Lemma length_le_bytes n v : length (le_bytes n v) = n.
Proof. revert v; induction n as [|n IH]; intros v; simpl; [done|]. by rewrite IH. Qed.

Lemma bytes_ok_le_bytes n v : bytes_ok (le_bytes n v).
Proof.
  revert v; induction n as [|n IH]; intros v; simpl; constructor; [|apply IH].
  apply byte_land_255.
Qed.

Lemma le_value_bound l : bytes_ok l -> in_u (8 * len l) (le_value l).
Proof.
  unfold in_u. induction 1 as [|b l Hb Hl IH]; simpl; [done|].
  rewrite lor_shiftl_8 by done.
  replace (8 * Z.of_nat (S (length l))) with (8 + 8 * len l) by lia.
  rewrite Z.pow_add_r by lia. unfold byte_ok in Hb. change (2 ^ 8) with 256 in *. nia.
Qed.

Lemma le_value_bytes n v : le_value (le_bytes n v) = v mod 2 ^ (8 * Z.of_nat n).
Proof.
  revert v; induction n as [|n IH]; intros v.
  { simpl. by rewrite Z.mod_1_r. }
  cbn [le_bytes le_value]. rewrite lor_shiftl_8 by apply byte_land_255.
  rewrite IH, land_255, Z.shiftr_div_pow2 by lia. change (2 ^ 8) with 256.
  replace (8 * Z.of_nat (S n)) with (8 + 8 * Z.of_nat n) by lia.
  rewrite Z.pow_add_r by lia. change (2 ^ 8) with 256.
  rewrite Z.rem_mul_r by (try lia; apply Z.pow_nonzero; lia). lia.
Qed.

(** What was written little-endian at its width reads back. *)
Lemma le_value_le_bytes n v : in_u (8 * Z.of_nat n) v -> le_value (le_bytes n v) = v.
Proof. intros H. rewrite le_value_bytes. by apply Z.mod_small. Qed.

Lemma le_bytes_le_value l : bytes_ok l -> le_bytes (length l) (le_value l) = l.
Proof.
  induction 1 as [|b l Hb Hl IH]; simpl; [done|].
  assert (Z.lor b (Z.shiftl (le_value l) 8) = b + 256 * le_value l) as E by by apply lor_shiftl_8.
  rewrite land_255, Z.shiftr_div_pow2 by lia. change (2 ^ 8) with 256. rewrite E.
  unfold byte_ok in Hb. f_equal.
  - rewrite Z.mul_comm, Z.mod_add, Z.mod_small by lia. done.
  - rewrite Z.mul_comm, Z.div_add, Z.div_small by lia. by rewrite Z.add_0_l.
Qed.

Lemma le_bytes_wrap n v : le_bytes n (v mod 2 ^ (8 * Z.of_nat n)) = le_bytes n v.
Proof.
  rewrite <- le_value_bytes.
  rewrite <- (length_le_bytes n v) at 1. apply le_bytes_le_value, bytes_ok_le_bytes.
Qed.

(** ** Slices *)

Lemma byte_at_lookup l i : byte_at l i = default 0 (l !! Z.to_nat i).
Proof. unfold byte_at. by rewrite nth_lookup. Qed.

Lemma byte_at_ok l i : bytes_ok l -> byte_ok (byte_at l i).
Proof.
  intros Hl. rewrite byte_at_lookup. destruct (l !! Z.to_nat i) as [b|] eqn:E; simpl.
  - exact (Forall_lookup_1 _ _ _ _ Hl E).
  - by unfold byte_ok.
Qed.

Lemma len_slice l off n :
  0 <= off -> 0 <= n -> off + n <= len l -> len (slice l off n) = n.
Proof. intros. unfold slice. rewrite length_take, length_drop. lia. Qed.

Lemma slice_app l1 x l2 off n :
  off = len l1 -> n = len x -> slice (l1 ++ x ++ l2) off n = x.
Proof.
  intros -> ->. unfold slice. rewrite !Nat2Z.id, drop_app_length, take_app_length. done.
Qed.

Lemma slice_app_end l1 x off n : off = len l1 -> n = len x -> slice (l1 ++ x) off n = x.
Proof. intros. rewrite <- (app_nil_r x) at 1. by apply slice_app. Qed.

Lemma slice_all l n : n = len l -> slice l 0 n = l.
Proof. intros ->. unfold slice. by rewrite Nat2Z.id, take_ge. Qed.

(** A slice that lies in the first part of an append. *)
Lemma slice_app_l l1 l2 off n :
  0 <= off -> 0 <= n -> off + n <= len l1 -> slice (l1 ++ l2) off n = slice l1 off n.
Proof.
  intros. unfold slice. rewrite drop_app_le by lia. rewrite take_app_le; [done|].
  rewrite length_drop. lia.
Qed.

(** A slice that lies in the second part of an append. *)
Lemma slice_app_r l1 l2 off n :
  len l1 <= off -> slice (l1 ++ l2) off n = slice l2 (off - len l1) n.
Proof.
  intros. unfold slice. rewrite drop_app_ge by lia. do 2 f_equal. lia.
Qed.

(** A slice of a slice. *)
Lemma slice_slice l a b off n : 0 <= a -> 0 <= off -> 0 <= n -> off + n <= b ->
  slice (slice l a b) off n = slice l (a + off) n.
Proof.
  intros. unfold slice. rewrite skipn_firstn_comm, drop_drop, take_take. f_equal; [lia|]. f_equal. lia.
Qed.

Lemma bytes_ok_slice l off n : bytes_ok l -> bytes_ok (slice l off n).
Proof. intros. by apply Forall_take, Forall_drop. Qed.

Lemma len_splice l off bs :
  0 <= off -> off + len bs <= len l -> len (splice l off bs) = len l.
Proof.
  intros. unfold splice. rewrite !length_app, length_take, length_drop. lia.
Qed.

Lemma splice_app a x y c off : off = len a -> length x = length y ->
  splice (a ++ x ++ c) off y = a ++ y ++ c.
Proof.
  intros -> Hl. unfold splice. rewrite Nat2Z.id, take_app_length. do 2 f_equal.
  rewrite app_assoc. apply drop_app_length'. rewrite length_app. lia.
Qed.

(** Two writes one after the other are one write of both. *)
Lemma splice_splice l off a b : 0 <= off -> off + len a + len b <= len l ->
  splice (splice l off a) (off + len a) b = splice l off (a ++ b).
Proof.
  intros H0 Hl.
  rewrite <- (take_drop (Z.to_nat off) l). set (p := take (Z.to_nat off) l). set (q := drop (Z.to_nat off) l).
  assert (len p = off) as Hp by (subst p; rewrite length_take; lia).
  assert (length a + length b <= length q)%nat as Hq by (subst q; rewrite length_drop; lia).
  clearbody p q. rewrite <- (take_drop (length a) q), <- (take_drop (length b) (drop (length a) q)).
  rewrite drop_drop. rewrite (splice_app p _ a) by (lia || rewrite length_take; lia).
  rewrite (app_assoc p a), splice_app by (rewrite ?length_app, ?length_take, ?length_drop; lia).
  rewrite (app_assoc (take (length a) q)), splice_app
    by (rewrite ?length_app, ?length_take, ?length_drop; lia). by rewrite <- !app_assoc.
Qed.

(** A list of at least [n] elements, split after the first [n]. *)
Lemma split_len {A} (n : nat) (l : list A) : (n <= length l)%nat ->
  exists l1 l2, l = l1 ++ l2 /\ length l1 = n.
Proof.
  intros H. exists (take n l), (drop n l). rewrite take_drop, length_take. split; [done|lia].
Qed.

Lemma insert_at_app {A} (a b xs : list A) n : n = length a -> insert_at (a ++ b) n xs = a ++ xs ++ b.
Proof. intros ->. unfold insert_at. by rewrite take_app_length, drop_app_length. Qed.

Lemma erase_app {A} (a x b : list A) n m : n = length a -> m = (length a + length x)%nat ->
  erase (a ++ x ++ b) n m = a ++ b.
Proof.
  intros -> ->. unfold erase. rewrite take_app_length. f_equal.
  rewrite app_assoc. apply drop_app_length'. by rewrite length_app.
Qed.

Lemma bytes_ok_app l1 l2 : bytes_ok (l1 ++ l2) <-> bytes_ok l1 /\ bytes_ok l2.
Proof. apply Forall_app. Qed.

Lemma bytes_ok_zeros n : bytes_ok (zeros n).
Proof. apply Forall_replicate. by unfold byte_ok. Qed.

Lemma len_zeros n : 0 <= n -> len (zeros n) = n.
Proof. intros. unfold zeros. rewrite length_replicate. lia. Qed.

Lemma bytes_ok_str s : bytes_ok (str s).
Proof.
  induction s as [|c s IH]; simpl; constructor; [|done].
  unfold byte_ok. pose proof (Ascii.nat_ascii_bounded c). lia.
Qed.

Lemma slice_4 l off : 0 <= off -> off + 4 <= len l ->
  slice l off 4 = [byte_at l off; byte_at l (off + 1); byte_at l (off + 2); byte_at l (off + 3)].
Proof.
  intros H0 H4. unfold slice, byte_at. change (Z.to_nat 4) with 4%nat.
  rewrite !Z2Nat.inj_add by lia. change (Z.to_nat 1) with 1%nat. change (Z.to_nat 2) with 2%nat.
  change (Z.to_nat 3) with 3%nat. set (n := Z.to_nat off).
  assert (n + 4 <= length l)%nat as Hn by (subst n; lia). clearbody n. clear H0 H4.
  revert l Hn; induction n as [|n IH]; intros l Hn.
  - do 4 (destruct l as [|? l]; [simpl in Hn; lia|]). done.
  - destruct l as [|x l]; [simpl in Hn; lia|]. simpl in Hn. apply IH. lia.
Qed.

(** The little-endian readers of the sources: four bytes joined by or. *)
Lemma lor4_le b0 b1 b2 b3 :
  Z.lor (Z.lor (Z.lor b0 (Z.shiftl b1 8)) (Z.shiftl b2 16)) (Z.shiftl b3 24)
  = le_value [b0; b1; b2; b3].
Proof.
  cbn [le_value]. rewrite Z.shiftl_0_l, Z.lor_0_r, !Z.shiftl_lor, !Z.shiftl_shiftl by lia.
  by rewrite !Z.lor_assoc.
Qed.

(** ** Binary search *)

Lemma lower_bound_loop_spec fuel less first count k :
  (count <= fuel)%nat -> (first <= k <= first + count)%nat ->
  (forall i, (first <= i < k)%nat -> less i = true) ->
  (forall i, (k <= i < first + count)%nat -> less i = false) ->
  lower_bound_loop fuel less first count = k.
Proof.
  revert first count; induction fuel as [|fuel IH]; intros first count Hf Hk Ht Hfa; cbn [lower_bound_loop].
  { lia. }
  destruct (Nat.eqb_spec count 0) as [E|E]; [lia|].
  assert (count / 2 < count)%nat by (apply Nat.div_lt; lia).
  destruct (less (first + count / 2)%nat) eqn:El.
  - assert (first + count / 2 < k)%nat.
    { destruct (decide (first + count / 2 < k)%nat); [done|].
      rewrite (Hfa (first + count / 2)%nat) in El by lia. done. }
    apply IH; [lia|lia| |]; intros; [apply Ht|apply Hfa]; lia.
  - assert (k <= first + count / 2)%nat.
    { destruct (decide (k <= first + count / 2)%nat); [done|].
      rewrite (Ht (first + count / 2)%nat) in El by lia. done. }
    apply IH; [lia|lia| |]; intros; [apply Ht|apply Hfa]; lia.
Qed.

(** On a partitioned range the search returns the partition point. *)
Lemma lower_bound_spec less count k : (k <= count)%nat ->
  (forall i, (i < k)%nat -> less i = true) ->
  (forall i, (k <= i < count)%nat -> less i = false) -> lower_bound less count = k.
Proof. intros. apply lower_bound_loop_spec; auto with lia. Qed.

(** ** Lists *)

Lemma filter_ext {A} (P Q : A -> Prop) `{!forall x, Decision (P x), !forall x, Decision (Q x)} (l : list A) :
  (forall x, x ∈ l -> P x <-> Q x) -> filter P l = filter Q l.
Proof.
  induction l as [|x l IH]; intros Hl; [done|]. rewrite !filter_cons, IH by (intros y Hy; apply Hl; by right).
  pose proof (Hl x (list_elem_of_here x l)). destruct (decide (P x)), (decide (Q x)); tauto || done.
Qed.

Lemma filter_all {A} (P : A -> Prop) `{!forall x, Decision (P x)} (l : list A) : (forall x, x ∈ l -> P x) -> filter P l = l.
Proof.
  induction l as [|x l IH]; intros Hl; [done|]. rewrite filter_cons, decide_True by (apply Hl; by left).
  rewrite IH; [done|]. intros y Hy. apply Hl. by right.
Qed.

Lemma filter_Forall {A} (P : A -> Prop) `{!forall x, Decision (P x)} (l : list A) : Forall P l -> filter P l = l.
Proof. rewrite Forall_forall. apply filter_all. Qed.

Lemma filter_none {A} (P : A -> Prop) `{!forall x, Decision (P x)} (l : list A) : Forall (fun x => ~ P x) l -> filter P l = [].
Proof. induction 1 as [|x l Hx _ IH]; [done|]. by rewrite filter_cons_False. Qed.

Lemma StronglySorted_filter {A} (R : A -> A -> Prop) (P : A -> Prop) `{!forall x, Decision (P x)} (l : list A) :
  StronglySorted R l -> StronglySorted R (filter P l).
Proof.
  induction 1 as [|x l Hs IH HF]; [constructor|]. rewrite filter_cons. destruct (decide (P x)); [|done].
  constructor; [done|]. apply Forall_forall. intros y [_ Hy]%list_elem_of_filter. by rewrite Forall_forall in HF; apply HF.
Qed.

Lemma sorted_last {A} (R : A -> A -> Prop) (l : list A) x y : StronglySorted R l -> last l = Some x -> y ∈ l -> y = x \/ R y x.
Proof.
  intros Hs (l' & ->)%last_Some [Hy| ->%list_elem_of_singleton]%elem_of_app; [|by left]. right.
  eapply StronglySorted_app_1_elem_of; [done|done|left].
Qed.

(** ** Automation *)

Create HintDb chunkdb.
#[export] Hint Resolve wrap_bound signed_bound byte_land_255 bytes_ok_le_bytes
  bytes_ok_slice bytes_ok_zeros bytes_ok_str byte_at_ok : chunkdb.

Create Rewrite HintDb lens.
#[export] Hint Rewrite @length_app @length_cons @length_nil length_le_bytes @length_take
  @length_drop @length_replicate : lens.

(** Drops the conversions of values in range, innermost first. *)
Ltac unwrap :=
  repeat match goal with
  | |- context [wrap ?w ?x] =>
      lazymatch x with
      | context [wrap _ _] => fail
      | _ => rewrite (wrap_small w x) by (unfold in_u; lia)
      end
  end.

(** Linear arithmetic on lengths. *)
Ltac len_lia := autorewrite with lens in *; lia.
