(* ===== verification/Text.v ===== *)
(** * Text the sources build and read

    std::to_string of an integer, std::stoull as TryParseUint64 uses it
    (src/src/process_lock.cpp), and the searches in strings the file names
    need.  A string is the list of its bytes. *)
From stdpp Require Import prelude strings gmap.
From Stdlib Require Import ZArith Lia.
From S2P Require Import Prelude.

#[local] Open Scope Z_scope.

Module Text.

(** ** Integers as text *)

Definition is_digit (c : Z) : bool := (48 <=? c) && (c <=? 57).

(** The decimal digits of a number below [10 ^ fuel], the last one first. *)
Fixpoint digits_rev (fuel : nat) (n : Z) : bytes :=
  match fuel with
  | O => []
  | S fuel' => if n <? 10 then [48 + n] else 48 + n mod 10 :: digits_rev fuel' (n / 10)
  end.

(** Every number has fewer decimal digits than binary ones. *)
Definition digits (n : Z) : bytes := rev (digits_rev (Z.to_nat (Z.log2 n + 1)) n).

Definition to_string (n : Z) : bytes := if n <? 0 then str "-" ++ digits (- n) else digits n.

(** ** Text as integers *)

Definition digits_value (l : bytes) : Z := fold_left (fun v c => v * 10 + (c - 48)) l 0.

(** The longest prefix whose elements satisfy [p], and the rest. *)
Fixpoint span {A} (p : A -> bool) (l : list A) : list A * list A :=
  match l with
  | x :: l' => if p x then let '(a, b) := span p l' in (x :: a, b) else ([], l)
  | [] => ([], [])
  end.

Definition is_space (c : Z) : bool := (c =? 32) || ((9 <=? c) && (c <=? 13)).

Definition sign (l : bytes) : bool * bytes :=
  match l with
  | c :: l' => if c =? 45 then (true, l') else if c =? 43 then (false, l') else (false, l)
  | [] => (false, l)
  end.

(** std::stoull of base ten: the value and what follows it; [None] when it
    throws.  A minus sign negates modulo 2^64. *)
Definition stoull (text : bytes) : option (Z * bytes) :=
  let '(negative, after) := sign (span is_space text).2 in
  let '(ds, rest) := span is_digit after in
  if bool_decide (ds = []) then None
  else if 2 ^ 64 <=? digits_value ds then None
  else Some (if negative : bool then u64 (- digits_value ds) else digits_value ds, rest).

Definition TryParseUint64 (text : bytes) : option Z :=
  match stoull text with Some (v, []) => Some v | _ => None end.

(** ** Searching *)

Definition starts_with (l p : bytes) : bool := bool_decide (take (length p) l = p).
Definition ends_with (l s : bytes) : bool := (length s <=? length l)%nat && bool_decide (drop (length l - length s) l = s).

(** Where [p] first occurs in [l]. *)
Fixpoint find (l p : bytes) : option nat :=
  if starts_with l p then Some O
  else match l with [] => None | _ :: l' => S <$> find l' p end.

(** ** Printed numbers read back *)

Lemma digits_value_app a c : digits_value (a ++ [c]) = digits_value a * 10 + (c - 48).
Proof. unfold digits_value. by rewrite fold_left_app. Qed.

Lemma digits_rev_value fuel : forall n, 0 <= n < 10 ^ Z.of_nat fuel -> digits_value (rev (digits_rev fuel n)) = n.
Proof.
  induction fuel as [|fuel IH]; intros n Hn; [cbn in *; lia|]. cbn [digits_rev].
  destruct (Z.ltb_spec n 10); [cbn; lia|]. cbn [rev]. pose proof (Z.div_mod n 10 ltac:(lia)) as Hd.
  rewrite digits_value_app, IH; [lia|].
  rewrite Nat2Z.inj_succ, Z.pow_succ_r in Hn by lia. split; [by apply Z.div_pos; lia|apply Z.div_lt_upper_bound; lia].
Qed.

Lemma digits_rev_digits fuel : forall n, 0 <= n -> Forall (fun c => is_digit c = true) (digits_rev fuel n).
Proof.
  induction fuel as [|fuel IH]; intros n Hn; cbn [digits_rev]; [constructor|].
  destruct (Z.ltb_spec n 10); (apply Forall_cons; split; [unfold is_digit|]); [lia|constructor| |apply IH; by apply Z.div_pos].
  pose proof (Z.mod_pos_bound n 10 ltac:(lia)). lia.
Qed.

Lemma digits_fuel n : 0 <= n -> n < 10 ^ Z.of_nat (Z.to_nat (Z.log2 n + 1)).
Proof.
  intros Hn. pose proof (Z.log2_nonneg n). rewrite Z2Nat.id by lia.
  destruct (Z.eq_dec n 0) as [->|]; [done|].
  pose proof (Z.log2_spec n ltac:(lia)) as [_ H1]. rewrite <- Z.add_1_r in H1.
  pose proof (Z.pow_le_mono_l 2 10 (Z.log2 n + 1) ltac:(lia)). lia.
Qed.

Lemma digits_value_digits n : 0 <= n -> digits_value (digits n) = n.
Proof. intros Hn. apply digits_rev_value. split; [done|by apply digits_fuel]. Qed.

Lemma digits_are_digits n : 0 <= n -> Forall (fun c => is_digit c = true) (digits n).
Proof. intros Hn. unfold digits. apply Forall_rev. by apply digits_rev_digits. Qed.

Lemma digits_nonempty n : 0 <= n -> digits n <> [].
Proof.
  intros Hn. unfold digits. pose proof (Z.log2_nonneg n). rewrite Z2Nat.inj_add, Nat.add_1_r by lia. cbn [digits_rev].
  destruct (n <? 10); cbn [rev]; [done|]. intros H'. by apply app_eq_nil in H' as [_ ?].
Qed.

Lemma to_string_nonneg n : 0 <= n -> to_string n = digits n.
Proof. intros Hn. unfold to_string. destruct (Z.ltb_spec n 0); [lia|done]. Qed.

Lemma span_all {A} (p : A -> bool) l rest : Forall (fun x => p x = true) l ->
  match rest with [] => True | x :: _ => p x = false end -> span p (l ++ rest) = (l, rest).
Proof.
  intros Hl Hr. induction Hl as [|x l Hx Hl IH]; cbn; [|by rewrite Hx, IH].
  destruct rest as [|y rest]; cbn; [done|by rewrite Hr].
Qed.

Lemma digit_range c : is_digit c = true -> 48 <= c <= 57.
Proof. unfold is_digit. lia. Qed.

Lemma stoull_digits l rest : l <> [] -> Forall (fun c => is_digit c = true) l -> digits_value l < 2 ^ 64 ->
  match rest with [] => True | x :: _ => is_digit x = false end -> stoull (l ++ rest) = Some (digits_value l, rest).
Proof.
  intros Hne Hl Hv Hr. destruct l as [|c l]; [done|]. pose proof (digit_range c (Forall_inv Hl)) as Hc. unfold stoull.
  assert (span is_space ((c :: l) ++ rest) = ([], (c :: l) ++ rest)) as ->.
  { cbn. assert (is_space c = false) as -> by (unfold is_space; lia). done. }
  assert (sign ((c :: l) ++ rest) = (false, (c :: l) ++ rest)) as Es.
  { cbn [sign app]. destruct (Z.eqb_spec c 45), (Z.eqb_spec c 43); try lia. done. }
  cbn [snd]. rewrite Es, span_all by done. case_bool_decide; [done|]. destruct (Z.leb_spec (2 ^ 64) (digits_value (c :: l))); [lia|done].
Qed.

Lemma TryParseUint64_to_string n : in_u 64 n -> TryParseUint64 (to_string n) = Some n.
Proof.
  intros [H0 H1]. unfold TryParseUint64. rewrite to_string_nonneg by done. rewrite <- (app_nil_r (digits n)).
  rewrite stoull_digits; [by rewrite digits_value_digits|by apply digits_nonempty|by apply digits_are_digits|by rewrite digits_value_digits|done].
Qed.

Lemma digits_inj n m : 0 <= n -> 0 <= m -> digits n = digits m -> n = m.
Proof. intros Hn Hm H. by rewrite <- (digits_value_digits n), <- (digits_value_digits m), H. Qed.

(** The text of a number and a byte that is no digit determine both. *)
Lemma to_string_app n m a b : match a, b with x :: _, y :: _ => is_digit x = false /\ is_digit y = false | _, _ => a = [] /\ b = [] end ->
  to_string n ++ a = to_string m ++ b -> n = m /\ a = b.
Proof.
  intros Hab. assert (forall n, 0 <= n -> exists c l, digits n = c :: l /\ 48 <= c <= 57) as Hd.
  { intros k Hk. destruct (digits k) as [|c l] eqn:E; [by apply digits_nonempty in E|]. exists c, l. split; [done|].
    apply digit_range. pose proof (digits_are_digits k Hk) as Hf. rewrite E in Hf. by inversion Hf. }
  assert (forall n m, 0 <= n -> 0 <= m -> digits n ++ a = digits m ++ b -> n = m /\ a = b) as Hnn.
  { intros k j Hk Hj H.
    assert (span is_digit (digits k ++ a) = (digits k, a)) as Ek by (apply span_all; [by apply digits_are_digits|by destruct a, b; try destruct Hab]).
    assert (span is_digit (digits j ++ b) = (digits j, b)) as Ej by (apply span_all; [by apply digits_are_digits|by destruct a, b; try destruct Hab]).
    rewrite H, Ej in Ek. injection Ek as E1 E2. split; [|done]. by apply digits_inj. }
  unfold to_string. destruct (Z.ltb_spec n 0), (Z.ltb_spec m 0).
  - cbn [str app]. intros [= H']. destruct (Hnn (- n) (- m)) as [? ?]; [lia|lia|done|]. split; [lia|done].
  - destruct (Hd m) as (c & l & E & Hc); [lia|]. rewrite E. cbn. intros H'. exfalso. injection H' as H1 H2. clear H2. vm_compute in H1. lia.
  - destruct (Hd n) as (c & l & E & Hc); [lia|]. rewrite E. cbn. intros H'. exfalso. injection H' as H1 H2. clear H2. vm_compute in H1. lia.
  - apply Hnn; lia.
Qed.

Lemma to_string_inj n m : to_string n = to_string m -> n = m.
Proof. intros H. apply (to_string_app n m [] []); [done|]. by rewrite H. Qed.

Lemma starts_with_app p l : starts_with (p ++ l) p = true.
Proof. unfold starts_with. rewrite take_app_length. by case_bool_decide. Qed.

Lemma ends_with_app l s : ends_with (l ++ s) s = true.
Proof.
  unfold ends_with. rewrite length_app. apply andb_true_intro. split; [apply Nat.leb_le; lia|].
  replace (length l + length s - length s)%nat with (length l) by lia. rewrite drop_app_length. by case_bool_decide.
Qed.

End Text.
