(* ===== verification/Zrle.v ===== *)
(** * Zero-run compression (src/src/zrle.cpp)

    The codec of compressed image sections.  A cursor into a byte vector is
    modelled by the bytes from the cursor to the end ("the rest"), so
    [*cursor >= size] reads "the rest is empty".  Every loop that is not
    structural carries fuel, and the theorems show that the fuel given by its
    caller is enough. *)
From stdpp Require Import prelude strings.
From Stdlib Require Import ZArith Lia.
From S2P Require Import Prelude.

#[local] Open Scope Z_scope.

Definition kZrleCodecId : Z := 1.
Definition kZrleMaxOverheadBytes : Z := 11.

Module Zrle.

(** [while (value >= 0x80U)]: seven bits a turn, ten turns for 64 bits. *)
Fixpoint AppendUleb128_loop (fuel : nat) (out : bytes) (value : Z) : res bytes :=
  if 128 <=? value then
    match fuel with
    | O => Err out_of_fuel
    | S fuel' =>
        AppendUleb128_loop fuel' (out ++ [u8 (Z.lor (Z.land value 127) 128)]) (Z.shiftr value 7)
    end
  else Ok (out ++ [u8 value]).

Definition AppendUleb128 (out : bytes) (value : Z) : res bytes :=
  AppendUleb128_loop 9 out value.

(** Reads from [rest]; [shift] leaves the loop by the guard at 63. *)
Fixpoint ReadUleb128_loop (fuel : nat) (rest : bytes) (value shift : Z) : res (Z * bytes) :=
  match rest with
  | [] => Err (runtime_error "zrle: truncated varint")
  | byte :: rest' =>
      if 63 <=? shift then Err (runtime_error "zrle: varint too large")
      else
        let value' := Z.lor value (Z.shiftl (Z.land byte 127) shift) in
        if Z.land byte 128 =? 0 then Ok (value', rest')
        else match fuel with
             | O => Err out_of_fuel
             | S fuel' => ReadUleb128_loop fuel' rest' value' (shift + 7)
             end
  end.

Definition ReadUleb128 (rest : bytes) : res (Z * bytes) := ReadUleb128_loop 9 rest 0 0.

(** The length of the run of zero bytes at the front. *)
Fixpoint ZeroRun (l : bytes) : Z :=
  match l with
  | b :: l' => if b =? 0 then 1 + ZeroRun l' else 0
  | [] => 0
  end.

(** The literal run: [rest] is the input from [i + run]. *)
Fixpoint LiteralRun (fuel : nat) (rest : bytes) (run : Z) : res Z :=
  match rest, fuel with
  | [], _ => Ok run
  | _, O => Err out_of_fuel
  | b :: rest', S fuel' =>
      if negb (b =? 0) then LiteralRun fuel' rest' (run + 1)
      else
        let zeros := ZeroRun rest in
        if (zeros <=? 2) && (zeros <? len rest) then
          LiteralRun fuel' (drop (Z.to_nat (zeros + 1)) rest) (run + (zeros + 1))
        else Ok run
  end.

(** The main loop of ZrleCompress: [input] is what is left from [i]. *)
Fixpoint CompressLoop (fuel : nat) (input out : bytes) : res bytes :=
  match input, fuel with
  | [], _ => Ok out
  | _, O => Err out_of_fuel
  | b :: rest, S fuel' =>
      if b =? 0 then
        let run := 1 + ZeroRun rest in
        out' ← AppendUleb128 (out ++ [0]) run;
        CompressLoop fuel' (drop (Z.to_nat run) input) out'
      else
        run ← LiteralRun (length rest) rest 1;
        out' ← AppendUleb128 (out ++ [1]) run;
        CompressLoop fuel' (drop (Z.to_nat run) input) (out' ++ take (Z.to_nat run) input)
  end.

(** The codec byte and the size, little-endian. *)
Definition Header (size32 : Z) : bytes :=
  [kZrleCodecId; u8 (Z.land size32 255); u8 (Z.land (Z.shiftr size32 8) 255);
   u8 (Z.land (Z.shiftr size32 16) 255); u8 (Z.land (Z.shiftr size32 24) 255)].

Definition ZrleCompress (input : bytes) : res bytes :=
  _ ← throw_if (2 ^ 32 - 1 <? len input) (runtime_error "zrle: input too large");
  out ← CompressLoop (length input) input (Header (u32 (len input)));
  let literal_only := take 5 out in
  literal_only ← (if negb (len input =? 0) then AppendUleb128 (literal_only ++ [1]) (len input)
                  else Ok literal_only);
  if len literal_only + len input <? len out then Ok (literal_only ++ input) else Ok out.

(** [data[1] | data[2] << 8 | data[3] << 16 | data[4] << 24]. *)
Definition DeclaredField (data : bytes) : Z :=
  Z.lor (Z.lor (Z.lor (byte_at data 1) (Z.shiftl (byte_at data 2) 8))
               (Z.shiftl (byte_at data 3) 16)) (Z.shiftl (byte_at data 4) 24).

Fixpoint DecompressLoop (fuel : nat) (rest : bytes) (expected : Z) (out : bytes) : res bytes :=
  match rest, fuel with
  | [], _ => Ok out
  | _, O => Err out_of_fuel
  | token :: rest', S fuel' =>
      '(run, rest') ← ReadUleb128 rest';
      _ ← throw_if (run =? 0) (runtime_error "zrle: zero-length run");
      _ ← throw_if (u64 (expected - len out) <? run)
            (runtime_error "zrle: output overflows expected size");
      if token =? 0 then DecompressLoop fuel' rest' expected (out ++ zeros run)
      else if token =? 1 then
        _ ← throw_if (len rest' <? run) (runtime_error "zrle: truncated literal run");
        DecompressLoop fuel' (drop (Z.to_nat run) rest') expected (out ++ take (Z.to_nat run) rest')
      else Err (runtime_error "zrle: unknown token")
  end.

Definition ZrleDecompress (data : bytes) (expected_output_size : Z) : res bytes :=
  _ ← throw_if (len data <? 5) (runtime_error "zrle: input too small");
  _ ← throw_if (negb (byte_at data 0 =? kZrleCodecId))
        (runtime_error "zrle: unsupported codec id");
  _ ← throw_if (negb (DeclaredField data =? expected_output_size))
        (runtime_error "zrle: declared size does not match expected size");
  out ← DecompressLoop (length data) (drop 5 data) expected_output_size [];
  _ ← throw_if (negb (len out =? expected_output_size))
        (runtime_error "zrle: output smaller than expected size");
  Ok out.

Definition ZrleDeclaredSize (data : bytes) : res Z :=
  _ ← throw_if ((len data <? 5) || negb (byte_at data 0 =? kZrleCodecId))
        (runtime_error "zrle input has no valid header");
  Ok (DeclaredField data).

(** ** Varints *)

Lemma uleb_byte_more v : 0 <= v ->
  let b := u8 (Z.lor (Z.land v 127) 128) in
  Z.land b 127 = Z.land v 127 /\ Z.land b 128 = 128.
Proof.
  intros Hv. assert (byte_ok (Z.lor (Z.land v 127) 128)) as Hb.
  { apply (in_u_bits 8); [lia|apply Z.lor_nonneg; split; [apply Z.land_nonneg|]; lia|].
    intros i Hi. autorewrite with zbits. rewrite (testbit_above 8 127), (testbit_above 8 128) by (done || lia).
    by rewrite andb_false_r. }
  cbv zeta. rewrite wrap_small by done. split.
  - rewrite Z.land_lor_distr_l, <- Z.land_assoc. simpl. by rewrite Z.lor_0_r.
  - rewrite Z.land_lor_distr_l, <- Z.land_assoc. simpl. by rewrite Z.land_0_r, Z.lor_0_l.
Qed.

Lemma lor_land_shift v acc shift : 0 <= v -> 0 <= shift ->
  Z.lor (Z.lor acc (Z.shiftl (Z.land v 127) shift)) (Z.shiftl (Z.shiftr v 7) (shift + 7))
  = Z.lor acc (Z.shiftl v shift).
Proof.
  intros Hv Hs. rewrite <- Z.lor_assoc. f_equal. bitwise i.
  change 127 with (Z.ones 7).
  destruct (decide (i < shift)) as [Hi|Hi].
  { rewrite !(Z.testbit_neg_r _ (i - _)) by lia. done. }
  rewrite Z.testbit_ones_nonneg by lia.
  destruct (decide (i - shift < 7)) as [Hlt|Hge].
  - rewrite (proj2 (Z.ltb_lt _ _)) by lia.
    rewrite (Z.testbit_neg_r (Z.shiftr v 7)) by lia. by rewrite andb_true_r, orb_false_r.
  - rewrite (proj2 (Z.ltb_ge _ _)) by lia.
    rewrite Z.shiftr_spec by lia. rewrite andb_false_r, orb_false_l. f_equal. lia.
Qed.

Lemma uleb_small_append fuel out v : v < 128 -> AppendUleb128_loop fuel out v = Ok (out ++ [u8 v]).
Proof. intros H. destruct fuel; simpl; by rewrite (proj2 (Z.leb_gt _ _)) by lia. Qed.

Lemma uleb_small_read fuel rest v acc shift : 0 <= v < 128 -> shift < 63 ->
  ReadUleb128_loop fuel (u8 v :: rest) acc shift = Ok (Z.lor acc (Z.shiftl v shift), rest).
Proof.
  intros Hv Hs. rewrite wrap_small by (unfold in_u; lia).
  assert (Z.land v 127 = v) as E1.
  { change 127 with (Z.ones 7). rewrite Z.land_ones by lia. by apply Z.mod_small. }
  assert (Z.land v 128 = 0) as E2.
  { rewrite <- E1, <- Z.land_assoc. apply Z.land_0_r. }
  destruct fuel; simpl; rewrite (proj2 (Z.leb_gt _ _)) by lia; by rewrite E2, E1.
Qed.

(** The bytes AppendUleb128 appends, what they read back as, how many. *)
Lemma uleb_append_read k v : 0 <= v < 2 ^ (7 * (Z.of_nat k + 1)) ->
  exists u, (length u <= k + 1)%nat /\
    (forall fuel out, (k <= fuel)%nat -> AppendUleb128_loop fuel out v = Ok (out ++ u)) /\
    (forall fuel rest acc shift, (k <= fuel)%nat -> 0 <= shift -> shift + 7 * Z.of_nat k < 63 ->
       ReadUleb128_loop fuel (u ++ rest) acc shift = Ok (Z.lor acc (Z.shiftl v shift), rest)).
Proof.
  revert v; induction k as [|k IH]; intros v Hv; destruct (Z.leb_spec 128 v) as [H128|H128].
  - simpl in Hv. lia.
  - exists [u8 v]. split; [simpl; lia|]. split; intros; [by apply uleb_small_append|].
    apply uleb_small_read; lia.
  - destruct (IH (Z.shiftr v 7)) as (u & Hlen & Ha & Hr).
    { rewrite Z.shiftr_div_pow2 by lia. split; [apply Z.div_pos; lia|].
      apply Z.div_lt_upper_bound; [lia|]. rewrite <- Z.pow_add_r by lia.
      replace (7 + 7 * (Z.of_nat k + 1)) with (7 * (Z.of_nat (S k) + 1)) by lia. lia. }
    destruct (uleb_byte_more v ltac:(lia)) as [E1 E2].
    exists (u8 (Z.lor (Z.land v 127) 128) :: u). split; [simpl; lia|]. split.
    + intros [|fuel] out Hf; [lia|]. simpl. rewrite (proj2 (Z.leb_le _ _)) by lia.
      rewrite Ha by lia. by rewrite <- app_assoc.
    + intros [|fuel] rest acc shift Hf Hs Hk; [lia|]. cbn -[Z.mul wrap].
      rewrite (proj2 (Z.leb_gt _ _)) by lia. rewrite E1, E2. cbn [Z.eqb].
      rewrite Hr by lia. by rewrite lor_land_shift by lia.
  - exists [u8 v]. split; [simpl; lia|]. split; intros; [by apply uleb_small_append|].
    apply uleb_small_read; lia.
Qed.

Lemma uleb_spec k v : (k <= 8)%nat -> 0 <= v < 2 ^ (7 * (Z.of_nat k + 1)) ->
  exists u, (length u <= k + 1)%nat /\ (forall out, AppendUleb128 out v = Ok (out ++ u)) /\
    (forall rest, ReadUleb128 (u ++ rest) = Ok (v, rest)).
Proof.
  intros Hk Hv. destruct (uleb_append_read k v Hv) as (u & Hl & Ha & Hr).
  exists u. split; [done|]. split; intros; [apply Ha; lia|].
  unfold ReadUleb128. rewrite Hr by lia. by rewrite Z.shiftl_0_r, Z.lor_0_l.
Qed.

Lemma uleb_read_rest fuel rest value shift v rest' :
  ReadUleb128_loop fuel rest value shift = Ok (v, rest') ->
  (length rest' < length rest)%nat /\ (bytes_ok rest -> bytes_ok rest').
Proof.
  revert rest value shift; induction fuel as [|fuel IH]; intros [|b rest] value shift;
    simpl; try done; repeat case_match; try done; intros H'; simplify_eq.
  - split; [lia|]. by inversion 1.
  - split; [lia|]. by inversion 1.
  - apply IH in H' as [Hl Hb]. split; [lia|]. inversion 1; auto.
Qed.

(** The guard at shift 63 is met before ten bytes are read. *)
Lemma uleb_read_fuel fuel rest value shift :
  63 <= shift + 7 * Z.of_nat fuel -> ReadUleb128_loop fuel rest value shift <> Err out_of_fuel.
Proof.
  revert rest value shift; induction fuel as [|fuel IH]; intros [|b rest] value shift Hs;
    simpl; try done; destruct (Z.leb_spec 63 shift); try done; [lia|].
  case_match; [done|]. apply IH. lia.
Qed.

(** ** Token streams *)

(** [encodes s x]: the token stream [s] stands for the bytes [x]. *)
Inductive encodes : bytes -> bytes -> Prop :=
| encodes_nil : encodes [] []
| encodes_zeros u n s x :
    0 < n -> (forall rest, ReadUleb128 (u ++ rest) = Ok (n, rest)) ->
    encodes s x -> encodes (0 :: u ++ s) (zeros n ++ x)
| encodes_literal u b s x :
    0 < len b -> (forall rest, ReadUleb128 (u ++ rest) = Ok (len b, rest)) ->
    encodes s x -> encodes (1 :: u ++ b ++ s) (b ++ x).

Lemma ZeroRun_spec l : 0 <= ZeroRun l <= len l /\ take (Z.to_nat (ZeroRun l)) l = zeros (ZeroRun l).
Proof.
  induction l as [|b l [IHb IH]]; simpl; [done|].
  destruct (Z.eqb_spec b 0) as [->|Hb].
  - split; [lia|]. unfold zeros. rewrite Z2Nat.inj_add by lia. simpl. f_equal. exact IH.
  - split; [lia|done].
Qed.

Lemma LiteralRun_spec fuel l run : (length l <= fuel)%nat ->
  exists r, LiteralRun fuel l run = Ok r /\ run <= r <= run + len l.
Proof.
  revert l run; induction fuel as [|fuel IH]; intros [|b l] run Hf; simpl in Hf; try lia.
  - exists run. simpl. split; [done|lia].
  - exists run. simpl. split; [done|lia].
  - cbn [LiteralRun]. destruct (ZeroRun_spec (b :: l)) as [Hz _].
    destruct (b =? 0) eqn:Hb; cbn [negb].
    + destruct ((ZeroRun (b :: l) <=? 2) && (ZeroRun (b :: l) <? len (b :: l))) eqn:Hc.
      * apply andb_true_iff in Hc as [_ Hc]. apply Z.ltb_lt in Hc.
        destruct (IH (drop (Z.to_nat (ZeroRun (b :: l) + 1)) (b :: l)) (run + (ZeroRun (b :: l) + 1)))
          as (r & -> & Hr).
        { rewrite length_drop. simpl in *. lia. }
        exists r. split; [done|]. rewrite length_drop in Hr. simpl length in *. lia.
      * exists run. split; [done|]. simpl. lia.
    + destruct (IH l (run + 1) ltac:(lia)) as (r & -> & Hr). exists r. split; [done|]. simpl. lia.
Qed.

Lemma CompressLoop_encodes fuel input out : (length input <= fuel)%nat -> len input < 2 ^ 32 ->
  exists s, CompressLoop fuel input out = Ok (out ++ s) /\ encodes s input.
Proof.
  revert input out; induction fuel as [|fuel IH]; intros [|b rest] out Hf Hlen; simpl in Hf; try lia.
  - exists []. rewrite app_nil_r. split; [done|constructor].
  - exists []. rewrite app_nil_r. split; [done|constructor].
  - cbn [CompressLoop]. destruct (ZeroRun_spec rest) as [Hz Hzt]. simpl length in Hlen.
    destruct (Z.eqb_spec b 0) as [->|Hb].
    + set (run := 1 + ZeroRun rest). assert (1 <= run <= len (0 :: rest)) as Hrun by (simpl; lia).
      destruct (uleb_spec 8 run) as (u & _ & Ha & Hr); [lia|simpl in *; lia|].
      destruct (IH (drop (Z.to_nat run) (0 :: rest)) ((out ++ [0]) ++ u)) as (s & Hs & He);
        [rewrite length_drop; simpl in *; lia..|].
      exists (0 :: u ++ s). rewrite Ha. cbn [mbind res_bind]. rewrite Hs. split.
      { f_equal. by rewrite <- !app_assoc. }
      replace (0 :: rest) with (zeros run ++ drop (Z.to_nat run) (0 :: rest)).
      { apply encodes_zeros; [lia|done|done]. }
      rewrite <- (take_drop (Z.to_nat run) (0 :: rest)) at 2. f_equal.
      subst run. unfold zeros. rewrite Z2Nat.inj_add by lia. simpl. f_equal. symmetry. exact Hzt.
    + destruct (LiteralRun_spec (length rest) rest 1 ltac:(lia)) as (run & HL & Hrun).
      destruct (uleb_spec 8 run) as (u & _ & Ha & Hr); [lia|simpl in *; lia|].
      set (x := b :: rest). assert (len x = 1 + len rest) as Hx by (subst x; simpl; lia).
      destruct (IH (drop (Z.to_nat run) x) (((out ++ [1]) ++ u) ++ take (Z.to_nat run) x))
        as (s & Hs & He); [rewrite length_drop; lia..|].
      exists (1 :: u ++ take (Z.to_nat run) x ++ s). rewrite HL. cbn [mbind res_bind]. rewrite Ha.
      cbn [mbind res_bind]. rewrite Hs. split; [f_equal; by rewrite <- !app_assoc|].
      rewrite <- (take_drop (Z.to_nat run) x) at 2.
      assert (len (take (Z.to_nat run) x) = run) as Ht by (rewrite length_take; lia).
      apply encodes_literal; [lia|by rewrite Ht|done].
Qed.

Lemma DecompressLoop_encodes fuel s x expected out :
  encodes s x -> (length s <= fuel)%nat -> len out + len x <= expected < 2 ^ 64 ->
  DecompressLoop fuel s expected out = Ok (out ++ x).
Proof.
  intros He. revert fuel out; induction He as [|u n s x Hn Hu He IH|u b s x Hn Hu He IH];
    intros fuel out Hf Hlen.
  - rewrite app_nil_r. by destruct fuel.
  - destruct fuel as [|fuel]; [simpl in Hf; lia|]. simpl in Hf. cbn [DecompressLoop].
    rewrite length_app in Hf, Hlen. rewrite Nat2Z.inj_add, len_zeros in Hlen by lia.
    rewrite Hu. cbn [mbind res_bind]. rewrite wrap_small by (unfold in_u; lia).
    pass_guard by (apply Z.eqb_neq; lia). pass_guard by (apply Z.ltb_ge; lia). cbn [Z.eqb].
    rewrite IH, <- app_assoc; [done|lia|]. rewrite length_app, Nat2Z.inj_add, len_zeros; lia.
  - destruct fuel as [|fuel]; [simpl in Hf; lia|]. simpl in Hf. cbn [DecompressLoop].
    rewrite !length_app in Hf. rewrite length_app in Hlen.
    rewrite Hu. cbn [mbind res_bind]. rewrite wrap_small by (unfold in_u; lia).
    pass_guard by (apply Z.eqb_neq; lia). pass_guard by (apply Z.ltb_ge; lia). cbn [Z.eqb Pos.eqb].
    pass_guard by (apply Z.ltb_ge; rewrite length_app; lia).
    rewrite Nat2Z.id, take_app_length, drop_app_length, IH, <- app_assoc; [done|lia|].
    rewrite length_app. lia.
Qed.

(** ** Whole vectors *)

Lemma Header_le n : Header n = kZrleCodecId :: le_bytes 4 n.
Proof.
  unfold Header. cbn [le_bytes]. rewrite !Z.shiftr_shiftr by lia.
  by rewrite !(wrap_small 8) by apply byte_land_255.
Qed.

Lemma DeclaredField_le b0 b1 b2 b3 b4 s :
  DeclaredField (b0 :: b1 :: b2 :: b3 :: b4 :: s) = le_value [b1; b2; b3; b4].
Proof.
  apply lor4_le.
Qed.

Lemma DeclaredField_Header n s : 0 <= n < 2 ^ 32 -> DeclaredField (Header n ++ s) = n.
Proof.
  intros Hn. rewrite Header_le. cbn [le_bytes app]. rewrite DeclaredField_le.
  exact (le_value_le_bytes 4 n Hn).
Qed.

(** What ZrleCompress returns: the header and a token stream for the input. *)
Lemma ZrleCompress_stream input : len input < 2 ^ 32 ->
  exists s, ZrleCompress input = Ok (Header (len input) ++ s) /\ encodes s input /\
    len s <= len input + 6.
Proof.
  intros Hlen. unfold ZrleCompress.
  rewrite throw_if_false by (apply Z.ltb_ge; lia). cbn [mbind res_bind].
  rewrite wrap_small by (unfold in_u; lia).
  destruct (CompressLoop_encodes (length input) input (Header (len input)) ltac:(done) Hlen)
    as (s & -> & He). cbn [mbind res_bind].
  change 5%nat with (length (Header (len input))). rewrite take_app_length.
  destruct (Z.eqb_spec (len input) 0) as [E|E]; cbn [negb mbind res_bind].
  - case_match eqn:Hc; [apply Z.ltb_lt in Hc|apply Z.ltb_ge in Hc].
    + assert (input = []) as -> by (apply length_zero_iff_nil; lia).
      exists []. split; [done|]. split; [constructor|simpl; lia].
    + exists s. split; [done|]. split; [done|]. len_lia.
  - destruct (uleb_spec 4 (len input)) as (u & Hu & Ha & Hr); [lia|lia|].
    rewrite Ha. cbn [mbind res_bind].
    case_match eqn:Hc; [apply Z.ltb_lt in Hc|apply Z.ltb_ge in Hc].
    + exists (1 :: u ++ input). rewrite <- !app_assoc. split; [done|]. split; [|len_lia].
      rewrite <- (app_nil_r input) at 1. rewrite <- (app_nil_r input) at 2.
      apply encodes_literal; [lia|done|constructor].
    + exists s. split; [done|]. split; [done|]. len_lia.
Qed.

Lemma DecompressLoop_ok fuel rest expected out x :
  len out <= expected < 2 ^ 64 -> DecompressLoop fuel rest expected out = Ok x ->
  len x <= expected /\ (bytes_ok out -> bytes_ok rest -> bytes_ok x).
Proof.
  revert rest out; induction fuel as [|fuel IH]; intros [|t rest] out Hlen H;
    cbn [DecompressLoop] in H; simplify_eq; try (split; [lia|done]).
  res_inv. destruct a as [run rest']. res_inv.
  apply uleb_read_rest in Hs as [_ Hb].
  apply Z.ltb_ge in Hs1. rewrite wrap_small in Hs1 by (unfold in_u; lia).
  case_match; [|case_match; [|done]]; res_inv.
  - apply IH in H as [Hle Hby].
    + split; [done|]. intros Ho Hr. inversion Hr. apply Hby; [|auto].
      apply bytes_ok_app; split; [done|apply bytes_ok_zeros].
    + rewrite length_app. destruct (decide (0 <= run)).
      * pose proof (len_zeros run). lia.
      * replace (zeros run) with (@nil Z) by (unfold zeros; by rewrite Z2Nat.nonpos by lia). simpl. lia.
  - apply IH in H as [Hle Hby].
    + split; [done|]. intros Ho Hr. inversion Hr.
      apply Hby; [apply bytes_ok_app; split; [done|]; by apply Forall_take, Hb|by apply Forall_drop, Hb].
    + rewrite length_app, length_take. lia.
Qed.

Lemma DecompressLoop_fuel fuel rest expected out :
  (length rest <= fuel)%nat -> DecompressLoop fuel rest expected out <> Err out_of_fuel.
Proof.
  revert rest out; induction fuel as [|fuel IH]; intros [|t rest] out Hf; simpl in Hf; try done; [lia|].
  cbn [DecompressLoop]. destruct (ReadUleb128 rest) as [[run rest']|e] eqn:Hr.
  - apply uleb_read_rest in Hr as [Hr _]. cbn [mbind res_bind]. unfold throw_if.
    repeat (case_match; cbn [mbind res_bind]; try done); apply IH; rewrite ?length_drop; lia.
  - cbn [mbind res_bind]. intros [= ->]. by apply uleb_read_fuel in Hr.
Qed.

(** Compression below 4 GiB: what comes out, and how long it is. *)
Lemma ZrleCompress_ok input : len input < 2 ^ 32 ->
  exists out, ZrleCompress input = Ok out /\ ZrleDeclaredSize out = Ok (len input) /\
    ZrleDecompress out (len input) = Ok input /\ len out <= len input + kZrleMaxOverheadBytes.
Proof.
  intros Hlen. destruct (ZrleCompress_stream input Hlen) as (s & -> & He & Hs). eexists. split; [done|].
  assert (5 <= len (Header (len input) ++ s)) as H5 by (rewrite length_app; simpl; lia).
  unfold ZrleDeclaredSize, ZrleDecompress. rewrite DeclaredField_Header by lia.
  rewrite (proj2 (Z.ltb_ge _ _)) by lia. cbn [byte_at Header nth Z.to_nat app]. split; [done|].
  rewrite Z.eqb_refl. cbn [negb throw_if mbind res_bind].
  change (byte_at _ 0 =? kZrleCodecId) with true. cbn [negb throw_if mbind res_bind].
  change (drop 5 _) with s.
  rewrite (DecompressLoop_encodes _ s input); [|done|simpl; lia|simpl; lia].
  cbn [mbind res_bind app]. rewrite Z.eqb_refl. split; [done|]. unfold kZrleMaxOverheadBytes. simpl. lia.
Qed.

(** What is decompressed has the size asked for. *)
Lemma ZrleDecompress_ok data expected out : expected < 2 ^ 64 -> ZrleDecompress data expected = Ok out ->
  len out = expected /\ ZrleDeclaredSize data = Ok expected /\ (bytes_ok data -> bytes_ok out).
Proof.
  intros Hexp H. unfold ZrleDecompress, ZrleDeclaredSize in *. res_inv. subst.
  apply negb_false_iff, Z.eqb_eq in Hs3. apply negb_false_iff, Z.eqb_eq in Hs1.
  rewrite Hs, Hs0. cbn. split; [done|]. split; [by rewrite Hs1|].
  intros Hb. apply DecompressLoop_ok in Hs2 as [_ Hok]; [|simpl; lia].
  apply Hok; [constructor|by apply Forall_drop].
Qed.

(** C36: compressing any input below 4 GiB succeeds, and decompressing the
    result with the input's size gives the input back byte for byte. *)
Theorem zrle_roundtrip (input : bytes) (Hlen : len input < 2 ^ 32) :
  exists out, ZrleCompress input = Ok out /\ ZrleDeclaredSize out = Ok (len input) /\
    ZrleDecompress out (len input) = Ok input.
Proof. destruct (ZrleCompress_ok input Hlen) as (out & H1 & H2 & H3 & _). by exists out. Qed.

Lemma zrle_roundtrip_witness : exists out,
  ZrleCompress [0; 0; 0; 7; 0; 9; 0; 0; 0; 0] = Ok out /\ ZrleDeclaredSize out = Ok 10 /\
    ZrleDecompress out 10 = Ok [0; 0; 0; 7; 0; 9; 0; 0; 0; 0].
Proof. apply (zrle_roundtrip [0; 0; 0; 7; 0; 9; 0; 0; 0; 0]). reflexivity. Defined.

(** Compressed data is never more than kZrleMaxOverheadBytes longer than
    the input, whatever its zero runs. *)
Theorem zrle_overhead (input out : bytes) (H : ZrleCompress input = Ok out) :
  len out <= len input + kZrleMaxOverheadBytes.
Proof.
  assert (len input < 2 ^ 32) as Hlen.
  { unfold ZrleCompress in H. res_inv. apply Z.ltb_ge in Hs. lia. }
  destruct (ZrleCompress_ok input Hlen) as (out' & E & _ & _ & Hl). congruence.
Qed.

Lemma zrle_overhead_witness :
  len [1; 9; 0; 0; 0; 1; 9; 1; 0; 0; 0; 1; 0; 0; 0; 1]
  <= len [1; 0; 0; 0; 1; 0; 0; 0; 1] + kZrleMaxOverheadBytes.
Proof. apply (zrle_overhead [1; 0; 0; 0; 1; 0; 0; 0; 1]). vm_compute. reflexivity. Defined.

(** Decompressing any bytes, damaged ones included, ends: it never runs
    out of the loop's fuel, and what it returns has exactly the size asked
    for, which is also the size the header declares. *)
Theorem zrle_decompress_total (data : bytes) (expected : Z) (Hexp : expected < 2 ^ 64) :
  ZrleDecompress data expected <> Err out_of_fuel /\
  (forall out, ZrleDecompress data expected = Ok out ->
     len out = expected /\ ZrleDeclaredSize data = Ok expected /\ (bytes_ok data -> bytes_ok out)).
Proof.
  unfold ZrleDecompress, ZrleDeclaredSize. split.
  - unfold throw_if. repeat (case_match; cbn [mbind res_bind]; try done).
    destruct (DecompressLoop _ _ _ _) as [out|e] eqn:E; cbn [mbind res_bind]; [by case_match|].
    intros [= ->]. revert E. apply DecompressLoop_fuel. rewrite length_drop. lia.
  - intros out H. by apply ZrleDecompress_ok.
Qed.

Lemma zrle_decompress_total_witness :
  ZrleDecompress [1; 3; 0; 0; 0; 0; 3] 3 <> Err out_of_fuel /\
  (forall out, ZrleDecompress [1; 3; 0; 0; 0; 0; 3] 3 = Ok out ->
     len out = 3 /\ ZrleDeclaredSize [1; 3; 0; 0; 0; 0; 3] = Ok 3 /\
     (bytes_ok [1; 3; 0; 0; 0; 0; 3] -> bytes_ok out)).
Proof. apply (zrle_decompress_total [1; 3; 0; 0; 0; 0; 3] 3). reflexivity. Defined.

End Zrle.
