(* ===== verification/Bits.v ===== *)
(** * Bit-addressed byte vectors

    Bit [i] of a byte vector is bit [i mod 8] of byte [i / 8], the lowest bit
    of a byte first, as every chunk buffer of the store is addressed.  This
    file holds the abstraction and the lemmas on single-bit and single-byte
    updates that the bit codec and the chunk layout share. *)
From stdpp Require Import prelude.
From Stdlib Require Import ZArith Lia.
From S2P Require Import Prelude.

#[local] Open Scope Z_scope.

Definition bit_at (l : bytes) (i : Z) : bool := Z.testbit (byte_at l (i / 8)) (i mod 8).

(** [data[i] = b]. *)
Definition set_byte (l : bytes) (i b : Z) : bytes := <[Z.to_nat i := b]> l.

(** Sets or clears one bit: [data[i / 8] |= mask] or [&= ~mask]. *)
Definition set_bit (l : bytes) (i : Z) (one : bool) : bytes :=
  let mask := u8 (Z.shiftl 1 (i mod 8)) in
  set_byte l (i / 8)
    (if one then u8 (Z.lor (byte_at l (i / 8)) mask)
     else u8 (Z.land (byte_at l (i / 8)) (Z.lnot mask))).

Lemma length_set_byte l i b : length (set_byte l i b) = length l.
Proof. apply length_insert. Qed.

Lemma length_set_bit l i b : length (set_bit l i b) = length l.
Proof. apply length_set_byte. Qed.

Lemma byte_at_set_byte l i b j : 0 <= i < len l -> 0 <= j ->
  byte_at (set_byte l i b) j = if i =? j then b else byte_at l j.
Proof.
  intros Hi Hj. rewrite !byte_at_lookup. unfold set_byte.
  destruct (Z.eqb_spec i j) as [->|Hne].
  - rewrite list_lookup_insert_eq by lia. done.
  - rewrite list_lookup_insert_ne by lia. done.
Qed.

Lemma bytes_ok_set_byte l i b : bytes_ok l -> byte_ok b -> bytes_ok (set_byte l i b).
Proof. intros. by apply Forall_insert. Qed.

Lemma bit_mask_spec i j : 0 <= i mod 8 -> 0 <= j < 8 ->
  Z.testbit (u8 (Z.shiftl 1 (i mod 8))) j = (j =? i mod 8).
Proof.
  intros _ Hj. pose proof (Z.mod_pos_bound i 8 ltac:(lia)) as Hm.
  rewrite Z.shiftl_1_l. rewrite wrap_small.
  - rewrite Z.pow2_bits_eqb by lia. by destruct (Z.eqb_spec (i mod 8) j), (Z.eqb_spec j (i mod 8)).
  - split; [lia|]. apply Z.pow_lt_mono_r; lia.
Qed.

Lemma testbit_wrap8 x j : 0 <= j < 8 -> Z.testbit (u8 x) j = Z.testbit x j.
Proof. intros. unfold wrap. by rewrite Z.mod_pow2_bits_low by lia. Qed.

(** A single-bit write changes that bit and no other. *)
Lemma bit_at_set_bit l i b j : 0 <= i < 8 * len l -> 0 <= j ->
  bit_at (set_bit l i b) j = if i =? j then b else bit_at l j.
Proof.
  intros Hi Hj. unfold bit_at, set_bit.
  pose proof (Z.div_mod i 8 ltac:(lia)). pose proof (Z.div_mod j 8 ltac:(lia)).
  pose proof (Z.mod_pos_bound i 8 ltac:(lia)). pose proof (Z.mod_pos_bound j 8 ltac:(lia)).
  rewrite byte_at_set_byte by lia.
  destruct (Z.eqb_spec (i / 8) (j / 8)) as [E|E].
  - assert (forall x y, Z.testbit (if b then u8 x else u8 y) (j mod 8)
      = if b then Z.testbit x (j mod 8) else Z.testbit y (j mod 8)) as -> by
      (intros; destruct b; by rewrite testbit_wrap8 by lia).
    rewrite Z.lor_spec, Z.land_spec, Z.lnot_spec, bit_mask_spec, E by lia.
    destruct (Z.eqb_spec (j mod 8) (i mod 8)), (Z.eqb_spec i j), b; try lia;
      by rewrite ?orb_true_r, ?andb_false_r, ?orb_false_r, ?andb_true_r.
  - destruct (Z.eqb_spec i j); [subst; lia|done].
Qed.

Lemma bytes_ok_set_bit l i b : bytes_ok l -> bytes_ok (set_bit l i b).
Proof. intros. apply bytes_ok_set_byte; [done|]. destruct b; by apply (wrap_bound 8). Qed.

(** A byte write sets the eight bits of the byte and no other. *)
Lemma bit_at_set_byte l k b j : 0 <= k < len l -> 0 <= j ->
  bit_at (set_byte l k b) j = if k =? j / 8 then Z.testbit b (j mod 8) else bit_at l j.
Proof.
  intros Hk Hj. unfold bit_at. rewrite byte_at_set_byte by (try apply Z.div_pos; lia).
  by case_match.
Qed.

Lemma byte_ext b1 b2 : byte_ok b1 -> byte_ok b2 ->
  (forall i, 0 <= i < 8 -> Z.testbit b1 i = Z.testbit b2 i) -> b1 = b2.
Proof.
  intros H1 H2 Hb. apply Z.bits_inj'. intros i Hi.
  destruct (decide (i < 8)); [by apply Hb|]. by rewrite !byte_bits_above by (done || lia).
Qed.

(** Vectors of the same length with the same bits are equal. *)
Lemma bytes_bit_ext l1 l2 : bytes_ok l1 -> bytes_ok l2 -> length l1 = length l2 ->
  (forall i, 0 <= i < 8 * len l1 -> bit_at l1 i = bit_at l2 i) -> l1 = l2.
Proof.
  intros H1 H2 Hlen Hb. apply list_eq. intros k.
  destruct (l1 !! k) as [b1|] eqn:E1.
  - assert (k < length l1)%nat as Hk by (by eapply lookup_lt_Some).
    destruct (lookup_lt_is_Some_2 l2 k ltac:(lia)) as [b2 E2]. rewrite E2. f_equal.
    apply byte_ext; [exact (Forall_lookup_1 _ _ _ _ H1 E1)|exact (Forall_lookup_1 _ _ _ _ H2 E2)|].
    intros i Hi. specialize (Hb (8 * Z.of_nat k + i) ltac:(lia)). unfold bit_at in Hb.
    rewrite Z.add_comm, Z.mul_comm, Z.div_add, Z.mod_add, Z.div_small, Z.mod_small in Hb by lia.
    rewrite !byte_at_lookup in Hb. rewrite !Z.add_0_l in Hb. by rewrite Nat2Z.id, E1, E2 in Hb.
  - symmetry. apply lookup_ge_None. apply lookup_ge_None in E1. lia.
Qed.

Lemma bit_at_beyond l i : 8 * len l <= i -> bit_at l i = false.
Proof.
  intros Hi. unfold bit_at. rewrite byte_at_lookup.
  assert (len l <= i / 8) by (apply Z.div_le_lower_bound; lia).
  rewrite lookup_ge_None_2 by lia. apply Z.bits_0.
Qed.

(** [((byte >> k) & 1) == 0]. *)
Lemma land_1_eqb x : (Z.land x 1 =? 0) = negb (Z.testbit x 0).
Proof.
  change 1 with (Z.ones 1). rewrite Z.land_ones, Z.bit0_odd by lia. change (2 ^ 1) with 2.
  rewrite Zmod_odd. by destruct (Z.odd x).
Qed.

Lemma shiftr_land_1 x k : 0 <= k -> (Z.land (Z.shiftr x k) 1 =? 0) = negb (Z.testbit x k).
Proof. intros. rewrite land_1_eqb, Z.shiftr_spec by done. done. Qed.

(** Bits of a little-endian number. *)
Lemma bit_at_le_value l i : bytes_ok l -> 0 <= i -> bit_at l i = Z.testbit (le_value l) i.
Proof.
  intros Hl. revert i; induction Hl as [|b l Hb Hl IH]; intros i Hi.
  - rewrite bit_at_beyond by (simpl; lia). by rewrite Z.bits_0.
  - cbn [le_value]. rewrite Z.lor_spec. unfold bit_at. pose proof (Z.div_mod i 8 ltac:(lia)).
    pose proof (Z.mod_pos_bound i 8 ltac:(lia)). assert (0 <= i / 8) by (apply Z.div_pos; lia).
    rewrite byte_at_lookup. destruct (decide (i < 8)) as [Hi8|Hi8].
    + rewrite Z.div_small, Z.mod_small by lia. cbn. rewrite Z.shiftl_spec_low by lia. by rewrite orb_false_r.
    + rewrite (byte_bits_above b) by (done || lia). rewrite Z.shiftl_spec by lia. cbn [orb].
      replace (Z.to_nat (i / 8)) with (S (Z.to_nat ((i - 8) / 8))).
      * cbn [lookup list_lookup]. rewrite <- byte_at_lookup. rewrite <- IH by lia. unfold bit_at. f_equal.
        replace (i - 8) with (i + (-1) * 8) by lia. by rewrite Z.mod_add by lia.
      * replace (i - 8) with (i + (-1) * 8) by lia. rewrite Z.div_add by lia. lia.
Qed.

Lemma bit_at_zeros n i : bit_at (zeros n) i = false.
Proof.
  unfold bit_at. rewrite byte_at_lookup. unfold zeros.
  destruct (replicate (Z.to_nat n) 0 !! Z.to_nat (i / 8)) as [b|] eqn:E; cbn.
  - apply lookup_replicate in E as [-> _]. apply Z.bits_0.
  - apply Z.bits_0.
Qed.

(** ** Copies of whole bytes and loops over bits *)

Lemma byte_at_slice l k n j : 0 <= k -> 0 <= j < n -> byte_at (slice l k n) j = byte_at l (k + j).
Proof.
  intros Hk Hj. rewrite !byte_at_lookup. unfold slice. rewrite lookup_take_lt by lia.
  rewrite lookup_drop. do 2 f_equal. lia.
Qed.

Lemma byte_at_splice l k bs j : 0 <= k -> k + len bs <= len l -> 0 <= j ->
  byte_at (splice l k bs) j = if (k <=? j) && (j <? k + len bs) then byte_at bs (j - k) else byte_at l j.
Proof.
  intros Hk Hl Hj. rewrite !byte_at_lookup. unfold splice.
  assert (length (take (Z.to_nat k) l) = Z.to_nat k) as Ht by (rewrite length_take; lia).
  destruct (Z.leb_spec k j) as [H1|H1]; [|rewrite lookup_app_l, lookup_take_lt by lia; done].
  rewrite lookup_app_r by lia. rewrite Ht. destruct (Z.ltb_spec j (k + len bs)); cbn [andb].
  - rewrite lookup_app_l by lia. do 2 f_equal. lia.
  - rewrite lookup_app_r, lookup_drop by lia. do 2 f_equal. lia.
Qed.

Lemma div_mod_8 j : 0 <= j -> 0 <= j mod 8 < 8 /\ 0 <= j / 8 /\ j = 8 * (j / 8) + j mod 8.
Proof.
  intros. pose proof (Z.mod_pos_bound j 8 ltac:(lia)). pose proof (Z.div_mod j 8 ltac:(lia)).
  pose proof (Z.div_pos j 8 ltac:(lia) ltac:(lia)). lia.
Qed.

(** The bit [8 * k + j] lies [j] bits into the bytes from [k] on. *)
Lemma bit_shift k j : (8 * k + j) / 8 = k + j / 8 /\ (8 * k + j) mod 8 = j mod 8.
Proof.
  replace (8 * k + j) with (j + k * 8) by lia. rewrite Z.div_add, Z.mod_add by lia. lia.
Qed.

Lemma bit_at_slice l k n j : 0 <= k -> 0 <= n -> 0 <= j ->
  bit_at (slice l k n) j = (j <? 8 * n) && bit_at l (8 * k + j).
Proof.
  intros Hk Hn Hj. destruct (div_mod_8 j Hj) as (Hm & Hd & E). unfold bit_at.
  destruct (bit_shift k j) as [-> ->]. destruct (Z.ltb_spec j (8 * n)); cbn [andb].
  - rewrite byte_at_slice by lia. done.
  - rewrite byte_at_lookup. unfold slice. rewrite lookup_take_ge by lia. apply Z.bits_0.
Qed.

Lemma bit_at_splice l k bs j : 0 <= k -> k + len bs <= len l -> 0 <= j ->
  bit_at (splice l k bs) j =
  if (8 * k <=? j) && (j <? 8 * (k + len bs)) then bit_at bs (j - 8 * k) else bit_at l j.
Proof.
  intros Hk Hl Hj. destruct (div_mod_8 j Hj) as (Hm & Hd & E). unfold bit_at.
  rewrite byte_at_splice by lia. destruct (bit_shift (- k) j) as [E1 E2].
  replace (8 * - k + j) with (j - 8 * k) in * by lia. rewrite E1, E2.
  destruct (Z.leb_spec k (j / 8)), (Z.leb_spec (8 * k) j); try lia; cbn [andb]; [|done].
  destruct (Z.ltb_spec (j / 8) (k + len bs)), (Z.ltb_spec j (8 * (k + len bs))); try lia; [|done].
  f_equal. f_equal. lia.
Qed.

Lemma bytes_ok_splice l k bs : bytes_ok l -> bytes_ok bs -> bytes_ok (splice l k bs).
Proof. intros. unfold splice. apply Forall_app; split; [by apply Forall_take|]. apply Forall_app; split; [done|by apply Forall_drop]. Qed.

(** A loop that sets the bits [off + i], [i] from [a] on, one by one. *)
Lemma fold_set_bit (f : Z -> bool) off n : forall a d, 0 <= off + a -> off + a + Z.of_nat n <= 8 * len d ->
  let d' := fold_left (fun d i => set_bit d (off + i) (f i)) (seqZ a (Z.of_nat n)) d in
  length d' = length d /\ (bytes_ok d -> bytes_ok d') /\
  forall j, 0 <= j ->
    bit_at d' j = if (off + a <=? j) && (j <? off + a + Z.of_nat n) then f (j - off) else bit_at d j.
Proof.
  induction n as [|n IH]; intros a d Ha Hn.
  { change (seqZ a (Z.of_nat 0)) with ([] : list Z). cbn [fold_left]. repeat split; try done. intros j Hj.
    destruct (Z.leb_spec (off + a) j), (Z.ltb_spec j (off + a + Z.of_nat 0)); try lia; done. }
  rewrite seqZ_cons by lia. cbn [fold_left]. replace (Z.pred (Z.of_nat (S n))) with (Z.of_nat n) by lia.
  destruct (IH (Z.succ a) (set_bit d (off + a) (f a))) as (El & Hb & Hbits); [lia|rewrite length_set_bit; lia|].
  cbv zeta. rewrite El, length_set_bit. repeat split.
  - intros. by apply Hb, bytes_ok_set_bit.
  - intros j Hj. rewrite Hbits by done. rewrite bit_at_set_bit by lia.
    destruct (Z.leb_spec (off + Z.succ a) j), (Z.leb_spec (off + a) j), (Z.ltb_spec j (off + Z.succ a + Z.of_nat n)),
      (Z.ltb_spec j (off + a + Z.of_nat (S n))), (Z.eqb_spec (off + a) j); try lia; cbn [andb]; try done.
    f_equal. lia.
Qed.

(** [d'] is [d] with the [n] bits from [off] on set to [f 0], [f 1], … *)
Definition writes_bits (d d' : bytes) (off n : Z) (f : Z -> bool) : Prop :=
  length d' = length d /\ (bytes_ok d -> bytes_ok d') /\
  forall j, 0 <= j -> bit_at d' j = if (off <=? j) && (j <? off + n) then f (j - off) else bit_at d j.

Lemma writes_bits_loop f off n d : 0 <= off -> 0 <= n -> off + n <= 8 * len d ->
  writes_bits d (fold_left (fun d i => set_bit d (off + i) (f i)) (seqZ 0 n) d) off n f.
Proof.
  intros Ho Hn Hl. replace n with (Z.of_nat (Z.to_nat n)) by lia.
  destruct (fold_set_bit f off (Z.to_nat n) 0 d) as (H1 & H2 & H3); [lia|lia|].
  split; [done|]. split; [done|]. intros j Hj. rewrite H3 by done. by rewrite Z.add_0_r.
Qed.

Lemma writes_bits_splice l k bs : 0 <= k -> k + len bs <= len l -> bytes_ok bs ->
  writes_bits l (splice l k bs) (8 * k) (8 * len bs) (bit_at bs).
Proof.
  intros Hk Hl Hb. split; [pose proof (len_splice l k bs); lia|].
  split; [intros; by apply bytes_ok_splice|]. intros j Hj. rewrite bit_at_splice by lia.
  by replace (8 * (k + len bs)) with (8 * k + 8 * len bs) by lia.
Qed.

Lemma writes_bits_ext d d' off n f g : (forall i, 0 <= i < n -> f i = g i) ->
  writes_bits d d' off n f -> writes_bits d d' off n g.
Proof.
  intros Hfg (H1 & H2 & H3). split; [done|]. split; [done|]. intros j Hj. rewrite H3 by done.
  destruct (Z.leb_spec off j), (Z.ltb_spec j (off + n)); cbn [andb]; try done. apply Hfg. lia.
Qed.

#[export] Hint Rewrite length_set_byte length_set_bit : lens.
#[export] Hint Resolve bytes_ok_set_byte bytes_ok_set_bit : chunkdb.
