(* ===== verification/BitCodec.v ===== *)
(** * Bit strings (src/src/bit_codec.cpp)

    Reading a range of bits as a text of '0' and '1' and writing such a text
    over a range.  The source goes bit by bit to a byte boundary, byte by byte
    with a table, then bit by bit; the reference goes bit by bit throughout. *)
From stdpp Require Import prelude strings.
From Stdlib Require Import ZArith Lia.
From S2P Require Import Prelude Bits.

#[local] Open Scope Z_scope.

Module BitCodec.

(** The characters ['0'] and ['1']. *)
Definition bit_char (b : bool) : Z := if b then 49 else 48.

(** One row of the table: the eight bits of a byte, lowest first. *)
Definition ByteToBitCharsLsb (value : Z) : bytes :=
  map (fun bit => if negb (Z.land (Z.shiftr value bit) 1 =? 0) then 49 else 48)
    [0; 1; 2; 3; 4; 5; 6; 7].

Definition ParseBitByteLsb (bits : bytes) : Z :=
  fold_left (fun value bit =>
      if byte_at bits bit =? 49 then u8 (Z.lor value (Z.shiftl 1 bit)) else value)
    [0; 1; 2; 3; 4; 5; 6; 7] 0.

Definition WriteSingleBit (data : bytes) (bit_index : Z) (one : bool) : bytes :=
  let byte_index := bit_index / 8 in
  let offset := bit_index mod 8 in
  let mask := u8 (Z.shiftl 1 offset) in
  if one then set_byte data byte_index (u8 (Z.lor (byte_at data byte_index) mask))
  else set_byte data byte_index (u8 (Z.land (byte_at data byte_index) (Z.lnot mask))).

Definition IsBitString (bits : bytes) : bool :=
  forallb (fun c => negb (negb (c =? 48) && negb (c =? 49))) bits.

(** One bit of ExtractBits: [(data[byte_index] & mask) != 0U ? '1' : '0']. *)
Definition ExtractOne (data : bytes) (absolute_bit : Z) : Z :=
  let mask := u8 (Z.shiftl 1 (absolute_bit mod 8)) in
  if negb (Z.land (byte_at data (absolute_bit / 8)) mask =? 0) then 49 else 48.

(** The loops of ExtractBits over (absolute_bit, result so far, remaining). *)
Fixpoint ExtractAlign (data : bytes) (absolute_bit : Z) (result : bytes) (remaining : nat)
    : Z * bytes * nat :=
  match remaining with
  | S remaining' =>
      if negb (absolute_bit mod 8 =? 0) then
        ExtractAlign data (absolute_bit + 1) (result ++ [ExtractOne data absolute_bit]) remaining'
      else (absolute_bit, result, remaining)
  | O => (absolute_bit, result, remaining)
  end.

Definition ExtractMerged (data : bytes) (absolute_bit : Z) : Z :=
  let byte_index := absolute_bit / 8 in
  let bit_index := absolute_bit mod 8 in
  if bit_index =? 0 then byte_at data byte_index
  else
    let lhs := u8 (Z.shiftr (byte_at data byte_index) bit_index) in
    let rhs := u8 (Z.shiftl (byte_at data (byte_index + 1)) (8 - bit_index)) in
    u8 (Z.lor lhs rhs).

Fixpoint ExtractBytes (data : bytes) (absolute_bit : Z) (result : bytes) (remaining : nat)
    : Z * bytes * nat :=
  match remaining with
  | S (S (S (S (S (S (S (S remaining'))))))) =>
      ExtractBytes data (absolute_bit + 8)
        (result ++ ByteToBitCharsLsb (ExtractMerged data absolute_bit)) remaining'
  | _ => (absolute_bit, result, remaining)
  end.

Fixpoint ExtractTail (data : bytes) (absolute_bit : Z) (result : bytes) (remaining : nat) : bytes :=
  match remaining with
  | S remaining' =>
      ExtractTail data (absolute_bit + 1) (result ++ [ExtractOne data absolute_bit]) remaining'
  | O => result
  end.

(** The loops access the bits of the range with no further check: when the sum
    wraps, [data[byte_index]] is beyond the vector. *)
Definition in_data (data : bytes) (bit_offset bit_count : Z) : res unit :=
  throw_if (len data * 8 <? bit_offset + bit_count) (undefined "data[byte_index] beyond the vector").

Definition ExtractBits (data : bytes) (bit_offset bit_count : Z) : res bytes :=
  if bit_count =? 0 then Ok []
  else
    let total_bits := u64 (len data * 8) in
    _ ← throw_if (total_bits <? u64 (bit_offset + bit_count)) (out_of_range "bit range out of bounds");
    _ ← in_data data bit_offset bit_count;
    let '(absolute_bit, result, remaining) := ExtractAlign data bit_offset [] (Z.to_nat bit_count) in
    let '(absolute_bit, result, remaining) := ExtractBytes data absolute_bit result remaining in
    Ok (ExtractTail data absolute_bit result remaining).

(** The loops of WriteBits; [bits] is the text from [input_index]. *)
Fixpoint WriteAlign (data : bytes) (absolute_bit : Z) (bits : bytes) : bytes * Z * bytes :=
  match bits with
  | c :: bits' =>
      if negb (absolute_bit mod 8 =? 0) then
        WriteAlign (WriteSingleBit data absolute_bit (c =? 49)) (absolute_bit + 1) bits'
      else (data, absolute_bit, bits)
  | [] => (data, absolute_bit, bits)
  end.

Fixpoint WriteBytes (data : bytes) (absolute_bit : Z) (bits : bytes) : bytes * Z * bytes :=
  match bits with
  | c0 :: c1 :: c2 :: c3 :: c4 :: c5 :: c6 :: c7 :: bits' =>
      WriteBytes
        (set_byte data (absolute_bit / 8) (ParseBitByteLsb [c0; c1; c2; c3; c4; c5; c6; c7]))
        (absolute_bit + 8) bits'
  | _ => (data, absolute_bit, bits)
  end.

Fixpoint WriteTail (data : bytes) (absolute_bit : Z) (bits : bytes) : bytes :=
  match bits with
  | c :: bits' => WriteTail (WriteSingleBit data absolute_bit (c =? 49)) (absolute_bit + 1) bits'
  | [] => data
  end.

Definition WriteBits (data : bytes) (bit_offset : Z) (bits : bytes) : res bytes :=
  _ ← throw_if (negb (IsBitString bits)) (invalid_argument "bits must contain only 0 or 1");
  let total_bits := u64 (len data * 8) in
  _ ← throw_if (total_bits <? u64 (bit_offset + len bits)) (out_of_range "bit range out of bounds");
  if len bits =? 0 then Ok data
  else
    _ ← in_data data bit_offset (len bits);
    let '(data, absolute_bit, bits) := WriteAlign data bit_offset bits in
    let '(data, absolute_bit, bits) := WriteBytes data absolute_bit bits in
    Ok (WriteTail data absolute_bit bits).

(** ** Reference *)

(** The bits from [off], as text. *)
Fixpoint bit_string (data : bytes) (off : Z) (n : nat) : bytes :=
  match n with
  | O => []
  | S n' => bit_char (bit_at data off) :: bit_string data (off + 1) n'
  end.

Lemma length_bit_string data off n : length (bit_string data off n) = n.
Proof. revert off; induction n; intros; simpl; [done|]. by f_equal. Qed.

Lemma bit_string_app data off n m :
  bit_string data off (n + m) = bit_string data off n ++ bit_string data (off + Z.of_nat n) m.
Proof.
  revert off; induction n as [|n IH]; intros off; simpl.
  - by rewrite Z.add_0_r.
  - rewrite IH. do 3 f_equal. lia.
Qed.

Lemma bit_string_lookup data off n k : (k < n)%nat ->
  bit_string data off n !! k = Some (bit_char (bit_at data (off + Z.of_nat k))).
Proof.
  revert off k; induction n as [|n IH]; intros off [|k] Hk; simpl; try lia.
  - by rewrite Z.add_0_r.
  - rewrite IH by lia. do 3 f_equal. lia.
Qed.

Lemma land_mask_testbit x i : 0 <= i -> (Z.land x (Z.shiftl 1 i) =? 0) = negb (Z.testbit x i).
Proof.
  intros Hi. rewrite Z.shiftl_1_l.
  destruct (Z.testbit x i) eqn:E; simpl.
  - apply Z.eqb_neq. intros H. assert (Z.testbit (Z.land x (2 ^ i)) i = true) as H1.
    { rewrite Z.land_spec, E, Z.pow2_bits_true by lia. done. }
    by rewrite H, Z.bits_0 in H1.
  - apply Z.eqb_eq. bitwise j. rewrite Z.pow2_bits_eqb by lia.
    destruct (Z.eqb_spec i j); [subst; by rewrite E|by rewrite andb_false_r].
Qed.

Lemma ExtractOne_spec data i : ExtractOne data i = bit_char (bit_at data i).
Proof.
  unfold ExtractOne, bit_at. pose proof (Z.mod_pos_bound i 8 ltac:(lia)).
  rewrite (wrap_small 8).
  - rewrite land_mask_testbit by lia. by rewrite negb_involutive.
  - rewrite Z.shiftl_1_l. split; [lia|]. apply Z.pow_lt_mono_r; lia.
Qed.

Lemma ByteToBitCharsLsb_spec b :
  ByteToBitCharsLsb b = map (fun k => bit_char (Z.testbit b k)) [0; 1; 2; 3; 4; 5; 6; 7].
Proof.
  unfold ByteToBitCharsLsb. apply map_ext_in. intros k Hk.
  assert (0 <= k) by (repeat destruct Hk as [<-|Hk]; done || lia).
  pose proof (land_mask_testbit (Z.shiftr b k) 0 ltac:(done)) as E. rewrite Z.shiftl_0_r in E.
  rewrite E, negb_involutive, Z.shiftr_spec by done. done.
Qed.

Lemma bit_string_aligned data off : off mod 8 = 0 ->
  bit_string data off 8 = ByteToBitCharsLsb (byte_at data (off / 8)).
Proof.
  intros Hoff. rewrite ByteToBitCharsLsb_spec.
  apply Z.mod_divide in Hoff as [q ->]; [|done]. rewrite Z.div_mul by done.
  assert (forall k, 0 <= k < 8 -> bit_at data (q * 8 + k) = Z.testbit (byte_at data q) k) as Hk.
  { intros k Hk. unfold bit_at.
    rewrite (Z.add_comm (q * 8)), Z.div_add, Z.mod_add, Z.div_small, Z.mod_small by lia. done. }
  simpl. rewrite <- !Z.add_assoc. simpl (1 + _). rewrite <- (Z.add_0_r (q * 8)) at 1.
  by rewrite !Hk by lia.
Qed.

(** ** ExtractBits equals the reference *)

Lemma ExtractAlign_spec data off result n :
  exists k, (k <= n)%nat /\
    ExtractAlign data off result n = (off + Z.of_nat k, result ++ bit_string data off k, (n - k)%nat) /\
    ((n - k)%nat = 0%nat \/ (off + Z.of_nat k) mod 8 = 0).
Proof.
  revert off result; induction n as [|n IH]; intros off result.
  - exists 0%nat. simpl. rewrite Z.add_0_r, app_nil_r. auto.
  - cbn [ExtractAlign]. destruct (Z.eqb_spec (off mod 8) 0) as [E|E]; cbn [negb].
    + exists 0%nat. simpl. rewrite Z.add_0_r, app_nil_r. split; [lia|]. auto.
    + destruct (IH (off + 1) (result ++ [ExtractOne data off])) as (k & Hk & -> & Hdone).
      exists (S k). split; [lia|]. rewrite ExtractOne_spec, <- app_assoc.
      replace (off + Z.of_nat (S k)) with (off + 1 + Z.of_nat k) by lia. auto.
Qed.

Lemma nat_ind8 (P : nat -> Prop) :
  (forall n, (n < 8)%nat -> P n) -> (forall n, P n -> P (8 + n)%nat) -> forall n, P n.
Proof.
  intros Hb Hs n. induction n as [n IH] using lt_wf_ind.
  destruct (decide (n < 8)%nat); [by apply Hb|].
  replace n with (8 + (n - 8))%nat by lia. apply Hs, IH. lia.
Qed.

Lemma ExtractBytes_spec data off result n : n = 0%nat \/ off mod 8 = 0 ->
  exists k, (k <= n)%nat /\
    ExtractBytes data off result n = (off + Z.of_nat k, result ++ bit_string data off k, (n - k)%nat).
Proof.
  revert off result; induction n as [n Hn|n IH] using nat_ind8; intros off result Hoff.
  - exists 0%nat. simpl bit_string. rewrite Z.add_0_r, app_nil_r. split; [lia|].
    do 8 (destruct n as [|n]; [done|]). lia.
  - destruct Hoff as [?|Hoff]; [done|]. cbn [ExtractBytes plus].
    destruct (IH (off + 8) (result ++ ByteToBitCharsLsb (ExtractMerged data off))) as (k & Hk & ->).
    { right. rewrite <- (Z.mul_1_l 8) at 1. by rewrite Z.mod_add. }
    exists (8 + k)%nat. split; [lia|]. rewrite bit_string_app, app_assoc, bit_string_aligned by done.
    unfold ExtractMerged. rewrite Hoff. cbn [Z.eqb].
    do 2 f_equal. by rewrite Nat2Z.inj_add, Z.add_assoc.
Qed.

Lemma ExtractTail_spec data off result n :
  ExtractTail data off result n = result ++ bit_string data off n.
Proof.
  revert off result; induction n as [|n IH]; intros off result; simpl; [by rewrite app_nil_r|].
  by rewrite IH, ExtractOne_spec, <- app_assoc.
Qed.

Lemma ExtractBits_spec data off n : 0 <= off -> 0 <= n -> off + n <= 8 * len data < 2 ^ 64 ->
  ExtractBits data off n = Ok (bit_string data off (Z.to_nat n)).
Proof.
  intros Hoff Hn Hr. unfold ExtractBits. destruct (Z.eqb_spec n 0) as [->|Hn0]; [done|].
  rewrite !wrap_small by (unfold in_u; lia). unfold in_data. do 2 pass_guard by (apply Z.ltb_ge; lia).
  destruct (ExtractAlign_spec data off [] (Z.to_nat n)) as (k & Hk & -> & Hd).
  destruct (ExtractBytes_spec data (off + Z.of_nat k) ([] ++ bit_string data off k)
    (Z.to_nat n - k) Hd) as (k' & Hk' & ->).
  rewrite ExtractTail_spec. f_equal.
  rewrite <- Z.add_assoc, <- Nat2Z.inj_add. simpl app.
  rewrite <- (bit_string_app data off k k'), <- bit_string_app. f_equal. lia.
Qed.

(** ** WriteBits equals the reference *)

(** Bit by bit. *)
Fixpoint write_string (data : bytes) (off : Z) (bits : bytes) : bytes :=
  match bits with
  | c :: bits' => write_string (set_bit data off (c =? 49)) (off + 1) bits'
  | [] => data
  end.

Lemma WriteSingleBit_set_bit data i b : WriteSingleBit data i b = set_bit data i b.
Proof. unfold WriteSingleBit, set_bit. by destruct b. Qed.

Lemma WriteTail_spec data off bits : WriteTail data off bits = write_string data off bits.
Proof.
  revert data off; induction bits as [|c bits IH]; intros; simpl; [done|].
  by rewrite WriteSingleBit_set_bit, IH.
Qed.

Lemma write_string_app data off b1 b2 :
  write_string data off (b1 ++ b2) = write_string (write_string data off b1) (off + len b1) b2.
Proof.
  revert data off; induction b1 as [|c b1 IH]; intros data off; simpl.
  - by rewrite Z.add_0_r.
  - rewrite IH. f_equal. lia.
Qed.

Lemma length_write_string data off bits : length (write_string data off bits) = length data.
Proof.
  revert data off; induction bits as [|c bits IH]; intros; simpl; [done|].
  by rewrite IH, length_set_bit.
Qed.

Lemma bytes_ok_write_string data off bits : bytes_ok data -> bytes_ok (write_string data off bits).
Proof.
  revert data off; induction bits as [|c bits IH]; intros; simpl; [done|].
  by apply IH, bytes_ok_set_bit.
Qed.

(** The bits of a range and the bits outside of it after a write. *)
Lemma bit_at_write_string data off bits j :
  0 <= off -> off + len bits <= 8 * len data -> 0 <= j ->
  bit_at (write_string data off bits) j
  = if (off <=? j) && (j <? off + len bits) then byte_at bits (j - off) =? 49 else bit_at data j.
Proof.
  revert data off; induction bits as [|c bits IH]; intros data off Hoff Hr Hj.
  - cbn [length write_string]. destruct (Z.leb_spec off j), (Z.ltb_spec j (off + Z.of_nat 0)); done || lia.
  - cbn [write_string]. cbn [length] in *. rewrite IH by (rewrite ?length_set_bit; lia).
    rewrite bit_at_set_bit by lia.
    destruct (Z.leb_spec (off + 1) j), (Z.ltb_spec j (off + 1 + len bits)),
      (Z.leb_spec off j), (Z.ltb_spec j (off + Z.of_nat (S (length bits)))), (Z.eqb_spec off j);
      simpl; try lia; try done.
    + f_equal. unfold byte_at. replace (Z.to_nat (j - off)) with (S (Z.to_nat (j - (off + 1)))) by lia.
      done.
    + subst. by rewrite Z.sub_diag.
Qed.

Lemma testbit_ParseBitByteLsb bits k : 0 <= k < 8 ->
  Z.testbit (ParseBitByteLsb bits) k = (byte_at bits k =? 49).
Proof.
  assert (forall l v i, Forall (fun b => 0 <= b < 8) l -> 0 <= i < 8 ->
    Z.testbit (fold_left (fun value bit =>
        if byte_at bits bit =? 49 then u8 (Z.lor value (Z.shiftl 1 bit)) else value) l v) i
    = Z.testbit v i || existsb (fun b => (b =? i) && (byte_at bits b =? 49)) l) as Hf.
  { induction l as [|b l IH]; intros v i Hl Hi; simpl; [by rewrite orb_false_r|].
    inversion Hl; subst. rewrite IH by done. rewrite orb_assoc. f_equal.
    destruct (byte_at bits b =? 49); simpl.
    - rewrite testbit_wrap8, Z.lor_spec, Z.shiftl_1_l, Z.pow2_bits_eqb by lia. by rewrite andb_true_r.
    - by rewrite andb_false_r, orb_false_r. }
  intros Hk. unfold ParseBitByteLsb. rewrite Hf; [|repeat (constructor; [lia|]); constructor|done].
  rewrite Z.bits_0. cbn [orb existsb].
  assert (k = 0 \/ k = 1 \/ k = 2 \/ k = 3 \/ k = 4 \/ k = 5 \/ k = 6 \/ k = 7) as Hc by lia.
  repeat destruct Hc as [->|Hc]; [..|rename Hc into E; rewrite E]; cbn [Z.eqb Pos.eqb andb orb];
    by rewrite ?orb_false_r.
Qed.

Lemma byte_ok_ParseBitByteLsb bits : byte_ok (ParseBitByteLsb bits).
Proof.
  unfold ParseBitByteLsb. generalize [0; 1; 2; 3; 4; 5; 6; 7]. intros l.
  assert (forall v, byte_ok v -> byte_ok (fold_left (fun value bit =>
        if byte_at bits bit =? 49 then u8 (Z.lor value (Z.shiftl 1 bit)) else value) l v)) as H.
  { induction l as [|b l IH]; intros v Hv; simpl; [done|]. apply IH. case_match; [|done].
    by apply (wrap_bound 8). }
  by apply H.
Qed.

Lemma write_string_byte data off bits :
  bytes_ok data -> off mod 8 = 0 -> 0 <= off -> off + 8 <= 8 * len data -> length bits = 8%nat ->
  write_string data off bits = set_byte data (off / 8) (ParseBitByteLsb bits).
Proof.
  intros Hd Hoff H0 Hr Hl. apply Z.mod_divide in Hoff as [q ->]; [|done]. rewrite Z.div_mul by done.
  apply bytes_bit_ext.
  - by apply bytes_ok_write_string.
  - apply bytes_ok_set_byte; [done|apply byte_ok_ParseBitByteLsb].
  - by rewrite length_write_string, length_set_byte.
  - rewrite length_write_string. intros i Hi.
    rewrite bit_at_write_string, bit_at_set_byte by lia.
    pose proof (Z.div_mod i 8 ltac:(lia)). pose proof (Z.mod_pos_bound i 8 ltac:(lia)).
    rewrite testbit_ParseBitByteLsb by lia.
    destruct (Z.leb_spec (q * 8) i), (Z.ltb_spec i (q * 8 + len bits)), (Z.eqb_spec q (i / 8));
      simpl; try lia; try done.
    do 2 f_equal. lia.
Qed.

Lemma WriteAlign_spec data off bits :
  exists b1 b2, bits = b1 ++ b2 /\
    WriteAlign data off bits = (write_string data off b1, off + len b1, b2) /\
    (b2 = [] \/ (off + len b1) mod 8 = 0).
Proof.
  revert data off; induction bits as [|c bits IH]; intros data off.
  - exists [], []. simpl. rewrite Z.add_0_r. auto.
  - cbn [WriteAlign]. destruct (Z.eqb_spec (off mod 8) 0) as [E|E]; cbn [negb].
    + exists [], (c :: bits). simpl. rewrite Z.add_0_r. auto.
    + destruct (IH (WriteSingleBit data off (c =? 49)) (off + 1)) as (b1 & b2 & -> & -> & Hd).
      exists (c :: b1), b2. split; [done|]. rewrite WriteSingleBit_set_bit. cbn [write_string length].
      replace (off + Z.of_nat (S (length b1))) with (off + 1 + len b1) by lia. auto.
Qed.

Lemma WriteBytes_spec n data off bits :
  (length bits <= n)%nat -> bytes_ok data -> bits = [] \/ off mod 8 = 0 -> 0 <= off ->
  off + len bits <= 8 * len data ->
  exists b1 b2, bits = b1 ++ b2 /\
    WriteBytes data off bits = (write_string data off b1, off + len b1, b2).
Proof.
  revert data off bits; induction n as [|n IH]; intros data off bits Hn Hd Hoff H0 Hr.
  { destruct bits; simpl in Hn; [|lia]. exists [], []. simpl. by rewrite Z.add_0_r. }
  destruct (decide (length bits < 8)%nat) as [Hs|Hs].
  - exists [], bits. split; [done|]. simpl. rewrite Z.add_0_r.
    do 8 (destruct bits as [|? bits]; [done|]). simpl in Hs. lia.
  - do 8 (destruct bits as [|? bits]; [simpl in Hs; lia|]).
    destruct Hoff as [?|Hoff]; [done|]. cbn [WriteBytes]. simpl length in Hn, Hr.
    assert (forall cs, length cs = 8%nat ->
      set_byte data (off / 8) (ParseBitByteLsb cs) = write_string data off cs) as Hb.
    { intros cs Hcs. symmetry. apply write_string_byte; try done. lia. }
    rewrite Hb by done.
    edestruct (IH (write_string data off [z; z0; z1; z2; z3; z4; z5; z6]) (off + 8) bits)
      as (b1 & b2 & -> & ->).
    { lia. } { by apply bytes_ok_write_string. }
    { right. rewrite <- (Z.mul_1_l 8) at 1. by rewrite Z.mod_add. }
    { lia. } { rewrite length_write_string. lia. }
    exists ([z; z0; z1; z2; z3; z4; z5; z6] ++ b1), b2. split; [done|].
    rewrite write_string_app, length_app.
    replace (off + Z.of_nat (length [z; z0; z1; z2; z3; z4; z5; z6] + length b1))
      with (off + 8 + len b1) by (simpl length; lia). done.
Qed.

Lemma WriteBits_spec data off bits :
  bytes_ok data -> IsBitString bits = true -> 0 <= off -> off + len bits <= 8 * len data < 2 ^ 64 ->
  WriteBits data off bits = Ok (write_string data off bits).
Proof.
  intros Hd Hb Hoff Hr. unfold WriteBits. rewrite Hb. cbn [negb throw_if].
  rewrite bind_Ok_l, !wrap_small by (unfold in_u; lia). pass_guard by (apply Z.ltb_ge; lia).
  destruct (Z.eqb_spec (len bits) 0) as [E|E].
  { assert (bits = []) as -> by (apply length_zero_iff_nil; lia). done. }
  unfold in_data. pass_guard by (apply Z.ltb_ge; lia).
  destruct (WriteAlign_spec data off bits) as (b1 & b2 & -> & -> & Hd1).
  rewrite length_app in Hr.
  destruct (WriteBytes_spec (length b2) (write_string data off b1) (off + len b1) b2)
    as (b3 & b4 & -> & ->); [done|by apply bytes_ok_write_string|done|lia|rewrite length_write_string; lia|].
  rewrite WriteTail_spec. f_equal. by rewrite !write_string_app.
Qed.
Lemma IsBitString_lookup bits k c : IsBitString bits = true -> bits !! k = Some c ->
  c = bit_char (c =? 49).
Proof.
  intros Hb Hk. unfold IsBitString in Hb. rewrite forallb_forall in Hb.
  specialize (Hb c). apply list_elem_of_lookup_2 in Hk. rewrite list_elem_of_In in Hk.
  specialize (Hb Hk). unfold bit_char.
  destruct (Z.eqb_spec c 48), (Z.eqb_spec c 49); simpl in Hb; subst; done.
Qed.

(** A bit string written reads back. *)
Lemma bit_string_write data off bits :
  IsBitString bits = true -> 0 <= off -> off + len bits <= 8 * len data ->
  bit_string (write_string data off bits) off (length bits) = bits.
Proof.
  intros Hb Hoff Hr. apply list_eq. intros k.
  destruct (bits !! k) as [c|] eqn:E.
  - assert (k < length bits)%nat as Hk by (by eapply lookup_lt_Some).
    rewrite bit_string_lookup by done. rewrite bit_at_write_string by lia.
    rewrite (proj2 (Z.leb_le _ _)), (proj2 (Z.ltb_lt _ _)) by lia. cbn [andb].
    replace (off + Z.of_nat k - off) with (Z.of_nat k) by lia.
    rewrite byte_at_lookup, Nat2Z.id, E. cbn. f_equal. symmetry. by eapply IsBitString_lookup.
  - apply lookup_ge_None. apply lookup_ge_None in E. by rewrite length_bit_string.
Qed.

(** C38: for every offset and count of 64 bits, ExtractBits with its align, table
    and tail loops returns for a range inside the data exactly the text of the
    range read bit by bit, and throws for a range that ends beyond the data, save
    where the sum of offset and count wraps to a value inside the data: there the
    check passes and the loops read beyond the vector. *)
Theorem extract_bits_reference (data : bytes) (off n : Z)
    (Hoff : in_u 64 off) (Hn : in_u 64 n) (Hd : 8 * len data < 2 ^ 64) :
  ExtractBits data off n
  = if (n =? 0) || (off + n <=? 8 * len data) then Ok (bit_string data off (Z.to_nat n))
    else if (2 ^ 64 <=? off + n) && (off + n - 2 ^ 64 <=? 8 * len data) then Err (undefined "data[byte_index] beyond the vector")
    else Err (out_of_range "bit range out of bounds").
Proof.
  unfold in_u in *. destruct (Z.leb_spec (off + n) (8 * len data)) as [Hr|Hr].
  - rewrite orb_true_r. apply ExtractBits_spec; lia.
  - unfold ExtractBits. destruct (Z.eqb_spec n 0) as [->|Hn0]; [done|]. cbn [orb].
    rewrite (wrap_small 64 (len data * 8)) by (unfold in_u; lia). destruct (Z.leb_spec (2 ^ 64) (off + n)) as [Hw|Hw]; cbn [andb].
    + assert (u64 (off + n) = off + n - 2 ^ 64) as -> by (unfold wrap; symmetry; apply (Z.mod_unique_pos _ _ 1); lia).
      destruct (Z.leb_spec (off + n - 2 ^ 64) (8 * len data)).
      * pass_guard by (apply Z.ltb_ge; lia). unfold in_data. by rewrite (proj2 (Z.ltb_lt _ _)) by lia.
      * by rewrite (proj2 (Z.ltb_lt _ _)) by lia.
    + rewrite wrap_small by (unfold in_u; lia). by rewrite (proj2 (Z.ltb_lt _ _)) by lia.
Qed.

Lemma extract_bits_reference_witness :
  ExtractBits [255; 0; 165; 3] 5 20 = Ok (bit_string [255; 0; 165; 3] 5 20).
Proof. apply (extract_bits_reference [255; 0; 165; 3] 5 20); vm_compute; by split. Defined.

(** C39: WriteBits of a bit string inside the data succeeds, keeps the size,
    reads back as the bit string, and leaves every other bit as it was. *)
Theorem write_bits_roundtrip (data : bytes) (off : Z) (bits : bytes)
    (Hok : bytes_ok data) (Hbits : IsBitString bits = true) (Hoff : 0 <= off)
    (Hr : off + len bits <= 8 * len data) (Hd : 8 * len data < 2 ^ 64) :
  exists data', WriteBits data off bits = Ok data' /\ length data' = length data /\
    bytes_ok data' /\ ExtractBits data' off (len bits) = Ok bits /\
    (forall j, 0 <= j -> j < off \/ off + len bits <= j -> bit_at data' j = bit_at data j).
Proof.
  exists (write_string data off bits). rewrite WriteBits_spec by (done || lia).
  split; [done|]. split; [apply length_write_string|]. split; [by apply bytes_ok_write_string|]. split.
  - rewrite ExtractBits_spec by (rewrite ?length_write_string; lia).
    rewrite Nat2Z.id. f_equal. apply bit_string_write; done || lia.
  - intros j Hj Hout. rewrite bit_at_write_string by lia.
    destruct (Z.leb_spec off j), (Z.ltb_spec j (off + len bits)); simpl; done || lia.
Qed.

Lemma write_bits_roundtrip_witness : exists data',
  WriteBits [1; 2; 3] 3 (str "01101110011"%string) = Ok data' /\ length data' = 3%nat /\ bytes_ok data' /\
  ExtractBits data' 3 11 = Ok (str "01101110011"%string) /\
  (forall j, 0 <= j -> j < 3 \/ 3 + 11 <= j -> bit_at data' j = bit_at [1; 2; 3] j).
Proof.
  apply (write_bits_roundtrip [1; 2; 3] 3 (str "01101110011"%string)).
  - repeat (constructor; [by unfold byte_ok|]). constructor.
  - reflexivity.
  - lia.
  - simpl. lia.
  - simpl. lia.
Defined.

End BitCodec.
