(* ===== verification/Crc32.v ===== *)
(** * CRC-32 and its kernels (src/src/crc32.cpp, crc32_clmul.cpp, crc32_armv8.cpp)

    The checksum of every frame, image, manifest and record of the store.  Four
    kernels compute it: one table lookup per byte, slicing by sixteen tables,
    carry-less multiplication (x86-64) and the ARMv8 CRC instructions.  The
    reference is the register that shifts one bit per step; it is linear over
    exclusive or, so two kernels that agree on single bits agree everywhere. *)
From stdpp Require Import prelude strings.
From Stdlib Require Import ZArith Lia Btauto.
From S2P Require Import Prelude.

#[local] Open Scope Z_scope.

Module Crc32.

Definition kPolynomial : Z := 0xEDB88320.
Definition kSlices : nat := 16.

(** One turn of the inner loop of BuildTables. *)
Definition step1 (value : Z) : Z :=
  if negb (Z.land value 1 =? 0) then Z.lxor (Z.shiftr value 1) kPolynomial else Z.shiftr value 1.

(** [n] turns. *)
Definition adv (n : nat) (value : Z) : Z := Nat.iter n step1 value.

Definition table0 : list Z := map (adv 8) (seqZ 0 256).

Definition next_table (previous_table : list Z) : list Z :=
  map (fun previous =>
         Z.lxor (Z.shiftr previous 8) (nth (Z.to_nat (Z.land previous 255)) table0 0))
    previous_table.

Fixpoint tables_from (n : nat) (t : list Z) : list (list Z) :=
  match n with
  | O => []
  | S n' => t :: tables_from n' (next_table t)
  end.

Definition BuildTables : list (list Z) := tables_from kSlices table0.
Definition kTables : list (list Z) := BuildTables.

(** [kTables[k][i]]. *)
Definition table (k : nat) (i : Z) : Z := nth (Z.to_nat i) (nth k kTables []) 0.

Definition LoadLe32 (p : bytes) : Z :=
  Z.lor (Z.lor (Z.lor (byte_at p 0) (Z.shiftl (byte_at p 1) 8)) (Z.shiftl (byte_at p 2) 16))
    (Z.shiftl (byte_at p 3) 24).

Definition Slice4 (word : Z) (last : nat) : Z :=
  Z.lxor (Z.lxor (Z.lxor (table last (Z.land word 255))
                         (table (last - 1) (Z.land (Z.shiftr word 8) 255)))
                 (table (last - 2) (Z.land (Z.shiftr word 16) 255)))
    (table (last - 3) (Z.shiftr word 24)).

Fixpoint TableKernel (state : Z) (data : bytes) : Z :=
  match data with
  | [] => state
  | b :: data' =>
      TableKernel (Z.lxor (Z.shiftr state 8) (table 0 (Z.land (Z.lxor state b) 255))) data'
  end.

(** [while (length >= kSlices)]; a turn takes 16 bytes, so [length data] turns
    are enough. *)
Fixpoint SlicingLoop (fuel : nat) (state : Z) (data : bytes) : Z * bytes :=
  match fuel with
  | O => (state, data)
  | S fuel' =>
      if (kSlices <=? length data)%nat then
        SlicingLoop fuel'
          (Z.lxor (Z.lxor (Z.lxor (Slice4 (Z.lxor (LoadLe32 data) state) 15)
                                  (Slice4 (LoadLe32 (drop 4 data)) 11))
                          (Slice4 (LoadLe32 (drop 8 data)) 7))
             (Slice4 (LoadLe32 (drop 12 data)) 3))
          (drop kSlices data)
      else (state, data)
  end.

Definition SlicingKernel (state : Z) (data : bytes) : Z :=
  let '(state, data) := SlicingLoop (length data) state data in TableKernel state data.

(** ** The x86-64 kernel *)

(** The low 64 bits of a carry-less product are xors of shifted factors. *)
Definition clmul (a b : Z) : Z :=
  fold_left (fun acc i => if Z.testbit a i then Z.lxor acc (Z.shiftl b i) else acc) (seqZ 0 64) 0.

Definition lo64 (x : Z) : Z := Z.land x (Z.ones 64).
Definition hi64 (x : Z) : Z := Z.land (Z.shiftr x 64) (Z.ones 64).

(** The one intrinsic whose result is not a plain bit operation, with the
    documented selection of the halves by bits 0 and 4 of the immediate. *)
Class ClmulIntrinsics := {
  mm_clmulepi64_si128 : Z -> Z -> Z -> Z;
  mm_clmulepi64_si128_spec : forall a b imm,
    mm_clmulepi64_si128 a b imm
    = clmul (if Z.testbit imm 0 then hi64 a else lo64 a) (if Z.testbit imm 4 then hi64 b else lo64 b)
}.

(** Two 64-bit lanes, the first the low one. *)
Definition lanes (a b : Z) : Z := Z.lor a (Z.shiftl b 64).

Definition kK1K2 : Z := lanes 0x0154442bd4 0x01c6e41596.
Definition kK3K4 : Z := lanes 0x01751997d0 0x00ccaa009e.
Definition kK5K0 : Z := lanes 0x0163cd6124 0x0000000000.
Definition kPolyMu : Z := lanes 0x01db710641 0x01f7011641.
Definition kMinFoldLength : nat := 64.
(** [_mm_setr_epi32(~0, 0, ~0, 0)]. *)
Definition low32 : Z := lanes 0xFFFFFFFF 0xFFFFFFFF.

(** [_mm_loadu_si128]. *)
Definition Load (p : bytes) : Z := le_value (take 16 p).

Section clmul.
Context `{ClmulIntrinsics}.

Definition Fold (value constants next : Z) : Z :=
  let low := mm_clmulepi64_si128 value constants 0x00 in
  let high := mm_clmulepi64_si128 value constants 0x11 in
  Z.lxor (Z.lxor low high) next.

(** [while (length >= 64)] over the four lanes. *)
Fixpoint FoldLanes (fuel : nat) (x1 x2 x3 x4 : Z) (data : bytes) : Z * Z * Z * Z * bytes :=
  match fuel with
  | O => (x1, x2, x3, x4, data)
  | S fuel' =>
      if (64 <=? length data)%nat then
        FoldLanes fuel' (Fold x1 kK1K2 (Load data)) (Fold x2 kK1K2 (Load (drop 16 data)))
          (Fold x3 kK1K2 (Load (drop 32 data))) (Fold x4 kK1K2 (Load (drop 48 data))) (drop 64 data)
      else (x1, x2, x3, x4, data)
  end.

(** [while (length >= 16)] over the one lane left. *)
Fixpoint FoldOne (fuel : nat) (x1 : Z) (data : bytes) : Z * bytes :=
  match fuel with
  | O => (x1, data)
  | S fuel' =>
      if (16 <=? length data)%nat then FoldOne fuel' (Fold x1 kK3K4 (Load data)) (drop 16 data)
      else (x1, data)
  end.

(** 128 bits to 64, then the Barrett reduction to 32. *)
Definition Reduce (x1 : Z) : Z :=
  let k := kK3K4 in
  let x2 := mm_clmulepi64_si128 x1 k 0x10 in
  let x1 := Z.lxor (Z.shiftr x1 64) x2 in
  let k := lo64 kK5K0 in
  let x2 := Z.shiftr x1 32 in
  let x1 := Z.lxor (mm_clmulepi64_si128 (Z.land x1 low32) k 0x00) x2 in
  let k := kPolyMu in
  let x2 := Z.land (mm_clmulepi64_si128 (Z.land x1 low32) k 0x10) low32 in
  let x2 := mm_clmulepi64_si128 x2 k 0x00 in
  let x1 := Z.lxor x1 x2 in
  Z.land (Z.shiftr x1 32) (Z.ones 32).

Definition FoldBlocks (state : Z) (data : bytes) : Z :=
  let x1 := Z.lxor (Load data) state in
  let x2 := Load (drop 16 data) in
  let x3 := Load (drop 32 data) in
  let x4 := Load (drop 48 data) in
  let data := drop 64 data in
  let '(x1, x2, x3, x4, data) := FoldLanes (length data) x1 x2 x3 x4 data in
  let x1 := Fold x1 kK3K4 x2 in
  let x1 := Fold x1 kK3K4 x3 in
  let x1 := Fold x1 kK3K4 x4 in
  let '(x1, data) := FoldOne (length data) x1 data in
  Reduce x1.

(** [length & ~15]: the whole 16-byte blocks. *)
Definition ClmulKernel (state : Z) (data : bytes) : Z :=
  if (kMinFoldLength <=? length data)%nat then
    let folded := Z.to_nat (Z.ldiff (len data) 15) in
    SlicingKernel (FoldBlocks state (take folded data)) (drop folded data)
  else SlicingKernel state data.
End clmul.

(** ** The ARMv8 kernel *)

(** The two CRC instructions: the register advanced over a byte and over eight
    bytes, for the polynomial of this CRC. *)
Class CrcIntrinsics := {
  crc32b : Z -> Z -> Z;
  crc32d : Z -> Z -> Z;
  crc32b_spec : forall state b, in_u 32 state -> in_u 8 b -> crc32b state b = adv 8 (Z.lxor state b);
  crc32d_spec : forall state w, in_u 32 state -> in_u 64 w -> crc32d state w = adv 64 (Z.lxor state w)
}.

Section armv8.
Context `{CrcIntrinsics}.

(** Bytes up to an 8-byte boundary; [address] is where [data] starts. *)
Fixpoint Armv8Head (address : Z) (state : Z) (data : bytes) : Z * bytes :=
  match data with
  | b :: data' =>
      if negb (Z.land address 7 =? 0) then Armv8Head (address + 1) (crc32b state b) data'
      else (state, data)
  | [] => (state, data)
  end.

Definition word_at (i : nat) (data : bytes) : Z := le_value (take 8 (drop (8 * i) data)).

Fixpoint Armv8Words4 (fuel : nat) (state : Z) (data : bytes) : Z * bytes :=
  match fuel with
  | O => (state, data)
  | S fuel' =>
      if (32 <=? length data)%nat then
        let state := crc32d state (word_at 0 data) in
        let state := crc32d state (word_at 1 data) in
        let state := crc32d state (word_at 2 data) in
        let state := crc32d state (word_at 3 data) in
        Armv8Words4 fuel' state (drop 32 data)
      else (state, data)
  end.

Fixpoint Armv8Words (fuel : nat) (state : Z) (data : bytes) : Z * bytes :=
  match fuel with
  | O => (state, data)
  | S fuel' =>
      if (8 <=? length data)%nat then
        Armv8Words fuel' (crc32d state (word_at 0 data)) (drop 8 data)
      else (state, data)
  end.

Fixpoint Armv8Tail (state : Z) (data : bytes) : Z :=
  match data with
  | b :: data' => Armv8Tail (crc32b state b) data'
  | [] => state
  end.

Definition Armv8Kernel (address : Z) (state : Z) (data : bytes) : Z :=
  let '(state, data) := Armv8Head address state data in
  let '(state, data) := Armv8Words4 (length data) state data in
  let '(state, data) := Armv8Words (length data) state data in
  Armv8Tail state data.
End armv8.

(** ** Selection *)

Inductive Crc32Impl := kTable | kSlicing | kClmul | kArmv8.
#[global] Instance Crc32Impl_eq_dec : EqDecision Crc32Impl.
Proof. solve_decision. Defined.

(** The build (which macros are defined) and the processor. *)
Record Platform := {
  CHUNKDB_CRC32_CLMUL : bool;
  CHUNKDB_CRC32_ARMV8 : bool;
  ClmulSupported : bool;
  Armv8Supported : bool
}.

Definition kAllCrc32Impls : list Crc32Impl := [kTable; kSlicing; kClmul; kArmv8].

Definition Crc32ImplName (impl : Crc32Impl) : string :=
  match impl with
  | kTable => "table" | kSlicing => "slicing" | kClmul => "clmul" | kArmv8 => "armv8"
  end.

Definition Crc32ImplAvailable (p : Platform) (impl : Crc32Impl) : bool :=
  match impl with
  | kTable | kSlicing => true
  | kClmul => if CHUNKDB_CRC32_CLMUL p then ClmulSupported p else false
  | kArmv8 => if CHUNKDB_CRC32_ARMV8 p then Armv8Supported p else false
  end.

Definition SelectCrc32Impl (p : Platform) (requested : option string) : Crc32Impl :=
  let fastest :=
    match List.find (Crc32ImplAvailable p) [kClmul; kArmv8] with
    | Some impl => impl
    | None => kSlicing
    end in
  match requested with
  | Some name =>
      match List.find (fun impl => bool_decide (name = Crc32ImplName impl) && Crc32ImplAvailable p impl)
              kAllCrc32Impls with
      | Some impl => impl
      | None => fastest
      end
  | None => fastest
  end.

Section dispatch.
Context `{ClmulIntrinsics} `{CrcIntrinsics}.

Definition KernelFor (p : Platform) (impl : Crc32Impl) (address : Z) : Z -> bytes -> Z :=
  match impl with
  | kTable => TableKernel
  | kSlicing => SlicingKernel
  | kClmul => if CHUNKDB_CRC32_CLMUL p then ClmulKernel else SlicingKernel
  | kArmv8 => if CHUNKDB_CRC32_ARMV8 p then Armv8Kernel address else SlicingKernel
  end.

Definition Crc32ExtendWith (p : Platform) (impl : Crc32Impl) (address previous : Z) (data : bytes) : Z :=
  Z.lxor (KernelFor p impl address (Z.lxor previous 0xFFFFFFFF) data) 0xFFFFFFFF.
End dispatch.

(** The checksum of a build without hardware kernels, in which the files that
    follow compute; every build computes the same. *)
Definition Crc32Extend (previous : Z) (data : bytes) : Z :=
  Z.lxor (SlicingKernel (Z.lxor previous 0xFFFFFFFF) data) 0xFFFFFFFF.

Definition Crc32 (data : bytes) : Z := Crc32Extend 0 data.

(** ** Linearity *)

Definition linear (f : Z -> Z) : Prop := f 0 = 0 /\ forall a b, f (Z.lxor a b) = Z.lxor (f a) (f b).

Lemma land_1_testbit v : (Z.land v 1 =? 0) = negb (Z.testbit v 0).
Proof.
  change 1 with (Z.ones 1). rewrite Z.land_ones, Z.bit0_odd by lia. change (2 ^ 1) with 2.
  rewrite Zmod_odd. by destruct (Z.odd v).
Qed.

Lemma step1_bits v i : 0 <= i ->
  Z.testbit (step1 v) i = xorb (Z.testbit v (i + 1)) (Z.testbit v 0 && Z.testbit kPolynomial i).
Proof.
  intros Hi. unfold step1. rewrite land_1_testbit, negb_involutive.
  destruct (Z.testbit v 0); autorewrite with zbits; rewrite ?Z.shiftr_spec by lia; simpl;
    by rewrite ?xorb_false_r.
Qed.

Lemma step1_linear : linear step1.
Proof.
  split; [done|]. intros a b. apply Z.bits_inj'. intros i Hi.
  rewrite Z.lxor_spec, !step1_bits, !Z.lxor_spec by done. btauto.
Qed.

Lemma adv_add n m v : adv (n + m) v = adv n (adv m v).
Proof. apply Nat.iter_add. Qed.

Lemma adv_0 n : adv n 0 = 0.
Proof. induction n; simpl; [done|]. by rewrite IHn. Qed.

Lemma adv_lxor n a b : adv n (Z.lxor a b) = Z.lxor (adv n a) (adv n b).
Proof. induction n as [|n IH]; simpl; [done|]. rewrite IH. apply step1_linear. Qed.

Lemma adv_linear n : linear (adv n).
Proof. split; [apply adv_0|apply adv_lxor]. Qed.

Lemma step1_shiftl v : step1 (Z.shiftl v 1) = v.
Proof.
  apply Z.bits_inj'. intros i Hi. rewrite step1_bits, !Z.shiftl_spec by lia.
  replace (i + 1 - 1) with i by lia. rewrite (Z.testbit_neg_r v (0 - 1)) by lia.
  by rewrite andb_false_l, xorb_false_r.
Qed.

Lemma adv_S n v : adv (S n) v = adv n (step1 v).
Proof. apply Nat.iter_succ_r. Qed.

Lemma adv_shiftl_self m v : adv m (Z.shiftl v (Z.of_nat m)) = v.
Proof.
  induction m as [|m IH]; [apply Z.shiftl_0_r|].
  rewrite adv_S, Nat2Z.inj_succ, <- Z.add_1_r, <- Z.shiftl_shiftl by lia.
  by rewrite step1_shiftl.
Qed.

(** Bits not yet at the register's end move one place per turn. *)
Lemma adv_shiftl n m v : adv (n + m) (Z.shiftl v (Z.of_nat m)) = adv n v.
Proof. by rewrite adv_add, adv_shiftl_self. Qed.

Lemma step1_bound w v : 32 <= w -> in_u (w + 1) v -> in_u w (step1 v).
Proof.
  intros Hw Hv. apply in_u_bits; [lia| |].
  - unfold step1. case_match; [apply Z.lxor_nonneg|]; rewrite Z.shiftr_nonneg; unfold in_u in Hv;
      [split; intros|]; unfold kPolynomial; lia.
  - intros i Hi. rewrite step1_bits by lia. rewrite (testbit_above (w + 1) v) by (done || lia).
    rewrite (testbit_above 32 kPolynomial) by (done || lia). by rewrite andb_false_r.
Qed.

Lemma in_u_mono w w' v : w <= w' -> in_u w v -> in_u w' v.
Proof.
  intros Hw [H0 H1]. split; [done|]. eapply Z.lt_le_trans; [exact H1|].
  destruct (decide (0 <= w)); [apply Z.pow_le_mono_r; lia|].
  rewrite Z.pow_neg_r by lia. apply Z.pow_nonneg. lia.
Qed.

Lemma adv_bound n w v : 32 <= w -> in_u (w + Z.of_nat n) v -> in_u w (adv n v).
Proof.
  intros Hw. revert w Hw v; induction n as [|n IH]; intros w Hw v Hv; simpl.
  - by rewrite Z.add_0_r in Hv.
  - apply step1_bound; [done|]. apply IH; [lia|].
    by replace (w + 1 + Z.of_nat n) with (w + Z.of_nat (S n)) by lia.
Qed.

(** The register only ever holds 32 bits. *)
Lemma adv_bound32 n v : in_u (32 + Z.of_nat n) v -> in_u 32 (adv n v).
Proof. by apply adv_bound. Qed.

Lemma in_u_lxor w a b : 0 <= w -> in_u w a -> in_u w b -> in_u w (Z.lxor a b).
Proof.
  intros Hw Ha Hb. apply in_u_bits; [done|apply Z.lxor_nonneg; unfold in_u in *; lia|].
  intros i Hi. by rewrite Z.lxor_spec, (testbit_above w a), (testbit_above w b) by done.
Qed.

Lemma in_u_shiftl w n a : 0 <= n -> 0 <= w -> in_u w a -> in_u (w + n) (Z.shiftl a n).
Proof.
  intros Hn Hw Ha. unfold in_u in *. rewrite Z.shiftl_mul_pow2, Z.pow_add_r by lia.
  pose proof (Z.pow_pos_nonneg 2 n). nia.
Qed.

Lemma in_u_land w a b : 0 <= w -> 0 <= a -> in_u w b -> in_u w (Z.land a b).
Proof.
  intros Hw Ha Hb. apply in_u_bits; [done|apply Z.land_nonneg; unfold in_u in *; lia|].
  intros i Hi. by rewrite Z.land_spec, (testbit_above w b), andb_false_r by done.
Qed.

(** Two linear maps that agree on single bits agree. *)
Lemma linear_ext_nat n f g : linear f -> linear g ->
  (forall i, 0 <= i < Z.of_nat n -> f (2 ^ i) = g (2 ^ i)) ->
  forall x, in_u (Z.of_nat n) x -> f x = g x.
Proof.
  intros [Hf0 Hf] [Hg0 Hg]. induction n as [|n IH]; intros Hb x Hx.
  - assert (x = 0) as -> by (unfold in_u in Hx; simpl in Hx; lia). by rewrite Hf0, Hg0.
  - set (t := if Z.testbit x (Z.of_nat n) then 2 ^ Z.of_nat n else 0).
    assert (f t = g t) as Et by (subst t; case_match; [apply Hb; lia|by rewrite Hf0, Hg0]).
    assert (in_u (Z.of_nat n) (Z.lxor x t)) as Hlow.
    { apply in_u_bits; [lia| |].
      - apply Z.lxor_nonneg. unfold in_u in Hx. split; [intros; subst t; case_match; [|lia]|lia].
        apply Z.pow_nonneg. lia.
      - intros i Hi. rewrite Z.lxor_spec. destruct (decide (i = Z.of_nat n)) as [->|Hne].
        + subst t. destruct (Z.testbit x (Z.of_nat n)); [by rewrite Z.pow2_bits_true by lia|].
          by rewrite Z.bits_0.
        + rewrite (testbit_above (Z.of_nat (S n)) x) by (done || lia). subst t.
          case_match; [by rewrite Z.pow2_bits_false by lia|by rewrite Z.bits_0]. }
    replace x with (Z.lxor (Z.lxor x t) t) by (by rewrite Z.lxor_assoc, Z.lxor_nilpotent, Z.lxor_0_r).
    rewrite Hf, Hg, Et. f_equal. apply IH; [|done]. intros i Hi. apply Hb. lia.
Qed.

(** Agreement on the single bits of an [n]-bit value, by evaluation. *)
Definition basis_agree (n : Z) (f g : Z -> Z) : bool :=
  forallb (fun i => f (2 ^ i) =? g (2 ^ i)) (seqZ 0 n).

Lemma linear_ext n f g : 0 <= n -> linear f -> linear g -> basis_agree n f g = true ->
  forall x, in_u n x -> f x = g x.
Proof.
  intros Hn Hf Hg Hb x Hx. apply (linear_ext_nat (Z.to_nat n)); try done.
  - intros i Hi. unfold basis_agree in Hb. rewrite forallb_forall in Hb.
    apply Z.eqb_eq, Hb. apply list_elem_of_In, elem_of_seqZ. lia.
  - by rewrite Z2Nat.id.
Qed.

#[global] Arguments adv : simpl never.
#[global] Arguments table0 : simpl never.

(** ** Tables *)

Lemma shiftr_shiftl_land v n : 0 <= n ->
  v = Z.lxor (Z.shiftl (Z.shiftr v n) n) (Z.land v (Z.ones n)).
Proof.
  intros Hn. bitwise i. rewrite Z.testbit_ones_nonneg by lia.
  destruct (Z.ltb_spec i n).
  - rewrite (Z.testbit_neg_r (Z.shiftr v n)) by lia. by rewrite andb_true_r.
  - rewrite Z.shiftr_spec by lia. replace (i - n + n) with i by lia. by rewrite andb_false_r, xorb_false_r.
Qed.

Lemma adv8_split v : adv 8 v = Z.lxor (Z.shiftr v 8) (adv 8 (Z.land v 255)).
Proof.
  rewrite (shiftr_shiftl_land v 8) at 1 by done. change (Z.ones 8) with 255.
  rewrite adv_lxor. f_equal. exact (adv_shiftl_self 8 (Z.shiftr v 8)).
Qed.

Lemma table0_spec i : 0 <= i < 256 -> nth (Z.to_nat i) table0 0 = adv 8 i.
Proof.
  intros Hi. unfold table0. rewrite nth_lookup, list_lookup_fmap.
  rewrite lookup_seqZ_lt by lia. by rewrite Z2Nat.id, Z.add_0_l by lia.
Qed.

Lemma next_table_spec t i : (i < length t)%nat ->
  nth i (next_table t) 0 = adv 8 (nth i t 0).
Proof.
  intros Hi. rewrite adv8_split. unfold next_table. rewrite (nth_lookup t), (nth_lookup (map _ t)), list_lookup_fmap.
  destruct (lookup_lt_is_Some_2 t i Hi) as [v ->]. cbn [fmap option_fmap option_map default from_option].
  rewrite table0_spec by apply byte_land_255. done.
Qed.

Lemma tables_from_spec n t k i : (k < n)%nat -> (i < length t)%nat ->
  nth i (nth k (tables_from n t) []) 0 = adv (8 * k) (nth i t 0).
Proof.
  revert t k; induction n as [|n IH]; intros t [|k] Hk Hi; cbn [tables_from nth]; try lia; [done|].
  rewrite IH; [|lia|by unfold next_table; rewrite length_map].
  rewrite next_table_spec by done. rewrite <- adv_add. f_equal. lia.
Qed.

Lemma table_spec k i : (k < 16)%nat -> 0 <= i < 256 -> table k i = adv (8 * (k + 1)) i.
Proof.
  intros Hk Hi. unfold table, kTables, BuildTables.
  rewrite tables_from_spec by (done || (unfold table0; rewrite length_map, length_seqZ; lia)).
  rewrite table0_spec, <- adv_add by done. f_equal. lia.
Qed.
#[global] Opaque table.

(** ** The table kernel *)

(** A kernel is right when it advances the register over the message as over
    one long little-endian number. *)
Definition reference (state : Z) (data : bytes) : Z :=
  adv (8 * length data) (Z.lxor state (le_value data)).

Lemma reference_cons state b data : byte_ok b ->
  reference state (b :: data) = reference (adv 8 (Z.lxor state b)) data.
Proof.
  intros Hb. unfold reference. cbn [length le_value].
  replace (8 * S (length data))%nat with (8 * length data + 8)%nat by lia.
  assert (Z.lor b (Z.shiftl (le_value data) 8) = Z.lxor b (Z.shiftl (le_value data) 8)) as ->.
  { symmetry. apply Z.lxor_lor. bitwise i. destruct (decide (i < 8)).
    - by rewrite (Z.testbit_neg_r _ (i - 8)), andb_false_r by lia.
    - by rewrite byte_bits_above by (done || lia). }
  rewrite <- Z.lxor_assoc, adv_lxor, (adv_shiftl _ 8), adv_add, <- adv_lxor. done.
Qed.

Lemma reference_app state d1 d2 : bytes_ok d1 ->
  reference state (d1 ++ d2) = reference (reference state d1) d2.
Proof.
  intros H1. revert state; induction H1 as [|b d1 Hb Hd IH]; intros state.
  - unfold reference at 3. simpl. by rewrite Z.lxor_0_r.
  - cbn [app]. by rewrite !reference_cons, IH by done.
Qed.

Lemma reference_bound state data : in_u 32 state -> bytes_ok data -> in_u 32 (reference state data).
Proof.
  intros Hs Hd. apply adv_bound32. apply in_u_lxor; [lia| |].
  - eapply in_u_mono; [|exact Hs]. lia.
  - eapply in_u_mono; [|exact (le_value_bound _ Hd)]. lia.
Qed.

Lemma TableKernel_reference state data : bytes_ok data -> TableKernel state data = reference state data.
Proof.
  intros Hd. revert state; induction Hd as [|b data Hb Hd IH]; intros state.
  - unfold reference. simpl. by rewrite Z.lxor_0_r.
  - cbn [TableKernel]. rewrite IH, reference_cons by done. f_equal.
    rewrite table_spec by (lia || apply byte_land_255). cbn [Nat.add Nat.mul].
    rewrite (adv8_split (Z.lxor state b)). f_equal. rewrite Z.shiftr_lxor.
    rewrite (Z.shiftr_eq_0 b 8), Z.lxor_0_r; [done| |]; unfold byte_ok in Hb; [lia|].
    destruct (decide (b = 0)) as [->|]; [done|]. apply Z.log2_lt_pow2; lia.
Qed.
(** ** The slicing kernel *)

Lemma Slice4_spec word last : in_u 32 word -> (3 <= last < 16)%nat ->
  Slice4 word last = adv (8 * (last + 1)) word.
Proof.
  intros Hw Hl. unfold Slice4.
  assert (in_u 8 (Z.shiftr word 24)) as H24.
  { rewrite Z.shiftr_div_pow2 by lia. unfold in_u in *. split; [apply Z.div_pos; lia|].
    apply Z.div_lt_upper_bound; lia. }
  rewrite !table_spec by (lia || apply byte_land_255 || exact H24).
  set (b0 := Z.land word 255). set (b1 := Z.land (Z.shiftr word 8) 255).
  set (b2 := Z.land (Z.shiftr word 16) 255). set (b3 := Z.shiftr word 24).
  assert (word = Z.lxor (Z.lxor (Z.lxor b0 (Z.shiftl b1 8)) (Z.shiftl b2 16)) (Z.shiftl b3 24)) as E.
  { subst b0 b1 b2 b3. rewrite (shiftr_shiftl_land word 8) at 1 by done.
    rewrite (shiftr_shiftl_land (Z.shiftr word 8) 8) at 1 by done.
    rewrite (shiftr_shiftl_land (Z.shiftr (Z.shiftr word 8) 8) 8) at 1 by done.
    rewrite !Z.shiftr_shiftr, !Z.shiftl_lxor, !Z.shiftl_shiftl by lia. change (Z.ones 8) with 255.
    change (8 + (8 + 8)) with 24. change (8 + 8) with 16. bitwise i. btauto. }
  rewrite E, !adv_lxor.
  rewrite <- (adv_shiftl (8 * (last - 1 + 1)) 8 b1), <- (adv_shiftl (8 * (last - 2 + 1)) 16 b2),
    <- (adv_shiftl (8 * (last - 3 + 1)) 24 b3).
  replace (8 * (last - 1 + 1) + 8)%nat with (8 * (last + 1))%nat by lia.
  replace (8 * (last - 2 + 1) + 16)%nat with (8 * (last + 1))%nat by lia.
  by replace (8 * (last - 3 + 1) + 24)%nat with (8 * (last + 1))%nat by lia.
Qed.

Lemma LoadLe32_le b0 b1 b2 b3 s : LoadLe32 (b0 :: b1 :: b2 :: b3 :: s) = le_value [b0; b1; b2; b3].
Proof.
  apply lor4_le.
Qed.

Lemma LoadLe32_app w rest : length w = 4%nat -> LoadLe32 (w ++ rest) = le_value w.
Proof.
  intros Hw. do 4 (destruct w as [|? w]; [done|]). destruct w; [|done]. apply LoadLe32_le.
Qed.

Lemma slicing_step state w0 w1 w2 w3 : in_u 32 state ->
  bytes_ok w0 -> bytes_ok w1 -> bytes_ok w2 -> bytes_ok w3 ->
  length w0 = 4%nat -> length w1 = 4%nat -> length w2 = 4%nat -> length w3 = 4%nat ->
  Z.lxor (Z.lxor (Z.lxor (Slice4 (Z.lxor (le_value w0) state) 15) (Slice4 (le_value w1) 11))
                 (Slice4 (le_value w2) 7)) (Slice4 (le_value w3) 3)
  = reference state (w0 ++ w1 ++ w2 ++ w3).
Proof.
  intros Hs H0 H1 H2 H3 L0 L1 L2 L3. rewrite !reference_app by done.
  pose proof (le_value_bound _ H0) as B0. pose proof (le_value_bound _ H1) as B1.
  pose proof (le_value_bound _ H2) as B2. pose proof (le_value_bound _ H3) as B3.
  rewrite L0 in B0. rewrite L1 in B1. rewrite L2 in B2. rewrite L3 in B3.
  rewrite !Slice4_spec by (lia || done || by apply in_u_lxor).
  unfold reference. rewrite L0, L1, L2, L3. rewrite !adv_lxor, <- !adv_add. cbn [Nat.add Nat.mul].
  by rewrite (Z.lxor_comm (adv 128 (le_value w0))).
Qed.

Lemma SlicingLoop_spec fuel state data : in_u 32 state -> bytes_ok data -> (length data <= fuel)%nat ->
  let '(state', data') := SlicingLoop fuel state data in
  bytes_ok data' /\ reference state' data' = reference state data.
Proof.
  revert state data; induction fuel as [|fuel IH]; intros state data Hs Hd Hf; cbn [SlicingLoop]; [done|].
  destruct (Nat.leb_spec kSlices (length data)) as [Hl|Hl]; [|done]. unfold kSlices in *.
  destruct (split_len 4 data) as (w0 & d1 & -> & L0); [lia|]. rewrite length_app in Hl, Hf.
  destruct (split_len 4 d1) as (w1 & d2 & -> & L1); [lia|]. rewrite length_app in Hl, Hf.
  destruct (split_len 4 d2) as (w2 & d3 & -> & L2); [lia|]. rewrite length_app in Hl, Hf.
  destruct (split_len 4 d3) as (w3 & d4 & -> & L3); [lia|]. rewrite length_app in Hl, Hf.
  rewrite !bytes_ok_app in Hd. destruct Hd as (H0 & H1 & H2 & H3 & H4).
  assert (drop 16 (w0 ++ w1 ++ w2 ++ w3 ++ d4) = d4) as E16.
  { rewrite !app_assoc. apply drop_app_length'. rewrite !length_app. lia. }
  assert (drop 4 (w0 ++ w1 ++ w2 ++ w3 ++ d4) = w1 ++ w2 ++ w3 ++ d4) as E4 by by apply drop_app_length'.
  assert (drop 8 (w0 ++ w1 ++ w2 ++ w3 ++ d4) = w2 ++ w3 ++ d4) as E8.
  { rewrite app_assoc. apply drop_app_length'. rewrite length_app. lia. }
  assert (drop 12 (w0 ++ w1 ++ w2 ++ w3 ++ d4) = w3 ++ d4) as E12.
  { rewrite (app_assoc w0), (app_assoc _ w2). apply drop_app_length'. rewrite !length_app. lia. }
  rewrite E16, E4, E8, E12, !LoadLe32_app, slicing_step by done.
  assert (bytes_ok (w0 ++ w1 ++ w2 ++ w3)) as Hw by by rewrite !bytes_ok_app.
  specialize (IH (reference state (w0 ++ w1 ++ w2 ++ w3)) d4
    (reference_bound _ _ Hs Hw) H4 ltac:(lia)).
  destruct (SlicingLoop fuel _ d4) as [state' data']. destruct IH as [? ->]. split; [done|].
  rewrite <- reference_app by done. by rewrite <- !app_assoc.
Qed.

Lemma SlicingKernel_reference state data : in_u 32 state -> bytes_ok data ->
  SlicingKernel state data = reference state data.
Proof.
  intros Hs Hd. unfold SlicingKernel.
  pose proof (SlicingLoop_spec (length data) state data Hs Hd ltac:(lia)) as H.
  destruct (SlicingLoop _ _ _) as [state' data']. destruct H as [Hd' <-].
  by apply TableKernel_reference.
Qed.

(** ** The ARMv8 kernel *)

Lemma reference_word state data n : (n <= length data)%nat ->
  adv (8 * n) (Z.lxor state (le_value (take n data))) = reference state (take n data).
Proof. intros Hn. unfold reference. rewrite length_take. do 2 f_equal. lia. Qed.

Section armv8_proof.
Context `{CrcIntrinsics}.

Lemma crc32b_reference state b : in_u 32 state -> byte_ok b -> crc32b state b = reference state [b].
Proof.
  intros Hs Hb. rewrite crc32b_spec by done. unfold reference. cbn [length le_value].
  by rewrite Z.shiftl_0_l, Z.lor_0_r.
Qed.

Lemma crc32d_reference state data : in_u 32 state -> bytes_ok data -> (8 <= length data)%nat ->
  crc32d state (word_at 0 data) = reference state (take 8 data).
Proof.
  intros Hs Hd Hl. unfold word_at. cbn [Nat.mul drop].
  rewrite crc32d_spec; [by apply (reference_word state data 8)|done|].
  pose proof (le_value_bound (take 8 data)) as B. rewrite length_take in B.
  replace (8 * Z.of_nat (8 `min` length data)) with 64 in B by lia. by apply B, Forall_take.
Qed.

Lemma Armv8Head_spec address state data : in_u 32 state -> bytes_ok data ->
  let '(state', data') := Armv8Head address state data in
  in_u 32 state' /\ bytes_ok data' /\ reference state' data' = reference state data.
Proof.
  intros Hs Hd. revert address state Hs; induction Hd as [|b data Hb Hd IH]; intros address state Hs;
    cbn [Armv8Head]; [by repeat constructor; apply Hs|].
  destruct (negb (Z.land address 7 =? 0)); [|split; [done|split; [by constructor|done]]].
  rewrite crc32b_reference by done.
  assert (in_u 32 (reference state [b])) as Hr by (apply reference_bound; [done|by constructor]).
  specialize (IH (address + 1) _ Hr). destruct (Armv8Head _ _ data) as [state' data'].
  destruct IH as (? & ? & ->). split; [done|]. split; [done|].
  rewrite <- reference_app by (by constructor). done.
Qed.

Lemma word_step state data : in_u 32 state -> bytes_ok data -> (8 <= length data)%nat ->
  let state' := crc32d state (word_at 0 data) in
  in_u 32 state' /\ bytes_ok (drop 8 data) /\ reference state' (drop 8 data) = reference state data.
Proof.
  intros Hs Hd Hl. cbv zeta. rewrite crc32d_reference by done.
  split; [apply reference_bound; [done|by apply Forall_take]|]. split; [by apply Forall_drop|].
  rewrite <- reference_app by (by apply Forall_take). by rewrite take_drop.
Qed.

Lemma word_at_drop i data : word_at (S i) data = word_at i (drop 8 data).
Proof. unfold word_at. rewrite drop_drop. do 3 f_equal. lia. Qed.

Lemma Armv8Words4_spec fuel state data : in_u 32 state -> bytes_ok data ->
  let '(state', data') := Armv8Words4 fuel state data in
  in_u 32 state' /\ bytes_ok data' /\ reference state' data' = reference state data.
Proof.
  revert state data; induction fuel as [|fuel IH]; intros state data Hs Hd; cbn [Armv8Words4]; [done|].
  destruct (Nat.leb_spec 32 (length data)) as [Hl|Hl]; [|done].
  rewrite !word_at_drop.
  destruct (word_step state data Hs Hd ltac:(lia)) as (S1 & D1 & R1).
  destruct (word_step _ _ S1 D1 ltac:(rewrite length_drop; lia)) as (S2 & D2 & R2).
  destruct (word_step _ _ S2 D2 ltac:(rewrite !length_drop; lia)) as (S3 & D3 & R3).
  destruct (word_step _ _ S3 D3 ltac:(rewrite !length_drop; lia)) as (S4 & D4 & R4).
  specialize (IH _ _ S4 D4). rewrite R4, R3, R2, R1 in IH.
  replace (drop 32 data) with (drop 8 (drop 8 (drop 8 (drop 8 data)))) by (by rewrite !drop_drop). exact IH.
Qed.

Lemma Armv8Words_spec fuel state data : in_u 32 state -> bytes_ok data ->
  let '(state', data') := Armv8Words fuel state data in
  in_u 32 state' /\ bytes_ok data' /\ reference state' data' = reference state data.
Proof.
  revert state data; induction fuel as [|fuel IH]; intros state data Hs Hd; cbn [Armv8Words]; [done|].
  destruct (Nat.leb_spec 8 (length data)) as [Hl|Hl]; [|done].
  destruct (word_step state data Hs Hd ltac:(lia)) as (S1 & D1 & R1).
  specialize (IH _ _ S1 D1). rewrite R1 in IH. exact IH.
Qed.

Lemma Armv8Tail_spec state data : in_u 32 state -> bytes_ok data ->
  Armv8Tail state data = reference state data.
Proof.
  intros Hs Hd. revert state Hs; induction Hd as [|b data Hb Hd IH]; intros state Hs; cbn [Armv8Tail].
  - unfold reference. simpl. by rewrite Z.lxor_0_r.
  - rewrite crc32b_reference by done. rewrite IH by (apply reference_bound; [done|by constructor]).
    rewrite <- reference_app by (by constructor). done.
Qed.

Lemma Armv8Kernel_reference address state data : in_u 32 state -> bytes_ok data ->
  Armv8Kernel address state data = reference state data.
Proof.
  intros Hs Hd. unfold Armv8Kernel.
  pose proof (Armv8Head_spec address state data Hs Hd) as H1.
  destruct (Armv8Head _ _ _) as [s1 d1]. destruct H1 as (Hs1 & Hd1 & <-).
  pose proof (Armv8Words4_spec (length d1) s1 d1 Hs1 Hd1) as H2.
  destruct (Armv8Words4 _ _ _) as [s2 d2]. destruct H2 as (Hs2 & Hd2 & <-).
  pose proof (Armv8Words_spec (length d2) s2 d2 Hs2 Hd2) as H3.
  destruct (Armv8Words _ _ _) as [s3 d3]. destruct H3 as (Hs3 & Hd3 & <-).
  by apply Armv8Tail_spec.
Qed.
End armv8_proof.

(** ** The carry-less multiplication kernel *)

(** The intrinsic as its law defines it. *)
Definition ClmulModel : ClmulIntrinsics := {|
  mm_clmulepi64_si128 := fun a b imm =>
    clmul (if Z.testbit imm 0 then hi64 a else lo64 a) (if Z.testbit imm 4 then hi64 b else lo64 b);
  mm_clmulepi64_si128_spec := fun a b imm => eq_refl
|}.

Lemma clmul_lxor a b c : clmul (Z.lxor a b) c = Z.lxor (clmul a c) (clmul b c).
Proof.
  unfold clmul. generalize (seqZ 0 64). intros l.
  assert (forall acc acc1 acc2, acc = Z.lxor acc1 acc2 ->
    fold_left (fun acc i => if Z.testbit (Z.lxor a b) i then Z.lxor acc (Z.shiftl c i) else acc) l acc
    = Z.lxor (fold_left (fun acc i => if Z.testbit a i then Z.lxor acc (Z.shiftl c i) else acc) l acc1)
        (fold_left (fun acc i => if Z.testbit b i then Z.lxor acc (Z.shiftl c i) else acc) l acc2)) as Hg.
  { induction l as [|i l IH]; intros acc acc1 acc2 E; simpl; [done|]. apply IH.
    rewrite E, Z.lxor_spec. generalize (Z.shiftl c i). intros x.
    destruct (Z.testbit a i), (Z.testbit b i); simpl; bitwise j; btauto. }
  by apply Hg.
Qed.

Lemma clmul_bound a b : in_u 64 b -> in_u 128 (clmul a b).
Proof.
  intros Hb. unfold clmul.
  assert (Forall (fun i => 0 <= i < 64) (seqZ 0 64)) as Hl by (apply Forall_seqZ; intros; lia).
  revert Hl. generalize (seqZ 0 64). intros l Hl.
  assert (forall acc, in_u 128 acc -> in_u 128
    (fold_left (fun acc i => if Z.testbit a i then Z.lxor acc (Z.shiftl b i) else acc) l acc)) as Hg.
  { induction Hl as [|i l Hi Hl IH]; intros acc Ha; simpl; [done|]. apply IH. case_match; [|done].
    apply in_u_lxor; [done|done|]. apply (in_u_mono (64 + i)); [lia|]. apply in_u_shiftl; lia || done. }
  by apply Hg.
Qed.

Lemma linear_id : linear (fun x => x).
Proof. by split. Qed.
Lemma linear_comp f g : linear f -> linear g -> linear (fun x => f (g x)).
Proof. intros [F0 F] [G0 G]. split; [by rewrite G0|]. intros. by rewrite G, F. Qed.
Lemma linear_sum f g : linear f -> linear g -> linear (fun x => Z.lxor (f x) (g x)).
Proof.
  intros [F0 F] [G0 G]. split; [by rewrite F0, G0|]. intros a b. rewrite F, G. bitwise i. btauto.
Qed.
Lemma linear_shiftr n : linear (fun x => Z.shiftr x n).
Proof. split; [apply Z.shiftr_0_l|]. intros. apply Z.shiftr_lxor. Qed.
Lemma linear_land n : linear (fun x => Z.land x n).
Proof. split; [done|]. intros. bitwise i. btauto. Qed.
Lemma linear_clmul n : linear (fun x => clmul x n).
Proof.
  split; [|intros; apply clmul_lxor]. transitivity (clmul (Z.lxor 0 0) n); [done|].
  rewrite clmul_lxor. apply Z.lxor_nilpotent.
Qed.

(** Shows that a term built from shifts, masks and products is linear. *)
Ltac prove_linear :=
  lazymatch goal with
  | |- linear (fun x => x) => apply linear_id
  | |- linear (fun x => Z.lxor (@?f x) (@?g x)) => apply (linear_sum f g); prove_linear
  | |- linear (fun x => Z.shiftr (@?f x) ?n) =>
      apply (linear_comp (fun y => Z.shiftr y n) f); [apply linear_shiftr|prove_linear]
  | |- linear (fun x => Z.land (@?f x) ?n) =>
      apply (linear_comp (fun y => Z.land y n) f); [apply linear_land|prove_linear]
  | |- linear (fun x => clmul (@?f x) ?n) =>
      apply (linear_comp (fun y => clmul y n) f); [apply linear_clmul|prove_linear]
  end.

(** Evaluates the selection of halves by the immediates the kernel uses. *)
Ltac select_halves :=
  repeat match goal with
  | |- context [Z.testbit ?imm ?i] =>
      let b := eval vm_compute in (Z.testbit imm i) in
      lazymatch b with true => idtac | false => idtac end; change (Z.testbit imm i) with b
  end; cbv iota.

(** Fold without the block it is folded into. *)
Definition fold_pure (k x : Z) : Z :=
  Z.lxor (clmul (lo64 x) (lo64 k)) (clmul (hi64 x) (hi64 k)).

Lemma fold_pure_linear k : linear (fold_pure k).
Proof. unfold fold_pure, lo64, hi64. prove_linear. Qed.

Lemma lo64_bound x : 0 <= x -> in_u 64 (lo64 x).
Proof. intros. apply in_u_land; done. Qed.

Lemma hi64_bound x : 0 <= x -> in_u 64 (hi64 x).
Proof. intros. apply in_u_land; [done|by apply Z.shiftr_nonneg|done]. Qed.

Lemma fold_pure_bound k x : 0 <= k -> in_u 128 (fold_pure k x).
Proof.
  intros. apply in_u_lxor; [done| |]; apply clmul_bound; [by apply lo64_bound|by apply hi64_bound].
Qed.

(** k1 and k2 carry a lane over 512 bits, k3 and k4 over 128. *)
Lemma fold_512 x : in_u 128 x -> adv 128 (fold_pure kK1K2 x) = adv 640 x.
Proof.
  revert x. apply (linear_ext 128 (fun x => adv 128 (fold_pure kK1K2 x)) (adv 640)); [done| | |].
  - apply (linear_comp (adv 128)); [apply adv_linear|apply fold_pure_linear].
  - apply adv_linear.
  - vm_compute. done.
Qed.

Lemma fold_128 x : in_u 128 x -> adv 128 (fold_pure kK3K4 x) = adv 256 x.
Proof.
  revert x. apply (linear_ext 128 (fun x => adv 128 (fold_pure kK3K4 x)) (adv 256)); [done| | |].
  - apply (linear_comp (adv 128)); [apply adv_linear|apply fold_pure_linear].
  - apply adv_linear.
  - vm_compute. done.
Qed.

Lemma Reduce_model x : in_u 128 x -> @Reduce ClmulModel x = adv 128 x.
Proof.
  revert x. apply (linear_ext 128 (@Reduce ClmulModel) (adv 128)); [done| |apply adv_linear|].
  - cbv beta iota zeta delta [Reduce mm_clmulepi64_si128 ClmulModel lo64 hi64].
    select_halves. prove_linear.
  - vm_compute. done.
Qed.

#[global] Opaque adv clmul.

Lemma le_value_split n data : (n <= length data)%nat -> bytes_ok data ->
  adv (8 * length data) (le_value data)
  = Z.lxor (adv (8 * length data) (le_value (take n data)))
      (adv (8 * length (drop n data)) (le_value (drop n data))).
Proof.
  intros Hn Hd. rewrite <- (Z.lxor_0_l (le_value data)).
  change (adv (8 * length data) (Z.lxor 0 (le_value data))) with (reference 0 data).
  rewrite <- (take_drop n data) at 1. rewrite reference_app by by apply Forall_take.
  unfold reference at 1. rewrite adv_lxor. f_equal. unfold reference.
  rewrite Z.lxor_0_l, <- adv_add. f_equal. rewrite length_take, length_drop. lia.
Qed.

Lemma Load_bound data : bytes_ok data -> in_u 128 (Load data).
Proof.
  intros Hd. eapply in_u_mono; [|apply le_value_bound; by apply Forall_take].
  rewrite length_take. lia.
Qed.

Section clmul_proof.
Context `{ClmulIntrinsics}.

Lemma Fold_pure value k next : Fold value k next = Z.lxor (fold_pure k value) next.
Proof. unfold Fold. rewrite 2!(@mm_clmulepi64_si128_spec H). unfold fold_pure. by select_halves. Qed.

Lemma Reduce_spec x : in_u 128 x -> Reduce x = adv 128 x.
Proof.
  intros Hx. rewrite <- Reduce_model by done. unfold Reduce.
  rewrite 4!(@mm_clmulepi64_si128_spec H).
  cbv beta iota zeta delta [mm_clmulepi64_si128 ClmulModel]. reflexivity.
Qed.

Lemma Fold_bound x k next : 0 <= k -> in_u 128 next -> in_u 128 (Fold x k next).
Proof. intros. rewrite Fold_pure. apply in_u_lxor; [done|by apply fold_pure_bound|done]. Qed.

(** What the four lanes and the data left stand for. *)
Definition lanes_value (x1 x2 x3 x4 : Z) (data : bytes) : Z :=
  let n := (8 * length data)%nat in
  Z.lxor (Z.lxor (Z.lxor (Z.lxor (adv (512 + n) x1) (adv (384 + n) x2)) (adv (256 + n) x3))
            (adv (128 + n) x4)) (adv n (le_value data)).

Lemma load4_split data : (64 <= length data)%nat -> bytes_ok data ->
  let m := (8 * length (drop 64 data))%nat in
  adv (8 * length data) (le_value data)
  = Z.lxor (Z.lxor (Z.lxor (Z.lxor (adv (512 + m) (Load data)) (adv (384 + m) (Load (drop 16 data))))
       (adv (256 + m) (Load (drop 32 data)))) (adv (128 + m) (Load (drop 48 data))))
       (adv m (le_value (drop 64 data))).
Proof.
  intros Hl Hd. cbv zeta.
  rewrite (le_value_split 16 data) by (done || lia).
  rewrite (le_value_split 16 (drop 16 data)) by (apply Forall_drop, Hd || rewrite length_drop; lia).
  rewrite (le_value_split 16 (drop 16 (drop 16 data)))
    by (apply Forall_drop, Forall_drop, Hd || rewrite !length_drop; lia).
  rewrite (le_value_split 16 (drop 16 (drop 16 (drop 16 data))))
    by (apply Forall_drop, Forall_drop, Forall_drop, Hd || rewrite !length_drop; lia).
  rewrite !drop_drop. unfold Load. cbn [Nat.add]. rewrite !length_drop.
  replace (8 * (length data - 16))%nat with (384 + 8 * (length data - 64))%nat by lia.
  replace (8 * (length data - 32))%nat with (256 + 8 * (length data - 64))%nat by lia.
  replace (8 * (length data - 48))%nat with (128 + 8 * (length data - 64))%nat by lia.
  replace (8 * length data)%nat with (512 + 8 * (length data - 64))%nat by lia.
  by rewrite !Z.lxor_assoc.
Qed.

Lemma fold_512_at n x : in_u 128 x -> adv (128 + n) (fold_pure kK1K2 x) = adv (640 + n) x.
Proof.
  intros Hx. rewrite (Nat.add_comm 128), (Nat.add_comm 640), !adv_add. by rewrite fold_512.
Qed.

Lemma fold_128_at n x : in_u 128 x -> adv (128 + n) (fold_pure kK3K4 x) = adv (256 + n) x.
Proof.
  intros Hx. rewrite (Nat.add_comm 128), (Nat.add_comm 256), !adv_add. by rewrite fold_128.
Qed.

Lemma fold_lanes_step x1 x2 x3 x4 data :
  in_u 128 x1 -> in_u 128 x2 -> in_u 128 x3 -> in_u 128 x4 -> bytes_ok data -> (64 <= length data)%nat ->
  lanes_value (Fold x1 kK1K2 (Load data)) (Fold x2 kK1K2 (Load (drop 16 data)))
    (Fold x3 kK1K2 (Load (drop 32 data))) (Fold x4 kK1K2 (Load (drop 48 data))) (drop 64 data)
  = lanes_value x1 x2 x3 x4 data.
Proof.
  intros H1 H2 H3 H4 Hd Hl. unfold lanes_value. rewrite (load4_split data) by done. cbv zeta.
  rewrite !Fold_pure, !adv_lxor.
  set (m := (8 * length (drop 64 data))%nat).
  assert (8 * length data = 512 + m)%nat as -> by (subst m; rewrite length_drop; lia).
  pose proof (fold_512_at (384 + m) x1 H1) as E1. pose proof (fold_512_at (256 + m) x2 H2) as E2.
  pose proof (fold_512_at (128 + m) x3 H3) as E3. pose proof (fold_512_at m x4 H4) as E4.
  rewrite !Nat.add_assoc in *. cbn [Nat.add] in E1, E2, E3, E4 |- *.
  rewrite E1, E2, E3, E4. bitwise i. btauto.
Qed.

Lemma FoldLanes_spec fuel x1 x2 x3 x4 data :
  in_u 128 x1 -> in_u 128 x2 -> in_u 128 x3 -> in_u 128 x4 -> bytes_ok data ->
  (length data mod 16 = 0)%nat ->
  let '(y1, y2, y3, y4, data') := FoldLanes fuel x1 x2 x3 x4 data in
  in_u 128 y1 /\ in_u 128 y2 /\ in_u 128 y3 /\ in_u 128 y4 /\ bytes_ok data' /\
  (length data' mod 16 = 0)%nat /\ lanes_value y1 y2 y3 y4 data' = lanes_value x1 x2 x3 x4 data.
Proof.
  revert x1 x2 x3 x4 data; induction fuel as [|fuel IH]; intros x1 x2 x3 x4 data H1 H2 H3 H4 Hd Hm;
    cbn [FoldLanes]; [done|].
  destruct (Nat.leb_spec 64 (length data)) as [Hl|Hl]; [|done].
  assert (0 <= kK1K2) as Hk by done.
  assert (forall n, in_u 128 (Load (drop n data))) as HL by (intros; by apply Load_bound, Forall_drop).
  pose proof (HL 0%nat) as HL0. cbn [drop] in HL0.
  specialize (IH _ _ _ _ (drop 64 data) (Fold_bound x1 _ _ Hk HL0) (Fold_bound x2 _ _ Hk (HL 16%nat))
    (Fold_bound x3 _ _ Hk (HL 32%nat)) (Fold_bound x4 _ _ Hk (HL 48%nat))).
  destruct (FoldLanes fuel _ _ _ _ (drop 64 data)) as [[[[y1 y2] y3] y4] data'].
  rewrite <- (fold_lanes_step x1 x2 x3 x4 data) by done. apply IH; [by apply Forall_drop|].
  rewrite length_drop. replace (length data) with ((length data - 64) + 4 * 16)%nat in Hm by lia.
  by rewrite Nat.Div0.mod_add in Hm.
Qed.

(** What one lane and the data left stand for. *)
Definition lane_value (x : Z) (data : bytes) : Z :=
  Z.lxor (adv (128 + 8 * length data) x) (adv (8 * length data) (le_value data)).

Lemma fold_one_at n x y : in_u 128 x ->
  adv (128 + n) (Fold x kK3K4 y) = Z.lxor (adv (256 + n) x) (adv (128 + n) y).
Proof. intros Hx. by rewrite Fold_pure, adv_lxor, fold_128_at. Qed.

Lemma lanes_into_one x1 x2 x3 x4 data : in_u 128 x1 -> in_u 128 x2 -> in_u 128 x3 ->
  lane_value (Fold (Fold (Fold x1 kK3K4 x2) kK3K4 x3) kK3K4 x4) data = lanes_value x1 x2 x3 x4 data.
Proof.
  intros H1 H2 H3. unfold lane_value, lanes_value. set (n := (8 * length data)%nat).
  assert (0 <= kK3K4) as Hk by done.
  pose proof (Fold_bound x1 kK3K4 x2 Hk H2) as B1.
  pose proof (Fold_bound (Fold x1 kK3K4 x2) kK3K4 x3 Hk H3) as B2.
  pose proof (fold_one_at (256 + n) x1 x2 H1) as E1.
  pose proof (fold_one_at (128 + n) _ x3 B1) as E2.
  rewrite (fold_one_at n _ x4 B2). rewrite !Nat.add_assoc in *. cbv zeta.
  change (128 + 128)%nat with 256%nat in *. change (256 + 128)%nat with 384%nat in *.
  change (128 + 256)%nat with 384%nat in *. change (256 + 256)%nat with 512%nat in *.
  by rewrite E2, E1.
Qed.

Lemma FoldOne_spec fuel x data :
  in_u 128 x -> bytes_ok data -> (length data mod 16 = 0)%nat -> (length data <= fuel)%nat ->
  let '(y, data') := FoldOne fuel x data in
  in_u 128 y /\ data' = [] /\ lane_value y data' = lane_value x data.
Proof.
  revert x data; induction fuel as [|fuel IH]; intros x data Hx Hd Hm Hf; cbn [FoldOne].
  { destruct data; [done|simpl in Hf; lia]. }
  destruct (Nat.leb_spec 16 (length data)) as [Hl|Hl].
  - assert (in_u 128 (Fold x kK3K4 (Load data))) as HF by (apply Fold_bound; [done|by apply Load_bound]).
    specialize (IH _ (drop 16 data) HF).
    assert (lane_value (Fold x kK3K4 (Load data)) (drop 16 data) = lane_value x data) as E.
    { unfold lane_value. rewrite (le_value_split 16 data) by done. rewrite fold_one_at by done.
      rewrite length_drop. replace (256 + 8 * (length data - 16))%nat with (128 + 8 * length data)%nat by lia.
      replace (128 + 8 * (length data - 16))%nat with (8 * length data)%nat by lia.
      by rewrite Z.lxor_assoc. }
    destruct (FoldOne fuel _ (drop 16 data)) as [y data']. rewrite <- E. apply IH.
    + by apply Forall_drop.
    + rewrite length_drop. replace (length data) with ((length data - 16) + 1 * 16)%nat in Hm by lia.
      by rewrite Nat.Div0.mod_add in Hm.
    + rewrite length_drop. lia.
  - rewrite Nat.mod_small in Hm by lia. destruct data; [done|simpl in Hm; lia].
Qed.

Lemma lanes_value_start state data : (64 <= length data)%nat -> bytes_ok data ->
  lanes_value (Z.lxor (Load data) state) (Load (drop 16 data)) (Load (drop 32 data))
    (Load (drop 48 data)) (drop 64 data) = reference state data.
Proof.
  intros Hl Hd. unfold lanes_value, reference.
  rewrite (adv_lxor _ state), (load4_split data) by done. cbv zeta.
  set (m := (8 * length (drop 64 data))%nat).
  replace (8 * length data)%nat with (512 + m)%nat by (subst m; rewrite length_drop; lia).
  rewrite adv_lxor. bitwise i. btauto.
Qed.

Lemma FoldBlocks_reference state data : in_u 32 state -> bytes_ok data ->
  (64 <= length data)%nat -> (length data mod 16 = 0)%nat ->
  FoldBlocks state data = reference state data.
Proof.
  intros Hs Hd Hl Hm. unfold FoldBlocks. cbv zeta.
  assert (forall n, in_u 128 (Load (drop n data))) as HL by (intros; by apply Load_bound, Forall_drop).
  pose proof (HL 0%nat) as HL0. cbn [drop] in HL0.
  assert (in_u 128 (Z.lxor (Load data) state)) as H1.
  { apply in_u_lxor; [done|done|]. by apply (in_u_mono 32). }
  pose proof (FoldLanes_spec (length (drop 64 data)) _ _ _ _ (drop 64 data) H1
    (HL 16%nat) (HL 32%nat) (HL 48%nat)) as HF.
  destruct (FoldLanes _ _ _ _ _ (drop 64 data)) as [[[[y1 y2] y3] y4] data'].
  destruct HF as (B1 & B2 & B3 & B4 & Hd' & Hm' & HV); [by apply Forall_drop| |].
  { rewrite length_drop. replace (length data) with ((length data - 64) + 4 * 16)%nat in Hm by lia.
    by rewrite Nat.Div0.mod_add in Hm. }
  pose proof (FoldOne_spec (length data') _ data' (Fold_bound (Fold (Fold y1 kK3K4 y2) kK3K4 y3) kK3K4 y4
    ltac:(done) B4) Hd' Hm' ltac:(lia)) as HO.
  destruct (FoldOne _ _ data') as [z data'']. destruct HO as (Bz & -> & HO).
  rewrite lanes_into_one, HV in HO by done. rewrite Reduce_spec by done.
  assert (adv 128 z = lane_value z []) as -> by (unfold lane_value; by rewrite adv_0, Z.lxor_0_r).
  rewrite HO. by apply lanes_value_start.
Qed.

Lemma ClmulKernel_reference state data : in_u 32 state -> bytes_ok data ->
  ClmulKernel state data = reference state data.
Proof.
  intros Hs Hd. unfold ClmulKernel, kMinFoldLength.
  destruct (Nat.leb_spec 64 (length data)) as [Hl|Hl]; [|by apply SlicingKernel_reference].
  set (k := Z.to_nat (Z.ldiff (len data) 15)).
  assert (k = 16 * (length data / 16))%nat as Ek.
  { subst k. change 15 with (Z.ones 4). rewrite Z.ldiff_ones_r by lia.
    rewrite Z.shiftl_mul_pow2, Z.shiftr_div_pow2 by lia. change (2 ^ 4) with (Z.of_nat 16).
    rewrite <- Nat2Z.inj_div, <- Nat2Z.inj_mul, Nat2Z.id. lia. }
  assert (64 <= k)%nat as Hk.
  { rewrite Ek. pose proof (Nat.Div0.div_le_mono 64 (length data) 16 Hl) as Hq.
    change (64 / 16)%nat with 4%nat in Hq. lia. }
  assert (k <= length data)%nat as Hk' by (rewrite Ek; apply Nat.Div0.mul_div_le).
  assert (length (take k data) = k) as Lk by (rewrite length_take; lia).
  rewrite FoldBlocks_reference; [|done|by apply Forall_take|lia|].
  - rewrite SlicingKernel_reference; [|apply reference_bound; [done|by apply Forall_take]|by apply Forall_drop].
    rewrite <- reference_app by by apply Forall_take. by rewrite take_drop.
  - rewrite Lk, Ek, Nat.mul_comm. apply Nat.Div0.mod_mul.
Qed.
End clmul_proof.

(** ** The checksum *)

Definition CrcModel : CrcIntrinsics := {|
  crc32b := fun state b => adv 8 (Z.lxor state b);
  crc32d := fun state w => adv 64 (Z.lxor state w);
  crc32b_spec := fun _ _ _ _ => eq_refl;
  crc32d_spec := fun _ _ _ _ => eq_refl
|}.

Lemma invert_bound x : in_u 32 x -> in_u 32 (Z.lxor x 0xFFFFFFFF).
Proof. intros. by apply in_u_lxor. Qed.

Lemma Crc32Extend_reference previous data : in_u 32 previous -> bytes_ok data ->
  Crc32Extend previous data = Z.lxor (reference (Z.lxor previous 0xFFFFFFFF) data) 0xFFFFFFFF.
Proof.
  intros Hp Hd. unfold Crc32Extend. by rewrite SlicingKernel_reference by (done || by apply invert_bound).
Qed.

Lemma Crc32Extend_bound previous data : in_u 32 previous -> bytes_ok data ->
  in_u 32 (Crc32Extend previous data).
Proof.
  intros Hp Hd. rewrite Crc32Extend_reference by done.
  apply invert_bound, reference_bound; [by apply invert_bound|done].
Qed.

Lemma Crc32_bound data : bytes_ok data -> in_u 32 (Crc32 data).
Proof. intros. by apply Crc32Extend_bound. Qed.

Lemma Crc32Extend_app previous a b : in_u 32 previous -> bytes_ok a -> bytes_ok b ->
  Crc32Extend (Crc32Extend previous a) b = Crc32Extend previous (a ++ b).
Proof.
  intros Hp Ha Hb. rewrite (Crc32Extend_reference _ b) by (done || by apply Crc32Extend_bound).
  rewrite !Crc32Extend_reference by (done || by apply bytes_ok_app).
  rewrite reference_app, Z.lxor_assoc, Z.lxor_nilpotent, Z.lxor_0_r by done. done.
Qed.

Lemma step1_zero v : in_u 32 v -> step1 v = 0 -> v = 0.
Proof.
  intros Hv E.
  assert (Z.testbit v 0 = false) as Ho.
  { pose proof (step1_bits v 31 ltac:(lia)) as H. rewrite E, Z.bits_0 in H.
    rewrite (testbit_above 32 v (31 + 1)) in H by (done || lia).
    change (Z.testbit kPolynomial 31) with true in H. by destruct (Z.testbit v 0). }
  apply Z.bits_inj'. intros i Hi. rewrite Z.bits_0.
  destruct (decide (i = 0)) as [->|Hne]; [done|].
  pose proof (step1_bits v (i - 1) ltac:(lia)) as H. rewrite E, Z.bits_0, Ho in H.
  replace (i - 1 + 1) with i in H by lia. by rewrite xorb_false_r in H.
Qed.

(** The register forgets nothing: only zero is advanced to zero. *)
Lemma adv_zero n v : in_u 32 v -> adv n v = 0 -> v = 0.
Proof.
  revert v; induction n as [|n IH]; intros v Hv E; [done|].
  rewrite adv_S in E. apply step1_zero; [done|]. apply IH; [|done].
  apply step1_bound; [lia|]. by apply (in_u_mono 32).
Qed.

(** C14: every kernel (table, slicing, carry-less multiplication, ARMv8
    instructions), in every build, on every processor and at every address of
    the data, computes the same checksum: the one-bit-per-step register with
    pre- and post-inversion. *)
Theorem crc32_kernels_agree `{ClmulIntrinsics} `{CrcIntrinsics} (p : Platform) (impl : Crc32Impl)
    (address previous : Z) (data : bytes) (Hprev : in_u 32 previous) (Hdata : bytes_ok data) :
  Crc32ExtendWith p impl address previous data = Crc32Extend previous data /\
  Crc32Extend previous data
  = Z.lxor (adv (8 * length data) (Z.lxor (Z.lxor previous 0xFFFFFFFF) (le_value data))) 0xFFFFFFFF.
Proof.
  rewrite Crc32Extend_reference by done. split; [|done]. unfold Crc32ExtendWith, KernelFor. f_equal.
  pose proof (invert_bound _ Hprev).
  destruct impl; repeat case_match; auto using TableKernel_reference, SlicingKernel_reference,
    ClmulKernel_reference, Armv8Kernel_reference.
Qed.

Lemma crc32_kernels_agree_witness :
  @Crc32ExtendWith ClmulModel CrcModel (Build_Platform true false true false) kClmul 3 0 (str "123456789"%string)
    = Crc32Extend 0 (str "123456789"%string) /\
  Crc32Extend 0 (str "123456789"%string)
  = Z.lxor (adv (8 * length (str "123456789"%string))
      (Z.lxor (Z.lxor 0 0xFFFFFFFF) (le_value (str "123456789"%string)))) 0xFFFFFFFF.
Proof.
  apply (@crc32_kernels_agree ClmulModel CrcModel (Build_Platform true false true false) kClmul 3 0
    (str "123456789"%string)).
  - done.
  - apply bytes_ok_str.
Defined.

(** The check value every CRC-32 of this kind has. *)
Example crc32_check_value : Crc32 (str "123456789"%string) = 0xCBF43926.
Proof. vm_compute. reflexivity. Qed.

(** A checksum taken piece by piece is the checksum of the whole. *)
Theorem crc32_extend_app (a b : bytes) (Ha : bytes_ok a) (Hb : bytes_ok b) :
  Crc32Extend (Crc32 a) b = Crc32 (a ++ b).
Proof. by apply Crc32Extend_app. Qed.

Lemma crc32_extend_app_witness : Crc32Extend (Crc32 [1; 2; 3]) [4; 5] = Crc32 [1; 2; 3; 4; 5].
Proof.
  apply (crc32_extend_app [1; 2; 3] [4; 5]); repeat (constructor; [by unfold byte_ok|]); constructor.
Defined.

(** C40: damage confined to 32 consecutive bits is always detected: two
    messages of one length whose difference is a nonzero pattern of at most
    32 bits, anywhere in the message, have different checksums. *)
Theorem crc32_burst_detected (a b : bytes) (e k : Z)
    (Ha : bytes_ok a) (Hb : bytes_ok b) (Hlen : length a = length b)
    (He : 0 < e < 2 ^ 32) (Hk : 0 <= k) (Hdiff : Z.lxor (le_value a) (le_value b) = Z.shiftl e k) :
  Crc32 a <> Crc32 b.
Proof.
  unfold Crc32. rewrite !Crc32Extend_reference by done. intros E.
  assert (Z.lxor (reference (Z.lxor 0 0xFFFFFFFF) a) (reference (Z.lxor 0 0xFFFFFFFF) b) = 0) as E0.
  { apply Z.lxor_eq_0_iff. apply (f_equal (fun x => Z.lxor x 0xFFFFFFFF)) in E.
    by rewrite !Z.lxor_assoc, Z.lxor_nilpotent, !Z.lxor_0_r in E. }
  unfold reference in E0. rewrite <- Hlen, <- adv_lxor in E0.
  assert (forall s x y, Z.lxor (Z.lxor s x) (Z.lxor s y) = Z.lxor x y) as Hx
    by (intros; bitwise i; btauto).
  rewrite Hx, Hdiff in E0.
  assert (k < 8 * len a) as Hka.
  { assert (in_u (8 * len a) (Z.shiftl e k)) as [_ Hlt].
    { rewrite <- Hdiff. apply in_u_lxor; [lia|by apply le_value_bound|rewrite Hlen; by apply le_value_bound]. }
    rewrite Z.shiftl_mul_pow2 in Hlt by lia. apply (Z.pow_lt_mono_r_iff 2); [lia..|].
    pose proof (Z.pow_pos_nonneg 2 k). nia. }
  replace (8 * length a)%nat with ((8 * length a - Z.to_nat k) + Z.to_nat k)%nat in E0 by lia.
  rewrite <- (Z2Nat.id k) in E0 at 3 by lia. rewrite adv_shiftl in E0.
  apply adv_zero in E0; unfold in_u; lia.
Qed.

Lemma crc32_burst_detected_witness : Crc32 [1; 2; 3; 4; 5; 6] <> Crc32 [1; 2; 7; 0; 5; 6].
Proof.
  apply (crc32_burst_detected [1; 2; 3; 4; 5; 6] [1; 2; 7; 0; 5; 6] 1028 16).
  - repeat (constructor; [by unfold byte_ok|]); constructor.
  - repeat (constructor; [by unfold byte_ok|]); constructor.
  - reflexivity.
  - lia.
  - lia.
  - reflexivity.
Defined.

(** The selection never picks a kernel the processor cannot run. *)
Lemma SelectCrc32Impl_available p requested :
  Crc32ImplAvailable p (SelectCrc32Impl p requested) = true.
Proof.
  unfold SelectCrc32Impl.
  destruct (List.find (Crc32ImplAvailable p) [kClmul; kArmv8]) as [f|] eqn:Ef.
  - apply find_some in Ef as [_ Ef]. destruct requested as [name|]; [|done].
    case_match eqn:E; [|done]. apply find_some in E as [_ E]. by apply andb_true_iff in E as [_ ->].
  - destruct requested as [name|]; [|done].
    case_match eqn:E; [|done]. apply find_some in E as [_ E]. by apply andb_true_iff in E as [_ ->].
Qed.

End Crc32.
