(* ===== verification/Vars.v ===== *)
(** * Variable-length values of a chunk (src/src/chunk_vars.cpp)

    A chunk keeps the values of its text and bytes columns as the encoded VARS
    section itself and one offset per entry.  The model is that
    representation: the bytes, the offsets, the binary search and the in-place
    edits of the source.  The abstraction is a finite map from keys to values;
    every operation refines the map's operation, and the representation of a
    map is unique, so an undo restores the very bytes. *)
From stdpp Require Import prelude strings gmap sorting.
From Stdlib Require Import ZArith Lia.
From S2P Require Import Prelude.

#[local] Open Scope Z_scope.

Module Vars.

Definition kVarEntryHeaderBytes : Z := 12.
Definition kVarMaxChunkBytesLimit : Z := 64 * 1024 * 1024.
Definition kDefaultVarMaxChunkBytes : Z := 1024 * 1024.

Record VarKey := { column_id : Z; block_index : Z }.

#[global] Instance VarKey_eq_dec : EqDecision VarKey.
Proof. solve_decision. Defined.
#[global] Instance VarKey_countable : Countable VarKey.
Proof.
  apply (inj_countable' (fun k => (column_id k, block_index k))
    (fun p => {| column_id := p.1; block_index := p.2 |})). by intros [].
Defined.

(** [operator<] and [operator<=] compare the packed keys. *)
Definition packed (k : VarKey) : Z := Z.lor (Z.shiftl (column_id k) 32) (block_index k).

Record VarChange := { change_key : VarKey; change_value : option bytes }.

Record ChunkVars := { data_ : bytes; offsets_ : list Z }.
Definition no_vars : ChunkVars := {| data_ := []; offsets_ := [] |}.

Record VarUpdate := { changes : list VarChange; replace_ : option ChunkVars }.

Record VarUndo := {
  replaced : bool;
  keys : list VarKey;
  previous : option ChunkVars;
  previous_values : list VarChange
}.

Definition ReadU32 (data : bytes) (at_ : Z) : Z :=
  Z.lor (Z.lor (Z.lor (byte_at data at_) (Z.shiftl (byte_at data (at_ + 1)) 8))
               (Z.shiftl (byte_at data (at_ + 2)) 16)) (Z.shiftl (byte_at data (at_ + 3)) 24).

(** The four bytes WriteU32At stores. *)
Definition WriteU32At (value : Z) : bytes :=
  map (fun i => u8 (Z.land (Z.shiftr value (8 * i)) 255)) [0; 1; 2; 3].

Definition WriteHeader (key : VarKey) (value_bytes : Z) : bytes :=
  WriteU32At (column_id key) ++ WriteU32At (block_index key) ++ WriteU32At (u32 value_bytes).

Definition RequireValidVarLimit (max_chunk_bytes : Z) : res unit :=
  throw_if ((max_chunk_bytes <=? kVarEntryHeaderBytes) || (kVarMaxChunkBytesLimit <? max_chunk_bytes))
    (invalid_argument "var_max_chunk_bytes must be between").

Definition KeyAt (v : ChunkVars) (offset : Z) : VarKey :=
  {| column_id := ReadU32 (data_ v) offset; block_index := ReadU32 (data_ v) (offset + 4) |}.

Definition EntryBytesAt (v : ChunkVars) (offset : Z) : Z :=
  kVarEntryHeaderBytes + ReadU32 (data_ v) (offset + 8).

(** [offsets_[i]]. *)
Definition offset_at (v : ChunkVars) (i : nat) : Z := nth i (offsets_ v) 0.

Definition LowerBound (v : ChunkVars) (key : VarKey) : nat :=
  lower_bound (fun i => packed (KeyAt v (offset_at v i)) <? packed key) (length (offsets_ v)).

(** The value bytes of the entry at an offset. *)
Definition ValueAt (v : ChunkVars) (offset : Z) : bytes :=
  slice (data_ v) (offset + kVarEntryHeaderBytes) (ReadU32 (data_ v) (offset + 8)).

Definition entry (v : ChunkVars) (index : nat) : res (VarKey * bytes) :=
  _ ← throw_if (length (offsets_ v) <=? index)%nat (out_of_range "vector::at");
  let offset := offset_at v index in Ok (KeyAt v offset, ValueAt v offset).

Definition Find (v : ChunkVars) (key : VarKey) : option bytes :=
  let at_ := LowerBound v key in
  if (at_ =? length (offsets_ v))%nat || negb (bool_decide (KeyAt v (offset_at v at_) = key)) then None
  else Some (ValueAt v (offset_at v at_)).

Definition Assign (v : ChunkVars) (key : VarKey) (value : bytes) : res ChunkVars :=
  let new_bytes := kVarEntryHeaderBytes + len value in
  let at_ := LowerBound v key in
  let exists_ := (at_ <? length (offsets_ v))%nat && bool_decide (KeyAt v (offset_at v at_) = key) in
  let old_bytes := if exists_ then EntryBytesAt v (offset_at v at_) else 0 in
  let offset := if (at_ <? length (offsets_ v))%nat then offset_at v at_ else len (data_ v) in
  _ ← throw_if (2 ^ 32 - 1 <? len (data_ v) - old_bytes + new_bytes)
        (length_error "variable-length values of one chunk exceed 4 GiB");
  let offsets := if exists_ then offsets_ v else insert_at (offsets_ v) at_ [u32 offset] in
  let data :=
    if old_bytes <? new_bytes then
      insert_at (data_ v) (Z.to_nat (offset + old_bytes)) (zeros (new_bytes - old_bytes))
    else if new_bytes <? old_bytes then
      erase (data_ v) (Z.to_nat (offset + new_bytes)) (Z.to_nat (offset + old_bytes))
    else data_ v in
  let data := splice data offset (WriteHeader key (len value)) in
  let data := splice data (offset + kVarEntryHeaderBytes) value in
  let shift := new_bytes - old_bytes in
  Ok {| data_ := data;
        offsets_ := take (at_ + 1) offsets ++ map (fun o => u32 (o + shift)) (drop (at_ + 1) offsets) |}.

Definition Remove (v : ChunkVars) (key : VarKey) : bool * ChunkVars :=
  let at_ := LowerBound v key in
  if (at_ =? length (offsets_ v))%nat || negb (bool_decide (KeyAt v (offset_at v at_) = key)) then (false, v)
  else
    let offset := offset_at v at_ in
    let bytes := EntryBytesAt v offset in
    let data := erase (data_ v) (Z.to_nat offset) (Z.to_nat (offset + bytes)) in
    let offsets := erase (offsets_ v) at_ (at_ + 1) in
    (true, {| data_ := data;
              offsets_ := take at_ offsets ++ map (fun o => u32 (o - u32 bytes)) (drop at_ offsets) |}).

(** The keys of some changes are strictly ascending. *)
Fixpoint RequireAscending (last : option VarKey) (cs : list VarChange) : res unit :=
  match cs with
  | [] => Ok tt
  | c :: cs' =>
      _ ← throw_if match last with Some k => packed (change_key c) <=? packed k | None => false end
            (logic_error "value changes are not in strictly ascending key order");
      RequireAscending (Some (change_key c)) cs'
  end.

(** The lambda [append] of Merge: copies one base entry. *)
Definition MergeAppend (base merged : ChunkVars) (offset : Z) : ChunkVars :=
  {| data_ := data_ merged ++ slice (data_ base) offset (EntryBytesAt base offset);
     offsets_ := offsets_ merged ++ [u32 (len (data_ merged))] |}.

(** [rest] holds [base.offsets_] from [next]. *)
Fixpoint MergeCopyBelow (base merged : ChunkVars) (rest : list Z) (key : VarKey)
    : ChunkVars * list Z :=
  match rest with
  | offset :: rest' =>
      if packed (KeyAt base offset) <? packed key then
        MergeCopyBelow base (MergeAppend base merged offset) rest' key
      else (merged, rest)
  | [] => (merged, rest)
  end.

Definition MergeChange (base : ChunkVars) (st : ChunkVars * list Z) (c : VarChange)
    : ChunkVars * list Z :=
  let '(merged, rest) := MergeCopyBelow base st.1 st.2 (change_key c) in
  let rest := match rest with
              | offset :: rest' => if bool_decide (KeyAt base offset = change_key c) then rest' else rest
              | [] => rest
              end in
  match change_value c with
  | Some value =>
      ({| data_ := data_ merged ++ WriteHeader (change_key c) (len value) ++ value;
          offsets_ := offsets_ merged ++ [u32 (len (data_ merged))] |}, rest)
  | None => (merged, rest)
  end.

Definition Merge (base : ChunkVars) (cs : list VarChange) : res ChunkVars :=
  _ ← RequireAscending None cs;
  let '(merged, rest) := fold_left (MergeChange base) cs (no_vars, offsets_ base) in
  let merged := fold_left (MergeAppend base) rest merged in
  _ ← throw_if (2 ^ 32 - 1 <? len (data_ merged))
        (length_error "variable-length values of one chunk exceed 4 GiB");
  Ok merged.

(** [vars.offsets_.back()], when there is one. *)
Definition last_offset (offsets : list Z) : option Z := last offsets.

(** The loop of Decode: every turn takes at least a header. *)
Fixpoint DecodeLoop (fuel : nat) (data : bytes) (block_count : Z) (at_ : Z) (offsets : list Z)
    : res (list Z) :=
  if at_ <? len data then
    match fuel with
    | O => Err out_of_fuel
    | S fuel' =>
        _ ← throw_if (len data - at_ <? kVarEntryHeaderBytes)
              (invalid_argument "VARS entry header extends past the section");
        let vars := {| data_ := data; offsets_ := offsets |} in
        let key := KeyAt vars at_ in
        let value_bytes := ReadU32 data (at_ + 8) in
        _ ← throw_if (block_count <=? block_index key) (invalid_argument "VARS entry for");
        _ ← throw_if match last_offset offsets with
                     | Some o => packed key <=? packed (KeyAt vars o)
                     | None => false
                     end (invalid_argument "VARS keys are not strictly ascending");
        _ ← throw_if (len data - at_ - kVarEntryHeaderBytes <? value_bytes)
              (invalid_argument "VARS value extends past the section");
        DecodeLoop fuel' data block_count (at_ + (kVarEntryHeaderBytes + value_bytes))
          (offsets ++ [u32 at_])
    end
  else Ok offsets.

Definition Decode (data : bytes) (block_count : Z) : res ChunkVars :=
  _ ← throw_if (kVarMaxChunkBytesLimit <? len data) (invalid_argument "VARS section exceeds");
  offsets ← DecodeLoop (length data) data block_count 0 [];
  Ok {| data_ := data; offsets_ := offsets |}.

Definition Encode (v : ChunkVars) : bytes := data_ v.
Definition encoded_size (v : ChunkVars) : Z := len (data_ v).

Definition VarsSizeAfter (v : ChunkVars) (update : VarUpdate) : Z :=
  match replace_ update with
  | Some r => encoded_size r
  | None =>
      fold_left (fun size c =>
          let size := match Find v (change_key c) with
                      | Some current => u64 (size - (kVarEntryHeaderBytes + len current))
                      | None => size
                      end in
          match change_value c with
          | Some value => u64 (size + (kVarEntryHeaderBytes + len value))
          | None => size
          end) (changes update) (encoded_size v)
  end.

(** The validation loop of ApplyVarUpdate: order, and that each change changes. *)
Fixpoint ValidateChanges (v : ChunkVars) (last : option VarKey) (cs : list VarChange) : res unit :=
  match cs with
  | [] => Ok tt
  | c :: cs' =>
      _ ← throw_if match last with Some k => packed (change_key c) <=? packed k | None => false end
            (logic_error "value changes are not in strictly ascending key order");
      _ ← throw_if (bool_decide (change_value c = Find v (change_key c)))
            (logic_error "a value change does not change anything");
      ValidateChanges v (Some (change_key c)) cs'
  end.

(** One value set or removed. *)
Definition ChangeOne (v : ChunkVars) (c : VarChange) : res ChunkVars :=
  match change_value c with
  | Some value => Assign v (change_key c) value
  | None => Ok (Remove v (change_key c)).2
  end.

Definition ApplyVarUpdate (v : ChunkVars) (update : VarUpdate) : res (ChunkVars * VarUndo) :=
  match replace_ update with
  | Some r =>
      _ ← throw_if (negb (length (changes update) =? 0)%nat)
            (logic_error "a value update has both changes and a replacement");
      Ok (r, {| replaced := true; keys := []; previous := Some v; previous_values := [] |})
  | None =>
      _ ← ValidateChanges v None (changes update);
      let keys := map change_key (changes update) in
      match changes update with
      | [c] =>
          v' ← ChangeOne v c;
          Ok (v', {| replaced := false; keys := keys; previous := None;
                     previous_values := [{| change_key := change_key c;
                                            change_value := Find v (change_key c) |}] |})
      | cs =>
          v' ← Merge v cs;
          Ok (v', {| replaced := false; keys := keys; previous := Some v; previous_values := [] |})
      end
  end.

Definition UndoVarUpdate (v : ChunkVars) (undo : VarUndo) : res ChunkVars :=
  match previous undo with
  | Some p => Ok p
  | None => fold_res ChangeOne v (previous_values undo)
  end.

(** ** The representation of a list of entries *)

Abbreviation entry_t := (VarKey * bytes)%type.

Definition encode_entry (e : entry_t) : bytes :=
  le_bytes 4 (column_id e.1) ++ le_bytes 4 (block_index e.1) ++ le_bytes 4 (len e.2) ++ e.2.

Definition enc (E : list entry_t) : bytes := flat_map encode_entry E.

(** The offset of every entry, the first at [base]. *)
Fixpoint offs (base : Z) (E : list entry_t) : list Z :=
  match E with
  | [] => []
  | e :: E' => base :: offs (base + len (encode_entry e)) E'
  end.

Definition rep (E : list entry_t) : ChunkVars := {| data_ := enc E; offsets_ := offs 0 E |}.

Definition key_ok (k : VarKey) : Prop := in_u 32 (column_id k) /\ in_u 32 (block_index k).
Definition entry_ok (e : entry_t) : Prop := key_ok e.1 /\ bytes_ok e.2.
Definition before (e1 e2 : entry_t) : Prop := packed e1.1 < packed e2.1.

Record entries_wf (E : list entry_t) : Prop := {
  ewf_ok : Forall entry_ok E;
  ewf_sorted : StronglySorted before E;
  ewf_size : len (enc E) < 2 ^ 32
}.

(** The invariant of ChunkVars: the bytes are the entries in strictly
    ascending key order, and the offsets are where they start. *)
Definition wf (v : ChunkVars) : Prop := exists E, entries_wf E /\ v = rep E.

(** The map some entries stand for, and the map of a well-formed value: the
    entries are read through the offsets. *)
Definition to_map (E : list entry_t) : gmap VarKey bytes := list_to_map E.
Definition abs (v : ChunkVars) : gmap VarKey bytes :=
  to_map (map (fun o => (KeyAt v o, ValueAt v o)) (offsets_ v)).

Lemma packed_value k : in_u 32 (block_index k) -> packed k = column_id k * 2 ^ 32 + block_index k.
Proof.
  intros Hb. unfold packed.
  assert (Z.land (Z.shiftl (column_id k) 32) (block_index k) = 0) as Hd.
  { bitwise i. destruct (decide (i < 32)); [by rewrite Z.testbit_neg_r by lia|].
    rewrite (testbit_above 32 (block_index k)) by (done || lia). apply andb_false_r. }
  rewrite <- Z.lxor_lor, <- Z.add_nocarry_lxor, Z.shiftl_mul_pow2 by (done || lia). done.
Qed.

Lemma packed_inj k1 k2 : key_ok k1 -> key_ok k2 -> packed k1 = packed k2 -> k1 = k2.
Proof.
  destruct k1 as [c1 b1], k2 as [c2 b2]. intros [H1 H2] [H3 H4]. rewrite !packed_value by done.
  unfold in_u in *. cbn [column_id block_index] in *. intros E.
  assert (c1 = c2) as -> by lia. assert (b1 = b2) as -> by lia. done.
Qed.

Lemma WriteU32At_le v : WriteU32At v = le_bytes 4 v.
Proof.
  unfold WriteU32At. cbn [map le_bytes]. rewrite !Z.shiftr_shiftr by lia.
  rewrite !(wrap_small 8) by apply byte_land_255. by rewrite Z.shiftr_0_r.
Qed.

Lemma ReadU32_slice data off : 0 <= off -> off + 4 <= len data ->
  ReadU32 data off = le_value (slice data off 4).
Proof. intros. rewrite slice_4 by done. apply lor4_le. Qed.

Lemma ReadU32_app pre x post off : off = len pre -> in_u 32 x ->
  ReadU32 (pre ++ le_bytes 4 x ++ post) off = x.
Proof.
  intros -> Hx. rewrite ReadU32_slice by len_lia.
  rewrite slice_app by (done || by rewrite length_le_bytes). by apply (le_value_le_bytes 4).
Qed.

Lemma ReadU32_bound data off : bytes_ok data -> in_u 32 (ReadU32 data off).
Proof.
  intros Hd. unfold ReadU32. rewrite lor4_le. apply (le_value_bound [_; _; _; _]).
  repeat (constructor; [by apply byte_at_ok|]). constructor.
Qed.

Lemma len_encode_entry e : len (encode_entry e) = kVarEntryHeaderBytes + len e.2.
Proof. unfold encode_entry, kVarEntryHeaderBytes. rewrite !length_app, !length_le_bytes. lia. Qed.

(** The header's length field holds the low 32 bits of the length. *)
Lemma WriteHeader_entry k v : WriteHeader k (len v) ++ v = encode_entry (k, v).
Proof.
  unfold WriteHeader, encode_entry. rewrite !WriteU32At_le. unfold wrap.
  rewrite (le_bytes_wrap 4). by rewrite <- !app_assoc.
Qed.

Lemma enc_app E1 E2 : enc (E1 ++ E2) = enc E1 ++ enc E2.
Proof. apply flat_map_app. Qed.

Lemma offs_app base E1 E2 : offs base (E1 ++ E2) = offs base E1 ++ offs (base + len (enc E1)) E2.
Proof.
  revert base; induction E1 as [|e E1 IH]; intros base; cbn [offs app enc flat_map].
  - by rewrite Z.add_0_r.
  - rewrite IH, length_app. do 2 f_equal. f_equal. unfold enc. lia.
Qed.

Lemma length_offs base E : length (offs base E) = length E.
Proof. revert base; induction E as [|e E IH]; intros base; simpl; [done|]. by f_equal. Qed.

Lemma offs_shift base d E : offs (base + d) E = map (fun o => o + d) (offs base E).
Proof.
  revert base; induction E as [|e E IH]; intros base; cbn [offs map]; [done|].
  f_equal. rewrite <- IH. f_equal. lia.
Qed.

Lemma offs_bound base E : Forall (fun o => base <= o <= base + len (enc E)) (offs base E).
Proof.
  revert base; induction E as [|e E IH]; intros base; cbn [offs enc flat_map]; constructor.
  - lia.
  - eapply Forall_impl; [apply IH|]. intros o. rewrite length_app. unfold enc. simpl. lia.
Qed.

(** Casting offsets to 32 bits changes nothing below 4 GiB. *)
Lemma map_u32_id l : Forall (in_u 32) l -> map u32 l = l.
Proof.
  induction 1 as [|x l Hx Hl IH]; simpl; [done|]. by rewrite wrap_small, IH.
Qed.

Lemma offs_u32 base E : 0 <= base -> base + len (enc E) < 2 ^ 32 -> map u32 (offs base E) = offs base E.
Proof.
  intros. apply map_u32_id. eapply Forall_impl; [apply offs_bound|].
  unfold in_u. simpl. intros. lia.
Qed.

Lemma bytes_ok_enc E : Forall entry_ok E -> bytes_ok (enc E).
Proof.
  induction 1 as [|e E [_ He] HE IH]; [constructor|]. cbn [enc flat_map].
  apply bytes_ok_app; split; [|exact IH]. unfold encode_entry. rewrite !bytes_ok_app. auto with chunkdb.
Qed.

Section at_entry.
Context (E1 E2 : list entry_t) (e : entry_t).
Hypothesis (Hok : entry_ok e) (Hsize : len (enc (E1 ++ e :: E2)) < 2 ^ 32).

#[local] Abbreviation off := (len (enc E1)).

Lemma rep_offset : offset_at (rep (E1 ++ e :: E2)) (length E1) = off.
Proof.
  unfold offset_at. cbn [rep offsets_]. rewrite offs_app. cbn [offs].
  rewrite app_nth2, length_offs, Nat.sub_diag by (rewrite length_offs; lia). cbn [nth]. lia.
Qed.

Lemma value_size : len e.2 < 2 ^ 32.
Proof.
  rewrite enc_app in Hsize. cbn [enc flat_map] in Hsize. rewrite !length_app in Hsize.
  pose proof (len_encode_entry e). unfold kVarEntryHeaderBytes in *. lia.
Qed.

Lemma rep_data : data_ (rep (E1 ++ e :: E2))
  = enc E1 ++ le_bytes 4 (column_id e.1) ++ le_bytes 4 (block_index e.1) ++ le_bytes 4 (len e.2) ++ e.2 ++ enc E2.
Proof.
  cbn [rep data_]. rewrite enc_app. cbn [enc flat_map]. unfold encode_entry. by rewrite <- !app_assoc.
Qed.

Lemma rep_key : KeyAt (rep (E1 ++ e :: E2)) off = e.1.
Proof.
  destruct Hok as [[Hc Hb] _]. unfold KeyAt. rewrite rep_data.
  rewrite ReadU32_app by done.
  rewrite (app_assoc (enc E1)), (ReadU32_app (enc E1 ++ _)) by (done || len_lia).
  by destruct e as [[c b] v].
Qed.

Lemma rep_length : ReadU32 (data_ (rep (E1 ++ e :: E2))) (off + 8) = len e.2.
Proof.
  rewrite rep_data. rewrite (app_assoc (enc E1)), (app_assoc (enc E1 ++ _)).
  apply ReadU32_app; [len_lia|]. pose proof value_size. unfold in_u. lia.
Qed.

Lemma rep_entry_bytes : EntryBytesAt (rep (E1 ++ e :: E2)) off = len (encode_entry e).
Proof. unfold EntryBytesAt. by rewrite rep_length, len_encode_entry. Qed.

Lemma rep_value : ValueAt (rep (E1 ++ e :: E2)) off = e.2.
Proof.
  unfold ValueAt. rewrite rep_length, rep_data.
  rewrite (app_assoc (enc E1)), (app_assoc (enc E1 ++ _)), (app_assoc ((enc E1 ++ _) ++ _)).
  apply slice_app; [|done]. unfold kVarEntryHeaderBytes. len_lia.
Qed.

Lemma rep_slice : slice (data_ (rep (E1 ++ e :: E2))) off (len (encode_entry e)) = encode_entry e.
Proof. cbn [rep data_]. rewrite enc_app. cbn [enc flat_map]. by apply slice_app. Qed.
End at_entry.

(** ** Searching *)

Lemma lookup_split {A} (l : list A) i x : l !! i = Some x ->
  exists l1 l2, l = l1 ++ x :: l2 /\ length l1 = i.
Proof.
  intros H. exists (take i l), (drop (S i) l). split.
  - symmetry. by apply take_drop_middle.
  - rewrite length_take. apply lookup_lt_Some in H. lia.
Qed.

Lemma entries_ok_lookup E i e : Forall entry_ok E -> E !! i = Some e -> entry_ok e.
Proof. intros H Hi. exact (Forall_lookup_1 _ _ _ _ H Hi). Qed.

Lemma key_at_index E i e : Forall entry_ok E -> len (enc E) < 2 ^ 32 -> E !! i = Some e ->
  KeyAt (rep E) (offset_at (rep E) i) = e.1.
Proof.
  intros Hok Hs Hi. pose proof (entries_ok_lookup _ _ _ Hok Hi) as He.
  apply lookup_split in Hi as (E1 & E2 & -> & <-). by rewrite rep_offset, rep_key.
Qed.

(** A sorted list splits at a key: below, and from the key on. *)
Lemma sorted_split E key : StronglySorted before E ->
  exists E1 E2, E = E1 ++ E2 /\ Forall (fun e => packed e.1 < packed key) E1 /\
    Forall (fun e => packed key <= packed e.1) E2.
Proof.
  induction 1 as [|e E HE IH He].
  - by exists [], [].
  - destruct (decide (packed e.1 < packed key)) as [Hlt|Hge].
    + destruct IH as (E1 & E2 & -> & H1 & H2). exists (e :: E1), E2. auto.
    + exists [], (e :: E). split; [done|]. split; [constructor|]. constructor; [lia|].
      eapply Forall_impl; [exact He|]. unfold before. simpl. intros. lia.
Qed.

Lemma LowerBound_split E1 E2 key :
  Forall entry_ok (E1 ++ E2) -> len (enc (E1 ++ E2)) < 2 ^ 32 ->
  Forall (fun e => packed e.1 < packed key) E1 -> Forall (fun e => packed key <= packed e.1) E2 ->
  LowerBound (rep (E1 ++ E2)) key = length E1.
Proof.
  intros Hok Hs H1 H2. unfold LowerBound. cbn [rep offsets_]. rewrite length_offs, length_app.
  apply lower_bound_spec; [lia| |]; intros i Hi.
  - destruct (lookup_lt_is_Some_2 E1 i ltac:(lia)) as [e He].
    rewrite (key_at_index _ _ e) by (done || by apply lookup_app_l_Some).
    apply Z.ltb_lt. exact (Forall_lookup_1 _ _ _ _ H1 He).
  - destruct (lookup_lt_is_Some_2 E2 (i - length E1) ltac:(lia)) as [e He].
    rewrite (key_at_index _ _ e) by (done || rewrite lookup_app_r by lia; done).
    apply Z.ltb_ge. exact (Forall_lookup_1 _ _ _ _ H2 He).
Qed.

(** Where a key is, or would be: the cases every operation goes through. *)
Inductive located (E : list entry_t) (key : VarKey) : Prop :=
| located_at E1 v E2 : E = E1 ++ (key, v) :: E2 ->
    Forall (fun e => packed e.1 < packed key) E1 -> Forall (fun e => packed key < packed e.1) E2 ->
    located E key
| located_gap E1 E2 : E = E1 ++ E2 ->
    Forall (fun e => packed e.1 < packed key) E1 -> Forall (fun e => packed key < packed e.1) E2 ->
    located E key.

Lemma locate E key : entries_wf E -> key_ok key -> located E key.
Proof.
  intros [Hok Hsort _] Hk. destruct (sorted_split E key Hsort) as (E1 & E2 & -> & H1 & H2).
  destruct E2 as [|[k v] E2]; [by eapply located_gap|].
  apply StronglySorted_app_1_r in Hsort. inversion Hsort as [|? ? _ Hlt]; subst.
  inversion H2 as [|? ? Hkv _]; subst. simpl in Hkv.
  apply Forall_app in Hok as [_ Hok]. inversion Hok as [|? ? [Hkk _] _]; subst. simpl in Hkk.
  destruct (decide (packed k = packed key)) as [E|E].
  - apply packed_inj in E as ->; [|done|done]. eapply located_at; [done|done|]. exact Hlt.
  - eapply located_gap; [done|done|]. constructor; [simpl; lia|].
    eapply Forall_impl; [exact Hlt|]. unfold before. simpl. intros. lia.
Qed.

Lemma Forall_lt_le key E : Forall (fun e : entry_t => packed key < packed e.1) E ->
  Forall (fun e => packed key <= packed e.1) E.
Proof. intros H. eapply Forall_impl; [exact H|]. simpl. lia. Qed.

Section located_at_entry.
Context (E1 E2 : list entry_t) (key : VarKey) (v : bytes).
Hypothesis (Hwf : entries_wf (E1 ++ (key, v) :: E2)).
Hypothesis (H1 : Forall (fun e => packed e.1 < packed key) E1).
Hypothesis (H2 : Forall (fun e => packed key < packed e.1) E2).

Lemma entry_ok_here : entry_ok (key, v).
Proof using Hwf. destruct Hwf as [Hok _ _]. apply Forall_app in Hok as [_ Hok]. by inversion Hok. Qed.

Lemma LowerBound_at : LowerBound (rep (E1 ++ (key, v) :: E2)) key = length E1.
Proof using All.
  destruct Hwf as [Hok _ Hs]. apply LowerBound_split; [done..|].
  constructor; [simpl; lia|by apply Forall_lt_le].
Qed.

Lemma Find_at : Find (rep (E1 ++ (key, v) :: E2)) key = Some v.
Proof using All.
  unfold Find. rewrite LowerBound_at. cbn [rep offsets_]. rewrite length_offs, length_app.
  rewrite (proj2 (Nat.eqb_neq _ _)) by (simpl; lia). fold (rep (E1 ++ (key, v) :: E2)).
  pose proof entry_ok_here as He. destruct Hwf as [_ _ Hs].
  by rewrite rep_offset, rep_key, bool_decide_true, rep_value.
Qed.
End located_at_entry.

Section located_in_gap.
Context (E1 E2 : list entry_t) (key : VarKey).
Hypothesis (Hwf : entries_wf (E1 ++ E2)).
Hypothesis (H1 : Forall (fun e => packed e.1 < packed key) E1).
Hypothesis (H2 : Forall (fun e => packed key < packed e.1) E2).

Lemma LowerBound_gap : LowerBound (rep (E1 ++ E2)) key = length E1.
Proof using All.
  destruct Hwf as [Hok _ Hs]. apply LowerBound_split; [done..|]. by apply Forall_lt_le.
Qed.

(** The search stops at the end or at another key. *)
Lemma gap_cases : (E2 = [] /\ length E1 = length (offsets_ (rep (E1 ++ E2)))) \/
  ((length E1 < length (offsets_ (rep (E1 ++ E2))))%nat /\
   offset_at (rep (E1 ++ E2)) (length E1) = len (enc E1) /\
   KeyAt (rep (E1 ++ E2)) (len (enc E1)) <> key).
Proof using Hwf H2.
  cbn [rep offsets_]. rewrite length_offs, length_app. fold (rep (E1 ++ E2)).
  destruct E2 as [|[k v] E2']; [left; split; [done|simpl; lia]|right].
  destruct Hwf as [Hok _ Hs]. apply Forall_app in Hok as [_ Hok]. inversion Hok; subst.
  inversion H2 as [|? ? Hlt _]; subst. simpl in Hlt.
  split; [simpl; lia|]. split; [apply rep_offset|]. rewrite rep_key by done. simpl. intros ->. lia.
Qed.

Lemma Find_gap : Find (rep (E1 ++ E2)) key = None.
Proof using All.
  unfold Find. rewrite LowerBound_gap. destruct gap_cases as [[-> Hl]|(Hl & Ho & Hk)].
  - by rewrite Hl, Nat.eqb_refl.
  - rewrite Ho, (bool_decide_false (KeyAt _ _ = key)) by done. by rewrite orb_true_r.
Qed.
End located_in_gap.

(** ** The map *)

Lemma entries_rep E : entries_wf E -> map (fun o => (KeyAt (rep E) o, ValueAt (rep E) o)) (offsets_ (rep E)) = E.
Proof.
  intros [Hok _ Hs]. cbn [rep offsets_]. fold (rep E).
  apply list_eq. intros i. rewrite list_lookup_fmap.
  destruct (E !! i) as [e|] eqn:Hi.
  - pose proof (entries_ok_lookup _ _ _ Hok Hi) as He.
    apply lookup_split in Hi as (E1 & E2 & -> & <-).
    rewrite offs_app, lookup_app_r by (rewrite length_offs; lia).
    rewrite length_offs, Nat.sub_diag. cbn [offs lookup list_lookup fmap option_fmap option_map].
    rewrite Z.add_0_l, rep_key, rep_value by done. by destruct e.
  - apply lookup_ge_None in Hi. rewrite lookup_ge_None_2; [done|]. by rewrite length_offs.
Qed.

Lemma abs_rep E : entries_wf E -> abs (rep E) = to_map E.
Proof. intros H. unfold abs. by rewrite entries_rep. Qed.

Lemma to_map_not_in E key : Forall (fun e => packed e.1 <> packed key) E -> to_map E !! key = None.
Proof.
  intros H. apply not_elem_of_list_to_map_1. rewrite list_elem_of_fmap. intros ([k v] & -> & Hin).
  rewrite Forall_forall in H. by apply (H _ Hin).
Qed.

Lemma Forall_before_ne key (E : list entry_t) : Forall (fun e => packed e.1 < packed key) E ->
  Forall (fun e => packed e.1 <> packed key) E.
Proof. intros H. eapply Forall_impl; [exact H|]. simpl. lia. Qed.
Lemma Forall_after_ne key (E : list entry_t) : Forall (fun e => packed key < packed e.1) E ->
  Forall (fun e => packed e.1 <> packed key) E.
Proof. intros H. eapply Forall_impl; [exact H|]. simpl. lia. Qed.

Lemma to_map_app E1 E2 : to_map (E1 ++ E2) = to_map E1 ∪ to_map E2.
Proof. apply list_to_map_app. Qed.

Lemma to_map_insert E1 E2 key v : Forall (fun e => packed e.1 < packed key) E1 ->
  to_map (E1 ++ (key, v) :: E2) = <[key := v]> (to_map (E1 ++ E2)).
Proof.
  intros H1. rewrite !to_map_app. cbn [to_map list_to_map foldr].
  symmetry. apply insert_union_r. by apply to_map_not_in, Forall_before_ne.
Qed.

Lemma to_map_delete E1 E2 key v : Forall (fun e => packed e.1 < packed key) E1 ->
  Forall (fun e => packed key < packed e.1) E2 ->
  to_map (E1 ++ E2) = delete key (to_map (E1 ++ (key, v) :: E2)).
Proof.
  intros H1 H2. rewrite to_map_insert by done. rewrite delete_insert_id; [done|].
  apply to_map_not_in, Forall_app. split; [by apply Forall_before_ne|by apply Forall_after_ne].
Qed.

Lemma Find_rep E key : entries_wf E -> key_ok key -> Find (rep E) key = to_map E !! key.
Proof.
  intros Hwf Hk. destruct (locate E key Hwf Hk) as [E1 v E2 -> H1 H2|E1 E2 -> H1 H2].
  - rewrite Find_at by done. rewrite to_map_insert by done. by rewrite lookup_insert_eq.
  - rewrite Find_gap by done. symmetry. apply to_map_not_in, Forall_app.
    split; [by apply Forall_before_ne|by apply Forall_after_ne].
Qed.

(** A sorted list of entries is determined by its map. *)
Lemma sorted_NoDup E : StronglySorted before E -> NoDup E.*1.
Proof.
  induction 1 as [|e E HE IH He]; cbn; constructor; [|done].
  rewrite list_elem_of_fmap. intros ([k v] & Ek & Hin). rewrite Forall_forall in He.
  specialize (He _ Hin). unfold before in He. simpl in *. subst. lia.
Qed.

Lemma to_map_unique E1 E2 : StronglySorted before E1 -> StronglySorted before E2 ->
  to_map E1 = to_map E2 -> E1 = E2.
Proof.
  intros H1 H2 HE. apply (StronglySorted_unique_strong before); [|done|done|].
  - unfold before. intros. lia.
  - apply list_to_map_inj; auto using sorted_NoDup.
Qed.

(** ** Assign *)

Lemma entries_ok_insert E1 E2 key v :
  Forall entry_ok (E1 ++ E2) -> key_ok key -> bytes_ok v -> Forall entry_ok (E1 ++ (key, v) :: E2).
Proof. rewrite !Forall_app, Forall_cons. intros [? ?] ? ?. split; [done|]. split; [by split|done]. Qed.

Lemma sorted_insert E1 E2 key v : StronglySorted before (E1 ++ E2) ->
  Forall (fun e => packed e.1 < packed key) E1 -> Forall (fun e => packed key < packed e.1) E2 ->
  StronglySorted before (E1 ++ (key, v) :: E2).
Proof.
  intros Hs H1 H2. apply StronglySorted_app_2; [|by eapply StronglySorted_app_1_l|].
  - intros x y Hx Hy. rewrite Forall_forall in H1. rewrite Forall_forall in H2.
    apply elem_of_cons in Hy as [->|Hy]; [by apply H1|].
    apply (Z.lt_trans _ (packed key)); [by apply H1|by apply H2].
  - constructor; [by eapply StronglySorted_app_1_r|done].
Qed.

Lemma sorted_drop_one E1 E2 e : StronglySorted before (E1 ++ e :: E2) ->
  StronglySorted before (E1 ++ E2).
Proof.
  intros Hs. apply StronglySorted_app_2.
  - intros x y Hx Hy. eapply (StronglySorted_app_1_elem_of before); [exact Hs|done|]. by right.
  - by eapply StronglySorted_app_1_l.
  - apply StronglySorted_app_1_r in Hs. by inversion Hs.
Qed.

(** The resize and the two writes put the new entry in the old one's place. *)
Lemma assign_data a old c key v :
  let new_bytes := kVarEntryHeaderBytes + len v in
  let data := a ++ old ++ c in
  let resized :=
    if len old <? new_bytes then insert_at data (Z.to_nat (len a + len old)) (zeros (new_bytes - len old))
    else if new_bytes <? len old then
      erase data (Z.to_nat (len a + new_bytes)) (Z.to_nat (len a + len old))
    else data in
  splice (splice resized (len a) (WriteHeader key (len v))) (len a + kVarEntryHeaderBytes) v
  = a ++ encode_entry (key, v) ++ c.
Proof.
  cbv zeta. set (new_bytes := kVarEntryHeaderBytes + len v).
  assert (exists x, len x = new_bytes /\
    (if len old <? new_bytes
     then insert_at (a ++ old ++ c) (Z.to_nat (len a + len old)) (zeros (new_bytes - len old))
     else if new_bytes <? len old
     then erase (a ++ old ++ c) (Z.to_nat (len a + new_bytes)) (Z.to_nat (len a + len old))
     else a ++ old ++ c) = a ++ x ++ c) as (x & Hx & ->).
  { destruct (Z.ltb_spec (len old) new_bytes); [|destruct (Z.ltb_spec new_bytes (len old))].
    - exists (old ++ zeros (new_bytes - len old)).
      rewrite length_app, Nat2Z.inj_add, len_zeros by lia. split; [lia|].
      rewrite (app_assoc a old), insert_at_app by (rewrite length_app; lia). by rewrite <- !app_assoc.
    - exists (take (Z.to_nat new_bytes) old). unfold kVarEntryHeaderBytes in new_bytes.
      split; [rewrite length_take; lia|].
      rewrite <- (take_drop (Z.to_nat new_bytes) old) at 1. rewrite <- app_assoc, (app_assoc a), erase_app.
      + by rewrite <- app_assoc.
      + rewrite length_app, length_take. lia.
      + rewrite !length_app, length_take, length_drop. lia.
    - exists old. split; [lia|done]. }
  assert (len (WriteHeader key (len v)) = kVarEntryHeaderBytes) as Hh.
  { unfold WriteHeader. rewrite !WriteU32At_le. by rewrite !length_app, !length_le_bytes. }
  rewrite <- Hh. rewrite splice_splice by (rewrite ?length_app; lia).
  rewrite WriteHeader_entry. apply splice_app; [done|].
  pose proof (len_encode_entry (key, v)) as He. cbn [snd] in He. lia.
Qed.

Lemma map_u32_shift base d E : 0 <= base + d -> base + d + len (enc E) < 2 ^ 32 ->
  map (fun o => u32 (o + d)) (offs base E) = offs (base + d) E.
Proof.
  intros. rewrite <- (offs_u32 (base + d) E) by done. rewrite offs_shift.
  by rewrite list_fmap_compose || rewrite map_map.
Qed.

Lemma len_enc_mid E1 E2 e : len (enc (E1 ++ e :: E2)) = len (enc E1) + len (encode_entry e) + len (enc E2).
Proof. rewrite enc_app. cbn [enc flat_map]. rewrite !length_app. unfold enc. lia. Qed.

Lemma rep_mid E1 E2 e : rep (E1 ++ e :: E2)
  = {| data_ := enc E1 ++ encode_entry e ++ enc E2;
       offsets_ := offs 0 E1 ++ len (enc E1) :: offs (len (enc E1) + len (encode_entry e)) E2 |}.
Proof. unfold rep. rewrite enc_app, offs_app. cbn [enc flat_map offs]. by rewrite Z.add_0_l. Qed.

Lemma Assign_at E1 E2 key v0 v :
  entries_wf (E1 ++ (key, v0) :: E2) -> Forall (fun e => packed e.1 < packed key) E1 ->
  Forall (fun e => packed key < packed e.1) E2 -> len (enc (E1 ++ (key, v) :: E2)) < 2 ^ 32 ->
  Assign (rep (E1 ++ (key, v0) :: E2)) key v = Ok (rep (E1 ++ (key, v) :: E2)).
Proof.
  intros Hwf H1 H2 Hsz. pose proof (entry_ok_here _ _ _ _ Hwf) as He. unfold Assign.
  rewrite LowerBound_at by done. pose proof (ewf_size _ Hwf) as Hs.
  assert ((length E1 <? length (offsets_ (rep (E1 ++ (key, v0) :: E2)))) = true)%nat as ->.
  { apply Nat.ltb_lt. cbn [rep offsets_]. rewrite length_offs, length_app. simpl. lia. }
  rewrite rep_offset, rep_key by done. rewrite bool_decide_true by done. cbn [andb].
  rewrite rep_entry_bytes by done.
  pose proof (value_size E1 E2 (key, v) Hsz) as Hv. cbn [snd] in Hv.
  rewrite len_enc_mid in Hs, Hsz. pose proof (len_encode_entry (key, v)) as Hl. cbn [snd] in Hl.
  rewrite rep_mid. cbn [data_ offsets_].
  pass_guard by (apply Z.ltb_ge; rewrite !length_app; lia).
  rewrite assign_data. f_equal. rewrite rep_mid. f_equal.
  assert (length E1 + 1 = length (offs 0 E1 ++ [len (enc E1)]))%nat as Hn.
  { rewrite length_app, length_offs. done. }
  rewrite cons_middle, app_assoc, Hn, take_app_length, drop_app_length, <- app_assoc.
  rewrite map_u32_shift by lia. cbn [app]. do 3 f_equal. lia.
Qed.

Lemma Assign_gap E1 E2 key v :
  entries_wf (E1 ++ E2) -> Forall (fun e => packed e.1 < packed key) E1 ->
  Forall (fun e => packed key < packed e.1) E2 -> len (enc (E1 ++ (key, v) :: E2)) < 2 ^ 32 ->
  Assign (rep (E1 ++ E2)) key v = Ok (rep (E1 ++ (key, v) :: E2)).
Proof.
  intros Hwf H1 H2 Hsz. unfold Assign. rewrite LowerBound_gap by done.
  pose proof (value_size E1 E2 (key, v) Hsz) as Hv. cbn [snd] in Hv.
  rewrite len_enc_mid in Hsz. pose proof (len_encode_entry (key, v)) as Hl. cbn [snd] in Hl.
  assert (((length E1 <? length (offsets_ (rep (E1 ++ E2))))%nat
    && bool_decide (KeyAt (rep (E1 ++ E2)) (offset_at (rep (E1 ++ E2)) (length E1)) = key)) = false /\
    (if (length E1 <? length (offsets_ (rep (E1 ++ E2))))%nat then offset_at (rep (E1 ++ E2)) (length E1)
     else len (data_ (rep (E1 ++ E2)))) = len (enc E1)) as [-> ->].
  { destruct (gap_cases E1 E2 key Hwf H2) as [[-> Hlen]|(Hlen & Ho & Hk)].
    - rewrite Hlen, Nat.ltb_irrefl. split; [done|]. cbn [rep data_]. by rewrite app_nil_r.
    - rewrite (proj2 (Nat.ltb_lt _ _)) by done. rewrite Ho, bool_decide_false by done. done. }
  cbn [rep data_ offsets_]. rewrite enc_app, offs_app, Z.add_0_l.
  pass_guard by (apply Z.ltb_ge; rewrite !length_app; lia).
  rewrite (assign_data (enc E1) [] (enc E2)). f_equal. rewrite rep_mid. f_equal.
  rewrite insert_at_app by (by rewrite length_offs). rewrite wrap_small by (unfold in_u; lia).
  assert (length E1 + 1 = length (offs 0 E1 ++ [len (enc E1)]))%nat as Hn.
  { rewrite length_app, length_offs. done. }
  rewrite app_assoc, Hn, take_app_length, drop_app_length, <- app_assoc.
  rewrite map_u32_shift by lia. cbn [app]. do 3 f_equal. lia.
Qed.

(** ** Remove *)

Lemma Remove_at E1 E2 key v :
  entries_wf (E1 ++ (key, v) :: E2) -> Forall (fun e => packed e.1 < packed key) E1 ->
  Forall (fun e => packed key < packed e.1) E2 ->
  Remove (rep (E1 ++ (key, v) :: E2)) key = (true, rep (E1 ++ E2)).
Proof.
  intros Hwf H1 H2. pose proof (entry_ok_here _ _ _ _ Hwf) as He. unfold Remove.
  rewrite LowerBound_at by done. pose proof (ewf_size _ Hwf) as Hs.
  assert ((length E1 =? length (offsets_ (rep (E1 ++ (key, v) :: E2)))) = false)%nat as ->.
  { apply Nat.eqb_neq. cbn [rep offsets_]. rewrite length_offs, length_app. simpl. lia. }
  rewrite rep_offset, rep_key, rep_entry_bytes by done.
  rewrite bool_decide_true by done. cbn [orb negb].
  rewrite len_enc_mid in Hs. rewrite rep_mid. cbn [data_ offsets_]. f_equal.
  unfold rep. rewrite enc_app, offs_app, Z.add_0_l. f_equal.
  - rewrite erase_app; [done| |]; lia.
  - rewrite cons_middle, erase_app by (rewrite length_offs; simpl; lia).
    rewrite <- (length_offs 0 E1), take_app_length, drop_app_length. f_equal.
    rewrite wrap_small by (unfold in_u; lia).
    rewrite (map_ext _ (fun o => u32 (o + - len (encode_entry (key, v))))) by done.
    rewrite map_u32_shift by lia. f_equal. lia.
Qed.

Lemma Remove_gap E1 E2 key :
  entries_wf (E1 ++ E2) -> Forall (fun e => packed e.1 < packed key) E1 ->
  Forall (fun e => packed key < packed e.1) E2 -> Remove (rep (E1 ++ E2)) key = (false, rep (E1 ++ E2)).
Proof.
  intros Hwf H1 H2. unfold Remove. rewrite LowerBound_gap by done.
  destruct (gap_cases E1 E2 key Hwf H2) as [[-> Hl]|(Hl & Ho & Hk)].
  - by rewrite Hl, Nat.eqb_refl.
  - rewrite Ho, (bool_decide_false (KeyAt _ _ = key)) by done. by rewrite orb_true_r.
Qed.

(** ** Refinement of the map operations *)

(** What a change does to the map, and the encoded size of one slot of it. *)
Definition apply_change (m : gmap VarKey bytes) (c : VarChange) : gmap VarKey bytes :=
  match change_value c with
  | Some v => <[change_key c := v]> m
  | None => delete (change_key c) m
  end.

Definition slot_size (o : option bytes) : Z :=
  match o with Some v => kVarEntryHeaderBytes + len v | None => 0 end.

Definition change_ok (c : VarChange) : Prop :=
  key_ok (change_key c) /\ match change_value c with Some v => bytes_ok v | None => True end.

(** The entries after a change, in the place the change has. *)
Definition slot_entries (key : VarKey) (o : option bytes) : list entry_t :=
  match o with Some v => [(key, v)] | None => [] end.

Lemma len_enc_slot E1 E2 key o :
  len (enc (E1 ++ slot_entries key o ++ E2)) = len (enc E1) + slot_size o + len (enc E2).
Proof.
  destruct o as [v|]; cbn [slot_entries app slot_size].
  - rewrite len_enc_mid, len_encode_entry. done.
  - rewrite enc_app, length_app. lia.
Qed.

(** The shape of a well-formed list around a key. *)
Lemma locate_slot E key : entries_wf E -> key_ok key ->
  exists E1 E2, E = E1 ++ slot_entries key (to_map E !! key) ++ E2 /\
    Forall (fun e => packed e.1 < packed key) E1 /\ Forall (fun e => packed key < packed e.1) E2.
Proof.
  intros Hwf Hk. destruct (locate E key Hwf Hk) as [E1 v E2 HE H1 H2|E1 E2 HE H1 H2]; exists E1, E2.
  - split; [|done]. rewrite HE at 2. rewrite to_map_insert, lookup_insert_eq by done. done.
  - split; [|done]. rewrite <- Find_rep by done. rewrite HE at 2. rewrite Find_gap; [done| |done|done].
    by rewrite <- HE.
Qed.

Lemma slot_wf E1 E2 key o o' :
  entries_wf (E1 ++ slot_entries key o ++ E2) -> key_ok key ->
  match o' with Some v => bytes_ok v | None => True end ->
  Forall (fun e => packed e.1 < packed key) E1 -> Forall (fun e => packed key < packed e.1) E2 ->
  len (enc (E1 ++ slot_entries key o' ++ E2)) < 2 ^ 32 ->
  entries_wf (E1 ++ slot_entries key o' ++ E2).
Proof.
  intros [Hok Hsort _] Hk Ho' H1 H2 Hsz.
  assert (Forall entry_ok (E1 ++ E2) /\ StronglySorted before (E1 ++ E2)) as [Hok' Hsort'].
  { destruct o; cbn [slot_entries app] in *; [|done]. split; [|by eapply sorted_drop_one].
    apply Forall_app in Hok as [? Hok]. inversion Hok; subst. by apply Forall_app. }
  constructor; [| |done]; destruct o' as [v|]; cbn [slot_entries app]; try done.
  - by apply entries_ok_insert.
  - by apply sorted_insert.
Qed.

Lemma to_map_slot E1 E2 c o : Forall (fun e => packed e.1 < packed (change_key c)) E1 ->
  Forall (fun e => packed (change_key c) < packed e.1) E2 ->
  to_map (E1 ++ slot_entries (change_key c) (change_value c) ++ E2)
  = apply_change (to_map (E1 ++ slot_entries (change_key c) o ++ E2)) c.
Proof.
  intros H1 H2. unfold apply_change.
  destruct (change_value c) as [v|], o as [v'|]; cbn [slot_entries app].
  - rewrite !to_map_insert by done. by rewrite insert_insert_eq.
  - by rewrite to_map_insert.
  - by apply to_map_delete.
  - symmetry. apply delete_id, to_map_not_in, Forall_app.
    split; [by apply Forall_before_ne|by apply Forall_after_ne].
Qed.

Lemma ChangeOne_slot E1 E2 o c :
  entries_wf (E1 ++ slot_entries (change_key c) o ++ E2) ->
  Forall (fun e => packed e.1 < packed (change_key c)) E1 ->
  Forall (fun e => packed (change_key c) < packed e.1) E2 ->
  len (enc (E1 ++ slot_entries (change_key c) (change_value c) ++ E2)) < 2 ^ 32 ->
  ChangeOne (rep (E1 ++ slot_entries (change_key c) o ++ E2)) c
  = Ok (rep (E1 ++ slot_entries (change_key c) (change_value c) ++ E2)).
Proof.
  intros Hwf H1 H2 Hsz. unfold ChangeOne.
  destruct (change_value c) as [v|], o as [v'|]; cbn [slot_entries app] in *.
  - by apply Assign_at.
  - by apply Assign_gap.
  - by rewrite Remove_at.
  - by rewrite Remove_gap.
Qed.

(** One change to a well-formed value: the map's change, the size, the error. *)
Lemma ChangeOne_spec v c : wf v -> change_ok c ->
  let size := encoded_size v - slot_size (abs v !! change_key c) + slot_size (change_value c) in
  if size <? 2 ^ 32 then
    exists v', ChangeOne v c = Ok v' /\ wf v' /\ abs v' = apply_change (abs v) c /\ encoded_size v' = size
  else ChangeOne v c = Err (length_error "variable-length values of one chunk exceed 4 GiB").
Proof.
  intros (E & Hwf & ->) [Hk Hv]. cbv zeta. rewrite abs_rep by done.
  destruct (locate_slot E (change_key c) Hwf Hk) as (E1 & E2 & HE & H1 & H2).
  set (o := to_map E !! change_key c) in *. clearbody o. subst E.
  unfold encoded_size. cbn [rep data_]. rewrite len_enc_slot.
  destruct (Z.ltb_spec (len (enc E1) + slot_size o + len (enc E2) - slot_size o + slot_size (change_value c))
    (2 ^ 32)) as [Hsz|Hsz].
  - assert (len (enc (E1 ++ slot_entries (change_key c) (change_value c) ++ E2)) < 2 ^ 32) as Hsz'
      by (rewrite len_enc_slot; lia).
    pose proof (slot_wf _ _ _ _ _ Hwf Hk Hv H1 H2 Hsz') as Hwf'.
    eexists. split; [by apply ChangeOne_slot|]. split; [by eexists|]. split.
    + rewrite abs_rep by done. by apply to_map_slot.
    + cbn [rep data_]. rewrite len_enc_slot. lia.
  - pose proof (ewf_size _ Hwf) as Hs. rewrite len_enc_slot in Hs.
    destruct (change_value c) as [v|] eqn:Ev; [|destruct o; cbn [slot_size] in *;
      unfold kVarEntryHeaderBytes in *; lia].
    unfold ChangeOne. rewrite Ev. cbn [slot_size] in Hsz. unfold Assign.
    destruct o as [v0|]; cbn [slot_entries app slot_size] in *.
    + rewrite LowerBound_at by done.
      rewrite (proj2 (Nat.ltb_lt _ _)) by (cbn [rep offsets_]; rewrite length_offs, length_app; simpl; lia).
      pose proof (entry_ok_here _ _ _ _ Hwf) as He. pose proof (ewf_size _ Hwf) as Hs'.
      rewrite rep_offset, rep_key, rep_entry_bytes, bool_decide_true by done. cbn [andb].
      fail_guard by (apply Z.ltb_lt; cbn [rep data_]; rewrite len_enc_mid, len_encode_entry; cbn [snd]; lia).
    + rewrite LowerBound_gap by done.
      destruct (gap_cases E1 E2 (change_key c) Hwf H2) as [[HE2 Hl]|(Hl & Ho & Hkk)].
      * rewrite <- Hl, Nat.ltb_irrefl. cbn [andb].
        fail_guard by (apply Z.ltb_lt; cbn [rep data_]; rewrite enc_app, length_app; lia).
      * rewrite Ho, (bool_decide_false (KeyAt _ _ = _)) by done. rewrite andb_false_r.
        cbv zeta. fail_guard by (apply Z.ltb_lt; cbn [rep data_]; rewrite enc_app, length_app; lia).
Qed.

Lemma Find_abs v key : wf v -> key_ok key -> Find v key = abs v !! key.
Proof. intros (E & Hwf & ->) Hk. rewrite Find_rep, abs_rep by done. done. Qed.

(** The representation of a map is unique. *)
Lemma abs_inj v1 v2 : wf v1 -> wf v2 -> abs v1 = abs v2 -> v1 = v2.
Proof.
  intros (E1 & Hwf1 & ->) (E2 & Hwf2 & ->). rewrite !abs_rep by done. intros HE. f_equal.
  apply to_map_unique; [apply Hwf1|apply Hwf2|done].
Qed.

(** ** Merge *)

(** Merge builds its result before it checks the size: offsets are cast. *)
Definition rep32 (M : list entry_t) : ChunkVars := {| data_ := enc M; offsets_ := map u32 (offs 0 M) |}.

Lemma rep32_small M : len (enc M) < 2 ^ 32 -> rep32 M = rep M.
Proof. intros H. unfold rep32, rep. f_equal. apply offs_u32; lia. Qed.

Lemma rep32_push M e :
  {| data_ := data_ (rep32 M) ++ encode_entry e; offsets_ := offsets_ (rep32 M) ++ [u32 (len (data_ (rep32 M)))] |}
  = rep32 (M ++ [e]).
Proof.
  unfold rep32. cbn [data_ offsets_]. rewrite enc_app, offs_app, map_app. cbn [enc flat_map offs map].
  by rewrite app_nil_r, Z.add_0_l.
Qed.

Section merge.
Context (E : list entry_t) (Hwf : entries_wf E).

Lemma MergeAppend_spec E1 e E2 M : E = E1 ++ e :: E2 ->
  MergeAppend (rep E) (rep32 M) (len (enc E1)) = rep32 (M ++ [e]).
Proof using Hwf.
  intros HE. destruct Hwf as [Hok _ Hs]. rewrite HE in Hok, Hs |- *.
  apply Forall_app in Hok as [_ Hok]. inversion Hok; subst.
  unfold MergeAppend. rewrite rep_entry_bytes, rep_slice by done. apply rep32_push.
Qed.

(** [rest] stands for the base entries not yet visited. *)
Lemma MergeCopyBelow_spec E1 E2 M key : E = E1 ++ E2 ->
  exists B R, E2 = B ++ R /\ Forall (fun e => packed e.1 < packed key) B /\
    match R with e :: _ => packed key <= packed e.1 | [] => True end /\
    MergeCopyBelow (rep E) (rep32 M) (offs (len (enc E1)) E2) key
    = (rep32 (M ++ B), offs (len (enc (E1 ++ B))) R).
Proof using Hwf.
  revert E1 M; induction E2 as [|e E2 IH]; intros E1 M HE.
  - exists [], []. split; [done|]. cbn. by rewrite !app_nil_r.
  - cbn [offs MergeCopyBelow].
    assert (KeyAt (rep E) (len (enc E1)) = e.1) as Hkey.
    { destruct Hwf as [Hok _ Hs]. rewrite HE in Hok, Hs |- *.
      apply Forall_app in Hok as [_ Hok]. inversion Hok; subst. by apply rep_key. }
    rewrite Hkey. destruct (Z.ltb_spec (packed e.1) (packed key)) as [Hlt|Hge].
    + rewrite (MergeAppend_spec E1 e E2) by done.
      destruct (IH (E1 ++ [e]) (M ++ [e])) as (B & R & -> & HB & HR & HM).
      { by rewrite <- app_assoc. }
      exists (e :: B), R. split; [done|]. split; [by constructor|]. split; [done|].
      rewrite enc_app, length_app in HM. cbn [enc flat_map] in HM. rewrite app_nil_r in HM.
      replace (len (enc E1) + len (encode_entry e)) with (Z.of_nat (length (enc E1) + length (encode_entry e)))
        by lia.
      rewrite HM. by rewrite <- !app_assoc.
    + exists [], (e :: E2). split; [done|]. split; [constructor|]. split; [done|]. by rewrite !app_nil_r.
Qed.

Lemma MergeChange_spec E1 E2 M c : E = E1 ++ E2 -> key_ok (change_key c) ->
  exists B R o E1', E2 = B ++ slot_entries (change_key c) o ++ R /\
    Forall (fun e => packed e.1 < packed (change_key c)) B /\
    Forall (fun e => packed (change_key c) < packed e.1) R /\
    E = E1' ++ R /\
    MergeChange (rep E) (rep32 M, offs (len (enc E1)) E2) c
    = (rep32 (M ++ B ++ slot_entries (change_key c) (change_value c)), offs (len (enc E1')) R).
Proof using Hwf.
  intros HE Hk. destruct (MergeCopyBelow_spec E1 E2 M (change_key c) HE) as (B & R & HE2 & HB & HR & HM).
  unfold MergeChange. cbn [fst snd]. rewrite HM. clear HM.
  pose proof (ewf_sorted _ Hwf) as Hsort. pose proof (ewf_ok _ Hwf) as Hok.
  rewrite HE, HE2, app_assoc in Hsort, Hok. apply StronglySorted_app_1_r in Hsort.
  apply Forall_app in Hok as [_ Hok].
  assert (exists o E1' R', R = slot_entries (change_key c) o ++ R' /\ E = E1' ++ R' /\
    Forall (fun e => packed (change_key c) < packed e.1) R' /\
    match offs (len (enc (E1 ++ B))) R with
    | offset :: rest' => if bool_decide (KeyAt (rep E) offset = change_key c) then rest'
                         else offs (len (enc (E1 ++ B))) R
    | [] => offs (len (enc (E1 ++ B))) R
    end = offs (len (enc E1')) R') as (o & E1' & R' & -> & HE' & HR' & ->).
  { destruct R as [|[k v] R].
    { exists None, (E1 ++ B), []. rewrite app_nil_r in HE2. subst. by rewrite !app_nil_r. }
    cbn [offs]. inversion Hsort as [|? ? HsR HltR]; subst. inversion Hok as [|? ? Hkv HokR]; subst.
    rewrite app_assoc. rewrite rep_key by (done || rewrite <- app_assoc; apply Hwf). cbn [fst].
    case_bool_decide as Hkk.
    - subst k. exists (Some v), ((E1 ++ B) ++ [(change_key c, v)]), R. split; [done|].
      split; [by rewrite <- !app_assoc|]. split; [done|].
      rewrite (enc_app (E1 ++ B)), length_app. cbn [enc flat_map]. rewrite app_nil_r. f_equal. unfold enc. lia.
    - exists None, (E1 ++ B), ((k, v) :: R). split; [done|]. split; [done|].
      assert (packed (change_key c) < packed k) as Hlt.
      { destruct Hkv as [Hkk' _]. cbn in Hkk', HR.
        assert (packed k <> packed (change_key c)) by (intros Ep; by apply packed_inj in Ep). lia. }
      split; [|done]. constructor; [done|]. eapply Forall_impl; [exact HltR|].
      unfold before. simpl. intros. lia. }
  exists B, R', o, E1'. split; [done|]. split; [done|]. split; [done|]. split; [done|].
  destruct (change_value c) as [v|]; cbn [slot_entries].
  - rewrite WriteHeader_entry, rep32_push. by rewrite app_assoc.
  - by rewrite app_nil_r.
Qed.

Lemma MergeRest_spec E1 E2 M : E = E1 ++ E2 ->
  fold_left (MergeAppend (rep E)) (offs (len (enc E1)) E2) (rep32 M) = rep32 (M ++ E2).
Proof using Hwf.
  revert E1 M; induction E2 as [|e E2 IH]; intros E1 M HE; cbn [offs fold_left].
  - by rewrite app_nil_r.
  - rewrite (MergeAppend_spec E1 e E2) by done.
    replace (len (enc E1) + len (encode_entry e)) with (len (enc (E1 ++ [e]))).
    + rewrite IH by (by rewrite <- app_assoc). by rewrite <- app_assoc.
    + rewrite enc_app, length_app. cbn [enc flat_map]. rewrite app_nil_r. unfold enc. lia.
Qed.

(** Keys already merged are not above the last change's key. *)
Definition merged_below (M : list entry_t) (last : option VarKey) : Prop :=
  match last with
  | Some k => Forall (fun e => packed e.1 <= packed k) M
  | None => M = []
  end.

Lemma MergeChanges_spec cs E1 E2 M last : E = E1 ++ E2 ->
  Forall change_ok cs -> RequireAscending last cs = Ok tt -> merged_below M last ->
  Forall entry_ok (M ++ E2) -> StronglySorted before (M ++ E2) ->
  exists M' E1' E2', E = E1' ++ E2' /\
    Forall entry_ok (M' ++ E2') /\ StronglySorted before (M' ++ E2') /\
    to_map (M' ++ E2') = foldl apply_change (to_map (M ++ E2)) cs /\
    fold_left (MergeChange (rep E)) cs (rep32 M, offs (len (enc E1)) E2)
    = (rep32 M', offs (len (enc E1')) E2').
Proof using Hwf.
  revert E1 E2 M last; induction cs as [|c cs IH]; intros E1 E2 M last HE Hcs Hasc HM Hok Hsort.
  { by exists M, E1, E2. }
  apply Forall_cons in Hcs as [[Hk Hv] Hcs']. cbn [RequireAscending] in Hasc. res_inv.
  destruct (MergeChange_spec E1 E2 M c HE Hk) as (B & R & o & E1' & -> & HB & HR & HE' & HMc).
  cbn [fold_left]. rewrite HMc.
  assert (Forall (fun e => packed e.1 < packed (change_key c)) (M ++ B)) as HMB.
  { apply Forall_app. split; [|done]. destruct last as [k|]; cbn in HM; [|by subst].
    apply Z.leb_gt in Hs. eapply Forall_impl; [exact HM|]. simpl. intros. lia. }
  rewrite (app_assoc M B) in Hok, Hsort. rewrite !(app_assoc M B).
  assert (Forall entry_ok ((M ++ B) ++ slot_entries (change_key c) (change_value c) ++ R) /\
    StronglySorted before ((M ++ B) ++ slot_entries (change_key c) (change_value c) ++ R)) as [Hok' Hsort'].
  { assert (Forall entry_ok ((M ++ B) ++ R) /\ StronglySorted before ((M ++ B) ++ R)) as [Hok1 Hsort1].
    { destruct o; cbn [slot_entries app] in *; [|done]. split; [|by eapply sorted_drop_one].
      apply Forall_app in Hok as [? Hok]. inversion Hok; subst. by apply Forall_app. }
    destruct (change_value c); cbn [slot_entries app]; [|done].
    split; [by apply entries_ok_insert|by apply sorted_insert]. }
  destruct (IH E1' R ((M ++ B) ++ slot_entries (change_key c) (change_value c)) (Some (change_key c)))
    as (M' & E1'' & E2' & HE'' & Hok'' & Hsort'' & Hmap & Hfold); [done|done|done| | | |].
  - cbn. apply Forall_app. split.
    + eapply Forall_impl; [exact HMB|]. simpl. intros. lia.
    + destruct (change_value c); cbn; [|constructor]. constructor; [simpl; lia|constructor].
  - by rewrite <- app_assoc.
  - by rewrite <- app_assoc.
  - exists M', E1'', E2'. split; [done|]. split; [done|]. split; [done|]. split; [|done].
    rewrite Hmap, <- app_assoc. cbn [foldl]. f_equal. by apply to_map_slot.
Qed.

Lemma Merge_entries cs : Forall change_ok cs -> RequireAscending None cs = Ok tt ->
  exists M, Forall entry_ok M /\ StronglySorted before M /\
    to_map M = foldl apply_change (to_map E) cs /\
    Merge (rep E) cs = if len (enc M) <? 2 ^ 32 then Ok (rep M)
      else Err (length_error "variable-length values of one chunk exceed 4 GiB").
Proof using Hwf.
  intros Hcs Hasc.
  destruct (MergeChanges_spec cs [] E [] None) as (M & E1 & E2 & HE & Hok & Hsort & Hmap & Hfold);
    [done|done|done|done|apply Hwf|apply Hwf|].
  exists (M ++ E2). split; [done|]. split; [done|]. split; [done|].
  unfold Merge. rewrite Hasc. cbn [mbind res_bind].
  change (no_vars, offsets_ (rep E)) with (rep32 [], offs (len (enc [])) E).
  rewrite Hfold, MergeRest_spec by done. cbn [rep32 data_].
  destruct (Z.ltb_spec (len (enc (M ++ E2))) (2 ^ 32)) as [Hs|Hs].
  - pass_guard by (apply Z.ltb_ge; lia). f_equal. by apply rep32_small.
  - fail_guard by (apply Z.ltb_lt; lia).
Qed.
End merge.

(** ** Sizes *)

(** The encoded size of a map. *)
Definition map_size (m : gmap VarKey bytes) : Z :=
  foldr (fun kv acc => slot_size (Some kv.2) + acc) 0 (map_to_list m).

Lemma sum_sizes_perm l1 l2 : Permutation l1 l2 ->
  foldr (fun (kv : entry_t) acc => slot_size (Some kv.2) + acc) 0 l1
  = foldr (fun (kv : entry_t) acc => slot_size (Some kv.2) + acc) 0 l2.
Proof. induction 1; cbn [foldr]; lia. Qed.

Lemma map_size_entries E : StronglySorted before E -> map_size (to_map E) = len (enc E).
Proof.
  intros Hs. unfold map_size, to_map.
  rewrite (sum_sizes_perm _ E) by (apply map_to_list_to_map; by apply sorted_NoDup).
  clear Hs. induction E as [|e E IH]; [done|]. cbn [foldr enc flat_map]. rewrite IH.
  rewrite length_app, Nat2Z.inj_add, len_encode_entry. unfold enc, slot_size. lia.
Qed.

Lemma map_size_abs v : wf v -> map_size (abs v) = encoded_size v.
Proof.
  intros (E & Hwf & ->). rewrite abs_rep by done. apply map_size_entries, Hwf.
Qed.

Lemma map_size_insert_new m k v : m !! k = None -> map_size (<[k := v]> m) = slot_size (Some v) + map_size m.
Proof.
  intros H. unfold map_size. rewrite (sum_sizes_perm _ ((k, v) :: map_to_list m)); [done|].
  by apply map_to_list_insert.
Qed.

Lemma map_size_delete m k : map_size (delete k m) = map_size m - slot_size (m !! k).
Proof.
  destruct (m !! k) as [v|] eqn:E.
  - rewrite <- (insert_delete_id m k v) at 2 by done.
    rewrite map_size_insert_new by apply lookup_delete_eq. lia.
  - rewrite delete_id by done. cbn. lia.
Qed.

Lemma map_size_change m c :
  map_size (apply_change m c) = map_size m - slot_size (m !! change_key c) + slot_size (change_value c).
Proof.
  unfold apply_change. destruct (change_value c) as [v|].
  - rewrite <- insert_delete_eq, map_size_insert_new by apply lookup_delete_eq.
    rewrite map_size_delete. lia.
  - rewrite map_size_delete. cbn. lia.
Qed.

(** ** Decode *)

Lemma entry_in_data pre e post offsets : key_ok e.1 -> len e.2 < 2 ^ 32 ->
  let data := pre ++ encode_entry e ++ post in
  KeyAt {| data_ := data; offsets_ := offsets |} (len pre) = e.1 /\
  ReadU32 data (len pre + 8) = len e.2.
Proof.
  intros [Hc Hb] Hl. cbv zeta. unfold KeyAt, encode_entry. cbn [data_]. rewrite <- !app_assoc.
  rewrite ReadU32_app by done. split.
  - rewrite (app_assoc pre), (ReadU32_app (pre ++ _)) by (done || len_lia). by destruct e as [[c b] v].
  - rewrite (app_assoc pre), (app_assoc (pre ++ _)). apply ReadU32_app; [len_lia|]. unfold in_u. lia.
Qed.

(** The bytes from [at_], when they hold a whole entry. *)
Lemma entry_at_data pre rest offsets : bytes_ok rest ->
  kVarEntryHeaderBytes <= len rest ->
  let data := pre ++ rest in
  let key := KeyAt {| data_ := data; offsets_ := offsets |} (len pre) in
  let n := ReadU32 data (len pre + 8) in
  kVarEntryHeaderBytes + n <= len rest ->
  exists v rest', rest = encode_entry (key, v) ++ rest' /\ n = len v /\ entry_ok (key, v).
Proof.
  intros Hb H12 data key n Hn. unfold kVarEntryHeaderBytes in *.
  destruct (split_len 4 rest) as (c & r1 & -> & Hc); [lia|].
  destruct (split_len 4 r1) as (b & r2 & -> & Hb4); [len_lia|].
  destruct (split_len 4 r2) as (l & r3 & -> & Hl); [len_lia|].
  rewrite !bytes_ok_app in Hb. destruct Hb as (Oc & Ob & Ol & Or).
  assert (forall p w q, bytes_ok w -> length w = 4%nat -> ReadU32 (p ++ w ++ q) (len p) = le_value w) as HR.
  { intros p w q Hw Hw4. rewrite <- (le_bytes_le_value w Hw) at 1. rewrite Hw4.
    apply ReadU32_app; [done|]. pose proof (le_value_bound w Hw) as B. by rewrite Hw4 in B. }
  assert (key = {| column_id := le_value c; block_index := le_value b |}) as Ekey.
  { subst key data. unfold KeyAt. cbn [data_]. f_equal; [by apply HR|].
    rewrite (app_assoc pre). replace (len pre + 4) with (len (pre ++ c)) by len_lia. by apply HR. }
  assert (n = le_value l) as En.
  { subst n data. rewrite (app_assoc pre), (app_assoc (pre ++ c)).
    replace (len pre + 8) with (len ((pre ++ c) ++ b)) by len_lia. by apply HR. }
  assert (0 <= n) as Hn0.
  { rewrite En. pose proof (le_value_bound l Ol) as B. unfold in_u in B. lia. }
  destruct (split_len (Z.to_nat n) r3) as (v & r4 & -> & Hv); [len_lia|].
  exists v, r4. split; [|split; [lia|]].
  - unfold encode_entry. rewrite Ekey. cbn [fst snd column_id block_index].
    replace (len v) with (le_value l) by lia.
    rewrite <- Hc at 1. rewrite le_bytes_le_value by done.
    rewrite <- Hb4 at 1. rewrite le_bytes_le_value by done.
    rewrite <- Hl at 1. rewrite le_bytes_le_value by done. by rewrite <- !app_assoc.
  - apply bytes_ok_app in Or as [Ov _]. split; [|done]. rewrite Ekey. split; cbn.
    + pose proof (le_value_bound c Oc) as B. by rewrite Hc in B.
    + pose proof (le_value_bound b Ob) as B. by rewrite Hb4 in B.
Qed.

Lemma last_key E1 rest : Forall entry_ok E1 -> len (enc E1) < 2 ^ 32 ->
  match last_offset (offs 0 E1) with
  | Some o => Some (KeyAt {| data_ := enc E1 ++ rest; offsets_ := offs 0 E1 |} o)
  | None => None
  end = fst <$> last E1.
Proof.
  intros Hok Hs. destruct E1 as [|e0 E0 _] using rev_ind; [done|].
  rewrite offs_app. cbn [offs]. unfold last_offset. rewrite !last_snoc. rewrite Z.add_0_l.
  apply Forall_app in Hok as [_ Hok]. inversion Hok as [|? ? [Hk _] _]; subst.
  rewrite !enc_app in *. cbn [enc flat_map] in *. rewrite app_nil_r in *. rewrite <- app_assoc.
  rewrite length_app in Hs. pose proof (len_encode_entry e0). unfold kVarEntryHeaderBytes in *.
  destruct (entry_in_data (enc E0) e0 rest (offs 0 E0 ++ [len (enc E0)]) Hk ltac:(lia)) as [-> _]. done.
Qed.

Lemma sorted_snoc E e : StronglySorted before E ->
  match last E with Some e' => packed e'.1 < packed e.1 | None => True end ->
  StronglySorted before (E ++ [e]).
Proof.
  intros Hs Hl. destruct E as [|e0 E0 _] using rev_ind; [constructor; constructor|].
  rewrite last_snoc in Hl. apply StronglySorted_app_2; [|done|constructor; constructor].
  intros x y Hx Hy. apply list_elem_of_singleton in Hy as ->.
  apply elem_of_app in Hx as [Hx|Hx].
  - apply (Z.lt_trans _ (packed e0.1)); [|done].
    eapply (StronglySorted_app_1_elem_of before); [exact Hs|done|]. by left.
  - by apply list_elem_of_singleton in Hx as ->.
Qed.

Lemma enc_snoc E e : enc (E ++ [e]) = enc E ++ encode_entry e.
Proof. rewrite enc_app. cbn [enc flat_map]. by rewrite app_nil_r. Qed.

Lemma offs_snoc E e : offs 0 (E ++ [e]) = offs 0 E ++ [len (enc E)].
Proof. rewrite offs_app. cbn [offs]. by rewrite Z.add_0_l. Qed.

(** What the loop has accepted so far is a list of entries; so is the rest. *)
Lemma DecodeLoop_sound fuel E1 rest bc offsets :
  bytes_ok rest -> len (enc E1 ++ rest) < 2 ^ 32 ->
  Forall entry_ok E1 -> StronglySorted before E1 -> Forall (fun e => block_index e.1 < bc) E1 ->
  DecodeLoop fuel (enc E1 ++ rest) bc (len (enc E1)) (offs 0 E1) = Ok offsets ->
  exists E2, rest = enc E2 /\ offsets = offs 0 (E1 ++ E2) /\ Forall entry_ok (E1 ++ E2) /\
    StronglySorted before (E1 ++ E2) /\ Forall (fun e => block_index e.1 < bc) (E1 ++ E2).
Proof.
  revert E1 rest; induction fuel as [|fuel IH]; intros E1 rest Hb Hlen Hok Hsort Hbc H;
    (destruct rest as [|b0 rest0] eqn:Er;
     [exists []; rewrite app_nil_r in H |- *; cbn [DecodeLoop] in H; rewrite Z.ltb_irrefl in H;
      injection H as <-; done|]); rewrite <- Er in *;
    (assert (0 < len rest) as Hpos by (subst rest; simpl; lia)); clear Er; cbn [DecodeLoop] in H;
    rewrite length_app, (proj2 (Z.ltb_lt _ _)) in H by lia; [done|].
  res_inv. rewrite Nat2Z.inj_add in *.
  apply Z.ltb_ge in Hs. apply Z.leb_gt in Hs0. apply Z.ltb_ge in Hs2.
  rewrite length_app in Hlen.
  destruct (entry_at_data (enc E1) rest (offs 0 E1) Hb ltac:(lia) ltac:(lia))
    as (v & rest' & Hrest & Hn & Hev).
  set (key := KeyAt _ (len (enc E1))) in *.
  pose proof (last_key E1 rest Hok ltac:(lia)) as Hlast.
  assert (StronglySorted before (E1 ++ [(key, v)])) as Hsort'.
  { apply sorted_snoc; [done|]. destruct (last E1) as [e'|] eqn:El; [|done]. cbn in Hlast |- *.
    destruct (last_offset (offs 0 E1)) as [o|]; [|done]. injection Hlast as Hlast.
    rewrite Hlast in Hs1. by apply Z.leb_gt in Hs1. }
  rewrite wrap_small in H by (unfold in_u; lia).
  rewrite Hn in H. pose proof (len_encode_entry (key, v)) as Hle. cbn [snd] in Hle.
  rewrite <- Hle, <- (offs_snoc E1 (key, v)) in H.
  replace (len (enc E1) + len (encode_entry (key, v))) with (len (enc (E1 ++ [(key, v)]))) in H
    by (rewrite enc_snoc, length_app; lia).
  rewrite Hrest, app_assoc, <- enc_snoc in H.
  apply IH in H as (E2 & -> & -> & Hok2 & Hsort2 & Hbc2).
  - exists ((key, v) :: E2). rewrite <- !app_assoc in *. cbn [app] in *. done.
  - rewrite Hrest in Hb. by apply bytes_ok_app in Hb as [_ ?].
  - rewrite enc_snoc, <- app_assoc, <- Hrest, length_app. lia.
  - apply Forall_app. split; [done|]. by constructor.
  - done.
  - apply Forall_app. split; [done|]. by constructor.
Qed.

Lemma DecodeLoop_complete fuel E1 E2 bc : (length (enc E2) <= fuel)%nat ->
  entries_wf (E1 ++ E2) -> Forall (fun e => block_index e.1 < bc) (E1 ++ E2) ->
  DecodeLoop fuel (enc (E1 ++ E2)) bc (len (enc E1)) (offs 0 E1) = Ok (offs 0 (E1 ++ E2)).
Proof.
  revert E1 E2; induction fuel as [|fuel IH]; intros E1 E2 Hf Hwf Hbc; cbn [DecodeLoop];
    destruct E2 as [|e E2]; rewrite ?app_nil_r, ?Z.ltb_irrefl; try done.
  { cbn [enc flat_map] in Hf. rewrite length_app in Hf. pose proof (len_encode_entry e).
    unfold kVarEntryHeaderBytes in *. lia. }
  pose proof (len_enc_mid E1 E2 e) as Hl. pose proof (len_encode_entry e) as He.
  assert (Hwf' := Hwf). destruct Hwf' as [Hok Hsort Hs].
  assert (Forall entry_ok E1 /\ entry_ok e /\ block_index e.1 < bc) as (Hok1 & Hoe & Hbe).
  { apply Forall_app in Hok as [? Hok]. apply Forall_app in Hbc as [_ Hbc].
    by inversion Hok; inversion Hbc. }
  assert (KeyAt {| data_ := enc (E1 ++ e :: E2); offsets_ := offs 0 E1 |} (len (enc E1)) = e.1) as Hk
    by exact (rep_key E1 E2 e Hoe Hs).
  assert (ReadU32 (enc (E1 ++ e :: E2)) (len (enc E1) + 8) = len e.2) as Hr by (apply (rep_length E1 E2 e); done).
  unfold kVarEntryHeaderBytes in *.
  rewrite (proj2 (Z.ltb_lt _ _)) by lia. rewrite Hk, Hr.
  pass_guard by (apply Z.ltb_ge; lia). pass_guard by (apply Z.leb_gt; lia).
  pose proof (last_key E1 (enc (e :: E2)) Hok1 ltac:(lia)) as Hlast. rewrite <- enc_app in Hlast.
  assert (match last_offset (offs 0 E1) with
          | Some o => packed e.1 <=? packed (KeyAt {| data_ := enc (E1 ++ e :: E2); offsets_ := offs 0 E1 |} o)
          | None => false
          end = false) as ->.
  { destruct (last_offset (offs 0 E1)) as [o|]; [|done].
    destruct (last E1) as [e'|] eqn:El; [|done]. injection Hlast as ->. apply Z.leb_gt.
    apply (StronglySorted_app_1_elem_of before E1 (e :: E2)); [done| |by left].
    by apply last_Some_elem_of. }
  cbn [throw_if]. rewrite bind_Ok_l. pass_guard by (apply Z.ltb_ge; lia).
  rewrite wrap_small by (unfold in_u; lia). rewrite <- (offs_snoc E1 e), <- He.
  replace (len (enc E1) + len (encode_entry e)) with (len (enc (E1 ++ [e])))
    by (rewrite enc_snoc, length_app; lia).
  rewrite (cons_middle e), app_assoc in *. apply IH; [|done|done].
  cbn [enc flat_map] in Hf. rewrite length_app in Hf. unfold enc in *. lia.
Qed.

Lemma DecodeLoop_fuel fuel data bc at_ offsets : 0 <= at_ -> bytes_ok data ->
  len data - at_ <= Z.of_nat fuel -> DecodeLoop fuel data bc at_ offsets <> Err out_of_fuel.
Proof.
  intros H0 Hd. revert at_ H0 offsets; induction fuel as [|fuel IH]; intros at_ H0 offsets Hf;
    cbn [DecodeLoop]; destruct (Z.ltb_spec at_ (len data)) as [Hlt|Hge]; try done; [lia|].
  unfold throw_if. repeat (case_match; cbn [mbind res_bind]; try done).
  all: pose proof (ReadU32_bound data (at_ + 8) Hd) as Hr; unfold in_u, kVarEntryHeaderBytes in *;
    apply IH; lia.
Qed.

Lemma Decode_sound data bc v : bytes_ok data -> Decode data bc = Ok v ->
  wf v /\ Encode v = data /\ (forall k x, abs v !! k = Some x -> block_index k < bc).
Proof.
  intros Hb H. unfold Decode in H. res_inv. subst v. apply Z.ltb_ge in Hs. unfold kVarMaxChunkBytesLimit in Hs.
  apply (DecodeLoop_sound (length data) []) in Hs0 as (E & -> & -> & Hok & Hsort & Hbc);
    [|done|simpl; lia|constructor|constructor|constructor].
  cbn [app] in *. assert (entries_wf E) as Hwf by (constructor; try done; lia).
  split; [by exists E|]. split; [done|]. intros k x Hk. fold (rep E) in Hk.
  rewrite abs_rep in Hk by done. apply elem_of_list_to_map_2 in Hk.
  rewrite Forall_forall in Hbc. exact (Hbc _ Hk).
Qed.

Lemma Decode_Encode v bc : wf v -> encoded_size v <= kVarMaxChunkBytesLimit ->
  (forall k x, abs v !! k = Some x -> block_index k < bc) -> Decode (Encode v) bc = Ok v.
Proof.
  intros (E & Hwf & ->) Hs Hbc. unfold Decode, Encode. cbn [rep data_].
  pass_guard by (apply Z.ltb_ge; exact Hs).
  rewrite (DecodeLoop_complete _ [] E); [done|done|done|].
  rewrite abs_rep in Hbc by done. apply Forall_forall. intros [k x] Hin. cbn.
  apply (Hbc k x). apply elem_of_list_to_map_1; [apply sorted_NoDup, Hwf|done].
Qed.

(** ** Updates *)

Lemma ValidateChanges_ascending v last cs u :
  ValidateChanges v last cs = Ok u -> RequireAscending last cs = Ok tt.
Proof.
  revert last; induction cs as [|c cs IH]; intros last H; [done|].
  cbn [ValidateChanges RequireAscending] in *. res_inv. rewrite Hs. cbn [throw_if].
  rewrite bind_Ok_l. by apply IH.
Qed.

Lemma ascending_keys last cs : RequireAscending last cs = Ok tt ->
  NoDup (map change_key cs) /\
  Forall (fun c => match last with Some k => packed k < packed (change_key c) | None => True end) cs.
Proof.
  revert last; induction cs as [|c cs IH]; intros last H; [split; constructor|].
  cbn [RequireAscending] in H. res_inv. destruct (IH _ H) as [Hnd Hall]. split.
  - cbn [map]. constructor; [|done]. rewrite list_elem_of_fmap. intros (c' & Hc & Hin).
    rewrite Forall_forall in Hall. specialize (Hall _ Hin). cbn in Hall. rewrite Hc in Hall. lia.
  - constructor.
    + destruct last; [|done]. by apply Z.leb_gt in Hs.
    + eapply Forall_impl; [exact Hall|]. cbn. intros c' Hc'. destruct last; [|done].
      apply Z.leb_gt in Hs. lia.
Qed.

Lemma apply_change_other m c k : change_key c <> k -> apply_change m c !! k = m !! k.
Proof.
  intros H. unfold apply_change. destruct (change_value c); [by apply lookup_insert_ne|by apply lookup_delete_ne].
Qed.

Definition size_step (v : ChunkVars) (size : Z) (c : VarChange) : Z :=
  let size := match Find v (change_key c) with
              | Some current => u64 (size - (kVarEntryHeaderBytes + len current))
              | None => size
              end in
  match change_value c with
  | Some value => u64 (size + (kVarEntryHeaderBytes + len value))
  | None => size
  end.

Lemma u64_eqm x y z : x mod 2 ^ 64 = y mod 2 ^ 64 -> u64 (x + z) mod 2 ^ 64 = (y + z) mod 2 ^ 64.
Proof.
  intros H. unfold wrap. rewrite Z.mod_mod by done.
  rewrite (Z.add_mod x), H, <- Z.add_mod by done. done.
Qed.

Lemma size_step_spec v m c size : wf v -> key_ok (change_key c) ->
  m !! change_key c = abs v !! change_key c -> size mod 2 ^ 64 = map_size m mod 2 ^ 64 ->
  size_step v size c mod 2 ^ 64 = map_size (apply_change m c) mod 2 ^ 64.
Proof.
  intros Hwf Hk Hm Hsize. rewrite map_size_change, Hm. unfold size_step. rewrite Find_abs by done.
  destruct (abs v !! change_key c) as [x|], (change_value c) as [y|]; cbn [slot_size];
    rewrite ?Z.sub_0_r, ?Z.add_0_r; auto.
  - apply u64_eqm. rewrite <- !Z.add_opp_r. by apply u64_eqm.
  - rewrite <- !Z.add_opp_r. by apply u64_eqm.
  - by apply u64_eqm.
Qed.

Lemma size_steps_spec v cs m size : wf v -> Forall change_ok cs -> NoDup (map change_key cs) ->
  (forall c, c ∈ cs -> m !! change_key c = abs v !! change_key c) ->
  size mod 2 ^ 64 = map_size m mod 2 ^ 64 ->
  fold_left (size_step v) cs size mod 2 ^ 64 = map_size (foldl apply_change m cs) mod 2 ^ 64.
Proof.
  intros Hwf. revert m size; induction cs as [|c cs IH]; intros m size Hok Hnd Hm Hsize; [done|].
  cbn [fold_left foldl]. apply Forall_cons in Hok as [[Hk _] Hok].
  cbn [map] in Hnd. apply NoDup_cons in Hnd as [Hnin Hnd]. apply IH; [done|done| |].
  - intros c' Hc'. rewrite apply_change_other; [apply Hm; by right|]. intros E. apply Hnin.
    rewrite E. by apply list_elem_of_fmap_2.
  - apply size_step_spec; [done|done| |done]. apply Hm. by left.
Qed.

Lemma size_steps_bound v cs size : in_u 64 size -> in_u 64 (fold_left (size_step v) cs size).
Proof.
  revert size; induction cs as [|c cs IH]; intros size Hs; [done|]. cbn [fold_left]. apply IH.
  unfold size_step. destruct (Find v (change_key c)), (change_value c); try done; by apply (wrap_bound 64).
Qed.

Lemma VarsSizeAfter_changes v cs : wf v -> Forall change_ok cs -> RequireAscending None cs = Ok tt ->
  map_size (foldl apply_change (abs v) cs) < 2 ^ 64 ->
  VarsSizeAfter v {| changes := cs; replace_ := None |} = map_size (foldl apply_change (abs v) cs).
Proof.
  intros Hwf Hok Hasc Hlt. unfold VarsSizeAfter. cbn [replace_ changes].
  change (fold_left _ cs (encoded_size v)) with (fold_left (size_step v) cs (encoded_size v)).
  assert (in_u 64 (encoded_size v)) as Hs.
  { destruct Hwf as (E & Hwf & ->). pose proof (ewf_size _ Hwf). unfold in_u, encoded_size. cbn [rep data_]. lia. }
  pose proof (size_steps_bound v cs (encoded_size v) Hs) as Hb.
  pose proof (size_steps_spec v cs (abs v) (encoded_size v) Hwf Hok) as E.
  rewrite map_size_abs in E by done. apply ascending_keys in Hasc as [Hnd _].
  specialize (E Hnd (fun _ _ => eq_refl) eq_refl).
  assert (0 <= map_size (foldl apply_change (abs v) cs)) as Hpos.
  { unfold map_size. induction (map_to_list _) as [|[k x] l IH]; cbn [foldr]; [done|].
    unfold slot_size, kVarEntryHeaderBytes in *. lia. }
  rewrite !Z.mod_small in E by (done || lia). exact E.
Qed.

Lemma abs_lookup_ok v k x : wf v -> abs v !! k = Some x -> bytes_ok x.
Proof.
  intros (E & Hwf & ->) Hx. rewrite abs_rep in Hx by done. apply elem_of_list_to_map_2 in Hx.
  pose proof (ewf_ok _ Hwf) as Hall. rewrite Forall_forall in Hall. apply (Hall _ Hx).
Qed.

Lemma encoded_size_bound v : wf v -> encoded_size v < 2 ^ 32.
Proof. intros (E & Hwf & ->). apply (ewf_size _ Hwf). Qed.

Lemma apply_change_same m c : apply_change m c !! change_key c = change_value c.
Proof.
  unfold apply_change. destruct (change_value c); [apply lookup_insert_eq|apply lookup_delete_eq].
Qed.

Lemma apply_change_back m c :
  apply_change (apply_change m c) {| change_key := change_key c; change_value := m !! change_key c |} = m.
Proof.
  unfold apply_change at 1. cbn [change_key change_value]. destruct (m !! change_key c) as [x|] eqn:Ex.
  - unfold apply_change. destruct (change_value c).
    + by rewrite insert_insert_eq, insert_id.
    + by rewrite insert_delete_id.
  - unfold apply_change. destruct (change_value c).
    + by rewrite delete_insert_id.
    + by rewrite delete_delete_eq, delete_id.
Qed.

(** Setting a value back to what Find returned restores the value as it was. *)
Lemma ChangeOne_undo v c v' : wf v -> change_ok c -> ChangeOne v c = Ok v' ->
  wf v' /\ abs v' = apply_change (abs v) c /\
  ChangeOne v' {| change_key := change_key c; change_value := Find v (change_key c) |} = Ok v.
Proof.
  intros Hwf Hc HC. pose proof (ChangeOne_spec v c Hwf Hc) as Hspec. cbv zeta in Hspec.
  case_match; [|congruence]. destruct Hspec as (v1 & Hv1 & Hwf1 & Habs & Hsz).
  assert (v1 = v') as -> by congruence. split; [done|]. split; [done|].
  destruct Hc as [Hk Hv]. rewrite Find_abs by done.
  set (back := {| change_key := change_key c; change_value := abs v !! change_key c |}).
  assert (change_ok back) as Hback.
  { split; [done|]. subst back. cbn. destruct (abs v !! change_key c) eqn:Ex; [|done].
    exact (abs_lookup_ok v _ _ Hwf Ex). }
  pose proof (ChangeOne_spec v' back Hwf1 Hback) as Hspec. cbv zeta in Hspec.
  rewrite Habs in Hspec. change (change_key back) with (change_key c) in Hspec.
  rewrite apply_change_same in Hspec. change (change_value back) with (abs v !! change_key c) in Hspec.
  rewrite (proj2 (Z.ltb_lt _ _)) in Hspec by (pose proof (encoded_size_bound v Hwf); lia).
  destruct Hspec as (v2 & -> & Hwf2 & Habs2 & _). f_equal. apply abs_inj; [done|done|].
  rewrite Habs2. apply apply_change_back.
Qed.

(** What ApplyVarUpdate does with per-value changes. *)
Lemma ApplyVarUpdate_changes v cs v' undo : wf v -> Forall change_ok cs ->
  ApplyVarUpdate v {| changes := cs; replace_ := None |} = Ok (v', undo) ->
  wf v' /\ abs v' = foldl apply_change (abs v) cs /\ RequireAscending None cs = Ok tt /\
  UndoVarUpdate v' undo = Ok v /\ keys undo = map change_key cs.
Proof.
  intros Hwf Hok H. unfold ApplyVarUpdate in H. cbn [replace_ changes] in H.
  apply bind_ok in H as (u & Hval & H). apply ValidateChanges_ascending in Hval as Hasc.
  assert (forall v1, Merge v cs = Ok v1 -> wf v1 /\ abs v1 = foldl apply_change (abs v) cs) as HM.
  { intros v1 Hm. destruct Hwf as (E & Hwf & ->).
    destruct (Merge_entries E Hwf cs Hok Hasc) as (M & HokM & HsM & Hmap & HMerge).
    rewrite HMerge in Hm. destruct (Z.ltb_spec (len (enc M)) (2 ^ 32)); [|done]. injection Hm as <-.
    assert (entries_wf M) by by constructor. split; [by exists M|]. by rewrite !abs_rep by done. }
  destruct cs as [|c [|c2 cs]].
  - res_inv. simplify_eq. destruct (HM _ Hs) as [? ?]. by rewrite Hasc.
  - clear HM. apply bind_ok in H as (v1 & Hv1 & H). injection H as <- <-.
    apply Forall_cons in Hok as [Hc _].
    destruct (ChangeOne_undo v c v1 Hwf Hc Hv1) as (? & ? & Hback).
    split; [done|]. split; [done|]. split; [done|]. split; [|done].
    cbn [UndoVarUpdate previous previous_values fold_res]. by rewrite Hback.
  - apply bind_ok in H as (v1 & Hv1 & H). injection H as <- <-.
    destruct (HM _ Hv1) as [? ?]. by rewrite Hasc.
Qed.

(** ** Properties *)

(** C19: a chunk's values behave as a finite map: on a well-formed value, Find
    is the map's lookup; Assign keeps the invariant and is the map's insert
    when the section stays below 4 GiB, and otherwise throws; Remove keeps
    the invariant, is the map's delete and tells whether there was a value. *)
Theorem vars_refine_map (v : ChunkVars) (key : VarKey) (value : bytes)
    (Hwf : wf v) (Hkey : key_ok key) (Hvalue : bytes_ok value) :
  Find v key = abs v !! key /\
  (if encoded_size v - slot_size (abs v !! key) + (kVarEntryHeaderBytes + len value) <? 2 ^ 32 then
     exists v', Assign v key value = Ok v' /\ wf v' /\ abs v' = <[key := value]> (abs v)
   else Assign v key value = Err (length_error "variable-length values of one chunk exceed 4 GiB")) /\
  (let '(removed, v') := Remove v key in
   wf v' /\ abs v' = delete key (abs v) /\ removed = bool_decide (is_Some (abs v !! key))).
Proof.
  split; [by apply Find_abs|]. split.
  - pose proof (ChangeOne_spec v {| change_key := key; change_value := Some value |} Hwf (conj Hkey Hvalue)) as H.
    cbv zeta in H. cbn [change_key change_value slot_size] in H. case_match; [|exact H].
    destruct H as (v' & H1 & H2 & H3 & _). by exists v'.
  - pose proof (ChangeOne_spec v {| change_key := key; change_value := None |} Hwf (conj Hkey I)) as H.
    cbv zeta in H. unfold ChangeOne in H. cbn [change_key change_value slot_size] in H.
    case_match; [|done]. destruct H as (v' & [= H1] & H2 & H3 & _).
    destruct (Remove v key) as [removed v''] eqn:Er. cbn in H1. subst v''. split; [done|]. split; [done|].
    unfold Remove in Er. pose proof (Find_abs v key Hwf Hkey) as Hf. unfold Find in Hf.
    case_match; simplify_eq; rewrite <- Hf; symmetry.
    + apply bool_decide_eq_false. by intros [? ?].
    + apply bool_decide_eq_true. eauto.
Qed.

Lemma vars_refine_map_witness :
  let v := rep [({| column_id := 1; block_index := 4 |}, [7; 8])] in
  let key := {| column_id := 1; block_index := 2 |} in
  Find v key = abs v !! key /\
  (if encoded_size v - slot_size (abs v !! key) + (kVarEntryHeaderBytes + len [9]) <? 2 ^ 32 then
     exists v', Assign v key [9] = Ok v' /\ wf v' /\ abs v' = <[key := [9]]> (abs v)
   else Assign v key [9] = Err (length_error "variable-length values of one chunk exceed 4 GiB")) /\
  (let '(removed, v') := Remove v key in
   wf v' /\ abs v' = delete key (abs v) /\ removed = bool_decide (is_Some (abs v !! key))).
Proof.
  apply (vars_refine_map (rep [({| column_id := 1; block_index := 4 |}, [7; 8])])
    {| column_id := 1; block_index := 2 |} [9]).
  - eexists. split; [|reflexivity]. constructor; [|constructor; constructor|reflexivity].
    constructor; [|constructor]. repeat split; try done; by repeat constructor.
  - by repeat split.
  - by repeat constructor.
Defined.

(** C32: a VARS section that decodes is well-formed, is its own encoding and
    names only blocks of the chunk; and the encoding of every well-formed
    value within the limit decodes to the value itself.  Decode ends on any
    bytes. *)
Theorem vars_decode_encode (data : bytes) (v : ChunkVars) (block_count : Z)
    (Hdata : bytes_ok data) (Hwf : wf v) (Hsize : encoded_size v <= kVarMaxChunkBytesLimit)
    (Hblocks : map_Forall (fun k _ => block_index k < block_count) (abs v)) :
  Decode (Encode v) block_count = Ok v /\
  Decode data block_count <> Err out_of_fuel /\
  (forall v', Decode data block_count = Ok v' ->
     wf v' /\ Encode v' = data /\ map_Forall (fun k _ => block_index k < block_count) (abs v')).
Proof.
  split; [by apply Decode_Encode|]. split.
  - unfold Decode, throw_if. case_match; [done|]. cbn [mbind res_bind].
    pose proof (DecodeLoop_fuel (length data) data block_count 0 [] ltac:(lia) Hdata ltac:(lia)) as H'.
    destruct (DecodeLoop _ _ _ _ _) as [o|e]; cbn [mbind res_bind]; [done|]. congruence.
  - intros v' H. by apply Decode_sound.
Qed.

Lemma vars_decode_encode_witness :
  let v := rep [({| column_id := 1; block_index := 4 |}, [7; 8])] in
  let data := [1; 0; 0; 0; 5; 0; 0; 0; 0; 0; 0; 0] in
  Decode (Encode v) 64 = Ok v /\ Decode data 64 <> Err out_of_fuel /\
  (forall v', Decode data 64 = Ok v' ->
     wf v' /\ Encode v' = data /\ map_Forall (fun k _ => block_index k < 64) (abs v')).
Proof.
  apply (vars_decode_encode [1; 0; 0; 0; 5; 0; 0; 0; 0; 0; 0; 0]
    (rep [({| column_id := 1; block_index := 4 |}, [7; 8])]) 64).
  - by repeat constructor.
  - eexists. split; [|reflexivity]. constructor; [|constructor; constructor|reflexivity].
    constructor; [|constructor]. repeat split; try done; by repeat constructor.
  - done.
  - by apply (bool_decide_unpack _).
Defined.

(** C31: an update of single values, however many, gives the values the
    changes describe one after the other (the one-pass merge included), keeps
    the invariant, reports exactly the changed keys, has the size that
    VarsSizeAfter predicts, and taking it back restores the very bytes. *)
Theorem vars_apply_undo (v : ChunkVars) (cs : list VarChange) (v' : ChunkVars) (undo : VarUndo)
    (Hwf : wf v) (Hok : Forall change_ok cs)
    (Happly : ApplyVarUpdate v {| changes := cs; replace_ := None |} = Ok (v', undo)) :
  wf v' /\ abs v' = foldl apply_change (abs v) cs /\ keys undo = map change_key cs /\
  VarsSizeAfter v {| changes := cs; replace_ := None |} = encoded_size v' /\
  UndoVarUpdate v' undo = Ok v.
Proof.
  destruct (ApplyVarUpdate_changes v cs v' undo Hwf Hok Happly) as (Hwf' & Habs & Hasc & Hundo & Hkeys).
  repeat split; try done. rewrite VarsSizeAfter_changes; rewrite <- ?Habs; try done.
  - by apply map_size_abs.
  - rewrite map_size_abs by done. pose proof (encoded_size_bound v' Hwf'). lia.
Qed.

Lemma vars_apply_undo_witness :
  let v := rep [({| column_id := 1; block_index := 4 |}, [7; 8])] in
  let v' := rep [({| column_id := 0; block_index := 9 |}, [1]); ({| column_id := 2; block_index := 0 |}, [])] in
  let cs := [{| change_key := {| column_id := 0; block_index := 9 |}; change_value := Some [1] |};
             {| change_key := {| column_id := 1; block_index := 4 |}; change_value := None |};
             {| change_key := {| column_id := 2; block_index := 0 |}; change_value := Some [] |}] in
  let undo := {| replaced := false; keys := map change_key cs; previous := Some v; previous_values := [] |} in
  wf v' /\ abs v' = foldl apply_change (abs v) cs /\ keys undo = map change_key cs /\
  VarsSizeAfter v {| changes := cs; replace_ := None |} = encoded_size v' /\
  UndoVarUpdate v' undo = Ok v.
Proof.
  intros v v' cs undo. apply (vars_apply_undo v cs v' undo).
  - eexists. split; [|reflexivity]. constructor; [|constructor; constructor|reflexivity].
    constructor; [|constructor]. repeat split; try done; by repeat constructor.
  - repeat (constructor; [repeat split; try done; by repeat constructor|]). constructor.
  - vm_compute. reflexivity.
Defined.

(** Every update of single values whose keys ascend, each of which changes
    something, and whose result stays below 4 GiB is applied: no other error
    is possible. *)
Theorem vars_apply_total (v : ChunkVars) (cs : list VarChange)
    (Hwf : wf v) (Hok : Forall change_ok cs) (Hasc : RequireAscending None cs = Ok tt)
    (Hreal : Forall (fun c => change_value c <> Find v (change_key c)) cs)
    (Hsize : map_size (foldl apply_change (abs v) cs) < 2 ^ 32) :
  exists v' undo, ApplyVarUpdate v {| changes := cs; replace_ := None |} = Ok (v', undo).
Proof.
  unfold ApplyVarUpdate. cbn [replace_ changes].
  assert (ValidateChanges v None cs = Ok tt) as ->.
  { revert Hasc Hreal. clear. generalize (@None VarKey). induction cs as [|c cs IH]; intros last Hasc Hreal; [done|].
    cbn [RequireAscending ValidateChanges] in *. res_inv. apply Forall_cons in Hreal as [Hc Hreal].
    rewrite Hs. cbn [throw_if]. rewrite bind_Ok_l, bool_decide_false by done. by apply IH. }
  rewrite bind_Ok_l.
  assert (exists v1, Merge v cs = Ok v1) as [v1 HM].
  { destruct Hwf as (E & Hwf & ->). destruct (Merge_entries E Hwf cs Hok Hasc) as (M & _ & HsM & Hmap & ->).
    rewrite abs_rep, <- Hmap, map_size_entries in Hsize by done.
    rewrite (proj2 (Z.ltb_lt _ _)) by done. eauto. }
  destruct cs as [|c [|c2 cs]].
  - rewrite HM. cbn [mbind res_bind]. eauto.
  - apply Forall_cons in Hok as [Hc _]. pose proof (ChangeOne_spec v c Hwf Hc) as Hspec. cbv zeta in Hspec.
    cbn [foldl] in Hsize. rewrite map_size_change, map_size_abs in Hsize by done.
    rewrite (proj2 (Z.ltb_lt _ _)) in Hspec by done. destruct Hspec as (v2 & -> & _). cbn [mbind res_bind]. eauto.
  - rewrite HM. cbn [mbind res_bind]. eauto.
Qed.

Lemma vars_apply_total_witness :
  let v := rep [({| column_id := 1; block_index := 4 |}, [7; 8])] in
  let cs := [{| change_key := {| column_id := 1; block_index := 4 |}; change_value := Some [9] |}] in
  exists v' undo, ApplyVarUpdate v {| changes := cs; replace_ := None |} = Ok (v', undo).
Proof.
  intros v cs. apply (vars_apply_total v cs).
  - eexists. split; [|reflexivity]. constructor; [|constructor; constructor|reflexivity].
    constructor; [|constructor]. repeat split; try done; by repeat constructor.
  - constructor; [|constructor]. repeat split; try done; by repeat constructor.
  - reflexivity.
  - constructor; [|constructor]. by vm_compute.
  - by vm_compute.
Defined.

End Vars.
