(* ===== verification/Utf8.v ===== *)
(** * UTF-8 (IsUtf8 of src/src/schema.cpp)

    The check every text value passes, against the specification: a text is
    well-formed when it is the encoding of a sequence of Unicode scalar
    values. *)
From stdpp Require Import prelude.
From Stdlib Require Import ZArith Lia.
From S2P Require Import Prelude.

#[local] Open Scope Z_scope.

Module Utf8.

(** The inner loop: [n] continuation bytes joined to [code]. *)
Fixpoint Continuation (n : nat) (code : Z) (rest : bytes) : option (Z * bytes) :=
  match n with
  | O => Some (code, rest)
  | S n' =>
      match rest with
      | next :: rest' =>
          if negb (Z.land next 0xC0 =? 0x80) then None
          else Continuation n' (Z.lor (Z.shiftl code 6) (Z.land next 0x3F)) rest'
      | [] => None
      end
  end.

(** The length a lead byte announces and the bits of the code it holds. *)
Definition LeadByte (lead : Z) : option (Z * Z) :=
  if (0xC2 <=? lead) && (lead <=? 0xDF) then Some (2, Z.land lead 0x1F)
  else if (0xE0 <=? lead) && (lead <=? 0xEF) then Some (3, Z.land lead 0x0F)
  else if (0xF0 <=? lead) && (lead <=? 0xF4) then Some (4, Z.land lead 0x07)
  else None.

(** Overlong forms, surrogates and codes above U+10FFFF. *)
Definition BadCode (length code : Z) : bool :=
  ((length =? 3) && ((code <? 0x800) || ((0xD800 <=? code) && (code <=? 0xDFFF))))
  || ((length =? 4) && ((code <? 0x10000) || (0x10FFFF <? code))).

(** The outer loop; every turn takes at least one byte. *)
Fixpoint IsUtf8_loop (fuel : nat) (rest : bytes) : bool :=
  match rest, fuel with
  | [], _ => true
  | _, O => false
  | lead :: rest', S fuel' =>
      if lead <? 0x80 then IsUtf8_loop fuel' rest'
      else
        match LeadByte lead with
        | None => false
        | Some (length, code) =>
            if len rest <? length then false
            else
              match Continuation (Z.to_nat (length - 1)) code rest' with
              | None => false
              | Some (code, rest'') => if BadCode length code then false else IsUtf8_loop fuel' rest''
              end
        end
  end.

Definition IsUtf8 (l : bytes) : bool := IsUtf8_loop (length l) l.

(** ** Specification *)

Definition scalar (c : Z) : Prop := 0 <= c < 0xD800 \/ 0xE000 <= c <= 0x10FFFF.

(** A continuation byte for six bits. *)
Definition tail_byte (x : Z) : Z := 0x80 + x mod 64.

Definition encode_scalar (c : Z) : bytes :=
  if c <? 0x80 then [c]
  else if c <? 0x800 then [0xC0 + c / 64; tail_byte c]
  else if c <? 0x10000 then [0xE0 + c / 4096; tail_byte (c / 64); tail_byte c]
  else [0xF0 + c / 262144; tail_byte (c / 4096); tail_byte (c / 64); tail_byte c].

Definition encode_text (cs : list Z) : bytes := flat_map encode_scalar cs.

Definition well_formed (l : bytes) : Prop := exists cs, Forall scalar cs /\ l = encode_text cs.

(** ** Correctness *)

(** A continuation byte is 0x80 to 0xBF, and adds its low six bits. *)
Lemma cont_byte b : byte_ok b ->
  ((Z.land b 0xC0 =? 0x80) = true <-> 0x80 <= b <= 0xBF).
Proof.
  intros Hb. unfold byte_ok in Hb.
  assert (forall b, 0 <= b < 256 -> (Z.land b 0xC0 =? 0x80) = ((0x80 <=? b) && (b <=? 0xBF))) as H.
  { assert (forallb (fun b => Bool.eqb (Z.land b 0xC0 =? 0x80) ((0x80 <=? b) && (b <=? 0xBF)))
      (seqZ 0 256) = true) as Hall by (vm_compute; done).
    intros x Hx. rewrite forallb_forall in Hall. apply eqb_prop, Hall.
    apply list_elem_of_In, elem_of_seqZ. lia. }
  rewrite H by done. rewrite andb_true_iff, !Z.leb_le. done.
Qed.

Lemma cont_join code b : 0 <= code -> 0x80 <= b <= 0xBF ->
  Z.lor (Z.shiftl code 6) (Z.land b 0x3F) = 64 * code + (b - 0x80).
Proof.
  intros Hc Hb.
  assert (Z.land b 0x3F = b - 0x80) as ->.
  { change 0x3F with (Z.ones 6). rewrite Z.land_ones by lia. change (2 ^ 6) with 64.
    replace b with ((b - 128) + 2 * 64) at 1 by lia. rewrite Z.mod_add by lia. apply Z.mod_small. lia. }
  assert (Z.land (Z.shiftl code 6) (b - 0x80) = 0) as Hd.
  { bitwise i. destruct (decide (i < 6)); [by rewrite Z.testbit_neg_r by lia|].
    rewrite (testbit_above 6 (b - 128)) by (unfold in_u; lia). apply andb_false_r. }
  rewrite <- Z.lxor_lor, <- Z.add_nocarry_lxor, Z.shiftl_mul_pow2 by (done || lia).
  change (2 ^ 6) with 64. lia.
Qed.

Lemma tail_byte_bound x : 0x80 <= tail_byte x <= 0xBF.
Proof. unfold tail_byte. pose proof (Z.mod_pos_bound x 64 ltac:(lia)). lia. Qed.

Lemma tail_byte_digit x y : 0x80 <= y <= 0xBF -> tail_byte (64 * x + (y - 0x80)) = y.
Proof.
  intros. unfold tail_byte. replace (64 * x + (y - 128)) with ((y - 128) + x * 64) by lia.
  rewrite Z.mod_add, Z.mod_small by lia. lia.
Qed.

Lemma Continuation_tail n code x rest : 0 <= code ->
  Continuation (S n) code (tail_byte x :: rest) = Continuation n (64 * code + x mod 64) rest.
Proof.
  intros Hc. cbn [Continuation]. pose proof (tail_byte_bound x) as Hx.
  assert (byte_ok (tail_byte x)) as Hb by (unfold byte_ok; lia).
  rewrite (proj2 (cont_byte _ Hb) Hx). cbn [negb].
  rewrite cont_join by done. unfold tail_byte.
  by replace (128 + x mod 64 - 128) with (x mod 64) by lia.
Qed.

Lemma lead_bits lead base w : 0 <= w -> lead mod 2 ^ w = lead - base -> Z.land lead (Z.ones w) = lead - base.
Proof. intros Hw H. by rewrite Z.land_ones. Qed.

(** The lead byte of two, three and four bytes. *)
Lemma LeadByte_2 x : 2 <= x < 32 -> LeadByte (0xC0 + x) = Some (2, x).
Proof.
  intros Hx. unfold LeadByte. rewrite !(proj2 (Z.leb_le _ _)) by lia. cbn [andb].
  change 0x1F with (Z.ones 5). rewrite (lead_bits _ 0xC0); [f_equal; f_equal; lia|lia|].
  change (2 ^ 5) with 32. replace (192 + x) with (x + 6 * 32) by lia.
  rewrite Z.mod_add, Z.mod_small by lia. lia.
Qed.

Lemma LeadByte_3 x : 0 <= x < 16 -> LeadByte (0xE0 + x) = Some (3, x).
Proof.
  intros Hx. unfold LeadByte. rewrite (proj2 (Z.leb_le 0xC2 _)), (proj2 (Z.leb_gt _ 0xDF)) by lia. cbn [andb].
  rewrite !(proj2 (Z.leb_le _ _)) by lia. cbn [andb].
  change 0x0F with (Z.ones 4). rewrite (lead_bits _ 0xE0); [f_equal; f_equal; lia|lia|].
  change (2 ^ 4) with 16. replace (224 + x) with (x + 14 * 16) by lia.
  rewrite Z.mod_add, Z.mod_small by lia. lia.
Qed.

Lemma LeadByte_4 x : 0 <= x <= 4 -> LeadByte (0xF0 + x) = Some (4, x).
Proof.
  intros Hx. unfold LeadByte. rewrite (proj2 (Z.leb_le 0xC2 _)), (proj2 (Z.leb_gt _ 0xDF)) by lia. cbn [andb].
  rewrite (proj2 (Z.leb_le 0xE0 _)), (proj2 (Z.leb_gt _ 0xEF)) by lia. cbn [andb].
  rewrite !(proj2 (Z.leb_le _ _)) by lia. cbn [andb].
  change 0x07 with (Z.ones 3). rewrite (lead_bits _ 0xF0); [f_equal; f_equal; lia|lia|].
  change (2 ^ 3) with 8. replace (240 + x) with (x + 30 * 8) by lia.
  rewrite Z.mod_add, Z.mod_small by lia. lia.
Qed.

(** One encoded scalar value is taken in one turn. *)
Lemma IsUtf8_scalar fuel c rest : scalar c ->
  IsUtf8_loop (S fuel) (encode_scalar c ++ rest) = IsUtf8_loop fuel rest.
Proof.
  intros Hc. unfold encode_scalar. unfold scalar in Hc.
  destruct (Z.ltb_spec c 0x80).
  { cbn [app IsUtf8_loop]. by rewrite (proj2 (Z.ltb_lt c 0x80)). }
  pose proof (Z.div_mod c 64 ltac:(lia)). pose proof (Z.mod_pos_bound c 64 ltac:(lia)).
  destruct (Z.ltb_spec c 0x800).
  { cbn [app IsUtf8_loop]. rewrite (proj2 (Z.ltb_ge _ 0x80)), LeadByte_2 by lia.
    rewrite (proj2 (Z.ltb_ge _ 2)) by (simpl length; lia). change (Z.to_nat (2 - 1)) with 1%nat.
    rewrite Continuation_tail by lia. cbn [Continuation]. done. }
  pose proof (Z.div_mod (c / 64) 64 ltac:(lia)) as E2. pose proof (Z.mod_pos_bound (c / 64) 64 ltac:(lia)).
  rewrite Z.div_div in E2 by lia. change (64 * 64) with 4096 in E2.
  destruct (Z.ltb_spec c 0x10000).
  { cbn [app IsUtf8_loop]. rewrite (proj2 (Z.ltb_ge _ 0x80)), LeadByte_3 by lia.
    rewrite (proj2 (Z.ltb_ge _ 3)) by (simpl length; lia). change (Z.to_nat (3 - 1)) with 2%nat.
    rewrite !Continuation_tail by lia. cbn [Continuation].
    replace (64 * (64 * (c / 4096) + (c / 64) mod 64) + c mod 64) with c by lia.
    assert (BadCode 3 c = false) as ->; [|done]. unfold BadCode. cbn [Z.eqb Pos.eqb andb].
    rewrite (proj2 (Z.ltb_ge c 0x800)), orb_false_r by lia. cbn [orb].
    destruct (Z.leb_spec 0xD800 c), (Z.leb_spec c 0xDFFF); done || lia. }
  pose proof (Z.div_mod (c / 4096) 64 ltac:(lia)) as E3. pose proof (Z.mod_pos_bound (c / 4096) 64 ltac:(lia)).
  rewrite Z.div_div in E3 by lia. change (4096 * 64) with 262144 in E3.
  cbn [app IsUtf8_loop]. rewrite (proj2 (Z.ltb_ge _ 0x80)), LeadByte_4 by lia.
  rewrite (proj2 (Z.ltb_ge _ 4)) by (simpl length; lia). change (Z.to_nat (4 - 1)) with 3%nat.
  rewrite !Continuation_tail by lia. cbn [Continuation].
  replace (64 * (64 * (64 * (c / 262144) + (c / 4096) mod 64) + (c / 64) mod 64) + c mod 64) with c by lia.
  assert (BadCode 4 c = false) as ->; [|done]. unfold BadCode. cbn [Z.eqb Pos.eqb andb orb].
  by rewrite (proj2 (Z.ltb_ge c 0x10000)), (proj2 (Z.ltb_ge 0x10FFFF c)) by lia.
Qed.

Lemma encode_scalar_nonempty c : (1 <= length (encode_scalar c))%nat.
Proof. unfold encode_scalar. repeat case_match; simpl; lia. Qed.

Lemma IsUtf8_complete cs fuel : Forall scalar cs -> (length (encode_text cs) <= fuel)%nat ->
  IsUtf8_loop fuel (encode_text cs) = true.
Proof.
  intros Hcs. revert fuel; induction Hcs as [|c cs Hc Hcs IH]; intros fuel Hf; [by destruct fuel|].
  cbn [encode_text flat_map] in *. rewrite length_app in Hf. pose proof (encode_scalar_nonempty c).
  destruct fuel as [|fuel]; [lia|]. rewrite IsUtf8_scalar by done. apply IH. unfold encode_text. lia.
Qed.

(** What [n] continuation bytes add, and that they are continuation bytes. *)
Lemma Continuation_inv n code rest code' rest' : bytes_ok rest -> 0 <= code ->
  Continuation n code rest = Some (code', rest') ->
  exists ts, length ts = n /\ rest = ts ++ rest' /\ Forall (fun b => 0x80 <= b <= 0xBF) ts /\
    code' = fold_left (fun c b => 64 * c + (b - 0x80)) ts code /\ bytes_ok rest'.
Proof.
  revert code rest; induction n as [|n IH]; intros code rest Hb Hc H; cbn [Continuation] in H.
  { simplify_eq. by exists []. }
  destruct rest as [|b rest]; [done|]. apply Forall_cons in Hb as [Hb Hrest].
  destruct (Z.land b 0xC0 =? 0x80) eqn:E; [|done]. cbn [negb] in H.
  apply (cont_byte b Hb) in E. rewrite cont_join in H by done.
  apply IH in H as (ts & <- & -> & Hts & -> & Hr); [|done|lia].
  exists (b :: ts). split; [done|]. split; [done|]. split; [by constructor|]. done.
Qed.

Lemma land_range a b lo hi w : lo <= a <= hi -> 0 <= w -> lo mod 2 ^ w = 0 -> hi - lo < 2 ^ w ->
  b = Z.ones w -> Z.land a b = a - lo.
Proof.
  intros Ha Hw Hlo Hhi ->. rewrite Z.land_ones by done.
  apply Z.mod_divide in Hlo as [q Hq]; [|lia]. replace a with ((a - lo) + q * 2 ^ w) at 1 by lia.
  rewrite Z.mod_add by lia. apply Z.mod_small. lia.
Qed.

Lemma LeadByte_inv lead n code : LeadByte lead = Some (n, code) ->
  (n = 2 /\ 0xC2 <= lead <= 0xDF /\ code = lead - 0xC0) \/
  (n = 3 /\ 0xE0 <= lead <= 0xEF /\ code = lead - 0xE0) \/
  (n = 4 /\ 0xF0 <= lead <= 0xF4 /\ code = lead - 0xF0).
Proof.
  unfold LeadByte. intros H.
  destruct (Z.leb_spec 0xC2 lead), (Z.leb_spec lead 0xDF); cbn [andb] in H.
  { injection H as <- <-. left. split; [done|]. split; [done|]. apply (land_range _ _ _ 0xDF 5); done || lia. }
  all: destruct (Z.leb_spec 0xE0 lead), (Z.leb_spec lead 0xEF); cbn [andb] in H; try lia;
    try (injection H as <- <-; right; left; split; [done|]; split; [done|];
         apply (land_range _ _ _ 0xEF 4); done || lia).
  all: destruct (Z.leb_spec 0xF0 lead), (Z.leb_spec lead 0xF4); cbn [andb] in H; try lia; try done.
  injection H as <- <-. right. right. split; [done|]. split; [done|].
  apply (land_range _ _ _ 0xF4 3); done || lia.
Qed.

Lemma encode_2 x b1 : 0xC2 <= x <= 0xDF -> 0x80 <= b1 <= 0xBF ->
  let c := 64 * (x - 0xC0) + (b1 - 0x80) in scalar c /\ encode_scalar c = [x; b1].
Proof.
  intros Hx H1 c. subst c. split; [left; lia|]. unfold encode_scalar.
  rewrite (proj2 (Z.ltb_ge _ 0x80)), (proj2 (Z.ltb_lt _ 0x800)) by lia.
  rewrite tail_byte_digit by done.
  replace (64 * (x - 192) + (b1 - 128)) with ((b1 - 128) + (x - 192) * 64) by lia.
  rewrite Z.div_add, Z.div_small by lia. f_equal. lia.
Qed.

Lemma encode_3 x b1 b2 : 0xE0 <= x <= 0xEF -> 0x80 <= b1 <= 0xBF -> 0x80 <= b2 <= 0xBF ->
  let c := 64 * (64 * (x - 0xE0) + (b1 - 0x80)) + (b2 - 0x80) in
  BadCode 3 c = false -> scalar c /\ encode_scalar c = [x; b1; b2].
Proof.
  intros Hx H1 H2 c Hbad. subst c. set (c1 := 64 * (x - 224) + (b1 - 128)) in *.
  unfold BadCode in Hbad. cbn [Z.eqb Pos.eqb andb] in Hbad. rewrite orb_false_r in Hbad.
  destruct (Z.ltb_spec (64 * c1 + (b2 - 128)) 0x800); [done|]. cbn [orb] in Hbad.
  assert (scalar (64 * c1 + (b2 - 128))) as Hs.
  { unfold scalar. destruct (Z.leb_spec 0xD800 (64 * c1 + (b2 - 128)));
      destruct (Z.leb_spec (64 * c1 + (b2 - 128)) 0xDFFF); cbn in Hbad; try done; lia. }
  split; [done|]. unfold encode_scalar.
  rewrite (proj2 (Z.ltb_ge _ 0x80)), (proj2 (Z.ltb_ge _ 0x800)), (proj2 (Z.ltb_lt _ 0x10000)) by lia.
  rewrite tail_byte_digit by done.
  replace (64 * c1 + (b2 - 128)) with ((b2 - 128) + c1 * 64) by lia.
  rewrite Z.div_add, (Z.div_small (b2 - 128)), Z.add_0_l by lia. subst c1. rewrite tail_byte_digit by done.
  replace ((b2 - 128) + (64 * (x - 224) + (b1 - 128)) * 64)
    with (((b2 - 128) + (b1 - 128) * 64) + (x - 224) * 4096) by lia.
  rewrite Z.div_add, (Z.div_small (b2 - 128 + _)) by lia. f_equal. lia.
Qed.

Lemma encode_4 x b1 b2 b3 : 0xF0 <= x <= 0xF4 ->
  0x80 <= b1 <= 0xBF -> 0x80 <= b2 <= 0xBF -> 0x80 <= b3 <= 0xBF ->
  let c := 64 * (64 * (64 * (x - 0xF0) + (b1 - 0x80)) + (b2 - 0x80)) + (b3 - 0x80) in
  BadCode 4 c = false -> scalar c /\ encode_scalar c = [x; b1; b2; b3].
Proof.
  intros Hx H1 H2 H3 c Hbad. subst c. set (c1 := 64 * (x - 240) + (b1 - 128)) in *.
  set (c2 := 64 * c1 + (b2 - 128)) in *.
  unfold BadCode in Hbad. cbn [Z.eqb Pos.eqb andb orb] in Hbad. apply orb_false_iff in Hbad as [Hlo Hhi].
  apply Z.ltb_ge in Hlo. apply Z.ltb_ge in Hhi.
  split; [unfold scalar; lia|]. unfold encode_scalar.
  rewrite (proj2 (Z.ltb_ge _ 0x80)), (proj2 (Z.ltb_ge _ 0x800)), (proj2 (Z.ltb_ge _ 0x10000)) by lia.
  rewrite tail_byte_digit by done.
  assert ((64 * c2 + (b3 - 128)) / 64 = c2) as E1.
  { replace (64 * c2 + (b3 - 128)) with ((b3 - 128) + c2 * 64) by lia.
    rewrite Z.div_add, (Z.div_small (b3 - 128)) by lia. lia. }
  assert ((64 * c2 + (b3 - 128)) / 4096 = c1) as E2.
  { change 4096 with (64 * 64). rewrite <- Z.div_div, E1 by lia. subst c2.
    replace (64 * c1 + (b2 - 128)) with ((b2 - 128) + c1 * 64) by lia.
    rewrite Z.div_add, (Z.div_small (b2 - 128)) by lia. lia. }
  assert ((64 * c2 + (b3 - 128)) / 262144 = x - 240) as E3.
  { change 262144 with (4096 * 64). rewrite <- Z.div_div, E2 by lia. subst c1.
    replace (64 * (x - 240) + (b1 - 128)) with ((b1 - 128) + (x - 240) * 64) by lia.
    rewrite Z.div_add, (Z.div_small (b1 - 128)) by lia. lia. }
  rewrite E1, E2, E3. subst c2 c1. rewrite !tail_byte_digit by done. f_equal. lia.
Qed.

Lemma well_formed_cons c rest : scalar c -> well_formed rest -> well_formed (encode_scalar c ++ rest).
Proof. intros Hc (cs & Hcs & ->). exists (c :: cs). split; [by constructor|done]. Qed.

Lemma IsUtf8_sound fuel l : bytes_ok l -> IsUtf8_loop fuel l = true -> well_formed l.
Proof.
  revert l; induction fuel as [|fuel IH]; intros [|lead rest] Hb H; try done;
    try (by exists []). cbn [IsUtf8_loop] in H. apply Forall_cons in Hb as [Hlead Hrest].
  destruct (Z.ltb_spec lead 0x80).
  { assert (scalar lead) as Hs by (left; unfold byte_ok in Hlead; lia).
    replace (lead :: rest) with (encode_scalar lead ++ rest)
      by (unfold encode_scalar; by rewrite (proj2 (Z.ltb_lt lead 0x80))).
    apply well_formed_cons; [done|]. by apply IH. }
  destruct (LeadByte lead) as [[n code]|] eqn:EL; [|done].
  destruct (len (lead :: rest) <? n); [done|].
  apply LeadByte_inv in EL as EL'.
  destruct (Continuation (Z.to_nat (n - 1)) code rest) as [[code' rest']|] eqn:EC; [|done].
  destruct (BadCode n code') eqn:EB; [done|].
  apply Continuation_inv in EC as (ts & Hn & -> & Hts & -> & Hr); [|done|lia].
  apply IH in H; [|done].
  destruct EL' as [(-> & Hl & ->)|[(-> & Hl & ->)|(-> & Hl & ->)]].
  - destruct ts as [|b1 [|? ts]]; try done. apply Forall_cons in Hts as [H1 _].
    destruct (encode_2 lead b1) as [Hs He]; [done|done|].
    change (lead :: [b1] ++ rest') with ([lead; b1] ++ rest'). rewrite <- He. by apply well_formed_cons.
  - destruct ts as [|b1 [|b2 [|? ts]]]; try done. apply Forall_cons in Hts as [H1 Hts].
    apply Forall_cons in Hts as [H2 _]. cbn [fold_left] in EB.
    destruct (encode_3 lead b1 b2) as [Hs He]; [done..|].
    change (lead :: [b1; b2] ++ rest') with ([lead; b1; b2] ++ rest'). rewrite <- He. by apply well_formed_cons.
  - destruct ts as [|b1 [|b2 [|b3 [|? ts]]]]; try done. apply Forall_cons in Hts as [H1 Hts].
    apply Forall_cons in Hts as [H2 Hts]. apply Forall_cons in Hts as [H3 _]. cbn [fold_left] in EB.
    destruct (encode_4 lead b1 b2 b3) as [Hs He]; [done..|].
    change (lead :: [b1; b2; b3] ++ rest') with ([lead; b1; b2; b3] ++ rest'). rewrite <- He.
    by apply well_formed_cons.
Qed.

(** C33: IsUtf8 accepts exactly the encodings of sequences of Unicode scalar
    values: no overlong form, no surrogate, nothing above U+10FFFF, and no
    text of scalar values refused. *)
Theorem is_utf8_correct (l : bytes) (Hl : bytes_ok l) : IsUtf8 l = true <-> well_formed l.
Proof.
  split; [by apply IsUtf8_sound|]. intros (cs & Hcs & ->). by apply IsUtf8_complete.
Qed.

Lemma is_utf8_correct_witness :
  IsUtf8 [0x24; 0xC3; 0xA9; 0xE2; 0x82; 0xAC; 0xF0; 0x9D; 0x84; 0x9E] = true
  <-> well_formed [0x24; 0xC3; 0xA9; 0xE2; 0x82; 0xAC; 0xF0; 0x9D; 0x84; 0x9E].
Proof.
  apply (is_utf8_correct [0x24; 0xC3; 0xA9; 0xE2; 0x82; 0xAC; 0xF0; 0x9D; 0x84; 0x9E]).
  repeat (constructor; [by unfold byte_ok|]). constructor.
Defined.

End Utf8.
