(* ===== verification/Floats.v ===== *)
(** * IEEE 754 binary32 and binary64 as bit patterns

    The schema converts column values between [float] and [double].  A value
    is its bit pattern; a finite value is sign, mantissa and exponent, and a
    conversion to [float] rounds to nearest, ties to even.  The conversion of
    a NaN keeps the sign and the upper payload bits and sets the quiet bit, as
    the processors the store runs on do. *)
From stdpp Require Import prelude.
From Stdlib Require Import ZArith Lia.
From S2P Require Import Prelude.

#[local] Open Scope Z_scope.

Module Floats.

(** Fields of a binary32. *)
Definition f32_sign (b : Z) : Z := b / 2 ^ 31.
Definition f32_exp (b : Z) : Z := (b / 2 ^ 23) mod 2 ^ 8.
Definition f32_man (b : Z) : Z := b mod 2 ^ 23.

(** Fields of a binary64. *)
Definition f64_sign (b : Z) : Z := b / 2 ^ 63.
Definition f64_exp (b : Z) : Z := (b / 2 ^ 52) mod 2 ^ 11.
Definition f64_man (b : Z) : Z := b mod 2 ^ 52.

Definition f32_is_nan (b : Z) : bool := (f32_exp b =? 255) && negb (f32_man b =? 0).
Definition f64_is_nan (b : Z) : bool := (f64_exp b =? 2047) && negb (f64_man b =? 0).
(** [std::isfinite]. *)
Definition f64_isfinite (b : Z) : bool := negb (f64_exp b =? 2047).

(** [static_cast<double>(float)]: exact. *)
Definition float_to_double (b : Z) : Z :=
  let e := f32_exp b in
  let m := f32_man b in
  let magnitude :=
    if e =? 255 then
      if m =? 0 then 2047 * 2 ^ 52 else 2047 * 2 ^ 52 + Z.lor (2 ^ 51) (m * 2 ^ 29)
    else if e =? 0 then
      if m =? 0 then 0
      else let k := Z.log2 m in (k + 874) * 2 ^ 52 + (m - 2 ^ k) * 2 ^ (52 - k)
    else (e + 896) * 2 ^ 52 + m * 2 ^ 29 in
  f32_sign b * 2 ^ 63 + magnitude.

(** [m / 2^s] to the nearest integer, ties to even. *)
Definition round_even (m s : Z) : Z :=
  let d := m / 2 ^ s in
  let r := m mod 2 ^ s in
  if (2 ^ s <? 2 * r) || ((2 * r =? 2 ^ s) && Z.odd d) then d + 1 else d.

(** [static_cast<float>(double)]: to nearest, ties to even, overflow to
    infinity.  A finite result is mantissa [r] at exponent [q], and its bits
    are [(q + 149) * 2^23 + r] whether it is subnormal or normal. *)
Definition double_to_float (b : Z) : Z :=
  let e := f64_exp b in
  let m := f64_man b in
  let magnitude :=
    if e =? 2047 then
      if m =? 0 then 255 * 2 ^ 23 else 255 * 2 ^ 23 + Z.lor (2 ^ 22) (m / 2 ^ 29)
    else
      let mant := if e =? 0 then m else 2 ^ 52 + m in
      let expo := (if e =? 0 then 1 else e) - 1075 in
      if mant =? 0 then 0
      else
        let k := Z.log2 mant + expo in
        let q := Z.max (k - 23) (-149) in
        Z.min (255 * 2 ^ 23) ((q + 149) * 2 ^ 23 + round_even mant (q - expo)) in
  f64_sign b * 2 ^ 31 + magnitude.

(** The order of two doubles, [false] for NaN: by sign and magnitude. *)
Definition f64_key (b : Z) : Z :=
  let magnitude := b mod 2 ^ 63 in if f64_sign b =? 0 then magnitude else - magnitude.
Definition f64_lt (a b : Z) : bool :=
  negb (f64_is_nan a) && negb (f64_is_nan b) && (f64_key a <? f64_key b).

Definition f64_fabs (b : Z) : Z := b mod 2 ^ 63.
Definition f64_neg (b : Z) : Z := if f64_sign b =? 0 then b + 2 ^ 63 else b - 2 ^ 63.

(** [static_cast<double>(std::numeric_limits<float>::max())]. *)
Definition float_max : Z := float_to_double 0x7F7FFFFF.

(** [std::clamp(v, low, high)]. *)
Definition f64_clamp (v low high : Z) : Z :=
  if f64_lt v low then low else if f64_lt high v then high else v.

(** ** Fields *)

Lemma f32_fields b : in_u 32 b ->
  b = f32_sign b * 2 ^ 31 + f32_exp b * 2 ^ 23 + f32_man b /\
  0 <= f32_sign b < 2 /\ 0 <= f32_exp b < 256 /\ 0 <= f32_man b < 2 ^ 23.
Proof.
  intros Hb. unfold f32_sign, f32_exp, f32_man, in_u in *.
  pose proof (Z.div_mod b (2 ^ 23) ltac:(lia)). pose proof (Z.mod_pos_bound b (2 ^ 23) ltac:(lia)).
  pose proof (Z.div_mod (b / 2 ^ 23) (2 ^ 8) ltac:(lia)).
  pose proof (Z.mod_pos_bound (b / 2 ^ 23) (2 ^ 8) ltac:(lia)).
  rewrite Z.div_div in H1 by lia. change (2 ^ 23 * 2 ^ 8) with (2 ^ 31) in H1.
  assert (0 <= b / 2 ^ 31 < 2) by (split; [apply Z.div_pos; lia|apply Z.div_lt_upper_bound; lia]).
  change (2 ^ 8) with 256 in *. lia.
Qed.

Lemma f64_fields b : in_u 64 b ->
  b = f64_sign b * 2 ^ 63 + f64_exp b * 2 ^ 52 + f64_man b /\
  0 <= f64_sign b < 2 /\ 0 <= f64_exp b < 2048 /\ 0 <= f64_man b < 2 ^ 52.
Proof.
  intros Hb. unfold f64_sign, f64_exp, f64_man, in_u in *.
  pose proof (Z.div_mod b (2 ^ 52) ltac:(lia)). pose proof (Z.mod_pos_bound b (2 ^ 52) ltac:(lia)).
  pose proof (Z.div_mod (b / 2 ^ 52) (2 ^ 11) ltac:(lia)).
  pose proof (Z.mod_pos_bound (b / 2 ^ 52) (2 ^ 11) ltac:(lia)).
  rewrite Z.div_div in H1 by lia. change (2 ^ 52 * 2 ^ 11) with (2 ^ 63) in H1.
  assert (0 <= b / 2 ^ 63 < 2) by (split; [apply Z.div_pos; lia|apply Z.div_lt_upper_bound; lia]).
  change (2 ^ 11) with 2048 in *. lia.
Qed.

(** The fields of a pattern put together from fields. *)
Lemma f64_of_fields s e m : 0 <= s < 2 -> 0 <= e < 2048 -> 0 <= m < 2 ^ 52 ->
  let b := s * 2 ^ 63 + (e * 2 ^ 52 + m) in
  in_u 64 b /\ f64_sign b = s /\ f64_exp b = e /\ f64_man b = m.
Proof.
  intros Hs He Hm. cbv zeta. unfold f64_sign, f64_exp, f64_man, in_u. split; [lia|]. split; [|split].
  - symmetry. apply (Z.div_unique _ _ _ (e * 2 ^ 52 + m)); lia.
  - replace (s * 2 ^ 63 + (e * 2 ^ 52 + m)) with (m + (s * 2 ^ 11 + e) * 2 ^ 52) by lia.
    rewrite Z.div_add, Z.div_small, Z.add_0_l by lia.
    rewrite Z.add_comm, Z.mod_add by lia. apply Z.mod_small. lia.
  - replace (s * 2 ^ 63 + (e * 2 ^ 52 + m)) with (m + (s * 2 ^ 11 + e) * 2 ^ 52) by lia.
    rewrite Z.mod_add by lia. apply Z.mod_small. lia.
Qed.

Lemma f32_of_fields s e m : 0 <= s < 2 -> 0 <= e < 256 -> 0 <= m < 2 ^ 23 ->
  let b := s * 2 ^ 31 + (e * 2 ^ 23 + m) in
  in_u 32 b /\ f32_sign b = s /\ f32_exp b = e /\ f32_man b = m.
Proof.
  intros Hs He Hm. cbv zeta. unfold f32_sign, f32_exp, f32_man, in_u. split; [lia|]. split; [|split].
  - symmetry. apply (Z.div_unique _ _ _ (e * 2 ^ 23 + m)); lia.
  - replace (s * 2 ^ 31 + (e * 2 ^ 23 + m)) with (m + (s * 2 ^ 8 + e) * 2 ^ 23) by lia.
    rewrite Z.div_add, Z.div_small, Z.add_0_l by lia.
    rewrite Z.add_comm, Z.mod_add by lia. apply Z.mod_small. lia.
  - replace (s * 2 ^ 31 + (e * 2 ^ 23 + m)) with (m + (s * 2 ^ 8 + e) * 2 ^ 23) by lia.
    rewrite Z.mod_add by lia. apply Z.mod_small. lia.
Qed.

(** ** Widening is exact *)

(** The exponent and mantissa fields of a widened value that is not a NaN. *)
Lemma float_to_double_fields b : in_u 32 b -> f32_is_nan b = false ->
  exists e m, float_to_double b = f32_sign b * 2 ^ 63 + (e * 2 ^ 52 + m) /\
    0 <= e < 2048 /\ 0 <= m < 2 ^ 52 /\
    ((f32_exp b = 255 /\ f32_man b = 0 /\ e = 2047 /\ m = 0) \/
     (f32_exp b = 0 /\ f32_man b = 0 /\ e = 0 /\ m = 0) \/
     (f32_exp b = 0 /\ 0 < f32_man b /\ e = Z.log2 (f32_man b) + 874 /\
      2 ^ 52 + m = f32_man b * 2 ^ (52 - Z.log2 (f32_man b))) \/
     (0 < f32_exp b < 255 /\ e = f32_exp b + 896 /\ m = f32_man b * 2 ^ 29)).
Proof.
  intros Hb Hnan. destruct (f32_fields b Hb) as (_ & Hs & He & Hm).
  unfold f32_is_nan in Hnan. unfold float_to_double.
  destruct (Z.eqb_spec (f32_exp b) 255) as [E|E].
  { destruct (Z.eqb_spec (f32_man b) 0) as [E0|E0]; [|done].
    exists 2047, 0. split; [lia|]. split; [lia|]. split; [lia|]. by left. }
  destruct (Z.eqb_spec (f32_exp b) 0) as [E0|E0].
  - destruct (Z.eqb_spec (f32_man b) 0) as [Em|Em].
    { exists 0, 0. split; [lia|]. split; [lia|]. split; [lia|]. right. by left. }
    set (k := Z.log2 (f32_man b)). cbv zeta.
    pose proof (Z.log2_spec (f32_man b) ltac:(lia)) as [Hk1 Hk2]. fold k in Hk1, Hk2.
    assert (0 <= k < 23) as Hk.
    { split; [apply Z.log2_nonneg|]. apply Z.log2_lt_pow2; lia. }
    assert (2 ^ k * 2 ^ (52 - k) = 2 ^ 52) as Hp by (rewrite <- Z.pow_add_r by lia; f_equal; lia).
    assert (0 < 2 ^ (52 - k)) by (apply Z.pow_pos_nonneg; lia).
    rewrite Z.pow_succ_r in Hk2 by lia.
    exists (k + 874), ((f32_man b - 2 ^ k) * 2 ^ (52 - k)).
    split; [done|]. split; [lia|]. split; [nia|]. right. right. left.
    split; [done|]. split; [lia|]. split; [done|]. nia.
  - exists (f32_exp b + 896), (f32_man b * 2 ^ 29). split; [done|]. split; [lia|]. split; [lia|].
    right. right. right. lia.
Qed.

Lemma round_even_exact m s : 0 <= s -> round_even (m * 2 ^ s) s = m.
Proof.
  intros Hs. unfold round_even. rewrite Z.div_mul, Z.mod_mul by (apply Z.pow_nonzero; lia).
  assert (0 < 2 ^ s) by (apply Z.pow_pos_nonneg; lia).
  rewrite (proj2 (Z.ltb_ge _ _)), (proj2 (Z.eqb_neq _ _)) by lia. done.
Qed.

Lemma log2_mul_pow2_exact m k s : 0 <= s -> Z.log2 m = k -> 0 < m -> Z.log2 (m * 2 ^ s) = k + s.
Proof. intros Hs Hk Hm. rewrite Z.log2_mul_pow2 by lia. lia. Qed.

(** Widening a [float] to a [double] loses nothing: narrowing it again
    gives the same [float], for every value that is not a NaN (zeros,
    subnormals and infinities included). *)
Theorem float_double_roundtrip (b : Z) (Hb : in_u 32 b) (Hnan : f32_is_nan b = false) :
  double_to_float (float_to_double b) = b.
Proof.
  destruct (f32_fields b Hb) as (Eb & Hs & He & Hm).
  destruct (float_to_double_fields b Hb Hnan) as (e & m & -> & He' & Hm' & Hcase).
  destruct (f64_of_fields (f32_sign b) e m Hs He' Hm') as (_ & Fs & Fe & Fm).
  unfold double_to_float. rewrite Fs, Fe, Fm. transitivity (f32_sign b * 2 ^ 31 + f32_exp b * 2 ^ 23 + f32_man b); [clear Eb|symmetry; exact Eb].
  destruct Hcase as [(C1 & C2 & -> & ->)|[(C1 & C2 & -> & ->)|[(C1 & C2 & -> & C4)|(C1 & -> & C3)]]].
  - rewrite C1, C2. simpl. lia.
  - rewrite C1, C2. simpl. lia.
  - set (k := Z.log2 (f32_man b)) in *.
    assert (0 <= k < 23) as Hk.
    { split; [apply Z.log2_nonneg|]. apply Z.log2_lt_pow2; lia. }
    rewrite (proj2 (Z.eqb_neq (k + 874) 2047)), (proj2 (Z.eqb_neq (k + 874) 0)) by lia.
    rewrite C4, (proj2 (Z.eqb_neq _ 0)) by lia. cbv zeta.
    rewrite (log2_mul_pow2_exact _ k) by (lia || done).
    rewrite Z.max_r by lia. replace (-149 - (k + 874 - 1075)) with (52 - k) by lia.
    rewrite round_even_exact by lia. lia.
  - rewrite (proj2 (Z.eqb_neq (f32_exp b + 896) 2047)), (proj2 (Z.eqb_neq (f32_exp b + 896) 0)) by lia.
    rewrite C3. replace (2 ^ 52 + f32_man b * 2 ^ 29) with ((2 ^ 23 + f32_man b) * 2 ^ 29) by lia.
    rewrite (proj2 (Z.eqb_neq _ 0)) by lia. cbv zeta.
    assert (Z.log2 (2 ^ 23 + f32_man b) = 23) as Hl.
    { apply Z.log2_unique; [lia|]. change (2 ^ Z.succ 23) with (2 * 2 ^ 23). lia. }
    rewrite (log2_mul_pow2_exact _ 23) by (lia || done).
    rewrite Z.max_l by lia.
    replace (23 + 29 + (f32_exp b + 896 - 1075) - 23 - (f32_exp b + 896 - 1075)) with 29 by lia.
    rewrite round_even_exact by lia. lia.
Qed.

Lemma float_double_roundtrip_witness : double_to_float (float_to_double 0x00000003) = 0x00000003.
Proof. apply (float_double_roundtrip 0x00000003); vm_compute; [split; congruence|reflexivity]. Defined.

(** ** Narrowing *)

Lemma lor_bound w a b : 0 <= w -> in_u w a -> in_u w b -> in_u w (Z.lor a b).
Proof.
  intros Hw Ha Hb. apply in_u_bits; [done|apply Z.lor_nonneg; unfold in_u in *; lia|].
  intros i Hi. by rewrite Z.lor_spec, (testbit_above w a), (testbit_above w b) by done.
Qed.

Lemma round_even_bound m s : 0 <= m -> 0 <= s -> m / 2 ^ s <= round_even m s <= m / 2 ^ s + 1.
Proof. intros. unfold round_even. case_match; lia. Qed.

Lemma float_to_double_bound b : in_u 32 b -> in_u 64 (float_to_double b).
Proof.
  intros Hb. destruct (f32_is_nan b) eqn:En.
  - destruct (f32_fields b Hb) as (_ & Hs & He & Hm). unfold f32_is_nan in En.
    apply andb_true_iff in En as [E1 E2]. unfold float_to_double. rewrite E1.
    apply negb_true_iff in E2. rewrite E2.
    assert (in_u 52 (Z.lor (2 ^ 51) (f32_man b * 2 ^ 29))) as HL by (apply lor_bound; unfold in_u; lia).
    unfold in_u in *. lia.
  - destruct (float_to_double_fields b Hb En) as (e & m & -> & He' & Hm' & _).
    destruct (f32_fields b Hb) as (_ & Hs & _). by apply f64_of_fields.
Qed.

Lemma double_to_float_bound b : in_u 64 b -> in_u 32 (double_to_float b).
Proof.
  intros Hb. destruct (f64_fields b Hb) as (_ & Hs & He & Hm). unfold double_to_float.
  destruct (Z.eqb_spec (f64_exp b) 2047) as [E|E].
  - destruct (Z.eqb_spec (f64_man b) 0); [unfold in_u; lia|].
    assert (in_u 23 (Z.lor (2 ^ 22) (f64_man b / 2 ^ 29))) as HL.
    { apply lor_bound; unfold in_u; [lia|lia|]. split; [apply Z.div_pos; lia|apply Z.div_lt_upper_bound; lia]. }
    unfold in_u in *. lia.
  - set (mant := if f64_exp b =? 0 then f64_man b else 2 ^ 52 + f64_man b).
    set (expo := (if f64_exp b =? 0 then 1 else f64_exp b) - 1075).
    assert (0 <= mant < 2 ^ 53) as Hmant by (subst mant; case_match; lia).
    destruct (Z.eqb_spec mant 0); [unfold in_u; lia|]. cbv zeta.
    set (q := Z.max (Z.log2 mant + expo - 23) (-149)).
    assert (0 <= round_even mant (q - expo)) as Hr.
    { destruct (decide (0 <= q - expo)).
      - pose proof (round_even_bound mant (q - expo) ltac:(lia) ltac:(lia)).
        assert (0 <= mant / 2 ^ (q - expo)) by (apply Z.div_pos; [lia|apply Z.pow_pos_nonneg; lia]). lia.
      - unfold round_even. rewrite Z.pow_neg_r by lia. rewrite Z.div_0_r, Z.mod_0_r. case_match; lia. }
    assert (-149 <= q) by (subst q; lia). unfold in_u. lia.
Qed.

(** A finite double is its mantissa times a power of two. *)
Definition f64_mant (b : Z) : Z := if f64_exp b =? 0 then f64_man b else 2 ^ 52 + f64_man b.
Definition f64_expo (b : Z) : Z := (if f64_exp b =? 0 then 1 else f64_exp b) - 1075.

Lemma f64_key_fabs b : f64_key (f64_fabs b) = b mod 2 ^ 63.
Proof.
  unfold f64_key, f64_fabs, f64_sign. pose proof (Z.mod_pos_bound b (2 ^ 63) ltac:(lia)).
  rewrite (Z.div_small (b mod 2 ^ 63)) by lia. cbn [Z.eqb]. by rewrite Z.mod_mod by lia.
Qed.

Lemma float_max_key : f64_key float_max = 1150 * 2 ^ 52 + (2 ^ 23 - 1) * 2 ^ 29.
Proof. vm_compute. reflexivity. Qed.

Lemma f64_fabs_not_nan b : in_u 64 b -> f64_isfinite b = true ->
  f64_is_nan (f64_fabs b) = false /\ b mod 2 ^ 63 = f64_exp b * 2 ^ 52 + f64_man b.
Proof.
  intros Hb Hf. destruct (f64_fields b Hb) as (Eb & Hs & He & Hm).
  assert (b mod 2 ^ 63 = f64_exp b * 2 ^ 52 + f64_man b) as Emod.
  { symmetry. apply (Z.mod_unique _ _ (f64_sign b)); lia. }
  split; [|done]. unfold f64_is_nan, f64_fabs. rewrite Emod.
  destruct (f64_of_fields 0 (f64_exp b) (f64_man b) ltac:(lia) He Hm) as (_ & _ & Fe & _).
  replace (f64_exp b * 2 ^ 52 + f64_man b) with (0 * 2 ^ 63 + (f64_exp b * 2 ^ 52 + f64_man b)) by lia.
  rewrite Fe. unfold f64_isfinite in Hf.
  by destruct (f64_exp b =? 2047).
Qed.

(** The bits of a rounded magnitude of at most the largest [float]. *)
Lemma round_in_range mant expo : 0 < mant < 2 ^ 53 -> expo <= 75 ->
  2 ^ 52 <= mant \/ expo = -1074 -> (expo = 75 -> mant <= (2 ^ 24 - 1) * 2 ^ 29) ->
  let q := Z.max (Z.log2 mant + expo - 23) (-149) in
  0 <= (q + 149) * 2 ^ 23 + round_even mant (q - expo) < 255 * 2 ^ 23.
Proof.
  intros Hm He Hn Htop q. pose proof (Z.log2_nonneg mant) as Hl0.
  assert (Z.log2 mant <= 52) as Hl by (apply Z.lt_succ_r, Z.log2_lt_pow2; lia).
  assert (2 ^ 52 <= mant -> Z.log2 mant = 52) as Hl52.
  { intros. apply Z.log2_unique; [lia|]. change (2 ^ Z.succ 52) with (2 * 2 ^ 52). lia. }
  assert (29 <= q - expo) as Hs by (subst q; lia).
  assert (0 <= mant / 2 ^ (q - expo) < 2 ^ 24) as Hd.
  { split; [apply Z.div_pos; [lia|apply Z.pow_pos_nonneg; lia]|].
    apply Z.div_lt_upper_bound; [apply Z.pow_pos_nonneg; lia|].
    rewrite <- Z.pow_add_r by lia. pose proof (Z.log2_spec mant ltac:(lia)) as [_ Hlt].
    eapply Z.lt_le_trans; [exact Hlt|]. apply Z.pow_le_mono_r; [lia|]. subst q. lia. }
  pose proof (round_even_bound mant (q - expo) ltac:(lia) ltac:(lia)) as Hr.
  destruct (decide (q <= 103)) as [Hq|Hq]; [subst q; lia|].
  assert (expo = 75 /\ q = 104) as [-> Eq] by (subst q; lia). rewrite Eq in *.
  specialize (Htop eq_refl). change (104 - 75) with 29 in *.
  destruct (decide (mant / 2 ^ 29 = 2 ^ 24 - 1)) as [E|E]; [|lia].
  assert (mant = (2 ^ 24 - 1) * 2 ^ 29) as ->.
  { pose proof (Z.mul_div_le mant (2 ^ 29) ltac:(lia)). lia. }
  rewrite round_even_exact by lia. lia.
Qed.

(** A finite [double] that the schema's range check lets into a [float]
    column narrows to a finite [float]: rounding never produces an infinity
    out of a value that passed. *)
Theorem narrow_in_range_finite (d : Z) (Hd : in_u 64 d) (Hfin : f64_isfinite d = true)
    (Hle : f64_lt float_max (f64_fabs d) = false) :
  f32_exp (double_to_float d) < 255.
Proof.
  destruct (f64_fields d Hd) as (_ & Hs & He & Hm).
  destruct (f64_fabs_not_nan d Hd Hfin) as [Hn Emod].
  assert (f64_exp d * 2 ^ 52 + f64_man d <= 1150 * 2 ^ 52 + (2 ^ 23 - 1) * 2 ^ 29) as Hmax.
  { unfold f64_lt in Hle. rewrite Hn, f64_key_fabs, float_max_key, Emod in Hle.
    change (f64_is_nan float_max) with false in Hle. cbn [negb andb] in Hle. apply Z.ltb_ge in Hle. exact Hle. }
  assert (forall r, 0 <= r < 255 * 2 ^ 23 -> f32_exp (f64_sign d * 2 ^ 31 + r) < 255) as Hexp.
  { intros r Hr. assert (0 <= r / 2 ^ 23 < 255) by (split; [apply Z.div_pos; lia|apply Z.div_lt_upper_bound; lia]).
    pose proof (Z.div_mod r (2 ^ 23) ltac:(lia)). pose proof (Z.mod_pos_bound r (2 ^ 23) ltac:(lia)).
    destruct (f32_of_fields (f64_sign d) (r / 2 ^ 23) (r mod 2 ^ 23)) as (_ & _ & Fe & _); [lia..|].
    replace (r / 2 ^ 23 * 2 ^ 23 + r mod 2 ^ 23) with r in Fe by lia. lia. }
  unfold double_to_float, f64_isfinite in *. destruct (Z.eqb_spec (f64_exp d) 2047); [done|].
  fold (f64_mant d) (f64_expo d). apply Hexp.
  destruct (Z.eqb_spec (f64_mant d) 0); [lia|]. cbv zeta.
  pose proof (round_in_range (f64_mant d) (f64_expo d)) as HR. cbv zeta in HR.
  assert (0 < f64_mant d < 2 ^ 53 /\ f64_expo d <= 75 /\
    (2 ^ 52 <= f64_mant d \/ f64_expo d = -1074) /\
    (f64_expo d = 75 -> f64_mant d <= (2 ^ 24 - 1) * 2 ^ 29)) as (H1 & H2 & H3 & H4).
  { unfold f64_mant, f64_expo in *. case_match; lia. }
  specialize (HR H1 H2 H3 H4). lia.
Qed.

Lemma narrow_in_range_finite_witness : f32_exp (double_to_float 0x47EFFFFFDFFFFFFF) < 255.
Proof.
  apply (narrow_in_range_finite 0x47EFFFFFDFFFFFFF); vm_compute; [split; congruence|reflexivity..].
Defined.

(** A finite [float], widened, is at most the largest [float]. *)
Lemma float_max_widened b : in_u 32 b -> f64_isfinite (float_to_double b) = true ->
  f64_lt float_max (f64_fabs (float_to_double b)) = false.
Proof.
  intros Hb Hfin. destruct (f32_fields b Hb) as (_ & Hs & He & Hm).
  pose proof (float_to_double_bound b Hb) as Hd.
  destruct (f64_fabs_not_nan _ Hd Hfin) as [_ Emod]. unfold f64_isfinite in Hfin.
  unfold f64_lt. rewrite f64_key_fabs, float_max_key, Emod.
  rewrite (proj2 (Z.ltb_ge _ _)); [apply andb_false_r|].
  destruct (f32_is_nan b) eqn:En.
  { exfalso. unfold f32_is_nan in En. apply andb_true_iff in En as [E1 E2]. apply negb_true_iff in E2.
    unfold float_to_double in Hfin. rewrite E1, E2 in Hfin.
    assert (in_u 52 (Z.lor (2 ^ 51) (f32_man b * 2 ^ 29))) as HL by (apply lor_bound; unfold in_u; lia).
    destruct (f64_of_fields (f32_sign b) 2047 _ Hs ltac:(lia) HL) as (_ & _ & Fe & _). by rewrite Fe in Hfin. }
  destruct (float_to_double_fields b Hb En) as (e & m & E & He' & Hm' & Hcase).
  rewrite E in *. destruct (f64_of_fields (f32_sign b) e m Hs He' Hm') as (_ & _ & Fe & Fm).
  rewrite Fe, Fm in *.
  destruct Hcase as [(C1 & C2 & -> & ->)|[(C1 & C2 & -> & ->)|[(C1 & C2 & -> & C4)|(C1 & -> & C3)]]].
  - done.
  - lia.
  - assert (Z.log2 (f32_man b) < 23) by (apply Z.log2_lt_pow2; lia). lia.
  - subst m. lia.
Qed.

End Floats.
