(* ===== verification/Doubles.v ===== *)
(** * Arithmetic of doubles on bit patterns

    What the expressions use of [double] and [float]: the five operations,
    conversions from and to 128-bit integers, truncation and comparison.  A
    finite double is an integer times a power of two, an operation computes
    the exact result and rounds it to nearest, ties to even.  Which NaN an
    operation gives is the machine's choice, an argument of the model. *)
From stdpp Require Import prelude strings.
From Stdlib Require Import ZArith Lia.
From S2P Require Import Prelude Floats.

#[local] Open Scope Z_scope.

Module Doubles.
Import Floats.

Inductive float_op := FAdd | FSub | FMul | FDiv | FMod.

(** The NaN an operation gives for its operands. *)
Class FloatUnit := {
  nan_bits : float_op -> Z -> Z -> Z;
  nan_bits_nan op a b : in_u 64 (nan_bits op a b) /\ f64_is_nan (nan_bits op a b) = true
}.

Definition f64_is_inf (b : Z) : bool := (f64_exp b =? 2047) && (f64_man b =? 0).
(** A zero or an infinity with sign [s]. *)
Definition f64_zero (s : Z) : Z := s * 2 ^ 63.
Definition f64_inf (s : Z) : Z := s * 2 ^ 63 + 2047 * 2 ^ 52.
Definition quiet_NaN : Z := 0x7FF8000000000000.

(** A finite double is [f64_num b * 2 ^ f64_expo b]. *)
Definition f64_num (b : Z) : Z := if f64_sign b =? 0 then f64_mant b else - f64_mant b.
Definition f64_is_zero (b : Z) : bool := f64_num b =? 0.

(** [m * 2 ^ e] with sign [s], rounded; a finite result is mantissa [r] at exponent [q]. *)
Definition round_f64 (s m e : Z) : Z :=
  let q := Z.max (Z.log2 m + e - 52) (-1074) in
  let r := if e <=? q then round_even m (q - e) else m * 2 ^ (e - q) in
  s * 2 ^ 63 + Z.min (2047 * 2 ^ 52) ((q + 1074) * 2 ^ 52 + r).

(** The double nearest to [n * 2 ^ e]; an exact zero has the sign [zero]. *)
Definition f64_of_dyadic (zero n e : Z) : Z :=
  if n =? 0 then f64_zero zero else round_f64 (if n <? 0 then 1 else 0) (Z.abs n) e.

Definition round_f32 (s m e : Z) : Z :=
  let q := Z.max (Z.log2 m + e - 23) (-149) in
  let r := if e <=? q then round_even m (q - e) else m * 2 ^ (e - q) in
  s * 2 ^ 31 + Z.min (255 * 2 ^ 23) ((q + 149) * 2 ^ 23 + r).

(** [static_cast<double>] and [static_cast<float>] of an integer. *)
Definition f64_of_int (n : Z) : Z := f64_of_dyadic 0 n 0.
Definition f32_of_int (n : Z) : Z := if n =? 0 then 0 else round_f32 (if n <? 0 then 1 else 0) (Z.abs n) 0.

Definition sign_xor (a b : Z) : Z := if f64_sign a =? f64_sign b then 0 else 1.

(** The sum of two numbers that are not NaN; [nan] for infinities of both signs. *)
Definition add_numbers (nan a b : Z) : Z :=
  if f64_is_inf a then if f64_is_inf b && negb (f64_sign a =? f64_sign b) then nan else a
  else if f64_is_inf b then b
  else
    let e := Z.min (f64_expo a) (f64_expo b) in
    f64_of_dyadic (if (f64_sign a =? 1) && (f64_sign b =? 1) then 1 else 0)
      (f64_num a * 2 ^ (f64_expo a - e) + f64_num b * 2 ^ (f64_expo b - e)) e.

Section Unit.
Context {U : FloatUnit}.

Definition f64_add (a b : Z) : Z :=
  let nan := nan_bits FAdd a b in if f64_is_nan a || f64_is_nan b then nan else add_numbers nan a b.

Definition f64_sub (a b : Z) : Z :=
  let nan := nan_bits FSub a b in if f64_is_nan a || f64_is_nan b then nan else add_numbers nan a (f64_neg b).

Definition f64_mul (a b : Z) : Z :=
  let nan := nan_bits FMul a b in
  if f64_is_nan a || f64_is_nan b then nan
  else if f64_is_inf a || f64_is_inf b then
    if f64_is_zero a || f64_is_zero b then nan else f64_inf (sign_xor a b)
  else f64_of_dyadic (sign_xor a b) (f64_num a * f64_num b) (f64_expo a + f64_expo b).

(** The quotient of the mantissas has 56 bits or more; the last bit says whether it is exact. *)
Definition f64_div (a b : Z) : Z :=
  let nan := nan_bits FDiv a b in
  if f64_is_nan a || f64_is_nan b then nan
  else if f64_is_inf a then if f64_is_inf b then nan else f64_inf (sign_xor a b)
  else if f64_is_inf b then f64_zero (sign_xor a b)
  else if f64_is_zero b then if f64_is_zero a then nan else f64_inf (sign_xor a b)
  else if f64_is_zero a then f64_zero (sign_xor a b)
  else
    let n := f64_mant a * 2 ^ 109 in
    let sticky := if n mod f64_mant b =? 0 then 0 else 1 in
    round_f64 (sign_xor a b) (2 * (n / f64_mant b) + sticky) (f64_expo a - f64_expo b - 110).

(** [std::fmod]: the remainder of the truncated quotient, with the sign of [a]. *)
Definition f64_fmod (a b : Z) : Z :=
  let nan := nan_bits FMod a b in
  if f64_is_nan a || f64_is_nan b then nan
  else if f64_is_inf a || f64_is_zero b then nan
  else if f64_is_inf b || f64_is_zero a then a
  else
    let e := Z.min (f64_expo a) (f64_expo b) in
    f64_of_dyadic (f64_sign a) (Z.rem (f64_num a * 2 ^ (f64_expo a - e)) (f64_num b * 2 ^ (f64_expo b - e))) e.

End Unit.

(** [std::trunc]: the bits below the point cleared. *)
Definition f64_trunc (b : Z) : Z :=
  if f64_exp b <? 1023 then f64_zero (f64_sign b)
  else if 1075 <=? f64_exp b then b
  else b / 2 ^ (1075 - f64_exp b) * 2 ^ (1075 - f64_exp b).

(** The integer part of a finite double. *)
Definition f64_int (b : Z) : Z :=
  if 0 <=? f64_expo b then f64_num b * 2 ^ f64_expo b else Z.quot (f64_num b) (2 ^ (- f64_expo b)).

(** [static_cast<__int128>(double)]; without defined behaviour outside the range. *)
Definition f64_to_int128 (b : Z) : res Z :=
  if f64_isfinite b && (- 2 ^ 127 <=? f64_int b) && (f64_int b <? 2 ^ 127) then Ok (f64_int b)
  else Err (undefined "float to integer out of range").

(** An integer against a number that is not NaN, exactly. *)
Definition int_compare_f64 (n b : Z) : comparison :=
  if f64_is_inf b then if f64_sign b =? 0 then Lt else Gt
  else if 0 <=? f64_expo b then n ?= f64_num b * 2 ^ f64_expo b
  else n * 2 ^ (- f64_expo b) ?= f64_num b.

(** ** Ranges *)

Lemma round_f64_bound s m e : 0 <= s < 2 -> 0 <= m -> in_u 64 (round_f64 s m e).
Proof.
  intros Hs Hm. unfold round_f64, in_u. set (q := Z.max _ _).
  assert (0 <= (if e <=? q then round_even m (q - e) else m * 2 ^ (e - q))).
  { destruct (Z.leb_spec e q).
    - pose proof (round_even_bound m (q - e) Hm ltac:(lia)). pose proof (Z.div_pos m (2 ^ (q - e)) Hm (Z.pow_pos_nonneg 2 (q - e) ltac:(lia) ltac:(lia))). lia.
    - pose proof (Z.pow_nonneg 2 (e - q) ltac:(lia)). nia. }
  lia.
Qed.

Lemma f64_of_dyadic_bound z n e : 0 <= z < 2 -> in_u 64 (f64_of_dyadic z n e).
Proof.
  intros Hz. unfold f64_of_dyadic, f64_zero. destruct (n =? 0); [unfold in_u; lia|].
  apply round_f64_bound; [case_match; lia|lia].
Qed.

Lemma f32_of_int_bound n : in_u 32 (f32_of_int n).
Proof.
  unfold f32_of_int, round_f32, in_u. destruct (Z.eqb_spec n 0); [lia|]. set (q := Z.max _ _).
  assert (0 <= (if 0 <=? q then round_even (Z.abs n) (q - 0) else Z.abs n * 2 ^ (0 - q))).
  { destruct (Z.leb_spec 0 q).
    - pose proof (round_even_bound (Z.abs n) (q - 0) ltac:(lia) ltac:(lia)).
      pose proof (Z.div_pos (Z.abs n) (2 ^ (q - 0)) ltac:(lia) (Z.pow_pos_nonneg 2 (q - 0) ltac:(lia) ltac:(lia))). lia.
    - pose proof (Z.pow_nonneg 2 (0 - q) ltac:(lia)). nia. }
  destruct (n <? 0); lia.
Qed.

Lemma f64_inf_bound s : 0 <= s < 2 -> in_u 64 (f64_inf s).
Proof. unfold f64_inf, in_u. lia. Qed.

Lemma f64_zero_bound s : 0 <= s < 2 -> in_u 64 (f64_zero s).
Proof. unfold f64_zero, in_u. lia. Qed.

Lemma sign_xor_bound a b : 0 <= sign_xor a b < 2.
Proof. unfold sign_xor. case_match; lia. Qed.

Lemma f64_neg_bound b : in_u 64 b -> in_u 64 (f64_neg b).
Proof.
  intros Hb. destruct (f64_fields b Hb) as (E & Hs & He & Hm). unfold f64_neg, in_u in *.
  destruct (Z.eqb_spec (f64_sign b) 0); lia.
Qed.

Lemma add_numbers_bound nan a b : in_u 64 nan -> in_u 64 a -> in_u 64 b -> in_u 64 (add_numbers nan a b).
Proof. intros. unfold add_numbers. repeat case_match; try done; apply f64_of_dyadic_bound; lia. Qed.

Create HintDb doubles.
#[export] Hint Resolve round_f64_bound f64_of_dyadic_bound f32_of_int_bound f64_inf_bound f64_zero_bound sign_xor_bound f64_neg_bound add_numbers_bound : doubles.

Section Bounds.
Context {U : FloatUnit}.

Lemma nan_bits_bound op a b : in_u 64 (nan_bits op a b).
Proof. apply nan_bits_nan. Qed.
#[local] Hint Resolve nan_bits_bound : doubles.

Lemma f64_add_bound a b : in_u 64 a -> in_u 64 b -> in_u 64 (f64_add a b).
Proof. intros. unfold f64_add. case_match; auto with doubles. Qed.

Lemma f64_sub_bound a b : in_u 64 a -> in_u 64 b -> in_u 64 (f64_sub a b).
Proof. intros. unfold f64_sub. case_match; auto with doubles. Qed.

Lemma f64_mul_bound a b : in_u 64 a -> in_u 64 b -> in_u 64 (f64_mul a b).
Proof. intros. unfold f64_mul. repeat case_match; auto with doubles. Qed.

Lemma f64_div_bound a b : in_u 64 a -> in_u 64 b -> in_u 64 (f64_div a b).
Proof.
  intros Ha Hb. unfold f64_div. repeat case_match; auto with doubles; apply round_f64_bound; try apply sign_xor_bound.
  all: destruct (f64_fields a Ha) as (_ & _ & _ & Hma), (f64_fields b Hb) as (_ & _ & _ & Hmb).
  all: assert (0 <= f64_mant a /\ 0 <= f64_mant b) as [Hna Hnb] by (unfold f64_mant; split; case_match; lia).
  all: assert (0 <= f64_mant a * 2 ^ 109 / f64_mant b) by (destruct (Z.eq_dec (f64_mant b) 0) as [->|]; [rewrite Z.div_0_r; lia|apply Z.div_pos; lia]).
  all: lia.
Qed.

Lemma f64_fmod_bound a b : in_u 64 a -> in_u 64 b -> in_u 64 (f64_fmod a b).
Proof.
  intros Ha Hb. unfold f64_fmod. repeat case_match; auto with doubles. apply f64_of_dyadic_bound.
  destruct (f64_fields a Ha) as (_ & Hs & _). lia.
Qed.

End Bounds.

(** ** An integer compared with a double *)

Lemma f64_neg_fields b : in_u 64 b ->
  f64_sign (f64_neg b) = 1 - f64_sign b /\ f64_exp (f64_neg b) = f64_exp b /\ f64_man (f64_neg b) = f64_man b.
Proof.
  intros Hb. destruct (f64_fields b Hb) as (E & Hs & He & Hm).
  destruct (f64_of_fields (1 - f64_sign b) (f64_exp b) (f64_man b)) as (_ & Fs & Fe & Fm); [lia..|].
  replace (f64_neg b) with ((1 - f64_sign b) * 2 ^ 63 + (f64_exp b * 2 ^ 52 + f64_man b)); [done|].
  unfold f64_neg. destruct (Z.eqb_spec (f64_sign b) 0); lia.
Qed.

Lemma f64_neg_num b : in_u 64 b -> f64_num (f64_neg b) = - f64_num b /\ f64_expo (f64_neg b) = f64_expo b.
Proof.
  intros Hb. destruct (f64_fields b Hb) as (_ & Hs & _). destruct (f64_neg_fields b Hb) as (Es & Ee & Em).
  unfold f64_num, f64_expo, f64_mant. rewrite Es, Ee, Em.
  destruct (Z.eqb_spec (f64_sign b) 0), (Z.eqb_spec (1 - f64_sign b) 0); lia.
Qed.

(** The part of a finite double after the point, in units of its exponent. *)
Definition f64_rest (b : Z) : Z := if 0 <=? f64_expo b then 0 else Z.rem (f64_num b) (2 ^ (- f64_expo b)).

Lemma f64_mant_bound b : in_u 64 b -> 0 <= f64_mant b < 2 ^ 53.
Proof. intros Hb. destruct (f64_fields b Hb) as (_ & _ & _ & Hm). unfold f64_mant. case_match; lia. Qed.

(** The truncation of a double below 2^52 with a point inside its mantissa. *)
Lemma f64_trunc_fields b : in_u 64 b -> 1023 <= f64_exp b < 1075 ->
  in_u 64 (f64_trunc b) /\ f64_sign (f64_trunc b) = f64_sign b /\ f64_exp (f64_trunc b) = f64_exp b /\
  f64_mant (f64_trunc b) = f64_mant b / 2 ^ (1075 - f64_exp b) * 2 ^ (1075 - f64_exp b).
Proof.
  intros Hb Hr. destruct (f64_fields b Hb) as (E & Hs & He & Hm). unfold f64_trunc.
  rewrite (proj2 (Z.ltb_ge (f64_exp b) 1023)), (proj2 (Z.leb_gt 1075 (f64_exp b))) by lia.
  set (k := 1075 - f64_exp b) in *. assert (2 ^ 52 = 2 ^ (52 - k) * 2 ^ k) as E52 by (rewrite <- Z.pow_add_r; [f_equal|..]; lia).
  assert (0 < 2 ^ k) as Hk by (apply Z.pow_pos_nonneg; lia). assert (0 < 2 ^ (52 - k)) as Hk2 by (apply Z.pow_pos_nonneg; lia).
  assert (forall x, (x * 2 ^ 52 + f64_man b) / 2 ^ k * 2 ^ k = x * 2 ^ 52 + f64_man b / 2 ^ k * 2 ^ k) as Hd.
  { intros x. rewrite E52 at 1. replace (x * (2 ^ (52 - k) * 2 ^ k) + f64_man b) with (x * 2 ^ (52 - k) * 2 ^ k + f64_man b) by ring.
    rewrite Z.div_add_l, E52 by lia. ring. }
  pose proof (Z.mul_div_le (f64_man b) (2 ^ k) Hk). pose proof (Z.div_pos (f64_man b) (2 ^ k) ltac:(lia) Hk).
  assert (b / 2 ^ k * 2 ^ k = f64_sign b * 2 ^ 63 + (f64_exp b * 2 ^ 52 + f64_man b / 2 ^ k * 2 ^ k)) as Eb.
  { rewrite E at 1. replace (f64_sign b * 2 ^ 63 + f64_exp b * 2 ^ 52 + f64_man b) with ((f64_sign b * 2 ^ 11 + f64_exp b) * 2 ^ 52 + f64_man b) by lia.
    rewrite Hd. lia. }
  destruct (f64_of_fields (f64_sign b) (f64_exp b) (f64_man b / 2 ^ k * 2 ^ k)) as (Fb & Fs & Fe & Fm); [lia..|nia|].
  rewrite Eb. split; [done|]. split; [done|]. split; [done|]. unfold f64_mant. rewrite Fe, Fm.
  rewrite (proj2 (Z.eqb_neq (f64_exp b) 0)) by lia. pose proof (Hd 1) as Hd1. rewrite !Z.mul_1_l in Hd1. by rewrite Hd1.
Qed.

(** The sign of a rounded number that is a multiple of the least double. *)
Lemma f64_lt_dyadic z n e : 0 <= z < 2 -> -1074 <= e ->
  f64_is_nan (f64_of_dyadic z n e) = false /\
  f64_lt (f64_zero 0) (f64_of_dyadic z n e) = (0 <? n) /\ f64_lt (f64_of_dyadic z n e) (f64_zero 0) = (n <? 0).
Proof.
  intros Hz He. unfold f64_of_dyadic. destruct (Z.eqb_spec n 0) as [->|Hn].
  { assert (z = 0 \/ z = 1) as [-> | ->] by lia; by vm_compute. }
  set (s := if n <? 0 then 1 else 0). assert (0 <= s < 2) as Hs by (subst s; case_match; lia).
  unfold round_f64. set (m := Z.abs n). set (q := Z.max _ _). set (r := if _ : bool then _ else _).
  assert (0 < (q + 1074) * 2 ^ 52 + r) as Hpos.
  { assert (0 <= r) as Hr0.
    { subst r. destruct (Z.leb_spec e q).
      - pose proof (round_even_bound m (q - e) ltac:(lia) ltac:(lia)). pose proof (Z.div_pos m (2 ^ (q - e)) ltac:(lia) (Z.pow_pos_nonneg 2 (q - e) ltac:(lia) ltac:(lia))). lia.
      - pose proof (Z.pow_nonneg 2 (e - q) ltac:(lia)). nia. }
    assert (-1074 <= q) by (subst q; lia). destruct (Z.eq_dec q (-1074)) as [Eq|]; [|clearbody r q; lia]. assert (0 < r); [|clearbody r; lia].
    subst r. rewrite Eq. destruct (Z.leb_spec e (-1074)).
    - assert (e = -1074) as -> by lia. change (-1074 - -1074) with 0.
      pose proof (round_even_exact m 0 ltac:(lia)) as Er. change (2 ^ 0) with 1 in Er. rewrite Z.mul_1_r in Er. rewrite Er. lia.
    - pose proof (Z.pow_pos_nonneg 2 (e - -1074) ltac:(lia) ltac:(lia)). nia. }
  set (g := Z.min _ _). assert (0 < g <= 2047 * 2 ^ 52) as Hg by (subst g; lia). clearbody g. clear r Hpos q.
  assert (g = g / 2 ^ 52 * 2 ^ 52 + g mod 2 ^ 52 /\ 0 <= g / 2 ^ 52 < 2048 /\ 0 <= g mod 2 ^ 52 < 2 ^ 52) as (Eg & H1 & H2).
  { pose proof (Z.div_mod g (2 ^ 52) ltac:(lia)). pose proof (Z.mod_pos_bound g (2 ^ 52) ltac:(lia)). lia. }
  destruct (f64_of_fields s (g / 2 ^ 52) (g mod 2 ^ 52) Hs H1 H2) as (Fb & Fs & Fe & Fm). rewrite <- Eg in *.
  assert (f64_is_nan (s * 2 ^ 63 + g) = false) as Hnan.
  { unfold f64_is_nan. rewrite Fe, Fm. destruct (Z.eqb_spec (g / 2 ^ 52) 2047); [|done]. cbn. apply negb_false_iff, Z.eqb_eq. lia. }
  split; [done|]. unfold f64_lt. rewrite Hnan. change (f64_is_nan (f64_zero 0)) with false. cbn [negb andb].
  assert (f64_key (s * 2 ^ 63 + g) = if n <? 0 then - g else g) as ->.
  { unfold f64_key. rewrite Fs. rewrite Z.add_comm, Z.mod_add, Z.mod_small by lia. subst s. by destruct (n <? 0). }
  change (f64_key (f64_zero 0)) with 0. destruct (Z.ltb_spec n 0), (Z.ltb_spec 0 n); lia.
Qed.

Lemma f64_int_trunc b : in_u 64 b -> f64_isfinite b = true -> f64_isfinite (f64_trunc b) = true /\ f64_int (f64_trunc b) = f64_int b.
Proof.
  intros Hb Hf. pose proof (f64_mant_bound b Hb) as Hmant. destruct (f64_fields b Hb) as (_ & Hs & He & _).
  destruct (decide (f64_exp b < 1023)) as [H1|H1]; [|destruct (decide (1075 <= f64_exp b)) as [H2|H2]].
  - assert (f64_trunc b = f64_zero (f64_sign b)) as -> by (unfold f64_trunc; by rewrite (proj2 (Z.ltb_lt _ _))).
    assert (f64_isfinite (f64_zero (f64_sign b)) = true /\ f64_int (f64_zero (f64_sign b)) = 0) as [-> ->].
    { assert (f64_sign b = 0 \/ f64_sign b = 1) as [-> | ->] by lia; by vm_compute. }
    split; [done|]. assert (-1074 <= f64_expo b < -52) as Hx by (unfold f64_expo; case_match; lia).
    unfold f64_int. rewrite (proj2 (Z.leb_gt 0 (f64_expo b))) by lia.
    assert (2 ^ 53 <= 2 ^ (- f64_expo b)) by (apply Z.pow_le_mono_r; lia).
    symmetry. apply Z.quot_small_iff; [lia|]. unfold f64_num; case_match; lia.
  - assert (f64_trunc b = b) as -> by (unfold f64_trunc; by rewrite (proj2 (Z.ltb_ge _ _)), (proj2 (Z.leb_le _ _)) by lia). done.
  - destruct (f64_trunc_fields b Hb ltac:(lia)) as (T1 & T2 & T3 & T4). split; [unfold f64_isfinite in *; by rewrite T3|].
    assert (f64_expo b = f64_exp b - 1075) as Ex by (unfold f64_expo; by rewrite (proj2 (Z.eqb_neq _ _)) by lia).
    assert (f64_expo (f64_trunc b) = f64_expo b) as Ex' by (unfold f64_expo; by rewrite T3).
    unfold f64_int. rewrite Ex', (proj2 (Z.leb_gt 0 (f64_expo b))) by lia. unfold f64_num. rewrite T2, T4.
    replace (1075 - f64_exp b) with (- f64_expo b) by lia. set (P := 2 ^ (- f64_expo b)). assert (0 < P) by (apply Z.pow_pos_nonneg; lia).
    assert (0 <= f64_mant b / P) by (apply Z.div_pos; lia).
    destruct (f64_sign b =? 0); rewrite ?Z.quot_opp_l by lia; rewrite Z.quot_mul, Z.quot_div_nonneg by lia; done.
Qed.

(** A double that is not NaN, against the integers of 128 bits. *)
Lemma f64_int_range b : in_u 64 b -> f64_exp b < 1150 \/ (f64_exp b = 1150 /\ f64_man b = 0 /\ f64_sign b = 1) -> - 2 ^ 127 <= f64_int b < 2 ^ 127.
Proof.
  intros Hb Hr. pose proof (f64_mant_bound b Hb) as Hm. destruct (f64_fields b Hb) as (_ & Hs & He & Hman).
  unfold f64_int. destruct (Z.leb_spec 0 (f64_expo b)) as [Hx|Hx].
  - assert (f64_expo b = f64_exp b - 1075) as Ex by (unfold f64_expo in *; case_match; lia).
    assert (1 <= 2 ^ f64_expo b) by (pose proof (Z.pow_pos_nonneg 2 (f64_expo b) ltac:(lia) Hx); lia).
    destruct Hr as [Hr|(Hr & Hz & H1)].
    + assert (2 ^ f64_expo b <= 2 ^ 74) by (apply Z.pow_le_mono_r; lia). unfold f64_num. case_match; nia.
    + unfold f64_num, f64_mant. rewrite H1, Ex, Hr, Hz. vm_compute. split; [discriminate|reflexivity].
  - assert (Z.abs (Z.quot (f64_num b) (2 ^ (- f64_expo b))) <= 2 ^ 53); [|lia].
    assert (0 < 2 ^ (- f64_expo b)) by (apply Z.pow_pos_nonneg; lia).
    rewrite <- Z.quot_abs by lia. apply Z.quot_le_upper_bound; [lia|]. unfold f64_num. case_match; nia.
Qed.

(** Doubles from 2^127 up, and below -2^127, and all others. *)
Lemma f64_beyond b n : in_u 64 b -> f64_is_nan b = false -> in_i 128 n ->
  (f64_lt b (1150 * 2 ^ 52) = false -> int_compare_f64 n b = Lt) /\
  (f64_lt b (f64_neg (1150 * 2 ^ 52)) = true -> int_compare_f64 n b = Gt) /\
  (f64_lt b (1150 * 2 ^ 52) = true -> f64_lt b (f64_neg (1150 * 2 ^ 52)) = false ->
   f64_exp b < 1150 \/ (f64_exp b = 1150 /\ f64_man b = 0 /\ f64_sign b = 1)).
Proof.
  intros Hb Hn Hi. destruct (f64_fields b Hb) as (E & Hs & He & Hm). unfold in_i in Hi. change (128 - 1) with 127 in Hi.
  assert (f64_key b = if f64_sign b =? 0 then f64_exp b * 2 ^ 52 + f64_man b else - (f64_exp b * 2 ^ 52 + f64_man b)) as Hk.
  { unfold f64_key. replace (b mod 2 ^ 63) with (f64_exp b * 2 ^ 52 + f64_man b); [done|].
    apply (Z.mod_unique _ _ (f64_sign b)); lia. }
  assert (1150 <= f64_exp b -> f64_exp b <> 2047 -> int_compare_f64 n b = (n ?= f64_num b * 2 ^ f64_expo b) /\ 2 ^ 127 <= f64_mant b * 2 ^ f64_expo b /\
          (f64_exp b * 2 ^ 52 + f64_man b <> 1150 * 2 ^ 52 -> 2 ^ 127 < f64_mant b * 2 ^ f64_expo b)) as Hbig.
  { intros H1 H2. assert (f64_expo b = f64_exp b - 1075) as Ex by (unfold f64_expo; by rewrite (proj2 (Z.eqb_neq _ _)) by lia).
    unfold int_compare_f64, f64_is_inf. rewrite (proj2 (Z.eqb_neq _ _) H2). cbn [andb]. rewrite (proj2 (Z.leb_le 0 _)) by lia.
    unfold f64_mant. rewrite (proj2 (Z.eqb_neq (f64_exp b) 0)) by lia. split; [done|].
    assert (2 ^ 75 <= 2 ^ f64_expo b) by (apply Z.pow_le_mono_r; lia). split; [nia|]. intros Hne.
    destruct (Z.eq_dec (f64_exp b) 1150) as [E0|]; [nia|].
    assert (2 ^ 76 <= 2 ^ f64_expo b) by (apply Z.pow_le_mono_r; lia). nia. }
  unfold f64_lt. rewrite Hn, Hk. change (f64_is_nan (1150 * 2 ^ 52)) with false. change (f64_is_nan (f64_neg (1150 * 2 ^ 52))) with false.
  change (f64_key (1150 * 2 ^ 52)) with (1150 * 2 ^ 52). change (f64_key (f64_neg (1150 * 2 ^ 52))) with (- (1150 * 2 ^ 52)). cbn [negb andb].
  assert (f64_exp b = 2047 -> f64_is_inf b = true) as Hinf.
  { intros H. unfold f64_is_inf, f64_is_nan in *. rewrite H in *. cbn in *. by destruct (f64_man b =? 0). }
  split; [|split].
  - intros H%Z.ltb_ge. destruct (Z.eqb_spec (f64_sign b) 0) as [E0|]; [|lia].
    destruct (Z.eq_dec (f64_exp b) 2047) as [Hx|Hx]; [unfold int_compare_f64; by rewrite Hinf, E0|].
    destruct (Hbig ltac:(lia) Hx) as (-> & H1 & _). unfold f64_num. rewrite E0, Z.eqb_refl. apply Z.compare_lt_iff. lia.
  - intros H%Z.ltb_lt. destruct (Z.eqb_spec (f64_sign b) 0) as [|E0]; [lia|].
    destruct (Z.eq_dec (f64_exp b) 2047) as [Hx|Hx]; [unfold int_compare_f64; by rewrite Hinf, (proj2 (Z.eqb_neq _ _) E0)|].
    destruct (Hbig ltac:(lia) Hx) as (-> & _ & H1). unfold f64_num. rewrite (proj2 (Z.eqb_neq _ _) E0). apply Z.compare_gt_iff. lia.
  - intros H1%Z.ltb_lt H2%Z.ltb_ge. destruct (Z.eqb_spec (f64_sign b) 0); lia.
Qed.

Section Fraction.
Context {U : FloatUnit}.

(** [number - std::trunc(number)] has the sign of what is after the point. *)
Lemma f64_fraction_sign b : in_u 64 b -> f64_isfinite b = true ->
  let d := f64_sub b (f64_trunc b) in
  f64_lt (f64_zero 0) d = (0 <? f64_rest b) /\ f64_lt d (f64_zero 0) = (f64_rest b <? 0).
Proof.
  intros Hb Hf d. unfold f64_isfinite in Hf. apply negb_true_iff, Z.eqb_neq in Hf.
  destruct (f64_fields b Hb) as (E & Hs & He & Hm). pose proof (f64_mant_bound b Hb) as Hmant.
  assert (in_u 64 (f64_trunc b) /\ f64_exp (f64_trunc b) <> 2047 /\ -1074 <= f64_expo (f64_trunc b) <= f64_expo b /\
          f64_num b * 2 ^ (f64_expo b - f64_expo (f64_trunc b)) - f64_num (f64_trunc b) =
          f64_rest b * 2 ^ (f64_expo b - f64_expo (f64_trunc b))) as (Ht & Hte & Hexp & Hrest).
  { destruct (decide (f64_exp b < 1023)) as [H1|H1]; [|destruct (decide (1075 <= f64_exp b)) as [H2|H2]].
    - assert (f64_trunc b = f64_zero (f64_sign b)) as -> by (unfold f64_trunc; by rewrite (proj2 (Z.ltb_lt _ _))).
      assert (f64_exp (f64_zero (f64_sign b)) = 0 /\ f64_num (f64_zero (f64_sign b)) = 0 /\ f64_expo (f64_zero (f64_sign b)) = -1074) as (Z1 & Z2 & Z3).
      { assert (f64_sign b = 0 \/ f64_sign b = 1) as [-> | ->] by lia; by vm_compute. }
      rewrite Z1, Z2, Z3. split; [by apply f64_zero_bound|]. split; [done|].
      assert (-1074 <= f64_expo b < -52) as Hx by (unfold f64_expo; case_match; lia). split; [lia|].
      unfold f64_rest. rewrite (proj2 (Z.leb_gt 0 (f64_expo b))) by lia. rewrite Z.sub_0_r. f_equal.
      assert (2 ^ 53 <= 2 ^ (- f64_expo b)) by (apply Z.pow_le_mono_r; lia).
      assert (Z.abs (f64_num b) < 2 ^ (- f64_expo b)) by (unfold f64_num; case_match; lia).
      symmetry. apply Z.rem_small_iff; [lia|]. lia.
    - assert (f64_trunc b = b) as -> by (unfold f64_trunc; by rewrite (proj2 (Z.ltb_ge _ _)), (proj2 (Z.leb_le _ _)) by lia).
      split; [done|]. split; [done|]. unfold f64_rest, f64_expo in *. rewrite (proj2 (Z.eqb_neq (f64_exp b) 0)) by lia.
      rewrite (proj2 (Z.leb_le 0 (f64_exp b - 1075))) by lia. rewrite Z.sub_diag. change (2 ^ 0) with 1. lia.
    - destruct (f64_trunc_fields b Hb ltac:(lia)) as (T1 & T2 & T3 & T4). split; [done|]. rewrite T3. split; [done|].
      assert (f64_expo (f64_trunc b) = f64_expo b) as -> by (unfold f64_expo; by rewrite T3).
      assert (f64_expo b = f64_exp b - 1075) as Ex by (unfold f64_expo; by rewrite (proj2 (Z.eqb_neq _ _)) by lia).
      split; [lia|]. rewrite Z.sub_diag. change (2 ^ 0) with 1. rewrite !Z.mul_1_r.
      unfold f64_rest. rewrite (proj2 (Z.leb_gt 0 (f64_expo b))) by lia. unfold f64_num. rewrite T2, T4.
      replace (1075 - f64_exp b) with (- f64_expo b) by lia. set (P := 2 ^ (- f64_expo b)). assert (0 < P) by (apply Z.pow_pos_nonneg; lia).
      pose proof (Z.div_mod (f64_mant b) P ltac:(lia)) as Edm.
      destruct (f64_sign b =? 0); rewrite ?Z.rem_opp_l, Z.rem_mod_nonneg by lia; lia. }
  destruct (f64_neg_num _ Ht) as [N1 N2]. destruct (f64_neg_fields _ Ht) as (_ & N3 & _).
  assert (d = f64_of_dyadic (if (f64_sign b =? 1) && (f64_sign (f64_neg (f64_trunc b)) =? 1) then 1 else 0)
                (f64_rest b * 2 ^ (f64_expo b - f64_expo (f64_trunc b))) (f64_expo (f64_trunc b))) as ->.
  { subst d. unfold f64_sub, f64_is_nan. rewrite (proj2 (Z.eqb_neq _ _) Hf), (proj2 (Z.eqb_neq _ _) Hte). cbn [andb orb].
    unfold add_numbers, f64_is_inf. rewrite N3, (proj2 (Z.eqb_neq _ _) Hf), (proj2 (Z.eqb_neq _ _) Hte). cbn [andb].
    rewrite N1, N2, Z.min_r, Z.sub_diag by lia. change (2 ^ 0) with 1. rewrite <- Hrest. f_equal. lia. }
  assert (0 < 2 ^ (f64_expo b - f64_expo (f64_trunc b))) as HP by (apply Z.pow_pos_nonneg; lia).
  set (P := 2 ^ (f64_expo b - f64_expo (f64_trunc b))) in *.
  destruct (f64_lt_dyadic (if (f64_sign b =? 1) && (f64_sign (f64_neg (f64_trunc b)) =? 1) then 1 else 0) (f64_rest b * P) (f64_expo (f64_trunc b))) as (_ & L1 & L2); [case_match; lia|lia|].
  rewrite L1, L2. split; [destruct (Z.ltb_spec 0 (f64_rest b * P)), (Z.ltb_spec 0 (f64_rest b))|destruct (Z.ltb_spec (f64_rest b * P) 0), (Z.ltb_spec (f64_rest b) 0)]; nia.
Qed.

End Fraction.

End Doubles.
