(* ===== verification/Columns.v ===== *)
(** * Column types and values (src/src/schema.cpp, include/chunkdb/schema.hpp)

    What one block holds: the types of columns, their values, the encoding of
    a value in a chunk, and the conversion of values when a column's type
    changes.  [__int128] numbers are integers without a bound: every number
    of an integer column lies far inside its range. *)
From stdpp Require Import prelude strings.
From Stdlib Require Import ZArith Lia.
From S2P Require Import Prelude Bits Utf8 Floats.

#[local] Open Scope Z_scope.

Module Columns.
Import Utf8 Floats.

Inductive ColumnKind :=
  kUnsigned | kSigned | kBool | kFloat32 | kFloat64 | kBits | kText | kBytes.
#[global] Instance ColumnKind_eq_dec : EqDecision ColumnKind.
Proof. solve_decision. Defined.

(** The enumerators' values. *)
Definition kind_code (k : ColumnKind) : Z :=
  match k with
  | kUnsigned => 1 | kSigned => 2 | kBool => 3 | kFloat32 => 4
  | kFloat64 => 5 | kBits => 6 | kText => 7 | kBytes => 8
  end.

Record ColumnType := { kind : ColumnKind; size : Z }.
#[global] Instance ColumnType_eq_dec : EqDecision ColumnType.
Proof. solve_decision. Defined.

Definition kMaxColumnsPerTable : Z := 1024.
Definition kMaxColumnNameBytes : Z := 63.
Definition kMaxFixedBitsPerBlock : Z := 65535.
Definition kMaxVariableValueBytes : Z := 16 * 1024 * 1024.
Definition kMaxSchemaVersions : Z := 65535.

Record Column := {
  id : Z;
  name : bytes;
  type : ColumnType;
  nullable : bool;
  required : bool;
  has_default : bool;
  default_value : bytes
}.
#[global] Instance Column_eq_dec : EqDecision Column.
Proof. solve_decision. Defined.

Inductive Conversion := kExact | kClamp | kDefault | kTruncate.
#[global] Instance Conversion_eq_dec : EqDecision Conversion.
Proof. solve_decision. Defined.
Definition conversion_code (c : Conversion) : Z :=
  match c with kExact => 0 | kClamp => 1 | kDefault => 2 | kTruncate => 3 end.

(** The alternatives of the variant; a float is its bit pattern, a bits value
    its characters. *)
Inductive ColumnValue :=
| VNull
| VUnsigned (n : Z)
| VSigned (n : Z)
| VBool (b : bool)
| VFloat (bits : Z)
| VDouble (bits : Z)
| VBits (digits : bytes)
| VText (text : bytes)
| VBytes (data : bytes).
#[global] Instance ColumnValue_eq_dec : EqDecision ColumnValue.
Proof. solve_decision. Defined.

Definition IsKnownKind (k : Z) : bool := (1 <=? k) && (k <=? 8).

Definition lower_or_underscore (c : Z) : bool := ((97 <=? c) && (c <=? 122)) || (c =? 95).

Definition IsValidName (name : bytes) : bool :=
  if (len name =? 0) || (kMaxColumnNameBytes <? len name) then false
  else if negb (lower_or_underscore (byte_at name 0)) then false
  else forallb (fun c => negb (negb (lower_or_underscore c) && negb ((48 <=? c) && (c <=? 57)))) name.

Definition ValidateColumnType (column : Column) : res unit :=
  let n := size (type column) in
  match kind (type column) with
  | kUnsigned => throw_if ((n <? 1) || (64 <? n)) (invalid_argument "uN takes N from 1 to 64")
  | kSigned => throw_if ((n <? 2) || (64 <? n)) (invalid_argument "iN takes N from 2 to 64")
  | kBool => throw_if (negb (n =? 1)) (invalid_argument "bool is 1 bit")
  | kFloat32 => throw_if (negb (n =? 32)) (invalid_argument "f32 is 32 bits")
  | kFloat64 => throw_if (negb (n =? 64)) (invalid_argument "f64 is 64 bits")
  | kBits => throw_if ((n <? 1) || (kMaxFixedBitsPerBlock <? n)) (invalid_argument "bits(N) takes N from 1 to")
  | kText | kBytes => throw_if ((n <? 1) || (kMaxVariableValueBytes <? n)) (invalid_argument "takes max from 1 to")
  end.

Definition IsFixedWidth (k : ColumnKind) : bool :=
  match k with kText | kBytes => false | _ => true end.

Definition FixedWidthBits (t : ColumnType) : Z := if IsFixedWidth (kind t) then size t else 0.

(** [(bits + 7) / 8]. *)
Definition BytesForWidth (bits : Z) : Z := (bits + 7) / 8.

Definition ValidateDefault (column : Column) : res unit :=
  if negb (has_default column) then
    throw_if (negb (len (default_value column) =? 0)) (invalid_argument "a default value without DEFAULT")
  else
    let value := default_value column in
    if IsFixedWidth (kind (type column)) then
      let bits := FixedWidthBits (type column) in
      _ ← throw_if (negb (len value =? BytesForWidth bits)) (invalid_argument "a default takes bytes");
      throw_if (negb (bits mod 8 =? 0) && negb (Z.shiftr (byte_at value (len value - 1)) (bits mod 8) =? 0))
        (invalid_argument "the default has bits past the type's width")
    else
      _ ← throw_if (size (type column) <? len value) (invalid_argument "the default is longer than");
      throw_if (bool_decide (kind (type column) = kText) && negb (IsUtf8 value))
        (invalid_argument "the default is not UTF-8").

(** ** Values of fixed width *)

(** The value of ValueOf<T> when [value] holds a [T]; the mismatch error. *)
Definition WrongType {A} : res A := Err (invalid_argument "column has another type").

Definition IsBitDigit (c : Z) : bool := (c =? 48) || (c =? 49).

(** The loop over the digits of a bits value. *)
Fixpoint EncodeDigits (i : Z) (digits : bytes) (out : bytes) : res bytes :=
  match digits with
  | [] => Ok out
  | c :: digits' =>
      _ ← throw_if (negb (c =? 48) && negb (c =? 49))
            (invalid_argument "a bits value holds only 0 and 1");
      EncodeDigits (i + 1) digits'
        (if c =? 49 then set_byte out (i / 8) (Z.lor (byte_at out (i / 8)) (u8 (Z.shiftl 1 (i mod 8))))
         else out)
  end.

(** The raw 64-bit value of an integer, bool or float. *)
Definition EncodeRaw (t : ColumnType) (value : ColumnValue) : res Z :=
  let width := FixedWidthBits t in
  match kind t with
  | kUnsigned =>
      match value with
      | VUnsigned raw =>
          _ ← throw_if ((width <? 64) && negb (Z.shiftr raw width =? 0)) (invalid_argument "is out of range");
          Ok raw
      | _ => WrongType
      end
  | kSigned =>
      match value with
      | VSigned n =>
          let max := Z.shiftl 1 (width - 1) - 1 in
          let min := - max - 1 in
          _ ← throw_if ((width <? 64) && ((n <? min) || (max <? n))) (invalid_argument "is out of range");
          Ok (u64 n)
      | _ => WrongType
      end
  | kBool => match value with VBool b => Ok (if b then 1 else 0) | _ => WrongType end
  | kFloat32 => match value with VFloat bits => Ok bits | _ => WrongType end
  | kFloat64 => match value with VDouble bits => Ok bits | _ => WrongType end
  | _ => Ok 0
  end.

(** The overload that writes to [bytes]; the result is the bytes written. *)
Definition EncodeColumnValueInto (column : Column) (value : ColumnValue) : res bytes :=
  let width := FixedWidthBits (type column) in
  _ ← throw_if (width =? 0) (invalid_argument "text and bytes columns are not supported yet");
  _ ← throw_if (bool_decide (value = VNull)) (invalid_argument "column cannot be NULL");
  let out := zeros (BytesForWidth width) in
  if bool_decide (kind (type column) = kBits) then
    match value with
    | VBits digits =>
        _ ← throw_if (negb (len digits =? width)) (invalid_argument "column has another type");
        EncodeDigits 0 digits out
    | _ => WrongType
    end
  else
    raw ← EncodeRaw (type column) value;
    let raw := if width <? 64 then Z.land raw (Z.shiftl 1 width - 1) else raw in
    let raw_bytes := Z.min (BytesForWidth width) 8 in
    Ok (le_bytes (Z.to_nat raw_bytes) raw ++ drop (Z.to_nat raw_bytes) out).

Definition EncodeColumnValue (column : Column) (value : ColumnValue) : res bytes :=
  _ ← ValidateColumnType column;
  EncodeColumnValueInto column value.

Definition DecodeColumnValue (column : Column) (data : bytes) : res ColumnValue :=
  let width := FixedWidthBits (type column) in
  if bool_decide (kind (type column) = kBits) then
    Ok (VBits (map (fun i => if negb (Z.land (Z.shiftr (byte_at data (i / 8)) (i mod 8)) 1 =? 0) then 49 else 48)
                 (seqZ 0 width)))
  else
    let raw_bytes := Z.min (BytesForWidth width) 8 in
    let raw := le_value (slice data 0 raw_bytes) in
    match kind (type column) with
    | kUnsigned => Ok (VUnsigned raw)
    | kSigned =>
        let raw := if (width <? 64) && negb (Z.land (Z.shiftr raw (width - 1)) 1 =? 0)
                   then Z.lor raw (u64 (Z.lnot (Z.shiftl 1 width - 1))) else raw in
        Ok (VSigned (i64 raw))
    | kBool => Ok (VBool (negb (raw =? 0)))
    | kFloat32 => Ok (VFloat (u32 raw))
    | kFloat64 => Ok (VDouble raw)
    | _ => Err (invalid_argument "text and bytes columns are not supported yet")
    end.

(** ** Values of variable length *)

Definition EncodeVarValue (column : Column) (value : ColumnValue) : res bytes :=
  _ ← throw_if (bool_decide (value = VNull)) (invalid_argument "column cannot be NULL");
  out ← match kind (type column) with
        | kText =>
            match value with
            | VText text =>
                _ ← throw_if (negb (IsUtf8 text)) (invalid_argument "the text is not UTF-8"); Ok text
            | _ => WrongType
            end
        | kBytes => match value with VBytes data => Ok data | _ => WrongType end
        | _ => Err (invalid_argument "column is not text or bytes")
        end;
  _ ← throw_if (size (type column) <? len out) (invalid_argument "bytes are too long");
  Ok out.

Definition DecodeVarValue (column : Column) (data : bytes) : ColumnValue :=
  if bool_decide (kind (type column) = kText) then VText data else VBytes data.

(** ** Conversions *)

Inductive Family := FInteger | FFloat | FBool | FBits | FText | FBytes.
#[global] Instance Family_eq_dec : EqDecision Family.
Proof. solve_decision. Defined.

Definition FamilyOf (k : ColumnKind) : Family :=
  match k with
  | kUnsigned | kSigned => FInteger
  | kFloat32 | kFloat64 => FFloat
  | kBool => FBool
  | kBits => FBits
  | kText => FText
  | kBytes => FBytes
  end.

Definition Widens (from to : ColumnType) : bool :=
  match kind from, kind to with
  | kUnsigned, kSigned => size from <? size to
  | kSigned, kUnsigned => false
  | kFloat32, _ => true
  | kFloat64, kFloat64 => true
  | kFloat64, _ => false
  | _, _ => size from <=? size to
  end.

(** [std::get] of an alternative the value does not hold throws. *)
Definition bad_variant_access {A} : res A := Err (runtime_error "bad_variant_access").

Definition IntegerOf (value : ColumnValue) : res Z :=
  match value with VUnsigned n => Ok n | VSigned n => Ok n | _ => bad_variant_access end.

Definition RangeOf (t : ColumnType) : Z * Z :=
  match kind t with
  | kUnsigned => (0, Z.shiftl 1 (size t) - 1)
  | _ => let half := Z.shiftl 1 (size t - 1) in (- half, half - 1)
  end.

Definition IntegerValue (t : ColumnType) (number : Z) : ColumnValue :=
  match kind t with kUnsigned => VUnsigned (u64 number) | _ => VSigned (i64 number) end.

Definition FloatOf (value : ColumnValue) : res Z :=
  match value with
  | VFloat f => Ok (float_to_double f)
  | VDouble d => Ok d
  | _ => bad_variant_access
  end.

Definition FloatValue (t : ColumnType) (number : Z) : ColumnValue :=
  match kind t with kFloat32 => VFloat (double_to_float number) | _ => VDouble number end.

Definition BytesOf (value : ColumnValue) : res bytes :=
  match value with VText b => Ok b | VBytes b => Ok b | _ => bad_variant_access end.

Definition VarValue (t : ColumnType) (data : bytes) : ColumnValue :=
  match kind t with kText => VText data | _ => VBytes data end.

(** [digits.resize(n, '0')]; without a fill character the new ones are NUL,
    which only a longer size would show. *)
Definition resize (l : bytes) (n : Z) (fill : Z) : bytes :=
  take (Z.to_nat n) l ++ replicate (Z.to_nat n - length l) fill.

(** [digits.find('1', from) != npos]. *)
Definition find_one_from (digits : bytes) (from : Z) : bool :=
  existsb (fun c => c =? 49) (drop (Z.to_nat from) digits).

Definition Fit (to : ColumnType) (value : ColumnValue) : res (option ColumnValue) :=
  match FamilyOf (kind to) with
  | FInteger =>
      number ← IntegerOf value;
      let '(low, high) := RangeOf to in
      if (number <? low) || (high <? number) then Ok None else Ok (Some (IntegerValue to number))
  | FFloat =>
      number ← FloatOf value;
      if bool_decide (kind to = kFloat32) && f64_isfinite number && f64_lt float_max (f64_fabs number)
      then Ok None else Ok (Some (FloatValue to number))
  | FBool => Ok (Some value)
  | FBits =>
      match value with
      | VBits digits =>
          if len digits <=? size to then Ok (Some (VBits (resize digits (size to) 48)))
          else if find_one_from digits (size to) then Ok None
          else Ok (Some (VBits (resize digits (size to) 0)))
      | _ => bad_variant_access
      end
  | FText | FBytes =>
      data ← BytesOf value;
      if size to <? len data then Ok None else Ok (Some (VarValue to data))
  end.

Definition FallbackOf (column : Column) : res ColumnValue :=
  if has_default column then
    if IsFixedWidth (kind (type column)) then DecodeColumnValue column (default_value column)
    else Ok (DecodeVarValue column (default_value column))
  else if nullable column then Ok VNull
  else
    Ok match FamilyOf (kind (type column)) with
       | FInteger => IntegerValue (type column) 0
       | FFloat => FloatValue (type column) 0
       | FBool => VBool false
       | FBits => VBits (replicate (Z.to_nat (size (type column))) 48)
       | FText | FBytes => VarValue (type column) []
       end.

Definition Clamp (to : ColumnType) (value : ColumnValue) : res ColumnValue :=
  if bool_decide (FamilyOf (kind to) = FInteger) then
    number ← IntegerOf value;
    let '(low, high) := RangeOf to in
    Ok (IntegerValue to (if number <? low then low else if high <? number then high else number))
  else
    number ← FloatOf value;
    Ok (FloatValue to (f64_clamp number (f64_neg float_max) float_max)).

(** [while (keep > 0 && (bytes[keep] & 0xC0U) == 0x80U) --keep]. *)
Fixpoint TruncateKeep (data : bytes) (keep : nat) : nat :=
  match keep with
  | O => O
  | S keep' => if Z.land (nth keep data 0) 0xC0 =? 0x80 then TruncateKeep data keep' else keep
  end.

Definition Truncate (to : ColumnType) (value : ColumnValue) : res ColumnValue :=
  if bool_decide (kind to = kBits) then
    match value with
    | VBits digits => Ok (VBits (resize digits (size to) 0))
    | _ => bad_variant_access
    end
  else
    data ← BytesOf value;
    let keep := Z.to_nat (size to) in
    let keep := if bool_decide (kind to = kText) then TruncateKeep data keep else keep in
    Ok (VarValue to (resize data (Z.of_nat keep) 0)).

Definition TakesConversion (family : Family) (conversion : Conversion) : bool :=
  match conversion with
  | kExact | kDefault => true
  | kClamp => bool_decide (family = FInteger) || bool_decide (family = FFloat)
  | kTruncate => bool_decide (family = FText) || bool_decide (family = FBytes) || bool_decide (family = FBits)
  end.

Definition HoldsEveryValue (from to : ColumnType) : bool :=
  bool_decide (FamilyOf (kind from) = FamilyOf (kind to)) && Widens from to.

Definition ConvertValue (from to : Column) (conversion : Conversion) (value : ColumnValue) : res ColumnValue :=
  if bool_decide (value = VNull) then Ok value
  else
    fitted ← Fit (type to) value;
    match fitted with
    | Some v => Ok v
    | None =>
        match conversion with
        | kExact => Err (logic_error "a value does not fit")
        | kClamp => Clamp (type to) value
        | kDefault => FallbackOf to
        | kTruncate => Truncate (type to) value
        end
    end.

Definition ValueFits (t : ColumnType) (value : ColumnValue) : res bool :=
  if bool_decide (value = VNull) then Ok true
  else fitted ← Fit t value; Ok match fitted with Some _ => true | None => false end.

(** ** The values of a type *)

(** The values a column type holds. *)
Definition holds (t : ColumnType) (v : ColumnValue) : Prop :=
  match kind t, v with
  | kUnsigned, VUnsigned n => 0 <= n < 2 ^ size t
  | kSigned, VSigned n => - 2 ^ (size t - 1) <= n < 2 ^ (size t - 1)
  | kBool, VBool _ => True
  | kFloat32, VFloat b => in_u 32 b
  | kFloat64, VDouble b => in_u 64 b
  | kBits, VBits ds => len ds = size t /\ Forall (fun c => c = 48 \/ c = 49) ds
  | kText, VText b => bytes_ok b /\ IsUtf8 b = true /\ len b <= size t
  | kBytes, VBytes b => bytes_ok b /\ len b <= size t
  | _, _ => False
  end.

(** What the C++ type of each alternative can hold. *)
Definition representable (v : ColumnValue) : Prop :=
  match v with
  | VUnsigned n => in_u 64 n
  | VSigned n => in_i 64 n
  | VFloat b => in_u 32 b
  | VDouble b => in_u 64 b
  | VBits ds => bytes_ok ds
  | VText b | VBytes b => bytes_ok b
  | VNull | VBool _ => True
  end.

(** Sizes in the range of the kind, as ValidateColumnType requires. *)
Definition type_ok (t : ColumnType) : Prop :=
  match kind t with
  | kUnsigned => 1 <= size t <= 64
  | kSigned => 2 <= size t <= 64
  | kBool => size t = 1
  | kFloat32 => size t = 32
  | kFloat64 => size t = 64
  | kBits => 1 <= size t <= kMaxFixedBitsPerBlock
  | kText | kBytes => 1 <= size t <= kMaxVariableValueBytes
  end.

Lemma ValidateColumnType_ok c : ValidateColumnType c = Ok tt <-> type_ok (type c).
Proof.
  unfold ValidateColumnType, type_ok. destruct (kind (type c)); rewrite throw_if_ok;
    rewrite ?orb_false_iff, ?Z.ltb_ge, ?negb_false_iff, ?Z.eqb_eq; done.
Qed.

(** No bit past the width is set. *)
Definition padding_clear (width : Z) (b : bytes) : Prop :=
  forall i, width <= i < 8 * len b -> bit_at b i = false.

Lemma BytesForWidth_bounds w : 0 <= w -> w <= 8 * BytesForWidth w < w + 8.
Proof.
  intros Hw. unfold BytesForWidth. pose proof (Z.div_mod (w + 7) 8 ltac:(lia)).
  pose proof (Z.mod_pos_bound (w + 7) 8 ltac:(lia)). lia.
Qed.

Lemma land_mask raw w : 0 <= w -> Z.land raw (Z.shiftl 1 w - 1) = raw mod 2 ^ w.
Proof.
  intros Hw. rewrite Z.shiftl_1_l. change (2 ^ w - 1) with (Z.pred (2 ^ w)).
  rewrite <- Z.land_ones by done. f_equal. by rewrite Z.ones_equiv.
Qed.

(** The bytes of a masked raw value, read back. *)
Lemma raw_roundtrip w raw : 1 <= w <= 64 -> in_u w raw ->
  let b := le_bytes (Z.to_nat (Z.min (BytesForWidth w) 8)) raw ++
           drop (Z.to_nat (Z.min (BytesForWidth w) 8)) (zeros (BytesForWidth w)) in
  len b = BytesForWidth w /\ bytes_ok b /\ padding_clear w b /\
  le_value (slice b 0 (Z.min (BytesForWidth w) 8)) = raw.
Proof.
  intros Hw Hraw. pose proof (BytesForWidth_bounds w ltac:(lia)) as HB. cbv zeta.
  rewrite Z.min_l by lia.
  assert (drop (Z.to_nat (BytesForWidth w)) (zeros (BytesForWidth w)) = []) as ->.
  { apply drop_ge. unfold zeros. by rewrite length_replicate. }
  rewrite app_nil_r.
  assert (len (le_bytes (Z.to_nat (BytesForWidth w)) raw) = BytesForWidth w) as Hl
    by (rewrite length_le_bytes; lia).
  assert (le_value (le_bytes (Z.to_nat (BytesForWidth w)) raw) = raw) as Hv.
  { apply le_value_le_bytes. unfold in_u in *. rewrite Z2Nat.id by lia. split; [lia|].
    eapply Z.lt_le_trans; [apply Hraw|]. apply Z.pow_le_mono_r; lia. }
  split; [done|]. split; [apply bytes_ok_le_bytes|]. split.
  - intros i Hi. rewrite bit_at_le_value by (apply bytes_ok_le_bytes || lia). rewrite Hv.
    apply (testbit_above w); [done|lia].
  - by rewrite slice_all.
Qed.

Lemma EncodeRaw_holds t v : type_ok t -> holds t v -> kind t <> kBits -> IsFixedWidth (kind t) = true ->
  exists raw, EncodeRaw t v = Ok raw /\
    (if FixedWidthBits t <? 64 then Z.land raw (Z.shiftl 1 (FixedWidthBits t) - 1) else raw)
    = match v with
      | VUnsigned n | VFloat n | VDouble n => n
      | VSigned n => n mod 2 ^ size t
      | VBool b => if b then 1 else 0
      | _ => 0
      end.
Proof.
  intros Ht Hv Hb Hfix. unfold FixedWidthBits. rewrite Hfix. unfold EncodeRaw, FixedWidthBits. rewrite Hfix.
  unfold type_ok, holds in *. destruct (kind t) eqn:Ek; try done; destruct v; try done.
  - eexists. rewrite Z.shiftr_div_pow2, Z.div_small by lia. rewrite andb_false_r. split; [done|].
    case_match eqn:E64; [|done]. rewrite land_mask by lia. apply Z.mod_small. lia.
  - eexists. cbv zeta. rewrite Z.shiftl_1_l.
    rewrite throw_if_false.
    + split; [done|]. case_match eqn:E64.
      * rewrite land_mask by lia. unfold wrap. apply Z.ltb_lt in E64.
        rewrite Z.mod_mod_divide; [done|].
        exists (2 ^ (64 - size t)). rewrite <- Z.pow_add_r by lia. f_equal. lia.
      * apply Z.ltb_ge in E64. replace (size t) with 64 by lia. done.
    + apply andb_false_iff. right. apply orb_false_iff. rewrite !Z.ltb_ge. lia.
  - eexists. split; [done|]. rewrite Ht. by destruct b.
  - eexists. split; [done|]. rewrite Ht. change (32 <? 64) with true. cbv iota.
    rewrite land_mask by lia. by apply Z.mod_small.
  - eexists. split; [done|]. by rewrite Ht.
Qed.

(** Sign extension of a two's complement number of [w] bits. *)
Lemma sign_extend w n : 2 <= w <= 64 -> - 2 ^ (w - 1) <= n < 2 ^ (w - 1) ->
  let raw := n mod 2 ^ w in
  i64 (if (w <? 64) && negb (Z.land (Z.shiftr raw (w - 1)) 1 =? 0)
       then Z.lor raw (u64 (Z.lnot (Z.shiftl 1 w - 1))) else raw) = n.
Proof.
  intros Hw Hn. cbv zeta. pose proof (pow2_split w ltac:(lia)) as Hp.
  assert (0 < 2 ^ (w - 1)) as Hpos by (apply Z.pow_pos_nonneg; lia).
  assert (2 ^ w <= 2 ^ 64) as Hle by (apply Z.pow_le_mono_r; lia).
  rewrite shiftr_land_1, negb_involutive by lia.
  assert (Z.testbit (n mod 2 ^ w) (w - 1) = (n <? 0)) as Hsign.
  { rewrite Z.testbit_eqb by lia. destruct (Z.ltb_spec n 0) as [Hneg|Hge].
    - replace (n mod 2 ^ w) with (n + 2 ^ w) by (apply (Z.mod_unique _ _ (-1)); lia).
      replace ((n + 2 ^ w) / 2 ^ (w - 1)) with 1; [done|]. apply (Z.div_unique _ _ _ (n + 2 ^ (w - 1))); lia.
    - rewrite (Z.mod_small n) by lia. by rewrite Z.div_small by lia. }
  rewrite Hsign. destruct (Z.ltb_spec w 64) as [H64|H64]; cbn [andb].
  - destruct (Z.ltb_spec n 0) as [Hneg|Hge].
    + assert (u64 (Z.lnot (Z.shiftl 1 w - 1)) = 2 ^ 64 - 2 ^ w) as ->.
      { rewrite Z.shiftl_1_l. unfold wrap, Z.lnot. symmetry. apply (Z.mod_unique _ _ (-1)); lia. }
      replace (n mod 2 ^ w) with (n + 2 ^ w) by (apply (Z.mod_unique _ _ (-1)); lia).
      assert (Z.land (n + 2 ^ w) (2 ^ 64 - 2 ^ w) = 0) as Hd.
      { replace (2 ^ 64 - 2 ^ w) with (Z.shiftl (2 ^ (64 - w) - 1) w).
        - bitwise i. destruct (decide (i < w)); [by rewrite (Z.testbit_neg_r _ (i - w)), andb_false_r by lia|].
          rewrite (testbit_above w (n + 2 ^ w)) by (unfold in_u; lia). done.
        - rewrite Z.shiftl_mul_pow2, Z.mul_sub_distr_r, <- Z.pow_add_r by lia.
          replace (64 - w + w) with 64 by lia. lia. }
      rewrite <- Z.lxor_lor, <- Z.add_nocarry_lxor by done.
      unfold signed. replace (n + 2 ^ w + (2 ^ 64 - 2 ^ w)) with (n + 1 * 2 ^ 64) by lia.
      rewrite Z.mod_add by lia. replace (n mod 2 ^ 64) with (n + 2 ^ 64) by (apply (Z.mod_unique _ _ (-1)); lia).
      assert (2 ^ (w - 1) <= 2 ^ 63) by (apply Z.pow_le_mono_r; lia).
      rewrite (proj2 (Z.ltb_ge _ _)) by (change (64 - 1) with 63; lia). lia.
    + rewrite (Z.mod_small n) by lia. assert (2 ^ (w - 1) <= 2 ^ 63) by (apply Z.pow_le_mono_r; lia).
      unfold signed. rewrite Z.mod_small by lia. by rewrite (proj2 (Z.ltb_lt _ _)) by (change (64 - 1) with 63; lia).
  - replace w with 64 in * by lia. apply (signed_wrap 64); [lia|]. unfold in_i. change (64 - 1) with 63 in *. lia.
Qed.

(** ** Bits values *)

Lemma lor_mask_set_bit out i : bytes_ok out ->
  set_byte out (i / 8) (Z.lor (byte_at out (i / 8)) (u8 (Z.shiftl 1 (i mod 8)))) = set_bit out i true.
Proof.
  intros Ho. unfold set_bit. f_equal. rewrite (wrap_small 8 (Z.lor _ _)); [done|].
  apply lor_bound; [lia|by apply byte_at_ok|]. by apply (wrap_bound 8).
Qed.

(** The digits written over clear bits, from bit [i]. *)
Lemma EncodeDigits_spec i digits out :
  bytes_ok out -> 0 <= i -> i + len digits <= 8 * len out -> Forall (fun c => c = 48 \/ c = 49) digits ->
  exists b, EncodeDigits i digits out = Ok b /\ bytes_ok b /\ length b = length out /\
    (forall j, 0 <= j -> bit_at b j
       = if (i <=? j) && (j <? i + len digits) then bit_at out j || (byte_at digits (j - i) =? 49)
         else bit_at out j).
Proof.
  intros Ho Hi Hl Hd. revert i out Ho Hi Hl; induction Hd as [|c digits Hc Hd IH]; intros i out Ho Hi Hl.
  - exists out. split; [done|]. split; [done|]. split; [done|]. intros j Hj. cbn [length].
    destruct (Z.leb_spec i j), (Z.ltb_spec j (i + Z.of_nat 0)); done || lia.
  - cbn [EncodeDigits]. rewrite throw_if_false by (destruct Hc as [-> | ->]; done). rewrite bind_Ok_l.
    simpl length in Hl. rewrite lor_mask_set_bit by done.
    set (out' := if c =? 49 then set_bit out i true else out).
    assert (bytes_ok out' /\ length out' = length out) as [Ho' Hl'].
    { subst out'. case_match; [|done]. split; [by apply bytes_ok_set_bit|apply length_set_bit]. }
    destruct (IH (i + 1) out' Ho' ltac:(lia) ltac:(lia)) as (b & -> & Hb & Hbl & Hbits).
    exists b. split; [done|]. split; [done|]. split; [lia|]. intros j Hj. rewrite Hbits by done.
    assert (bit_at out' j = if i =? j then bit_at out j || (c =? 49) else bit_at out j) as ->.
    { subst out'. destruct (c =? 49).
      - rewrite bit_at_set_bit by lia. case_match; [by rewrite orb_true_r|done].
      - case_match; [by rewrite orb_false_r|done]. }
    cbn [length].
    destruct (Z.leb_spec (i + 1) j), (Z.ltb_spec j (i + 1 + len digits)), (Z.leb_spec i j),
      (Z.ltb_spec j (i + Z.of_nat (S (length digits)))), (Z.eqb_spec i j); simpl; try lia; try done.
    + do 2 f_equal. unfold byte_at. by replace (Z.to_nat (j - i)) with (S (Z.to_nat (j - (i + 1)))) by lia.
    + subst. by rewrite Z.sub_diag.
Qed.

Lemma DecodeDigits_spec data w :
  map (fun i => if negb (Z.land (Z.shiftr (byte_at data (i / 8)) (i mod 8)) 1 =? 0) then 49 else 48) (seqZ 0 w)
  = map (fun i => if bit_at data i then 49 else 48) (seqZ 0 w).
Proof.
  apply map_ext. intros i. unfold bit_at. pose proof (Z.mod_pos_bound i 8 ltac:(lia)).
  by rewrite shiftr_land_1, negb_involutive by lia.
Qed.

Lemma bits_roundtrip w digits : 1 <= w -> len digits = w -> Forall (fun c => c = 48 \/ c = 49) digits ->
  exists b, EncodeDigits 0 digits (zeros (BytesForWidth w)) = Ok b /\ len b = BytesForWidth w /\
    bytes_ok b /\ padding_clear w b /\
    map (fun i => if bit_at b i then 49 else 48) (seqZ 0 w) = digits.
Proof.
  intros Hw Hl Hd. pose proof (BytesForWidth_bounds w ltac:(lia)) as HB.
  destruct (EncodeDigits_spec 0 digits (zeros (BytesForWidth w))) as (b & -> & Hb & Hbl & Hbits);
    [apply bytes_ok_zeros|lia|rewrite len_zeros; lia|done|].
  assert (len b = BytesForWidth w) as Hlb by (rewrite Hbl, len_zeros; lia).
  exists b. split; [done|]. split; [done|]. split; [done|]. split.
  - intros i Hi. rewrite Hbits, bit_at_zeros by lia. rewrite (proj2 (Z.ltb_ge _ _)) by lia. by rewrite andb_false_r.
  - apply list_eq. intros k. rewrite list_lookup_fmap.
    destruct (digits !! k) as [c|] eqn:Ek.
    + apply lookup_lt_Some in Ek as Hk. rewrite lookup_seqZ_lt by lia. cbn. f_equal.
      rewrite Hbits, bit_at_zeros by lia. rewrite (proj2 (Z.leb_le _ _)), (proj2 (Z.ltb_lt _ _)) by lia. cbn [andb orb].
      rewrite byte_at_lookup. replace (Z.to_nat (0 + Z.of_nat k - 0)) with k by lia. rewrite Ek. cbn.
      pose proof (Forall_lookup_1 _ _ _ _ Hd Ek) as [-> | ->]; done.
    + apply lookup_ge_None in Ek. rewrite lookup_seqZ_ge by lia. done.
Qed.

(** ** The encoding of a value *)

Lemma EncodeColumnValue_holds c v : type_ok (type c) -> IsFixedWidth (kind (type c)) = true ->
  holds (type c) v ->
  exists b, EncodeColumnValue c v = Ok b /\ len b = BytesForWidth (FixedWidthBits (type c)) /\ bytes_ok b /\
    padding_clear (FixedWidthBits (type c)) b /\ DecodeColumnValue c b = Ok v.
Proof.
  intros Ht Hfix Hv. unfold EncodeColumnValue. rewrite (proj2 (ValidateColumnType_ok c) Ht), bind_Ok_l.
  unfold EncodeColumnValueInto, DecodeColumnValue.
  assert (1 <= FixedWidthBits (type c)) as Hw.
  { unfold FixedWidthBits. rewrite Hfix. unfold type_ok in Ht. destruct (kind (type c)); lia. }
  rewrite (throw_if_false (FixedWidthBits (type c) =? 0)), bind_Ok_l by (apply Z.eqb_neq; lia).
  assert (v <> VNull) as Hnn by (intros ->; unfold holds in Hv; by destruct (kind (type c))).
  rewrite (bool_decide_false (v = VNull)) by done. cbn [throw_if]. rewrite bind_Ok_l. cbv zeta.
  case_bool_decide as Ek.
  - unfold holds in Hv. rewrite Ek in Hv. destruct v; try done. destruct Hv as [Hl Hd].
    assert (FixedWidthBits (type c) = size (type c)) as Ew by (unfold FixedWidthBits; by rewrite Ek).
    rewrite Ew in *. rewrite throw_if_false by (by apply negb_false_iff, Z.eqb_eq). rewrite bind_Ok_l.
    destruct (bits_roundtrip (size (type c)) digits Hw Hl Hd) as (b & -> & ? & ? & ? & Hdec).
    exists b. by rewrite DecodeDigits_spec, Hdec.
  - destruct (EncodeRaw_holds (type c) v Ht Hv Ek Hfix) as (raw & -> & Hraw). rewrite bind_Ok_l.
    rewrite Hraw. set (w := FixedWidthBits (type c)) in *.
    assert (w = size (type c)) as Ew by (subst w; unfold FixedWidthBits; by rewrite Hfix).
    assert (w <= 64) as Hw64.
    { rewrite Ew. unfold type_ok in Ht. destruct (kind (type c)) eqn:E; try done; try lia. }
    match goal with |- context [le_bytes _ ?m] => set (masked := m) in * end.
    assert (in_u w masked) as Hm.
    { subst masked. rewrite Ew. unfold holds, type_ok in *. unfold in_u.
      destruct (kind (type c)); try done; destruct v; try done.
      - apply Z.mod_pos_bound. apply Z.pow_pos_nonneg; lia.
      - rewrite Ht. destruct b; lia.
      - by rewrite Ht.
      - by rewrite Ht. }
    destruct (raw_roundtrip w masked ltac:(lia) Hm) as (Hl & Hb & Hpad & Hdec).
    eexists. split; [done|]. split; [done|]. split; [done|]. split; [done|]. rewrite Hdec.
    subst masked. rewrite Ew in *. unfold holds, type_ok in *.
    destruct (kind (type c)) eqn:E; try done; destruct v; try done.
    + do 2 f_equal. by apply sign_extend.
    + by destruct b.
    + do 2 f_equal. by apply wrap_small.
Qed.

(** Only values the type holds are encoded. *)
Lemma EncodeColumnValue_only c v b : representable v -> EncodeColumnValue c v = Ok b ->
  type_ok (type c) /\ IsFixedWidth (kind (type c)) = true /\ holds (type c) v.
Proof.
  intros Hr H. unfold EncodeColumnValue in H. res_inv. destruct a. apply ValidateColumnType_ok in Hs as Ht.
  split; [done|]. unfold EncodeColumnValueInto in H. cbv zeta in H. res_inv.
  assert (IsFixedWidth (kind (type c)) = true) as Hfix.
  { unfold FixedWidthBits in Hs0. by destruct (IsFixedWidth (kind (type c))). }
  split; [done|]. unfold FixedWidthBits in H. rewrite Hfix in H. unfold holds.
  case_bool_decide as Ek.
  - rewrite Ek. destruct v; try done. res_inv. apply negb_false_iff, Z.eqb_eq in Hs2. split; [done|].
    clear - H. revert H. generalize 0 (zeros (BytesForWidth (size (type c)))).
    induction digits as [|d digits IH]; intros i out H; constructor.
    + cbn [EncodeDigits] in H. res_inv.
      apply andb_false_iff in Hs as [Hs|Hs]; apply negb_false_iff, Z.eqb_eq in Hs; auto.
    + cbn [EncodeDigits] in H. res_inv. by eapply IH.
  - res_inv. unfold EncodeRaw, FixedWidthBits in Hs2. rewrite Hfix in Hs2. unfold type_ok in Ht.
    destruct (kind (type c)) eqn:E; try done; destruct v; try done; res_inv; cbn in Hr.
    + unfold in_u in Hr. apply andb_false_iff in Hs3 as [Hw|Hsh].
      * apply Z.ltb_ge in Hw. replace (size (type c)) with 64 by lia. lia.
      * apply negb_false_iff, Z.eqb_eq in Hsh. rewrite Z.shiftr_div_pow2 in Hsh by lia.
        split; [lia|]. apply Z.div_small_iff in Hsh; [|apply Z.pow_nonzero; lia].
        pose proof (Z.pow_pos_nonneg 2 (size (type c))). lia.
    + unfold in_i in Hr. apply andb_false_iff in Hs3 as [Hw|Hrg].
      * apply Z.ltb_ge in Hw. replace (size (type c)) with 64 by lia. done.
      * rewrite Z.shiftl_1_l in Hrg. apply orb_false_iff in Hrg as [H1 H2].
        apply Z.ltb_ge in H1. apply Z.ltb_ge in H2. lia.
Qed.

(** Any bytes of the right size hold a value of the type. *)
Lemma DecodeColumnValue_holds c data : type_ok (type c) -> IsFixedWidth (kind (type c)) = true ->
  bytes_ok data -> len data = BytesForWidth (FixedWidthBits (type c)) ->
  padding_clear (FixedWidthBits (type c)) data ->
  exists v, DecodeColumnValue c data = Ok v /\ holds (type c) v.
Proof.
  intros Ht Hfix Hb Hl Hpad. unfold DecodeColumnValue. cbv zeta.
  assert (FixedWidthBits (type c) = size (type c)) as Ew by (unfold FixedWidthBits; by rewrite Hfix).
  rewrite Ew in *. case_bool_decide as Ek.
  - eexists. split; [done|]. rewrite DecodeDigits_spec. unfold holds, type_ok in *. rewrite Ek in *. split.
    + rewrite length_map, length_seqZ. lia.
    + apply Forall_forall. intros x Hx. apply list_elem_of_fmap in Hx as (i & -> & _). case_match; auto.
  - assert (1 <= size (type c) <= 64) as Hw.
    { unfold type_ok in Ht. destruct (kind (type c)); try done; lia. }
    pose proof (BytesForWidth_bounds (size (type c)) ltac:(lia)).
    rewrite Z.min_l, slice_all by lia.
    assert (in_u (size (type c)) (le_value data)) as Hv.
    { apply in_u_bits; [lia|pose proof (le_value_bound data Hb) as B; apply B|]. intros i Hi.
      rewrite <- bit_at_le_value by (done || lia).
      destruct (decide (i < 8 * len data)); [by apply Hpad|by apply bit_at_beyond; lia]. }
    unfold holds, type_ok in *. destruct (kind (type c)) eqn:E; try done; eexists; (split; [done|]); try done.
    + cbv zeta. set (w := size (type c)) in *.
      set (n := if le_value data <? 2 ^ (w - 1) then le_value data else le_value data - 2 ^ w).
      pose proof (pow2_split w ltac:(lia)). unfold in_u in Hv.
      assert (- 2 ^ (w - 1) <= n < 2 ^ (w - 1)) as Hn by (subst n; case_match; lia).
      assert (n mod 2 ^ w = le_value data) as En.
      { subst n. case_match; [by apply Z.mod_small|]. symmetry. apply (Z.mod_unique _ _ (-1)); lia. }
      rewrite <- En. pose proof (sign_extend w n ltac:(lia) Hn) as Hse. cbv zeta in Hse. by rewrite Hse.
    + by apply (wrap_bound 32).
    + by rewrite Ht in Hv.
Qed.

(** ** Truncation of text *)

Lemma byte_ok_tail x : byte_ok (tail_byte x).
Proof. pose proof (tail_byte_bound x). unfold byte_ok. lia. Qed.

Lemma encode_scalar_ok c : scalar c -> bytes_ok (encode_scalar c).
Proof.
  intros Hc. unfold encode_scalar, scalar, bytes_ok in *.
  destruct (Z.ltb_spec c 0x80); [|destruct (Z.ltb_spec c 0x800); [|destruct (Z.ltb_spec c 0x10000)]];
    rewrite !Forall_cons; split_and!; try apply byte_ok_tail; try constructor; try lia.
  all: pose proof (Z.div_pos c 64); pose proof (Z.div_pos c 4096); pose proof (Z.div_pos c 262144);
    pose proof (Z.div_lt_upper_bound c 64 32); pose proof (Z.div_lt_upper_bound c 4096 16);
    pose proof (Z.div_lt_upper_bound c 262144 5); lia.
Qed.

(** Only the first byte of an encoded scalar value is not a continuation. *)
Lemma encode_scalar_lead c k : scalar c -> (k < length (encode_scalar c))%nat ->
  (Z.land (nth k (encode_scalar c) 0) 0xC0 =? 0x80) = negb (k =? 0)%nat.
Proof.
  intros Hc Hk. pose proof (encode_scalar_ok c Hc) as Hok.
  assert (byte_ok (nth k (encode_scalar c) 0)) as Hb.
  { rewrite nth_lookup. destruct (lookup_lt_is_Some_2 _ _ Hk) as [b E]. rewrite E. cbn.
    exact (Forall_lookup_1 _ _ _ _ Hok E). }
  assert (0x80 <= nth k (encode_scalar c) 0 <= 0xBF <-> k <> 0%nat) as Hiff.
  { unfold encode_scalar, scalar in *. pose proof (tail_byte_bound c). pose proof (tail_byte_bound (c / 64)).
    pose proof (tail_byte_bound (c / 4096)).
    repeat match goal with |- context [?a <? ?b] => destruct (Z.ltb_spec a b) end;
      cbn [length] in Hk; destruct k as [|[|[|[|k]]]]; cbn [nth]; try lia.
    - pose proof (Z.div_le_lower_bound c 64 2). lia.
    - pose proof (Z.div_le_lower_bound c 4096 0). lia.
    - pose proof (Z.div_le_lower_bound c 262144 0). lia. }
  pose proof (cont_byte _ Hb) as Hc'. destruct (Nat.eqb_spec k 0) as [E|E]; cbn [negb].
  - apply not_true_is_false. intros Ht. apply Hc' in Ht. lia.
  - apply Hc'. lia.
Qed.

(** The character that byte [k] of a text belongs to. *)
Lemma text_position cs k : (k < length (encode_text cs))%nat ->
  exists cs1 c cs2, cs = cs1 ++ c :: cs2 /\
    (length (encode_text cs1) <= k < length (encode_text cs1) + length (encode_scalar c))%nat.
Proof.
  revert k; induction cs as [|c cs IH]; intros k Hk; [simpl in Hk; lia|].
  cbn [encode_text flat_map] in Hk. rewrite length_app in Hk.
  destruct (decide (k < length (encode_scalar c))%nat) as [Hlt|Hge].
  - exists [], c, cs. split; [done|]. simpl. lia.
  - destruct (IH (k - length (encode_scalar c))%nat) as (cs1 & c' & cs2 & -> & Hpos).
    { unfold encode_text. lia. }
    exists (c :: cs1), c', cs2. split; [done|]. cbn [encode_text flat_map]. rewrite length_app.
    unfold encode_text in *. lia.
Qed.

Lemma encode_text_app cs1 cs2 : encode_text (cs1 ++ cs2) = encode_text cs1 ++ encode_text cs2.
Proof. apply flat_map_app. Qed.

(** Going back from any byte of a character ends at its first byte. *)
Lemma TruncateKeep_spec cs1 c cs2 k : scalar c -> Forall scalar cs1 ->
  (length (encode_text cs1) <= k < length (encode_text cs1) + length (encode_scalar c))%nat ->
  TruncateKeep (encode_text (cs1 ++ c :: cs2)) k = length (encode_text cs1).
Proof.
  intros Hc _. set (o := length (encode_text cs1)). intros Hk.
  assert (forall j, (j < length (encode_scalar c))%nat ->
    nth (o + j) (encode_text (cs1 ++ c :: cs2)) 0 = nth j (encode_scalar c) 0) as Hnth.
  { intros j Hj. rewrite encode_text_app. cbn [encode_text flat_map].
    rewrite app_nth2 by (fold (encode_text cs1); lia). fold (encode_text cs1).
    replace (o + j - length (encode_text cs1))%nat with j by lia. by rewrite app_nth1. }
  remember (k - o)%nat as d eqn:Ed. revert k Hk Ed; induction d as [|d IH]; intros k Hk Ed.
  - replace k with o by lia. destruct o as [|o'] eqn:Eo; [done|]. cbn [TruncateKeep].
    rewrite <- (Nat.add_0_r (S o')), Hnth by lia. rewrite encode_scalar_lead by (done || lia).
    cbn [Nat.eqb negb]. lia.
  - destruct k as [|k]; [lia|]. cbn [TruncateKeep].
    replace (S k) with (o + S d)%nat at 1 by lia. rewrite Hnth by lia.
    rewrite encode_scalar_lead by (done || lia). cbn [Nat.eqb negb]. apply IH; lia.
Qed.

(** The text kept is whole characters: the longest such prefix that fits. *)
Lemma TruncateKeep_text data k : bytes_ok data -> IsUtf8 data = true -> (k < length data)%nat ->
  exists cs1 c cs2, Forall scalar (cs1 ++ c :: cs2) /\ data = encode_text (cs1 ++ c :: cs2) /\
    TruncateKeep data k = length (encode_text cs1) /\
    take (TruncateKeep data k) data = encode_text cs1 /\
    (length (encode_text cs1) <= k < length (encode_text (cs1 ++ [c])))%nat.
Proof.
  intros Hb Hu Hk. apply (IsUtf8_sound (length data)) in Hu as (cs & Hcs & ->); [|done].
  destruct (text_position cs k Hk) as (cs1 & c & cs2 & -> & Hpos).
  assert (scalar c /\ Forall scalar cs1) as [Hc H1].
  { apply Forall_app in Hcs as [? Hcs]. by inversion Hcs. }
  exists cs1, c, cs2. split; [done|]. split; [done|].
  rewrite (TruncateKeep_spec cs1 c cs2 k Hc H1 Hpos). split; [done|]. split.
  - rewrite encode_text_app. by apply take_app_length.
  - rewrite encode_text_app, length_app. cbn [encode_text flat_map]. rewrite app_nil_r. exact Hpos.
Qed.

Lemma IsUtf8_encode_text cs : Forall scalar cs -> IsUtf8 (encode_text cs) = true.
Proof. intros. by apply IsUtf8_complete. Qed.

(** ** Conversions *)

Definition same_family (t1 t2 : ColumnType) : Prop := FamilyOf (kind t1) = FamilyOf (kind t2).

Lemma RangeOf_int t : type_ok t -> FamilyOf (kind t) = FInteger ->
  RangeOf t = match kind t with
              | kUnsigned => (0, 2 ^ size t - 1)
              | _ => (- 2 ^ (size t - 1), 2 ^ (size t - 1) - 1)
              end.
Proof. intros Ht Hf. unfold RangeOf. destruct (kind t); try done; by rewrite Z.shiftl_1_l. Qed.

Lemma IntegerValue_holds t n : type_ok t -> FamilyOf (kind t) = FInteger ->
  (RangeOf t).1 <= n <= (RangeOf t).2 ->
  holds t (IntegerValue t n) /\ IntegerOf (IntegerValue t n) = Ok n.
Proof.
  intros Ht Hf Hn. rewrite RangeOf_int in Hn by done. unfold type_ok, holds, IntegerValue in *.
  destruct (kind t); try done; cbn [fst snd] in Hn; cbn [IntegerOf].
  - assert (2 ^ size t <= 2 ^ 64) by (apply Z.pow_le_mono_r; lia).
    rewrite wrap_small by (unfold in_u; lia). split; [lia|done].
  - assert (2 ^ (size t - 1) <= 2 ^ 63) by (apply Z.pow_le_mono_r; lia).
    pose proof (signed_wrap 64 n ltac:(lia)) as Hs. unfold signed, wrap in Hs. unfold signed.
    rewrite Z.mod_mod in Hs by lia. rewrite Hs; [split; [lia|done]|]. unfold in_i. change (64 - 1) with 63. lia.
Qed.

Lemma FloatValue_holds t d : type_ok t -> FamilyOf (kind t) = FFloat -> in_u 64 d -> holds t (FloatValue t d).
Proof.
  intros Ht Hf Hd. unfold holds, FloatValue. destruct (kind t); try done. by apply double_to_float_bound.
Qed.

Lemma resize_bits ds n fill : Forall (fun c => c = 48 \/ c = 49) ds -> 0 <= n -> n <= len ds \/ fill = 48 ->
  len (resize ds n fill) = n /\ Forall (fun c => c = 48 \/ c = 49) (resize ds n fill).
Proof.
  intros Hd Hn Hf. unfold resize. split.
  - rewrite length_app, length_take, length_replicate. lia.
  - apply Forall_app. split; [by apply Forall_take|]. destruct Hf as [Hf| ->].
    + replace (Z.to_nat n - length ds)%nat with 0%nat by lia. constructor.
    + apply Forall_replicate. by left.
Qed.

(** The value of a float as a double. *)
Lemma FloatOf_holds t v : FamilyOf (kind t) = FFloat -> holds t v ->
  exists d, FloatOf v = Ok d /\ in_u 64 d.
Proof.
  intros Hf Hv. unfold holds in Hv. destruct (kind t); try done; destruct v; try done; cbn; eexists;
    (split; [done|]); [by apply float_to_double_bound|done].
Qed.

Lemma IntegerOf_holds t v : FamilyOf (kind t) = FInteger -> holds t v ->
  exists n, IntegerOf v = Ok n /\
    match kind t with
    | kUnsigned => 0 <= n < 2 ^ size t
    | _ => - 2 ^ (size t - 1) <= n < 2 ^ (size t - 1)
    end.
Proof. intros Hf Hv. unfold holds in Hv. destruct (kind t); try done; destruct v; try done; cbn; eauto. Qed.

(** A value of one type of a family, fitted to another of the family. *)
Lemma Fit_holds from to v : type_ok to -> same_family from to -> holds from v ->
  exists r, Fit to v = Ok r /\ (forall v', r = Some v' -> holds to v').
Proof.
  intros Ht Hfam Hv. unfold Fit, same_family in *.
  destruct (FamilyOf (kind to)) eqn:Ef.
  - destruct (IntegerOf_holds from v Hfam Hv) as (n & -> & _). cbn [mbind res_bind].
    destruct (RangeOf to) as [low high] eqn:Er. case_match eqn:Ec; eexists; (split; [done|]); [done|].
    intros v' [= <-]. apply orb_false_iff in Ec as [E1 E2]. apply Z.ltb_ge in E1. apply Z.ltb_ge in E2.
    apply IntegerValue_holds; try done. rewrite Er. cbn. lia.
  - destruct (FloatOf_holds from v Hfam Hv) as (d & -> & Hd). cbn [mbind res_bind].
    case_match; eexists; (split; [done|]); [done|]. intros v' [= <-]. by apply FloatValue_holds.
  - eexists. split; [done|]. intros v' [= <-]. unfold holds in *.
    destruct (kind from), (kind to); try done.
  - unfold holds in Hv. destruct (kind from); try done; destruct v; try done. destruct Hv as [Hl Hd].
    assert (kind to = kBits) as Ek by (destruct (kind to); done).
    unfold type_ok in Ht. rewrite Ek in Ht. unfold holds. rewrite Ek.
    destruct (Z.leb_spec (len digits) (size to)); [|case_match]; eexists; (split; [done|]); try done;
      intros v' [= <-]; apply resize_bits; auto with lia.
  - unfold holds in Hv. destruct (kind from); try done; destruct v; try done. destruct Hv as (Hb & Hu & Hl).
    assert (kind to = kText) as Ek by (destruct (kind to); done). cbn [BytesOf mbind res_bind].
    case_match eqn:Ec; eexists; (split; [done|]); [done|]. intros v' [= <-].
    apply Z.ltb_ge in Ec. unfold holds, VarValue. by rewrite Ek.
  - unfold holds in Hv. destruct (kind from); try done; destruct v; try done. destruct Hv as (Hb & Hl).
    assert (kind to = kBytes) as Ek by (destruct (kind to); done). cbn [BytesOf mbind res_bind].
    case_match eqn:Ec; eexists; (split; [done|]); [done|]. intros v' [= <-].
    apply Z.ltb_ge in Ec. unfold holds, VarValue. by rewrite Ek.
Qed.

(** A widening type fits every value. *)
Lemma Fit_widens from to v : type_ok from -> type_ok to -> HoldsEveryValue from to = true -> holds from v ->
  exists v', Fit to v = Ok (Some v').
Proof.
  intros Hf Ht Hw Hv. unfold HoldsEveryValue in Hw. apply andb_true_iff in Hw as [Hfam Hw].
  apply bool_decide_eq_true in Hfam. unfold Fit.
  destruct (FamilyOf (kind to)) eqn:Ef.
  - destruct (IntegerOf_holds from v Hfam Hv) as (n & -> & Hn). cbn [mbind res_bind].
    rewrite RangeOf_int by done. unfold Widens in Hw. unfold type_ok in Hf, Ht.
    destruct (kind from), (kind to); try done; apply Z.ltb_lt in Hw || apply Z.leb_le in Hw.
    + assert (2 ^ size from <= 2 ^ size to) by (apply Z.pow_le_mono_r; lia).
      rewrite !(proj2 (Z.ltb_ge _ _)) by lia. eauto.
    + assert (2 ^ size from <= 2 ^ (size to - 1)) by (apply Z.pow_le_mono_r; lia).
      rewrite !(proj2 (Z.ltb_ge _ _)) by lia. eauto.
    + assert (2 ^ (size from - 1) <= 2 ^ (size to - 1)) by (apply Z.pow_le_mono_r; lia).
      rewrite !(proj2 (Z.ltb_ge _ _)) by lia. eauto.
  - destruct (FloatOf_holds from v Hfam Hv) as (d & Hd & Hd64). rewrite Hd. cbn [mbind res_bind].
    case_bool_decide as Ek; [|cbn [andb]; eauto].
    unfold Widens in Hw. rewrite Ek in Hw. unfold holds in Hv. destruct (kind from); try done; destruct v; try done.
    cbn in Hd. injection Hd as <-.
    destruct (f64_isfinite (float_to_double bits)) eqn:Efin; cbn [andb]; [|eauto].
    assert (f64_lt float_max (f64_fabs (float_to_double bits)) = false) as ->; [|eauto].
    by apply float_max_widened.
  - eauto.
  - unfold holds in Hv. destruct (kind from) eqn:Ekf; try done; destruct v; try done. destruct Hv as [Hl _].
    assert (kind to = kBits) as Ek by (destruct (kind to); done). unfold Widens in Hw.
    rewrite ?Ekf, ?Ek in Hw. apply Z.leb_le in Hw. rewrite (proj2 (Z.leb_le _ _)) by lia. eauto.
  - unfold holds in Hv. destruct (kind from) eqn:Ekf; try done; destruct v; try done. destruct Hv as (_ & _ & Hl).
    assert (kind to = kText) as Ek by (destruct (kind to); done). unfold Widens in Hw.
    rewrite ?Ekf, ?Ek in Hw. apply Z.leb_le in Hw. cbn [BytesOf mbind res_bind].
    rewrite (proj2 (Z.ltb_ge _ _)) by lia. eauto.
  - unfold holds in Hv. destruct (kind from) eqn:Ekf; try done; destruct v; try done. destruct Hv as (_ & Hl).
    assert (kind to = kBytes) as Ek by (destruct (kind to); done). unfold Widens in Hw.
    rewrite ?Ekf, ?Ek in Hw. apply Z.leb_le in Hw. cbn [BytesOf mbind res_bind].
    rewrite (proj2 (Z.ltb_ge _ _)) by lia. eauto.
Qed.

Lemma float_max_bound : in_u 64 float_max /\ in_u 64 (f64_neg float_max).
Proof. vm_compute. split; split; congruence. Qed.

Lemma Clamp_holds from to v : type_ok to -> same_family from to -> holds from v ->
  TakesConversion (FamilyOf (kind to)) kClamp = true ->
  exists v', Clamp to v = Ok v' /\ holds to v'.
Proof.
  intros Ht Hfam Hv Htake. unfold Clamp, same_family in *.
  destruct (FamilyOf (kind to)) eqn:Ef; try done; case_bool_decide; try done.
  - destruct (IntegerOf_holds from v Hfam Hv) as (n & -> & _). cbn [mbind res_bind].
    destruct (RangeOf to) as [low high] eqn:Er. eexists. split; [done|].
    apply IntegerValue_holds; [done|done|]. rewrite Er. cbn [fst snd].
    assert (low <= high) as Hlh.
    { rewrite RangeOf_int in Er by done. unfold type_ok in Ht. destruct (kind to); try done; simplify_eq.
      - pose proof (Z.pow_pos_nonneg 2 (size to)). lia.
      - pose proof (Z.pow_pos_nonneg 2 (size to - 1)). lia. }
    destruct (Z.ltb_spec n low); [lia|]. destruct (Z.ltb_spec high n); lia.
  - destruct (FloatOf_holds from v Hfam Hv) as (d & -> & Hd). cbn [mbind res_bind].
    eexists. split; [done|]. apply FloatValue_holds; [done|done|]. unfold f64_clamp.
    destruct float_max_bound as [? ?]. by repeat case_match.
Qed.

Lemma Truncate_holds from to v : type_ok to -> same_family from to -> holds from v ->
  TakesConversion (FamilyOf (kind to)) kTruncate = true -> Fit to v = Ok None ->
  exists v', Truncate to v = Ok v' /\ holds to v'.
Proof.
  intros Ht Hfam Hv Htake Hfit. unfold Truncate, same_family, Fit, holds, type_ok in *.
  destruct (kind to) eqn:Ek, (kind from) eqn:Ekf; try done; cbn [FamilyOf] in *; destruct v; try done.
  - destruct Hv as [Hl Hd]. rewrite bool_decide_true by done. eexists. split; [done|].
    apply resize_bits; [done|lia|]. left. destruct (Z.leb_spec (len digits) (size to)); [done|lia].
  - destruct Hv as (Hb & Hu & Hl). rewrite (bool_decide_false (kText = kBits)), bool_decide_true by done.
    cbn [BytesOf mbind res_bind] in *. eexists. split; [done|]. unfold VarValue. rewrite Ek.
    destruct (Z.ltb_spec (size to) (len text)) as [Hlt|]; [|done].
    destruct (TruncateKeep_text text (Z.to_nat (size to)) Hb Hu ltac:(lia))
      as (cs1 & c & cs2 & Hcs & Htext & Hkeep & Htake' & Hpos).
    assert (resize text (Z.of_nat (TruncateKeep text (Z.to_nat (size to)))) 0 = encode_text cs1) as ->.
    { unfold resize. rewrite Nat2Z.id, Htake'.
      replace (TruncateKeep text (Z.to_nat (size to)) - length text)%nat with 0%nat by lia.
      by rewrite app_nil_r. }
    apply Forall_app in Hcs as [Hcs _]. split; [|split; [by apply IsUtf8_encode_text|lia]].
    rewrite <- Htake'. by apply Forall_take.
  - destruct Hv as (Hb & Hl). rewrite (bool_decide_false (kBytes = kBits)), (bool_decide_false (kBytes = kText)) by done.
    cbn [BytesOf mbind res_bind] in *. eexists. split; [done|]. unfold VarValue. rewrite Ek.
    destruct (Z.ltb_spec (size to) (len data)) as [Hlt|]; [|done]. unfold resize. rewrite Nat2Z.id.
    replace (Z.to_nat (size to) - length data)%nat with 0%nat by lia. rewrite app_nil_r.
    split; [by apply Forall_take|]. rewrite length_take. lia.
Qed.

(** A default that ValidateDefault accepts is a value of the type. *)
Lemma ValidateDefault_padding c : IsFixedWidth (kind (type c)) = true -> type_ok (type c) ->
  has_default c = true -> bytes_ok (default_value c) -> ValidateDefault c = Ok tt ->
  len (default_value c) = BytesForWidth (FixedWidthBits (type c)) /\
  padding_clear (FixedWidthBits (type c)) (default_value c).
Proof.
  intros Hfix Ht Hd Hb H. unfold ValidateDefault in H. rewrite Hd, Hfix in H. cbn [negb] in H. cbv zeta in H.
  res_inv. apply negb_false_iff, Z.eqb_eq in Hs. split; [done|]. intros i Hi.
  assert (1 <= FixedWidthBits (type c)) as Hw.
  { unfold FixedWidthBits. rewrite Hfix. unfold type_ok in Ht. destruct (kind (type c)); lia. }
  pose proof (BytesForWidth_bounds (FixedWidthBits (type c)) ltac:(lia)) as HB.
  set (w := FixedWidthBits (type c)) in *.
  pose proof (Z.div_mod w 8 ltac:(lia)). pose proof (Z.mod_pos_bound w 8 ltac:(lia)).
  pose proof (Z.div_mod i 8 ltac:(lia)). pose proof (Z.mod_pos_bound i 8 ltac:(lia)).
  apply andb_false_iff in H as [H|H].
  - apply negb_false_iff, Z.eqb_eq in H. lia.
  - apply negb_false_iff, Z.eqb_eq in H. unfold bit_at.
    replace (i / 8) with (len (default_value c) - 1) by lia.
    replace (i mod 8) with ((i mod 8 - w mod 8) + w mod 8) by lia.
    rewrite <- Z.shiftr_spec by lia. rewrite H. apply Z.bits_0.
Qed.

(** The columns of a valid schema: type, default and bytes in order. *)
Definition column_ok (c : Column) : Prop :=
  type_ok (type c) /\ ValidateDefault c = Ok tt /\ bytes_ok (default_value c).

Lemma default_holds c : column_ok c -> has_default c = true ->
  exists v, (if IsFixedWidth (kind (type c)) then DecodeColumnValue c (default_value c)
             else Ok (DecodeVarValue c (default_value c))) = Ok v /\ holds (type c) v.
Proof.
  intros (Ht & Hdef & Hb) Hd. destruct (IsFixedWidth (kind (type c))) eqn:Hfix.
  - destruct (ValidateDefault_padding c Hfix Ht Hd Hb Hdef) as [Hl Hp]. by apply DecodeColumnValue_holds.
  - eexists. split; [done|]. unfold ValidateDefault in Hdef. rewrite Hd, Hfix in Hdef. cbn [negb] in Hdef.
    res_inv. apply Z.ltb_ge in Hs. unfold DecodeVarValue, holds.
    destruct (kind (type c)); try done; case_bool_decide; try done.
    by apply negb_false_iff in Hdef.
Qed.

Lemma FallbackOf_holds c : column_ok c ->
  exists v, FallbackOf c = Ok v /\ (holds (type c) v \/ (v = VNull /\ nullable c = true)).
Proof.
  intros Hc. unfold FallbackOf. destruct (has_default c) eqn:Hd.
  { destruct (default_holds c Hc Hd) as (v & Hv & Hh). exists v. rewrite <- Hv.
    split; [by destruct (IsFixedWidth _)|by left]. }
  destruct (nullable c); [eexists; split; [done|by right]|].
  eexists. split; [done|]. left. destruct Hc as [Ht _]. assert (Ht' := Ht). unfold type_ok in Ht'. unfold holds.
  destruct (kind (type c)) eqn:Ek; cbn [FamilyOf]; unfold IntegerValue, FloatValue, VarValue; rewrite ?Ek.
  - split; [done|]. apply Z.pow_pos_nonneg; lia.
  - pose proof (Z.pow_pos_nonneg 2 (size (type c) - 1)). change (i64 0) with 0. lia.
  - done.
  - by vm_compute.
  - by vm_compute.
  - split; [rewrite length_replicate; lia|]. apply Forall_replicate. by left.
  - split; [constructor|]. split; [done|]. simpl. lia.
  - split; [constructor|]. simpl. lia.
Qed.

(** ** Widening is lossless *)

Definition not_nan (v : ColumnValue) : Prop := match v with VFloat b => f32_is_nan b = false | _ => True end.

Lemma IntegerValue_back t v n : type_ok t -> FamilyOf (kind t) = FInteger -> holds t v ->
  IntegerOf v = Ok n -> IntegerValue t n = v /\ (RangeOf t).1 <= n <= (RangeOf t).2.
Proof.
  intros Ht Hf Hv Hn. rewrite RangeOf_int by done. unfold holds, type_ok, IntegerValue in *.
  destruct (kind t); try done; destruct v; try done; cbn in Hn; simplify_eq; cbn [fst snd].
  - assert (2 ^ size t <= 2 ^ 64) by (apply Z.pow_le_mono_r; lia).
    rewrite wrap_small by (unfold in_u; lia). split; [done|lia].
  - assert (2 ^ (size t - 1) <= 2 ^ 63) by (apply Z.pow_le_mono_r; lia).
    pose proof (signed_wrap 64 n ltac:(lia)) as Hs. unfold signed, wrap in Hs. unfold signed.
    rewrite Z.mod_mod in Hs by lia. rewrite Hs; [split; [done|lia]|]. unfold in_i. change (64 - 1) with 63. lia.
Qed.

Lemma find_one_padding ds n : find_one_from (ds ++ replicate n 48) (len ds) = false.
Proof.
  unfold find_one_from. rewrite Nat2Z.id, drop_app_length.
  apply not_true_is_false. intros H. apply existsb_exists in H as (c & Hin & Hc).
  apply list_elem_of_In, elem_of_replicate in Hin as [-> _]. done.
Qed.

Lemma Fit_back from to v v' : type_ok from -> type_ok to -> HoldsEveryValue from to = true ->
  holds from v -> not_nan v -> Fit to v = Ok (Some v') -> Fit from v' = Ok (Some v).
Proof.
  intros Hf Ht Hw Hv Hnan HFit. assert (Hw' := Hw). unfold HoldsEveryValue in Hw.
  apply andb_true_iff in Hw as [Hfam Hw]. apply bool_decide_eq_true in Hfam. unfold Fit in *. rewrite Hfam.
  destruct (FamilyOf (kind to)) eqn:Ef.
  - destruct (IntegerOf_holds from v Hfam Hv) as (n & Hn & _). rewrite Hn in HFit. cbn [mbind res_bind] in HFit.
    destruct (RangeOf to) as [low high] eqn:Er. case_match eqn:Ec; simplify_eq.
    apply orb_false_iff in Ec as [E1 E2]. apply Z.ltb_ge in E1. apply Z.ltb_ge in E2.
    destruct (IntegerValue_holds to n Ht Ef) as [_ ->]; [rewrite Er; cbn; lia|]. cbn [mbind res_bind].
    destruct (IntegerValue_back from v n Hf Hfam Hv Hn) as [-> Hr].
    destruct (RangeOf from) as [l h]. cbn in Hr. by rewrite !(proj2 (Z.ltb_ge _ _)) by lia.
  - unfold holds in Hv. unfold Widens in Hw.
    destruct (kind from) eqn:Ekf; try done; destruct v; try done; cbn [FloatOf mbind res_bind] in HFit.
    + cbn in Hnan. assert (forall b, f64_isfinite (float_to_double bits) && f64_lt float_max (f64_fabs (float_to_double bits))
        = b -> b = false) as Hrange.
      { intros b <-. destruct (f64_isfinite (float_to_double bits)) eqn:Efin; [|done]. cbn [andb].
        by apply float_max_widened. }
      assert (v' = FloatValue to (float_to_double bits)) as ->.
      { rewrite <- andb_assoc, (Hrange _ eq_refl), andb_false_r in HFit. congruence. }
      unfold FloatValue. rewrite Ekf. destruct (kind to); try done; cbn [FloatOf mbind res_bind];
        rewrite ?float_double_roundtrip by done; rewrite <- andb_assoc, (Hrange _ eq_refl), andb_false_r;
        by rewrite ?float_double_roundtrip.
    + unfold FloatValue in HFit. destruct (kind to) eqn:Ekt; try done.
      rewrite (bool_decide_false (kFloat64 = kFloat32)) in HFit by done. cbn [andb] in HFit. simplify_eq.
      cbn [FloatOf mbind res_bind]. rewrite bool_decide_false by done. cbn [andb].
      unfold FloatValue. by rewrite Ekf.
  - by simplify_eq.
  - unfold holds in Hv. destruct (kind from) eqn:Ekf; try done; destruct v; try done. destruct Hv as [Hl Hd].
    assert (size from <= size to) as Hsz.
    { unfold Widens in Hw. rewrite Ekf in Hw. by apply Z.leb_le in Hw. }
    rewrite (proj2 (Z.leb_le _ _)) in HFit by lia. simplify_eq.
    assert (resize digits (size to) 48 = digits ++ replicate (Z.to_nat (size to - len digits)) 48) as ->.
    { unfold resize. rewrite take_ge by lia. do 2 f_equal. lia. }
    rewrite <- Hl, length_app, length_replicate.
    destruct (decide (size to = len digits)) as [E|E].
    + rewrite E, Z.sub_diag. cbn [Z.to_nat replicate]. rewrite app_nil_r, Nat.add_0_r, Z.leb_refl.
      unfold resize. rewrite Nat2Z.id, take_ge, Nat.sub_diag by lia. by rewrite app_nil_r.
    + rewrite (proj2 (Z.leb_gt _ _)) by lia. rewrite find_one_padding.
      unfold resize. rewrite Nat2Z.id, take_app_length, length_app.
      replace (length digits - _)%nat with 0%nat by lia. by rewrite app_nil_r.
  - unfold holds in Hv. destruct (kind from) eqn:Ekf; try done; destruct v; try done. destruct Hv as (_ & _ & Hl).
    cbn [BytesOf mbind res_bind] in HFit. case_match; simplify_eq. unfold VarValue.
    assert (kind to = kText) as -> by (destruct (kind to); done). cbn [BytesOf mbind res_bind].
    rewrite (proj2 (Z.ltb_ge _ _)) by lia. by rewrite Ekf.
  - unfold holds in Hv. destruct (kind from) eqn:Ekf; try done; destruct v; try done. destruct Hv as (_ & Hl).
    cbn [BytesOf mbind res_bind] in HFit. case_match; simplify_eq. unfold VarValue.
    assert (kind to = kBytes) as -> by (destruct (kind to); done). cbn [BytesOf mbind res_bind].
    rewrite (proj2 (Z.ltb_ge _ _)) by lia. by rewrite Ekf.
Qed.

(** C34: a fixed-width value the column's type holds is encoded in
    (width + 7) / 8 bytes with every bit past the width clear, and decodes to
    the same value; a value of another type or out of range is refused. *)
Theorem column_value_roundtrip (c : Column) (v : ColumnValue)
    (Htype : ValidateColumnType c = Ok tt) (Hfix : IsFixedWidth (kind (type c)) = true)
    (Hv : representable v) :
  match EncodeColumnValue c v with
  | Ok b => holds (type c) v /\ len b = BytesForWidth (FixedWidthBits (type c)) /\ bytes_ok b /\
            padding_clear (FixedWidthBits (type c)) b /\ DecodeColumnValue c b = Ok v
  | Err _ => ~ holds (type c) v
  end.
Proof.
  apply ValidateColumnType_ok in Htype.
  destruct (EncodeColumnValue c v) as [b|e] eqn:E.
  - destruct (EncodeColumnValue_only c v b Hv E) as (_ & _ & Hh). split; [done|].
    destruct (EncodeColumnValue_holds c v Htype Hfix Hh) as (b' & E' & Hrest). assert (b' = b) as -> by congruence. done.
  - intros Hh. destruct (EncodeColumnValue_holds c v Htype Hfix Hh) as (b' & E' & _). congruence.
Qed.

Lemma column_value_roundtrip_witness :
  let c := {| id := 1; name := str "height"%string; type := {| kind := kSigned; size := 11 |};
              nullable := false; required := false; has_default := false; default_value := [] |} in
  match EncodeColumnValue c (VSigned (-1000)) with
  | Ok b => holds (type c) (VSigned (-1000)) /\ len b = BytesForWidth (FixedWidthBits (type c)) /\ bytes_ok b /\
            padding_clear (FixedWidthBits (type c)) b /\ DecodeColumnValue c b = Ok (VSigned (-1000))
  | Err _ => ~ holds (type c) (VSigned (-1000))
  end.
Proof.
  intros c. apply (column_value_roundtrip c (VSigned (-1000))); [reflexivity|reflexivity|].
  vm_compute. split; congruence.
Defined.

(** A conversion fails only where kExact meets a value that does not fit. *)
Lemma ConvertValue_cases from to conversion v :
  type_ok (type from) -> column_ok to -> same_family (type from) (type to) ->
  TakesConversion (FamilyOf (kind (type to))) conversion = true -> holds (type from) v ->
  match ConvertValue from to conversion v with
  | Ok v' => holds (type to) v' \/ (v' = VNull /\ nullable to = true /\ conversion = kDefault)
  | Err _ => conversion = kExact /\ Fit (type to) v = Ok None
  end.
Proof.
  intros Hfrom Hto Hfam Htakes Hv.
  assert (v <> VNull) as Hnn by (intros ->; unfold holds in Hv; by destruct (kind (type from))).
  assert (type_ok (type to)) as Ht by apply Hto.
  unfold ConvertValue. rewrite bool_decide_false by done.
  destruct (Fit_holds _ _ v Ht Hfam Hv) as (r & Hr & Hh). rewrite Hr. cbn [mbind res_bind].
  destruct r as [v'|]; [left; by apply Hh|].
  destruct conversion.
  - done.
  - destruct (Clamp_holds _ _ v Ht Hfam Hv Htakes) as (v' & -> & ?). by left.
  - destruct (FallbackOf_holds to Hto) as (v' & -> & [?|[? ?]]); auto.
  - destruct (Truncate_holds _ _ v Ht Hfam Hv Htakes Hr) as (v' & -> & ?). by left.
Qed.

(** C35: converting a value of a column to the column's new type never fails
    and always gives a value the new type holds, or NULL when the fallback of
    a nullable column is NULL: for every conversion the family takes, kExact
    only towards a type that holds every value. *)
Theorem convert_value_total (from to : Column) (conversion : Conversion) (v : ColumnValue)
    (Hfrom : type_ok (type from)) (Hto : column_ok to) (Hfam : same_family (type from) (type to))
    (Htakes : TakesConversion (FamilyOf (kind (type to))) conversion = true)
    (Hexact : conversion = kExact -> HoldsEveryValue (type from) (type to) = true)
    (Hv : holds (type from) v) :
  exists v', ConvertValue from to conversion v = Ok v' /\
    (holds (type to) v' \/ (v' = VNull /\ nullable to = true /\ conversion = kDefault)).
Proof.
  pose proof (ConvertValue_cases from to conversion v Hfrom Hto Hfam Htakes Hv) as H.
  destruct (ConvertValue from to conversion v) as [v'|e]; [by exists v'|]. destruct H as [Hc Hfit].
  destruct (Fit_widens _ _ v Hfrom ltac:(apply Hto) (Hexact Hc) Hv) as (v' & Hv'). congruence.
Qed.

Lemma convert_value_total_witness :
  let from := {| id := 1; name := str "title"%string; type := {| kind := kText; size := 9 |};
                 nullable := false; required := false; has_default := false; default_value := [] |} in
  let to := {| id := 1; name := str "title"%string; type := {| kind := kText; size := 3 |};
               nullable := false; required := false; has_default := false; default_value := [] |} in
  exists v', ConvertValue from to kTruncate (VText [0x61; 0xC3; 0xA9; 0xC3; 0xA9]) = Ok v' /\
    (holds (type to) v' \/ (v' = VNull /\ nullable to = true /\ kTruncate = kDefault)).
Proof.
  intros from to. apply (convert_value_total from to kTruncate (VText [0x61; 0xC3; 0xA9; 0xC3; 0xA9])).
  - by vm_compute.
  - split; [by vm_compute|]. split; [reflexivity|constructor].
  - reflexivity.
  - reflexivity.
  - discriminate.
  - split; [repeat (constructor; [by unfold byte_ok|]); constructor|]. split; [reflexivity|by vm_compute].
Defined.

(** A type change that HoldsEveryValue allows loses nothing: every value
    of the old type that is not a NaN converts exactly, to a value of the new
    type that fits the old type again as the very same value. *)
Theorem widening_lossless (from to : Column) (v : ColumnValue)
    (Hfrom : type_ok (type from)) (Hto : type_ok (type to))
    (Hholds : HoldsEveryValue (type from) (type to) = true) (Hv : holds (type from) v) (Hnan : not_nan v) :
  exists v', ConvertValue from to kExact v = Ok v' /\ holds (type to) v' /\
    Fit (type from) v' = Ok (Some v).
Proof.
  assert (v <> VNull) as Hnn by (intros ->; unfold holds in Hv; by destruct (kind (type from))).
  destruct (Fit_widens _ _ v Hfrom Hto Hholds Hv) as (v' & Hfit). exists v'.
  unfold ConvertValue. rewrite bool_decide_false, Hfit by done. split; [done|]. split.
  - assert (same_family (type from) (type to)) as Hfam.
    { unfold HoldsEveryValue in Hholds. apply andb_true_iff in Hholds as [Hf _]. by apply bool_decide_eq_true in Hf. }
    destruct (Fit_holds _ _ v Hto Hfam Hv) as (r & Hr & Hh). apply Hh. congruence.
  - by eapply Fit_back.
Qed.

Lemma widening_lossless_witness :
  let from := {| id := 1; name := str "t"%string; type := {| kind := kFloat32; size := 32 |};
                 nullable := false; required := false; has_default := false; default_value := [] |} in
  let to := {| id := 1; name := str "t"%string; type := {| kind := kFloat64; size := 64 |};
               nullable := false; required := false; has_default := false; default_value := [] |} in
  exists v', ConvertValue from to kExact (VFloat 0x3F8CCCCD) = Ok v' /\ holds (type to) v' /\
    Fit (type from) v' = Ok (Some (VFloat 0x3F8CCCCD)).
Proof.
  intros from to. apply (widening_lossless from to (VFloat 0x3F8CCCCD)); try reflexivity.
  vm_compute. split; congruence.
Defined.

End Columns.
