(* ===== verification/ExprEval.v ===== *)
(** * Evaluating expressions (src/src/expr_eval.cpp, src/src/expr_program.hpp)

    A planned expression is a list of steps, each after its operands.  Integers
    compute in 128 bits and overflow is an error, NULL is a value of its own
    and conditions have three truth values.  Indexes and counts are [nat].  The constructors of the
    enumerations Category, Truth and Order start with c, t and o here. *)
From stdpp Require Import prelude strings.
From Stdlib Require Import ZArith Lia.
From S2P Require Import Prelude Text Utf8 Floats Doubles Columns.

#[local] Open Scope Z_scope.

Module ExprEval.
Import Text Utf8 Floats Doubles Columns.

Inductive Op :=
  kLiteral | kParameter | kColumn | kChunkColumn | kPosX | kPosY | kPosZ | kNow
| kNegate | kAdd | kSubtract | kMultiply | kDivide | kModulo
| kLeast | kGreatest | kCoalesce
| kEqual | kNotEqual | kLess | kLessEqual | kGreater | kGreaterEqual
| kIsNull | kIsNotNull | kIn | kNotIn | kBetween | kNotBetween
| kExists | kNot | kAnd | kOr.
#[global] Instance Op_eq_dec : EqDecision Op.
Proof. solve_decision. Defined.

(** The operators up to kCoalesce. *)
Definition IsValue (op : Op) : bool :=
  match op with
  | kLiteral | kParameter | kColumn | kChunkColumn | kPosX | kPosY | kPosZ | kNow
  | kNegate | kAdd | kSubtract | kMultiply | kDivide | kModulo | kLeast | kGreatest | kCoalesce => true
  | _ => false
  end.

Inductive Category := cUnknown | cNull | cInt | cFloat | cBool | cText | cBytes | cBits.
#[global] Instance Category_eq_dec : EqDecision Category.
Proof. solve_decision. Defined.

(** A double is its bits; a view is its bytes. *)
Record Value := MkValue { category : Category; integer : Z; number : Z; boolean : bool; view : bytes }.

Record Step := {
  op : Op;
  step_category : Category;
  step_column : Z;
  first : nat;
  count : nat;
  slot : nat;
  step_type : ColumnType;
  literal : Value
}.

Record ColumnBinding := { binding_id : Z; binding_slot : nat; binding_type : ColumnType; binding_nullable : bool }.
Record ParameterType := { parameter_index : Z; parameter_type : ColumnType }.
Record Target := { target_column : ColumnBinding; target_name : bytes; target_root : nat }.

(** The literals' texts are in the values; target_columns are the columns of the targets. *)
Record Program := {
  steps : list Step;
  operands : list nat;
  root : nat;
  targets : list Target;
  parameters : list ParameterType
}.

Record Inputs := {
  exists_ : bool;
  block : list ColumnValue;
  chunk : list ColumnValue;
  pos_x : Z;
  pos_y : Z;
  pos_z : Z;
  now : Z;
  given : list ColumnValue
}.

Inductive Truth := tFalse | tTrue | tUnknown.
#[global] Instance Truth_eq_dec : EqDecision Truth.
Proof. solve_decision. Defined.
Inductive Order := oLess | oEqual | oGreater | oUnordered.
#[global] Instance Order_eq_dec : EqDecision Order.
Proof. solve_decision. Defined.

(** ** 128-bit integers *)

Definition Int (x : Z) : Z := signed 128 (wrap 128 x).
Definition UInt (x : Z) : Z := wrap 128 x.
Definition kIntMax : Z := Int (UInt (Z.shiftl 1 127) - 1).
Definition kIntMin : Z := - kIntMax - 1.
Definition kLow64 : Z := 2 ^ 64 - 1.
Definition Overflow {A} : res A := Err (out_of_range "an integer result is outside the 128-bit range").

Definition Add (a b : Z) : res Z :=
  let out := Int (UInt a + UInt b) in
  if Z.land (Z.lxor a out) (Z.lxor b out) <? 0 then Overflow else Ok out.

Definition Subtract (a b : Z) : res Z :=
  let out := Int (UInt a - UInt b) in
  if Z.land (Z.lxor a b) (Z.lxor a out) <? 0 then Overflow else Ok out.

Definition Magnitude (value : Z) : Z := if value <? 0 then UInt (0 - UInt value) else UInt value.

Definition Multiply (a b : Z) : res Z :=
  let x := Magnitude a in
  let y := Magnitude b in
  if (kLow64 <? x) && (kLow64 <? y) then Overflow
  else
    let small := if x <=? kLow64 then x else y in
    let big := if x <=? kLow64 then y else x in
    let high := UInt (small * Z.shiftr big 64) in
    if kLow64 <? high then Overflow
    else
      let low := UInt (small * Z.land big kLow64) in
      let product := UInt (low + UInt (Z.shiftl high 64)) in
      if product <? low then Overflow
      else
        let negative := xorb (a <? 0) (b <? 0) in
        let limit := UInt (Z.shiftl 1 127) in
        if (if negative then limit <? product else limit <=? product) then Overflow
        else Ok (if negative then Int (UInt (0 - product)) else Int product).

Definition Divide (a b : Z) : res Z :=
  if b =? 0 then Err (invalid_argument "division by zero")
  else if (a =? kIntMin) && (b =? -1) then Overflow
  else Ok (Z.quot a b).

Definition Modulo (a b : Z) : res Z :=
  if b =? 0 then Err (invalid_argument "modulo by zero")
  else Ok (if b =? -1 then 0 else Z.rem a b).

(** ** Values *)

(** [Value{}]. *)
Definition NullValue : Value := MkValue cNull 0 0 false [].
Definition Integer (n : Z) : Value := MkValue cInt n 0 false [].
Definition FloatValue (b : Z) : Value := MkValue cFloat 0 b false [].
Definition BoolValue (b : bool) : Value := MkValue cBool 0 0 b [].
Definition ViewValue (c : Category) (b : bytes) : Value := MkValue c 0 0 false b.

Definition ToDouble (v : Value) : Z := if bool_decide (category v = cInt) then f64_of_int (integer v) else number v.

(** [0x1p127]. *)
Definition kTwo127 : Z := 1150 * 2 ^ 52.

(** [f64_lt] is [<]; [>=] of two numbers that are not NaN is its negation. *)
Definition CompareIntFloat {U : FloatUnit} (n number : Z) : res Order :=
  if f64_is_nan number then Ok oUnordered
  else if negb (f64_lt number kTwo127) then Ok oLess
  else if f64_lt number (f64_neg kTwo127) then Ok oGreater
  else
    let whole := f64_trunc number in
    truncated ← f64_to_int128 whole;
    if negb (n =? truncated) then Ok (if n <? truncated then oLess else oGreater)
    else
      let fraction := f64_sub number whole in
      Ok (if f64_lt (f64_zero 0) fraction then oLess else if f64_lt fraction (f64_zero 0) then oGreater else oEqual).

Definition Reverse (o : Order) : Order := match o with oLess => oGreater | oGreater => oLess | _ => o end.

(** [std::memcmp] of the common part, then the lengths. *)
Fixpoint CompareBytes (a b : bytes) : Order :=
  match a, b with
  | [], [] => oEqual
  | [], _ => oLess
  | _, [] => oGreater
  | x :: a, y :: b => if x =? y then CompareBytes a b else if x <? y then oLess else oGreater
  end.

Definition CompareInts (a b : Z) : Order := if a <? b then oLess else if b <? a then oGreater else oEqual.

Section Evaluation.
Context {U : FloatUnit}.

Definition Compare (a b : Value) : res Order :=
  match category a, category b with
  | cInt, cInt => Ok (CompareInts (integer a) (integer b))
  | cInt, cFloat => CompareIntFloat (integer a) (number b)
  | cFloat, cInt => o ← CompareIntFloat (integer b) (number a); Ok (Reverse o)
  | cFloat, cFloat =>
      Ok (if f64_is_nan (number a) || f64_is_nan (number b) then oUnordered
          else if f64_lt (number a) (number b) then oLess else if f64_lt (number b) (number a) then oGreater else oEqual)
  | cBool, cBool => Ok (if eqb (boolean a) (boolean b) then oEqual else if boolean a then oGreater else oLess)
  | ca, cb => if negb (bool_decide (ca = cb)) then Err (logic_error "expression values of different types")
              else Ok (CompareBytes (view a) (view b))
  end.

Definition Holds (o : Op) (order : Order) : res bool :=
  if bool_decide (order = oUnordered) then Ok (bool_decide (o = kNotEqual))
  else match o with
       | kEqual => Ok (bool_decide (order = oEqual))
       | kNotEqual => Ok (negb (bool_decide (order = oEqual)))
       | kLess => Ok (bool_decide (order = oLess))
       | kLessEqual => Ok (negb (bool_decide (order = oGreater)))
       | kGreater => Ok (bool_decide (order = oGreater))
       | kGreaterEqual => Ok (negb (bool_decide (order = oLess)))
       | _ => Err (logic_error "not a comparison")
       end.

Definition Not (t : Truth) : Truth := match t with tTrue => tFalse | tFalse => tTrue | tUnknown => tUnknown end.

Definition And (a b : Truth) : Truth :=
  if bool_decide (a = tFalse) || bool_decide (b = tFalse) then tFalse
  else if bool_decide (a = tTrue) && bool_decide (b = tTrue) then tTrue else tUnknown.

Definition truth (b : bool) : Truth := if b then tTrue else tFalse.

Definition is_null (v : Value) : bool := bool_decide (category v = cNull).

Definition Compared (o : Op) (a b : Value) : res Truth :=
  if is_null a || is_null b then Ok tUnknown
  else order ← Compare a b; h ← Holds o order; Ok (truth h).

(** None: the value holds another type. *)
Definition Load (value : ColumnValue) (t : ColumnType) : option Value :=
  match value, kind t with
  | VNull, _ => Some NullValue
  | VUnsigned n, kUnsigned => Some (Integer n)
  | VSigned n, kSigned => Some (Integer n)
  | VBool b, kBool => Some (BoolValue b)
  | VFloat b, kFloat32 => Some (FloatValue (float_to_double b))
  | VDouble b, kFloat64 => Some (FloatValue b)
  | VBits ds, kBits => if len ds =? size t then Some (ViewValue cBits ds) else None
  | VText s, kText => Some (ViewValue cText s)
  | VBytes s, kBytes => Some (ViewValue cBytes s)
  | _, _ => None
  end.

Definition Stored (values : list ColumnValue) (s : Step) : res Value :=
  match values !! slot s with
  | None => Err (logic_error "no value for column slot")
  | Some v => match Load v (step_type s) with
              | Some v => Ok v
              | None => Err (logic_error "a column value is not of its column's type")
              end
  end.

Definition Widen (v : Value) (c : Category) : Value :=
  if bool_decide (c = cFloat) && bool_decide (category v = cInt)
  then MkValue cFloat (integer v) (f64_of_int (integer v)) (boolean v) (view v) else v.

Definition Arithmetic (o : Op) (a b : Value) : res Value :=
  if is_null a || is_null b then Ok NullValue
  else if bool_decide (category a = cInt) && bool_decide (category b = cInt) then
    n ← (match o with
         | kAdd => Add | kSubtract => Subtract | kMultiply => Multiply | kDivide => Divide | _ => Modulo
         end) (integer a) (integer b);
    Ok (Integer n)
  else
    Ok (FloatValue ((match o with
                     | kAdd => f64_add | kSubtract => f64_sub | kMultiply => f64_mul | kDivide => f64_div | _ => f64_fmod
                     end) (ToDouble a) (ToDouble b))).

Definition Negate (v : Value) : res Value :=
  if bool_decide (category v = cInt) then
    if integer v =? kIntMin then Overflow
    else Ok (MkValue cInt (- integer v) (number v) (boolean v) (view v))
  else if bool_decide (category v = cFloat) then Ok (MkValue cFloat (integer v) (f64_neg (number v)) (boolean v) (view v))
  else Ok v.

(** The loops of LEAST and GREATEST, COALESCE, IN, AND and OR; [value_of] and
    [truth_of] evaluate an operand. *)
Fixpoint ExtremeLoop (value_of : nat -> res Value) (better : Order) (ks : list nat) (best : Value) (nan : bool) : res (Value * bool) :=
  match ks with
  | [] => Ok (best, nan)
  | k :: ks =>
      v ← value_of k;
      if is_null v then ExtremeLoop value_of better ks best nan
      else if bool_decide (category v = cFloat) && f64_is_nan (number v) then ExtremeLoop value_of better ks best true
      else
        wins ← (if is_null best then Ok true else o ← Compare v best; Ok (bool_decide (o = better)));
        ExtremeLoop value_of better ks (if wins : bool then v else best) nan
  end.

Definition Extreme (value_of : nat -> res Value) (s : Step) : res Value :=
  let better := if bool_decide (op s = kLeast) then oLess else oGreater in
  '(best, nan) ← ExtremeLoop value_of better (seq 0 (count s)) NullValue false;
  Ok (if nan : bool then FloatValue quiet_NaN else Widen best (step_category s)).

Fixpoint CoalesceLoop (value_of : nat -> res Value) (c : Category) (ks : list nat) : res Value :=
  match ks with
  | [] => Ok NullValue
  | k :: ks => v ← value_of k; if is_null v then CoalesceLoop value_of c ks else Ok (Widen v c)
  end.

Fixpoint InLoop (value_of : nat -> res Value) (value : Value) (ks : list nat) (found null : bool) : res (bool * bool) :=
  match ks with
  | [] => Ok (found, null)
  | k :: ks =>
      item ← value_of k;
      if is_null item then InLoop value_of value ks found true
      else if is_null value then InLoop value_of value ks found null
      else o ← Compare value item; InLoop value_of value ks (found || bool_decide (o = oEqual)) null
  end.

Fixpoint LogicLoop (truth_of : nat -> res Truth) (decides : Truth) (ks : list nat) (result : Truth) : res Truth :=
  match ks with
  | [] => Ok result
  | k :: ks =>
      t ← truth_of k;
      if bool_decide (t = decides) then Ok decides
      else LogicLoop truth_of decides ks (if bool_decide (t = tUnknown) then tUnknown else result)
  end.

Context (p : Program) (inputs : Inputs).

Definition step_at (index : nat) : res Step :=
  match steps p !! index with Some s => Ok s | None => Err (undefined "steps[index]") end.

Definition Operand (s : Step) (k : nat) : res nat :=
  match operands p !! (first s + k)%nat with Some o => Ok o | None => Err (undefined "operands[first + k]") end.

Definition ParameterValue (s : Step) : res Value :=
  match given inputs !! slot s with
  | None => Err (invalid_argument "has no value")
  | Some v => match Load v (step_type s) with Some v => Ok v | None => Err (invalid_argument "must be a value of its type") end
  end.

(** [fuel]: the levels of operands below the node; a node's operands come before it. *)
Fixpoint ValueOf (fuel : nat) (index : nat) : res Value :=
  match fuel with
  | O => Err out_of_fuel
  | S fuel =>
      s ← step_at index;
      let value_of k := (o ← Operand s k; ValueOf fuel o) in
      match op s with
      | kLiteral => Ok (literal s)
      | kParameter => ParameterValue s
      | kColumn => if negb (exists_ inputs) then Ok NullValue else Stored (block inputs) s
      | kChunkColumn => Stored (chunk inputs) s
      | kPosX => Ok (Integer (pos_x inputs))
      | kPosY => Ok (Integer (pos_y inputs))
      | kPosZ => Ok (Integer (pos_z inputs))
      | kNow => Ok (Integer (now inputs))
      | kNegate => v ← value_of 0%nat; Negate v
      | kAdd | kSubtract | kMultiply | kDivide | kModulo =>
          a ← value_of 0%nat; b ← value_of 1%nat; Arithmetic (op s) a b
      | kLeast | kGreatest => Extreme value_of s
      | kCoalesce => CoalesceLoop value_of (step_category s) (seq 0 (count s))
      | _ => Err (logic_error "a predicate is not a value")
      end
  end.

Fixpoint TruthOf (fuel : nat) (index : nat) : res Truth :=
  match fuel with
  | O => Err out_of_fuel
  | S fuel =>
      s ← step_at index;
      let value_of k := (o ← Operand s k; ValueOf fuel o) in
      let truth_of k := (o ← Operand s k; TruthOf fuel o) in
      match op s with
      | kEqual | kNotEqual | kLess | kLessEqual | kGreater | kGreaterEqual =>
          a ← value_of 0%nat; b ← value_of 1%nat; Compared (op s) a b
      | kIsNull | kIsNotNull =>
          v ← value_of 0%nat; Ok (truth (eqb (is_null v) (bool_decide (op s = kIsNull))))
      | kIn | kNotIn =>
          value ← value_of 0%nat;
          '(found, null) ← InLoop value_of value (seq 1 (count s - 1)) false (is_null value);
          let t := if negb (is_null value) && found then tTrue else if null : bool then tUnknown else tFalse in
          Ok (if bool_decide (op s = kIn) then t else Not t)
      | kBetween | kNotBetween =>
          value ← value_of 0%nat; low ← value_of 1%nat; high ← value_of 2%nat;
          a ← Compared kGreaterEqual value low; b ← Compared kLessEqual value high;
          Ok (if bool_decide (op s = kBetween) then And a b else Not (And a b))
      | kExists => Ok (truth (exists_ inputs))
      | kNot => t ← truth_of 0%nat; Ok (Not t)
      | kAnd | kOr =>
          let decides := if bool_decide (op s = kAnd) then tFalse else tTrue in
          LogicLoop truth_of decides (seq 0 (count s)) (Not decides)
      | _ =>
          v ← ValueOf (S fuel) index;
          if is_null v then Ok tUnknown
          else if negb (bool_decide (category v = cBool)) then Err (logic_error "a condition that is not bool")
          else Ok (truth (boolean v))
      end
  end.

End Evaluation.

Definition DoesNotHold {A} : res A := Err (out_of_range "column does not hold").

Definition Store (t : Target) (value : Value) : res ColumnValue :=
  let type := binding_type (target_column t) in
  if is_null value then
    if negb (binding_nullable (target_column t)) then Err (invalid_argument "column cannot be NULL") else Ok VNull
  else
    match kind type with
    | kUnsigned =>
        if negb (bool_decide (category value = cInt)) then Err (logic_error "an integer column assigned a value that is not an integer")
        else
          let high := Z.shiftl 1 (size type) - 1 in
          if (integer value <? 0) || (high <? integer value) then DoesNotHold else Ok (VUnsigned (u64 (integer value)))
    | kSigned =>
        if negb (bool_decide (category value = cInt)) then Err (logic_error "an integer column assigned a value that is not an integer")
        else
          let half := Z.shiftl 1 (size type - 1) in
          if (integer value <? - half) || (half <=? integer value) then DoesNotHold else Ok (VSigned (i64 (u64 (integer value))))
    | kFloat32 =>
        if bool_decide (category value = cInt) then Ok (VFloat (f32_of_int (integer value)))
        else if f64_isfinite (number value) && f64_lt float_max (f64_fabs (number value)) then DoesNotHold
        else Ok (VFloat (double_to_float (number value)))
    | kFloat64 => Ok (VDouble (ToDouble value))
    | kBool => Ok (VBool (boolean value))
    | kText =>
        if size type <? len (view value) then DoesNotHold
        else if negb (IsUtf8 (view value)) then Err (invalid_argument "column takes UTF-8 text")
        else Ok (VText (view value))
    | kBytes => if size type <? len (view value) then DoesNotHold else Ok (VBytes (view value))
    | kBits => Ok (VBits (view value))
    end.

Section Evaluate.
Context {U : FloatUnit} (p : Program) (inputs : Inputs).

(** Fuel for every level: a node's index is above those of its operands. *)
Definition EvaluateCondition : res bool :=
  t ← TruthOf p inputs (S (length (steps p))) (root p); Ok (bool_decide (t = tTrue)).

Definition EvaluateAssignments : res (list ColumnValue) :=
  fold_res (fun values t => v ← ValueOf p inputs (S (length (steps p))) (target_root t); x ← Store t v; Ok (values ++ [x]))
    [] (targets p).

End Evaluate.
(** ** Integers are exact or refused *)

(** The result in 128 bits, or the error. *)
Definition exact (r : Z) : res Z := if (- 2 ^ 127 <=? r) && (r <? 2 ^ 127) then Ok r else Overflow.

Lemma exact_in r : in_i 128 r -> exact r = Ok r.
Proof. intros H. unfold exact, in_i in *. change (128 - 1) with 127 in H. by rewrite (proj2 (Z.leb_le _ _)), (proj2 (Z.ltb_lt _ _)) by lia. Qed.

Lemma exact_out r : ~ in_i 128 r -> exact r = Overflow.
Proof.
  intros H. unfold exact, in_i in *. change (128 - 1) with 127 in H.
  destruct (Z.leb_spec (- 2 ^ 127) r), (Z.ltb_spec r (2 ^ 127)); try done. lia.
Qed.

Lemma Int_shift x k : in_i 128 (x + k * 2 ^ 128) -> Int x = x + k * 2 ^ 128.
Proof.
  intros H. unfold Int. rewrite <- (signed_wrap 128 (x + k * 2 ^ 128)) by (done || lia). f_equal. unfold wrap. by rewrite Z.mod_add.
Qed.

Lemma Int_in x : in_i 128 x -> Int x = x.
Proof. intros H. pose proof (Int_shift x 0) as E. rewrite Z.mul_0_l, Z.add_0_r in E. by apply E. Qed.

Lemma Int_wrap x y : UInt x = UInt y -> Int x = Int y.
Proof. unfold Int, UInt. by intros ->. Qed.

(** The sign test of a wrapped result. *)
Lemma signs_differ a b c d : (Z.land (Z.lxor a b) (Z.lxor c d) <? 0) = xorb (a <? 0) (b <? 0) && xorb (c <? 0) (d <? 0).
Proof.
  assert (forall x y, (Z.lxor x y <? 0) = xorb (x <? 0) (y <? 0)) as Hx.
  { intros x y. pose proof (Z.lxor_nonneg x y). destruct (Z.ltb_spec (Z.lxor x y) 0), (Z.ltb_spec x 0), (Z.ltb_spec y 0); cbn; lia. }
  rewrite <- !Hx. pose proof (Z.land_neg (Z.lxor a b) (Z.lxor c d)).
  destruct (Z.ltb_spec (Z.land (Z.lxor a b) (Z.lxor c d)) 0), (Z.ltb_spec (Z.lxor a b) 0), (Z.ltb_spec (Z.lxor c d) 0); cbn; lia.
Qed.

(** [out] is the sum [r] modulo 2^128; [a] and [b] have the signs a sum of that size needs. *)
Lemma Int_sum r : - 2 ^ 128 <= r < 2 ^ 128 ->
  (in_i 128 r /\ Int r = r) \/ (2 ^ 127 <= r /\ Int r < 0) \/ (r < - 2 ^ 127 /\ 0 <= Int r).
Proof.
  intros H. unfold in_i. change (128 - 1) with 127.
  destruct (decide (2 ^ 127 <= r)); [right; left|destruct (decide (r < - 2 ^ 127)); [right; right|left]].
  - rewrite (Int_shift r (-1)) by (unfold in_i; lia). lia.
  - rewrite (Int_shift r 1) by (unfold in_i; lia). lia.
  - rewrite Int_in by (unfold in_i; lia). lia.
Qed.

Lemma Add_exact a b : in_i 128 a -> in_i 128 b -> Add a b = exact (a + b).
Proof.
  intros Ha Hb. unfold Add. replace (Int (UInt a + UInt b)) with (Int (a + b)) by (apply Int_wrap; unfold UInt, wrap; apply Zplus_mod).
  unfold in_i in *. change (128 - 1) with 127 in *. rewrite signs_differ.
  destruct (Int_sum (a + b) ltac:(lia)) as [[H ->]|[[H1 H2]|[H1 H2]]]; [rewrite exact_in by done|rewrite exact_out by (unfold in_i; lia)..].
  all: destruct (Z.ltb_spec a 0), (Z.ltb_spec b 0); try (rewrite (proj2 (Z.ltb_lt _ 0)) by lia); try (rewrite (proj2 (Z.ltb_ge _ 0)) by lia); try done; try lia.
  all: by destruct (a + b <? 0).
Qed.

Lemma Subtract_exact a b : in_i 128 a -> in_i 128 b -> Subtract a b = exact (a - b).
Proof.
  intros Ha Hb. unfold Subtract. replace (Int (UInt a - UInt b)) with (Int (a - b)) by (apply Int_wrap; unfold UInt, wrap; apply Zminus_mod).
  unfold in_i in *. change (128 - 1) with 127 in *. rewrite signs_differ.
  destruct (Int_sum (a - b) ltac:(lia)) as [[H ->]|[[H1 H2]|[H1 H2]]]; [rewrite exact_in by done|rewrite exact_out by (unfold in_i; lia)..].
  all: destruct (Z.ltb_spec a 0), (Z.ltb_spec b 0); try (rewrite (proj2 (Z.ltb_lt _ 0)) by lia); try (rewrite (proj2 (Z.ltb_ge _ 0)) by lia); try done; try lia.
  all: by destruct (a - b <? 0).
Qed.

Lemma Magnitude_abs a : in_i 128 a -> Magnitude a = Z.abs a.
Proof.
  intros Ha. unfold in_i in Ha. change (128 - 1) with 127 in Ha. unfold Magnitude, UInt, wrap. destruct (Z.ltb_spec a 0).
  - rewrite Zminus_mod_idemp_r, Z.mod_small; lia.
  - rewrite Z.mod_small; lia.
Qed.

(** The product from 64-bit halves, when one factor fits 64 bits. *)
Lemma product_halves s b : 0 <= s < 2 ^ 64 -> 0 <= b < 2 ^ 128 ->
  let high := UInt (s * Z.shiftr b 64) in
  let low := UInt (s * Z.land b kLow64) in
  let product := UInt (low + UInt (Z.shiftl high 64)) in
  if kLow64 <? high then 2 ^ 128 <= s * b else if product <? low then 2 ^ 128 <= s * b else product = s * b.
Proof.
  intros Hs Hb. rewrite Z.shiftr_div_pow2 by lia.
  assert (Z.land b kLow64 = b mod 2 ^ 64) as El by (apply (Z.land_ones b 64); lia). rewrite El. intros high low product.
  pose proof (Z.div_mod b (2 ^ 64) ltac:(lia)) as E. pose proof (Z.mod_pos_bound b (2 ^ 64) ltac:(lia)) as Hl.
  assert (0 <= b / 2 ^ 64 < 2 ^ 64) as Hh by (split; [apply Z.div_pos; lia|apply Z.div_lt_upper_bound; lia]).
  set (h := b / 2 ^ 64) in *. set (l := b mod 2 ^ 64) in *.
  assert (high = s * h) as Ehigh by (subst high; unfold UInt; apply wrap_small; unfold in_u; nia).
  assert (low = s * l) as Elow by (subst low; unfold UInt; apply wrap_small; unfold in_u; nia).
  assert (s * b = high * 2 ^ 64 + low) as Esb by (rewrite E, Ehigh, Elow; ring).
  assert (0 <= low) by nia. unfold kLow64. destruct (Z.ltb_spec (2 ^ 64 - 1) high); [lia|].
  assert (0 <= high) by nia. assert (low < 2 ^ 128) by nia.
  subst product. rewrite Z.shiftl_mul_pow2 by lia. unfold UInt. rewrite (wrap_small 128 (high * 2 ^ 64)) by (unfold in_u; lia).
  destruct (decide (low + high * 2 ^ 64 < 2 ^ 128)).
  - rewrite wrap_small by (unfold in_u; lia). destruct (Z.ltb_spec (low + high * 2 ^ 64) low); lia.
  - assert (wrap 128 (low + high * 2 ^ 64) = low + high * 2 ^ 64 - 2 ^ 128) as ->.
    { unfold wrap. symmetry. apply (Z.mod_unique _ _ 1); lia. }
    destruct (Z.ltb_spec (low + high * 2 ^ 64 - 2 ^ 128) low); lia.
Qed.

Lemma Multiply_exact a b : in_i 128 a -> in_i 128 b -> Multiply a b = exact (a * b).
Proof.
  intros Ha Hb. unfold Multiply. rewrite !Magnitude_abs by done. unfold in_i in *. change (128 - 1) with 127 in *.
  assert (Z.abs a * Z.abs b = Z.abs (a * b)) as Eabs by (symmetry; apply Z.abs_mul).
  destruct (Z.ltb_spec kLow64 (Z.abs a)), (Z.ltb_spec kLow64 (Z.abs b)); cbn [andb].
  { rewrite exact_out; [done|]. unfold in_i, kLow64 in *. nia. }
  all: set (small := if Z.abs a <=? kLow64 then Z.abs a else Z.abs b); set (big := if Z.abs a <=? kLow64 then Z.abs b else Z.abs a).
  all: assert (0 <= small < 2 ^ 64 /\ 0 <= big < 2 ^ 128 /\ small * big = Z.abs (a * b)) as (Hs & Hbig & Ep)
    by (subst small big; rewrite <- Eabs; unfold kLow64 in *; destruct (Z.leb_spec (Z.abs a) (2 ^ 64 - 1)); lia).
  all: pose proof (product_halves small big Hs Hbig) as Hp; cbv zeta in Hp; rewrite Ep in Hp; clearbody small big; cbv zeta.
  all: destruct (kLow64 <? _); [rewrite exact_out; [done|unfold in_i; lia]|].
  all: destruct (_ <? _); [rewrite exact_out; [done|unfold in_i; lia]|].
  all: rewrite Hp; clear Hp; change (UInt (Z.shiftl 1 127)) with (2 ^ 127).
  all: assert (xorb (a <? 0) (b <? 0) = true /\ a * b <= 0 \/ xorb (a <? 0) (b <? 0) = false /\ 0 <= a * b) as [[-> Hsign]|[-> Hsign]]
    by (destruct (Z.ltb_spec a 0), (Z.ltb_spec b 0); cbn; [right|left|left|right]; split; try done; nia).
  all: match goal with |- context [?x <? Z.abs ?y] => destruct (Z.ltb_spec x (Z.abs y)) | |- context [?x <=? Z.abs ?y] => destruct (Z.leb_spec x (Z.abs y)) end.
  all: try (rewrite exact_out; [done|unfold in_i; lia]).
  all: rewrite exact_in by (unfold in_i; lia); f_equal.
  all: try (rewrite Z.abs_eq by lia; apply Int_in; unfold in_i; lia).
  all: rewrite Z.abs_neq by lia; rewrite (Int_wrap _ (a * b)) by (unfold UInt; rewrite wrap_idem by lia; f_equal; lia); apply Int_in; unfold in_i; lia.
Qed.

Lemma Divide_exact a b : in_i 128 a -> in_i 128 b ->
  Divide a b = if b =? 0 then Err (invalid_argument "division by zero") else exact (Z.quot a b).
Proof.
  intros Ha Hb. unfold Divide. change kIntMin with (- 2 ^ 127). unfold in_i in *. change (128 - 1) with 127 in *.
  destruct (Z.eqb_spec b 0); [done|]. destruct (Z.eqb_spec a (- 2 ^ 127)) as [->|]; cbn [andb].
  - destruct (Z.eqb_spec b (-1)) as [->|]; [done|]. rewrite exact_in; [done|]. unfold in_i. change (128 - 1) with 127.
    rewrite Z.quot_opp_l by done. pose proof (Z.quot_le_upper_bound (2 ^ 127) (Z.abs b) (2 ^ 127) ltac:(lia) ltac:(nia)).
    pose proof (Z.quot_lt (2 ^ 127) (Z.abs b) ltac:(lia)). pose proof (Z.quot_pos (2 ^ 127) (Z.abs b) ltac:(lia) ltac:(lia)).
    destruct (decide (b < 0)).
    + replace b with (- Z.abs b) by lia. rewrite Z.quot_opp_r by lia. lia.
    + replace b with (Z.abs b) by lia. lia.
  - rewrite exact_in; [done|]. unfold in_i. change (128 - 1) with 127.
    pose proof (Z.quot_abs a b n) as Eq. assert (Z.abs (Z.quot a b) <= Z.abs a); [|lia].
    rewrite <- Eq. apply Z.quot_le_upper_bound; nia.
Qed.

Lemma Modulo_exact a b : in_i 128 a -> in_i 128 b ->
  Modulo a b = if b =? 0 then Err (invalid_argument "modulo by zero") else exact (Z.rem a b).
Proof.
  intros Ha Hb. unfold Modulo. destruct (Z.eqb_spec b 0) as [|Hb0]; [done|].
  pose proof (Z.rem_bound_abs a b Hb0) as Hr. unfold in_i in *. change (128 - 1) with 127 in *.
  rewrite exact_in by (unfold in_i; lia). f_equal. destruct (Z.eqb_spec b (-1)) as [->|]; [|done]. lia.
Qed.

(** C18: integers compute exactly in 128 bits: sum, difference and product built from wrapping and from 64-bit
    halves, quotient and remainder give the mathematical result when it fits 128 bits and the overflow error
    otherwise; a zero divisor is an error of its own. *)
Theorem int128_arithmetic a b (Ha : in_i 128 a) (Hb : in_i 128 b) :
  Add a b = exact (a + b) /\ Subtract a b = exact (a - b) /\ Multiply a b = exact (a * b) /\
  Divide a b = (if b =? 0 then Err (invalid_argument "division by zero") else exact (Z.quot a b)) /\
  Modulo a b = (if b =? 0 then Err (invalid_argument "modulo by zero") else exact (Z.rem a b)).
Proof. auto 6 using Add_exact, Subtract_exact, Multiply_exact, Divide_exact, Modulo_exact. Qed.

Lemma int128_arithmetic_witness :
  Multiply (- 2 ^ 64) (2 ^ 63) = Ok (- 2 ^ 127) /\ Multiply (2 ^ 64) (2 ^ 63) = Overflow.
Proof.
  split.
  - rewrite (proj1 (proj2 (proj2 (int128_arithmetic (- 2 ^ 64) (2 ^ 63) ltac:(split; by compute) ltac:(split; by compute))))). reflexivity.
  - vm_compute. reflexivity.
Defined.

Definition order_of (c : comparison) : Order := match c with Lt => oLess | Eq => oEqual | Gt => oGreater end.

Section Compare.
Context {U : FloatUnit}.

Lemma CompareIntFloat_exact n b : in_i 128 n -> in_u 64 b ->
  CompareIntFloat n b = Ok (if f64_is_nan b then oUnordered else order_of (int_compare_f64 n b)).
Proof.
  intros Hn Hb.  unfold CompareIntFloat. destruct (f64_is_nan b) eqn:Hnan; [done|]. change kTwo127 with (1150 * 2 ^ 52).
  destruct (f64_beyond b n Hb Hnan Hn) as (H1 & H2 & H3). destruct (f64_lt b (1150 * 2 ^ 52)) eqn:E1; cbn [negb]; [|by rewrite H1].
  destruct (f64_lt b (f64_neg (1150 * 2 ^ 52))) eqn:E2; [by rewrite H2|]. specialize (H3 eq_refl eq_refl).
  assert (f64_isfinite b = true) as Hf by (apply negb_true_iff, Z.eqb_neq; lia).
  destruct (f64_int_trunc b Hb Hf) as [F1 F2]. pose proof (f64_int_range b Hb H3) as Hr.
  unfold f64_to_int128. rewrite F1, F2, (proj2 (Z.leb_le _ _)), (proj2 (Z.ltb_lt _ _)) by lia. cbn [andb]. rewrite bind_Ok_l.
  destruct (f64_fraction_sign b Hb Hf) as [-> ->]. destruct (f64_fields b Hb) as (_ & Hs & _ & Hman).
  unfold int_compare_f64, f64_is_inf. rewrite (proj2 (Z.eqb_neq (f64_exp b) 2047)) by lia. cbn [andb].
  unfold f64_int, f64_rest. destruct (Z.leb_spec 0 (f64_expo b)).
  - cbn [Z.ltb]. destruct (Z.eqb_spec n (f64_num b * 2 ^ f64_expo b)) as [->|]; cbn [negb]; [by rewrite Z.compare_refl|].
    destruct (Z.ltb_spec n (f64_num b * 2 ^ f64_expo b)), (Z.compare_spec n (f64_num b * 2 ^ f64_expo b)); (done || lia).
  - set (P := 2 ^ (- f64_expo b)). assert (0 < P) by (apply Z.pow_pos_nonneg; lia).
    pose proof (Z.quot_rem (f64_num b) P ltac:(lia)) as Eqr. pose proof (Z.rem_bound_abs (f64_num b) P ltac:(lia)) as Hrem.
    set (q := Z.quot (f64_num b) P) in *. set (r := Z.rem (f64_num b) P) in *.
    destruct (Z.compare_spec (n * P) (f64_num b)), (Z.eqb_spec n q) as [->|]; cbn [negb].
    all: try (destruct (Z.ltb_spec 0 r), (Z.ltb_spec r 0); (done || nia)).
    all: destruct (Z.ltb_spec n q); (done || nia).
Qed.

(** C25: an integer of 128 bits compares with a double as the numbers they are, without rounding either; the
    conversion of the double to an integer on the way is always defined. *)
Theorem compare_int_float n b (Hn : in_i 128 n) (Hb : in_u 64 b) :
  CompareIntFloat n b = Ok (if f64_is_nan b then oUnordered else order_of (int_compare_f64 n b)).
Proof. by apply CompareIntFloat_exact. Qed.

End Compare.

(** A machine whose operations all give the same NaN. *)
Definition PlainUnit : FloatUnit.
Proof. refine {| nan_bits := fun _ _ _ => quiet_NaN |}. intros. split; [split; by compute|reflexivity]. Defined.

(** 2^53 + 1 is above the double 2^53, though it rounds to it. *)
Lemma compare_int_float_witness : @CompareIntFloat PlainUnit (2 ^ 53 + 1) 0x4340000000000000 = Ok oGreater.
Proof. rewrite (@compare_int_float PlainUnit); [reflexivity|split; by compute..]. Defined.

End ExprEval.
