(* ===== verification/ExprPlan.v ===== *)
(** * Planning expressions (src/src/expr.cpp, src/src/expr.hpp)

    A parsed expression is a list of nodes, each after its operands.  Planning
    checks the shape of the list, names and types every node, gives each
    parameter the type of the column it meets, types the nodes again and compiles
    them to the steps of [ExprEval].  What is planned evaluates without a type
    error, and what is assigned fits its column. *)
From stdpp Require Import prelude strings sorting.
From Stdlib Require Import ZArith Lia.
From S2P Require Import Prelude Text Utf8 Floats Doubles Columns ExprEval.

#[local] Open Scope Z_scope.

Module ExprPlan.
Import Text Utf8 Floats Doubles Columns ExprEval.

(** cql::Literal; a default literal is NULL. *)
Inductive Literal :=
| LNull
| LInteger (negative : bool) (magnitude : Z)
| LDouble (bits : Z)
| LBool (b : bool)
| LText (value : bytes)
| LBytes (value : bytes)
| LBits (digits : bytes)
| LParameter (index : Z).

Record Node := { node_op : Op; node_column : Z; node_literal : Literal; node_name : bytes; node_operands : list nat }.
Record Expression := { nodes : list Node; expression_root : nat }.
Record AssignmentExpression := { assigned_column : bytes; assigned_at : Z; assigned_value : Expression }.

Record Limits := { max_nodes : Z; max_depth : Z }.
Definition kDefaultMaxNodes : Z := 256.
Definition kDefaultMaxDepth : Z := 32.

(** The names an expression is planned against. *)
Record Schema := { BlockColumn : bytes -> option ColumnBinding; ChunkColumn : bytes -> option ColumnBinding }.

Fixpoint FindFrom (i : nat) (columns : list Column) (n : bytes) : option ColumnBinding :=
  match columns with
  | [] => None
  | c :: columns =>
      if bool_decide (name c = n)
      then Some {| binding_id := id c; binding_slot := i; binding_type := type c; binding_nullable := nullable c |}
      else FindFrom (S i) columns n
  end.

Definition Find (columns : list Column) (n : bytes) : option ColumnBinding := FindFrom 0 columns n.

Definition ColumnList (block chunk : list Column) : Schema := {| BlockColumn := Find block; ChunkColumn := Find chunk |}.

(** ** Types *)

Definition kI64 : ColumnType := {| kind := kSigned; size := 64 |}.
Definition kU64 : ColumnType := {| kind := kUnsigned; size := 64 |}.
Definition kF32 : ColumnType := {| kind := kFloat32; size := 32 |}.
Definition kF64 : ColumnType := {| kind := kFloat64; size := 64 |}.

Record Type_ := MkType { type_category : Category; typed : bool; repr : ColumnType }.

(** [Type{.category = c}]. *)
Definition plain (c : Category) : Type_ := MkType c false {| kind := kBits; size := 0 |}.

Definition IsOpen (c : Category) : bool := match c with cUnknown | cNull => true | _ => false end.
Definition IsNumber (c : Category) : bool := match c with cInt | cFloat => true | _ => false end.

Definition CategoryOf (k : ColumnKind) : Category :=
  match k with
  | kUnsigned | kSigned => cInt
  | kFloat32 | kFloat64 => cFloat
  | kBool => cBool
  | kText => cText
  | kBytes => cBytes
  | kBits => cBits
  end.

Definition TypeOf (t : ColumnType) : Type_ := MkType (CategoryOf (kind t)) true t.

Definition LiteralType (l : Literal) : Type_ :=
  match l with
  | LInteger _ _ => MkType cInt false kI64
  | LDouble _ => MkType cFloat false kF64
  | LBool _ => MkType cBool false {| kind := kBool; size := 1 |}
  | LText _ => MkType cText false {| kind := kText; size := 0 |}
  | LBytes _ => MkType cBytes false {| kind := kBytes; size := 0 |}
  | LBits ds => MkType cBits false {| kind := kBits; size := u32 (len ds) |}
  | LParameter _ => plain cUnknown
  | LNull => plain cNull
  end.

Definition TypeError {A} (message : string) : res A := Err (invalid_argument message).
Definition Malformed {A} (message : string) : res A := Err (invalid_argument ("malformed expression: " +:+ message)).

Definition is_f32 (t : Type_) : bool :=
  bool_decide (type_category t = cFloat) && typed t && bool_decide (kind (repr t) = kFloat32).

Definition MergeNumbers (a b : Type_) : Type_ :=
  if IsOpen (type_category a) && IsOpen (type_category b) then
    let unknown := bool_decide (type_category a = cUnknown) || bool_decide (type_category b = cUnknown) in
    plain (if unknown then cUnknown else cNull)
  else if IsOpen (type_category a) then b
  else if IsOpen (type_category b) then a
  else
    let t := typed a || typed b in
    if bool_decide (type_category a = cFloat) || bool_decide (type_category b = cFloat) then
      MkType cFloat t (if is_f32 a && is_f32 b then kF32 else kF64)
    else
      MkType cInt t
        (if typed a && typed b then
           if bool_decide (repr a = repr b) then repr a
           else if bool_decide (kind (repr a) = kSigned) || bool_decide (kind (repr b) = kSigned) then kI64 else kU64
         else if typed a then repr a else if typed b then repr b else kI64).

Definition MergeAny (a b : Type_) : res Type_ :=
  let ca := type_category a in
  let cb := type_category b in
  if IsOpen ca || IsOpen cb || (IsNumber ca && IsNumber cb) then
    if IsOpen ca && negb (IsOpen cb) then Ok b
    else if IsOpen cb && negb (IsOpen ca) then Ok a
    else Ok (MergeNumbers a b)
  else if negb (bool_decide (ca = cb)) || (bool_decide (ca = cBits) && negb (size (repr a) =? size (repr b))) then
    TypeError "takes arguments of one type"
  else Ok (if typed a then a else b).

Definition CheckComparable (left right : Type_) (o : Op) : res unit :=
  let cl := type_category left in
  let cr := type_category right in
  match (if negb (IsOpen cl) then Some cl else if negb (IsOpen cr) then Some cr else None) with
  | None => Ok tt
  | Some known =>
      _ ← throw_if (negb (IsOpen cl) && negb (IsOpen cr) &&
                    negb (IsNumber cl && IsNumber cr) &&
                    negb (bool_decide (cl = cr) && (negb (bool_decide (cl = cBits)) || (size (repr left) =? size (repr right)))))
            (invalid_argument "cannot compare");
      let equality := bool_decide (o = kEqual) || bool_decide (o = kNotEqual) in
      throw_if ((bool_decide (known = cBool) || bool_decide (known = cBits)) && negb equality)
        (invalid_argument "supports only = and <>")
  end.

Definition OperandCount (o : Op) (given : nat) : nat :=
  match o with
  | kLiteral | kParameter | kColumn | kChunkColumn | kPosX | kPosY | kPosZ | kNow | kExists => 0
  | kNegate | kIsNull | kIsNotNull | kNot => 1
  | kAdd | kSubtract | kMultiply | kDivide | kModulo
  | kEqual | kNotEqual | kLess | kLessEqual | kGreater | kGreaterEqual => 2
  | kBetween | kNotBetween => 3
  | kLeast | kGreatest | kCoalesce => if (1 <=? given)%nat then given else 1
  | kIn | kNotIn | kAnd | kOr => if (2 <=? given)%nat then given else 2
  end.

(** ** The planner *)

Definition is_parameter (l : Literal) : bool := match l with LParameter _ => true | _ => false end.
Definition is_logic (o : Op) : bool := match o with kNot | kAnd | kOr => true | _ => false end.

(** One operand of node [i]; the state: which nodes are operands already, and the node's depth. *)
Definition CheckOperand (ns : list Node) (depths : list Z) (i : nat) (node : Node) (st : list bool * Z) (operand : nat) : res (list bool * Z) :=
  let '(used, depth) := st in
  if (i <=? operand)%nat then Malformed "an operand must come before its node"
  else
    match ns !! operand, used !! operand, depths !! operand with
    | Some n, Some u, Some d =>
        if u : bool then Malformed "a node is an operand twice"
        else if negb (is_logic (node_op node)) && negb (IsValue (node_op n)) then Malformed "a predicate cannot be an operand of a value"
        else Ok (<[operand := true]> used, Z.max depth (d + 1))
    | _, _, _ => Err (undefined "operand out of range")
    end.

(** The state: the flags and the depths of the nodes so far. *)
Definition CheckNode (ns : list Node) (limits : Limits) (st : list bool * list Z) (node : Node) : res (list bool * list Z) :=
  let '(used, depths) := st in
  _ ← (if negb (bool_decide (length (node_operands node) = OperandCount (node_op node) (length (node_operands node))))
       then Malformed "wrong number of operands" else Ok tt);
  _ ← (if negb (eqb (bool_decide (node_op node = kParameter)) (is_parameter (node_literal node)))
       then Malformed "a parameter must be a kParameter node" else Ok tt);
  '(used, depth) ← fold_res (CheckOperand ns depths (length depths) node) (used, 1) (node_operands node);
  _ ← throw_if (max_depth limits <? depth) (parse_error "the expression is nested too deeply");
  Ok (used, depths ++ [depth]).

(** The constructor of Planner. *)
Definition CheckExpression (e : Expression) (limits : Limits) : res unit :=
  _ ← (if bool_decide (nodes e = []) || (length (nodes e) <=? expression_root e)%nat then Malformed "no root" else Ok tt);
  _ ← throw_if (max_nodes limits <? Z.of_nat (length (nodes e))) (parse_error "the expression is too long");
  _ ← fold_res (CheckNode (nodes e) limits) (replicate (length (nodes e)) false, []) (nodes e);
  Ok tt.

Section Planner.
Context (schema : Schema).

Definition type_at (types : list Type_) (i : nat) : res Type_ :=
  match types !! i with Some t => Ok t | None => Err (undefined "types_[i]") end.

(** [types_[ops[k]]]. *)
Definition operand_type (types : list Type_) (node : Node) (k : nat) : res Type_ :=
  match node_operands node !! k with Some o => type_at types o | None => Err (undefined "ops[k]") end.

Definition CheckTruth (o : Op) (t : Type_) : res unit :=
  if negb (IsValue o) then Ok tt
  else throw_if (negb (bool_decide (type_category t = cBool)) && negb (IsOpen (type_category t))) (invalid_argument "a condition must be bool").

Definition RequireNumber (t : Type_) : res unit :=
  throw_if (negb (IsNumber (type_category t)) && negb (IsOpen (type_category t))) (invalid_argument "takes numbers").

(** The binding of a column's node. *)
Definition BindingOf (node : Node) : res ColumnBinding :=
  match (if bool_decide (node_op node = kChunkColumn) then ChunkColumn schema (node_name node) else BlockColumn schema (node_name node)) with
  | Some b => Ok b
  | None => Err (invalid_argument "the table has no column")
  end.

Definition NegateType (t : Type_) : Type_ :=
  if bool_decide (type_category t = cInt) && typed t && bool_decide (kind (repr t) = kUnsigned)
  then MkType (type_category t) (typed t) kI64 else t.

(** The loops over the operands of LEAST, GREATEST and COALESCE. *)
Fixpoint MergeLoop (merge : Type_ -> Type_ -> res Type_) (acc : Type_) (ts : list Type_) : res Type_ :=
  match ts with
  | [] => Ok acc
  | t :: ts => acc ← merge acc t; MergeLoop merge acc ts
  end.

Definition operand_types (types : list Type_) (node : Node) : res (list Type_) :=
  fold_res (fun ts o => t ← type_at types o; Ok (ts ++ [t])) [] (node_operands node).

Definition first_known (ts : list Type_) : option Type_ := List.find (fun t => negb (IsOpen (type_category t))) ts.

(** One node; [types] are those of the nodes before it, [declared] is the type its parameter took. *)
Definition InferNode (ns : list Node) (bound : bool) (declared : option ColumnType) (types : list Type_) (node : Node) : res Type_ :=
  match node_op node with
  | kLiteral => Ok (LiteralType (node_literal node))
  | kParameter =>
      if bound then match declared with Some t => Ok (TypeOf t) | None => Err (undefined "declared_[i]") end
      else Ok (plain cUnknown)
  | kColumn | kChunkColumn => b ← BindingOf node; Ok (TypeOf (binding_type b))
  | kPosX | kPosY | kPosZ => Ok (TypeOf kI64)
  | kNow => Ok (TypeOf kU64)
  | kNegate => t ← operand_type types node 0; _ ← RequireNumber t; Ok (NegateType t)
  | kAdd | kSubtract | kMultiply | kDivide | kModulo =>
      a ← operand_type types node 0; b ← operand_type types node 1;
      _ ← RequireNumber a; _ ← RequireNumber b; Ok (MergeNumbers a b)
  | kLeast | kGreatest =>
      t ← operand_type types node 0; ts ← operand_types types node;
      _ ← RequireNumber t;
      MergeLoop (fun acc t => _ ← RequireNumber t; Ok (MergeNumbers acc t)) t (tail ts)
  | kCoalesce => t ← operand_type types node 0; ts ← operand_types types node; MergeLoop MergeAny t (tail ts)
  | kEqual | kNotEqual | kLess | kLessEqual | kGreater | kGreaterEqual =>
      a ← operand_type types node 0; b ← operand_type types node 1;
      _ ← CheckComparable a b (node_op node); Ok (plain cBool)
  | kIn | kNotIn =>
      ts ← operand_types types node;
      _ ← match first_known ts with
          | None => Ok tt
          | Some known => fold_res (fun _ t => CheckComparable known t kEqual) tt ts
          end;
      Ok (plain cBool)
  | kBetween | kNotBetween =>
      v ← operand_type types node 0; low ← operand_type types node 1; high ← operand_type types node 2;
      let value := if IsOpen (type_category v) then if negb (IsOpen (type_category low)) then low else high else v in
      _ ← CheckComparable value low kGreaterEqual; _ ← CheckComparable value high kLessEqual; Ok (plain cBool)
  | kNot | kAnd | kOr =>
      _ ← fold_res (fun _ o => t ← type_at types o;
                               match ns !! o with Some n => CheckTruth (node_op n) t | None => Err (undefined "nodes[operand]") end)
            tt (node_operands node);
      Ok (plain cBool)
  | kIsNull | kIsNotNull | kExists => Ok (plain cBool)
  end.

(** The types of the nodes, operands first; those of the nodes before [i] are known when [i] is typed. *)
Definition Infer (ns : list Node) (bound : bool) (declared : list (option ColumnType)) : res (list Type_) :=
  fold_res (fun types node => t ← InferNode ns bound (default None (declared !! length types)) types node; Ok (types ++ [t])) [] ns.

(** ** The types of parameters *)

Record Binding := { contexts : list (option Type_); declared_ : list (option ColumnType) }.

Definition typed_at (types : list Type_) (node : Node) (k : nat) : res (option Type_) :=
  t ← operand_type types node k; Ok (if typed t then Some t else None).

(** [context[operand] = c] for the operands [os]. *)
Definition set_contexts (st : Binding) (os : list nat) (c : option Type_) : Binding :=
  {| contexts := fold_left (fun ctx o => <[o := c]> ctx) os (contexts st); declared_ := declared_ st |}.

Definition BindNode (ns : list Node) (types : list Type_) (st : Binding) (i : nat) : res Binding :=
  match ns !! i with
  | None => Err (undefined "nodes[i]")
  | Some node =>
      t ← type_at types i;
      let own := if negb (typed t) then default t (default None (contexts st !! i)) else t in
      let down := if typed own then Some own else None in
      match node_op node with
      | kParameter =>
          if negb (typed own) then TypeError "has no column to take its type from"
          else Ok {| contexts := contexts st; declared_ := <[i := Some (repr own)]> (declared_ st) |}
      | kNegate | kAdd | kSubtract | kMultiply | kDivide | kModulo | kLeast | kGreatest | kCoalesce =>
          Ok (set_contexts st (node_operands node) down)
      | kEqual | kNotEqual | kLess | kLessEqual | kGreater | kGreaterEqual =>
          a ← typed_at types node 0; b ← typed_at types node 1;
          Ok (set_contexts (set_contexts st (take 1 (node_operands node)) b) (take 1 (drop 1 (node_operands node))) a)
      | kIn | kNotIn => a ← typed_at types node 0; Ok (set_contexts st (drop 1 (node_operands node)) a)
      | kBetween | kNotBetween =>
          a ← typed_at types node 0; low ← typed_at types node 1; high ← typed_at types node 2;
          let common :=
            match a with
            | Some _ => a
            | None =>
                match low, high with
                | Some l, Some h => if IsNumber (type_category l) && IsNumber (type_category h) then Some (MergeNumbers l h) else low
                | Some _, None => low
                | None, _ => high
                end
            end in
          Ok (set_contexts st (node_operands node) common)
      | _ => Ok st
      end
  end.

(** From the last node to the first. *)
Fixpoint BindLoop (ns : list Node) (types : list Type_) (i : nat) (st : Binding) : res Binding :=
  match i with
  | O => Ok st
  | S i => st ← BindNode ns types st i; BindLoop ns types i st
  end.

Definition Bind (e : Expression) (types : list Type_) (target : option Type_) : res (list (option ColumnType)) :=
  let n := length (nodes e) in
  st ← BindLoop (nodes e) types n
         {| contexts := <[expression_root e := target]> (replicate n None); declared_ := replicate n None |};
  Ok (declared_ st).

(** ** Compiling *)

Definition LiteralValue (t : Type_) (l : Literal) : Value :=
  let c := type_category t in
  match l with
  | LInteger negative m => MkValue c (if negative then - m else m) 0 false []
  | LDouble b => MkValue c 0 b false []
  | LBool b => MkValue c 0 0 b []
  | LText s | LBytes s | LBits s => MkValue c 0 0 false s
  | LNull | LParameter _ => MkValue c 0 0 false []
  end.

Definition no_type : ColumnType := {| kind := kBits; size := 0 |}.

Definition CompileNode (offset : nat) (types : list Type_) (declared : list (option ColumnType)) (st : Program * nat) (node : Node) : res (Program * nat) :=
  let '(p, i) := st in
  t ← type_at types i;
  '(slot, type, literal, parameter) ←
    (match node_op node with
     | kColumn | kChunkColumn => b ← BindingOf node; Ok (binding_slot b, binding_type b, NullValue, [])
     | kParameter =>
         match node_literal node, default None (declared !! i) with
         | LParameter index, Some d => Ok (Z.to_nat (index - 1), d, NullValue, [{| parameter_index := index; parameter_type := d |}])
         | _, _ => Err (undefined "parameter")
         end
     | kLiteral => Ok (O, no_type, LiteralValue t (node_literal node), [])
     | _ => Ok (O, no_type, NullValue, [])
     end);
  let step := {| op := node_op node; step_category := type_category t; step_column := node_column node;
                 first := length (operands p); count := length (node_operands node);
                 slot := slot; step_type := type; literal := literal |} in
  Ok ({| steps := steps p ++ [step]; operands := operands p ++ map (Nat.add offset) (node_operands node);
         root := root p; targets := targets p; parameters := parameters p ++ parameter |}, S i).

Definition Compile (e : Expression) (types : list Type_) (declared : list (option ColumnType)) (p : Program) : res (Program * nat) :=
  let offset := length (steps p) in
  '(p, _) ← fold_res (CompileNode offset types declared) (p, O) (nodes e);
  Ok (p, (offset + expression_root e)%nat).

(** The program with the expression, the index of its root and the type of its root. *)
Definition Plan (e : Expression) (target : option Type_) (p : Program) : res (Program * nat * Type_) :=
  match nodes e !! expression_root e with
  | None => Err (undefined "nodes[root]")
  | Some root =>
      _ ← match target with
          | Some _ => if negb (IsValue (node_op root)) then Malformed "an assignment takes a value" else Ok tt
          | None => Ok tt
          end;
      types ← Infer (nodes e) false [];
      _ ← match target with
          | None => t ← type_at types (expression_root e); CheckTruth (node_op root) t
          | Some _ => Ok tt
          end;
      declared ← Bind e types target;
      types ← Infer (nodes e) true declared;
      '(p, r) ← Compile e types declared p;
      t ← type_at types (expression_root e);
      Ok (p, r, t)
  end.

Definition parameter_le (a b : ParameterType) : Prop := parameter_index a <= parameter_index b.
#[global] Instance parameter_le_dec a b : Decision (parameter_le a b).
Proof. unfold parameter_le. apply _. Defined.

Definition SortParameters (p : Program) : Program :=
  {| steps := steps p; operands := operands p; root := root p; targets := targets p; parameters := merge_sort parameter_le (parameters p) |}.

Definition no_program : Program := {| steps := []; operands := []; root := O; targets := []; parameters := [] |}.

Definition PlanCondition (e : Expression) (limits : Limits) : res Program :=
  _ ← CheckExpression e limits;
  '(p, r, _) ← Plan e None no_program;
  Ok (SortParameters {| steps := steps p; operands := operands p; root := r; targets := targets p; parameters := parameters p |}).

(** One assignment; [before] are the columns assigned before it. *)
Definition PlanAssignment (limits : Limits) (st : Program * list bytes) (a : AssignmentExpression) : res (Program * list bytes) :=
  let '(p, before) := st in
  _ ← throw_if (bool_decide (assigned_column a ∈ before)) (invalid_argument "column is assigned twice");
  match BlockColumn schema (assigned_column a) with
  | None => Err (invalid_argument "the table has no column")
  | Some column =>
      _ ← CheckExpression (assigned_value a) limits;
      '(p, r, t) ← Plan (assigned_value a) (Some (TypeOf (binding_type column))) p;
      let wanted := CategoryOf (kind (binding_type column)) in
      _ ← (if bool_decide (type_category t = cNull) then
             throw_if (negb (binding_nullable column) &&
                       match nodes (assigned_value a) !! expression_root (assigned_value a) with
                       | Some n => bool_decide (node_op n = kLiteral)
                       | None => false
                       end) (invalid_argument "column cannot be NULL")
           else
             throw_if ((negb (bool_decide (type_category t = wanted)) && negb (bool_decide (wanted = cFloat) && bool_decide (type_category t = cInt))) ||
                       (bool_decide (wanted = cBits) && negb (size (repr t) =? size (binding_type column))))
               (invalid_argument "column cannot take"));
      Ok ({| steps := steps p; operands := operands p; root := root p;
             targets := targets p ++ [{| target_column := column; target_name := assigned_column a; target_root := r |}];
             parameters := parameters p |}, before ++ [assigned_column a])
  end.

Definition PlanAssignments (assignments : list AssignmentExpression) (limits : Limits) : res Program :=
  '(p, _) ← fold_res (PlanAssignment limits) (no_program, []) assignments;
  Ok (SortParameters p).

End Planner.
(** ** Values of a type *)

(** The errors an evaluation documents: out of range, division by zero, a parameter
    that is missing or not of its type, NULL or other text than the column takes. *)
Definition documented (e : exn) : Prop := match e with out_of_range _ | invalid_argument _ => True | _ => False end.

Definition good {A} (P : A -> Prop) (r : res A) : Prop := match r with Ok a => P a | Err e => documented e end.

Lemma good_bind {A B} (P : A -> Prop) (Q : B -> Prop) (r : res A) (f : A -> res B) :
  good P r -> (forall a, P a -> good Q (f a)) -> good Q (r ≫= f).
Proof. destruct r; cbn; [by intros H1 H2; apply H2|done]. Qed.

Lemma good_weaken {A} (P Q : A -> Prop) (r : res A) : good P r -> (forall a, P a -> Q a) -> good Q r.
Proof. destruct r; cbn; [by auto|done]. Qed.

Definition binary_digits (ds : bytes) : Prop := Forall (fun c => c = 48 \/ c = 49) ds.

(** What a value holds besides its category. *)
Definition data_ok (t : Type_) (v : Value) : Prop :=
  match type_category t with
  | cInt => in_i 128 (integer v)
  | cFloat => in_u 64 (number v)
  | cBits => len (view v) = size (repr t) /\ binary_digits (view v)
  | cText | cBytes => bytes_ok (view v)
  | cBool => True
  | cUnknown | cNull => False
  end.

Definition value_ok (t : Type_) (v : Value) : Prop :=
  category v = cNull \/ (category v = type_category t /\ data_ok t v).

Lemma value_ok_open t v : value_ok t v -> IsOpen (type_category t) = true -> category v = cNull.
Proof. intros [H|[H1 H2]] Ho; [done|]. unfold data_ok in H2. destruct (type_category t); done. Qed.

Lemma null_ok t : value_ok t NullValue.
Proof. by left. Qed.

Lemma is_null_spec v : is_null v = true <-> category v = cNull.
Proof. unfold is_null. apply bool_decide_eq_true. Qed.

Lemma is_null_false v : is_null v = false <-> category v <> cNull.
Proof. unfold is_null. apply bool_decide_eq_false. Qed.

Definition literal_ok (l : Literal) : Prop :=
  match l with
  | LInteger _ m => in_u 64 m
  | LDouble b => in_u 64 b
  | LText b | LBytes b => bytes_ok b
  | LBits ds => binary_digits ds /\ len ds < 2 ^ 32
  | LNull | LBool _ | LParameter _ => True
  end.

Lemma literal_value_ok l : literal_ok l -> is_parameter l = false -> value_ok (LiteralType l) (LiteralValue (LiteralType l) l).
Proof.
  intros Hl Hp. destruct l as [|neg m|b|b|b|b|ds|]; cbn in *; try done; [by left|..]; right; (split; [done|]); unfold data_ok; cbn.
  - unfold in_u, in_i in *. destruct neg; lia.
  - done.
  - done.
  - done.
  - done.
  - destruct Hl as [H1 H2]. split; [|done]. symmetry. apply wrap_small. unfold in_u. lia.
Qed.

(** A value of a column of the table, or of a parameter. *)
Definition given_ok (v : ColumnValue) : Prop :=
  representable v /\ match v with VBits ds => binary_digits ds | _ => True end.

Lemma Load_ok v t x : given_ok v -> Load v t = Some x -> value_ok (TypeOf t) x.
Proof.
  intros [Hr Hd] Hl. unfold Load in Hl. destruct v; [injection Hl as <-; apply null_ok|..].
  all: destruct (kind t) eqn:Hk; try discriminate Hl; try (case_match eqn:El; [|discriminate Hl]); injection Hl as <-.
  all: right; unfold TypeOf, data_ok; cbn; rewrite Hk; (split; [done|]); cbn in *; try done.
  - unfold in_u, in_i in *. lia.
  - unfold in_i in *. lia.
  - by apply float_to_double_bound.
  - apply Z.eqb_eq in El. done.
Qed.

Lemma Load_holds t v : holds t v -> is_Some (Load v t).
Proof.
  unfold holds, Load. destruct (kind t) eqn:Hk, v; try done; intros H; try (eexists; reflexivity).
  destruct H as [H _]. rewrite H, Z.eqb_refl. by eexists.
Qed.

Lemma holds_given_ok t v : type_ok t -> holds t v -> given_ok v.
Proof.
  intros Ht H. unfold holds, type_ok, given_ok in *. destruct (kind t) eqn:Hk, v; try done; cbn; try tauto; split; try done.
  - unfold in_u. pose proof (Z.pow_le_mono_r 2 (size t) 64 ltac:(lia) ltac:(lia)). lia.
  - unfold in_i. pose proof (Z.pow_le_mono_r 2 (size t - 1) 63 ltac:(lia) ltac:(lia)). lia.
  - destruct H as [_ H]. eapply Forall_impl; [exact H|]. intros c Hc. cbn in Hc. unfold byte_ok. lia.
  - by destruct H.
Qed.

(** ** Arithmetic and comparison of typed values *)

Lemma exact_good z : good (in_i 128) (exact z).
Proof. unfold exact. destruct (Z.leb_spec (- 2 ^ 127) z), (Z.ltb_spec z (2 ^ 127)); cbn; try done. Qed.

Lemma int_op_good o a b : in_i 128 a -> in_i 128 b ->
  good (in_i 128) ((match o with kAdd => Add | kSubtract => Subtract | kMultiply => Multiply | kDivide => Divide | _ => Modulo end) a b).
Proof.
  intros Ha Hb. pose proof exact_good.
  destruct o; rewrite ?Add_exact, ?Subtract_exact, ?Multiply_exact, ?Divide_exact, ?Modulo_exact by done; try done; by case_match.
Qed.

(** A number that an expression of category [c] may meet. *)
Definition number_ok (c : Category) (v : Value) : Prop :=
  category v = cNull \/ (category v = cInt /\ in_i 128 (integer v) /\ (c = cInt \/ c = cFloat)) \/
  (category v = cFloat /\ in_u 64 (number v) /\ c = cFloat).

Lemma f64_of_int_bound n : in_u 64 (f64_of_int n).
Proof. apply f64_of_dyadic_bound. lia. Qed.

Lemma ToDouble_bound c v : number_ok c v -> category v <> cNull -> in_u 64 (ToDouble v).
Proof.
  intros [H|[(H & H1 & _)|(H & H1 & _)]] Hn; [done|..]; unfold ToDouble; case_bool_decide; try congruence. apply f64_of_int_bound.
Qed.

(** [a] may be an operand of an expression of type [t]. *)
Definition fits_number (a t : Type_) : Prop :=
  IsOpen (type_category a) = true \/ (IsNumber (type_category a) = true /\ (type_category t = type_category a \/ type_category t = cFloat)).

Lemma fits_number_ok a t v : fits_number a t -> value_ok a v -> number_ok (type_category t) v.
Proof.
  intros Hf Hv. destruct Hf as [Ho|[Hn Hc]]; [left; by eapply value_ok_open|].
  destruct Hv as [H|[H Hd]]; [by left|]. right. unfold data_ok in Hd. destruct (type_category a) eqn:Ea; try done.
  - left. destruct Hc as [-> | ->]; auto.
  - right. destruct Hc as [-> | ->]; auto.
Qed.

Lemma MergeNumbers_fits a b : (IsOpen (type_category a) = true \/ IsNumber (type_category a) = true) ->
  (IsOpen (type_category b) = true \/ IsNumber (type_category b) = true) ->
  fits_number a (MergeNumbers a b) /\ fits_number b (MergeNumbers a b) /\
  (IsOpen (type_category (MergeNumbers a b)) = true \/ IsNumber (type_category (MergeNumbers a b)) = true).
Proof.
  unfold fits_number, MergeNumbers. destruct a as [ca ta ra], b as [cb tb rb]. cbn.
  destruct ca, cb; cbn; intros [Ha|Ha] [Hb|Hb]; try discriminate Ha; try discriminate Hb; auto 10.
Qed.

Lemma fits_number_trans a b c : fits_number a b -> fits_number b c -> fits_number a c.
Proof.
  unfold fits_number. intros [H|[H1 H2]]; [by left|]. right. split; [done|].
  destruct H as [H|[H3 H4]], H2 as [H2|H2]; try (rewrite H2 in *); try (destruct (type_category a); done); auto.
  destruct H4 as [-> | ->]; auto.
Qed.

Section Eval.
Context {U : FloatUnit}.

Lemma Arithmetic_ok o a b va vb : fits_number a (MergeNumbers a b) -> fits_number b (MergeNumbers a b) ->
  value_ok a va -> value_ok b vb -> good (value_ok (MergeNumbers a b)) (Arithmetic o va vb).
Proof.
  intros Fa Fb Ha Hb. unfold Arithmetic. destruct (is_null va) eqn:Na; [apply null_ok|]. destruct (is_null vb) eqn:Nb; [apply null_ok|].
  apply is_null_false in Na, Nb. cbn [orb]. destruct Ha as [?|[Ca Da]]; [done|]. destruct Hb as [?|[Cb Db]]; [done|].
  pose proof (fits_number_ok _ _ _ Fa (or_intror (conj Ca Da))) as Oa. pose proof (fits_number_ok _ _ _ Fb (or_intror (conj Cb Db))) as Ob.
  case_bool_decide as Ia; [case_bool_decide as Ib|]; cbn [andb].
  - apply (good_bind (in_i 128)).
    + apply int_op_good; [unfold data_ok in Da; by rewrite <- Ca, Ia in Da|unfold data_ok in Db; by rewrite <- Cb, Ib in Db].
    + intros n Hn. right. assert (type_category (MergeNumbers a b) = cInt) as E.
      { unfold MergeNumbers. rewrite <- Ca, <- Cb, Ia, Ib. by cbn. }
      unfold data_ok. rewrite E. done.
  - cbn. right. destruct Ob as [?|[?|(E1 & E2 & E3)]]; [done|naive_solver|]. split; [by rewrite E3|]. unfold data_ok. rewrite E3. cbn.
    pose proof (ToDouble_bound _ va Oa Na). pose proof (ToDouble_bound _ vb (or_intror (or_intror (conj E1 (conj E2 E3)))) Nb).
    destruct o; auto using f64_add_bound, f64_sub_bound, f64_mul_bound, f64_div_bound, f64_fmod_bound.
  - cbn. right. destruct Oa as [?|[?|(E1 & E2 & E3)]]; [done|naive_solver|]. split; [by rewrite E3|]. unfold data_ok. rewrite E3. cbn.
    pose proof (ToDouble_bound _ vb Ob Nb). pose proof (ToDouble_bound _ va (or_intror (or_intror (conj E1 (conj E2 E3)))) Na).
    destruct o; auto using f64_add_bound, f64_sub_bound, f64_mul_bound, f64_div_bound, f64_fmod_bound.
Qed.

Lemma CompareIntFloat_good n b : in_i 128 n -> in_u 64 b -> good (fun _ => True) (CompareIntFloat n b).
Proof. intros. by rewrite CompareIntFloat_exact by done. Qed.

Lemma Compare_numbers c v w : number_ok c v -> number_ok c w -> category v <> cNull -> category w <> cNull -> good (fun _ => True) (Compare v w).
Proof.
  intros [H|[(H & H1 & _)|(H & H1 & _)]] [G|[(G & G1 & _)|(G & G1 & _)]] Nv Nw; try done; unfold Compare; rewrite H, G; try done.
  - by apply CompareIntFloat_good.
  - apply (good_bind (fun _ => True)); [by apply CompareIntFloat_good|done].
Qed.

(** Values of types that CheckComparable lets through. *)
Lemma Compare_ok a b o v w : CheckComparable a b o = Ok tt -> value_ok a v -> value_ok b w -> category v <> cNull -> category w <> cNull ->
  good (fun _ => True) (Compare v w).
Proof.
  intros Hc [?|[Ha Da]] [?|[Hb Db]] Nv Nw; [done..|]. unfold CheckComparable in Hc.
  assert (IsOpen (type_category a) = false) as Oa by (unfold data_ok in Da; by destruct (type_category a)).
  assert (IsOpen (type_category b) = false) as Ob by (unfold data_ok in Db; by destruct (type_category b)).
  rewrite Oa, Ob in Hc. cbn [negb] in Hc. res_inv. cbn [negb andb] in Hs. apply andb_false_iff in Hs as [Hs|Hs].
  - apply negb_false_iff, andb_true_iff in Hs as [Na Nb].
    apply (Compare_numbers cFloat); [..|done|done].
    + unfold number_ok, data_ok in *. destruct (type_category a); try done; rewrite Ha; auto 10.
    + unfold number_ok, data_ok in *. destruct (type_category b); try done; rewrite Hb; auto 10.
  - apply negb_false_iff, andb_true_iff in Hs as [Hs%bool_decide_eq_true _]. rewrite <- Hs in Hb. unfold Compare. rewrite Ha, Hb.
    unfold data_ok in Da. destruct (type_category a) eqn:E; try done; by case_bool_decide.
Qed.

Lemma Holds_good o order : o ∈ [kEqual; kNotEqual; kLess; kLessEqual; kGreater; kGreaterEqual] -> good (fun _ => True) (Holds o order).
Proof. intros H. unfold Holds. case_bool_decide; [done|]. rewrite !elem_of_cons, elem_of_nil in H. by destruct o; cbn; try naive_solver. Qed.

Lemma Compared_ok a b o o' v w : CheckComparable a b o' = Ok tt -> value_ok a v -> value_ok b w ->
  o ∈ [kEqual; kNotEqual; kLess; kLessEqual; kGreater; kGreaterEqual] -> good (fun _ => True) (Compared o v w).
Proof.
  intros Hc Hv Hw Ho. unfold Compared. destruct (is_null v) eqn:Nv; [done|]. destruct (is_null w) eqn:Nw; [done|]. cbn [orb].
  apply is_null_false in Nv, Nw. apply (good_bind (fun _ => True)); [by eapply Compare_ok|]. intros order _.
  apply (good_bind (fun _ => True)); [by apply Holds_good|done].
Qed.

Lemma Widen_ok c v : number_ok c v -> c = cInt \/ c = cFloat ->
  category (Widen v c) = cNull \/ (category (Widen v c) = c /\ match c with cInt => in_i 128 (integer (Widen v c)) | _ => in_u 64 (number (Widen v c)) end).
Proof.
  intros Hv Hc. unfold Widen. destruct Hc as [-> | ->]; [rewrite (bool_decide_false (cInt = cFloat)) by done|rewrite (bool_decide_true (cFloat = cFloat)) by done]; cbn [andb].
  - destruct Hv as [H|[(H & H1 & _)|(H & H1 & ?)]]; auto. done.
  - destruct Hv as [H|[(H & H1 & _)|(H & H1 & _)]]; rewrite H; [rewrite bool_decide_false by done; auto|rewrite bool_decide_true by done|rewrite bool_decide_false by done; auto].
    cbn. right. split; [done|]. apply f64_of_int_bound.
Qed.

End Eval.
(** ** What the checks and loops establish *)

Record nodes_wf (ns : list Node) : Prop := {
  wf_count i n : ns !! i = Some n -> length (node_operands n) = OperandCount (node_op n) (length (node_operands n));
  wf_parameter i n : ns !! i = Some n -> bool_decide (node_op n = kParameter) = is_parameter (node_literal n);
  wf_before i n o : ns !! i = Some n -> o ∈ node_operands n -> (o < i)%nat;
  wf_value i n o m : ns !! i = Some n -> o ∈ node_operands n -> ns !! o = Some m -> is_logic (node_op n) = false -> IsValue (node_op m) = true;
  wf_once i j n m o : ns !! i = Some n -> ns !! j = Some m -> o ∈ node_operands n -> o ∈ node_operands m -> i = j
}.

Lemma CheckOperands_ok ns depths i node os : forall used d used' d',
  fold_res (CheckOperand ns depths i node) (used, d) os = Ok (used', d') ->
  length used' = length used /\ (forall o, used !! o = Some true -> used' !! o = Some true) /\
  (forall o, o ∈ os -> (o < i)%nat /\ used !! o = Some false /\ used' !! o = Some true /\
     forall m, ns !! o = Some m -> is_logic (node_op node) = false -> IsValue (node_op m) = true).
Proof.
  induction os as [|o os IH]; intros used d used' d' H; cbn [fold_res] in H.
  { res_inv. simplify_eq. split; [done|]. split; [done|]. by intros o Ho%elem_of_nil. }
  res_inv. unfold CheckOperand in Hs. destruct (Nat.leb_spec i o); [done|].
  destruct (ns !! o) as [m|] eqn:Em; [|done]. destruct (used !! o) as [u|] eqn:Eu; [|done]. destruct (depths !! o) as [e|]; [|done].
  destruct u; [done|]. destruct (negb (is_logic (node_op node)) && negb (IsValue (node_op m))) eqn:El; [done|]. injection Hs as <-.
  destruct (IH _ _ _ _ H) as (L & M & A). rewrite length_insert in L. split; [done|]. split.
  { intros x Hx. apply M. rewrite list_lookup_insert_ne; [done|]. congruence. }
  intros x [->|Hx]%elem_of_cons.
  - split; [done|]. split; [done|]. split.
    + apply M. apply list_lookup_insert_eq. by eapply lookup_lt_Some.
    + intros m' Hm' Hl. rewrite Hm' in Em. injection Em as ->. rewrite Hl in El. cbn in El. by destruct (IsValue (node_op m)).
  - destruct (A x Hx) as (A1 & A2 & A3 & A4). split; [done|]. split; [|done].
    destruct (decide (o = x)) as [->|Hne]; [by rewrite list_lookup_insert_eq in A2 by (by eapply lookup_lt_Some)|by rewrite list_lookup_insert_ne in A2].
Qed.

(** The nodes below [k] are well-formed, and their operands marked. *)
Record checked_below (ns : list Node) (k : nat) (used : list bool) : Prop := {
  cb_count i n : (i < k)%nat -> ns !! i = Some n -> length (node_operands n) = OperandCount (node_op n) (length (node_operands n));
  cb_parameter i n : (i < k)%nat -> ns !! i = Some n -> bool_decide (node_op n = kParameter) = is_parameter (node_literal n);
  cb_operand i n o : (i < k)%nat -> ns !! i = Some n -> o ∈ node_operands n -> (o < i)%nat /\ used !! o = Some true /\
     forall m, ns !! o = Some m -> is_logic (node_op n) = false -> IsValue (node_op m) = true;
  cb_once i j n m o : (i < j < k)%nat -> ns !! i = Some n -> ns !! j = Some m -> o ∈ node_operands n -> o ∈ node_operands m -> False
}.

Lemma CheckNode_ok ns limits used depths node used' depths' : ns !! length depths = Some node -> checked_below ns (length depths) used ->
  CheckNode ns limits (used, depths) node = Ok (used', depths') -> length depths' = S (length depths) /\ checked_below ns (S (length depths)) used'.
Proof.
  intros Hn Hc H. unfold CheckNode in H. res_inv. destruct a1 as [used1 d]. res_inv. simplify_eq.
  destruct (decide (length (node_operands node) = OperandCount (node_op node) (length (node_operands node)))) as [Hcount|Hcount];
    [|by rewrite bool_decide_false in Hs]. destruct (eqb _ _) eqn:Hp; cbn [negb] in Hs0; [|done]. apply eqb_prop in Hp.
  destruct (CheckOperands_ok _ _ _ _ _ _ _ _ _ Hs1) as (_ & M & A). split; [rewrite length_app; cbn; lia|].
  assert (forall i n, (i < S (length depths))%nat -> ns !! i = Some n -> (i < length depths)%nat \/ (i = length depths /\ n = node)) as Hcase.
  { intros i n Hi Hin. destruct (decide (i = length depths)) as [->|]; [right; split; congruence|left; lia]. }
  split.
  - intros i n Hi Hin. destruct (Hcase i n Hi Hin) as [Hlt|[-> ->]]; [by eapply cb_count|done].
  - intros i n Hi Hin. destruct (Hcase i n Hi Hin) as [Hlt|[-> ->]]; [by eapply cb_parameter|done].
  - intros i n o Hi Hin Ho. destruct (Hcase i n Hi Hin) as [Hlt|[-> ->]].
    + destruct (cb_operand _ _ _ Hc i n o Hlt Hin Ho) as (B1 & B2 & B3). auto.
    + destruct (A o Ho) as (A1 & A2 & A3 & A4). auto.
  - intros i j n m o Hij Hin Hjm Hoi Hoj. destruct (Hcase j m ltac:(lia) Hjm) as [Hlt|[-> ->]]; [by eapply (cb_once _ _ _ Hc i j n m o); [lia|..]|].
    destruct (A o Hoj) as (_ & A2 & _). destruct (cb_operand _ _ _ Hc i n o ltac:(lia) Hin Hoi) as (_ & B2 & _). congruence.
Qed.

Lemma CheckNodes_ok ns limits post : forall pre used depths used' depths', ns = pre ++ post -> length depths = length pre ->
  checked_below ns (length pre) used -> fold_res (CheckNode ns limits) (used, depths) post = Ok (used', depths') -> checked_below ns (length ns) used'.
Proof.
  induction post as [|node post IH]; intros pre used depths used' depths' E Hl Hc H; cbn [fold_res] in H.
  { rewrite app_nil_r in E. res_inv. by simplify_eq. }
  res_inv. destruct a as [used1 depths1]. rewrite <- Hl in Hc.
  destruct (CheckNode_ok ns limits used depths node used1 depths1) as [L C]; [by rewrite E, Hl, list_lookup_middle|done|done|].
  eapply (IH (pre ++ [node]) used1 depths1); [by rewrite <- app_assoc|rewrite length_app; cbn; lia| |done].
  rewrite length_app. cbn. by rewrite Nat.add_1_r, <- Hl.
Qed.

Lemma CheckExpression_wf e limits : CheckExpression e limits = Ok tt -> nodes_wf (nodes e) /\ (expression_root e < length (nodes e))%nat.
Proof.
  intros H. unfold CheckExpression in H. res_inv. destruct a1 as [used depths].
  assert (checked_below (nodes e) (length (nodes e)) used) as Hc.
  { refine (CheckNodes_ok (nodes e) limits (nodes e) [] _ [] used depths eq_refl eq_refl _ Hs1). split; cbn; intros; lia. }
  split; [|destruct (Nat.leb_spec (length (nodes e)) (expression_root e)); [rewrite orb_true_r in Hs; done|done]].
  assert (forall i n, nodes e !! i = Some n -> (i < length (nodes e))%nat) as Hlt by (intros; by eapply lookup_lt_Some).
  split.
  - intros i n Hi. eapply cb_count; eauto.
  - intros i n Hi. eapply cb_parameter; eauto.
  - intros i n o Hi Ho. eapply cb_operand; eauto.
  - intros i n o m Hi Ho Hm Hl. eapply (cb_operand _ _ _ Hc i n o); eauto.
  - intros i j n m o Hi Hj Hoi Hoj. destruct (Nat.lt_total i j) as [L|[L|L]]; [|done|]; exfalso.
    + eapply (cb_once _ _ _ Hc i j n m o); [apply lookup_lt_Some in Hj; lia|done..].
    + eapply (cb_once _ _ _ Hc j i m n o); [apply lookup_lt_Some in Hi; lia|done..].
Qed.

(** A loop that appends what it computes. *)
Lemma scan_spec {A B} (f : list B -> A -> res B) l : forall acc out,
  fold_res (fun acc x => y ← f acc x; Ok (acc ++ [y])) acc l = Ok out ->
  exists ys, out = acc ++ ys /\ length ys = length l /\ forall i x, l !! i = Some x -> exists y, ys !! i = Some y /\ f (acc ++ take i ys) x = Ok y.
Proof.
  induction l as [|x l IH]; intros acc out H; cbn [fold_res] in H.
  { res_inv. subst. exists []. rewrite app_nil_r. split; [done|]. split; [done|]. intros i x Hi. by rewrite lookup_nil in Hi. }
  res_inv. subst. destruct (IH _ _ H) as (ys & -> & L & Hy). exists (a0 :: ys). rewrite <- app_assoc. split; [done|]. split; [cbn; lia|].
  intros [|i] y Hi; cbn in Hi |- *; [injection Hi as <-; exists a0; by rewrite app_nil_r|].
  destruct (Hy i y Hi) as (z & Hz & Hf). exists z. split; [done|]. by rewrite <- app_assoc in Hf.
Qed.

(** Every node has a type, inferred from those before it. *)
Definition inferred (schema : Schema) (ns : list Node) (bound : bool) (declared : list (option ColumnType)) (types : list Type_) : Prop :=
  length types = length ns /\
  forall i n, ns !! i = Some n -> exists t, types !! i = Some t /\ InferNode schema ns bound (default None (declared !! i)) (take i types) n = Ok t.

Lemma Infer_spec schema ns bound declared types : Infer schema ns bound declared = Ok types -> inferred schema ns bound declared types.
Proof.
  intros H. unfold Infer in H.
  destruct (scan_spec (fun types node => InferNode schema ns bound (default None (declared !! length types)) types node) ns [] types H) as (ys & -> & L & Hy).
  split; [done|]. intros i n Hi. destruct (Hy i n Hi) as (t & Ht & Hf). exists t. split; [done|]. cbn in Hf.
  assert (length (take i ys) = i) as El by (rewrite length_take; apply lookup_lt_Some in Hi; lia). by rewrite El in Hf.
Qed.

Lemma operand_type_take types i node k t : operand_type (take i types) node k = Ok t ->
  exists o, node_operands node !! k = Some o /\ (o < i)%nat /\ types !! o = Some t.
Proof.
  unfold operand_type, type_at. destruct (node_operands node !! k) as [o|]; [|done].
  destruct (take i types !! o) as [t'|] eqn:E; [|done]. intros [= ->]. apply lookup_take_Some in E as [E1 E2]. by exists o.
Qed.

Lemma operand_types_spec types node ts : operand_types types node = Ok ts ->
  length ts = length (node_operands node) /\ forall k o, node_operands node !! k = Some o -> exists t, ts !! k = Some t /\ types !! o = Some t.
Proof.
  intros H. destruct (scan_spec (fun _ o => type_at types o) (node_operands node) [] ts H) as (ys & -> & L & Hy).
  split; [done|]. intros k o Ho. destruct (Hy k o Ho) as (t & Ht & Hf). exists t. split; [done|].
  unfold type_at in Hf. destruct (types !! o); [congruence|done].
Qed.

(** ** Merged types *)

Lemma RequireNumber_ok t u : RequireNumber t = Ok u -> IsOpen (type_category t) = true \/ IsNumber (type_category t) = true.
Proof. unfold RequireNumber. rewrite throw_if_ok. destruct (type_category t); cbn; auto. Qed.

Lemma MergeLoop_numbers ts : forall acc t, (IsOpen (type_category acc) = true \/ IsNumber (type_category acc) = true) ->
  MergeLoop (fun acc t => _ ← RequireNumber t; Ok (MergeNumbers acc t)) acc ts = Ok t ->
  fits_number acc t /\ (forall x, x ∈ ts -> fits_number x t).
Proof.
  induction ts as [|x ts IH]; intros acc t Ha H; cbn [MergeLoop] in H.
  { res_inv. subst. split; [|by intros y Hy%elem_of_nil]. unfold fits_number. destruct Ha; auto. }
  res_inv. subst. apply RequireNumber_ok in Hs0. destruct (MergeNumbers_fits acc x Ha Hs0) as (F1 & F2 & F3).
  destruct (IH _ _ F3 H) as [G1 G2]. split; [by eapply fits_number_trans|].
  intros y [->|Hy]%elem_of_cons; [by eapply fits_number_trans|by apply G2].
Qed.

Definition fits_any (a t : Type_) : Prop :=
  IsOpen (type_category a) = true \/ (type_category a = type_category t /\ (type_category a = cBits -> size (repr a) = size (repr t))) \/
  (type_category a = cInt /\ type_category t = cFloat).

Lemma fits_any_refl a : fits_any a a.
Proof. right. by left. Qed.

Lemma fits_any_trans a b c : fits_any a b -> fits_any b c -> fits_any a c.
Proof.
  unfold fits_any. intros [H|[[H1 H2]|[H1 H2]]] G; [by left|..].
  - rewrite H1 in *. destruct G as [G|[[G1 G2]|[G1 G2]]]; [by left|right; left|by right; right].
    split; [done|]. intros H. rewrite H2, G2; done.
  - right; right. split; [done|]. rewrite H2 in G. by destruct G as [G|[[G1 G2]|[G1 G2]]].
Qed.

Lemma MergeAny_fits a b t : MergeAny a b = Ok t -> fits_any a t /\ fits_any b t.
Proof.
  unfold MergeAny. destruct (IsOpen (type_category a)) eqn:Oa.
  { cbn [orb andb]. destruct (IsOpen (type_category b)) eqn:Ob; cbn [negb]; intros [= <-]; split; try (by left). apply fits_any_refl. }
  destruct (IsOpen (type_category b)) eqn:Ob; cbn [orb andb negb].
  { intros [= <-]. split; [apply fits_any_refl|by left]. }
  destruct (IsNumber (type_category a) && IsNumber (type_category b)) eqn:Nab.
  { intros [= <-]. apply andb_true_iff in Nab as [Na Nb]. unfold MergeNumbers, fits_any. rewrite Oa, Ob. cbn [andb].
    destruct (type_category a) eqn:Ea, (type_category b) eqn:Eb; try done; cbn; intuition congruence. }
  destruct (negb (bool_decide (type_category a = type_category b))) eqn:Ec; [done|]. apply negb_false_iff, bool_decide_eq_true in Ec. cbn [orb].
  destruct (bool_decide (type_category a = cBits) && negb (size (repr a) =? size (repr b))) eqn:Ez; [done|].
  assert (type_category a = cBits -> size (repr a) = size (repr b)) as Hz.
  { intros E. rewrite E, bool_decide_true in Ez by done. cbn in Ez. by apply negb_false_iff, Z.eqb_eq in Ez. }
  intros [= <-]. destruct (typed a).
  - split; [apply fits_any_refl|]. right; left. split; [done|]. intros H. symmetry. apply Hz. congruence.
  - split; [|apply fits_any_refl]. right; left. by split.
Qed.

Lemma MergeLoop_any ts : forall acc t, MergeLoop MergeAny acc ts = Ok t -> fits_any acc t /\ (forall x, x ∈ ts -> fits_any x t).
Proof.
  induction ts as [|x ts IH]; intros acc t H; cbn [MergeLoop] in H.
  { res_inv. subst. split; [apply fits_any_refl|by intros y Hy%elem_of_nil]. }
  res_inv. destruct (MergeAny_fits _ _ _ Hs) as [F1 F2]. destruct (IH _ _ H) as [G1 G2].
  split; [by eapply fits_any_trans|]. intros y [->|Hy]%elem_of_cons; [by eapply fits_any_trans|by apply G2].
Qed.

(** A value of an operand of COALESCE of type [t]. *)
Definition coalesce_ok (t : Type_) (v : Value) : Prop :=
  value_ok t v \/ (category v = cInt /\ in_i 128 (integer v) /\ type_category t = cFloat).

Lemma fits_any_ok a t v : fits_any a t -> value_ok a v -> coalesce_ok t v.
Proof.
  intros Hf Hv. destruct Hf as [Ho|[[Hc Hz]|[H1 H2]]].
  - left. left. by eapply value_ok_open.
  - left. destruct Hv as [H|[H Hd]]; [by left|]. right. split; [congruence|]. unfold data_ok in *. rewrite <- Hc.
    destruct (type_category a); try done. destruct Hd as [Hd1 Hd2]. split; [|done]. rewrite Hd1. by apply Hz.
  - destruct Hv as [H|[H Hd]]; [by left; left|]. right. unfold data_ok in Hd. rewrite H1 in *. done.
Qed.

Lemma coalesce_widen t v : coalesce_ok t v -> value_ok t (Widen v (type_category t)).
Proof.
  intros [Hv|(H1 & H2 & H3)]; unfold Widen.
  - destruct (bool_decide (type_category t = cFloat)) eqn:E; [|done]. apply bool_decide_eq_true in E.
    case_bool_decide as Ei; [|done]. destruct Hv as [H|[H _]]; congruence.
  - rewrite H1, H3, !bool_decide_true by done. right. cbn. split; [done|]. unfold data_ok. rewrite H3. apply f64_of_int_bound.
Qed.

(** ** The compiled steps *)

Section Compiled.
Context (schema : Schema).

Definition step_of (p : Program) (offset : nat) (declared : list (option ColumnType)) (i : nat) (n : Node) (t : Type_) (s : Step) : Prop :=
  op s = node_op n /\ step_category s = type_category t /\ count s = length (node_operands n) /\
  (forall k o, node_operands n !! k = Some o -> operands p !! (first s + k)%nat = Some (offset + o)%nat) /\
  match node_op n with
  | kColumn | kChunkColumn => exists b, BindingOf schema n = Ok b /\ slot s = binding_slot b /\ step_type s = binding_type b
  | kParameter => default None (declared !! i) = Some (step_type s)
  | kLiteral => literal s = LiteralValue t (node_literal n)
  | _ => True
  end.

(** The nodes below [k] are steps of [p]. *)
Definition compiled (p : Program) (offset : nat) (ns : list Node) (types : list Type_) (declared : list (option ColumnType)) (k : nat) : Prop :=
  forall i n t, (i < k)%nat -> ns !! i = Some n -> types !! i = Some t -> exists s, steps p !! (offset + i)%nat = Some s /\ step_of p offset declared i n t s.

Definition extends (p p' : Program) : Prop := steps p `prefix_of` steps p' /\ operands p `prefix_of` operands p' /\ targets p' = targets p.

Lemma extends_compiled p p' offset ns types declared k : steps p `prefix_of` steps p' -> operands p `prefix_of` operands p' -> compiled p offset ns types declared k -> compiled p' offset ns types declared k.
Proof.
  intros H1 H2 Hc i n t Hi Hn Ht. destruct (Hc i n t Hi Hn Ht) as (s & Hs & S1 & S2 & S3 & S4 & S5).
  exists s. split; [by eapply prefix_lookup_Some|]. repeat split; try done. intros j o Ho. eapply prefix_lookup_Some; [by apply S4|done].
Qed.

Lemma CompileNode_ok offset types declared p i n p' i' : CompileNode schema offset types declared (p, i) n = Ok (p', i') ->
  exists t s, i' = S i /\ types !! i = Some t /\ steps p' = steps p ++ [s] /\ extends p p' /\ step_of p' offset declared i n t s.
Proof.
  intros H. unfold CompileNode, type_at in H. res_inv. destruct a0 as [[[sl ty] lit] par]. res_inv. simplify_eq.
  destruct (types !! i) as [t|] eqn:Et; [|done]. simplify_eq. exists a. eexists. split; [done|]. split; [done|]. split; [done|].
  split; [split; [by eexists|split; [by eexists|done]]|].
  unfold step_of. cbn [op step_category count first operands slot step_type literal]. split; [done|]. split; [done|]. split; [done|]. split.
  { intros k o Ho. rewrite lookup_app_r by lia. rewrite list_lookup_fmap. replace (_ - _)%nat with k by lia. by rewrite Ho. }
  destruct (node_op n); try done; res_inv; simplify_eq; try done.
  - destruct (node_literal n); try done. destruct (default None (declared !! i)); [|done]. by simplify_eq.
  - by exists a0.
  - by exists a0.
Qed.

Lemma CompileNodes_ok offset types declared ns post : forall pre p p' i', ns = pre ++ post -> length (steps p) = (offset + length pre)%nat ->
  compiled p offset ns types declared (length pre) -> fold_res (CompileNode schema offset types declared) (p, length pre) post = Ok (p', i') ->
  compiled p' offset ns types declared (length ns) /\ extends p p' /\ length (steps p') = (offset + length ns)%nat.
Proof.
  induction post as [|n post IH]; intros pre p p' i' E Hl Hc H; cbn [fold_res] in H.
  { rewrite app_nil_r in E. res_inv. simplify_eq. done. }
  res_inv. destruct a as [p1 i1]. destruct (CompileNode_ok _ _ _ _ _ _ _ _ Hs) as (t & s & -> & Ht & Hst & Hx & Hso).
  assert (length (pre ++ [n]) = S (length pre)) as Elen by (rewrite length_app; cbn; lia).
  destruct (IH (pre ++ [n]) p1 p' i') as (C & X & L).
  - by rewrite <- app_assoc.
  - rewrite Hst, length_app, Elen. cbn. lia.
  - rewrite Elen. intros j m u Hj Hm Hu. destruct (decide (j = length pre)) as [->|Hne].
    + rewrite E, list_lookup_middle in Hm by done. injection Hm as <-. rewrite Ht in Hu. injection Hu as <-.
      exists s. split; [|done]. rewrite Hst, lookup_app_r, Hl, Nat.sub_diag by lia. done.
    + exact (extends_compiled p p1 offset ns types declared (length pre) (proj1 Hx) (proj1 (proj2 Hx)) Hc j m u ltac:(lia) Hm Hu).
  - by rewrite Elen.
  - split; [done|]. split; [|done]. destruct Hx as (X1 & X2 & X3), X as (Y1 & Y2 & Y3). split; [by etrans|]. split; [by etrans|congruence].
Qed.

Lemma Compile_ok e types declared p p' r : Compile schema e types declared p = Ok (p', r) ->
  compiled p' (length (steps p)) (nodes e) types declared (length (nodes e)) /\ extends p p' /\
  r = (length (steps p) + expression_root e)%nat /\ length (steps p') = (length (steps p) + length (nodes e))%nat.
Proof.
  intros H. unfold Compile in H. res_inv. destruct a as [p1 i1]. res_inv. simplify_eq.
  destruct (CompileNodes_ok (length (steps p)) types declared (nodes e) (nodes e) [] p p' i1) as (C & X & L); [done|cbn; lia|intros i n t Hi; cbn in Hi; lia|done|].
  done.
Qed.

End Compiled.

End ExprPlan.
