(* ===== verification/ExprSound.v ===== *)
(** * What is planned evaluates (src/src/expr.cpp, src/src/expr_eval.cpp)

    The types of planning are types of evaluation: every value a step computes
    has the type its node was given, so no evaluation of a planned expression
    meets values of different types, a condition that is not bool or an index
    out of range.  What remains are the errors the language documents. *)
From stdpp Require Import prelude strings sorting.
From Stdlib Require Import ZArith Lia.
From S2P Require Import Prelude Text Utf8 Floats Doubles Columns ExprEval ExprPlan.

#[local] Open Scope Z_scope.

Module ExprSound.
Import Text Utf8 Floats Doubles Columns ExprEval ExprPlan.

(** A stored value of a column. *)
Definition stored_ok (b : ColumnBinding) (values : list ColumnValue) : Prop :=
  exists v, values !! binding_slot b = Some v /\ (v = VNull \/ holds (binding_type b) v).

(** The block, the chunk and the parameters an expression of [schema] is evaluated on. *)
Record inputs_ok (schema : Schema) (i : Inputs) : Prop := {
  io_block n b : BlockColumn schema n = Some b -> type_ok (binding_type b) /\ (exists_ i = true -> stored_ok b (block i));
  io_chunk n b : ChunkColumn schema n = Some b -> type_ok (binding_type b) /\ stored_ok b (chunk i);
  io_given : Forall given_ok (given i);
  io_x : in_i 64 (pos_x i);
  io_y : in_i 64 (pos_y i);
  io_z : in_i 64 (pos_z i);
  io_now : in_u 64 (now i)
}.

Lemma Stored_ok b values s : type_ok (binding_type b) -> stored_ok b values -> slot s = binding_slot b -> step_type s = binding_type b ->
  good (value_ok (TypeOf (binding_type b))) (Stored values s).
Proof.
  intros Ht (v & Hv & Hh) Es Et. unfold Stored. rewrite Es, Hv, Et. destruct Hh as [->|Hh]; [apply null_ok|].
  destruct (Load_holds _ _ Hh) as [x Hx]. rewrite Hx. cbn. eapply Load_ok; [|exact Hx]. by eapply holds_given_ok.
Qed.

Section Loops.
Context {U : FloatUnit}.

Lemma ExtremeLoop_ok c value_of better ks : forall best nan, (forall k, k ∈ ks -> good (number_ok c) (value_of k)) ->
  number_ok c best -> (nan = true -> c = cFloat) ->
  good (fun r => number_ok c r.1 /\ (r.2 = true -> c = cFloat)) (ExtremeLoop value_of better ks best nan).
Proof.
  induction ks as [|k ks IH]; intros best nan Hk Hb Hn; cbn [ExtremeLoop]; [done|].
  apply (good_bind (number_ok c)); [apply Hk; by left|]. intros v Hv.
  assert (forall best nan, number_ok c best -> (nan = true -> c = cFloat) -> good (fun r => number_ok c r.1 /\ (r.2 = true -> c = cFloat)) (ExtremeLoop value_of better ks best nan)) as Hr.
  { intros. apply IH; try done. intros. apply Hk. by right. }
  destruct (is_null v) eqn:Nv; [by apply Hr|]. apply is_null_false in Nv.
  destruct (bool_decide (category v = cFloat) && f64_is_nan (number v)) eqn:En.
  { apply Hr; [done|]. intros _. apply andb_true_iff in En as [En%bool_decide_eq_true _].
    destruct Hv as [?|[(H & _)|(_ & _ & H)]]; [done|congruence|done]. }
  apply (good_bind (fun _ => True)).
  { destruct (is_null best) eqn:Nb; [done|]. apply is_null_false in Nb. apply (good_bind (fun _ => True)); [by eapply Compare_numbers|done]. }
  intros wins _. apply Hr; [by destruct wins|done].
Qed.

Lemma Extreme_ok t value_of s : step_category s = type_category t ->
  (forall k, k ∈ seq 0 (count s) -> good (number_ok (type_category t)) (value_of k)) -> good (value_ok t) (Extreme value_of s).
Proof.
  intros Ec Hk. unfold Extreme. eapply good_bind; [apply (ExtremeLoop_ok (type_category t)); [done|by left|done]|].
  intros [best nan] [Hb Hn]. cbn in Hb, Hn. destruct nan.
  - right. cbn. split; [by rewrite Hn|]. unfold data_ok. rewrite Hn by done. split; by compute.
  - rewrite Ec. destruct Hb as [H|Hb].
    { left. unfold Widen. rewrite H, (bool_decide_false (cNull = cInt)), andb_false_r by done. done. }
    assert (type_category t = cInt \/ type_category t = cFloat) as Hc by naive_solver.
    destruct (Widen_ok (type_category t) best (or_intror Hb) Hc) as [H|[H1 H2]]; [by left|right]. split; [done|].
    unfold data_ok. destruct Hc as [E|E]; rewrite E in *; done.
Qed.

Lemma CoalesceLoop_ok t value_of c ks : c = type_category t -> (forall k, k ∈ ks -> good (coalesce_ok t) (value_of k)) ->
  good (value_ok t) (CoalesceLoop value_of c ks).
Proof.
  intros ->. induction ks as [|k ks IH]; intros Hk; cbn [CoalesceLoop]; [apply null_ok|].
  eapply good_bind; [apply Hk; by left|]. intros v Hv. destruct (is_null v); [apply IH; intros; apply Hk; by right|].
  cbn. by apply coalesce_widen.
Qed.

(** The items of an IN list compare with a value that is not NULL. *)
Lemma InLoop_ok value_of value ks : forall found null,
  (forall k, k ∈ ks -> good (fun item => category value <> cNull -> category item <> cNull -> good (fun _ => True) (Compare value item)) (value_of k)) ->
  good (fun _ => True) (InLoop value_of value ks found null).
Proof.
  induction ks as [|k ks IH]; intros found null Hk; cbn [InLoop]; [done|].
  eapply good_bind; [apply Hk; by left|]. intros item Hi. assert (forall f n, good (fun _ => True) (InLoop value_of value ks f n)) as Hr.
  { intros. apply IH. intros. apply Hk. by right. }
  destruct (is_null item) eqn:Ni; [apply Hr|]. destruct (is_null value) eqn:Nv; [apply Hr|]. apply is_null_false in Ni, Nv.
  eapply good_bind; [by apply Hi|]. intros. apply Hr.
Qed.

Lemma LogicLoop_ok truth_of decides ks : forall result, (forall k, k ∈ ks -> good (fun _ => True) (truth_of k)) ->
  good (fun _ => True) (LogicLoop truth_of decides ks result).
Proof.
  induction ks as [|k ks IH]; intros result Hk; cbn [LogicLoop]; [done|].
  eapply good_bind; [apply Hk; by left|]. intros t _. case_bool_decide; [done|]. apply IH. intros. apply Hk. by right.
Qed.

Lemma Negate_ok t v : (IsOpen (type_category t) = true \/ IsNumber (type_category t) = true) -> value_ok t v -> good (value_ok (NegateType t)) (Negate v).
Proof.
  intros Hn [H|[H Hd]].
  { unfold Negate. rewrite !bool_decide_false by congruence. by left. }
  unfold Negate, NegateType. unfold data_ok in Hd. rewrite H. destruct (type_category t) eqn:E; try (by destruct Hn);
    change (bool_decide (cInt = cInt)) with true; change (bool_decide (cFloat = cInt)) with false; change (bool_decide (cFloat = cFloat)) with true; cbn [andb].
  - change kIntMin with (- 2 ^ 127). destruct (Z.eqb_spec (integer v) (- 2 ^ 127)); [done|]. cbn. right. cbn. destruct (_ && _).
    + split; [done|]. unfold data_ok. cbn. unfold in_i in *. change (128 - 1) with 127 in *. lia.
    + split; [done|]. unfold data_ok. rewrite E. cbn. unfold in_i in *. change (128 - 1) with 127 in *. lia.
  - cbn. right. cbn. split; [done|]. unfold data_ok. rewrite E. cbn. by apply f64_neg_bound.
Qed.

End Loops.

(** ** Evaluation of an inferred expression *)

Section Sound.
Context {U : FloatUnit} (schema : Schema) (ns : list Node) (types : list Type_) (declared : list (option ColumnType)).
Context (p : Program) (offset : nat) (inputs : Inputs).
Context (Hwf : nodes_wf ns) (Hinf : inferred schema ns true declared types) (Hcomp : compiled schema p offset ns types declared (length ns)).
Context (Hlit : Forall (fun n => literal_ok (node_literal n)) ns) (Hin : inputs_ok schema inputs).

Lemma node_step i n : ns !! i = Some n -> exists t s, types !! i = Some t /\ InferNode schema ns true (default None (declared !! i)) (take i types) n = Ok t /\
  steps p !! (offset + i)%nat = Some s /\ step_of schema p offset declared i n t s.
Proof.
  intros Hn. destruct Hinf as [_ Hi]. destruct (Hi i n Hn) as (t & Ht & Ht'). pose proof (lookup_lt_Some _ _ _ Hn) as Hlt.
  destruct (Hcomp i n t Hlt Hn Ht) as (s & Hs & Hso). exists t, s. done.
Qed.

(** An operand has a node and a type. *)
Lemma operand_node i n k o : ns !! i = Some n -> node_operands n !! k = Some o ->
  (o < i)%nat /\ exists m t, ns !! o = Some m /\ types !! o = Some t /\ (is_logic (node_op n) = false -> IsValue (node_op m) = true).
Proof.
  intros Hn Ho. pose proof (wf_before _ Hwf i n o Hn ltac:(by eapply list_elem_of_lookup_2)) as Hlt. split; [done|].
  assert (o < length ns)%nat as Hl by (apply lookup_lt_Some in Hn; lia). destruct (lookup_lt_is_Some_2 ns o Hl) as [m Hm].
  destruct (node_step o m Hm) as (t & s & Ht & _). exists m, t. split; [done|]. split; [done|].
  intros Hf. by eapply (wf_value _ Hwf i n o m Hn); [eapply list_elem_of_lookup_2|..].
Qed.

Definition value_sound (fuel : nat) : Prop := forall i n t, ns !! i = Some n -> types !! i = Some t -> IsValue (node_op n) = true -> (i < fuel)%nat ->
  good (value_ok t) (ValueOf p inputs fuel (offset + i)).

(** The value of operand [k]. *)
Lemma operand_value fuel i n s t k o : value_sound fuel -> ns !! i = Some n -> (i <= fuel)%nat -> step_of schema p offset declared i n t s ->
  is_logic (node_op n) = false -> node_operands n !! k = Some o ->
  exists u, types !! o = Some u /\ good (value_ok u) (o' ← Operand p s k; ValueOf p inputs fuel o').
Proof.
  intros Hv Hn Hi (_ & _ & _ & Hops & _) Hl Ho. destruct (operand_node i n k o Hn Ho) as (Hlt & m & u & Hm & Hu & Hval).
  exists u. split; [done|]. unfold Operand. rewrite (Hops k o Ho), bind_Ok_l. apply (Hv o m u); auto. lia.
Qed.

(** The same, for an operand the inference looked up. *)
Lemma operand_value_typed fuel i n s t k u : value_sound fuel -> ns !! i = Some n -> (i <= fuel)%nat -> step_of schema p offset declared i n t s ->
  is_logic (node_op n) = false -> operand_type (take i types) n k = Ok u -> good (value_ok u) (o' ← Operand p s k; ValueOf p inputs fuel o').
Proof.
  intros Hv Hn Hi Hso Hl Hu. destruct (operand_type_take _ _ _ _ _ Hu) as (o & Ho & _ & Hto).
  destruct (operand_value fuel i n s t k o Hv Hn Hi Hso Hl Ho) as (u' & Hu' & Hg). congruence.
Qed.

(** All operands, with the list of their types. *)
Lemma operand_values fuel i n s t ts k : value_sound fuel -> ns !! i = Some n -> (i <= fuel)%nat -> step_of schema p offset declared i n t s ->
  is_logic (node_op n) = false -> operand_types (take i types) n = Ok ts -> (k < count s)%nat ->
  exists u, ts !! k = Some u /\ good (value_ok u) (o' ← Operand p s k; ValueOf p inputs fuel o').
Proof.
  intros Hv Hn Hi Hso Hl Hts Hk. assert (Hso' := Hso). destruct Hso' as (_ & _ & Hc & _).
  destruct (lookup_lt_is_Some_2 (node_operands n) k ltac:(lia)) as [o Ho].
  destruct (operand_types_spec _ _ _ Hts) as [_ Hall]. destruct (Hall k o Ho) as (u & Hu & Htu). exists u. split; [done|].
  apply lookup_take_Some in Htu as [Htu _]. destruct (operand_value fuel i n s t k o Hv Hn Hi Hso Hl Ho) as (u' & Hu' & Hg). congruence.
Qed.

(** The types of the first operand and of the others. *)
Lemma operand_types_head i n t ts : operand_type (take i types) n 0 = Ok t -> operand_types (take i types) n = Ok ts -> ts = t :: tail ts.
Proof.
  intros Ht Hts. destruct (operand_type_take _ _ _ _ _ Ht) as (o & Ho & _ & Hto). destruct (operand_types_spec _ _ _ Hts) as [_ Hall].
  destruct (Hall 0%nat o Ho) as (u & Hu & Htu). apply lookup_take_Some in Htu as [Htu _]. destruct ts; [done|]. cbn in *. congruence.
Qed.

Lemma parameter_value s d : step_type s = d -> good (value_ok (TypeOf d)) (ParameterValue inputs s).
Proof.
  intros Ed. unfold ParameterValue. destruct (given inputs !! slot s) as [v|] eqn:Ev; [|done]. rewrite Ed.
  destruct (Load v d) as [x|] eqn:Ex; [|done]. cbn. eapply Load_ok; [|exact Ex]. eapply Forall_lookup_1; [apply Hin|exact Ev].
Qed.

Lemma integer_ok n t : type_category t = cInt -> in_i 64 n \/ in_u 64 n -> value_ok t (Integer n).
Proof. intros E H. right. cbn. split; [done|]. unfold data_ok. rewrite E. cbn. unfold in_i, in_u in *. lia. Qed.

(** A column of the block or of the chunk. *)
Lemma column_value n s b : (node_op n = kColumn \/ node_op n = kChunkColumn) -> BindingOf schema n = Ok b -> slot s = binding_slot b -> step_type s = binding_type b ->
  good (value_ok (TypeOf (binding_type b)))
    (if bool_decide (node_op n = kChunkColumn) then Stored (chunk inputs) s else if negb (exists_ inputs) then Ok NullValue else Stored (block inputs) s).
Proof.
  intros Ho Hb Es Et. unfold BindingOf in Hb. destruct Ho as [E|E]; rewrite E in *.
  - rewrite bool_decide_false in * by done. destruct (BlockColumn schema (node_name n)) as [b'|] eqn:Eb; [|done]. injection Hb as ->.
    destruct (io_block _ _ Hin _ _ Eb) as [Hty Hst]. destruct (exists_ inputs); [|apply null_ok]. by apply Stored_ok; auto.
  - rewrite bool_decide_true in * by done. destruct (ChunkColumn schema (node_name n)) as [b'|] eqn:Eb; [|done]. injection Hb as ->.
    destruct (io_chunk _ _ Hin _ _ Eb) as [Hty Hst]. by apply Stored_ok.
Qed.

Lemma arithmetic_node fuel i n s t a b o : value_sound fuel -> ns !! i = Some n -> (i <= fuel)%nat -> step_of schema p offset declared i n t s ->
  is_logic (node_op n) = false -> operand_type (take i types) n 0 = Ok a -> operand_type (take i types) n 1 = Ok b ->
  RequireNumber a = Ok tt -> RequireNumber b = Ok tt -> t = MergeNumbers a b ->
  good (value_ok t) (x ← (o' ← Operand p s 0; ValueOf p inputs fuel o'); y ← (o' ← Operand p s 1; ValueOf p inputs fuel o'); Arithmetic o x y).
Proof.
  intros IH Hn Hi Hso Hl Ha Hb Ra Rb ->. eapply good_bind; [by eapply (operand_value_typed fuel i n s)|]. intros x Hx.
  eapply good_bind; [by eapply (operand_value_typed fuel i n s)|]. intros y Hy.
  apply RequireNumber_ok in Ra, Rb. destruct (MergeNumbers_fits a b Ra Rb) as (F1 & F2 & _). by apply Arithmetic_ok.
Qed.

Lemma extreme_node fuel i n s t t0 ts : value_sound fuel -> ns !! i = Some n -> (i <= fuel)%nat -> step_of schema p offset declared i n t s ->
  is_logic (node_op n) = false -> operand_type (take i types) n 0 = Ok t0 -> operand_types (take i types) n = Ok ts -> RequireNumber t0 = Ok tt ->
  MergeLoop (fun acc t => _ ← RequireNumber t; Ok (MergeNumbers acc t)) t0 (tail ts) = Ok t ->
  good (value_ok t) (Extreme (fun k => o' ← Operand p s k; ValueOf p inputs fuel o') s).
Proof.
  intros IH Hn Hi Hso Hl H0 Hts R0 Hm. apply RequireNumber_ok in R0. destruct (MergeLoop_numbers _ _ _ R0 Hm) as [F0 F].
  pose proof (operand_types_head i n t0 ts H0 Hts) as Ets. assert (Hso' := Hso). destruct Hso' as (_ & Ecat & _).
  apply Extreme_ok; [done|]. intros k Hk%elem_of_seq. destruct (operand_values fuel i n s t ts k IH Hn Hi Hso Hl Hts ltac:(lia)) as (u & Hu & Hg).
  eapply good_weaken; [exact Hg|]. intros v Hv. apply (fits_number_ok u); [|done]. rewrite Ets in Hu. destruct k; [by injection Hu as ->|].
  apply F. by eapply list_elem_of_lookup_2.
Qed.

Lemma coalesce_node fuel i n s t t0 ts : value_sound fuel -> ns !! i = Some n -> (i <= fuel)%nat -> step_of schema p offset declared i n t s ->
  is_logic (node_op n) = false -> operand_type (take i types) n 0 = Ok t0 -> operand_types (take i types) n = Ok ts -> MergeLoop MergeAny t0 (tail ts) = Ok t ->
  good (value_ok t) (CoalesceLoop (fun k => o' ← Operand p s k; ValueOf p inputs fuel o') (step_category s) (seq 0 (count s))).
Proof.
  intros IH Hn Hi Hso Hl H0 Hts Hm. destruct (MergeLoop_any _ _ _ Hm) as [F0 F].
  pose proof (operand_types_head i n t0 ts H0 Hts) as Ets. assert (Hso' := Hso). destruct Hso' as (_ & Ecat & _).
  apply CoalesceLoop_ok; [done|]. intros k Hk%elem_of_seq. destruct (operand_values fuel i n s t ts k IH Hn Hi Hso Hl Hts ltac:(lia)) as (u & Hu & Hg).
  eapply good_weaken; [exact Hg|]. intros v Hv. apply (fits_any_ok u); [|done]. rewrite Ets in Hu. destruct k; [by injection Hu as ->|].
  apply F. by eapply list_elem_of_lookup_2.
Qed.

Lemma value_sound_all fuel : value_sound fuel.
Proof.
  induction fuel as [|fuel IH]; intros i n t Hn Ht Hval Hi; [lia|]. assert (i <= fuel)%nat as Hif by lia.
  destruct (node_step i n Hn) as (t' & s & Ht' & Hinfer & Hs & Hso). rewrite Ht in Ht'. injection Ht' as <-.
  cbn [ValueOf]. unfold step_at. rewrite Hs, bind_Ok_l. assert (Hso' := Hso). destruct Hso' as (Eop & Ecat & Ecount & Hops & Hleaf). rewrite Eop.
  assert (is_logic (node_op n) = false) as Hl by (by destruct (node_op n)).
  unfold InferNode in Hinfer. destruct (node_op n) eqn:En; try discriminate Hval.
  - injection Hinfer as <-. rewrite Hleaf. cbn. apply literal_value_ok; [exact (Forall_lookup_1 _ _ _ _ Hlit Hn)|].
    rewrite <- (wf_parameter _ Hwf i n Hn), En. done.
  - rewrite Hleaf in Hinfer. injection Hinfer as <-. by apply parameter_value.
  - destruct Hleaf as (b & Hb & E1 & E2). rewrite Hb, bind_Ok_l in Hinfer. injection Hinfer as <-.
    pose proof (column_value n s b (or_introl En) Hb E1 E2) as G. by rewrite En in G.
  - destruct Hleaf as (b & Hb & E1 & E2). rewrite Hb, bind_Ok_l in Hinfer. injection Hinfer as <-.
    pose proof (column_value n s b (or_intror En) Hb E1 E2) as G. by rewrite En in G.
  - injection Hinfer as <-. apply integer_ok; [done|left; apply Hin].
  - injection Hinfer as <-. apply integer_ok; [done|left; apply Hin].
  - injection Hinfer as <-. apply integer_ok; [done|left; apply Hin].
  - injection Hinfer as <-. apply integer_ok; [done|right; apply Hin].
  - res_inv. subst. rewrite <- En in Hl. eapply good_bind; [by eapply (operand_value_typed fuel i n s)|]. intros v Hv. apply Negate_ok; [by eapply RequireNumber_ok|done].
  - res_inv. units. rewrite <- En in Hl. by eapply (arithmetic_node fuel i n).
  - res_inv. units. rewrite <- En in Hl. by eapply (arithmetic_node fuel i n).
  - res_inv. units. rewrite <- En in Hl. by eapply (arithmetic_node fuel i n).
  - res_inv. units. rewrite <- En in Hl. by eapply (arithmetic_node fuel i n).
  - res_inv. units. rewrite <- En in Hl. by eapply (arithmetic_node fuel i n).
  - res_inv. units. rewrite <- En in Hl. by eapply (extreme_node fuel i n).
  - res_inv. units. rewrite <- En in Hl. by eapply (extreme_node fuel i n).
  - res_inv. units. rewrite <- En in Hl. by eapply (coalesce_node fuel i n).
Qed.

(** ** Conditions *)

Lemma fold_res_all {A} (f : A -> res unit) l : fold_res (fun _ x => f x) tt l = Ok tt -> forall x, x ∈ l -> f x = Ok tt.
Proof.
  induction l as [|y l IH]; intros H x Hx; [by apply elem_of_nil in Hx|]. cbn [fold_res] in H. res_inv. units.
  apply elem_of_cons in Hx as [->|Hx]; [done|by apply IH].
Qed.

Definition bool_type (o : Op) (t : Type_) : Prop := IsValue o = true -> type_category t = cBool \/ IsOpen (type_category t) = true.

Lemma CheckTruth_ok o t u : CheckTruth o t = Ok u -> bool_type o t.
Proof.
  unfold CheckTruth, bool_type. intros H Ho. rewrite Ho in H. cbn [negb] in H. apply throw_if_ok in H.
  destruct (type_category t); cbn in H; auto.
Qed.

Definition truth_sound (fuel : nat) : Prop := forall i n t, ns !! i = Some n -> types !! i = Some t -> bool_type (node_op n) t -> (i < fuel)%nat ->
  good (fun _ => True) (TruthOf p inputs fuel (offset + i)).

(** The operands of NOT, AND and OR are conditions. *)
Lemma logic_operand fuel i n s t k : truth_sound fuel -> ns !! i = Some n -> (i <= fuel)%nat -> step_of schema p offset declared i n t s ->
  fold_res (fun _ o => t ← type_at (take i types) o; match ns !! o with Some n => CheckTruth (node_op n) t | None => Err (undefined "nodes[operand]") end)
    tt (node_operands n) = Ok tt ->
  (k < count s)%nat -> good (fun _ => True) (o' ← Operand p s k; TruthOf p inputs fuel o').
Proof.
  intros Ht Hn Hi (_ & _ & Hc & Hops & _) Hf Hk. destruct (lookup_lt_is_Some_2 (node_operands n) k ltac:(lia)) as [o Ho].
  pose proof (fold_res_all _ _ Hf o ltac:(by eapply list_elem_of_lookup_2)) as Hco. cbn in Hco. unfold type_at in Hco. res_inv.
  destruct (take i types !! o) as [u|] eqn:Eu; [|done]. apply lookup_take_Some in Eu as [Eu Hlt]. injection Hs as <-.
  destruct (ns !! o) as [m|] eqn:Em; [|done]. unfold Operand. rewrite (Hops k o Ho), bind_Ok_l.
  apply (Ht o m u); [done|done|by eapply CheckTruth_ok|lia].
Qed.

(** An operand of a node with a fixed number of operands. *)
Lemma operand_there i n k : ns !! i = Some n -> (k < OperandCount (node_op n) (length (node_operands n)))%nat -> exists o, node_operands n !! k = Some o.
Proof. intros Hn Hk. rewrite <- (wf_count _ Hwf i n Hn) in Hk. by apply lookup_lt_is_Some_2. Qed.

Lemma comparison_node fuel i n s t a b o : ns !! i = Some n -> (i <= fuel)%nat -> step_of schema p offset declared i n t s ->
  is_logic (node_op n) = false -> operand_type (take i types) n 0 = Ok a -> operand_type (take i types) n 1 = Ok b -> CheckComparable a b o = Ok tt ->
  o ∈ [kEqual; kNotEqual; kLess; kLessEqual; kGreater; kGreaterEqual] ->
  good (fun _ => True) (x ← (o' ← Operand p s 0; ValueOf p inputs fuel o'); y ← (o' ← Operand p s 1; ValueOf p inputs fuel o'); Compared o x y).
Proof.
  intros Hn Hi Hso Hl Ha Hb Hc Ho. pose proof (value_sound_all fuel) as IH.
  eapply good_bind; [by eapply (operand_value_typed fuel i n s)|]. intros x Hx.
  eapply good_bind; [by eapply (operand_value_typed fuel i n s)|]. intros y Hy. by eapply Compared_ok.
Qed.

Lemma in_node fuel i n s t ts : ns !! i = Some n -> (i <= fuel)%nat -> step_of schema p offset declared i n t s -> (1 <= count s)%nat ->
  is_logic (node_op n) = false -> operand_types (take i types) n = Ok ts ->
  match first_known ts with None => Ok tt | Some known => fold_res (fun _ t => CheckComparable known t kEqual) tt ts end = Ok tt ->
  good (fun _ => True)
    (value ← (o' ← Operand p s 0; ValueOf p inputs fuel o');
     '(found, null) ← InLoop (fun k => o' ← Operand p s k; ValueOf p inputs fuel o') value (seq 1 (count s - 1)) false (is_null value);
     Ok (if bool_decide (node_op n = kIn) then (if negb (is_null value) && found then tTrue else if null : bool then tUnknown else tFalse)
         else Not (if negb (is_null value) && found then tTrue else if null : bool then tUnknown else tFalse))).
Proof.
  intros Hn Hi Hso Hcount Hl Hts Hc. pose proof (value_sound_all fuel) as IH.
  destruct (operand_values fuel i n s t ts 0%nat IH Hn Hi Hso Hl Hts ltac:(lia)) as (u0 & Hu0 & G0).
  eapply good_bind; [exact G0|]. intros value Hv. eapply good_bind; [|by intros [found null] _].
  apply InLoop_ok. intros k Hk%elem_of_seq. destruct (operand_values fuel i n s t ts k IH Hn Hi Hso Hl Hts ltac:(lia)) as (u & Hu & G).
  eapply good_weaken; [exact G|]. intros item Hitem Nv Ni. destruct ts as [|u0' ts]; [done|]. injection Hu0 as ->. cbn [first_known List.find] in Hc.
  destruct (IsOpen (type_category u0)) eqn:O0; [by destruct Nv; eapply value_ok_open|]. cbn [negb] in Hc.
  eapply (Compare_ok u0 u); [|done..]. apply (fold_res_all (fun t => CheckComparable u0 t kEqual) _ Hc). by eapply list_elem_of_lookup_2.
Qed.

Lemma between_node fuel i n s t v low high : ns !! i = Some n -> (i <= fuel)%nat -> step_of schema p offset declared i n t s ->
  is_logic (node_op n) = false -> operand_type (take i types) n 0 = Ok v -> operand_type (take i types) n 1 = Ok low -> operand_type (take i types) n 2 = Ok high ->
  let value := if IsOpen (type_category v) then if negb (IsOpen (type_category low)) then low else high else v in
  CheckComparable value low kGreaterEqual = Ok tt -> CheckComparable value high kLessEqual = Ok tt ->
  good (fun _ => True)
    (x ← (o' ← Operand p s 0; ValueOf p inputs fuel o'); y ← (o' ← Operand p s 1; ValueOf p inputs fuel o'); z ← (o' ← Operand p s 2; ValueOf p inputs fuel o');
     a ← Compared kGreaterEqual x y; b ← Compared kLessEqual x z; Ok (if bool_decide (node_op n = kBetween) then And a b else Not (And a b))).
Proof.
  intros Hn Hi Hso Hl H0 H1 H2 value C1 C2. pose proof (value_sound_all fuel) as IH.
  eapply good_bind; [by eapply (operand_value_typed fuel i n s)|]. intros x Hx.
  eapply good_bind; [by eapply (operand_value_typed fuel i n s)|]. intros y Hy.
  eapply good_bind; [by eapply (operand_value_typed fuel i n s)|]. intros z Hz.
  assert (forall o w u, CheckComparable value u o = Ok tt -> value_ok u w -> o ∈ [kEqual; kNotEqual; kLess; kLessEqual; kGreater; kGreaterEqual] ->
          good (fun _ => True) (Compared o x w)) as Hcomp'.
  { intros o w u Hcu Hw Ho. destruct (IsOpen (type_category v)) eqn:Ov.
    - unfold Compared. rewrite (proj2 (is_null_spec x)); [done|]. by eapply value_ok_open.
    - subst value. by eapply Compared_ok. }
  eapply good_bind; [eapply Hcomp'; [exact C1|done|set_solver]|]. intros a _. eapply good_bind; [eapply Hcomp'; [exact C2|done|set_solver]|]. done.
Qed.

(** A value as a condition. *)
Lemma bool_value fuel i n t : ns !! i = Some n -> types !! i = Some t -> IsValue (node_op n) = true -> bool_type (node_op n) t -> (i < fuel)%nat ->
  good (fun _ => True)
    (v ← ValueOf p inputs fuel (offset + i);
     if is_null v then Ok tUnknown else if negb (bool_decide (category v = cBool)) then Err (logic_error "a condition that is not bool") else Ok (truth (boolean v))).
Proof.
  intros Hn Ht Hv Hb Hi. eapply good_bind; [by eapply (value_sound_all fuel i n t)|]. intros v Hok.
  destruct (is_null v) eqn:Nv; [done|]. apply is_null_false in Nv.
  destruct (Hb Hv) as [E|E]; [|by destruct Nv; eapply value_ok_open]. destruct Hok as [?|[Hc _]]; [done|].
  rewrite bool_decide_true by congruence. done.
Qed.

Lemma truth_sound_all fuel : truth_sound fuel.
Proof.
  induction fuel as [|fuel IH]; intros i n t Hn Ht Hb Hi; [lia|]. assert (i <= fuel)%nat as Hif by lia.
  destruct (node_step i n Hn) as (t' & s & Ht' & Hinfer & Hs & Hso). rewrite Ht in Ht'. injection Ht' as <-.
  destruct (IsValue (node_op n)) eqn:Hval.
  { pose proof (bool_value (S fuel) i n t Hn Ht Hval Hb Hi) as G. cbn [TruthOf]. unfold step_at at 1. rewrite Hs, bind_Ok_l.
    destruct Hso as (Eop & _). rewrite Eop. destruct (node_op n); (discriminate Hval || exact G). }
  cbn [TruthOf]. unfold step_at. rewrite Hs, bind_Ok_l. assert (Hso' := Hso). destruct Hso' as (Eop & Ecat & Ecount & Hops & Hleaf). rewrite Eop.
  pose proof (wf_count _ Hwf i n Hn) as Hcount.
  unfold InferNode in Hinfer. destruct (node_op n) eqn:En; try discriminate Hval; res_inv; units.
  1-6: eapply (comparison_node fuel i n s t); rewrite ?En; try done; rewrite !elem_of_cons; tauto.
  1-2: destruct (operand_there i n 0 Hn) as [o Ho]; [rewrite En; cbn; lia|];
    destruct (operand_value fuel i n s t 0%nat o (value_sound_all fuel) Hn Hif Hso ltac:(by rewrite En) Ho) as (u & _ & G);
    eapply good_bind; [exact G|done].
  1-2: pose proof (in_node fuel i n s t) as G; rewrite En in G; eapply G; try done; rewrite Ecount; cbn [OperandCount] in Hcount; destruct (length (node_operands n)); cbn in Hcount; lia.
  1-2: pose proof (between_node fuel i n s t) as G; rewrite En in G; by eapply G.
  - done.
  - eapply good_bind; [|done]. eapply (logic_operand fuel i n s t 0%nat); try done. rewrite Ecount, Hcount. cbn. lia.
  - apply LogicLoop_ok. intros k Hk%elem_of_seq. eapply (logic_operand fuel i n s t k); try done. lia.
  - apply LogicLoop_ok. intros k Hk%elem_of_seq. eapply (logic_operand fuel i n s t k); try done. lia.
Qed.

End Sound.
(** ** The condition is bool also after binding

    Planning checks that a condition is bool before its parameters have types.  An
    open type at the root is NULL and stays it, or has a parameter without a column
    to take its type from, which binding refuses. *)

Lemma MergeNumbers_open a b c : c = cNull \/ c = cUnknown -> type_category (MergeNumbers a b) = c ->
  (type_category a = cNull \/ type_category a = cUnknown) /\ (type_category b = cNull \/ type_category b = cUnknown) /\
  (c = cNull -> type_category a = cNull /\ type_category b = cNull) /\ (c = cUnknown -> type_category a = cUnknown \/ type_category b = cUnknown).
Proof.
  intros Hc Ht. assert (IsOpen (type_category (MergeNumbers a b)) = true) as Ho by (rewrite Ht; by destruct Hc as [-> | ->]).
  unfold MergeNumbers in *. destruct (IsOpen (type_category a)) eqn:Oa, (IsOpen (type_category b)) eqn:Ob; cbn [andb] in *.
  - destruct (type_category a), (type_category b); try discriminate Oa; try discriminate Ob; cbn in Ht; subst c; repeat split; intros; try congruence; auto.
  - congruence.
  - congruence.
  - by destruct (bool_decide _ || bool_decide _).
Qed.

Lemma MergeAny_open a b t c : c = cNull \/ c = cUnknown -> MergeAny a b = Ok t -> type_category t = c ->
  (c = cNull -> type_category a = cNull /\ type_category b = cNull) /\ (c = cUnknown -> type_category a = cUnknown \/ type_category b = cUnknown).
Proof.
  intros Hc. unfold MergeAny. destruct (IsOpen (type_category a)) eqn:Oa, (IsOpen (type_category b)) eqn:Ob; cbn [orb andb negb].
  - intros [= <-] Ht. destruct (MergeNumbers_open a b c Hc Ht) as (_ & _ & H). done.
  - intros [= <-] <-. destruct Hc as [Hc|Hc]; by rewrite Hc in Ob.
  - intros [= <-] <-. destruct Hc as [Hc|Hc]; by rewrite Hc in Oa.
  - assert (forall x, type_category t = c -> x = t -> IsOpen (type_category x) = false -> False) as Hno.
    { intros x <- ->. destruct Hc as [-> | ->]; done. }
    destruct (IsNumber _ && IsNumber _); [|destruct (_ || _); [done|]].
    + intros [= <-] Ht. destruct (MergeNumbers_open a b c Hc Ht) as ([E|E] & _); by rewrite E in Oa.
    + intros [= <-] Ht. destruct (typed a); exfalso; by eapply Hno.
Qed.

(** The loop over the operands of LEAST and GREATEST, or of COALESCE. *)
Lemma MergeLoop_open merge c ts : c = cNull \/ c = cUnknown ->
  (forall a b t, merge a b = Ok t -> type_category t = c ->
     (c = cNull -> type_category a = cNull /\ type_category b = cNull) /\ (c = cUnknown -> type_category a = cUnknown \/ type_category b = cUnknown)) ->
  forall acc t, MergeLoop merge acc ts = Ok t -> type_category t = c ->
  (c = cNull -> forall x, x ∈ acc :: ts -> type_category x = cNull) /\ (c = cUnknown -> exists x, x ∈ acc :: ts /\ type_category x = cUnknown).
Proof.
  intros Hc Hm. induction ts as [|x ts IH]; intros acc t H Ht; cbn [MergeLoop] in H.
  { res_inv. subst t. split; intros E; [intros y Hy%list_elem_of_singleton; congruence|exists acc; split; [by left|congruence]]. }
  res_inv. destruct (IH _ _ H Ht) as [I1 I2]. split; intros E.
  - destruct (Hm _ _ _ Hs) as [M1 _]; [rewrite E; apply I1; [done|by left]|]. destruct (M1 E) as [A1 A2].
    intros y [->|[->|Hy]%elem_of_cons]%elem_of_cons; [done|done|]. apply I1; [done|by right].
  - destruct (I2 E) as (y & [->|Hy]%elem_of_cons & Ey).
    + destruct (Hm _ _ _ Hs) as [_ M2]; [congruence|]. destruct (M2 E) as [A|A]; [exists acc|exists x]; (split; [set_solver|done]).
    + exists y. split; [set_solver|done].
Qed.

(** The types of the operands of a value, and how its type comes from them. *)
Definition merges (o : Op) (ts : list Type_) (t : Type_) : Prop :=
  match o with
  | kNegate => exists a, ts = [a] /\ RequireNumber a = Ok tt /\ t = NegateType a
  | kAdd | kSubtract | kMultiply | kDivide | kModulo => exists a b, ts = [a; b] /\ RequireNumber a = Ok tt /\ RequireNumber b = Ok tt /\ t = MergeNumbers a b
  | kLeast | kGreatest => exists a ts', ts = a :: ts' /\ RequireNumber a = Ok tt /\ MergeLoop (fun acc t => _ ← RequireNumber t; Ok (MergeNumbers acc t)) a ts' = Ok t
  | kCoalesce => exists a ts', ts = a :: ts' /\ MergeLoop MergeAny a ts' = Ok t
  | _ => False
  end.

Definition is_operation (o : Op) : bool :=
  match o with kNegate | kAdd | kSubtract | kMultiply | kDivide | kModulo | kLeast | kGreatest | kCoalesce => true | _ => false end.

Lemma operand_type_spec types n k t : operand_type types n k = Ok t <-> exists o, node_operands n !! k = Some o /\ types !! o = Some t.
Proof.
  unfold operand_type, type_at. destruct (node_operands n !! k) as [o|]; [|split; [done|naive_solver]].
  destruct (types !! o) as [u|] eqn:E; split; [intros [= ->]; eauto|intros (o' & [= <-] & H); congruence|done|intros (o' & [= <-] & H); congruence].
Qed.

Lemma operation_types schema ns bound d types n t : length (node_operands n) = OperandCount (node_op n) (length (node_operands n)) -> is_operation (node_op n) = true ->
  InferNode schema ns bound d types n = Ok t ->
  exists ts, merges (node_op n) ts t /\ length ts = length (node_operands n) /\
    forall k o, node_operands n !! k = Some o -> exists x, ts !! k = Some x /\ types !! o = Some x.
Proof.
  intros Hcount Ho H. unfold InferNode in H.
  assert (forall k x o, operand_type types n k = Ok x -> node_operands n !! k = Some o -> types !! o = Some x) as Hty.
  { intros k x o Hx Hk. apply operand_type_spec in Hx as (o' & Ho' & Hx'). congruence. }
  assert (forall ts a, operand_type types n 0 = Ok a -> operand_types types n = Ok ts -> ts = a :: tail ts) as Hhead.
  { intros ts a Ha Hts. destruct (operand_types_spec _ _ _ Hts) as [L Hall]. apply operand_type_spec in Ha as (o & Ho0 & Ha).
    destruct (Hall 0%nat o Ho0) as (x & Hx & Hx'). destruct ts; cbn in *; [done|congruence]. }
  destruct (node_op n) eqn:En; try discriminate Ho; res_inv; units; cbn [OperandCount] in Hcount.
  1: { exists [a]. subst. split; [by exists a|]. split; [done|]. intros [|k] o Hk; [exists a; eauto|]. apply lookup_lt_Some in Hk. lia. }
  1-5: exists [a; a0]; subst; (split; [by exists a, a0|]); (split; [done|]); intros [|[|k]] o Hk; [exists a; eauto|exists a0; eauto|]; apply lookup_lt_Some in Hk; lia.
  all: destruct (operand_types_spec _ _ _ Hs0) as [L Hall]; exists a0; (split; [|done]); exists a, (tail a0); auto.
Qed.

(** An open type of an operation: its operands are NULL, or one of them is a parameter's. *)
Lemma merges_open o ts t c : merges o ts t -> c = cNull \/ c = cUnknown -> type_category t = c ->
  (c = cNull -> forall x, x ∈ ts -> type_category x = cNull) /\ (c = cUnknown -> exists x, x ∈ ts /\ type_category x = cUnknown).
Proof.
  intros Hm Hc Ht. assert (forall a b, (c = cNull -> type_category a = cNull /\ type_category b = cNull) /\ (c = cUnknown -> type_category a = cUnknown \/ type_category b = cUnknown) ->
    (c = cNull -> forall x, x ∈ [a; b] -> type_category x = cNull) /\ (c = cUnknown -> exists x, x ∈ [a; b] /\ type_category x = cUnknown)) as Hpair.
  { intros a b [H1 H2]. split; intros E; [intros x Hx; destruct (H1 E); set_solver|]. destruct (H2 E); [exists a|exists b]; set_solver. }
  destruct o; cbn in Hm; try done.
  1: { destruct Hm as (a & -> & _ & ->). assert (type_category (NegateType a) = type_category a) as E by (unfold NegateType; by case_match).
       rewrite E in Ht. split; intros E'; [intros x Hx%list_elem_of_singleton; congruence|exists a; split; [by left|congruence]]. }
  1-5: destruct Hm as (a & b & -> & _ & _ & ->); apply Hpair; destruct (MergeNumbers_open a b c Hc Ht) as (_ & _ & H); exact H.
  1-2: destruct Hm as (a & ts' & -> & _ & Hl); eapply (MergeLoop_open _ c ts' Hc); [|exact Hl|exact Ht]; intros x y u Hu Hcu; apply bind_ok in Hu as (? & _ & [= <-]); destruct (MergeNumbers_open x y c Hc Hcu) as (_ & _ & H); exact H.
  destruct Hm as (a & ts' & -> & Hl). eapply (MergeLoop_open _ c ts' Hc); [|exact Hl|exact Ht]. intros x y u Hu Hcu. by eapply MergeAny_open.
Qed.

(** A bool operation has a bool operand, and is bool when it has one. *)
Lemma merges_bool o ts t : merges o ts t -> type_category t = cBool <-> exists x, x ∈ ts /\ type_category x = cBool.
Proof.
  intros Hm. assert (forall a, RequireNumber a = Ok tt -> type_category a <> cBool) as Hnum.
  { intros a Ha E. apply RequireNumber_ok in Ha. rewrite E in Ha. by destruct Ha. }
  assert (forall a b, RequireNumber a = Ok tt -> RequireNumber b = Ok tt -> type_category (MergeNumbers a b) <> cBool /\ RequireNumber (MergeNumbers a b) = Ok tt) as Hmerge.
  { intros a b Ha Hb. apply RequireNumber_ok in Ha, Hb. destruct (MergeNumbers_fits a b Ha Hb) as (_ & _ & [H|H]); unfold RequireNumber; destruct (type_category (MergeNumbers a b)); done. }
  assert (forall ts a t, RequireNumber a = Ok tt -> MergeLoop (fun acc t => _ ← RequireNumber t; Ok (MergeNumbers acc t)) a ts = Ok t ->
    type_category t <> cBool /\ forall x, x ∈ a :: ts -> type_category x <> cBool) as Hloop.
  { induction ts0 as [|y ts0 IH]; intros a u Ha Hl; cbn [MergeLoop] in Hl; res_inv; units.
    - subst. split; [by apply Hnum|]. intros x Hx%list_elem_of_singleton. subst. by apply Hnum.
    - destruct (Hmerge a y Ha Hs0) as [M1 M2]. subst. destruct (IH _ _ M2 Hl) as [I1 I2]. split; [done|].
      intros x [->|[->|Hx]%elem_of_cons]%elem_of_cons; [by apply Hnum|by apply Hnum|]. apply I2. by right. }
  destruct o; cbn in Hm; try done.
  1: { destruct Hm as (a & -> & Ha & ->). assert (type_category (NegateType a) = type_category a) as -> by (unfold NegateType; by case_match).
       split; [intros E; by destruct (Hnum a Ha)|intros (x & Hx%list_elem_of_singleton & E); subst; done]. }
  1-5: destruct Hm as (a & b & -> & Ha & Hb & ->); destruct (Hmerge a b Ha Hb); split; [done|]; intros (x & Hx & E);
    rewrite !elem_of_cons, elem_of_nil in Hx; destruct Hx as [->|[->|[]]]; [by destruct (Hnum a Ha)|by destruct (Hnum b Hb)].
  1-2: destruct Hm as (a & ts' & -> & Ha & Hl); destruct (Hloop _ _ _ Ha Hl) as [L1 L2]; split; [done|]; intros (x & Hx & E); by destruct (L2 x Hx).
  destruct Hm as (a & ts' & -> & Hl). split.
  - clear Hloop Hmerge Hnum. revert a t Hl. induction ts' as [|y ts' IH]; intros a t Hl E; cbn [MergeLoop] in Hl; res_inv.
    + subst. exists t. split; [by left|done].
    + destruct (IH _ _ Hl E) as (x & [->|Hx]%elem_of_cons & Ex); [|exists x; split; [set_solver|done]].
      unfold MergeAny in Hs. destruct (IsOpen (type_category a)) eqn:Oa, (IsOpen (type_category y)) eqn:Oy; cbn [orb andb negb] in Hs.
      * injection Hs as <-. unfold MergeNumbers in Ex. rewrite Oa, Oy in Ex. cbn in Ex. by destruct (_ || _).
      * injection Hs as <-. exists y. split; [set_solver|done].
      * injection Hs as <-. exists a. split; [set_solver|done].
      * destruct (IsNumber (type_category a) && IsNumber (type_category y)) eqn:N.
        { injection Hs as <-. unfold MergeNumbers in Ex. rewrite Oa, Oy in Ex. cbn [andb] in Ex. by destruct (_ || _). }
        destruct (_ || _) eqn:Ec; [done|]. injection Hs as <-. destruct (typed a); [exists a|exists y]; (split; [set_solver|done]).
  - intros (x & Hx & E). destruct (MergeLoop_any _ _ _ Hl) as [F0 F]. assert (fits_any x t) as Hf by (apply elem_of_cons in Hx as [->|Hx]; auto).
    destruct Hf as [H|[[H _]|[H _]]]; [by rewrite E in H|congruence|congruence].
Qed.

Lemma MergeNumbers_untyped a b : IsOpen (type_category (MergeNumbers a b)) = true -> typed (MergeNumbers a b) = false.
Proof.
  unfold MergeNumbers. destruct (IsOpen (type_category a)) eqn:Oa, (IsOpen (type_category b)) eqn:Ob; cbn [andb]; try congruence; [done|].
  by destruct (bool_decide _ || bool_decide _).
Qed.

Lemma MergeAny_untyped a b t : MergeAny a b = Ok t -> IsOpen (type_category t) = true -> typed t = false.
Proof.
  unfold MergeAny. destruct (IsOpen (type_category a)) eqn:Oa, (IsOpen (type_category b)) eqn:Ob; cbn [orb andb negb].
  - intros [= <-]. apply MergeNumbers_untyped.
  - intros [= <-]. congruence.
  - intros [= <-]. congruence.
  - destruct (IsNumber _ && IsNumber _); [intros [= <-]; apply MergeNumbers_untyped|]. destruct (_ || _); [done|]. intros [= <-]. destruct (typed a); congruence.
Qed.

(** An open type does not come from a column. *)
Lemma merges_untyped o ts t : merges o ts t -> (forall x, x ∈ ts -> IsOpen (type_category x) = true -> typed x = false) -> IsOpen (type_category t) = true -> typed t = false.
Proof.
  assert (forall merge ts a t, (forall a b t, merge a b = Ok t -> IsOpen (type_category t) = true -> typed t = false) ->
    (forall x, x ∈ a :: ts -> IsOpen (type_category x) = true -> typed x = false) -> MergeLoop merge a ts = Ok t -> IsOpen (type_category t) = true -> typed t = false) as Hloop.
  { intros merge ts0 a u Hm. revert a. induction ts0 as [|y ts0 IH]; intros a Hx Hl Hu; cbn [MergeLoop] in Hl; res_inv.
    - subst. apply Hx; [by left|done].
    - apply (IH a0); [|done|done]. intros x [->|Hy]%elem_of_cons; [by eapply Hm|]. apply Hx. by right; right. }
  intros Hm Hx Ht. destruct o; cbn in Hm; try done.
  1: { destruct Hm as (a & -> & _ & ->). unfold NegateType in *. destruct (_ && _) eqn:E; cbn in *; [|apply Hx; [by left|done]].
       apply andb_true_iff in E as [[E%bool_decide_eq_true _]%andb_true_iff _]. by rewrite E in Ht. }
  1-5: destruct Hm as (a & b & -> & _ & _ & ->); by apply MergeNumbers_untyped.
  1-2: destruct Hm as (a & ts' & -> & _ & Hl); eapply Hloop; [|exact Hx|exact Hl|done]; intros x y u Hu Ho; apply bind_ok in Hu as (? & _ & [= <-]); by apply MergeNumbers_untyped.
  destruct Hm as (a & ts' & -> & Hl). eapply Hloop; [|exact Hx|exact Hl|done]. apply MergeAny_untyped.
Qed.

Lemma merges_null o ts t : merges o ts t -> (forall x, x ∈ ts -> type_category x = cNull) -> type_category t = cNull.
Proof.
  intros Hm Hx. assert (forall a b, type_category a = cNull -> type_category b = cNull -> type_category (MergeNumbers a b) = cNull) as Hmn.
  { intros a b Ha Hb. unfold MergeNumbers. rewrite Ha, Hb. done. }
  assert (forall merge ts a t, (forall a b t, merge a b = Ok t -> type_category a = cNull -> type_category b = cNull -> type_category t = cNull) ->
    (forall x, x ∈ a :: ts -> type_category x = cNull) -> MergeLoop merge a ts = Ok t -> type_category t = cNull) as Hloop.
  { intros merge ts0 a u Hmg. revert a. induction ts0 as [|y ts0 IH]; intros a Ha Hl; cbn [MergeLoop] in Hl; res_inv.
    - subst. apply Ha. by left.
    - apply (IH a0); [|done]. intros x [->|Hy]%elem_of_cons; [|apply Ha; by right; right]. eapply Hmg; [done|apply Ha; by left|apply Ha; right; by left]. }
  destruct o; cbn in Hm; try done.
  1: { destruct Hm as (a & -> & _ & ->). unfold NegateType. case_match; cbn; apply Hx; by left. }
  1-5: destruct Hm as (a & b & -> & _ & _ & ->); apply Hmn; apply Hx; [by left|right; by left].
  1-2: destruct Hm as (a & ts' & -> & _ & Hl); eapply Hloop; [|exact Hx|exact Hl]; intros x y u Hu; apply bind_ok in Hu as (? & _ & [= <-]); apply Hmn.
  destruct Hm as (a & ts' & -> & Hl). eapply Hloop; [|exact Hx|exact Hl]. intros x y u Hu Ea Eb. unfold MergeAny in Hu. rewrite Ea, Eb in Hu. cbn in Hu.
  injection Hu as <-. by apply Hmn.
Qed.

Section Root.
Context (schema : Schema) (ns : list Node) (declared : list (option ColumnType)) (types1 types2 : list Type_).
Context (Hwf : nodes_wf ns) (H1 : inferred schema ns false [] types1) (H2 : inferred schema ns true declared types2).

(** Both inferences of an operand of an operation. *)
Lemma operation_operand i n o : ns !! i = Some n -> is_operation (node_op n) = true -> o ∈ node_operands n ->
  exists m, ns !! o = Some m /\ (o < i)%nat /\ IsValue (node_op m) = true.
Proof.
  intros Hn Hop Ho. pose proof (wf_before _ Hwf i n o Hn Ho) as Hlt. pose proof (lookup_lt_Some _ _ _ Hn) as Hi.
  destruct (lookup_lt_is_Some_2 ns o ltac:(lia)) as [m Hm]. exists m. split; [done|]. split; [done|].
  eapply (wf_value _ Hwf i n o m); try done. by destruct (node_op n).
Qed.

(** The types of an operation's operands in an inference. *)
Lemma operation_at bound d types i n t : inferred schema ns bound d types -> ns !! i = Some n -> types !! i = Some t -> is_operation (node_op n) = true ->
  exists ts, merges (node_op n) ts t /\ (forall x, x ∈ ts -> exists o, o ∈ node_operands n /\ types !! o = Some x) /\
    (forall o x, o ∈ node_operands n -> types !! o = Some x -> x ∈ ts).
Proof.
  intros [_ Hinf] Hn Ht Hop. destruct (Hinf i n Hn) as (t' & Ht' & Hi). rewrite Ht in Ht'. injection Ht' as <-.
  destruct (operation_types _ _ _ _ _ _ _ (wf_count _ Hwf i n Hn) Hop Hi) as (ts & Hm & L & Hall). exists ts. split; [done|]. split.
  - intros x [k Hk]%list_elem_of_lookup_1. pose proof (lookup_lt_Some _ _ _ Hk) as Hlt. destruct (lookup_lt_is_Some_2 (node_operands n) k ltac:(lia)) as [o Ho].
    destruct (Hall k o Ho) as (x' & Hx' & Hty). exists o. split; [by eapply list_elem_of_lookup_2|]. apply lookup_take_Some in Hty as [Hty _]. congruence.
  - intros o x [k Hk]%list_elem_of_lookup_1 Hx. destruct (Hall k o Hk) as (x' & Hx' & Hty). apply lookup_take_Some in Hty as [Hty _].
    assert (x' = x) as -> by congruence. by eapply list_elem_of_lookup_2.
Qed.

(** A value that is not an operation or a parameter has one type in both inferences, and an open one is the NULL literal's. *)
Lemma leaf_types i n t1 t2 : ns !! i = Some n -> types1 !! i = Some t1 -> types2 !! i = Some t2 -> IsValue (node_op n) = true -> is_operation (node_op n) = false ->
  node_op n <> kParameter -> t2 = t1 /\ type_category t1 <> cUnknown /\ (IsOpen (type_category t1) = true -> typed t1 = false).
Proof.
  intros Hn E1 E2 Hv Ho Hp. destruct H1 as [_ I1], H2 as [_ I2]. destruct (I1 i n Hn) as (u1 & U1 & F1), (I2 i n Hn) as (u2 & U2 & F2).
  rewrite E1 in U1. rewrite E2 in U2. injection U1 as <-. injection U2 as <-. unfold InferNode in F1, F2.
  pose proof (wf_parameter _ Hwf i n Hn) as Hpar. destruct (node_op n) eqn:En; try discriminate Hv; try discriminate Ho; try done.
  - injection F1 as <-. injection F2 as <-. split; [done|]. cbn in Hpar. by destruct (node_literal n).
  - res_inv. subst. assert (a = a0) as -> by congruence. split; [done|]. unfold TypeOf. cbn. by destruct (kind (binding_type a0)).
  - res_inv. subst. assert (a = a0) as -> by congruence. split; [done|]. unfold TypeOf. cbn. by destruct (kind (binding_type a0)).
  - injection F1 as <-. by injection F2 as <-.
  - injection F1 as <-. by injection F2 as <-.
  - injection F1 as <-. by injection F2 as <-.
  - injection F1 as <-. by injection F2 as <-.
Qed.

Lemma parameter_type1 i n t1 : ns !! i = Some n -> types1 !! i = Some t1 -> node_op n = kParameter -> t1 = plain cUnknown.
Proof.
  intros Hn E1 Ho. destruct H1 as [_ I1]. destruct (I1 i n Hn) as (u & U & F). rewrite E1 in U. injection U as <-.
  unfold InferNode in F. rewrite Ho in F. by injection F as <-.
Qed.

Lemma type_there types bound d o m : inferred schema ns bound d types -> ns !! o = Some m -> exists t, types !! o = Some t.
Proof. intros [_ I] Hm. destruct (I o m Hm) as (t & Ht & _). by exists t. Qed.

(** Strong induction over the values below a node. *)
Lemma null_stays i : forall n t1 t2, ns !! i = Some n -> types1 !! i = Some t1 -> types2 !! i = Some t2 -> IsValue (node_op n) = true ->
  type_category t1 = cNull -> type_category t2 = cNull.
Proof.
  induction (lt_wf i) as [i _ IH]. intros n t1 t2 Hn E1 E2 Hv Hc. destruct (is_operation (node_op n)) eqn:Ho.
  - destruct (operation_at _ _ _ i n t1 H1 Hn E1 Ho) as (ts1 & M1 & _ & B1). destruct (operation_at _ _ _ i n t2 H2 Hn E2 Ho) as (ts2 & M2 & A2 & _).
    destruct (merges_open _ _ _ cNull M1 (or_introl eq_refl) Hc) as [N _]. apply (merges_null _ _ _ M2). intros x Hx.
    destruct (A2 x Hx) as (o & Hop & Hx2). destruct (operation_operand i n o Hn Ho Hop) as (m & Hm & Hlt & Hmv).
    destruct (type_there _ _ _ o m H1 Hm) as [y Hy]. apply (IH o Hlt m y x Hm Hy Hx2 Hmv). apply N; [done|]. by eapply B1.
  - destruct (decide (node_op n = kParameter)) as [Hp|Hp]; [rewrite (parameter_type1 i n t1 Hn E1 Hp) in Hc; done|].
    destruct (leaf_types i n t1 t2 Hn E1 E2 Hv Ho Hp) as [-> _]. done.
Qed.

Lemma bool_stays i : forall n t1 t2, ns !! i = Some n -> types1 !! i = Some t1 -> types2 !! i = Some t2 -> IsValue (node_op n) = true ->
  type_category t1 = cBool -> type_category t2 = cBool.
Proof.
  induction (lt_wf i) as [i _ IH]. intros n t1 t2 Hn E1 E2 Hv Hc. destruct (is_operation (node_op n)) eqn:Ho.
  - destruct (operation_at _ _ _ i n t1 H1 Hn E1 Ho) as (ts1 & M1 & A1 & _). destruct (operation_at _ _ _ i n t2 H2 Hn E2 Ho) as (ts2 & M2 & _ & B2).
    apply (merges_bool _ _ _ M1) in Hc as (x & Hx & Ex). destruct (A1 x Hx) as (o & Hop & Hx1).
    destruct (operation_operand i n o Hn Ho Hop) as (m & Hm & Hlt & Hmv). destruct (type_there _ _ _ o m H2 Hm) as [y Hy].
    apply (merges_bool _ _ _ M2). exists y. split; [by eapply B2|]. by apply (IH o Hlt m x y).
  - destruct (decide (node_op n = kParameter)) as [Hp|Hp]; [rewrite (parameter_type1 i n t1 Hn E1 Hp) in Hc; done|].
    destruct (leaf_types i n t1 t2 Hn E1 E2 Hv Ho Hp) as [-> _]. done.
Qed.

Lemma open_untyped i : forall n t1, ns !! i = Some n -> types1 !! i = Some t1 -> IsValue (node_op n) = true -> IsOpen (type_category t1) = true -> typed t1 = false.
Proof.
  induction (lt_wf i) as [i _ IH]. intros n t1 Hn E1 Hv Hc. destruct (is_operation (node_op n)) eqn:Ho.
  - destruct (operation_at _ _ _ i n t1 H1 Hn E1 Ho) as (ts1 & M1 & A1 & _). apply (merges_untyped _ _ _ M1); [|done].
    intros x Hx Hxo. destruct (A1 x Hx) as (o & Hop & Hx1). destruct (operation_operand i n o Hn Ho Hop) as (m & Hm & Hlt & Hmv). by apply (IH o Hlt m).
  - destruct (decide (node_op n = kParameter)) as [Hp|Hp]; [by rewrite (parameter_type1 i n t1 Hn E1 Hp)|].
    destruct (type_there _ _ _ i n H2 Hn) as [t2 E2]. by destruct (leaf_types i n t1 t2 Hn E1 E2 Hv Ho Hp) as (_ & _ & Hu); auto.
Qed.

(** ** Binding *)

Lemma set_contexts_other st os c o : o ∉ os -> contexts (set_contexts st os c) !! o = contexts st !! o.
Proof.
  unfold set_contexts. cbn. generalize (contexts st) as l. induction os as [|x os IH]; intros l Ho; cbn; [done|].
  rewrite IH by set_solver. apply list_lookup_insert_ne. set_solver.
Qed.

Lemma set_contexts_none st os o : o ∈ os -> default None (contexts (set_contexts st os None) !! o) = None.
Proof.
  unfold set_contexts. cbn. generalize (contexts st) as l. induction os as [|x os IH]; intros l Ho; cbn; [by apply elem_of_nil in Ho|].
  destruct (decide (o ∈ os)) as [Hin|Hout]; [by apply IH|]. apply elem_of_cons in Ho as [->|Ho]; [|done].
  assert (forall l : list (option Type_), fold_left (fun ctx o => <[o := None]> ctx) os l !! x = l !! x) as Hf.
  { clear IH. induction os as [|y os IH]; intros l0; cbn; [done|]. rewrite IH by set_solver. apply list_lookup_insert_ne. set_solver. }
  rewrite Hf. destruct (decide (x < length l)%nat); [by rewrite list_lookup_insert_eq|]. rewrite lookup_ge_None_2 by (rewrite length_insert; lia). done.
Qed.

Lemma BindNode_other st i st' n o : BindNode ns types1 st i = Ok st' -> ns !! i = Some n -> o ∉ node_operands n -> contexts st' !! o = contexts st !! o.
Proof.
  intros H Hn Ho. unfold BindNode in H. rewrite Hn in H. res_inv.
  assert (forall st os c, os ⊆ node_operands n -> contexts (set_contexts st os c) !! o = contexts st !! o) as Hset.
  { intros st0 os c Hsub. apply set_contexts_other. set_solver. }
  assert (forall k l, take k l ⊆ l /\ drop k l ⊆ (l : list nat)) as Hsub.
  { intros k l. split; intros x Hx; rewrite <- (take_drop k l); apply elem_of_app; auto. }
  destruct (node_op n); res_inv; subst; try done; try (apply Hset; done).
  1: { destruct (negb _); [done|]. by injection H as <-. }
  1-6: rewrite !Hset; [done|apply Hsub|etrans; apply Hsub].
  1-2: apply Hset, Hsub.
Qed.

(** Down to node [o], which no node on the way has as an operand. *)
Lemma BindLoop_skip o j st st' : (o < j)%nat -> (forall i n, (o < i < j)%nat -> ns !! i = Some n -> o ∉ node_operands n) -> BindLoop ns types1 j st = Ok st' ->
  exists st2, contexts st2 !! o = contexts st !! o /\ BindLoop ns types1 (S o) st2 = Ok st'.
Proof.
  revert st. induction j as [|j IH]; intros st Hj Hno H; [lia|]. destruct (decide (j = o)) as [->|Hne]; [by exists st|].
  cbn [BindLoop] in H. res_inv. destruct (ns !! j) as [n|] eqn:En; [|unfold BindNode in Hs; by rewrite En in Hs].
  destruct (IH a) as (st2 & C2 & L2); [lia|intros i m Hi; apply Hno; lia|done|]. exists st2. split; [|done].
  rewrite C2. eapply BindNode_other; [done|done|]. apply (Hno j); [lia|done].
Qed.

(** A parameter without a column is refused. *)
Lemma unknown_refused i : forall n t1 st st', ns !! i = Some n -> types1 !! i = Some t1 -> IsValue (node_op n) = true -> type_category t1 = cUnknown ->
  default None (contexts st !! i) = None -> BindLoop ns types1 (S i) st <> Ok st'.
Proof.
  induction (lt_wf i) as [i _ IH]. intros n t1 st st' Hn E1 Hv Hc Hctx H. cbn [BindLoop] in H. res_inv. rename a into st1.
  pose proof (open_untyped i n t1 Hn E1 Hv ltac:(by rewrite Hc)) as Hu. assert (Hbind := Hs).
  unfold BindNode in Hs. rewrite Hn in Hs. unfold type_at in Hs. rewrite E1, bind_Ok_l in Hs. rewrite Hu, Hctx in Hs. cbn [negb default] in Hs. rewrite Hu in Hs. cbn [negb] in Hs.
  destruct (is_operation (node_op n)) eqn:Ho.
  - assert (st1 = set_contexts st (node_operands n) None) as -> by (destruct (node_op n); try discriminate Ho; by injection Hs as <-).
    destruct (operation_at _ _ _ i n t1 H1 Hn E1 Ho) as (ts1 & M1 & A1 & _).
    destruct (merges_open _ _ _ cUnknown M1 (or_intror eq_refl) Hc) as [_ U]. destruct (U eq_refl) as (x & Hx & Ex).
    destruct (A1 x Hx) as (o & Hop & Hx1). destruct (operation_operand i n o Hn Ho Hop) as (m & Hm & Hlt & Hmv).
    assert (forall j m', (o < j < i)%nat -> ns !! j = Some m' -> o ∉ node_operands m') as Hno.
    { intros j m' Hj Hm' Hom'. pose proof (wf_once _ Hwf i j n m' o Hn Hm' Hop Hom'). lia. }
    destruct (BindLoop_skip o i _ _ Hlt Hno H) as (st2 & C2 & L2).
    apply (IH o Hlt m x st2 st' Hm Hx1 Hmv Ex); [|done]. rewrite C2. by apply set_contexts_none.
  - destruct (decide (node_op n = kParameter)) as [Hp|Hp]; [by rewrite Hp in Hs|].
    destruct (type_there _ _ _ i n H2 Hn) as [t2 E2]. by destruct (leaf_types i n t1 t2 Hn E1 E2 Hv Ho Hp) as (_ & Hunk & _).
Qed.

End Root.

(** A condition is still bool, or NULL, once its parameters have their types. *)
Lemma root_bool e schema declared types1 types2 n t1 t2 : nodes_wf (nodes e) -> inferred schema (nodes e) false [] types1 -> inferred schema (nodes e) true declared types2 ->
  length (nodes e) = S (expression_root e) -> nodes e !! expression_root e = Some n -> types1 !! expression_root e = Some t1 -> types2 !! expression_root e = Some t2 ->
  bool_type (node_op n) t1 -> Bind e types1 None = Ok declared -> bool_type (node_op n) t2.
Proof.
  intros Hwf H1 H2 Hlast Hn E1 E2 Hb Hbind Hv. destruct (Hb Hv) as [Hc|Hc]; [left; by eapply bool_stays|].
  destruct (type_category t1) eqn:Ec; try discriminate Hc.
  - exfalso. unfold Bind in Hbind. rewrite Hlast in Hbind. res_inv. eapply unknown_refused; [done|exact H1|exact H2|exact Hn|exact E1|done|done| |exact Hs].
    cbn [contexts]. rewrite list_lookup_insert_eq by (rewrite length_replicate; lia). done.
  - right. by rewrite (null_stays schema (nodes e) declared types1 types2 Hwf H1 H2 (expression_root e) n t1 t2 Hn E1 E2 Hv Ec).
Qed.

Section Theorems.
Context {U : FloatUnit} (schema : Schema) (limits : Limits).

Definition literals_ok (e : Expression) : Prop := Forall (fun n => literal_ok (node_literal n)) (nodes e).

(** What planning an expression gives. *)
Lemma Plan_spec e target p p' r t : CheckExpression e limits = Ok tt -> Plan schema e target p = Ok (p', r, t) ->
  exists n declared types, nodes_wf (nodes e) /\ nodes e !! expression_root e = Some n /\ inferred schema (nodes e) true declared types /\
    types !! expression_root e = Some t /\ compiled schema p' (length (steps p)) (nodes e) types declared (length (nodes e)) /\ extends p p' /\
    r = (length (steps p) + expression_root e)%nat /\ length (steps p') = (length (steps p) + length (nodes e))%nat /\
    match target with
    | Some _ => IsValue (node_op n) = true
    | None => length (nodes e) = S (expression_root e) -> bool_type (node_op n) t
    end.
Proof.
  intros Hc H. destruct (CheckExpression_wf _ _ Hc) as [Hwf Hroot]. unfold Plan in H. destruct (nodes e !! expression_root e) as [n|] eqn:En; [|done].
  res_inv. destruct a4 as [q k]. res_inv. simplify_eq. rename a0 into types1, a2 into declared, a3 into types2.
  destruct (Compile_ok _ _ _ _ _ _ _ Hs4) as (C & X & -> & L). unfold type_at in Hs5. destruct (types2 !! expression_root e) as [t2|] eqn:E2; [|done]. simplify_eq.
  exists n, declared, types2. apply Infer_spec in Hs0, Hs3. repeat (split; [done|]). destruct target as [u|]; [by destruct (IsValue (node_op n))|].
  intros Hlast. apply bind_ok in Hs1 as (t1 & Ht1 & Hct). unfold type_at in Ht1. destruct (types1 !! expression_root e) eqn:E1; [|done]. simplify_eq.
  eapply root_bool; try done. by eapply CheckTruth_ok.
Qed.

Lemma planned_condition e p inputs : PlanCondition schema e limits = Ok p -> length (nodes e) = S (expression_root e) -> literals_ok e -> inputs_ok schema inputs ->
  good (fun _ => True) (EvaluateCondition p inputs).
Proof.
  intros Hp Hlast Hlit Hin. unfold PlanCondition in Hp. res_inv. destruct a0 as [[q r] t]. res_inv. subst p. destruct a.
  destruct (Plan_spec e None _ _ _ _ Hs Hs0) as (n & declared & types & Hwf & Hn & Hinf & Ht & Hcomp & _ & -> & L & Hb).
  unfold EvaluateCondition. eapply good_bind; [|by intros]. cbn [root SortParameters]. 
  eapply (truth_sound_all schema (nodes e) types declared); try done.
  - by apply Hb.
  - cbn. rewrite L. cbn. lia.
Qed.

(** The type of an assignment's value fits its column. *)
Definition assigns (t : Type_) (c : ColumnType) : Prop :=
  type_category t = cNull \/
  ((type_category t = CategoryOf (kind c) \/ (CategoryOf (kind c) = cFloat /\ type_category t = cInt)) /\
   (CategoryOf (kind c) = cBits -> size (repr t) = size c)).

(** A target of the program is the planned value of a column of the table. *)
Definition planned (p : Program) (tgt : Target) : Prop :=
  exists e n declared types t offset, BlockColumn schema (target_name tgt) = Some (target_column tgt) /\ literals_ok e /\ nodes_wf (nodes e) /\
    nodes e !! expression_root e = Some n /\ IsValue (node_op n) = true /\ inferred schema (nodes e) true declared types /\
    types !! expression_root e = Some t /\ compiled schema p offset (nodes e) types declared (length (nodes e)) /\
    target_root tgt = (offset + expression_root e)%nat /\ (offset + length (nodes e) <= length (steps p))%nat /\ assigns t (binding_type (target_column tgt)).

Lemma planned_extends p p' tgt : steps p `prefix_of` steps p' -> operands p `prefix_of` operands p' -> planned p tgt -> planned p' tgt.
Proof.
  intros Hs Ho (e & n & d & ty & t & off & A1 & A2 & A3 & A4 & A5 & A6 & A7 & A8 & A9 & A10 & A11). exists e, n, d, ty, t, off.
  repeat (split; [done|]). split; [by eapply extends_compiled|]. split; [done|]. split; [|done]. apply prefix_length in Hs. lia.
Qed.

Lemma PlanAssignment_ok p before a p' before' : literals_ok (assigned_value a) -> Forall (planned p) (targets p) -> map target_name (targets p) = before ->
  PlanAssignment schema limits (p, before) a = Ok (p', before') ->
  Forall (planned p') (targets p') /\ map target_name (targets p') = before' /\ before' = before ++ [assigned_column a] /\ assigned_column a ∉ before.
Proof.
  intros Hl Hall Hnames H. unfold PlanAssignment in H. apply bind_ok in H as ([] & Hdup & H). apply throw_if_ok, bool_decide_eq_false in Hdup.
  destruct (BlockColumn schema (assigned_column a)) as [col|] eqn:Ec; [|done].
  apply bind_ok in H as ([] & Hchk & H). apply bind_ok in H as ([[q r] t] & Hplan & H). apply bind_ok in H as ([] & Hfit & H). simplify_eq.
  destruct (Plan_spec _ _ _ _ _ _ Hchk Hplan) as (n & d & ty & Hwf & Hn & Hinf & Ht & Hcomp & (X1 & X2 & X3) & -> & L & Hv).
  cbn [targets]. rewrite map_app, X3. split; [|done]. apply Forall_app. split.
  { eapply Forall_impl; [exact Hall|]. intros tgt. by apply planned_extends. }
  apply Forall_singleton. exists (assigned_value a), n, d, ty, t, (length (steps p)). cbn [target_name target_column target_root steps].
  repeat (split; [done|]). split; [lia|]. unfold assigns.
  case_bool_decide as En; [by left|]. right. apply throw_if_ok, orb_false_iff in Hfit as [F1 F2]. split.
  - apply andb_false_iff in F1 as [F1|F1]; apply negb_false_iff in F1; [left; by apply bool_decide_eq_true in F1|right].
    apply andb_true_iff in F1 as [F1%bool_decide_eq_true F3%bool_decide_eq_true]. done.
  - intros Eb. rewrite Eb in F2. cbn in F2. by apply negb_false_iff, Z.eqb_eq in F2.
Qed.

Lemma PlanAssignments_ok assignments : forall p before p' before', Forall (fun a => literals_ok (assigned_value a)) assignments ->
  Forall (planned p) (targets p) -> map target_name (targets p) = before -> NoDup before ->
  fold_res (PlanAssignment schema limits) (p, before) assignments = Ok (p', before') ->
  Forall (planned p') (targets p') /\ map target_name (targets p') = before ++ map assigned_column assignments /\ NoDup (before ++ map assigned_column assignments).
Proof.
  induction assignments as [|a l IH]; intros p before p' before' Hl Hall Hnames Hnd H; cbn [fold_res] in H.
  { res_inv. simplify_eq. cbn. by rewrite app_nil_r. }
  apply bind_ok in H as ([q b] & Hq & H). apply Forall_cons in Hl as [Hl1 Hl2].
  destruct (PlanAssignment_ok _ _ _ _ _ Hl1 Hall Hnames Hq) as (P1 & P2 & -> & P3).
  cbn [map]. rewrite cons_middle, app_assoc. eapply IH; try done. apply NoDup_app. split; [done|]. split; [|apply NoDup_singleton].
  intros x Hx ->%list_elem_of_singleton. done.
Qed.

(** The value of a column: NULL where the column takes it, or one the column holds. *)
Definition column_ok (c : ColumnBinding) (v : ColumnValue) : Prop := (v = VNull /\ binding_nullable c = true) \/ holds (binding_type c) v.

Lemma Store_integer c n : type_ok c -> in_i 128 n ->
  match kind c with
  | kUnsigned => (n <? 0) || (Z.shiftl 1 (size c) - 1 <? n) = false -> u64 n = n /\ 0 <= n < 2 ^ size c
  | kSigned => (n <? - Z.shiftl 1 (size c - 1)) || (Z.shiftl 1 (size c - 1) <=? n) = false -> i64 (u64 n) = n /\ - 2 ^ (size c - 1) <= n < 2 ^ (size c - 1)
  | _ => True
  end.
Proof.
  intros Ht Hn. unfold type_ok in Ht. destruct (kind c); try done; rewrite Z.shiftl_1_l; intros [E1 E2]%orb_false_iff.
  - apply Z.ltb_ge in E1, E2. pose proof (Z.pow_le_mono_r 2 (size c) 64 ltac:(lia) ltac:(lia)). split; [|lia]. apply wrap_small. unfold in_u. lia.
  - apply Z.ltb_ge in E1. apply Z.leb_gt in E2. pose proof (Z.pow_le_mono_r 2 (size c - 1) 63 ltac:(lia) ltac:(lia)). split; [|lia].
    apply signed_wrap; [lia|]. unfold in_i. lia.
Qed.

Lemma Store_ok tgt t v : type_ok (binding_type (target_column tgt)) -> assigns t (binding_type (target_column tgt)) -> value_ok t v ->
  good (column_ok (target_column tgt)) (Store tgt v).
Proof.
  intros Ht Ha Hv. unfold Store. destruct (is_null v) eqn:Nv.
  { destruct (binding_nullable (target_column tgt)) eqn:En; cbn; [|done]. by left. }
  apply is_null_false in Nv. destruct Hv as [?|[Hc Hd]]; [done|]. destruct Ha as [Ha|[Ha Hz]]; [unfold data_ok in Hd; by rewrite Ha in Hd|].
  unfold data_ok in Hd. rewrite <- Hc in *. destruct (kind (binding_type (target_column tgt))) eqn:Ek; cbn [CategoryOf] in Ha, Hz.
  all: assert (Hst := Store_integer (binding_type (target_column tgt)) (integer v) Ht); rewrite Ek in Hst.
  all: unfold column_ok, holds; rewrite Ek.
  - destruct Ha as [Ha|[? _]]; [|done]. rewrite Ha in *. rewrite bool_decide_true by done. cbn [negb].
    destruct (_ || _) eqn:E; [done|]. destruct (Hst Hd eq_refl) as [-> H]. by right.
  - destruct Ha as [Ha|[? _]]; [|done]. rewrite Ha in *. rewrite bool_decide_true by done. cbn [negb].
    destruct (_ || _) eqn:E; [done|]. destruct (Hst Hd eq_refl) as [-> H]. by right.
  - by right.
  - case_bool_decide as Ei; [right; apply f32_of_int_bound|]. destruct (_ && _); [done|]. right. apply double_to_float_bound.
    destruct Ha as [Ha|[_ Ha]]; [|done]. by rewrite Ha in Hd.
  - right. unfold ToDouble. case_bool_decide as Ei; [apply f64_of_int_bound|]. destruct Ha as [Ha|[_ Ha]]; [|done]. by rewrite Ha in Hd.
  - destruct Ha as [Ha|[? _]]; [|done]. rewrite Ha in Hd. right. destruct Hd as [-> Hd]. split; [by apply Hz|done].
  - destruct Ha as [Ha|[? _]]; [|done]. rewrite Ha in Hd. destruct (Z.ltb_spec (size (binding_type (target_column tgt))) (len (view v))); [done|].
    destruct (IsUtf8 (view v)) eqn:Eu; [|done]. by right.
  - destruct Ha as [Ha|[? _]]; [|done]. rewrite Ha in Hd. destruct (Z.ltb_spec (size (binding_type (target_column tgt))) (len (view v))); [done|]. by right.
Qed.

Lemma target_sound p q tgt inputs : planned p tgt -> steps q = steps p -> operands q = operands p -> inputs_ok schema inputs ->
  good (column_ok (target_column tgt)) (v ← ValueOf q inputs (S (length (steps q))) (target_root tgt); Store tgt v).
Proof.
  intros (e & n & d & ty & t & off & A1 & A2 & A3 & A4 & A5 & A6 & A7 & A8 & -> & A10 & A11) Es Eo Hin.
  destruct (io_block _ _ Hin _ _ A1) as [Hty _]. apply (good_bind (value_ok t)).
  - eapply (value_sound_all schema (nodes e) ty d); try done.
    + eapply extends_compiled; [| |exact A8]; [by rewrite Es|by rewrite Eo].
    + pose proof (lookup_lt_Some _ _ _ A4). rewrite Es. lia.
  - intros v Hv. by eapply Store_ok.
Qed.

Lemma planned_assignments assignments p inputs : PlanAssignments schema assignments limits = Ok p ->
  Forall (fun a => literals_ok (assigned_value a)) assignments -> inputs_ok schema inputs ->
  map target_name (targets p) = map assigned_column assignments /\ NoDup (map assigned_column assignments) /\
  Forall (fun t => BlockColumn schema (target_name t) = Some (target_column t)) (targets p) /\
  good (Forall2 (fun t v => column_ok (target_column t) v) (targets p)) (EvaluateAssignments p inputs).
Proof.
  intros Hp Hl Hin. unfold PlanAssignments in Hp. apply bind_ok in Hp as ([q before] & Hq & Hp). simplify_eq.
  destruct (PlanAssignments_ok assignments no_program [] q before Hl) as (P1 & P2 & P3); [by constructor|done|by constructor|done|].
  split; [done|]. split; [done|]. split. { eapply Forall_impl; [exact P1|]. by intros tgt (e & n & d & ty & t & off & A1 & _). }
  unfold EvaluateAssignments. cbn [targets SortParameters steps].
  assert (forall ts done values, Forall (planned q) ts -> Forall2 (fun t v => column_ok (target_column t) v) done values ->
    good (Forall2 (fun t v => column_ok (target_column t) v) (done ++ ts))
      (fold_res (fun values t => v ← ValueOf (SortParameters q) inputs (S (length (steps q))) (target_root t); x ← Store t v; Ok (values ++ [x])) values ts)) as Hloop.
  { induction ts as [|t ts IH]; intros done_ values Hts Hdone; cbn [fold_res]; [by rewrite app_nil_r|].
    apply Forall_cons in Hts as [Ht Hts]. pose proof (target_sound q (SortParameters q) t inputs Ht eq_refl eq_refl Hin) as Hv.
    apply (good_bind (fun vs => exists x, vs = values ++ [x] /\ column_ok (target_column t) x)).
    - destruct (ValueOf _ _ _ _) as [v|]; [|done]. cbn in *. destruct (Store t v); [|done]. cbn in *. eauto.
    - intros vs (x & -> & Hx). rewrite cons_middle, app_assoc. apply IH; [done|]. apply Forall2_app; [done|]. by constructor. }
  apply (Hloop (targets q) [] []); [done|constructor].
Qed.

End Theorems.

(** ** A table and a block of it *)

(** One column [a] of 8 bits. *)
Definition one_column : Schema :=
  {| BlockColumn := fun n => if bool_decide (n = [97]) then Some {| binding_id := 1; binding_slot := 0; binding_type := {| kind := kUnsigned; size := 8 |}; binding_nullable := false |} else None;
     ChunkColumn := fun _ => None |}.

Definition default_limits : Limits := {| max_nodes := kDefaultMaxNodes; max_depth := kDefaultMaxDepth |}.
Definition block_255 : Inputs := {| exists_ := true; block := [VUnsigned 255]; chunk := []; pos_x := 0; pos_y := 0; pos_z := 0; now := 0; given := [VUnsigned 1] |}.

Lemma block_255_ok : inputs_ok one_column block_255.
Proof.
  split.
  - intros n b H. cbn in H. case_bool_decide; [|discriminate H]. injection H as <-. split; [cbn; lia|]. intros _. exists (VUnsigned 255). split; [reflexivity|]. right. cbn. lia.
  - intros n b H. discriminate H.
  - constructor; [split; [cbn; unfold in_u; lia|exact I]|constructor].
  - unfold in_i. cbn [pos_x block_255]. lia.
  - unfold in_i. cbn [pos_y block_255]. lia.
  - unfold in_i. cbn [pos_z block_255]. lia.
  - unfold in_u. cbn [now block_255]. lia.
Defined.

End ExprSound.
