(* ===== verification/StateError.v ===== *)
(** * Code that reads and updates an object and may throw

    The parsers keep where they are in their members and throw at the first
    token that does not fit.  A method is a function from the object to its
    result and the object after it, or the exception. *)
From stdpp Require Import prelude.
From Stdlib Require Import Lia.
From S2P Require Import Prelude.

Module StateError.

Definition ST (S A : Type) : Type := S -> res (A * S).

#[global] Instance ST_ret S : MRet (ST S) := fun A a s => Ok (a, s).
#[global] Instance ST_bind S : MBind (ST S) := fun A B f m s => match m s with Ok (a, s') => f a s' | Err e => Err e end.

Definition throw {S A} (e : exn) : ST S A := fun _ => Err e.
Definition gets {S A} (f : S -> A) : ST S A := fun s => Ok (f s, s).
Definition update {S} (f : S -> S) : ST S unit := fun s => Ok (tt, f s).
(** A computation that does not use the object. *)
Definition pure_ {S A} (r : res A) : ST S A := fun s => match r with Ok a => Ok (a, s) | Err e => Err e end.
(** A method of a member. *)
Definition zoom {S T A} (get : S -> T) (put : T -> S -> S) (m : ST T A) : ST S A :=
  fun s => match m (get s) with Ok (a, t) => Ok (a, put t s) | Err e => Err e end.

(** A loop: [body] gives the variables of the next round, or nothing to leave.
    [fuel] bounds the rounds after the first. *)
Fixpoint while_some {S A} (body : A -> ST S (option A)) (fuel : nat) (a : A) : ST S A :=
  next ← body a;
  match next with
  | None => mret a
  | Some a' => match fuel with O => throw out_of_fuel | Datatypes.S f => while_some body f a' end
  end.

(** From [s], [m] returns with [Q] or throws with [E]. *)
Definition wp {S A} (E : exn -> Prop) (m : ST S A) (Q : A -> S -> Prop) (s : S) : Prop :=
  match m s with Ok (a, s') => Q a s' | Err e => E e end.

Section Rules.
Context {S : Type} (E : exn -> Prop).

Lemma wps_bind {A B} (m : ST S A) (f : A -> ST S B) Q s : wp E m (fun a => wp E (f a) Q) s -> wp E (m ≫= f) Q s.
Proof. unfold wp, mbind, ST_bind. by destruct (m s) as [[a s']|e]. Qed.

Lemma wp_assoc {A B C} (m : ST S A) (f : A -> ST S B) (g : B -> ST S C) Q s : wp E ((m ≫= f) ≫= g) Q s -> wp E (m ≫= fun a => f a ≫= g) Q s.
Proof. unfold wp, mbind, ST_bind. by destruct (m s) as [[a s']|e]. Qed.

Lemma wps_ret {A} (a : A) Q s : Q a s -> wp E (mret a : ST S A) Q s.
Proof. done. Qed.

Lemma wps_throw {A} e (Q : A -> S -> Prop) s : E e -> wp E (throw e) Q s.
Proof. done. Qed.

Lemma wp_gets {A} (f : S -> A) Q s : Q (f s) s -> wp E (gets f) Q s.
Proof. done. Qed.

Lemma wp_update (f : S -> S) Q s : Q tt (f s) -> wp E (update f) Q s.
Proof. done. Qed.

Lemma wp_pure {A} (r : res A) (Q : A -> S -> Prop) s : match r with Ok a => Q a s | Err e => E e end -> wp E (pure_ r) Q s.
Proof. unfold wp, pure_. by destruct r. Qed.

Lemma wp_weaken {A} (m : ST S A) (P Q : A -> S -> Prop) s : wp E m P s -> (forall a s', P a s' -> Q a s') -> wp E m Q s.
Proof. unfold wp. destruct (m s) as [[a s']|e]; auto. Qed.

Lemma wp_result {A} (m : ST S A) Q s a s' : wp E m Q s -> m s = Ok (a, s') -> Q a s'.
Proof. unfold wp. intros H Hm. by rewrite Hm in H. Qed.

(** A loop whose rounds decrease [mu] ends. *)
Lemma wp_while {A} (mu : S -> nat) (I Q : A -> S -> Prop) (body : A -> ST S (option A)) :
  (forall a s, I a s -> wp E (body a) (fun o s' => match o with Some a' => I a' s' /\ (mu s' < mu s)%nat | None => Q a s' end) s) ->
  forall fuel a s, I a s -> (mu s <= fuel)%nat -> wp E (while_some body fuel a) Q s.
Proof.
  intros Hb fuel. induction fuel as [|f IH]; intros a s HI Hf; cbn [while_some]; apply wps_bind; eapply wp_weaken; try (by apply Hb); intros [a'|] s'; try done.
  - intros [_ Hlt]. lia.
  - intros [HI' Hlt]. apply IH; [done|lia].
Qed.

End Rules.

Lemma wp_errors {S A} (E E' : exn -> Prop) (m : ST S A) Q s : (forall e, E e -> E' e) -> wp E m Q s -> wp E' m Q s.
Proof. intros HE. unfold wp. destruct (m s) as [[a s']|e]; auto. Qed.

Lemma wp_zoom {S T A} E (get : S -> T) (put : T -> S -> S) (m : ST T A) Q s :
  wp E m (fun a t => Q a (put t s)) (get s) -> wp E (zoom get put m) Q s.
Proof. unfold wp, zoom. by destruct (m (get s)) as [[a t]|e]. Qed.

End StateError.
