(* ===== verification/Lexer.v ===== *)
(** * The lexer of statements and expressions (src/src/cql.cpp, cql_lexer.hpp)

    A request line is read token by token; both parsers keep one token of
    lookahead.  Proved here: what each kind of token holds, that every token
    moves on, that nothing but a ParseError is thrown, and that the count of
    parameters taken from the bytes of a line (CountParameterTokens, used even
    for lines that do not parse) counts the parameter tokens. *)
From stdpp Require Import prelude strings gmap.
From Stdlib Require Import ZArith Lia.
From S2P Require Import Prelude Text Floats Doubles StateError.

#[local] Open Scope Z_scope.

Module Lexer.
Import Text Floats Doubles StateError.

(** A constructor [kX] of the source is [tkX]. *)
Inductive TokenKind :=
| tkWord | tkInteger | tkFloat | tkText | tkBytes | tkBits | tkParameter | tkComma | tkOpen | tkClose | tkEquals | tkStar | tkEnd
| tkLess | tkLessEqual | tkGreater | tkGreaterEqual | tkNotEqual | tkPlus | tkMinus | tkSlash | tkPercent | tkDot | tkQuotedName.
#[global] Instance TokenKind_eq_dec : EqDecision TokenKind.
Proof. solve_decision. Defined.

Inductive LexMode := kStatement | kExpression.
#[global] Instance LexMode_eq_dec : EqDecision LexMode.
Proof. solve_decision. Defined.

Record Token := MkToken { token_kind : TokenKind; token_text : bytes; column : Z }.

(** ** Characters *)

Definition IsWordStart (c : Z) : bool := ((97 <=? c) && (c <=? 122)) || ((65 <=? c) && (c <=? 90)) || (c =? 95).
Definition IsDigit (c : Z) : bool := (48 <=? c) && (c <=? 57).
Definition IsWordPart (c : Z) : bool := IsWordStart c || IsDigit c.
Definition lower_char (c : Z) : Z := if (65 <=? c) && (c <=? 90) then c - 65 + 97 else c.
Definition Lower (text : bytes) : bytes := map lower_char text.
Definition isxdigit (c : Z) : bool := IsDigit c || ((65 <=? c) && (c <=? 70)) || ((97 <=? c) && (c <=? 102)).
Definition is_blank (c : Z) : bool := (c =? 32) || (c =? 9).

(** ** Messages *)

(** The bytes of a message. *)
Definition text_of (b : bytes) : string := fold_right (fun c s => String (Ascii.ascii_of_N (Z.to_N c)) s) EmptyString b.
Definition number_text (n : Z) : string := text_of (to_string n).

Definition hex_digit (n : Z) : Z := if n <? 10 then 48 + n else 87 + n.

Definition Printable (text : bytes) : bytes :=
  flat_map (fun c => if (c <? 0x20) || (c =? 0x7f) then [92; 120; hex_digit (Z.shiftr c 4); hex_digit (Z.land c 0x0f)] else [c]) text.

Definition Fail {A} (column : Z) (message : string) : res A :=
  Err (parse_error ("column " +:+ number_text column +:+ ": " +:+ message)).

Definition Quote (t : Token) : string :=
  match token_kind t with
  | tkQuotedName => "'" +:+ text_of (34 :: Printable (token_text t) ++ [34]) +:+ "'"
  | tkEnd => "the end of the statement"
  | _ => "'" +:+ text_of (Printable (token_text t)) +:+ "'"
  end.

(** ** Tokens *)

(** A quoted body from after its opening quote: what it says and the rest after the closing quote. *)
Fixpoint ReadQuoted (quote : Z) (rest : bytes) : option (bytes * bytes) :=
  match rest with
  | [] => None
  | c :: rest =>
      if c =? quote then
        match rest with
        | d :: rest' => if d =? quote then '(out, after) ← ReadQuoted quote rest'; Some (quote :: out, after) else Some ([], rest)
        | [] => Some ([], [])
        end
      else '(out, after) ← ReadQuoted quote rest; Some (c :: out, after)
  end.

(** The end of a number after its first character; whether it has a point or an exponent. *)
Fixpoint NumberEnd (rest : bytes) (is_float : bool) : nat * bool :=
  match rest with
  | [] => (0%nat, is_float)
  | d :: rest =>
      if IsDigit d then let '(n, f) := NumberEnd rest is_float in (S n, f)
      else if (d =? 46) || (d =? 101) || (d =? 69) then
        match rest with
        | s :: rest' =>
            if ((d =? 101) || (d =? 69)) && ((s =? 45) || (s =? 43)) then let '(n, f) := NumberEnd rest' true in (S (S n), f)
            else let '(n, f) := NumberEnd rest true in (S n, f)
        | [] => (1%nat, true)
        end
      else (0%nat, is_float)
  end.

Section Line.
Context (line : bytes).

Definition rest_at (at_ : nat) : bytes := drop at_ line.
(** Past the characters from [at_] that satisfy [p]. *)
Definition skip (p : Z -> bool) (at_ : nat) : nat := (at_ + length (span p (rest_at at_)).1)%nat.
(** [line.substr(from, to - from)]. *)
Definition sub (from to : nat) : bytes := take (to - from) (rest_at from).

(** A quoted token that opens before [at_]. *)
Definition Quoted (kind : TokenKind) (quote : Z) (at_ : nat) (column : Z) : res (Token * nat) :=
  match ReadQuoted quote (rest_at at_) with
  | None => Fail column (if quote =? 34 then "the quoted name has no closing quote" else "the quoted value has no closing quote")
  | Some (out, after) => Ok (MkToken kind out column, (length line - length after)%nat)
  end.

(** The tokens of expressions only. *)
Definition LexOperator (c : Z) (at_ : nat) (column : Z) : res (option (Token * nat)) :=
  let single kind (length : nat) := Ok (Some (MkToken kind (sub at_ (at_ + length)) column, (at_ + length)%nat)) in
  let next := default 0 (line !! S at_) in
  if c =? 60 then if next =? 61 then single tkLessEqual 2%nat else if next =? 62 then single tkNotEqual 2%nat else single tkLess 1%nat
  else if c =? 62 then if next =? 61 then single tkGreaterEqual 2%nat else single tkGreater 1%nat
  else if c =? 43 then single tkPlus 1%nat
  else if c =? 45 then single tkMinus 1%nat
  else if c =? 47 then single tkSlash 1%nat
  else if c =? 37 then single tkPercent 1%nat
  else if c =? 46 then single tkDot 1%nat
  else if c =? 34 then t ← Quoted tkQuotedName 34 (S at_) column; Ok (Some t)
  else Ok None.

(** x'..' and b'..'. *)
Definition LexPrefixed (c : Z) (at_ : nat) (column : Z) : res (Token * nat) :=
  '(t, at_) ← Quoted (if (c =? 120) || (c =? 88) then tkBytes else tkBits) 39 (at_ + 2) column;
  let body := token_text t in
  if (c =? 120) || (c =? 88) then
    if negb (len body mod 2 =? 0) || negb (forallb isxdigit body) then Fail column "x'..' takes pairs of hexadecimal digits" else Ok (t, at_)
  else if bool_decide (body = []) || negb (forallb (fun d => (d =? 48) || (d =? 49)) body) then Fail column "b'..' takes the digits 0 and 1"
  else Ok (t, at_).

Definition LexParameter (at_ : nat) (column : Z) : res (Token * nat) :=
  let end_ := skip IsDigit (S at_) in
  if (end_ =? S at_)%nat then Fail column "a parameter is $ followed by its number" else Ok (MkToken tkParameter (sub (S at_) end_) column, end_).

(** A number, or -inf. *)
Definition LexNumber (c : Z) (at_ : nat) (column : Z) : res (Token * nat) :=
  if (c =? 45) && IsWordStart (default 0 (line !! S at_)) then
    let end_ := skip IsWordPart (S at_) in
    if negb (bool_decide (Lower (sub (S at_) end_) = str "inf")) then Fail column "expected a number after -" else Ok (MkToken tkFloat (str "-inf") column, end_)
  else
    let '(n, is_float) := NumberEnd (rest_at (S at_)) false in
    let end_ := (S at_ + n)%nat in
    Ok (MkToken (if is_float : bool then tkFloat else tkInteger) (sub at_ end_) column, end_).

Definition Lex (mode : LexMode) (position : nat) : res (Token * nat) :=
  let at_ := skip is_blank position in
  let column := Z.of_nat at_ + 1 in
  match line !! at_ with
  | None => Ok (MkToken tkEnd [] column, at_)
  | Some c =>
      if c =? 42 then Ok (MkToken tkStar [42] column, S at_)
      else
        operator ← match mode with kExpression => LexOperator c at_ column | kStatement => Ok None end;
        match operator with
        | Some t => Ok t
        | None =>
            let next := line !! S at_ in
            let next_is p := match next with Some d => p d | None => false end in
            if (c =? 44) || (c =? 40) || (c =? 41) || (c =? 61) then
              Ok (MkToken (if c =? 44 then tkComma else if c =? 40 then tkOpen else if c =? 41 then tkClose else tkEquals) [c] column, S at_)
            else if c =? 39 then Quoted tkText 39 (S at_) column
            else if ((c =? 120) || (c =? 88) || (c =? 98) || (c =? 66)) && next_is (fun d => d =? 39) then LexPrefixed c at_ column
            else if c =? 36 then LexParameter at_ column
            else if IsDigit c || ((c =? 45) && next_is (fun d => IsDigit d || IsWordStart d)) then LexNumber c at_ column
            else if IsWordStart c then let end_ := skip IsWordPart (S at_) in Ok (MkToken tkWord (sub at_ end_) column, end_)
            else Fail column ("unexpected '" +:+ text_of (Printable [c]) +:+ "'")
        end
  end.

End Line.

(** ** The values of tokens *)

Record Integer := MkInteger { negative : bool; magnitude : Z }.

(** std::from_chars of digits into a [w]-bit unsigned integer: the value and what follows it. *)
Definition from_chars (w : Z) (text : bytes) : option (Z * bytes) :=
  let '(ds, rest) := span is_digit text in
  if bool_decide (ds = []) then None
  else if 2 ^ w <=? digits_value ds then None
  else Some (digits_value ds, rest).

Definition IntegerOf (t : Token) : res Integer :=
  let '(negative, digits) := match token_text t with c :: rest => if c =? 45 then (true, rest) else (false, token_text t) | [] => (false, []) end in
  match from_chars 64 digits with
  | Some (m, []) => Ok (MkInteger (negative && negb (m =? 0)) m)
  | _ => Fail (column t) (text_of (token_text t) +:+ " is not a 64-bit integer")
  end.

(** A number as std::istream reads it: digits with a point and an exponent.  The
    number is [mantissa * 10 ^ exponent]; [None] when some of the text is not of it. *)
Definition Decimal (text : bytes) : option (Z * Z) :=
  let '(whole, rest) := span is_digit text in
  let '(fraction, rest) := match rest with c :: r => if c =? 46 then span is_digit r else ([], rest) | [] => ([], []) end in
  if bool_decide (whole ++ fraction = []) then None
  else
    let number e := Some (digits_value (whole ++ fraction), e - len fraction) in
    match rest with
    | [] => number 0
    | c :: r =>
        if c =? 101 then
          let '(minus, r) := sign r in
          match span is_digit r with
          | ([], _) => None
          | (ds, []) => number (if minus : bool then - digits_value ds else digits_value ds)
          | _ => None
          end
        else None
    end.

(** The double nearest to [m * 10 ^ e]; [None] past the largest.  A quotient
    keeps 64 bits or more, the last one says whether it is exact. *)
Definition round_decimal (s m e : Z) : option Z :=
  let digits := len (to_string m) in
  if m =? 0 then Some (f64_zero s)
  else if digits + e <? -400 then Some (f64_zero s)
  else if 400 <? digits + e then None
  else
    let r :=
      if 0 <=? e then round_f64 s (m * 10 ^ e) 0
      else
        let d := 10 ^ (- e) in
        let k := Z.max 0 (Z.log2 d - Z.log2 m + 64) in
        let n := m * 2 ^ k in
        round_f64 s (2 * (n / d) + (if n mod d =? 0 then 0 else 1)) (- k - 1) in
    if f64_is_inf r then None else Some r.

Definition FloatOf (t : Token) : res Z :=
  let text := Lower (token_text t) in
  if bool_decide (text = str "-inf") then Ok (f64_inf 1)
  else
    let '(s, digits) := match text with c :: rest => if c =? 45 then (1, rest) else (0, text) | [] => (0, []) end in
    match (match Decimal digits with Some (m, e) => round_decimal s m e | None => None end) with
    | Some value => Ok value
    | None => Fail (column t) (text_of (token_text t) +:+ " is not a number")
    end.

Definition hex_value (c : Z) : Z := if IsDigit c then c - 48 else if c <? 97 then c - 55 else c - 87.

(** Of pairs of hexadecimal digits, which the lexer checked. *)
Fixpoint hex_pairs (hex : bytes) : bytes :=
  match hex with
  | a :: b :: hex => 16 * hex_value a + hex_value b :: hex_pairs hex
  | _ => []
  end.

Definition BytesOf (t : Token) : bytes := hex_pairs (token_text t).

Definition kMaxParameters : Z := 65535.

Definition ParameterIndexOf (t : Token) : res Z :=
  match from_chars 64 (token_text t) with
  | Some (index, _) =>
      if (index =? 0) || (kMaxParameters <? index) then Fail (column t) ("parameters are numbered from $1 to $" +:+ number_text kMaxParameters) else Ok index
  | None => Fail (column t) ("parameters are numbered from $1 to $" +:+ number_text kMaxParameters)
  end.

Definition UseParameter (used : gset Z) (index column : Z) : res (gset Z) :=
  if decide (index ∈ used) then Fail column ("$" +:+ number_text index +:+ " is used twice") else Ok ({[index]} ∪ used).

Definition ParameterCount (used : gset Z) : res Z :=
  if bool_decide (used = ∅) then Ok 0
  else
    let count := foldr Z.max 0 (elements used) in
    if negb (Z.of_nat (size used) =? count) then Fail 1 ("parameters must be numbered $1 to $" +:+ number_text count +:+ " without gaps") else Ok count.

(** Digits after a $ are skipped with it. *)
Fixpoint CountLoop (quote : Z) (rest : bytes) : Z :=
  match rest with
  | [] => 0
  | c :: rest =>
      if negb (quote =? 0) then
        if c =? quote then
          match rest with
          | d :: rest' => if d =? quote then CountLoop quote rest' else CountLoop 0 rest
          | [] => 0
          end
        else CountLoop quote rest
      else if (c =? 39) || (c =? 34) then CountLoop c rest
      else if (c =? 36) && match rest with d :: _ => IsDigit d | [] => false end then
        1 + (fix digits (rest : bytes) : Z := match rest with d :: rest' => if IsDigit d then digits rest' else CountLoop 0 rest | [] => 0 end) rest
      else CountLoop 0 rest
  end.

Definition CountParameterTokens (line : bytes) : Z := CountLoop 0 line.
Definition MayHaveParameters (line : bytes) : bool := negb (CountParameterTokens line =? 0).

(** ** The token ahead *)

(** Where the parsers are: the members at_, the token read ahead
    (tokens_[next_]; the tokens before it are not read again) and the
    parameters used. *)
Record Reader := MkReader { at_ : nat; ahead : option Token; parameters_ : gset Z }.

Definition start : Reader := MkReader 0 None ∅.

Section Reader.
Context (line : bytes) (mode : LexMode).

Definition Peek : ST Reader Token := fun r =>
  match ahead r with
  | Some t => Ok (t, r)
  | None => '(t, a) ← Lex line mode (at_ r); Ok (t, MkReader a (Some t) (parameters_ r))
  end.

Definition Take : ST Reader Token :=
  t ← Peek;
  _ ← (if bool_decide (token_kind t = tkEnd) then mret tt else update (fun r => MkReader (at_ r) None (parameters_ r)));
  mret t.

Definition fail {A} (column : Z) (message : string) : ST Reader A := pure_ (Fail column message).

(** Fails at the next token, which is not what is expected. *)
Definition unexpected {A} (what : string) : ST Reader A :=
  t ← Peek; fail (column t) (what +:+ ", got " +:+ Quote t).

Definition IsWord (t : Token) (keyword : bytes) : bool := bool_decide (token_kind t = tkWord) && bool_decide (Lower (token_text t) = keyword).

Definition AcceptWord (keyword : bytes) : ST Reader bool :=
  t ← Peek; if IsWord t keyword then _ ← Take; mret true else mret false.

Definition upper_char (c : Z) : Z := if (97 <=? c) && (c <=? 122) then c - 97 + 65 else c.

Definition ExpectWord (keyword : bytes) : ST Reader unit :=
  b ← AcceptWord keyword; if b : bool then mret tt else unexpected ("expected " +:+ text_of (map upper_char keyword)).

Definition AcceptToken (kind : TokenKind) : ST Reader bool :=
  t ← Peek; if bool_decide (token_kind t = kind) then _ ← Take; mret true else mret false.

Definition ExpectToken (kind : TokenKind) (what : string) : ST Reader unit :=
  t ← Peek; if bool_decide (token_kind t = kind) then _ ← Take; mret tt else unexpected ("expected " +:+ what).

(** The parameter a tkParameter token ahead names, used. *)
Definition TakeParameter : ST Reader Z :=
  t ← Peek;
  index ← pure_ (ParameterIndexOf t);
  _ ← Take;
  r ← gets parameters_;
  used ← pure_ (UseParameter r index (column t));
  _ ← update (fun r => MkReader (at_ r) (ahead r) used);
  mret index.

End Reader.

(** ** What lexing gives *)

Lemma span_app {A} (p : A -> bool) l : l = (span p l).1 ++ (span p l).2 /\ Forall (fun c => p c = true) (span p l).1 /\
  (forall c r, (span p l).2 = c :: r -> p c = false).
Proof.
  induction l as [|x l IH]; cbn; [done|]. destruct (p x) eqn:Ex.
  - destruct (span p l) as [a b]. cbn in *. destruct IH as (IH1 & IH2 & IH3). split; [by f_equal|]. split; [by constructor|done].
  - cbn. split; [done|]. split; [done|]. by intros c r [= <- _].
Qed.

Lemma span_drop {A} (p : A -> bool) l : drop (length (span p l).1) l = (span p l).2.
Proof. destruct (span_app p l) as (E & _). rewrite E at 2. by rewrite drop_app_length. Qed.

(** A character that is no part of a quote or a parameter. *)
Definition plain_char (c : Z) : Prop := c <> 39 /\ c <> 34 /\ c <> 36.

Lemma count_cons c rest : plain_char c -> CountLoop 0 (c :: rest) = CountLoop 0 rest.
Proof. intros (H1 & H2 & H3). cbn [CountLoop]. rewrite (proj2 (Z.eqb_neq c 39)), (proj2 (Z.eqb_neq c 34)), (proj2 (Z.eqb_neq c 36)) by done. done. Qed.

Lemma count_app pre rest : Forall plain_char pre -> CountLoop 0 (pre ++ rest) = CountLoop 0 rest.
Proof. induction 1; cbn [app]; [done|]. by rewrite count_cons. Qed.

Lemma count_span (p : Z -> bool) rest : (forall c, p c = true -> plain_char c) -> CountLoop 0 (drop (length (span p rest).1) rest) = CountLoop 0 rest.
Proof.
  intros Hp. rewrite span_drop. destruct (span_app p rest) as (E & F & _). rewrite E at 2. rewrite count_app; [done|]. eapply Forall_impl; [exact F|done].
Qed.

Lemma count_parameter rest : (span IsDigit rest).1 <> [] -> CountLoop 0 (36 :: rest) = 1 + CountLoop 0 (span IsDigit rest).2.
Proof.
  intros H. cbn [CountLoop]. change (36 =? 39) with false. change (36 =? 34) with false. change (36 =? 36) with true. cbn [orb andb negb Z.eqb].
  assert (match rest with d :: _ => IsDigit d | [] => false end = true) as ->.
  { destruct rest as [|d rest]; [done|]. cbn in H. by destruct (IsDigit d). }
  f_equal. clear H. induction rest as [|d rest IH]; [done|]. cbn [span]. destruct (IsDigit d) eqn:Ed.
  - destruct (span IsDigit rest) as [a b]. exact IH.
  - done.
Qed.

(** Inside a quoted body. *)
Lemma count_quoted quote : quote <> 0 -> forall rest out after, ReadQuoted quote rest = Some (out, after) ->
  CountLoop quote rest = CountLoop 0 after /\ (exists pre, rest = pre ++ after /\ pre <> []) /\ (length out < length rest)%nat /\ (forall P, Forall P rest -> Forall P out).
Proof.
  intros Hq. fix IH 1. intros [|c rest] out after H; [done|]. cbn [ReadQuoted] in H. cbn [CountLoop]. rewrite (proj2 (Z.eqb_neq quote 0)) by done. cbn [negb].
  destruct (c =? quote) eqn:Ec.
  - destruct rest as [|d rest]; [injection H as <- <-; split; [done|]; split; [by exists [c]|]; split; [cbn; lia|by intros; constructor]|].
    destruct (d =? quote) eqn:Ed.
    + destruct (ReadQuoted quote rest) as [[o a]|] eqn:E; [|done]. injection H as <- <-. destruct (IH rest o a E) as (I1 & (pre & -> & Hpre) & I3 & I4).
      split; [done|]. split; [by exists (c :: d :: pre)|]. split; [cbn in *; lia|]. intros P HP. rewrite !Forall_cons in HP. apply Z.eqb_eq in Ec, Ed. subst. constructor; [tauto|apply I4; tauto].
    + injection H as <- <-. split; [done|]. split; [by exists [c]|]. split; [cbn; lia|by intros; constructor].
  - destruct (ReadQuoted quote rest) as [[o a]|] eqn:E; [|done]. injection H as <- <-. destruct (IH rest o a E) as (I1 & (pre & -> & Hpre) & I3 & I4).
    split; [done|]. split; [by exists (c :: pre)|]. split; [cbn in *; lia|]. intros P HP. rewrite !Forall_cons in HP. constructor; [tauto|apply I4; tauto].
Qed.

Lemma plain_decide c : negb ((c =? 39) || (c =? 34) || (c =? 36)) = true -> plain_char c.
Proof. unfold plain_char. rewrite negb_true_iff, !orb_false_iff, !Z.eqb_neq. tauto. Qed.

(** Tests that fail for quotes and dollars. *)
Ltac plain := intros; apply plain_decide; apply negb_true_iff;
  match goal with H : ?p ?c = true |- _ => destruct (c =? 39) eqn:?, (c =? 34) eqn:?, (c =? 36) eqn:?; try done;
    repeat match goal with E : (c =? _) = true |- _ => apply Z.eqb_eq in E; subst c end; discriminate H end.

Lemma digit_plain c : IsDigit c = true -> plain_char c.
Proof. plain. Qed.
Lemma word_plain c : IsWordPart c = true -> plain_char c.
Proof. plain. Qed.
Lemma blank_plain c : is_blank c = true -> plain_char c.
Proof. plain. Qed.

Lemma number_end rest f : ((NumberEnd rest f).1 <= length rest)%nat /\ Forall plain_char (take (NumberEnd rest f).1 rest).
Proof.
  revert rest f. fix IH 1. intros [|d rest] f; cbn [NumberEnd]; [by split|].
  destruct (IsDigit d) eqn:Ed.
  { destruct (IH rest f) as [I1 I2]. destruct (NumberEnd rest f) as [n g]. cbn in *. split; [lia|]. constructor; [by apply digit_plain|done]. }
  destruct ((d =? 46) || (d =? 101) || (d =? 69)) eqn:Ep; [|split; cbn; [lia|done]].
  assert (plain_char d) as Hd. { apply plain_decide. destruct (d =? 39) eqn:?, (d =? 34) eqn:?, (d =? 36) eqn:?; try done; rewrite ?Z.eqb_eq in *; by subst. }
  pose proof (IH rest true) as Irest. destruct rest as [|s rest]; [split; cbn; [lia|by constructor]|].
  destruct (((d =? 101) || (d =? 69)) && ((s =? 45) || (s =? 43))) eqn:Es.
  - destruct (IH rest true) as [I1 I2]. destruct (NumberEnd rest true) as [n g]. cbn in *. split; [lia|]. constructor; [done|]. constructor; [|done].
    apply andb_true_iff in Es as [_ Es]. apply plain_decide. destruct (s =? 39) eqn:?, (s =? 34) eqn:?, (s =? 36) eqn:?; try done; rewrite ?Z.eqb_eq in *; by subst.
  - destruct Irest as [I1 I2]. destruct (NumberEnd (s :: rest) true) as [n g]. cbn in *. split; [lia|]. by constructor.
Qed.

(** [IsWordStart], then [IsWordPart]. *)
Definition is_word (w : bytes) : Prop := exists c r, w = c :: r /\ IsWordStart c = true /\ Forall (fun c => IsWordPart c = true) r.

(** What a token of a kind holds; [P] of every byte of the line. *)
Definition token_ok (P : Z -> Prop) (n : nat) (t : Token) : Prop :=
  (length (token_text t) <= n)%nat /\
  match token_kind t with
  | tkText | tkQuotedName => Forall P (token_text t)
  | tkWord => is_word (token_text t)
  | tkBytes => Forall (fun c => isxdigit c = true) (token_text t)
  | tkBits => Forall (fun c => c = 48 \/ c = 49) (token_text t)
  | _ => True
  end.

Section LexSpec.
Context (line : bytes) (P : Z -> Prop) (HP : Forall P line).

(** From [from], a token is read up to [to]. *)
Record lexed (from to : nat) (t : Token) : Prop := {
  lx_le : (from <= to <= length line)%nat;
  lx_end : token_kind t = tkEnd -> (length line <= to)%nat;
  lx_move : token_kind t <> tkEnd -> (from < to)%nat;
  lx_count : CountLoop 0 (drop from line) = (if bool_decide (token_kind t = tkParameter) then 1 else 0) + CountLoop 0 (drop to line);
  lx_text : token_ok P (Nat.max 4 (length line)) t;
  lx_column : 1 <= column t
}.

(** What a step of the lexer gives. *)
Definition lexes (from : nat) (r : res (Token * nat)) : Prop :=
  match r with Ok (t, to) => lexed from to t | Err (parse_error _) => True | Err _ => False end.

Lemma lexed_skip from at_ to t : CountLoop 0 (drop from line) = CountLoop 0 (drop at_ line) -> (from <= at_)%nat -> lexed at_ to t -> lexed from to t.
Proof. intros E Hle [H0 H1 H2 H3 H4 H5]. split; [lia|done|intros H; apply H2 in H; lia|by rewrite E|done|done]. Qed.

(** A token whose characters are plain. *)
Lemma lexed_plain from to kind text column : (from < to <= length line)%nat -> Forall plain_char (take (to - from) (drop from line)) ->
  kind <> tkParameter -> kind <> tkEnd -> token_ok P (Nat.max 4 (length line)) (MkToken kind text column) -> 1 <= column -> lexed from to (MkToken kind text column).
Proof.
  intros Hto Hpl Hk He Hok Hc. split; cbn [token_kind]; [lia|done|lia| |done|done]. rewrite bool_decide_false by done.
  rewrite <- (take_drop (to - from) (drop from line)), count_app, drop_drop, Z.add_0_l by done. do 2 f_equal. lia.
Qed.

Lemma Quoted_ok kind quote at_ column c : line !! at_ = Some c -> c = quote -> (quote = 39 \/ quote = 34) -> 1 <= column ->
  kind <> tkParameter -> kind <> tkEnd ->
  (forall out, (length out <= length line)%nat -> Forall P out -> token_ok P (Nat.max 4 (length line)) (MkToken kind out column)) ->
  lexes at_ (Quoted line kind quote (S at_) column).
Proof.
  intros Hc -> Hq Hcol Hk He Htok. unfold Quoted, rest_at. destruct (ReadQuoted quote (drop (S at_) line)) as [[out after]|] eqn:E; [|done].
  destruct (count_quoted quote ltac:(lia) _ _ _ E) as (C1 & (pre & Hpre & Hne) & C3 & C4). pose proof (lookup_lt_Some _ _ _ Hc) as Hlt.
  assert (length (drop (S at_) line) = length pre + length after)%nat as L by (rewrite Hpre, length_app; done). rewrite length_drop in L.
  assert (0 < length pre)%nat by (destruct pre; [done|cbn; lia]).
  assert (drop (length line - length after) line = after) as Hafter.
  { replace (length line - length after)%nat with (S at_ + length pre)%nat by lia. by rewrite <- drop_drop, Hpre, drop_app_length. }
  split; cbn [token_kind]; [lia|done|intros _; lia| | |done].
  - rewrite bool_decide_false, Hafter, <- C1 by done. rewrite (drop_S line quote at_ Hc). cbn [CountLoop]. by destruct Hq as [-> | ->].
  - apply Htok; [rewrite length_drop in C3; lia|]. apply C4. by apply Forall_drop.
Qed.

Lemma LexOperator_ok c at_ column : line !! at_ = Some c -> 1 <= column ->
  match LexOperator line c at_ column with Ok (Some (t, to)) => lexed at_ to t | Ok None => True | Err (parse_error _) => True | Err _ => False end.
Proof.
  intros Hc Hcol. pose proof (lookup_lt_Some _ _ _ Hc) as Hlt. unfold LexOperator.
  assert (forall kind n, kind ∈ [tkLess; tkLessEqual; tkGreater; tkGreaterEqual; tkNotEqual; tkPlus; tkMinus; tkSlash; tkPercent; tkDot] -> (1 <= n)%nat -> (at_ + n <= length line)%nat ->
    Forall plain_char (take n (drop at_ line)) -> lexed at_ (at_ + n) (MkToken kind (sub line at_ (at_ + n)) column)) as Hone.
  { intros kind n Hk Hn Hlen Hpl. rewrite !elem_of_cons, elem_of_nil in Hk. apply lexed_plain; [lia|by replace (at_ + n - at_)%nat with n by lia| | | |done].
    1-2: destruct kind; try done; naive_solver.
    split; [unfold sub; cbn; rewrite length_take; unfold rest_at; rewrite length_drop; lia|]. cbn. destruct kind; try done; naive_solver. }
  assert (negb ((c =? 39) || (c =? 34) || (c =? 36)) = true -> Forall plain_char (take 1 (drop at_ line))) as Hpl1.
  { intros Hp. rewrite (drop_S line c at_ Hc). constructor; [by apply plain_decide|done]. }
  assert (forall d, negb ((c =? 39) || (c =? 34) || (c =? 36)) = true -> default 0 (line !! S at_) = d -> d <> 0 -> plain_char d ->
    (at_ + 2 <= length line)%nat /\ Forall plain_char (take 2 (drop at_ line))) as Hpl2.
  { intros d Hp Hd Hd0 Hdp. destruct (line !! S at_) as [d'|] eqn:Ed; [|by cbn in Hd]. cbn in Hd. subst d'. pose proof (lookup_lt_Some _ _ _ Ed). split; [lia|].
    rewrite (drop_S line c at_ Hc), (drop_S line d (S at_) Ed). constructor; [by apply plain_decide|]. by constructor. }
  assert (forall kind d, kind ∈ [tkLess; tkLessEqual; tkGreater; tkGreaterEqual; tkNotEqual; tkPlus; tkMinus; tkSlash; tkPercent; tkDot] ->
    negb ((c =? 39) || (c =? 34) || (c =? 36)) = true -> default 0 (line !! S at_) = d -> d <> 0 -> plain_char d ->
    lexed at_ (at_ + 2) (MkToken kind (sub line at_ (at_ + 2)) column)) as Htwo.
  { intros kind d Hk Hp Hd Hd0 Hdp. destruct (Hpl2 d Hp Hd Hd0 Hdp). apply Hone; auto with lia. }
  assert (plain_char 61 /\ plain_char 62) as [P61 P62] by (split; by apply plain_decide).
  repeat match goal with |- context [if c =? ?k then _ else _] => destruct (Z.eqb_spec c k); [subst c; cbn [Z.eqb]|] end; [..|done].
  1: { destruct (Z.eqb_spec (default 0 (line !! S at_)) 61); [apply (Htwo _ 61); try done; set_solver|].
       destruct (Z.eqb_spec (default 0 (line !! S at_)) 62); [apply (Htwo _ 62); try done; set_solver|]. apply Hone; [set_solver|lia|lia|by apply Hpl1]. }
  1: { destruct (Z.eqb_spec (default 0 (line !! S at_)) 61); [apply (Htwo _ 61); try done; set_solver|]. apply Hone; [set_solver|lia|lia|by apply Hpl1]. }
  1-5: apply Hone; [set_solver|lia|lia|by apply Hpl1].
  assert (lexes at_ (Quoted line tkQuotedName 34 (S at_) column)) as Hq.
  { apply (Quoted_ok tkQuotedName 34 at_ column 34); auto; try done. intros out Hlen Hout. split; [cbn; lia|done]. }
  destruct (Quoted line tkQuotedName 34 (S at_) column) as [[q to]|e]; cbn; [done|by destruct e].
Qed.

Lemma LexPrefixed_ok c at_ column : line !! at_ = Some c -> line !! S at_ = Some 39 -> (c = 120 \/ c = 88) \/ (c = 98 \/ c = 66) -> 1 <= column -> lexes at_ (LexPrefixed line c at_ column).
Proof.
  intros Hc H39 Hk Hcol. unfold LexPrefixed. set (kind := if (c =? 120) || (c =? 88) then tkBytes else tkBits).
  unfold Quoted, rest_at. destruct (ReadQuoted 39 (drop (at_ + 2) line)) as [[out after]|] eqn:E; [|done]. cbn [mbind res_bind token_text].
  assert (plain_char c) as Hpc by (unfold plain_char; lia).
  destruct (count_quoted 39 ltac:(lia) _ _ _ E) as (C1 & (pre & Hpre & Hne) & C3 & C4). pose proof (lookup_lt_Some _ _ _ H39) as Hlt.
  assert (length (drop (at_ + 2) line) = length pre + length after)%nat as L by (rewrite Hpre, length_app; done). rewrite length_drop in L.
  assert (0 < length pre)%nat by (destruct pre; [done|cbn; lia]).
  assert (drop (length line - length after) line = after) as Hafter.
  { replace (length line - length after)%nat with (at_ + 2 + length pre)%nat by lia. by rewrite <- drop_drop, Hpre, drop_app_length. }
  assert (token_ok P (Nat.max 4 (length line)) (MkToken kind out column) -> lexed at_ (length line - length after) (MkToken kind out column)) as Hlex.
  { intros Hok. split; cbn [token_kind]; [lia|subst kind; by destruct (_ || _)|intros _; lia| |done|done].
    rewrite bool_decide_false by (subst kind; by destruct (_ || _)). rewrite Hafter, <- C1, (drop_S line c at_ Hc), count_cons by done.
    rewrite (drop_S line 39 (S at_) H39). replace (S (S at_)) with (at_ + 2)%nat by lia. done. }
  rewrite length_drop in C3. subst kind. destruct ((c =? 120) || (c =? 88)); clear Hk.
  - match goal with |- lexes _ (if ?b then _ else _) => destruct b eqn:Eb end; [done|]. apply orb_false_iff in Eb as [_ Eb%negb_false_iff]. apply Hlex. split; [cbn; lia|]. cbn.
    rewrite forallb_forall in Eb. apply Forall_forall. intros x Hx. apply Eb. by apply list_elem_of_In.
  - match goal with |- lexes _ (if ?b then _ else _) => destruct b eqn:Eb end; [done|]. apply orb_false_iff in Eb as [_ Eb%negb_false_iff]. apply Hlex. split; [cbn; lia|]. cbn.
    rewrite forallb_forall in Eb. apply Forall_forall. intros x Hx%list_elem_of_In%Eb. lia.
Qed.

Lemma skip_spec p at_ : (forall c, p c = true -> plain_char c) -> (at_ <= length line)%nat ->
  (at_ <= skip line p at_ <= length line)%nat /\ CountLoop 0 (drop at_ line) = CountLoop 0 (drop (skip line p at_) line) /\
  Forall (fun c => p c = true) (take (skip line p at_ - at_) (drop at_ line)).
Proof.
  intros Hp Hle. unfold skip, rest_at. destruct (span_app p (drop at_ line)) as (E & F & _).
  assert (length (drop at_ line) = length (span p (drop at_ line)).1 + length (span p (drop at_ line)).2)%nat as L by (rewrite E at 1; by rewrite length_app).
  rewrite length_drop in L. split; [lia|]. split; [by rewrite <- drop_drop, count_span|].
  replace (_ - at_)%nat with (length (span p (drop at_ line)).1) by lia. rewrite E at 2. by rewrite take_app_length.
Qed.

Lemma sub_length from to : (length (sub line from to) <= length line)%nat.
Proof. unfold sub, rest_at. rewrite length_take, length_drop. lia. Qed.

Lemma sub_P from to : Forall P (sub line from to).
Proof. unfold sub, rest_at. by apply Forall_take, Forall_drop. Qed.

Lemma LexParameter_ok at_ column : line !! at_ = Some 36 -> 1 <= column -> lexes at_ (LexParameter line at_ column).
Proof.
  intros Hc Hcol. unfold LexParameter. pose proof (lookup_lt_Some _ _ _ Hc) as Hlt.
  destruct (skip_spec IsDigit (S at_) digit_plain ltac:(lia)) as (S1 & S2 & _). destruct (Nat.eqb_spec (skip line IsDigit (S at_)) (S at_)) as [|Hne]; [done|].
  split; cbn [token_kind]; [lia|done|intros _; lia| | |done].
  - rewrite bool_decide_true by done. rewrite (drop_S line 36 at_ Hc), count_parameter.
    + unfold skip, rest_at. by rewrite <- drop_drop, span_drop.
    + unfold skip, rest_at in Hne. intros E. rewrite E in Hne. cbn in Hne. lia.
  - split; [|done]. cbn [token_text]. pose proof (sub_length (S at_) (skip line IsDigit (S at_))). lia.
Qed.

Lemma LexNumber_ok c at_ column : line !! at_ = Some c -> plain_char c -> 1 <= column -> lexes at_ (LexNumber line c at_ column).
Proof.
  intros Hc Hpc Hcol. unfold LexNumber. pose proof (lookup_lt_Some _ _ _ Hc) as Hlt. destruct (_ && _).
  - destruct (skip_spec IsWordPart (S at_) word_plain ltac:(lia)) as (S1 & S2 & S3). destruct (negb _); [done|]. apply lexed_plain; try done; [|split; [apply Nat.le_max_l|done]].
    rewrite (drop_S line c at_ Hc). replace (skip line IsWordPart (S at_) - at_)%nat with (S (skip line IsWordPart (S at_) - S at_)) by lia.
    constructor; [done|]. eapply Forall_impl; [exact S3|exact word_plain].
  - destruct (number_end (rest_at line (S at_)) false) as [N1 N2]. destruct (NumberEnd (rest_at line (S at_)) false) as [n f]. cbn [fst] in *.
    unfold rest_at in *. rewrite length_drop in N1. apply lexed_plain; try done; [lia| |by destruct f|by destruct f|].
    + rewrite (drop_S line c at_ Hc). replace (S at_ + n - at_)%nat with (S n) by lia. by constructor.
    + split; [cbn [token_text]; pose proof (sub_length at_ (S at_ + n)); lia|]. by destruct f.
Qed.

Lemma Lex_ok mode position : (position <= length line)%nat -> lexes position (Lex line mode position).
Proof.
  intros Hpos. unfold Lex. destruct (skip_spec is_blank position blank_plain Hpos) as (S1 & S2 & _). set (at_ := skip line is_blank position) in *.
  assert (1 <= Z.of_nat at_ + 1) as Hcol by lia. set (col := Z.of_nat at_ + 1) in *. clearbody at_ col.
  assert (forall r, lexes at_ r -> lexes position r) as Hskip.
  { intros [[t to]|e]; [|done]. cbn. apply lexed_skip; [done|lia]. }
  destruct (line !! at_) as [c|] eqn:Ec; cycle 1.
  { apply lookup_ge_None in Ec. apply Hskip. split; cbn [token_kind column]; try done; [lia|]. split; [cbn [token_text length]; lia|done]. }
  pose proof (lookup_lt_Some _ _ _ Ec) as Hlt. apply Hskip.
  assert (forall kind, plain_char c -> kind ∈ [tkComma; tkOpen; tkClose; tkEquals; tkStar] -> lexes at_ (Ok (MkToken kind [c] col, S at_))) as Hone.
  { intros kind Hp Hk. rewrite !elem_of_cons, elem_of_nil in Hk. apply lexed_plain; try done; [lia| |destruct kind; try done; naive_solver..|].
    - rewrite (drop_S line c at_ Ec). replace (S at_ - at_)%nat with 1%nat by lia. by constructor.
    - split; [cbn; lia|]. destruct kind; try done; naive_solver. }
  destruct (Z.eqb_spec c 42) as [->|H42]; [apply Hone; [by apply plain_decide|set_solver]|].
  assert (match match mode with kExpression => LexOperator line c at_ col | kStatement => Ok None end with
          | Ok (Some (t, to)) => lexed at_ to t | Ok None => True | Err (parse_error _) => True | Err _ => False end) as Hop.
  { destruct mode; [done|]. by apply LexOperator_ok. }
  destruct (match mode with kExpression => _ | kStatement => _ end) as [[[t to]|]|e]; cbn [mbind res_bind]; [done| |by destruct e].
  destruct ((c =? 44) || (c =? 40) || (c =? 41) || (c =? 61)) eqn:E1.
  { apply Hone; [|destruct (c =? 44), (c =? 40), (c =? 41); set_solver]. rewrite !orb_true_iff, !Z.eqb_eq in E1. unfold plain_char. lia. }
  destruct (Z.eqb_spec c 39) as [->|H39].
  { apply (Quoted_ok tkText 39 at_ col 39); auto; try done. intros out Ho1 Ho2. split; [cbn; lia|done]. }
  destruct (_ && _) eqn:E2.
  { apply andb_true_iff in E2 as [E2 E3]. destruct (line !! S at_) as [d|] eqn:Ed; [|done]. apply Z.eqb_eq in E3. subst d. rewrite !orb_true_iff, !Z.eqb_eq in E2.
    apply LexPrefixed_ok; [done|done|tauto|done]. }
  destruct (Z.eqb_spec c 36) as [->|H36]; [by apply LexParameter_ok|].
  destruct (IsDigit c || _) eqn:E4.
  { apply LexNumber_ok; [done| |done]. apply orb_true_iff in E4 as [E4|E4]; [by apply digit_plain|]. apply andb_true_iff in E4 as [E4%Z.eqb_eq _]. unfold plain_char. lia. }
  destruct (IsWordStart c) eqn:E5; [|done].
  destruct (skip_spec IsWordPart (S at_) word_plain ltac:(lia)) as (W1 & W2 & W3). apply lexed_plain; try done.
  - rewrite (drop_S line c at_ Ec). replace (skip line IsWordPart (S at_) - at_)%nat with (S (skip line IsWordPart (S at_) - S at_)) by lia.
    constructor; [apply word_plain; unfold IsWordPart; by rewrite E5|]. eapply Forall_impl; [exact W3|exact word_plain].
  - split; [cbn [token_text]; pose proof (sub_length at_ (skip line IsWordPart (S at_))); lia|]. cbn [token_kind token_text].
    unfold sub. change (rest_at line at_) with (drop at_ line). rewrite (drop_S line c at_ Ec).
    assert (skip line IsWordPart (S at_) - at_ = S (skip line IsWordPart (S at_) - S at_))%nat as -> by lia. by exists c, (take (skip line IsWordPart (S at_) - S at_) (drop (S at_) line)).
Qed.


End LexSpec.

(** ** Reading *)

(** The errors of the parsers. *)
Definition parse_failure (e : exn) : Prop := match e with parse_error _ => True | _ => False end.

(** ** The values of tokens *)

Lemma digits_value_nonneg ds : Forall (fun c => is_digit c = true) ds -> 0 <= digits_value ds.
Proof.
  induction ds as [|c ds IH] using rev_ind; [done|]. rewrite Forall_app, Forall_singleton, digits_value_app. unfold is_digit. intros [H1 H2]. specialize (IH H1). lia.
Qed.

Lemma IntegerOf_ok t : match IntegerOf t with Ok v => in_u 64 (magnitude v) /\ (negative v = true -> magnitude v <> 0) | Err e => parse_failure e end.
Proof.
  unfold IntegerOf. destruct (match token_text t with [] => _ | c :: rest => _ end) as [neg ds]. unfold from_chars.
  destruct (span is_digit ds) as [d rest] eqn:Es. case_bool_decide; [done|]. destruct (Z.leb_spec (2 ^ 64) (digits_value d)); [done|]. destruct rest; [|done]. cbn.
  assert (0 <= digits_value d). { apply digits_value_nonneg. destruct (span_app is_digit ds) as (_ & F & _). by rewrite Es in F. }
  split; [unfold in_u; lia|]. intros [_ Hn]%andb_true_iff. apply negb_true_iff in Hn. lia.
Qed.

Lemma Decimal_nonneg text m e : Decimal text = Some (m, e) -> 0 <= m.
Proof.
  unfold Decimal. destruct (span is_digit text) as [whole rest] eqn:E1. destruct (match rest with [] => _ | c :: r => _ end) as [fraction rest'] eqn:E2.
  assert (Forall (fun c => is_digit c = true) (whole ++ fraction)) as Hd.
  { apply Forall_app. split; [destruct (span_app is_digit text) as (_ & F & _); by rewrite E1 in F|].
    destruct rest as [|c r]; [by injection E2 as <- <-|]. destruct (c =? 46); [|by injection E2 as <- <-]. destruct (span_app is_digit r) as (_ & F & _). by rewrite E2 in F. }
  case_bool_decide; [done|]. pose proof (digits_value_nonneg _ Hd). destruct rest' as [|c r]; [by intros [= <- _]|]. destruct (c =? 101); [|done].
  destruct (sign r) as [minus r2]. destruct (span is_digit r2) as [[|d ds] [|]]; try done. by intros [= <- _].
Qed.

Lemma round_decimal_bound s m e v : 0 <= s < 2 -> 0 <= m -> round_decimal s m e = Some v -> in_u 64 v.
Proof.
  intros Hs Hm. unfold round_decimal. destruct (m =? 0); [intros [= <-]; by apply f64_zero_bound|]. destruct (_ <? -400); [intros [= <-]; by apply f64_zero_bound|].
  destruct (400 <? _); [done|]. set (r := if 0 <=? e then _ else _). assert (in_u 64 r) as Hr.
  { subst r. destruct (Z.leb_spec 0 e).
    - apply round_f64_bound; [done|]. apply Z.mul_nonneg_nonneg; [done|]. apply Z.pow_nonneg. lia.
    - apply round_f64_bound; [done|]. pose proof (Z.pow_pos_nonneg 10 (- e) ltac:(lia) ltac:(lia)).
      assert (0 <= m * 2 ^ Z.max 0 (Z.log2 (10 ^ (- e)) - Z.log2 m + 64) / 10 ^ (- e)).
      { apply Z.div_pos; [|lia]. apply Z.mul_nonneg_nonneg; [done|]. apply Z.pow_nonneg. lia. }
      destruct (_ mod _ =? 0); lia. }
  destruct (f64_is_inf r); [done|]. by intros [= <-].
Qed.

Lemma FloatOf_ok t : match FloatOf t with Ok v => in_u 64 v | Err e => parse_failure e end.
Proof.
  unfold FloatOf. case_bool_decide; [by compute|]. destruct (match Lower (token_text t) with [] => _ | c :: rest => _ end) as [s ds] eqn:Es.
  assert (s = 0 \/ s = 1) as Hs by (destruct (Lower (token_text t)); [|destruct (_ =? _)]; simplify_eq; auto).
  destruct (Decimal ds) as [[m e]|] eqn:Ed; [|done]. destruct (round_decimal s m e) as [v|] eqn:E; [|done].
  eapply round_decimal_bound; [|by eapply Decimal_nonneg|exact E]. lia.
Qed.

Lemma hex_value_bound c : isxdigit c = true -> 0 <= hex_value c < 16.
Proof. unfold isxdigit, hex_value, IsDigit. rewrite !orb_true_iff, !andb_true_iff, !Z.leb_le. intros H. destruct ((48 <=? c) && (c <=? 57)) eqn:E; [lia|]. destruct (Z.ltb_spec c 97); lia. Qed.

Lemma hex_pairs_ok hex : Forall (fun c => isxdigit c = true) hex -> bytes_ok (hex_pairs hex) /\ len (hex_pairs hex) = len hex / 2.
Proof.
  revert hex. fix IH 1. intros [|a [|b hex]] H; [split; [constructor|reflexivity]..|]. rewrite !Forall_cons in H. destruct H as (Ha & Hb & H).
  destruct (IH hex H) as [I1 I2]. apply hex_value_bound in Ha, Hb. split.
  - constructor; [unfold byte_ok; lia|done].
  - assert (forall x (l : bytes), len (x :: l) = len l + 1) as Hcons by (intros; cbn [length]; lia).
    cbn [hex_pairs]. rewrite !Hcons, I2. replace (len hex + 1 + 1) with (len hex + 1 * 2) by lia. rewrite Z.div_add by lia. lia.
Qed.

Section Reading.
Context (line : bytes) (mode : LexMode) (P : Z -> Prop) (HP : Forall P line) (total : Z).

Definition is_parameter_token (t : Token) : Z := if bool_decide (token_kind t = tkParameter) then 1 else 0.
Definition ahead_count (r : Reader) : Z := match ahead r with Some t => is_parameter_token t | None => 0 end.

(** [total] are the parameters used so far and those not read yet. *)
Record reader_ok (r : Reader) : Prop := {
  ro_at : (at_ r <= length line)%nat;
  ro_ahead t : ahead r = Some t -> token_ok P (Nat.max 4 (length line)) t /\ 1 <= column t /\ (token_kind t = tkEnd -> (length line <= at_ r)%nat);
  ro_count : Z.of_nat (size (parameters_ r)) + ahead_count r + CountLoop 0 (drop (at_ r) line) = total;
  ro_used i : i ∈ parameters_ r -> 1 <= i <= kMaxParameters
}.

(** What is left to read: each token taken makes it less. *)
Definition left_ (r : Reader) : nat :=
  (2 * (length line - at_ r) + match ahead r with Some t => if bool_decide (token_kind t = tkEnd) then 0 else 1 | None => 0 end)%nat.

(** A method that reads on, one that takes tokens, and one that uses the parameters [us]. *)
Definition reads (r r' : Reader) : Prop := reader_ok r' /\ (left_ r' <= left_ r)%nat /\ parameters_ r' = parameters_ r.
Definition takes (r r' : Reader) : Prop := reader_ok r' /\ (left_ r' < left_ r)%nat /\ parameters_ r' = parameters_ r.
Definition uses (us : list Z) (r r' : Reader) : Prop :=
  reader_ok r' /\ (left_ r' < left_ r)%nat /\ elements (parameters_ r') ≡ₚ us ++ elements (parameters_ r).

Lemma reads_refl r : reader_ok r -> reads r r.
Proof. by split. Qed.
Lemma takes_reads r r' : takes r r' -> reads r r'.
Proof. intros (H1 & H2 & H3). split; [done|]. split; [lia|done]. Qed.
Lemma reads_trans r1 r2 r3 : reads r1 r2 -> reads r2 r3 -> reads r1 r3.
Proof. intros (_ & H1 & H2) (H3 & H4 & H5). split; [done|]. split; [lia|congruence]. Qed.
Lemma takes_trans r1 r2 r3 : takes r1 r2 -> reads r2 r3 -> takes r1 r3.
Proof. intros (_ & H1 & H2) (H3 & H4 & H5). split; [done|]. split; [lia|congruence]. Qed.
Lemma reads_takes r1 r2 r3 : reads r1 r2 -> takes r2 r3 -> takes r1 r3.
Proof. intros (_ & H1 & H2) (H3 & H4 & H5). split; [done|]. split; [lia|congruence]. Qed.
Lemma takes_uses r r' : takes r r' -> uses [] r r'.
Proof. intros (H1 & H2 & H3). split; [done|]. split; [done|]. by rewrite H3. Qed.
Lemma reads_uses us r1 r2 r3 : reads r1 r2 -> uses us r2 r3 -> uses us r1 r3.
Proof. intros (_ & H1 & H2) (H3 & H4 & H5). split; [done|]. split; [lia|by rewrite <- H2]. Qed.
Lemma uses_reads us r1 r2 r3 : uses us r1 r2 -> reads r2 r3 -> uses us r1 r3.
Proof. intros (_ & H1 & H2) (H3 & H4 & H5). split; [done|]. split; [lia|by rewrite H5]. Qed.
Lemma uses_trans us js r1 r2 r3 : uses us r1 r2 -> uses js r2 r3 -> uses (us ++ js) r1 r3.
Proof. intros (_ & H1 & H2) (H3 & H4 & H5). split; [done|]. split; [lia|]. rewrite H5, H2, !app_assoc. by rewrite (Permutation_app_comm js us). Qed.

Abbreviation wp := (StateError.wp parse_failure).

Lemma Peek_wp r : reader_ok r -> wp (Peek line mode) (fun t r' => reads r r' /\ ahead r' = Some t) r.
Proof.
  intros Hr. unfold StateError.wp, Peek. destruct (ahead r) as [t|] eqn:Ea; [split; [by apply reads_refl|done]|].
  pose proof (Lex_ok line P HP mode (at_ r) (ro_at _ Hr)) as HL. destruct (Lex line mode (at_ r)) as [[t a]|e]; cbn in *; [|by destruct e].
  destruct HL as [L0 L1 L2 L3 L4 L5]. split; [|done]. split.
  - split; cbn; [lia|by intros t' [= <-]| |exact (ro_used _ Hr)]. pose proof (ro_count _ Hr) as Hc. unfold ahead_count in *. rewrite Ea in Hc. cbn. unfold is_parameter_token. lia.
  - split; [|done]. clear L3. unfold left_. rewrite Ea. cbn. case_bool_decide; [lia|]. specialize (L2 ltac:(done)). lia.
Qed.

(** Taking the token ahead; a parameter's use is recorded with it. *)
Lemma Take_wp r t : reader_ok r -> ahead r = Some t -> token_kind t <> tkParameter ->
  wp (Take line mode) (fun t' r' => t' = t /\ reads r r' /\ (token_kind t <> tkEnd -> takes r r' /\ ahead r' = None)) r.
Proof.
  intros Hr Ha Hk. unfold Take. apply wps_bind. unfold StateError.wp at 1, Peek. rewrite Ha. apply wps_bind. case_bool_decide as He.
  - apply wps_ret, wps_ret. split; [done|]. split; [by apply reads_refl|done].
  - apply wp_update, wps_ret. split; [done|].
    assert (takes r (MkReader (at_ r) None (parameters_ r))) as Ht; [|split; [by apply takes_reads|by intros _]].
    split; [|split; [unfold left_; cbn; rewrite Ha, bool_decide_false by done; lia|done]].
    split; cbn; [apply (ro_at _ Hr)|done| |exact (ro_used _ Hr)]. pose proof (ro_count _ Hr) as Hc. unfold ahead_count in *. rewrite Ha in Hc. cbn.
    unfold is_parameter_token in Hc. rewrite bool_decide_false in Hc by done. lia.
Qed.

Lemma fail_wp {A} column message (Q : A -> Reader -> Prop) r : wp (fail column message) Q r.
Proof. by apply wp_pure. Qed.

Lemma unexpected_wp {A} what (Q : A -> Reader -> Prop) r : reader_ok r -> wp (unexpected line mode what) Q r.
Proof. intros Hr. unfold unexpected. apply wps_bind. eapply wp_weaken; [by apply Peek_wp|]. intros t r' _. apply fail_wp. Qed.

Lemma AcceptWord_wp keyword r : reader_ok r -> wp (AcceptWord line mode keyword) (fun b r' => if b : bool then takes r r' /\ ahead r' = None else reads r r') r.
Proof.
  intros Hr. unfold AcceptWord. apply wps_bind. eapply wp_weaken; [by apply Peek_wp|]. intros t r' [Hs Ha]. unfold IsWord.
  case_bool_decide as Hk; [|by apply wps_ret]. case_bool_decide; [|by apply wps_ret]. cbn [andb].
  apply wps_bind. eapply wp_weaken; [apply Take_wp; [by destruct Hs|done|by rewrite Hk]|]. intros t' r2 (_ & _ & Ht). apply wps_ret.
  destruct (Ht ltac:(by rewrite Hk)). split; [by eapply reads_takes|done].
Qed.

Lemma ExpectWord_wp keyword r : reader_ok r -> wp (ExpectWord line mode keyword) (fun _ r' => takes r r') r.
Proof.
  intros Hr. unfold ExpectWord. apply wps_bind. eapply wp_weaken; [by apply AcceptWord_wp|]. intros [] r' Hs; [by apply wps_ret, Hs|].
  apply unexpected_wp. apply Hs.
Qed.

Lemma AcceptToken_wp kind r : reader_ok r -> kind <> tkParameter -> kind <> tkEnd ->
  wp (AcceptToken line mode kind) (fun b r' => if b : bool then takes r r' else reads r r') r.
Proof.
  intros Hr Hk He. unfold AcceptToken. apply wps_bind. eapply wp_weaken; [by apply Peek_wp|]. intros t r' [Hs Ha].
  case_bool_decide as Ht; [|by apply wps_ret]. apply wps_bind. eapply wp_weaken; [apply Take_wp; [by destruct Hs|done|by rewrite Ht]|].
  intros t' r2 (_ & _ & Htk). apply wps_ret. eapply reads_takes; [done|]. apply Htk. by rewrite Ht.
Qed.

Lemma ExpectToken_wp kind what r : reader_ok r -> kind <> tkParameter -> kind <> tkEnd -> wp (ExpectToken line mode kind what) (fun _ r' => takes r r') r.
Proof.
  intros Hr Hk He. unfold ExpectToken. apply wps_bind. eapply wp_weaken; [by apply Peek_wp|]. intros t r' [Hs Ha].
  case_bool_decide as Ht; [|apply unexpected_wp; apply Hs]. apply wps_bind. eapply wp_weaken; [apply Take_wp; [by destruct Hs|done|by rewrite Ht]|].
  intros t' r2 (_ & _ & Htk). apply wps_ret. eapply reads_takes; [done|]. apply Htk. by rewrite Ht.
Qed.

Lemma ParameterIndexOf_ok t : match ParameterIndexOf t with Ok i => 1 <= i <= kMaxParameters | Err e => parse_failure e end.
Proof.
  unfold ParameterIndexOf. destruct (from_chars 64 (token_text t)) as [[i rest]|] eqn:E; [|done]. destruct (_ || _) eqn:Eb; [done|].
  apply orb_false_iff in Eb as [E1%Z.eqb_neq E2%Z.ltb_ge]. unfold from_chars in E. destruct (span is_digit (token_text t)) as [ds r] eqn:Es.
  case_bool_decide; [done|]. destruct (2 ^ 64 <=? digits_value ds); [done|]. injection E as <- <-.
  assert (0 <= digits_value ds); [|lia]. apply digits_value_nonneg. destruct (span_app is_digit (token_text t)) as (_ & F & _). by rewrite Es in F.
Qed.

Lemma TakeParameter_wp r t : reader_ok r -> ahead r = Some t -> token_kind t = tkParameter ->
  wp (TakeParameter line mode) (fun i r' => uses [i] r r' /\ 1 <= i <= kMaxParameters) r.
Proof.
  intros Hr Ha Hk. unfold TakeParameter. apply wps_bind. unfold StateError.wp at 1, Peek. rewrite Ha. apply wps_bind, wp_pure.
  pose proof (ParameterIndexOf_ok t) as Hi. destruct (ParameterIndexOf t) as [i|]; [|done]. apply wps_bind. unfold Take. apply wps_bind.
  unfold StateError.wp at 1, Peek. rewrite Ha. apply wps_bind. rewrite bool_decide_false by (by rewrite Hk). apply wp_update, wps_ret.
  apply wps_bind, wp_gets, wps_bind, wp_pure. cbn [parameters_]. unfold UseParameter. destruct (decide (i ∈ parameters_ r)) as [|Hin]; [done|].
  apply wps_bind, wp_update, wps_ret. cbn. split; [|done]. split.
  - split; cbn; [apply (ro_at _ Hr)|done| |].
    + pose proof (ro_count _ Hr) as Hc. unfold ahead_count in *. rewrite Ha in Hc. cbn. unfold is_parameter_token in Hc. rewrite bool_decide_true in Hc by done.
      rewrite size_union by set_solver. rewrite size_singleton. lia.
    + intros j [->%elem_of_singleton|Hj]%elem_of_union; [done|by apply (ro_used _ Hr)].
  - split; [unfold left_; cbn; rewrite Ha, bool_decide_false by (by rewrite Hk); lia|]. cbn [parameters_]. by rewrite elements_union_singleton.
Qed.

End Reading.

(** The parameters are $1 to $n without gaps. *)
Lemma ParameterCount_ok used : (forall i, i ∈ used -> 1 <= i <= kMaxParameters) ->
  match ParameterCount used with Ok n => n = Z.of_nat (size used) /\ elements used ≡ₚ seqZ 1 n | Err e => parse_failure e end.
Proof.
  intros Hused. unfold ParameterCount. case_bool_decide as He; [subst; by rewrite size_empty, elements_empty|].
  destruct (Z.eqb_spec (Z.of_nat (size used)) (foldr Z.max 0 (elements used))) as [E|]; [|done]. cbn [negb]. split; [done|].
  assert (forall l x, x ∈ l -> x <= foldr Z.max 0 l) as Hmax.
  { induction l as [|y l IH]; intros x; [by intros ?%elem_of_nil|]. intros [->|Hx]%elem_of_cons; cbn; [lia|]. specialize (IH _ Hx). lia. }
  set (n := foldr Z.max 0 (elements used)) in *. assert (used = list_to_set (seqZ 1 n)) as Hu.
  { apply set_subseteq_size_eq.
    - intros x Hx. apply elem_of_list_to_set, elem_of_seqZ. pose proof (Hused x Hx). pose proof (Hmax (elements used) x ltac:(by apply elem_of_elements)). lia.
    - rewrite size_list_to_set, length_seqZ by apply NoDup_seqZ. lia. }
  rewrite Hu at 1. apply elements_list_to_set, NoDup_seqZ.
Qed.

End Lexer.
