(* ===== verification/ExprParse.v ===== *)
(** * The parser of expressions (src/src/expr.cpp)

    Conditions and assignments are parsed into nodes, operands before the
    nodes they belong to and the root last.  Proved here: parsing ends with an
    expression or a ParseError, whatever the nesting; what it builds passes
    the checks of the planner; and so a condition that parses and plans
    evaluates without a type error. *)
From stdpp Require Import prelude strings gmap.
From Stdlib Require Import ZArith Lia.
From S2P Require Import Prelude Text Floats Doubles Columns ExprEval ExprPlan ExprSound StateError Lexer.

#[local] Open Scope Z_scope.

Module ExprParse.
Import Text Floats Doubles Columns ExprEval ExprPlan ExprSound StateError Lexer.

Definition kKeywords : list string :=
  ["and"; "or"; "not"; "is"; "null"; "in"; "between"; "exists"; "true"; "false"; "inf"; "nan"; "now"; "least"; "greatest"; "coalesce";
   "pos_x"; "pos_y"; "pos_z"; "chunk"; "if"; "where"].

Definition IsKeyword (lower : bytes) : bool := existsb (fun k => bool_decide (str k = lower)) kKeywords.

Definition column_start (c : Z) : bool := ((97 <=? c) && (c <=? 122)) || (c =? 95).
Definition IsColumnName (name : bytes) : bool :=
  match name with
  | [] => false
  | c :: _ => (len name <=? kMaxColumnNameBytes) && column_start c && forallb (fun c => column_start c || IsDigit c) name
  end.

(** The members: the token stream, the expression being built, the depths of its nodes and the open parentheses. *)
Record Parser := MkParser { reader : Reader; current_ : list Node; depths_ : list Z; nesting_ : Z }.

(** A method of the token stream. *)
Definition on {A} (m : ST Reader A) : ST Parser A := zoom reader (fun r p => MkParser r (current_ p) (depths_ p) (nesting_ p)) m.

Section Parser.
Context (line : bytes) (limits : Limits).

Abbreviation P := (ST Parser).
Definition Peek : P Token := on (Lexer.Peek line kExpression).
Definition Take : P Token := on (Lexer.Take line kExpression).
Definition AcceptWord (k : string) : P bool := on (Lexer.AcceptWord line kExpression (str k)).
Definition ExpectWord (k : string) : P unit := on (Lexer.ExpectWord line kExpression (str k)).
Definition AcceptToken (kind : TokenKind) : P bool := on (Lexer.AcceptToken line kExpression kind).
Definition ExpectToken (kind : TokenKind) (what : string) : P unit := on (Lexer.ExpectToken line kExpression kind what).
Definition unexpected {A} (what : string) : P A := on (Lexer.unexpected line kExpression what).
Definition fail {A} (column : Z) (message : string) : P A := pure_ (Fail column message).
Abbreviation IsWord t k := (Lexer.IsWord t (str k)).

Definition fuel : nat := (2 * length line + 1)%nat.

Definition Begin : P unit := update (fun p => MkParser (reader p) [] [] (nesting_ p)).
Definition Finish (root : nat) : P Expression := ns ← gets current_; mret {| nodes := ns; expression_root := root |}.

(** A level of parentheses, while [body] runs. *)
Definition Nested {A} (column : Z) (body : P A) : P A :=
  n ← gets nesting_;
  if max_depth limits <=? n then fail column ("parentheses are nested too deeply: at most " +:+ number_text (max_depth limits) +:+ " levels")
  else
    _ ← update (fun p => MkParser (reader p) (current_ p) (depths_ p) (nesting_ p + 1));
    a ← body;
    _ ← update (fun p => MkParser (reader p) (current_ p) (depths_ p) (nesting_ p - 1));
    mret a.

Definition TooDeep {A} (column : Z) : P A := fail column ("the expression is nested too deeply: at most " +:+ number_text (max_depth limits) +:+ " levels").

(** The depth of a node with these operands. *)
Definition OperandDepth (depths : list Z) (depth : Z) (operand : nat) : res Z :=
  match depths !! operand with Some d => Ok (Z.max depth (d + 1)) | None => Err (undefined "depths_[operand]") end.

Definition Add (op : Op) (column : Z) (operands : list nat) (literal : Literal) (name : bytes) : P nat :=
  ns ← gets current_;
  ds ← gets depths_;
  if max_nodes limits <=? Z.of_nat (length ns) then fail column ("the expression is too long: at most " +:+ number_text (max_nodes limits) +:+ " nodes")
  else
    depth ← pure_ (fold_res (OperandDepth ds) 1 operands);
    if max_depth limits <? depth then TooDeep column
    else
      let node := {| node_op := op; node_column := column; node_literal := literal; node_name := name; node_operands := operands |} in
      _ ← update (fun p => MkParser (reader p) (current_ p ++ [node]) (depths_ p ++ [depth]) (nesting_ p));
      mret (length ns).

Definition AddOp (op : Op) (column : Z) (operands : list nat) : P nat := Add op column operands LNull [].
Definition AddLiteral (column : Z) (l : Literal) : P nat := Add kLiteral column [] l [].

Definition ColumnName (what : string) : P bytes :=
  t ← Peek;
  match token_kind t with
  | tkQuotedName =>
      if negb (IsColumnName (token_text t)) then fail (column t) ("a quoted name must match [a-z_][a-z0-9_]* and have 1 to 63 bytes, got " +:+ Quote t)
      else t ← Take; mret (token_text t)
  | tkWord =>
      let lower := Lower (token_text t) in
      if IsKeyword lower then fail (column t) (Quote t +:+ " is a keyword; write " +:+ text_of (34 :: lower ++ [34]) +:+ " for a column of that name")
      else if negb (bool_decide (token_text t = lower)) then fail (column t) ("names are lowercase: " +:+ Quote t)
      else if kMaxColumnNameBytes <? len (token_text t) then fail (column t) ("a column name has at most " +:+ number_text kMaxColumnNameBytes +:+ " bytes")
      else t ← Take; mret (token_text t)
  | _ => unexpected ("expected " +:+ what)
  end.

(** ** Values *)

(** A number literal, negated if [negate]; nothing for another token. *)
Definition Number (negate : bool) (column : Z) : P (option nat) :=
  t ← Peek;
  let float number := _ ← Take; n ← AddLiteral column (LDouble (if negate then f64_neg number else number)); mret (Some n) in
  match token_kind t with
  | tkInteger =>
      v ← pure_ (IntegerOf t);
      _ ← Take;
      n ← AddLiteral column (LInteger (negate && negb (magnitude v =? 0)) (magnitude v)); mret (Some n)
  | tkFloat => number ← pure_ (FloatOf t); float number
  | _ =>
      if IsWord t "inf" then float (f64_inf 0)
      else if IsWord t "nan" then float quiet_NaN
      else mret None
  end.

(** A literal value; nothing for another token. *)
Definition Literal_ (column : Z) : P (option nat) :=
  number ← Number false column;
  match number with
  | Some n => mret (Some n)
  | None =>
      t ← Peek;
      match token_kind t with
      | tkText => t ← Take; n ← AddLiteral column (LText (token_text t)); mret (Some n)
      | tkBytes => t ← Take; n ← AddLiteral column (LBytes (BytesOf t)); mret (Some n)
      | tkBits => t ← Take; n ← AddLiteral column (LBits (token_text t)); mret (Some n)
      | _ =>
          if IsWord t "null" then _ ← Take; n ← AddLiteral column LNull; mret (Some n)
          else if IsWord t "true" || IsWord t "false" then _ ← Take; n ← AddLiteral column (LBool (IsWord t "true")); mret (Some n)
          else mret None
      end
  end.

Definition ParameterNode : P nat :=
  t ← Peek;
  index ← on (TakeParameter line kExpression);
  Add kParameter (column t) [] (LParameter index) [].

(** [do item while (AcceptToken(kComma))], after [operands]. *)
Definition Items (item : P nat) (operands : list nat) : P (list nat) :=
  x ← item;
  while_some (fun xs => b ← AcceptToken tkComma; if b : bool then x ← item; mret (Some (xs ++ [x])) else mret None) fuel (operands ++ [x]).

(** The columns of the operators [accept] takes, at most max_depth of them. *)
Definition Prefixes (accept : Token -> bool) : P (list Z) :=
  while_some (fun columns =>
      t ← Peek;
      if accept t then
        if max_depth limits <=? Z.of_nat (length columns) then TooDeep (column t) else t ← Take; mret (Some (columns ++ [column t]))
      else mret None) fuel [].

(** A node for each column, the last one innermost. *)
Fixpoint Wrap (op : Op) (columns : list Z) (node : nat) : P nat :=
  match columns with
  | [] => mret node
  | c :: columns => n ← Wrap op columns node; AddOp op c [n]
  end.

Section Values.
(** The sum inside parentheses and functions. *)
Context (Sum : P nat).

Definition Function (op : Op) : P nat :=
  t ← Take;
  _ ← ExpectToken tkOpen "(";
  Nested (column t) (
    operands ← Items Sum [];
    _ ← ExpectToken tkClose ")";
    AddOp op (column t) operands).

Definition Word (t : Token) : P nat :=
  let word := Lower (token_text t) in
  let is_ k := bool_decide (word = str k) in
  if is_ "pos_x" || is_ "pos_y" || is_ "pos_z" then _ ← Take; AddOp (if is_ "pos_x" then kPosX else if is_ "pos_y" then kPosY else kPosZ) (column t) []
  else if is_ "now" then _ ← Take; _ ← ExpectToken tkOpen "("; _ ← ExpectToken tkClose ")"; AddOp kNow (column t) []
  else if is_ "least" then Function kLeast
  else if is_ "greatest" then Function kGreatest
  else if is_ "coalesce" then Function kCoalesce
  else if is_ "chunk" then
    _ ← Take; _ ← ExpectToken tkDot ". after CHUNK"; n ← ColumnName "a chunk column name"; Add kChunkColumn (column t) [] LNull n
  else if IsKeyword word then fail (column t) ("expected a value, got " +:+ Quote t +:+ "; write " +:+ text_of (34 :: word ++ [34]) +:+ " for a column of that name")
  else n ← ColumnName "a column name"; Add kColumn (column t) [] LNull n.

Definition Primary : P nat :=
  t ← Peek;
  literal ← Literal_ (column t);
  match literal with
  | Some n => mret n
  | None =>
      match token_kind t with
      | tkParameter => ParameterNode
      | tkQuotedName => n ← ColumnName "a column name"; Add kColumn (column t) [] LNull n
      | tkOpen => _ ← Take; Nested (column t) (inner ← Sum; _ ← ExpectToken tkClose ")"; mret inner)
      | tkWord => Word t
      | _ => unexpected "expected a value"
      end
  end.

Definition Factor : P nat :=
  minuses ← Prefixes (fun t => bool_decide (token_kind t = tkMinus));
  '(wrap, node) ←
    (match last minuses with
     | None => mret (minuses, None)
     | Some c => number ← Number true c; mret (match number with Some _ => removelast minuses | None => minuses end, number)
     end);
  node ← (match node with Some n => mret n | None => Primary end);
  Wrap kNegate wrap node.

Definition TermStep (left : nat) : P (option nat) :=
  t ← Peek;
  let next op := _ ← Take; right ← Factor; n ← AddOp op (column t) [left; right]; mret (Some n) in
  match token_kind t with
  | tkSlash => next kDivide
  | tkPercent => next kModulo
  | tkStar => next kMultiply
  | _ => mret None
  end.

Definition TermFrom (first : nat) : P nat := while_some TermStep fuel first.

Definition SumStep (left : nat) : P (option nat) :=
  t ← Peek;
  let next op := _ ← Take; factor ← Factor; right ← TermFrom factor; n ← AddOp op (column t) [left; right]; mret (Some n) in
  match token_kind t with
  | tkPlus => next kAdd
  | tkMinus => next kSubtract
  | _ => mret None
  end.

Definition SumFrom (first : nat) : P nat := left ← TermFrom first; while_some SumStep fuel left.

Definition SumBody : P nat := f ← Factor; SumFrom f.

End Values.

(** [levels] of parentheses are left. *)
Fixpoint Sum (levels : nat) : P nat := SumBody (match levels with O => throw out_of_fuel | S levels => Sum levels end).

(** ** Conditions *)

Definition ListItem : P nat :=
  t ← Peek;
  match token_kind t with
  | tkParameter => ParameterNode
  | tkMinus =>
      _ ← Take;
      number ← Number true (column t);
      match number with Some n => mret n | None => unexpected "expected a number after -" end
  | _ =>
      literal ← Literal_ (column t);
      match literal with Some n => mret n | None => fail (column t) ("expected a value or a parameter, got " +:+ Quote t) end
  end.

Definition Comparison (t : Token) : option Op :=
  match token_kind t with
  | tkEquals => Some kEqual
  | tkNotEqual => Some kNotEqual
  | tkLess => Some kLess
  | tkLessEqual => Some kLessEqual
  | tkGreater => Some kGreater
  | tkGreaterEqual => Some kGreaterEqual
  | _ => None
  end.

Section Conditions.
(** The parsers of values, the innermost ones inside one level more. *)
Context (SumHere : P nat) (SumOf : nat -> P nat) (Or : P nat).

Definition PredicateAfter (value : nat) : P nat :=
  t ← Peek;
  match Comparison t with
  | Some op => _ ← Take; right ← SumHere; AddOp op (column t) [value; right]
  | None =>
      if IsWord t "is" then
        _ ← Take;
        negated ← AcceptWord "not";
        _ ← ExpectWord "null";
        AddOp (if negated : bool then kIsNotNull else kIsNull) (column t) [value]
      else
        negated ←
          (if IsWord t "not" then
             _ ← Take;
             u ← Peek;
             if negb (IsWord u "in") && negb (IsWord u "between") then fail (column u) ("expected IN or BETWEEN after NOT, got " +:+ Quote u) else mret true
           else mret false);
        b ← AcceptWord "in";
        if b : bool then
          _ ← ExpectToken tkOpen "(";
          operands ← Items ListItem [value];
          _ ← ExpectToken tkClose ")";
          AddOp (if negated : bool then kNotIn else kIn) (column t) operands
        else
        b ← AcceptWord "between";
        if b : bool then
          low ← SumHere;
          _ ← ExpectWord "and";
          high ← SumHere;
          AddOp (if negated : bool then kNotBetween else kBetween) (column t) [value; low; high]
        else mret value
  end.

Definition Predicate : P nat :=
  t ← Peek;
  if bool_decide (token_kind t = tkOpen) then
    _ ← Take;
    inner ← Nested (column t) (inner ← Or; _ ← ExpectToken tkClose ")"; mret inner);
    ns ← gets current_;
    match ns !! inner with
    | None => throw (undefined "current_.nodes[inner]")
    | Some n => if negb (IsValue (node_op n)) then mret inner else v ← SumOf inner; PredicateAfter v
    end
  else if IsWord t "exists" then _ ← Take; AddOp kExists (column t) []
  else v ← SumHere; PredicateAfter v.

Definition NotExpression : P nat :=
  nots ← Prefixes (fun t => IsWord t "not");
  node ← Predicate;
  Wrap kNot nots node.

(** Operands joined by a word; one alone is itself. *)
Definition Joined (op : Op) (word : string) (item : P nat) : P nat :=
  first ← item;
  t ← Peek;
  if negb (IsWord t word) then mret first
  else
    operands ← while_some (fun xs => b ← AcceptWord word; if b : bool then x ← item; mret (Some (xs ++ [x])) else mret None) fuel [first];
    AddOp op (column t) operands.

Definition And : P nat := Joined kAnd "and" NotExpression.
Definition OrBody : P nat := Joined kOr "or" And.

End Conditions.

Fixpoint Or (levels : nat) : P nat :=
  let inner_sum := match levels with O => throw out_of_fuel | S l => Sum l end in
  OrBody (Sum levels) (SumFrom inner_sum) (match levels with O => throw out_of_fuel | S levels => Or levels end).

(** Parentheses nest to max_depth. *)
Definition levels : nat := Z.to_nat (max_depth limits).

Definition ConditionExpression : P Expression :=
  _ ← Begin; root ← Or levels; Finish root.

Definition Assignment : P AssignmentExpression :=
  t ← Peek;
  name ← ColumnName "a column name";
  _ ← ExpectToken tkEquals "=";
  _ ← Begin;
  root ← Sum levels;
  e ← Finish root;
  mret {| assigned_column := name; assigned_at := column t; assigned_value := e |}.

Definition AssignmentList : P (list AssignmentExpression) :=
  a ← Assignment;
  while_some (fun l => b ← AcceptToken tkComma; if b : bool then a ← Assignment; mret (Some (l ++ [a])) else mret None) fuel [a].

Definition Position : P Z := t ← Peek; mret (column t - 1).

Definition ExpectEnd : P unit :=
  t ← Peek; if negb (bool_decide (token_kind t = tkEnd)) then unexpected "expected the end of the expression" else mret tt.

End Parser.

Definition new_parser (position : nat) (used : gset Z) : Parser := MkParser (MkReader position None used) [] [] 0.

Record Condition := { condition_expression : Expression; condition_parameters : Z }.
Record Assignments := { assignment_values : list AssignmentExpression; assignment_parameters : Z }.

Definition run {A} (m : ST Parser A) (p : Parser) : res A := match m p with Ok (a, _) => Ok a | Err e => Err e end.

Definition ParseCondition (text : bytes) (limits : Limits) : res Condition :=
  run (e ← ConditionExpression text limits;
       _ ← ExpectEnd text;
       r ← gets reader;
       n ← pure_ (ParameterCount (parameters_ r));
       mret {| condition_expression := e; condition_parameters := n |}) (new_parser 0 ∅).

Definition ParseAssignments (text : bytes) (limits : Limits) : res Assignments :=
  run (l ← AssignmentList text limits;
       _ ← ExpectEnd text;
       r ← gets reader;
       n ← pure_ (ParameterCount (parameters_ r));
       mret {| assignment_values := l; assignment_parameters := n |}) (new_parser 0 ∅).

(** In a statement: the expression, where it ends and the parameters used. *)
Definition ParseConditionAt (line : bytes) (position : nat) (used : gset Z) (limits : Limits) : res (Expression * Z * gset Z) :=
  run (e ← ConditionExpression line limits; at_ ← Position line; r ← gets reader; mret (e, at_, parameters_ r)) (new_parser position used).

Definition ParseAssignmentsAt (line : bytes) (position : nat) (used : gset Z) (limits : Limits) : res (list AssignmentExpression * Z * gset Z) :=
  run (l ← AssignmentList line limits; at_ ← Position line; r ← gets reader; mret (l, at_, parameters_ r)) (new_parser position used).

(** Whether VERSION and a number or a parameter follow. *)
Definition IsVersionClause (after_if : bytes) : bool :=
  match Lex after_if kExpression 0 with
  | Err _ => false
  | Ok (word, at_) =>
      if negb (bool_decide (token_kind word = tkWord)) || negb (bool_decide (Lower (token_text word) = str "version")) then false
      else
        let at_ := skip after_if is_blank at_ in
        match after_if !! at_ with
        | None => false
        | Some c =>
            if IsDigit c || (c =? 36) then true
            else (c =? 45) && match after_if !! S at_ with Some d => IsDigit d | None => false end
        end
  end.

(** ** What the parser builds *)

Definition node_parameters (n : Node) : list Z := match node_literal n with LParameter i => [i] | _ => [] end.
Definition nodes_parameters (ns : list Node) : list Z := flat_map node_parameters ns.

Section Building.
Context (line : bytes) (Hbytes : bytes_ok line) (Hlen : len line < 2 ^ 32) (limits : Limits) (total : Z).

Abbreviation wp := (StateError.wp parse_failure).
Abbreviation reader_ok := (Lexer.reader_ok line byte_ok total).
Abbreviation reads := (Lexer.reads line byte_ok total).
Abbreviation takes := (Lexer.takes line byte_ok total).

Record node_good (ns : list Node) (i : nat) (n : Node) : Prop := {
  ng_count : length (node_operands n) = OperandCount (node_op n) (length (node_operands n));
  ng_parameter : bool_decide (node_op n = kParameter) = is_parameter (node_literal n);
  ng_before o : o ∈ node_operands n -> (o < i)%nat;
  ng_value o m : o ∈ node_operands n -> ns !! o = Some m -> is_logic (node_op n) = false -> IsValue (node_op m) = true;
  ng_literal : literal_ok (node_literal n)
}.

(** The expression so far: each node is an operand once at most. *)
Record nodes_ok (ns : list Node) (ds : list Z) : Prop := {
  no_good i n : ns !! i = Some n -> node_good ns i n;
  no_once : NoDup (concat (map node_operands ns));
  no_length : length ds = length ns;
  no_depth i n : ns !! i = Some n -> exists d, ds !! i = Some d /\ fold_res (OperandDepth ds) 1 (node_operands n) = Ok d /\ d <= max_depth limits;
  no_limit : Z.of_nat (length ns) <= Z.max 0 (max_nodes limits)
}.

Record parser_ok (p : Parser) : Prop := {
  po_reader : reader_ok (reader p);
  po_nodes : nodes_ok (current_ p) (depths_ p)
}.

(** No node has [o] as an operand. *)
Definition free (ns : list Node) (o : nat) : Prop := o ∉ concat (map node_operands ns).
Definition value_at (ns : list Node) (o : nat) : Prop := exists n, ns !! o = Some n /\ IsValue (node_op n) = true.

(** From [p] to [p'] nodes are added, whose operands are [base] or more, and their parameters used. *)
Definition grown (base : nat) (p p' : Parser) : Prop :=
  parser_ok p' /\ nesting_ p' = nesting_ p /\ (left_ line (reader p') <= left_ line (reader p))%nat /\
  exists new, current_ p' = current_ p ++ new /\ Forall (fun n => Forall (fun o => (base <= o)%nat) (node_operands n)) new /\
    elements (parameters_ (reader p')) ≡ₚ nodes_parameters new ++ elements (parameters_ (reader p)).

(** Node [r] is the last one. *)
Definition made (value : bool) (base : nat) (p p' : Parser) (r : nat) : Prop :=
  grown base p p' /\ S r = length (current_ p') /\ (base <= r)%nat /\ (value = true -> value_at (current_ p') r).

(** Nodes that wait to be operands of one node. *)
Definition pending (value : bool) (p : Parser) (base : nat) (xs : list nat) : Prop :=
  NoDup xs /\ Forall (fun o => (base <= o < length (current_ p))%nat /\ free (current_ p) o /\ (value = true -> value_at (current_ p) o)) xs.

Lemma grown_refl base p : parser_ok p -> grown base p p.
Proof. intros H. split; [done|]. split; [done|]. split; [done|]. exists []. by rewrite app_nil_r. Qed.

Lemma grown_trans b1 b2 b p1 p2 p3 : grown b1 p1 p2 -> grown b2 p2 p3 -> (b <= b1)%nat -> (b <= b2)%nat -> grown b p1 p3.
Proof.
  intros (_ & N1 & L1 & n1 & E1 & F1 & U1) (P2 & N2 & L2 & n2 & E2 & F2 & U2) Hb1 Hb2. split; [done|]. split; [congruence|]. split; [lia|].
  exists (n1 ++ n2). split; [by rewrite E2, E1, app_assoc|]. split.
  - apply Forall_app. split; [eapply Forall_impl; [exact F1|]|eapply Forall_impl; [exact F2|]]; intros n Hn; (eapply Forall_impl; [exact Hn|]); cbn; lia.
  - unfold nodes_parameters in *. rewrite flat_map_app, U2, U1, !app_assoc. by rewrite (Permutation_app_comm (flat_map node_parameters n2)).
Qed.

Lemma grown_length b p p' : grown b p p' -> (length (current_ p) <= length (current_ p'))%nat.
Proof. intros (_ & _ & _ & new & -> & _). rewrite length_app. lia. Qed.

Lemma grown_value b p p' o : grown b p p' -> value_at (current_ p) o -> value_at (current_ p') o.
Proof. intros (_ & _ & _ & new & E & _) (n & Hn & Hv). exists n. split; [|done]. rewrite E. by apply lookup_app_l_Some. Qed.

Lemma concat_operands ns o : o ∈ concat (map node_operands ns) <-> exists i n, ns !! i = Some n /\ o ∈ node_operands n.
Proof.
  rewrite <- flat_map_concat_map. split.
  - intros H%list_elem_of_In%in_flat_map. destruct H as (n & Hn & Ho). apply list_elem_of_In, list_elem_of_lookup in Hn as [i Hi]. exists i, n. split; [done|]. by apply list_elem_of_In.
  - intros (i & n & Hn & Ho). apply list_elem_of_In, in_flat_map. exists n. split; apply list_elem_of_In; [by eapply list_elem_of_lookup_2|done].
Qed.

(** The last node is no operand. *)
Lemma last_free ns ds r : nodes_ok ns ds -> S r = length ns -> free ns r.
Proof.
  intros Hok Hr (i & n & Hn & Ho)%concat_operands. pose proof (ng_before _ _ _ (no_good _ _ Hok i n Hn) r Ho). pose proof (lookup_lt_Some _ _ _ Hn). lia.
Qed.

Lemma pending_first value base p r : parser_ok p -> S r = length (current_ p) -> (base <= r)%nat -> (value = true -> value_at (current_ p) r) -> pending value p base [r].
Proof.
  intros Hp Hr Hb Hv. split; [apply NoDup_singleton|]. apply Forall_singleton. split; [lia|]. split; [|done]. eapply last_free; [apply (po_nodes _ Hp)|done].
Qed.

Lemma pending_grown value base b p p' xs : pending value p base xs -> grown b p p' -> (length (current_ p) <= b)%nat -> pending value p' base xs.
Proof.
  intros [Hnd Hall] Hg Hb. split; [done|]. eapply Forall_impl; [exact Hall|]. cbn. intros o (Ho & Hf & Hv). pose proof (grown_length _ _ _ Hg).
  split; [lia|]. split; [|intros Hval; eapply grown_value; [done|auto]]. destruct Hg as (_ & _ & _ & new & -> & Fn & _). unfold free in *.
  rewrite map_app, concat_app, elem_of_app. intros [?|Hin]; [done|]. apply concat_operands in Hin as (i & n & Hn & Hin).
  rewrite Forall_forall in Fn. specialize (Fn n ltac:(by eapply list_elem_of_lookup_2)). rewrite Forall_forall in Fn. specialize (Fn o Hin). cbn in Fn. lia.
Qed.

Lemma pending_snoc value base p p' xs r : pending value p base xs -> (base <= length (current_ p))%nat -> made value (length (current_ p)) p p' r -> pending value p' base (xs ++ [r]).
Proof.
  intros Hp Hb (Hg & Hr & Hl & Hv). pose proof (pending_grown _ _ _ _ _ _ Hp Hg ltac:(lia)) as [Hnd Hall].
  destruct (pending_first value base p' r) as [_ Hfirst]; [apply Hg|done|lia|done|]. split; [|by apply Forall_app].
  apply NoDup_app. split; [done|]. split; [|apply NoDup_singleton]. intros x Hx ->%list_elem_of_singleton. destruct Hp as [_ Hall0].
  rewrite Forall_forall in Hall0. destruct (Hall0 r Hx) as [? _]. lia.
Qed.

Lemma operand_depths ds ops : forall a, Forall (fun o => (o < length ds)%nat) ops -> exists d, fold_res (OperandDepth ds) a ops = Ok d.
Proof.
  induction ops as [|o ops IH]; intros a H; [by exists a|]. apply Forall_cons in H as [Ho H]. destruct (lookup_lt_is_Some_2 ds o Ho) as [d Hd].
  destruct (IH (Z.max a (d + 1)) H) as [e He]. exists e. cbn [fold_res]. unfold OperandDepth at 2. rewrite Hd. exact He.
Qed.

Lemma operand_depths_app ds more ops : forall a d, fold_res (OperandDepth ds) a ops = Ok d -> fold_res (OperandDepth (ds ++ more)) a ops = Ok d.
Proof.
  induction ops as [|o ops IH]; intros a d H; [done|]. cbn [fold_res] in *. res_inv. apply IH in H. unfold OperandDepth in Hs. destruct (ds !! o) as [e|] eqn:E; [|done].
  assert (OperandDepth (ds ++ more) a o = Ok a0) as ->; [|exact H]. unfold OperandDepth. by rewrite (lookup_app_l_Some _ _ _ _ E).
Qed.

Lemma node_good_app ns more i n : (i <= length ns)%nat -> node_good ns i n -> node_good (ns ++ more) i n.
Proof.
  intros Hi [G1 G2 G3 G4 G5]. split; try done. intros o m Ho Hm Hl. eapply G4; [done| |done]. specialize (G3 o Ho). by rewrite lookup_app_l in Hm by lia.
Qed.

Lemma nodes_ok_add ns ds node d : nodes_ok ns ds -> node_good ns (length ns) node -> NoDup (node_operands node) -> Forall (free ns) (node_operands node) ->
  fold_res (OperandDepth ds) 1 (node_operands node) = Ok d -> d <= max_depth limits -> Z.of_nat (length ns) < max_nodes limits -> nodes_ok (ns ++ [node]) (ds ++ [d]).
Proof.
  intros Hok Hg Hnd Hf Hd Hmax Hlim. split.
  - intros i n [Hn|[Hi Hn]]%lookup_app_Some; [apply node_good_app; [apply lookup_lt_Some in Hn; lia|by apply (no_good _ _ Hok)]|].
    apply list_lookup_singleton_Some in Hn as [Hi0 <-]. replace i with (length ns) by lia. apply node_good_app; [lia|done].
  - rewrite map_app, concat_app. cbn. rewrite app_nil_r. apply NoDup_app. split; [apply (no_once _ _ Hok)|]. split; [|done].
    intros o Ho Ho2. rewrite Forall_forall in Hf. by apply (Hf o).
  - rewrite !length_app. cbn. by rewrite (no_length _ _ Hok).
  - intros i n [Hn|[Hi Hn]]%lookup_app_Some.
    + destruct (no_depth _ _ Hok i n Hn) as (e & He & Hfe & Hle). exists e. split; [by apply lookup_app_l_Some|]. split; [by apply operand_depths_app|done].
    + apply list_lookup_singleton_Some in Hn as [Hi0 <-]. exists d. split; [|split; [by apply operand_depths_app|done]].
      rewrite lookup_app_r by (rewrite (no_length _ _ Hok); lia). by replace (i - length ds)%nat with 0%nat by (rewrite (no_length _ _ Hok); lia).
  - rewrite length_app. cbn. lia.
Qed.

(** The node is added behind its operands. *)
Lemma Add_wp op column ops lit name base p Q : parser_ok p -> pending (negb (is_logic op)) p base ops ->
  length ops = OperandCount op (length ops) -> bool_decide (op = kParameter) = is_parameter lit -> literal_ok lit ->
  (forall d, let node := {| node_op := op; node_column := column; node_literal := lit; node_name := name; node_operands := ops |} in
    let p' := MkParser (reader p) (current_ p ++ [node]) (depths_ p ++ [d]) (nesting_ p) in parser_ok p' -> Q (length (current_ p)) p') ->
  wp (Add limits op column ops lit name) Q p.
Proof.
  intros Hp [Hnd Hall] Hc Hpar Hl HQ. unfold Add. apply wps_bind, wp_gets, wps_bind, wp_gets. destruct (Z.leb_spec (max_nodes limits) (Z.of_nat (length (current_ p)))); [done|].
  pose proof (po_nodes _ Hp) as Hok. apply wps_bind, wp_pure.
  destruct (operand_depths (depths_ p) ops 1) as [d Hd]; [eapply Forall_impl; [exact Hall|]; cbn; rewrite (no_length _ _ Hok); lia|]. rewrite Hd.
  destruct (Z.ltb_spec (max_depth limits) d) as [|Hmax]; [done|]. cbn zeta. apply wps_bind, wp_update, wps_ret. apply HQ. split; [apply (po_reader _ Hp)|]. cbn.
  apply nodes_ok_add; [done| |done| |done|done|done].
  - rewrite Forall_forall in Hall. split; cbn; try done.
    + intros o Ho. destruct (Hall o Ho). lia.
    + intros o m Ho Hm Hlog. destruct (Hall o Ho) as (_ & _ & Hv). rewrite Hlog in Hv. destruct (Hv eq_refl) as (m' & Hm' & Hv'). congruence.
  - cbn. eapply Forall_impl; [exact Hall|]. cbn. tauto.
Qed.

(** A node that is no parameter. *)
Lemma Add_reader value op column ops lit name base p0 p : grown base p0 p -> pending (negb (is_logic op)) p base ops -> (base <= length (current_ p))%nat ->
  length ops = OperandCount op (length ops) -> op <> kParameter -> is_parameter lit = false -> literal_ok lit -> (value = true -> IsValue op = true) ->
  wp (Add limits op column ops lit name) (fun r p' => made value base p0 p' r /\ reader p' = reader p) p.
Proof.
  intros Hg Hpend Hb Hc Hop Hpar Hl Hv. eapply Add_wp; [apply Hg|exact Hpend|done|by rewrite bool_decide_false|done|]. intros d node p' Hp'.
  assert (grown base p p') as Hg'.
  { split; [done|]. split; [done|]. split; [done|]. exists [node]. split; [done|]. destruct Hpend as [_ Hall]. split.
    - apply Forall_singleton. cbn. eapply Forall_impl; [exact Hall|]. cbn. lia.
    - unfold nodes_parameters, node_parameters. cbn. by destruct lit. }
  split; [|done]. split; [by eapply grown_trans|]. cbn. rewrite length_app. cbn. split; [lia|]. split; [done|]. intros Hval. exists node. split; [|by apply Hv].
  by rewrite list_lookup_middle.
Qed.

Lemma Add_made value op column ops lit name base p0 p : grown base p0 p -> pending (negb (is_logic op)) p base ops -> (base <= length (current_ p))%nat ->
  length ops = OperandCount op (length ops) -> op <> kParameter -> is_parameter lit = false -> literal_ok lit -> (value = true -> IsValue op = true) ->
  wp (Add limits op column ops lit name) (fun r p' => made value base p0 p' r) p.
Proof. intros. eapply wp_weaken; [by eapply Add_reader|]. by intros r p' []. Qed.

(** ** The methods of the token stream *)

(** The tokens are read on; nothing is added. *)
Definition stays (p p' : Parser) : Prop := exists r, p' = MkParser r (current_ p) (depths_ p) (nesting_ p) /\ reads (reader p) r.
Definition moves (p p' : Parser) : Prop := exists r, p' = MkParser r (current_ p) (depths_ p) (nesting_ p) /\ takes (reader p) r.

Lemma stays_grown base p p' : parser_ok p -> stays p p' -> grown base p p' /\ current_ p' = current_ p.
Proof.
  intros Hp (r & -> & Hr & Hl & Hu). split; [|done]. split; [split; [done|apply (po_nodes _ Hp)]|]. split; [done|]. split; [done|].
  exists []. cbn. rewrite app_nil_r, Hu. done.
Qed.

Lemma moves_stays p p' : moves p p' -> stays p p'.
Proof. intros (r & -> & Hr). exists r. split; [done|]. by apply takes_reads. Qed.

Lemma moves_left p p' : moves p p' -> (left_ line (reader p') < left_ line (reader p))%nat.
Proof. by intros (r & -> & _ & Hl & _). Qed.

Lemma stays_left p p' : stays p p' -> (left_ line (reader p') <= left_ line (reader p))%nat.
Proof. by intros (r & -> & _ & Hl & _). Qed.

Lemma stays_trans p1 p2 p3 : stays p1 p2 -> stays p2 p3 -> stays p1 p3.
Proof. intros (r & -> & Hr) (s & -> & Hs). exists s. split; [done|]. by eapply reads_trans. Qed.

Lemma on_wp {A} (m : ST Reader A) (Q : A -> Reader -> Prop) p : wp m Q (reader p) -> wp (on m) (fun a p' => exists r, p' = MkParser r (current_ p) (depths_ p) (nesting_ p) /\ Q a r) p.
Proof. intros H. apply wp_zoom. eapply wp_weaken; [exact H|]. intros a r Hr. by exists r. Qed.

Lemma Peek_wp_p p : parser_ok p -> wp (Peek line) (fun t p' => stays p p' /\ ahead (reader p') = Some t) p.
Proof.
  intros Hp. eapply wp_weaken; [apply on_wp, (Peek_wp line kExpression byte_ok Hbytes total), (po_reader _ Hp)|]. intros t p' (r & -> & Hr & Ha). split; [by exists r|done].
Qed.

(** Nothing changes with a token ahead. *)
Definition idle (p p' : Parser) : Prop := stays p p' /\ forall t, ahead (reader p) = Some t -> p' = p.

Lemma Peek_idle p : parser_ok p -> wp (Peek line) (fun t p' => stays p p' /\ ahead (reader p') = Some t /\ idle p p') p.
Proof.
  intros Hp. destruct (ahead (reader p)) as [t|] eqn:Ea.
  - unfold Peek, on. apply wp_zoom. unfold StateError.wp, Lexer.Peek. rewrite Ea. assert (MkParser (reader p) (current_ p) (depths_ p) (nesting_ p) = p) as E by (by destruct p).
    rewrite E. assert (stays p p). { exists (reader p). split; [done|]. apply reads_refl, (po_reader _ Hp). } split; [done|]. split; [done|]. by split.
  - eapply wp_weaken; [by apply Peek_wp_p|]. intros t p' [Hs Ha]. split; [done|]. split; [done|]. split; [done|]. intros t' Ht'. congruence.
Qed.

Lemma Take_wp_p p t : parser_ok p -> ahead (reader p) = Some t -> token_kind t <> tkParameter -> token_kind t <> tkEnd -> wp (Take line) (fun t' p' => t' = t /\ moves p p') p.
Proof.
  intros Hp Ha Hk He. eapply wp_weaken; [apply on_wp; eapply (Take_wp line kExpression byte_ok total); [apply (po_reader _ Hp)|done|done]|].
  intros t' p' (r & -> & -> & _ & Ht). split; [done|]. exists r. split; [done|]. by apply Ht.
Qed.

Lemma AcceptWord_wp_p k p : parser_ok p -> wp (AcceptWord line k) (fun b p' => if b : bool then moves p p' else stays p p') p.
Proof.
  intros Hp. eapply wp_weaken; [apply on_wp, (AcceptWord_wp line kExpression byte_ok Hbytes total), (po_reader _ Hp)|]. intros [] p' (r & -> & Hr); exists r; [|done]. by destruct Hr.
Qed.

Lemma ExpectWord_wp_p k p : parser_ok p -> wp (ExpectWord line k) (fun _ p' => moves p p') p.
Proof. intros Hp. eapply wp_weaken; [apply on_wp, (ExpectWord_wp line kExpression byte_ok Hbytes total), (po_reader _ Hp)|]. intros [] p' (r & -> & Hr). by exists r. Qed.

Lemma AcceptToken_wp_p k p : parser_ok p -> k <> tkParameter -> k <> tkEnd -> wp (AcceptToken line k) (fun b p' => if b : bool then moves p p' else stays p p') p.
Proof.
  intros Hp Hk He. eapply wp_weaken; [apply on_wp, (AcceptToken_wp line kExpression byte_ok Hbytes total); [apply (po_reader _ Hp)|done|done]|].
  intros [] p' (r & -> & Hr); by exists r.
Qed.

Lemma ExpectToken_wp_p k what p : parser_ok p -> k <> tkParameter -> k <> tkEnd -> wp (ExpectToken line k what) (fun _ p' => moves p p') p.
Proof.
  intros Hp Hk He. eapply wp_weaken; [apply on_wp, (ExpectToken_wp line kExpression byte_ok Hbytes total); [apply (po_reader _ Hp)|done|done]|].
  intros [] p' (r & -> & Hr). by exists r.
Qed.

Lemma unexpected_wp_p {A} what (Q : A -> Parser -> Prop) p : parser_ok p -> wp (unexpected line what) Q p.
Proof. intros Hp. apply wp_zoom. apply (unexpected_wp line kExpression byte_ok Hbytes total), (po_reader _ Hp). Qed.

Lemma fail_wp_p {A} column message (Q : A -> Parser -> Prop) p : wp (fail column message) Q p.
Proof. done. Qed.


Lemma stays_ok p p' : parser_ok p -> stays p p' -> parser_ok p'.
Proof. intros Hp (r & -> & Hr & _). split; [done|apply (po_nodes _ Hp)]. Qed.

Lemma stays_refl p : parser_ok p -> stays p p.
Proof. intros Hp. exists (reader p). split; [by destruct p|]. apply reads_refl, (po_reader _ Hp). Qed.

Lemma moves_trans p1 p2 p3 : moves p1 p2 -> stays p2 p3 -> moves p1 p3.
Proof. intros (r & -> & Hr) (s & -> & Hs). exists s. split; [done|]. by eapply takes_trans. Qed.

Lemma stays_moves p1 p2 p3 : stays p1 p2 -> moves p2 p3 -> moves p1 p3.
Proof. intros (r & -> & Hr) (s & -> & Hs). exists s. split; [done|]. by eapply reads_takes. Qed.

Lemma stays_current p p' : stays p p' -> current_ p' = current_ p.
Proof. by intros (r & -> & _). Qed.

Lemma stays_nesting p p' : stays p p' -> nesting_ p' = nesting_ p.
Proof. by intros (r & -> & _). Qed.

(** A node without operands. *)
Lemma leaf_made value op column lit name p0 p : parser_ok p0 -> stays p0 p -> OperandCount op 0 = 0%nat -> op <> kParameter -> is_parameter lit = false -> literal_ok lit ->
  (value = true -> IsValue op = true) -> wp (Add limits op column [] lit name) (fun r p' => made value (length (current_ p0)) p0 p' r) p.
Proof.
  intros Hp Hs Hc Hop Hpar Hl Hv. apply Add_made; try done; [by apply stays_grown|by split; constructor|by rewrite (stays_current _ _ Hs)].
Qed.

Lemma ahead_token p p' t : parser_ok p -> stays p p' -> ahead (reader p') = Some t -> token_ok byte_ok (Nat.max 4 (length line)) t.
Proof. intros Hp (r & -> & Hr & _) Ha. by destruct (ro_ahead _ _ _ _ Hr t Ha). Qed.

(** The token ahead of [p1] is taken. *)
Lemma taken_p p p1 t (Q : Token -> Parser -> Prop) : parser_ok p -> stays p p1 -> ahead (reader p1) = Some t -> token_kind t <> tkParameter -> token_kind t <> tkEnd ->
  (forall p2, moves p p2 -> Q t p2) -> wp (Take line) Q p1.
Proof.
  intros Hp Hs Ha Hk He HQ. eapply wp_weaken; [apply (Take_wp_p p1 t); [by eapply stays_ok|done..]|]. intros t' p2 [-> Hm]. apply HQ. by eapply stays_moves.
Qed.

Lemma word_kind t k : IsWord t (str k) = true -> token_kind t = tkWord.
Proof. unfold IsWord. rewrite andb_true_iff, !bool_decide_eq_true. tauto. Qed.

Lemma ColumnName_wp what p : parser_ok p -> wp (ColumnName line what) (fun _ p' => moves p p') p.
Proof.
  intros Hp. unfold ColumnName. apply wps_bind. eapply wp_weaken; [by apply Peek_wp_p|]. intros t p1 [Hs Ha].
  assert (token_kind t <> tkParameter -> token_kind t <> tkEnd -> wp (t ← Take line; mret (token_text t)) (fun _ p' => moves p p') p1) as Htake.
  { intros Hk He. apply wps_bind. by eapply taken_p. }
  destruct (token_kind t) eqn:Hk; try (apply unexpected_wp_p; by eapply stays_ok).
  - cbn zeta. destruct (IsKeyword _); [done|]. destruct (negb _); [done|]. destruct (_ <? _); [done|]. by apply Htake.
  - destruct (negb _); [done|]. by apply Htake.
Qed.

Lemma Number_wp negate column p : parser_ok p -> wp (Number line limits negate column)
  (fun o p' => match o with Some n => made true (length (current_ p)) p p' n | None => idle p p' end) p.
Proof.
  intros Hp. unfold Number. apply wps_bind. eapply wp_weaken; [by apply Peek_idle|]. intros t p1 (Hs & Ha & Hi). cbn zeta.
  assert (forall l, token_kind t <> tkParameter -> token_kind t <> tkEnd -> is_parameter l = false -> literal_ok l ->
    wp (_ ← Take line; n ← AddLiteral limits column l; mret (Some n)) (fun o p' => match o with Some n => made true (length (current_ p)) p p' n | None => idle p p' end) p1) as Hadd.
  { intros l Hk He Hpar Hl. apply wps_bind. eapply taken_p; [done|exact Hs|exact Ha|done|done|]. intros p2 Hm. apply wps_bind. eapply wp_weaken; [by apply leaf_made; [|apply moves_stays|..]|].
    intros n p3 Hn. by apply wps_ret. }
  assert (forall b, token_kind t <> tkParameter -> token_kind t <> tkEnd -> in_u 64 b ->
    wp (_ ← Take line; n ← AddLiteral limits column (LDouble (if negate then f64_neg b else b)); mret (Some n))
      (fun o p' => match o with Some n => made true (length (current_ p)) p p' n | None => idle p p' end) p1) as Hfloat.
  { intros b Hk He Hb. apply Hadd; try done. cbn. destruct negate; [by apply f64_neg_bound|done]. }
  assert (wp (if IsWord t (str "inf") then _ ← Take line; n ← AddLiteral limits column (LDouble (if negate then f64_neg (f64_inf 0) else f64_inf 0)); mret (Some n)
    else if IsWord t (str "nan") then _ ← Take line; n ← AddLiteral limits column (LDouble (if negate then f64_neg quiet_NaN else quiet_NaN)); mret (Some n) else mret None)
    (fun o p' => match o with Some n => made true (length (current_ p)) p p' n | None => idle p p' end) p1) as Hother.
  { destruct (IsWord t (str "inf")) eqn:E1; [apply word_kind in E1; apply Hfloat; [by rewrite E1..|done]|].
    destruct (IsWord t (str "nan")) eqn:E2; [apply word_kind in E2; apply Hfloat; [by rewrite E2..|done]|]. by apply wps_ret. }
  destruct (token_kind t) eqn:Hk; try exact Hother.
  - apply wps_bind, wp_pure. pose proof (IntegerOf_ok t) as Hv. destruct (IntegerOf t) as [v|]; [|done]. apply Hadd; try done. apply Hv.
  - apply wps_bind, wp_pure. pose proof (FloatOf_ok t) as Hf. destruct (FloatOf t) as [v|]; [|done]. by apply Hfloat.
Qed.


Lemma Literal_wp column p : parser_ok p -> wp (Literal_ line limits column)
  (fun o p' => match o with Some n => made true (length (current_ p)) p p' n | None => idle p p' end) p.
Proof.
  intros Hp. unfold Literal_. apply wps_bind. eapply wp_weaken; [by apply Number_wp|]. intros [n|] p1 H1; [by apply wps_ret|]. destruct H1 as [H1 H1'].
  apply wps_bind. eapply wp_weaken; [apply Peek_idle; by eapply stays_ok|]. intros t p2 (Hs2 & Ha & _ & Hi2). pose proof (stays_trans _ _ _ H1 Hs2) as Hs.
  assert (idle p p2) as Hi. { split; [done|]. intros t' Ht'. rewrite (Hi2 t'); [by eapply H1'|by rewrite (H1' t' Ht')]. }
  assert (forall f, token_kind t <> tkParameter -> token_kind t <> tkEnd -> is_parameter (f t) = false -> literal_ok (f t) ->
    wp (t ← Take line; n ← AddLiteral limits column (f t); mret (Some n)) (fun o p' => match o with Some n => made true (length (current_ p)) p p' n | None => idle p p' end) p2) as Hadd.
  { intros f Hk He Hpar Hl. apply wps_bind. eapply taken_p; [done|exact Hs|exact Ha|done|done|]. intros p3 Hm. apply wps_bind.
    eapply wp_weaken; [by apply leaf_made; [|apply moves_stays|..]|]. intros n p4 Hn. by apply wps_ret. }
  destruct (ahead_token _ _ _ Hp Hs Ha) as [Hl Hok].
  assert (wp (if IsWord t (str "null") then _ ← Take line; n ← AddLiteral limits column LNull; mret (Some n)
    else if IsWord t (str "true") || IsWord t (str "false") then _ ← Take line; n ← AddLiteral limits column (LBool (IsWord t (str "true"))); mret (Some n) else mret None)
    (fun o p' => match o with Some n => made true (length (current_ p)) p p' n | None => idle p p' end) p2) as Hother.
  { destruct (IsWord t (str "null")) eqn:E1; [apply word_kind in E1; apply (Hadd (fun _ => LNull)); [by rewrite E1..|done|done]|].
    destruct (IsWord t (str "true") || IsWord t (str "false")) eqn:E2; [|by apply wps_ret].
    apply (Hadd (fun _ => LBool (IsWord t (str "true")))); try done; apply orb_true_iff in E2 as [E2|E2]; apply word_kind in E2; by rewrite E2. }
  destruct (token_kind t) eqn:Hk; try exact Hother.
  - apply (Hadd (fun t => LText (token_text t))); done.
  - apply (Hadd (fun t => LBytes (BytesOf t))); try done. by apply hex_pairs_ok.
  - apply (Hadd (fun t => LBits (token_text t))); try done. split; [done|]. lia.
Qed.

Lemma ParameterNode_wp p t : parser_ok p -> ahead (reader p) = Some t -> token_kind t = tkParameter ->
  wp (ParameterNode line limits) (fun r p' => made true (length (current_ p)) p p' r) p.
Proof.
  intros Hp Ha Hk. unfold ParameterNode. apply wps_bind. unfold Peek, on. apply wp_zoom. unfold StateError.wp at 1, Lexer.Peek. rewrite Ha.
  apply wps_bind. eapply wp_weaken.
  { apply on_wp. cbn [reader]. eapply (TakeParameter_wp line kExpression byte_ok Hbytes total); [apply (po_reader _ Hp)|exact Ha|done]. }
  intros i p1 (r & -> & (Hr & Hl & Hu) & Hi). cbn [reader current_ depths_ nesting_].
  eapply (Add_wp _ _ _ _ _ (length (current_ p))); [split; [done|apply (po_nodes _ Hp)]|by split; constructor|done|done|done|].
  intros d node p' Hp'. split; [|cbn; rewrite length_app; cbn; split; [lia|]; split; [done|]; intros _; exists node; split; [by rewrite list_lookup_middle|done]].
  split; [done|]. split; [done|]. split; [cbn [reader] in *; subst p'; cbn [reader]; lia|]. exists [node]. split; [done|]. split; [by apply Forall_singleton|]. exact Hu.
Qed.

(** A method that makes a node inside [N] parentheses. *)
Definition production (N : Z) (value : bool) (m : ST Parser nat) : Prop :=
  forall p, parser_ok p -> nesting_ p = N -> wp m (fun r p' => made value (length (current_ p)) p p' r) p.

(** One that goes on from the last node. *)
Definition continuation (N : Z) (value : bool) (m : nat -> ST Parser nat) : Prop :=
  forall base first p0 p, made true base p0 p first -> nesting_ p = N -> wp (m first) (fun r p' => made value base p0 p' r) p.

Definition accepting (accept : ST Parser bool) : Prop := forall p, parser_ok p -> wp accept (fun b p' => if b : bool then moves p p' else stays p p') p.

(** Operands collected so far. *)
Definition collected (value : bool) (base : nat) (p0 p : Parser) (xs : list nat) : Prop :=
  grown base p0 p /\ (base <= length (current_ p))%nat /\ pending value p base xs.

Lemma collected_stays value base p0 p p' xs : collected value base p0 p xs -> stays p p' -> collected value base p0 p' xs.
Proof.
  intros (Hg & Hb & Hp) Hs. destruct (stays_grown (length (current_ p)) p p' ltac:(apply Hg) Hs) as [Hg' Hc]. split; [|split; [by rewrite Hc|by eapply pending_grown]].
  eapply grown_trans; [exact Hg|exact Hg'|lia|lia].
Qed.

Lemma collected_snoc value base p0 p p' xs r : collected value base p0 p xs -> made value (length (current_ p)) p p' r -> collected value base p0 p' (xs ++ [r]).
Proof.
  intros (Hg & Hb & Hp) Hm. pose proof (grown_length _ _ _ (proj1 Hm)). split; [eapply grown_trans; [exact Hg|apply Hm|lia|lia]|]. split; [lia|by eapply pending_snoc].
Qed.

Lemma collected_first value base p0 p r : made value base p0 p r -> collected value base p0 p [r].
Proof. intros (Hg & Hr & Hb & Hv). split; [done|]. split; [lia|]. apply pending_first; [apply Hg|done|done|done]. Qed.

Lemma left_fuel_p p : (left_ line (reader p) <= fuel line)%nat.
Proof. unfold left_, fuel. destruct (ahead _); [case_bool_decide|]; lia. Qed.

Lemma collect_wp N value item accept base p0 n p xs : production N value item -> accepting accept -> nesting_ p = N -> (left_ line (reader p) <= n)%nat -> collected value base p0 p xs ->
  wp (while_some (fun xs => b ← accept; if b : bool then x ← item; mret (Some (xs ++ [x])) else mret None) n xs)
    (fun ys p' => collected value base p0 p' ys /\ nesting_ p' = N /\ (length xs <= length ys)%nat) p.
Proof.
  intros Hitem Hacc HN Hn Hc. eapply (wp_while _ (fun p => left_ line (reader p)) (fun ys p' => collected value base p0 p' ys /\ nesting_ p' = N /\ (length xs <= length ys)%nat));
    [|done|done].
  intros ys q (Hq & HNq & Hl). apply wps_bind. eapply wp_weaken; [apply Hacc, Hq|]. intros [] q1 Hm;
    [|apply wps_ret; split; [by eapply collected_stays|]; split; [by rewrite (stays_nesting _ _ Hm)|done]].
  pose proof (moves_stays _ _ Hm) as Hs. pose proof (collected_stays _ _ _ _ _ _ Hq Hs) as Hq1. apply wps_bind.
  eapply wp_weaken; [apply Hitem; [apply Hq1|by rewrite (stays_nesting _ _ Hs)]|]. intros x q2 Hx. apply wps_ret. split.
  - split; [by eapply collected_snoc|]. split; [|rewrite length_app; cbn; lia]. destruct Hx as ((_ & -> & _) & _). by rewrite (stays_nesting _ _ Hs).
  - pose proof (moves_left _ _ Hm). destruct Hx as ((_ & _ & ? & _) & _). lia.
Qed.

Lemma AcceptWord_true k p t : parser_ok p -> ahead (reader p) = Some t -> IsWord t (str k) = true -> wp (AcceptWord line k) (fun b p' => b = true /\ moves p p') p.
Proof.
  intros Hp Ha Hw. unfold AcceptWord, on, Lexer.AcceptWord. apply wp_zoom, wps_bind. unfold StateError.wp at 1, Lexer.Peek. rewrite Ha, Hw. apply wps_bind.
  pose proof (word_kind _ _ Hw) as Hk. eapply wp_weaken; [eapply (Take_wp line kExpression byte_ok total); [apply (po_reader _ Hp)|exact Ha|by rewrite Hk]|].
  intros t' r (_ & _ & Ht). apply wps_ret. split; [done|]. exists r. split; [done|]. apply Ht. by rewrite Hk.
Qed.

Lemma made_after value p p1 p2 r : parser_ok p -> stays p p1 -> made value (length (current_ p1)) p1 p2 r -> made value (length (current_ p)) p p2 r.
Proof.
  intros Hp Hs (Hg & Hr & Hb & Hv). destruct (stays_grown (length (current_ p)) p p1 Hp Hs) as [Hg1 Hc]. rewrite Hc in *.
  split; [eapply grown_trans; [exact Hg1|exact Hg|lia|lia]|done].
Qed.

Lemma made_stays value base p0 p p' r : made value base p0 p r -> stays p p' -> made value base p0 p' r.
Proof.
  intros (Hg & Hr & Hb & Hv) Hs. destruct (stays_grown base p p' ltac:(apply Hg) Hs) as [Hg1 Hc].
  split; [eapply grown_trans; [exact Hg|exact Hg1|lia|lia]|]. by rewrite Hc.
Qed.

Lemma made_any value base p0 p r : made true base p0 p r -> made value base p0 p r.
Proof. intros (Hg & Hr & Hb & Hv). repeat (split; [done|]). intros _. by apply Hv. Qed.

Lemma made_ok value base p0 p r : made value base p0 p r -> parser_ok p /\ nesting_ p = nesting_ p0.
Proof. intros ((Hp & Hn & _) & _). done. Qed.

(** The collected operands become a node. *)
Lemma AddOp_wp value base p0 p op column xs : collected (negb (is_logic op)) base p0 p xs -> length xs = OperandCount op (length xs) -> op <> kParameter ->
  (value = true -> IsValue op = true) -> wp (AddOp limits op column xs) (fun r p' => made value base p0 p' r) p.
Proof. intros (Hg & Hb & Hp) Hc Hop Hv. by apply Add_made. Qed.

Lemma AddOp_reader value base p0 p op column xs : collected (negb (is_logic op)) base p0 p xs -> length xs = OperandCount op (length xs) -> op <> kParameter ->
  (value = true -> IsValue op = true) -> wp (AddOp limits op column xs) (fun r p' => made value base p0 p' r /\ reader p' = reader p) p.
Proof. intros (Hg & Hb & Hp) Hc Hop Hv. by apply Add_reader. Qed.

Lemma Prefixes_wp accept p : parser_ok p -> (forall t, accept t = true -> token_kind t <> tkParameter /\ token_kind t <> tkEnd) ->
  wp (Prefixes line limits accept) (fun _ p' => stays p p') p.
Proof.
  intros Hp Ht. unfold Prefixes. eapply (wp_while _ (fun p => left_ line (reader p)) (fun _ p' => stays p p'));
    [|by apply stays_refl|apply left_fuel_p].
  intros cs q Hs. apply wps_bind. eapply wp_weaken; [apply Peek_wp_p; by eapply stays_ok|]. intros t q1 [Hs1 Ha].
  destruct (accept t) eqn:Ea; [|apply wps_ret; by eapply stays_trans]. destruct (_ <=? _); [done|]. apply wps_bind. destruct (Ht t Ea) as [Hk He].
  eapply taken_p; [by eapply stays_ok|exact Hs1|exact Ha|done|done|]. intros q2 Hm. apply wps_ret. split; [eapply stays_trans; [exact Hs|by apply moves_stays]|by apply moves_left].
Qed.

Lemma Wrap_wp value base p0 op columns : value = negb (is_logic op) -> OperandCount op 1 = 1%nat -> op <> kParameter -> (value = true -> IsValue op = true) ->
  forall node p, made value base p0 p node -> wp (Wrap limits op columns node) (fun r p' => made value base p0 p' r) p.
Proof.
  intros Hval Hc Hop Hv. induction columns as [|c columns IH]; intros node p Hm; cbn [Wrap]; [by apply wps_ret|].
  apply wps_bind. eapply wp_weaken; [by apply IH|]. intros n p' Hn. cbn beta in Hn. apply AddOp_wp; try done. rewrite <- Hval. by apply collected_first.
Qed.

Lemma Nested_wp N value column body p : (N < max_depth limits -> production (N + 1) value body) -> parser_ok p -> nesting_ p = N ->
  wp (Nested limits column body) (fun r p' => made value (length (current_ p)) p p' r) p.
Proof.
  intros Hbody Hp HN. unfold Nested. apply wps_bind, wp_gets. destruct (Z.leb_spec (max_depth limits) (nesting_ p)) as [|Hlt]; [done|].
  apply wps_bind, wp_update, wps_bind. eapply wp_weaken; [apply Hbody; [lia|destruct Hp; by split|cbn; lia]|].
  intros r p' ((Hp' & Hn & Hl & new & E & F & U) & Hr & Hb & Hv). cbn in *. apply wps_bind, wp_update, wps_ret. cbn.
  split; [|done]. split; [destruct Hp'; by split|]. split; [cbn; lia|]. split; [done|]. by exists new.
Qed.

Section Values.
Context (N : Z) (Sum_ : ST Parser nat) (HSum : N < max_depth limits -> production (N + 1) true Sum_).

Lemma Items_wp M value item base p0 p xs : production M value item -> nesting_ p = M -> collected value base p0 p xs ->
  wp (Items line item xs) (fun ys p' => collected value base p0 p' ys /\ nesting_ p' = M /\ (length xs < length ys)%nat) p.
Proof.
  intros Hitem HM Hc. unfold Items. apply wps_bind. eapply wp_weaken; [apply Hitem; [apply Hc|done]|]. intros x p1 Hx. cbn beta in Hx.
  eapply wp_weaken; [eapply (collect_wp M value item); [done|intros q Hq; by apply AcceptToken_wp_p|by rewrite (proj2 (made_ok _ _ _ _ _ Hx))|apply left_fuel_p|by eapply collected_snoc]|].
  intros ys p2 (Hy & HN & Hl). split; [done|]. split; [done|]. rewrite length_app in Hl. cbn in Hl. lia.
Qed.

Lemma Function_wp op p t : op ∈ [kLeast; kGreatest; kCoalesce] -> parser_ok p -> nesting_ p = N -> ahead (reader p) = Some t -> token_kind t = tkWord ->
  wp (Function line limits Sum_ op) (fun r p' => made true (length (current_ p)) p p' r) p.
Proof.
  intros Hop Hp HN Ha Hk. unfold Function. apply wps_bind. eapply taken_p; [done|by apply stays_refl|exact Ha|by rewrite Hk..|]. intros p1 Hm1.
  apply wps_bind. eapply wp_weaken; [apply ExpectToken_wp_p; [eapply stays_ok; [done|by apply moves_stays]|done|done]|]. intros u_p2 p2 Hm2. cbn beta in Hm2.
  pose proof (stays_trans _ _ _ (moves_stays _ _ Hm1) (moves_stays _ _ Hm2)) as Hs.
  eapply wp_weaken; [eapply (Nested_wp N true); [|by eapply stays_ok|by rewrite (stays_nesting _ _ Hs)]|intros r p3 Hr; by eapply made_after].
  intros Hlt q Hq HNq. apply wps_bind. eapply wp_weaken; [eapply (Items_wp (N + 1) true _ (length (current_ q)) q); [by apply HSum|done|]|].
  { split; [by apply grown_refl|]. split; [done|]. by split; constructor. }
  intros xs q1 (Hc & _ & Hl). apply wps_bind. eapply wp_weaken; [apply ExpectToken_wp_p; [apply Hc|done|done]|]. intros u_q2 q2 Hm. cbn beta in Hm.
  pose proof (collected_stays _ _ _ _ _ _ Hc (moves_stays _ _ Hm)) as Hc2. rewrite !elem_of_cons, elem_of_nil in Hop. cbn in Hl.
  apply AddOp_wp; [by destruct Hop as [->|[->|[->|[]]]]| | |]; destruct Hop as [->|[->|[->|[]]]]; try done; (destruct xs; [cbn in Hl; lia|done]).
Qed.

Lemma ColumnNode_wp what op column p0 p : parser_ok p0 -> stays p0 p -> op = kColumn \/ op = kChunkColumn ->
  wp (n ← ColumnName line what; Add limits op column [] LNull n) (fun r p' => made true (length (current_ p0)) p0 p' r) p.
Proof.
  intros Hp Hs Hop. apply wps_bind. eapply wp_weaken; [apply ColumnName_wp; by eapply stays_ok|]. intros n p1 Hm. cbn beta in Hm.
  apply leaf_made; [done|eapply stays_trans; [done|by apply moves_stays]|..]; by destruct Hop as [-> | ->].
Qed.

Lemma Word_wp p t : parser_ok p -> nesting_ p = N -> ahead (reader p) = Some t -> token_kind t = tkWord ->
  wp (Word line limits Sum_ t) (fun r p' => made true (length (current_ p)) p p' r) p.
Proof.
  intros Hp HN Ha Hk. unfold Word. cbn zeta. pose proof (stays_refl p Hp) as Hs0.
  assert (forall Q, (forall p2, moves p p2 -> wp (Q : ST Parser nat) (fun r p' => made true (length (current_ p)) p p' r) p2) ->
    wp (Take line ≫= fun _ => Q) (fun r p' => made true (length (current_ p)) p p' r) p) as Htake.
  { intros Q HQ. apply wps_bind. eapply taken_p; [done|exact Hs0|exact Ha|by rewrite Hk..|done]. }
  destruct (_ || _ || _).
  { apply Htake. intros p2 Hm. unfold AddOp. apply leaf_made; [done|by apply moves_stays|..]; by repeat case_match. }
  destruct (bool_decide (Lower (token_text t) = str "now")).
  { apply Htake. intros p2 Hm. apply wps_bind. assert (stays p p2) as Hs by (by apply moves_stays).
    eapply wp_weaken; [apply ExpectToken_wp_p; [by eapply stays_ok|done|done]|]. intros u_p3 p3 Hm3. cbn beta in Hm3. pose proof (stays_trans _ _ _ Hs (moves_stays _ _ Hm3)) as Hs3.
    apply wps_bind. eapply wp_weaken; [apply ExpectToken_wp_p; [by eapply stays_ok|done|done]|]. intros u_p4 p4 Hm4. cbn beta in Hm4.
    apply leaf_made; [done|eapply stays_trans; [exact Hs3|by apply moves_stays]|done..]. }
  do 3 (destruct (bool_decide _); [by eapply Function_wp; [set_solver|..]|]).
  destruct (bool_decide _).
  { apply Htake. intros p2 Hm. apply wps_bind. assert (stays p p2) as Hs by (by apply moves_stays).
    eapply wp_weaken; [apply ExpectToken_wp_p; [by eapply stays_ok|done|done]|]. intros u_p3 p3 Hm3. cbn beta in Hm3.
    apply ColumnNode_wp; [done|eapply stays_trans; [exact Hs|by apply moves_stays]|by right]. }
  destruct (IsKeyword _); [done|]. apply ColumnNode_wp; [done|done|by left].
Qed.

Lemma Primary_wp : production N true (Primary line limits Sum_).
Proof.
  intros p Hp HN. unfold Primary. apply wps_bind. eapply wp_weaken; [by apply Peek_wp_p|]. intros t p1 [Hs Ha]. assert (parser_ok p1) as Hp1 by (by eapply stays_ok).
  eapply wp_weaken; [|intros r p' Hr; eapply made_after; [done|exact Hs|exact Hr]]. assert (nesting_ p1 = N) as HN1 by (by rewrite (stays_nesting _ _ Hs)). clear p Hp HN Hs.
  apply wps_bind. eapply wp_weaken; [by apply Literal_wp|]. intros [n|] p2 H2; [by apply wps_ret|]. destruct H2 as [_ Hsame]. rewrite (Hsame t Ha) in *. clear p2 Hsame.
  destruct (token_kind t) eqn:Hk; try (by apply unexpected_wp_p).
  - by apply Word_wp.
  - by eapply ParameterNode_wp.
  - apply wps_bind. eapply taken_p; [done|by apply stays_refl|exact Ha|by rewrite Hk..|]. intros p2 Hm. pose proof (moves_stays _ _ Hm) as Hs.
    eapply wp_weaken; [|intros r p' Hr; eapply made_after; [exact Hp1|exact Hs|exact Hr]].
    apply (Nested_wp N true); [|by eapply stays_ok|by rewrite (stays_nesting _ _ Hs)].
    intros Hlt q Hq HNq. apply wps_bind. eapply wp_weaken; [by apply HSum|]. intros x q1 Hx. cbn beta in Hx. apply wps_bind.
    eapply wp_weaken; [apply ExpectToken_wp_p; [by destruct (made_ok _ _ _ _ _ Hx)|done|done]|]. intros u q2 Hm2. apply wps_ret. eapply made_stays; [exact Hx|by apply moves_stays].
  - apply ColumnNode_wp; [done|by apply stays_refl|by left].
Qed.

Lemma Factor_wp : production N true (Factor line limits Sum_).
Proof.
  intros p Hp HN. unfold Factor. apply wps_bind. eapply wp_weaken; [apply Prefixes_wp; [done|]|].
  { intros t Ht%bool_decide_eq_true. by rewrite Ht. }
  intros minuses p1 Hs. cbn beta in Hs. assert (parser_ok p1) as Hp1 by (by eapply stays_ok). assert (nesting_ p1 = N) as HN1 by (by rewrite (stays_nesting _ _ Hs)).
  eapply wp_weaken; [|intros r p' Hr; eapply made_after; [done|exact Hs|exact Hr]].
  assert (forall p2 ws, stays p1 p2 -> wp (x ← Primary line limits Sum_; Wrap limits kNegate ws x) (fun r p' => made true (length (current_ p1)) p1 p' r) p2) as Hprim.
  { intros p2 ws Hs2. apply wps_bind. eapply wp_weaken; [apply Primary_wp; [by eapply stays_ok|by rewrite (stays_nesting _ _ Hs2)]|]. intros x p3 Hx. apply Wrap_wp; [done..|by eapply made_after]. }
  apply wps_bind. destruct (last minuses) as [c|]; [|apply wps_ret; apply (Hprim p1 minuses); by apply stays_refl].
  apply wps_bind. eapply wp_weaken; [by apply Number_wp|]. intros [x|] p2 Hx; apply wps_ret.
  - apply wps_bind, wps_ret. by apply Wrap_wp.
  - apply (Hprim p2 minuses). apply Hx.
Qed.

(** The right side of an operator, and its node. *)
Lemma binary_wp op column base p0 left right p p2 : made true base p0 p left -> moves p p2 -> nesting_ p = N -> production N true right ->
  op ∈ [kAdd; kSubtract; kMultiply; kDivide; kModulo] ->
  wp (x ← right; n ← AddOp limits op column [left; x]; mret (Some n))
    (fun o p' => match o with Some n => (made true base p0 p' n /\ nesting_ p' = N) /\ (left_ line (reader p') < left_ line (reader p))%nat | None => False end) p2.
Proof.
  intros Hm Hmv HN Hright Hop. pose proof (moves_stays _ _ Hmv) as Hs2. pose proof (collected_stays _ _ _ _ _ _ (collected_first _ _ _ _ _ Hm) Hs2) as Hc.
  apply wps_bind. eapply wp_weaken; [apply Hright; [apply Hc|by rewrite (stays_nesting _ _ Hs2)]|]. intros x p3 Hx. cbn beta in Hx. apply wps_bind.
  pose proof (collected_snoc _ _ _ _ _ _ _ Hc Hx) as Hc3. cbn in Hc3. rewrite !elem_of_cons, elem_of_nil in Hop.
  eapply wp_weaken; [eapply (AddOp_reader true base p0 p3); [by destruct Hop as [->|[->|[->|[->|[->|[]]]]]]|by destruct Hop as [->|[->|[->|[->|[->|[]]]]]]..]|].
  intros n p4 [Hn Hrd]. apply wps_ret. split; [split; [done|]|].
  - rewrite (proj2 (made_ok _ _ _ _ _ Hn)), <- HN. symmetry. apply (made_ok _ _ _ _ _ Hm).
  - rewrite Hrd. destruct Hx as ((_ & _ & ? & _) & _). pose proof (moves_left _ _ Hmv). lia.
Qed.

(** A loop that extends the last value. *)
Lemma extend_wp step base p0 p first :
  (forall left p, made true base p0 p left -> nesting_ p = N ->
    wp (step left) (fun o p' => match o with Some n => (made true base p0 p' n /\ nesting_ p' = N) /\ (left_ line (reader p') < left_ line (reader p))%nat | None => stays p p' end) p) ->
  made true base p0 p first -> nesting_ p = N -> wp (while_some step (fuel line) first) (fun r p' => made true base p0 p' r /\ nesting_ p' = N) p.
Proof.
  intros Hstep Hm HN. eapply (wp_while _ (fun p => left_ line (reader p)) (fun r p' => made true base p0 p' r /\ nesting_ p' = N));
    [|done|apply left_fuel_p].
  intros left q [Hq HNq]. eapply wp_weaken; [by apply Hstep|]. intros [n|] q' H; [done|]. split; [by eapply made_stays|by rewrite (stays_nesting _ _ H)].
Qed.

Lemma TermFrom_wp : continuation N true (TermFrom line limits Sum_).
Proof.
  intros base first p0 p Hm HN. eapply wp_weaken; [apply extend_wp; [|done|done]|by intros r p' []]. clear first p Hm HN. intros left p Hm HN. unfold TermStep.
  destruct (made_ok _ _ _ _ _ Hm) as [Hp _]. apply wps_bind. eapply wp_weaken; [by apply Peek_wp_p|]. intros t p1 [Hs Ha]. cbn zeta.
  assert (forall op, token_kind t <> tkParameter -> token_kind t <> tkEnd -> op ∈ [kAdd; kSubtract; kMultiply; kDivide; kModulo] ->
    wp (_ ← Take line; right ← Factor line limits Sum_; n ← AddOp limits op (column t) [left; right]; mret (Some n))
      (fun o p' => match o with Some n => (made true base p0 p' n /\ nesting_ p' = N) /\ (left_ line (reader p') < left_ line (reader p))%nat | None => stays p p' end) p1) as Hnext.
  { intros op Hk He Hop. apply wps_bind. eapply taken_p; [exact Hp|exact Hs|exact Ha|done|done|]. intros p2 Hmv.
    eapply wp_weaken; [by eapply binary_wp; [exact Hm|exact Hmv|done|apply Factor_wp|]|]. by intros [n|] p3. }
  destruct (token_kind t); try (by apply wps_ret); apply Hnext; try done; set_solver.
Qed.

Lemma SumFrom_wp : continuation N true (SumFrom line limits Sum_).
Proof.
  intros base first p0 p Hm HN. unfold SumFrom. apply wps_bind. eapply wp_weaken; [by apply TermFrom_wp|]. intros left0 p1 Hm1. cbn beta in Hm1.
  assert (nesting_ p1 = N) as HN1 by (rewrite (proj2 (made_ok _ _ _ _ _ Hm1)), <- HN; symmetry; apply (made_ok _ _ _ _ _ Hm)).
  eapply wp_weaken; [apply extend_wp; [|exact Hm1|exact HN1]|by intros r p' []]. clear first left0 p p1 Hm HN Hm1 HN1. intros left p Hm HN. unfold SumStep.
  destruct (made_ok _ _ _ _ _ Hm) as [Hp _]. apply wps_bind. eapply wp_weaken; [by apply Peek_wp_p|]. intros t p1 [Hs Ha]. cbn zeta.
  assert (production N true (Factor line limits Sum_ ≫= TermFrom line limits Sum_)) as Hright.
  { intros q Hq HNq. apply wps_bind. eapply wp_weaken; [by apply Factor_wp|]. intros f q1 Hf. apply TermFrom_wp; [done|]. by rewrite (proj2 (made_ok _ _ _ _ _ Hf)). }
  assert (forall op, token_kind t <> tkParameter -> token_kind t <> tkEnd -> op ∈ [kAdd; kSubtract; kMultiply; kDivide; kModulo] ->
    wp (_ ← Take line; factor ← Factor line limits Sum_; right ← TermFrom line limits Sum_ factor; n ← AddOp limits op (column t) [left; right]; mret (Some n))
      (fun o p' => match o with Some n => (made true base p0 p' n /\ nesting_ p' = N) /\ (left_ line (reader p') < left_ line (reader p))%nat | None => stays p p' end) p1) as Hnext.
  { intros op Hk He Hop. apply wps_bind. eapply taken_p; [exact Hp|exact Hs|exact Ha|done|done|]. intros p2 Hmv. apply wp_assoc.
    eapply wp_weaken; [by eapply binary_wp; [exact Hm|exact Hmv|done|exact Hright|]|]. by intros [n|] p3. }
  destruct (token_kind t); try (by apply wps_ret); apply Hnext; try done; set_solver.
Qed.

Lemma SumBody_wp : production N true (SumBody line limits Sum_).
Proof.
  intros p Hp HN. unfold SumBody. apply wps_bind. eapply wp_weaken; [by apply Factor_wp|]. intros f p1 Hf. apply SumFrom_wp; [done|].
  by rewrite (proj2 (made_ok _ _ _ _ _ Hf)).
Qed.

End Values.


(** Enough levels for the parentheses that may open. *)
Lemma Sum_wp levels : forall N, max_depth limits <= N + Z.of_nat levels -> production N true (Sum line limits levels).
Proof.
  induction levels as [|l IH]; intros N HN; cbn [Sum]; apply SumBody_wp; intros Hlt; [lia|]. apply IH. lia.
Qed.

Lemma ListItem_wp N : production N true (ListItem line limits).
Proof.
  intros p Hp HN. unfold ListItem. apply wps_bind. eapply wp_weaken; [by apply Peek_wp_p|]. intros t p1 [Hs Ha]. assert (parser_ok p1) as Hp1 by (by eapply stays_ok).
  eapply wp_weaken; [|intros r p' Hr; eapply made_after; [done|exact Hs|exact Hr]].
  assert (wp (literal ← Literal_ line limits (column t); match literal with Some n => mret n | None => fail (column t) ("expected a value or a parameter, got " +:+ Quote t) end)
    (fun r p' => made true (length (current_ p1)) p1 p' r) p1) as Hlit.
  { apply wps_bind. eapply wp_weaken; [by apply Literal_wp|]. by intros [n|] p2 H. }
  destruct (token_kind t) eqn:Hk; try exact Hlit; [by eapply ParameterNode_wp|].
  apply wps_bind. eapply taken_p; [done|by apply stays_refl|exact Ha|by rewrite Hk..|]. intros p2 Hm. pose proof (moves_stays _ _ Hm) as Hs2.
  apply wps_bind. eapply wp_weaken; [apply Number_wp; by eapply stays_ok|]. intros [n|] p3 H; [by apply wps_ret; eapply made_after|].
  apply unexpected_wp_p. eapply stays_ok; [by eapply stays_ok|apply H].
Qed.

Section Conditions.
Context (N : Z) (SumHere : ST Parser nat) (SumOf : nat -> ST Parser nat) (Or_ : ST Parser nat).
Context (Hsum : production N true SumHere) (Hof : continuation N true SumOf) (Hor : N < max_depth limits -> production (N + 1) false Or_).

(** Collects one more value. *)
Lemma collect_value base p0 p xs Q : collected true base p0 p xs -> nesting_ p = N ->
  (forall x p', collected true base p0 p' (xs ++ [x]) -> nesting_ p' = N -> Q x p') -> wp SumHere Q p.
Proof.
  intros Hc HN HQ. eapply wp_weaken; [apply Hsum; [apply Hc|done]|]. intros x p' Hx. cbn beta in Hx. apply HQ; [by eapply collected_snoc|].
  by rewrite (proj2 (made_ok _ _ _ _ _ Hx)).
Qed.

Lemma comparison_op t o : Comparison t = Some o -> (token_kind t <> tkParameter /\ token_kind t <> tkEnd) /\ is_logic o = false /\ OperandCount o 2 = 2%nat /\ o <> kParameter.
Proof. unfold Comparison. destruct (token_kind t) eqn:Hk; intros [= <-]; done. Qed.

Lemma PredicateAfter_wp : continuation N false (PredicateAfter line limits SumHere).
Proof.
  intros base value p0 p Hm HN. destruct (made_ok _ _ _ _ _ Hm) as [Hp _]. unfold PredicateAfter. apply wps_bind. eapply wp_weaken; [by apply Peek_wp_p|]. intros t p1 [Hs Ha].
  pose proof (collected_first _ _ _ _ _ Hm) as Hc.
  destruct (Comparison t) as [o|] eqn:Eo.
  { destruct (comparison_op t o Eo) as ([Hk He] & Hlo & Hco & Hpa). apply wps_bind. eapply taken_p; [exact Hp|exact Hs|exact Ha|done|done|]. intros p2 Hmv.
    apply wps_bind. pose proof (moves_stays _ _ Hmv) as Hs2. eapply collect_value; [by eapply collected_stays|by rewrite (stays_nesting _ _ Hs2)|]. intros x p3 Hc3 _.
    apply AddOp_wp; [by rewrite Hlo|done|done|done]. }
  destruct (IsWord t (str "is")) eqn:Ei.
  { apply word_kind in Ei. apply wps_bind. eapply taken_p; [exact Hp|exact Hs|exact Ha|by rewrite Ei..|]. intros p2 Hmv. pose proof (moves_stays _ _ Hmv) as Hs2.
    apply wps_bind. eapply wp_weaken; [apply AcceptWord_wp_p; by eapply stays_ok|]. intros b p3 Hb. assert (stays p p3) as Hs3.
    { eapply stays_trans; [exact Hs2|]. destruct b; [by apply moves_stays|done]. }
    apply wps_bind. eapply wp_weaken; [apply ExpectWord_wp_p; by eapply stays_ok|]. intros u p4 Hm4. cbn beta in Hm4. assert (stays p p4) as Hs4.
    { eapply stays_trans; [exact Hs3|by apply moves_stays]. }
    pose proof (collected_stays _ _ _ _ _ _ Hc Hs4) as Hc4. apply AddOp_wp; by destruct b. }
  apply wps_bind. eapply (wp_weaken _ _ (fun _ p' => stays p p')).
  { destruct (IsWord t (str "not")) eqn:En; [|by apply wps_ret]. apply word_kind in En. apply wps_bind. eapply taken_p; [exact Hp|exact Hs|exact Ha|by rewrite En..|].
    intros p2 Hmv. pose proof (moves_stays _ _ Hmv) as Hs2. apply wps_bind. eapply wp_weaken; [apply Peek_wp_p; by eapply stays_ok|]. intros u p3 [Hs3 _].
    destruct (_ && _); [done|]. apply wps_ret. by eapply stays_trans. }
  intros negated p2 Hs2. cbn beta in Hs2. apply wps_bind. eapply wp_weaken; [apply AcceptWord_wp_p; by eapply stays_ok|]. intros [] p3 H3.
  { assert (stays p p3) as Hs3 by (eapply stays_trans; [exact Hs2|by apply moves_stays]).
    apply wps_bind. eapply wp_weaken; [apply ExpectToken_wp_p; [by eapply stays_ok|done|done]|]. intros u p4 H4. cbn beta in H4.
    assert (stays p p4) as Hs4 by (eapply stays_trans; [exact Hs3|by apply moves_stays]).
    apply wps_bind. eapply wp_weaken; [eapply (Items_wp N); [apply (ListItem_wp N)|by rewrite (stays_nesting _ _ Hs4)|eapply collected_stays; [exact Hc|exact Hs4]]|].
    intros xs p5 (Hc5 & _ & Hl). apply wps_bind. eapply wp_weaken; [apply ExpectToken_wp_p; [apply Hc5|done|done]|]. intros u2 p6 H6. cbn beta in H6.
    pose proof (collected_stays _ _ _ _ _ _ Hc5 (moves_stays _ _ H6)) as Hc6. cbn in Hl.
    apply AddOp_wp; destruct negated; try done; (destruct xs as [|a [|b xs]]; [cbn in Hl; lia..|done]). }
  apply wps_bind. eapply wp_weaken; [apply AcceptWord_wp_p; eapply stays_ok; [by eapply stays_ok|exact H3]|]. intros [] p4 H4.
  { assert (stays p p4) as Hs4 by (eapply stays_trans; [exact Hs2|]; eapply stays_trans; [exact H3|by apply moves_stays]).
    apply wps_bind. eapply collect_value; [eapply collected_stays; [exact Hc|exact Hs4]|by rewrite (stays_nesting _ _ Hs4)|]. intros low p5 Hc5 HN5.
    apply wps_bind. eapply wp_weaken; [apply ExpectWord_wp_p, Hc5|]. intros u p6 H6. cbn beta in H6. pose proof (moves_stays _ _ H6) as Hs6.
    apply wps_bind. eapply collect_value; [eapply collected_stays; [exact Hc5|exact Hs6]|by rewrite (stays_nesting _ _ Hs6)|]. intros high p7 Hc7 _.
    apply AddOp_wp; by destruct negated. }
  apply wps_ret. apply made_any. eapply made_stays; [exact Hm|]. eapply stays_trans; [exact Hs2|]. by eapply stays_trans.
Qed.

Lemma Predicate_wp : production N false (Predicate line limits SumHere SumOf Or_).
Proof.
  intros p Hp HN. unfold Predicate. apply wps_bind. eapply wp_weaken; [by apply Peek_wp_p|]. intros t p1 [Hs Ha]. assert (parser_ok p1) as Hp1 by (by eapply stays_ok).
  assert (nesting_ p1 = N) as HN1 by (by rewrite (stays_nesting _ _ Hs)). eapply wp_weaken; [|intros r p' Hr; eapply made_after; [done|exact Hs|exact Hr]]. clear p Hp HN Hs.
  assert (forall base p0 p v, made true base p0 p v -> nesting_ p = N -> wp (PredicateAfter line limits SumHere v) (fun r p' => made false base p0 p' r) p) as Hafter.
  { intros. by eapply PredicateAfter_wp. }
  case_bool_decide as Hk.
  { apply wps_bind. eapply taken_p; [done|by apply stays_refl|exact Ha|by rewrite Hk..|]. intros p2 Hm. pose proof (moves_stays _ _ Hm) as Hs2. apply wps_bind.
    eapply wp_weaken; [apply (Nested_wp N false); [|by eapply stays_ok|by rewrite (stays_nesting _ _ Hs2)]|].
    - intros Hlt q Hq HNq. apply wps_bind. eapply wp_weaken; [by apply Hor|]. intros x q1 Hx. cbn beta in Hx. apply wps_bind.
      eapply wp_weaken; [apply ExpectToken_wp_p; [by destruct (made_ok _ _ _ _ _ Hx)|done|done]|]. intros u q2 Hm2. apply wps_ret. eapply made_stays; [exact Hx|by apply moves_stays].
    - intros inner p3 Hi. cbn beta in Hi. apply (made_after _ p1) in Hi; [|done|done]. apply wps_bind, wp_gets.
      destruct (lookup_lt_is_Some_2 (current_ p3) inner) as [n Hn]; [destruct Hi as (_ & ? & _); lia|]. rewrite Hn.
      destruct (IsValue (node_op n)) eqn:Ev; cbn [negb]; [|by apply wps_ret]. destruct (made_ok _ _ _ _ _ Hi) as [_ HN3]. rewrite HN1 in HN3.
      assert (made true (length (current_ p1)) p1 p3 inner) as Hi' by (destruct Hi as (G1 & G2 & G3 & _); repeat (split; [done|]); intros _; by exists n).
      apply wps_bind. eapply wp_weaken; [by apply Hof|]. intros v p4 Hv. cbn beta in Hv. apply Hafter; [done|]. by rewrite (proj2 (made_ok _ _ _ _ _ Hv)). }
  destruct (IsWord t (str "exists")) eqn:Ee.
  { apply word_kind in Ee. apply wps_bind. eapply taken_p; [done|by apply stays_refl|exact Ha|by rewrite Ee..|]. intros p2 Hm. unfold AddOp. apply leaf_made; [done|by apply moves_stays|done..]. }
  apply wps_bind. eapply wp_weaken; [by apply Hsum|]. intros v p2 Hv. cbn beta in Hv. apply Hafter; [done|]. by rewrite (proj2 (made_ok _ _ _ _ _ Hv)).
Qed.

Lemma NotExpression_wp : production N false (NotExpression line limits SumHere SumOf Or_).
Proof.
  intros p Hp HN. unfold NotExpression. apply wps_bind. eapply wp_weaken; [apply Prefixes_wp; [done|]|].
  { intros t Ht%word_kind. by rewrite Ht. }
  intros nots p1 Hs. cbn beta in Hs. apply wps_bind. eapply wp_weaken; [apply Predicate_wp; [by eapply stays_ok|by rewrite (stays_nesting _ _ Hs)]|].
  intros x p2 Hx. cbn beta in Hx. apply Wrap_wp; [done..|]. by eapply made_after.
Qed.

Lemma Joined_wp op word item : production N false item -> op = kAnd \/ op = kOr -> production N false (Joined line limits op word item).
Proof.
  intros Hitem Hop p Hp HN. unfold Joined. apply wps_bind. eapply wp_weaken; [by apply Hitem|]. intros x p1 Hx. cbn beta in Hx. destruct (made_ok _ _ _ _ _ Hx) as [Hp1 HN1].
  apply wps_bind. eapply wp_weaken; [by apply Peek_wp_p|]. intros t p2 [Hs Ha]. destruct (IsWord t (str word)) eqn:Ew; cbn [negb]; [|apply wps_ret; by eapply made_stays].
  pose proof (collected_stays _ _ _ _ _ _ (collected_first _ _ _ _ _ Hx) Hs) as Hc.
  apply wps_bind. eapply (wp_weaken _ _ (fun ys p' => collected false (length (current_ p)) p p' ys /\ (2 <= length ys)%nat)).
  - assert (fuel line = S (2 * length line)) as -> by (unfold fuel; lia). cbn [while_some]. apply wps_bind, wps_bind.
    eapply wp_weaken; [eapply AcceptWord_true; [apply Hc|exact Ha|done]|]. intros b p3 [-> Hm]. pose proof (moves_stays _ _ Hm) as Hs3. pose proof (collected_stays _ _ _ _ _ _ Hc Hs3) as Hc3.
    assert (nesting_ p3 = N) as HN3 by (rewrite (stays_nesting _ _ Hs3), (stays_nesting _ _ Hs); congruence).
    apply wps_bind. eapply wp_weaken; [apply Hitem; [apply Hc3|done]|]. intros y p4 Hy. cbn beta in Hy. apply wps_ret.
    eapply wp_weaken; [eapply (collect_wp N false item); [done|intros q Hq; by apply AcceptWord_wp_p|by rewrite (proj2 (made_ok _ _ _ _ _ Hy))| |by eapply collected_snoc]|].
    + pose proof (moves_left _ _ Hm). pose proof (left_fuel_p p2). unfold fuel in *. destruct Hy as ((_ & _ & ? & _) & _). lia.
    + intros ys p5 (Hc5 & _ & Hl). by split.
  - intros ys p3 [Hc3 Hl]. apply AddOp_wp; destruct Hop as [-> | ->]; try done; (destruct ys as [|a [|b ys]]; [cbn in Hl; lia..|done]).
Qed.

Lemma OrBody_wp : production N false (OrBody line limits SumHere SumOf Or_).
Proof. unfold OrBody, And. apply Joined_wp; [apply Joined_wp; [apply NotExpression_wp|by left]|by right]. Qed.

End Conditions.


Lemma Or_wp levels : forall N, max_depth limits <= N + Z.of_nat levels -> production N false (Or line limits levels).
Proof.
  induction levels as [|l IH]; intros N HN; cbn [Or]; apply OrBody_wp; try (by apply Sum_wp); try (intros Hlt; lia).
  - apply SumFrom_wp. lia.
  - apply SumFrom_wp. intros Hlt. apply Sum_wp. lia.
  - intros Hlt. apply IH. lia.
Qed.

(** An expression as the language gives it. *)
Record well_built (e : Expression) : Prop := {
  wb_nodes : exists ds, nodes_ok (nodes e) ds;
  wb_last : length (nodes e) = S (expression_root e)
}.

Lemma begin_ok p : parser_ok p -> parser_ok (MkParser (reader p) [] [] (nesting_ p)).
Proof. intros [Hr _]. split; [done|]. split; cbn; try done; [constructor|lia]. Qed.

Definition at_top (p : Parser) : Prop := parser_ok p /\ nesting_ p = 0.

(** The parameters of an expression are used where it is read. *)
Definition parsed_from (p : Parser) (us : list Z) (p' : Parser) : Prop :=
  at_top p' /\ (left_ line (reader p') <= left_ line (reader p))%nat /\ elements (parameters_ (reader p')) ≡ₚ us ++ elements (parameters_ (reader p)).

Lemma expression_wp value m p : production 0 value m -> at_top p ->
  wp (_ ← Begin; root ← m; Finish root)
    (fun e p' => well_built e /\ (value = true -> value_at (nodes e) (expression_root e)) /\ parsed_from p (nodes_parameters (nodes e)) p') p.
Proof.
  intros Hm [Hp HN]. apply wps_bind, wp_update, wps_bind. eapply wp_weaken; [apply Hm; [by apply begin_ok|done]|].
  intros r p' ((Hp' & HN' & Hl & new & E & _ & U) & Hr & _ & Hv). cbn in *. subst new. unfold Finish. apply wps_bind, wp_gets, wps_ret. cbn.
  split; [split; [exists (depths_ p'); apply (po_nodes _ Hp')|done]|]. split; [done|]. split; [split; [done|congruence]|]. done.
Qed.

Lemma ConditionExpression_wp p : at_top p ->
  wp (ConditionExpression line limits) (fun e p' => well_built e /\ parsed_from p (nodes_parameters (nodes e)) p') p.
Proof.
  intros Hp. eapply wp_weaken; [apply (expression_wp false (Or line limits (levels limits))); [|done]|].
  - apply Or_wp. unfold levels. lia.
  - intros e p' (H1 & _ & H2). done.
Qed.

Lemma parsed_trans p1 p2 p3 us vs : parsed_from p1 us p2 -> parsed_from p2 vs p3 -> parsed_from p1 (us ++ vs) p3.
Proof.
  intros (_ & L1 & U1) (T & L2 & U2). split; [done|]. split; [lia|]. rewrite U2, U1, !app_assoc. by rewrite (Permutation_app_comm vs us).
Qed.

Lemma stays_parsed p p' : at_top p -> stays p p' -> parsed_from p [] p'.
Proof.
  intros [Hp HN] Hs. split; [split; [by eapply stays_ok|by rewrite (stays_nesting _ _ Hs)]|]. split; [by apply stays_left|]. destruct Hs as (r & -> & _ & _ & Hu). cbn. by rewrite Hu.
Qed.

Definition assignment_ok (a : AssignmentExpression) : Prop :=
  well_built (assigned_value a) /\ value_at (nodes (assigned_value a)) (expression_root (assigned_value a)).

Lemma Assignment_wp p : at_top p ->
  wp (Assignment line limits) (fun a p' => assignment_ok a /\ parsed_from p (nodes_parameters (nodes (assigned_value a))) p') p.
Proof.
  intros [Hp HN]. unfold Assignment. apply wps_bind. eapply wp_weaken; [by apply Peek_wp_p|]. intros t p1 [Hs Ha].
  apply wps_bind. eapply wp_weaken; [apply ColumnName_wp; by eapply stays_ok|]. intros n p2 Hm2. cbn beta in Hm2. pose proof (stays_trans _ _ _ Hs (moves_stays _ _ Hm2)) as Hs2.
  apply wps_bind. eapply wp_weaken; [apply ExpectToken_wp_p; [by eapply stays_ok|done|done]|]. intros u p3 Hm3. cbn beta in Hm3. pose proof (stays_trans _ _ _ Hs2 (moves_stays _ _ Hm3)) as Hs3.
  pose proof (stays_parsed p p3 (conj Hp HN) Hs3) as Hpf.
  assert (wp (_ ← Begin; root ← Sum line limits (levels limits); Finish root)
    (fun e p' => well_built e /\ (true = true -> value_at (nodes e) (expression_root e)) /\ parsed_from p3 (nodes_parameters (nodes e)) p') p3) as He.
  { apply expression_wp; [apply Sum_wp; unfold levels; lia|apply Hpf]. }
  apply wps_bind, wp_update. unfold StateError.wp, mbind, ST_bind, Begin, update in He. apply wps_bind. unfold StateError.wp in *.
  destruct (Sum line limits (levels limits) _) as [[root p4]|]; [|done]. cbn in *. destruct He as (H1 & H2 & H3).
  split; [by split; [|apply H2]|]. exact (parsed_trans _ _ _ [] _ Hpf H3).
Qed.

Lemma AssignmentList_wp p : at_top p ->
  wp (AssignmentList line limits) (fun l p' => Forall assignment_ok l /\ l <> [] /\ parsed_from p (flat_map (fun a => nodes_parameters (nodes (assigned_value a))) l) p') p.
Proof.
  intros Hp. unfold AssignmentList. apply wps_bind. eapply wp_weaken; [by apply Assignment_wp|]. intros a p1 [Ha Hpf].
  set (f := fun a : AssignmentExpression => nodes_parameters (nodes (assigned_value a))).
  eapply (wp_while _ (fun p => left_ line (reader p)) (fun l p' => Forall assignment_ok l /\ l <> [] /\ parsed_from p (flat_map f l) p')); [| |apply left_fuel_p].
  - intros l q (Hl & Hne & Hq). apply wps_bind. eapply wp_weaken; [apply AcceptToken_wp_p; [apply Hq|done|done]|]. intros [] q1 H1.
    + pose proof (moves_left _ _ H1). pose proof (stays_parsed q q1 (proj1 Hq) (moves_stays _ _ H1)) as Hq1. apply wps_bind. eapply wp_weaken; [apply Assignment_wp, Hq1|].
      intros b q2 [Hb Hq2]. apply wps_ret. split; [|destruct Hq2 as (_ & ? & _); lia]. split; [by apply Forall_app; split; [|constructor]|]. split; [by destruct l|].
      rewrite flat_map_app. cbn [flat_map]. rewrite app_nil_r. rewrite <- (app_nil_r (flat_map f l)). eapply parsed_trans; [|exact Hq2]. by eapply parsed_trans.
    + apply wps_ret. split; [done|]. split; [done|]. rewrite <- (app_nil_r (flat_map f l)). eapply parsed_trans; [exact Hq|]. by apply stays_parsed; [apply Hq|].
  - cbn. rewrite app_nil_r. split; [by constructor|done].
Qed.


End Building.


(** ** What is parsed passes the planner's checks *)

Lemma check_operands ns depths i node os : forall used d d' seen, length used = length ns -> (forall o, used !! o = Some true -> o ∈ seen) ->
  (forall o, o ∈ os -> (o < i)%nat /\ o ∉ seen /\ forall m, ns !! o = Some m -> is_logic (node_op node) = false -> IsValue (node_op m) = true) ->
  NoDup os -> (i <= length ns)%nat -> fold_res (OperandDepth depths) d os = Ok d' ->
  exists used', fold_res (CheckOperand ns depths i node) (used, d) os = Ok (used', d') /\ length used' = length ns /\ (forall o, used' !! o = Some true -> o ∈ seen ++ os).
Proof.
  induction os as [|o os IH]; intros used d d' seen Hl Hseen Hos Hnd Hi Hd; cbn [fold_res] in *.
  { res_inv. subst. exists used. rewrite app_nil_r. done. }
  res_inv. unfold OperandDepth in Hs. destruct (depths !! o) as [e|] eqn:Ee; [|done]. injection Hs as <-. apply NoDup_cons in Hnd as [Hno Hnd].
  destruct (Hos o) as (Ho & Hns & Hv); [by left|]. destruct (lookup_lt_is_Some_2 ns o ltac:(lia)) as [m Hm].
  destruct (lookup_lt_is_Some_2 used o ltac:(lia)) as [b Hb]. assert (b = false) as -> by (destruct b; [by apply Hseen in Hb|done]).
  destruct (IH (<[o := true]> used) (Z.max d (e + 1)) d' (o :: seen)) as (used' & Hf & Hl' & Hu'); [by rewrite length_insert| | |done|done|done|].
  - intros x Hx. destruct (decide (o = x)) as [->|Hne]; [by left|]. right. apply Hseen. by rewrite list_lookup_insert_ne in Hx.
  - intros x Hx. destruct (Hos x) as (H1 & H2 & H3); [by right|]. split; [done|]. split; [|done]. intros [->|?]%elem_of_cons; done.
  - exists used'. split; [|split; [done|]].
    + assert (CheckOperand ns depths i node (used, d) o = Ok (<[o:=true]> used, Z.max d (e + 1))) as ->; [|exact Hf]. unfold CheckOperand.
      rewrite (proj2 (Nat.leb_gt _ _) Ho), Hm, Hb, Ee. destruct (is_logic (node_op node)) eqn:El; cbn [negb andb]; [done|]. by rewrite (Hv m Hm eq_refl).
    + intros x Hx%Hu'. set_solver.
Qed.

Lemma check_nodes limits ns ds : nodes_ok limits ns ds -> forall post pre used, ns = pre ++ post -> length used = length ns ->
  (forall o, used !! o = Some true -> o ∈ concat (map node_operands pre)) ->
  exists used', fold_res (CheckNode ns limits) (used, take (length pre) ds) post = Ok (used', ds).
Proof.
  intros Hok. induction post as [|n post IH]; intros pre used E Hl Hused; cbn [fold_res].
  { exists used. rewrite take_ge; [done|]. rewrite (no_length _ _ _ Hok), E, app_nil_r. done. }
  assert (ns !! length pre = Some n) as Hn by (rewrite E; by apply list_lookup_middle). pose proof (no_good _ _ _ Hok _ _ Hn) as Hg.
  destruct (no_depth _ _ _ Hok _ _ Hn) as (d & Hd & Hfold & Hmax). pose proof (lookup_lt_Some _ _ _ Hn) as Hlt.
  assert (length (take (length pre) ds) = length pre) as Ltake by (rewrite length_take, (no_length _ _ _ Hok); lia).
  assert (fold_res (OperandDepth (take (length pre) ds)) 1 (node_operands n) = Ok d) as Hfold'.
  { pose proof (ng_before _ _ _ Hg) as Hb. clear - Hfold Hb. revert Hfold. generalize 1. induction (node_operands n) as [|o os IH]; intros a Ha; [done|]. cbn [fold_res] in *.
    unfold OperandDepth at 2. unfold OperandDepth at 2 in Ha. rewrite lookup_take_lt by (apply Hb; by left).
    destruct (ds !! o); [|done]. cbn in *. apply IH; [|done]. intros x Hx. apply Hb. by right. }
  pose proof (no_once _ _ _ Hok) as Hnd. rewrite E, map_app, concat_app in Hnd. cbn in Hnd. apply NoDup_app in Hnd as (_ & Hdis & Hnd). apply NoDup_app in Hnd as (Hnd & _ & _).
  destruct (check_operands ns (take (length pre) ds) (length pre) n (node_operands n) used 1 d (concat (map node_operands pre))) as (used' & Hf & Hl' & Hu'); try done; [| lia|].
  { intros o Ho. split; [by apply (ng_before _ _ _ Hg)|]. split; [|intros m; by apply (ng_value _ _ _ Hg)]. intros Hin. eapply Hdis; [exact Hin|]. apply elem_of_app. by left. }
  destruct (IH (pre ++ [n]) used') as (used2 & H2); [by rewrite <- app_assoc|done| |].
  { intros o Ho%Hu'. by rewrite map_app, concat_app; cbn; rewrite app_nil_r. }
  exists used2. assert (CheckNode ns limits (used, take (length pre) ds) n = Ok (used', take (length (pre ++ [n])) ds)) as ->; [|exact H2].
  unfold CheckNode. rewrite (bool_decide_true (length (node_operands n) = _)) by apply (ng_count _ _ _ Hg). rewrite (ng_parameter _ _ _ Hg), eqb_reflx. cbn [negb]. rewrite !bind_Ok_l, Ltake, Hf, bind_Ok_l.
  rewrite throw_if_false by lia. rewrite bind_Ok_l, length_app. cbn [length]. rewrite Nat.add_1_r. by rewrite (take_S_r _ _ _ Hd).
Qed.

Lemma well_built_checked limits e : well_built limits e -> CheckExpression e limits = Ok tt /\ literals_ok e.
Proof.
  intros [[ds Hok] Hlast]. split.
  - unfold CheckExpression. rewrite bool_decide_false by (intros E; by rewrite E in Hlast). rewrite (proj2 (Nat.leb_gt _ _)) by lia. cbn [orb]. rewrite bind_Ok_l.
    pose proof (no_limit _ _ _ Hok). pass_guard by lia. destruct (check_nodes limits (nodes e) ds Hok (nodes e) [] (replicate (length (nodes e)) false)) as [used Hf]; [done|by rewrite length_replicate| |change (take (length []) ds) with ([] : list Z) in Hf; by rewrite Hf].
    intros o [? _]%lookup_replicate. done.
  - apply Forall_forall. intros n [i Hi]%list_elem_of_lookup. apply (ng_literal _ _ _ (no_good _ _ _ Hok i n Hi)).
Qed.

(** ** The theorems *)

Definition line_ok (line : bytes) : Prop := bytes_ok line /\ len line < 2 ^ 32.

Lemma new_ok line limits (used : gset Z) position : (position <= length line)%nat -> (forall i, i ∈ used -> 1 <= i <= kMaxParameters) ->
  at_top line limits (Z.of_nat (base.size used) + CountLoop 0 (drop position line)) (new_parser position used).
Proof.
  intros Hpos Hu. split; [|done]. split; [|by split; cbn; try done; [constructor|lia]]. split; cbn [at_ ahead parameters_ reader new_parser]; [done|done| |done].
  unfold ahead_count. cbn. lia.
Qed.

(** The end of the text and the count of the parameters. *)
Lemma finish_wp {A} line limits total (make : Z -> A) us p0 p : bytes_ok line -> parsed_from line limits total p0 us p -> parameters_ (reader p0) = ∅ ->
  StateError.wp parse_failure (_ ← ExpectEnd line; r ← gets reader; n ← pure_ (ParameterCount (parameters_ r)); mret (make n)) (fun x _ => x = make total /\ us ≡ₚ seqZ 1 total) p.
Proof.
  intros Hb ([Hp HN] & _ & Hu) He. rewrite He, elements_empty, app_nil_r in Hu. apply wps_bind. unfold ExpectEnd. apply wps_bind.
  eapply wp_weaken; [by apply (Peek_wp_p line Hb limits total)|]. intros t p1 [Hs Ha]. pose proof (stays_ok _ _ _ _ _ Hp Hs) as Hp1.
  case_bool_decide as Hk; cbn [negb]; [|by eapply (unexpected_wp_p line Hb)]. apply wps_ret, wps_bind, wp_gets, wps_bind, wp_pure.
  destruct Hs as (r & -> & Hr & _ & Hpar). cbn [reader] in *. pose proof (ParameterCount_ok (parameters_ r) (ro_used _ _ _ _ Hr)) as Hc.
  destruct (ParameterCount (parameters_ r)) as [n|]; [|done]. destruct Hc as [Hn Hperm]. apply wps_ret.
  assert (n = total) as ->; [|split; [done|by rewrite <- Hperm, Hpar, Hu]]. rewrite Hn, <- (ro_count _ _ _ _ Hr). destruct (ro_ahead _ _ _ _ Hr t Ha) as (_ & _ & Hend).
  unfold ahead_count, is_parameter_token. rewrite Ha, drop_ge, bool_decide_false by ((by rewrite Hk) || by apply Hend). cbn [CountLoop]. lia.
Qed.

Section Parsed.
Context (text : bytes) (limits : Limits) (Htext : line_ok text).

Lemma ParseCondition_spec :
  match ParseCondition text limits with
  | Ok c => well_built limits (condition_expression c) /\ condition_parameters c = CountParameterTokens text /\
      nodes_parameters (nodes (condition_expression c)) ≡ₚ seqZ 1 (condition_parameters c)
  | Err e => parse_failure e
  end.
Proof.
  destruct Htext as [Hb Hl]. pose proof (new_ok text limits ∅ 0 ltac:(lia) ltac:(set_solver)) as Hnew. rewrite size_empty, drop_0, Z.add_0_l in Hnew.
  unfold ParseCondition, run. set (m := e ← ConditionExpression text limits; _). set (total := CountLoop 0 text) in *.
  assert (StateError.wp parse_failure m (fun c _ => well_built limits (condition_expression c) /\ condition_parameters c = total /\
    nodes_parameters (nodes (condition_expression c)) ≡ₚ seqZ 1 (condition_parameters c)) (new_parser 0 ∅)) as H; [|unfold StateError.wp in H; by destruct (m (new_parser 0 ∅)) as [[]|]].
  subst m. apply wps_bind. eapply wp_weaken; [by apply (ConditionExpression_wp text Hb Hl limits total)|]. intros e p [He Hpf].
  eapply wp_weaken; [by eapply (finish_wp text limits total (fun n => {| condition_expression := e; condition_parameters := n |}))|].
  intros c p' [-> Hperm]. done.
Qed.

Lemma ParseAssignments_spec :
  match ParseAssignments text limits with
  | Ok a => Forall (assignment_ok limits) (assignment_values a) /\ assignment_parameters a = CountParameterTokens text /\
      flat_map (fun v => nodes_parameters (nodes (assigned_value v))) (assignment_values a) ≡ₚ seqZ 1 (assignment_parameters a)
  | Err e => parse_failure e
  end.
Proof.
  destruct Htext as [Hb Hl]. pose proof (new_ok text limits ∅ 0 ltac:(lia) ltac:(set_solver)) as Hnew. rewrite size_empty, drop_0, Z.add_0_l in Hnew.
  unfold ParseAssignments, run. set (m := l ← AssignmentList text limits; _). set (total := CountLoop 0 text) in *.
  assert (StateError.wp parse_failure m (fun a _ => Forall (assignment_ok limits) (assignment_values a) /\ assignment_parameters a = total /\
    flat_map (fun v => nodes_parameters (nodes (assigned_value v))) (assignment_values a) ≡ₚ seqZ 1 (assignment_parameters a)) (new_parser 0 ∅)) as H;
    [|unfold StateError.wp in H; by destruct (m (new_parser 0 ∅)) as [[]|]].
  subst m. apply wps_bind. eapply wp_weaken; [by apply (AssignmentList_wp text Hb Hl limits total)|]. intros l p (Hl1 & Hl2 & Hpf).
  eapply wp_weaken; [by eapply (finish_wp text limits total (fun n => {| assignment_values := l; assignment_parameters := n |}))|].
  intros c p' [-> Hperm]. done.
Qed.

End Parsed.

(** C24: parsing a condition ends with a condition or a ParseError, never anything
    else: each loop takes a token and the parentheses nest to max_depth.  What it gives
    passes the planner's checks of an expression (the number and order of operands,
    each node an operand once, the limits on nodes and depth), and its parameters are
    $1 to $n, each once, where n is also what CountParameterTokens counts. *)
Theorem condition_parses text limits : line_ok text ->
  match ParseCondition text limits with
  | Ok c => CheckExpression (condition_expression c) limits = Ok tt /\ length (nodes (condition_expression c)) = S (expression_root (condition_expression c)) /\
      condition_parameters c = CountParameterTokens text /\ nodes_parameters (nodes (condition_expression c)) ≡ₚ seqZ 1 (condition_parameters c)
  | Err e => parse_failure e
  end.
Proof.
  intros Ht. pose proof (ParseCondition_spec text limits Ht) as H. destruct (ParseCondition text limits) as [c|]; [|done]. destruct H as (Hw & Hc & Hp).
  split; [by apply well_built_checked|]. split; [apply (wb_last _ _ Hw)|done].
Qed.

(** C15: the text of a condition, parsed and planned against a table, evaluates on
    every block to true, false or a documented error, whatever the text: no type error,
    no index out of range and no loop without end is left for evaluation. *)
Theorem condition_evaluates {U : FloatUnit} text limits schema c p inputs : line_ok text ->
  ParseCondition text limits = Ok c -> PlanCondition schema (condition_expression c) limits = Ok p -> inputs_ok schema inputs ->
  good (fun _ => True) (EvaluateCondition p inputs).
Proof.
  intros Ht Hc Hp Hin. pose proof (ParseCondition_spec text limits Ht) as H. rewrite Hc in H. destruct H as (Hw & _ & _).
  eapply planned_condition; [exact Hp|apply (wb_last _ _ Hw)|by apply well_built_checked in Hw as []|done].
Qed.

(** C16: the text of assignments, parsed and planned against a table, names different
    columns of the table and evaluates on every block to a value for each of them, NULL only where the column takes
    it and otherwise one the column's type holds, or to a documented error. *)
Theorem assignments_evaluate {U : FloatUnit} text limits schema a p inputs : line_ok text ->
  ParseAssignments text limits = Ok a -> PlanAssignments schema (assignment_values a) limits = Ok p -> inputs_ok schema inputs ->
  map target_name (targets p) = map assigned_column (assignment_values a) /\ NoDup (map target_name (targets p)) /\
  Forall (fun t => BlockColumn schema (target_name t) = Some (target_column t)) (targets p) /\
  good (Forall2 (fun t v => column_ok (target_column t) v) (targets p)) (EvaluateAssignments p inputs).
Proof.
  intros Ht Ha Hp Hin. pose proof (ParseAssignments_spec text limits Ht) as H. rewrite Ha in H. destruct H as (Hw & _ & _).
  destruct (planned_assignments schema limits (assignment_values a) p inputs Hp) as (H1 & H2 & H3 & H4); [|done|rewrite H1; by auto].
  eapply Forall_impl; [exact Hw|]. intros v [Hv _]. by apply well_built_checked in Hv as [].
Qed.

(** ** A text and its results *)

Definition grows_text : bytes := str "a + $1 > a and not (a in (1, -2, $2))".

Lemma text_ok t : forallb (fun c => (0 <=? c) && (c <? 256)) t = true -> len t < 2 ^ 32 -> line_ok t.
Proof. intros H Hl. split; [|done]. rewrite forallb_forall in H. apply Forall_forall. intros c Hc%list_elem_of_In%H. unfold byte_ok. lia. Qed.

Lemma condition_parses_witness : exists c, ParseCondition grows_text default_limits = Ok c /\ condition_parameters c = 2 /\ CheckExpression (condition_expression c) default_limits = Ok tt.
Proof.
  eexists. split; [vm_compute; reflexivity|]. split; [reflexivity|].
  pose proof (condition_parses grows_text default_limits) as H. vm_compute (ParseCondition _ _) in H. apply H. apply text_ok; vm_compute; reflexivity.
Defined.

Lemma condition_evaluates_witness : exists c p, ParseCondition (str "a + $1 > a") default_limits = Ok c /\ PlanCondition one_column (condition_expression c) default_limits = Ok p /\
  @EvaluateCondition PlainUnit p block_255 = Ok true /\ good (fun _ => True) (@EvaluateCondition PlainUnit p block_255).
Proof.
  eexists. eexists. split; [vm_compute; reflexivity|]. split; [vm_compute; reflexivity|]. split; [vm_compute; reflexivity|].
  eapply (@condition_evaluates PlainUnit (str "a + $1 > a") default_limits one_column); [apply text_ok; vm_compute; reflexivity|vm_compute; reflexivity| |exact block_255_ok].
  vm_compute. reflexivity.
Defined.

Lemma assignments_evaluate_witness : exists a p, ParseAssignments (str "a = least(a, $1) + 1") default_limits = Ok a /\ PlanAssignments one_column (assignment_values a) default_limits = Ok p /\
  @EvaluateAssignments PlainUnit p block_255 = Ok [VUnsigned 2] /\ good (Forall2 (fun t v => column_ok (target_column t) v) (targets p)) (@EvaluateAssignments PlainUnit p block_255).
Proof.
  eexists. eexists. split; [vm_compute; reflexivity|]. split; [vm_compute; reflexivity|]. split; [vm_compute; reflexivity|].
  eapply (@assignments_evaluate PlainUnit (str "a = least(a, $1) + 1") default_limits one_column); [apply text_ok; vm_compute; reflexivity|vm_compute; reflexivity| |exact block_255_ok].
  vm_compute. reflexivity.
Defined.


End ExprParse.
