(* ===== verification/Schema.v ===== *)
(** * Table schemas and their history (src/src/schema.cpp)

    A table's columns, the rules they obey, the changes that make the next
    version (add, drop, rename, change of type), and the history from which
    the schema of every earlier version is restored by undoing steps.
    [history.back()] of an empty history is an access without defined
    behaviour; no validated schema reaches it. *)
From stdpp Require Import prelude strings gmap.
From Stdlib Require Import ZArith Lia.
From S2P Require Import Prelude Bits Utf8 Floats Columns.

#[local] Open Scope Z_scope.

Module Schema.
Import Columns.

Inductive ChangeKind := kAddColumn | kDropColumn | kRenameColumn | kChangeType.
#[global] Instance ChangeKind_eq_dec : EqDecision ChangeKind.
Proof. solve_decision. Defined.
Definition change_kind_code (k : ChangeKind) : Z :=
  match k with kAddColumn => 1 | kDropColumn => 2 | kRenameColumn => 3 | kChangeType => 4 end.

(** [Column{}]. *)
Definition no_column : Column :=
  {| id := 0; name := []; type := {| kind := kBits; size := 0 |}; nullable := false;
     required := false; has_default := false; default_value := [] |}.

Record SchemaChange := {
  change_kind : ChangeKind;
  position : Z;
  column : Column;
  old_name : bytes;
  previous_column : Column;
  conversion : Conversion
}.
#[global] Instance SchemaChange_eq_dec : EqDecision SchemaChange.
Proof. solve_decision. Defined.

Record SchemaStep := { step_version : Z; step_changes : list SchemaChange }.
#[global] Instance SchemaStep_eq_dec : EqDecision SchemaStep.
Proof. solve_decision. Defined.

Record PendingNarrowing := { pending_column_id : Z; pending_type : ColumnType }.
#[global] Instance PendingNarrowing_eq_dec : EqDecision PendingNarrowing.
Proof. solve_decision. Defined.

Record TableSchema := {
  version : Z;
  next_column_id : Z;
  columns : list Column;
  history : list SchemaStep;
  pending : option PendingNarrowing
}.
#[global] Instance TableSchema_eq_dec : EqDecision TableSchema.
Proof. solve_decision. Defined.

Definition SingleBitsColumnSchema (block_bits : Z) : TableSchema :=
  {| version := 1; next_column_id := 2;
     columns := [{| id := 1; name := str "bits"; type := {| kind := kBits; size := block_bits |};
                    nullable := false; required := false; has_default := false; default_value := [] |}];
     history := []; pending := None |}.

Definition fixed_bits (cs : list Column) : Z :=
  fold_left (fun total c => u64 (total + FixedWidthBits (type c))) cs 0.

Definition FixedBitsPerBlock (schema : TableSchema) : Z :=
  let total := fixed_bits (columns schema) in if 0xFFFFFFFF <? total then 0xFFFFFFFF else u32 total.

(** The loop of ValidateColumns, with the names and ids seen so far. *)
Fixpoint ValidateEach (next_id : Z) (names : list bytes) (ids : list Z) (cs : list Column) : res unit :=
  match cs with
  | [] => Ok tt
  | c :: cs' =>
      _ ← throw_if (negb (IsValidName (name c))) (invalid_argument "column name must be 1 to 63 characters");
      _ ← throw_if (bool_decide (name c ∈ names)) (invalid_argument "column appears twice");
      _ ← throw_if ((id c =? 0) || (next_id <=? id c) || bool_decide (id c ∈ ids))
            (invalid_argument "column has an invalid id");
      _ ← ValidateColumnType c;
      _ ← throw_if (nullable c && required c) (invalid_argument "column cannot be both NULL and REQUIRED");
      _ ← ValidateDefault c;
      ValidateEach next_id (name c :: names) (id c :: ids) cs'
  end.

Definition ValidateColumns (schema : TableSchema) : res unit :=
  _ ← throw_if (len (columns schema) =? 0) (invalid_argument "a table needs at least one column");
  _ ← throw_if (kMaxColumnsPerTable <? len (columns schema)) (invalid_argument "a table has at most 1024 columns");
  _ ← ValidateEach (next_column_id schema) [] [] (columns schema);
  throw_if (kMaxFixedBitsPerBlock <? fixed_bits (columns schema))
    (invalid_argument "the fixed-width columns of a block take too many bits").

Definition mismatch {A} : res A := Err (invalid_argument "schema history does not match its columns").

(** One change undone: the columns and the next id before it. *)
Definition UndoChange (st : list Column * Z) (change : SchemaChange) : res (list Column * Z) :=
  let '(cs, next_id) := st in
  let at_ := Z.to_nat (position change) in
  match change_kind change with
  | kAddColumn =>
      if bool_decide (cs !! at_ = Some (column change)) then Ok (erase cs at_ (at_ + 1), id (column change))
      else mismatch
  | kDropColumn =>
      if (length cs <? at_)%nat then mismatch else Ok (insert_at cs at_ [column change], next_id)
  | kRenameColumn =>
      if bool_decide (cs !! at_ = Some (column change)) then
        let c := column change in
        Ok (<[at_ := {| id := id c; name := old_name change; type := type c; nullable := nullable c;
                        required := required c; has_default := has_default c;
                        default_value := default_value c |}]> cs, next_id)
      else mismatch
  | kChangeType =>
      if bool_decide (cs !! at_ = Some (column change)) &&
         (id (previous_column change) =? id (column change))
      then Ok (<[at_ := previous_column change]> cs, next_id) else mismatch
  end.

Definition UndoLastStep (schema : TableSchema) : res TableSchema :=
  match last (history schema) with
  | None => Err (undefined "history.back()")
  | Some step =>
      '(cs, next_id) ← fold_res UndoChange (columns schema, next_column_id schema) (rev (step_changes step));
      Ok {| version := u64 (step_version step - 1); next_column_id := next_id; columns := cs;
            history := removelast (history schema); pending := None |}
  end.

(** The default of a column as a value. *)
Definition DefaultValue (c : Column) : res ColumnValue :=
  if IsFixedWidth (kind (type c)) then DecodeColumnValue c (default_value c)
  else Ok (DecodeVarValue c (default_value c)).

Definition with_type (c : Column) (t : ColumnType) (has : bool) (value : bytes) : Column :=
  {| id := id c; name := name c; type := t; nullable := nullable c; required := required c;
     has_default := has; default_value := value |}.

Definition ValidatePending (schema : TableSchema) : res unit :=
  match pending schema with
  | None => Ok tt
  | Some p =>
      match List.find (fun c => id c =? pending_column_id p) (columns schema) with
      | None => Err (invalid_argument "the narrowing in progress names no column of the table")
      | Some c =>
          _ ← throw_if (negb (bool_decide (FamilyOf (kind (pending_type p)) = FamilyOf (kind (type c))))
                        || bool_decide (pending_type p = type c) || Widens (type c) (pending_type p))
                (invalid_argument "column cannot be narrowed");
          _ ← ValidateColumnType (with_type c (pending_type p) false []);
          if has_default c then
            value ← DefaultValue c;
            fitted ← Fit (pending_type p) value;
            throw_if match fitted with None => true | Some _ => false end
              (invalid_argument "its DEFAULT does not fit; change it first")
          else Ok tt
      end
  end.

(** [while (!earlier.history.empty())]: a turn removes a step. *)
Fixpoint ValidateEarlier (fuel : nat) (earlier : TableSchema) : res unit :=
  match last (history earlier), fuel with
  | None, _ => Ok tt
  | Some _, O => Err out_of_fuel
  | Some step, S fuel' =>
      _ ← throw_if (negb (step_version step =? version earlier) || (length (step_changes step) =? 0)%nat)
            (invalid_argument "schema history step is malformed");
      earlier ← UndoLastStep earlier;
      _ ← ValidateColumns earlier;
      ValidateEarlier fuel' earlier
  end.

Definition ValidateTableSchema (schema : TableSchema) : res unit :=
  _ ← throw_if (version schema =? 0) (invalid_argument "schema version must be at least 1");
  _ ← ValidateColumns schema;
  _ ← throw_if (kMaxSchemaVersions <? u64 (version schema - 1))
        (invalid_argument "a table has at most 65536 schema versions");
  _ ← throw_if (negb (len (history schema) =? u64 (version schema - 1)))
        (invalid_argument "schema history has another number of steps");
  _ ← ValidateEarlier (length (history schema)) schema;
  ValidatePending schema.

(** [while (earlier.version > version)]: a turn removes a step, and without a
    step to remove the behaviour is undefined. *)
Fixpoint SchemaAtVersion_loop (fuel : nat) (earlier : TableSchema) (v : Z) : res TableSchema :=
  if v <? version earlier then
    match fuel with
    | O => Err out_of_fuel
    | S fuel' => earlier ← UndoLastStep earlier; SchemaAtVersion_loop fuel' earlier v
    end
  else Ok earlier.

Definition SchemaAtVersion (schema : TableSchema) (v : Z) : res TableSchema :=
  _ ← throw_if ((v =? 0) || (version schema <? v)) (invalid_argument "the table has no schema version");
  SchemaAtVersion_loop (S (length (history schema))) schema v.

Fixpoint ColumnIndex_loop (cs : list Column) (n : bytes) (i : nat) : res nat :=
  match cs with
  | [] => Err (invalid_argument "the table has no column")
  | c :: cs' => if bool_decide (name c = n) then Ok i else ColumnIndex_loop cs' n (S i)
  end.
Definition ColumnIndex (schema : TableSchema) (n : bytes) : res nat := ColumnIndex_loop (columns schema) n 0.

Definition NextVersion (schema : TableSchema) (change : SchemaChange) (cs : list Column) (next_id : Z)
    : res TableSchema :=
  _ ← throw_if (bool_decide (is_Some (pending schema)))
        (invalid_argument "a narrowing of this table is in progress");
  let v := u64 (version schema + 1) in
  let next := {| version := v; next_column_id := next_id; columns := cs;
                 history := history schema ++ [{| step_version := v; step_changes := [change] |}];
                 pending := pending schema |} in
  _ ← ValidateTableSchema next;
  Ok next.

Definition AddColumn (schema : TableSchema) (c : Column) (allow_required_without_default : bool)
    : res TableSchema :=
  _ ← throw_if (required c && negb (has_default c) && negb allow_required_without_default)
        (invalid_argument "a REQUIRED column added to a table needs a DEFAULT for the blocks it has");
  let c := {| id := next_column_id schema; name := name c; type := type c; nullable := nullable c;
              required := required c; has_default := has_default c; default_value := default_value c |} in
  let cs := columns schema ++ [c] in
  NextVersion schema
    {| change_kind := kAddColumn; position := u32 (len cs - 1); column := c; old_name := [];
       previous_column := no_column; conversion := kExact |}
    cs (u32 (next_column_id schema + 1)).

Definition DropColumn (schema : TableSchema) (n : bytes) : res TableSchema :=
  at_ ← ColumnIndex schema n;
  let dropped := nth at_ (columns schema) no_column in
  let cs := erase (columns schema) at_ (at_ + 1) in
  _ ← throw_if (FixedBitsPerBlock {| version := version schema; next_column_id := next_column_id schema;
                   columns := cs; history := history schema; pending := pending schema |} =? 0)
        (invalid_argument "column is the last fixed-width column; a table needs one");
  NextVersion schema
    {| change_kind := kDropColumn; position := u32 (Z.of_nat at_); column := dropped; old_name := [];
       previous_column := no_column; conversion := kExact |}
    cs (next_column_id schema).

Definition RenameColumn (schema : TableSchema) (n new_name : bytes) : res TableSchema :=
  at_ ← ColumnIndex schema n;
  let c := nth at_ (columns schema) no_column in
  let c := {| id := id c; name := new_name; type := type c; nullable := nullable c;
              required := required c; has_default := has_default c; default_value := default_value c |} in
  NextVersion schema
    {| change_kind := kRenameColumn; position := u32 (Z.of_nat at_); column := c; old_name := n;
       previous_column := no_column; conversion := kExact |}
    (<[at_ := c]> (columns schema)) (next_column_id schema).

Definition UnsupportedSchemaReason (schema : TableSchema) : string :=
  if FixedBitsPerBlock schema =? 0 then "a table needs at least one fixed-width column" else EmptyString.

(** The default of the column after the type change, when it has one. *)
Definition ConvertDefault (before after : Column) (t : ColumnType) (conv : Conversion) : res bytes :=
  if has_default before then
    value ← DefaultValue before;
    fitted ← Fit t value;
    fitted ← match fitted with
             | Some v => Ok v
             | None =>
                 match conv with
                 | kDefault | kExact => Err (invalid_argument "its DEFAULT does not fit; change it first")
                 | kClamp => Clamp t value
                 | kTruncate => Truncate t value
                 end
             end;
    if IsFixedWidth (kind t) then EncodeColumnValue after fitted else EncodeVarValue after fitted
  else Ok (default_value before).

Definition ChangeTypeAt (schema : TableSchema) (at_ : nat) (t : ColumnType) (conv : Conversion)
    : res TableSchema :=
  let before := nth at_ (columns schema) no_column in
  let after := with_type before t (has_default before) (default_value before) in
  _ ← ValidateColumnType after;
  value ← ConvertDefault before after t conv;
  let after := with_type before t (has_default before) value in
  NextVersion schema
    {| change_kind := kChangeType; position := u32 (Z.of_nat at_); column := after; old_name := [];
       previous_column := before; conversion := conv |}
    (<[at_ := after]> (columns schema)) (next_column_id schema).

Definition ChangeColumnType (schema : TableSchema) (n : bytes) (t : ColumnType) (conv : Conversion)
    : res TableSchema :=
  at_ ← ColumnIndex schema n;
  let before := nth at_ (columns schema) no_column in
  let family := FamilyOf (kind (type before)) in
  _ ← throw_if (negb (bool_decide (FamilyOf (kind t) = family))) (invalid_argument "column cannot change to");
  _ ← throw_if (bool_decide (type before = t)) (invalid_argument "column is already");
  _ ← throw_if (bool_decide (conv = kExact) && negb (Widens (type before) t))
        (invalid_argument "does not hold every value; say what happens to those that do not fit");
  _ ← throw_if (negb (TakesConversion family conv)) (invalid_argument "values cannot be converted so");
  ChangeTypeAt schema at_ t conv.

Definition WithoutPendingNarrowing (schema : TableSchema) : TableSchema :=
  {| version := version schema; next_column_id := next_column_id schema; columns := columns schema;
     history := history schema; pending := None |}.

Definition WithPendingNarrowing (schema : TableSchema) (n : bytes) (t : ColumnType) : res TableSchema :=
  _ ← throw_if (bool_decide (is_Some (pending schema)))
        (invalid_argument "another narrowing of this table is in progress");
  at_ ← ColumnIndex schema n;
  let next := {| version := version schema; next_column_id := next_column_id schema;
                 columns := columns schema; history := history schema;
                 pending := Some {| pending_column_id := id (nth at_ (columns schema) no_column);
                                    pending_type := t |} |} in
  _ ← ValidateTableSchema next;
  Ok next.

Definition NarrowColumnType (schema : TableSchema) (n : bytes) (t : ColumnType) : res TableSchema :=
  at_ ← ColumnIndex schema n;
  _ ← throw_if match pending schema with
               | None => true
               | Some p => negb (pending_column_id p =? id (nth at_ (columns schema) no_column))
                           || negb (bool_decide (pending_type p = t))
               end (invalid_argument "column has no narrowing in progress");
  ChangeTypeAt (WithoutPendingNarrowing schema) at_ t kExact.

(** A table of one column, the same with a second one, and without the first. *)
Definition example_column : Column :=
  {| id := 0; name := str "n"; type := {| kind := kUnsigned; size := 10 |}; nullable := true;
     required := false; has_default := false; default_value := [] |}.
Definition or_else (r : res TableSchema) : TableSchema :=
  match r with Ok s => s | Err _ => SingleBitsColumnSchema 0 end.
Definition example_one : TableSchema := SingleBitsColumnSchema 16.
Definition example_two : TableSchema := or_else (AddColumn example_one example_column false).
Definition example_dropped : TableSchema := or_else (DropColumn example_two (str "bits")).
Definition example_renamed : TableSchema := or_else (RenameColumn example_dropped (str "n") (str "bits")).
Definition example_again : TableSchema := or_else (AddColumn example_renamed example_column false).

(** ** Specifications *)

(** Every way the source makes a version from another. *)
Inductive alters (s : TableSchema) : TableSchema -> Prop :=
| alters_add c allow s' : AddColumn s c allow = Ok s' -> alters s s'
| alters_drop n s' : DropColumn s n = Ok s' -> alters s s'
| alters_rename n n' s' : RenameColumn s n n' = Ok s' -> alters s s'
| alters_type n t conv s' : ChangeColumnType s n t conv = Ok s' -> alters s s'
| alters_narrow n t s' : NarrowColumnType s n t = Ok s' -> alters s s'.

(** A step of a table's life: a new version, or a narrowing begun or given up. *)
Inductive schema_step (s : TableSchema) : TableSchema -> Prop :=
| step_alters s' : alters s s' -> schema_step s s'
| step_pending n t s' : WithPendingNarrowing s n t = Ok s' -> schema_step s s'
| step_give_up : schema_step s (WithoutPendingNarrowing s).

Definition column_ids (s : TableSchema) : list Z := id <$> columns s.

(** The rules for the columns of one version. *)
Definition columns_valid (next_id : Z) (cs : list Column) : Prop :=
  Forall (fun c => IsValidName (name c) = true /\ 0 <> id c /\ id c < next_id /\
                   ValidateColumnType c = Ok tt /\ (nullable c && required c)%bool = false /\
                   ValidateDefault c = Ok tt) cs /\
  NoDup (name <$> cs) /\ NoDup (id <$> cs).

(** ** The rules for the columns *)

Lemma ValidateEach_ok next_id cs : forall names ids,
  ValidateEach next_id names ids cs = Ok tt <->
  columns_valid next_id cs /\ (forall c, c ∈ cs -> (name c ∉ names) /\ (id c ∉ ids)).
Proof.
  unfold columns_valid. induction cs as [|c cs IH]; intros names ids; cbn [ValidateEach].
  { split; [|done]. intros _. repeat split; try constructor; by apply elem_of_nil in H. }
  rewrite !fmap_cons, Forall_cons, !NoDup_cons. split.
  - intros H. res_inv. units.
    apply negb_false_iff in Hs. apply bool_decide_eq_false in Hs0. rewrite !orb_false_iff in Hs1.
    destruct Hs1 as [[H1%Z.eqb_neq H2%Z.leb_gt] H3%bool_decide_eq_false].
    apply IH in H as ((Hall & Hn & Hi) & Hnew).
    repeat split; try done; try lia.
    + intros (c' & E & Hc')%list_elem_of_fmap. destruct (Hnew c' Hc') as [Hx _]. rewrite <- E in Hx.
      apply Hx. by left.
    + intros (c' & E & Hc')%list_elem_of_fmap. destruct (Hnew c' Hc') as [_ Hx]. rewrite <- E in Hx.
      apply Hx. by left.
    + apply elem_of_cons in H as [->|H]; [done|]. destruct (Hnew _ H) as [Hx _]. intros Hin. apply Hx. by right.
    + apply elem_of_cons in H as [->|H]; [done|]. destruct (Hnew _ H) as [_ Hx]. intros Hin. apply Hx. by right.
  - intros ((((Hv & H0 & Hlt & Ht & Hnr & Hd) & Hall) & (Hn & Hnd) & Hi & Hid) & Hnew).
    destruct (Hnew c ltac:(by left)) as [Hcn Hci].
    pass_guard by (by rewrite Hv). pass_guard by (by apply bool_decide_eq_false).
    pass_guard by (rewrite !orb_false_iff, Z.eqb_neq, Z.leb_gt, bool_decide_eq_false; repeat split; done || lia).
    rewrite Ht, bind_Ok_l. pass_guard by done. rewrite Hd, bind_Ok_l. apply IH. split; [done|].
    intros c' Hc'. destruct (Hnew c' ltac:(by right)). split; apply not_elem_of_cons; split; try done.
    + intros E. apply Hn, list_elem_of_fmap. by exists c'.
    + intros E. apply Hi, list_elem_of_fmap. by exists c'.
Qed.

Lemma ValidateColumns_ok s :
  ValidateColumns s = Ok tt <->
  columns_valid (next_column_id s) (columns s) /\ 1 <= len (columns s) <= kMaxColumnsPerTable /\
  fixed_bits (columns s) <= kMaxFixedBitsPerBlock.
Proof.
  unfold ValidateColumns. split.
  - intros H. res_inv. units. apply ValidateEach_ok in Hs1 as [Hc _].
    apply Z.eqb_neq in Hs. apply Z.ltb_ge in Hs0, H. repeat split; try apply Hc; lia.
  - intros (Hc & Hl & Hf). pass_guard by (apply Z.eqb_neq; lia). pass_guard by (apply Z.ltb_ge; lia).
    rewrite (proj2 (ValidateEach_ok _ _ [] [])), bind_Ok_l.
    + apply throw_if_false, Z.ltb_ge. lia.
    + split; [done|]. intros c _. split; apply not_elem_of_nil.
Qed.

(** ** Versions and their history *)

Lemma length_removelast {A} (l : list A) : l <> [] -> S (length (removelast l)) = length l.
Proof.
  intros H. destruct (exists_last H) as (l' & x & ->). rewrite removelast_last, length_app. cbn. lia.
Qed.

Lemma UndoLastStep_history s s' : UndoLastStep s = Ok s' ->
  history s' = removelast (history s) /\ pending s' = None /\ history s <> [].
Proof.
  unfold UndoLastStep. destruct (last (history s)) eqn:E; [|done]. intros H. res_inv. destruct a. res_inv.
  subst s'. repeat split; try done. intros E'. by rewrite E' in E.
Qed.

(** The rules a version and those before it obey. *)
Lemma ValidateTableSchema_ok s : in_u 64 (version s) ->
  ValidateTableSchema s = Ok tt <->
  ValidateColumns s = Ok tt /\ 1 <= version s <= kMaxSchemaVersions + 1 /\
  len (history s) = version s - 1 /\
  ValidateEarlier (length (history s)) s = Ok tt /\ ValidatePending s = Ok tt.
Proof.
  intros Hv. unfold in_u in Hv. unfold ValidateTableSchema.
  assert (1 <= version s -> u64 (version s - 1) = version s - 1) as Hw.
  { intros. apply wrap_small. unfold in_u. lia. }
  split.
  - intros H. res_inv. units. apply Z.eqb_neq in Hs. rewrite Hw in * by lia.
    apply Z.ltb_ge in Hs1. apply negb_false_iff, Z.eqb_eq in Hs2. repeat split; try done; lia.
  - intros (Hc & Hb & Hl & He & Hp). pass_guard by (apply Z.eqb_neq; lia). rewrite Hc, bind_Ok_l, Hw by lia.
    pass_guard by (apply Z.ltb_ge; lia). pass_guard by (by apply negb_false_iff, Z.eqb_eq).
    by rewrite He, bind_Ok_l.
Qed.

(** A validated schema with history has a valid version before it. *)
Lemma ValidateTableSchema_undo s : in_u 64 (version s) -> ValidateTableSchema s = Ok tt -> 1 < version s ->
  exists e, UndoLastStep s = Ok e /\ ValidateTableSchema e = Ok tt /\ version e = version s - 1 /\
    pending e = None.
Proof.
  intros Hu H Hv. apply (ValidateTableSchema_ok s Hu) in H as (Hc & Hb & Hl & He & Hp).
  unfold in_u in Hu. destruct (last (history s)) as [step|] eqn:El.
  2:{ apply last_None in El. rewrite El in Hl. cbn in Hl. lia. }
  assert (history s <> []) as Hne by (intros E; by rewrite E in El).
  rewrite <- (length_removelast _ Hne) in He. cbn [ValidateEarlier] in He. rewrite El in He. res_inv.
  units. apply orb_false_iff in Hs as [Hsv%negb_false_iff%Z.eqb_eq _].
  rename a0 into e. exists e. destruct (UndoLastStep_history s e Hs0) as (Eh & Ep & _).
  assert (version e = version s - 1) as Ev.
  { unfold UndoLastStep in Hs0. rewrite El in Hs0. res_inv. destruct a. res_inv. subst e. cbn [version].
    rewrite Hsv. apply wrap_small. unfold in_u. lia. }
  split; [done|]. repeat split; try done. apply ValidateTableSchema_ok; [unfold in_u; lia|].
  pose proof (length_removelast _ Hne). rewrite Eh in *. repeat split; try done; try lia.
  unfold ValidatePending. by rewrite Ep.
Qed.

(** The steps of a validated schema are numbered from 2 and none is empty. *)
Lemma history_numbered s : in_u 64 (version s) -> ValidateTableSchema s = Ok tt ->
  forall k st, history s !! k = Some st -> step_version st = Z.of_nat k + 2 /\ step_changes st <> [].
Proof.
  remember (length (history s)) as n eqn:En. revert s En. induction n as [|n IH]; intros s En Hu H k st Hk.
  { destruct (history s); [done|discriminate]. }
  pose proof (proj1 (ValidateTableSchema_ok s Hu) H) as (_ & Hb & Hl & He & _).
  destruct (ValidateTableSchema_undo s Hu H ltac:(lia)) as (e & Hundo & Hve & Ev & _).
  destruct (UndoLastStep_history _ _ Hundo) as (Eh & _ & Hne).
  destruct (exists_last Hne) as (l & x & Ehist). rewrite Ehist in *. rewrite removelast_last in Eh.
  rewrite length_app in *. cbn in En, Hl.
  destruct (decide (k < length l)%nat) as [Hlt|Hge].
  - rewrite lookup_app_l in Hk by done. rewrite <- Eh in Hk.
    apply (IH e); try done; [rewrite Eh; lia|unfold in_u in *; lia].
  - rewrite lookup_app_r in Hk by lia. destruct (k - length l)%nat eqn:Ek; [|done]. injection Hk as <-.
    rewrite Nat.add_comm in He. cbn [length Nat.add ValidateEarlier] in He. rewrite Ehist, last_snoc in He.
    res_inv. apply orb_false_iff in Hs as [Hsv%negb_false_iff%Z.eqb_eq Hsc%Nat.eqb_neq].
    split; [lia|]. by destruct (step_changes x).
Qed.

(** ** What one alteration does *)

Lemma ColumnIndex_loop_ok cs n : forall i at_, ColumnIndex_loop cs n i = Ok at_ ->
  exists k c, at_ = (i + k)%nat /\ cs !! k = Some c /\ name c = n.
Proof.
  induction cs as [|c cs IH]; intros i at_ H; cbn in H; [done|]. case_bool_decide as E.
  - injection H as <-. exists 0%nat, c. repeat split; [lia|done].
  - destruct (IH _ _ H) as (k & c' & -> & Hk & Hn). exists (S k), c'. repeat split; try done; lia.
Qed.

Lemma ColumnIndex_ok s n at_ : ColumnIndex s n = Ok at_ ->
  exists c, columns s !! at_ = Some c /\ nth at_ (columns s) no_column = c /\ name c = n /\
    (at_ < length (columns s))%nat.
Proof.
  intros (k & c & -> & Hk & Hn)%ColumnIndex_loop_ok. cbn. exists c. repeat split; try done.
  - by apply nth_lookup_Some.
  - by apply lookup_lt_Some in Hk.
Qed.

Lemma NextVersion_ok s change cs next_id s' : in_u 64 (version s) ->
  NextVersion s change cs next_id = Ok s' ->
  pending s = None /\ (1 <= version s /\ in_u 64 (version s + 1)) /\
  (ValidateTableSchema s' = Ok tt /\ columns_valid next_id cs /\ len cs <= kMaxColumnsPerTable) /\
  s' = {| version := version s + 1; next_column_id := next_id; columns := cs;
          history := history s ++ [{| step_version := version s + 1; step_changes := [change] |}];
          pending := None |}.
Proof.
  intros Hu H. unfold NextVersion in H. cbv zeta in H. res_inv. units. apply bool_decide_eq_false in Hs.
  assert (pending s = None) as Hp by (destruct (pending s); [by destruct Hs; eexists|done]).
  rewrite Hp in *. subst s'. match type of Hs0 with ValidateTableSchema ?x = _ => set (n := x) in * end.
  assert (in_u 64 (version n)) as Hn by (apply wrap_bound; lia).
  pose proof (proj1 (ValidateTableSchema_ok n Hn) Hs0) as (Hc & Hb & Hl & _). cbn in Hb, Hl.
  apply ValidateColumns_ok in Hc as (Hc & Hcl & _). unfold in_u in Hu. assert (version s <> 2 ^ 64 - 1) as Hne.
  { intros E. rewrite E in Hb. vm_compute in Hb. intuition. }
  assert (u64 (version s + 1) = version s + 1) as E by (apply wrap_small; unfold in_u; lia).
  subst n. rewrite E in *. rewrite length_app in Hl. cbn in Hl.
  repeat split; try done; try apply Hc; cbn in Hcl; unfold in_u; lia.
Qed.

(** The change of an alteration, undone, gives back the columns and the next
    id; adding takes the next id and no other alteration takes one. *)
Definition change_of (s : TableSchema) (change : SchemaChange) (cs : list Column) (next_id : Z) : Prop :=
  UndoChange (cs, next_id) change = Ok (columns s, next_column_id s) /\
  ((next_id = next_column_id s /\ forall c, c ∈ cs -> id c ∈ column_ids s) \/
   (next_id = u32 (next_column_id s + 1) /\ exists c, cs = columns s ++ [c] /\ id c = next_column_id s)).

Lemma alter_add s c allow s' : in_u 64 (version s) -> AddColumn s c allow = Ok s' ->
  exists change cs next_id, NextVersion s change cs next_id = Ok s' /\ change_of s change cs next_id.
Proof.
  intros Hu H. unfold AddColumn in H. cbv zeta in H. res_inv. do 3 eexists. split; [exact H|].
  apply NextVersion_ok in H as (_ & _ & (_ & _ & Hl) & _); [|done]. split; [|right; split; [done|by eexists]].
  unfold UndoChange. cbn [change_kind position column]. rewrite length_app in *. cbn in Hl. unfold kMaxColumnsPerTable in Hl.
  replace (Z.to_nat _) with (length (columns s)) by (rewrite wrap_small; unfold in_u; cbn [length]; lia).
  rewrite bool_decide_true by (by rewrite lookup_app_r, Nat.sub_diag by lia).
  unfold erase. rewrite take_app_length, drop_ge by (rewrite length_app; cbn; lia). by rewrite app_nil_r.
Qed.

Lemma erase_insert_at {A} (l : list A) k x : l !! k = Some x -> insert_at (erase l k (k + 1)) k [x] = l.
Proof.
  intros H. unfold insert_at, erase. pose proof (lookup_lt_Some _ _ _ H).
  rewrite take_app_le, drop_app_ge by (rewrite ?length_take; lia).
  rewrite take_take, Nat.min_id, length_take. replace (k - _)%nat with 0%nat by lia. rewrite drop_0.
  replace (k + 1)%nat with (S k) by lia. by apply take_drop_middle.
Qed.

Lemma alter_drop s n s' : in_u 64 (version s) -> DropColumn s n = Ok s' ->
  exists change cs next_id, NextVersion s change cs next_id = Ok s' /\ change_of s change cs next_id.
Proof.
  intros Hu H. unfold DropColumn in H. cbv zeta in H. res_inv. do 3 eexists. split; [exact H|].
  apply NextVersion_ok in H as (_ & _ & (_ & _ & Hl) & _); [|done].
  destruct (ColumnIndex_ok _ _ _ Hs) as (c & Hc & En & _ & Hlt). rewrite En. unfold kMaxColumnsPerTable in Hl.
  assert (length (erase (columns s) a (a + 1)) = (length (columns s) - 1)%nat) as He.
  { unfold erase. rewrite length_app, length_take, length_drop. lia. }
  split.
  - unfold UndoChange. cbn [change_kind position column].
    replace (Z.to_nat _) with a by (rewrite wrap_small; unfold in_u; lia).
    rewrite (proj2 (Nat.ltb_ge _ _)) by lia. by rewrite erase_insert_at.
  - left. split; [done|]. intros c' Hc'. apply list_elem_of_fmap. exists c'. split; [done|].
    unfold erase in Hc'. apply elem_of_app in Hc' as [H'|H'].
    + rewrite <- (take_drop a (columns s)), elem_of_app. by left.
    + rewrite <- (take_drop (a + 1) (columns s)), elem_of_app. by right.
Qed.

(** The column at [at_] replaced by one of the same id. *)
Lemma change_of_insert s change at_ b c : columns s !! at_ = Some b -> id c = id b ->
  len (<[at_ := c]> (columns s)) <= kMaxColumnsPerTable -> position change = u32 (Z.of_nat at_) ->
  (forall cs, cs !! at_ = Some c ->
     (Z.to_nat (position change) = at_ ->
     UndoChange (cs, next_column_id s) change = Ok (<[at_ := b]> cs, next_column_id s))) ->
  change_of s change (<[at_ := c]> (columns s)) (next_column_id s).
Proof.
  intros Hb Hid Hl Hp Hundo. rewrite length_insert in Hl. pose proof (lookup_lt_Some _ _ _ Hb).
  unfold kMaxColumnsPerTable in Hl. split.
  - rewrite Hundo; [by rewrite list_insert_insert_eq, list_insert_id|by apply list_lookup_insert_eq|].
    rewrite Hp. rewrite wrap_small; unfold in_u; lia.
  - left. split; [done|]. intros c' (k & Hk)%list_elem_of_lookup. apply list_elem_of_fmap.
    destruct (decide (k = at_)) as [->|Hne].
    + rewrite list_lookup_insert_eq in Hk by done. injection Hk as <-. exists b.
      split; [done|]. by eapply list_elem_of_lookup_2.
    + rewrite list_lookup_insert_ne in Hk by done. exists c'. split; [done|]. by eapply list_elem_of_lookup_2.
Qed.

Lemma alter_rename s n n' s' : in_u 64 (version s) -> RenameColumn s n n' = Ok s' ->
  exists change cs next_id, NextVersion s change cs next_id = Ok s' /\ change_of s change cs next_id.
Proof.
  intros Hu H. unfold RenameColumn in H. cbv zeta in H. res_inv. do 3 eexists. split; [exact H|].
  apply NextVersion_ok in H as (_ & _ & (_ & _ & Hl) & _); [|done].
  destruct (ColumnIndex_ok _ _ _ Hs) as (c & Hc & En & Hn & _). rewrite En in *.
  apply change_of_insert with c; try done. intros cs Hcs Hat. unfold UndoChange.
  rewrite Hat. cbn [change_kind column old_name]. rewrite bool_decide_true by done.
  rewrite <- Hn. by destruct c.
Qed.

Lemma alter_type s at_ t conv s' : in_u 64 (version s) -> (at_ < length (columns s))%nat ->
  ChangeTypeAt s at_ t conv = Ok s' ->
  exists change cs next_id, NextVersion s change cs next_id = Ok s' /\ change_of s change cs next_id.
Proof.
  intros Hu Hlt H. unfold ChangeTypeAt in H. cbv zeta in H. res_inv. do 3 eexists. split; [exact H|].
  apply NextVersion_ok in H as (_ & _ & (_ & _ & Hl) & _); [|done].
  destruct (lookup_lt_is_Some_2 _ _ Hlt) as [b Hb]. rewrite (nth_lookup_Some _ _ no_column _ Hb) in *.
  apply change_of_insert with b; try done. intros cs Hcs Hat. unfold UndoChange.
  rewrite Hat. cbn [change_kind column previous_column]. rewrite bool_decide_true by done.
  cbn [id with_type]. by rewrite Z.eqb_refl.
Qed.

Lemma alters_change s s' : in_u 64 (version s) -> alters s s' ->
  exists change cs next_id, NextVersion (WithoutPendingNarrowing s) change cs next_id = Ok s' /\
    change_of (WithoutPendingNarrowing s) change cs next_id.
Proof.
  assert (forall change cs next_id, NextVersion s change cs next_id = Ok s' -> in_u 64 (version s) ->
    WithoutPendingNarrowing s = s) as Hsame.
  { intros change cs next_id H Hu. apply NextVersion_ok in H as [Hp _]; [|done].
    unfold WithoutPendingNarrowing. rewrite <- Hp. by destruct s. }
  intros Hu Ha. destruct Ha as [c allow s' H|n s' H|n n' s' H|n t conv s' H|n t s' H].
  - destruct (alter_add _ _ _ _ Hu H) as (ch & cs & i & Hn & Hc). rewrite (Hsame _ _ _ Hn Hu). by do 3 eexists.
  - destruct (alter_drop _ _ _ Hu H) as (ch & cs & i & Hn & Hc). rewrite (Hsame _ _ _ Hn Hu). by do 3 eexists.
  - destruct (alter_rename _ _ _ _ Hu H) as (ch & cs & i & Hn & Hc). rewrite (Hsame _ _ _ Hn Hu). by do 3 eexists.
  - unfold ChangeColumnType in H. cbv zeta in H. res_inv. destruct (ColumnIndex_ok _ _ _ Hs) as (c & _ & _ & _ & Hlt).
    destruct (alter_type _ _ _ _ _ Hu Hlt H) as (ch & cs & i & Hn & Hc). rewrite (Hsame _ _ _ Hn Hu). by do 3 eexists.
  - unfold NarrowColumnType in H. res_inv. destruct (ColumnIndex_ok _ _ _ Hs) as (c & _ & _ & _ & Hlt).
    by apply alter_type in H.
Qed.

Lemma SchemaAtVersion_ok s v : in_u 64 (version s) -> ValidateTableSchema s = Ok tt ->
  1 <= v <= version s ->
  exists e, SchemaAtVersion s v = Ok e /\ version e = v /\ ValidateTableSchema e = Ok tt /\
    (v < version s -> pending e = None).
Proof.
  intros Hu H Hv. unfold SchemaAtVersion.
  pass_guard by (rewrite orb_false_iff, Z.eqb_neq, Z.ltb_ge; lia).
  pose proof (proj1 (ValidateTableSchema_ok s Hu) H) as (_ & _ & Hl & _).
  remember (S (length (history s))) as fuel eqn:Ef. assert (version s - v < Z.of_nat fuel) as Hf by lia.
  clear Ef Hl. revert s Hu H Hv Hf. induction fuel as [|fuel IH]; intros s Hu H Hv Hf; [lia|].
  cbn [SchemaAtVersion_loop]. destruct (Z.ltb_spec v (version s)).
  - destruct (ValidateTableSchema_undo s Hu H ltac:(lia)) as (e & -> & He & Ev & Ep). rewrite bind_Ok_l.
    unfold in_u in Hu. destruct (IH e) as (e' & E' & Hr & Hr' & Hp); try done; try (unfold in_u; lia).
    exists e'. repeat split; try done. intros _. destruct (Z.eq_dec v (version e)); [|apply Hp; lia].
    destruct fuel; cbn [SchemaAtVersion_loop] in E'; rewrite (proj2 (Z.ltb_ge _ _)) in E' by lia; congruence.
  - exists s. repeat split; try done; lia.
Qed.

(** C26: every version of a validated schema can be restored: for each version from 1 to the current one
    [SchemaAtVersion] returns a schema of that version, itself valid, and never runs out of history. *)
Theorem schema_at_version_total s v : in_u 64 (version s) -> ValidateTableSchema s = Ok tt ->
  1 <= v <= version s ->
  exists e, SchemaAtVersion s v = Ok e /\ version e = v /\ ValidateTableSchema e = Ok tt /\
    (v < version s -> pending e = None).
Proof. apply SchemaAtVersion_ok. Qed.

Lemma schema_at_version_witness :
  exists e, SchemaAtVersion example_dropped 1 = Ok e /\ ValidateTableSchema e = Ok tt.
Proof.
  destruct (schema_at_version_total example_dropped 1) as (e & H & _ & Hv & _).
  - unfold in_u. vm_compute. intuition discriminate.
  - by vm_compute.
  - vm_compute. intuition discriminate.
  - exists e. split; assumption.
Defined.

(** C28: an alteration makes the next version and loses nothing: the new schema is valid, its version is
    one more, and restoring the old version from it gives back exactly the schema altered (a narrowing in
    progress aside, which belongs to the current version only). *)
Theorem alteration_undone s s' : in_u 64 (version s) -> alters s s' ->
  version s' = version s + 1 /\ ValidateTableSchema s' = Ok tt /\
  SchemaAtVersion s' (version s) = Ok (WithoutPendingNarrowing s).
Proof.
  intros Hu Ha. destruct (alters_change s s' Hu Ha) as (change & cs & next_id & Hn & Hundo & _).
  apply NextVersion_ok in Hn as (_ & [Hv1 Hv2] & (Hv & _) & E); [|done]. cbn in Hv1, Hv2.
  split; [by rewrite E|]. split; [done|]. unfold SchemaAtVersion. rewrite E. cbn [version history].
  pass_guard by (rewrite orb_false_iff, Z.eqb_neq, Z.ltb_ge; cbn; lia).
  cbn [SchemaAtVersion_loop version WithoutPendingNarrowing].
  rewrite (proj2 (Z.ltb_lt _ _)) by lia.
  unfold UndoLastStep. cbn [history columns next_column_id]. rewrite last_snoc. cbn [step_changes rev app fold_res].
  rewrite Hundo. cbn [mbind res_bind fold_res step_version]. rewrite removelast_last.
  replace (version s + 1 - 1) with (version s) by lia. rewrite wrap_small by done.
  rewrite length_app, Nat.add_comm. cbn [length Nat.add SchemaAtVersion_loop version].
  by rewrite (proj2 (Z.ltb_ge _ _)) by lia.
Qed.

Lemma alteration_undone_witness : SchemaAtVersion example_two 1 = Ok example_one.
Proof.
  destruct (alteration_undone example_one example_two) as (_ & _ & H).
  - unfold in_u. vm_compute. intuition discriminate.
  - apply (alters_add _ example_column false). by vm_compute.
  - exact H.
Defined.

(** ** Ids are never reused *)

Lemma in_u_lt w x y : in_u w y -> 0 <= x <= y -> in_u w x.
Proof. unfold in_u. lia. Qed.

(** What a step keeps: the next id only grows, and an id in use is an old one
    or the next id. *)
Lemma schema_step_ids s s' : in_u 64 (version s) -> in_u 32 (next_column_id s) -> schema_step s s' ->
  (in_u 64 (version s') /\ in_u 32 (next_column_id s') /\ next_column_id s <= next_column_id s') /\
  forall i, i ∈ column_ids s' -> i ∈ column_ids s \/ next_column_id s <= i.
Proof.
  intros Hu Hu' Hs. destruct Hs as [s' Ha|n t s' H|].
  - destruct (alters_change s s' Hu Ha) as (change & cs & next_id & Hn & _ & Hids).
    apply NextVersion_ok in Hn as (_ & [Hv1 Hv2] & (_ & (Hc & _) & _) & ->); [|done].
    unfold column_ids. cbn. destruct Hids as [[-> Hin]|[-> (c & -> & Hid)]].
    + repeat split; try done; try apply Hu'; try apply Hv2; try lia. intros i (c & -> & Hi)%list_elem_of_fmap. left. by apply Hin.
    + apply Forall_app in Hc as [_ Hc]. apply Forall_cons in Hc as [(_ & _ & Hlt & _) _].
      cbn in Hid, Hlt. rewrite Hid in Hlt. unfold wrap, in_u in *.
      assert (0 <= (next_column_id s + 1) mod 2 ^ 32 < 2 ^ 32) by (apply Z.mod_pos_bound; lia).
      cbn [next_column_id version columns WithoutPendingNarrowing] in *.
      repeat split; try lia. intros i Hi. rewrite fmap_app in Hi. apply elem_of_app in Hi as [Hi|Hi].
      * by left.
      * right. apply list_elem_of_singleton in Hi. cbn in Hi. lia.
  - unfold WithPendingNarrowing in H. cbv zeta in H. res_inv. subst s'. unfold column_ids. cbn.
    repeat split; try apply Hu; try apply Hu'; try lia. by left.
  - unfold column_ids. cbn. repeat split; try apply Hu; try apply Hu'; try lia. by left.
Qed.

(** C27: a column id is never reused within a table: whatever steps a table goes through, once the column
    of an id has been dropped no later version has a column of that id. *)
Theorem dropped_id_never_returns s0 s1 s2 i : in_u 64 (version s0) -> in_u 32 (next_column_id s0) ->
  ValidateTableSchema s0 = Ok tt -> rtc schema_step s0 s1 -> rtc schema_step s1 s2 ->
  i ∈ column_ids s0 -> i ∉ column_ids s1 -> i ∉ column_ids s2.
Proof.
  intros Hu Hu' Hv H01 H12 Hi Hout.
  apply (ValidateTableSchema_ok s0 Hu) in Hv as (Hc & _). apply ValidateColumns_ok in Hc as ((Hc & _) & _).
  assert (i < next_column_id s0) as Hlt.
  { apply list_elem_of_fmap in Hi as (c & -> & Hin). rewrite Forall_forall in Hc. apply (Hc _ Hin). }
  clear Hi Hc. assert (in_u 64 (version s1) /\ in_u 32 (next_column_id s1) /\ i < next_column_id s1) as (Hv1 & Hn1 & Hi1).
  { clear Hout H12. induction H01 as [|x y z Hxy _ IH]; [done|].
    destruct (schema_step_ids x y Hu Hu' Hxy) as [(? & ? & ?) _]. apply IH; try done. lia. }
  clear H01 Hu Hu' Hlt. induction H12 as [|x y z Hxy _ IH]; [done|].
  destruct (schema_step_ids x y Hv1 Hn1 Hxy) as [(? & ? & ?) Hin]. apply IH; try done; try lia.
  intros [Hbad|Hbad]%Hin; [done|lia].
Qed.

Lemma dropped_id_witness : 1 ∉ column_ids example_again.
Proof.
  apply (dropped_id_never_returns example_two example_dropped).
  - unfold in_u. vm_compute. intuition discriminate.
  - unfold in_u. vm_compute. intuition discriminate.
  - by vm_compute.
  - apply rtc_once, step_alters, (alters_drop _ (str "bits")). by vm_compute.
  - apply (rtc_l _ _ example_renamed).
    + apply step_alters, (alters_rename _ (str "n") (str "bits")). by vm_compute.
    + apply rtc_once, step_alters, (alters_add _ example_column false). by vm_compute.
  - apply (bool_decide_unpack _). vm_compute. exact I.
  - apply (bool_decide_unpack _). vm_compute. exact I.
Defined.

End Schema.
