(* ===== verification/SchemaCodec.v ===== *)
(** * The encoding of a table schema (src/src/schema.cpp)

    The schema area of a table's manifest: EncodeTableSchema writes the
    columns, the history step by step and a narrowing in progress;
    DecodeTableSchema reads them back with a bounds-checked Reader.  A reader
    is a function from the bytes left to a value and the bytes left after it. *)
From stdpp Require Import prelude strings.
From Stdlib Require Import ZArith Lia.
From S2P Require Import Prelude Bits Columns Schema.

#[local] Open Scope Z_scope.

Module SchemaCodec.
Import Columns Schema.

(** ** The Reader *)

Definition reader (A : Type) : Type := bytes -> res (A * bytes).

#[global] Instance reader_ret : MRet reader := fun _ a left => Ok (a, left).
#[global] Instance reader_bind : MBind reader :=
  fun _ _ f m left => match m left with Ok (a, left') => f a left' | Err e => Err e end.

Definition refuse_if (b : bool) (e : exn) : reader unit :=
  fun left => if b then Err e else Ok (tt, left).

Definition Need (count : Z) : reader unit :=
  fun left => if len left <? count then Err (runtime_error "schema area is truncated") else Ok (tt, left).

(** [at_ += count], with the bytes passed over. *)
Definition advance (count : nat) : reader bytes := fun left => Ok (take count left, drop count left).

Definition Le (count : nat) : reader Z :=
  _ ← Need (Z.of_nat count); b ← advance count; mret (le_value b).

Definition Bytes (count : Z) : reader bytes := _ ← Need count; advance (Z.to_nat count).

Definition AtEnd : reader bool := fun left => Ok (bool_decide (left = []), left).

Fixpoint repeat_read {A} (count : nat) (m : reader A) : reader (list A) :=
  match count with
  | O => mret []
  | S count' => a ← m; l ← repeat_read count' m; mret (a :: l)
  end.

(** ** Columns *)

Definition kFlagNullable : Z := 1.
Definition kFlagRequired : Z := 2.
Definition kFlagHasDefault : Z := 4.
Definition kKnownFlags : Z := Z.lor (Z.lor kFlagNullable kFlagRequired) kFlagHasDefault.

Definition column_flags (c : Column) : Z :=
  Z.lor (Z.lor (if nullable c then kFlagNullable else 0) (if required c then kFlagRequired else 0))
        (if has_default c then kFlagHasDefault else 0).

Definition EncodeColumn (c : Column) : bytes :=
  le_bytes 4 (id c) ++ [kind_code (kind (type c))] ++ le_bytes 4 (size (type c)) ++ [column_flags c] ++
  [u8 (len (name c))] ++ name c ++
  (if has_default c then le_bytes 4 (len (default_value c)) ++ default_value c else []).

(** [static_cast<ColumnKind>] of a known code. *)
Definition kind_of_code (code : Z) : ColumnKind :=
  match code with
  | 1 => kUnsigned | 2 => kSigned | 3 => kBool | 4 => kFloat32
  | 5 => kFloat64 | 6 => kBits | 7 => kText | _ => kBytes
  end.

Definition DecodeType : reader ColumnType :=
  k ← Le 1;
  _ ← refuse_if (negb (IsKnownKind k)) (runtime_error "unknown column type");
  n ← Le 4;
  mret {| kind := kind_of_code k; size := n |}.

Definition DecodeColumn : reader Column :=
  i ← Le 4;
  t ← DecodeType;
  flags ← Le 1;
  _ ← refuse_if (negb (Z.land flags (Z.lnot kKnownFlags) =? 0)) (runtime_error "unknown column flags");
  let has := negb (Z.land flags kFlagHasDefault =? 0) in
  name_length ← Le 1;
  n ← Bytes name_length;
  value ← (if has then
             length ← Le 4;
             _ ← refuse_if (kMaxVariableValueBytes <? length) (runtime_error "column default of bytes");
             Bytes length
           else mret []);
  mret {| id := i; name := n; type := t; nullable := negb (Z.land flags kFlagNullable =? 0);
          required := negb (Z.land flags kFlagRequired =? 0); has_default := has; default_value := value |}.

(** ** Changes and steps *)

Definition IsKnownChange (k : Z) : bool := (1 <=? k) && (k <=? 4).
Definition change_of_code (code : Z) : ChangeKind :=
  match code with 1 => kAddColumn | 2 => kDropColumn | 3 => kRenameColumn | _ => kChangeType end.
Definition conversion_of_code (code : Z) : Conversion :=
  match code with 0 => kExact | 1 => kClamp | 2 => kDefault | _ => kTruncate end.

Definition EncodeChange (ch : SchemaChange) : bytes :=
  [change_kind_code (change_kind ch)] ++ le_bytes 4 (position ch) ++ EncodeColumn (column ch) ++
  (if bool_decide (change_kind ch = kRenameColumn) then [u8 (len (old_name ch))] ++ old_name ch else []) ++
  (if bool_decide (change_kind ch = kChangeType)
   then EncodeColumn (previous_column ch) ++ [conversion_code (conversion ch)] else []).

Definition EncodeStep (st : SchemaStep) : bytes :=
  le_bytes 4 (len (step_changes st)) ++ concat (EncodeChange <$> step_changes st).

Definition EncodePending (p : option PendingNarrowing) : bytes :=
  match p with
  | None => []
  | Some p => [1] ++ le_bytes 4 (pending_column_id p) ++ [kind_code (kind (pending_type p))] ++
              le_bytes 4 (size (pending_type p))
  end.

Definition EncodeTableSchema (s : TableSchema) : res bytes :=
  _ ← ValidateTableSchema s;
  Ok (le_bytes 8 (version s) ++ le_bytes 4 (next_column_id s) ++ le_bytes 4 (len (columns s)) ++
      concat (EncodeColumn <$> columns s) ++ concat (EncodeStep <$> history s) ++ EncodePending (pending s)).

Definition DecodeChange : reader SchemaChange :=
  k ← Le 1;
  _ ← refuse_if (negb (IsKnownChange k)) (runtime_error "unknown schema change");
  let ck := change_of_code k in
  at_ ← Le 4;
  c ← DecodeColumn;
  old ← (if bool_decide (ck = kRenameColumn) then n ← Le 1; Bytes n else mret []);
  prev ← (if bool_decide (ck = kChangeType) then
            p ← DecodeColumn;
            conv ← Le 1;
            _ ← refuse_if (3 <? conv) (runtime_error "unknown type conversion");
            mret (p, conversion_of_code conv)
          else mret (no_column, kExact));
  mret {| change_kind := ck; position := at_; column := c; old_name := old;
          previous_column := prev.1; conversion := prev.2 |}.

Definition DecodeStep (v : Z) : reader SchemaStep :=
  n ← Le 4;
  _ ← refuse_if ((n =? 0) || (kMaxColumnsPerTable * 2 <? n)) (runtime_error "schema version has changes");
  changes ← repeat_read (Z.to_nat n) DecodeChange;
  mret {| step_version := v; step_changes := changes |}.

(** [for (version = v; …; ++version)] over [count] versions. *)
Fixpoint DecodeSteps (count : nat) (v : Z) : reader (list SchemaStep) :=
  match count with
  | O => mret []
  | S count' => st ← DecodeStep v; l ← DecodeSteps count' (v + 1); mret (st :: l)
  end.

Definition DecodePending : reader (option PendingNarrowing) :=
  e ← AtEnd;
  if (e : bool) then mret None
  else
    mark ← Le 1;
    _ ← refuse_if (negb (mark =? 1)) (runtime_error "schema area has trailing bytes");
    i ← Le 4;
    t ← DecodeType;
    mret (Some {| pending_column_id := i; pending_type := t |}).

Definition DecodeSchemaFields : reader TableSchema :=
  v ← Le 8;
  next_id ← Le 4;
  count ← Le 4;
  _ ← refuse_if (kMaxColumnsPerTable <? count) (runtime_error "schema area declares columns");
  cs ← repeat_read (Z.to_nat count) DecodeColumn;
  _ ← refuse_if ((v =? 0) || (kMaxSchemaVersions <? u64 (v - 1))) (runtime_error "schema version is out of range");
  hist ← DecodeSteps (Z.to_nat (v - 1)) 2;
  p ← DecodePending;
  e ← AtEnd;
  _ ← refuse_if (negb e) (runtime_error "schema area has trailing bytes");
  mret {| version := v; next_column_id := next_id; columns := cs; history := hist; pending := p |}.

Definition DecodeTableSchema (data : bytes) : res TableSchema :=
  '(s, _) ← DecodeSchemaFields data;
  _ ← ValidateTableSchema s;
  Ok s.

(** The schema of a table that gained, lost, renamed and gained a column. *)
Definition example_schema : TableSchema := Eval vm_compute in example_again.

Definition example_area : bytes :=
  Eval vm_compute in match EncodeTableSchema example_schema with Ok b => b | Err _ => [] end.

(** ** What a reader reads *)

(** [m] reads exactly [b] and returns [a], whatever follows. *)
Definition reads {A} (m : reader A) (b : bytes) (a : A) : Prop := forall left, m (b ++ left) = Ok (a, left).

(** Whatever [m] reads, [enc] writes. *)
Definition undone_by {A} (m : reader A) (enc : A -> bytes) : Prop :=
  forall left a left', bytes_ok left -> m left = Ok (a, left') -> left = enc a ++ left' /\ bytes_ok left'.

Lemma reads_ret {A} (a : A) : reads (mret a) [] a.
Proof. by intros left. Qed.

Lemma reads_bind {A B} (m : reader A) (f : A -> reader B) b1 b2 a b :
  reads m b1 a -> reads (f a) b2 b -> reads (m ≫= f) (b1 ++ b2) b.
Proof. intros H1 H2 left. unfold mbind, reader_bind. rewrite <- app_assoc, H1. apply H2. Qed.

Lemma reads_bind_nil {A B} (m : reader A) (f : A -> reader B) b2 a b :
  reads m [] a -> reads (f a) b2 b -> reads (m ≫= f) b2 b.
Proof. intros H1 H2 left. unfold mbind, reader_bind. specialize (H1 (b2 ++ left)). cbn in H1. rewrite H1. apply H2. Qed.

Lemma run_bind {A B} (m : reader A) (f : A -> reader B) b left a :
  reads m b a -> (m ≫= f) (b ++ left) = f a left.
Proof. intros H. unfold mbind, reader_bind. by rewrite H. Qed.

Lemma run_bind_nil {A B} (m : reader A) (f : A -> reader B) left a :
  reads m [] a -> (m ≫= f) left = f a left.
Proof. intros H. unfold mbind, reader_bind. specialize (H left). cbn in H. by rewrite H. Qed.

Lemma reads_guard b e : b = false -> reads (refuse_if b e) [] tt.
Proof. by intros -> left. Qed.

Lemma reads_Le n v : in_u (8 * Z.of_nat n) v -> reads (Le n) (le_bytes n v) v.
Proof.
  intros H left. unfold Le, mbind, reader_bind, Need, advance. rewrite length_app, length_le_bytes.
  rewrite (proj2 (Z.ltb_ge _ _)) by lia.
  rewrite take_app_length', drop_app_length' by by rewrite length_le_bytes. by rewrite le_value_le_bytes.
Qed.

Lemma reads_byte v : in_u 8 v -> reads (Le 1) [v] v.
Proof.
  intros H. pose proof (reads_Le 1 v H) as R. cbn [le_bytes] in R. rewrite land_255, Z.mod_small in R by apply H.
  exact R.
Qed.

Lemma reads_Bytes n b : n = len b -> reads (Bytes n) b b.
Proof.
  intros -> left. unfold Bytes, mbind, reader_bind, Need, advance. rewrite length_app, (proj2 (Z.ltb_ge _ _)) by lia.
  rewrite Nat2Z.id. by rewrite take_app_length, drop_app_length.
Qed.

Lemma reads_repeat {A} (m : reader A) (enc : A -> bytes) l :
  Forall (fun a => reads m (enc a) a) l -> reads (repeat_read (length l) m) (concat (enc <$> l)) l.
Proof.
  induction 1 as [|a l Ha _ IH]; [apply reads_ret|]. cbn [length repeat_read fmap list_fmap concat].
  eapply reads_bind; [exact Ha|]. rewrite <- (app_nil_r (concat _)). eapply reads_bind; [exact IH|apply reads_ret].
Qed.

(** The value read is returned in the end. *)
Lemma reads_last {A B} (m : reader A) (f : A -> B) b a :
  reads m b a -> reads (x ← m; mret (f x)) b (f a).
Proof. intros H. rewrite <- (app_nil_r b). eapply reads_bind; [exact H|apply reads_ret]. Qed.

(** ** Decoding what was encoded *)

(** The fields of a column are within the types and lengths the encoding has
    room for; a column that passes the validation is. *)
Definition column_fits (c : Column) : Prop :=
  in_u 32 (id c) /\ in_u 32 (size (type c)) /\ len (name c) < 256 /\
  (if has_default c then len (default_value c) <= kMaxVariableValueBytes else default_value c = []).

Definition change_fits (ch : SchemaChange) : Prop :=
  in_u 32 (position ch) /\ column_fits (column ch) /\
  (if bool_decide (change_kind ch = kRenameColumn) then len (old_name ch) < 256 else old_name ch = []) /\
  (if bool_decide (change_kind ch = kChangeType) then column_fits (previous_column ch)
   else previous_column ch = no_column /\ conversion ch = kExact).

Definition step_fits (st : SchemaStep) : Prop := len (step_changes st) < 2 ^ 32 /\ Forall change_fits (step_changes st).

(** The steps have no more changes than the decoder takes; neither the validation
    nor the encoder asks for it. *)
Definition step_short (st : SchemaStep) : Prop := len (step_changes st) <= kMaxColumnsPerTable * 2.
Definition steps_short (s : TableSchema) : Prop := Forall step_short (history s).

#[global] Instance steps_short_dec s : Decision (steps_short s).
Proof. unfold steps_short, step_short. apply _. Defined.

(** Every field is within its C++ type, and a change leaves the fields its kind
    does not use as they are made. *)
Definition schema_fits (s : TableSchema) : Prop :=
  in_u 64 (version s) /\ in_u 32 (next_column_id s) /\ Forall column_fits (columns s) /\
  Forall step_fits (history s) /\
  match pending s with
  | None => True
  | Some p => in_u 32 (pending_column_id p) /\ in_u 32 (size (pending_type p))
  end.

Lemma kind_of_kind_code k : IsKnownKind (kind_code k) = true /\ kind_of_code (kind_code k) = k /\ in_u 8 (kind_code k).
Proof. by destruct k. Qed.

Lemma change_of_kind_code k :
  IsKnownChange (change_kind_code k) = true /\ change_of_code (change_kind_code k) = k /\ in_u 8 (change_kind_code k).
Proof. by destruct k. Qed.

Lemma conversion_of_conversion_code c :
  conversion_of_code (conversion_code c) = c /\ in_u 8 (conversion_code c) /\ conversion_code c <= 3.
Proof. by destruct c. Qed.

Lemma flags_of_column c :
  in_u 8 (column_flags c) /\ (Z.land (column_flags c) (Z.lnot kKnownFlags) =? 0) = true /\
  negb (Z.land (column_flags c) kFlagNullable =? 0) = nullable c /\
  negb (Z.land (column_flags c) kFlagRequired =? 0) = required c /\
  negb (Z.land (column_flags c) kFlagHasDefault =? 0) = has_default c.
Proof. unfold column_flags. by destruct (nullable c), (required c), (has_default c). Qed.

Lemma in_u8_len {A} (l : list A) : len l < 256 -> in_u 8 (len l).
Proof. unfold in_u. lia. Qed.

Lemma reads_type t : in_u 32 (size t) -> reads DecodeType ([kind_code (kind t)] ++ le_bytes 4 (size t)) t.
Proof.
  intros H. destruct (kind_of_kind_code (kind t)) as (Hk & Ek & Hb). unfold DecodeType.
  eapply reads_bind; [by apply reads_byte|]. eapply reads_bind_nil; [apply reads_guard; by rewrite Hk|].
  rewrite Ek. destruct t as [k n]. apply (reads_last (Le 4) (fun n => {| kind := k; size := n |})).
  by apply reads_Le.
Qed.

Lemma reads_column c : column_fits c -> reads DecodeColumn (EncodeColumn c) c.
Proof.
  intros (Hi & Hs & Hn & Hd). destruct (flags_of_column c) as (Hf & Hk & E1 & E2 & E3).
  unfold DecodeColumn, EncodeColumn. eapply reads_bind; [by apply reads_Le|].
  rewrite (app_assoc [_] (le_bytes 4 _)). eapply reads_bind; [by apply reads_type|].
  eapply reads_bind; [by apply reads_byte|]. eapply reads_bind_nil; [apply reads_guard; by rewrite Hk|].
  rewrite E1, E2, E3. rewrite wrap_small by by apply in_u8_len.
  eapply reads_bind; [apply reads_byte; by apply in_u8_len|].
  eapply reads_bind; [by apply reads_Bytes|].
  destruct c as [i n t nu rq has dv]; cbn [has_default name default_value id type nullable required] in *.
  apply (reads_last _ (fun value => {| id := i; name := n; type := t; nullable := nu; required := rq;
    has_default := has; default_value := value |})).
  destruct has; [|rewrite Hd; apply reads_ret]. unfold kMaxVariableValueBytes in Hd.
  eapply reads_bind; [apply reads_Le; unfold in_u; lia|].
  eapply reads_bind_nil; [apply reads_guard, Z.ltb_ge; unfold kMaxVariableValueBytes; lia|]. by apply reads_Bytes.
Qed.

Lemma reads_change ch : change_fits ch -> reads DecodeChange (EncodeChange ch) ch.
Proof.
  intros (Hp & Hc & Ho & Hprev). destruct (change_of_kind_code (change_kind ch)) as (Hk & Ek & Hb).
  unfold DecodeChange, EncodeChange. eapply reads_bind; [by apply reads_byte|].
  eapply reads_bind_nil; [apply reads_guard; by rewrite Hk|]. rewrite Ek.
  eapply reads_bind; [by apply reads_Le|]. eapply reads_bind; [by apply reads_column|].
  apply (reads_bind _ _ _ _ (old_name ch)).
  { destruct (bool_decide (change_kind ch = kRenameColumn)); [|rewrite Ho; apply reads_ret]. rewrite wrap_small by by apply in_u8_len.
    eapply reads_bind; [apply reads_byte; by apply in_u8_len|]. by apply reads_Bytes. }
  destruct ch as [k at_ c old prev conv]; cbn [change_kind position column old_name previous_column conversion] in *.
  apply (reads_last _ (fun p => {| change_kind := k; position := at_; column := c; old_name := old;
    previous_column := p.1; conversion := p.2 |}) _ (prev, conv)).
  destruct (bool_decide (k = kChangeType)); [|destruct Hprev as [-> ->]; apply reads_ret].
  destruct (conversion_of_conversion_code conv) as (Ec & Hcb & Hc3).
  eapply reads_bind; [by apply reads_column|]. rewrite <- (app_nil_r [_]).
  eapply reads_bind; [by apply reads_byte|]. eapply reads_bind_nil; [apply reads_guard, Z.ltb_ge; lia|].
  rewrite Ec. apply reads_ret.
Qed.

Lemma reads_step st v : step_fits st -> step_short st -> step_version st = v -> step_changes st <> [] ->
  reads (DecodeStep v) (EncodeStep st) st.
Proof.
  intros [_ Hall] Hl Hv Hne. unfold DecodeStep, EncodeStep. unfold step_short, kMaxColumnsPerTable in *.
  eapply reads_bind; [apply reads_Le; unfold in_u; lia|]. eapply reads_bind_nil.
  { apply reads_guard. destruct (step_changes st); [done|]. cbn [length] in *.
    rewrite orb_false_iff, Z.eqb_neq, Z.ltb_ge. unfold kMaxColumnsPerTable. lia. }
  rewrite Nat2Z.id. destruct st as [v' cs]; cbn [step_changes step_version] in *. subst v'.
  apply (reads_last _ (fun cs => {| step_version := v; step_changes := cs |})).
  apply reads_repeat. eapply Forall_impl; [exact Hall|]. apply reads_change.
Qed.

Lemma reads_steps l : forall v, Forall step_fits l -> Forall step_short l ->
  (forall k st, l !! k = Some st -> step_version st = Z.of_nat k + v /\ step_changes st <> []) ->
  reads (DecodeSteps (length l) v) (concat (EncodeStep <$> l)) l.
Proof.
  induction l as [|st l IH]; intros v Hall Hshort Hnum; [apply reads_ret|].
  apply Forall_cons in Hall as [Hst Hall], Hshort as [Hss Hshort]. cbn [length DecodeSteps fmap list_fmap concat].
  destruct (Hnum 0%nat st eq_refl) as [Hv Hne]. eapply reads_bind; [apply reads_step; [done|done|lia|done]|].
  apply (reads_last _ (cons st)). apply IH; [done|done|]. intros k st' Hk. destruct (Hnum (S k) st' Hk). split; [lia|done].
Qed.

Definition too_many_changes : exn := runtime_error "schema version has changes".

(** The first step with too many changes stops the decoder. *)
Lemma long_step_refused l : forall v rest, Forall step_fits l -> ~ Forall step_short l ->
  (forall k st, l !! k = Some st -> step_version st = Z.of_nat k + v /\ step_changes st <> []) ->
  DecodeSteps (length l) v (concat (EncodeStep <$> l) ++ rest) = Err too_many_changes.
Proof.
  induction l as [|st l IH]; intros v rest Hall Hlong Hnum; [destruct Hlong; constructor|].
  apply Forall_cons in Hall as [Hst Hall]. cbn [length DecodeSteps fmap list_fmap concat]. rewrite <- app_assoc.
  destruct (Hnum 0%nat st eq_refl) as [Hv Hne]. destruct (decide (step_short st)) as [Hs|Hs].
  - erewrite run_bind by (apply reads_step; [done|done|lia|done]). unfold mbind, reader_bind. rewrite IH; [done|done| |].
    + intros Hf. apply Hlong. by constructor.
    + intros k st' Hk. destruct (Hnum (S k) st' Hk). split; [lia|done].
  - unfold DecodeStep, EncodeStep. rewrite <- app_assoc. unfold mbind at 1, reader_bind at 1. destruct Hst as [Hlt _]. unfold step_short in Hs.
    erewrite run_bind by (apply reads_Le; unfold in_u; lia). unfold mbind at 1, reader_bind at 1.
    rewrite (proj2 (Z.ltb_lt (kMaxColumnsPerTable * 2) _)), orb_true_r by lia. done.
Qed.

Lemma DecodePending_end p : match p with
    | None => True
    | Some p => in_u 32 (pending_column_id p) /\ in_u 32 (size (pending_type p))
    end -> DecodePending (EncodePending p) = Ok (p, []).
Proof.
  destruct p as [[i t]|]; [|done]. cbn [pending_column_id pending_type]. intros [Hi Ht].
  unfold DecodePending, EncodePending. cbn [pending_column_id pending_type].
  unfold mbind at 1, reader_bind at 1, AtEnd. rewrite bool_decide_false by done. cbv match beta.
  match goal with |- ?m _ = _ => assert (reads m ([1] ++ le_bytes 4 i ++ [kind_code (kind t)] ++ le_bytes 4 (size t))
    (Some {| pending_column_id := i; pending_type := t |})) as R end.
  { eapply reads_bind; [by apply reads_byte|]. eapply reads_bind_nil; [by apply reads_guard|].
    eapply reads_bind; [by apply reads_Le|].
    apply (reads_last _ (fun t => Some {| pending_column_id := i; pending_type := t |})). by apply reads_type. }
  specialize (R []). rewrite app_nil_r in R. exact R.
Qed.

(** What the decoder makes of an encoded schema. *)
Lemma encoded_fields s : schema_fits s -> ValidateTableSchema s = Ok tt ->
  DecodeSchemaFields (le_bytes 8 (version s) ++ le_bytes 4 (next_column_id s) ++ le_bytes 4 (len (columns s)) ++
    concat (EncodeColumn <$> columns s) ++ concat (EncodeStep <$> history s) ++ EncodePending (pending s))
  = if decide (steps_short s) then Ok (s, []) else Err too_many_changes.
Proof.
  intros (Hv & Hid & Hcs & Hh & Hp) H.
  pose proof (proj1 (ValidateTableSchema_ok s Hv) H) as (Hc & Hb & Hl & _).
  apply ValidateColumns_ok in Hc as (_ & Hn & _).
  unfold DecodeSchemaFields. unfold kMaxColumnsPerTable, kMaxSchemaVersions in *.
  erewrite run_bind by by apply reads_Le. erewrite run_bind by by apply reads_Le.
  erewrite run_bind by (apply reads_Le; unfold in_u; lia).
  erewrite run_bind_nil by (apply reads_guard, Z.ltb_ge; unfold kMaxColumnsPerTable; lia). rewrite Nat2Z.id.
  erewrite run_bind by (apply reads_repeat; eapply Forall_impl; [exact Hcs|apply reads_column]).
  unfold in_u in Hv. erewrite run_bind_nil.
  2:{ apply reads_guard. rewrite orb_false_iff, Z.eqb_neq, Z.ltb_ge, wrap_small by (unfold in_u; lia).
      unfold kMaxSchemaVersions. lia. }
  rewrite <- Hl, Nat2Z.id. case_decide as Hshort.
  - erewrite run_bind by (apply reads_steps; [done|done|]; by apply history_numbered).
    unfold mbind at 1, reader_bind at 1. rewrite DecodePending_end by done. by destruct s.
  - unfold mbind at 1, reader_bind at 1. rewrite long_step_refused; [done|done|done|]. by apply history_numbered.
Qed.

(** A step of a table's life adds one change. *)
Lemma step_keeps_short s s' : in_u 64 (version s) -> schema_step s s' -> steps_short s -> steps_short s'.
Proof.
  intros Hu [s1 Ha|n t s1 H|] Hs; [| |done].
  - destruct (alters_change s s1 Hu Ha) as (change & cs & next_id & Hn & _).
    apply NextVersion_ok in Hn as (_ & _ & _ & ->); [|done]. apply Forall_app_2; [exact Hs|]. constructor; [by vm_compute|constructor].
  - unfold WithPendingNarrowing in H. res_inv. by subst s1.
Qed.



(** ** Encoding what was decoded *)

Lemma bind_inv {A B} (m : reader A) (f : A -> reader B) left b left' :
  (m ≫= f) left = Ok (b, left') -> exists a mid, m left = Ok (a, mid) /\ f a mid = Ok (b, left').
Proof.
  unfold mbind, reader_bind. destruct (m left) as [[a mid]|] eqn:E; [|done]. intros H. by exists a, mid.
Qed.

Lemma refuse_if_inv b e left u left' : refuse_if b e left = Ok (u, left') -> b = false /\ left' = left.
Proof. unfold refuse_if. destruct b; [done|]. intros H. by injection H as <- <-. Qed.

Lemma Le_inv n left v left' : bytes_ok left -> Le n left = Ok (v, left') ->
  left = le_bytes n v ++ left' /\ bytes_ok left' /\ in_u (8 * Z.of_nat n) v.
Proof.
  intros Hb H. unfold Le in H. apply bind_inv in H as (? & mid & Hn & H). unfold Need in Hn.
  destruct (Z.ltb_spec (len left) (Z.of_nat n)) as [|Hl]; [done|]. injection Hn as _ <-. cbn in H.
  injection H as <- <-. rewrite <- (take_drop n left) in Hb at 1. apply Forall_app in Hb as [Hb1 Hb2].
  assert (length (take n left) = n) as El by (rewrite length_take; lia).
  split; [|split; [done|]].
  - rewrite <- El at 1. by rewrite le_bytes_le_value, take_drop.
  - rewrite <- El at 1. by apply le_value_bound.
Qed.

Lemma Le_byte_inv left v left' : bytes_ok left -> Le 1 left = Ok (v, left') ->
  left = [v] ++ left' /\ bytes_ok left' /\ byte_ok v.
Proof.
  intros Hb H. apply Le_inv in H as (E & Hb' & Hv); [|done]. unfold in_u in Hv. change (2 ^ (8 * Z.of_nat 1)) with 256 in Hv.
  split; [|done]. rewrite E. cbn [le_bytes]. rewrite land_255, Z.mod_small by done. done.
Qed.

Lemma Bytes_inv n left b left' : bytes_ok left -> 0 <= n -> Bytes n left = Ok (b, left') ->
  left = b ++ left' /\ bytes_ok left' /\ len b = n.
Proof.
  intros Hb Hn H. unfold Bytes in H. apply bind_inv in H as (? & mid & H1 & H). unfold Need in H1.
  destruct (Z.ltb_spec (len left) n) as [|Hl]; [done|]. injection H1 as _ <-. injection H as <- <-.
  rewrite <- (take_drop (Z.to_nat n) left) in Hb at 1. apply Forall_app in Hb as [_ Hb].
  split; [by rewrite take_drop|]. split; [done|]. rewrite length_take. lia.
Qed.

Lemma repeat_inv {A} (m : reader A) enc n : undone_by m enc -> forall left l left', bytes_ok left ->
  repeat_read n m left = Ok (l, left') -> left = concat (enc <$> l) ++ left' /\ bytes_ok left' /\ length l = n.
Proof.
  intros Hm. induction n as [|n IH]; intros left l left' Hb H; cbn [repeat_read] in H.
  { by injection H as <- <-. }
  apply bind_inv in H as (a & mid & Ha & H). apply bind_inv in H as (l0 & mid' & Hl & H). injection H as <- <-.
  destruct (Hm _ _ _ Hb Ha) as [-> Hb']. destruct (IH _ _ _ Hb' Hl) as (-> & Hb'' & <-).
  cbn. by rewrite <- app_assoc.
Qed.

(** Takes a hypothesis [m left = Ok (a, left')] apart, reader by reader. *)
Ltac reader_inv :=
  repeat match goal with
  | H : (_ ≫= _) _ = Ok _ |- _ =>
      let a := fresh "a" in let mid := fresh "mid" in let Ha := fresh "Hr" in
      apply bind_inv in H as (a & mid & Ha & H)
  | H : refuse_if _ _ _ = Ok _ |- _ =>
      let E := fresh "E" in apply refuse_if_inv in H as [H E]; subst
  | H : mret _ _ = Ok _ |- _ => injection H as <- <-
  end.

Lemma kind_code_of k : IsKnownKind k = true -> kind_code (kind_of_code k) = k.
Proof.
  unfold IsKnownKind. intros [H1%Z.leb_le H2%Z.leb_le]%andb_true_iff.
  assert (k = 1 \/ k = 2 \/ k = 3 \/ k = 4 \/ k = 5 \/ k = 6 \/ k = 7 \/ k = 8) as Hk by lia.
  by destruct Hk as [->|[->|[->|[->|[->|[->|[->| ->]]]]]]].
Qed.

Lemma type_inv : undone_by DecodeType (fun t => [kind_code (kind t)] ++ le_bytes 4 (size t)).
Proof.
  intros left t left' Hb H. unfold DecodeType in H. reader_inv.
  apply Le_byte_inv in Hr as (-> & Hb1 & _); [|done]. apply Le_inv in Hr1 as (-> & Hb2 & _); [|done].
  apply negb_false_iff in Hr0. cbn [kind size]. by rewrite kind_code_of.
Qed.

(** The flags are the three bits. *)
Lemma flags_inv f i n t dv : byte_ok f -> (Z.land f (Z.lnot kKnownFlags) =? 0) = true ->
  column_flags {| id := i; name := n; type := t; nullable := negb (Z.land f kFlagNullable =? 0);
    required := negb (Z.land f kFlagRequired =? 0); has_default := negb (Z.land f kFlagHasDefault =? 0);
    default_value := dv |} = f.
Proof.
  intros Hf Hk. unfold column_flags. cbn [nullable required has_default].
  assert (forallb (fun f => negb (Z.land f (Z.lnot kKnownFlags) =? 0) ||
    (Z.lor (Z.lor (if negb (Z.land f kFlagNullable =? 0) then kFlagNullable else 0)
        (if negb (Z.land f kFlagRequired =? 0) then kFlagRequired else 0))
        (if negb (Z.land f kFlagHasDefault =? 0) then kFlagHasDefault else 0) =? f)) (seqZ 0 256) = true) as Hall
    by by vm_compute.
  rewrite forallb_forall in Hall. specialize (Hall f). rewrite Hk in Hall. cbn [negb orb] in Hall.
  apply Z.eqb_eq, Hall. apply list_elem_of_In, elem_of_seqZ. unfold byte_ok in Hf. lia.
Qed.

Lemma column_inv : undone_by DecodeColumn EncodeColumn.
Proof.
  intros left c left' Hb H. unfold DecodeColumn in H. reader_inv.
  apply Le_inv in Hr as (-> & Hb1 & _); [|done]. apply type_inv in Hr0 as [-> Hb2]; [|done].
  apply Le_byte_inv in Hr1 as (-> & Hb3 & Hf); [|done]. apply negb_false_iff in Hr2.
  apply Le_byte_inv in Hr3 as (-> & Hb4 & Hn); [|done]. unfold byte_ok in Hn.
  apply Bytes_inv in Hr4 as (-> & Hb5 & El); [|done|lia].
  unfold EncodeColumn. rewrite flags_inv by done. cbn [id type name has_default default_value].
  rewrite El, wrap_small by (unfold in_u; lia). rewrite <- !app_assoc.
  destruct (negb (Z.land a1 kFlagHasDefault =? 0)); reader_inv; [|done].
  apply Le_inv in Hr as (-> & Hb6 & Hlen); [|done]. unfold in_u in Hlen.
  apply Bytes_inv in Hr5 as (-> & Hb7 & <-); [|done|lia]. by rewrite <- !app_assoc.
Qed.

Lemma change_code_of k : IsKnownChange k = true -> change_kind_code (change_of_code k) = k.
Proof.
  unfold IsKnownChange. intros [H1%Z.leb_le H2%Z.leb_le]%andb_true_iff.
  assert (k = 1 \/ k = 2 \/ k = 3 \/ k = 4) as [->|[->|[->| ->]]] by lia; done.
Qed.

Lemma conversion_code_of k : 0 <= k <= 3 -> conversion_code (conversion_of_code k) = k.
Proof. intros H. assert (k = 0 \/ k = 1 \/ k = 2 \/ k = 3) as [->|[->|[->| ->]]] by lia; done. Qed.

(** The parts of a change only some kinds have. *)
Lemma old_name_inv (b : bool) left n left' : bytes_ok left ->
  (if b then n ← Le 1; Bytes n else mret [] : reader bytes) left = Ok (n, left') ->
  left = (if b then [u8 (len n)] ++ n else []) ++ left' /\ bytes_ok left'.
Proof.
  intros Hb H. destruct b; reader_inv; [|done].
  apply Le_byte_inv in Hr as (-> & Hb1 & Hn); [|done]. unfold byte_ok in Hn.
  apply Bytes_inv in H as (-> & Hb2 & El); [|done|lia]. by rewrite El, wrap_small by (unfold in_u; lia).
Qed.

Lemma previous_inv (b : bool) left pr left' : bytes_ok left ->
  (if b then
     p ← DecodeColumn;
     conv ← Le 1;
     _ ← refuse_if (3 <? conv) (runtime_error "unknown type conversion");
     mret (p, conversion_of_code conv)
   else mret (no_column, kExact) : reader (Column * Conversion)) left = Ok (pr, left') ->
  left = (if b then EncodeColumn pr.1 ++ [conversion_code pr.2] else []) ++ left' /\ bytes_ok left'.
Proof.
  intros Hb H. destruct b; reader_inv; [|done].
  apply column_inv in Hr as [-> Hb1]; [|done]. apply Le_byte_inv in Hr0 as (-> & Hb2 & Hn); [|done].
  unfold byte_ok in Hn. apply Z.ltb_ge in Hr1. cbn [fst snd].
  by rewrite conversion_code_of, <- app_assoc by lia.
Qed.

Lemma change_inv : undone_by DecodeChange EncodeChange.
Proof.
  intros left c left' Hb H. unfold DecodeChange in H. reader_inv.
  apply Le_byte_inv in Hr as (-> & Hb1 & _); [|done]. apply negb_false_iff in Hr0.
  apply Le_inv in Hr1 as (-> & Hb2 & _); [|done]. apply column_inv in Hr2 as [-> Hb3]; [|done].
  apply old_name_inv in Hr3 as [-> Hb4]; [|done]. apply previous_inv in Hr4 as [-> Hb5]; [|done].
  unfold EncodeChange. cbn [change_kind position column old_name previous_column conversion].
  by rewrite change_code_of, <- !app_assoc by done.
Qed.

Lemma step_inv v left st left' : bytes_ok left -> DecodeStep v left = Ok (st, left') ->
  left = EncodeStep st ++ left' /\ bytes_ok left'.
Proof.
  intros Hb H. unfold DecodeStep in H. reader_inv. apply Le_inv in Hr as (-> & Hb1 & Hn); [|done].
  unfold in_u in Hn. apply (repeat_inv _ _ _ change_inv) in Hr1 as (-> & Hb2 & El); [|done].
  unfold EncodeStep. cbn [step_changes]. rewrite El, Z2Nat.id, <- app_assoc by lia. done.
Qed.

Lemma steps_inv n : forall v left l left', bytes_ok left -> DecodeSteps n v left = Ok (l, left') ->
  left = concat (EncodeStep <$> l) ++ left' /\ bytes_ok left'.
Proof.
  induction n as [|n IH]; intros v left l left' Hb H; cbn [DecodeSteps] in H; reader_inv; [done|].
  apply step_inv in Hr as [-> Hb1]; [|done]. apply IH in Hr0 as [-> Hb2]; [|done].
  cbn. by rewrite <- app_assoc.
Qed.

Lemma pending_inv left p left' : bytes_ok left -> DecodePending left = Ok (p, left') ->
  left = EncodePending p ++ left' /\ bytes_ok left'.
Proof.
  intros Hb H. unfold DecodePending in H. reader_inv. unfold AtEnd in Hr. injection Hr as <- <-.
  case_bool_decide; reader_inv; [done|]. apply Le_byte_inv in Hr as (-> & Hb1 & _); [|done].
  apply negb_false_iff, Z.eqb_eq in Hr0. subst. apply Le_inv in Hr1 as (-> & Hb2 & _); [|done].
  apply type_inv in Hr2 as [-> Hb3]; [|done]. unfold EncodePending. cbn [pending_column_id pending_type].
  by rewrite <- !app_assoc.
Qed.

(** C30: the encoding is canonical: whatever bytes are accepted as a schema, the schema read from them is
    valid and encodes to exactly those bytes, so no two areas stand for one schema. *)
Theorem schema_decode_canonical b s : bytes_ok b -> DecodeTableSchema b = Ok s ->
  ValidateTableSchema s = Ok tt /\ EncodeTableSchema s = Ok b.
Proof.
  intros Hb H. unfold DecodeTableSchema in H. res_inv. destruct a as [s' left]. res_inv. subst s'. units.
  split; [done|]. unfold EncodeTableSchema. rewrite Hs0, bind_Ok_l. f_equal.
  unfold DecodeSchemaFields in Hs. reader_inv. apply Le_inv in Hr as (-> & Hb1 & _); [|done].
  apply Le_inv in Hr0 as (-> & Hb2 & _); [|done]. apply Le_inv in Hr1 as (-> & Hb3 & Hn); [|done].
  unfold in_u in Hn. apply (repeat_inv _ _ _ column_inv) in Hr3 as (-> & Hb4 & El); [|done].
  apply steps_inv in Hr5 as [-> Hb5]; [|done]. apply pending_inv in Hr6 as [-> Hb6]; [|done].
  unfold AtEnd in Hr7. injection Hr7 as <- <-. apply negb_false_iff, bool_decide_eq_true in Hr8. subst.
  cbn [version next_column_id columns history pending]. by rewrite El, Z2Nat.id, app_nil_r by lia.
Qed.

Lemma schema_decode_witness :
  exists b s, DecodeTableSchema b = Ok s /\ EncodeTableSchema s = Ok b.
Proof.
  exists example_area, example_schema.
  split; [vm_compute; reflexivity|].
  apply (schema_decode_canonical _ example_schema).
  - apply (bool_decide_unpack _). vm_compute. exact I.
  - vm_compute. reflexivity.
Defined.

End SchemaCodec.
