(* ===== verification/Layout.v ===== *)
(** * The layout of a chunk's payload (src/src/chunk_layout.cpp)

    Where the fixed-width values of a schema live in a chunk's payload: for
    each fixed-width column in order its values, block after block, padded to a
    byte, then for a nullable column its validity bits, padded to a byte.  The
    file models the layout's constructor, the bit copies, the clean-up of
    padding and of values of absent blocks, and the translation of a chunk from
    one schema version to a later one.

    [kNoValidity] is [None].  A pointer into the payload, [data + begin], with
    a bit index is the index [8 * begin + bit] of the payload.  The sizes stay
    far below the width of size_t: Geometry admits 2^20 blocks and a schema
    65535 fixed bits per block. *)
From stdpp Require Import prelude strings gmap.
From stdpp Require Import sorting.
From Stdlib Require Import ZArith Lia.
From S2P Require Import Prelude Bits Utf8 Vars Columns Schema.

#[local] Open Scope Z_scope.

Module Layout.
Import Columns Schema.

(** ** Bits of a payload *)

Definition BytesForBits (bits : Z) : Z := (bits + 7) / 8.

Definition GetBit (data : bytes) (bit : Z) : bool :=
  negb (Z.land (Z.shiftr (byte_at data (bit / 8)) (bit mod 8)) 1 =? 0).

Definition PutBit (data : bytes) (bit : Z) (value : bool) : bytes := set_bit data bit value.

Definition ClearBits (data : bytes) (bit_offset width : Z) : bytes :=
  if (bit_offset mod 8 =? 0) && (width mod 8 =? 0) then splice data (bit_offset / 8) (zeros (width / 8))
  else fold_left (fun d i => PutBit d (bit_offset + i) false) (seqZ 0 width) data.

Definition ClearTail (data : bytes) (begin_ nbytes used_bits : Z) : bytes :=
  fold_left (fun d bit => PutBit d (8 * begin_ + bit) false) (seqZ used_bits (nbytes * 8 - used_bits)) data.

Definition WriteValueBits (payload : bytes) (bit_offset : Z) (value : bytes) (width : Z) : bytes :=
  if (bit_offset mod 8 =? 0) && (width mod 8 =? 0)
  then splice payload (bit_offset / 8) (slice value 0 (width / 8))
  else fold_left (fun d i => PutBit d (bit_offset + i) (GetBit value i)) (seqZ 0 width) payload.

Definition ReadValueBits (payload : bytes) (bit_offset width : Z) : bytes :=
  if (bit_offset mod 8 =? 0) && (width mod 8 =? 0) then slice payload (bit_offset / 8) (width / 8)
  else fold_left (fun v i => if GetBit payload (bit_offset + i) then PutBit v i true else v)
         (seqZ 0 width) (zeros (BytesForBits width)).

(** ** The layout *)

Record FixedColumn := {
  fixed_column : nat;
  width : Z;
  values : Z;
  validity : option Z
}.

Record ChunkLayout := {
  schema_ : TableSchema;
  block_count_ : Z;
  payload_bytes_ : Z;
  payload_bytes_limit_ : Z;
  fixed_ : list FixedColumn;
  fixed_index_ : list (option nat);
  by_name_ : gmap (list Z) nat;
  var_by_id_ : gmap Z nat;
  by_id_ : gmap Z nat;
  bit_string_blocks_ : bool
}.

(** [emplace] keeps the entry a key has. *)
Definition emplace `{Countable K} {A} (k : K) (a : A) (m : gmap K A) : gmap K A :=
  match m !! k with Some _ => m | None => <[k := a]> m end.

(** The members the constructor's loop builds, with [offset]. *)
Record Placing := {
  p_offset : Z;
  p_fixed : list FixedColumn;
  p_index : list (option nat);
  p_name : gmap (list Z) nat;
  p_var : gmap Z nat;
  p_id : gmap Z nat
}.

Definition PlaceColumn (block_count max_payload_bytes : Z) (p : Placing) (ic : nat * Column) : res Placing :=
  let '(i, c) := ic in
  let w := FixedWidthBits (type c) in
  let names := emplace (name c) i (p_name p) in
  let ids := emplace (id c) i (p_id p) in
  if w =? 0 then
    Ok {| p_offset := p_offset p; p_fixed := p_fixed p; p_index := p_index p; p_name := names;
          p_var := emplace (id c) i (p_var p); p_id := ids |}
  else
    let offset := p_offset p + BytesForBits (block_count * w) in
    let valid := if nullable c then Some offset else None in
    let offset := if nullable c then offset + BytesForBits block_count else offset in
    _ ← throw_if (max_payload_bytes <? offset) (invalid_argument "chunk payload must be <=");
    Ok {| p_offset := offset;
          p_fixed := p_fixed p ++ [{| fixed_column := i; width := w; values := p_offset p; validity := valid |}];
          p_index := <[i := Some (length (p_fixed p))]> (p_index p);
          p_name := names; p_var := p_var p; p_id := ids |}.

Definition MakeLayout (schema : TableSchema) (block_count max_payload_bytes : Z) : res ChunkLayout :=
  _ ← ValidateTableSchema schema;
  p ← fold_res (PlaceColumn block_count max_payload_bytes)
        {| p_offset := 0; p_fixed := []; p_index := replicate (length (columns schema)) None;
           p_name := ∅; p_var := ∅; p_id := ∅ |} (imap pair (columns schema));
  Ok {| schema_ := schema; block_count_ := block_count; payload_bytes_ := p_offset p;
        payload_bytes_limit_ := max_payload_bytes; fixed_ := p_fixed p; fixed_index_ := p_index p;
        by_name_ := p_name p; var_by_id_ := p_var p; by_id_ := p_id p;
        bit_string_blocks_ :=
          (length (columns schema) =? 1)%nat &&
          match columns schema with
          | c :: _ => bool_decide (kind (type c) = kBits) && negb (nullable c)
          | [] => false
          end |}.

Definition FixedColumnAt (l : ChunkLayout) (index : nat) : option FixedColumn :=
  match fixed_index_ l !! index with
  | Some (Some k) => fixed_ l !! k
  | _ => None
  end.

Definition VarColumn (l : ChunkLayout) (column_id : Z) : option Column :=
  match var_by_id_ l !! column_id with
  | Some i => columns (schema_ l) !! i
  | None => None
  end.

Definition IndexOfId (l : ChunkLayout) (column_id : Z) : option nat := by_id_ l !! column_id.
Definition FindColumn (l : ChunkLayout) (n : bytes) : option nat := by_name_ l !! n.

(** ** Clean-up *)

(** [for (const auto entry : vars)]. *)
Definition entries (v : Vars.ChunkVars) : list (Vars.VarKey * bytes) :=
  map (fun o => (Vars.KeyAt v o, Vars.ValueAt v o)) (Vars.offsets_ v).

Definition RequireValidVar (l : ChunkLayout) (presence : bytes) (e : Vars.VarKey * bytes) : res unit :=
  let '(key, value) := e in
  match VarColumn l (Vars.column_id key) with
  | None => Err (invalid_argument "no text or bytes column has this id")
  | Some c =>
      _ ← throw_if ((block_count_ l <=? Vars.block_index key) || negb (GetBit presence (Vars.block_index key)))
            (invalid_argument "a value of an absent block");
      _ ← throw_if (size (type c) <? len value) (invalid_argument "longer than");
      _ ← throw_if (bool_decide (value = []) && negb (nullable c))
            (invalid_argument "an empty value stored in a column that cannot be NULL");
      throw_if (bool_decide (kind (type c) = kText) && negb (Utf8.IsUtf8 value))
        (invalid_argument "text that is not UTF-8")
  end.

Definition RequireValidVars (l : ChunkLayout) (vars : Vars.ChunkVars) (presence : bytes) : res unit :=
  fold_res (fun _ e => RequireValidVar l presence e) tt (entries vars).

Definition MaskColumn (l : ChunkLayout) (payload : bytes) (f : FixedColumn) : bytes :=
  let value_bits := block_count_ l * width f in
  let payload := ClearTail payload (values f) (BytesForBits value_bits) value_bits in
  match validity f with
  | Some v => ClearTail payload v (BytesForBits (block_count_ l)) (block_count_ l)
  | None => payload
  end.

Definition MaskPadding (l : ChunkLayout) (payload : bytes) : res bytes :=
  _ ← throw_if (negb (len payload =? payload_bytes_ l))
        (invalid_argument "payload size does not match the table's columns");
  Ok (fold_left (MaskColumn l) (fixed_ l) payload).

(** The blocks of a group whose bit of [kept] is not set lose their values. *)
Definition ClearValues (l : ChunkLayout) (f : FixedColumn) (kept : Z) (data : bytes) (group : Z) : bytes :=
  if negb (kept =? 0xFF) then
    let end_ := Z.min (block_count_ l) (group * 8 + 8) in
    fold_left
      (fun d block =>
         if Z.land (Z.shiftr kept (block mod 8)) 1 =? 0
         then ClearBits d (values f * 8 + block * width f) (width f) else d)
      (seqZ (group * 8) (end_ - group * 8)) data
  else data.

(** One turn of the loop over groups of eight blocks. *)
Definition ClearGroup (l : ChunkLayout) (presence : bytes) (f : FixedColumn) (data : bytes) (group : Z) : bytes :=
  match validity f with
  | Some v =>
      let data := ClearValues l f (Z.land (byte_at presence group) (byte_at data (v + group))) data group in
      set_byte data (v + group) (Z.land (byte_at data (v + group)) (byte_at presence group))
  | None => ClearValues l f (byte_at presence group) data group
  end.

Definition ClearColumn (l : ChunkLayout) (presence : bytes) (data : bytes) (f : FixedColumn) : bytes :=
  fold_left (ClearGroup l presence f) (seqZ 0 (BytesForBits (block_count_ l))) data.

Definition ClearEmptyValues (l : ChunkLayout) (presence payload : bytes) : res bytes :=
  _ ← throw_if (negb (len payload =? payload_bytes_ l) || negb (len presence =? BytesForBits (block_count_ l)))
        (invalid_argument "chunk state size does not match the table's columns");
  Ok (fold_left (ClearColumn l presence) (fixed_ l) payload).

(** ** Translation to a later version *)

Definition ConversionOf (from to : ChunkLayout) (column_id : Z) : res Conversion :=
  _ ← throw_if (negb (version (schema_ to) =? u64 (version (schema_ from) + 1)) ||
                (length (history (schema_ to)) =? 0)%nat)
        (logic_error "a type change is translated one version at a time");
  match last (history (schema_ to)) with
  | None => Err (undefined "history.back()")
  | Some step =>
      match List.find (fun ch => bool_decide (change_kind ch = kChangeType) && (id (column ch) =? column_id))
              (step_changes step) with
      | Some ch => Ok (conversion ch)
      | None => Err (logic_error "column changed its type without a recorded change")
      end
  end.

(** What becomes of a stored text or bytes value: the change, if any. *)
Definition ConvertVar (before after : Column) (conv : Conversion) (e : Vars.VarKey * bytes)
    : res (list Vars.VarChange) :=
  let '(key, stored) := e in
  if negb (Vars.column_id key =? id after) then Ok []
  else
    value ← ConvertValue before after conv (DecodeVarValue before stored);
    nbytes ← (if bool_decide (value = VNull) then Ok None
              else b ← EncodeVarValue after value;
                   Ok (if bool_decide (b = []) && negb (nullable after) then None else Some b));
    Ok (if bool_decide (nbytes = Some stored) then []
        else [{| Vars.change_key := key; Vars.change_value := nbytes |}]).

(** One block of a fixed-width column whose type changed. *)
Definition ConvertBlock (before after : Column) (conv : Conversion) (old_fixed new_fixed : FixedColumn)
    (presence payload : bytes) (next : bytes) (block : Z) : res bytes :=
  if negb (GetBit presence block) then Ok next
  else
    value ← (if match validity old_fixed with None => true | Some v => GetBit payload (8 * v + block) end
             then DecodeColumnValue before
                    (ReadValueBits payload (values old_fixed * 8 + block * width old_fixed) (width old_fixed))
             else Ok VNull);
    value ← ConvertValue before after conv value;
    if bool_decide (value = VNull) then Ok next
    else
      encoded ← EncodeColumnValueInto after value;
      let next := WriteValueBits next (values new_fixed * 8 + block * width new_fixed) encoded (width new_fixed) in
      Ok (match validity new_fixed with Some v => PutBit next (8 * v + block) true | None => next end).

(** The payload being built and the changes of the variable-length values. *)
Abbreviation translated := (bytes * list Vars.VarChange)%type.

Definition ConvertColumn (from to : ChunkLayout) (from_index to_index : nat) (presence payload : bytes)
    (vars : Vars.ChunkVars) (st : translated) : res translated :=
  let '(next, var_changes) := st in
  match columns (schema_ from) !! from_index, columns (schema_ to) !! to_index with
  | Some before, Some after =>
      conv ← ConversionOf from to (id after);
      match FixedColumnAt to to_index with
      | None =>
          var_changes ← fold_res (fun acc e => more ← ConvertVar before after conv e; Ok (acc ++ more))
                          var_changes (entries vars);
          Ok (next, var_changes)
      | Some new_fixed =>
          match FixedColumnAt from from_index with
          | None => Err (undefined "old_fixed->width")
          | Some old_fixed =>
              next ← fold_res (ConvertBlock before after conv old_fixed new_fixed presence payload)
                       next (seqZ 0 (block_count_ to));
              Ok (next, var_changes)
          end
      end
  | _, _ => Err (undefined "columns[index]")
  end.

(** A column both versions have with the same type: one copy of each array. *)
Definition CopyColumn (from : ChunkLayout) (from_index : nat) (block_count : Z) (fixed : option FixedColumn)
    (payload : bytes) (st : translated) : res translated :=
  let '(next, var_changes) := st in
  match fixed with
  | None => Ok st
  | Some f =>
      match FixedColumnAt from from_index with
      | None => Err (undefined "old->values")
      | Some old =>
          let next := splice next (values f) (slice payload (values old) (BytesForBits (block_count * width f))) in
          match validity f, validity old with
          | None, _ => Ok (next, var_changes)
          | Some v, Some v' => Ok (splice next v (slice payload v' (BytesForBits block_count)), var_changes)
          | Some _, None => Err (undefined "payload->data() + kNoValidity")
          end
      end
  end.

(** One block of a column added since [from]. *)
Definition AddBlock (c : Column) (fixed : option FixedColumn) (presence : bytes) (st : translated) (block : Z)
    : translated :=
  let '(next, var_changes) := st in
  if negb (GetBit presence block) then st
  else
    match fixed with
    | None =>
        if has_default c && (negb (bool_decide (default_value c = [])) || nullable c)
        then (next, var_changes ++ [{| Vars.change_key := {| Vars.column_id := id c; Vars.block_index := u32 block |};
                                       Vars.change_value := Some (default_value c) |}])
        else st
    | Some f =>
        let next := if has_default c
                    then WriteValueBits next (values f * 8 + block * width f) (default_value c) (width f)
                    else next in
        match validity f with
        | Some v => if has_default c || negb (nullable c) then (PutBit next (8 * v + block) true, var_changes)
                    else (next, var_changes)
        | None => (next, var_changes)
        end
    end.

Definition TranslateColumn (from to : ChunkLayout) (presence payload : bytes) (vars : Vars.ChunkVars)
    (st : translated) (ic : nat * Column) : res translated :=
  let '(index, c) := ic in
  let fixed := FixedColumnAt to index in
  match IndexOfId from (id c) with
  | Some from_index =>
      match columns (schema_ from) !! from_index with
      | None => Err (undefined "columns[from_index]")
      | Some before =>
          if negb (bool_decide (type before = type c))
          then ConvertColumn from to from_index index presence payload vars st
          else CopyColumn from from_index (block_count_ to) fixed payload st
      end
  | None => Ok (fold_left (AddBlock c fixed presence) (seqZ 0 (block_count_ to)) st)
  end.

(** The changes that remove the values of dropped columns. *)
Definition DropVars (to : ChunkLayout) (vars : Vars.ChunkVars) : list Vars.VarChange :=
  flat_map (fun e : Vars.VarKey * bytes =>
              match VarColumn to (Vars.column_id e.1) with
              | None => [{| Vars.change_key := e.1; Vars.change_value := None |}]
              | Some _ => []
              end) (entries vars).

Definition key_le (a b : Vars.VarChange) : Prop := Vars.packed (Vars.change_key a) <= Vars.packed (Vars.change_key b).
#[global] Instance key_le_dec : RelDecision key_le.
Proof. intros a b. unfold key_le. apply _. Defined.

Definition TranslateChunk (from to : ChunkLayout) (presence payload : bytes) (vars : Vars.ChunkVars)
    : res (bytes * Vars.ChunkVars) :=
  let block_count := block_count_ to in
  _ ← throw_if (negb (block_count_ from =? block_count) || negb (len payload =? payload_bytes_ from) ||
                negb (len presence =? BytesForBits block_count))
        (invalid_argument "chunk state does not match the layout it is translated from");
  '(next, var_changes) ← fold_res (TranslateColumn from to presence payload vars)
                           (zeros (payload_bytes_ to), []) (imap pair (columns (schema_ to)));
  let var_changes := var_changes ++ DropVars to vars in
  vars ← (if bool_decide (var_changes = []) then Ok vars
          else Vars.Merge vars (merge_sort key_le var_changes));
  Ok (next, vars).

(** ** The bit copies *)

Lemma GetBit_spec d i : 0 <= i -> GetBit d i = bit_at d i.
Proof.
  intros. unfold GetBit, bit_at. rewrite shiftr_land_1 by (by apply div_mod_8). apply negb_involutive.
Qed.

Lemma BytesForBits_bounds n : 0 <= n -> n <= 8 * BytesForBits n < n + 8.
Proof.
  intros. unfold BytesForBits. pose proof (Z.div_mod (n + 7) 8 ltac:(lia)).
  pose proof (Z.mod_pos_bound (n + 7) 8 ltac:(lia)). lia.
Qed.

(** Both are whole bytes. *)
Lemma aligned_true off w : 0 <= off -> 0 <= w -> (off mod 8 =? 0) && (w mod 8 =? 0) = true ->
  off = 8 * (off / 8) /\ w = 8 * (w / 8) /\ 0 <= off / 8 /\ 0 <= w / 8.
Proof.
  intros Ho Hw [H1%Z.eqb_eq H2%Z.eqb_eq]%andb_true_iff.
  destruct (div_mod_8 off Ho) as (_ & ? & ?), (div_mod_8 w Hw) as (_ & ? & ?). lia.
Qed.

Lemma ClearBits_spec d off w : 0 <= off -> 0 <= w -> off + w <= 8 * len d ->
  writes_bits d (ClearBits d off w) off w (fun _ => false).
Proof.
  intros Ho Hw Hl. unfold ClearBits, PutBit. destruct (_ && _) eqn:E; [|by apply writes_bits_loop].
  destruct (aligned_true off w Ho Hw E) as (E1 & E2 & ? & ?). rewrite E1 at 2. rewrite E2 at 2.
  rewrite <- (len_zeros (w / 8)) at 2 by lia. eapply writes_bits_ext; [|apply writes_bits_splice].
  - intros i Hi. apply bit_at_zeros.
  - done.
  - rewrite len_zeros by lia. lia.
  - apply bytes_ok_zeros.
Qed.

Lemma WriteValueBits_spec d off v w : 0 <= off -> 0 <= w -> off + w <= 8 * len d -> w <= 8 * len v -> bytes_ok v ->
  writes_bits d (WriteValueBits d off v w) off w (bit_at v).
Proof.
  intros Ho Hw Hl Hv Hb. unfold WriteValueBits, PutBit. destruct (_ && _) eqn:E.
  - destruct (aligned_true off w Ho Hw E) as (E1 & E2 & ? & ?). rewrite E1 at 2. rewrite E2 at 2.
    rewrite <- (len_slice v 0 (w / 8)) at 2 by lia. eapply writes_bits_ext; [|apply writes_bits_splice].
    + intros i Hi. rewrite len_slice in Hi by lia. rewrite bit_at_slice by lia.
      by rewrite (proj2 (Z.ltb_lt _ _)) by lia.
    + done.
    + rewrite len_slice by lia. lia.
    + by apply bytes_ok_slice.
  - eapply writes_bits_ext; [|by apply writes_bits_loop]. intros i Hi. apply GetBit_spec. lia.
Qed.

Lemma ClearTail_spec d k n used : 0 <= k -> 0 <= used <= 8 * n -> k + n <= len d ->
  writes_bits d (ClearTail d k n used) (8 * k + used) (8 * n - used) (fun _ => false).
Proof.
  intros Hk Hu Hl. unfold ClearTail, PutBit.
  replace (n * 8 - used) with (Z.of_nat (Z.to_nat (8 * n - used))) by lia.
  destruct (fold_set_bit (fun _ => false) (8 * k) (Z.to_nat (8 * n - used)) used d) as (H1 & H2 & H3); [lia|lia|].
  split; [done|]. split; [done|]. intros j Hj. rewrite H3 by done.
  by replace (Z.of_nat (Z.to_nat (8 * n - used))) with (8 * n - used) by lia.
Qed.

(** The loop of ReadValueBits sets the bits that are set in the payload. *)
Lemma read_loop d off n : forall a v, 0 <= off -> 0 <= a -> a + Z.of_nat n <= 8 * len v ->
  let v' := fold_left (fun v i => if GetBit d (off + i) then PutBit v i true else v) (seqZ a (Z.of_nat n)) v in
  length v' = length v /\ (bytes_ok v -> bytes_ok v') /\
  forall j, 0 <= j ->
    bit_at v' j = ((a <=? j) && (j <? a + Z.of_nat n) && bit_at d (off + j)) || bit_at v j.
Proof.
  induction n as [|n IH]; intros a v Ho Ha Hn.
  - change (seqZ a (Z.of_nat 0)) with ([] : list Z). cbn [fold_left]. repeat split; try done. intros j Hj.
    destruct (Z.leb_spec a j), (Z.ltb_spec j (a + Z.of_nat 0)); try lia; done.
  - rewrite seqZ_cons by lia. cbn [fold_left]. replace (Z.pred (Z.of_nat (S n))) with (Z.of_nat n) by lia.
    set (w := if GetBit d (off + a) then _ else _).
    assert (length w = length v) as El by (unfold w, PutBit; destruct (GetBit _ _); by rewrite ?length_set_bit).
    destruct (IH (Z.succ a) w) as (H1 & H2 & H3); [done|lia|lia|]. cbv zeta. repeat split.
    + lia.
    + intros. apply H2. unfold w, PutBit. destruct (GetBit _ _); [by apply bytes_ok_set_bit|done].
    + intros j Hj. rewrite H3 by done. unfold w. rewrite GetBit_spec by lia.
      destruct (bit_at d (off + a)) eqn:Eb; unfold PutBit; rewrite ?bit_at_set_bit by lia;
      destruct (Z.leb_spec (Z.succ a) j), (Z.leb_spec a j), (Z.ltb_spec j (Z.succ a + Z.of_nat n)),
        (Z.ltb_spec j (a + Z.of_nat (S n))), (Z.eqb_spec a j); subst; try lia; cbn [andb orb]; rewrite ?Eb; done.
Qed.

(** The value read: its bits, and zeros past the width. *)
Lemma ReadValueBits_spec d off w : 0 <= off -> 0 <= w -> off + w <= 8 * len d -> bytes_ok d ->
  let v := ReadValueBits d off w in
  len v = BytesForBits w /\ bytes_ok v /\
  forall i, 0 <= i -> bit_at v i = (i <? w) && bit_at d (off + i).
Proof.
  intros Ho Hw Hl Hb. unfold ReadValueBits. pose proof (BytesForBits_bounds w Hw).
  destruct (_ && _) eqn:E; cbv zeta.
  - destruct (aligned_true off w Ho Hw E) as (E1 & E2 & ? & ?). repeat split.
    + rewrite len_slice by lia. lia.
    + by apply bytes_ok_slice.
    + intros i Hi. rewrite bit_at_slice by lia. by rewrite <- E2, <- E1.
  - assert (len (zeros (BytesForBits w)) = BytesForBits w) as Hz by (apply len_zeros; lia).
    destruct (read_loop d off (Z.to_nat w) 0 (zeros (BytesForBits w))) as (H1 & H2 & H3); [lia|lia|lia|].
    rewrite (Z2Nat.id w Hw) in *. repeat split; [lia|apply H2, bytes_ok_zeros|].
    intros i Hi. rewrite H3, bit_at_zeros by done. by rewrite orb_false_r, (proj2 (Z.leb_le 0 i)) by lia.
Qed.

(** ** Where the columns are *)

(** The bytes of a column's arrays, of the columns before it, and its place. *)
Definition area (bc : Z) (c : Column) : Z :=
  if FixedWidthBits (type c) =? 0 then 0
  else BytesForBits (bc * FixedWidthBits (type c)) + (if nullable c then BytesForBits bc else 0).

Definition total (bc : Z) (cs : list Column) : Z := foldr (fun c n => area bc c + n) 0 cs.

Definition place (bc : Z) (cs : list Column) (i : nat) : option FixedColumn :=
  match cs !! i with
  | None => None
  | Some c =>
      if FixedWidthBits (type c) =? 0 then None
      else
        let v := total bc (take i cs) in
        Some {| fixed_column := i; width := FixedWidthBits (type c); values := v;
                validity := if nullable c then Some (v + BytesForBits (bc * FixedWidthBits (type c))) else None |}
  end.

Lemma total_app bc cs1 cs2 : total bc (cs1 ++ cs2) = total bc cs1 + total bc cs2.
Proof. unfold total. rewrite foldr_app. induction cs1 as [|c cs1 IH]; cbn; lia. Qed.

Lemma width_pos c : FixedWidthBits (type c) <> 0 -> type_ok (type c) -> 1 <= FixedWidthBits (type c).
Proof.
  unfold FixedWidthBits, type_ok, IsFixedWidth. destruct (kind (type c)); cbn; lia.
Qed.

Lemma area_pos bc c : 0 <= bc -> type_ok (type c) -> 0 <= area bc c.
Proof.
  intros Hb Ht. unfold area. destruct (Z.eqb_spec (FixedWidthBits (type c)) 0); [lia|].
  pose proof (width_pos c n Ht). pose proof (BytesForBits_bounds bc Hb).
  pose proof (BytesForBits_bounds (bc * FixedWidthBits (type c)) ltac:(nia)). destruct (nullable c); lia.
Qed.

Lemma total_pos bc cs : 0 <= bc -> Forall (fun c => type_ok (type c)) cs -> 0 <= total bc cs.
Proof.
  intros Hb. induction 1 as [|c cs Hc _ IH]; cbn; [lia|]. pose proof (area_pos bc c Hb Hc). fold (total bc cs). lia.
Qed.

Lemma place_app bc cs1 cs2 i : (i < length cs1)%nat -> place bc (cs1 ++ cs2) i = place bc cs1 i.
Proof. intros H. unfold place. rewrite lookup_app_l, take_app_le by lia. done. Qed.

Lemma place_beyond bc cs i : (length cs <= i)%nat -> place bc cs i = None.
Proof. intros H. unfold place. by rewrite lookup_ge_None_2. Qed.

Record placing_ok (bc : Z) (n : nat) (cs : list Column) (p : Placing) : Prop := {
  pl_offset : p_offset p = total bc cs;
  pl_fixed : p_fixed p = omap (place bc cs) (seq 0 (length cs));
  pl_length : length (p_index p) = n;
  pl_index : forall k q, p_index p !! k = Some (Some q) -> (q < length (p_fixed p))%nat;
  pl_at : forall k, match p_index p !! k with Some (Some q) => p_fixed p !! q | _ => None end = place bc cs k;
  pl_name : forall m i, p_name p !! m = Some i <-> exists c, cs !! i = Some c /\ name c = m;
  pl_id : forall m i, p_id p !! m = Some i <-> exists c, cs !! i = Some c /\ id c = m;
  pl_var : forall m i, p_var p !! m = Some i <->
    exists c, cs !! i = Some c /\ id c = m /\ FixedWidthBits (type c) = 0
}.

(** [emplace] of the new column's key, which no earlier column has. *)
Lemma emplace_ok `{Countable K} (key : Column -> K) (P : Column -> Prop) (m : gmap K nat) cs c :
  (forall k i, m !! k = Some i <-> exists c, cs !! i = Some c /\ key c = k /\ P c) ->
  (key c ∉ key <$> cs) -> P c ->
  forall k i, emplace (key c) (length cs) m !! k = Some i <->
    exists c', (cs ++ [c]) !! i = Some c' /\ key c' = k /\ P c'.
Proof.
  intros Hm Hnew HP k i. unfold emplace. assert (m !! key c = None) as ->.
  { destruct (m !! key c) as [j|] eqn:E; [|done]. apply Hm in E as (c' & Hc' & Hk & _). destruct Hnew.
    rewrite <- Hk. apply list_elem_of_fmap. exists c'. split; [done|]. by eapply list_elem_of_lookup_2. }
  destruct (decide (k = key c)) as [->|Hne].
  - rewrite lookup_insert_eq. split.
    + intros [= <-]. exists c. by rewrite lookup_app_r, Nat.sub_diag by lia.
    + intros (c' & Hc' & Hk & _). apply lookup_snoc_Some in Hc' as [[Hlt Hc']|[-> _]]; [|done]. destruct Hnew.
      rewrite <- Hk. apply list_elem_of_fmap. exists c'. split; [done|]. by eapply list_elem_of_lookup_2.
  - rewrite lookup_insert_ne by done. rewrite Hm. split.
    + intros (c' & Hc' & Hk & HP'). exists c'. split; [|done]. rewrite lookup_app_l by (by eapply lookup_lt_Some). done.
    + intros (c' & Hc' & Hk & HP'). apply lookup_snoc_Some in Hc' as [[_ Hc']|[_ <-]]; [by exists c'|done].
Qed.

Lemma emplace_key_ok `{Countable K} (key : Column -> K) (m : gmap K nat) cs c :
  (forall k i, m !! k = Some i <-> exists c, cs !! i = Some c /\ key c = k) -> (key c ∉ key <$> cs) ->
  forall k i, emplace (key c) (length cs) m !! k = Some i <-> exists c', (cs ++ [c]) !! i = Some c' /\ key c' = k.
Proof.
  intros Hm Hnew k i. rewrite (emplace_ok key (fun _ => True) m cs c); try done.
  - split; intros (c' & ? & Hc'); exists c'; by try destruct Hc'.
  - intros k' i'. rewrite Hm. split; intros (c' & ? & Hc'); exists c'; by try destruct Hc'.
Qed.

(** A column that does not enter the map leaves it right. *)
Lemma skip_ok {K : Type} `{Countable K} (key : Column -> K) (P : Column -> Prop) (m : gmap K nat) cs c :
  (forall k i, m !! k = Some i <-> exists c, cs !! i = Some c /\ key c = k /\ P c) -> ~ P c ->
  forall k i, m !! k = Some i <-> exists c', (cs ++ [c]) !! i = Some c' /\ key c' = k /\ P c'.
Proof.
  intros Hm HP k i. rewrite Hm. split.
  - intros (c' & Hc' & Hk & HP'). exists c'. split; [|done]. rewrite lookup_app_l by (by eapply lookup_lt_Some). done.
  - intros (c' & Hc' & Hk & HP'). apply lookup_snoc_Some in Hc' as [[_ Hc']|[_ <-]]; [by exists c'|done].
Qed.

Lemma place_snoc bc cs c : place bc (cs ++ [c]) (length cs) =
  if FixedWidthBits (type c) =? 0 then None
  else Some {| fixed_column := length cs; width := FixedWidthBits (type c); values := total bc cs;
               validity := if nullable c then Some (total bc cs + BytesForBits (bc * FixedWidthBits (type c))) else None |}.
Proof. unfold place. rewrite lookup_app_r, Nat.sub_diag, take_app_length by lia. done. Qed.

Lemma omap_place_snoc bc cs c : omap (place bc (cs ++ [c])) (seq 0 (length (cs ++ [c]))) =
  omap (place bc cs) (seq 0 (length cs)) ++
  match place bc (cs ++ [c]) (length cs) with Some f => [f] | None => [] end.
Proof.
  rewrite length_app, Nat.add_1_r, seq_S, omap_app. f_equal.
  apply list_omap_ext, Forall_Forall2_diag, Forall_forall. intros i Hi%elem_of_seq. apply place_app. lia.
Qed.

Lemma PlaceColumn_ok bc max n cs c p : placing_ok bc n cs p -> (length cs < n)%nat ->
  name c ∉ name <$> cs -> id c ∉ id <$> cs ->
  (FixedWidthBits (type c) <> 0 -> total bc (cs ++ [c]) <= max) ->
  exists p', PlaceColumn bc max p (length cs, c) = Ok p' /\ placing_ok bc n (cs ++ [c]) p'.
Proof.
  intros [Ho Hf Hl Hi Ha Hn Hid Hv] Hlt Hname Hcid Hmax. unfold PlaceColumn.
  pose proof (place_snoc bc cs c) as Hp. pose proof (omap_place_snoc bc cs c) as Hom. rewrite Hp in Hom.
  destruct (Z.eqb_spec (FixedWidthBits (type c)) 0) as [E|E].
  - eexists. split; [done|]. split; cbn [p_offset p_fixed p_index p_name p_id p_var]; try done.
    + rewrite total_app. cbn. unfold area. rewrite E. cbn. lia.
    + by rewrite Hom, app_nil_r.
    + intros k. rewrite Ha. destruct (decide (k < length cs)%nat); [by rewrite place_app|].
      rewrite place_beyond by lia. destruct (decide (k = length cs)) as [->|]; [by rewrite Hp|].
      rewrite place_beyond; [done|]. rewrite length_app. cbn. lia.
    + by apply emplace_key_ok.
    + by apply emplace_key_ok.
    + by apply (emplace_ok id (fun c => FixedWidthBits (type c) = 0)).
  - assert (p_offset p + BytesForBits (bc * FixedWidthBits (type c)) + (if nullable c then BytesForBits bc else 0)
      = total bc (cs ++ [c])) as Et.
    { rewrite total_app, Ho. cbn. unfold area. rewrite (proj2 (Z.eqb_neq _ _) E). lia. }
    assert ((if nullable c then p_offset p + BytesForBits (bc * FixedWidthBits (type c)) + BytesForBits bc
      else p_offset p + BytesForBits (bc * FixedWidthBits (type c))) = total bc (cs ++ [c])) as Et'
      by (destruct (nullable c); lia).
    rewrite Et'. rewrite (throw_if_false _ _ (proj2 (Z.ltb_ge _ _) (Hmax E))), bind_Ok_l.
    eexists. split; [done|]. split; cbn [p_offset p_fixed p_index p_name p_id p_var]; try done.
    + by rewrite Hom, Hf, Ho.
    + by rewrite length_insert.
    + intros k q Hk. rewrite length_app. cbn. apply list_lookup_insert_Some in Hk as [(_ & [= <-] & _)|[_ Hk]]; [lia|].
      apply Hi in Hk. lia.
    + intros k. destruct (decide (k = length cs)) as [->|Hne].
      * rewrite list_lookup_insert_eq, lookup_app_r, Nat.sub_diag by lia. by rewrite Hp, Ho.
      * rewrite list_lookup_insert_ne by done. specialize (Ha k). destruct (decide (k < length cs)%nat).
        -- rewrite place_app, <- Ha by done. destruct (p_index p !! k) as [[q|]|] eqn:Eq; try done.
           rewrite lookup_app_l by (by eapply Hi). done.
        -- rewrite place_beyond in Ha |- * by (rewrite ?length_app; cbn; lia).
           destruct (p_index p !! k) as [[q|]|] eqn:Eq; try done.
           apply Hi in Eq. by apply lookup_ge_None in Ha; lia.
    + by apply emplace_key_ok.
    + by apply emplace_key_ok.
    + by apply (skip_ok id (fun c => FixedWidthBits (type c) = 0)).
Qed.

Lemma PlaceColumns_ok bc max n cs : forall cs0 p, placing_ok bc n cs0 p -> n = length (cs0 ++ cs) ->
  NoDup (name <$> cs0 ++ cs) -> NoDup (id <$> cs0 ++ cs) ->
  0 <= bc -> Forall (fun c => type_ok (type c)) cs -> total bc (cs0 ++ cs) <= max ->
  exists p', fold_res (PlaceColumn bc max) p (imap (fun i c => ((length cs0 + i)%nat, c)) cs) = Ok p' /\
    placing_ok bc n (cs0 ++ cs) p'.
Proof.
  induction cs as [|c cs IH]; intros cs0 p Hp Hn Hnn Hni Hbc Hall Hmax.
  { rewrite app_nil_r in *. by exists p. }
  apply Forall_cons in Hall as [Hc Hall]. cbn [imap fold_res]. rewrite Nat.add_0_r.
  rewrite (cons_middle c cs0 cs), (app_assoc cs0 [c] cs) in *.
  assert (total bc (cs0 ++ [c]) <= max) as Hm1.
  { rewrite total_app in Hmax. pose proof (total_pos bc cs Hbc Hall). lia. }
  rewrite fmap_app in Hnn. rewrite fmap_app in Hni. pose proof Hnn as Hnn1. pose proof Hni as Hni1.
  apply NoDup_app in Hnn1 as (Hnn1 & _ & _). apply NoDup_app in Hni1 as (Hni1 & _ & _).
  rewrite fmap_app in Hnn1. rewrite fmap_app in Hni1. apply NoDup_app in Hnn1 as (_ & Hnn1 & _). apply NoDup_app in Hni1 as (_ & Hni1 & _).
  destruct (PlaceColumn_ok bc max n cs0 c p Hp) as (p1 & -> & Hp1).
  - rewrite Hn, !length_app. cbn. lia.
  - intros Hin. apply (Hnn1 _ Hin). by left.
  - intros Hin. apply (Hni1 _ Hin). by left.
  - done.
  - rewrite bind_Ok_l. destruct (IH (cs0 ++ [c]) p1) as (p' & E & Hp'); try done; try (by rewrite fmap_app).
    exists p'. split; [|done]. rewrite <- E. f_equal. apply imap_ext. intros i x _. cbn.
    rewrite length_app. cbn. f_equal. lia.
Qed.

(** What the layout of a schema is. *)
Record layout_ok (l : ChunkLayout) : Prop := {
  lo_schema : ValidateTableSchema (schema_ l) = Ok tt;
  lo_version : in_u 64 (version (schema_ l));
  lo_count : 0 <= block_count_ l;
  lo_bytes : payload_bytes_ l = total (block_count_ l) (columns (schema_ l));
  lo_limit : payload_bytes_ l <= payload_bytes_limit_ l;
  lo_fixed : fixed_ l = omap (place (block_count_ l) (columns (schema_ l))) (seq 0 (length (columns (schema_ l))));
  lo_at : forall i, FixedColumnAt l i = place (block_count_ l) (columns (schema_ l)) i;
  lo_name : forall n i, FindColumn l n = Some i <-> exists c, columns (schema_ l) !! i = Some c /\ name c = n;
  lo_id : forall m i, IndexOfId l m = Some i <-> exists c, columns (schema_ l) !! i = Some c /\ id c = m;
  lo_var : forall m c, VarColumn l m = Some c <->
    c ∈ columns (schema_ l) /\ id c = m /\ FixedWidthBits (type c) = 0
}.

Lemma valid_types s : in_u 64 (version s) -> ValidateTableSchema s = Ok tt ->
  Forall (fun c => type_ok (type c)) (columns s) /\ NoDup (name <$> columns s) /\ NoDup (id <$> columns s).
Proof.
  intros Hu H. apply (ValidateTableSchema_ok s Hu) in H as [Hc _]. apply ValidateColumns_ok in Hc as ((Hc & Hn & Hi) & _).
  split; [|done]. eapply Forall_impl; [exact Hc|]. cbn. intros c (_ & _ & _ & Ht & _). by apply ValidateColumnType_ok.
Qed.

Lemma MakeLayout_ok s bc max : in_u 64 (version s) -> ValidateTableSchema s = Ok tt -> 0 <= bc ->
  total bc (columns s) <= max ->
  exists l, MakeLayout s bc max = Ok l /\ layout_ok l /\ schema_ l = s /\ block_count_ l = bc /\
    payload_bytes_limit_ l = max.
Proof.
  intros Hu Hv Hbc Hmax. destruct (valid_types s Hu Hv) as (Ht & Hn & Hi). unfold MakeLayout. rewrite Hv, bind_Ok_l.
  destruct (PlaceColumns_ok bc max (length (columns s)) (columns s) []
    {| p_offset := 0; p_fixed := []; p_index := replicate (length (columns s)) None;
       p_name := ∅; p_var := ∅; p_id := ∅ |}) as (p & E & Hp); try done.
  { split; cbn; try done.
    - by rewrite length_replicate.
    - intros k q Hk. by apply lookup_replicate in Hk as [? _].
    - intros k. destruct (replicate _ _ !! k) as [[q|]|] eqn:Ek; try done.
    - intros m i. rewrite lookup_empty. by split; [|intros (c & Hc & _)].
    - intros m i. rewrite lookup_empty. by split; [|intros (c & Hc & _)].
    - intros m i. rewrite lookup_empty. by split; [|intros (c & Hc & _)]. }
  cbn [app length] in *. change (fun i c => (0 + i, c)%nat) with (@pair nat Column) in E.
  rewrite E, bind_Ok_l. eexists. split; [done|]. destruct Hp as [Ho Hf Hl Hix Ha Hnm Hid Hva].
  split; [|done]. split; cbn; try done; try lia.
  intros m c. unfold VarColumn. cbn. destruct (p_var p !! m) as [i|] eqn:Em.
  - apply Hva in Em as (c' & Hc' & Hm & Hw). rewrite Hc'. split.
    + intros [= <-]. split; [by eapply list_elem_of_lookup_2|done].
    + intros ((j & Hj)%list_elem_of_lookup & Hcm & _). f_equal.
      assert (i = j) as ->; [|congruence]. eapply (NoDup_lookup _ _ _ m Hi); rewrite list_lookup_fmap; by rewrite ?Hc', ?Hj; cbn; congruence.
  - split; [done|]. intros ((j & Hj)%list_elem_of_lookup & Hcm & Hw).
    assert (p_var p !! m = Some j) by (apply Hva; by exists c). congruence.
Qed.

Lemma PlaceColumns_offset bc max cs : forall p p', p_offset p <= max ->
  fold_res (PlaceColumn bc max) p cs = Ok p' ->
  p_offset p' = p_offset p + total bc cs.*2 /\ p_offset p' <= max.
Proof.
  induction cs as [|[i c] cs IH]; intros p p' Hp H; cbn [fold_res] in H; [injection H as <-; cbn; lia|]. res_inv.
  cbn [fmap list_fmap snd total foldr]. fold (total bc cs.*2).
  assert (p_offset a = p_offset p + area bc c /\ p_offset a <= max) as [Ea Hm].
  { unfold PlaceColumn in Hs. unfold area. destruct (FixedWidthBits (type c) =? 0); [injection Hs as <-; cbn; lia|].
    res_inv. apply Z.ltb_ge in Hs0. subst a. cbn. destruct (nullable c); lia. }
  destruct (IH _ _ Hm H). lia.
Qed.

Lemma MakeLayout_inv s bc max l : in_u 64 (version s) -> 0 <= bc -> 0 <= max -> MakeLayout s bc max = Ok l ->
  layout_ok l /\ schema_ l = s /\ block_count_ l = bc /\ payload_bytes_limit_ l = max.
Proof.
  intros Hu Hbc Hmax H. pose proof H as H0. unfold MakeLayout in H. res_inv. units.
  apply PlaceColumns_offset in Hs0 as [Ho Hm]; [|done]. cbn [p_offset] in Ho.
  destruct (MakeLayout_ok s bc max) as (l' & E & Hl & Hrest); try done.
  - replace (columns s) with ((imap pair (columns s)).*2) by (rewrite fmap_imap; etrans; [apply (imap_const (fun c => c))|apply list_fmap_id]).
    lia.
  - assert (l' = l) as <- by congruence. done.
Qed.

(** ** Places do not overlap *)

Section Places.
Context (bc : Z) (cs : list Column).
Hypothesis Hbc : 0 <= bc.
Hypothesis Htypes : Forall (fun c => type_ok (type c)) cs.

Lemma total_take i c : cs !! i = Some c -> total bc (take (S i) cs) = total bc (take i cs) + area bc c.
Proof. intros H. rewrite (take_S_r _ _ _ H), total_app. cbn. lia. Qed.

Lemma total_take_le i j : (i <= j)%nat -> total bc (take i cs) <= total bc (take j cs).
Proof.
  intros H. replace j with (i + (j - i))%nat by lia. rewrite <- (take_take_drop cs i (j - i)), total_app.
  assert (0 <= total bc (take (j - i) (drop i cs))); [|lia].
  apply total_pos; [done|]. by apply Forall_take, Forall_drop.
Qed.

Lemma total_take_all i : total bc (take i cs) <= total bc cs.
Proof.
  destruct (decide (i <= length cs)%nat).
  - rewrite <- (take_ge cs (length cs)) at 2 by lia. by apply total_take_le.
  - by rewrite take_ge by lia.
Qed.

(** The arrays of a place lie between the sums of the areas around it. *)
Lemma place_bounds i f : place bc cs i = Some f ->
  exists c, cs !! i = Some c /\ width f = FixedWidthBits (type c) /\ 1 <= width f /\
    0 <= values f /\ values f = total bc (take i cs) /\
    0 <= BytesForBits (bc * width f) /\ 0 <= BytesForBits bc /\ bc * width f <= 8 * BytesForBits (bc * width f) /\
    match validity f with
    | Some v => nullable c = true /\ v = values f + BytesForBits (bc * width f) /\
                v + BytesForBits bc <= total bc (take (S i) cs)
    | None => nullable c = false /\ values f + BytesForBits (bc * width f) <= total bc (take (S i) cs)
    end.
Proof.
  unfold place. destruct (cs !! i) as [c|] eqn:Ec; [|done].
  destruct (Z.eqb_spec (FixedWidthBits (type c)) 0) as [|Hw]; [done|]. intros [= <-]. exists c.
  assert (type_ok (type c)) as Hc by exact (Forall_lookup_1 _ _ _ _ Htypes Ec).
  pose proof (width_pos c Hw Hc). cbn [width values validity fixed_column].
  pose proof (BytesForBits_bounds bc Hbc). pose proof (BytesForBits_bounds (bc * FixedWidthBits (type c)) ltac:(nia)).
  pose proof (total_pos bc (take i cs) Hbc ltac:(by apply Forall_take)).
  rewrite (total_take i c Ec). unfold area. rewrite (proj2 (Z.eqb_neq _ _) Hw).
  destruct (nullable c); repeat split; try done; lia.
Qed.

End Places.

(** The bits of block [b] at a place: its value's and its validity bit. *)
Definition own_bits (f : FixedColumn) (b j : Z) : Prop :=
  8 * values f + b * width f <= j < 8 * values f + b * width f + width f \/
  match validity f with Some v => j = 8 * v + b | None => False end.

(** Whether the block has a value, and the bytes of its value. *)
Definition Cell (f : FixedColumn) (d : bytes) (b : Z) : option bytes :=
  if match validity f with None => true | Some v => GetBit d (8 * v + b) end
  then Some (ReadValueBits d (values f * 8 + b * width f) (width f)) else None.

(** A place inside a payload of [n] bytes, for [bc] blocks. *)
Definition place_in (bc n : Z) (f : FixedColumn) : Prop :=
  1 <= width f /\ 0 <= values f /\ values f + BytesForBits (bc * width f) <= n /\
  match validity f with
  | Some v => values f + BytesForBits (bc * width f) <= v /\ v + BytesForBits bc <= n
  | None => True
  end.

Lemma place_in_layout l i f : layout_ok l -> FixedColumnAt l i = Some f -> place_in (block_count_ l) (payload_bytes_ l) f.
Proof.
  intros Hl Hf. rewrite (lo_at l Hl) in Hf. destruct (valid_types _ (lo_version l Hl) (lo_schema l Hl)) as (Ht & _).
  destruct (place_bounds _ _ (lo_count l Hl) Ht i f Hf) as (c & Hc & Ew & Hw & H0 & Ev & Hb & Hbb & Hle & Hv).
  pose proof (total_take_all (block_count_ l) (columns (schema_ l)) (lo_count l Hl) Ht (S i)) as Hall.
  rewrite <- (lo_bytes l Hl) in Hall. split; [done|]. split; [done|]. destruct (validity f); lia.
Qed.

Lemma value_bits_in bc n f b : 0 <= b < bc -> place_in bc n f ->
  0 <= values f * 8 + b * width f /\ values f * 8 + b * width f + width f <= 8 * (values f + BytesForBits (bc * width f)).
Proof.
  intros Hb (Hw & H0 & _). pose proof (BytesForBits_bounds (bc * width f) ltac:(nia)).
  assert (b * width f + width f <= bc * width f) by nia. nia.
Qed.

Lemma validity_bits_in bc n f b v : 0 <= b < bc -> place_in bc n f -> validity f = Some v ->
  0 <= 8 * v + b < 8 * n /\ values f + BytesForBits (bc * width f) <= v.
Proof.
  intros Hb (Hw & H0 & Hn & Hv) E. rewrite E in Hv. pose proof (BytesForBits_bounds bc ltac:(lia)).
  assert (0 <= bc * width f) by nia. pose proof (BytesForBits_bounds (bc * width f) ltac:(done)). lia.
Qed.

(** A cell is its own bits. *)
Lemma Cell_eq bc f d g d' b : 0 <= b < bc -> place_in bc (len d) f -> place_in bc (len d') g -> bytes_ok d -> bytes_ok d' ->
  width f = width g ->
  match validity f, validity g with
  | None, None => True
  | Some v, Some v' => bit_at d (8 * v + b) = bit_at d' (8 * v' + b)
  | _, _ => False
  end ->
  (forall k, 0 <= k < width f ->
     bit_at d (8 * values f + b * width f + k) = bit_at d' (8 * values g + b * width g + k)) ->
  Cell f d b = Cell g d' b.
Proof.
  intros Hb Hf Hg Hd Hd' Ew Hv Hk. unfold Cell.
  destruct (value_bits_in _ _ f b Hb Hf), (value_bits_in _ _ g b Hb Hg).
  destruct Hf as (Hfw & Hf0 & Hfn & Hfv), Hg as (Hgw & Hg0 & Hgn & Hgv).
  assert (ReadValueBits d (values f * 8 + b * width f) (width f) = ReadValueBits d' (values g * 8 + b * width g) (width g)) as Er.
  { destruct (ReadValueBits_spec d (values f * 8 + b * width f) (width f)) as (L1 & B1 & S1); [lia|lia|lia|done|].
    destruct (ReadValueBits_spec d' (values g * 8 + b * width g) (width g)) as (L2 & B2 & S2); [lia|lia|lia|done|].
    apply bytes_bit_ext; try done; [apply Nat2Z.inj; by rewrite L1, L2, Ew|]. intros i Hi. rewrite S1, S2 by lia. rewrite <- Ew.
    destruct (Z.ltb_spec i (width f)); [|done]. cbn [andb].
    rewrite (Z.mul_comm (values f)), (Z.mul_comm (values g)). specialize (Hk i ltac:(lia)). rewrite <- Ew in Hk. exact Hk. }
  rewrite Er. destruct (validity f) as [v|], (validity g) as [v'|]; try done.
  destruct Hfv, Hgv. assert (0 <= bc * width f) by nia. rewrite <- Ew in *.
  pose proof (BytesForBits_bounds (bc * width f) ltac:(done)). rewrite !GetBit_spec by lia. by rewrite Hv.
Qed.

Lemma Cell_own bc f d d' b : 0 <= b < bc -> place_in bc (len d) f -> bytes_ok d -> bytes_ok d' -> length d' = length d ->
  (forall j, 0 <= j -> own_bits f b j -> bit_at d' j = bit_at d j) -> Cell f d' b = Cell f d b.
Proof.
  intros Hb Hf Hd Hd' El H. pose proof (value_bits_in _ _ f b Hb Hf).
  apply (Cell_eq bc); try done; [by rewrite El|..].
  - destruct (validity f) as [v|] eqn:Ev; [|done]. pose proof (validity_bits_in _ _ f b v Hb Hf Ev).
    apply H; [lia|]. right. by rewrite Ev.
  - intros k Hk. apply H; [lia|]. left. lia.
Qed.

(** ** Loops over items that own disjoint bits *)

Section OwnBits.
Context {A S : Type} (pay : S -> bytes) (own : A -> Z -> Prop) (step : S -> A -> res S).
Context (items : list A) (ok : bytes -> Prop) (Pre Post : A -> bytes -> Prop).
Hypothesis disjoint : forall a a' j, a ∈ items -> a' ∈ items -> own a j -> own a' j -> a = a'.
Hypothesis stable_pre : forall a d d', a ∈ items -> ok d -> ok d' ->
  (forall j, 0 <= j -> own a j -> bit_at d' j = bit_at d j) -> Pre a d -> Pre a d'.
Hypothesis stable_post : forall a d d', a ∈ items -> ok d -> ok d' ->
  (forall j, 0 <= j -> own a j -> bit_at d' j = bit_at d j) -> Post a d -> Post a d'.
Hypothesis step_ok : forall a s s', a ∈ items -> ok (pay s) -> Pre a (pay s) -> step s a = Ok s' ->
  ok (pay s') /\ Post a (pay s') /\ forall j, 0 <= j -> ~ own a j -> bit_at (pay s') j = bit_at (pay s) j.

Lemma fold_own l : forall s s', (forall a, a ∈ l -> a ∈ items) -> NoDup l -> ok (pay s) ->
  (forall a, a ∈ l -> Pre a (pay s)) -> fold_res step s l = Ok s' ->
  ok (pay s') /\ (forall a, a ∈ l -> Post a (pay s')) /\
  forall j, 0 <= j -> (forall a, a ∈ l -> ~ own a j) -> bit_at (pay s') j = bit_at (pay s) j.
Proof using All.
  induction l as [|a l IH]; intros s s' Hin Hnd Hok Hpre H; cbn [fold_res] in H.
  { injection H as <-. split; [done|]. split; [|done]. intros a Ha. by apply elem_of_nil in Ha. }
  res_inv. rename a0 into s1. apply NoDup_cons in Hnd as [Hna Hnd].
  assert (a ∈ items) as Hai by (apply Hin; by left).
  destruct (step_ok a s s1 Hai Hok (Hpre a ltac:(by left)) Hs) as (Hok1 & Hpost & Hframe).
  assert (forall a' j, a' ∈ l -> 0 <= j -> own a' j -> bit_at (pay s1) j = bit_at (pay s) j) as Hother.
  { intros a' j Ha' Hj Ho. apply Hframe; [done|]. intros Ho'.
    assert (a = a') as -> by (apply (disjoint a a' j); try done; apply Hin; by right). done. }
  destruct (IH s1 s') as (Hok' & Hposts & Hrest); try done.
  - intros a' Ha'. apply Hin. by right.
  - intros a' Ha'. apply (stable_pre a' (pay s)); try done; [apply Hin; by right|by intros; apply (Hother a')|apply Hpre; by right].
  - split; [done|]. split.
    + intros a' [-> |Ha']%elem_of_cons; [|by apply Hposts].
      apply (stable_post a (pay s1)); try done. intros j Hj Ho. apply Hrest; [done|]. intros a' Ha' Ho'.
      assert (a = a') as -> by (apply (disjoint a a' j); try done; apply Hin; by right). done.
    + intros j Hj Ha'. rewrite Hrest; [|done|intros a' Hl; apply Ha'; by right]. apply Hframe; [done|]. apply Ha'. by left.
Qed.

End OwnBits.

Lemma own_bits_disjoint bc n f b b' j : 0 <= b < bc -> 0 <= b' < bc -> place_in bc n f ->
  own_bits f b j -> own_bits f b' j -> b = b'.
Proof.
  intros Hb Hb' Hf H1 H2. destruct (value_bits_in _ _ f b Hb Hf), (value_bits_in _ _ f b' Hb' Hf).
  unfold own_bits in *. destruct (validity f) as [v|] eqn:Ev.
  - pose proof (validity_bits_in _ _ f b v Hb Hf Ev). destruct Hf as (Hw & _).
    destruct H1 as [H1|H1], H2 as [H2|H2]; [nia|lia|lia|lia].
  - destruct Hf as (Hw & _). destruct H1 as [H1|[]], H2 as [H2|[]]. nia.
Qed.

(** The cell of a block no value was written for. *)
Definition empty_cell (f : FixedColumn) : option bytes :=
  match validity f with Some _ => None | None => Some (zeros (BytesForBits (width f))) end.

Lemma Cell_empty bc f d b : 0 <= b < bc -> place_in bc (len d) f -> bytes_ok d ->
  (forall j, 0 <= j -> own_bits f b j -> bit_at d j = false) -> Cell f d b = empty_cell f.
Proof.
  intros Hb Hf Hd Hz. unfold Cell, empty_cell. pose proof (value_bits_in _ _ f b Hb Hf).
  destruct (validity f) as [v|] eqn:Ev.
  - pose proof (validity_bits_in _ _ f b v Hb Hf Ev). rewrite GetBit_spec by lia.
    rewrite Hz; [done|lia|]. right. by rewrite Ev.
  - destruct Hf as (Hw & H0 & Hn & _). f_equal.
    destruct (ReadValueBits_spec d (values f * 8 + b * width f) (width f)) as (L & B & S); [lia|lia|lia|done|].
    pose proof (BytesForBits_bounds (width f) ltac:(lia)).
    apply bytes_bit_ext; [done|apply bytes_ok_zeros|apply Nat2Z.inj; rewrite L, len_zeros; lia|].
    intros i Hi. rewrite S, bit_at_zeros by lia. destruct (Z.ltb_spec i (width f)); [|done]. cbn [andb].
    apply Hz; [lia|]. left. lia.
Qed.

(** A value of exactly the width: no bit past it is set. *)
Definition value_ok (w : Z) (v : bytes) : Prop :=
  len v = BytesForBits w /\ bytes_ok v /\ forall i, w <= i -> bit_at v i = false.

(** Writing the value of a block and its validity bit. *)
Definition PutCell (f : FixedColumn) (d : bytes) (b : Z) (v : bytes) : bytes :=
  let d := WriteValueBits d (values f * 8 + b * width f) v (width f) in
  match validity f with Some p => PutBit d (8 * p + b) true | None => d end.

Lemma PutCell_spec bc f d b v : 0 <= b < bc -> place_in bc (len d) f -> bytes_ok d -> value_ok (width f) v ->
  let d' := PutCell f d b v in
  length d' = length d /\ bytes_ok d' /\ Cell f d' b = Some v /\
  forall j, 0 <= j -> ~ own_bits f b j -> bit_at d' j = bit_at d j.
Proof.
  intros Hb Hf Hd (Lv & Bv & Zv). pose proof (value_bits_in _ _ f b Hb Hf) as Hvb. pose proof Hf as (Hw & H0 & Hn & _).
  pose proof (BytesForBits_bounds (width f) ltac:(lia)).
  destruct (WriteValueBits_spec d (values f * 8 + b * width f) v (width f)) as (L1 & B1 & S1); [lia..|done|].
  unfold PutCell. set (d1 := WriteValueBits _ _ _ _) in *.
  assert (forall d2, length d2 = length d1 -> bytes_ok d2 ->
    (forall k, 0 <= k < width f -> bit_at d2 (values f * 8 + b * width f + k) = bit_at d1 (values f * 8 + b * width f + k)) ->
    ReadValueBits d2 (values f * 8 + b * width f) (width f) = v) as Hread.
  { intros d2 L2 B2 S2. destruct (ReadValueBits_spec d2 (values f * 8 + b * width f) (width f)) as (L & B & S); [lia|lia|lia|done|].
    apply bytes_bit_ext; try done; [apply Nat2Z.inj; by rewrite L, Lv|]. intros i Hi. rewrite S by lia.
    destruct (Z.ltb_spec i (width f)); cbn [andb]; [|by rewrite Zv]. rewrite S2, S1 by lia.
    rewrite (proj2 (Z.leb_le _ _)), (proj2 (Z.ltb_lt _ _)) by lia. cbn [andb]. f_equal. lia. }
  unfold Cell, own_bits, PutBit. destruct (validity f) as [p|] eqn:Ev; cbv zeta.
  - pose proof (validity_bits_in _ _ f b p Hb Hf Ev). rewrite length_set_bit. rewrite GetBit_spec, bit_at_set_bit, Z.eqb_refl by lia.
    repeat split; [lia|by apply bytes_ok_set_bit, B1| |].
    + f_equal. apply Hread; [by rewrite length_set_bit|by apply bytes_ok_set_bit, B1|].
      intros k Hk. rewrite bit_at_set_bit by lia. by rewrite (proj2 (Z.eqb_neq _ _)) by lia.
    + intros j Hj Hno. rewrite bit_at_set_bit by lia. rewrite (proj2 (Z.eqb_neq _ _)), S1 by lia.
      destruct (Z.leb_spec (values f * 8 + b * width f) j), (Z.ltb_spec j (values f * 8 + b * width f + width f)); try done. lia.
  - repeat split; [lia|by apply B1|f_equal; by apply Hread; try apply B1|]. intros j Hj Hno. rewrite S1 by lia.
    destruct (Z.leb_spec (values f * 8 + b * width f) j), (Z.ltb_spec j (values f * 8 + b * width f + width f)); try done. lia.
Qed.

(** ** Translated cells *)

Lemma value_ok_padding w v : value_ok w v <-> len v = BytesForWidth w /\ bytes_ok v /\ padding_clear w v.
Proof.
  unfold value_ok, padding_clear. change (BytesForWidth w) with (BytesForBits w).
  split; intros (Hl & Hb & H); (split; [done|]); (split; [done|]); intros i Hi.
  - apply H. lia.
  - destruct (Z_lt_le_dec i (8 * len v)); [apply H; lia|by apply bit_at_beyond].
Qed.

Lemma fixed_width_kind c : FixedWidthBits (type c) <> 0 -> IsFixedWidth (kind (type c)) = true.
Proof. unfold FixedWidthBits. by destruct (IsFixedWidth (kind (type c))). Qed.

Lemma default_value_ok c : column_ok c -> FixedWidthBits (type c) <> 0 -> has_default c = true ->
  value_ok (FixedWidthBits (type c)) (default_value c).
Proof.
  intros (Ht & Hd & Hb) Hw Hh. apply value_ok_padding.
  destruct (ValidateDefault_padding c (fixed_width_kind c Hw) Ht Hh Hb Hd) as [? ?]. done.
Qed.

Lemma Cell_value_ok bc f d b v : 0 <= b < bc -> place_in bc (len d) f -> bytes_ok d -> Cell f d b = Some v ->
  value_ok (width f) v.
Proof.
  intros Hb Hf Hd. unfold Cell. destruct (match validity f with None => true | Some _ => _ end); [|done]. intros [= <-].
  pose proof (value_bits_in _ _ f b Hb Hf). destruct Hf as (Hw & H0 & Hn & _).
  destruct (ReadValueBits_spec d (values f * 8 + b * width f) (width f)) as (L & B & S); [lia|lia|lia|done|].
  split; [done|]. split; [done|]. intros i Hi. rewrite S by lia. by rewrite (proj2 (Z.ltb_ge _ _)) by lia.
Qed.

(** The value of a converted cell. *)
Definition ConvertCell (before after : Column) (conv : Conversion) (cell : option bytes) : res (option bytes) :=
  value ← match cell with Some b => DecodeColumnValue before b | None => Ok VNull end;
  value ← ConvertValue before after conv value;
  if bool_decide (value = VNull) then Ok None
  else encoded ← EncodeColumnValueInto after value; Ok (Some encoded).

(** What a block of a fixed-width column of the later version holds. *)
Definition expected (from to : ChunkLayout) (presence payload : bytes) (c : Column) (f : FixedColumn) (b : Z)
    : res (option bytes) :=
  match IndexOfId from (id c) with
  | Some k =>
      match columns (schema_ from) !! k, FixedColumnAt from k with
      | Some before, Some old =>
          if bool_decide (type before = type c) then Ok (Cell old payload b)
          else if GetBit presence b then
            conv ← ConversionOf from to (id c);
            o ← ConvertCell before c conv (Cell old payload b);
            Ok (match o with Some v => Some v | None => empty_cell f end)
          else Ok (empty_cell f)
      | _, _ => Err (undefined "a column of another kind")
      end
  | None => Ok (if GetBit presence b && has_default c then Some (default_value c) else empty_cell f)
  end.

(** [to] is the layout of a version made from that of [from]: a column both
    have keeps its nullability, and changes its type only within its family by
    a recorded conversion the family takes. *)
Record follows (from to : ChunkLayout) : Prop := {
  fo_from : layout_ok from;
  fo_to : layout_ok to;
  fo_count : block_count_ from = block_count_ to;
  fo_columns : Forall column_ok (columns (schema_ to));
  fo_shared : forall c c', c ∈ columns (schema_ from) -> c' ∈ columns (schema_ to) -> id c = id c' ->
    nullable c = nullable c' /\
    (type c <> type c' -> same_family (type c) (type c') /\
       exists conv, ConversionOf from to (id c') = Ok conv /\ TakesConversion (FamilyOf (kind (type c'))) conv = true)
}.

(** A converted value is written with exactly the width's bits. *)
Lemma ConvertCell_value_ok bc before after conv old d b v : 0 <= b < bc -> place_in bc (len d) old -> bytes_ok d ->
  width old = FixedWidthBits (type before) -> FixedWidthBits (type after) <> 0 ->
  type_ok (type before) -> column_ok after -> same_family (type before) (type after) ->
  TakesConversion (FamilyOf (kind (type after))) conv = true ->
  ConvertCell before after conv (Cell old d b) = Ok (Some v) -> value_ok (FixedWidthBits (type after)) v.
Proof.
  intros Hb Hin Hd Ew Hw Ht Hafter Hfam Htakes H. unfold ConvertCell in H.
  destruct (Cell old d b) as [u|] eqn:Ec.
  2:{ cbn [mbind res_bind] in H. unfold ConvertValue in H. rewrite !bool_decide_true in H by done. by cbn in H. }
  apply (Cell_value_ok bc) in Ec; try done. rewrite Ew in Ec. apply value_ok_padding in Ec as (Lu & Bu & Pu).
  assert (FixedWidthBits (type before) <> 0) as Hwb by (destruct Hin as (Hin & _); lia).
  destruct (DecodeColumnValue_holds before u Ht (fixed_width_kind _ Hwb) Bu Lu Pu) as (x & Ex & Hx).
  rewrite Ex, bind_Ok_l in H. res_inv. pose proof (ConvertValue_cases before after conv x Ht Hafter Hfam Htakes Hx) as Hc.
  rewrite Hs in Hc. case_bool_decide as Ea; [done|]. res_inv. subst. destruct Hc as [Hc|[? _]]; [|done].
  destruct Hafter as (Hta & _ & _).
  destruct (EncodeColumnValue_holds after a Hta (fixed_width_kind _ Hw) Hc) as (e & Ee & Le & Be & Pe & _).
  unfold EncodeColumnValue in Ee. rewrite (proj2 (ValidateColumnType_ok after) Hta), bind_Ok_l in Ee.
  assert (e = v) as -> by congruence. by apply value_ok_padding.
Qed.

(** The payload being built: its size and bytes. *)
Definition sized (n : Z) (d : bytes) : Prop := len d = n /\ bytes_ok d.

(** A loop over the blocks of one column, each writing its own cell or nothing. *)
Lemma fold_blocks {S} (pay : S -> bytes) (step : S -> Z -> res S) bc n f (Q : Z -> option bytes -> Prop) s s' :
  place_in bc n f -> 0 <= bc ->
  (forall b s s', 0 <= b < bc -> sized n (pay s) -> Cell f (pay s) b = empty_cell f -> step s b = Ok s' ->
     pay s' = pay s /\ Q b (empty_cell f) \/
     exists v, pay s' = PutCell f (pay s) b v /\ value_ok (width f) v /\ Q b (Some v)) ->
  sized n (pay s) -> (forall b j, 0 <= b < bc -> 0 <= j -> own_bits f b j -> bit_at (pay s) j = false) ->
  fold_res step s (seqZ 0 bc) = Ok s' ->
  sized n (pay s') /\ (forall b, 0 <= b < bc -> Q b (Cell f (pay s') b)) /\
  forall j, 0 <= j -> (forall b, 0 <= b < bc -> ~ own_bits f b j) -> bit_at (pay s') j = bit_at (pay s) j.
Proof.
  intros Hf Hbc Hstep Hs Hz H.
  destruct (fold_own pay (own_bits f) step (seqZ 0 bc) (sized n)
    (fun b d => Cell f d b = empty_cell f) (fun b d => Q b (Cell f d b))) with (l := seqZ 0 bc) (s := s) (s' := s')
    as (Hs' & HQ & Hfr); try done.
  - intros b b' j Hb%elem_of_seqZ Hb'%elem_of_seqZ. by apply (own_bits_disjoint bc n); [lia|lia|].
  - intros b d d' Hb%elem_of_seqZ [L1 B1] [L2 B2] Hown <-. apply (Cell_own bc); rewrite ?L1; done || lia.
  - intros b d d' Hb%elem_of_seqZ [L1 B1] [L2 B2] Hown.
    rewrite (Cell_own bc f d d'); rewrite ?L1; done || lia.
  - intros b t t' Hb%elem_of_seqZ Ht Hpre Et. destruct (Hstep b t t' ltac:(lia) Ht Hpre Et) as [[E HQ]|(v & E & Hv & HQ)].
    + rewrite E, Hpre. done.
    + rewrite E. destruct Ht as [Lt Bt]. destruct (PutCell_spec bc f (pay t) b v) as (L & B & C & F); [lia|by rewrite Lt|done|done|].
      rewrite C. split; [split; [lia|done]|done].
  - apply NoDup_seqZ.
  - intros b Hb%elem_of_seqZ. destruct Hs as [L B]. apply (Cell_empty bc); [lia|by rewrite L|done|].
    intros j Hj Ho. apply (Hz b); [lia|done|done].
  - split; [done|]. split.
    + intros b Hb. apply HQ, elem_of_seqZ. lia.
    + intros j Hj Hno. apply Hfr; [done|]. intros b Hb%elem_of_seqZ. apply Hno. lia.
Qed.

Lemma ConvertBlock_cell before after conv old f presence payload next b :
  ConvertBlock before after conv old f presence payload next b =
  if negb (GetBit presence b) then Ok next
  else o ← ConvertCell before after conv (Cell old payload b);
       Ok (match o with Some v => PutCell f next b v | None => next end).
Proof.
  unfold ConvertBlock, ConvertCell, Cell, PutCell. destruct (negb (GetBit presence b)); [done|].
  destruct (match validity old with None => true | Some _ => _ end);
    [destruct (DecodeColumnValue _ _) as [x|]; [|done]|]; cbn [mbind res_bind];
    destruct (ConvertValue _ _ _ _) as [y|]; cbn [mbind res_bind]; try done;
    case_bool_decide; try done; by destruct (EncodeColumnValueInto after y).
Qed.

Lemma AddBlock_cell c f presence next changes b : (validity f = None <-> nullable c = false) ->
  AddBlock c (Some f) presence (next, changes) b =
  (if GetBit presence b && has_default c then PutCell f next b (default_value c) else next, changes).
Proof.
  intros Hv. unfold AddBlock, PutCell. destruct (GetBit presence b); [|done]. cbn [negb andb].
  destruct (has_default c), (validity f) eqn:Ev; cbn [orb]; try done.
  destruct (nullable c) eqn:En; [done|]. by destruct Hv as [_ Hv]; specialize (Hv eq_refl).
Qed.

(** A converted column. *)
Lemma convert_blocks bc n m before after conv old f presence payload next next' :
  0 <= bc -> place_in bc n f -> place_in bc m old -> sized m payload -> sized n next ->
  width f = FixedWidthBits (type after) -> width old = FixedWidthBits (type before) ->
  type_ok (type before) -> column_ok after -> same_family (type before) (type after) ->
  TakesConversion (FamilyOf (kind (type after))) conv = true ->
  (forall b j, 0 <= b < bc -> 0 <= j -> own_bits f b j -> bit_at next j = false) ->
  fold_res (ConvertBlock before after conv old f presence payload) next (seqZ 0 bc) = Ok next' ->
  sized n next' /\
  (forall b, 0 <= b < bc ->
     (if GetBit presence b then
        o ← ConvertCell before after conv (Cell old payload b);
        Ok (match o with Some v => Some v | None => empty_cell f end)
      else Ok (empty_cell f)) = Ok (Cell f next' b)) /\
  forall j, 0 <= j -> (forall b, 0 <= b < bc -> ~ own_bits f b j) -> bit_at next' j = bit_at next j.
Proof.
  intros Hbc Hf Hold [Lp Bp] Hn Ew Ewo Ht Hafter Hfam Htakes Hz H.
  apply (fold_blocks (fun d => d) _ bc n f (fun b o => (if GetBit presence b then
    o ← ConvertCell before after conv (Cell old payload b);
    Ok (match o with Some v => Some v | None => empty_cell f end) else Ok (empty_cell f)) = Ok o)) in H; try done.
  intros b s s' Hb Hs Hc Hstep. rewrite ConvertBlock_cell in Hstep. destruct (GetBit presence b); cbn [negb] in Hstep.
  - destruct (ConvertCell before after conv (Cell old payload b)) as [o|] eqn:Eo; [|done]. cbn [mbind res_bind] in Hstep.
    injection Hstep as <-. destruct o as [v|]; [|by left]. right. exists v. split; [done|]. split; [|done].
    rewrite Ew. eapply (ConvertCell_value_ok bc before after conv old payload b v); try done; [by rewrite Lp|].
    rewrite <- Ew. destruct Hf. lia.
  - injection Hstep as <-. by left.
Qed.

(** An added column. *)
Lemma add_blocks bc n c f presence next changes :
  0 <= bc -> place_in bc n f -> sized n next -> width f = FixedWidthBits (type c) -> column_ok c ->
  (validity f = None <-> nullable c = false) ->
  (forall b j, 0 <= b < bc -> 0 <= j -> own_bits f b j -> bit_at next j = false) ->
  let s' := fold_left (AddBlock c (Some f) presence) (seqZ 0 bc) (next, changes) in
  sized n s'.1 /\
  (forall b, 0 <= b < bc ->
     Cell f s'.1 b = if GetBit presence b && has_default c then Some (default_value c) else empty_cell f) /\
  forall j, 0 <= j -> (forall b, 0 <= b < bc -> ~ own_bits f b j) -> bit_at s'.1 j = bit_at next j.
Proof.
  intros Hbc Hf Hn Ew Hc Hv Hz s'.
  apply (fold_blocks fst (fun s b => Ok (AddBlock c (Some f) presence s b)) bc n f (fun b o => o =
    if GetBit presence b && has_default c then Some (default_value c) else empty_cell f) (next, changes)); try done.
  - intros b [d ch] t Hb Hs Hcell Ht. cbv beta in Ht. rewrite AddBlock_cell in Ht by done.
    injection Ht as <-. cbn [fst].
    destruct (GetBit presence b && has_default c) eqn:E; [|by left]. right. exists (default_value c).
    split; [done|]. split; [|done]. rewrite Ew. apply andb_true_iff in E as [_ E]. apply default_value_ok; try done.
    rewrite <- Ew. destruct Hf. lia.
  - apply fold_res_pure.
Qed.

(** A copied column: splices of the arrays of the old payload. *)
Lemma copy_column bc n m f old payload next :
  0 <= bc -> place_in bc n f -> place_in bc m old -> sized m payload -> sized n next ->
  width f = width old ->
  let d1 := splice next (values f) (slice payload (values old) (BytesForBits (bc * width f))) in
  let d2 := match validity f, validity old with
            | Some v, Some v' => splice d1 v (slice payload v' (BytesForBits bc))
            | _, _ => d1
            end in
  (validity f = None <-> validity old = None) ->
  sized n d2 /\ (forall b, 0 <= b < bc -> Cell f d2 b = Cell old payload b) /\
  forall j, 0 <= j ->
    ~ (8 * values f <= j < 8 * (values f + BytesForBits (bc * width f))) ->
    ~ match validity f with Some v => 8 * v <= j < 8 * (v + BytesForBits bc) | None => False end ->
    bit_at d2 j = bit_at next j.
Proof.
  intros Hbc Hf Hold [Lp Bp] [Ln Bn] Ew d1 d2 Hv. pose proof Hf as (Hw & H0 & Hfn & Hfv).
  pose proof Hold as (Hwo & H0o & Hon & Hov). rewrite <- Ew in Hon, Hov, Hwo.
  assert (0 <= bc * width f) as Hbw by nia. pose proof (BytesForBits_bounds _ Hbw) as HB.
  pose proof (BytesForBits_bounds bc Hbc) as HB'.
  assert (len (slice payload (values old) (BytesForBits (bc * width f))) = BytesForBits (bc * width f)) as Ls
    by (apply len_slice; lia).
  destruct (writes_bits_splice next (values f) (slice payload (values old) (BytesForBits (bc * width f)))) as (L1 & B1 & S1);
    [lia|lia|by apply bytes_ok_slice|]. fold d1 in L1, B1, S1. rewrite Ls in S1.
  assert (forall b k, 0 <= b < bc -> 0 <= k < width f -> 0 <= b * width f + k < bc * width f) as Hk by (intros; nia).
  assert (forall d, length d = length next -> bytes_ok d ->
    (forall j, 8 * values f <= j < 8 * (values f + BytesForBits (bc * width f)) -> bit_at d j = bit_at d1 j) ->
    forall b k, 0 <= b < bc -> 0 <= k < width f ->
    bit_at d (8 * values f + b * width f + k) = bit_at payload (8 * values old + b * width old + k)) as Hvals.
  { intros d Ld Bd Sd b k Hb Hkk. specialize (Hk b k Hb Hkk). rewrite Sd, S1 by lia.
    rewrite (proj2 (Z.leb_le _ _)), (proj2 (Z.ltb_lt _ _)) by lia. cbn [andb].
    rewrite bit_at_slice by lia. rewrite (proj2 (Z.ltb_lt _ _)) by lia. cbn [andb]. f_equal. rewrite <- Ew. lia. }
  unfold d2. destruct (validity f) as [v|] eqn:Ev, (validity old) as [v'|] eqn:Ev';
    [|by destruct Hv as [_ Hv]; specialize (Hv eq_refl)|by destruct Hv as [Hv _]; specialize (Hv eq_refl)|].
  - destruct Hfv as [Hfv1 Hfv2], Hov as [Hov1 Hov2].
    assert (len (slice payload v' (BytesForBits bc)) = BytesForBits bc) as Ls' by (apply len_slice; lia).
    destruct (writes_bits_splice d1 v (slice payload v' (BytesForBits bc))) as (L2 & B2 & S2);
      [lia|lia|by apply bytes_ok_slice|]. rewrite Ls' in S2. split; [split; [lia|by apply B2, B1]|]. split.
    + intros b Hb. apply (Cell_eq bc); try done; try (by apply B2, B1).
      * by replace (len (splice d1 v (slice payload v' (BytesForBits bc)))) with n by lia.
      * by rewrite Lp.
      * rewrite Ev, Ev', S2 by lia. rewrite (proj2 (Z.leb_le _ _)), (proj2 (Z.ltb_lt _ _)) by lia. cbn [andb].
        rewrite bit_at_slice by lia. rewrite (proj2 (Z.ltb_lt _ _)) by lia. cbn [andb]. f_equal. lia.
      * intros k Hkk. apply Hvals; try done; [lia|by apply B2, B1|]. intros j Hj. rewrite S2 by lia.
        by rewrite (proj2 (Z.leb_gt _ _)) by lia.
    + intros j Hj Hn1 Hn2. rewrite S2, S1 by done.
      destruct (Z.leb_spec (8 * v) j), (Z.ltb_spec j (8 * v + 8 * BytesForBits bc)); try lia; cbn [andb];
      destruct (Z.leb_spec (8 * values f) j), (Z.ltb_spec j (8 * values f + 8 * BytesForBits (bc * width f))); try lia; done.
  - split; [split; [lia|by apply B1]|]. split.
    + intros b Hb. apply (Cell_eq bc); try done; try (by apply B1).
      * by replace (len d1) with n by lia.
      * by rewrite Lp.
      * by rewrite Ev, Ev'.
      * intros k Hkk. apply Hvals; try done. by apply B1.
    + intros j Hj Hn1 _. rewrite S1 by done.
      destruct (Z.leb_spec (8 * values f) j), (Z.ltb_spec j (8 * values f + 8 * BytesForBits (bc * width f))); try lia; done.
Qed.

(** ** The translation column by column *)

(** The bits of the arrays of column [i]. *)
Definition region (l : ChunkLayout) (i : nat) (j : Z) : Prop :=
  8 * total (block_count_ l) (take i (columns (schema_ l))) <= j <
  8 * total (block_count_ l) (take (S i) (columns (schema_ l))).

Lemma region_disjoint l i i' j : layout_ok l -> region l i j -> region l i' j -> i = i'.
Proof.
  intros Hl H1 H2. destruct (valid_types _ (lo_version l Hl) (lo_schema l Hl)) as (Ht & _).
  pose proof (total_take_le (block_count_ l) (columns (schema_ l)) (lo_count l Hl) Ht) as Hle.
  unfold region in *. destruct (lt_eq_lt_dec i i') as [[Hlt|]|Hlt]; [|done|].
  - specialize (Hle (S i) i' ltac:(lia)). lia.
  - specialize (Hle (S i') i ltac:(lia)). lia.
Qed.

(** A place, its column, and its arrays in the column's region. *)
Lemma layout_place l i f : layout_ok l -> FixedColumnAt l i = Some f ->
  exists c, columns (schema_ l) !! i = Some c /\ width f = FixedWidthBits (type c) /\
    (validity f = None <-> nullable c = false) /\ place_in (block_count_ l) (payload_bytes_ l) f /\
    (forall j, 8 * values f <= j < 8 * (values f + BytesForBits (block_count_ l * width f)) -> region l i j) /\
    (forall j, match validity f with
               | Some v => 8 * v <= j < 8 * (v + BytesForBits (block_count_ l))
               | None => False
               end -> region l i j) /\
    (forall b j, 0 <= b < block_count_ l -> own_bits f b j -> region l i j).
Proof.
  intros Hl Hf. pose proof (place_in_layout l i f Hl Hf) as Hin. pose proof Hf as Hf0. rewrite (lo_at l Hl) in Hf.
  destruct (valid_types _ (lo_version l Hl) (lo_schema l Hl)) as (Ht & _).
  destruct (place_bounds _ _ (lo_count l Hl) Ht i f Hf) as (c & Hc & Ew & Hw & H0 & Ev & HB & HB' & Hle & Hv).
  exists c. split; [done|]. split; [done|]. split; [clear -Hv; destruct (validity f); destruct Hv as [-> _]; by split|]. split; [done|].
  assert (forall j, 8 * values f <= j < 8 * (values f + BytesForBits (block_count_ l * width f)) -> region l i j) as R1.
  { intros j Hj. unfold region. destruct (validity f); lia. }
  assert (forall j, match validity f with Some v => 8 * v <= j < 8 * (v + BytesForBits (block_count_ l)) | None => False end
    -> region l i j) as R2.
  { intros j Hj. unfold region. destruct (validity f); [lia|done]. }
  split; [done|]. split; [done|]. intros b j Hb [Ho|Ho].
  - apply R1. pose proof (value_bits_in _ _ f b Hb Hin). lia.
  - apply R2. destruct (validity f) as [v|]; [|done]. pose proof (BytesForBits_bounds (block_count_ l) (lo_count l Hl)). lia.
Qed.

(** The old place of a column whose kind of place is the same. *)
Lemma old_place l k c w : layout_ok l -> columns (schema_ l) !! k = Some c -> FixedWidthBits (type c) = w -> w <> 0 ->
  exists old, FixedColumnAt l k = Some old.
Proof.
  intros Hl Hc Ew Hw. rewrite (lo_at l Hl). unfold place. rewrite Hc, Ew, (proj2 (Z.eqb_neq _ _) Hw). by eexists.
Qed.

Lemma same_family_fixed t t' : same_family t t' -> IsFixedWidth (kind t) = IsFixedWidth (kind t').
Proof. unfold same_family. by destruct (kind t), (kind t'). Qed.

Section Translate.
Context (from to : ChunkLayout) (presence payload : bytes) (vars : Vars.ChunkVars).
Hypothesis Hfollows : follows from to.
Hypothesis Hpayload : sized (payload_bytes_ from) payload.

(** What the step for column [i] does to the payload being built. *)
Definition column_done (i : nat) (c : Column) (d d' : bytes) : Prop :=
  sized (payload_bytes_ to) d' /\
  (forall f b, FixedColumnAt to i = Some f -> 0 <= b < block_count_ to ->
     expected from to presence payload c f b = Ok (Cell f d' b)) /\
  forall j, 0 <= j -> ~ region to i j -> bit_at d' j = bit_at d j.

Lemma convert_column_done i c k before st st' :
  columns (schema_ to) !! i = Some c -> IndexOfId from (id c) = Some k ->
  columns (schema_ from) !! k = Some before -> id before = id c -> type before <> type c ->
  sized (payload_bytes_ to) st.1 -> (forall j, 0 <= j -> region to i j -> bit_at st.1 j = false) ->
  ConvertColumn from to k i presence payload vars st = Ok st' -> column_done i c st.1 st'.1.
Proof using Hfollows Hpayload.
  intros Hc Hk Hb Hid Hty Hst Hz H. destruct Hfollows as [Hlf Hlt Hbc Hok Hshared]. destruct st as [next changes].
  destruct (Hshared before c) as [Hnull Hsame]; [by eapply list_elem_of_lookup_2|by eapply list_elem_of_lookup_2|done|].
  destruct (Hsame Hty) as (Hfam & conv & Hconv & Htakes).
  unfold ConvertColumn in H. rewrite Hb, Hc, Hconv, bind_Ok_l in H.
  destruct (FixedColumnAt to i) as [f|] eqn:Ef.
  2:{ res_inv. subst st'. split; [done|]. split; [|done]. intros f b E. congruence. }
  destruct (layout_place to i f Hlt Ef) as (c' & Hc' & Ew & Hv & Hin & _ & _ & Hreg). assert (c' = c) as -> by congruence.
  destruct (FixedColumnAt from k) as [old|] eqn:Eo; [|done]. res_inv. subst st'. cbn [fst] in *.
  destruct (layout_place from k old Hlf Eo) as (b' & Hb' & Ewo & _ & Hino & _). assert (b' = before) as -> by congruence.
  destruct (valid_types _ (lo_version from Hlf) (lo_schema from Hlf)) as (Htf & _).
  rewrite Hbc in Hino.
  eapply (convert_blocks (block_count_ to) (payload_bytes_ to) (payload_bytes_ from)) in Hs as (S1 & S2 & S3); try done.
  - split; [done|]. split.
    + intros f' b E Hbb. rewrite Ef in E. injection E as <-. unfold expected. rewrite Hk, Hb, Eo.
      rewrite bool_decide_false by done. rewrite <- (S2 b Hbb). rewrite Hconv. by destruct (GetBit presence b).
    + intros j Hj Hno. apply S3; [done|]. intros b Hbb Ho. by apply Hno, (Hreg b).
  - apply (lo_count to Hlt).
  - exact (Forall_lookup_1 _ _ _ _ Htf Hb).
  - exact (Forall_lookup_1 _ _ _ _ Hok Hc).
  - intros b j Hbb Hj Ho. apply Hz; [done|]. by apply (Hreg b).
Qed.

Lemma copy_column_done i c k before st st' :
  columns (schema_ to) !! i = Some c -> IndexOfId from (id c) = Some k ->
  columns (schema_ from) !! k = Some before -> id before = id c -> type before = type c ->
  sized (payload_bytes_ to) st.1 ->
  CopyColumn from k (block_count_ to) (FixedColumnAt to i) payload st = Ok st' -> column_done i c st.1 st'.1.
Proof using Hfollows Hpayload.
  intros Hc Hk Hb Hid Hty Hst H. destruct Hfollows as [Hlf Hlt Hbc Hok Hshared]. destruct st as [next changes].
  destruct (Hshared before c) as [Hnull _]; [by eapply list_elem_of_lookup_2|by eapply list_elem_of_lookup_2|done|].
  unfold CopyColumn in H. destruct (FixedColumnAt to i) as [f|] eqn:Ef.
  2:{ injection H as <-. split; [done|]. split; [|done]. intros f b E. congruence. }
  destruct (layout_place to i f Hlt Ef) as (c' & Hc' & Ew & Hv & Hin & R1 & R2 & _). assert (c' = c) as -> by congruence.
  destruct (FixedColumnAt from k) as [old|] eqn:Eo; [|done].
  destruct (layout_place from k old Hlf Eo) as (b' & Hb' & Ewo & Hvo & Hino & _). assert (b' = before) as -> by congruence.
  rewrite Hbc in Hino. assert (width f = width old) as Eww by (rewrite Ew, Ewo; by rewrite Hty).
  assert (validity f = None <-> validity old = None) as Hvv by (rewrite Hv, Hvo, Hnull; done).
  destruct (copy_column (block_count_ to) (payload_bytes_ to) (payload_bytes_ from) f old payload next)
    as (S1 & S2 & S3); try done; [apply (lo_count to Hlt)|].
  assert (st'.1 = match validity f, validity old with
    | Some v, Some v' => splice (splice next (values f) (slice payload (values old) (BytesForBits (block_count_ to * width f))))
                           v (slice payload v' (BytesForBits (block_count_ to)))
    | _, _ => splice next (values f) (slice payload (values old) (BytesForBits (block_count_ to * width f))) end) as ->.
  { destruct (validity f), (validity old); try (by injection H as <-). done. }
  split; [done|]. split.
  - intros f' b E Hbb. rewrite Ef in E. injection E as <-. unfold expected. rewrite Hk, Hb, Eo.
    rewrite bool_decide_true by done. by rewrite S2.
  - intros j Hj Hno. apply S3; [done|..]; intros Hr; apply Hno; [by apply R1|by apply R2].
Qed.

Lemma TranslateColumn_done i c st st' : columns (schema_ to) !! i = Some c ->
  sized (payload_bytes_ to) st.1 -> (forall j, 0 <= j -> region to i j -> bit_at st.1 j = false) ->
  TranslateColumn from to presence payload vars st (i, c) = Ok st' -> column_done i c st.1 st'.1.
Proof using Hfollows Hpayload.
  intros Hc Hst Hz H. unfold TranslateColumn in H. destruct (IndexOfId from (id c)) as [k|] eqn:Ek.
  - pose proof Hfollows as [Hlf _ _ _ _]. apply (lo_id from Hlf) in Ek as Hk. destruct Hk as (before & Hb & Hid).
    rewrite Hb in H. case_bool_decide as Hty; cbn [negb] in H.
    + by apply (copy_column_done i c k before).
    + by apply (convert_column_done i c k before).
  - injection H as <-. pose proof Hfollows as [_ Hlt _ Hok _]. destruct (FixedColumnAt to i) as [f|] eqn:Ef.
    + destruct (layout_place to i f Hlt Ef) as (c' & Hc' & Ew & Hv & Hin & _ & _ & Hreg). assert (c' = c) as -> by congruence.
      destruct st as [next changes]. destruct (add_blocks (block_count_ to) (payload_bytes_ to) c f presence next changes)
        as (S1 & S2 & S3); try done; [apply (lo_count to Hlt)|exact (Forall_lookup_1 _ _ _ _ Hok Hc)| |].
      { intros b j Hb Hj Ho. apply Hz; [done|]. by apply (Hreg b). }
      split; [done|]. split.
      * intros f' b E Hb. rewrite Ef in E. injection E as <-. unfold expected. rewrite Ek. by rewrite S2.
      * intros j Hj Hno. apply S3; [done|]. intros b Hb Ho. by apply Hno, (Hreg b).
    + assert (forall l s, (fold_left (AddBlock c None presence) l s).1 = s.1) as ->.
      { intros l. induction l as [|b l IH]; intros [d ch]; cbn [fold_left]; [done|]. rewrite IH. unfold AddBlock.
        destruct (negb (GetBit presence b)); [done|]. by destruct (has_default c && (negb (bool_decide (default_value c = [])) || nullable c)). }
      split; [done|]. split; [|done]. intros f b E. congruence.
Qed.

Lemma NoDup_imap_pair {A} (l : list A) : NoDup (imap pair l).
Proof.
  apply (NoDup_fmap_1 fst). rewrite fmap_imap. erewrite (imap_ext _ (fun i _ => i)) by done.
  rewrite (imap_seq_0 l (fun i => i)), list_fmap_id. apply NoDup_seq.
Qed.

Lemma elem_of_imap_pair {A} (l : list A) i (a : A) : (i, a) ∈ imap pair l <-> l !! i = Some a.
Proof.
  rewrite elem_of_lookup_imap. split; [by intros (j & x & [= <- <-] & ?)|]. intros. by exists i, a.
Qed.

Lemma TranslateColumns_done st' :
  fold_res (TranslateColumn from to presence payload vars) (zeros (payload_bytes_ to), [])
    (imap pair (columns (schema_ to))) = Ok st' ->
  sized (payload_bytes_ to) st'.1 /\
  forall i c f b, columns (schema_ to) !! i = Some c -> FixedColumnAt to i = Some f -> 0 <= b < block_count_ to ->
    expected from to presence payload c f b = Ok (Cell f st'.1 b).
Proof using Hfollows Hpayload.
  intros H. pose proof Hfollows as [_ Hlt _ _ _]. pose proof (place_in_layout to) as Hpl.
  destruct (fold_own (S := translated) fst (fun (ic : nat * Column) j => region to ic.1 j)
    (TranslateColumn from to presence payload vars) (imap pair (columns (schema_ to))) (sized (payload_bytes_ to))
    (fun ic d => forall j, 0 <= j -> region to ic.1 j -> bit_at d j = false)
    (fun ic d => forall f b, FixedColumnAt to ic.1 = Some f -> 0 <= b < block_count_ to ->
       expected from to presence payload ic.2 f b = Ok (Cell f d b)))
    with (l := imap pair (columns (schema_ to))) (s := (zeros (payload_bytes_ to), []) : translated) (s' := st')
    as (Hs & HQ & _); try done.
  - intros [i c] [i' c'] j Hi%elem_of_imap_pair Hi'%elem_of_imap_pair H1 H2.
    assert (i = i') as -> by exact (region_disjoint to i i' j Hlt H1 H2). congruence.
  - intros [i c] d d' _ _ _ Hown Hz j Hj Hr. rewrite Hown by done. by apply Hz.
  - intros [i c] d d' _ [L1 B1] [L2 B2] Hown Hd f b Ef Hb. rewrite (Hd f b Ef Hb). f_equal. symmetry.
    destruct (layout_place to i f Hlt Ef) as (_ & _ & _ & _ & Hin & _ & _ & Hreg).
    apply (Cell_own (block_count_ to)); try done; [by rewrite L1|lia|]. intros j Hj Ho. apply Hown; [done|]. by apply (Hreg b).
  - intros [i c] s s' Hi%elem_of_imap_pair Hs Hz Hstep. by apply TranslateColumn_done in Hstep.
  - apply NoDup_imap_pair.
  - cbn [fst]. split; [|apply bytes_ok_zeros]. apply len_zeros.
    destruct (valid_types _ (lo_version to Hlt) (lo_schema to Hlt)) as (Ht & _).
    rewrite (lo_bytes to Hlt). apply total_pos; [apply (lo_count to Hlt)|done].
  - intros ic _ j _ _. apply bit_at_zeros.
  - split; [done|]. intros i c f b Hc Hf Hb. apply (HQ (i, c)); [by apply elem_of_imap_pair|done|done].
Qed.

End Translate.

(** ** Versions made by the schema's operations follow each other *)

Lemma same_id_same_column cs c c' : NoDup (id <$> cs) -> c ∈ cs -> c' ∈ cs -> id c = id c' -> c = c'.
Proof.
  intros Hnd [i Hi]%list_elem_of_lookup [j Hj]%list_elem_of_lookup Hid.
  assert (i = j) as ->; [|congruence].
  apply (NoDup_lookup _ _ _ (id c) Hnd); rewrite list_lookup_fmap; [by rewrite Hi|by rewrite Hj, Hid].
Qed.

(** What two versions say of a column both have. *)
Definition shared_ok (s' : TableSchema) (c c' : Column) : Prop :=
  nullable c = nullable c' /\
  (type c <> type c' -> same_family (type c) (type c') /\
     exists step ch, last (history s') = Some step /\ step_changes step = [ch] /\ change_kind ch = kChangeType /\
       id (column ch) = id c' /\ TakesConversion (FamilyOf (kind (type c'))) (conversion ch) = true).

(** The column at [at_] replaced by [x]. *)
Lemma shared_insert s s' at_ b x : NoDup (id <$> columns s) -> columns s !! at_ = Some b -> id x = id b ->
  columns s' = <[at_ := x]> (columns s) -> shared_ok s' b x ->
  forall c c', c ∈ columns s -> c' ∈ columns s' -> id c = id c' -> shared_ok s' c c'.
Proof.
  intros Hnd Hb Hx Ecs Hok c c' Hc [j Hj]%list_elem_of_lookup Hid. rewrite Ecs in Hj.
  pose proof (lookup_lt_Some _ _ _ Hb) as Hlt. assert (b ∈ columns s) as Hbin by (by eapply list_elem_of_lookup_2).
  destruct (decide (j = at_)) as [->|Hne].
  - rewrite list_lookup_insert_eq in Hj by done. injection Hj as <-.
    assert (c = b) as -> by (apply (same_id_same_column (columns s)); congruence || done). done.
  - rewrite list_lookup_insert_ne in Hj by done. apply list_elem_of_lookup_2 in Hj.
    assert (c = c') as -> by (by apply (same_id_same_column (columns s))). by split.
Qed.

Lemma type_change_shared s at_ t conv s' b : in_u 64 (version s) -> NoDup (id <$> columns s) ->
  columns s !! at_ = Some b -> same_family (type b) t -> TakesConversion (FamilyOf (kind t)) conv = true ->
  ChangeTypeAt s at_ t conv = Ok s' ->
  forall c c', c ∈ columns s -> c' ∈ columns s' -> id c = id c' -> shared_ok s' c c'.
Proof.
  intros Hu Hnd Hb Hfam Htakes H. unfold ChangeTypeAt in H. cbv zeta in H. res_inv.
  rewrite (nth_lookup_Some _ _ no_column _ Hb) in *. apply NextVersion_ok in H as (_ & _ & _ & E); [|done].
  eapply (shared_insert s s' at_ b _ Hnd Hb); [|by rewrite E|].
  - done.
  - split; [done|]. intros _. split; [done|]. rewrite E. cbn [history]. rewrite last_snoc.
    do 2 eexists. repeat split; done.
Qed.

Lemma alters_shared s s' : in_u 64 (version s) -> ValidateTableSchema s = Ok tt -> alters s s' ->
  forall c c', c ∈ columns s -> c' ∈ columns s' -> id c = id c' -> shared_ok s' c c'.
Proof.
  intros Hu Hv Ha. destruct (valid_types s Hu Hv) as (_ & _ & Hnd).
  pose proof (proj1 (ValidateTableSchema_ok s Hu) Hv) as (Hcols & _ & _ & _ & Hpend).
  apply ValidateColumns_ok in Hcols as ((Hall & _) & _).
  destruct Ha as [c0 allow s' H|n s' H|n n' s' H|n t conv s' H|n t s' H].
  - unfold AddColumn in H. cbv zeta in H. res_inv. apply NextVersion_ok in H as (_ & _ & _ & ->); [|done]. cbn [columns].
    intros c c' Hc [Hc'|Hc']%elem_of_app Hid.
    + assert (c = c') as -> by (by apply (same_id_same_column (columns s))). by split.
    + apply list_elem_of_singleton in Hc' as ->. cbn [id] in Hid. rewrite Forall_forall in Hall.
      destruct (Hall c Hc) as (_ & _ & Hlt & _). lia.
  - unfold DropColumn in H. cbv zeta in H. res_inv. apply NextVersion_ok in H as (_ & _ & _ & ->); [|done]. cbn [columns].
    intros c c' Hc Hc' Hid. assert (c' ∈ columns s) as Hc''.
    { unfold erase in Hc'. apply elem_of_app in Hc' as [H'|H'].
      - rewrite <- (take_drop a (columns s)), elem_of_app. by left.
      - rewrite <- (take_drop (a + 1) (columns s)), elem_of_app. by right. }
    assert (c = c') as -> by (by apply (same_id_same_column (columns s))). by split.
  - unfold RenameColumn in H. cbv zeta in H. res_inv. destruct (ColumnIndex_ok _ _ _ Hs) as (b & Hb & En & _). rewrite En in H.
    apply NextVersion_ok in H as (_ & _ & _ & E); [|done].
    eapply (shared_insert s s' a b _ Hnd Hb); [|by rewrite E|]; [done|]. by split.
  - unfold ChangeColumnType in H. cbv zeta in H. res_inv. destruct (ColumnIndex_ok _ _ _ Hs) as (b & Hb & En & _). rewrite En in *.
    apply negb_false_iff, bool_decide_eq_true in Hs0. apply negb_false_iff in Hs3.
    apply (type_change_shared s a t conv s' b); try done. by rewrite Hs0.
  - unfold NarrowColumnType in H. res_inv. destruct (ColumnIndex_ok _ _ _ Hs) as (b & Hb & En & _). rewrite En in *.
    unfold ValidatePending in Hpend. destruct (pending s) as [p|]; [|done]. apply orb_false_iff in Hs0 as [Hpid Hpt].
    apply negb_false_iff, Z.eqb_eq in Hpid. apply negb_false_iff, bool_decide_eq_true in Hpt.
    destruct (List.find _ _) as [b'|] eqn:Ef; [|done]. apply find_some in Ef as [Hin Hid%Z.eqb_eq].
    assert (b' = b) as ->.
    { apply (same_id_same_column (columns s)); [done|by apply list_elem_of_In|by eapply list_elem_of_lookup_2|congruence]. }
    res_inv. rewrite !orb_false_iff in Hs0. destruct Hs0 as [[Hfam%negb_false_iff%bool_decide_eq_true _] _].
    apply (type_change_shared (WithoutPendingNarrowing s) a t kExact s' b); try done.
    rewrite <- Hpt. symmetry. exact Hfam.
Qed.

(** The layouts of a schema and of the one an alteration makes of it. *)
Lemma alters_follows s s' bc max l l' : in_u 64 (version s) -> ValidateTableSchema s = Ok tt -> alters s s' ->
  Forall (fun c => bytes_ok (default_value c)) (columns s') -> 0 <= bc -> 0 <= max ->
  MakeLayout s bc max = Ok l -> MakeLayout s' bc max = Ok l' -> follows l l'.
Proof.
  intros Hu Hv Ha Hbytes Hbc Hmax Hl Hl'.
  destruct (alters_change s s' Hu Ha) as (change & cs & next_id & Hn & _).
  apply NextVersion_ok in Hn as (_ & [Hv1 Hv2] & (Hv' & Hcs & _) & E); [|done]. cbn in Hv1, Hv2.
  assert (in_u 64 (version s')) as Hu' by (by rewrite E).
  destruct (MakeLayout_inv s bc max l Hu Hbc Hmax Hl) as (Lo & Es & Eb & _).
  destruct (MakeLayout_inv s' bc max l' Hu' Hbc Hmax Hl') as (Lo' & Es' & Eb' & _).
  split; try done; [congruence|..].
  - rewrite Es'. destruct (valid_types s' Hu' Hv') as (Ht & _). apply Forall_forall. intros c Hc.
    rewrite Forall_forall in Ht, Hbytes. destruct Hcs as [Hall _]. rewrite E in Hc. cbn in Hc. rewrite Forall_forall in Hall.
    split; [|split]; [apply Ht; by rewrite E|by apply Hall in Hc as (_ & _ & _ & _ & _ & ?)|apply Hbytes; by rewrite E].
  - rewrite Es, Es'. intros c c' Hc Hc' Hid. destruct (alters_shared s s' Hu Hv Ha c c' Hc Hc' Hid) as [Hnull Hty].
    split; [done|]. intros Hne. destruct (Hty Hne) as (Hfam & step & ch & Hlast & Hch & Hk & Hcid & Htakes). split; [done|].
    exists (conversion ch). split; [|done]. unfold ConversionOf. rewrite Es, Es'.
    pass_guard by (rewrite E; cbn; rewrite wrap_small by done; by rewrite Z.eqb_refl, length_app, Nat.add_comm).
    rewrite Hlast, Hch. cbn [List.find]. by rewrite bool_decide_true, Hcid, Z.eqb_refl by done.
Qed.

(** C13: the translation of a chunk to the next schema version gives every block the right value in every
    fixed-width column: a column kept with its type keeps the value or NULL of each block; a column whose type
    changed holds the recorded conversion of it; an added column holds its DEFAULT in present blocks, else NULL or zero.
    The payload has exactly the size of the new layout. *)
Theorem translate_cells from to presence payload vars next vars' :
  follows from to -> bytes_ok payload ->
  TranslateChunk from to presence payload vars = Ok (next, vars') ->
  len next = payload_bytes_ to /\ bytes_ok next /\
  forall i c f b, columns (schema_ to) !! i = Some c -> FixedColumnAt to i = Some f -> 0 <= b < block_count_ to ->
    expected from to presence payload c f b = Ok (Cell f next b).
Proof.
  intros Hf Hb H. unfold TranslateChunk in H. cbv zeta in H. res_inv. destruct a0 as [d ch]. res_inv.
  rewrite !orb_false_iff in Hs. destruct Hs as [[_ Hl%negb_false_iff%Z.eqb_eq] _].
  apply TranslateColumns_done in Hs0 as [[L B] HQ]; [|done|done]. by simplify_eq.
Qed.

(** The layouts of a table of one column and of the same with a second one. *)
Definition or_layout (r : res ChunkLayout) : ChunkLayout :=
  match r with
  | Ok l => l
  | Err _ => {| schema_ := example_one; block_count_ := 0; payload_bytes_ := 0; payload_bytes_limit_ := 0; fixed_ := [];
                fixed_index_ := []; by_name_ := ∅; var_by_id_ := ∅; by_id_ := ∅; bit_string_blocks_ := false |}
  end.
Definition example_layout1 : ChunkLayout := or_layout (MakeLayout example_one 4 1000).
Definition example_layout2 : ChunkLayout := or_layout (MakeLayout example_two 4 1000).

Lemma translate_cells_witness : exists next vars',
  TranslateChunk example_layout1 example_layout2 [5] [1; 2; 0; 0; 3; 4; 0; 0] Vars.no_vars = Ok (next, vars') /\
  len next = payload_bytes_ example_layout2.
Proof.
  eexists _, _. split; [vm_compute; reflexivity|].
  apply (translate_cells example_layout1 example_layout2 [5] [1; 2; 0; 0; 3; 4; 0; 0] Vars.no_vars _ Vars.no_vars).
  - apply (alters_follows example_one example_two 4 1000).
    + unfold in_u. vm_compute. intuition discriminate.
    + vm_compute. reflexivity.
    + apply (alters_add _ example_column false). vm_compute. reflexivity.
    + apply (bool_decide_unpack _). vm_compute. exact I.
    + lia.
    + lia.
    + vm_compute. reflexivity.
    + vm_compute. reflexivity.
  - apply (bool_decide_unpack _). vm_compute. exact I.
  - vm_compute. reflexivity.
Defined.

(** ** Clean-up of a payload *)

Lemma place_index bc cs i f : place bc cs i = Some f -> fixed_column f = i.
Proof. unfold place. destruct (cs !! i); [|done]. destruct (_ =? 0); [done|]. by intros [= <-]. Qed.

Lemma elem_of_fixed l f : layout_ok l -> f ∈ fixed_ l -> FixedColumnAt l (fixed_column f) = Some f.
Proof.
  intros Hl Hf. rewrite (lo_fixed l Hl) in Hf. apply list_elem_of_omap in Hf as (i & _ & Hi).
  rewrite (lo_at l Hl). by rewrite (place_index _ _ _ _ Hi).
Qed.

Lemma NoDup_fixed l : layout_ok l -> NoDup (fixed_ l).
Proof.
  intros Hl. rewrite (lo_fixed l Hl). generalize 0%nat at 1.
  induction (length (columns (schema_ l))) as [|n IH]; intros a; cbn [seq omap list_omap]; [constructor|].
  destruct (place _ _ a) as [f|] eqn:Ef; [|apply IH]. constructor; [|apply IH].
  intros (i & Hi & Hf)%list_elem_of_omap. apply place_index in Ef, Hf. apply elem_of_seq in Hi. lia.
Qed.

(** A loop over the fixed-width columns, each changing its own region. *)
Lemma fold_fixed l (step : bytes -> FixedColumn -> bytes) (R : FixedColumn -> bytes -> bytes -> Prop) d :
  layout_ok l -> sized (payload_bytes_ l) d ->
  (forall f d1, f ∈ fixed_ l -> sized (payload_bytes_ l) d1 ->
     (forall j, 0 <= j -> region l (fixed_column f) j -> bit_at d1 j = bit_at d j) ->
     sized (payload_bytes_ l) (step d1 f) /\ R f d (step d1 f) /\
     forall j, 0 <= j -> ~ region l (fixed_column f) j -> bit_at (step d1 f) j = bit_at d1 j) ->
  (forall f d1 d2, f ∈ fixed_ l -> sized (payload_bytes_ l) d1 -> sized (payload_bytes_ l) d2 ->
     (forall j, 0 <= j -> region l (fixed_column f) j -> bit_at d2 j = bit_at d1 j) -> R f d d1 -> R f d d2) ->
  let d' := fold_left step (fixed_ l) d in
  sized (payload_bytes_ l) d' /\ forall f, f ∈ fixed_ l -> R f d d'.
Proof.
  intros Hl Hd Hstep HR d'.
  destruct (fold_own (fun d => d) (fun f j => region l (fixed_column f) j) (fun d f => Ok (step d f)) (fixed_ l)
    (sized (payload_bytes_ l)) (fun f d1 => forall j, 0 <= j -> region l (fixed_column f) j -> bit_at d1 j = bit_at d j)
    (fun f d1 => R f d d1)) with (l := fixed_ l) (s := d) (s' := d') as (Hs & HQ & _); try done.
  - intros f g j Hf Hg H1 H2. apply (elem_of_fixed l f Hl) in Hf. apply (elem_of_fixed l g Hl) in Hg.
    rewrite (region_disjoint l _ _ j Hl H1 H2) in Hf. congruence.
  - intros f d1 d2 _ _ _ Hown H j Hj Hr. rewrite Hown by done. by apply H.
  - intros f d1 d2 Hf H1 Hpre [= <-]. by apply Hstep.
  - by apply NoDup_fixed.
  - apply fold_res_pure.
Qed.

(** No bit is set in the padding of a column's arrays. *)
Definition padding_zero (bc : Z) (f : FixedColumn) (d : bytes) : Prop :=
  (forall j, 8 * values f + bc * width f <= j < 8 * (values f + BytesForBits (bc * width f)) -> bit_at d j = false) /\
  match validity f with
  | Some v => forall j, 8 * v + bc <= j < 8 * (v + BytesForBits bc) -> bit_at d j = false
  | None => True
  end.

Lemma MaskColumn_done l f d : layout_ok l -> f ∈ fixed_ l -> sized (payload_bytes_ l) d ->
  let d' := MaskColumn l d f in
  sized (payload_bytes_ l) d' /\
  ((forall b, 0 <= b < block_count_ l -> Cell f d' b = Cell f d b) /\ padding_zero (block_count_ l) f d') /\
  forall j, 0 <= j -> ~ region l (fixed_column f) j -> bit_at d' j = bit_at d j.
Proof.
  intros Hl Hf [L B] d'. apply (elem_of_fixed l f Hl) in Hf.
  destruct (layout_place l _ f Hl Hf) as (c & Hc & Ew & Hv & Hin & R1 & R2 & _). pose proof Hin as (Hw & H0 & Hn & Hvn).
  set (bc := block_count_ l) in *. assert (0 <= bc) as Hbc by apply (lo_count l Hl).
  assert (0 <= bc * width f) as Hbw by nia. pose proof (BytesForBits_bounds _ Hbw) as HB. pose proof (BytesForBits_bounds bc Hbc) as HB'.
  destruct (ClearTail_spec d (values f) (BytesForBits (bc * width f)) (bc * width f)) as (L1 & B1 & S1); [lia..|].
  unfold d', MaskColumn. fold bc. set (d1 := ClearTail d _ _ _) in *.
  assert (forall d2, sized (payload_bytes_ l) d2 ->
    (forall j, 0 <= j -> bit_at d2 j = bit_at d j \/ (bit_at d2 j = false /\
      (8 * values f + bc * width f <= j < 8 * (values f + BytesForBits (bc * width f)) \/
       match validity f with Some v => 8 * v + bc <= j < 8 * (v + BytesForBits bc) | None => False end))) ->
    padding_zero bc f d2 ->
    sized (payload_bytes_ l) d2 /\ ((forall b, 0 <= b < bc -> Cell f d2 b = Cell f d b) /\ padding_zero bc f d2) /\
    forall j, 0 <= j -> ~ region l (fixed_column f) j -> bit_at d2 j = bit_at d j) as Hfin.
  { intros d2 [L2 B2] Hbits Hz. split; [done|]. split; [split; [|done]|].
    - intros b Hb. apply (Cell_own bc); try done; [by rewrite L|lia|]. intros j Hj Ho.
      destruct (Hbits j Hj) as [|[_ Hpad]]; [done|]. exfalso. assert (b * width f + width f <= bc * width f) by nia.
      unfold own_bits in Ho. destruct (validity f); lia.
    - intros j Hj Hno. destruct (Hbits j Hj) as [|[_ [Hp|Hp]]]; [done|..].
      + destruct Hno. apply R1. lia.
      + destruct Hno. apply R2. destruct (validity f); [lia|done]. }
  assert (forall j, 0 <= j -> bit_at d1 j = bit_at d j \/ (bit_at d1 j = false /\
    8 * values f + bc * width f <= j < 8 * (values f + BytesForBits (bc * width f)))) as Hd1.
  { intros j Hj. rewrite S1 by done. destruct (Z.leb_spec (8 * values f + bc * width f) j),
      (Z.ltb_spec j (8 * values f + bc * width f + (8 * BytesForBits (bc * width f) - bc * width f))); cbn [andb]; try (by left).
    right. split; [done|lia]. }
  assert (forall j, 8 * values f + bc * width f <= j < 8 * (values f + BytesForBits (bc * width f)) -> bit_at d1 j = false) as Hz1.
  { intros j Hj. rewrite S1 by lia. by rewrite (proj2 (Z.leb_le _ _)), (proj2 (Z.ltb_lt _ _)) by lia. }
  destruct (validity f) as [v|] eqn:Ev.
  - destruct (ClearTail_spec d1 v (BytesForBits bc) bc) as (L2 & B2 & S2); [lia..|].
    apply Hfin; [split; [lia|by apply B2, B1]|..].
    + intros j Hj. rewrite S2 by done. destruct (Z.leb_spec (8 * v + bc) j), (Z.ltb_spec j (8 * v + bc + (8 * BytesForBits bc - bc)));
        cbn [andb]; try (destruct (Hd1 j Hj) as [|[? ?]]; auto). right. split; [done|]. right. lia.
    + unfold padding_zero. rewrite Ev. split; intros j Hj; rewrite S2 by lia.
      * rewrite (proj2 (Z.leb_gt _ _)) by lia. cbn [andb]. by apply Hz1.
      * by rewrite (proj2 (Z.leb_le _ _)), (proj2 (Z.ltb_lt _ _)) by lia.
  - apply Hfin; [split; [lia|by apply B1]|..].
    + intros j Hj. destruct (Hd1 j Hj) as [|[? ?]]; auto.
    + unfold padding_zero. by rewrite Ev.
Qed.

(** MaskPadding clears exactly the padding: no bit between or after the arrays stays set, and no block's
    value or NULL changes in any column. *)
Lemma mask_padding_cells l payload : layout_ok l -> bytes_ok payload -> len payload = payload_bytes_ l ->
  exists d, MaskPadding l payload = Ok d /\ sized (payload_bytes_ l) d /\
    forall f, f ∈ fixed_ l -> padding_zero (block_count_ l) f d /\
      forall b, 0 <= b < block_count_ l -> Cell f d b = Cell f payload b.
Proof.
  intros Hl Hb Hp. unfold MaskPadding. pass_guard by (by rewrite Hp, Z.eqb_refl). eexists. split; [done|].
  destruct (fold_fixed l (MaskColumn l) (fun f d d' => (forall b, 0 <= b < block_count_ l -> Cell f d' b = Cell f d b) /\
    padding_zero (block_count_ l) f d') payload) as [[L B] HR]; try done.
  - intros f d1 Hf Hd1 Hsame. destruct (MaskColumn_done l f d1 Hl Hf Hd1) as (Hs & [Hc Hz] & Hfr).
    split; [done|]. split; [|done]. split; [|done]. intros b Hbb. rewrite (Hc b Hbb).
    apply (elem_of_fixed l f Hl) in Hf. destruct (layout_place l _ f Hl Hf) as (_ & _ & _ & _ & Hin & _ & _ & Hreg).
    destruct Hd1 as [L1 B1]. apply (Cell_own (block_count_ l)); try done; [by rewrite Hp|lia|].
    intros j Hj Ho. apply Hsame; [done|]. by apply (Hreg b).
  - intros f d1 d2 Hf [L1 B1] [L2 B2] Hown [Hc Hz]. apply (elem_of_fixed l f Hl) in Hf.
    destruct (layout_place l _ f Hl Hf) as (_ & _ & _ & _ & Hin & R1 & R2 & Hreg). pose proof Hin as (Hw & H0 & Hn & Hvn).
    pose proof (lo_count l Hl). assert (0 <= block_count_ l * width f) by nia. split.
    + intros b Hbb. rewrite <- (Hc b Hbb). apply (Cell_own (block_count_ l)); try done; [by rewrite L1|lia|].
      intros j Hj Ho. apply Hown; [done|]. by apply (Hreg b).
    + unfold padding_zero in *. destruct Hz as [Hz1 Hz2]. split.
      * intros j Hj. rewrite Hown; [by apply Hz1|lia|]. apply R1. lia.
      * destruct (validity f) as [v|]; [|done]. intros j Hj. rewrite Hown; [by apply Hz2| |apply R2; lia].
        pose proof (BytesForBits_bounds (block_count_ l * width f) ltac:(done)). lia.
  - split; [done|]. intros f Hf. destruct (HR f Hf). done.
Qed.

(** A block keeps its value when it is present and, in a nullable column, has one. *)
Definition kept (f : FixedColumn) (presence d : bytes) (b : Z) : bool :=
  bit_at presence b && match validity f with Some v => bit_at d (8 * v + b) | None => true end.

(** [d'] is [d] with the values of block [b] cleared unless kept, and its validity masked. *)
Definition block_cleared (f : FixedColumn) (presence d d' : bytes) (b : Z) : Prop :=
  (forall k, 0 <= k < width f ->
     bit_at d' (8 * values f + b * width f + k) = kept f presence d b && bit_at d (8 * values f + b * width f + k)) /\
  match validity f with
  | Some v => bit_at d' (8 * v + b) = bit_at presence b && bit_at d (8 * v + b)
  | None => True
  end.

(** The bits of a group of eight blocks. *)
Definition group_bits (bc : Z) (f : FixedColumn) (g j : Z) : Prop :=
  (exists b, 8 * g <= b < Z.min bc (8 * g + 8) /\
     8 * values f + b * width f <= j < 8 * values f + b * width f + width f) \/
  match validity f with Some v => 8 * (v + g) <= j < 8 * (v + g) + 8 | None => False end.

(** The inner loop: the values of the blocks whose bit of [keep] is not set. *)
Lemma clear_values_loop bc n f (keep : Z) g d : place_in bc n f -> sized n d -> 0 <= g -> 0 <= keep ->
  let d' := fold_left
        (fun d block =>
           if Z.land (Z.shiftr keep (block mod 8)) 1 =? 0
           then ClearBits d (values f * 8 + block * width f) (width f) else d)
        (seqZ (g * 8) (Z.min bc (g * 8 + 8) - g * 8)) d in
  sized n d' /\
  (forall b k, 8 * g <= b < Z.min bc (8 * g + 8) -> 0 <= k < width f ->
     bit_at d' (8 * values f + b * width f + k) = Z.testbit keep (b mod 8) && bit_at d (8 * values f + b * width f + k)) /\
  forall j, 0 <= j -> (forall b, 8 * g <= b < Z.min bc (8 * g + 8) ->
      ~ (8 * values f + b * width f <= j < 8 * values f + b * width f + width f)) -> bit_at d' j = bit_at d j.
Proof.
  intros Hf Hd Hg Hk d'. pose proof Hf as (Hw & H0 & Hn & _).
  set (blocks := seqZ (g * 8) (Z.min bc (g * 8 + 8) - g * 8)) in *.
  assert (forall b, b ∈ blocks <-> 8 * g <= b < Z.min bc (8 * g + 8)) as Hblocks.
  { intros b. unfold blocks. rewrite elem_of_seqZ. lia. }
  set (step := fun (d : bytes) (block : Z) => if Z.land (Z.shiftr keep (block mod 8)) 1 =? 0
    then ClearBits d (values f * 8 + block * width f) (width f) else d) in *.
  destruct (fold_own (fun d => d) (fun b j => 8 * values f + b * width f <= j < 8 * values f + b * width f + width f)
    (fun d b => Ok (step d b)) blocks (sized n)
    (fun b d1 => forall k, 0 <= k < width f ->
       bit_at d1 (8 * values f + b * width f + k) = bit_at d (8 * values f + b * width f + k))
    (fun b d1 => forall k, 0 <= k < width f ->
       bit_at d1 (8 * values f + b * width f + k) = Z.testbit keep (b mod 8) && bit_at d (8 * values f + b * width f + k)))
    with (l := blocks) (s := d) (s' := d') as (Hs & HQ & Hfr); try done.
  - intros b b' j _ _ H1 H2. nia.
  - intros b d1 d2 Hb%Hblocks _ _ Hown H k Hkk. rewrite Hown by nia. by apply H.
  - intros b d1 d2 Hb%Hblocks _ _ Hown H k Hkk. rewrite Hown by nia. by apply H.
  - intros b d1 d2 Hb%Hblocks [L1 B1] Hpre [= <-]. unfold step. rewrite shiftr_land_1 by (apply div_mod_8; lia).
    destruct (Z.testbit keep (b mod 8)) eqn:Et; cbn [negb].
    + split; [done|]. split; [|done]. intros k Hkk. cbn [andb]. by apply Hpre.
    + destruct (value_bits_in bc n f b ltac:(lia) Hf) as [Hv1 Hv2].
      destruct (ClearBits_spec d1 (values f * 8 + b * width f) (width f)) as (L2 & B2 & S2); [lia|lia|lia|].
      split; [split; [lia|by apply B2]|]. split.
      * intros k Hkk. rewrite S2 by nia. by rewrite (proj2 (Z.leb_le _ _)), (proj2 (Z.ltb_lt _ _)) by lia.
      * intros j Hj Hno. rewrite S2 by done. destruct (Z.leb_spec (values f * 8 + b * width f) j),
          (Z.ltb_spec j (values f * 8 + b * width f + width f)); try done. lia.
  - apply NoDup_seqZ.
  - apply fold_res_pure.
  - split; [done|]. split; [intros b k Hb; by apply HQ, Hblocks|].
    intros j Hj Hno. apply Hfr; [done|]. intros b Hb%Hblocks. by apply Hno.
Qed.

(** The byte of a group: bit [b mod 8] belongs to block [b]. *)
Lemma group_byte d k g b : 0 <= k -> 8 * g <= b < 8 * g + 8 -> 0 <= g ->
  Z.testbit (byte_at d (k + g)) (b mod 8) = bit_at d (8 * k + b).
Proof.
  intros Hk Hb Hg. unfold bit_at. destruct (bit_shift k b) as [-> ->]. do 2 f_equal.
  assert (b / 8 = g) as ->; [|done]. symmetry. apply (Z.div_unique b 8 g (b - 8 * g)); lia.
Qed.

Lemma byte_land a b : byte_ok a -> byte_ok b -> byte_ok (Z.land a b).
Proof.
  intros Ha Hb. apply (in_u_bits 8); [lia|apply Z.land_nonneg; left; by apply Ha|].
  intros i Hi. by rewrite Z.land_spec, (byte_bits_above a).
Qed.

Lemma ClearValues_done l f keep d g : place_in (block_count_ l) (payload_bytes_ l) f -> sized (payload_bytes_ l) d ->
  0 <= g -> byte_ok keep ->
  let d' := ClearValues l f keep d g in
  sized (payload_bytes_ l) d' /\
  (forall b k, 8 * g <= b < Z.min (block_count_ l) (8 * g + 8) -> 0 <= k < width f ->
     bit_at d' (8 * values f + b * width f + k) = Z.testbit keep (b mod 8) && bit_at d (8 * values f + b * width f + k)) /\
  forall j, 0 <= j -> (forall b, 8 * g <= b < Z.min (block_count_ l) (8 * g + 8) ->
      ~ (8 * values f + b * width f <= j < 8 * values f + b * width f + width f)) -> bit_at d' j = bit_at d j.
Proof.
  intros Hf Hd Hg Hkeep d'. unfold d', ClearValues. destruct (Z.eqb_spec keep 255) as [->|E]; cbn [negb].
  - split; [done|]. split; [|done]. intros b k Hb Hk. pose proof (Z.mod_pos_bound b 8 ltac:(lia)).
    rewrite testbit_255 by lia. by rewrite bool_decide_true by lia.
  - apply (clear_values_loop (block_count_ l)); try done. by destruct Hkeep.
Qed.

Lemma ClearGroup_done l presence f d g : place_in (block_count_ l) (payload_bytes_ l) f ->
  sized (payload_bytes_ l) d -> sized (BytesForBits (block_count_ l)) presence -> 0 <= block_count_ l ->
  0 <= g < BytesForBits (block_count_ l) ->
  let d' := ClearGroup l presence f d g in
  sized (payload_bytes_ l) d' /\
  (forall b, 8 * g <= b < Z.min (block_count_ l) (8 * g + 8) -> block_cleared f presence d d' b) /\
  forall j, 0 <= j -> ~ group_bits (block_count_ l) f g j -> bit_at d' j = bit_at d j.
Proof.
  intros Hf Hd [Lp Bp] Hbc Hg d'. pose proof Hf as (Hw & H0 & Hn & Hvn). pose proof Hd as [L B].
  set (bc := block_count_ l) in *. assert (0 <= bc * width f) as Hbw by nia. pose proof (BytesForBits_bounds _ Hbw) as HB.
  pose proof (BytesForBits_bounds bc Hbc) as HB'.
  assert (forall b, 8 * g <= b < Z.min bc (8 * g + 8) -> Z.testbit (byte_at presence g) (b mod 8) = bit_at presence b) as Hpres.
  { intros b Hb. pose proof (group_byte presence 0 g b ltac:(lia) ltac:(lia) ltac:(lia)) as E.
    by rewrite Z.add_0_l, Z.mul_0_r, Z.add_0_l in E. }
  assert (forall b k, 8 * g <= b < Z.min bc (8 * g + 8) -> 0 <= k < width f -> 0 <= b * width f + k < bc * width f) as Hblk
    by (intros; nia).
  unfold d', ClearGroup, block_cleared, group_bits, kept. destruct (validity f) as [v|].
  - destruct (ClearValues_done l f (Z.land (byte_at presence g) (byte_at d (v + g))) d g) as ([L1 B1] & V1 & F1); try done; [lia|
      apply byte_land; by apply byte_at_ok|].
    set (d1 := ClearValues _ _ _ _ _) in *.
    assert (forall j, 8 * v <= j -> bit_at d1 j = bit_at d j) as Hval.
    { intros j Hj. apply F1; [lia|]. intros b Hb Hin. specialize (Hblk b (width f - 1) Hb ltac:(lia)). lia. }
    assert (forall j, 0 <= j -> bit_at (set_byte d1 (v + g) (Z.land (byte_at d1 (v + g)) (byte_at presence g))) j =
      if v + g =? j / 8 then bit_at d j && Z.testbit (byte_at presence g) (j mod 8) else bit_at d1 j) as S2.
    { intros j Hj. rewrite bit_at_set_byte by lia. destruct (Z.eqb_spec (v + g) (j / 8)) as [E|]; [|done].
      rewrite Z.land_spec. f_equal. rewrite <- Hval by (destruct (div_mod_8 j Hj); lia). unfold bit_at. by rewrite E. }
    split; [split; [rewrite length_set_byte; lia|apply bytes_ok_set_byte; [done|apply byte_land; by apply byte_at_ok]]|]. split.
    + intros b Hb. split.
      * intros k Hk. specialize (Hblk b k Hb Hk). rewrite S2 by lia. rewrite (proj2 (Z.eqb_neq _ _)).
        -- rewrite V1, Z.land_spec, Hpres, group_byte by (done || lia). done.
        -- pose proof (div_mod_8 (8 * values f + b * width f + k) ltac:(lia)). lia.
      * rewrite S2 by lia. destruct (bit_shift v b) as [-> ->].
        assert (b / 8 = g) as -> by (symmetry; apply (Z.div_unique b 8 g (b - 8 * g)); lia).
        rewrite Z.eqb_refl, Hpres by done. apply andb_comm.
    + intros j Hj Hno. rewrite S2 by done. rewrite (proj2 (Z.eqb_neq _ _)).
      * apply F1; [done|]. intros b Hb Hin. apply Hno. left. by exists b.
      * intros E. apply Hno. right. pose proof (div_mod_8 j Hj). lia.
  - destruct (ClearValues_done l f (byte_at presence g) d g) as (Hd1 & V1 & F1); try done; [lia|by apply byte_at_ok|].
    split; [done|]. split.
    + intros b Hb. split; [|done]. intros k Hk. rewrite V1, Hpres by done. by rewrite andb_true_r.
    + intros j Hj Hno. apply F1; [done|]. intros b Hb Hin. apply Hno. left. by exists b.
Qed.

(** The bits of a block belong to its group. *)
Lemma block_group bc f b : 0 <= b < bc ->
  8 * (b / 8) <= b < Z.min bc (8 * (b / 8) + 8) /\ (forall j, own_bits f b j -> group_bits bc f (b / 8) j).
Proof.
  intros Hb. pose proof (div_mod_8 b ltac:(lia)) as (? & ? & ?). split; [lia|]. intros j [Ho|Ho].
  - left. exists b. split; [lia|done].
  - right. destruct (validity f); [lia|done].
Qed.

Lemma group_bits_disjoint bc n f g g' j : place_in bc n f -> 0 <= bc -> 0 <= g -> 0 <= g' ->
  group_bits bc f g j -> group_bits bc f g' j -> g = g'.
Proof.
  intros (Hw & H0 & Hn & Hv) Hbc Hg Hg' H1 H2. assert (0 <= bc * width f) as Hbw by nia.
  pose proof (BytesForBits_bounds _ Hbw) as HB. unfold group_bits in *.
  assert (forall b, b < bc -> b * width f + width f <= bc * width f) as Hb by (intros; nia).
  destruct H1 as [(b & Hb1 & Hj1)|H1], H2 as [(b' & Hb2 & Hj2)|H2].
  - assert (b = b') by nia. lia.
  - specialize (Hb b ltac:(lia)). destruct (validity f); [lia|done].
  - specialize (Hb b' ltac:(lia)). destruct (validity f); [lia|done].
  - destruct (validity f); [lia|done].
Qed.

(** Only the block's own bits, before and after, matter. *)
Lemma block_cleared_ext bc n f presence d1 d1' d2 d2' b : 0 <= b < bc -> place_in bc n f ->
  (forall j, 0 <= j -> own_bits f b j -> bit_at d2 j = bit_at d1 j) ->
  (forall j, 0 <= j -> own_bits f b j -> bit_at d2' j = bit_at d1' j) ->
  block_cleared f presence d1 d1' b -> block_cleared f presence d2 d2' b.
Proof.
  intros Hb Hf H H' [Hk Hv]. pose proof (value_bits_in _ _ f b Hb Hf).
  assert (kept f presence d2 b = kept f presence d1 b) as Ek.
  { unfold kept. destruct (validity f) as [v|] eqn:Ev; [|done]. pose proof (validity_bits_in _ _ f b v Hb Hf Ev).
    rewrite H; [done|lia|right; by rewrite Ev]. }
  split.
  - intros k Hkk. rewrite Ek, H, H' by (lia || (left; lia)). by apply Hk.
  - destruct (validity f) as [v|] eqn:Ev; [|done]. pose proof (validity_bits_in _ _ f b v Hb Hf Ev).
    rewrite H, H' by (lia || (right; by rewrite Ev)). done.
Qed.

Lemma ClearColumn_done l presence f d : place_in (block_count_ l) (payload_bytes_ l) f ->
  sized (payload_bytes_ l) d -> sized (BytesForBits (block_count_ l)) presence -> 0 <= block_count_ l ->
  let d' := ClearColumn l presence d f in
  sized (payload_bytes_ l) d' /\
  (forall b, 0 <= b < block_count_ l -> block_cleared f presence d d' b) /\
  forall j, 0 <= j -> (forall g, 0 <= g < BytesForBits (block_count_ l) -> ~ group_bits (block_count_ l) f g j) ->
    bit_at d' j = bit_at d j.
Proof.
  intros Hf Hd Hp Hbc d'. set (bc := block_count_ l) in *. set (groups := seqZ 0 (BytesForBits bc)).
  assert (forall g, g ∈ groups <-> 0 <= g < BytesForBits bc) as Hgroups by (intros g; unfold groups; rewrite elem_of_seqZ; lia).
  assert (forall g b j, 8 * g <= b < Z.min bc (8 * g + 8) -> 0 <= g -> own_bits f b j -> group_bits bc f g j) as Hin.
  { intros g b j Hb Hg Ho. destruct (block_group bc f b ltac:(lia)) as [_ H].
    assert (b / 8 = g) as <- by (symmetry; apply (Z.div_unique b 8 g (b - 8 * g)); lia). by apply H. }
  destruct (fold_own (fun d => d) (group_bits bc f) (fun d g => Ok (ClearGroup l presence f d g)) groups
    (sized (payload_bytes_ l)) (fun g d1 => forall j, 0 <= j -> group_bits bc f g j -> bit_at d1 j = bit_at d j)
    (fun g d1 => forall b, 8 * g <= b < Z.min bc (8 * g + 8) -> block_cleared f presence d d1 b))
    with (l := groups) (s := d) (s' := d') as (Hs & HQ & Hfr); try done.
  - intros g g' j Hg%Hgroups Hg'%Hgroups. by apply (group_bits_disjoint bc (payload_bytes_ l)); [|lia..].
  - intros g d1 d2 _ _ _ Hown H j Hj Hr. rewrite Hown by done. by apply H.
  - intros g d1 d2 Hg%Hgroups _ _ Hown H b Hb.
    apply (block_cleared_ext bc (payload_bytes_ l) f presence d d1); try done; [lia| |by apply H].
    intros j Hj Ho. apply Hown; [done|]. by apply (Hin g b); [|lia|].
  - intros g d1 d2 Hg%Hgroups H1 Hpre [= <-].
    destruct (ClearGroup_done l presence f d1 g) as (G1 & G2 & G3); try done.
    split; [done|]. split; [|done]. intros b Hb.
    apply (block_cleared_ext bc (payload_bytes_ l) f presence d1 (ClearGroup l presence f d1 g)); try done; [lia| |by apply G2].
    intros j Hj Ho. symmetry. apply Hpre; [done|]. by apply (Hin g b); [|lia|].
  - apply NoDup_seqZ.
  - apply fold_res_pure.
  - split; [done|]. split.
    + intros b Hb. destruct (block_group bc f b Hb) as [Hg _]. apply (HQ (b / 8)); [|done]. apply Hgroups.
      pose proof (BytesForBits_bounds bc Hbc). pose proof (div_mod_8 b ltac:(lia)). lia.
    + intros j Hj Hno. apply Hfr; [done|]. intros g Hg%Hgroups. by apply Hno.
Qed.

(** The cells of a cleared block. *)
Lemma block_cleared_cell bc f presence d d' b : 0 <= b < bc -> place_in bc (len d) f -> bytes_ok d -> bytes_ok d' ->
  length d' = length d -> block_cleared f presence d d' b ->
  Cell f d' b = (if bit_at presence b then Cell f d b else empty_cell f) /\
  (Cell f d' b = None -> forall k, 0 <= k < width f -> bit_at d' (8 * values f + b * width f + k) = false).
Proof.
  intros Hb Hf Bd Bd' El [Hk Hv]. pose proof (value_bits_in _ _ f b Hb Hf). unfold kept in Hk. split.
  - destruct (bit_at presence b); cbn [andb] in *.
    + destruct (validity f) as [v|] eqn:Ev.
      * pose proof (validity_bits_in _ _ f b v Hb Hf Ev). destruct (bit_at d (8 * v + b)) eqn:Eb.
        -- apply (Cell_eq bc); try done; [by rewrite El|by rewrite Ev, Hv, Eb].
        -- unfold Cell. rewrite Ev. rewrite !GetBit_spec by lia. by rewrite Hv, Eb.
      * apply (Cell_eq bc); try done; [by rewrite El|by rewrite Ev].
    + apply (Cell_empty bc); try done; [by rewrite El|]. intros j Hj [Ho|Ho].
      * replace j with (8 * values f + b * width f + (j - (8 * values f + b * width f))) by lia. apply Hk. lia.
      * destruct (validity f); [|done]. by rewrite Ho.
  - intros Hnone k Hkk. rewrite Hk by done. unfold Cell in Hnone. destruct (validity f) as [v|] eqn:Ev; [|done].
    pose proof (validity_bits_in _ _ f b v Hb Hf Ev). rewrite GetBit_spec in Hnone by lia.
    destruct (bit_at d' (8 * v + b)) eqn:E'; [done|]. symmetry in Hv. destruct (bit_at presence b); [|done].
    cbn [andb] in *. by rewrite Hv.
Qed.

(** ClearEmptyValues keeps what the present blocks hold and leaves nothing behind: a present block has the
    same value or NULL as before in every column, an absent block has zero and no validity bit, and the value bits of a
    NULL are zero. *)
Lemma clear_empty_values_cells l presence payload : layout_ok l -> bytes_ok payload -> bytes_ok presence ->
  len payload = payload_bytes_ l -> len presence = BytesForBits (block_count_ l) ->
  exists d, ClearEmptyValues l presence payload = Ok d /\ sized (payload_bytes_ l) d /\
    forall f b, f ∈ fixed_ l -> 0 <= b < block_count_ l ->
      Cell f d b = (if GetBit presence b then Cell f payload b else empty_cell f) /\
      (Cell f d b = None -> forall k, 0 <= k < width f -> bit_at d (8 * values f + b * width f + k) = false).
Proof.
  intros Hl Bd Bp Ld Lp. unfold ClearEmptyValues. pass_guard by (by rewrite Ld, Lp, !Z.eqb_refl).
  eexists. split; [done|]. pose proof (lo_count l Hl) as Hbc.
  assert (forall f, f ∈ fixed_ l -> place_in (block_count_ l) (payload_bytes_ l) f /\
    (forall b j, 0 <= b < block_count_ l -> own_bits f b j -> region l (fixed_column f) j) /\
    (forall g j, 0 <= g < BytesForBits (block_count_ l) -> group_bits (block_count_ l) f g j -> region l (fixed_column f) j)) as Hpl.
  { intros f Hf. apply (elem_of_fixed l f Hl) in Hf. destruct (layout_place l _ f Hl Hf) as (_ & _ & _ & _ & Hin & R1 & R2 & Ho).
    split; [done|]. split; [done|]. intros g j Hg [(b & Hb & Hj)|Hv].
    - apply (Ho b); [lia|]. by left.
    - apply R2. destruct (validity f); [lia|done]. }
  destruct (fold_fixed l (ClearColumn l presence) (fun f d d' => forall b, 0 <= b < block_count_ l ->
    block_cleared f presence d d' b) payload) as [[L B] HR]; try done.
  - intros f d1 Hf Hd1 Hsame. destruct (Hpl f Hf) as (Hin & Ho & Hg).
    destruct (ClearColumn_done l presence f d1) as (S1 & S2 & S3); try done. split; [done|]. split.
    + intros b Hb. apply (block_cleared_ext (block_count_ l) (payload_bytes_ l) f presence d1 (ClearColumn l presence d1 f));
        try done; [|by apply S2]. intros j Hj Hown. symmetry. apply Hsame; [done|]. by apply (Ho b).
    + intros j Hj Hno. apply S3; [done|]. intros g Hgg Hgb. apply Hno. by apply (Hg g).
  - intros f d1 d2 Hf _ _ Hown HR b Hb. destruct (Hpl f Hf) as (Hin & Ho & _).
    apply (block_cleared_ext (block_count_ l) (payload_bytes_ l) f presence payload d1); try done; [|by apply HR].
    intros j Hj Hoo. apply Hown; [done|]. by apply (Ho b).
  - split; [done|]. intros f b Hf Hb. destruct (Hpl f Hf) as (Hin & _). rewrite GetBit_spec by lia.
    apply (block_cleared_cell (block_count_ l)); try done; [by rewrite Ld|lia|by apply HR].
Qed.

End Layout.
