(* ===== verification/Geometry.v ===== *)
(** * World geometry (src/src/geometry.cpp)

    Blocks, chunks and large chunks: the checks of a table's dimensions, the
    coordinates of a block's chunk and its place in it, and the layouts of the
    table's schema versions, built once and kept. *)
From stdpp Require Import prelude strings gmap.
From Stdlib Require Import ZArith Lia.
From S2P Require Import Prelude Columns Schema Layout.

#[local] Open Scope Z_scope.

Module Geometry.
Import Columns Schema Layout.

Definition kMaxLargeChunkDimensionChunks : Z := 1000000.
Definition kMaxChunkDimensionBlocks : Z := 4096.
Definition kMaxChunkBlockCount : Z := 1048576.
Definition kMaxBlockBits : Z := 65535.
Definition kMaxChunkPayloadBytes : Z := 64 * 1024 * 1024.
Definition kBitsPerByte : Z := 8.

Record GeometryConfig := {
  large_chunk_width_chunks : Z;
  large_chunk_height_chunks : Z;
  chunk_width_blocks : Z;
  chunk_height_blocks : Z;
  block_bits : Z
}.

(** The members; [earlier_] is the map of layouts built so far. *)
Record Geometry := {
  config_ : GeometryConfig;
  layout_ : ChunkLayout;
  earlier_ : gmap Z ChunkLayout
}.

Record ChunkCoord := { cx : Z; cy : Z }.
#[global] Instance ChunkCoord_eq_dec : EqDecision ChunkCoord.
Proof. solve_decision. Defined.

Definition RequireAtMost (value limit : Z) (msg : string) : res unit :=
  throw_if (limit <? value) (invalid_argument msg).

Definition MakeGeometry (config : GeometryConfig) (schema : TableSchema) : res Geometry :=
  _ ← throw_if ((large_chunk_width_chunks config =? 0) || (large_chunk_height_chunks config =? 0))
        (invalid_argument "large chunk dimensions must be > 0");
  _ ← throw_if ((chunk_width_blocks config =? 0) || (chunk_height_blocks config =? 0))
        (invalid_argument "chunk dimensions must be > 0");
  _ ← throw_if (block_bits config =? 0) (invalid_argument "block_bits must be > 0");
  _ ← RequireAtMost (large_chunk_width_chunks config) kMaxLargeChunkDimensionChunks "large_chunk_width_chunks must be <=";
  _ ← RequireAtMost (large_chunk_height_chunks config) kMaxLargeChunkDimensionChunks "large_chunk_height_chunks must be <=";
  _ ← RequireAtMost (chunk_width_blocks config) kMaxChunkDimensionBlocks "chunk_width_blocks must be <=";
  _ ← RequireAtMost (chunk_height_blocks config) kMaxChunkDimensionBlocks "chunk_height_blocks must be <=";
  _ ← RequireAtMost (block_bits config) kMaxBlockBits "block_bits must be <=";
  let chunk_blocks := u64 (chunk_width_blocks config * chunk_height_blocks config) in
  _ ← throw_if (kMaxChunkBlockCount <? chunk_blocks)
        (invalid_argument "chunk_width_blocks * chunk_height_blocks must be <=");
  let max_payload_bits := kMaxChunkPayloadBytes * kBitsPerByte in
  _ ← throw_if (negb (chunk_blocks =? 0) && (max_payload_bits / chunk_blocks <? block_bits config))
        (invalid_argument "chunk payload must be <=");
  _ ← throw_if (negb (block_bits config =? FixedBitsPerBlock schema))
        (invalid_argument "block_bits does not match the columns' fixed bits per block");
  layout ← MakeLayout schema chunk_blocks kMaxChunkPayloadBytes;
  Ok {| config_ := config; layout_ := layout; earlier_ := ∅ |}.

(** A table with one column bits(config.block_bits). *)
Definition MakeGeometryBits (config : GeometryConfig) : res Geometry :=
  MakeGeometry config (SingleBitsColumnSchema (block_bits config)).

Definition ChunkBlockCount (g : Geometry) : Z :=
  u64 (chunk_width_blocks (config_ g) * chunk_height_blocks (config_ g)).

Definition ChunkPayloadBits (g : Geometry) : Z := u64 (ChunkBlockCount g * block_bits (config_ g)).
Definition ChunkPayloadBytes (g : Geometry) : Z := payload_bytes_ (layout_ g).

(** The layout of a version, built anew. *)
Definition LayoutFresh (g : Geometry) (v : Z) : res ChunkLayout :=
  if v =? version (schema_ (layout_ g)) then Ok (layout_ g)
  else
    s ← SchemaAtVersion (schema_ (layout_ g)) v;
    MakeLayout s (ChunkBlockCount g) (payload_bytes_limit_ (layout_ g)).

(** LayoutAt under its lock: the layout, and the map with it stored. *)
Definition LayoutAt (g : Geometry) (v : Z) : res (ChunkLayout * Geometry) :=
  if v =? version (schema_ (layout_ g)) then Ok (layout_ g, g)
  else
    match earlier_ g !! v with
    | Some l => Ok (l, g)
    | None =>
        s ← SchemaAtVersion (schema_ (layout_ g)) v;
        l ← MakeLayout s (ChunkBlockCount g) (payload_bytes_limit_ (layout_ g));
        Ok (l, {| config_ := config_ g; layout_ := layout_ g; earlier_ := emplace v l (earlier_ g) |})
    end.

Definition FloorDiv (value divisor : Z) : Z :=
  let quotient := Z.quot value divisor in
  let remainder := Z.rem value divisor in
  if negb (remainder =? 0) && negb (eqb (0 <? remainder) (0 <? divisor)) then quotient - 1 else quotient.

Definition FloorMod (value divisor : Z) : Z :=
  let m := Z.rem value divisor in
  if m <? 0 then m + divisor else m.

Definition BlockToChunk (g : Geometry) (x y : Z) : ChunkCoord :=
  {| cx := FloorDiv x (chunk_width_blocks (config_ g)); cy := FloorDiv y (chunk_height_blocks (config_ g)) |}.

Definition BlockToLocal (g : Geometry) (x y : Z) : Z * Z :=
  (u32 (FloorMod x (chunk_width_blocks (config_ g))), u32 (FloorMod y (chunk_height_blocks (config_ g)))).

Definition ChunkToLarge (g : Geometry) (c : ChunkCoord) : ChunkCoord :=
  {| cx := FloorDiv (cx c) (large_chunk_width_chunks (config_ g));
     cy := FloorDiv (cy c) (large_chunk_height_chunks (config_ g)) |}.

Definition LocalBlockIndex (g : Geometry) (local_x local_y : Z) : res Z :=
  _ ← throw_if ((chunk_width_blocks (config_ g) <=? local_x) || (chunk_height_blocks (config_ g) <=? local_y))
        (out_of_range "local block coordinate out of range");
  Ok (u64 (local_y * chunk_width_blocks (config_ g) + local_x)).

(** ** Rounding towards minus infinity *)

Lemma FloorDiv_div v d : 0 < d -> FloorDiv v d = v / d.
Proof.
  intros Hd. unfold FloorDiv. pose proof (Z.quot_rem' v d) as E. pose proof (Z.rem_bound_abs v d ltac:(lia)).
  rewrite (proj2 (Z.ltb_lt 0 d)) by lia.
  destruct (Z.eqb_spec (Z.rem v d) 0) as [E0|E0]; cbn [negb andb].
  - apply (Z.div_unique v d _ 0); lia.
  - destruct (Z.ltb_spec 0 (Z.rem v d)); cbn [eqb negb].
    + apply (Z.div_unique v d _ (Z.rem v d)); lia.
    + apply (Z.div_unique v d _ (Z.rem v d + d)); lia.
Qed.

Lemma FloorMod_mod v d : 0 < d -> FloorMod v d = v mod d.
Proof.
  intros Hd. unfold FloorMod. pose proof (Z.quot_rem' v d) as E. pose proof (Z.rem_bound_abs v d ltac:(lia)).
  destruct (Z.ltb_spec (Z.rem v d) 0).
  - apply (Z.mod_unique v d (Z.quot v d - 1)); lia.
  - apply (Z.mod_unique v d (Z.quot v d)); lia.
Qed.

Definition config_ok (c : GeometryConfig) : Prop :=
  1 <= large_chunk_width_chunks c <= kMaxLargeChunkDimensionChunks /\
  1 <= large_chunk_height_chunks c <= kMaxLargeChunkDimensionChunks /\
  1 <= chunk_width_blocks c <= kMaxChunkDimensionBlocks /\
  1 <= chunk_height_blocks c <= kMaxChunkDimensionBlocks /\
  1 <= block_bits c <= kMaxBlockBits /\
  chunk_width_blocks c * chunk_height_blocks c <= kMaxChunkBlockCount /\
  chunk_width_blocks c * chunk_height_blocks c * block_bits c <= 8 * kMaxChunkPayloadBytes.

(** The fields of a configuration are unsigned. *)
Definition config_unsigned (c : GeometryConfig) : Prop :=
  in_u 32 (large_chunk_width_chunks c) /\ in_u 32 (large_chunk_height_chunks c) /\
  in_u 32 (chunk_width_blocks c) /\ in_u 32 (chunk_height_blocks c) /\ in_u 32 (block_bits c).

(** The invariant of a geometry, with the map of earlier layouts. *)
Record geometry_ok (g : Geometry) : Prop := {
  go_config : config_ok (config_ g);
  go_layout : layout_ok (layout_ g);
  go_count : block_count_ (layout_ g) = ChunkBlockCount g;
  go_limit : payload_bytes_limit_ (layout_ g) = kMaxChunkPayloadBytes;
  go_earlier : forall v l, earlier_ g !! v = Some l -> LayoutFresh g v = Ok l
}.

Lemma chunk_blocks_ok c : config_ok c ->
  u64 (chunk_width_blocks c * chunk_height_blocks c) = chunk_width_blocks c * chunk_height_blocks c /\
  1 <= chunk_width_blocks c * chunk_height_blocks c.
Proof.
  unfold config_ok, kMaxChunkBlockCount. intros. split; [apply wrap_small; unfold in_u|]; nia.
Qed.

Lemma MakeGeometry_ok config schema g : config_unsigned config -> in_u 64 (version schema) ->
  MakeGeometry config schema = Ok g ->
  geometry_ok g /\ config_ g = config /\ schema_ (layout_ g) = schema /\ block_bits config = FixedBitsPerBlock schema.
Proof.
  intros (H1 & H2 & H3 & H4 & H5) Hv H. unfold MakeGeometry, RequireAtMost in H. cbv zeta in H. res_inv. subst g.
  rewrite orb_false_iff, !Z.eqb_neq in Hs, Hs0. apply Z.eqb_neq in Hs1. apply Z.ltb_ge in Hs2, Hs3, Hs4, Hs5, Hs6, Hs7.
  apply negb_false_iff, Z.eqb_eq in Hs9. unfold in_u in *.
  assert (u64 (chunk_width_blocks config * chunk_height_blocks config) =
    chunk_width_blocks config * chunk_height_blocks config) as Ew.
  { apply wrap_small. unfold in_u, kMaxChunkDimensionBlocks in *.
    pose proof (Z.mul_le_mono_nonneg (chunk_width_blocks config) 4096 (chunk_height_blocks config) 4096
      ltac:(lia) ltac:(lia) ltac:(lia) ltac:(lia)). split; [apply Z.mul_nonneg_nonneg; lia|]. change (2 ^ 64) with 18446744073709551616. lia. }
  rewrite Ew in *.
  assert (1 <= chunk_width_blocks config * chunk_height_blocks config) as Hpos by (clear - H3 H4 Hs0; nia).
  assert (config_ok config) as Hc.
  { unfold config_ok. repeat split; try lia.
    apply andb_false_iff in Hs8 as [Hs8|Hs8]; [apply negb_false_iff, Z.eqb_eq in Hs8; lia|].
    apply Z.ltb_ge in Hs8. unfold kBitsPerByte in Hs8.
    pose proof (Z.mul_div_le (kMaxChunkPayloadBytes * 8) (chunk_width_blocks config * chunk_height_blocks config) ltac:(lia)).
    clear - Hs8 H Hpos. nia. }
  apply MakeLayout_inv in Hs10 as (Lo & Es & Eb & El); [|done|lia|unfold kMaxChunkPayloadBytes; lia].
  split; [|done]. split; cbn [config_ layout_ earlier_]; try done.
  unfold ChunkBlockCount. cbn [config_]. congruence.
Qed.

Lemma LayoutFresh_ok g v : geometry_ok g -> 1 <= v <= version (schema_ (layout_ g)) ->
  exists s, SchemaAtVersion (schema_ (layout_ g)) v = Ok s /\
    forall l, LayoutFresh g v = Ok l -> layout_ok l /\ schema_ l = s /\ block_count_ l = ChunkBlockCount g.
Proof.
  intros [Hc Hl Hn Hlim _] Hv. pose proof (lo_version _ Hl) as Hu. pose proof (lo_schema _ Hl) as Hs.
  destruct (SchemaAtVersion_ok _ v Hu Hs Hv) as (s & Es & Ev & Hsv & _). exists s. split; [done|]. intros l.
  unfold LayoutFresh. destruct (Z.eqb_spec v (version (schema_ (layout_ g)))) as [->|Hne].
  - intros [= <-]. split; [done|]. split; [|done]. unfold SchemaAtVersion in Es.
    res_inv. cbn [SchemaAtVersion_loop] in Es. rewrite Z.ltb_irrefl in Es. by injection Es.
  - rewrite Es, bind_Ok_l. intros H. destruct (chunk_blocks_ok _ Hc) as [Ew Hpos]. unfold ChunkBlockCount in *.
    apply MakeLayout_inv in H as (Lo & E1 & E2 & _); [done|unfold in_u in *; lia|lia|].
    rewrite Hlim. unfold kMaxChunkPayloadBytes. lia.
Qed.

Lemma div_in_range a d : in_i 64 a -> 1 <= d -> in_i 64 (a / d).
Proof.
  unfold in_i. change (2 ^ (64 - 1)) with 9223372036854775808. intros Ha Hd.
  split; [apply Z.div_le_lower_bound; lia|apply Z.div_lt_upper_bound; lia].
Qed.

(** A block, its chunk and its place. *)
Lemma block_place g x y : geometry_ok g -> in_i 64 x -> in_i 64 y ->
  let c := BlockToChunk g x y in
  let '(lx, ly) := BlockToLocal g x y in
  x = cx c * chunk_width_blocks (config_ g) + lx /\ 0 <= lx < chunk_width_blocks (config_ g) /\
  y = cy c * chunk_height_blocks (config_ g) + ly /\ 0 <= ly < chunk_height_blocks (config_ g) /\
  in_i 64 (cx c) /\ in_i 64 (cy c) /\ in_i 64 (cx (ChunkToLarge g c)) /\ in_i 64 (cy (ChunkToLarge g c)) /\
  exists i, LocalBlockIndex g lx ly = Ok i /\ 0 <= i < ChunkBlockCount g /\
    lx = i mod chunk_width_blocks (config_ g) /\ ly = i / chunk_width_blocks (config_ g).
Proof.
  intros [Hc _ _ _ _] Hx Hy. destruct (chunk_blocks_ok _ Hc) as [Ew Hpos].
  destruct Hc as (Hlw & Hlh & Hw & Hh & _ & Hbc & _).
  unfold BlockToChunk, BlockToLocal, ChunkToLarge, LocalBlockIndex, ChunkBlockCount. cbn [cx cy].
  rewrite !FloorDiv_div, !FloorMod_mod by lia. rewrite Ew. clear Ew.
  set (w := chunk_width_blocks (config_ g)) in *. set (h := chunk_height_blocks (config_ g)) in *.
  unfold kMaxChunkDimensionBlocks, kMaxChunkBlockCount in *.
  pose proof (Z.mod_pos_bound x w ltac:(lia)) as Mx. pose proof (Z.mod_pos_bound y h ltac:(lia)) as My.
  rewrite (wrap_small 32 (x mod w)), (wrap_small 32 (y mod h)) by (unfold in_u; lia).
  assert (0 <= (y mod h) * w + x mod w < w * h) as Hi by (clear - Mx My Hw Hh; nia).
  pose proof (Z.div_mod x w ltac:(lia)). pose proof (Z.div_mod y h ltac:(lia)).
  split; [lia|]. split; [done|]. split; [lia|]. split; [done|].
  split; [apply div_in_range; [done|lia]|]. split; [apply div_in_range; [done|lia]|].
  split; [apply div_in_range; [apply div_in_range; [done|lia]|lia]|].
  split; [apply div_in_range; [apply div_in_range; [done|lia]|lia]|].
  pass_guard by (rewrite orb_false_iff, !Z.leb_gt; lia).
  exists ((y mod h) * w + x mod w). rewrite wrap_small by (unfold in_u; lia). split; [done|]. split; [done|].
  rewrite Z.add_comm, Z.mod_add, Z.div_add, (Z.mod_small (x mod w)), (Z.div_small (x mod w)) by lia. split; [done|lia].
Qed.


(** A block's chunk and its place in the chunk stand for the block and no other: the place is inside the
    chunk, the block is at chunk * size + place on each axis also for negative coordinates, the chunk and
    the large chunk stay in the 64-bit range, and the index of the place in the chunk is below the block count. *)
Theorem block_coordinates g x y : geometry_ok g -> in_i 64 x -> in_i 64 y ->
  let c := BlockToChunk g x y in
  let '(lx, ly) := BlockToLocal g x y in
  x = cx c * chunk_width_blocks (config_ g) + lx /\ 0 <= lx < chunk_width_blocks (config_ g) /\
  y = cy c * chunk_height_blocks (config_ g) + ly /\ 0 <= ly < chunk_height_blocks (config_ g) /\
  in_i 64 (cx c) /\ in_i 64 (cy c) /\ in_i 64 (cx (ChunkToLarge g c)) /\ in_i 64 (cy (ChunkToLarge g c)) /\
  exists i, LocalBlockIndex g lx ly = Ok i /\ 0 <= i < ChunkBlockCount g /\
    lx = i mod chunk_width_blocks (config_ g) /\ ly = i / chunk_width_blocks (config_ g).
Proof. exact (block_place g x y). Qed.

Definition example_config : GeometryConfig :=
  {| large_chunk_width_chunks := 8; large_chunk_height_chunks := 8; chunk_width_blocks := 16;
     chunk_height_blocks := 16; block_bits := 16 |}.
Definition example_geometry : Geometry :=
  match MakeGeometryBits example_config with
  | Ok g => g
  | Err _ => {| config_ := example_config; layout_ := example_layout1; earlier_ := ∅ |}
  end.

Lemma example_geometry_ok : geometry_ok example_geometry.
Proof.
  apply (MakeGeometry_ok example_config (SingleBitsColumnSchema 16)); [|unfold in_u; by vm_compute|by vm_compute].
  unfold config_unsigned, in_u. by vm_compute.
Qed.

Lemma block_coordinates_witness : -1 = cx (BlockToChunk example_geometry (-1) 20) * 16 + 15.
Proof.
  destruct (block_coordinates example_geometry (-1) 20) as [H _].
  - exact example_geometry_ok.
  - unfold in_i. vm_compute. split; discriminate || reflexivity.
  - unfold in_i. vm_compute. split; discriminate || reflexivity.
  - exact H.
Defined.

(** The kept layouts are the right ones: LayoutAt returns the layout that building the version anew gives, a
    version the table lacks fails and stores nothing, and the invariant of the map is kept. *)
Theorem layout_at_kept g v : geometry_ok g ->
  match LayoutAt g v with
  | Ok (l, g') => LayoutFresh g v = Ok l /\ geometry_ok g' /\ config_ g' = config_ g /\ layout_ g' = layout_ g
  | Err e => LayoutFresh g v = Err e
  end.
Proof.
  intros Hg. unfold LayoutAt. destruct (Z.eqb_spec v (version (schema_ (layout_ g)))) as [->|Hne].
  { split; [unfold LayoutFresh; by rewrite Z.eqb_refl|done]. }
  destruct (earlier_ g !! v) as [l|] eqn:El; [split; [by apply (go_earlier g Hg)|done]|].
  assert (LayoutFresh g v = (s ← SchemaAtVersion (schema_ (layout_ g)) v;
    MakeLayout s (ChunkBlockCount g) (payload_bytes_limit_ (layout_ g)))) as Ef.
  { unfold LayoutFresh. by rewrite (proj2 (Z.eqb_neq _ _) Hne). }
  rewrite Ef. destruct (SchemaAtVersion _ v) as [s|e]; [|done]. cbn [mbind res_bind] in *.
  destruct (MakeLayout s _ _) as [l|e]; [|done]. cbn [mbind res_bind]. split; [done|]. split; [|done].
  destruct Hg as [Hc Hl Hn Hlim He]. split; cbn [config_ layout_ earlier_]; try done.
  intros v' l' H. unfold emplace in H. rewrite El in H. destruct (decide (v' = v)) as [->|Hv].
  - rewrite lookup_insert_eq in H. injection H as <-. exact Ef.
  - rewrite lookup_insert_ne in H by done. by apply He in H.
Qed.

Lemma layout_at_kept_witness : exists l, LayoutAt example_geometry 1 = Ok (l, example_geometry) /\
  LayoutFresh example_geometry 1 = Ok l.
Proof.
  pose proof (layout_at_kept example_geometry 1 example_geometry_ok) as H.
  exists (layout_ example_geometry). split; [reflexivity|]. exact (proj1 H).
Defined.

End Geometry.
