(* ===== verification/Cql.v ===== *)
(** * The statements of the query language (src/src/cql.cpp, cql.hpp)

    A statement is parsed from one request line.  Proved here: parsing ends
    with a statement or a ParseError; the numbers, names and areas of a
    statement are in their ranges; and the parameters it takes are $1 to $n,
    each used once, as many as CountParameterTokens counts in the bytes of the
    line, so that the frames a client sends after the line are the ones read. *)
From stdpp Require Import prelude strings gmap.
From Stdlib Require Import ZArith Lia.
From S2P Require Import Prelude Text Floats Doubles Columns ExprPlan Geometry StateError Lexer.

#[local] Open Scope Z_scope.

Module Cql.
Import Text Floats Doubles Columns ExprPlan Geometry StateError Lexer.

Inductive Right := kRead | kWrite | kAdmin.
Definition right_number (r : Right) : Z := match r with kRead => 1 | kWrite => 2 | kAdmin => 3 end.
Definition kEveryTable : bytes := str "*".

Record FeedArea := { area_first : ChunkCoord; area_last : ChunkCoord }.
Record FeedPosition := { epoch : bytes; feed_revision : Z }.

(** What a feed leaves out, of WATCH and of CREATE SLOT. *)
Record FeedFilters := { filter_area : option FeedArea; filter_columns : option (list bytes); filter_no_before : bool; filter_chunks : bool }.

Record ColumnDefinition := { defined_name : bytes; defined_type : ColumnType; defined_nullable : bool; defined_required : bool; defined_default : option Literal }.
Record Option_ := { option_name : bytes; option_value : Literal }.

Record CreateTableFields := {
  create_table : bytes; create_columns : list ColumnDefinition; chunk_width : Z; chunk_height : Z; large : option (Z * Z);
  create_options : list Option_; create_if_not_exists : bool
}.
Record CreateSlotFields := { slot_name : bytes; slot_table : bytes; slot_if_not_exists : bool; slot_filters : FeedFilters; slot_owner : option bytes }.
Record WatchFields := {
  watch_table : bytes; watch_filters : FeedFilters; watch_slot : option bytes; watch_after : option FeedPosition;
  ack_timeout_ms : option Z; takeover : bool
}.
Record GrantRightFields := { revoke : bool; right_ : Right; grant_table : bytes; grant_user : bytes }.

Inductive TableChange :=
| AddColumn (definition : ColumnDefinition) (if_not_exists : bool)
| DropColumn (name : bytes) (if_exists : bool)
| RenameColumn (name new_name : bytes)
| AlterColumnType (name : bytes) (type : ColumnType) (conversion : option Conversion)
| SetOption (option : Option_).

(** The statements MIGRATE takes. *)
Inductive MigrationStatement :=
| MCreateTable (create : CreateTableFields)
| MAlterTable (table : bytes) (change : TableChange)
| MDropTable (table : bytes) (if_exists : bool)
| MGrantRight (grant : GrantRightFields)
| MCreateSlot (create : CreateSlotFields)
| MDropSlot (name table : bytes) (if_exists : bool).

Inductive Statement :=
| GetBlock (x y : Z) (table : bytes) (columns : list bytes) (with_version with_schema : bool)
| SetBlock (x y : Z) (table : bytes) (values : list (bytes * Literal)) (if_version : option Z)
| DeleteBlock (x y : Z) (table : bytes) (if_version : option Z)
| GetChunk (chunk_x chunk_y : Z) (table : bytes) (columns : list bytes)
| SetChunk (chunk_x chunk_y : Z) (table : bytes) (state : Z) (if_version : option Z)
| GetArea (around : bool) (x0 y0 x1 y1 radius : Z) (table : bytes) (columns : list bytes) (with_schema : bool)
| CreateTable (create : CreateTableFields)
| AlterTable (table : bytes) (change : TableChange)
| DropTable (table : bytes) (if_exists : bool)
| ShowTables
| RecoverTable (table : bytes)
| Describe (table : bytes)
| FlushWal
| Backup (path : bytes)
| ShowMetrics
| ShowStatus
| EnableFeature (feature : bytes)
| ReloadTls
| Ping
| ScanChunks (table : bytes) (after : option (Z * Z)) (limit : option Z)
| CreateUser (user : bytes) (verifier : Literal) (manages_users if_not_exists : bool)
| AlterUser (user : bytes) (verifier : option Literal) (manages_users : option bool)
| DropUser (user : bytes) (if_exists : bool)
| GrantRight (grant : GrantRightFields)
| ShowUsers
| Begin
| Commit
| Rollback
| Watch (watch : WatchFields)
| Unwatch
| CreateSlot (create : CreateSlotFields)
| DropSlot (name table : bytes) (if_exists : bool)
| ShowSlots (table : option bytes)
| Ack (revision : Z)
| Migrate (name text : bytes) (statement : MigrationStatement)
| ShowMigrations.

Record Parsed := { statement : Statement; parameters : Z }.
Record HelloRequest := { protocol : Z; hello_user : option bytes; hello_options : list Option_; hello_parameters : Z }.

(** ** The name a misspelt statement is closest to *)

(** One row of the edit distances between two words; [left] is the entry before. *)
Fixpoint next_row (c : Z) (keyword : bytes) (previous : list Z) (left : Z) : list Z :=
  match keyword, previous with
  | k :: keyword, p0 :: ((p1 :: _) as previous) =>
      let d := Z.min (Z.min (p1 + 1) (left + 1)) (p0 + (if c =? k then 0 else 1)) in d :: next_row c keyword previous d
  | _, _ => []
  end.

Definition distance_ (word keyword : bytes) : Z :=
  let start := map Z.of_nat (seq 0 (S (length keyword))) in
  let rows := fold_left (fun '(previous, i) c => (i + 1 :: next_row c keyword previous (i + 1), i + 1)) word (start, 0) in
  List.last rows.1 0.

Definition statement_keywords : list string :=
  ["get"; "set"; "delete"; "create"; "alter"; "drop"; "show"; "describe"; "grant"; "revoke"; "begin"; "commit"; "rollback"; "ping"; "flush"; "watch";
   "unwatch"; "ack"; "backup"; "migrate"; "scan"; "reload"; "recover"].

Definition StatementSuggestion (word : bytes) : string :=
  if 16 <? len word then ""
  else
    let lower := Lower word in
    let '(closest, _, tied) :=
      fold_left (fun '(closest, best, tied) keyword =>
          let d := distance_ lower (str keyword) in
          if d <? best then (str keyword, d, false) else if d =? best then (closest, best, true) else (closest, best, tied))
        statement_keywords (([] : bytes), if len word <? 4 then 2 else 3, false) in
    if bool_decide (closest = []) || tied then "" else "; did you mean " +:+ text_of (map (fun c => c - 97 + 65) closest) +:+ "?".

Section Parser.
Context (line : bytes).

Abbreviation P := (ST Reader).
Abbreviation Peek := (Lexer.Peek line kStatement).
Abbreviation Take := (Lexer.Take line kStatement).
Abbreviation Accept k := (AcceptWord line kStatement (str k)).
Abbreviation Expect k := (ExpectWord line kStatement (str k)).
Abbreviation AcceptToken := (Lexer.AcceptToken line kStatement).
Abbreviation ExpectToken := (Lexer.ExpectToken line kStatement).
Abbreviation unexpected := (Lexer.unexpected line kStatement).

(** Every token takes a character. *)
Definition fuel : nat := (2 * length line + 1)%nat.

(** [do item while (AcceptToken(kComma))]. *)
Definition Many {A} (item : P A) : P (list A) :=
  x ← item;
  while_some (fun xs => b ← AcceptToken tkComma; if b : bool then x ← item; mret (Some (xs ++ [x])) else mret None) fuel [x].

Definition Name (what : string) : P bytes :=
  t ← Peek;
  if negb (bool_decide (token_kind t = tkWord)) then unexpected ("expected " +:+ what)
  else if negb (bool_decide (token_text t = Lower (token_text t))) then fail (column t) ("names are lowercase: " +:+ Quote t)
  else t ← Take; mret (token_text t).

Definition name_start (c : Z) : bool := ((97 <=? c) && (c <=? 122)) || (c =? 95).
Definition is_slot_name (name : bytes) : bool :=
  match name with
  | [] => false
  | c :: _ => (len name <=? 63) && name_start c && forallb (fun c => name_start c || IsDigit c) name
  end.

Definition SlotName : P bytes :=
  t ← Peek;
  if negb (bool_decide (token_kind t = tkText)) then unexpected "expected a quoted slot name"
  else if negb (is_slot_name (token_text t)) then fail (column t) "slot names must match [a-z_][a-z0-9_]* and have 1 to 63 bytes"
  else t ← Take; mret (token_text t).

Definition IntegerToken (what : string) : P Integer :=
  t ← Peek;
  if negb (bool_decide (token_kind t = tkInteger)) then unexpected ("expected " +:+ what)
  else v ← pure_ (IntegerOf t); _ ← Take; mret v.

Definition Coordinate (what : string) : P Z :=
  t ← Peek;
  v ← IntegerToken what;
  let limit := 2 ^ 63 - 1 + (if negative v then 1 else 0) in
  if limit <? magnitude v then fail (column t) (what +:+ " is out of range")
  else mret (if negative v then i64 (u64 (0 - magnitude v)) else i64 (magnitude v)).

Definition Unsigned (what : string) (max : Z) : P Z :=
  t ← Peek;
  v ← IntegerToken what;
  if negative v || (max <? magnitude v) then fail (column t) (what +:+ " must be between 0 and " +:+ number_text max) else mret (magnitude v).

Definition u64_max : Z := 2 ^ 64 - 1.
Definition u32_max : Z := 2 ^ 32 - 1.

Definition f64_infinity : Z := f64_inf 0.

Definition Value (parameter_allowed : bool) : P Literal :=
  t ← Peek;
  match token_kind t with
  | tkInteger => v ← IntegerToken "a value"; mret (LInteger (negative v) (magnitude v))
  | tkFloat => v ← pure_ (FloatOf t); _ ← Take; mret (LDouble v)
  | tkText => t ← Take; mret (LText (token_text t))
  | tkBytes => t ← Take; mret (LBytes (BytesOf t))
  | tkBits => t ← Take; mret (LBits (token_text t))
  | tkParameter =>
      if negb parameter_allowed then fail (column t) "parameters are values of SET BLOCK and SET CHUNK"
      else i ← TakeParameter line kStatement; mret (LParameter i)
  | tkWord =>
      let word := Lower (token_text t) in
      if bool_decide (word = str "null") then _ ← Take; mret LNull
      else if bool_decide (word = str "true") || bool_decide (word = str "false") then _ ← Take; mret (LBool (bool_decide (word = str "true")))
      else if bool_decide (word = str "inf") then _ ← Take; mret (LDouble f64_infinity)
      else if bool_decide (word = str "nan") then _ ← Take; mret (LDouble quiet_NaN)
      else unexpected "expected a value"
  | _ => unexpected "expected a value"
  end.

Definition Columns_ : P (list bytes) :=
  b ← Accept "columns"; if b : bool then Many (Name "a column name") else mret [].

Definition FeedBounds : P FeedArea :=
  x0 ← Coordinate "a chunk x"; y0 ← Coordinate "a chunk y";
  _ ← Expect "to";
  x1 ← Coordinate "a chunk x"; y1 ← Coordinate "a chunk y";
  if (x1 <? x0) || (y1 <? y0) then fail 1 "AREA bounds are reversed"
  else mret {| area_first := {| cx := x0; cy := y0 |}; area_last := {| cx := x1; cy := y1 |} |}.

Definition FeedColumns : P (list bytes) :=
  enclosed ← AcceptToken tkOpen;
  columns ← Many (Name "a column name");
  _ ← (if enclosed : bool then ExpectToken tkClose ")" else mret tt);
  mret columns.

(** The filters with the next one; [None] when what follows is none. *)
Definition FeedFilter (f : FeedFilters) : P (option FeedFilters) :=
  t ← Peek;
  b ← Accept "area";
  if b : bool then
    if filter_area f then fail (column t) "AREA is given twice"
    else a ← FeedBounds; mret (Some {| filter_area := Some a; filter_columns := filter_columns f; filter_no_before := filter_no_before f; filter_chunks := filter_chunks f |})
  else
  b ← Accept "columns";
  if b : bool then
    if filter_columns f then fail (column t) "COLUMNS is given twice"
    else c ← FeedColumns; mret (Some {| filter_area := filter_area f; filter_columns := Some c; filter_no_before := filter_no_before f; filter_chunks := filter_chunks f |})
  else
  b ← Accept "no";
  if b : bool then
    if filter_no_before f then fail (column t) "NO BEFORE is given twice"
    else _ ← Expect "before"; mret (Some {| filter_area := filter_area f; filter_columns := filter_columns f; filter_no_before := true; filter_chunks := filter_chunks f |})
  else
  b ← Accept "chunks";
  if b : bool then
    if filter_chunks f then fail (column t) "CHUNKS is given twice"
    else mret (Some {| filter_area := filter_area f; filter_columns := filter_columns f; filter_no_before := filter_no_before f; filter_chunks := true |})
  else mret None.

Definition no_filters : FeedFilters := {| filter_area := None; filter_columns := None; filter_no_before := false; filter_chunks := false |}.

Definition IfNotExists : P bool :=
  b ← Accept "if"; if b : bool then _ ← Expect "not"; _ ← Expect "exists"; mret true else mret false.

Definition IfExists : P bool :=
  b ← Accept "if"; if b : bool then _ ← Expect "exists"; mret true else mret false.

Definition IfVersion : P (option Z) :=
  b ← Accept "if"; if b : bool then _ ← Expect "version"; v ← Unsigned "a version" u64_max; mret (Some v) else mret None.

Definition Type__ : P ColumnType :=
  t ← Peek;
  if negb (bool_decide (token_kind t = tkWord)) then unexpected "expected a column type"
  else
    t ← Take;
    let word := Lower (token_text t) in
    let other := fail (column t) (text_of word +:+ " is not a column type") in
    if bool_decide (word = str "bool") then mret {| kind := kBool; size := 1 |}
    else if bool_decide (word = str "f32") then mret {| kind := kFloat32; size := 32 |}
    else if bool_decide (word = str "f64") then mret {| kind := kFloat64; size := 64 |}
    else
      match word with
      | [] => throw (undefined "word[0]")
      | c :: digits =>
          if ((c =? 117) || (c =? 105)) && negb (bool_decide (digits = [])) && forallb IsDigit digits then
            match from_chars 32 digits with
            | None => other
            | Some (n, _) => mret {| kind := if c =? 117 then kUnsigned else kSigned; size := n |}
            end
          else if bool_decide (word = str "bits") || bool_decide (word = str "text") || bool_decide (word = str "bytes") then
            _ ← ExpectToken tkOpen "(";
            n ← Unsigned "a size" u32_max;
            _ ← ExpectToken tkClose ")";
            mret {| kind := if bool_decide (word = str "bits") then kBits else if bool_decide (word = str "text") then kText else kBytes; size := u32 n |}
          else other
      end.

(** One of NULL, REQUIRED and DEFAULT. *)
Definition DefinitionWord (d : ColumnDefinition) : P (option ColumnDefinition) :=
  t ← Peek;
  b ← Accept "null";
  if b : bool then
    if defined_nullable d then fail (column t) "NULL is given twice"
    else mret (Some {| defined_name := defined_name d; defined_type := defined_type d; defined_nullable := true; defined_required := defined_required d; defined_default := defined_default d |})
  else
  b ← Accept "required";
  if b : bool then
    if defined_required d then fail (column t) "REQUIRED is given twice"
    else mret (Some {| defined_name := defined_name d; defined_type := defined_type d; defined_nullable := defined_nullable d; defined_required := true; defined_default := defined_default d |})
  else
  b ← Accept "default";
  if b : bool then
    if defined_default d then fail (column t) "DEFAULT is given twice"
    else v ← Value false;
      mret (Some {| defined_name := defined_name d; defined_type := defined_type d; defined_nullable := defined_nullable d; defined_required := defined_required d; defined_default := Some v |})
  else mret None.

Definition Definition_ : P ColumnDefinition :=
  n ← Name "a column name";
  t ← Type__;
  while_some DefinitionWord fuel {| defined_name := n; defined_type := t; defined_nullable := false; defined_required := false; defined_default := None |}.

Definition OptionAssignment : P Option_ :=
  n ← Name "an option name"; _ ← ExpectToken tkEquals "="; v ← Value false; mret {| option_name := n; option_value := v |}.

Definition Dimensions : P (Z * Z) :=
  width ← Unsigned "a width" u32_max;
  by_ ← Peek;
  if bool_decide (token_kind by_ = tkWord) &&
     match token_text by_ with c :: digits => negb (bool_decide (digits = [])) && ((c =? 120) || (c =? 88)) && forallb IsDigit digits | [] => false end then
    match from_chars 32 (drop 1 (token_text by_)) with
    | None => fail (column by_) "the height is out of range"
    | Some (height, _) => _ ← Take; mret (u32 width, height)
    end
  else
    _ ← Expect "x";
    height ← Unsigned "a height" u32_max;
    mret (u32 width, u32 height).

Definition Verifier : P Literal :=
  t ← Peek;
  v ← Value true;
  match v with
  | LParameter _ | LText _ => mret v
  | _ => fail (column t) "a verifier is a parameter or a quoted SCRAM-SHA-256$... value, never a password"
  end.

Definition Right_ : P Right :=
  b ← Accept "read"; if b : bool then mret kRead else
  b ← Accept "write"; if b : bool then mret kWrite else
  b ← Accept "admin"; if b : bool then mret kAdmin else
  unexpected "expected READ, WRITE or ADMIN".

(** The highest right of a list granted, the lowest of one revoked. *)
Definition pick_right (revoke : bool) (rights : list Right) : Right :=
  match rights with
  | [] => kRead
  | r :: rights => fold_left (fun best r => if (if revoke then right_number r <? right_number best else right_number best <? right_number r) then r else best) rights r
  end.

Definition GrantOrRevoke (revoke : bool) : P GrantRightFields :=
  rights ← Many Right_;
  _ ← Expect "on";
  b ← AcceptToken tkStar;
  table ← (if b : bool then mret kEveryTable else Name "a table name or *");
  _ ← (if revoke then Expect "from" else Expect "to");
  user ← Name "a user name";
  mret {| revoke := revoke; right_ := pick_right revoke rights; grant_table := table; grant_user := user |}.

(** ** One statement *)

Definition BackupStatement : P Statement :=
  _ ← Expect "to";
  t ← Peek;
  if negb (bool_decide (token_kind t = tkText)) then unexpected "expected a quoted backup path" else t ← Take; mret (Backup (token_text t)).

(** WITH VERSION and WITH SCHEMA of GET BLOCK. *)
Definition WithWord (w : bool * bool) : P (option (bool * bool)) :=
  let '(with_version, with_schema) := w in
  b ← Accept "with";
  if negb b then mret None
  else
    t ← Peek;
    b ← Accept "version";
    if b : bool then if with_version : bool then fail (column t) "WITH VERSION is given twice" else mret (Some (true, with_schema))
    else
      b ← Accept "schema";
      if b : bool then if with_schema : bool then fail (column t) "WITH SCHEMA is given twice" else mret (Some (with_version, true))
      else fail (column t) "expected VERSION or SCHEMA".

Definition GetBlockStatement : P Statement :=
  x ← Coordinate "x"; y ← Coordinate "y"; _ ← Expect "from"; table ← Name "a table name"; columns ← Columns_;
  '(with_version, with_schema) ← while_some WithWord fuel (false, false);
  mret (GetBlock x y table columns with_version with_schema).

Definition GetChunkStatement : P Statement :=
  x ← Coordinate "a chunk x"; y ← Coordinate "a chunk y"; _ ← Expect "from"; table ← Name "a table name"; columns ← Columns_;
  mret (GetChunk x y table columns).

Definition GetAreaStatement : P Statement :=
  around ← Accept "around";
  '(x0, y0, x1, y1, radius) ←
    (if around : bool then
       x ← Coordinate "x"; y ← Coordinate "y"; _ ← Expect "radius"; r ← Unsigned "a radius" (2 ^ 63 - 1); mret (x, y, 0, 0, i64 r)
     else
       x0 ← Coordinate "x"; y0 ← Coordinate "y"; _ ← Expect "to"; x1 ← Coordinate "x"; y1 ← Coordinate "y"; mret (x0, y0, x1, y1, 0));
  _ ← Expect "from"; table ← Name "a table name"; columns ← Columns_;
  with_schema ← Accept "with";
  _ ← (if with_schema : bool then Expect "schema" else mret tt);
  mret (GetArea around x0 y0 x1 y1 radius table columns with_schema).

Definition GetStatement : P Statement :=
  b ← Accept "block"; if b : bool then GetBlockStatement else
  b ← Accept "chunk"; if b : bool then GetChunkStatement else
  b ← Accept "area"; if b : bool then GetAreaStatement else
  unexpected "expected BLOCK, CHUNK or AREA".

Definition AssignmentItem : P (bytes * Literal) :=
  n ← Name "a column name"; _ ← ExpectToken tkEquals "="; v ← Value true; mret (n, v).

Definition SetStatement : P Statement :=
  b ← Accept "block";
  if b : bool then
    x ← Coordinate "x"; y ← Coordinate "y"; _ ← Expect "in"; table ← Name "a table name";
    values ← Many AssignmentItem;
    v ← IfVersion; mret (SetBlock x y table values v)
  else
  b ← Accept "chunk";
  if b : bool then
    x ← Coordinate "a chunk x"; y ← Coordinate "a chunk y"; _ ← Expect "in"; table ← Name "a table name";
    t ← Peek;
    state ← Value true;
    match state with
    | LParameter i => v ← IfVersion; mret (SetChunk x y table i v)
    | _ => fail (column t) "the chunk is sent as a parameter ($1)"
    end
  else unexpected "expected BLOCK or CHUNK".

Definition DeleteStatement : P Statement :=
  _ ← Expect "block"; x ← Coordinate "x"; y ← Coordinate "y"; _ ← Expect "from"; table ← Name "a table name"; v ← IfVersion;
  mret (DeleteBlock x y table v).

(** OWNER, or a filter. *)
Definition SlotWord (s : FeedFilters * option bytes) : P (option (FeedFilters * option bytes)) :=
  let '(filters, owner) := s in
  t ← Peek;
  b ← Accept "owner";
  if b : bool then if owner : option _ then fail (column t) "OWNER is given twice" else n ← Name "a user name"; mret (Some (filters, Some n))
  else f ← FeedFilter filters; match f with Some filters => mret (Some (filters, owner)) | None => mret None end.

Definition CreateSlotStatement : P CreateSlotFields :=
  ine ← IfNotExists; n ← SlotName; _ ← Expect "on"; table ← Name "a table name";
  '(filters, owner) ← while_some SlotWord fuel (no_filters, None);
  mret {| slot_name := n; slot_table := table; slot_if_not_exists := ine; slot_filters := filters; slot_owner := owner |}.

Definition CreateUserStatement : P Statement :=
  ine ← IfNotExists; user ← Name "a user name"; _ ← Expect "verifier"; v ← Verifier;
  manages ← Accept "manages";
  _ ← (if manages : bool then Expect "users" else mret tt);
  mret (CreateUser user v manages ine).

(** The variables of CREATE TABLE's loop: the dimensions, LARGE, the options, and whether CHUNK and WITH were given. *)
Record TableWords := { tw_width : Z; tw_height : Z; tw_large : option (Z * Z); tw_options : list Option_; tw_chunk : bool; tw_with : bool }.

Definition TableWord (w : TableWords) : P (option TableWords) :=
  t ← Peek;
  b ← Accept "chunk";
  if b : bool then
    if tw_chunk w then fail (column t) "CHUNK is given twice"
    else '(width, height) ← Dimensions;
      mret (Some {| tw_width := width; tw_height := height; tw_large := tw_large w; tw_options := tw_options w; tw_chunk := true; tw_with := tw_with w |})
  else
  b ← Accept "large";
  if b : bool then
    if tw_large w then fail (column t) "LARGE is given twice"
    else d ← Dimensions;
      mret (Some {| tw_width := tw_width w; tw_height := tw_height w; tw_large := Some d; tw_options := tw_options w; tw_chunk := tw_chunk w; tw_with := tw_with w |})
  else
  b ← Accept "with";
  if b : bool then
    if tw_with w then fail (column t) "WITH is given twice"
    else options ← Many OptionAssignment;
      mret (Some {| tw_width := tw_width w; tw_height := tw_height w; tw_large := tw_large w; tw_options := tw_options w ++ options; tw_chunk := tw_chunk w; tw_with := true |})
  else mret None.

Definition CreateTableStatement : P CreateTableFields :=
  _ ← Expect "table";
  ine ← IfNotExists; table ← Name "a table name";
  _ ← ExpectToken tkOpen "(";
  columns ← Many Definition_;
  _ ← ExpectToken tkClose ")";
  w ← while_some TableWord fuel {| tw_width := 16; tw_height := 16; tw_large := None; tw_options := []; tw_chunk := false; tw_with := false |};
  mret {| create_table := table; create_columns := columns; chunk_width := tw_width w; chunk_height := tw_height w; large := tw_large w;
          create_options := tw_options w; create_if_not_exists := ine |}.

Definition CreateStatement : P Statement :=
  b ← Accept "slot"; if b : bool then s ← CreateSlotStatement; mret (CreateSlot s) else
  b ← Accept "user"; if b : bool then CreateUserStatement else
  c ← CreateTableStatement; mret (CreateTable c).

Definition AlterUserStatement : P Statement :=
  user ← Name "a user name";
  b ← Accept "verifier";
  if b : bool then v ← Verifier; mret (AlterUser user (Some v) None)
  else no ← Accept "no"; _ ← Expect "manages"; _ ← Expect "users"; mret (AlterUser user None (Some (negb no))).

Definition UsingConversion : P (option Conversion) :=
  b ← Accept "using";
  if negb b then mret None else
  b ← Accept "clamp"; if b : bool then mret (Some kClamp) else
  b ← Accept "default"; if b : bool then mret (Some kDefault) else
  b ← Accept "truncate"; if b : bool then mret (Some kTruncate) else
  unexpected "expected CLAMP, DEFAULT or TRUNCATE".

Definition Change : P TableChange :=
  b ← Accept "add";
  if b : bool then _ ← Expect "column"; ine ← IfNotExists; d ← Definition_; mret (AddColumn d ine) else
  b ← Accept "drop";
  if b : bool then _ ← Expect "column"; ie ← IfExists; n ← Name "a column name"; mret (DropColumn n ie) else
  b ← Accept "rename";
  if b : bool then _ ← Expect "column"; n ← Name "a column name"; _ ← Expect "to"; m ← Name "a column name"; mret (RenameColumn n m) else
  b ← Accept "alter";
  if b : bool then _ ← Expect "column"; n ← Name "a column name"; _ ← Expect "type"; t ← Type__; c ← UsingConversion; mret (AlterColumnType n t c) else
  b ← Accept "set";
  if b : bool then o ← OptionAssignment; mret (SetOption o) else
  unexpected "expected ADD, DROP, RENAME, ALTER or SET".

Definition AlterStatement : P Statement :=
  b ← Accept "user"; if b : bool then AlterUserStatement else
  _ ← Expect "table"; table ← Name "a table name"; c ← Change; mret (AlterTable table c).

Definition DropStatement : P Statement :=
  b ← Accept "slot";
  if b : bool then ie ← IfExists; n ← SlotName; _ ← Expect "on"; table ← Name "a table name"; mret (DropSlot n table ie) else
  b ← Accept "user";
  if b : bool then ie ← IfExists; n ← Name "a user name"; mret (DropUser n ie) else
  _ ← Expect "table"; ie ← IfExists; n ← Name "a table name"; mret (DropTable n ie).

Definition EnableStatement : P Statement :=
  _ ← Expect "feature";
  t ← Peek;
  if negb (bool_decide (token_kind t = tkWord)) && negb (bool_decide (token_kind t = tkText)) then fail (column t) "expected a feature name"
  else t ← Take; mret (EnableFeature (token_text t)).

Definition ShowStatement : P Statement :=
  b ← Accept "status"; if b : bool then mret ShowStatus else
  b ← Accept "migrations"; if b : bool then mret ShowMigrations else
  b ← Accept "slots";
  if b : bool then on ← Accept "on"; (if on : bool then n ← Name "a table name"; mret (ShowSlots (Some n)) else mret (ShowSlots None)) else
  b ← Accept "users"; if b : bool then mret ShowUsers else
  b ← Accept "tables"; if b : bool then mret ShowTables else
  b ← Accept "metrics"; if b : bool then mret ShowMetrics else
  unexpected "expected TABLES, METRICS, STATUS, MIGRATIONS, USERS or SLOTS".

(** The epoch of AFTER, read from the characters; no token is ahead. *)
Definition Epoch : P bytes :=
  at0 ← gets at_;
  let from := skip line is_blank at0 in
  let to := skip line (fun c => negb (is_blank c)) from in
  let hex := sub line from to in
  _ ← update (fun r => MkReader to (ahead r) (parameters_ r));
  if negb (len hex =? 32) || negb (forallb isxdigit hex) then fail (Z.of_nat from + 1) "epoch must be 32 hex digits"
  else mret (hex_pairs hex).

Definition WatchWord (w : WatchFields) : P (option WatchFields) :=
  t ← Peek;
  let again s := s +:+ " is given twice" in
  let next filters slot after ack take :=
    Some {| watch_table := watch_table w; watch_filters := filters; watch_slot := slot; watch_after := after; ack_timeout_ms := ack; takeover := take |} in
  b ← Accept "slot";
  if b : bool then
    if watch_slot w then fail (column t) (again "SLOT")
    else n ← SlotName; mret (next (watch_filters w) (Some n) (watch_after w) (ack_timeout_ms w) (takeover w))
  else
  f ← FeedFilter (watch_filters w);
  match f with
  | Some f => mret (next f (watch_slot w) (watch_after w) (ack_timeout_ms w) (takeover w))
  | None =>
      b ← Accept "takeover";
      if b : bool then
        if takeover w then fail (column t) (again "TAKEOVER") else mret (next (watch_filters w) (watch_slot w) (watch_after w) (ack_timeout_ms w) true)
      else
      b ← Accept "ack";
      if b : bool then
        if ack_timeout_ms w then fail (column t) (again "ACK TIMEOUT")
        else
          _ ← Expect "timeout";
          n ← Unsigned "an ACK timeout" u64_max;
          if n =? 0 then fail (column t) "ACK TIMEOUT must be positive" else mret (next (watch_filters w) (watch_slot w) (watch_after w) (Some n) (takeover w))
      else
      b ← Accept "after";
      if b : bool then
        if watch_after w then fail (column t) (again "AFTER")
        else
          e ← Epoch;
          n ← Unsigned "a revision" u64_max;
          mret (next (watch_filters w) (watch_slot w) (Some {| epoch := e; feed_revision := n |}) (ack_timeout_ms w) (takeover w))
      else mret None
  end.

Definition WatchStatement : P Statement :=
  table ← Name "a table name";
  w ← while_some WatchWord fuel
        {| watch_table := table; watch_filters := no_filters; watch_slot := None; watch_after := None; ack_timeout_ms := None; takeover := false |};
  if bool_decide (is_Some (ack_timeout_ms w)) && negb (bool_decide (is_Some (watch_slot w))) then fail 1 "ACK TIMEOUT requires SLOT"
  else if takeover w && negb (bool_decide (is_Some (watch_slot w))) then fail 1 "TAKEOVER requires SLOT"
  else mret (Watch w).

Definition ScanWord (s : option (Z * Z) * option Z) : P (option (option (Z * Z) * option Z)) :=
  let '(after, limit) := s in
  t ← Peek;
  b ← Accept "after";
  if b : bool then
    if after : option _ then fail (column t) "AFTER is given twice" else x ← Coordinate "a chunk x"; y ← Coordinate "a chunk y"; mret (Some (Some (x, y), limit))
  else
  b ← Accept "limit";
  if b : bool then
    if limit : option _ then fail (column t) "LIMIT is given twice" else n ← Unsigned "a limit" u64_max; mret (Some (after, Some n))
  else mret None.

Definition ScanStatement : P Statement :=
  _ ← Expect "chunks"; _ ← Expect "from"; table ← Name "a table name";
  '(after, limit) ← while_some ScanWord fuel (None, None);
  mret (ScanChunks table after limit).

Definition migration_of (s : Statement) : option MigrationStatement :=
  match s with
  | CreateTable c => Some (MCreateTable c)
  | AlterTable t c => Some (MAlterTable t c)
  | DropTable t i => Some (MDropTable t i)
  | GrantRight g => Some (MGrantRight g)
  | CreateSlot s => Some (MCreateSlot s)
  | DropSlot n t i => Some (MDropSlot n t i)
  | _ => None
  end.

(** The end of the line without the blanks after it. *)
Definition text_end : nat := (length line - length (span is_blank (rev line)).1)%nat.

Definition MigrateStatement (ParseStatement : P Statement) : P Statement :=
  n ← SlotName;
  t ← Peek;
  let start := Z.to_nat (column t - 1) in
  if IsWord t (str "migrate") then fail (Z.of_nat start + 1) "MIGRATE cannot contain another MIGRATE"
  else
    s ← ParseStatement;
    used ← gets parameters_;
    match migration_of s with
    | Some m => if bool_decide (used = ∅) then mret (Migrate n (sub line start text_end) m) else fail (Z.of_nat start + 1) "MIGRATE takes one schema statement without parameters"
    | None => fail (Z.of_nat start + 1) "MIGRATE takes one schema statement without parameters"
    end.

(** The first keyword that is next, and its statement. *)
Fixpoint First (table : list (string * P Statement)) (otherwise : P Statement) : P Statement :=
  match table with
  | [] => otherwise
  | (k, m) :: table => b ← Accept k; if b : bool then m else First table otherwise
  end.

Definition table_named (make : bytes -> Statement) : P Statement := n ← Name "a table name"; mret (make n).

(** The statements after BACKUP and MIGRATE. *)
Definition other_statements : list (string * P Statement) :=
    [("get", GetStatement);
     ("set", SetStatement);
     ("delete", DeleteStatement);
     ("create", CreateStatement);
     ("alter", AlterStatement);
     ("drop", DropStatement);
     ("grant", g ← GrantOrRevoke false; mret (GrantRight g));
     ("revoke", g ← GrantOrRevoke true; mret (GrantRight g));
     ("enable", EnableStatement);
     ("show", ShowStatement);
     ("describe", table_named Describe);
     ("recover", _ ← Expect "table"; table_named RecoverTable);
     ("flush", _ ← Expect "wal"; mret FlushWal);
     ("reload", _ ← Expect "tls"; mret ReloadTls);
     ("ping", mret Ping);
     ("begin", mret Begin);
     ("commit", mret Commit);
     ("rollback", mret Rollback);
     ("unwatch", mret Unwatch);
     ("ack", r ← Unsigned "a revision" u64_max; mret (Ack r));
     ("watch", WatchStatement);
     ("scan", ScanStatement)].

(** [depth] levels of MIGRATE, which does not nest. *)
Fixpoint ParseStatement (depth : nat) : P Statement :=
  t ← Peek;
  First
    (("backup", BackupStatement) ::
     ("migrate", match depth with O => throw out_of_fuel | S depth => MigrateStatement (ParseStatement depth) end) ::
     other_statements)
    (fail (column t) ("unknown statement " +:+ Quote t +:+ StatementSuggestion (token_text t))).

Definition Statement_ : P Parsed :=
  s ← ParseStatement 1;
  t ← Peek;
  if negb (bool_decide (token_kind t = tkEnd)) then unexpected "expected the end of the statement"
  else used ← gets parameters_; n ← pure_ (ParameterCount used); mret {| statement := s; parameters := n |}.

(** An option of HELLO; [names] are those before it. *)
Definition HelloOption (names : list bytes) : P Option_ :=
  t ← Peek;
  if negb (bool_decide (token_kind t = tkWord)) then fail (column t) "expected an option name"
  else
    t ← Take;
    let name := Lower (token_text t) in
    if bool_decide (name ∈ names) then throw (invalid_argument "duplicate HELLO option")
    else _ ← ExpectToken tkEquals "="; v ← Value true; mret {| option_name := name; option_value := v |}.

Definition HelloOptions : P (list Option_) :=
  o ← HelloOption [];
  while_some (fun os => b ← AcceptToken tkComma; if b : bool then o ← HelloOption (map option_name os); mret (Some (os ++ [o])) else mret None) fuel [o].

Definition HelloUser : P (option bytes) :=
  b ← Accept "user";
  if negb b then mret None
  else
    t ← Peek;
    if negb (bool_decide (token_kind t = tkWord)) then fail (column t) "expected a user name"
    else
      t ← Take;
      first ← Value true;
      let other := u ← Peek; fail (column u) "HELLO USER requires $1" in
      match first with
      | LParameter i => if i =? 1 then mret (Some (token_text t)) else other
      | _ => other
      end.

Definition Hello : P HelloRequest :=
  _ ← Expect "hello";
  protocol ← Unsigned "a protocol version" u64_max;
  user ← HelloUser;
  b ← Accept "with";
  options ← (if b : bool then HelloOptions else mret []);
  t ← Peek;
  if negb (bool_decide (token_kind t = tkEnd)) then fail (column t) "expected the end of HELLO"
  else
    used ← gets parameters_;
    n ← pure_ (ParameterCount used);
    mret {| protocol := protocol; hello_user := user; hello_options := options; hello_parameters := n |}.

End Parser.

Definition Parse (line : bytes) : res Parsed := match Statement_ line start with Ok (p, _) => Ok p | Err e => Err e end.

(** Without the newlines at the end. *)
Definition ParseHello (line : bytes) : res HelloRequest :=
  let line := rev (span (fun c => (c =? 13) || (c =? 10)) (rev line)).2 in
  match Hello line start with Ok (h, _) => Ok h | Err e => Err e end.

(** ** What a statement holds *)

(** A name: [a-z_][a-z0-9_]*. *)
Definition name_ok (n : bytes) : Prop := is_word n /\ Lower n = n.
Definition slot_ok (n : bytes) : Prop := is_slot_name n = true.
Definition type_given (t : ColumnType) : Prop := in_u 32 (size t).
Definition value_given (l : Literal) : Prop := literal_ok l /\ match l with LParameter i => 1 <= i <= kMaxParameters | _ => True end.
Definition literal_parameters (l : Literal) : list Z := match l with LParameter i => [i] | _ => [] end.
(** A value that is in the statement. *)
Definition constant (l : Literal) : Prop := value_given l /\ literal_parameters l = [].

Definition area_ok (a : FeedArea) : Prop :=
  in_i 64 (cx (area_first a)) /\ in_i 64 (cy (area_first a)) /\ in_i 64 (cx (area_last a)) /\ in_i 64 (cy (area_last a)) /\
  cx (area_first a) <= cx (area_last a) /\ cy (area_first a) <= cy (area_last a).

Definition holds_all {A} (Q : A -> Prop) (o : option A) : Prop := match o with Some a => Q a | None => True end.

Definition filters_ok (f : FeedFilters) : Prop :=
  holds_all area_ok (filter_area f) /\ holds_all (fun c => c <> [] /\ Forall name_ok c) (filter_columns f).

Definition definition_ok (d : ColumnDefinition) : Prop := name_ok (defined_name d) /\ type_given (defined_type d) /\ holds_all constant (defined_default d).
Definition option_ok (o : Option_) : Prop := name_ok (option_name o) /\ constant (option_value o).

Definition change_ok (c : TableChange) : Prop :=
  match c with
  | AddColumn d _ => definition_ok d
  | DropColumn n _ => name_ok n
  | RenameColumn n m => name_ok n /\ name_ok m
  | AlterColumnType n t _ => name_ok n /\ type_given t
  | SetOption o => option_ok o
  end.

Definition create_ok (c : CreateTableFields) : Prop :=
  name_ok (create_table c) /\ create_columns c <> [] /\ Forall definition_ok (create_columns c) /\ in_u 32 (chunk_width c) /\ in_u 32 (chunk_height c) /\
  holds_all (fun d => in_u 32 d.1 /\ in_u 32 d.2) (large c) /\ Forall option_ok (create_options c).

Definition slot_fields_ok (s : CreateSlotFields) : Prop :=
  slot_ok (slot_name s) /\ name_ok (slot_table s) /\ filters_ok (slot_filters s) /\ holds_all name_ok (slot_owner s).

Definition grant_ok (g : GrantRightFields) : Prop := (grant_table g = kEveryTable \/ name_ok (grant_table g)) /\ name_ok (grant_user g).

Definition watch_ok (w : WatchFields) : Prop :=
  name_ok (watch_table w) /\ filters_ok (watch_filters w) /\ holds_all slot_ok (watch_slot w) /\
  holds_all (fun a => len (epoch a) = 16 /\ bytes_ok (epoch a) /\ in_u 64 (feed_revision a)) (watch_after w) /\
  holds_all (fun n => 0 < n < 2 ^ 64) (ack_timeout_ms w).

Definition migration_ok (m : MigrationStatement) : Prop :=
  match m with
  | MCreateTable c => create_ok c
  | MAlterTable t c => name_ok t /\ change_ok c
  | MDropTable t _ => name_ok t
  | MGrantRight g => grant_ok g
  | MCreateSlot s => slot_fields_ok s
  | MDropSlot n t _ => slot_ok n /\ name_ok t
  end.

Definition version_ok (v : option Z) : Prop := holds_all (in_u 64) v.

Definition statement_ok (s : Statement) : Prop :=
  match s with
  | GetBlock x y t cs _ _ | GetChunk x y t cs => in_i 64 x /\ in_i 64 y /\ name_ok t /\ Forall name_ok cs
  | SetBlock x y t vs v => in_i 64 x /\ in_i 64 y /\ name_ok t /\ vs <> [] /\ Forall (fun a => name_ok a.1 /\ value_given a.2) vs /\ version_ok v
  | DeleteBlock x y t v => in_i 64 x /\ in_i 64 y /\ name_ok t /\ version_ok v
  | SetChunk x y t i v => in_i 64 x /\ in_i 64 y /\ name_ok t /\ 1 <= i <= kMaxParameters /\ version_ok v
  | GetArea around x0 y0 x1 y1 r t cs _ => (if around then x1 = 0 /\ y1 = 0 else r = 0) /\ in_i 64 x0 /\ in_i 64 y0 /\ in_i 64 x1 /\ in_i 64 y1 /\ 0 <= r < 2 ^ 63 /\ name_ok t /\ Forall name_ok cs
  | CreateTable c => create_ok c
  | AlterTable t c => name_ok t /\ change_ok c
  | DropTable t _ | RecoverTable t | Describe t => name_ok t
  | Backup p => bytes_ok p
  | EnableFeature f => is_word f \/ bytes_ok f
  | ScanChunks t after limit => name_ok t /\ holds_all (fun p => in_i 64 p.1 /\ in_i 64 p.2) after /\ version_ok limit
  | CreateUser u v _ _ => name_ok u /\ value_given v /\ match v with LParameter _ | LText _ => True | _ => False end
  | AlterUser u v m => name_ok u /\ holds_all (fun v => value_given v /\ match v with LParameter _ | LText _ => True | _ => False end) v /\ (is_Some v <-> m = None)
  | DropUser u _ => name_ok u
  | GrantRight g => grant_ok g
  | Watch w => watch_ok w /\ (watch_slot w = None -> ack_timeout_ms w = None /\ takeover w = false)
  | CreateSlot s => slot_fields_ok s
  | DropSlot n t _ => slot_ok n /\ name_ok t
  | ShowSlots t => holds_all name_ok t
  | Ack r => in_u 64 r
  | Migrate n _ m => slot_ok n /\ migration_ok m
  | ShowTables | FlushWal | ShowMetrics | ShowStatus | ReloadTls | Ping | ShowUsers | Begin | Commit | Rollback | Unwatch | ShowMigrations => True
  end.

(** The parameters of a statement, as they are written. *)
Definition statement_parameters (s : Statement) : list Z :=
  match s with
  | SetBlock _ _ _ values _ => flat_map (fun a => literal_parameters a.2) values
  | SetChunk _ _ _ i _ => [i]
  | CreateUser _ v _ _ => literal_parameters v
  | AlterUser _ (Some v) _ => literal_parameters v
  | _ => []
  end.

(** ** The methods *)

(** The reader at the end of the line. *)
Lemma parameters_end line P total r t : reader_ok line P total r -> ahead r = Some t -> token_kind t = tkEnd -> Z.of_nat (base.size (parameters_ r)) = total.
Proof.
  intros Hr Ha Hk. rewrite <- (ro_count _ _ _ _ Hr). destruct (ro_ahead _ _ _ _ Hr t Ha) as (_ & _ & He). specialize (He Hk).
  unfold ahead_count, is_parameter_token. rewrite Ha, drop_ge, bool_decide_false by (done || by rewrite Hk). cbn [CountLoop]. lia.
Qed.

Section Methods.
Context (line : bytes) (Hbytes : bytes_ok line) (Hlen : len line < 2 ^ 32) (total : Z).

Abbreviation wp := (StateError.wp parse_failure).
Abbreviation reader_ok := (Lexer.reader_ok line byte_ok total).
Abbreviation reads := (Lexer.reads line byte_ok total).
Abbreviation takes := (Lexer.takes line byte_ok total).
Abbreviation uses := (Lexer.uses line byte_ok total).

Lemma reads_ok r r' : reads r r' -> reader_ok r'.
Proof. by intros []. Qed.
Lemma takes_ok r r' : takes r r' -> reader_ok r'.
Proof. by intros []. Qed.
Lemma uses_ok us r r' : uses us r r' -> reader_ok r'.
Proof. by intros []. Qed.

Lemma accept_ok (b : bool) r r' : (if b then takes r r' else reads r r') -> reader_ok r'.
Proof. by destruct b; intros []. Qed.

Lemma accept_word_ok (b : bool) r r' : (if b then takes r r' /\ ahead r' = None else reads r r') -> reader_ok r'.
Proof. destruct b; [by intros [[] _]|by intros []]. Qed.

Create HintDb reading.
#[local] Hint Resolve reads_ok takes_ok uses_ok accept_ok accept_word_ok : reading.
#[local] Hint Extern 1 (_ <> _) => discriminate : reading.
#[local] Hint Resolve Peek_wp AcceptWord_wp ExpectWord_wp AcceptToken_wp ExpectToken_wp : reading.

(** Ends a chain of steps. *)
Ltac chain :=
  repeat match goal with b : bool, H : if ?b then _ else _ |- _ => destruct b end; cbn beta iota in *; unfold Lexer.reads, Lexer.takes, Lexer.uses in *;
  repeat match goal with H : _ /\ _ |- _ => destruct H end;
  repeat match goal with |- _ /\ _ => split end; try done; try lia; try congruence.

(** Runs a method: [rd] has the specifications of the calls. *)
Ltac after_call :=
  let x := fresh "x" in let s := fresh "r" in let H := fresh "H" in
  intros x s H; cbn beta in H.

Ltac run :=
  lazymatch goal with
  | |- StateError.wp _ (_ ≫= _) _ _ => apply wps_bind; run
  | |- StateError.wp _ (mret _) _ _ => apply wps_ret; cbn beta
  | |- StateError.wp _ (fail _ _) _ _ => apply fail_wp
  | |- StateError.wp _ (Lexer.unexpected _ _ _) _ _ => eapply unexpected_wp; [eassumption|eauto with reading]
  | |- StateError.wp _ (if ?b then _ else _) _ _ => idtac
  | |- StateError.wp _ (match ?b with _ => _ end) _ _ => idtac
  | |- StateError.wp _ _ _ _ => eapply wp_weaken; [solve [eauto with reading]|after_call; run]
  | |- _ => idtac
  end.

(** The token ahead, which is no parameter, is taken. *)
Lemma taken r r1 t Q : reads r r1 -> ahead r1 = Some t -> token_kind t <> tkParameter -> token_kind t <> tkEnd ->
  (forall r', takes r r' -> Q t r') -> wp (Take line kStatement) Q r1.
Proof.
  intros Hrd Ha Hk He HQ. eapply wp_weaken; [eapply Take_wp; [eauto with reading|exact Ha|done]|]. intros t' r2 (-> & _ & Ht). apply HQ. eapply reads_takes; [done|by apply Ht].
Qed.

Lemma ahead_ok r r1 t : reads r r1 -> ahead r1 = Some t -> token_ok byte_ok (Nat.max 4 (length line)) t.
Proof. intros [Hr _] Ha. by destruct (ro_ahead _ _ _ _ Hr _ Ha). Qed.

Lemma name_wp what r : reader_ok r -> wp (Name line what) (fun n r' => takes r r' /\ name_ok n) r.
Proof.
  intros Hr. unfold Name. run. destruct H as [Hrd Ha]. case_bool_decide as Hk; cbn [negb]; [|run]. case_bool_decide as Hl; cbn [negb]; [|run].
  apply wps_bind. eapply taken; [exact Hrd|exact Ha|by rewrite Hk|by rewrite Hk|]. intros r' Ht. apply wps_ret. split; [done|].
  destruct (ahead_ok _ _ _ Hrd Ha) as [_ Hok]. rewrite Hk in Hok. done.
Qed.

Lemma slot_name_wp r : reader_ok r -> wp (SlotName line) (fun n r' => takes r r' /\ slot_ok n) r.
Proof.
  intros Hr. unfold SlotName. run. destruct H as [Hrd Ha]. case_bool_decide as Hk; cbn [negb]; [|run]. destruct (is_slot_name _) eqn:Hl; cbn [negb]; [|run].
  apply wps_bind. eapply taken; [exact Hrd|exact Ha|by rewrite Hk|by rewrite Hk|]. intros r' Ht. by apply wps_ret.
Qed.

Lemma integer_wp what r : reader_ok r -> wp (IntegerToken line what) (fun v r' => takes r r' /\ in_u 64 (magnitude v) /\ (negative v = true -> magnitude v <> 0)) r.
Proof.
  intros Hr. unfold IntegerToken. run. destruct H as [Hrd Ha]. case_bool_decide as Hk; cbn [negb]; [|run].
  apply wps_bind, wp_pure. pose proof (IntegerOf_ok x) as Hi. destruct (IntegerOf x) as [v|]; [|done].
  apply wps_bind. eapply taken; [exact Hrd|exact Ha|by rewrite Hk|by rewrite Hk|]. intros r' Ht. by apply wps_ret.
Qed.
#[local] Hint Resolve name_wp slot_name_wp integer_wp : reading.

Lemma coordinate_wp what r : reader_ok r -> wp (Coordinate line what) (fun x r' => takes r r' /\ in_i 64 x) r.
Proof.
  intros Hr. unfold Coordinate. apply wps_bind. eapply wp_weaken; [by apply Peek_wp|]. intros t r1 [Hrd _]. apply wps_bind.
  eapply wp_weaken; [eauto with reading|]. intros v r2 (Ht & Hm & Hn). cbn zeta. unfold in_u in Hm.
  destruct (Z.ltb_spec (2 ^ 63 - 1 + (if negative v then 1 else 0)) (magnitude v)) as [|Hle]; [run|]. apply wps_ret. split; [by eapply reads_takes|].
  destruct (negative v); apply signed_bound; lia.
Qed.

Lemma unsigned_wp what max r : reader_ok r -> wp (Unsigned line what max) (fun x r' => takes r r' /\ 0 <= x <= max) r.
Proof.
  intros Hr. unfold Unsigned. apply wps_bind. eapply wp_weaken; [by apply Peek_wp|]. intros t r1 [Hrd _]. apply wps_bind.
  eapply wp_weaken; [eauto with reading|]. intros v r2 (Ht & Hm & Hn). unfold in_u in Hm.
  destruct (negative v); cbn [orb]; [run|]. destruct (Z.ltb_spec max (magnitude v)); [run|]. apply wps_ret. split; [by eapply reads_takes|lia].
Qed.
#[local] Hint Resolve coordinate_wp unsigned_wp : reading.

Lemma bits_ok t : token_ok byte_ok (Nat.max 4 (length line)) t -> token_kind t = tkBits -> literal_ok (LBits (token_text t)).
Proof. intros [Hl Hok] Hk. rewrite Hk in Hok. split; [done|]. lia. Qed.

Lemma value_wp allowed r : reader_ok r ->
  wp (Value line allowed) (fun l r' => uses (literal_parameters l) r r' /\ value_given l /\ (allowed = false -> literal_parameters l = [])) r.
Proof.
  intros Hr. unfold Value. apply wps_bind. eapply wp_weaken; [by apply Peek_wp|]. intros t r1 [Hrd Ha]. pose proof (ahead_ok _ _ _ Hrd Ha) as Hok.
  assert (forall l, token_kind t <> tkParameter -> token_kind t <> tkEnd -> constant l ->
    wp (Take line kStatement ≫= fun _ => mret l) (fun l r' => uses (literal_parameters l) r r' /\ value_given l /\ (allowed = false -> literal_parameters l = [])) r1) as Hconst.
  { intros l Hk He Hc. apply wps_bind. eapply taken; [exact Hrd|done..|]. intros r' Ht. apply wps_ret. destruct Hc as [Hv Hp]. rewrite Hp. split; [by apply takes_uses|done]. }
  assert (forall f, token_kind t <> tkParameter -> token_kind t <> tkEnd -> constant (f t) ->
    wp (Take line kStatement ≫= fun t => mret (f t)) (fun l r' => uses (literal_parameters l) r r' /\ value_given l /\ (allowed = false -> literal_parameters l = [])) r1) as Htext.
  { intros f Hk He Hc. apply wps_bind. eapply taken; [exact Hrd|done..|]. intros r' Ht. apply wps_ret. destruct Hc as [Hv Hp]. rewrite Hp. split; [by apply takes_uses|done]. }
  destruct (token_kind t) eqn:Hk; try (eapply unexpected_wp; [eassumption|eauto with reading]).
  - repeat (case_bool_decide; [by apply Hconst|]; cbn [orb]). eapply unexpected_wp; [eassumption|eauto with reading].
  - apply wps_bind. eapply wp_weaken; [eauto with reading|]. intros v r2 (Ht & Hm & _). apply wps_ret. cbn. split; [by apply takes_uses; eapply reads_takes|]. by split; [split|].
  - apply wps_bind, wp_pure. pose proof (FloatOf_ok t) as Hf. destruct (FloatOf t) as [v|]; [|done]. by apply Hconst.
  - apply (Htext (fun t => LText (token_text t))); [done..|]. destruct Hok as [_ Hok]. rewrite Hk in Hok. by split; [split|].
  - apply (Htext (fun t => LBytes (BytesOf t))); [done..|]. destruct Hok as [_ Hok]. rewrite Hk in Hok. split; [split; [|done]|done]. by apply hex_pairs_ok.
  - apply (Htext (fun t => LBits (token_text t))); [done..|]. split; [split; [by apply bits_ok|done]|done].
  - destruct allowed; cbn [negb]; [|run]. apply wps_bind. eapply wp_weaken; [eapply TakeParameter_wp; eauto with reading|].
    intros i r2 [Hu Hi]. apply wps_ret. split; [by eapply reads_uses|]. by split; [split|].
Qed.

Lemma left_fuel r : (left_ line r <= fuel line)%nat.
Proof. unfold left_, fuel. destruct (ahead r); [case_bool_decide|]; lia. Qed.

(** A comma list of items. *)
Lemma many_wp {A} (item : ST Reader A) (f : A -> list Z) (Q : A -> Prop) r : reader_ok r ->
  (forall r, reader_ok r -> wp item (fun a r' => uses (f a) r r' /\ Q a) r) ->
  wp (Many line item) (fun l r' => uses (flat_map f l) r r' /\ Forall Q l /\ l <> []) r.
Proof.
  intros Hr Hitem. unfold Many. apply wps_bind. eapply wp_weaken; [by apply Hitem|]. intros x r1 [Hu Hx].
  eapply (wp_while _ (left_ line) (fun l r' => uses (flat_map f l) r r' /\ Forall Q l /\ l <> [])); [| |apply left_fuel].
  - intros l s (Hl & HQ & Hne). apply wps_bind. eapply wp_weaken; [eauto with reading|]. intros [] s1 Hs1.
    + apply wps_bind. eapply wp_weaken; [apply Hitem; eauto with reading|]. intros y s2 [Hy Hqy]. apply wps_ret.
      rewrite flat_map_app. cbn [flat_map]. rewrite app_nil_r. pose proof (reads_uses _ _ _ _ _ _ _ (takes_reads _ _ _ _ _ Hs1) Hy) as Hy'.
      split; [|destruct Hy' as (_ & ? & _); lia]. split; [by eapply uses_trans|]. split; [by apply Forall_app; split; [|constructor]|]. by destruct l.
    + apply wps_ret. split; [by eapply uses_reads|done].
  - cbn. rewrite app_nil_r. split; [done|]. by split; [constructor|].
Qed.

Lemma uses_takes r r' : uses [] r r' -> takes r r'.
Proof.
  intros (H1 & H2 & H3). split; [done|]. split; [done|]. apply leibniz_equiv. intros i. rewrite <- !elem_of_elements. cbn in H3. by rewrite H3.
Qed.

(** Without parameters. *)
Lemma many_takes {A} (item : ST Reader A) (Q : A -> Prop) r : reader_ok r -> (forall r, reader_ok r -> wp item (fun a r' => takes r r' /\ Q a) r) ->
  wp (Many line item) (fun l r' => takes r r' /\ Forall Q l /\ l <> []) r.
Proof.
  intros Hr Hitem. eapply wp_weaken; [apply (many_wp item (fun _ => []) Q r Hr)|].
  - intros s Hs. eapply wp_weaken; [by apply Hitem|]. intros a s' [Ht HQ]. split; [by apply takes_uses|done].
  - intros l s' (Hu & HQ & Hne). split; [|done]. apply uses_takes. assert (flat_map (fun _ : A => ([] : list Z)) l = []) as E by (clear; induction l; done). by rewrite E in Hu.
Qed.


Lemma constant_wp r : reader_ok r -> wp (Value line false) (fun l r' => takes r r' /\ constant l) r.
Proof.
  intros Hr. eapply wp_weaken; [by apply value_wp|]. intros l r' (Hu & Hv & Hp). specialize (Hp eq_refl). rewrite Hp in Hu. split; [by apply uses_takes|done].
Qed.

Lemma parameter_value_wp r : reader_ok r -> wp (Value line true) (fun l r' => uses (literal_parameters l) r r' /\ value_given l) r.
Proof. intros Hr. eapply wp_weaken; [by apply value_wp|]. naive_solver. Qed.
#[local] Hint Resolve constant_wp parameter_value_wp many_takes : reading.

(** Runs the branches of a method too. *)
Ltac facts := repeat match goal with H : _ /\ _ |- _ => destruct H end.
Ltac runs :=
  cbn beta iota in *; facts;
  lazymatch goal with
  | |- StateError.wp _ (_ ≫= _) _ _ => apply wps_bind; runs
  | |- StateError.wp _ (mret _) _ _ => apply wps_ret; runs
  | |- StateError.wp _ (fail _ _) _ _ => apply fail_wp
  | |- StateError.wp _ (Lexer.unexpected _ _ _) _ _ => eapply unexpected_wp; [eassumption|eauto with reading]
  | |- StateError.wp _ (if negb ?b then _ else _) _ _ => first [is_var b; destruct b | destruct b eqn:?]; cbn [negb] in *; runs
  | |- StateError.wp _ (if ?b then _ else _) _ _ => first [is_var b; destruct b | destruct b eqn:?]; cbn [negb] in *; runs
  | |- StateError.wp _ (match ?b with _ => _ end) _ _ => idtac
  | |- StateError.wp _ _ _ _ => tryif (eapply wp_weaken; [solve [eauto with reading]|]) then (after_call; facts; runs) else idtac
  | |- _ => idtac
  end.

Lemma columns_wp r : reader_ok r -> wp (Columns_ line) (fun cs r' => reads r r' /\ Forall name_ok cs) r.
Proof. intros Hr. unfold Columns_. runs; split; try constructor; chain. Qed.

Lemma bounds_wp r : reader_ok r -> wp (FeedBounds line) (fun a r' => takes r r' /\ area_ok a) r.
Proof.
  intros Hr. unfold FeedBounds. runs. split; [chain|]. unfold area_ok. cbn.
  match goal with H : _ || _ = false |- _ => apply orb_false_iff in H as [?%Z.ltb_ge ?%Z.ltb_ge] end. done.
Qed.

Lemma feed_columns_wp r : reader_ok r -> wp (FeedColumns line) (fun cs r' => takes r r' /\ cs <> [] /\ Forall name_ok cs) r.
Proof. intros Hr. unfold FeedColumns. runs; chain. Qed.
#[local] Hint Resolve columns_wp bounds_wp feed_columns_wp : reading.

Lemma filter_wp f r : reader_ok r -> filters_ok f ->
  wp (FeedFilter line f) (fun o r' => match o with Some f' => takes r r' /\ filters_ok f' | None => reads r r' end) r.
Proof. intros Hr [F1 F2]. unfold FeedFilter. runs. all: try (split; [chain|by split]). chain. Qed.

Lemma if_not_exists_wp r : reader_ok r -> wp (IfNotExists line) (fun _ r' => reads r r') r.
Proof. intros Hr. unfold IfNotExists. runs; chain. Qed.
Lemma if_exists_wp r : reader_ok r -> wp (IfExists line) (fun _ r' => reads r r') r.
Proof. intros Hr. unfold IfExists. runs; chain. Qed.
Lemma if_version_wp r : reader_ok r -> wp (IfVersion line) (fun v r' => reads r r' /\ version_ok v) r.
Proof. intros Hr. unfold IfVersion. runs; split; try chain; cbn; unfold in_u, u64_max in *; try done; lia. Qed.
#[local] Hint Resolve filter_wp if_not_exists_wp if_exists_wp if_version_wp : reading.


Lemma from_chars_bound w text n rest : from_chars w text = Some (n, rest) -> in_u w n.
Proof.
  unfold from_chars. destruct (span is_digit text) as [ds r] eqn:Es. case_bool_decide; [done|]. destruct (Z.leb_spec (2 ^ w) (digits_value ds)); [done|]. intros [= <- <-].
  assert (0 <= digits_value ds). { apply digits_value_nonneg. destruct (span_app is_digit text) as (_ & F & _). by rewrite Es in F. } done.
Qed.

Lemma lower_word w : is_word w -> Lower w <> [].
Proof. by intros (c & r & -> & _). Qed.

Lemma type_wp r : reader_ok r -> wp (Type__ line) (fun t r' => takes r r' /\ type_given t) r.
Proof.
  intros Hr. unfold Type__. apply wps_bind. eapply wp_weaken; [by apply Peek_wp|]. intros t r1 [Hrd Ha]. case_bool_decide as Hk; cbn [negb]; [|runs].
  apply wps_bind. eapply taken; [exact Hrd|exact Ha|by rewrite Hk|by rewrite Hk|]. intros r2 Ht. cbn zeta.
  destruct (ahead_ok _ _ _ Hrd Ha) as [_ Hok]. rewrite Hk in Hok. apply lower_word in Hok.
  do 3 (case_bool_decide; [apply wps_ret; by split|]).
  destruct (Lower (token_text t)) as [|c ds]; [done|]. destruct (_ && _).
  - destruct (from_chars 32 ds) as [[n rest]|] eqn:Ef; [|runs]. apply wps_ret. split; [done|]. by eapply from_chars_bound.
  - runs. split; [chain|]. unfold type_given. cbn. apply wrap_bound. lia.
Qed.

Lemma definition_word_wp d r : reader_ok r -> definition_ok d ->
  wp (DefinitionWord line d) (fun o r' => match o with Some d' => takes r r' /\ definition_ok d' | None => reads r r' end) r.
Proof. intros Hr (D1 & D2 & D3). unfold DefinitionWord. runs. all: try (split; [chain|by split]). chain. Qed.
#[local] Hint Resolve type_wp definition_word_wp : reading.

(** A loop of words, none of which is a parameter. *)
Lemma words_wp {A} (body : A -> ST Reader (option A)) (I : A -> Prop) a r : reader_ok r -> I a ->
  (forall a r, reader_ok r -> I a -> wp (body a) (fun o r' => match o with Some a' => takes r r' /\ I a' | None => reads r r' end) r) ->
  wp (while_some body (fuel line) a) (fun a r' => reads r r' /\ I a) r.
Proof.
  intros Hr Ha Hb. eapply (wp_while _ (left_ line) (fun a r' => reads r r' /\ I a)); [| |apply left_fuel]; [|split; [by apply reads_refl|done]].
  intros b s [Hs Hi]. eapply wp_weaken; [apply Hb; eauto with reading|]. intros [b'|] s' Hs'; [|by split; [eapply reads_trans|]].
  destruct Hs' as [Ht Hi']. split; [split; [|done]|destruct Ht as (_ & ? & _); lia]. eapply reads_trans; [done|by apply takes_reads].
Qed.

Lemma definition_wp r : reader_ok r -> wp (Definition_ line) (fun d r' => takes r r' /\ definition_ok d) r.
Proof.
  intros Hr. unfold Definition_. runs. eapply wp_weaken; [apply (words_wp _ definition_ok)|]; eauto with reading; [done|]. cbn. intros d s [Hs Hd]. split; [chain|done].
Qed.

Lemma option_wp r : reader_ok r -> wp (OptionAssignment line) (fun o r' => takes r r' /\ option_ok o) r.
Proof. intros Hr. unfold OptionAssignment. runs. split; [chain|done]. Qed.

Lemma dimensions_wp r : reader_ok r -> wp (Dimensions line) (fun d r' => takes r r' /\ in_u 32 d.1 /\ in_u 32 d.2) r.
Proof.
  intros Hr. unfold Dimensions. apply wps_bind. eapply wp_weaken; [eauto with reading|]. intros width r1 [Ht1 _].
  apply wps_bind. eapply wp_weaken; [eauto with reading|]. intros t r2 [Hrd Ha]. case_bool_decide as Hk; cbn [andb].
  - destruct (match token_text t with [] => _ | c :: ds => _ end).
    + destruct (from_chars 32 (drop 1 (token_text t))) as [[h rest]|] eqn:Ef; [|runs]. apply wps_bind. eapply taken; [exact Hrd|exact Ha|by rewrite Hk|by rewrite Hk|].
      intros r3 Ht3. apply wps_ret. split; [chain|]. split; [apply wrap_bound; lia|by eapply from_chars_bound].
    + runs. split; [chain|]. split; apply wrap_bound; lia.
  - runs. split; [chain|]. split; apply wrap_bound; lia.
Qed.

Lemma verifier_wp r : reader_ok r ->
  wp (Verifier line) (fun v r' => uses (literal_parameters v) r r' /\ value_given v /\ match v with LParameter _ | LText _ => True | _ => False end) r.
Proof.
  intros Hr. unfold Verifier. runs. match goal with |- StateError.wp _ (match ?v with _ => _ end) _ _ => destruct v end; runs; (split; [by eapply reads_uses|done]).
Qed.

Lemma rights_wp r : reader_ok r -> wp (Many line (Right_ line)) (fun _ r' => takes r r') r.
Proof.
  intros Hr. eapply wp_weaken; [apply (many_takes _ (fun _ => True) r Hr)|by intros l r' []]. clear r Hr. intros r Hr. unfold Right_. runs; chain.
Qed.
#[local] Hint Resolve rights_wp definition_wp option_wp dimensions_wp verifier_wp : reading.

Lemma grant_wp b r : reader_ok r -> wp (GrantOrRevoke line b) (fun g r' => takes r r' /\ grant_ok g) r.
Proof.
  intros Hr. unfold GrantOrRevoke. runs; (split; [chain|]); split; cbn; auto.
Qed.

(** A statement follows its keyword. *)
Definition follows (us : list Z) (r r' : Reader) : Prop :=
  reader_ok r' /\ (left_ line r' <= left_ line r)%nat /\ elements (parameters_ r') ≡ₚ us ++ elements (parameters_ r).

Lemma reads_follows r r' : reads r r' -> follows [] r r'.
Proof. intros (H1 & H2 & H3). split; [done|]. split; [done|]. by rewrite H3. Qed.
Lemma uses_follows us r r1 r2 : reads r r1 -> uses us r1 r2 -> follows us r r2.
Proof. intros (_ & H1 & H2) (H3 & H4 & H5). split; [done|]. split; [lia|]. by rewrite H5, H2. Qed.
Lemma follows_reads us r r1 r2 : follows us r r1 -> reads r1 r2 -> follows us r r2.
Proof. intros (_ & H1 & H2) (H3 & H4 & H5). split; [done|]. split; [lia|]. by rewrite H5, H2. Qed.
Lemma reads_follow us r r1 r2 : reads r r1 -> follows us r1 r2 -> follows us r r2.
Proof. intros (_ & H1 & H2) (H3 & H4 & H5). split; [done|]. split; [lia|]. by rewrite H5, H2. Qed.

(** What the statements promise. *)
Definition parses (m : ST Reader Statement) : Prop :=
  forall r, reader_ok r -> wp m (fun s r' => follows (statement_parameters s) r r' /\ statement_ok s) r.

Lemma backup_parses : parses (BackupStatement line).
Proof.
  intros r Hr. unfold BackupStatement. apply wps_bind. eapply wp_weaken; [eauto with reading|]. intros u r1 Ht. cbn beta in Ht. apply wps_bind. eapply wp_weaken; [eauto with reading|].
  intros t r2 [Hrd Ha]. case_bool_decide as Hk; cbn [negb]; [|runs]. apply wps_bind. eapply taken; [exact Hrd|exact Ha|by rewrite Hk|by rewrite Hk|].
  intros r3 Ht3. apply wps_ret. split; [apply reads_follows; chain|]. cbn. destruct (ahead_ok _ _ _ Hrd Ha) as [_ Hok]. by rewrite Hk in Hok.
Qed.

#[local] Hint Resolve grant_wp : reading.

Lemma with_wp w r : reader_ok r -> wp (while_some (WithWord line) (fuel line) w) (fun _ r' => reads r r') r.
Proof.
  intros Hr. eapply wp_weaken; [apply (words_wp _ (fun _ => True) w r Hr I)|by intros w' r' []]. clear w r Hr. intros [v s] r Hr _. unfold WithWord.
  runs; chain.
Qed.
#[local] Hint Resolve with_wp : reading.

(** Ends a statement without parameters. *)
Ltac plain_statement := split; [apply reads_follows; chain|cbn; auto 10].

Lemma radius_ok n : 0 <= n -> n <= 2 ^ 63 - 1 -> 0 <= i64 n < 2 ^ 63.
Proof. intros H1 H2. unfold signed. rewrite Z.mod_small by lia. destruct (Z.ltb_spec n (2 ^ (64 - 1))); lia. Qed.

Lemma get_parses : parses (GetStatement line).
Proof.
  intros r Hr. assert (in_i 64 0) by done. assert (0 <= 0 < 2 ^ 63) by done. unfold GetStatement, GetBlockStatement, GetChunkStatement, GetAreaStatement. runs.
  1: match goal with w : bool * bool |- _ => destruct w end; runs.
  all: plain_statement; auto 10 using radius_ok.
Qed.

Lemma delete_parses : parses (DeleteStatement line).
Proof. intros r Hr. unfold DeleteStatement. runs. plain_statement. Qed.

Lemma assignments_wp r : reader_ok r -> wp (Many line (AssignmentItem line))
  (fun l r' => uses (flat_map (fun a => literal_parameters a.2) l) r r' /\ Forall (fun a => name_ok a.1 /\ value_given a.2) l /\ l <> []) r.
Proof.
  intros Hr. apply many_wp; [done|]. clear r Hr. intros r Hr. unfold AssignmentItem. runs. split; [|done].
  eapply reads_uses; [|eassumption]. chain.
Qed.
#[local] Hint Resolve assignments_wp : reading.

Lemma set_parses : parses (SetStatement line).
Proof.
  intros r Hr. unfold SetStatement. runs.
  - split; [|by cbn; auto 10]. eapply follows_reads; [|eassumption]. eapply uses_follows; [|eassumption]. chain.
  - match goal with |- StateError.wp _ (match ?v with _ => _ end) _ _ => destruct v end; runs.
    split; [|cbn; unfold value_given in *; facts; auto 10]. eapply follows_reads; [|eassumption]. eapply uses_follows; [|eassumption]. chain.
Qed.

Lemma slot_words_wp r : reader_ok r -> wp (while_some (SlotWord line) (fuel line) (no_filters, None)) (fun s r' => reads r r' /\ filters_ok s.1 /\ holds_all name_ok s.2) r.
Proof.
  intros Hr. apply (words_wp _ (fun s => filters_ok s.1 /\ holds_all name_ok s.2)); [done|done|]. clear r Hr. intros [f o] r Hr [Hf Ho]. cbn in Hf, Ho. unfold SlotWord. runs.
  - split; [chain|done].
  - match goal with |- StateError.wp _ (match ?v with _ => _ end) _ _ => destruct v end; facts; runs; [split; [chain|done]|chain].
Qed.
#[local] Hint Resolve slot_words_wp : reading.

Lemma create_slot_wp r : reader_ok r -> wp (CreateSlotStatement line) (fun s r' => takes r r' /\ slot_fields_ok s) r.
Proof. intros Hr. unfold CreateSlotStatement. runs. destruct x3 as [f o]. runs. split; [chain|done]. Qed.

Lemma table_words_wp w r : reader_ok r -> tw_width w = 16 -> tw_height w = 16 -> tw_large w = None -> tw_options w = [] ->
  wp (while_some (TableWord line) (fuel line) w)
    (fun w r' => reads r r' /\ in_u 32 (tw_width w) /\ in_u 32 (tw_height w) /\ holds_all (fun d => in_u 32 d.1 /\ in_u 32 d.2) (tw_large w) /\ Forall option_ok (tw_options w)) r.
Proof.
  intros Hr E1 E2 E3 E4.
  apply (words_wp _ (fun w => in_u 32 (tw_width w) /\ in_u 32 (tw_height w) /\ holds_all (fun d => in_u 32 d.1 /\ in_u 32 d.2) (tw_large w) /\ Forall option_ok (tw_options w)));
    [done|by rewrite E1, E2, E3, E4|].
  clear w E1 E2 E3 E4 r Hr. intros w r Hr (W1 & W2 & W3 & W4). unfold TableWord. runs.
  - match goal with d : Z * Z |- _ => destruct d end. runs. split; [chain|done].
  - split; [chain|done].
  - split; [chain|]. cbn. repeat (split; [done|]). by apply Forall_app.
  - chain.
Qed.
#[local] Hint Resolve create_slot_wp : reading.

Lemma create_table_wp r : reader_ok r -> wp (CreateTableStatement line) (fun c r' => takes r r' /\ create_ok c) r.
Proof. intros Hr. unfold CreateTableStatement. runs. eapply wp_weaken; [apply table_words_wp; eauto with reading|]. after_call. facts. runs. split; [chain|by cbn]. Qed.
#[local] Hint Resolve create_table_wp : reading.

Lemma create_parses : parses (CreateStatement line).
Proof.
  intros r Hr. unfold CreateStatement, CreateUserStatement. runs; try plain_statement.
  all: split; [|by cbn; auto]; eapply follows_reads; [eapply uses_follows; [|eassumption]|]; chain.
Qed.

Lemma conversion_wp r : reader_ok r -> wp (UsingConversion line) (fun _ r' => reads r r') r.
Proof. intros Hr. unfold UsingConversion. runs; chain. Qed.
#[local] Hint Resolve conversion_wp : reading.

Lemma change_wp r : reader_ok r -> wp (Change line) (fun c r' => takes r r' /\ change_ok c) r.
Proof. intros Hr. unfold Change. runs; (split; [chain|done]). Qed.
#[local] Hint Resolve change_wp : reading.

Lemma alter_parses : parses (AlterStatement line).
Proof.
  intros r Hr. unfold AlterStatement, AlterUserStatement. runs; try plain_statement.
  - split; [eapply uses_follows; [|eassumption]; chain|]. cbn. split; [done|]. split; [done|]. split; [done|by intros _; eexists].
  - split; [done|]. split; [done|]. by split; [intros []|].
Qed.

Lemma drop_parses : parses (DropStatement line).
Proof. intros r Hr. unfold DropStatement. runs; plain_statement. Qed.

Lemma show_parses : parses (ShowStatement line).
Proof. intros r Hr. unfold ShowStatement. runs; plain_statement. Qed.

Lemma enable_parses : parses (EnableStatement line).
Proof.
  intros r Hr. unfold EnableStatement. apply wps_bind. eapply wp_weaken; [eauto with reading|]. intros u r1 Ht. cbn beta in Ht. apply wps_bind. eapply wp_weaken; [eauto with reading|].
  intros t r2 [Hrd Ha]. destruct (_ && _) eqn:E; [runs|]. apply wps_bind. apply andb_false_iff in E. rewrite !negb_false_iff, !bool_decide_eq_true in E.
  eapply taken; [exact Hrd|exact Ha|by destruct E as [-> | ->]..|]. intros r3 Ht3. apply wps_ret. plain_statement.
  destruct (ahead_ok _ _ _ Hrd Ha) as [_ Hok]. destruct E as [E|E]; rewrite E in Hok; [by left|by right].
Qed.

Lemma grant_parses b : parses (GrantOrRevoke line b ≫= fun g => mret (GrantRight g)).
Proof. intros r Hr. runs. plain_statement. Qed.

Lemma scan_parses : parses (ScanStatement line).
Proof.
  intros r Hr. unfold ScanStatement. runs.
  eapply wp_weaken; [apply (words_wp _ (fun s => holds_all (fun p => in_i 64 p.1 /\ in_i 64 p.2) s.1 /\ version_ok s.2)); [eauto with reading|done|]|].
  - intros [after limit] s Hs [Ha Hl]. unfold ScanWord. runs.
    + split; [chain|done].
    + split; [chain|]. split; [done|]. cbn. unfold in_u, u64_max in *. lia.
    + chain.
  - intros [after limit] s. cbn. intros (Hs & Ha & Hl). runs. plain_statement.
Qed.

Lemma epoch_wp r : reader_ok r -> ahead r = None -> wp (Epoch line) (fun e r' => reads r r' /\ len e = 16 /\ bytes_ok e) r.
Proof.
  intros Hr Ha. unfold Epoch. apply wps_bind, wp_gets. cbn zeta. apply wps_bind, wp_update. destruct (_ || _) eqn:E; [runs|]. apply wps_ret.
  apply orb_false_iff in E as [E1%negb_false_iff%Z.eqb_eq E2%negb_false_iff].
  destruct (skip_spec line is_blank (at_ r) blank_plain (ro_at _ _ _ _ Hr)) as (S1 & S2 & _). set (from := skip line is_blank (at_ r)) in *.
  set (p := fun c => negb (is_blank c)) in *. destruct (span_app p (drop from line)) as (F1 & _ & _).
  assert (sub line from (skip line p from) = (span p (drop from line)).1) as Hsub.
  { unfold sub, skip, rest_at. replace (_ - from)%nat with (length (span p (drop from line)).1) by lia. rewrite F1 at 2. by rewrite take_app_length. }
  rewrite Hsub in *. assert (Forall (fun c => isxdigit c = true) (span p (drop from line)).1) as Hhex.
  { rewrite forallb_forall in E2. apply Forall_forall. intros c Hc. apply E2. by apply list_elem_of_In. }
  assert (length (drop from line) = length (span p (drop from line)).1 + length (span p (drop from line)).2)%nat as L by (rewrite F1 at 1; by rewrite length_app).
  rewrite length_drop in L. assert (skip line p from = from + length (span p (drop from line)).1)%nat as Hskip by done.
  split; [|destruct (hex_pairs_ok _ Hhex) as [H1 ->]; rewrite E1; by split]. split; [|unfold left_; cbn; rewrite Ha; split; [lia|done]].
  split; cbn [at_ ahead parameters_]; [lia|by rewrite Ha| |exact (ro_used _ _ _ _ Hr)]. rewrite <- (ro_count _ _ _ _ Hr). unfold ahead_count. cbn [ahead]. rewrite Ha, S2.
  assert (CountLoop 0 (drop from line) = CountLoop 0 (span p (drop from line)).2) as ->.
  { rewrite F1 at 1. apply count_app. eapply Forall_impl; [exact Hhex|]. intros c Hc. apply plain_decide.
    destruct (c =? 39) eqn:?, (c =? 34) eqn:?, (c =? 36) eqn:?; try done; rewrite ?Z.eqb_eq in *; by subst. }
  by rewrite Hskip, <- drop_drop, span_drop.
Qed.
#[local] Hint Resolve epoch_wp : reading.

Lemma watch_word_wp w r : reader_ok r -> watch_ok w ->
  wp (WatchWord line w) (fun o r' => match o with Some w' => takes r r' /\ watch_ok w' | None => reads r r' end) r.
Proof.
  intros Hr (W1 & W2 & W3 & W4 & W5). unfold WatchWord. runs; [split; [chain|done]|].
  match goal with |- StateError.wp _ (match ?v with _ => _ end) _ _ => destruct v end; facts; runs.
  - split; [chain|done].
  - split; [chain|done].
  - split; [chain|]. repeat (split; [done|]). cbn. unfold u64_max in *. lia.
  - split; [chain|]. do 3 (split; [done|]). split; [|done]. cbn. split; [done|]. split; [done|]. unfold in_u, u64_max in *. lia.
  - chain.
Qed.

Lemma watch_parses : parses (WatchStatement line).
Proof.
  intros r Hr. unfold WatchStatement. runs. eapply wp_weaken; [apply (words_wp _ watch_ok); eauto using watch_word_wp with reading; done|].
  intros w s [Hs Hw]. runs. split; [apply reads_follows; chain|]. split; [done|].
  intros Hn. rewrite Hn, andb_true_r in *. match goal with H : bool_decide _ = false |- _ => apply bool_decide_eq_false in H as E1 end.
  split; [|done]. by destruct (ack_timeout_ms w); [destruct E1|].
Qed.

Lemma migration_of_ok s m : statement_ok s -> migration_of s = Some m -> migration_ok m.
Proof. by destruct s; intros H [= <-]. Qed.

(** A statement that is not MIGRATE. *)
Definition parses_other (m : ST Reader Statement) : Prop :=
  forall r t, reader_ok r -> ahead r = Some t -> IsWord t (str "migrate") = false -> wp m (fun s r' => follows (statement_parameters s) r r' /\ statement_ok s) r.

Lemma migrate_parses m : parses_other m -> parses (MigrateStatement line m).
Proof.
  intros Hm r Hr. unfold MigrateStatement. runs.
  match goal with Hs : statement_ok ?s, Hf : follows (statement_parameters ?s) _ ?r2 |- _ => rename s into st, Hs into Hst, Hf into Hfo, r2 into rb end.
  apply wp_gets. destruct (migration_of st) as [g|] eqn:Eg; [|runs]. destruct (bool_decide (parameters_ rb = ∅)); [|runs]. apply wps_ret.
  split; [|split; [done|by eapply migration_of_ok]]. eapply reads_follow; [|by destruct st]. chain.
Qed.

Lemma first_wp table otherwise r t Q : reader_ok r -> ahead r = Some t ->
  Forall (fun e => IsWord t (str e.1) = true -> forall r', takes r r' -> wp e.2 Q r') table -> wp otherwise Q r -> wp (First line table otherwise) Q r.
Proof.
  intros Hr Ha Ht Ho. induction table as [|[k m] table IH]; cbn [First]; [done|]. apply Forall_cons in Ht as [Hm Ht]. cbn in Hm.
  apply wps_bind. unfold AcceptWord. apply wps_bind. unfold StateError.wp at 1, Lexer.Peek. rewrite Ha. destruct (IsWord t (str k)) eqn:Ew; [|by apply wps_ret, IH].
  apply andb_true_iff in Ew as Ek. destruct Ek as [Ek%bool_decide_eq_true _].
  apply wps_bind. eapply taken; [by apply reads_refl|exact Ha|by rewrite Ek|by rewrite Ek|]. intros r' Hr'. apply wps_ret. by apply Hm.
Qed.

(** After a keyword. *)
Lemma parses_after m r r' : parses m -> takes r r' -> wp m (fun s r' => follows (statement_parameters s) r r' /\ statement_ok s) r'.
Proof.
  intros Hm Ht. eapply wp_weaken; [apply Hm; eauto with reading|]. intros s r2 [Hf Hs]. split; [|done]. eapply reads_follow; [by apply takes_reads|done].
Qed.

Lemma constant_parses s : statement_parameters s = [] -> statement_ok s -> parses (mret s).
Proof. intros Hp Hs r Hr. apply wps_ret. split; [|done]. rewrite Hp. by apply reads_follows, reads_refl. Qed.

(** Every statement of the table; MIGRATE's is [migrate]. *)
Lemma statement_wp r t migrate otherwise : reader_ok r -> ahead r = Some t -> (IsWord t (str "migrate") = true -> parses migrate) ->
  wp otherwise (fun s r' => follows (statement_parameters s) r r' /\ statement_ok s) r ->
  wp (First line (("backup"%string, BackupStatement line) :: ("migrate"%string, migrate) :: other_statements line) otherwise)
    (fun s r' => follows (statement_parameters s) r r' /\ statement_ok s) r.
Proof.
  intros Hr Ha Hm Ho. eapply first_wp; [done|exact Ha| |done]. constructor; [intros _ r' Ht; by apply parses_after; [apply backup_parses|]|].
  constructor; [intros Hw r' Ht; apply parses_after; [by apply Hm|done]|]. apply Forall_forall. intros [k m] He _ r' Ht. apply parses_after; [|done]. cbn [snd].
  assert (Forall (fun e => parses e.2) (other_statements line)) as Hall; [|rewrite Forall_forall in Hall; exact (Hall (k, m) He)].
  unfold other_statements. repeat (apply Forall_cons; split); cbn [snd].
  all: first [exact get_parses|exact set_parses|exact delete_parses|exact create_parses|exact alter_parses|exact drop_parses|exact enable_parses|exact show_parses
    |exact watch_parses|exact scan_parses|apply grant_parses|by apply constant_parses|apply Forall_nil_2|idtac].
  all: intros s Hs; unfold table_named; runs; plain_statement. all: unfold in_u, u64_max in *; lia.
Qed.

Lemma other_wp : parses_other (ParseStatement line 0).
Proof.
  intros r t Hr Ha Hw. cbn [ParseStatement]. apply wps_bind. unfold StateError.wp at 1, Lexer.Peek. rewrite Ha.
  apply (statement_wp r t); [done|done|by rewrite Hw|apply fail_wp].
Qed.

Lemma parse_wp r : reader_ok r -> wp (ParseStatement line 1) (fun s r' => follows (statement_parameters s) r r' /\ statement_ok s) r.
Proof.
  intros Hr. cbn [ParseStatement]. apply wps_bind. eapply wp_weaken; [eauto with reading|]. intros t r1 [Hrd Ha].
  eapply wp_weaken; [apply (statement_wp r1 t); [eauto with reading|done|intros _; apply migrate_parses, other_wp|apply fail_wp]|].
  intros s r2 [Hf Hs]. split; [by eapply reads_follow|done].
Qed.

(** The parameters of the options, and of the user: $1. *)
Definition hello_used (h : HelloRequest) : list Z :=
  (match hello_user h with Some _ => [1] | None => [] end) ++ flat_map (fun o => literal_parameters (option_value o)) (hello_options h).

Definition hello_failure (e : exn) : Prop := parse_failure e \/ e = invalid_argument "duplicate HELLO option".
Abbreviation wph := (StateError.wp hello_failure).

Lemma hello_wp {A} (m : ST Reader A) Q r : wp m Q r -> wph m Q r.
Proof. apply wp_errors. intros e He. by left. Qed.

Lemma hello_option_wp names r : reader_ok r ->
  wph (HelloOption line names) (fun o r' => uses (literal_parameters (option_value o)) r r' /\ value_given (option_value o) /\ option_name o ∉ names) r.
Proof.
  intros Hr. unfold HelloOption. apply wps_bind. eapply wp_weaken; [eapply hello_wp; eauto with reading|]. intros t r1 [Hrd Ha].
  case_bool_decide as Hk; cbn [negb]; [|apply hello_wp, fail_wp]. apply wps_bind, hello_wp. eapply taken; [exact Hrd|exact Ha|by rewrite Hk|by rewrite Hk|].
  intros r2 Ht. case_bool_decide as Hn; [by right|]. apply hello_wp. runs. split; [|done]. eapply reads_uses; [|eassumption]. chain.
Qed.

Definition options_ok (os : list Option_) : Prop := NoDup (map option_name os) /\ Forall (fun o => value_given (option_value o)) os.

Lemma hello_options_wp r : reader_ok r ->
  wph (HelloOptions line) (fun os r' => uses (flat_map (fun o => literal_parameters (option_value o)) os) r r' /\ options_ok os) r.
Proof.
  intros Hr. unfold HelloOptions. apply wps_bind. eapply wp_weaken; [by apply hello_option_wp|]. intros o r1 (Hu & Hv & _).
  set (f := fun o : Option_ => literal_parameters (option_value o)).
  eapply (wp_while _ (left_ line) (fun os r' => uses (flat_map f os) r r' /\ options_ok os)); [| |apply left_fuel].
  - intros os s [Hs [Hnd Hall]]. apply wps_bind. eapply wp_weaken; [eapply hello_wp; eauto with reading|]. intros [] s1 Hs1; [|by apply wps_ret; split; [eapply uses_reads|]].
    apply wps_bind. eapply wp_weaken; [apply hello_option_wp; eauto with reading|]. intros o2 s2 (Hy & Hv2 & Hn2). apply wps_ret.
    pose proof (reads_uses _ _ _ _ _ _ _ (takes_reads _ _ _ _ _ Hs1) Hy) as Hy'. split; [|destruct Hy' as (_ & ? & _); lia].
    rewrite flat_map_app. cbn [flat_map]. rewrite app_nil_r. split; [by eapply uses_trans|]. split; [|by apply Forall_app; split; [|constructor]].
    rewrite map_app. apply NoDup_app. split; [done|]. split; [|by apply NoDup_singleton]. intros x Hx Hx2. cbn in Hx2. apply list_elem_of_singleton in Hx2. by subst.
  - cbn. rewrite app_nil_r. split; [done|]. split; [by apply NoDup_singleton|by constructor].
Qed.

Lemma hello_user_wp r : reader_ok r -> wp (HelloUser line) (fun u r' => follows (match u with Some _ => [1] | None => [] end) r r') r.
Proof.
  intros Hr. unfold HelloUser. apply wps_bind. eapply wp_weaken; [eauto with reading|]. intros [] r1 Hb; cbn [negb]; [|by apply wps_ret, reads_follows].
  destruct Hb as [Ht1 _]. apply wps_bind. eapply wp_weaken; [eauto with reading|]. intros t r2 [Hrd Ha]. case_bool_decide as Hk; cbn [negb]; [|runs].
  apply wps_bind. eapply taken; [exact Hrd|exact Ha|by rewrite Hk|by rewrite Hk|]. intros r3 Ht3. apply wps_bind. eapply wp_weaken; [eauto with reading|].
  intros v r4 [Hu _]. cbn zeta. destruct v; try (by runs). destruct (Z.eqb_spec index 1) as [->|]; [|by runs]. apply wps_ret. eapply uses_follows; [|exact Hu]. chain.
Qed.

Lemma hello_all_wp r : reader_ok r -> parameters_ r = ∅ ->
  wph (Hello line) (fun h _ => in_u 64 (protocol h) /\ options_ok (hello_options h) /\ hello_parameters h = total /\ hello_used h ≡ₚ seqZ 1 (hello_parameters h)) r.
Proof.
  intros Hr Hempty. unfold Hello. apply wps_bind. eapply wp_weaken; [eapply hello_wp; eauto with reading|]. intros u r1 Ht1. cbn beta in Ht1.
  apply wps_bind. eapply wp_weaken; [eapply hello_wp; eauto with reading|]. intros n r2 [Ht2 Hn]. cbn beta in *.
  apply wps_bind. eapply wp_weaken; [eapply hello_wp, hello_user_wp; eauto with reading|]. intros user r3 Hf3. cbn beta in *.
  assert (reader_ok r3) as Hr3 by apply Hf3. apply wps_bind. eapply wp_weaken; [eapply hello_wp; eauto with reading|]. intros b r4 Hb. cbn beta in *.
  assert (reads r3 r4) as Hrd4 by (destruct b; [apply takes_reads, Hb|done]). clear Hb.
  assert (wph (if b then HelloOptions line else mret []) (fun os r' => follows (flat_map (fun o => literal_parameters (option_value o)) os) r4 r' /\ options_ok os) r4) as Hos.
  { destruct b; [|apply wps_ret; split; [by apply reads_follows, reads_refl; eauto with reading|by split; constructor]].
    eapply wp_weaken; [apply hello_options_wp; eauto with reading|]. intros os r' [Hu Ho]. split; [|done]. eapply uses_follows; [|done]. apply reads_refl. eauto with reading. }
  apply wps_bind. eapply wp_weaken; [exact Hos|]. intros os r5 [Hf5 Ho]. assert (reader_ok r5) as Hr5 by apply Hf5.
  apply wps_bind. eapply wp_weaken; [eapply hello_wp; eauto with reading|]. intros t r6 [Hrd6 Ha]. case_bool_decide as Hk; cbn [negb]; [|apply hello_wp, fail_wp].
  assert (reader_ok r6) as Hr6 by eauto with reading. apply wps_bind, wp_gets, wps_bind, wp_pure.
  pose proof (ParameterCount_ok (parameters_ r6) (ro_used _ _ _ _ Hr6)) as Hc. destruct (ParameterCount (parameters_ r6)) as [k|]; [|by left].
  destruct Hc as [-> Hp]. apply wps_ret. cbn. split; [unfold in_u, u64_max in *; lia|]. split; [done|]. split; [by eapply parameters_end|].
  rewrite <- Hp. destruct Hrd6 as (_ & _ & ->), Hf5 as (_ & _ & ->), Hrd4 as (_ & _ & ->), Hf3 as (_ & _ & ->). 
  destruct Ht2 as (_ & _ & ->), Ht1 as (_ & _ & ->). rewrite Hempty, elements_empty, app_nil_r. unfold hello_used. cbn. apply Permutation_app_comm.
Qed.

End Methods.

(** ** The theorems *)

Lemma reader_start line : bytes_ok line -> reader_ok line byte_ok (CountParameterTokens line) start.
Proof. intros H. split; cbn [at_ ahead parameters_ start]; [lia|done| |set_solver]. unfold ahead_count, CountParameterTokens. cbn [ahead start]. by rewrite size_empty, drop_0. Qed.

(** C17: a line of less than 2^32 bytes parses to a statement or a ParseError, never
    anything else.  A statement's numbers are in the range of their types; the names of
    its tables, columns, options and users are lowercase words and those of slots and
    migrations slot names (a feature's name is kept as written); the area of a WATCH or
    a slot is not reversed (the corners of GET AREA are taken in any order, and the
    fields its form does not use are zero); and the values the statement takes from the
    frames after the line are $1 to $n, each once, where n is what it promises to take
    and what CountParameterTokens counts in the bytes of the line. *)
Theorem parse_statement line : bytes_ok line -> len line < 2 ^ 32 ->
  match Parse line with
  | Ok p => statement_ok (statement p) /\ parameters p = CountParameterTokens line /\ statement_parameters (statement p) ≡ₚ seqZ 1 (parameters p)
  | Err e => parse_failure e
  end.
Proof.
  intros Hb Hl. pose proof (reader_start line Hb) as Hr. unfold Parse. set (total := CountParameterTokens line) in *.
  assert (StateError.wp parse_failure (Statement_ line)
    (fun p _ => statement_ok (statement p) /\ parameters p = total /\ statement_parameters (statement p) ≡ₚ seqZ 1 (parameters p)) start) as H;
    [|unfold StateError.wp in H; by destruct (Statement_ line start) as [[]|]].
  unfold Statement_. apply wps_bind. eapply wp_weaken; [by apply parse_wp|]. intros s r1 [(F1 & F2 & F3) Hs].
  apply wps_bind. eapply wp_weaken; [by apply (Peek_wp line kStatement byte_ok Hb total)|]. intros t r2 [(R1 & R2 & R3) Ha].
  case_bool_decide as Hk; cbn [negb]; [|by eapply unexpected_wp]. apply wps_bind, wp_gets, wps_bind, wp_pure.
  pose proof (ParameterCount_ok (parameters_ r2) (ro_used _ _ _ _ R1)) as Hc. destruct (ParameterCount (parameters_ r2)) as [n|]; [|done].
  apply wps_ret. destruct Hc as [-> Hp]. cbn. split; [done|]. split; [by eapply parameters_end|].
  rewrite <- Hp, R3, F3. cbn. by rewrite elements_empty, app_nil_r.
Qed.

Lemma parse_statement_witness : exists line p, Parse line = Ok p /\ CountParameterTokens line = 2 /\ statement_parameters (statement p) ≡ₚ seqZ 1 2.
Proof.
  exists (str "SET BLOCK -5 7 IN t a=$2, b='$3', c=$1 IF VERSION 9"). eexists. split; [vm_compute; reflexivity|]. split; [reflexivity|].
  pose proof (parse_statement (str "SET BLOCK -5 7 IN t a=$2, b='$3', c=$1 IF VERSION 9")) as H. vm_compute (Parse _) in H. apply H.
  - apply Forall_forall. intros c Hc. revert c Hc. apply Forall_forall. vm_compute. repeat constructor; discriminate.
  - reflexivity.
Defined.

(** A HELLO line, without the newlines at its end, gives a request, a ParseError
    or the error for an option given twice.  A request's options have different names,
    and its parameters are $1 to $n, each once: $1 the user's, the others the options';
    n is what CountParameterTokens counts. *)
Theorem parse_hello line : let text := rev (span (fun c => (c =? 13) || (c =? 10)) (rev line)).2 in bytes_ok text -> len text < 2 ^ 32 ->
  match ParseHello line with
  | Ok h => in_u 64 (protocol h) /\ options_ok (hello_options h) /\ hello_parameters h = CountParameterTokens text /\ hello_used h ≡ₚ seqZ 1 (hello_parameters h)
  | Err e => hello_failure e
  end.
Proof.
  intros text Hb Hl. pose proof (hello_all_wp text Hb Hl (CountParameterTokens text) start (reader_start text Hb) eq_refl) as H. unfold ParseHello. fold text.
  unfold StateError.wp in H. by destruct (Hello text start) as [[]|].
Qed.

Lemma parse_hello_witness : exists h, ParseHello (str "HELLO 2 USER bob $1 WITH a=3, b=$2" ++ [13; 10]) = Ok h /\ hello_used h ≡ₚ seqZ 1 2.
Proof.
  eexists. split; [vm_compute; reflexivity|]. pose proof (parse_hello (str "HELLO 2 USER bob $1 WITH a=3, b=$2" ++ [13; 10])) as H. cbv zeta in H.
  vm_compute (ParseHello _) in H. apply H.
  - vm_compute. repeat constructor; discriminate.
  - reflexivity.
Defined.

End Cql.
