(* ===== verification/Features.v ===== *)
(** * Feature flags (src/src/feature_flags.hpp, src/src/feature_flags.cpp)

    The three sets of feature bits a store, a table or a file carries, what a
    build knows of them, and what an unknown bit forbids. *)
From stdpp Require Import prelude strings.
From Stdlib Require Import ZArith Lia.
From S2P Require Import Prelude.

#[local] Open Scope Z_scope.

Module Features.

Record FeatureFlags := { incompat : Z; ro_compat : Z; compat : Z }.
#[global] Instance FeatureFlags_eq_dec : EqDecision FeatureFlags.
Proof. solve_decision. Defined.
Definition no_features : FeatureFlags := {| incompat := 0; ro_compat := 0; compat := 0 |}.

Inductive AccessMode := kReadWrite | kReadOnly.
#[global] Instance AccessMode_eq_dec : EqDecision AccessMode.
Proof. solve_decision. Defined.

Definition kFeatureFeedSlots : Z := 1.
Definition kFeatureMigrations : Z := 2.
Definition kFeatureTableLineage : Z := 4.
Definition kFeatureSlotFilters : Z := 8.
Definition kFeatureActivation : Z := 16.

Record FeatureDefinition := { feature_name : string; feature_incompat : Z; table_scoped : bool }.

Definition kFeatureRegistry : list FeatureDefinition :=
  [ {| feature_name := "feed_slots"; feature_incompat := kFeatureFeedSlots; table_scoped := true |};
    {| feature_name := "migrations"; feature_incompat := kFeatureMigrations; table_scoped := false |};
    {| feature_name := "table_lineage"; feature_incompat := kFeatureTableLineage; table_scoped := true |};
    {| feature_name := "slot_filters"; feature_incompat := kFeatureSlotFilters; table_scoped := true |};
    {| feature_name := "feature_activation"; feature_incompat := kFeatureActivation; table_scoped := false |} ].

Definition kKnownFeatures : FeatureFlags :=
  {| incompat := Z.lor (Z.lor (Z.lor (Z.lor kFeatureFeedSlots kFeatureMigrations) kFeatureTableLineage)
                          kFeatureSlotFilters) kFeatureActivation;
     ro_compat := 0; compat := 0 |}.

Definition RegisteredTableFeatures : FeatureFlags :=
  {| incompat := fold_left (fun f d => if table_scoped d then Z.lor f (feature_incompat d) else f) kFeatureRegistry 0;
     ro_compat := 0; compat := 0 |}.
Definition kTableBaselineFeatures : FeatureFlags := RegisteredTableFeatures.

Definition FindFeature (n : string) : option FeatureDefinition :=
  List.find (fun d => bool_decide (feature_name d = n)) kFeatureRegistry.

Definition TableScopedFeatures (flags : FeatureFlags) : FeatureFlags :=
  {| incompat := Z.land (incompat flags) (incompat kTableBaselineFeatures); ro_compat := 0; compat := 0 |}.

Definition UnionFeatures (a b : FeatureFlags) : FeatureFlags :=
  {| incompat := Z.lor (incompat a) (incompat b); ro_compat := Z.lor (ro_compat a) (ro_compat b);
     compat := Z.lor (compat a) (compat b) |}.

(** [a & ~b]. *)
Definition without (a b : Z) : Z := Z.land a (Z.lnot b).

Definition UnknownFeatures (flags : FeatureFlags) : FeatureFlags :=
  {| incompat := without (incompat flags) (incompat kKnownFeatures);
     ro_compat := without (ro_compat flags) (ro_compat kKnownFeatures);
     compat := without (compat flags) (compat kKnownFeatures) |}.

Definition IsSubsetOf (a b : FeatureFlags) : bool :=
  (without (incompat a) (incompat b) =? 0) && (without (ro_compat a) (ro_compat b) =? 0) &&
  (without (compat a) (compat b) =? 0).

Definition RequireFeature (flags : FeatureFlags) (d : FeatureDefinition) : res unit :=
  throw_if (Z.land (incompat flags) (feature_incompat d) =? 0) (invalid_argument "feature is disabled").

Definition MaySkipUnknownTypes (flags : FeatureFlags) : bool :=
  let unknown := UnknownFeatures flags in
  negb (incompat unknown =? 0) || negb (ro_compat unknown =? 0) || negb (compat unknown =? 0).

Definition RequireOpenableFeatures (flags : FeatureFlags) (mode : AccessMode) : res unit :=
  let unknown := UnknownFeatures flags in
  _ ← throw_if (negb (incompat unknown =? 0))
        (runtime_error "store uses features this build does not support; it cannot be opened");
  throw_if (negb (ro_compat unknown =? 0) && negb (bool_decide (mode = kReadOnly)))
    (runtime_error "store uses features this build can read but not write; it can only be opened read-only").

(** ** What the sets mean bit by bit *)

Definition subset (a b : Z) : Prop := forall i, 0 <= i -> Z.testbit a i = true -> Z.testbit b i = true.

Lemma without_subset a b : (without a b =? 0) = true <-> subset a b.
Proof.
  unfold without, subset. rewrite Z.eqb_eq. split.
  - intros H i Hi Ha. assert (Z.testbit (Z.land a (Z.lnot b)) i = false) as E by (by rewrite H, Z.bits_0).
    rewrite Z.land_spec, Z.lnot_spec, Ha in E by done. by destruct (Z.testbit b i).
  - intros H. apply Z.bits_inj'. intros i Hi. rewrite Z.land_spec, Z.lnot_spec, Z.bits_0 by done.
    destruct (Z.testbit a i) eqn:Ea; [by rewrite (H i Hi Ea)|done].
Qed.

Lemma IsSubsetOf_spec a b : IsSubsetOf a b = true <->
  subset (incompat a) (incompat b) /\ subset (ro_compat a) (ro_compat b) /\ subset (compat a) (compat b).
Proof. unfold IsSubsetOf. rewrite !andb_true_iff, !without_subset. tauto. Qed.

Lemma IsSubsetOf_refl a : IsSubsetOf a a = true.
Proof. apply IsSubsetOf_spec. unfold subset. auto. Qed.

Lemma IsSubsetOf_none a : IsSubsetOf no_features a = true.
Proof. done. Qed.

(** An unknown feature is honoured as its set says: a store opens for writing exactly when it has no
    incompat or ro_compat bit the build does not know, and for reading exactly when it has no unknown incompat bit. *)
Theorem openable_features flags mode :
  RequireOpenableFeatures flags mode = Ok tt <->
  subset (incompat flags) (incompat kKnownFeatures) /\ (mode = kReadWrite -> subset (ro_compat flags) 0).
Proof.
  unfold RequireOpenableFeatures. cbn [UnknownFeatures incompat ro_compat].
  rewrite <- !without_subset. change (ro_compat kKnownFeatures) with 0. split.
  - intros H. res_inv. apply negb_false_iff in Hs. split; [done|]. intros ->.
    rewrite bool_decide_false in H by done. cbn [negb] in H. rewrite andb_true_r in H. by apply negb_false_iff in H.
  - intros [Hi Hr]. pass_guard by (by rewrite Hi). apply throw_if_false. destruct mode; [|by rewrite bool_decide_true, andb_false_r].
    rewrite Hr by done. done.
Qed.

End Features.
