(* ===== verification/LittleEndian.v ===== *)
(** * Little-endian fields (src/src/chunk_format.cpp)

    The writers and readers of 16, 32 and 64-bit fields every file format
    shares, and the tactic that finds a field in a file written piece by piece. *)
From stdpp Require Import prelude strings.
From Stdlib Require Import ZArith Lia.
From S2P Require Import Prelude.

#[local] Open Scope Z_scope.

Module LittleEndian.

(** The bytes a writer appends. *)
Definition WriteLe16 (value : Z) : bytes := [u8 (Z.land value 255); u8 (Z.land (Z.shiftr value 8) 255)].
Definition WriteLe32 (value : Z) : bytes :=
  [u8 (Z.land value 255); u8 (Z.land (Z.shiftr value 8) 255); u8 (Z.land (Z.shiftr value 16) 255);
   u8 (Z.land (Z.shiftr value 24) 255)].
Definition WriteLe64 (value : Z) : bytes := map (fun i => u8 (Z.land (Z.shiftr value (8 * i)) 255)) (seqZ 0 8).

Definition ReadLe16 (data : bytes) (offset : Z) : Z :=
  u16 (Z.lor (byte_at data offset) (u16 (Z.shiftl (byte_at data (offset + 1)) 8))).
Definition ReadLe32 (data : bytes) (offset : Z) : Z :=
  Z.lor (Z.lor (Z.lor (byte_at data offset) (Z.shiftl (byte_at data (offset + 1)) 8))
               (Z.shiftl (byte_at data (offset + 2)) 16)) (Z.shiftl (byte_at data (offset + 3)) 24).
Definition ReadLe64 (data : bytes) (offset : Z) : Z :=
  fold_left (fun value i => Z.lor value (Z.shiftl (byte_at data (offset + i)) (8 * i))) (seqZ 0 8) 0.

(** ** Writers *)

Lemma u8_land x : u8 (Z.land x 255) = Z.land x 255.
Proof. apply wrap_small. apply byte_land_255. Qed.

Lemma WriteLe16_bytes v : WriteLe16 v = le_bytes 2 v.
Proof. unfold WriteLe16. by rewrite !u8_land. Qed.

Lemma WriteLe32_bytes v : WriteLe32 v = le_bytes 4 v.
Proof. unfold WriteLe32. rewrite !u8_land. cbn [le_bytes]. by rewrite !Z.shiftr_shiftr by lia. Qed.

Lemma WriteLe64_bytes v : WriteLe64 v = le_bytes 8 v.
Proof.
  unfold WriteLe64. change (seqZ 0 8) with [0; 1; 2; 3; 4; 5; 6; 7]. cbn [map le_bytes]. rewrite !u8_land.
  rewrite !Z.shiftr_shiftr by lia. rewrite Z.mul_0_r, Z.shiftr_0_r. done.
Qed.

(** ** Readers *)

Lemma slice_cons l off n : 0 <= off < len l -> 1 <= n -> slice l off n = byte_at l off :: slice l (off + 1) (n - 1).
Proof.
  intros Ho Hn. unfold slice, byte_at. replace (Z.to_nat (off + 1)) with (S (Z.to_nat off)) by lia.
  replace (Z.to_nat n) with (S (Z.to_nat (n - 1))) by lia.
  destruct (lookup_lt_is_Some_2 l (Z.to_nat off) ltac:(lia)) as [b Hb].
  rewrite (drop_S _ _ _ Hb), (nth_lookup_Some _ _ _ _ Hb). done.
Qed.

Lemma slice_0 l off : slice l off 0 = [].
Proof. done. Qed.

(** The loop of ReadLe64 from index [a] on. *)
Lemma read_le_loop data off n : forall a acc, 0 <= off + a -> 0 <= a -> off + a + Z.of_nat n <= len data ->
  fold_left (fun value i => Z.lor value (Z.shiftl (byte_at data (off + i)) (8 * i))) (seqZ a (Z.of_nat n)) acc =
  Z.lor acc (Z.shiftl (le_value (slice data (off + a) (Z.of_nat n))) (8 * a)).
Proof.
  induction n as [|n IH]; intros a acc Ho Ha Hl.
  { change (seqZ a (Z.of_nat 0)) with ([] : list Z). cbn [fold_left]. rewrite slice_0. cbn [le_value].
    by rewrite Z.shiftl_0_l, Z.lor_0_r. }
  rewrite seqZ_cons by lia. cbn [fold_left]. replace (Z.pred (Z.of_nat (S n))) with (Z.of_nat n) by lia.
  rewrite IH by lia. rewrite (slice_cons data (off + a)) by lia. cbn [le_value].
  replace (off + Z.succ a) with (off + a + 1) by lia. replace (Z.of_nat (S n) - 1) with (Z.of_nat n) by lia.
  rewrite Z.shiftl_lor, Z.shiftl_shiftl, Z.lor_assoc by lia. do 2 f_equal. lia.
Qed.

Lemma ReadLe64_slice data off : 0 <= off -> off + 8 <= len data -> ReadLe64 data off = le_value (slice data off 8).
Proof.
  intros. unfold ReadLe64. rewrite (read_le_loop data off 8) by lia. rewrite Z.lor_0_l, Z.add_0_r, Z.mul_0_r, Z.shiftl_0_r. done.
Qed.

Lemma ReadLe32_slice data off : 0 <= off -> off + 4 <= len data -> ReadLe32 data off = le_value (slice data off 4).
Proof. intros. rewrite slice_4 by lia. apply lor4_le. Qed.

Lemma ReadLe16_slice data off : bytes_ok (slice data off 2) -> 0 <= off -> off + 2 <= len data ->
  ReadLe16 data off = le_value (slice data off 2).
Proof.
  intros Hb H0 Hl. rewrite (slice_cons data off 2), (slice_cons data (off + 1)) in Hb |- * by lia.
  change (2 - 1 - 1) with 0 in *. rewrite slice_0 in *. unfold ReadLe16.
  apply Forall_cons in Hb as [B0 Hb]. apply Forall_cons in Hb as [B1 _].
  cbn [le_value]. rewrite Z.shiftl_0_l, Z.lor_0_r. unfold byte_ok in *.
  assert (Z.shiftl (byte_at data (off + 1)) 8 = 256 * byte_at data (off + 1)) as E by (rewrite Z.shiftl_mul_pow2 by lia; lia).
  rewrite (wrap_small 16 (Z.shiftl _ 8)) by (unfold in_u; lia). rewrite lor_shiftl_8 by done.
  apply wrap_small. unfold in_u. lia.
Qed.

(** The field read is the one written where the slice is. *)
Lemma ReadLe16_at data off v : 0 <= off -> off + 2 <= len data -> in_u 16 v ->
  slice data off 2 = le_bytes 2 v -> ReadLe16 data off = v.
Proof.
  intros ? ? ? E. rewrite ReadLe16_slice, E by (done || rewrite E; apply bytes_ok_le_bytes). by apply le_value_le_bytes.
Qed.

Lemma ReadLe32_at data off v : 0 <= off -> off + 4 <= len data -> in_u 32 v ->
  slice data off 4 = le_bytes 4 v -> ReadLe32 data off = v.
Proof. intros ? ? ? E. rewrite ReadLe32_slice, E by done. by apply le_value_le_bytes. Qed.

Lemma ReadLe64_at data off v : 0 <= off -> off + 8 <= len data -> in_u 64 v ->
  slice data off 8 = le_bytes 8 v -> ReadLe64 data off = v.
Proof. intros ? ? ? E. rewrite ReadLe64_slice, E by done. by apply le_value_le_bytes. Qed.

Lemma ReadLe64_nonneg data off : bytes_ok data -> 0 <= ReadLe64 data off.
Proof.
  intros Hb. unfold ReadLe64. change (seqZ 0 8) with [0; 1; 2; 3; 4; 5; 6; 7]. cbn [fold_left].
  repeat (apply Z.lor_nonneg; split); try done; apply Z.shiftl_nonneg, (byte_at_ok data _ Hb).
Qed.

Lemma ReadLe64_bound data off : bytes_ok data -> 0 <= off -> off + 8 <= len data -> in_u 64 (ReadLe64 data off).
Proof.
  intros. rewrite ReadLe64_slice by done.
  pose proof (le_value_bound (slice data off 8) ltac:(by apply bytes_ok_slice)) as B.
  rewrite len_slice in B by lia. exact B.
Qed.

Lemma ReadLe32_bound data off : bytes_ok data -> 0 <= off -> off + 4 <= len data -> in_u 32 (ReadLe32 data off).
Proof.
  intros. rewrite ReadLe32_slice by done.
  pose proof (le_value_bound (slice data off 4) ltac:(by apply bytes_ok_slice)) as B.
  rewrite len_slice in B by lia. exact B.
Qed.

Lemma ReadLe16_bound data off : in_u 16 (ReadLe16 data off).
Proof. by apply wrap_bound. Qed.

(** Finds a slice of an append of pieces of known length. *)
Ltac seek :=
  repeat first [ rewrite slice_app_l by len_lia | rewrite slice_app_r by len_lia ];
  first [ rewrite slice_all by len_lia; reflexivity
        | match goal with |- slice ?l ?o ?n = _ => replace o with 0 by len_lia; rewrite slice_all by len_lia; reflexivity end ].

End LittleEndian.
