(* ===== verification/ChunkFormat.v ===== *)
(** * Chunk images (src/src/chunk_format.cpp)

    The presence bitmap, the chunk state as bytes, and the checkpoint file of
    a chunk: a fixed header, a directory of sections, a checksum over both, then
    the section bodies, each compressed or not and with a checksum of its own.
    Loading an image brings its state to the table's current schema.

    LayoutAt is used through LayoutFresh, which it agrees with (Geometry). *)
From stdpp Require Import prelude strings gmap sorting.
From Stdlib Require Import ZArith Lia.
From S2P Require Import Prelude Bits BitCodec Zrle Crc32 Vars Columns Schema Layout Geometry Features LittleEndian.

#[local] Open Scope Z_scope.

Module ChunkFormat.
Import Columns Schema Layout Geometry Features LittleEndian.

(** ** Presence *)

Definition ChunkPresenceBitmapBytes (g : Geometry) : Z := (ChunkBlockCount g + 7) / 8.
Definition ChunkStateBytes (g : Geometry) : Z := ChunkPayloadBytes g + ChunkPresenceBitmapBytes g.

Definition MaskUnusedPayloadBits (g : Geometry) (payload : bytes) : res bytes := MaskPadding (layout_ g) payload.

Definition MaskUnusedPresenceBits (g : Geometry) (presence : bytes) : bytes :=
  if bool_decide (presence = []) then presence
  else
    let trailing_bits := len presence * 8 - ChunkBlockCount g in
    if trailing_bits =? 0 then presence
    else
      let mask := u8 (Z.shiftr 0xFF trailing_bits) in
      set_byte presence (len presence - 1) (Z.land (byte_at presence (len presence - 1)) mask).

Definition FullPresenceBitmap (g : Geometry) : bytes :=
  MaskUnusedPresenceBits g (replicate (Z.to_nat (ChunkPresenceBitmapBytes g)) 0xFF).

Definition BlockPresent (presence : bytes) (block_index : Z) : bool :=
  negb (Z.land (byte_at presence (block_index / 8)) (u8 (Z.shiftl 1 (block_index mod 8))) =? 0).

Definition SetBlockPresent (presence : bytes) (block_index : Z) (present : bool) : bytes :=
  set_bit presence block_index present.

Definition ChunkPresent (presence : bytes) : bool := existsb (fun b => negb (b =? 0)) presence.

Definition PresenceBitsText (g : Geometry) (presence : bytes) : res bytes :=
  BitCodec.ExtractBits presence 0 (ChunkBlockCount g).

Definition CanonicalizeAbsentBlocks (g : Geometry) (presence payload : bytes) : res bytes :=
  ClearEmptyValues (layout_ g) presence payload.

(** ** The chunk state as bytes *)

Definition BuildChunkStateBytes (g : Geometry) (payload presence : bytes) : res bytes :=
  _ ← throw_if (negb (len payload =? ChunkPayloadBytes g)) (invalid_argument "payload size does not match geometry");
  _ ← throw_if (negb (len presence =? ChunkPresenceBitmapBytes g))
        (invalid_argument "presence bitmap size does not match geometry");
  Ok (payload ++ presence).

Definition SplitChunkStateBytes (g : Geometry) (state : bytes) : res (bytes * bytes) :=
  let payload_bytes := ChunkPayloadBytes g in
  _ ← throw_if (negb (len state =? payload_bytes + ChunkPresenceBitmapBytes g))
        (invalid_argument "chunk state size does not match geometry");
  Ok (take (Z.to_nat payload_bytes) state, MaskUnusedPresenceBits g (drop (Z.to_nat payload_bytes) state)).

(** ** Chunk images *)

Definition kImageMagic : bytes := str "CHKIMAGE".
Definition kImageMagicSize : Z := 8.
Definition kImageFormatVersion : Z := 1.
Definition kImageFixedHeaderSize : Z := kImageMagicSize + 2 + 2 + 12 + 16 + 8 * 4.
Definition kImageSectionEntrySize : Z := 16.
Definition kImageMaxSections : Z := 64.
Definition kImageSectionPayload : Z := 1.
Definition kImageSectionPresence : Z := 2.
Definition kImageSectionVars : Z := 3.
Definition kImageSectionSchema : Z := 4.
Definition kImageSectionFlagZrle : Z := 1.
Definition kMaxImageSectionRawBytes : Z := 64 * 1024 * 1024.

Inductive CheckpointCompression := kNone | kZrle.
#[global] Instance CheckpointCompression_eq_dec : EqDecision CheckpointCompression.
Proof. solve_decision. Defined.

Record ImageSectionEntry := {
  entry_type : Z;
  entry_flags : Z;
  stored_size : Z;
  raw_size : Z;
  entry_crc : Z
}.

Record ChunkStateImage := {
  image_payload : bytes;
  image_presence : bytes;
  image_revision : Z;
  image_commit_time_ms : Z;
  image_features : FeatureFlags;
  image_vars : Vars.ChunkVars;
  image_schema_version : Z
}.

Definition KnownSectionRawSize (g : Geometry) (l : ChunkLayout) (type : Z) : Z :=
  if type =? kImageSectionPayload then u32 (payload_bytes_ l)
  else if type =? kImageSectionPresence then u32 (ChunkPresenceBitmapBytes g)
  else 0.

(** A section: its directory entry's bytes and its body. *)
Definition AppendSection (type : Z) (raw : bytes) (compression : CheckpointCompression) : res (bytes * bytes) :=
  let compressed := bool_decide (compression = kZrle) in
  body ← (if compressed then Zrle.ZrleCompress raw else Ok raw);
  Ok (WriteLe16 type ++ WriteLe16 (if compressed then kImageSectionFlagZrle else 0) ++
      WriteLe32 (u32 (len body)) ++ WriteLe32 (u32 (len raw)) ++ WriteLe32 (Crc32.Crc32 raw), body).

Definition SerializeChunkImage (g : Geometry) (coord : ChunkCoord) (payload presence : bytes)
    (compression : CheckpointCompression) (revision commit_time_ms : Z) (store_id : bytes)
    (vars : option Vars.ChunkVars) : res bytes :=
  _ ← throw_if (negb (len payload =? ChunkPayloadBytes g) || negb (len presence =? ChunkPresenceBitmapBytes g))
        (invalid_argument "chunk state size does not match geometry");
  _ ← throw_if (revision =? 0) (invalid_argument "chunk image revision must not be zero");
  let has_vars := match vars with Some v => negb (bool_decide (Vars.offsets_ v = [])) | None => false end in
  payload_section ← AppendSection kImageSectionPayload payload compression;
  presence_section ← AppendSection kImageSectionPresence presence compression;
  vars_section ← match vars with
                 | Some v => if has_vars then
                               s ← AppendSection kImageSectionVars (Vars.Encode v) compression; Ok [s]
                             else Ok []
                 | None => Ok []
                 end;
  let schema_version := version (schema_ (layout_ g)) in
  let has_schema := 1 <? schema_version in
  schema_section ← (if has_schema then
                      s ← AppendSection kImageSectionSchema (WriteLe64 schema_version) kNone; Ok [s]
                    else Ok []);
  let sections := [payload_section; presence_section] ++ vars_section ++ schema_section in
  let header :=
    kImageMagic ++ WriteLe16 kImageFormatVersion ++
    WriteLe16 (u16 (2 + (if has_vars then 1 else 0) + (if has_schema then 1 else 0))) ++
    WriteLe32 0 ++ WriteLe32 0 ++ WriteLe32 0 ++ store_id ++
    WriteLe64 (u64 (cx coord)) ++ WriteLe64 (u64 (cy coord)) ++ WriteLe64 revision ++ WriteLe64 commit_time_ms ++
    concat sections.*1 in
  Ok (header ++ WriteLe32 (Crc32.Crc32 header) ++ concat sections.*2).

(** The first pass: the schema version, which sizes the other sections. *)
Fixpoint FindSchemaVersion (count : nat) (data : bytes) (i offset : Z) : res Z :=
  match count with
  | O => Ok 1
  | S count' =>
      let at_ := kImageFixedHeaderSize + i * kImageSectionEntrySize in
      let stored := ReadLe32 data (at_ + 4) in
      if len data - offset <? stored then Ok 1
      else if ReadLe16 data at_ =? kImageSectionSchema then
        _ ← throw_if (negb (ReadLe16 data (at_ + 2) =? 0) || negb (stored =? 8) || negb (ReadLe32 data (at_ + 8) =? 8))
              (runtime_error "chunk image schema section is malformed");
        _ ← throw_if (negb (Crc32.Crc32 (slice data offset 8) =? ReadLe32 data (at_ + 12)))
              (runtime_error "chunk image section 4 checksum mismatch");
        Ok (ReadLe64 data offset)
      else FindSchemaVersion count' data (i + 1) (offset + stored)
  end.

(** What the second pass has collected. *)
Record Parsed := {
  body_at : Z;
  previous_type : Z;
  got_payload : option bytes;
  got_presence : option bytes;
  got_vars : option bytes
}.

Definition ReadEntry (data : bytes) (at_ : Z) : ImageSectionEntry :=
  {| entry_type := ReadLe16 data at_; entry_flags := ReadLe16 data (at_ + 2); stored_size := ReadLe32 data (at_ + 4);
     raw_size := ReadLe32 data (at_ + 8); entry_crc := ReadLe32 data (at_ + 12) |}.

Definition ParseSection (data : bytes) (g : Geometry) (l : ChunkLayout) (may_skip_unknown : bool) (p : Parsed) (i : Z)
    : res Parsed :=
  let e := ReadEntry data (kImageFixedHeaderSize + i * kImageSectionEntrySize) in
  _ ← throw_if ((0 <? i) && (entry_type e <=? previous_type p))
        (runtime_error "chunk image sections are not in ascending type order");
  _ ← throw_if (negb (Z.land (entry_flags e) (Z.lnot kImageSectionFlagZrle) =? 0))
        (runtime_error "chunk image section has unknown flags");
  let compressed := negb (Z.land (entry_flags e) kImageSectionFlagZrle =? 0) in
  _ ← throw_if (negb compressed && negb (stored_size e =? raw_size e))
        (runtime_error "chunk image section stored and raw sizes differ");
  _ ← throw_if (len data - body_at p <? stored_size e)
        (runtime_error "chunk image section extends past the end of the image");
  let fixed_size := (entry_type e =? kImageSectionPayload) || (entry_type e =? kImageSectionPresence) in
  let known := fixed_size || (entry_type e =? kImageSectionVars) || (entry_type e =? kImageSectionSchema) in
  _ ← throw_if (negb known && negb may_skip_unknown) (runtime_error "unknown chunk image section");
  _ ← throw_if (kMaxImageSectionRawBytes <? raw_size e) (runtime_error "chunk image section declares raw bytes, more than");
  _ ← throw_if (fixed_size && negb (raw_size e =? KnownSectionRawSize g l (entry_type e)))
        (runtime_error "chunk image section has the wrong size for the store geometry");
  _ ← throw_if ((entry_type e =? kImageSectionVars) &&
                ((raw_size e =? 0) || (Vars.kVarMaxChunkBytesLimit <? raw_size e)))
        (runtime_error "chunk image section (VARS) has size");
  raw ← (if compressed then Zrle.ZrleDecompress (slice data (body_at p) (stored_size e)) (raw_size e)
         else Ok (slice data (body_at p) (stored_size e)));
  _ ← throw_if (negb (Crc32.Crc32 raw =? entry_crc e)) (runtime_error "chunk image section checksum mismatch");
  let next_at := body_at p + stored_size e in
  if entry_type e =? kImageSectionPayload then
    Ok {| body_at := next_at; previous_type := entry_type e; got_payload := Some raw; got_presence := got_presence p;
          got_vars := got_vars p |}
  else if entry_type e =? kImageSectionPresence then
    Ok {| body_at := next_at; previous_type := entry_type e; got_payload := got_payload p;
          got_presence := Some (MaskUnusedPresenceBits g raw); got_vars := got_vars p |}
  else if entry_type e =? kImageSectionVars then
    Ok {| body_at := next_at; previous_type := entry_type e; got_payload := got_payload p;
          got_presence := got_presence p; got_vars := Some raw |}
  else
    Ok {| body_at := next_at; previous_type := entry_type e; got_payload := got_payload p;
          got_presence := got_presence p; got_vars := got_vars p |}.

(** [catch (const std::invalid_argument&)], rethrown as a runtime_error. *)
Definition rethrow_invalid {A} (r : res A) (msg : string) : res A :=
  match r with
  | Err (invalid_argument _) => Err (runtime_error msg)
  | _ => r
  end.

Definition ParseChunkImage (data : bytes) (g : Geometry) (expected : ChunkCoord) (store_id : bytes)
    (store_features : FeatureFlags) : res ChunkStateImage :=
  _ ← throw_if (len data <? kImageFixedHeaderSize + 4) (runtime_error "chunk image too small");
  _ ← throw_if (negb (bool_decide (slice data 0 kImageMagicSize = kImageMagic)))
        (runtime_error "not a 2.0 chunk image (bad magic)");
  _ ← throw_if (negb (ReadLe16 data 8 =? kImageFormatVersion)) (runtime_error "unsupported chunk image version");
  let section_count := ReadLe16 data 10 in
  _ ← throw_if (kImageMaxSections <? section_count) (runtime_error "chunk image has too many sections");
  let directory_end := kImageFixedHeaderSize + section_count * kImageSectionEntrySize in
  _ ← throw_if (len data <? directory_end + 4) (runtime_error "chunk image too small for its section directory");
  _ ← throw_if (negb (ReadLe32 data directory_end =? Crc32.Crc32 (slice data 0 directory_end)))
        (runtime_error "chunk image header checksum mismatch");
  let features := {| incompat := ReadLe32 data 12; ro_compat := ReadLe32 data 16; compat := ReadLe32 data 20 |} in
  _ ← throw_if (negb (IsSubsetOf features store_features))
        (runtime_error "chunk image uses features the store does not");
  _ ← throw_if (negb (bool_decide (slice data 24 (len store_id) = store_id)))
        (runtime_error "chunk image belongs to another store");
  _ ← throw_if (negb (i64 (ReadLe64 data 40) =? cx expected) || negb (i64 (ReadLe64 data 48) =? cy expected))
        (runtime_error "chunk coordinate mismatch");
  let revision := ReadLe64 data 56 in
  _ ← throw_if (revision =? 0) (runtime_error "chunk image revision is zero");
  let commit_time_ms := ReadLe64 data 64 in
  let may_skip_unknown := MaySkipUnknownTypes features in
  schema_version ← FindSchemaVersion (Z.to_nat section_count) data 0 (directory_end + 4);
  _ ← throw_if ((schema_version =? 0) || (version (schema_ (layout_ g)) <? schema_version))
        (runtime_error "chunk image is of schema version");
  layout ← LayoutFresh g schema_version;
  p ← fold_res (ParseSection data g layout may_skip_unknown)
        {| body_at := directory_end + 4; previous_type := 0; got_payload := None; got_presence := None; got_vars := None |}
        (seqZ 0 section_count);
  _ ← throw_if (negb (body_at p =? len data)) (runtime_error "chunk image has bytes after its last section");
  match got_payload p, got_presence p with
  | Some payload, Some presence =>
      vars ← match got_vars p with
             | None => Ok Vars.no_vars
             | Some section =>
                 rethrow_invalid (vars ← Vars.Decode section (ChunkBlockCount g);
                                  _ ← RequireValidVars layout vars presence; Ok vars)
                   "chunk image VARS section is damaged"
             end;
      Ok {| image_payload := payload; image_presence := presence; image_revision := revision;
            image_commit_time_ms := commit_time_ms; image_features := features; image_vars := vars;
            image_schema_version := schema_version |}
  | _, _ => Err (runtime_error "chunk image lacks its payload or presence section")
  end.

(** [for (step = version + 1; step <= current; ++step)]. *)
Fixpoint BringForward (count : nat) (g : Geometry) (v : Z) (presence payload : bytes) (vars : Vars.ChunkVars)
    : res (bytes * Vars.ChunkVars) :=
  match count with
  | O => Ok (payload, vars)
  | S count' =>
      from ← LayoutFresh g v;
      to ← LayoutFresh g (v + 1);
      '(payload, vars) ← TranslateChunk from to presence payload vars;
      BringForward count' g (v + 1) presence payload vars
  end.

Definition BringToCurrentSchema (g : Geometry) (v : Z) (presence payload : bytes) (vars : Vars.ChunkVars)
    : res (bytes * Vars.ChunkVars) :=
  let current := layout_ g in
  if v =? 0 then Ok (zeros (payload_bytes_ current), Vars.no_vars)
  else BringForward (Z.to_nat (version (schema_ current) - v)) g v presence payload vars.

(** ** WAL file headers *)

Definition kWalMagic : bytes := str "CHKWALOG".
Definition kWalMagicSize : Z := 8.
Definition kWalFormatVersion : Z := 1.
Definition kWalHeaderSize : Z := kWalMagicSize + 2 + 2 + 12 + 16 + 8 + 8 + 4.

Definition BuildWalHeader (coord : ChunkCoord) (store_id : bytes) (features : FeatureFlags) : bytes :=
  let header :=
    kWalMagic ++ WriteLe16 kWalFormatVersion ++ WriteLe16 0 ++ WriteLe32 (incompat features) ++
    WriteLe32 (ro_compat features) ++ WriteLe32 (compat features) ++ store_id ++
    WriteLe64 (u64 (cx coord)) ++ WriteLe64 (u64 (cy coord)) in
  header ++ WriteLe32 (Crc32.Crc32 header).

(** ** Sections as written and as read *)

(** A section: its type, its raw bytes, and how they are stored. *)
Record section_t := { sec_type : Z; sec_raw : bytes; sec_flag : Z; sec_body : bytes }.

Definition sec_entry (s : section_t) : bytes :=
  le_bytes 2 (sec_type s) ++ le_bytes 2 (sec_flag s) ++ le_bytes 4 (len (sec_body s)) ++
  le_bytes 4 (len (sec_raw s)) ++ le_bytes 4 (Crc32.Crc32 (sec_raw s)).

Definition sec_read (s : section_t) : ImageSectionEntry :=
  {| entry_type := sec_type s; entry_flags := sec_flag s; stored_size := len (sec_body s);
     raw_size := len (sec_raw s); entry_crc := Crc32.Crc32 (sec_raw s) |}.

(** What the writer guarantees of a section. *)
Record sec_ok (s : section_t) : Prop := {
  sk_type : in_u 16 (sec_type s);
  sk_raw : bytes_ok (sec_raw s);
  sk_size : len (sec_raw s) <= kMaxImageSectionRawBytes;
  sk_body : len (sec_body s) < 2 ^ 32;
  sk_stored : sec_flag s = 0 /\ sec_body s = sec_raw s \/
              sec_flag s = 1 /\ Zrle.ZrleDecompress (sec_body s) (len (sec_raw s)) = Ok (sec_raw s)
}.

Lemma AppendSection_ok t raw compression : in_u 16 t -> bytes_ok raw -> len raw <= kMaxImageSectionRawBytes ->
  exists s, AppendSection t raw compression = Ok (sec_entry s, sec_body s) /\ sec_type s = t /\ sec_raw s = raw /\
    sec_ok s /\ (compression = kNone -> sec_flag s = 0).
Proof.
  intros Ht Hb Hl. unfold AppendSection, kMaxImageSectionRawBytes in *.
  rewrite ?WriteLe16_bytes, ?WriteLe32_bytes. destruct compression.
  - rewrite bool_decide_false by done. rewrite bind_Ok_l, wrap_small by (unfold in_u; lia).
    exists {| sec_type := t; sec_raw := raw; sec_flag := 0; sec_body := raw |}.
    rewrite ?WriteLe16_bytes, ?WriteLe32_bytes. split; [done|]. split; [done|]. split; [done|]. split; [|done].
    split; cbn; try done; [lia|by left].
  - rewrite bool_decide_true by done. destruct (Zrle.ZrleCompress_ok raw ltac:(lia)) as (out & -> & _ & Hd & Ho).
    unfold Zrle.kZrleMaxOverheadBytes in Ho. rewrite bind_Ok_l. rewrite !wrap_small by (unfold in_u; lia).
    exists {| sec_type := t; sec_raw := raw; sec_flag := 1; sec_body := out |}.
    rewrite ?WriteLe16_bytes, ?WriteLe32_bytes. split; [done|]. split; [done|]. split; [done|]. split; [|done].
    split; cbn; try done; [lia|by right].
Qed.

Lemma len_sec_entry s : len (sec_entry s) = kImageSectionEntrySize.
Proof. unfold sec_entry. rewrite !length_app, !length_le_bytes. done. Qed.

Lemma len_entries l : len (concat (sec_entry <$> l)) = len l * kImageSectionEntrySize.
Proof.
  induction l as [|s l IH]; [done|]. cbn [fmap list_fmap concat]. rewrite length_app, Nat2Z.inj_add, IH, len_sec_entry.
  cbn [length]. unfold kImageSectionEntrySize. lia.
Qed.

Lemma ReadEntry_at pre l1 s l2 post at_ : sec_ok s ->
  at_ = len pre + len l1 * kImageSectionEntrySize ->
  ReadEntry (pre ++ concat (sec_entry <$> l1 ++ s :: l2) ++ post) at_ = sec_read s.
Proof.
  intros [Ht Hr Hs Hb Hf] ->. rewrite fmap_app, concat_app. cbn [fmap list_fmap concat].
  pose proof (len_entries l1) as L1. set (e1 := concat (sec_entry <$> l1)) in *. clearbody e1.
  set (e2 := concat (list_fmap section_t bytes sec_entry l2)). clearbody e2. rewrite <- L1.
  unfold kMaxImageSectionRawBytes in Hs.
  assert (in_u 16 (sec_flag s)) as Hflag by (unfold in_u; destruct Hf as [[-> _]|[-> _]]; lia).
  pose proof (Crc32.Crc32_bound (sec_raw s) Hr) as Hcrc.
  unfold ReadEntry, sec_read, sec_entry.
  f_equal.
  - apply ReadLe16_at; [lia|len_lia|done|]. seek.
  - apply ReadLe16_at; [lia|len_lia|done|]. seek.
  - apply ReadLe32_at; [lia|len_lia|unfold in_u; lia|]. seek.
  - apply ReadLe32_at; [lia|len_lia|unfold in_u; lia|]. seek.
  - apply ReadLe32_at; [lia|len_lia|done|]. seek.
Qed.

(** What the second pass collects of a section. *)
Definition collect (g : Geometry) (p : Parsed) (s : section_t) : Parsed :=
  {| body_at := body_at p + len (sec_body s); previous_type := sec_type s;
     got_payload := if sec_type s =? kImageSectionPayload then Some (sec_raw s) else got_payload p;
     got_presence := if sec_type s =? kImageSectionPresence then Some (MaskUnusedPresenceBits g (sec_raw s))
                     else got_presence p;
     got_vars := if sec_type s =? kImageSectionVars then Some (sec_raw s) else got_vars p |}.

(** A section the layout accepts. *)
Definition sec_fits (g : Geometry) (l : ChunkLayout) (s : section_t) : Prop :=
  sec_ok s /\
  (sec_type s = kImageSectionPayload /\ len (sec_raw s) = payload_bytes_ l \/
   sec_type s = kImageSectionPresence /\ len (sec_raw s) = ChunkPresenceBitmapBytes g \/
   sec_type s = kImageSectionVars /\ 0 < len (sec_raw s) <= Vars.kVarMaxChunkBytesLimit \/
   sec_type s = kImageSectionSchema).

Section Image.
Context (g : Geometry) (l : ChunkLayout) (skip : bool) (pre crc : bytes) (secs : list section_t).
Hypothesis Hpre : len pre = kImageFixedHeaderSize.
Hypothesis Hcrc : len crc = 4.

Definition image : bytes := pre ++ concat (sec_entry <$> secs) ++ crc ++ concat (sec_body <$> secs).

Definition body_offset (l1 : list section_t) : Z :=
  kImageFixedHeaderSize + len secs * kImageSectionEntrySize + 4 + len (concat (sec_body <$> l1)).

Lemma image_body l1 s l2 : secs = l1 ++ s :: l2 ->
  slice image (body_offset l1) (len (sec_body s)) = sec_body s /\
  body_offset l1 + len (sec_body s) <= len image /\
  body_offset (l1 ++ [s]) = body_offset l1 + len (sec_body s).
Proof using Hpre Hcrc.
  intros E. pose proof (len_entries secs) as Le. unfold image, body_offset. rewrite <- Le, <- Hpre, <- Hcrc.
  assert (concat (sec_body <$> secs) = concat (sec_body <$> l1) ++ sec_body s ++ concat (sec_body <$> l2)) as Eb
    by (by rewrite E, fmap_app, concat_app).
  rewrite Eb, fmap_app, concat_app. cbn [fmap list_fmap concat]. rewrite app_nil_r.
  split; [seek|]. rewrite !length_app. lia.
Qed.

Lemma image_entry l1 s l2 : sec_ok s -> secs = l1 ++ s :: l2 ->
  ReadEntry image (kImageFixedHeaderSize + len l1 * kImageSectionEntrySize) = sec_read s.
Proof using Hpre. intros Hs E. unfold image. rewrite E at 1. apply ReadEntry_at; [done|lia]. Qed.

Lemma ParseSection_step l1 s l2 p : secs = l1 ++ s :: l2 -> sec_fits g l s -> body_at p = body_offset l1 ->
  (l1 = [] \/ previous_type p < sec_type s) -> in_u 32 (payload_bytes_ l) -> in_u 32 (ChunkPresenceBitmapBytes g) ->
  ParseSection image g l skip p (len l1) = Ok (collect g p s).
Proof using Hpre Hcrc.
  intros E [Hok Htype] Hat Hprev Hp32 Hb32. destruct (image_body l1 s l2 E) as (Hslice & Hbound & _).
  unfold ParseSection. rewrite (image_entry l1 s l2 Hok E), Hat. cbv zeta.
  cbn [sec_read entry_type entry_flags stored_size raw_size entry_crc]. rewrite Hslice.
  destruct Hok as [Ht Hr Hs Hb Hf]. unfold kMaxImageSectionRawBytes in Hs.
  pass_guard by (destruct Hprev as [->|Hlt]; [done|rewrite andb_false_iff; right; apply Z.leb_gt; lia]).
  pass_guard by (by destruct Hf as [[-> _]|[-> _]]).
  assert ((if negb (Z.land (sec_flag s) kImageSectionFlagZrle =? 0) then Zrle.ZrleDecompress (sec_body s) (len (sec_raw s))
    else Ok (sec_body s)) = Ok (sec_raw s) /\
    negb (negb (Z.land (sec_flag s) kImageSectionFlagZrle =? 0)) && negb (len (sec_body s) =? len (sec_raw s)) = false) as [Hraw Hsame].
  { destruct Hf as [[-> ->]|[-> Hd]]; (split; [done|]); [by rewrite (Z.eqb_refl (len (sec_raw s)))|done]. }
  pass_guard by exact Hsame. pass_guard by (apply Z.ltb_ge; lia).
  unfold kImageSectionPayload, kImageSectionPresence, kImageSectionVars, kImageSectionSchema, KnownSectionRawSize, collect,
    kImageSectionPayload, kImageSectionPresence in *.
  destruct Htype as [[E' Hl]|[[E' Hl]|[[E' Hl]|E']]]; rewrite E' in *; cbn [Z.eqb Pos.eqb orb andb negb].
  all: pass_guard by done.
  all: pass_guard by (apply Z.ltb_ge; unfold kMaxImageSectionRawBytes; lia).
  1: pass_guard by (rewrite wrap_small by done; by rewrite Hl, Z.eqb_refl).
  2: pass_guard by (rewrite wrap_small by done; by rewrite Hl, Z.eqb_refl).
  3,4: pass_guard by done.
  3: pass_guard by (rewrite orb_false_iff, Z.eqb_neq, Z.ltb_ge; lia).
  1,2,4: pass_guard by done.
  all: rewrite Hraw, bind_Ok_l; pass_guard by (by rewrite Z.eqb_refl); by rewrite Hat.
Qed.

Lemma ParseSections l2 : forall l1 p, secs = l1 ++ l2 -> Forall (sec_fits g l) l2 -> body_at p = body_offset l1 ->
  StronglySorted (fun a b => sec_type a < sec_type b) l2 ->
  (l1 = [] \/ Forall (fun s => previous_type p < sec_type s) l2) ->
  in_u 32 (payload_bytes_ l) -> in_u 32 (ChunkPresenceBitmapBytes g) ->
  fold_res (ParseSection image g l skip) p (seqZ (len l1) (len l2)) = Ok (fold_left (collect g) l2 p).
Proof using Hpre Hcrc.
  induction l2 as [|s l2 IH]; intros l1 p E Hall Hat Hsort Hprev Hp Hb; [done|].
  apply Forall_cons in Hall as [Hs Hall]. apply StronglySorted_inv in Hsort as [Hsort Hlt].
  rewrite seqZ_cons by (cbn; lia). cbn [fold_res fold_left].
  rewrite (ParseSection_step l1 s l2); try done.
  2:{ destruct Hprev as [?|Hprev]; [by left|]. right. by apply Forall_cons in Hprev as [? _]. }
  rewrite bind_Ok_l. destruct (image_body l1 s l2 E) as (_ & _ & Hoff).
  specialize (IH (l1 ++ [s]) (collect g p s)). rewrite length_app in IH. cbn [length] in *.
  replace (Z.succ (len l1)) with (Z.of_nat (length l1 + 1)) by lia.
  replace (Z.pred (Z.of_nat (S (length l2)))) with (Z.of_nat (length l2)) by lia.
  apply IH; try done; [by rewrite <- app_assoc|cbn; lia|by right].
Qed.

(** The version the first pass finds. *)
Lemma FindSchemaVersion_none l2 : forall l1, secs = l1 ++ l2 -> Forall sec_ok l2 ->
  Forall (fun s => sec_type s <> kImageSectionSchema) l2 ->
  FindSchemaVersion (length l2) image (len l1) (body_offset l1) = Ok 1.
Proof using Hpre Hcrc.
  induction l2 as [|s l2 IH]; intros l1 E Hok Hne; [done|].
  apply Forall_cons in Hok as [Hs Hok]. apply Forall_cons in Hne as [Hn Hne].
  cbn [length FindSchemaVersion]. pose proof (image_entry l1 s l2 Hs E) as He. unfold ReadEntry in He.
  injection He as E1 E2 E3 E4 E5. rewrite E1, E3. destruct (_ <? _); [done|].
  rewrite (proj2 (Z.eqb_neq _ _)) by done. destruct (image_body l1 s l2 E) as (_ & _ & Hoff).
  specialize (IH (l1 ++ [s])). rewrite length_app in IH. cbn [length] in IH.
  replace (len l1 + 1) with (Z.of_nat (length l1 + 1)) by lia. rewrite <- Hoff.
  apply IH; [by rewrite <- app_assoc|done|done].
Qed.

Lemma FindSchemaVersion_some l2 s v : forall l1, secs = l1 ++ l2 ++ [s] -> Forall sec_ok l2 ->
  Forall (fun s => sec_type s <> kImageSectionSchema) l2 -> sec_ok s -> sec_type s = kImageSectionSchema ->
  sec_flag s = 0 -> sec_raw s = le_bytes 8 v -> in_u 64 v ->
  FindSchemaVersion (length (l2 ++ [s])) image (len l1) (body_offset l1) = Ok v.
Proof using Hpre Hcrc.
  induction l2 as [|s' l2 IH]; intros l1 E Hok Hne Hs Ht Hf Hr Hv.
  - cbn [app length FindSchemaVersion] in *. pose proof (image_entry l1 s [] Hs E) as He. unfold ReadEntry in He.
    injection He as E1 E2 E3 E4 E5. destruct (image_body l1 s [] E) as (Hslice & Hbound & _).
    destruct Hs as [_ _ _ _ [[_ Hbody]|[Hf' _]]]; [|congruence]. rewrite Hbody, Hr in *.
    rewrite length_le_bytes in *. rewrite E1, E2, E3, E4, E5, Ht, Hf, ?Hr, Z.eqb_refl, ?length_le_bytes.
    rewrite (proj2 (Z.ltb_ge _ _)) by lia. pass_guard by done.
    change (Z.of_nat 8) with 8 in *. rewrite Hslice. pass_guard by (by rewrite Z.eqb_refl).
    f_equal. apply ReadLe64_at; try done; unfold body_offset, kImageFixedHeaderSize, kImageMagicSize, kImageSectionEntrySize; lia.
  - apply Forall_cons in Hok as [Hs' Hok]. apply Forall_cons in Hne as [Hn Hne]. cbn [app length FindSchemaVersion].
    pose proof (image_entry l1 s' (l2 ++ [s]) Hs' E) as He. unfold ReadEntry in He. injection He as E1 E2 E3 E4 E5.
    rewrite E1, E3. destruct (image_body l1 s' (l2 ++ [s]) E) as (_ & Hbound & Hoff).
    rewrite (proj2 (Z.ltb_ge _ _)) by lia. rewrite (proj2 (Z.eqb_neq _ _)) by done.
    specialize (IH (l1 ++ [s'])). rewrite (length_app l1) in IH. cbn [length] in IH.
    replace (len l1 + 1) with (Z.of_nat (length l1 + 1)) by lia. rewrite <- Hoff.
    apply IH; try done. by rewrite <- app_assoc.
Qed.

End Image.

(** ** What is written is read back *)

(** The fixed header of an image with [n] sections. *)
Definition image_header (n : Z) (coord : ChunkCoord) (revision commit_time_ms : Z) (store_id : bytes) : bytes :=
  kImageMagic ++ le_bytes 2 kImageFormatVersion ++ le_bytes 2 n ++ le_bytes 4 0 ++ le_bytes 4 0 ++ le_bytes 4 0 ++
  store_id ++ le_bytes 8 (u64 (cx coord)) ++ le_bytes 8 (u64 (cy coord)) ++ le_bytes 8 revision ++ le_bytes 8 commit_time_ms.

Lemma len_image_header n coord revision time store_id : len store_id = 16 ->
  len (image_header n coord revision time store_id) = kImageFixedHeaderSize.
Proof.
  intros H. unfold image_header. autorewrite with lens. change (length kImageMagic) with 8%nat.
  unfold kImageFixedHeaderSize, kImageMagicSize. lia.
Qed.

Lemma bytes_ok_entries l : bytes_ok (concat (sec_entry <$> l)).
Proof.
  induction l as [|s l IH]; [constructor|]. cbn [fmap list_fmap concat]. unfold sec_entry.
  repeat apply Forall_app_2; try apply bytes_ok_le_bytes. exact IH.
Qed.

Lemma bytes_ok_image_header n coord revision time store_id : bytes_ok store_id ->
  bytes_ok (image_header n coord revision time store_id).
Proof.
  intros H. unfold image_header. repeat apply Forall_app_2; try apply bytes_ok_le_bytes; try done. apply bytes_ok_str.
Qed.

(** Reads a field of an image written piece by piece. *)
Ltac image_field Ed := rewrite Ed; unfold image_header; rewrite <- ?app_assoc; seek.

(** The fields of the header of an image as written. *)
Lemma image_fields coord revision time store_id secs :
  len store_id = 16 -> bytes_ok store_id -> in_u 64 revision -> in_u 64 time -> len secs <= kImageMaxSections ->
  let pre := image_header (len secs) coord revision time store_id in
  let D := concat (sec_entry <$> secs) in
  let data := image pre (le_bytes 4 (Crc32.Crc32 (pre ++ D))) secs in
  len data = 72 + len secs * 16 + 4 + len (concat (sec_body <$> secs)) /\
  slice data 0 8 = kImageMagic /\ ReadLe16 data 8 = kImageFormatVersion /\ ReadLe16 data 10 = len secs /\
  (ReadLe32 data 12 = 0 /\ ReadLe32 data 16 = 0 /\ ReadLe32 data 20 = 0) /\ slice data 24 16 = store_id /\
  (ReadLe64 data 40 = u64 (cx coord) /\ ReadLe64 data 48 = u64 (cy coord)) /\
  (ReadLe64 data 56 = revision /\ ReadLe64 data 64 = time) /\
  ReadLe32 data (72 + len secs * 16) = Crc32.Crc32 (slice data 0 (72 + len secs * 16)).
Proof.
  intros Hid Bid Hr Ht Hn pre D data. pose proof (len_image_header (len secs) coord revision time store_id Hid) as Lp.
  fold pre in Lp. pose proof (len_entries secs) as Le. unfold kImageMaxSections in Hn. fold D in Le.
  assert (in_u 32 (Crc32.Crc32 (pre ++ D))) as Hcrc
    by (apply Crc32.Crc32_bound, Forall_app_2; [by apply bytes_ok_image_header|apply bytes_ok_entries]).
  assert (slice data 0 (72 + len secs * 16) = pre ++ D) as Epre.
  { unfold data, image, kImageFixedHeaderSize, kImageMagicSize, kImageSectionEntrySize in *. fold D. rewrite app_assoc.
    rewrite slice_app_l by len_lia. apply slice_all. len_lia. }
  rewrite Epre. set (crc := Crc32.Crc32 (pre ++ D)) in *. set (B := concat (sec_body <$> secs)) in *.
  assert (data = image_header (len secs) coord revision time store_id ++ D ++ le_bytes 4 crc ++ B) as Ed by done.
  unfold kImageFixedHeaderSize, kImageMagicSize, kImageSectionEntrySize in *.
  assert (len data = 72 + len secs * 16 + 4 + len B) as Ld by (rewrite Ed, !length_app, length_le_bytes; fold pre; lia).
  assert (len kImageMagic = 8) as Lm by done. clearbody crc B D. split; [done|].
  split; [image_field Ed|].
  split; [apply ReadLe16_at; [lia|lia|done|image_field Ed]|].
  split; [apply ReadLe16_at; [lia|lia|unfold in_u; lia|image_field Ed]|].
  split; [split; [|split]; apply ReadLe32_at; first [lia|done|image_field Ed]|].
  split; [image_field Ed|].
  split; [split; apply ReadLe64_at; [lia|lia|by apply wrap_bound|image_field Ed|lia|lia|by apply wrap_bound|image_field Ed]|].
  split; [split; apply ReadLe64_at; first [lia|done|image_field Ed]|].
  apply ReadLe32_at; [lia|lia|done|]. rewrite Ed. fold pre. seek.
Qed.

(** The checks of the header pass for an image written with it. *)
Lemma ParseChunkImage_header g coord revision time store_id features secs :
  len store_id = 16 -> bytes_ok store_id -> in_i 64 (cx coord) -> in_i 64 (cy coord) -> in_u 64 revision -> revision <> 0 ->
  in_u 64 time -> len secs <= kImageMaxSections ->
  let pre := image_header (len secs) coord revision time store_id in
  let data := image pre (le_bytes 4 (Crc32.Crc32 (pre ++ concat (sec_entry <$> secs)))) secs in
  ParseChunkImage data g coord store_id features =
  (let directory_end := kImageFixedHeaderSize + len secs * kImageSectionEntrySize in
   schema_version ← FindSchemaVersion (length secs) data 0 (directory_end + 4);
   _ ← throw_if ((schema_version =? 0) || (version (schema_ (layout_ g)) <? schema_version))
         (runtime_error "chunk image is of schema version");
   layout ← LayoutFresh g schema_version;
   p ← fold_res (ParseSection data g layout false)
         {| body_at := directory_end + 4; previous_type := 0; got_payload := None; got_presence := None; got_vars := None |}
         (seqZ 0 (len secs));
   _ ← throw_if (negb (body_at p =? len data)) (runtime_error "chunk image has bytes after its last section");
   match got_payload p, got_presence p with
   | Some payload, Some presence =>
       vars ← match got_vars p with
              | None => Ok Vars.no_vars
              | Some section =>
                  rethrow_invalid (vars ← Vars.Decode section (ChunkBlockCount g);
                                   _ ← RequireValidVars layout vars presence; Ok vars)
                    "chunk image VARS section is damaged"
              end;
       Ok {| image_payload := payload; image_presence := presence; image_revision := revision;
             image_commit_time_ms := time; image_features := no_features; image_vars := vars;
             image_schema_version := schema_version |}
   | _, _ => Err (runtime_error "chunk image lacks its payload or presence section")
   end).
Proof.
  intros Hid Bid Hx Hy Hr Hr0 Ht Hn pre data.
  destruct (image_fields coord revision time store_id secs Hid Bid Hr Ht Hn)
    as (Ld & Emagic & E8 & E10 & (E12 & E16 & E20) & Eid & (E40 & E48) & (E56 & E64) & Ecrc).
  fold pre in Ld, Emagic, E8, E10, E12, E16, E20, Eid, E40, E48, E56, E64, Ecrc.
  fold data in Ld, Emagic, E8, E10, E12, E16, E20, Eid, E40, E48, E56, E64, Ecrc.
  unfold ParseChunkImage, kImageFixedHeaderSize, kImageMagicSize, kImageSectionEntrySize, kImageMaxSections in *.
  pass_guard by (apply Z.ltb_ge; lia). rewrite Emagic. pass_guard by (by rewrite bool_decide_true).
  rewrite E8. pass_guard by done. rewrite E10. pass_guard by (apply Z.ltb_ge; lia).
  cbv zeta. change (8 + 2 + 2 + 12 + 16 + 8 * 4) with 72.
  pass_guard by (apply Z.ltb_ge; lia). pass_guard by (by rewrite Ecrc, Z.eqb_refl).
  rewrite E12, E16, E20. pass_guard by (by rewrite IsSubsetOf_none).
  rewrite Hid, Eid. pass_guard by (by rewrite bool_decide_true).
  rewrite E40, E48, !signed_wrap by (done || lia). pass_guard by (by rewrite !Z.eqb_refl).
  rewrite E56. pass_guard by (by apply Z.eqb_neq). rewrite E64, Nat2Z.id. done.
Qed.

(** The sizes of the sections of a chunk's state. *)
Lemma geometry_sizes g : geometry_ok g ->
  0 <= ChunkPayloadBytes g <= kMaxImageSectionRawBytes /\ 0 <= ChunkPresenceBitmapBytes g <= kMaxImageSectionRawBytes.
Proof.
  intros [Hc Hl Hn Hlim _]. unfold ChunkPayloadBytes, kMaxImageSectionRawBytes.
  pose proof (lo_limit _ Hl) as Hle. rewrite Hlim in Hle. unfold kMaxChunkPayloadBytes in Hle.
  destruct (valid_types _ (lo_version _ Hl) (lo_schema _ Hl)) as (Ht & _).
  pose proof (total_pos (block_count_ (layout_ g)) _ (lo_count _ Hl) Ht) as Hp. rewrite <- (lo_bytes _ Hl) in Hp.
  destruct (chunk_blocks_ok _ Hc) as [Ew Hpos]. destruct Hc as (_ & _ & _ & _ & _ & Hbc & _). unfold kMaxChunkBlockCount in Hbc.
  unfold ChunkPresenceBitmapBytes, ChunkBlockCount. rewrite Ew. split; [lia|].
  pose proof (BytesForBits_bounds (chunk_width_blocks (config_ g) * chunk_height_blocks (config_ g)) ltac:(lia)).
  unfold BytesForBits in *. lia.
Qed.

(** The variable-length values an image may hold. *)
Definition vars_fit (g : Geometry) (presence : bytes) (v : Vars.ChunkVars) : Prop :=
  Vars.wf v /\ Vars.encoded_size v <= Vars.kVarMaxChunkBytesLimit /\
  (forall k x, Vars.abs v !! k = Some x -> Vars.block_index k < ChunkBlockCount g) /\
  RequireValidVars (layout_ g) v (MaskUnusedPresenceBits g presence) = Ok tt.

Lemma wf_no_offsets v : Vars.wf v -> Vars.offsets_ v = [] -> v = Vars.no_vars.
Proof. intros (E & _ & ->) H. destruct E; [done|discriminate]. Qed.

Lemma wf_bytes v : Vars.wf v -> bytes_ok (Vars.Encode v).
Proof. intros (E & Hwf & ->). apply Vars.bytes_ok_enc, Hwf. Qed.

Lemma wf_nonempty v : Vars.wf v -> Vars.offsets_ v <> [] -> 0 < len (Vars.Encode v).
Proof.
  intros (E & _ & ->) H. destruct E as [|e E]; [done|]. cbn [Vars.rep Vars.Encode Vars.data_ Vars.enc flat_map].
  rewrite length_app. pose proof (Vars.len_encode_entry e). unfold Vars.kVarEntryHeaderBytes in *. lia.
Qed.

Lemma find_version s1 s2 vs ss pre crc v : let secs := [s1; s2] ++ vs ++ ss in
  len pre = kImageFixedHeaderSize -> len crc = 4 -> in_u 64 v ->
  sec_ok s1 -> sec_type s1 = kImageSectionPayload -> sec_ok s2 -> sec_type s2 = kImageSectionPresence ->
  (vs = [] \/ exists s, vs = [s] /\ sec_ok s /\ sec_type s = kImageSectionVars) ->
  (ss = [] /\ v = 1 \/ exists s, ss = [s] /\ sec_ok s /\ sec_type s = kImageSectionSchema /\ sec_flag s = 0 /\
     sec_raw s = le_bytes 8 v) ->
  FindSchemaVersion (length secs) (image pre crc secs) 0 (body_offset secs []) = Ok v.
Proof.
  intros secs Hpre Hcrc Hv K1 T1 K2 T2 Hvs Hss.
  assert (Forall sec_ok ([s1; s2] ++ vs) /\ Forall (fun s => sec_type s <> kImageSectionSchema) ([s1; s2] ++ vs)) as [Hok Hne].
  { unfold kImageSectionPayload, kImageSectionPresence, kImageSectionVars, kImageSectionSchema in *.
    destruct Hvs as [->|(s & -> & K & T)]; split; repeat apply List.Forall_cons; try apply List.Forall_nil; try done; lia. }
  destruct Hss as [[-> ->]|(s & -> & K & T & F & R)].
  - unfold secs. rewrite app_nil_r. by apply (FindSchemaVersion_none pre crc _ Hpre Hcrc _ []).
  - unfold secs. rewrite app_assoc. by apply (FindSchemaVersion_some pre crc _ Hpre Hcrc _ s v []).
Qed.

Lemma collect_body_at g l : forall p, body_at (fold_left (collect g) l p) = body_at p + len (concat (sec_body <$> l)).
Proof.
  induction l as [|s l IH]; intros p; cbn [fold_left fmap list_fmap concat]; [cbn; lia|].
  rewrite IH, length_app. cbn [collect body_at]. lia.
Qed.

Lemma collect_fields g s1 s2 vs ss p :
  sec_type s1 = kImageSectionPayload -> sec_type s2 = kImageSectionPresence ->
  (vs = [] \/ exists s, vs = [s] /\ sec_type s = kImageSectionVars) ->
  (ss = [] \/ exists s, ss = [s] /\ sec_type s = kImageSectionSchema) ->
  let q := fold_left (collect g) ([s1; s2] ++ vs ++ ss) p in
  got_payload q = Some (sec_raw s1) /\ got_presence q = Some (MaskUnusedPresenceBits g (sec_raw s2)) /\
  got_vars q = match vs with s :: _ => Some (sec_raw s) | [] => got_vars p end.
Proof.
  intros T1 T2 Hvs Hss. destruct Hvs as [->|(s & -> & T3)], Hss as [->|(s' & -> & T4)];
    cbn [app fold_left]; unfold collect; cbn [got_payload got_presence got_vars]; rewrite ?T1, ?T2, ?T3, ?T4; done.
Qed.

(** Reading the sections [payload], [presence], maybe the values and maybe the version. *)
Lemma parse_sections g coord revision time store_id features s1 s2 vs ss payload presence vars :
  geometry_ok g ->
  len store_id = 16 -> bytes_ok store_id -> in_i 64 (cx coord) -> in_i 64 (cy coord) -> in_u 64 revision -> revision <> 0 ->
  in_u 64 time ->
  sec_ok s1 /\ sec_type s1 = kImageSectionPayload /\ sec_raw s1 = payload /\ len payload = ChunkPayloadBytes g ->
  sec_ok s2 /\ sec_type s2 = kImageSectionPresence /\ sec_raw s2 = presence /\ len presence = ChunkPresenceBitmapBytes g ->
  (vs = [] /\ vars = Vars.no_vars \/
   exists s, vs = [s] /\ sec_ok s /\ sec_type s = kImageSectionVars /\ sec_raw s = Vars.Encode vars /\
     0 < len (Vars.Encode vars) /\ vars_fit g presence vars) ->
  (ss = [] /\ version (schema_ (layout_ g)) = 1 \/
   exists s, ss = [s] /\ sec_ok s /\ sec_type s = kImageSectionSchema /\ sec_flag s = 0 /\
     sec_raw s = le_bytes 8 (version (schema_ (layout_ g)))) ->
  let secs := [s1; s2] ++ vs ++ ss in
  let pre := image_header (len secs) coord revision time store_id in
  ParseChunkImage (image pre (le_bytes 4 (Crc32.Crc32 (pre ++ concat (sec_entry <$> secs)))) secs) g coord store_id features =
  Ok {| image_payload := payload; image_presence := MaskUnusedPresenceBits g presence; image_revision := revision;
        image_commit_time_ms := time; image_features := no_features; image_vars := vars;
        image_schema_version := version (schema_ (layout_ g)) |}.
Proof.
  intros Hg Hid Bid Hx Hy Hr Hr0 Ht (Hk1 & T1 & R1 & L1) (Hk2 & T2 & R2 & L2) Hvs Hss secs pre.
  assert (len secs <= 4) as Hn.
  { unfold secs. rewrite !length_app. destruct Hvs as [[-> _]|(? & -> & _)], Hss as [[-> _]|(? & -> & _)]; cbn; lia. }
  assert (len pre = kImageFixedHeaderSize) as Hpre by (by apply len_image_header).
  pose proof (ParseChunkImage_header g coord revision time store_id features secs Hid Bid Hx Hy Hr Hr0 Ht
    ltac:(unfold kImageMaxSections; lia)) as Hparse. fold pre in Hparse. cbv zeta in Hparse. rewrite Hparse. clear Hparse.
  set (crc := le_bytes 4 (Crc32.Crc32 (pre ++ concat (sec_entry <$> secs)))). assert (len crc = 4) as Hcrc by done.
  pose proof Hg as [Hc Hl Hcount Hlim _]. pose proof (geometry_sizes g Hg) as [Sp Sb]. unfold kMaxImageSectionRawBytes in Sp, Sb.
  pose proof (lo_version _ Hl) as Hu. pose proof (proj1 (ValidateTableSchema_ok _ Hu) (lo_schema _ Hl)) as (_ & Hv & _).
  assert (body_offset secs [] = kImageFixedHeaderSize + len secs * kImageSectionEntrySize + 4) as Hoff
    by (unfold body_offset; cbn; lia).
  rewrite <- Hoff.
  assert (FindSchemaVersion (length secs) (image pre crc secs) 0 (body_offset secs []) = Ok (version (schema_ (layout_ g)))) as ->.
  { apply find_version; try done. destruct Hvs as [[-> _]|(s & -> & Hs & Et & _)]; [by left|right; by exists s]. }
  rewrite bind_Ok_l. pass_guard by (rewrite orb_false_iff, Z.eqb_neq, Z.ltb_ge; lia).
  unfold LayoutFresh. rewrite Z.eqb_refl, bind_Ok_l.
  assert (Forall (sec_fits g (layout_ g)) secs /\ StronglySorted (fun a b => sec_type a < sec_type b) secs) as [Hfit Hsort].
  { unfold secs, sec_fits. unfold ChunkPayloadBytes in *.
    destruct Hvs as [[-> _]|(s & -> & Hs & Et & Er & Hne & _ & Hlim' & _)],
      Hss as [[-> _]|(s' & -> & Hs' & Et' & _)]; unfold Vars.encoded_size, Vars.Encode in *;
      (split; [repeat first [apply List.Forall_nil | apply List.Forall_cons]
              | repeat first [apply SSorted_nil | apply SSorted_cons | apply List.Forall_nil | apply List.Forall_cons]]);
      rewrite ?T1, ?T2, ?Et, ?Et', ?R1, ?R2, ?Er; try done; (split; [done|]); auto 8. }
  rewrite (ParseSections g (layout_ g) false pre crc secs Hpre Hcrc secs []); try done;
    [|by left|unfold in_u, ChunkPayloadBytes in *; lia|unfold in_u; lia].
  rewrite bind_Ok_l. set (p0 := {| body_at := _ |}).
  pass_guard by (rewrite collect_body_at; unfold p0, image, body_offset; cbn [body_at];
    rewrite !length_app, !Nat2Z.inj_add, len_entries, Hpre, Hcrc; apply negb_false_iff, Z.eqb_eq; cbn; lia).
  destruct (collect_fields g s1 s2 vs ss p0) as (Ep & Eb & Ev); try done.
  { destruct Hvs as [[-> _]|(s & -> & _ & Et & _)]; [by left|right; by exists s]. }
  { destruct Hss as [[-> _]|(s & -> & _ & Et & _)]; [by left|right; by exists s]. }
  fold secs in Ep, Eb, Ev. rewrite Ep, Eb, Ev, R1, R2.
  destruct Hvs as [[-> ->]|(s & -> & Hs & Et & Er & Hne & Hwf & Hlim' & Hblk & Hvalid)]; [done|].
  rewrite Er, Vars.Decode_Encode, bind_Ok_l by done. by rewrite Hvalid.
Qed.

(** The bytes written are an image of the sections. *)
Lemma serialized_image n coord revision time store_id secs : in_u 16 n ->
  let header := kImageMagic ++ WriteLe16 kImageFormatVersion ++ WriteLe16 (u16 n) ++ WriteLe32 0 ++ WriteLe32 0 ++ WriteLe32 0 ++
    store_id ++ WriteLe64 (u64 (cx coord)) ++ WriteLe64 (u64 (cy coord)) ++ WriteLe64 revision ++ WriteLe64 time ++
    concat (sec_entry <$> secs) in
  let pre := image_header n coord revision time store_id in
  header ++ WriteLe32 (Crc32.Crc32 header) ++ concat (sec_body <$> secs) =
  image pre (le_bytes 4 (Crc32.Crc32 (pre ++ concat (sec_entry <$> secs)))) secs.
Proof.
  intros Hn header pre. assert (header = pre ++ concat (sec_entry <$> secs)) as ->.
  { unfold header, pre, image_header. rewrite wrap_small by done.
    rewrite !WriteLe16_bytes, !WriteLe32_bytes, !WriteLe64_bytes, <- !app_assoc. done. }
  rewrite WriteLe32_bytes. unfold image. by rewrite <- !app_assoc.
Qed.

Lemma has_vars_cases g presence (vars : option Vars.ChunkVars) compression :
  match vars with Some v => vars_fit g presence v | None => True end ->
  exists vs, match vars with
    | Some v => if match vars with Some v => negb (bool_decide (Vars.offsets_ v = [])) | None => false end
                then s ← AppendSection kImageSectionVars (Vars.Encode v) compression; Ok [s] else Ok []
    | None => Ok []
    end = Ok (map (fun s => (sec_entry s, sec_body s)) vs) /\
    (if match vars with Some v => negb (bool_decide (Vars.offsets_ v = [])) | None => false end then 1 else 0) = len vs /\
    (vs = [] /\ default Vars.no_vars vars = Vars.no_vars \/
     exists s, vs = [s] /\ sec_ok s /\ sec_type s = kImageSectionVars /\ sec_raw s = Vars.Encode (default Vars.no_vars vars) /\
       0 < len (Vars.Encode (default Vars.no_vars vars)) /\ vars_fit g presence (default Vars.no_vars vars)).
Proof.
  intros Hfit. destruct vars as [v|]; [|exists []; split; [done|]; split; [done|by left]]. cbn [default from_option].
  destruct Hfit as (Hwf & Hlim & Hblk & Hvalid). case_bool_decide as Eo; cbn [negb].
  { exists []. split; [done|]. split; [done|]. left. split; [done|]. by apply wf_no_offsets. }
  destruct (AppendSection_ok kImageSectionVars (Vars.Encode v) compression) as (s & -> & Et & Er & Hs & _);
    [done|by apply wf_bytes| |].
  { unfold Vars.encoded_size, Vars.kVarMaxChunkBytesLimit, Vars.Encode, kMaxImageSectionRawBytes in *. lia. }
  exists [s]. split; [done|]. split; [done|]. right. exists s. do 4 (split; [done|]).
  split; [by apply wf_nonempty|]. done.
Qed.

(** C12: a chunk image round trips: for any state of the right size, with or without variable-length values,
    compressed or not, at any schema version, the image is written, and parsing it for the same chunk and store gives
    back the payload, the presence bits of the blocks, the values, the revision, the commit time and the
    schema version. *)
Theorem image_roundtrip g coord payload presence compression revision time store_id vars features :
  geometry_ok g -> in_i 64 (cx coord) -> in_i 64 (cy coord) ->
  bytes_ok payload -> len payload = ChunkPayloadBytes g ->
  bytes_ok presence -> len presence = ChunkPresenceBitmapBytes g ->
  in_u 64 revision -> revision <> 0 -> in_u 64 time -> bytes_ok store_id -> len store_id = 16 ->
  match vars with Some v => vars_fit g presence v | None => True end ->
  exists b, SerializeChunkImage g coord payload presence compression revision time store_id vars = Ok b /\
    ParseChunkImage b g coord store_id features =
    Ok {| image_payload := payload; image_presence := MaskUnusedPresenceBits g presence; image_revision := revision;
          image_commit_time_ms := time; image_features := no_features; image_vars := default Vars.no_vars vars;
          image_schema_version := version (schema_ (layout_ g)) |}.
Proof.
  intros Hg Hx Hy Bp Lp Bb Lb Hr Hr0 Ht Bid Lid Hvars. pose proof (geometry_sizes g Hg) as [Sp Sb].
  unfold SerializeChunkImage. pass_guard by (by rewrite Lp, Lb, !Z.eqb_refl). pass_guard by (by apply Z.eqb_neq).
  destruct (AppendSection_ok kImageSectionPayload payload compression) as (s1 & -> & T1 & R1 & K1 & _); [done|done|lia|].
  destruct (AppendSection_ok kImageSectionPresence presence compression) as (s2 & -> & T2 & R2 & K2 & _); [done|done|lia|].
  rewrite !bind_Ok_l. destruct (has_vars_cases g presence vars compression Hvars) as (vs & -> & En & Hvs).
  rewrite bind_Ok_l, En. set (v := version (schema_ (layout_ g))).
  pose proof Hg as [_ Hl _ _ _]. pose proof (lo_version _ Hl) as Hu.
  pose proof (proj1 (ValidateTableSchema_ok _ Hu) (lo_schema _ Hl)) as (_ & Hv & _).
  assert (exists ss, (if 1 <? v then s ← AppendSection kImageSectionSchema (WriteLe64 v) kNone; Ok [s] else Ok []) =
      Ok (map (fun s => (sec_entry s, sec_body s)) ss) /\ (if 1 <? v then 1 else 0) = len ss /\
    (ss = [] /\ v = 1 \/ exists s, ss = [s] /\ sec_ok s /\ sec_type s = kImageSectionSchema /\ sec_flag s = 0 /\
       sec_raw s = le_bytes 8 v)) as (ss & -> & Ens & Hss).
  { destruct (Z.ltb_spec 1 v); [|exists []; split; [done|]; split; [done|]; left; split; [done|unfold v in *; lia]].
    destruct (AppendSection_ok kImageSectionSchema (WriteLe64 v) kNone) as (s & -> & Et & Er & Hs & Hf);
      [done|rewrite WriteLe64_bytes; apply bytes_ok_le_bytes|rewrite WriteLe64_bytes, length_le_bytes; by unfold kMaxImageSectionRawBytes|].
    exists [s]. split; [done|]. split; [done|]. right. exists s. rewrite WriteLe64_bytes in Er. by rewrite Hf. }
  rewrite bind_Ok_l, Ens. eexists. split; [done|].
  set (secs := [s1; s2] ++ vs ++ ss).
  assert (([(sec_entry s1, sec_body s1); (sec_entry s2, sec_body s2)] ++ map (fun s => (sec_entry s, sec_body s)) vs ++
    map (fun s => (sec_entry s, sec_body s)) ss) = map (fun s => (sec_entry s, sec_body s)) secs) as ->
    by (unfold secs; by rewrite !map_app).
  assert (forall l, (map (fun s => (sec_entry s, sec_body s)) l).*1 = sec_entry <$> l /\
    (map (fun s => (sec_entry s, sec_body s)) l).*2 = sec_body <$> l) as Hproj
    by (intros l; induction l as [|x l [IH1 IH2]]; cbn; split; f_equal; done).
  destruct (Hproj secs) as [-> ->]. replace (2 + len vs + len ss) with (len secs) by (unfold secs; rewrite !length_app; cbn; lia).
  rewrite serialized_image.
  - unfold secs, v. by apply parse_sections.
  - unfold in_u, secs. rewrite !length_app.
    destruct Hvs as [[-> _]|(? & -> & _)], Hss as [[-> _]|(? & -> & _)]; cbn; lia.
Qed.

Lemma image_roundtrip_witness : exists b,
  SerializeChunkImage example_geometry {| cx := -1; cy := 2 |} (replicate 512 7) (replicate 32 255) kZrle 9 1000
    (replicate 16 3) None = Ok b /\
  ParseChunkImage b example_geometry {| cx := -1; cy := 2 |} (replicate 16 3) no_features =
    Ok {| image_payload := replicate 512 7; image_presence := MaskUnusedPresenceBits example_geometry (replicate 32 255);
          image_revision := 9; image_commit_time_ms := 1000; image_features := no_features; image_vars := Vars.no_vars;
          image_schema_version := version (schema_ (layout_ example_geometry)) |}.
Proof.
  apply (image_roundtrip example_geometry {| cx := -1; cy := 2 |} (replicate 512 7) (replicate 32 255) kZrle 9 1000
    (replicate 16 3) None no_features).
  - exact example_geometry_ok.
  - split; reflexivity || discriminate.
  - split; reflexivity || discriminate.
  - apply Forall_replicate. split; reflexivity || discriminate.
  - vm_compute. reflexivity.
  - apply Forall_replicate. split; reflexivity || discriminate.
  - vm_compute. reflexivity.
  - split; reflexivity || discriminate.
  - discriminate.
  - split; reflexivity || discriminate.
  - apply Forall_replicate. split; reflexivity || discriminate.
  - reflexivity.
  - exact I.
Defined.

(** ** What is read is well formed *)

(** The mask clears the bits past the last block and no other. *)
Lemma MaskUnusedPresenceBits_spec g presence : geometry_ok g -> bytes_ok presence ->
  len presence = ChunkPresenceBitmapBytes g ->
  let m := MaskUnusedPresenceBits g presence in
  length m = length presence /\ bytes_ok m /\
  forall i, 0 <= i -> bit_at m i = (i <? ChunkBlockCount g) && bit_at presence i.
Proof.
  intros Hg Hb Hl m. pose proof Hg as [Hc _ _ _ _]. destruct (chunk_blocks_ok _ Hc) as [Ew Hpos].
  assert (1 <= ChunkBlockCount g) as Hbc by (unfold ChunkBlockCount; lia).
  unfold ChunkPresenceBitmapBytes in Hl. fold (BytesForBits (ChunkBlockCount g)) in Hl.
  pose proof (BytesForBits_bounds (ChunkBlockCount g) ltac:(lia)) as HB.
  unfold m, MaskUnusedPresenceBits. rewrite bool_decide_false by (intros ->; cbn in Hl; lia). cbv zeta.
  set (t := len presence * 8 - ChunkBlockCount g) in *.
  destruct (Z.eqb_spec t 0) as [E|E].
  { split; [done|]. split; [done|]. intros i Hi. destruct (Z.ltb_spec i (ChunkBlockCount g)); [done|].
    cbn [andb]. apply bit_at_beyond. lia. }
  assert (byte_ok (u8 (Z.shiftr 255 t))) as Bm by (by apply (wrap_bound 8)).
  rewrite length_set_byte. split; [done|]. split; [apply bytes_ok_set_byte; [done|apply byte_land; [by apply byte_at_ok|done]]|].
  intros i Hi. rewrite bit_at_set_byte by lia. pose proof (div_mod_8 i Hi) as (Hm & Hd & Ei).
  destruct (Z.eqb_spec (len presence - 1) (i / 8)) as [E'|E'].
  - rewrite Z.land_spec, testbit_wrap8, Z.shiftr_spec, testbit_255, E' by lia. unfold bit_at. rewrite andb_comm. f_equal.
    destruct (Z.ltb_spec i (ChunkBlockCount g)); [rewrite bool_decide_true by lia; done|rewrite bool_decide_false by lia; done].
  - destruct (Z.ltb_spec i (ChunkBlockCount g)); [done|]. cbn [andb]. apply bit_at_beyond. lia.
Qed.

Lemma mask_clear g pr : geometry_ok g -> bytes_ok pr -> len pr = ChunkPresenceBitmapBytes g -> (forall i, ChunkBlockCount g <= i -> bit_at pr i = false) ->
  MaskUnusedPresenceBits g pr = pr.
Proof.
  intros Hg B L H. destruct (MaskUnusedPresenceBits_spec g pr Hg B L) as (M1 & M2 & M3). apply bytes_bit_ext; [done|done|done|].
  intros i Hi. rewrite M3 by lia. destruct (Z.ltb_spec i (ChunkBlockCount g)); [done|]. by rewrite H.
Qed.

(** What the collected sections satisfy. *)
Definition parsed_ok (g : Geometry) (l : ChunkLayout) (p : Parsed) : Prop :=
  match got_payload p with Some b => len b = payload_bytes_ l /\ bytes_ok b | None => True end /\
  match got_presence p with
  | Some b => len b = ChunkPresenceBitmapBytes g /\ bytes_ok b /\ forall i, ChunkBlockCount g <= i -> bit_at b i = false
  | None => True
  end /\
  match got_vars p with Some b => bytes_ok b | None => True end /\
  kImageFixedHeaderSize + 4 <= body_at p.

Lemma ParseSection_sound data g l skip p i p' : geometry_ok g -> bytes_ok data -> in_u 32 (payload_bytes_ l) -> 0 <= i ->
  kImageFixedHeaderSize + i * kImageSectionEntrySize + kImageSectionEntrySize <= len data ->
  parsed_ok g l p -> ParseSection data g l skip p i = Ok p' -> parsed_ok g l p'.
Proof.
  intros Hg Hb H32 Hi Hin (Hp & Hpr & Hv & Hat) H. unfold ParseSection in H. cbv zeta in H. res_inv.
  set (e := ReadEntry data _) in *. pose proof (geometry_sizes g Hg) as [_ Sb]. unfold kMaxImageSectionRawBytes in Sb.
  unfold kImageSectionEntrySize, kImageFixedHeaderSize, kImageMagicSize in *.
  apply Z.ltb_ge in Hs2, Hs4. unfold kMaxImageSectionRawBytes in Hs4.
  assert (0 <= stored_size e) as Hst by (apply (ReadLe32_bound data); [done|lia|lia]).
  clearbody e. assert (len a7 = raw_size e /\ bytes_ok a7) as [Lr Br].
  { destruct (negb (Z.land (entry_flags e) kImageSectionFlagZrle =? 0)) eqn:Ec; cbn [negb andb] in Hs1.
    - apply Zrle.ZrleDecompress_ok in Hs7 as (L & _ & B); [|lia]. split; [done|]. apply B, bytes_ok_slice, Hb.
    - assert (a7 = slice data (body_at p) (stored_size e)) as -> by congruence. apply negb_false_iff, Z.eqb_eq in Hs1. split; [|by apply bytes_ok_slice].
      rewrite len_slice by lia. done. }
  unfold KnownSectionRawSize in Hs5. destruct (Z.eqb_spec (entry_type e) kImageSectionPayload) as [Et|Et].
  { injection H as <-. cbn [orb andb] in Hs5. apply negb_false_iff, Z.eqb_eq in Hs5. rewrite wrap_small in Hs5 by done.
    repeat split; cbn; try done; unfold kImageFixedHeaderSize, kImageMagicSize; lia. }
  destruct (Z.eqb_spec (entry_type e) kImageSectionPresence) as [Et'|Et'].
  { injection H as <-. cbn [orb andb] in Hs5. apply negb_false_iff, Z.eqb_eq in Hs5. rewrite wrap_small in Hs5 by (unfold in_u; lia).
    destruct (MaskUnusedPresenceBits_spec g a7 Hg Br ltac:(lia)) as (Lm & Bm & Sm).
    repeat split; cbn; try done; try (unfold kImageFixedHeaderSize, kImageMagicSize; lia). intros j Hj.
    pose proof Hg as [Hc _ _ _ _]. destruct (chunk_blocks_ok _ Hc) as [Ew Hpos]. unfold ChunkBlockCount in Hj.
    rewrite Sm by lia. by rewrite (proj2 (Z.ltb_ge _ _)). }
  destruct (entry_type e =? kImageSectionVars); injection H as <-; repeat split; cbn; try done;
    unfold kImageFixedHeaderSize, kImageMagicSize; lia.
Qed.

Lemma rethrow_invalid_ok {A} (r : res A) msg a : rethrow_invalid r msg = Ok a -> r = Ok a.
Proof. unfold rethrow_invalid. by destruct r as [|[]]. Qed.

Lemma layout_payload_u32 l : layout_ok l -> payload_bytes_limit_ l <= kMaxChunkPayloadBytes -> in_u 32 (payload_bytes_ l).
Proof.
  intros Hl Hlim. pose proof (lo_limit l Hl). destruct (valid_types _ (lo_version l Hl) (lo_schema l Hl)) as (Ht & _).
  pose proof (total_pos (block_count_ l) _ (lo_count l Hl) Ht) as Hp. rewrite <- (lo_bytes l Hl) in Hp.
  unfold in_u, kMaxChunkPayloadBytes in *. lia.
Qed.

Lemma LayoutFresh_limit g v l : geometry_ok g -> LayoutFresh g v = Ok l -> payload_bytes_limit_ l = kMaxChunkPayloadBytes.
Proof.
  intros [_ _ _ Hlim _] H. unfold LayoutFresh in H. destruct (_ =? _); [injection H as <-; done|]. res_inv.
  unfold MakeLayout in H. res_inv. subst l. by rewrite <- Hlim.
Qed.

Lemma FindSchemaVersion_nonneg n data : forall i offset v, bytes_ok data ->
  FindSchemaVersion n data i offset = Ok v -> 0 <= v.
Proof.
  induction n as [|n IH]; intros i offset v Hb H; cbn [FindSchemaVersion] in H; [injection H as <-; lia|].
  destruct (_ <? _); [injection H as <-; lia|]. destruct (_ =? kImageSectionSchema); [|by apply IH in H].
  res_inv. subst v. by apply ReadLe64_nonneg.
Qed.

(** What an accepted image holds. *)
Lemma ParseChunkImage_sound data g coord store_id features img : geometry_ok g -> bytes_ok data ->
  ParseChunkImage data g coord store_id features = Ok img ->
  exists l, LayoutFresh g (image_schema_version img) = Ok l /\ layout_ok l /\
    1 <= image_schema_version img <= version (schema_ (layout_ g)) /\
    len (image_payload img) = payload_bytes_ l /\ bytes_ok (image_payload img) /\
    len (image_presence img) = ChunkPresenceBitmapBytes g /\ bytes_ok (image_presence img) /\
    (forall i, ChunkBlockCount g <= i -> bit_at (image_presence img) i = false) /\
    Vars.wf (image_vars img) /\ RequireValidVars l (image_vars img) (image_presence img) = Ok tt /\
    image_revision img <> 0 /\ IsSubsetOf (image_features img) features = true.
Proof.
  intros Hg Hb H. unfold ParseChunkImage in H. cbv zeta in H. res_inv. rename a9 into v, a11 into l, a12 into p.
  apply orb_false_iff in Hs10 as [Hv0%Z.eqb_neq Hv1%Z.ltb_ge]. apply Z.ltb_ge in Hs, Hs2, Hs3.
  apply negb_false_iff in Hs5. apply Z.eqb_neq in Hs8.
  pose proof (ReadLe16_bound data 10) as Hn. unfold in_u in Hn.
  pose proof (FindSchemaVersion_nonneg _ data _ _ _ Hb Hs9) as Hvpos.
  destruct (LayoutFresh_ok g v Hg ltac:(lia)) as (s & _ & Hfresh). destruct (Hfresh l Hs11) as (Hl & _ & _).
  pose proof (layout_payload_u32 l Hl ltac:(by rewrite (LayoutFresh_limit g v l Hg Hs11))) as H32.
  eapply (fold_res_inv _ (parsed_ok g l)) in Hs12 as (Hp & Hpr & Hvs & _).
  2:{ intros q i q' Hi%elem_of_seqZ Hq Hstep. refine (ParseSection_sound data g l _ q i q' Hg Hb H32 _ _ Hq Hstep); unfold kImageSectionEntrySize in *; lia. }
  2:{ repeat split; cbn [got_payload got_presence got_vars body_at]. unfold kImageSectionEntrySize. lia. }
  destruct (got_payload p) as [payload|]; [|done]. destruct (got_presence p) as [presence|]; [|done]. res_inv. subst img.
  exists l. cbn. assert (Vars.wf a9 /\ RequireValidVars l a9 presence = Ok tt) as [Hwf Hval].
  { destruct (got_vars p) as [section|].
    - apply rethrow_invalid_ok, bind_ok in Hs10 as (x & Hdec & Hrest). apply bind_ok in Hrest as ([] & Hval & Hx).
      injection Hx as <-. apply Vars.Decode_sound in Hdec as (Hwf & _); [done|exact Hvs].
    - injection Hs10 as <-. split; [|done]. exists []. split; [by split; [constructor|constructor|]|done]. }
  destruct Hp, Hpr as (? & ? & ?). split; [done|]. split; [done|]. repeat split; try done; lia.
Qed.

(** C20: whatever bytes are accepted as a chunk image, the state read is one the table can hold: of a schema
    version the table has, its payload of exactly that version's size, its presence bitmap of the right size with no
    bit past the last block, its values well formed and valid for the version's columns, its revision not zero. *)
Theorem parse_image_sound data g coord store_id features img : geometry_ok g -> bytes_ok data ->
  ParseChunkImage data g coord store_id features = Ok img ->
  exists l, LayoutFresh g (image_schema_version img) = Ok l /\ layout_ok l /\
    1 <= image_schema_version img <= version (schema_ (layout_ g)) /\
    len (image_payload img) = payload_bytes_ l /\ bytes_ok (image_payload img) /\
    len (image_presence img) = ChunkPresenceBitmapBytes g /\ bytes_ok (image_presence img) /\
    (forall i, ChunkBlockCount g <= i -> bit_at (image_presence img) i = false) /\
    Vars.wf (image_vars img) /\ RequireValidVars l (image_vars img) (image_presence img) = Ok tt /\
    image_revision img <> 0 /\ IsSubsetOf (image_features img) features = true.
Proof. exact (ParseChunkImage_sound data g coord store_id features img). Qed.

(** The image of a small chunk: two sections, the payload zero-run compressed. *)
Definition example_image : bytes :=
  Eval vm_compute in
  match SerializeChunkImage example_geometry {| cx := -1; cy := 2 |} (replicate 512 7) (replicate 32 255) kZrle 9 1000
          (replicate 16 3) None with Ok b => b | Err _ => [] end.

Lemma parse_image_sound_witness : exists img : ChunkStateImage,
  ParseChunkImage example_image example_geometry {| cx := -1; cy := 2 |} (replicate 16 3) no_features = Ok img /\
  exists l, LayoutFresh example_geometry (image_schema_version img) = Ok l /\ len (image_payload img) = payload_bytes_ l.
Proof.
  eexists. split; [vm_compute; reflexivity|].
  destruct (parse_image_sound example_image example_geometry {| cx := -1; cy := 2 |} (replicate 16 3) no_features
    {| image_payload := replicate 512 7; image_presence := replicate 32 255; image_revision := 9;
       image_commit_time_ms := 1000; image_features := no_features; image_vars := Vars.no_vars; image_schema_version := 1 |})
    as (l & Hl & _ & _ & Hp & _).
  - exact example_geometry_ok.
  - apply (bool_decide_unpack _). vm_compute. exact I.
  - vm_compute. reflexivity.
  - exists l. split; [exact Hl|exact Hp].
Defined.

End ChunkFormat.
