(* ===== verification/WalFrame.v ===== *)
(** * Write-ahead log frames (src/src/wal_writer.cpp, src/src/wal_replay.cpp)

    A frame is one mutation: a fixed header, a TLV area (tag, schema version,
    user), a checksum over both, the records, and a checksum over the records.
    WalFrameBuilder stages a frame at the end of a batch; ParseFrame reads and
    validates one whole frame before anything of it is applied; the header of
    a WAL file is validated by ValidateWalHeader. *)
From stdpp Require Import prelude strings gmap.
From Stdlib Require Import ZArith Lia.
From S2P Require Import Prelude Bits BitCodec Crc32 Vars Columns Schema Layout Geometry Features LittleEndian ChunkFormat.

#[local] Open Scope Z_scope.

Module WalFrame.
Import Columns Schema Layout Geometry Features LittleEndian ChunkFormat.

(** ** Constants *)

Definition kWalFrameMagicSize : Z := 4.
Definition kWalFrameMagic : bytes := str "FRM2".
Definition kWalFrameFixedHeaderSize : Z := kWalFrameMagicSize + 8 + 8 + 2 + 2 + 4 + 4.
Definition kWalFrameHeaderCrcSize : Z := 4.
Definition kWalFrameTrailerSize : Z := 4.
Definition kWalFrameGc : Z := 1.
Definition kWalRecordHeaderSize : Z := 1 + 4.
Definition kWalRecordSpan : Z := 1.
Definition kWalSpanOffsetSize : Z := 4.
Definition kWalRecordVarPut : Z := 2.
Definition kWalRecordVarDel : Z := 3.
Definition kWalRecordVarReplace : Z := 4.
Definition kWalTlvHeaderSize : Z := 4.
Definition kWalTlvTag : Z := 1.
Definition kWalTlvSchema : Z := 2.
Definition kWalTlvUser : Z := 3.

(** [std::numeric_limits<std::uint16_t>::max()] and [<std::uint32_t>]. *)
Definition max_u16 : Z := 2 ^ 16 - 1.
Definition max_u32 : Z := 2 ^ 32 - 1.

(** ** Staging a frame *)

(** The builder; [batch_] is the caller's batch, which the builder appends to. *)
Record WalFrameBuilder := {
  batch_ : bytes;
  header_index_ : Z;
  records_begin_ : Z;
  tlv_size_ : Z;
  frame_flags_ : Z;
  record_count_ : Z;
  finished_ : bool;
  has_var_replace_ : bool;
  last_var_key_ : option Vars.VarKey
}.

(** One TLV entry of the header, or nothing for an absent field. *)
Definition AppendTlv (present : bool) (type : Z) (value : bytes) : bytes :=
  if present then WriteLe16 type ++ WriteLe16 (u16 (len value)) ++ value else [].

Definition MakeWalFrameBuilder (batch : bytes) (schema_version : Z) (tag : bytes) (user : option bytes) (gc : bool)
    : res WalFrameBuilder :=
  _ ← throw_if (max_u16 - 2 * kWalTlvHeaderSize - 8 <? len tag) (invalid_argument "WAL frame tag is too long");
  let user_size := match user with Some u => len u | None => 0 end in
  _ ← throw_if (max_u16 <? user_size) (invalid_argument "WAL frame user is too long");
  let has_tag := negb (bool_decide (tag = [])) in
  let has_schema := 1 <? schema_version in
  let has_user := negb (user_size =? 0) in
  let tlv_bytes := (if has_tag then kWalTlvHeaderSize + len tag else 0) +
                   (if has_schema then kWalTlvHeaderSize + 8 else 0) +
                   (if has_user then kWalTlvHeaderSize + user_size else 0) in
  _ ← throw_if (max_u16 <? tlv_bytes) (invalid_argument "WAL frame TLV area is too long");
  let batch1 := batch ++ zeros kWalFrameFixedHeaderSize ++ AppendTlv has_tag kWalTlvTag tag ++
                AppendTlv has_schema kWalTlvSchema (WriteLe64 schema_version) ++
                AppendTlv has_user kWalTlvUser (default [] user) ++ zeros kWalFrameHeaderCrcSize in
  let tlv_size := if has_tag then u16 (kWalTlvHeaderSize + len tag) else 0 in
  let tlv_size := if has_schema then u16 (tlv_size + kWalTlvHeaderSize + 8) else tlv_size in
  let tlv_size := if has_user then u16 (tlv_size + kWalTlvHeaderSize + user_size) else tlv_size in
  Ok {| batch_ := batch1; header_index_ := len batch; records_begin_ := len batch1; tlv_size_ := tlv_size;
        frame_flags_ := if gc then kWalFrameGc else 0; record_count_ := 0; finished_ := false;
        has_var_replace_ := false; last_var_key_ := None |}.

(** Room for records; only the guards have an effect on the result.
    [max_size] is [batch_->max_size()]. *)
Definition Reserve (max_size : Z) (b : WalFrameBuilder) (record_bytes : Z) : res WalFrameBuilder :=
  _ ← throw_if (finished_ b) (logic_error "WAL frame already finished");
  _ ← throw_if (max_size - len (batch_ b) - kWalFrameTrailerSize <? record_bytes) (invalid_argument "WAL frame too large");
  Ok b.

Definition SpanRecordBytes (size : Z) : Z := kWalRecordHeaderSize + kWalSpanOffsetSize + size.

Definition VarUpdateRecordBytes (vars : Vars.ChunkVars) (undo : Vars.VarUndo) : Z :=
  if Vars.replaced undo then kWalRecordHeaderSize + Vars.encoded_size vars
  else
    fold_left (fun n key =>
        n + (kWalRecordHeaderSize +
             match Vars.Find vars key with
             | Some value => Vars.kVarEntryHeaderBytes + len value
             | None => 8
             end)) (Vars.keys undo) 0.

(** The builder after [more] was appended as one record. *)
Definition add_record (b : WalFrameBuilder) (more : bytes) : WalFrameBuilder :=
  {| batch_ := batch_ b ++ more; header_index_ := header_index_ b; records_begin_ := records_begin_ b;
     tlv_size_ := tlv_size_ b; frame_flags_ := frame_flags_ b; record_count_ := record_count_ b + 1;
     finished_ := finished_ b; has_var_replace_ := has_var_replace_ b; last_var_key_ := last_var_key_ b |}.

Definition AppendSpan (b : WalFrameBuilder) (byte_offset : Z) (data : bytes) : res WalFrameBuilder :=
  _ ← throw_if (finished_ b) (logic_error "WAL frame already finished");
  _ ← throw_if (bool_decide (data = [])) (invalid_argument "WAL delta payload must not be empty");
  _ ← throw_if ((max_u32 - kWalSpanOffsetSize <? len data) || (max_u32 - byte_offset <? len data))
        (invalid_argument "WAL span too large");
  _ ← throw_if (max_u32 <=? record_count_ b) (invalid_argument "WAL frame record count overflow");
  Ok (add_record b ([kWalRecordSpan] ++ WriteLe32 (u32 (kWalSpanOffsetSize + len data)) ++ WriteLe32 byte_offset ++ data)).

(** The record's type and size; the caller appends its body. *)
Definition BeginRecord (b : WalFrameBuilder) (type body_size : Z) : res WalFrameBuilder :=
  _ ← throw_if (finished_ b) (logic_error "WAL frame already finished");
  _ ← throw_if (max_u32 <? body_size) (invalid_argument "WAL record too large");
  _ ← throw_if (max_u32 <=? record_count_ b) (invalid_argument "WAL frame record count overflow");
  Ok (add_record b ([type] ++ WriteLe32 (u32 body_size))).

Definition append_body (b : WalFrameBuilder) (body : bytes) : WalFrameBuilder :=
  {| batch_ := batch_ b ++ body; header_index_ := header_index_ b; records_begin_ := records_begin_ b;
     tlv_size_ := tlv_size_ b; frame_flags_ := frame_flags_ b; record_count_ := record_count_ b;
     finished_ := finished_ b; has_var_replace_ := has_var_replace_ b; last_var_key_ := last_var_key_ b |}.

Definition RequireVarOrder (b : WalFrameBuilder) (key : Vars.VarKey) : res WalFrameBuilder :=
  _ ← throw_if (has_var_replace_ b ||
                match last_var_key_ b with Some k => Vars.packed key <=? Vars.packed k | None => false end)
        (logic_error "value records of a WAL frame out of order");
  Ok {| batch_ := batch_ b; header_index_ := header_index_ b; records_begin_ := records_begin_ b;
        tlv_size_ := tlv_size_ b; frame_flags_ := frame_flags_ b; record_count_ := record_count_ b;
        finished_ := finished_ b; has_var_replace_ := has_var_replace_ b; last_var_key_ := Some key |}.

Definition AppendVarPut (b : WalFrameBuilder) (key : Vars.VarKey) (value : bytes) : res WalFrameBuilder :=
  b ← RequireVarOrder b key;
  b ← BeginRecord b kWalRecordVarPut (Vars.kVarEntryHeaderBytes + len value);
  Ok (append_body b (WriteLe32 (Vars.column_id key) ++ WriteLe32 (Vars.block_index key) ++
                     WriteLe32 (u32 (len value)) ++ value)).

Definition AppendVarDel (b : WalFrameBuilder) (key : Vars.VarKey) : res WalFrameBuilder :=
  b ← RequireVarOrder b key;
  b ← BeginRecord b kWalRecordVarDel 8;
  Ok (append_body b (WriteLe32 (Vars.column_id key) ++ WriteLe32 (Vars.block_index key))).

Definition AppendVarReplace (b : WalFrameBuilder) (vars : Vars.ChunkVars) : res WalFrameBuilder :=
  _ ← throw_if (has_var_replace_ b || match last_var_key_ b with Some _ => true | None => false end)
        (logic_error "value records of a WAL frame out of order");
  let b := {| batch_ := batch_ b; header_index_ := header_index_ b; records_begin_ := records_begin_ b;
              tlv_size_ := tlv_size_ b; frame_flags_ := frame_flags_ b; record_count_ := record_count_ b;
              finished_ := finished_ b; has_var_replace_ := true; last_var_key_ := last_var_key_ b |} in
  b ← BeginRecord b kWalRecordVarReplace (Vars.encoded_size vars);
  Ok (append_body b (Vars.Encode vars)).

Definition AppendVarUpdate (b : WalFrameBuilder) (vars : Vars.ChunkVars) (undo : Vars.VarUndo) : res WalFrameBuilder :=
  if Vars.replaced undo then AppendVarReplace b vars
  else
    fold_res (fun b key => match Vars.Find vars key with
                           | Some value => AppendVarPut b key value
                           | None => AppendVarDel b key
                           end) b (Vars.keys undo).

(** The finished builder, and the bytes the frame added to the batch. *)
Definition Finish (b : WalFrameBuilder) (revision commit_time_ms : Z) : res (WalFrameBuilder * Z) :=
  _ ← throw_if (finished_ b) (logic_error "WAL frame already finished");
  _ ← throw_if (record_count_ b =? 0) (invalid_argument "WAL frame must contain at least one record");
  let body_size := len (batch_ b) - records_begin_ b in
  _ ← throw_if (max_u32 <? body_size) (invalid_argument "WAL frame body too large");
  let header := kWalFrameMagic ++ WriteLe64 revision ++ WriteLe64 commit_time_ms ++ WriteLe16 (frame_flags_ b) ++
                WriteLe16 (tlv_size_ b) ++ WriteLe32 (u32 (record_count_ b)) ++ WriteLe32 (u32 body_size) in
  let batch := splice (batch_ b) (header_index_ b) header in
  let crc_at := records_begin_ b - kWalFrameHeaderCrcSize in
  let header_crc := Crc32.Crc32 (slice batch (header_index_ b + kWalFrameMagicSize)
                                   (crc_at - header_index_ b - kWalFrameMagicSize)) in
  let batch := splice batch crc_at (map (fun i => u8 (Z.land (Z.shiftr header_crc (8 * i)) 255)) (seqZ 0 4)) in
  let batch := batch ++ WriteLe32 (Crc32.Crc32 (slice batch (records_begin_ b) body_size)) in
  Ok ({| batch_ := batch; header_index_ := header_index_ b; records_begin_ := records_begin_ b;
         tlv_size_ := tlv_size_ b; frame_flags_ := frame_flags_ b; record_count_ := record_count_ b;
         finished_ := true; has_var_replace_ := has_var_replace_ b; last_var_key_ := last_var_key_ b |},
      len batch - header_index_ b).

(** ** The header of a WAL file *)

Definition ValidateWalHeader (data : bytes) (expected : ChunkCoord) (store_id : bytes) (store_features : FeatureFlags)
    : res unit :=
  _ ← throw_if (len data <? kWalHeaderSize) (runtime_error "WAL file too small");
  _ ← throw_if (negb (bool_decide (slice data 0 kWalMagicSize = kWalMagic))) (runtime_error "not a 2.0 WAL (bad magic)");
  _ ← throw_if (negb (ReadLe32 data (kWalHeaderSize - 4) =? Crc32.Crc32 (slice data 0 (kWalHeaderSize - 4))))
        (runtime_error "WAL header checksum mismatch");
  _ ← throw_if (negb (ReadLe16 data 8 =? kWalFormatVersion)) (runtime_error "unsupported WAL version");
  _ ← throw_if (negb (ReadLe16 data 10 =? 0)) (runtime_error "WAL header reserved field is not zero");
  let features := {| incompat := ReadLe32 data 12; ro_compat := ReadLe32 data 16; compat := ReadLe32 data 20 |} in
  _ ← throw_if (negb (IsSubsetOf features store_features)) (runtime_error "WAL uses features the store does not");
  _ ← throw_if (negb (bool_decide (slice data 24 (len store_id) = store_id))) (runtime_error "WAL belongs to another store");
  throw_if (negb (i64 (ReadLe64 data 40) =? cx expected) || negb (i64 (ReadLe64 data 48) =? cy expected))
    (runtime_error "WAL chunk coordinate mismatch").

(** ** Reading a frame *)

(** A step of the parser: goes on, or stops with a reason; the layout of a
    version the table lacks throws through it. *)
Inductive outcome (A : Type) := Go (a : A) | Stop (reason : string).
Arguments Go {A} a.
Arguments Stop {A} reason.

Definition parser (A : Type) : Type := res (outcome A).
#[global] Instance parser_ret : MRet parser := fun A a => Ok (Go a).
#[global] Instance parser_bind : MBind parser :=
  fun A B f m => match m with
                 | Ok (Go a) => f a
                 | Ok (Stop reason) => Ok (Stop reason)
                 | Err e => Err e
                 end.

Definition stop {A} (reason : string) : parser A := Ok (Stop reason).
Definition stop_if (b : bool) (reason : string) : parser unit := if b then stop reason else mret tt.
Definition lift {A} (r : res A) : parser A := match r with Ok a => Ok (Go a) | Err e => Err e end.

Lemma parser_bind_go {A B} (m : parser A) (f : A -> parser B) b : (m ≫= f) = Ok (Go b) ->
  exists a, m = Ok (Go a) /\ f a = Ok (Go b).
Proof. destruct m as [[a|]|]; cbn; try discriminate. by exists a. Qed.

Lemma stop_if_go b reason u : stop_if b reason = Ok (Go u) -> b = false.
Proof. by destruct b. Qed.

Lemma lift_go {A} (r : res A) a : lift r = Ok (Go a) -> r = Ok a.
Proof. destruct r; cbn; [by intros [= ->]|discriminate]. Qed.

(** Breaks a hypothesis that a parser went on into its steps. *)
Ltac parse_inv :=
  repeat match goal with
  | H : (_ ≫= _) = Ok (Go _) |- _ =>
      apply parser_bind_go in H; let a := fresh "a" in let Ha := fresh "Hs" in destruct H as (a & Ha & H)
  | H : stop_if _ _ = Ok (Go _) |- _ => apply stop_if_go in H
  | H : lift _ = Ok (Go _) |- _ => apply lift_go in H
  | H : mret _ = Ok (Go _) |- _ => injection H as H
  end.

Definition SpanShapeValid (byte_offset end_ payload_boundary state_size : Z) : bool :=
  let wholly_in_payload := end_ <=? payload_boundary in
  let wholly_in_presence := payload_boundary <=? byte_offset in
  let full_state_span := (byte_offset =? 0) && (end_ =? state_size) in
  wholly_in_payload || wholly_in_presence || full_state_span.

Record PendingSpan := { span_offset : Z; span_source : Z; span_size : Z }.
Record PendingVar := { var_put : bool; var_key : Vars.VarKey; var_length : Z; var_source : Z }.

Record ParsedFrame := {
  frame_revision : Z;
  frame_schema_version : Z;
  frame_commit_time_ms : Z;
  frame_user : option bytes;
  frame_gc : bool;
  frame_size : Z;
  frame_spans : list PendingSpan;
  frame_var_ops : list PendingVar;
  frame_var_replace : option Vars.ChunkVars;
  frame_record_count : Z
}.

Record FrameShape := {
  payload_boundary : Z;
  state_size : Z;
  shape_block_count : Z;
  vars_enabled : bool;
  may_skip_unknown : bool
}.

(** The records read so far: the spans, the value operations and the
    replacement of a ParsedFrame. *)
Record Records := {
  rec_spans : list PendingSpan;
  rec_var_ops : list PendingVar;
  rec_var_replace : option Vars.ChunkVars
}.

Definition ParseVarRecord (wal : bytes) (type body_at size : Z) (shape : FrameShape) (rs : Records) : parser Records :=
  _ ← stop_if (negb (vars_enabled shape)) "record_vars_without_columns";
  _ ← stop_if (match rec_var_replace rs with Some _ => true | None => false end) "record_vars_order";
  if type =? kWalRecordVarReplace then
    _ ← stop_if (negb (bool_decide (length (rec_var_ops rs) = 0%nat))) "record_vars_order";
    match Vars.Decode (slice wal body_at size) (shape_block_count shape) with
    | Ok vars => mret {| rec_spans := rec_spans rs; rec_var_ops := rec_var_ops rs; rec_var_replace := Some vars |}
    | Err (invalid_argument _) => stop "record_vars_invalid"
    | Err e => Err e
    end
  else
    let put := type =? kWalRecordVarPut in
    _ ← stop_if (if put then size <? Vars.kVarEntryHeaderBytes else negb (size =? 8)) "record_vars_invalid";
    let key := {| Vars.column_id := ReadLe32 wal body_at; Vars.block_index := ReadLe32 wal (body_at + 4) |} in
    _ ← stop_if (shape_block_count shape <=? Vars.block_index key) "record_out_of_range";
    _ ← stop_if (match last (rec_var_ops rs) with
                 | Some op => Vars.packed key <=? Vars.packed (var_key op)
                 | None => false
                 end) "record_vars_order";
    let length := if put then ReadLe32 wal (body_at + 8) else 0 in
    let source := if put then body_at + Vars.kVarEntryHeaderBytes else 0 in
    _ ← stop_if (put && negb (size =? Vars.kVarEntryHeaderBytes + length)) "record_vars_invalid";
    mret {| rec_spans := rec_spans rs;
            rec_var_ops := rec_var_ops rs ++
              [{| var_put := put; var_key := key; var_length := length; var_source := source |}];
            rec_var_replace := rec_var_replace rs |}.

(** What the TLV loop has read. *)
Record Tlvs := {
  have_tag : bool;
  have_schema : bool;
  have_user : bool;
  tlv_user : option bytes;
  tlv_schema_version : Z
}.

Definition ParseTlv (wal : bytes) (at_ type length : Z) (may_skip_unknown slots_enabled : bool) (t : Tlvs) : parser Tlvs :=
  if type =? kWalTlvTag then
    _ ← stop_if (have_tag t || (length =? 0)) (if have_tag t then "tlv_duplicate_tag" else "tlv_empty_tag");
    mret {| have_tag := true; have_schema := have_schema t; have_user := have_user t; tlv_user := tlv_user t;
            tlv_schema_version := tlv_schema_version t |}
  else if type =? kWalTlvSchema then
    _ ← stop_if (have_schema t || negb (length =? 8)) "tlv_schema_invalid";
    mret {| have_tag := have_tag t; have_schema := true; have_user := have_user t; tlv_user := tlv_user t;
            tlv_schema_version := ReadLe64 wal (at_ + kWalTlvHeaderSize) |}
  else if type =? kWalTlvUser then
    _ ← stop_if (negb slots_enabled || have_user t || (length =? 0))
          (if negb slots_enabled then "tlv_user_without_slots"
           else if have_user t then "tlv_duplicate_user" else "tlv_empty_user");
    mret {| have_tag := have_tag t; have_schema := have_schema t; have_user := true;
            tlv_user := Some (slice wal (at_ + kWalTlvHeaderSize) length); tlv_schema_version := tlv_schema_version t |}
  else
    _ ← stop_if (negb may_skip_unknown) "tlv_unknown_type";
    mret t.

(** The TLV loop; every turn takes at least an entry header. *)
Fixpoint ParseTlvs (fuel : nat) (wal : bytes) (at_ crc_at : Z) (may_skip_unknown slots_enabled : bool) (t : Tlvs)
    : parser Tlvs :=
  if at_ <? crc_at then
    match fuel with
    | O => Err out_of_fuel
    | S fuel' =>
        _ ← stop_if (crc_at - at_ <? kWalTlvHeaderSize) "tlv_out_of_frame";
        let type := ReadLe16 wal at_ in
        let length := ReadLe16 wal (at_ + 2) in
        _ ← stop_if (crc_at - at_ - kWalTlvHeaderSize <? length) "tlv_out_of_frame";
        t ← ParseTlv wal at_ type length may_skip_unknown slots_enabled t;
        ParseTlvs fuel' wal (at_ + (kWalTlvHeaderSize + length)) crc_at may_skip_unknown slots_enabled t
    end
  else mret t.

(** The record's effect on what was read, by its type. *)
Definition ParseRecordBody (wal : bytes) (type body_at size : Z) (shape : FrameShape) (rs : Records) : parser Records :=
  if type =? kWalRecordSpan then
    _ ← stop_if (size <=? kWalSpanOffsetSize) "record_span_empty";
    let offset := ReadLe32 wal body_at in
    let data_size := size - kWalSpanOffsetSize in
    _ ← stop_if ((state_size shape <? offset) || (state_size shape - offset <? data_size)) "record_out_of_range";
    _ ← stop_if (negb (SpanShapeValid offset (offset + data_size) (payload_boundary shape) (state_size shape)))
          "record_region_straddle";
    mret {| rec_spans := rec_spans rs ++
              [{| span_offset := offset; span_source := body_at + kWalSpanOffsetSize; span_size := data_size |}];
            rec_var_ops := rec_var_ops rs; rec_var_replace := rec_var_replace rs |}
  else if (type =? kWalRecordVarPut) || (type =? kWalRecordVarDel) || (type =? kWalRecordVarReplace) then
    ParseVarRecord wal type body_at size shape rs
  else
    _ ← stop_if (negb (may_skip_unknown shape)) "record_unknown_type";
    mret rs.

(** One record at [at_]: the records so far with it, and where it ends. *)
Definition ParseRecord (wal : bytes) (records_end : Z) (shape : FrameShape) (st : Records * Z) : parser (Records * Z) :=
  let '(rs, at_) := st in
  _ ← stop_if (records_end - at_ <? kWalRecordHeaderSize) "record_out_of_frame";
  let type := byte_at wal at_ in
  let size := ReadLe32 wal (at_ + 1) in
  let body_at := at_ + kWalRecordHeaderSize in
  _ ← stop_if (records_end - body_at <? size) "record_out_of_frame";
  rs ← ParseRecordBody wal type body_at size shape rs;
  mret (rs, body_at + size).

Fixpoint ParseRecords (count : nat) (wal : bytes) (records_end : Z) (shape : FrameShape) (st : Records * Z)
    : parser (Records * Z) :=
  match count with
  | O => mret st
  | S count' => st ← ParseRecord wal records_end shape st; ParseRecords count' wal records_end shape st
  end.

(** A collection marker resets the complete state to empty and does nothing else. *)
Definition EmptyReset (wal : bytes) (shape : FrameShape) (t : Tlvs) (rs : Records) (record_count : Z) : bool :=
  negb (have_tag t) && (record_count =? if vars_enabled shape then 3 else 2) &&
  bool_decide (length (rec_var_ops rs) = 0%nat) &&
  match rec_var_replace rs with
  | Some v => vars_enabled shape && bool_decide (length (Vars.offsets_ v) = 0%nat)
  | None => negb (vars_enabled shape)
  end &&
  match rec_spans rs with
  | [payload; presence] =>
      (span_offset payload =? 0) && (span_size payload =? payload_boundary shape) &&
      (span_offset presence =? payload_boundary shape) &&
      (span_size presence =? state_size shape - payload_boundary shape) &&
      forallb (fun span => forallb (Z.eqb 0) (slice wal (span_source span) (span_size span))) [payload; presence]
  | _ => false
  end.

Definition has_var_columns (l : ChunkLayout) : bool := negb (bool_decide (var_by_id_ l = ∅)).

Definition ShapeOf (g : Geometry) (l : ChunkLayout) (may_skip_unknown : bool) : FrameShape :=
  {| payload_boundary := payload_bytes_ l; state_size := payload_bytes_ l + ChunkPresenceBitmapBytes g;
     shape_block_count := block_count_ l; vars_enabled := has_var_columns l; may_skip_unknown := may_skip_unknown |}.

(** The content of a frame whose checksums hold: everything ParseFrame does once [intact] is set. *)
Definition ParseContent (wal : bytes) (cursor : Z) (g : Geometry) (may_skip_unknown slots_enabled : bool)
    : parser ParsedFrame :=
  let frame_flags := ReadLe16 wal (cursor + 20) in
  let tlv_size := ReadLe16 wal (cursor + 22) in
  let record_count := ReadLe32 wal (cursor + 24) in
  let body_size := ReadLe32 wal (cursor + 28) in
  let header_size := kWalFrameFixedHeaderSize + tlv_size + kWalFrameHeaderCrcSize in
  let crc_at := cursor + kWalFrameFixedHeaderSize + tlv_size in
  let records_begin := cursor + header_size in
  let records_end := records_begin + body_size in
  _ ← stop_if (negb (Z.land frame_flags (Z.lnot kWalFrameGc) =? 0) || (negb (frame_flags =? 0) && negb slots_enabled))
        "frame_flags_unknown";
  _ ← stop_if (record_count =? 0) "frame_empty";
  let gc := negb (Z.land frame_flags kWalFrameGc =? 0) in
  t ← ParseTlvs (Z.to_nat tlv_size) wal (cursor + kWalFrameFixedHeaderSize) crc_at may_skip_unknown slots_enabled
        {| have_tag := false; have_schema := false; have_user := false; tlv_user := None; tlv_schema_version := 1 |};
  _ ← stop_if ((tlv_schema_version t =? 0) || (version (schema_ (layout_ g)) <? tlv_schema_version t)) "frame_schema_version";
  l ← lift (LayoutFresh g (tlv_schema_version t));
  let shape := ShapeOf g l may_skip_unknown in
  '(rs, at_) ← ParseRecords (Z.to_nat record_count) wal records_end shape
                 ({| rec_spans := []; rec_var_ops := []; rec_var_replace := None |}, records_begin);
  _ ← stop_if (negb (at_ =? records_end)) "frame_body_size_mismatch";
  _ ← stop_if (gc && negb (EmptyReset wal shape t rs record_count)) "frame_gc_invalid";
  mret {| frame_revision := ReadLe64 wal (cursor + 4); frame_schema_version := tlv_schema_version t;
          frame_commit_time_ms := ReadLe64 wal (cursor + 12); frame_user := tlv_user t; frame_gc := gc;
          frame_size := header_size + body_size + kWalFrameTrailerSize; frame_spans := rec_spans rs;
          frame_var_ops := rec_var_ops rs; frame_var_replace := rec_var_replace rs; frame_record_count := record_count |}.

(** What ParseFrame returns: a frame, or why it stopped with [*reaches_end] and [*intact]. *)
Inductive FrameResult :=
| FrameOk (frame : ParsedFrame)
| FrameStop (reason : string) (reaches_end intact : bool).

Definition ParseFrame (wal : bytes) (cursor : Z) (g : Geometry) (may_skip_unknown slots_enabled : bool) : res FrameResult :=
  let remaining := len wal - cursor in
  if remaining <? kWalFrameFixedHeaderSize then Ok (FrameStop "partial_frame_header" true false)
  else if negb (bool_decide (slice wal cursor kWalFrameMagicSize = kWalFrameMagic)) then
    Ok (FrameStop "frame_magic_mismatch" false false)
  else
    let tlv_size := ReadLe16 wal (cursor + 22) in
    let body_size := ReadLe32 wal (cursor + 28) in
    let header_size := kWalFrameFixedHeaderSize + tlv_size + kWalFrameHeaderCrcSize in
    if remaining <? header_size then Ok (FrameStop "partial_frame_header" true false)
    else
      let crc_at := cursor + kWalFrameFixedHeaderSize + tlv_size in
      if negb (Crc32.Crc32 (slice wal (cursor + kWalFrameMagicSize) (crc_at - cursor - kWalFrameMagicSize)) =?
               ReadLe32 wal crc_at) then
        Ok (FrameStop "frame_header_crc_mismatch" false false)
      else
        let total := header_size + body_size + kWalFrameTrailerSize in
        let reaches_end := remaining <=? total in
        if remaining <? total then Ok (FrameStop "partial_frame_body" reaches_end false)
        else
          let records_begin := cursor + header_size in
          let records_end := records_begin + body_size in
          if negb (Crc32.Crc32 (slice wal records_begin body_size) =? ReadLe32 wal records_end) then
            Ok (FrameStop "frame_crc_mismatch" reaches_end false)
          else
            match ParseContent wal cursor g may_skip_unknown slots_enabled with
            | Ok (Go frame) => Ok (FrameOk frame)
            | Ok (Stop reason) => Ok (FrameStop reason reaches_end true)
            | Err e => Err e
            end.

(** ** Frames as data *)

(** A record: bytes written into the state, or a change of its values. *)
Inductive wal_record :=
| RSpan (offset : Z) (data : bytes)
| RVarPut (key : Vars.VarKey) (value : bytes)
| RVarDel (key : Vars.VarKey)
| RVarReplace (vars : Vars.ChunkVars).

Definition record_type (r : wal_record) : Z :=
  match r with
  | RSpan _ _ => kWalRecordSpan
  | RVarPut _ _ => kWalRecordVarPut
  | RVarDel _ => kWalRecordVarDel
  | RVarReplace _ => kWalRecordVarReplace
  end.

Definition record_body (r : wal_record) : bytes :=
  match r with
  | RSpan offset data => le_bytes 4 offset ++ data
  | RVarPut key value => Vars.encode_entry (key, value)
  | RVarDel key => le_bytes 4 (Vars.column_id key) ++ le_bytes 4 (Vars.block_index key)
  | RVarReplace vars => Vars.Encode vars
  end.

Definition record_bytes (r : wal_record) : bytes :=
  [record_type r] ++ le_bytes 4 (len (record_body r)) ++ record_body r.

(** One mutation. *)
Record frame_t := {
  fr_revision : Z;
  fr_time : Z;
  fr_version : Z;
  fr_tag : bytes;
  fr_user : option bytes;
  fr_gc : bool;
  fr_records : list wal_record
}.

Definition tlv (type : Z) (value : bytes) : bytes := le_bytes 2 type ++ le_bytes 2 (len value) ++ value.

Definition frame_tlvs (f : frame_t) : bytes :=
  (if bool_decide (fr_tag f = []) then [] else tlv kWalTlvTag (fr_tag f)) ++
  (if 1 <? fr_version f then tlv kWalTlvSchema (le_bytes 8 (fr_version f)) else []) ++
  (if bool_decide (default [] (fr_user f) = []) then [] else tlv kWalTlvUser (default [] (fr_user f))).

Definition frame_body (f : frame_t) : bytes := concat (record_bytes <$> fr_records f).

(** The fixed header after the magic. *)
Definition frame_fixed (f : frame_t) : bytes :=
  le_bytes 8 (fr_revision f) ++ le_bytes 8 (fr_time f) ++ le_bytes 2 (if fr_gc f then kWalFrameGc else 0) ++
  le_bytes 2 (len (frame_tlvs f)) ++ le_bytes 4 (len (fr_records f)) ++ le_bytes 4 (len (frame_body f)).

Definition frame_bytes (f : frame_t) : bytes :=
  kWalFrameMagic ++ frame_fixed f ++ frame_tlvs f ++ le_bytes 4 (Crc32.Crc32 (frame_fixed f ++ frame_tlvs f)) ++
  frame_body f ++ le_bytes 4 (Crc32.Crc32 (frame_body f)).

(** The calls that stage a mutation. *)
Definition AppendRecord (b : WalFrameBuilder) (r : wal_record) : res WalFrameBuilder :=
  match r with
  | RSpan offset data => AppendSpan b offset data
  | RVarPut key value => AppendVarPut b key value
  | RVarDel key => AppendVarDel b key
  | RVarReplace vars => AppendVarReplace b vars
  end.

Definition BuildFrame (batch : bytes) (f : frame_t) : res (WalFrameBuilder * Z) :=
  b ← MakeWalFrameBuilder batch (fr_version f) (fr_tag f) (fr_user f) (fr_gc f);
  b ← fold_res AppendRecord b (fr_records f);
  Finish b (fr_revision f) (fr_time f).

(** The order of value records: the last key so far and whether they were replaced. *)
Definition order_step (st : option Vars.VarKey * bool) (r : wal_record) : option (option Vars.VarKey * bool) :=
  match r with
  | RSpan _ _ => Some st
  | RVarPut key _ | RVarDel key =>
      if st.2 || match st.1 with Some k => Vars.packed key <=? Vars.packed k | None => false end then None
      else Some (Some key, false)
  | RVarReplace _ => if st.2 || bool_decide (is_Some st.1) then None else Some (None, true)
  end.

Fixpoint in_order (st : option Vars.VarKey * bool) (rs : list wal_record) : Prop :=
  match rs with
  | [] => True
  | r :: rs' => match order_step st r with Some st' => in_order st' rs' | None => False end
  end.

(** The sizes the format can hold. *)
Definition record_sized (r : wal_record) : Prop :=
  len (record_body r) < 2 ^ 32 /\
  match r with
  | RSpan offset data => data <> [] /\ 0 <= offset /\ offset + len data < 2 ^ 32
  | _ => True
  end.

Record frame_sized (f : frame_t) : Prop := {
  fs_tag : len (fr_tag f) <= max_u16 - 2 * kWalTlvHeaderSize - 8;
  fs_user : len (default [] (fr_user f)) <= max_u16;
  fs_tlvs : len (frame_tlvs f) < 2 ^ 16;
  fs_some : fr_records f <> [];
  fs_count : len (fr_records f) < 2 ^ 32;
  fs_body : len (frame_body f) < 2 ^ 32;
  fs_records : Forall record_sized (fr_records f);
  fs_order : in_order (None, false) (fr_records f)
}.

(** ** The builder writes the frame *)

(** The builder once some records were appended. *)
Definition builder_at (batch : bytes) (f : frame_t) (done : list wal_record) (st : option Vars.VarKey * bool)
    : WalFrameBuilder :=
  {| batch_ := batch ++ zeros kWalFrameFixedHeaderSize ++ frame_tlvs f ++ zeros kWalFrameHeaderCrcSize ++
               concat (record_bytes <$> done);
     header_index_ := len batch;
     records_begin_ := len batch + kWalFrameFixedHeaderSize + len (frame_tlvs f) + kWalFrameHeaderCrcSize;
     tlv_size_ := len (frame_tlvs f); frame_flags_ := if fr_gc f then kWalFrameGc else 0;
     record_count_ := len done; finished_ := false; has_var_replace_ := st.2; last_var_key_ := st.1 |}.

Lemma len_tlv t v : len (tlv t v) = kWalTlvHeaderSize + len v.
Proof. unfold tlv. rewrite !length_app, !length_le_bytes. unfold kWalTlvHeaderSize. lia. Qed.

Lemma len_frame_tlvs f : len (frame_tlvs f) =
  (if bool_decide (fr_tag f = []) then 0 else kWalTlvHeaderSize + len (fr_tag f)) +
  (if 1 <? fr_version f then kWalTlvHeaderSize + 8 else 0) +
  (if bool_decide (default [] (fr_user f) = []) then 0 else kWalTlvHeaderSize + len (default [] (fr_user f))).
Proof.
  unfold frame_tlvs. rewrite !length_app, !Nat2Z.inj_add.
  destruct (bool_decide (fr_tag f = [])), (1 <? fr_version f), (bool_decide (default [] (fr_user f) = []));
    rewrite ?len_tlv, ?length_le_bytes; cbn [length]; lia.
Qed.

Lemma AppendTlv_ok present t v : len v < 2 ^ 16 -> AppendTlv present t v = if present then tlv t v else [].
Proof.
  intros H. unfold AppendTlv, tlv. destruct present; [|done]. rewrite !WriteLe16_bytes, wrap_small by (unfold in_u; lia). done.
Qed.

Lemma MakeWalFrameBuilder_ok batch f : frame_sized f ->
  MakeWalFrameBuilder batch (fr_version f) (fr_tag f) (fr_user f) (fr_gc f) = Ok (builder_at batch f [] (None, false)).
Proof.
  intros [Htag Huser Htlvs _ _ _ _ _]. unfold MakeWalFrameBuilder, builder_at.
  assert (match fr_user f with Some u => len u | None => 0 end = len (default [] (fr_user f))) as -> by (by destruct (fr_user f)).
  set (u := default [] (fr_user f)) in *. pose proof (len_frame_tlvs f) as L. fold u in L.
  pass_guard by (apply Z.ltb_ge; lia). pass_guard by (apply Z.ltb_ge; lia).
  assert (negb (len u =? 0) = negb (bool_decide (u = []))) as -> by (by destruct u).
  unfold max_u16, kWalTlvHeaderSize in *.
  assert ((if negb (bool_decide (fr_tag f = [])) then 4 + len (fr_tag f) else 0) + (if 1 <? fr_version f then 4 + 8 else 0) +
    (if negb (bool_decide (u = [])) then 4 + len u else 0) = len (frame_tlvs f)) as Et
    by (rewrite L; by destruct (bool_decide (fr_tag f = [])), (1 <? fr_version f), (bool_decide (u = []))).
  rewrite Et. pass_guard by (apply Z.ltb_ge; lia).
  rewrite !AppendTlv_ok by (rewrite ?WriteLe64_bytes, ?length_le_bytes; lia). rewrite WriteLe64_bytes.
  assert (forall (b : bool) (x : bytes), (if negb b then x else []) = if b then [] else x) as Hneg by (by intros []).
  rewrite !Hneg. f_equal. f_equal.
  - unfold frame_tlvs. fold u. cbn [fmap list_fmap concat]. by rewrite app_nil_r, <- !app_assoc.
  - unfold frame_tlvs. fold u. rewrite !length_app. unfold kWalFrameFixedHeaderSize, kWalFrameHeaderCrcSize, zeros. cbn [length replicate Z.to_nat].
    rewrite !length_replicate. unfold kWalFrameMagicSize. lia.
  - rewrite <- Et. destruct (bool_decide (fr_tag f = [])), (1 <? fr_version f), (bool_decide (u = [])); cbn [negb] in *;
      unwrap; lia.
Qed.

Lemma len_put key value : len (Vars.encode_entry (key, value)) = Vars.kVarEntryHeaderBytes + len value.
Proof. apply Vars.len_encode_entry. Qed.

Lemma AppendRecord_ok batch f l st st' r : record_sized r -> order_step st r = Some st' -> len l < max_u32 ->
  AppendRecord (builder_at batch f l st) r = Ok (builder_at batch f (l ++ [r]) st').
Proof.
  intros [Hsize Hr] Ho Hc.
  assert (forall st' more, more = record_bytes r ->
    add_record (builder_at batch f l st') more = builder_at batch f (l ++ [r]) st') as Hadd.
  { intros st1 more ->. unfold add_record, builder_at. cbn. f_equal; [|rewrite length_app; cbn; lia].
    rewrite fmap_app, concat_app. cbn [fmap list_fmap concat]. by rewrite app_nil_r, <- !app_assoc. }
  assert (forall st' body type, type = record_type r -> body = record_body r ->
    (b ← BeginRecord (builder_at batch f l st') type (len body); Ok (append_body b body)) =
    Ok (builder_at batch f (l ++ [r]) st')) as Hbegin.
  { intros st1 body type -> ->. unfold BeginRecord. cbn [builder_at finished_ record_count_].
    pass_guard by done. unfold max_u32 in *. pass_guard by (apply Z.ltb_ge; lia). pass_guard by (apply Z.leb_gt; lia).
    rewrite bind_Ok_l. f_equal. rewrite <- (Hadd st1 (record_bytes r) eq_refl).
    unfold append_body, add_record, record_bytes. rewrite WriteLe32_bytes, wrap_small by (unfold in_u; lia).
    f_equal. cbn [batch_]. by rewrite <- !app_assoc. }
  destruct r as [offset data|key value|key|vars]; cbn [AppendRecord record_body record_type order_step] in *.
  - destruct Hr as (Hne & H0 & Hend). injection Ho as <-. unfold AppendSpan. cbn [builder_at finished_ record_count_].
    rewrite length_app, length_le_bytes in Hsize. unfold max_u32, kWalSpanOffsetSize in *.
    pass_guard by done. pass_guard by (by apply bool_decide_false). pass_guard by (apply orb_false_iff; rewrite !Z.ltb_ge; lia).
    pass_guard by (apply Z.leb_gt; lia). f_equal. apply Hadd. unfold record_bytes. cbn [record_type record_body].
    rewrite !WriteLe32_bytes, wrap_small by (unfold in_u; lia). rewrite length_app, length_le_bytes. do 4 f_equal. lia.
  - unfold AppendVarPut, RequireVarOrder. cbn [builder_at has_var_replace_ last_var_key_].
    destruct (_ || _) eqn:E; [done|]. injection Ho as <-. pass_guard by done. rewrite bind_Ok_l.
    rewrite <- len_put with (key := key). rewrite len_put in Hsize. unfold Vars.kVarEntryHeaderBytes in Hsize.
    rewrite !WriteLe32_bytes, wrap_small by (unfold in_u; lia).
    apply orb_false_iff in E as [E _]. rewrite E. exact (Hbegin (Some key, false) _ _ eq_refl eq_refl).
  - unfold AppendVarDel, RequireVarOrder. cbn [builder_at has_var_replace_ last_var_key_].
    destruct (_ || _) eqn:E; [done|]. injection Ho as <-. pass_guard by done. rewrite bind_Ok_l, !WriteLe32_bytes.
    apply orb_false_iff in E as [E _]. rewrite E. exact (Hbegin (Some key, false) _ _ eq_refl eq_refl).
  - unfold AppendVarReplace. cbn [builder_at has_var_replace_ last_var_key_].
    destruct (_ || _) eqn:E; [done|]. injection Ho as <-. apply orb_false_iff in E as [E1 E2].
    destruct st as [[k|] b]; [done|]. pass_guard by (by rewrite E1). exact (Hbegin (None, true) _ _ eq_refl eq_refl).
Qed.

Lemma AppendRecords_ok batch f l2 : forall l1 st, Forall record_sized l2 -> in_order st l2 -> len (l1 ++ l2) < 2 ^ 32 ->
  exists st', fold_res AppendRecord (builder_at batch f l1 st) l2 = Ok (builder_at batch f (l1 ++ l2) st').
Proof.
  induction l2 as [|r l2 IH]; intros l1 st Hs Ho Hc; [exists st; by rewrite app_nil_r|].
  apply Forall_cons in Hs as [Hr Hs]. cbn [in_order] in Ho. destruct (order_step st r) as [st1|] eqn:E; [|done].
  cbn [fold_res]. rewrite length_app in Hc. cbn [length] in Hc.
  rewrite (AppendRecord_ok batch f l1 st st1 r) by (done || unfold max_u32; lia). rewrite bind_Ok_l.
  destruct (IH (l1 ++ [r]) st1) as (st2 & H); [done|done|rewrite !length_app; cbn; lia|].
  exists st2. rewrite H. by rewrite <- app_assoc.
Qed.

Lemma len_frame_fixed f : len (kWalFrameMagic ++ frame_fixed f) = kWalFrameFixedHeaderSize.
Proof. unfold frame_fixed. rewrite !length_app, !length_le_bytes. done. Qed.

Lemma crc_le crc : map (fun i => u8 (Z.land (Z.shiftr crc (8 * i)) 255)) (seqZ 0 4) = le_bytes 4 crc.
Proof. change (seqZ 0 4) with [0; 1; 2; 3]. cbn [map]. rewrite <- WriteLe32_bytes. unfold WriteLe32. by rewrite Z.shiftr_0_r. Qed.

Lemma Finish_ok batch f st : frame_sized f ->
  exists b, Finish (builder_at batch f (fr_records f) st) (fr_revision f) (fr_time f) = Ok (b, len (frame_bytes f)) /\
    batch_ b = batch ++ frame_bytes f.
Proof.
  intros [_ _ Htlv Hsome Hc Hb _ _]. unfold Finish. cbn [builder_at finished_ record_count_].
  pass_guard by done. pass_guard by (apply Z.eqb_neq; destruct (fr_records f); [done|cbn; lia]).
  cbn [builder_at batch_ records_begin_ header_index_ frame_flags_ tlv_size_ record_count_].
  fold (frame_body f). pose proof (len_frame_fixed f) as Lf. unfold kWalFrameHeaderCrcSize, kWalFrameMagicSize in *.
  assert (len (zeros kWalFrameFixedHeaderSize) = 32 /\ len (zeros 4) = 4) as [L1 L2] by done.
  change kWalFrameFixedHeaderSize with 32 in *.
  assert (len (batch ++ zeros 32 ++ frame_tlvs f ++ zeros 4 ++ frame_body f) -
    (len batch + 32 + len (frame_tlvs f) + 4) = len (frame_body f)) as Eb by (rewrite !length_app; lia).
  rewrite Eb. unfold max_u32. pass_guard by (apply Z.ltb_ge; lia).
  rewrite !WriteLe64_bytes, !WriteLe16_bytes, !WriteLe32_bytes, !wrap_small by (unfold in_u; lia). fold (frame_fixed f).
  set (fx := kWalFrameMagic ++ frame_fixed f) in *.
  rewrite (splice_app batch (zeros 32) fx) by (done || lia).
  set (body := frame_body f) in *. set (tl := frame_tlvs f) in *.
  assert (slice (batch ++ fx ++ tl ++ zeros 4 ++ body) (len batch + 4) (len batch + 32 + len tl + 4 - 4 - len batch - 4) =
    frame_fixed f ++ tl) as ->.
  { rewrite (slice_app_r batch) by lia. rewrite (app_assoc fx), slice_app_l by (rewrite ?length_app; lia). unfold fx.
    rewrite <- app_assoc, slice_app_r by (change (len kWalFrameMagic) with 4; lia). change (len kWalFrameMagic) with 4.
    replace (len batch + 4 - len batch - 4) with 0 by lia. apply slice_all. unfold fx in Lf. rewrite length_app in *.
    change (length kWalFrameMagic) with 4%nat in *. lia. }
  rewrite crc_le. set (crc := Crc32.Crc32 (frame_fixed f ++ tl)).
  assert (splice (batch ++ fx ++ tl ++ zeros 4 ++ body) (len batch + 32 + len tl + 4 - 4) (le_bytes 4 crc) =
    batch ++ fx ++ tl ++ le_bytes 4 crc ++ body) as ->.
  { rewrite !app_assoc. rewrite <- (app_assoc _ (zeros 4)), splice_app by (rewrite ?length_app, ?length_le_bytes; (done || lia)).
    by rewrite <- !app_assoc. }
  assert (slice (batch ++ fx ++ tl ++ le_bytes 4 crc ++ body) (len batch + 32 + len tl + 4) (len body) = body) as ->.
  { rewrite !app_assoc. apply slice_app_end; [|done]. rewrite !length_app, length_le_bytes. lia. }
  assert ((batch ++ fx ++ tl ++ le_bytes 4 crc ++ body) ++ le_bytes 4 (Crc32.Crc32 body) = batch ++ frame_bytes f) as ->
    by (unfold frame_bytes, fx; by rewrite <- !app_assoc).
  replace (len (batch ++ frame_bytes f) - len batch) with (len (frame_bytes f)) by (rewrite length_app; lia).
  eexists. split; reflexivity.
Qed.

(** What the builder stages is the frame, after what the batch had. *)
Lemma BuildFrame_ok batch f : frame_sized f ->
  exists b, BuildFrame batch f = Ok (b, len (frame_bytes f)) /\ batch_ b = batch ++ frame_bytes f.
Proof.
  intros Hf. unfold BuildFrame. rewrite MakeWalFrameBuilder_ok, bind_Ok_l by done.
  destruct (AppendRecords_ok batch f (fr_records f) [] (None, false)) as (st & ->); try apply Hf.
  rewrite bind_Ok_l. by apply Finish_ok.
Qed.

(** ** The parser reads the frame *)

(** What the state of a layout admits of a record. *)
Definition record_fits (shape : FrameShape) (r : wal_record) : Prop :=
  match r with
  | RSpan offset data =>
      bytes_ok data /\ 0 <= offset /\ offset + len data <= state_size shape /\
      SpanShapeValid offset (offset + len data) (payload_boundary shape) (state_size shape) = true
  | RVarPut key value =>
      vars_enabled shape = true /\ Vars.key_ok key /\ Vars.block_index key < shape_block_count shape /\ bytes_ok value
  | RVarDel key => vars_enabled shape = true /\ Vars.key_ok key /\ Vars.block_index key < shape_block_count shape
  | RVarReplace vars =>
      vars_enabled shape = true /\ Vars.wf vars /\ Vars.encoded_size vars <= Vars.kVarMaxChunkBytesLimit /\
      (forall k x, Vars.abs vars !! k = Some x -> Vars.block_index k < shape_block_count shape)
  end.

(** The bytes the spans write, the changes of values, and their replacement. *)
Definition spans_of (rs : list wal_record) : list (Z * bytes) :=
  omap (fun r => match r with RSpan o d => Some (o, d) | _ => None end) rs.
Definition changes_of (rs : list wal_record) : list Vars.VarChange :=
  omap (fun r => match r with
                 | RVarPut k v => Some {| Vars.change_key := k; Vars.change_value := Some v |}
                 | RVarDel k => Some {| Vars.change_key := k; Vars.change_value := None |}
                 | _ => None
                 end) rs.
Definition replace_of (rs : list wal_record) : option Vars.ChunkVars :=
  last (omap (fun r => match r with RVarReplace v => Some v | _ => None end) rs).

(** The same of what was parsed: the records' bytes are still in the file. *)
Definition value_of (wal : bytes) (op : PendingVar) : bytes := slice wal (var_source op) (var_length op).
Definition read_spans (wal : bytes) (spans : list PendingSpan) : list (Z * bytes) :=
  map (fun s => (span_offset s, slice wal (span_source s) (span_size s))) spans.
Definition read_changes (wal : bytes) (ops : list PendingVar) : list Vars.VarChange :=
  map (fun op => {| Vars.change_key := var_key op;
                    Vars.change_value := if var_put op then Some (value_of wal op) else None |}) ops.

(** A collection marker: no tag, the whole state set to zero, no values. *)
Definition gc_records (shape : FrameShape) : list wal_record :=
  [RSpan 0 (zeros (payload_boundary shape));
   RSpan (payload_boundary shape) (zeros (state_size shape - payload_boundary shape))] ++
  if vars_enabled shape then [RVarReplace Vars.no_vars] else [].

(** A frame a table at the layout [l] of the frame's version accepts. *)
Record frame_fits (g : Geometry) (l : ChunkLayout) (slots : bool) (f : frame_t) : Prop := {
  ff_sized : frame_sized f;
  ff_revision : in_u 64 (fr_revision f);
  ff_time : in_u 64 (fr_time f);
  ff_tag : bytes_ok (fr_tag f);
  ff_user : bytes_ok (default [] (fr_user f));
  ff_version : 1 <= fr_version f <= version (schema_ (layout_ g));
  ff_layout : LayoutFresh g (fr_version f) = Ok l;
  ff_records : Forall (record_fits (ShapeOf g l false)) (fr_records f);
  ff_slots : slots = false -> fr_gc f = false /\ default [] (fr_user f) = [];
  ff_gc : fr_gc f = true -> fr_tag f = [] /\ fr_records f = gc_records (ShapeOf g l false)
}.

(** The TLV entries of a frame. *)
Definition tlv_list (f : frame_t) : list (Z * bytes) :=
  (if bool_decide (fr_tag f = []) then [] else [(kWalTlvTag, fr_tag f)]) ++
  (if 1 <? fr_version f then [(kWalTlvSchema, le_bytes 8 (fr_version f))] else []) ++
  (if bool_decide (default [] (fr_user f) = []) then [] else [(kWalTlvUser, default [] (fr_user f))]).

Definition tlv_area (es : list (Z * bytes)) : bytes := concat ((fun e => tlv e.1 e.2) <$> es).

Lemma frame_tlvs_list f : frame_tlvs f = tlv_area (tlv_list f).
Proof.
  unfold frame_tlvs, tlv_list, tlv_area.
  destruct (bool_decide (fr_tag f = [])), (1 <? fr_version f), (bool_decide (default [] (fr_user f) = []));
    cbn; by rewrite ?app_nil_r, <- ?app_assoc.
Qed.

(** One turn of the TLV loop on an entry as written. *)
Lemma ParseTlvs_step fuel wal at_ crc_at skip slots t type value : 0 <= at_ -> in_u 16 type -> len value < 2 ^ 16 ->
  at_ + 4 + len value <= crc_at <= len wal -> slice wal at_ (4 + len value) = tlv type value ->
  slice wal (at_ + 4) (len value) = value /\
  ParseTlvs (S fuel) wal at_ crc_at skip slots t =
  (t ← ParseTlv wal at_ type (len value) skip slots t; ParseTlvs fuel wal (at_ + (4 + len value)) crc_at skip slots t).
Proof.
  intros H0 Ht Hv Hc Hs.
  assert (slice wal at_ 2 = le_bytes 2 type) as E1.
  { replace at_ with (at_ + 0) by lia. rewrite <- (slice_slice wal at_ (4 + len value) 0 2), Hs by lia. unfold tlv. seek. }
  assert (slice wal (at_ + 2) 2 = le_bytes 2 (len value)) as E2.
  { rewrite <- (slice_slice wal at_ (4 + len value) 2 2), Hs by lia. unfold tlv. seek. }
  split. { rewrite <- (slice_slice wal at_ (4 + len value) 4 (len value)), Hs by lia. unfold tlv. seek. }
  cbn [ParseTlvs]. rewrite (proj2 (Z.ltb_lt _ _)) by lia.
  rewrite (ReadLe16_at wal at_ type), (ReadLe16_at wal (at_ + 2) (len value)) by (done || lia || unfold in_u; lia).
  unfold kWalTlvHeaderSize. rewrite !(proj2 (Z.ltb_ge _ _)) by lia. done.
Qed.

Lemma ParseTlvs_end fuel wal at_ skip slots t : ParseTlvs fuel wal at_ at_ skip slots t = mret t.
Proof. destruct fuel; cbn; by rewrite Z.ltb_irrefl. Qed.

(** What the TLV area of a frame says. *)
Definition tlvs_read (f : frame_t) : Tlvs :=
  {| have_tag := negb (bool_decide (fr_tag f = [])); have_schema := 1 <? fr_version f;
     have_user := negb (bool_decide (default [] (fr_user f) = []));
     tlv_user := if bool_decide (default [] (fr_user f) = []) then None else fr_user f;
     tlv_schema_version := fr_version f |}.

Definition no_tlvs : Tlvs :=
  {| have_tag := false; have_schema := false; have_user := false; tlv_user := None; tlv_schema_version := 1 |}.

(** The effect of the three entries, each there or not. *)
Section TlvArea.
Context (wal : bytes) (crc_at : Z) (skip slots : bool).
Hypothesis Hcrc : crc_at <= len wal.

Lemma tlv_entry fuel at_ type value rest t t' : 0 <= at_ -> in_u 16 type -> len value < 2 ^ 16 ->
  slice wal at_ (crc_at - at_) = tlv type value ++ rest -> at_ <= crc_at ->
  (slice wal (at_ + 4) (len value) = value -> at_ + 4 + len value <= len wal ->
   ParseTlv wal at_ type (len value) skip slots t = mret t') ->
  ParseTlvs (S fuel) wal at_ crc_at skip slots t =
    ParseTlvs fuel wal (at_ + len (tlv type value)) crc_at skip slots t' /\
  slice wal (at_ + len (tlv type value)) (crc_at - (at_ + len (tlv type value))) = rest /\
  at_ + len (tlv type value) <= crc_at.
Proof using Hcrc.
  intros H0 Ht Hv Hs Hle Hstep. pose proof (f_equal (fun l => len l) Hs) as L. cbv beta in L.
  rewrite len_slice, length_app in L by lia. pose proof (len_tlv type value) as Lt. unfold kWalTlvHeaderSize in Lt.
  destruct (ParseTlvs_step fuel wal at_ crc_at skip slots t type value) as [Hval Heq]; try done; [lia| |].
  { replace at_ with (at_ + 0) by lia. rewrite <- (slice_slice wal at_ (crc_at - at_) 0), Hs by lia. seek. }
  rewrite Heq, Hstep by (done || lia). rewrite Lt. split; [done|]. split; [|lia].
  replace (crc_at - (at_ + (4 + len value))) with (len rest) by lia.
  rewrite <- (slice_slice wal at_ (crc_at - at_)), Hs by lia. seek.
Qed.

(** The entries of a frame that are left to read, and what was read before them. *)
Definition schema_entries (f : frame_t) : list (Z * bytes) :=
  if 1 <? fr_version f then [(kWalTlvSchema, le_bytes 8 (fr_version f))] else [].
Definition user_entries (f : frame_t) : list (Z * bytes) :=
  if bool_decide (default [] (fr_user f) = []) then [] else [(kWalTlvUser, default [] (fr_user f))].
Definition after_tag (f : frame_t) : Tlvs :=
  {| have_tag := negb (bool_decide (fr_tag f = [])); have_schema := false; have_user := false; tlv_user := None;
     tlv_schema_version := 1 |}.
Definition after_schema (f : frame_t) : Tlvs :=
  {| have_tag := negb (bool_decide (fr_tag f = [])); have_schema := 1 <? fr_version f; have_user := false; tlv_user := None;
     tlv_schema_version := fr_version f |}.

(** The loop is at [at_] with [es] left. *)
Definition left_at (at_ : Z) (es : list (Z * bytes)) (fuel : nat) : Prop :=
  0 <= at_ <= crc_at /\ slice wal at_ (crc_at - at_) = tlv_area es /\ (length es <= fuel)%nat.

Lemma tlv_left fuel at_ type value es t t' : left_at at_ ((type, value) :: es) fuel -> in_u 16 type -> len value < 2 ^ 16 ->
  (slice wal (at_ + 4) (len value) = value -> at_ + 4 + len value <= len wal ->
   ParseTlv wal at_ type (len value) skip slots t = mret t') ->
  exists at1 n1, ParseTlvs fuel wal at_ crc_at skip slots t = ParseTlvs n1 wal at1 crc_at skip slots t' /\ left_at at1 es n1.
Proof using Hcrc.
  intros (Hat & Hs & Hf) Ht Hv Hstep. destruct fuel as [|fuel]; [cbn in Hf; lia|].
  destruct (tlv_entry fuel at_ type value (tlv_area es) t t') as (H1 & H2 & H3); try done; try lia.
  exists (at_ + len (tlv type value)), fuel. split; [done|]. split; [lia|]. split; [done|]. cbn in Hf. lia.
Qed.

Lemma tag_stage f fuel at_ : frame_sized f -> left_at at_ (tlv_list f) fuel -> exists at1 n1,
  ParseTlvs fuel wal at_ crc_at skip slots no_tlvs = ParseTlvs n1 wal at1 crc_at skip slots (after_tag f) /\
  left_at at1 (schema_entries f ++ user_entries f) n1.
Proof using Hcrc.
  intros [Htag _ _ _ _ _ _ _] Hl. unfold tlv_list, after_tag, max_u16, kWalTlvHeaderSize in *.
  destruct (bool_decide_reflect (fr_tag f = [])) as [E|E]; [by exists at_, fuel|].
  eapply tlv_left; [exact Hl|done|lia|]. intros _ _. unfold ParseTlv, kWalTlvTag. cbn.
  rewrite (proj2 (Z.eqb_neq _ _)) by (destruct (fr_tag f); [done|cbn; lia]). done.
Qed.

Lemma schema_stage f fuel at_ : 1 <= fr_version f -> in_u 64 (fr_version f) ->
  left_at at_ (schema_entries f ++ user_entries f) fuel -> exists at1 n1,
  ParseTlvs fuel wal at_ crc_at skip slots (after_tag f) = ParseTlvs n1 wal at1 crc_at skip slots (after_schema f) /\
  left_at at1 (user_entries f) n1.
Proof using Hcrc.
  intros Hv1 Hv Hl. unfold schema_entries, after_schema, after_tag in *. destruct (Z.ltb_spec 1 (fr_version f)) as [E|E].
  - eapply tlv_left; [exact Hl|done|by rewrite length_le_bytes|]. intros Hval Hw. destruct Hl as (Hat & _).
    rewrite length_le_bytes in *. unfold ParseTlv, kWalTlvSchema, kWalTlvTag, kWalTlvHeaderSize. cbn.
    rewrite (ReadLe64_at wal (at_ + 4) (fr_version f)) by (done || lia). done.
  - exists at_, fuel. replace (fr_version f) with 1 by lia. done.
Qed.

Lemma ParseTlvs_frame f fuel at_ : frame_sized f -> in_u 64 (fr_version f) -> 1 <= fr_version f ->
  (slots = false -> default [] (fr_user f) = []) -> left_at at_ (tlv_list f) fuel ->
  ParseTlvs fuel wal at_ crc_at skip slots no_tlvs = mret (tlvs_read f).
Proof using Hcrc.
  intros Hf Hv Hv1 Hslots Hl.
  assert (forall at_ fuel t, left_at at_ [] fuel -> ParseTlvs fuel wal at_ crc_at skip slots t = mret t) as Hend.
  { intros a n t (Ha & Hn & _). pose proof (f_equal (fun l => len l) Hn) as L. cbv beta in L. rewrite len_slice in L by lia.
    cbn in L. replace crc_at with a by lia. apply ParseTlvs_end. }
  destruct (tag_stage f fuel at_ Hf Hl) as (at1 & n1 & -> & Hl1).
  destruct (schema_stage f n1 at1 Hv1 Hv Hl1) as (at2 & n2 & -> & Hl2).
  unfold user_entries, tlvs_read, after_schema in *. pose proof (fs_user f Hf) as Hu. unfold max_u16 in Hu.
  destruct (bool_decide_reflect (default [] (fr_user f) = [])) as [E|E]; [by apply Hend|].
  edestruct (tlv_left n2 at2 kWalTlvUser (default [] (fr_user f)) []) as (at3 & n3 & -> & Hl3);
    [exact Hl2|done|lia| |by apply Hend].
  intros Hval Hw. unfold ParseTlv, kWalTlvHeaderSize. rewrite Hval. destruct slots; [|by specialize (Hslots eq_refl)].
  unfold kWalTlvUser, kWalTlvTag, kWalTlvSchema. cbn.
  rewrite (proj2 (Z.eqb_neq _ _)) by (destruct (default [] (fr_user f)); [done|cbn; lia]). by destruct (fr_user f).
Qed.

End TlvArea.

Lemma spans_of_app l1 l2 : spans_of (l1 ++ l2) = spans_of l1 ++ spans_of l2.
Proof. apply omap_app. Qed.

Lemma changes_of_app l1 l2 : changes_of (l1 ++ l2) = changes_of l1 ++ changes_of l2.
Proof. apply omap_app. Qed.

Lemma replace_of_snoc l r : replace_of (l ++ [r]) = match r with RVarReplace v => Some v | _ => replace_of l end.
Proof. unfold replace_of. rewrite omap_app. destruct r; cbn; by rewrite ?app_nil_r, ?last_snoc. Qed.

(** The records of a frame, read one by one. *)
Section RecordArea.
Context (wal : bytes) (records_end : Z) (shape : FrameShape).
Hypothesis Hend : records_end <= len wal.

(** The loop is at [at_] with [l] left. *)
Definition records_at (at_ : Z) (l : list wal_record) : Prop :=
  0 <= at_ <= records_end /\ slice wal at_ (records_end - at_) = concat (record_bytes <$> l).

(** [l] was read: its content is in the records parsed. *)
Record parsed_as (rs : Records) (l : list wal_record) (st : option Vars.VarKey * bool) : Prop := {
  pa_spans : read_spans wal (rec_spans rs) = spans_of l;
  pa_changes : read_changes wal (rec_var_ops rs) = changes_of l;
  pa_replace : rec_var_replace rs = replace_of l;
  pa_replaced : st.2 = bool_decide (is_Some (rec_var_replace rs));
  pa_last : st.1 = var_key <$> last (rec_var_ops rs);
  pa_inside : Forall (fun s => 0 <= span_source s /\ 0 <= span_size s /\ span_source s + span_size s <= len wal) (rec_spans rs)
}.

Lemma parsed_none : parsed_as {| rec_spans := []; rec_var_ops := []; rec_var_replace := None |} [] (None, false).
Proof. by split; try constructor. Qed.

Lemma len_record_bytes r : len (record_bytes r) = kWalRecordHeaderSize + len (record_body r).
Proof. unfold record_bytes. rewrite !length_app, length_le_bytes. unfold kWalRecordHeaderSize. cbn [length]. lia. Qed.

(** The header of the next record, and where its body is. *)
Lemma next_record at_ r l : records_at at_ (r :: l) -> record_sized r ->
  byte_at wal at_ = record_type r /\ ReadLe32 wal (at_ + 1) = len (record_body r) /\
  slice wal (at_ + 5) (len (record_body r)) = record_body r /\ at_ + 5 + len (record_body r) <= records_end /\
  records_at (at_ + 5 + len (record_body r)) l.
Proof using Hend.
  intros [Hat Hs] [Hsize _]. rewrite fmap_cons in Hs. cbn [concat] in Hs. unfold records_at.
  pose proof (f_equal (fun l => len l) Hs) as L. cbv beta in L. rewrite len_slice, length_app in L by lia.
  pose proof (len_record_bytes r) as Lr. unfold kWalRecordHeaderSize in Lr.
  set (tail := concat (record_bytes <$> l)) in *. clearbody tail. unfold record_bytes in Hs.
  assert (forall off n, 0 <= off -> 0 <= n -> off + n <= records_end - at_ -> slice wal (at_ + off) n =
    slice (([record_type r] ++ le_bytes 4 (len (record_body r)) ++ record_body r) ++ tail) off n) as Hsub.
  { intros off n H1 H2 H3. rewrite <- Hs. symmetry. by apply slice_slice; [lia|..]. }
  assert (byte_at wal at_ = record_type r) as E1.
  { pose proof (Hsub 0 1 ltac:(lia) ltac:(lia) ltac:(lia)) as E. rewrite Z.add_0_r, (slice_cons wal), (slice_cons (_ ++ _)) in E by len_lia.
    injection E as E. rewrite E. reflexivity. }
  assert (ReadLe32 wal (at_ + 1) = len (record_body r)) as E2.
  { apply ReadLe32_at; [lia|lia|unfold in_u; lia|]. rewrite Hsub by lia. rewrite <- !app_assoc. seek. }
  split; [done|]. split; [done|].
  split. { rewrite Hsub by lia. rewrite <- !app_assoc. seek. }
  split; [lia|]. split; [lia|]. rewrite <- Z.add_assoc, Hsub by lia. rewrite slice_app_r by len_lia.
  replace (records_end - (at_ + (5 + len (record_body r)))) with (len tail) by lia. seek.
Qed.

Lemma read_spans_app s1 s2 : read_spans wal (s1 ++ s2) = read_spans wal s1 ++ read_spans wal s2.
Proof. apply map_app. Qed.

Lemma read_changes_app s1 s2 : read_changes wal (s1 ++ s2) = read_changes wal s1 ++ read_changes wal s2.
Proof. apply map_app. Qed.

(** A value record as the builder wrote it. *)
Lemma ParseVarRecord_ok at_ r rs l st st' : parsed_as rs l st -> order_step st r = Some st' -> record_fits shape r ->
  record_sized r -> 0 <= at_ -> at_ + len (record_body r) <= len wal ->
  slice wal at_ (len (record_body r)) = record_body r -> (forall o d, r <> RSpan o d) ->
  exists rs', ParseVarRecord wal (record_type r) at_ (len (record_body r)) shape rs = mret rs' /\ parsed_as rs' (l ++ [r]) st'.
Proof.
  intros [P1 P2 P3 P4 P5 P6] Ho Hfit [Hsize _] H0 Hle Hs Hnot.
  assert (forall key, slice wal at_ 8 = le_bytes 4 (Vars.column_id key) ++ le_bytes 4 (Vars.block_index key) ->
    at_ + 8 <= len wal -> Vars.key_ok key ->
    {| Vars.column_id := ReadLe32 wal at_; Vars.block_index := ReadLe32 wal (at_ + 4) |} = key) as Hkey.
  { intros key E Hl [Hc Hb]. destruct key as [c b]. cbn [Vars.column_id Vars.block_index] in *. f_equal; apply ReadLe32_at; try done; try lia.
    - replace at_ with (at_ + 0) by lia. rewrite <- (slice_slice wal at_ 8), E by lia. seek.
    - rewrite <- (slice_slice wal at_ 8), E by lia. seek. }
  unfold ParseVarRecord. destruct r as [o d|key value|key|vars]; [by specialize (Hnot o d)|..];
    cbn [record_type record_body order_step record_fits] in *; rewrite P4 in Ho.
  - destruct Hfit as (He & Hk & Hbc & Hv). rewrite He. rewrite Vars.len_encode_entry in *. unfold Vars.kVarEntryHeaderBytes in *. cbn [snd] in *.
    assert (rec_var_replace rs = None) as Hnone.
    { destruct (rec_var_replace rs); [|done]. rewrite bool_decide_true in Ho by done. done. }
    rewrite Hnone in *. rewrite bool_decide_false in Ho by (by intros [? ?]). cbn [orb] in Ho.
    unfold Vars.encode_entry in Hs. cbn [fst snd] in Hs.
    assert (forall off n, 0 <= off -> 0 <= n -> off + n <= 12 + len value -> slice wal (at_ + off) n =
      slice (le_bytes 4 (Vars.column_id key) ++ le_bytes 4 (Vars.block_index key) ++ le_bytes 4 (len value) ++ value) off n) as Hsub
      by (intros; rewrite <- Hs; symmetry; by apply slice_slice).
    assert (slice wal at_ 8 = le_bytes 4 (Vars.column_id key) ++ le_bytes 4 (Vars.block_index key)) as E8.
    { replace at_ with (at_ + 0) by lia. rewrite Hsub by lia. rewrite app_assoc. seek. }
    rewrite (Hkey key E8) by (done || lia).
    assert (ReadLe32 wal (at_ + 8) = len value) as ->
      by (apply ReadLe32_at; [lia|lia|unfold in_u; lia|rewrite Hsub by lia; seek]).
    rewrite P5 in Ho. change (kWalRecordVarPut =? kWalRecordVarReplace) with false. change (kWalRecordVarPut =? kWalRecordVarPut) with true.
    cbn [negb stop_if]. rewrite (proj2 (Z.ltb_ge (12 + len value) 12)), (proj2 (Z.leb_gt (shape_block_count shape) _)) by lia.
    rewrite Z.eqb_refl. destruct (last (rec_var_ops rs)) as [op|] eqn:El; cbn [fmap option_fmap option_map] in Ho;
      [destruct (_ <=? _); [done|]|]; injection Ho as <-; eexists; (split; [reflexivity|]); split; cbn [rec_spans rec_var_ops rec_var_replace];
      rewrite ?spans_of_app, ?changes_of_app, ?replace_of_snoc, ?read_changes_app, ?last_snoc, ?P1, ?P2, ?app_nil_r; try done.
    all: f_equal; unfold read_changes, value_of; cbn; unfold Vars.kVarEntryHeaderBytes; rewrite Hsub by lia; do 3 f_equal; seek.
  - destruct Hfit as (He & Hk & Hbc). rewrite He. rewrite length_app, !length_le_bytes in *. change (Z.of_nat (4 + 4)) with 8 in *.
    assert (rec_var_replace rs = None) as Hnone.
    { destruct (rec_var_replace rs); [|done]. rewrite bool_decide_true in Ho by done. done. }
    rewrite Hnone in *. rewrite bool_decide_false in Ho by (by intros [? ?]). cbn [orb] in Ho.
    rewrite (Hkey key Hs) by (done || lia). rewrite P5 in Ho.
    change (kWalRecordVarDel =? kWalRecordVarReplace) with false. change (kWalRecordVarDel =? kWalRecordVarPut) with false.
    cbn [negb stop_if Z.eqb Pos.eqb andb]. rewrite (proj2 (Z.leb_gt (shape_block_count shape) _)) by lia.
    destruct (last (rec_var_ops rs)) as [op|] eqn:El; cbn [fmap option_fmap option_map] in Ho;
      [destruct (_ <=? _); [done|]|]; injection Ho as <-; eexists; (split; [reflexivity|]); split; cbn [rec_spans rec_var_ops rec_var_replace];
      rewrite ?spans_of_app, ?changes_of_app, ?replace_of_snoc, ?read_changes_app, ?last_snoc, ?P1, ?P2, ?app_nil_r; done.
  - destruct Hfit as (He & Hwf & Hlim & Hb). rewrite He.
    destruct (rec_var_replace rs) eqn:Er; [by rewrite bool_decide_true in Ho|]. rewrite (bool_decide_false (is_Some None)) in Ho by (by intros [? ?]).
    cbn [orb] in Ho. rewrite P5 in Ho. destruct (last (rec_var_ops rs)) as [op|] eqn:El; [done|].
    apply last_None in El. rewrite El in *. cbn in Ho. injection Ho as <-.
    change (kWalRecordVarReplace =? kWalRecordVarReplace) with true. cbn [negb stop_if]. rewrite bool_decide_true by done.
    cbn [negb]. rewrite Hs, Vars.Decode_Encode by done. eexists. split; [reflexivity|].
    split; cbn [rec_spans rec_var_ops rec_var_replace];
      rewrite ?spans_of_app, ?changes_of_app, ?replace_of_snoc, ?P1, ?P2, ?app_nil_r; done.
Qed.

Lemma ParseRecord_ok at_ r rest rs l st st' : parsed_as rs l st -> order_step st r = Some st' -> record_fits shape r ->
  record_sized r -> records_at at_ (r :: rest) ->
  exists rs' at', ParseRecord wal records_end shape (rs, at_) = mret (rs', at') /\ parsed_as rs' (l ++ [r]) st' /\
    records_at at' rest.
Proof using Hend.
  intros Hp Ho Hfit Hsize Hr. destruct (next_record at_ r rest Hr Hsize) as (Et & Es & Hs & Hle & Hrest). destruct Hr as [Hat _].
  unfold ParseRecord, kWalRecordHeaderSize. rewrite Et, Es. change (1 + 4) with 5.
  rewrite (proj2 (Z.ltb_ge (records_end - at_) 5)), (proj2 (Z.ltb_ge (records_end - (at_ + 5)) _)) by lia.
  unfold stop_if at 1 2. cbn [mbind parser_bind mret parser_ret].
  assert (exists rs', ParseRecordBody wal (record_type r) (at_ + 5) (len (record_body r)) shape rs = mret rs' /\
    parsed_as rs' (l ++ [r]) st') as (rs' & E & Hp').
  2:{ exists rs', (at_ + 5 + len (record_body r)). by rewrite E. }
  unfold ParseRecordBody. destruct r as [offset data|key value|key|vars].
  - cbn [record_type record_body record_fits order_step] in *. injection Ho as <-. destruct Hsize as (Hsize & Hne & H0 & Hu), Hfit as (_ & _ & Hin & Hshape).
    rewrite length_app, length_le_bytes in *.
    assert (0 < len data) by (destruct data; [done|cbn; lia]). change (kWalRecordSpan =? kWalRecordSpan) with true. cbn iota.
    rewrite (ReadLe32_at wal (at_ + 5) offset); [|lia|lia|unfold in_u; lia|].
    2:{ replace (at_ + 5) with (at_ + 5 + 0) by lia. rewrite <- (slice_slice wal (at_ + 5) (Z.of_nat (4 + length data))), Hs by lia. seek. }
    unfold kWalSpanOffsetSize. replace (Z.of_nat (4 + length data) - 4) with (len data) by lia.
    rewrite (proj2 (Z.leb_gt _ _)), !(proj2 (Z.ltb_ge _ _)), Hshape by lia. eexists. split; [reflexivity|].
    destruct Hp as [P1 P2 P3 P4 P5 P6]. split; cbn [rec_spans rec_var_ops rec_var_replace];
      rewrite ?spans_of_app, ?changes_of_app, ?replace_of_snoc, ?read_spans_app, ?P1, ?P2, ?app_nil_r; try done.
    2:{ apply Forall_app_2; [done|]. apply Forall_singleton. cbn. lia. }
    f_equal. unfold read_spans. cbn. do 2 f_equal.
    rewrite <- (slice_slice wal (at_ + 5) (Z.of_nat (4 + length data))), Hs by lia. seek.
  - apply (ParseVarRecord_ok (at_ + 5) (RVarPut key value) rs l st st'); try done; lia.
  - apply (ParseVarRecord_ok (at_ + 5) (RVarDel key) rs l st st'); try done; lia.
  - apply (ParseVarRecord_ok (at_ + 5) (RVarReplace vars) rs l st st'); try done; lia.
Qed.

Lemma ParseRecords_ok l2 : forall at_ rs l1 st, parsed_as rs l1 st -> in_order st l2 -> Forall (record_fits shape) l2 ->
  Forall record_sized l2 -> records_at at_ l2 ->
  exists rs' st', ParseRecords (length l2) wal records_end shape (rs, at_) = mret (rs', records_end) /\
    parsed_as rs' (l1 ++ l2) st'.
Proof using Hend.
  induction l2 as [|r l2 IH]; intros at_ rs l1 st Hp Ho Hfit Hsize Hr.
  - exists rs, st. rewrite app_nil_r. split; [|done]. destruct Hr as [Hat Hs]. pose proof (f_equal (fun l => len l) Hs) as L.
    cbv beta in L. rewrite len_slice in L by lia. cbn in L. cbn. do 3 f_equal. lia.
  - cbn [in_order] in Ho. destruct (order_step st r) as [st1|] eqn:E; [|done].
    apply Forall_cons in Hfit as [Hf Hfit]. apply Forall_cons in Hsize as [Hz Hsize].
    destruct (ParseRecord_ok at_ r l2 rs l1 st st1) as (rs1 & at1 & E1 & Hp1 & Hr1); try done.
    cbn [length ParseRecords]. rewrite E1. cbn [mbind parser_bind mret parser_ret].
    destruct (IH at1 rs1 (l1 ++ [r]) st1) as (rs2 & st2 & E2 & Hp2); try done.
    exists rs2, st2. rewrite <- app_assoc in Hp2. done.
Qed.

End RecordArea.

(** ** Whole frames *)

(** The fixed header, wherever the rest of the frame ends. *)
Lemma fixed_fields f pre rest : frame_sized f -> in_u 64 (fr_revision f) -> in_u 64 (fr_time f) ->
  let wal := pre ++ kWalFrameMagic ++ frame_fixed f ++ rest in
  slice wal (len pre) 4 = kWalFrameMagic /\ ReadLe64 wal (len pre + 4) = fr_revision f /\
  ReadLe64 wal (len pre + 12) = fr_time f /\ ReadLe16 wal (len pre + 20) = (if fr_gc f then 1 else 0) /\
  ReadLe16 wal (len pre + 22) = len (frame_tlvs f) /\ ReadLe32 wal (len pre + 24) = len (fr_records f) /\
  ReadLe32 wal (len pre + 28) = len (frame_body f).
Proof.
  intros [_ _ Htlv _ Hc Hb _ _] Hr Ht wal. assert (len kWalFrameMagic = 4) as L4 by done.
  assert (len pre + 32 <= len wal) as Lw by (unfold wal, frame_fixed; len_lia).
  assert (forall P Q R, wal = pre ++ (kWalFrameMagic ++ P) ++ Q ++ R -> slice wal (len pre + 4 + len P) (len Q) = Q) as Hf.
  { intros P Q R ->. seek. }
  unfold frame_fixed in wal, Hf.
  split. { unfold wal. seek. }
  split; [|split; [|split; [|split; [|split]]]].
  - apply ReadLe64_at; [lia|lia|done|]. unfold wal. seek.
  - apply ReadLe64_at; [lia|lia|done|]. unfold wal. seek.
  - apply ReadLe16_at; [lia|lia|by destruct (fr_gc f)|]. unfold wal. change kWalFrameGc with 1. seek.
  - apply ReadLe16_at; [lia|lia|unfold in_u; lia|]. unfold wal. seek.
  - apply ReadLe32_at; [lia|lia|unfold in_u; lia|]. unfold wal. seek.
  - apply ReadLe32_at; [lia|lia|unfold in_u; lia|]. unfold wal. seek.
Qed.

(** What a parsed frame says is what the frame says. *)
Record frame_reads (wal : bytes) (p : ParsedFrame) (f : frame_t) : Prop := {
  fd_revision : frame_revision p = fr_revision f;
  fd_version : frame_schema_version p = fr_version f;
  fd_time : frame_commit_time_ms p = fr_time f;
  fd_user : default [] (frame_user p) = default [] (fr_user f);
  fd_gc : frame_gc p = fr_gc f;
  fd_size : frame_size p = len (frame_bytes f);
  fd_spans : read_spans wal (frame_spans p) = spans_of (fr_records f);
  fd_changes : read_changes wal (frame_var_ops p) = changes_of (fr_records f);
  fd_replace : frame_var_replace p = replace_of (fr_records f);
  fd_count : frame_record_count p = len (fr_records f)
}.

Lemma len_frame_bytes f : len (frame_bytes f) = 40 + len (frame_tlvs f) + len (frame_body f).
Proof. unfold frame_bytes. pose proof (len_frame_fixed f) as L. change kWalFrameFixedHeaderSize with 32 in L. len_lia. Qed.

Lemma bytes_ok_frame f : bytes_ok (fr_tag f) -> bytes_ok (default [] (fr_user f)) -> bytes_ok (frame_fixed f ++ frame_tlvs f).
Proof.
  intros Ht Hu. unfold frame_fixed, frame_tlvs, tlv.
  repeat apply Forall_app_2; try apply bytes_ok_le_bytes; case_match; repeat apply Forall_app_2; try apply bytes_ok_le_bytes; done.
Qed.

Lemma bytes_ok_body f shape : Forall (record_fits shape) (fr_records f) -> bytes_ok (frame_body f).
Proof.
  intros H. unfold frame_body. induction H as [|r rs Hr _ IH]; [constructor|]. cbn [fmap list_fmap concat].
  apply Forall_app_2; [|exact IH]. unfold record_bytes. apply Forall_app_2; [|apply Forall_app_2; [apply bytes_ok_le_bytes|]].
  { apply Forall_singleton. by destruct r. }
  destruct r; cbn [record_body record_fits] in *.
  - apply Forall_app_2; [apply bytes_ok_le_bytes|]. by destruct Hr.
  - unfold Vars.encode_entry. repeat apply Forall_app_2; try apply bytes_ok_le_bytes. by destruct Hr as (_ & _ & _ & ?).
  - repeat apply Forall_app_2; apply bytes_ok_le_bytes.
  - apply wf_bytes. by destruct Hr as (_ & ? & _).
Qed.

Section WholeFrame.
Context (g : Geometry) (l : ChunkLayout) (skip slots : bool) (f : frame_t) (pre post : bytes).
Hypothesis Hg : geometry_ok g.
Hypothesis Hf : frame_fits g l slots f.

Let wal := pre ++ frame_bytes f ++ post.
Let tl := frame_tlvs f.
Let body := frame_body f.

Lemma len_wal : len wal = len pre + 40 + len tl + len body + len post.
Proof using. unfold wal. rewrite !length_app, !Nat2Z.inj_add, len_frame_bytes. unfold tl, body. lia. Qed.

(** A piece of the frame. *)
Lemma frame_piece P Q R : kWalFrameMagic ++ frame_fixed f ++ tl ++ le_bytes 4 (Crc32.Crc32 (frame_fixed f ++ tl)) ++
    body ++ le_bytes 4 (Crc32.Crc32 body) = P ++ Q ++ R -> slice wal (len pre + len P) (len Q) = Q.
Proof using. intros E. unfold wal, frame_bytes. fold tl body. rewrite E. rewrite <- !app_assoc. seek. Qed.

Lemma frame_places :
  slice wal (len pre + 4) (28 + len tl) = frame_fixed f ++ tl /\ slice wal (len pre + 32) (len tl) = tl /\
  ReadLe32 wal (len pre + 32 + len tl) = Crc32.Crc32 (frame_fixed f ++ tl) /\
  slice wal (len pre + 36 + len tl) (len body) = body /\
  ReadLe32 wal (len pre + 36 + len tl + len body) = Crc32.Crc32 body.
Proof using Hf.
  pose proof len_wal as Lw. pose proof (len_frame_fixed f) as L. change kWalFrameFixedHeaderSize with 32 in L.
  rewrite length_app in L. change (length kWalFrameMagic) with 4%nat in L.
  pose proof (Crc32.Crc32_bound _ (bytes_ok_frame f (ff_tag _ _ _ _ Hf) (ff_user _ _ _ _ Hf))) as C1.
  pose proof (Crc32.Crc32_bound _ (bytes_ok_body f _ (ff_records _ _ _ _ Hf))) as C2. fold tl in C1. fold body in C2.
  set (c1 := Crc32.Crc32 (frame_fixed f ++ tl)) in *. set (c2 := Crc32.Crc32 body) in *.
  assert (len kWalFrameMagic = 4) as L4 by done.
  split; [|split; [|split; [|split]]].
  - pose proof (frame_piece kWalFrameMagic (frame_fixed f ++ tl) (le_bytes 4 c1 ++ body ++ le_bytes 4 c2)) as E.
    rewrite length_app in E. replace (28 + len tl) with (Z.of_nat (length (frame_fixed f) + length tl)) by lia.
    apply E. by rewrite <- !app_assoc.
  - pose proof (frame_piece (kWalFrameMagic ++ frame_fixed f) tl (le_bytes 4 c1 ++ body ++ le_bytes 4 c2)) as E.
    rewrite length_app in E. replace (len pre + 32) with (len pre + Z.of_nat (length kWalFrameMagic + length (frame_fixed f))) by lia.
    apply E. by rewrite <- !app_assoc.
  - apply ReadLe32_at; [lia|lia|done|].
    pose proof (frame_piece (kWalFrameMagic ++ frame_fixed f ++ tl) (le_bytes 4 c1) (body ++ le_bytes 4 c2)) as E.
    rewrite !length_app, length_le_bytes in E. rewrite <- E by (by rewrite <- !app_assoc). f_equal. lia.
  - pose proof (frame_piece (kWalFrameMagic ++ frame_fixed f ++ tl ++ le_bytes 4 c1) body (le_bytes 4 c2)) as E.
    rewrite !length_app, length_le_bytes in E. rewrite <- E at 2 by (by rewrite <- !app_assoc). f_equal. lia.
  - apply ReadLe32_at; [lia|lia|done|].
    pose proof (frame_piece (kWalFrameMagic ++ frame_fixed f ++ tl ++ le_bytes 4 c1 ++ body) (le_bytes 4 c2) []) as E.
    rewrite !length_app, length_le_bytes in E. rewrite <- E by (by rewrite <- !app_assoc, app_nil_r). f_equal. lia.
Qed.

(** A collection marker as written is one as read. *)
Lemma EmptyReset_ok rs st : parsed_as wal rs (fr_records f) st -> fr_gc f = true ->
  EmptyReset wal (ShapeOf g l skip) (tlvs_read f) rs (len (fr_records f)) = true.
Proof using Hf.
  intros [P1 P2 P3 _ _ P6] Hgc. destruct (ff_gc _ _ _ _ Hf Hgc) as [Htag Hrec]. pose proof (ff_records _ _ _ _ Hf) as Hfit.
  rewrite Hrec in *. unfold EmptyReset, tlvs_read, gc_records in *. cbn [have_tag]. rewrite bool_decide_true by done.
  set (pb := payload_boundary (ShapeOf g l false)) in *. set (ss := state_size (ShapeOf g l false)) in *.
  change (vars_enabled (ShapeOf g l false)) with (vars_enabled (ShapeOf g l skip)) in *.
  change (payload_boundary (ShapeOf g l skip)) with pb. change (state_size (ShapeOf g l skip)) with ss.
  assert (0 <= pb /\ pb <= ss) as [H0 H1].
  { apply Forall_cons in Hfit as [_ Hfit]. apply Forall_cons in Hfit as [(_ & Ho & Hl & _) _]. unfold zeros in Hl. len_lia. }
  assert (rec_var_ops rs = []) as ->.
  { destruct (rec_var_ops rs); [done|]. destruct (vars_enabled _); discriminate. }
  assert (exists a b, rec_spans rs = [a; b] /\ (span_offset a, slice wal (span_source a) (span_size a)) = (0, zeros pb) /\
    (span_offset b, slice wal (span_source b) (span_size b)) = (pb, zeros (ss - pb))) as (a & b & Es & Ea & Eb).
  { destruct (rec_spans rs) as [|a [|b [|]]]; destruct (vars_enabled _); try discriminate; exists a, b; cbn in P1; by injection P1 as -> -> -> ->. }
  rewrite Es in *. apply Forall_cons in P6 as [Ia P6]. apply Forall_cons in P6 as [Ib _].
  injection Ea as Ea1 Ea2. injection Eb as Eb1 Eb2. rewrite Ea1, Eb1. cbn [forallb]. rewrite Ea2, Eb2.
  assert (span_size a = pb) as -> by (rewrite <- (len_zeros pb), <- Ea2, len_slice by lia; done).
  assert (span_size b = ss - pb) as -> by (rewrite <- (len_zeros (ss - pb)), <- Eb2, len_slice by lia; done).
  rewrite !Z.eqb_refl. assert (forall n, forallb (Z.eqb 0) (zeros n) = true) as Hz
    by (intros n; unfold zeros; induction (Z.to_nat n); done).
  rewrite !Hz, P3. unfold replace_of. destruct (vars_enabled (ShapeOf g l skip)); done.
Qed.

Lemma ParseContent_ok : exists p,
  ParseContent wal (len pre) g skip slots = mret p /\ frame_reads wal p f.
Proof using Hf Hg.
  destruct Hf as [Hs Hr Ht Htag Huser Hv Hl Hrec Hslots Hgc]. pose proof Hs as [_ _ Htlv Hsome Hc Hb Hsz Hord].
  pose proof len_wal as Lw. destruct frame_places as (_ & Etl & _ & Ebody & _).
  destruct (fixed_fields f pre (frame_tlvs f ++ le_bytes 4 (Crc32.Crc32 (frame_fixed f ++ frame_tlvs f)) ++ frame_body f ++
    le_bytes 4 (Crc32.Crc32 (frame_body f)) ++ post) Hs Hr Ht) as (_ & E4 & E12 & E20 & E22 & E24 & E28).
  assert (pre ++ kWalFrameMagic ++ frame_fixed f ++ frame_tlvs f ++ le_bytes 4 (Crc32.Crc32 (frame_fixed f ++ frame_tlvs f)) ++
    frame_body f ++ le_bytes 4 (Crc32.Crc32 (frame_body f)) ++ post = wal) as Ew
    by (unfold wal, frame_bytes; by rewrite <- !app_assoc).
  rewrite Ew in *. clear Ew. unfold ParseContent. rewrite E4, E12, E20, E22, E24, E28.
  change kWalFrameFixedHeaderSize with 32. change kWalFrameHeaderCrcSize with 4. change kWalFrameTrailerSize with 4.
  fold tl body in Htlv, Hb |- *.
  assert (Z.land (if fr_gc f then 1 else 0) (Z.lnot kWalFrameGc) = 0) as -> by (by destruct (fr_gc f)).
  assert (negb ((if fr_gc f then 1 else 0) =? 0) && negb slots = false) as ->.
  { destruct slots; [by rewrite andb_false_r|]. by destruct (Hslots eq_refl) as [-> _]. }
  rewrite (proj2 (Z.eqb_neq (len (fr_records f)) 0)) by (destruct (fr_records f); [done|cbn; lia]).
  cbn [Z.eqb negb orb]. unfold stop_if at 1 2. cbn [mbind parser_bind mret parser_ret].
  fold no_tlvs. rewrite (ParseTlvs_frame wal (len pre + 32 + len tl) skip slots ltac:(lia) f); [|done| | | |].
  2:{ pose proof (lo_version _ (go_layout _ Hg)). unfold in_u in *. lia. }
  2:{ lia. }
  2:{ intros E. by destruct (Hslots E). }
  2:{ split; [lia|]. rewrite <- frame_tlvs_list. replace (len pre + 32 + len tl - (len pre + 32)) with (len tl) by lia. split; [done|].
      unfold tl. rewrite Nat2Z.id. apply Nat2Z.inj_le. rewrite len_frame_tlvs. unfold tlv_list, kWalTlvHeaderSize.
      destruct (bool_decide (fr_tag f = [])), (1 <? fr_version f), (bool_decide (default [] (fr_user f) = [])); cbn [app length]; lia. }
  cbn [mbind parser_bind mret parser_ret tlvs_read tlv_schema_version].
  rewrite (proj2 (Z.eqb_neq (fr_version f) 0)), (proj2 (Z.ltb_ge (version (schema_ (layout_ g))) (fr_version f))) by lia. cbn [orb stop_if mbind parser_bind mret parser_ret]. rewrite Hl.
  cbn [lift mbind parser_bind mret parser_ret]. rewrite Nat2Z.id.
  destruct (ParseRecords_ok wal (len pre + (32 + len tl + 4) + len body) (ShapeOf g l skip) ltac:(lia) (fr_records f)
    (len pre + (32 + len tl + 4)) {| rec_spans := []; rec_var_ops := []; rec_var_replace := None |} [] (None, false))
    as (rs & st & -> & Hp); [apply parsed_none|done|exact Hrec|done| |].
  { split; [lia|]. replace (len pre + (32 + len tl + 4) + len body - (len pre + (32 + len tl + 4))) with (len body) by lia.
    replace (len pre + (32 + len tl + 4)) with (len pre + 36 + len tl) by lia. exact Ebody. }
  cbn [mbind parser_bind mret parser_ret]. rewrite Z.eqb_refl. cbn [negb stop_if mbind parser_bind mret parser_ret].
  assert (negb (Z.land (if fr_gc f then 1 else 0) kWalFrameGc =? 0) = fr_gc f) as -> by (by destruct (fr_gc f)).
  assert (fr_gc f && negb (EmptyReset wal (ShapeOf g l skip) (tlvs_read f) rs (len (fr_records f))) = false) as E.
  { destruct (fr_gc f) eqn:Eg; [|done]. by rewrite (EmptyReset_ok rs st Hp Eg). }
  rewrite E. cbn [stop_if mbind parser_bind mret parser_ret]. eexists. split; [reflexivity|].
  destruct Hp as [P1 P2 P3 _ _ _]. split; cbn [frame_user frame_size tlvs_read tlv_user]; try done.
  - destruct (bool_decide_reflect (default [] (fr_user f) = [])) as [->|]; done.
  - rewrite len_frame_bytes. fold tl body. lia.
Qed.

(** A frame as written is parsed, and says what was written. *)
Lemma ParseFrame_ok : exists p, ParseFrame wal (len pre) g skip slots = Ok (FrameOk p) /\ frame_reads wal p f.
Proof using Hf Hg.
  destruct ParseContent_ok as (p & Hp & Hread). exists p. split; [|done].
  destruct Hf as [Hs Hr Ht _ _ _ _ _ _ _]. pose proof len_wal as Lw.
  destruct frame_places as (Ehdr & _ & Ecrc & Ebody & Ecrc2).
  destruct (fixed_fields f pre (frame_tlvs f ++ le_bytes 4 (Crc32.Crc32 (frame_fixed f ++ frame_tlvs f)) ++ frame_body f ++
    le_bytes 4 (Crc32.Crc32 (frame_body f)) ++ post) Hs Hr Ht) as (Em & _ & _ & _ & E22 & _ & E28).
  assert (pre ++ kWalFrameMagic ++ frame_fixed f ++ frame_tlvs f ++ le_bytes 4 (Crc32.Crc32 (frame_fixed f ++ frame_tlvs f)) ++
    frame_body f ++ le_bytes 4 (Crc32.Crc32 (frame_body f)) ++ post = wal) as Ew
    by (unfold wal, frame_bytes; by rewrite <- !app_assoc).
  rewrite Ew in *. clear Ew. unfold ParseFrame. rewrite Hp, E22, E28. fold tl body.
  change kWalFrameFixedHeaderSize with 32. change kWalFrameHeaderCrcSize with 4. change kWalFrameTrailerSize with 4.
  change kWalFrameMagicSize with 4. rewrite Em, bool_decide_true by done. cbn [negb].
  rewrite !(proj2 (Z.ltb_ge _ _)) by lia.
  replace (len pre + 32 + len tl - len pre - 4) with (28 + len tl) by lia. rewrite Ehdr, Ecrc, Z.eqb_refl. cbn [negb].
  replace (len pre + (32 + len tl + 4)) with (len pre + 36 + len tl) by lia. rewrite Ebody, Ecrc2, Z.eqb_refl. done.
Qed.

End WholeFrame.

(** A crash cuts a frame short: a proper part of its bytes at the end of the file is a torn tail. *)
Lemma ParseFrame_torn g skip slots f pre n : frame_sized f -> in_u 64 (fr_revision f) -> in_u 64 (fr_time f) ->
  bytes_ok (fr_tag f) -> bytes_ok (default [] (fr_user f)) -> (n < length (frame_bytes f))%nat ->
  exists reason, ParseFrame (pre ++ take n (frame_bytes f)) (len pre) g skip slots = Ok (FrameStop reason true false).
Proof.
  intros Hs Hr Ht Btag Buser Hn. set (tl := frame_tlvs f). set (wal := pre ++ take n (frame_bytes f)).
  assert (len wal - len pre = Z.of_nat n) as Lw by (unfold wal; rewrite length_app, length_take; lia).
  pose proof (len_frame_bytes f) as Lf. fold tl in Lf. unfold ParseFrame. rewrite Lw.
  change kWalFrameFixedHeaderSize with 32. change kWalFrameHeaderCrcSize with 4. change kWalFrameTrailerSize with 4.
  change kWalFrameMagicSize with 4. destruct (Z.ltb_spec (Z.of_nat n) 32) as [H32|H32]; [by eexists|].
  pose proof (len_frame_fixed f) as L. change kWalFrameFixedHeaderSize with 32 in L.
  assert (frame_bytes f = (kWalFrameMagic ++ frame_fixed f) ++ (tl ++ le_bytes 4 (Crc32.Crc32 (frame_fixed f ++ tl))) ++ frame_body f ++
    le_bytes 4 (Crc32.Crc32 (frame_body f))) as Ef by (unfold frame_bytes; by rewrite <- !app_assoc).
  assert (exists rest, wal = pre ++ kWalFrameMagic ++ frame_fixed f ++ rest) as (rest & Ew).
  { unfold wal. rewrite Ef, take_app_ge by lia. rewrite <- !app_assoc. eexists. reflexivity. }
  destruct (fixed_fields f pre rest Hs Hr Ht) as (Em & _ & _ & _ & E22 & _ & E28). rewrite <- Ew in *.
  rewrite Em, E22, E28, bool_decide_true by done. cbn [negb]. fold tl.
  destruct (Z.ltb_spec (Z.of_nat n) (32 + len tl + 4)) as [Hh|Hh]; [by eexists|].
  assert (exists rest, wal = pre ++ kWalFrameMagic ++ (frame_fixed f ++ tl) ++ le_bytes 4 (Crc32.Crc32 (frame_fixed f ++ tl)) ++ rest)
    as (rest' & Ew').
  { unfold wal. rewrite Ef, app_assoc, take_app_ge by (rewrite (length_app _ (tl ++ _)), (length_app tl), length_le_bytes; lia).
    rewrite <- !app_assoc. eexists. reflexivity. }
  pose proof (Crc32.Crc32_bound _ (bytes_ok_frame f Btag Buser)) as Hc. fold tl in Hc.
  assert (len (frame_fixed f ++ tl) = 28 + len tl) as Lt
    by (rewrite length_app in *; change (length kWalFrameMagic) with 4%nat in L; lia).
  set (hd := frame_fixed f ++ tl) in *. assert (len kWalFrameMagic = 4) as L4 by done. clearbody hd.
  assert (slice wal (len pre + 4) (len pre + 32 + len tl - len pre - 4) = hd) as -> by (rewrite Ew'; seek).
  rewrite (ReadLe32_at wal (len pre + 32 + len tl) (Crc32.Crc32 hd)); [|lia|lia|done|rewrite Ew'; seek].
  rewrite Z.eqb_refl. cbn [negb]. rewrite (proj2 (Z.ltb_lt _ _)), (proj2 (Z.leb_le _ _)) by lia. by eexists.
Qed.

(** C11: a frame built by the writer after any earlier part of the batch succeeds, keeps that part, and is parsed
    back - whatever follows it - to the revision, time, user, spans and value changes that were written. *)
Theorem wal_frame_roundtrip g l skip slots f batch post : geometry_ok g -> frame_fits g l slots f ->
  exists b size p, BuildFrame batch f = Ok (b, size) /\ take (length batch) (batch_ b) = batch /\
    ParseFrame (batch_ b ++ post) (len batch) g skip slots = Ok (FrameOk p) /\
    frame_size p = size /\ frame_reads (batch_ b ++ post) p f.
Proof.
  intros Hg Hf. destruct (BuildFrame_ok batch f (ff_sized _ _ _ _ Hf)) as (b & Hb & Eb).
  destruct (ParseFrame_ok g l skip slots f batch post Hg Hf) as (p & Hp & Hr). rewrite app_assoc, <- Eb in Hp, Hr.
  exists b, (len (frame_bytes f)), p. split; [done|]. split; [by rewrite Eb, take_app_length|].
  split; [done|]. split; [apply Hr|done].
Qed.

End WalFrame.
