(* ===== verification/Fuel.v ===== *)
(** * No loop runs out of fuel

    The loops of the program that are not bounded by a counter are modelled
    with fuel, and [out_of_fuel] marks a loop that used it up.  Here: none
    does, through every function that brings the state of a chunk from one
    schema version to the next, reads a chunk image or parses a WAL frame, on
    any input. *)
From stdpp Require Import prelude strings gmap sorting.
From Stdlib Require Import ZArith Lia.
From S2P Require Import Prelude Bits BitCodec Zrle Crc32 Vars Columns Schema Layout Geometry Features LittleEndian ChunkFormat WalFrame.

#[local] Open Scope Z_scope.

Module Fuel.
Import Columns Schema Layout Geometry Features LittleEndian ChunkFormat WalFrame.

Definition fueled {A} (r : res A) : Prop := r <> Err out_of_fuel.

Lemma fueled_Ok {A} (a : A) : fueled (Ok a).
Proof. discriminate. Qed.

Lemma fueled_Err {A} e : e <> out_of_fuel -> fueled (@Err A e).
Proof. intros H E. injection E as E. done. Qed.

Lemma fueled_bind {A B} (m : res A) (f : A -> res B) : fueled m -> (forall a, m = Ok a -> fueled (f a)) -> fueled (m ≫= f).
Proof. unfold fueled. intros Hm Hf. destruct m as [a|e]; cbn; [by apply Hf|]. intros E. apply Hm. congruence. Qed.

Lemma fueled_throw b e : e <> out_of_fuel -> fueled (throw_if b e).
Proof. intros H. destruct b; [by apply fueled_Err|apply fueled_Ok]. Qed.

Lemma fueled_fold {A S} (f : S -> A -> res S) l : (forall s a, a ∈ l -> fueled (f s a)) -> forall s, fueled (fold_res f s l).
Proof.
  induction l as [|a l IH]; intros Hf s; cbn; [apply fueled_Ok|]. apply fueled_bind; [apply Hf; by left|].
  intros s' _. apply IH. intros. apply Hf. by right.
Qed.

Create HintDb fueled.
#[export] Hint Resolve fueled_Ok : fueled.

(** Follows the definition to its returns, throws and calls. *)
Ltac fueled :=
  repeat first
    [ progress intros
    | solve [eauto with fueled]
    | match goal with
      | |- fueled (Ok _) => apply fueled_Ok
      | |- fueled (Err _) => apply fueled_Err; discriminate
      | |- fueled (throw_if _ _) => apply fueled_throw; discriminate
      | |- fueled (_ ≫= _) => apply fueled_bind
      | |- fueled (fold_res _ _ _) => apply fueled_fold
      | |- fueled (let '(_, _) := ?x in _) => destruct x
      | |- fueled (if ?b then _ else _) => destruct b
      | |- fueled (match ?x with _ => _ end) => destruct x
      end
    | progress cbv zeta ].

(** ** Values *)

Lemma EncodeDigits_fueled i digits out : fueled (EncodeDigits i digits out).
Proof. revert i out; induction digits as [|c digits IH]; intros i out; cbn [EncodeDigits]; fueled. Qed.
#[export] Hint Resolve EncodeDigits_fueled : fueled.

Lemma EncodeRaw_fueled t v : fueled (EncodeRaw t v).
Proof. unfold EncodeRaw, WrongType. fueled. Qed.
#[export] Hint Resolve EncodeRaw_fueled : fueled.

Lemma EncodeColumnValueInto_fueled c v : fueled (EncodeColumnValueInto c v).
Proof. unfold EncodeColumnValueInto, WrongType. fueled. Qed.
#[export] Hint Resolve EncodeColumnValueInto_fueled : fueled.

Lemma DecodeColumnValue_fueled c d : fueled (DecodeColumnValue c d).
Proof. unfold DecodeColumnValue. fueled. Qed.
#[export] Hint Resolve DecodeColumnValue_fueled : fueled.

Lemma EncodeVarValue_fueled c v : fueled (EncodeVarValue c v).
Proof. unfold EncodeVarValue, WrongType. fueled. Qed.
#[export] Hint Resolve EncodeVarValue_fueled : fueled.

Lemma accessors_fueled v : fueled (IntegerOf v) /\ fueled (FloatOf v) /\ fueled (BytesOf v).
Proof. unfold IntegerOf, FloatOf, BytesOf, bad_variant_access. repeat split; fueled. Qed.

Lemma Fit_fueled t v : fueled (Fit t v).
Proof. destruct (accessors_fueled v) as (? & ? & ?). unfold Fit, bad_variant_access. fueled. Qed.

Lemma ConvertValue_fueled from to conv v : fueled (ConvertValue from to conv v).
Proof.
  destruct (accessors_fueled v) as (? & ? & ?). pose proof (Fit_fueled (type to) v).
  unfold ConvertValue, Clamp, Truncate, FallbackOf, bad_variant_access. fueled.
Qed.
#[export] Hint Resolve ConvertValue_fueled : fueled.

(** ** Translation *)

Lemma Merge_fueled v cs : fueled (Vars.Merge v cs).
Proof.
  assert (forall cs last, fueled (Vars.RequireAscending last cs)) as H
    by (induction cs0 as [|c cs0 IH]; intros last; cbn [Vars.RequireAscending]; fueled).
  unfold Vars.Merge. fueled.
Qed.
#[export] Hint Resolve Merge_fueled : fueled.

Lemma ConvertVar_fueled before after conv e : fueled (ConvertVar before after conv e).
Proof. unfold ConvertVar. fueled. Qed.
#[export] Hint Resolve ConvertVar_fueled : fueled.

Lemma ConvertBlock_fueled before after conv f1 f2 presence payload next block :
  fueled (ConvertBlock before after conv f1 f2 presence payload next block).
Proof. unfold ConvertBlock. fueled. Qed.
#[export] Hint Resolve ConvertBlock_fueled : fueled.

Lemma TranslateColumn_fueled from to presence payload vars st ic :
  fueled (TranslateColumn from to presence payload vars st ic).
Proof. unfold TranslateColumn, ConvertColumn, CopyColumn, ConversionOf. fueled. Qed.
#[export] Hint Resolve TranslateColumn_fueled : fueled.

Lemma TranslateChunk_fueled from to presence payload vars : fueled (TranslateChunk from to presence payload vars).
Proof. unfold TranslateChunk. fueled. Qed.
#[export] Hint Resolve TranslateChunk_fueled : fueled.

Lemma MakeLayout_fueled s n m : ValidateTableSchema s = Ok tt -> fueled (MakeLayout s n m).
Proof. intros H. unfold MakeLayout. rewrite H, bind_Ok_l. apply fueled_bind; [|fueled]. apply fueled_fold. unfold PlaceColumn. fueled. Qed.

(** The layout of a version the table has, and of one it lacks. *)
Lemma LayoutFresh_fueled g v : geometry_ok g -> 0 <= v -> fueled (LayoutFresh g v).
Proof.
  intros Hg Hv. pose proof Hg as [_ Hl _ _ _]. unfold LayoutFresh. destruct (v =? _) eqn:E; [apply fueled_Ok|].
  destruct (decide (1 <= v <= version (schema_ (layout_ g)))) as [Hin|Hout].
  - destruct (SchemaAtVersion_ok _ v (lo_version _ Hl) (lo_schema _ Hl) Hin) as (s & -> & _ & Hs & _).
    rewrite bind_Ok_l. by apply MakeLayout_fueled.
  - unfold SchemaAtVersion. assert ((v =? 0) || (version (schema_ (layout_ g)) <? v) = true) as ->
      by (rewrite orb_true_iff, Z.eqb_eq, Z.ltb_lt; lia). cbn. apply fueled_Err. discriminate.
Qed.

Lemma BringForward_fueled g presence : geometry_ok g -> forall n v payload vars, 0 <= v ->
  fueled (BringForward n g v presence payload vars).
Proof.
  intros Hg. induction n as [|n IH]; intros v payload vars Hv; cbn [BringForward]; [apply fueled_Ok|].
  apply fueled_bind; [by apply LayoutFresh_fueled|intros]. apply fueled_bind; [apply LayoutFresh_fueled; [done|lia]|intros].
  apply fueled_bind; [apply TranslateChunk_fueled|intros [] _]. apply IH. lia.
Qed.

(** ** WAL frames *)

Lemma fueled_parser_bind {A B} (m : parser A) (f : A -> parser B) : fueled m -> (forall a, m = mret a -> fueled (f a)) ->
  fueled (m ≫= f : parser B).
Proof.
  unfold fueled. intros Hm Hf. destruct m as [[a|r]|e]; cbn; [by apply Hf|discriminate|]. intros E. apply Hm. congruence.
Qed.

Lemma fueled_stop_if b r : fueled (stop_if b r).
Proof. destruct b; apply fueled_Ok. Qed.
#[export] Hint Resolve fueled_stop_if : fueled.

(** The same in the parser's monad. *)
Ltac pfueled :=
  repeat first
    [ progress intros
    | solve [eauto with fueled]
    | match goal with
      | |- fueled (mret _) => apply fueled_Ok
      | |- fueled (stop _) => apply fueled_Ok
      | |- fueled (_ ≫= _) => apply fueled_parser_bind
      | |- fueled (let '(_, _) := ?x in _) => destruct x
      | |- fueled (if ?b then _ else _) => destruct b
      end
    | progress cbv zeta ].

Lemma ParseTlvs_fueled wal crc_at skip slots : forall fuel at_ t, crc_at - at_ <= Z.of_nat fuel ->
  fueled (ParseTlvs fuel wal at_ crc_at skip slots t).
Proof.
  induction fuel as [|fuel IH]; intros at_ t Hf; cbn [ParseTlvs]; destruct (Z.ltb_spec at_ crc_at); try apply fueled_Ok; [lia|].
  apply fueled_parser_bind; [apply fueled_stop_if|intros _ _]. apply fueled_parser_bind; [apply fueled_stop_if|intros _ _].
  apply fueled_parser_bind; [unfold ParseTlv; pfueled|intros t' _]. apply IH. pose proof (ReadLe16_bound wal (at_ + 2)) as [? _].
  unfold kWalTlvHeaderSize. lia.
Qed.

Lemma ParseTlvs_version wal crc_at skip slots : bytes_ok wal -> forall fuel at_ t t', 0 <= tlv_schema_version t ->
  ParseTlvs fuel wal at_ crc_at skip slots t = mret t' -> 0 <= tlv_schema_version t'.
Proof.
  intros Hb. induction fuel as [|fuel IH]; intros at_ t t' Ht H; cbn [ParseTlvs] in H;
    (destruct (at_ <? crc_at); [|by injection H as <-]); [discriminate|].
  destruct (crc_at - at_ <? _); [discriminate|]. cbn [stop_if mbind parser_bind mret parser_ret] in H.
  destruct (_ <? ReadLe16 wal (at_ + 2)); [discriminate|]. cbn [stop_if mbind parser_bind mret parser_ret] in H.
  destruct (ParseTlv _ _ _ _ _ _ _) as [[t1|]|] eqn:E; try discriminate. apply (IH _ t1 _) in H; [done|].
  unfold ParseTlv in E. destruct (_ =? kWalTlvTag); [destruct (_ || _); [discriminate|]; by injection E as <-|].
  destruct (_ =? kWalTlvSchema).
  { destruct (_ || _); [discriminate|]. injection E as <-. by apply ReadLe64_nonneg. }
  destruct (_ =? kWalTlvUser); [destruct (_ || _); [discriminate|]; by injection E as <-|].
  destruct (negb skip); [discriminate|]. by injection E as <-.
Qed.

Lemma Decode_fueled d bc : bytes_ok d -> fueled (Vars.Decode d bc).
Proof.
  intros Hb. unfold Vars.Decode. fueled. by apply Vars.DecodeLoop_fuel; [|done|lia].
Qed.

Lemma ParseRecords_fueled wal e shape : bytes_ok wal -> forall n st, fueled (ParseRecords n wal e shape st).
Proof.
  intros Hb. assert (forall st, fueled (ParseRecord wal e shape st)) as H.
  { intros [rs at_]. unfold ParseRecord, ParseRecordBody, ParseVarRecord. pfueled.
    match goal with |- fueled (match Vars.Decode ?d ?bc with _ => _ end) => pose proof (Decode_fueled d bc (bytes_ok_slice _ _ _ Hb)) as Hd;
      destruct (Vars.Decode d bc) as [?|[]] end; try apply fueled_Ok; try (apply fueled_Err; discriminate). done. }
  induction n as [|n IH]; intros st; cbn [ParseRecords]; [apply fueled_Ok|]. apply fueled_parser_bind; [apply H|intros; apply IH].
Qed.

Lemma lift_fueled {A} (r : res A) : fueled r -> fueled (lift r).
Proof. unfold fueled. destruct r; cbn; [done|]. intros H E. apply H. congruence. Qed.

(** Every byte string is parsed, as a frame or not, at any place. *)
Lemma ParseFrame_fueled wal cursor g skip slots : geometry_ok g -> bytes_ok wal ->
  fueled (ParseFrame wal cursor g skip slots).
Proof.
  intros Hg Hb. assert (fueled (ParseContent wal cursor g skip slots)) as Hc.
  { unfold ParseContent. cbv zeta. apply fueled_parser_bind; [apply fueled_stop_if|intros _ _].
    apply fueled_parser_bind; [apply fueled_stop_if|intros _ _].
    apply fueled_parser_bind. { apply ParseTlvs_fueled. pose proof (ReadLe16_bound wal (cursor + 22)) as [? _]. lia. }
    intros t Ht. apply fueled_parser_bind; [apply fueled_stop_if|intros _ _].
    apply fueled_parser_bind. { apply lift_fueled, LayoutFresh_fueled; [done|].
      by eapply ParseTlvs_version; [done| |exact Ht]. }
    intros l _. apply fueled_parser_bind; [by apply ParseRecords_fueled|intros [rs at_] _].
    apply fueled_parser_bind; [apply fueled_stop_if|intros _ _]. apply fueled_parser_bind; [apply fueled_stop_if|intros _ _].
    apply fueled_Ok. }
  unfold ParseFrame. destruct (ParseContent wal cursor g skip slots) as [[]|e]; [fueled..|].
  assert (fueled (@Err FrameResult e)) by (intros E; apply Hc; congruence). fueled.
Qed.

End Fuel.
