(* ===== verification/WalReplay.v ===== *)
(** * Replaying a write-ahead log (src/src/wal_replay.cpp)

    ReplayWal applies the frames of a WAL, in order, to the state of the
    chunk's image; captured frames of the change feed go through the same
    parser.  The theorems say what a restart finds: exactly the mutations whose
    frames are complete, however the last one was cut. *)
From stdpp Require Import prelude strings gmap.
From Stdlib Require Import ZArith Lia.
From S2P Require Import Prelude Bits BitCodec Crc32 Vars Columns Schema Layout Geometry Features LittleEndian ChunkFormat WalFrame Fuel.

#[local] Open Scope Z_scope.

Module WalReplay.
Import Columns Schema Layout Geometry Features LittleEndian ChunkFormat WalFrame Fuel.

(** ** Applying a frame *)

Definition ApplyFrameVars (wal : bytes) (frame : ParsedFrame) (vars : Vars.ChunkVars) : res Vars.ChunkVars :=
  match frame_var_replace frame with
  | Some v => Ok v
  | None =>
      match frame_var_ops frame with
      | [op] =>
          if var_put op then Vars.Assign vars (var_key op) (value_of wal op)
          else Ok (Vars.Remove vars (var_key op)).2
      | ops => Vars.Merge vars (read_changes wal ops)
      end
  end.

(** The state with the bytes of the spans written into it. *)
Definition ApplySpans (wal : bytes) (spans : list PendingSpan) (state : bytes) : bytes :=
  fold_left (fun state s => splice state (span_offset s) (slice wal (span_source s) (span_size s))) spans state.

(** ** The start of a file whose creation was interrupted *)

Definition kComparedEnd : Z := kWalHeaderSize - 4.

Fixpoint MatchHeader (fuel : nat) (wal expected : bytes) (matched : Z) : Z :=
  match fuel with
  | O => matched
  | S fuel' =>
      if (matched <? len wal) && (matched <? kComparedEnd) &&
         (((12 <=? matched) && (matched <? 24)) || (byte_at wal matched =? byte_at expected matched))
      then MatchHeader fuel' wal expected (matched + 1)
      else matched
  end.

Definition IsInterruptedCreation (wal : bytes) (coord : ChunkCoord) (store_id : bytes) : bool :=
  let expected := BuildWalHeader coord store_id no_features in
  let matched := MatchHeader (Z.to_nat kComparedEnd) wal expected 0 in
  let matched := if matched =? kComparedEnd then Z.min (len wal) kWalHeaderSize else matched in
  forallb (fun b => b =? 0) (drop (Z.to_nat matched) wal).

Definition HasValidFrameHeaderAfter (wal : bytes) (cursor : Z) : bool :=
  existsb (fun at_ =>
      bool_decide (slice wal at_ kWalFrameMagicSize = kWalFrameMagic) &&
      (let tlv_size := ReadLe16 wal (at_ + 22) in
       let crc_at := at_ + kWalFrameFixedHeaderSize + tlv_size in
       (crc_at + kWalFrameHeaderCrcSize <=? len wal) &&
       (Crc32.Crc32 (slice wal (at_ + kWalFrameMagicSize) (crc_at - at_ - kWalFrameMagicSize)) =? ReadLe32 wal crc_at)))
    (seqZ (cursor + 1) (len wal - kWalFrameFixedHeaderSize - cursor)).

(** ** Captured frames of the change feed *)

Record ChunkState := {
  cs_version : Z;
  cs_payload : bytes;
  cs_presence : bytes;
  cs_vars : Vars.ChunkVars;
  cs_written : bool
}.

Record FeedFrameInfo := {
  info_revision : Z;
  info_commit_time_ms : Z;
  info_schema_version : Z;
  info_user : option bytes;
  info_gc : bool
}.

Definition slots_enabled (features : FeatureFlags) : bool := negb (Z.land (incompat features) kFeatureFeedSlots =? 0).

Definition frame_info (frame : ParsedFrame) : FeedFrameInfo :=
  {| info_revision := frame_revision frame; info_commit_time_ms := frame_commit_time_ms frame;
     info_schema_version := frame_schema_version frame; info_user := frame_user frame; info_gc := frame_gc frame |}.

(** The one frame the bytes are. *)
Definition ParseWhole (data : bytes) (g : Geometry) (features : FeatureFlags) (msg : string) : res ParsedFrame :=
  r ← ParseFrame data 0 g (MaySkipUnknownTypes features) (slots_enabled features);
  match r with
  | FrameOk frame => if negb (frame_size frame =? len data) then Err (runtime_error msg) else Ok frame
  | FrameStop _ _ _ => Err (runtime_error msg)
  end.

Definition InspectFeedFrame (data : bytes) (g : Geometry) (features : FeatureFlags) : res FeedFrameInfo :=
  frame ← ParseWhole data g features "invalid feed archive frame: ";
  Ok (frame_info frame).

(** One span written into a payload and a presence bitmap kept apart. *)
Definition ApplySplitSpan (data : bytes) (st : bytes * bytes) (s : PendingSpan) : bytes * bytes :=
  let '(payload, presence) := st in
  let payload_end := len payload in
  let first := Z.min (span_offset s) payload_end in
  let last := Z.min (span_offset s + span_size s) payload_end in
  let payload' := splice payload first (slice data (span_source s) (last - first)) in
  let presence' :=
    if payload_end <? span_offset s + span_size s then
      let presence_first := Z.max (span_offset s) payload_end in
      splice presence (presence_first - payload_end)
        (slice data (span_source s + presence_first - span_offset s) (span_offset s + span_size s - presence_first))
    else presence in
  (payload', presence').

Definition ReplayFeedFrame (data : bytes) (g : Geometry) (state : ChunkState) (features : FeatureFlags)
    : res (ChunkState * FeedFrameInfo) :=
  frame ← ParseWhole data g features "invalid captured feed frame: ";
  layout ← LayoutFresh g (frame_schema_version frame);
  _ ← throw_if (negb (len (cs_payload state) =? payload_bytes_ layout) ||
                negb (len (cs_presence state) =? ChunkPresenceBitmapBytes g))
        (logic_error "captured feed state has another layout");
  _ ← throw_if (frame_gc frame && ChunkPresent (cs_presence state))
        (runtime_error "invalid captured feed frame: frame_gc_present_state");
  let '(payload, presence) := fold_left (ApplySplitSpan data) (frame_spans frame) (cs_payload state, cs_presence state) in
  vars ← ApplyFrameVars data frame (cs_vars state);
  _ ← RequireValidVars layout vars presence;
  Ok ({| cs_version := frame_revision frame; cs_payload := payload; cs_presence := presence; cs_vars := vars;
         cs_written := cs_written state |}, frame_info frame).

(** ** Replay *)

Record WalReplayResult := {
  applied_records : Z;
  applied_frames : Z;
  skipped_frames : Z;
  revision : Z;
  commit_time_ms : Z;
  replayable : bool;
  torn_creation : bool;
  tail_truncated_or_corrupt : bool;
  stopped_at_crash_tail : bool;
  valid_end : Z;
  stop_reason : string;
  vars_problem : string
}.

Record WalFrameBoundary := { boundary_revision : Z; boundary_end : Z }.

Definition no_result : WalReplayResult :=
  {| applied_records := 0; applied_frames := 0; skipped_frames := 0; revision := 0; commit_time_ms := 0;
     replayable := false; torn_creation := false; tail_truncated_or_corrupt := false; stopped_at_crash_tail := false;
     valid_end := 0; stop_reason := ""; vars_problem := "" |}.

(** [e.what()]. *)
Definition what (e : exn) : string :=
  match e with
  | runtime_error w | invalid_argument w | logic_error w | out_of_range w | length_error w | overflow_error w | conflict_error w | parse_error w
  | undefined w => w
  | out_of_fuel => ""
  end.

(** The variables of the loop: the result so far, the state and the schema
    version it is laid out by (0: no image), the values, where the next frame
    starts, the last revision, and the ends of the accepted frames. *)
Record Replay := {
  re_result : WalReplayResult;
  re_state : bytes;
  re_version : Z;
  re_vars : Vars.ChunkVars;
  re_cursor : Z;
  re_previous : Z;
  re_boundaries : list WalFrameBoundary
}.

(** The lambda move_state_to; [presence] is the caller's bitmap. *)
Definition MoveStateTo (g : Geometry) (presence : bytes) (state : bytes) (state_version : Z) (vars : Vars.ChunkVars)
    (v : Z) : res (bytes * Vars.ChunkVars) :=
  to ← LayoutFresh g v;
  if state_version =? 0 then Ok (zeros (payload_bytes_ to) ++ presence, vars)
  else
    from ← LayoutFresh g state_version;
    let state_payload := take (Z.to_nat (payload_bytes_ from)) state in
    let state_presence := drop (Z.to_nat (payload_bytes_ from)) state in
    '(state_payload, vars) ← BringForward (Z.to_nat (v - state_version)) g state_version state_presence state_payload vars;
    Ok (state_payload ++ state_presence, vars).

(** The result of a loop that stopped at a frame. *)
Definition stopped (r : WalReplayResult) (reason : string) (crash_tail : bool) : WalReplayResult :=
  {| applied_records := applied_records r; applied_frames := applied_frames r; skipped_frames := skipped_frames r;
     revision := revision r; commit_time_ms := commit_time_ms r; replayable := replayable r;
     torn_creation := torn_creation r; tail_truncated_or_corrupt := true; stopped_at_crash_tail := crash_tail;
     valid_end := valid_end r; stop_reason := reason; vars_problem := vars_problem r |}.

Definition with_result (st : Replay) (r : WalReplayResult) : Replay :=
  {| re_result := r; re_state := re_state st; re_version := re_version st; re_vars := re_vars st;
     re_cursor := re_cursor st; re_previous := re_previous st; re_boundaries := re_boundaries st |}.

(** A valid frame the image already holds. *)
Definition skip_frame (st : Replay) (frame : ParsedFrame) : Replay :=
  let r := re_result st in
  let cursor := re_cursor st + frame_size frame in
  {| re_result :=
       {| applied_records := applied_records r; applied_frames := applied_frames r;
          skipped_frames := skipped_frames r + 1; revision := revision r; commit_time_ms := commit_time_ms r;
          replayable := replayable r; torn_creation := torn_creation r;
          tail_truncated_or_corrupt := tail_truncated_or_corrupt r; stopped_at_crash_tail := stopped_at_crash_tail r;
          valid_end := valid_end r; stop_reason := stop_reason r; vars_problem := vars_problem r |};
     re_state := re_state st; re_version := re_version st; re_vars := re_vars st; re_cursor := cursor;
     re_previous := frame_revision frame;
     re_boundaries := re_boundaries st ++ [{| boundary_revision := frame_revision frame; boundary_end := cursor |}] |}.

(** A frame applied to [state] and [vars], which are laid out by its version. *)
Definition apply_frame (wal : bytes) (st : Replay) (frame : ParsedFrame) (state : bytes) (vars : Vars.ChunkVars) : Replay :=
  let r := re_result st in
  let cursor := re_cursor st + frame_size frame in
  {| re_result :=
       {| applied_records := applied_records r + frame_record_count frame; applied_frames := applied_frames r + 1;
          skipped_frames := skipped_frames r; revision := frame_revision frame;
          commit_time_ms := frame_commit_time_ms frame; replayable := replayable r; torn_creation := torn_creation r;
          tail_truncated_or_corrupt := tail_truncated_or_corrupt r; stopped_at_crash_tail := stopped_at_crash_tail r;
          valid_end := valid_end r; stop_reason := stop_reason r; vars_problem := vars_problem r |};
     re_state := ApplySpans wal (frame_spans frame) state; re_version := frame_schema_version frame; re_vars := vars;
     re_cursor := cursor; re_previous := frame_revision frame;
     re_boundaries := re_boundaries st ++ [{| boundary_revision := frame_revision frame; boundary_end := cursor |}] |}.

(** One turn of the loop: the variables after it, and whether it goes on. *)
Definition ReplayStep (wal : bytes) (g : Geometry) (may_skip_unknown slots : bool) (base_revision : Z) (presence : bytes)
    (st : Replay) : res (Replay * bool) :=
  parsed ← ParseFrame wal (re_cursor st) g may_skip_unknown slots;
  let parsed :=
    match parsed with
    | FrameOk frame =>
        if frame_revision frame <=? re_previous st then
          FrameStop "frame_revision_order" (len wal - re_cursor st <=? frame_size frame) true
        else parsed
    | FrameStop _ _ _ => parsed
    end in
  match parsed with
  | FrameStop reason reaches_end intact =>
      Ok (with_result st (stopped (re_result st) reason
            (negb intact && (reaches_end || negb (HasValidFrameHeaderAfter wal (re_cursor st))))), false)
  | FrameOk frame =>
      if frame_revision frame <=? base_revision then Ok (skip_frame st frame, true)
      else if frame_schema_version frame <? re_version st then
        Ok (with_result st (stopped (re_result st) "frame_schema_version_order" false), false)
      else
        '(state, vars) ← (if negb (frame_schema_version frame =? re_version st) then
                            MoveStateTo g presence (re_state st) (re_version st) (re_vars st) (frame_schema_version frame)
                          else Ok (re_state st, re_vars st));
        layout ← LayoutFresh g (frame_schema_version frame);
        if frame_gc frame && existsb (fun b => negb (b =? 0)) (drop (Z.to_nat (payload_bytes_ layout)) state) then
          Ok ({| re_result := stopped (re_result st) "frame_gc_present_state" false; re_state := state;
                 re_version := frame_schema_version frame; re_vars := vars; re_cursor := re_cursor st;
                 re_previous := frame_revision frame; re_boundaries := re_boundaries st |}, false)
        else
          vars ← (if bool_decide (length (frame_var_ops frame) = 0%nat) &&
                     match frame_var_replace frame with Some _ => false | None => true end
                  then Ok vars
                  else ApplyFrameVars wal frame vars);
          Ok (apply_frame wal st frame state vars, true)
  end.

(** The loop; every accepted frame takes at least its fixed header. *)
Fixpoint ReplayLoop (fuel : nat) (wal : bytes) (g : Geometry) (may_skip_unknown slots : bool) (base_revision : Z)
    (presence : bytes) (st : Replay) : res Replay :=
  if re_cursor st <? len wal then
    match fuel with
    | O => Err out_of_fuel
    | S fuel' =>
        '(st, go) ← ReplayStep wal g may_skip_unknown slots base_revision presence st;
        if go : bool then ReplayLoop fuel' wal g may_skip_unknown slots base_revision presence st else Ok st
    end
  else Ok st.

(** What the checks of the values after the last frame find. *)
Definition VarsProblem (g : Geometry) (vars : Vars.ChunkVars) (presence : bytes) : res string :=
  if Vars.kVarMaxChunkBytesLimit <? Vars.encoded_size vars then Ok "values take bytes, more than"%string
  else
    match RequireValidVars (layout_ g) vars presence with
    | Ok _ => Ok ""%string
    | Err (invalid_argument w) => Ok w
    | Err e => Err e
    end.

(** What ReplayWal leaves in its arguments and returns. *)
Record Replayed := {
  out_result : WalReplayResult;
  out_payload : bytes;
  out_presence : bytes;
  out_vars : Vars.ChunkVars;
  out_boundaries : list WalFrameBoundary
}.

Definition set_stop (r : WalReplayResult) (torn : bool) (reason : string) : WalReplayResult :=
  {| applied_records := applied_records r; applied_frames := applied_frames r; skipped_frames := skipped_frames r;
     revision := revision r; commit_time_ms := commit_time_ms r; replayable := replayable r; torn_creation := torn;
     tail_truncated_or_corrupt := tail_truncated_or_corrupt r; stopped_at_crash_tail := stopped_at_crash_tail r;
     valid_end := valid_end r; stop_reason := reason; vars_problem := vars_problem r |}.

Definition set_end (r : WalReplayResult) (valid_end : Z) (problem : string) : WalReplayResult :=
  {| applied_records := applied_records r; applied_frames := applied_frames r; skipped_frames := skipped_frames r;
     revision := revision r; commit_time_ms := commit_time_ms r; replayable := replayable r;
     torn_creation := torn_creation r; tail_truncated_or_corrupt := tail_truncated_or_corrupt r;
     stopped_at_crash_tail := stopped_at_crash_tail r; valid_end := valid_end; stop_reason := stop_reason r;
     vars_problem := problem |}.

(** The loop's variables before the first frame. *)
Definition start_replay (state : bytes) (state_version : Z) (vars : Vars.ChunkVars) : Replay :=
  {| re_result := {| applied_records := 0; applied_frames := 0; skipped_frames := 0; revision := 0; commit_time_ms := 0;
                     replayable := true; torn_creation := false; tail_truncated_or_corrupt := false;
                     stopped_at_crash_tail := false; valid_end := 0; stop_reason := ""; vars_problem := "" |};
     re_state := state; re_version := state_version; re_vars := vars; re_cursor := kWalHeaderSize; re_previous := 0;
     re_boundaries := [] |}.

Definition ReplayWal (wal : bytes) (g : Geometry) (coord : ChunkCoord) (store_id : bytes) (store_features : FeatureFlags)
    (base_revision base_schema_version : Z) (payload presence : bytes) (vars : Vars.ChunkVars) : res Replayed :=
  let header := if len wal <? kWalHeaderSize then Err (runtime_error "WAL file too small")
                else ValidateWalHeader wal coord store_id store_features in
  match header with
  | Err e =>
      '(payload, vars) ← BringToCurrentSchema g base_schema_version presence payload vars;
      let result := if IsInterruptedCreation wal coord store_id then set_stop no_result true "torn_creation"
                    else set_stop no_result false ("invalid_header: " +:+ what e) in
      Ok {| out_result := result; out_payload := payload; out_presence := presence; out_vars := vars;
            out_boundaries := [] |}
  | Ok _ =>
      let file_features := {| incompat := ReadLe32 wal 12; ro_compat := ReadLe32 wal 16; compat := ReadLe32 wal 20 |} in
      let may_skip_unknown := MaySkipUnknownTypes (UnionFeatures file_features store_features) in
      let current_version := version (schema_ (layout_ g)) in
      _ ← throw_if (current_version <? base_schema_version)
            (invalid_argument "chunk state is of a schema version the table does not have");
      state ← (if negb (base_schema_version =? 0) then
                 l ← LayoutFresh g base_schema_version;
                 _ ← throw_if (negb (len payload =? payload_bytes_ l) || negb (len presence =? ChunkPresenceBitmapBytes g))
                       (invalid_argument "chunk state size does not match its schema version");
                 Ok (payload ++ presence)
               else Ok []);
      st ← ReplayLoop (length wal) wal g may_skip_unknown (slots_enabled store_features) base_revision presence
             (start_replay state base_schema_version vars);
      '(state, vars) ← (if negb (re_version st =? current_version) then
                          MoveStateTo g presence (re_state st) (re_version st) (re_vars st) current_version
                        else Ok (re_state st, re_vars st));
      '(payload, presence) ← SplitChunkStateBytes g state;
      problem ← VarsProblem g vars presence;
      Ok {| out_result := set_end (re_result st) (re_cursor st) problem; out_payload := payload; out_presence := presence;
            out_vars := vars; out_boundaries := re_boundaries st |}
  end.

(** ** What a log means *)

(** The effect of the records on the values. *)
Definition apply_values (rs : list wal_record) (vars : Vars.ChunkVars) : res Vars.ChunkVars :=
  match replace_of rs with
  | Some v => Ok v
  | None =>
      match changes_of rs with
      | [] => Ok vars
      | [c] => Vars.ChangeOne vars c
      | cs => Vars.Merge vars cs
      end
  end.

Definition write_spans (spans : list (Z * bytes)) (state : bytes) : bytes :=
  fold_left (fun state s => splice state s.1 s.2) spans state.

(** A chunk: the schema version it is laid out by (0 without an image), its
    payload and presence as one string of bytes, and its values. *)
Abbreviation chunk_t := (Z * bytes * Vars.ChunkVars)%type.

(** One mutation, applied to a chunk of its version or an earlier one; a
    collection marker only to a chunk without blocks. *)
Definition mutate (g : Geometry) (presence : bytes) (c : chunk_t) (f : frame_t) : res chunk_t :=
  let '(v, state, vars) := c in
  _ ← throw_if (fr_version f <? v) (logic_error "a mutation of an earlier schema version");
  '(state, vars) ← (if negb (fr_version f =? v) then MoveStateTo g presence state v vars (fr_version f)
                    else Ok (state, vars));
  layout ← LayoutFresh g (fr_version f);
  _ ← throw_if (fr_gc f && existsb (fun b => negb (b =? 0)) (drop (Z.to_nat (payload_bytes_ layout)) state))
        (logic_error "a collection marker over blocks");
  vars ← apply_values (fr_records f) vars;
  Ok (fr_version f, write_spans (spans_of (fr_records f)) state, vars).

(** The mutations of a log above a revision, in order. *)
Definition run_log (g : Geometry) (presence : bytes) (base_revision : Z) (c : chunk_t) (fs : list frame_t) : res chunk_t :=
  fold_res (mutate g presence) c (filter (fun f => base_revision < fr_revision f) fs).

(** A chunk at the table's current version, its bytes split. *)
Definition settle (g : Geometry) (presence : bytes) (c : chunk_t) : res (bytes * bytes * Vars.ChunkVars) :=
  let '(v, state, vars) := c in
  '(state, vars) ← (if negb (v =? version (schema_ (layout_ g))) then
                      MoveStateTo g presence state v vars (version (schema_ (layout_ g)))
                    else Ok (state, vars));
  '(payload, presence) ← SplitChunkStateBytes g state;
  Ok (payload, presence, vars).

(** Frames whose revisions increase from above [previous]. *)
Fixpoint revisions_from (previous : Z) (fs : list frame_t) : Prop :=
  match fs with
  | [] => True
  | f :: fs' => previous < fr_revision f /\ revisions_from (fr_revision f) fs'
  end.

Definition fits (g : Geometry) (slots : bool) (f : frame_t) : Prop := exists l, frame_fits g l slots f.

(** ** A frame has the effect of its mutation *)

Lemma ApplySpans_read wal spans state : ApplySpans wal spans state = write_spans (read_spans wal spans) state.
Proof. revert state; induction spans as [|s spans IH]; intros state; [done|apply IH]. Qed.

Lemma ApplyFrameVars_read wal p f vars : frame_reads wal p f ->
  (if bool_decide (length (frame_var_ops p) = 0%nat) && match frame_var_replace p with Some _ => false | None => true end
   then Ok vars else ApplyFrameVars wal p vars) = apply_values (fr_records f) vars.
Proof.
  intros [_ _ _ _ _ _ _ Hc Hr _]. unfold ApplyFrameVars, apply_values. rewrite <- Hc, <- Hr.
  destruct (frame_var_replace p) as [v|]; [by rewrite andb_false_r|]. rewrite andb_true_r.
  destruct (frame_var_ops p) as [|op [|op' ops]]; [done| |done]. cbn. unfold Vars.ChangeOne. cbn. by destruct (var_put op).
Qed.

Definition chunk_of (st : Replay) : chunk_t := (re_version st, re_state st, re_vars st).

(** What a frame adds to the counts. *)
Definition count_frame (base_revision : Z) (r : WalReplayResult) (f : frame_t) : WalReplayResult :=
  let skipped := fr_revision f <=? base_revision in
  {| applied_records := applied_records r + (if skipped then 0 else len (fr_records f));
     applied_frames := applied_frames r + (if skipped then 0 else 1);
     skipped_frames := skipped_frames r + (if skipped then 1 else 0);
     revision := if skipped then revision r else fr_revision f;
     commit_time_ms := if skipped then commit_time_ms r else fr_time f;
     replayable := replayable r; torn_creation := torn_creation r;
     tail_truncated_or_corrupt := tail_truncated_or_corrupt r; stopped_at_crash_tail := stopped_at_crash_tail r;
     valid_end := valid_end r; stop_reason := stop_reason r; vars_problem := vars_problem r |}.

(** The ends of frames that follow one another from [at_]. *)
Fixpoint ends_from (at_ : Z) (fs : list frame_t) : list WalFrameBoundary :=
  match fs with
  | [] => []
  | f :: fs' =>
      let at' := at_ + len (frame_bytes f) in
      {| boundary_revision := fr_revision f; boundary_end := at' |} :: ends_from at' fs'
  end.

Section Log.
Context (g : Geometry) (skip slots : bool) (base_revision : Z) (presence : bytes).
Hypothesis Hg : geometry_ok g.

(** The loop takes one frame of the log. *)
Lemma ReplayStep_frame pre f post st c : fits g slots f -> re_cursor st = len pre -> re_previous st < fr_revision f ->
  run_log g presence base_revision (chunk_of st) [f] = Ok c ->
  exists st', ReplayStep (pre ++ frame_bytes f ++ post) g skip slots base_revision presence st = Ok (st', true) /\
    chunk_of st' = c /\ re_cursor st' = len pre + len (frame_bytes f) /\ re_previous st' = fr_revision f /\
    re_result st' = count_frame base_revision (re_result st) f /\
    re_boundaries st' = re_boundaries st ++
      [{| boundary_revision := fr_revision f; boundary_end := len pre + len (frame_bytes f) |}].
Proof using Hg.
  intros [l Hf] Hcur Hprev Hrun. destruct (ParseFrame_ok g l skip slots f pre post Hg Hf) as (p & Hp & Hread).
  pose proof (fun vars => ApplyFrameVars_read _ p f vars Hread) as Hvars.
  pose proof (ApplySpans_read (pre ++ frame_bytes f ++ post) (frame_spans p)) as Hspans.
  unfold ReplayStep. rewrite Hcur, Hp, bind_Ok_l. destruct Hread as [E1 E2 E3 E4 E5 E6 E7 E8 E9 E10].
  rewrite E7 in Hspans. rewrite E1, (proj2 (Z.leb_gt _ _)) by lia. cbv zeta iota beta.
  unfold run_log in Hrun. rewrite filter_cons, filter_nil in Hrun. destruct (decide (base_revision < fr_revision f)) as [Hb|Hb].
  - rewrite E1, E2, E5, (proj2 (Z.leb_gt _ _)) by lia. cbn [fold_res] in Hrun.
    apply bind_ok in Hrun as (c' & Hm & [= <-]). unfold chunk_of, mutate in Hm.
    apply bind_ok in Hm as ([] & Hv%throw_if_ok & Hm). apply bind_ok in Hm as ([state vars] & Hmove & Hm).
    apply bind_ok in Hm as (l' & Hl' & Hm). apply bind_ok in Hm as ([] & Hgc%throw_if_ok & Hm).
    apply bind_ok in Hm as (vars' & Hval & [= <-]).
    rewrite Hv, Hmove, bind_Ok_l. cbn iota. rewrite Hl', bind_Ok_l, Hgc, Hvars, Hval, bind_Ok_l. eexists. split; [reflexivity|].
    unfold apply_frame, chunk_of, count_frame. cbn [re_version re_state re_vars re_cursor re_previous re_result re_boundaries].
    rewrite E1, E2, E3, E6, E10, Hspans, Hcur, (proj2 (Z.leb_gt _ _)) by lia. rewrite Z.add_0_r. done.
  - rewrite E1, (proj2 (Z.leb_le _ _)) by lia. cbn [fold_res] in Hrun. injection Hrun as <-. eexists. split; [reflexivity|].
    unfold skip_frame, chunk_of, count_frame. cbn [re_version re_state re_vars re_cursor re_previous re_result re_boundaries].
    rewrite E1, E6, Hcur, (proj2 (Z.leb_le _ _)) by lia. rewrite !Z.add_0_r. done.
Qed.

Lemma run_log_cons c f fs : run_log g presence base_revision c (f :: fs) =
  (c ← run_log g presence base_revision c [f]; run_log g presence base_revision c fs).
Proof using.
  unfold run_log. change (f :: fs) with ([f] ++ fs). rewrite filter_app, fold_res_app. done.
Qed.

(** The loop takes the frames of the log one by one. *)
Lemma ReplayLoop_frames fs : forall pre post st c fuel, Forall (fits g slots) fs -> re_cursor st = len pre ->
  revisions_from (re_previous st) fs -> run_log g presence base_revision (chunk_of st) fs = Ok c ->
  (length fs <= fuel)%nat ->
  exists st', ReplayLoop fuel (pre ++ concat (frame_bytes <$> fs) ++ post) g skip slots base_revision presence st =
      ReplayLoop (fuel - length fs) (pre ++ concat (frame_bytes <$> fs) ++ post) g skip slots base_revision presence st' /\
    chunk_of st' = c /\ re_cursor st' = len pre + len (concat (frame_bytes <$> fs)) /\
    re_result st' = fold_left (count_frame base_revision) fs (re_result st) /\
    re_boundaries st' = re_boundaries st ++ ends_from (len pre) fs.
Proof using Hg.
  induction fs as [|f fs IH]; intros pre post st c fuel Hfit Hcur Hrev Hrun Hfuel.
  { exists st. rewrite Nat.sub_0_r, app_nil_r. injection Hrun as <-. cbn. split; [done|]. split; [done|]. split; [lia|done]. }
  apply Forall_cons in Hfit as [Hf Hfit]. destruct Hrev as [Hr Hrev]. rewrite run_log_cons in Hrun.
  apply bind_ok in Hrun as (c1 & Hrun1 & Hrun). destruct fuel as [|fuel]; [cbn in Hfuel; lia|].
  rewrite fmap_cons. cbn [concat]. rewrite <- (app_assoc (frame_bytes f)).
  destruct (ReplayStep_frame pre f (concat (frame_bytes <$> fs) ++ post) st c1) as (st1 & E1 & Hc1 & Hcur1 & Hp1 & Hr1 & Hb1); try done.
  destruct (IH (pre ++ frame_bytes f) post st1 c fuel) as (st2 & E2 & Hc2 & Hcur2 & Hr2 & Hb2); try done.
  { rewrite length_app. lia. } { by rewrite Hp1. } { by rewrite Hc1. } { cbn in Hfuel. lia. }
  exists st2. rewrite <- app_assoc in E2. cbn [length Nat.sub]. rewrite <- E2. split.
  - cbn [ReplayLoop]. rewrite E1, Hcur, (proj2 (Z.ltb_lt _ _)); [done|].
    rewrite !length_app. pose proof (len_frame_bytes f). lia.
  - split; [done|]. split; [rewrite Hcur2, !length_app; lia|]. split; [rewrite Hr2, Hr1; done|].
    rewrite Hb2, Hb1, <- app_assoc. cbn [ends_from app]. rewrite length_app, Nat2Z.inj_add. done.
Qed.

End Log.

(** ** The header of a WAL *)

Definition features_ok (f : FeatureFlags) : Prop := in_u 32 (incompat f) /\ in_u 32 (ro_compat f) /\ in_u 32 (compat f).

Definition coord_ok (c : ChunkCoord) : Prop := in_i 64 (cx c) /\ in_i 64 (cy c).

(** The header without its checksum. *)
Definition wal_fields (coord : ChunkCoord) (store_id : bytes) (f : FeatureFlags) : bytes :=
  kWalMagic ++ le_bytes 2 kWalFormatVersion ++ le_bytes 2 0 ++ le_bytes 4 (incompat f) ++ le_bytes 4 (ro_compat f) ++
  le_bytes 4 (compat f) ++ store_id ++ le_bytes 8 (u64 (cx coord)) ++ le_bytes 8 (u64 (cy coord)).

Lemma BuildWalHeader_fields coord store_id f :
  BuildWalHeader coord store_id f = wal_fields coord store_id f ++ le_bytes 4 (Crc32.Crc32 (wal_fields coord store_id f)).
Proof. unfold BuildWalHeader. rewrite !WriteLe64_bytes, !WriteLe32_bytes, !WriteLe16_bytes. done. Qed.

Lemma len_wal_fields coord store_id f : len store_id = 16 -> len (wal_fields coord store_id f) = 56.
Proof. intros H. unfold wal_fields. assert (len kWalMagic = 8) by done. len_lia. Qed.

Lemma len_wal_header coord store_id f : len store_id = 16 -> len (BuildWalHeader coord store_id f) = kWalHeaderSize.
Proof.
  intros H. rewrite BuildWalHeader_fields, length_app, length_le_bytes. pose proof (len_wal_fields coord store_id f H).
  change kWalHeaderSize with 60. lia.
Qed.

Lemma wal_header_fields coord store_id f rest : len store_id = 16 -> bytes_ok store_id -> features_ok f ->
  let wal := BuildWalHeader coord store_id f ++ rest in
  slice wal 0 8 = kWalMagic /\ ReadLe32 wal 56 = Crc32.Crc32 (slice wal 0 56) /\ ReadLe16 wal 8 = kWalFormatVersion /\
  ReadLe16 wal 10 = 0 /\
  {| incompat := ReadLe32 wal 12; ro_compat := ReadLe32 wal 16; compat := ReadLe32 wal 20 |} = f /\
  slice wal 24 16 = store_id /\ ReadLe64 wal 40 = u64 (cx coord) /\ ReadLe64 wal 48 = u64 (cy coord).
Proof.
  intros Hid Bid (F1 & F2 & F3) wal. assert (len kWalMagic = 8) as Lm by done.
  pose proof (len_wal_fields coord store_id f Hid) as Lf.
  assert (in_u 32 (Crc32.Crc32 (wal_fields coord store_id f))) as Hc.
  { apply Crc32.Crc32_bound. unfold wal_fields. repeat apply Forall_app_2; try apply bytes_ok_le_bytes; try done. apply bytes_ok_str. }
  assert (wal = wal_fields coord store_id f ++ le_bytes 4 (Crc32.Crc32 (wal_fields coord store_id f)) ++ rest) as Ew
    by (unfold wal; rewrite BuildWalHeader_fields; by rewrite <- app_assoc).
  assert (slice wal 0 56 = wal_fields coord store_id f) as E56 by (rewrite Ew; seek).
  assert (60 <= len wal) as Lw by (rewrite Ew; len_lia). rewrite E56.
  set (crc := Crc32.Crc32 (wal_fields coord store_id f)) in *. clearbody crc.
  assert (ReadLe32 wal 56 = crc) as -> by (apply ReadLe32_at; [lia|lia|done|rewrite Ew; seek]).
  unfold wal_fields in Ew. rewrite <- !app_assoc in Ew.
  split; [rewrite Ew; seek|]. split; [done|].
  split; [apply ReadLe16_at; [lia|lia|done|rewrite Ew; seek]|]. split; [apply ReadLe16_at; [lia|lia|done|rewrite Ew; seek]|].
  split. { destruct f as [f1 f2 f3]. cbn [incompat ro_compat compat] in *.
    f_equal; (apply ReadLe32_at; [lia|lia|done|rewrite Ew; seek]). }
  split; [rewrite Ew; seek|].
  split; (apply ReadLe64_at; [lia|lia|by apply wrap_bound|rewrite Ew; seek]).
Qed.

Lemma ValidateWalHeader_ok coord store_id f store_features rest : len store_id = 16 -> bytes_ok store_id ->
  features_ok f -> coord_ok coord -> IsSubsetOf f store_features = true ->
  ValidateWalHeader (BuildWalHeader coord store_id f ++ rest) coord store_id store_features = Ok tt.
Proof.
  intros Hid Bid Hf [Hx Hy] Hsub. pose proof (len_wal_header coord store_id f Hid) as Lh.
  destruct (wal_header_fields coord store_id f rest Hid Bid Hf) as (E0 & E56 & E8 & E10 & Ef & E24 & E40 & E48).
  unfold ValidateWalHeader. change (kWalHeaderSize - 4) with 56. change kWalMagicSize with 8.
  pass_guard by (apply Z.ltb_ge; rewrite length_app; lia). rewrite E0. pass_guard by (by rewrite bool_decide_true).
  pass_guard by (by rewrite E56, Z.eqb_refl). pass_guard by (by rewrite E8). pass_guard by (by rewrite E10). rewrite Ef.
  pass_guard by (by rewrite Hsub). rewrite Hid, E24. pass_guard by (by rewrite bool_decide_true).
  apply throw_if_false. rewrite E40, E48, !signed_wrap by (done || lia). by rewrite !Z.eqb_refl.
Qed.

(** ** What a restart finds *)

Lemma count_frames base fs : forall r, let r' := fold_left (count_frame base) fs r in
  applied_frames r' = applied_frames r + len (filter (fun f => base < fr_revision f) fs) /\
  skipped_frames r' = skipped_frames r + len (filter (fun f => fr_revision f <= base) fs) /\
  revision r' = default (revision r) (fr_revision <$> last (filter (fun f => base < fr_revision f) fs)) /\
  replayable r' = replayable r /\ torn_creation r' = torn_creation r /\
  tail_truncated_or_corrupt r' = tail_truncated_or_corrupt r /\ stopped_at_crash_tail r' = stopped_at_crash_tail r.
Proof.
  induction fs as [|f fs IH]; intros r r'; [cbn; repeat split; lia|]. unfold r'. cbn [fold_left].
  destruct (IH (count_frame base r f)) as (-> & -> & -> & -> & -> & -> & ->). rewrite !filter_cons.
  unfold count_frame. cbn [applied_frames skipped_frames revision replayable torn_creation tail_truncated_or_corrupt stopped_at_crash_tail].
  destruct (Z.leb_spec (fr_revision f) base).
  - rewrite (decide_False (P := base < fr_revision f)), (decide_True (P := fr_revision f <= base)) by lia. cbn [length]. repeat split; lia.
  - rewrite (decide_True (P := base < fr_revision f)), (decide_False (P := fr_revision f <= base)) by lia. cbn [length].
    split; [lia|]. split; [lia|]. split; [|done]. rewrite last_cons. by destruct (last _).
Qed.

(** A problem with the values is always a report, never an exception. *)
Lemma VarsProblem_ok g vars presence : exists s, VarsProblem g vars presence = Ok s.
Proof.
  unfold VarsProblem. destruct (_ <? _); [by eexists|].
  assert (forall es u, (exists u', fold_res (fun _ e => RequireValidVar (layout_ g) presence e) u es = Ok u') \/
    exists w, fold_res (fun _ e => RequireValidVar (layout_ g) presence e) u es = Err (invalid_argument w)) as H.
  { induction es as [|[k x] es IH]; intros u; [left; by exists u|]. cbn [fold_res].
    assert ((exists u', RequireValidVar (layout_ g) presence (k, x) = Ok u') \/
      exists w, RequireValidVar (layout_ g) presence (k, x) = Err (invalid_argument w)) as [[u' ->]|[w ->]]; [|apply IH|right; by exists w].
    unfold RequireValidVar. destruct (VarColumn _ _) as [c|]; [|right; by eexists].
    destruct (_ || _); cbn [throw_if mbind res_bind]; [right; by eexists|].
    destruct (_ <? _); cbn [throw_if mbind res_bind]; [right; by eexists|].
    destruct (bool_decide (x = []) && _); cbn [throw_if mbind res_bind]; [right; by eexists|].
    destruct (_ && _); cbn [throw_if]; [right|left]; by eexists. }
  unfold RequireValidVars. destruct (H (entries vars) tt) as [[u ->]|[w ->]]; by eexists.
Qed.

(** The chunk an image gives; none is the empty chunk without a version. *)
Definition base_chunk (v : Z) (payload presence : bytes) (vars : Vars.ChunkVars) : chunk_t :=
  (v, if v =? 0 then [] else payload ++ presence, vars).

Definition base_ok (g : Geometry) (v : Z) (payload presence : bytes) : Prop :=
  0 <= v <= version (schema_ (layout_ g)) /\
  (v <> 0 -> exists l, LayoutFresh g v = Ok l /\ len payload = payload_bytes_ l /\ len presence = ChunkPresenceBitmapBytes g).

(** The identity of a WAL: its chunk, its store and the features it was written with. *)
Record wal_id := { id_coord : ChunkCoord; id_store : bytes; id_features : FeatureFlags }.

Definition id_ok (i : wal_id) (store_features : FeatureFlags) : Prop :=
  coord_ok (id_coord i) /\ len (id_store i) = 16 /\ bytes_ok (id_store i) /\ features_ok (id_features i) /\
  IsSubsetOf (id_features i) store_features = true.

Definition wal_header (i : wal_id) : bytes := BuildWalHeader (id_coord i) (id_store i) (id_features i).

(** A file of some whole frames and, after a crash, part of one more. *)
Definition wal_bytes (i : wal_id) (fs : list frame_t) (torn : bytes) : bytes :=
  wal_header i ++ concat (frame_bytes <$> fs) ++ torn.

Definition torn_part (torn : bytes) : Prop :=
  exists f n, frame_sized f /\ in_u 64 (fr_revision f) /\ in_u 64 (fr_time f) /\ bytes_ok (fr_tag f) /\
    bytes_ok (default [] (fr_user f)) /\ (n < length (frame_bytes f))%nat /\ torn = take n (frame_bytes f).

Lemma frames_fuel fs : (length fs <= length (concat (frame_bytes <$> fs)))%nat.
Proof.
  induction fs as [|f fs IH]; [done|]. rewrite fmap_cons. cbn [concat length]. rewrite length_app.
  pose proof (len_frame_bytes f). lia.
Qed.

(** The loop at the end of the whole frames: it ends there, or stops at a torn one. *)
Lemma ReplayLoop_tail g skip slots base presence pre torn st fuel : torn_part torn -> re_cursor st = len pre ->
  tail_truncated_or_corrupt (re_result st) = false -> stopped_at_crash_tail (re_result st) = false -> (0 < fuel)%nat ->
  exists st', ReplayLoop fuel (pre ++ torn) g skip slots base presence st = Ok st' /\ chunk_of st' = chunk_of st /\
    re_cursor st' = len pre /\ re_boundaries st' = re_boundaries st /\
    tail_truncated_or_corrupt (re_result st') = negb (bool_decide (torn = [])) /\
    stopped_at_crash_tail (re_result st') = negb (bool_decide (torn = [])) /\
    applied_frames (re_result st') = applied_frames (re_result st) /\
    skipped_frames (re_result st') = skipped_frames (re_result st) /\
    revision (re_result st') = revision (re_result st) /\ replayable (re_result st') = replayable (re_result st) /\
    torn_creation (re_result st') = torn_creation (re_result st).
Proof.
  intros (f & n & Hs & Hr & Ht & Btag & Buser & Hn & ->) Hcur T1 T2 Hfuel. destruct fuel as [|fuel]; [lia|]. cbn [ReplayLoop].
  rewrite Hcur. destruct (bool_decide_reflect (take n (frame_bytes f) = [])) as [E|E].
  - rewrite E, app_nil_r, (proj2 (Z.ltb_ge _ _)) by lia. exists st. rewrite T1, T2. done.
  - rewrite (proj2 (Z.ltb_lt _ _)) by (rewrite length_app; destruct (take n (frame_bytes f)); [done|cbn; lia]).
    destruct (ParseFrame_torn g skip slots f pre n Hs Hr Ht Btag Buser Hn) as (reason & Hp).
    unfold ReplayStep. rewrite Hcur, Hp, bind_Ok_l. cbn [negb andb orb]. eexists. split; [reflexivity|]. done.
Qed.

Lemma replay_log g i store_features base v payload presence vars fs torn c p pr vs :
  geometry_ok g -> id_ok i store_features -> base_ok g v payload presence ->
  Forall (fits g (slots_enabled store_features)) fs -> revisions_from 0 fs -> torn_part torn ->
  run_log g presence base (base_chunk v payload presence vars) fs = Ok c -> settle g presence c = Ok (p, pr, vs) ->
  exists out,
    ReplayWal (wal_bytes i fs torn) g (id_coord i) (id_store i) store_features base v payload presence vars = Ok out /\
    out_payload out = p /\ out_presence out = pr /\ out_vars out = vs /\
    out_boundaries out = ends_from kWalHeaderSize fs /\
    let r := out_result out in
    valid_end r = kWalHeaderSize + len (concat (frame_bytes <$> fs)) /\
    applied_frames r = len (filter (fun f => base < fr_revision f) fs) /\
    skipped_frames r = len (filter (fun f => fr_revision f <= base) fs) /\
    revision r = default 0 (fr_revision <$> last (filter (fun f => base < fr_revision f) fs)) /\
    replayable r = true /\
    tail_truncated_or_corrupt r = negb (bool_decide (torn = [])) /\
    stopped_at_crash_tail r = negb (bool_decide (torn = [])) /\
    torn_creation r = false /\ VarsProblem g vs pr = Ok (vars_problem r).
Proof.
  intros Hg (Hcoord & Lid & Bid & Hfeat & Hsub) [Hv Hbase] Hfit Hrev Htorn Hrun Hsettle.
  pose proof (len_wal_header (id_coord i) (id_store i) (id_features i) Lid) as Lh. fold (wal_header i) in Lh.
  unfold ReplayWal, wal_bytes. change kWalHeaderSize with 60 in *.
  rewrite (proj2 (Z.ltb_ge _ _)) by (rewrite length_app; lia).
  unfold wal_header at 1. rewrite ValidateWalHeader_ok by done. pass_guard by (apply Z.ltb_ge; lia).
  set (skip := MaySkipUnknownTypes _).
  assert ((if negb (v =? 0) then l ← LayoutFresh g v;
             _ ← throw_if (negb (len payload =? payload_bytes_ l) || negb (len presence =? ChunkPresenceBitmapBytes g))
                   (invalid_argument "chunk state size does not match its schema version");
             Ok (payload ++ presence) else Ok []) = Ok (if v =? 0 then [] else payload ++ presence)) as ->.
  { destruct (Z.eqb_spec v 0) as [|Hv0]; [done|]. destruct (Hbase Hv0) as (l & Hl & L1 & L2). cbn [negb].
    rewrite Hl, bind_Ok_l, L1, L2, !Z.eqb_refl. done. }
  rewrite bind_Ok_l. set (st0 := start_replay _ v vars).
  destruct (ReplayLoop_frames g skip (slots_enabled store_features) base presence Hg fs (wal_header i) torn st0 c
    (length (wal_header i ++ concat (frame_bytes <$> fs) ++ torn))) as (st1 & -> & Hc1 & Hcur1 & Hr1 & Hb1); try done.
  { rewrite !length_app. pose proof (frames_fuel fs). lia. }
  destruct (count_frames base fs (re_result st0)) as (N1 & N2 & N3 & N4 & N5 & N6 & N7). rewrite <- Hr1 in *.
  rewrite app_assoc.
  destruct (ReplayLoop_tail g skip (slots_enabled store_features) base presence (wal_header i ++ concat (frame_bytes <$> fs)) torn st1
    (length ((wal_header i ++ concat (frame_bytes <$> fs)) ++ torn) - length fs)) as
    (st2 & -> & Hc2 & Hcur2 & Hb2 & T1 & T2 & T3 & T4 & T5 & T6 & T7); try done.
  { rewrite length_app. lia. } { rewrite !length_app. pose proof (frames_fuel fs). lia. }
  rewrite bind_Ok_l. rewrite <- Hc1, <- Hc2 in Hsettle. unfold settle, chunk_of in Hsettle.
  apply bind_ok in Hsettle as ([state vars'] & -> & Hs). apply bind_ok in Hs as ([p' pr'] & Hs & [= <- <- <-]).
  rewrite bind_Ok_l. cbn iota. rewrite Hs, bind_Ok_l. cbn iota.
  destruct (VarsProblem_ok g vars' pr') as (s & Evars). rewrite Evars, bind_Ok_l. eexists. split; [reflexivity|].
  cbn [out_payload out_presence out_vars out_boundaries out_result set_end valid_end applied_frames skipped_frames revision
    replayable tail_truncated_or_corrupt stopped_at_crash_tail torn_creation vars_problem].
  rewrite Hb2, Hb1, Hcur2, length_app, T3, T4, T5, T6, T7, N1, N2, N3, N4, N5, Lh. cbn [re_boundaries start_replay st0 app re_result
    applied_frames skipped_frames revision replayable torn_creation]. repeat split; try done; lia.
Qed.

(** C3: a restart finds exactly the mutations whose frames are whole, however the last append was cut: replaying
    the log over the image gives the state those mutations give, those the image already holds are skipped, the
    part that may be kept ends after the last whole frame, and a cut frame is reported as a crash tail. *)
Theorem wal_recovery g i store_features base v payload presence vars fs torn c p pr vs :
  geometry_ok g -> id_ok i store_features -> base_ok g v payload presence ->
  Forall (fits g (slots_enabled store_features)) fs -> revisions_from 0 fs -> torn_part torn ->
  run_log g presence base (base_chunk v payload presence vars) fs = Ok c -> settle g presence c = Ok (p, pr, vs) ->
  exists out,
    ReplayWal (wal_bytes i fs torn) g (id_coord i) (id_store i) store_features base v payload presence vars = Ok out /\
    out_payload out = p /\ out_presence out = pr /\ out_vars out = vs /\
    out_boundaries out = ends_from kWalHeaderSize fs /\
    let r := out_result out in
    valid_end r = kWalHeaderSize + len (concat (frame_bytes <$> fs)) /\
    applied_frames r = len (filter (fun f => base < fr_revision f) fs) /\
    skipped_frames r = len (filter (fun f => fr_revision f <= base) fs) /\
    revision r = default 0 (fr_revision <$> last (filter (fun f => base < fr_revision f) fs)) /\
    replayable r = true /\
    tail_truncated_or_corrupt r = negb (bool_decide (torn = [])) /\
    stopped_at_crash_tail r = negb (bool_decide (torn = [])).
Proof.
  intros H1 H2 H3 H4 H5 H6 H7 H8.
  destruct (replay_log g i store_features base v payload presence vars fs torn c p pr vs H1 H2 H3 H4 H5 H6 H7 H8) as (out & H). exists out. cbv zeta in *. tauto.
Qed.

(** ** Replay over a checkpoint *)

(** Once a chunk has a version, the caller's bitmap is not used. *)
Lemma MoveStateTo_presence g pr1 pr2 state sv vars v : sv <> 0 ->
  MoveStateTo g pr1 state sv vars v = MoveStateTo g pr2 state sv vars v.
Proof. intros H. unfold MoveStateTo. by rewrite (proj2 (Z.eqb_neq _ _)). Qed.

Lemma mutate_presence g pr1 pr2 v state vars f : v <> 0 -> mutate g pr1 (v, state, vars) f = mutate g pr2 (v, state, vars) f.
Proof. intros H. unfold mutate. by rewrite (MoveStateTo_presence g pr1 pr2). Qed.

Lemma mutate_version g pr c f c' : mutate g pr c f = Ok c' -> c'.1.1 = fr_version f.
Proof. destruct c as [[v state] vars]. unfold mutate. intros H. res_inv. destruct a0 as [s w]. res_inv. by subst. Qed.

Lemma run_presence g pr1 pr2 slots fs : Forall (fits g slots) fs -> forall c, c.1.1 <> 0 ->
  fold_res (mutate g pr1) c fs = fold_res (mutate g pr2) c fs.
Proof.
  intros Hf. induction Hf as [|f fs [l Hf] _ IH]; intros [[v state] vars] Hv; [done|]. cbn [fold_res].
  rewrite (mutate_presence g pr1 pr2) by done. destruct (mutate g pr2 (v, state, vars) f) as [c|] eqn:E; [|done].
  cbn [mbind res_bind]. apply IH. rewrite (mutate_version _ _ _ _ _ E). pose proof (ff_version _ _ _ _ Hf). lia.
Qed.

Lemma run_version g pr slots fs : Forall (fits g slots) fs -> forall c c', c.1.1 <> 0 ->
  fold_res (mutate g pr) c fs = Ok c' -> c'.1.1 <> 0.
Proof.
  intros Hf. induction Hf as [|f fs [l Hf] _ IH]; intros c c' Hv H; [by injection H as <-|]. cbn [fold_res] in H.
  apply bind_ok in H as (c1 & H1 & H). apply (IH c1); [|done]. rewrite (mutate_version _ _ _ _ _ H1).
  pose proof (ff_version _ _ _ _ Hf). lia.
Qed.

Lemma revisions_app previous fs1 fs2 : revisions_from previous (fs1 ++ fs2) <->
  revisions_from previous fs1 /\ revisions_from (default previous (fr_revision <$> last fs1)) fs2.
Proof.
  revert previous; induction fs1 as [|f fs1 IH]; intros previous; [cbn; tauto|]. cbn [app revisions_from].
  rewrite IH, last_cons. destruct (last fs1); cbn; tauto.
Qed.

Lemma revisions_above previous fs : revisions_from previous fs -> Forall (fun f => previous < fr_revision f) fs.
Proof.
  revert previous; induction fs as [|f fs IH]; intros previous H; [constructor|]. destruct H as [Hf H].
  constructor; [done|]. eapply Forall_impl; [apply (IH _ H)|]. intros x Hx. cbn in Hx. lia.
Qed.

Lemma revisions_below previous fs : revisions_from previous fs ->
  Forall (fun f => fr_revision f <= default previous (fr_revision <$> last fs)) fs.
Proof.
  revert previous; induction fs as [|f fs IH]; intros previous H; [constructor|]. destruct H as [Hf H].
  pose proof (IH _ H) as Hall. rewrite last_cons. destruct (last fs) as [x|] eqn:E; cbn in *.
  - constructor; [|done]. apply last_Some in E as [fs' ->]. apply revisions_above in H. apply Forall_app in H as [_ H].
    apply Forall_cons in H as [H _]. lia.
  - apply last_None in E as ->. constructor; [lia|constructor].
Qed.

(** C10: a checkpoint does not change what a restart finds. When the image holds the state after the first part of
    the log and a crash left the whole log beside it, replaying over the image gives the same state as replaying
    the whole log over the image before. *)
Theorem replay_over_checkpoint g i store_features v payload presence vars old new torn v1 payload1 presence1 vars1 c out :
  geometry_ok g -> id_ok i store_features -> base_ok g v payload presence ->
  Forall (fits g (slots_enabled store_features)) (old ++ new) -> revisions_from 0 (old ++ new) -> torn_part torn ->
  run_log g presence 0 (base_chunk v payload presence vars) old = Ok (v1, payload1 ++ presence1, vars1) ->
  v1 <> 0 -> base_ok g v1 payload1 presence1 ->
  run_log g presence 0 (v1, payload1 ++ presence1, vars1) new = Ok c -> settle g presence c = Ok out ->
  let checkpoint_revision := default 0 (fr_revision <$> last old) in
  exists before after,
    ReplayWal (wal_bytes i (old ++ new) torn) g (id_coord i) (id_store i) store_features 0 v payload presence vars
      = Ok before /\
    ReplayWal (wal_bytes i (old ++ new) torn) g (id_coord i) (id_store i) store_features checkpoint_revision v1 payload1
      presence1 vars1 = Ok after /\
    (out_payload before, out_presence before, out_vars before) = out /\
    (out_payload after, out_presence after, out_vars after) = out /\
    applied_frames (out_result after) = len new.
Proof.
  intros Hg Hi Hb Hfit Hrev Htorn Hold Hv1 Hb1 Hnew Hsettle rev. destruct out as [[p pr] vs].
  pose proof (proj1 (revisions_app _ _ _) Hrev) as [R1 R2]. fold rev in R2. apply Forall_app in Hfit as Hfits. destruct Hfits as [F1 F2].
  assert (forall l, revisions_from 0 l -> filter (fun f => 0 < fr_revision f) l = l) as Hall
    by (intros l Hl; apply filter_Forall; by apply revisions_above).
  assert (filter (fun f => rev < fr_revision f) (old ++ new) = new) as Hf.
  { rewrite filter_app, filter_none, filter_Forall; [done| |].
    - by apply revisions_above.
    - eapply Forall_impl; [apply (revisions_below _ _ R1)|]. intros x Hx. unfold rev. cbn in Hx. lia. }
  assert (filter (fun f => 0 < fr_revision f) new = new) as Hn.
  { apply filter_Forall. rewrite <- (Hall _ Hrev), filter_app in Hfit.
    pose proof (revisions_above _ _ Hrev) as H. by apply Forall_app in H as [_ H]. }
  unfold run_log in Hold, Hnew. rewrite (Hall old R1) in Hold. rewrite Hn in Hnew.
  pose proof (run_version _ _ _ _ F2 (v1, payload1 ++ presence1, vars1) _ Hv1 Hnew) as Hc.
  destruct (replay_log g i store_features 0 v payload presence vars (old ++ new) torn c p pr vs)
    as (before & E1 & P1 & P2 & P3 & _); try done.
  { unfold run_log. rewrite (Hall _ Hrev), fold_res_app, Hold. exact Hnew. }
  destruct (replay_log g i store_features rev v1 payload1 presence1 vars1 (old ++ new) torn c p pr vs)
    as (after & E2 & Q1 & Q2 & Q3 & _ & _ & Q4 & _); try done.
  { unfold run_log, base_chunk. rewrite Hf, (proj2 (Z.eqb_neq _ _)) by done. rewrite <- Hnew. by apply (run_presence _ _ _ (slots_enabled store_features)). }
  { rewrite <- Hsettle. destruct c as [[v2 s2] w2]. unfold settle. by rewrite (MoveStateTo_presence g presence1 presence). }
  exists before, after. rewrite Q4, Hf. split; [done|]. split; [done|]. split; [congruence|]. split; [congruence|done].
Qed.

(** ** An example log *)

Definition example_id : wal_id :=
  {| id_coord := {| cx := -1; cy := 2 |}; id_store := replicate 16 3; id_features := no_features |}.

(** A write of block 0, a write of block 9, and a frame cut by a crash. *)
Definition example_frame1 : frame_t :=
  {| fr_revision := 5; fr_time := 1000; fr_version := 1; fr_tag := [7]; fr_user := None; fr_gc := false;
     fr_records := [RSpan 0 [1; 2]; RSpan 512 [1]] |}.
Definition example_frame2 : frame_t :=
  {| fr_revision := 9; fr_time := 1001; fr_version := 1; fr_tag := []; fr_user := None; fr_gc := false;
     fr_records := [RSpan 18 [5; 0]; RSpan 513 [2]] |}.
Definition example_torn : bytes := take 50 (frame_bytes example_frame2).

Definition or_chunk (r : res chunk_t) : chunk_t := match r with Ok c => c | Err _ => (0, [], Vars.no_vars) end.
Definition example_chunk1 : chunk_t :=
  Eval vm_compute in or_chunk (run_log example_geometry (zeros 32) 0 (base_chunk 0 [] (zeros 32) Vars.no_vars) [example_frame1]).
Definition example_chunk2 : chunk_t :=
  Eval vm_compute in or_chunk (run_log example_geometry (zeros 32) 0 example_chunk1 [example_frame2]).

Lemma example_sized f : f = example_frame1 \/ f = example_frame2 -> frame_sized f.
Proof.
  intros [-> | ->]; (split; [vm_compute; discriminate..|vm_compute; reflexivity|discriminate|vm_compute; reflexivity|
    vm_compute; reflexivity| |exact I]);
    (apply Forall_cons; split; [|apply Forall_singleton]); (split; [vm_compute; reflexivity|]);
    (split; [discriminate|]); split; vm_compute; first [reflexivity|discriminate].
Qed.

Lemma example_fits f slots : f = example_frame1 \/ f = example_frame2 -> fits example_geometry slots f.
Proof.
  intros H. exists (layout_ example_geometry). pose proof (example_sized f H) as Hs.
  destruct H as [-> | ->]; (split; [exact Hs|split; vm_compute; first [reflexivity|discriminate]..| | | | | | |]);
    try (apply (bool_decide_unpack _); vm_compute; exact I); try (split; vm_compute; discriminate); try reflexivity; try discriminate;
    try (intros; split; reflexivity);
    (apply Forall_cons; split; [|apply Forall_singleton]); cbn [record_fits];
    (split; [apply (bool_decide_unpack _); vm_compute; exact I|]); (split; [vm_compute; discriminate|]);
    (split; [vm_compute; discriminate|vm_compute; reflexivity]).
Qed.

Lemma example_torn_part : torn_part example_torn.
Proof.
  exists example_frame2, 50%nat. split; [apply example_sized; by right|]. split; [split; reflexivity || discriminate|].
  split; [split; reflexivity || discriminate|]. split; [constructor|]. split; [constructor|]. split; [vm_compute; lia|done].
Qed.

(** Nothing is torn off after the last frame. *)
Lemma torn_nothing : torn_part [].
Proof.
  exists example_frame1, 0%nat. split; [apply example_sized; by left|]. repeat split; try done; by repeat constructor.
Qed.

Lemma example_id_ok : id_ok example_id no_features.
Proof.
  split; [split; split; vm_compute; first [reflexivity|discriminate]|]. split; [reflexivity|].
  split; [apply (bool_decide_unpack _); vm_compute; exact I|]. split; [|reflexivity].
  repeat split; vm_compute; first [reflexivity|discriminate].
Qed.

Definition example_state1 : bytes := Eval vm_compute in take 512 example_chunk1.1.2.
Definition example_presence1 : bytes := Eval vm_compute in drop 512 example_chunk1.1.2.
Definition example_state2 : bytes := Eval vm_compute in take 512 example_chunk2.1.2.
Definition example_presence2 : bytes := Eval vm_compute in drop 512 example_chunk2.1.2.

Lemma example_all_fit : Forall (fits example_geometry (slots_enabled no_features)) [example_frame1; example_frame2].
Proof. constructor; [apply example_fits; by left|]. constructor; [apply example_fits; by right|constructor]. Qed.

Lemma wal_recovery_witness : exists out,
  ReplayWal (wal_bytes example_id [example_frame1; example_frame2] example_torn) example_geometry (id_coord example_id)
    (id_store example_id) no_features 0 0 [] (zeros 32) Vars.no_vars = Ok out /\
  applied_frames (out_result out) = 2 /\ stopped_at_crash_tail (out_result out) = true.
Proof.
  destruct (wal_recovery example_geometry example_id no_features 0 0 [] (zeros 32) Vars.no_vars
    [example_frame1; example_frame2] example_torn example_chunk2 example_state2 example_presence2 Vars.no_vars)
    as (out & H & _ & _ & _ & _ & _ & Ha & _ & _ & _ & _ & Ht).
  - exact example_geometry_ok.
  - exact example_id_ok.
  - split; [split; vm_compute; discriminate|]. intros E. by destruct E.
  - exact example_all_fit.
  - repeat split; vm_compute; reflexivity.
  - exact example_torn_part.
  - vm_compute. reflexivity.
  - vm_compute. reflexivity.
  - exists out. split; [exact H|]. rewrite Ha, Ht. split; vm_compute; reflexivity.
Defined.

Lemma replay_over_checkpoint_witness : exists before after,
  ReplayWal (wal_bytes example_id ([example_frame1] ++ [example_frame2]) example_torn) example_geometry (id_coord example_id)
    (id_store example_id) no_features 0 0 [] (zeros 32) Vars.no_vars = Ok before /\
  ReplayWal (wal_bytes example_id ([example_frame1] ++ [example_frame2]) example_torn) example_geometry (id_coord example_id)
    (id_store example_id) no_features 5 1 example_state1 example_presence1 Vars.no_vars = Ok after /\
  (out_payload before, out_presence before) = (out_payload after, out_presence after).
Proof.
  destruct (replay_over_checkpoint example_geometry example_id no_features 0 [] (zeros 32) Vars.no_vars
    [example_frame1] [example_frame2] example_torn 1 example_state1 example_presence1 Vars.no_vars example_chunk2
    (example_state2, example_presence2, Vars.no_vars)) as (before & after & H1 & H2 & H3 & H4 & _).
  - exact example_geometry_ok.
  - exact example_id_ok.
  - split; [split; vm_compute; discriminate|]. intros E. by destruct E.
  - exact example_all_fit.
  - repeat split; vm_compute; reflexivity.
  - exact example_torn_part.
  - vm_compute. reflexivity.
  - discriminate.
  - split; [split; vm_compute; discriminate|]. intros _. exists (layout_ example_geometry). repeat split; vm_compute; reflexivity.
  - vm_compute. reflexivity.
  - vm_compute. reflexivity.
  - exists before, after. split; [exact H1|]. split; [exact H2|]. congruence.
Defined.

(** ** Any file *)

Lemma ParseFrame_size wal cursor g skip slots p : bytes_ok wal -> ParseFrame wal cursor g skip slots = Ok (FrameOk p) ->
  40 <= frame_size p <= len wal - cursor.
Proof.
  intros Hb H. unfold ParseFrame in H. change kWalFrameFixedHeaderSize with 32 in H.
  destruct (len wal - cursor <? 32); [discriminate|]. destruct (negb (bool_decide _)); [discriminate|].
  destruct (len wal - cursor <? _ + kWalFrameHeaderCrcSize); [discriminate|].
  destruct (negb (_ =? ReadLe32 wal (cursor + 32 + _))); [discriminate|].
  destruct (len wal - cursor <? _ + kWalFrameTrailerSize) eqn:Et; [discriminate|]. apply Z.ltb_ge in Et.
  destruct (negb _); [discriminate|].
  destruct (ParseContent wal cursor g skip slots) as [[p'|]|] eqn:E; try discriminate. injection H as ->.
  assert (frame_size p = 32 + ReadLe16 wal (cursor + 22) + kWalFrameHeaderCrcSize + ReadLe32 wal (cursor + 28) + kWalFrameTrailerSize) as ->.
  { clear -E. unfold ParseContent in E. cbv zeta in E. change kWalFrameFixedHeaderSize with 32 in E.
    parse_inv. match goal with x : Records * Z |- _ => destruct x end. parse_inv. by subst p. }
  pose proof (ReadLe16_bound wal (cursor + 22)) as [H1 _].
  assert (0 <= ReadLe32 wal (cursor + 28)) as H2.
  { unfold ReadLe32. repeat (apply Z.lor_nonneg; split); try apply Z.shiftl_nonneg; apply (byte_at_ok wal _ Hb). }
  unfold kWalFrameHeaderCrcSize, kWalFrameTrailerSize in *. lia.
Qed.

Section AnyFile.
Context (g : Geometry) (wal presence : bytes) (skip slots : bool) (base_revision : Z).
Hypothesis Hg : geometry_ok g.
Hypothesis Hb : bytes_ok wal.

Lemma MoveStateTo_fueled state sv vars v : 0 <= sv -> 0 <= v -> fueled (MoveStateTo g presence state sv vars v).
Proof using Hg.
  intros. unfold MoveStateTo. apply fueled_bind; [by apply LayoutFresh_fueled|intros].
  destruct (_ =? 0); [apply fueled_Ok|]. apply fueled_bind; [by apply LayoutFresh_fueled|intros].
  apply fueled_bind; [by apply BringForward_fueled|]. intros [] _. apply fueled_Ok.
Qed.

Lemma ApplyFrameVars_fueled p vars : fueled (ApplyFrameVars wal p vars).
Proof using. unfold ApplyFrameVars, Vars.Assign. fueled. Qed.

(** What a turn of the loop keeps. *)
Definition loop_ok (st : Replay) : Prop :=
  kWalHeaderSize <= re_cursor st <= len wal /\ 0 <= re_version st /\
  Forall (fun b => boundary_end b <= re_cursor st) (re_boundaries st).

Lemma ReplayStep_ok st : loop_ok st -> re_cursor st < len wal ->
  fueled (ReplayStep wal g skip slots base_revision presence st) /\
  forall st' go, ReplayStep wal g skip slots base_revision presence st = Ok (st', go) ->
    loop_ok st' /\ (go = true -> re_cursor st + 40 <= re_cursor st').
Proof using Hg Hb.
  intros ((Hc1 & Hc2) & Hv & Hbd) Hlt. unfold ReplayStep.
  pose proof (ParseFrame_fueled wal (re_cursor st) g skip slots Hg Hb) as Hfuel.
  destruct (ParseFrame wal (re_cursor st) g skip slots) as [[p|reason re it]|e] eqn:E.
  3:{ split; [|intros ? ?; discriminate]. intros X. apply Hfuel. cbn in X. congruence. }
  2:{ cbn. split; [discriminate|]. intros st' go [= <- <-]. done. }
  pose proof (ParseFrame_size _ _ _ _ _ _ Hb E) as Hsz. cbn [mbind res_bind].
  assert (loop_ok (skip_frame st p)) as Hskip.
  { split; [cbn; lia|]. split; [done|]. cbn. apply Forall_app_2; [|apply Forall_singleton; cbn; lia].
    eapply Forall_impl; [exact Hbd|]. cbn. lia. }
  destruct (frame_revision p <=? re_previous st); [cbn; split; [discriminate|]; by intros st' go [= <- <-]|].
  destruct (frame_revision p <=? base_revision); [split; [discriminate|]; intros st' go [= <- <-]; split; [done|cbn; lia]|].
  destruct (Z.ltb_spec (frame_schema_version p) (re_version st)) as [Hlv|Hlv]; [cbn; split; [discriminate|]; by intros st' go [= <- <-]|].
  assert (forall r : res (bytes * Vars.ChunkVars), fueled r -> forall r2 : bytes -> Vars.ChunkVars -> res (Replay * bool),
    (forall s w, fueled (r2 s w) /\ forall st' go, r2 s w = Ok (st', go) -> loop_ok st' /\ (go = true -> re_cursor st + 40 <= re_cursor st')) ->
    fueled ('(s, w) ← r; r2 s w) /\ forall st' go, ('(s, w) ← r; r2 s w) = Ok (st', go) ->
      loop_ok st' /\ (go = true -> re_cursor st + 40 <= re_cursor st')) as Hbind.
  { intros [[s w]|e] Hr r2 H2; cbn; [apply H2|]. split; [|discriminate]. intros X. apply Hr. congruence. }
  apply Hbind. { destruct (negb _); [apply MoveStateTo_fueled; lia|apply fueled_Ok]. }
  intros s w. pose proof (LayoutFresh_fueled g (frame_schema_version p) Hg ltac:(lia)) as Hlf.
  destruct (LayoutFresh g (frame_schema_version p)) as [l|e]; cbn [mbind res_bind];
    [|split; [intros X; apply Hlf; congruence|by intros ? ? [=]]].
  destruct (frame_gc p && _); [split; [discriminate|]; intros st' go [= <- <-]; split; [|done]; split; [done|]; cbn; split; [lia|done]|].
  assert (fueled (if bool_decide (length (frame_var_ops p) = 0%nat) && match frame_var_replace p with Some _ => false | None => true end
    then Ok w else ApplyFrameVars wal p w)) as Hvf by (destruct (_ && _); [apply fueled_Ok|apply ApplyFrameVars_fueled]).
  match type of Hvf with fueled ?r => destruct r as [w'|e] end; cbn [mbind res_bind]; [|split; [intros X; apply Hvf; congruence|by intros ? ? [=]]].
  split; [discriminate|]. intros st' go [= <- <-]. destruct Hskip as (K1 & _ & K3).
  split; [split; [exact K1|]; cbn; split; [lia|exact K3]|cbn; lia].
Qed.

Lemma ReplayLoop_ok fuel : forall st, loop_ok st -> len wal - re_cursor st <= Z.of_nat fuel ->
  fueled (ReplayLoop fuel wal g skip slots base_revision presence st) /\
  forall st', ReplayLoop fuel wal g skip slots base_revision presence st = Ok st' -> loop_ok st'.
Proof using Hg Hb.
  induction fuel as [|fuel IH]; intros st Hst Hf; cbn [ReplayLoop]; destruct (Z.ltb_spec (re_cursor st) (len wal)) as [Hlt|Hlt].
  2,4: split; [discriminate|]; by intros st' [= <-].
  { lia. }
  destruct (ReplayStep_ok st Hst Hlt) as [H1 H2].
  destruct (ReplayStep wal g skip slots base_revision presence st) as [[st1 go]|e]; cbn [mbind res_bind].
  - destruct (H2 st1 go eq_refl) as [Hst1 Hgo]. destruct go; [|split; [discriminate|]; by intros st' [= <-]].
    apply IH; [done|]. specialize (Hgo eq_refl). lia.
  - split; [|discriminate]. intros X. apply H1. congruence.
Qed.

End AnyFile.

Lemma start_ok wal state v vars : kWalHeaderSize <= len wal -> 0 <= v -> loop_ok wal (start_replay state v vars).
Proof. intros. unfold loop_ok. cbn [start_replay re_cursor re_version re_boundaries]. repeat split; (lia || constructor). Qed.

Lemma ReplayWal_fueled wal g coord store_id store_features base v payload presence vars :
  geometry_ok g -> bytes_ok wal -> 0 <= v ->
  fueled (ReplayWal wal g coord store_id store_features base v payload presence vars).
Proof.
  intros Hg Hb Hv. unfold ReplayWal.
  destruct (if len wal <? kWalHeaderSize then _ else _) as [u|e] eqn:Eh.
  2:{ apply fueled_bind; [|intros [] _; apply fueled_Ok]. unfold BringToCurrentSchema.
      destruct (v =? 0); [apply fueled_Ok|]. by apply BringForward_fueled. }
  destruct (Z.ltb_spec (len wal) kWalHeaderSize) as [|Hlen]; [discriminate|]. cbv zeta.
  apply fueled_bind; [apply fueled_throw; discriminate|intros _ _].
  apply fueled_bind. { destruct (negb _); [|apply fueled_Ok]. apply fueled_bind; [by apply LayoutFresh_fueled|intros]. fueled. }
  intros state _. pose proof (start_ok wal state v vars Hlen Hv) as H0.
  destruct (ReplayLoop_ok g wal presence (MaySkipUnknownTypes (UnionFeatures
    {| incompat := ReadLe32 wal 12; ro_compat := ReadLe32 wal 16; compat := ReadLe32 wal 20 |} store_features))
    (slots_enabled store_features) base Hg Hb (length wal) _ H0) as [H1 H2].
  { cbn. change kWalHeaderSize with 60. lia. }
  apply fueled_bind; [exact H1|]. intros st Hst. destruct (H2 st Hst) as (_ & Hv' & _).
  apply fueled_bind. { destruct (negb _); [|apply fueled_Ok]. apply MoveStateTo_fueled; [done|done|].
    apply (lo_version _ (go_layout _ Hg)). }
  intros [s w] _. apply fueled_bind; [unfold SplitChunkStateBytes; fueled|]. intros [p' pr'] _.
  destruct (VarsProblem_ok g w pr') as (x & ->). apply fueled_Ok.
Qed.

(** C21: replaying any bytes terminates without running out of the loop's fuel; a file with a valid header ends with
    a state of the table's size and with the part to keep, and every accepted frame, inside the file. *)
Theorem replay_any_file wal g coord store_id store_features base v payload presence vars :
  geometry_ok g -> bytes_ok wal -> 0 <= v ->
  ReplayWal wal g coord store_id store_features base v payload presence vars <> Err out_of_fuel /\
  forall out, ReplayWal wal g coord store_id store_features base v payload presence vars = Ok out ->
    replayable (out_result out) = true ->
    len (out_payload out) = ChunkPayloadBytes g /\ len (out_presence out) = ChunkPresenceBitmapBytes g /\
    kWalHeaderSize <= valid_end (out_result out) <= len wal /\
    Forall (fun b => boundary_end b <= valid_end (out_result out)) (out_boundaries out).
Proof.
  intros Hg Hb Hv. split; [by apply ReplayWal_fueled|]. intros out H Hr. unfold ReplayWal in H.
  destruct (if len wal <? kWalHeaderSize then _ else _) as [u|e] eqn:Eh.
  2:{ res_inv. match type of H with (let '(_, _) := ?x in _) = _ => destruct x end. injection H as <-.
      by destruct (IsInterruptedCreation wal coord store_id). }
  destruct (Z.ltb_spec (len wal) kWalHeaderSize) as [|Hlen]; [discriminate|]. cbv zeta in H.
  apply bind_ok in H as ([] & _ & H). apply bind_ok in H as (state & _ & H). apply bind_ok in H as (st & Hst & H).
  apply ReplayLoop_ok in Hst as (Hc & _ & Hbd); [|done|done|by apply start_ok|cbn; change kWalHeaderSize with 60; lia].
  apply bind_ok in H as ([s w] & _ & H). apply bind_ok in H as ([p' pr'] & Hsplit & H).
  apply bind_ok in H as (problem & _ & [= <-]). cbn [out_payload out_presence out_result out_boundaries set_end valid_end].
  unfold SplitChunkStateBytes in Hsplit. apply bind_ok in Hsplit as ([] & Hs%throw_if_ok & [= <- <-]).
  apply negb_false_iff, Z.eqb_eq in Hs. destruct (geometry_sizes g Hg) as [? ?].
  split; [rewrite length_take; lia|]. split; [|done].
  assert (length (MaskUnusedPresenceBits g (drop (Z.to_nat (ChunkPayloadBytes g)) s)) =
    length (drop (Z.to_nat (ChunkPayloadBytes g)) s)) as ->; [|rewrite length_drop; lia].
  unfold MaskUnusedPresenceBits. do 2 (case_match; [done|]). apply length_set_byte.
Qed.

Lemma wal_frame_roundtrip_witness : exists b size p,
  BuildFrame [7; 8] example_frame1 = Ok (b, size) /\
  ParseFrame (batch_ b ++ [9]) 2 example_geometry false false = Ok (FrameOk p) /\ frame_revision p = fr_revision example_frame1.
Proof.
  destruct (example_fits example_frame1 false (or_introl eq_refl)) as [l Hl].
  destruct (wal_frame_roundtrip example_geometry l false false example_frame1 [7; 8] [9] example_geometry_ok Hl)
    as (b & size & p & H1 & _ & H2 & _ & H3).
  exists b, size, p. split; [exact H1|]. split; [exact H2|apply H3].
Defined.

Definition example_wal : bytes := Eval vm_compute in wal_bytes example_id [example_frame1; example_frame2] example_torn.
Definition example_replay : res Replayed :=
  Eval vm_compute in ReplayWal example_wal example_geometry (id_coord example_id) (id_store example_id) no_features 0 0 []
    (zeros 32) Vars.no_vars.

Lemma replay_any_file_witness : exists out, example_replay = Ok out /\ len (out_payload out) = ChunkPayloadBytes example_geometry /\
  kWalHeaderSize <= valid_end (out_result out) <= len example_wal.
Proof.
  destruct (replay_any_file example_wal example_geometry (id_coord example_id) (id_store example_id) no_features 0 0 []
    (zeros 32) Vars.no_vars) as [_ H];
    [exact example_geometry_ok|apply (bool_decide_unpack _); vm_compute; exact I|lia|].
  assert (ReplayWal example_wal example_geometry (id_coord example_id) (id_store example_id) no_features 0 0 [] (zeros 32)
    Vars.no_vars = example_replay) as E by (vm_compute; reflexivity).
  rewrite E in H. eexists. split; [reflexivity|]. destruct (H _ eq_refl) as (H1 & _ & H2 & _); [reflexivity|]. by split.
Defined.

End WalReplay.
