(* ===== verification/TxnHistory.v ===== *)
(** * The history kept for open transactions (src/src/txn_history.cpp)

    TxnHistory holds the snapshots of the open transactions and the chunk states
    they still need: two ordered multimaps of snapshots, a multimap of kept
    states by chunk, and a doubly linked list through the kept states in
    ascending tag order.  The kept states live in a heap of nodes and the list
    is made of their addresses, so following a pointer to a freed node is
    [undefined]; the theorems show it never happens.  Every operation runs
    under the history's lock; [now] is the steady clock at its start. *)
From stdpp Require Import prelude strings gmap sorting.
From Stdlib Require Import ZArith Lia.
From S2P Require Import Prelude Vars Geometry WalReplay.

#[local] Open Scope Z_scope.

Module TxnHistory.
Import Geometry WalReplay.

(** ** Data *)

Inductive TxnConflictReason := kChunkChanged | kDuration | kHistoryLimit | kTableChanged.

Definition ConflictMessage (reason : TxnConflictReason) : string :=
  match reason with
  | kChunkChanged => "a chunk the transaction read or wrote changed after its snapshot"
  | kDuration => "the transaction was open longer than its duration limit"
  | kHistoryLimit => "the table's kept states for open transactions reached their byte limit"
  | kTableChanged => "the table was altered or dropped during the transaction"
  end.

Definition TransactionConflictError (reason : TxnConflictReason) : exn := conflict_error (ConflictMessage reason).

Definition TxnCoordLess (lhs rhs : ChunkCoord) : bool :=
  if negb (cx lhs =? cx rhs) then cx lhs <? cx rhs else cy lhs <? cy rhs.

(** The addresses of kept states and of snapshots. *)
Abbreviation node_ptr := nat (only parsing).
Abbreviation snap_ptr := nat (only parsing).

Record TxnKeptState := {
  kept_tag : Z;
  kept_coord : ChunkCoord;
  kept_state : ChunkState;
  kept_size : Z;
  older : option node_ptr;
  newer : option node_ptr
}.

(** A snapshot; the multimap iterators of the class are its address, which
    occurs once in each of the two multimaps. *)
Record TxnSnapshot := {
  snap_version : Z;
  registered : bool;
  end_reason : option TxnConflictReason
}.

Record TxnHistory := {
  limit_bytes : Z;
  open_count : Z;
  by_version : list (Z * snap_ptr);
  by_deadline : list (Z * snap_ptr);
  kept : list (ChunkCoord * node_ptr);
  oldest : option node_ptr;
  newest : option node_ptr;
  kept_bytes : Z;
  (** what the pointers lead to *)
  nodes : gmap node_ptr TxnKeptState;
  snapshots : gmap snap_ptr TxnSnapshot
}.

Definition MakeTxnHistory (limit : Z) : TxnHistory :=
  {| limit_bytes := limit; open_count := 0; by_version := []; by_deadline := []; kept := []; oldest := None;
     newest := None; kept_bytes := 0; nodes := ∅; snapshots := ∅ |}.

(** Updates of one member. *)
Definition with_snaps (h : TxnHistory) count versions deadlines snaps : TxnHistory :=
  {| limit_bytes := limit_bytes h; open_count := count; by_version := versions; by_deadline := deadlines; kept := kept h;
     oldest := oldest h; newest := newest h; kept_bytes := kept_bytes h; nodes := nodes h; snapshots := snaps |}.

Definition with_kept (h : TxnHistory) k o n b ns : TxnHistory :=
  {| limit_bytes := limit_bytes h; open_count := open_count h; by_version := by_version h; by_deadline := by_deadline h;
     kept := k; oldest := o; newest := n; kept_bytes := b; nodes := ns; snapshots := snapshots h |}.

Definition with_older (k : TxnKeptState) p : TxnKeptState :=
  {| kept_tag := kept_tag k; kept_coord := kept_coord k; kept_state := kept_state k; kept_size := kept_size k;
     older := p; newer := newer k |}.

Definition with_newer (k : TxnKeptState) p : TxnKeptState :=
  {| kept_tag := kept_tag k; kept_coord := kept_coord k; kept_state := kept_state k; kept_size := kept_size k;
     older := older k; newer := p |}.

(** Insertion into a std::multimap ordered by [less]: after the equal keys. *)
Fixpoint mm_insert {K V} (less : K -> K -> bool) (key : K) (value : V) (m : list (K * V)) : list (K * V) :=
  match m with
  | [] => [(key, value)]
  | e :: m' => if less key e.1 then (key, value) :: e :: m' else e :: mm_insert less key value m'
  end.

(** The nodes of [equal_range(coord)], in the order of the map. *)
Definition range (h : TxnHistory) (coord : ChunkCoord) : list node_ptr :=
  (filter (fun e => e.1 = coord) (kept h)).*2.

(** Following a pointer. *)
Definition deref (h : TxnHistory) (p : node_ptr) : res TxnKeptState :=
  match nodes h !! p with Some k => Ok k | None => Err (undefined "freed kept state") end.

Definition snap_at (h : TxnHistory) (s : snap_ptr) : res TxnSnapshot :=
  match snapshots h !! s with Some x => Ok x | None => Err (undefined "freed snapshot") end.

(** ** Reservations *)

(** A reservation is a node made for the map, or empty. *)
Definition Reservation : Type := option (node_ptr * TxnKeptState).

(** sizeof(TxnKeptState) + 64 is the compiler's; [overhead] stands for it. *)
Definition StateBytes (overhead : Z) (state : ChunkState) : Z :=
  len (cs_payload state) + len (cs_presence state) + Vars.encoded_size (cs_vars state) + overhead.

(** [p] is the address the allocator gives. *)
Definition Reserve (overhead : Z) (p : node_ptr) (coord : ChunkCoord) (tag : Z) (state : ChunkState) : Reservation :=
  Some (p, {| kept_tag := tag; kept_coord := coord; kept_state := state; kept_size := StateBytes overhead state;
              older := None; newer := None |}).

Definition Fill (overhead : Z) (r : Reservation) (state : ChunkState) : Reservation :=
  match r with
  | Some (p, k) =>
      Some (p, {| kept_tag := kept_tag k; kept_coord := kept_coord k; kept_state := state;
                  kept_size := StateBytes overhead state; older := older k; newer := newer k |})
  | None => None
  end.

Definition FillPayload (overhead : Z) (r : Reservation) (payload presence : bytes) : Reservation :=
  match r with
  | Some (p, k) =>
      let s := kept_state k in
      Fill overhead r {| cs_version := cs_version s; cs_payload := payload; cs_presence := presence; cs_vars := cs_vars s;
                         cs_written := cs_written s |}
  | None => None
  end.

(** ** Dropping snapshots and states *)

Definition EraseLocked (h : TxnHistory) (p : node_ptr) : res TxnHistory :=
  k ← deref h p;
  h ← match older k with
      | Some o => ok ← deref h o; Ok (with_kept h (kept h) (oldest h) (newest h) (kept_bytes h) (<[o := with_newer ok (newer k)]> (nodes h)))
      | None => Ok (with_kept h (kept h) (newer k) (newest h) (kept_bytes h) (nodes h))
      end;
  h ← match newer k with
      | Some n => nk ← deref h n; Ok (with_kept h (kept h) (oldest h) (newest h) (kept_bytes h) (<[n := with_older nk (older k)]> (nodes h)))
      | None => Ok (with_kept h (kept h) (oldest h) (older k) (kept_bytes h) (nodes h))
      end;
  Ok (with_kept h (filter (fun e => e <> (kept_coord k, p)) (kept h)) (oldest h) (newest h)
        (u64 (kept_bytes h - kept_size k)) (delete p (nodes h))).

(** Whether no registered snapshot is older than [tag]. *)
Definition unneeded (h : TxnHistory) (tag : Z) : bool :=
  match by_version h with [] => true | (v, _) :: _ => tag <=? v end.

Fixpoint PruneLoop (fuel : nat) (h : TxnHistory) : res TxnHistory :=
  match fuel with
  | O => Err out_of_fuel
  | S fuel =>
      match oldest h with
      | None => Ok h
      | Some p => k ← deref h p; if unneeded h (kept_tag k) then h ← EraseLocked h p; PruneLoop fuel h else Ok h
      end
  end.

Definition PruneLocked (h : TxnHistory) : res TxnHistory := PruneLoop (S (size (nodes h))) h.

Definition UnregisterLocked (h : TxnHistory) (s : snap_ptr) (reason : option TxnConflictReason) : res TxnHistory :=
  x ← snap_at h s;
  Ok (with_snaps h (u64 (open_count h - 1)) (filter (fun e => e.2 <> s) (by_version h)) (filter (fun e => e.2 <> s) (by_deadline h))
        (<[s := {| snap_version := snap_version x; registered := false; end_reason := reason |}]> (snapshots h))).

Fixpoint ExpireLoop (fuel : nat) (h : TxnHistory) (now : Z) : res TxnHistory :=
  match fuel with
  | O => Err out_of_fuel
  | S fuel =>
      match by_deadline h with
      | (d, s) :: _ => if d <=? now then h ← UnregisterLocked h s (Some kDuration); ExpireLoop fuel h now else Ok h
      | [] => Ok h
      end
  end.

Definition expired (h : TxnHistory) (now : Z) : bool :=
  match by_deadline h with (d, _) :: _ => d <=? now | [] => false end.

Definition ExpireLocked (h : TxnHistory) (now : Z) : res TxnHistory :=
  h' ← ExpireLoop (S (length (by_deadline h))) h now;
  if expired h now then PruneLocked h' else Ok h'.

(** ** Publishing *)

(** The lambda of Publish. *)
Definition needed (h : TxnHistory) (state : TxnKeptState) : res bool :=
  if unneeded h (kept_tag state) then Ok false
  else
    match last (range h (kept_coord state)), last (by_version h) with
    | Some p, Some (v, _) => k ← deref h p; Ok (negb (v <? kept_tag k))
    | _, _ => Ok true
    end.

Fixpoint MakeRoom (fuel : nat) (h : TxnHistory) (state : TxnKeptState) : res TxnHistory :=
  match fuel with
  | O => Err out_of_fuel
  | S fuel =>
      n ← needed h state;
      if n && (limit_bytes h <? u64 (kept_bytes h + kept_size state)) then
        match by_version h with
        | (_, s) :: _ => h ← UnregisterLocked h s (Some kHistoryLimit); h ← PruneLocked h; MakeRoom fuel h state
        | [] => Err (undefined "begin of an empty map")
        end
      else Ok h
  end.

(** Back from [p] to the newest state whose tag is not above [tag]. *)
Fixpoint WalkBack (fuel : nat) (h : TxnHistory) (p : option node_ptr) (tag : Z) : res (option node_ptr) :=
  match fuel with
  | O => Err out_of_fuel
  | S fuel =>
      match p with
      | None => Ok None
      | Some q => k ← deref h q; if tag <? kept_tag k then WalkBack fuel h (older k) tag else Ok (Some q)
      end
  end.

(** The links to the new node from its neighbours or from the list's ends. *)
Definition Relink (h : TxnHistory) (p : node_ptr) (before after : option node_ptr) : res TxnHistory :=
  h ← match after with
      | Some a => k ← deref h a; Ok (with_kept h (kept h) (oldest h) (newest h) (kept_bytes h) (<[a := with_older k (Some p)]> (nodes h)))
      | None => Ok (with_kept h (kept h) (oldest h) (Some p) (kept_bytes h) (nodes h))
      end;
  match before with
  | Some b => k ← deref h b; Ok (with_kept h (kept h) (oldest h) (newest h) (kept_bytes h) (<[b := with_newer k (Some p)]> (nodes h)))
  | None => Ok (with_kept h (kept h) (Some p) (newest h) (kept_bytes h) (nodes h))
  end.

Definition Link (h : TxnHistory) (p : node_ptr) (state : TxnKeptState) : res TxnHistory :=
  let kept' := mm_insert TxnCoordLess (kept_coord state) p (kept h) in
  before ← WalkBack (S (size (nodes h))) h (newest h) (kept_tag state);
  after ← match before with Some b => k ← deref h b; Ok (newer k) | None => Ok (oldest h) end;
  h ← Relink (with_kept h kept' (oldest h) (newest h) (kept_bytes h) (<[p := with_newer (with_older state before) after]> (nodes h)))
        p before after;
  Ok (with_kept h (kept h) (oldest h) (newest h) (u64 (kept_bytes h + kept_size state)) (nodes h)).

(** The history and the reservation after it: empty when the state was kept. *)
Definition Publish (h : TxnHistory) (now : Z) (r : Reservation) : res (TxnHistory * Reservation) :=
  match r with
  | None => Ok (h, None)
  | Some (p, state) =>
      h ← ExpireLocked h now;
      n ← needed h state;
      if negb n then Ok (h, r)
      else
        h ← MakeRoom (S (length (by_version h))) h state;
        n ← needed h state;
        if negb n then Ok (h, r) else h ← Link h p state; Ok (h, None)
  end.

(** ** Snapshots *)

(** Register in its three steps: the snapshot counts itself open, reads the
    clock (which runs on meanwhile), and enters the maps. *)
Definition RegisterCount (h : TxnHistory) (now : Z) : res TxnHistory :=
  h ← ExpireLocked h now;
  Ok (with_snaps h (u64 (open_count h + 1)) (by_version h) (by_deadline h) (snapshots h)).

Definition RegisterVersion (next : Z) : Z := if next =? 0 then 0 else next - 1.

Definition RegisterPublish (h : TxnHistory) (s : snap_ptr) (version deadline : Z) : TxnHistory :=
  with_snaps h (open_count h) (mm_insert Z.ltb version s (by_version h)) (mm_insert Z.ltb deadline s (by_deadline h))
    (<[s := {| snap_version := version; registered := true; end_reason := None |}]> (snapshots h)).

Definition Register (h : TxnHistory) (now next : Z) (s : snap_ptr) (deadline : Z) : res TxnHistory :=
  h ← RegisterCount h now; Ok (RegisterPublish h s (RegisterVersion next) deadline).

Definition End_ (h : TxnHistory) (s : snap_ptr) : res TxnHistory :=
  x ← snap_at h s;
  if registered x then h ← UnregisterLocked h s None; PruneLocked h else Ok h.

Definition RequireRegisteredLocked (h : TxnHistory) (s : snap_ptr) : res TxnSnapshot :=
  x ← snap_at h s;
  if registered x then Ok x
  else match end_reason x with
       | Some r => Err (TransactionConflictError r)
       | None => Err (invalid_argument "the transaction has ended")
       end.

Fixpoint FirstAbove (h : TxnHistory) (ps : list node_ptr) (version : Z) : res (option TxnKeptState) :=
  match ps with
  | [] => Ok None
  | p :: ps => k ← deref h p; if version <? kept_tag k then Ok (Some k) else FirstAbove h ps version
  end.

Definition OldestAboveLocked (h : TxnHistory) (coord : ChunkCoord) (version : Z) : res (option TxnKeptState) :=
  FirstAbove h (range h coord) version.

(** The operations that may throw still drop the snapshots past their
    deadline: they return the history next to their result. *)
Definition when_registered {A} (h : TxnHistory) (s : snap_ptr) (f : TxnSnapshot -> res (TxnHistory * res A)) :
  res (TxnHistory * res A) :=
  match RequireRegisteredLocked h s with Err e => Ok (h, Err e) | Ok x => f x end.

Definition VisitAt (h : TxnHistory) (now : Z) (s : snap_ptr) (coord : ChunkCoord) : res (TxnHistory * res (option ChunkState)) :=
  h ← ExpireLocked h now;
  when_registered h s (fun x => k ← OldestAboveLocked h coord (snap_version x); Ok (h, Ok (option_map kept_state k))).

Definition ChangedSince (h : TxnHistory) (now : Z) (s : snap_ptr) (coord : ChunkCoord) : res (TxnHistory * res bool) :=
  h ← ExpireLocked h now;
  when_registered h s (fun x => k ← OldestAboveLocked h coord (snap_version x); Ok (h, Ok (bool_decide (is_Some k)))).

Fixpoint AnyAbove (h : TxnHistory) (coords : list ChunkCoord) (version : Z) : res bool :=
  match coords with
  | [] => Ok false
  | c :: coords => k ← OldestAboveLocked h c version; if bool_decide (is_Some k) then Ok true else AnyAbove h coords version
  end.

Definition ValidateAndEnd (h : TxnHistory) (now : Z) (s : snap_ptr) (coords : list ChunkCoord) : res (TxnHistory * res unit) :=
  h ← ExpireLocked h now;
  when_registered h s (fun x =>
    changed ← AnyAbove h coords (snap_version x);
    h ← UnregisterLocked h s None;
    h ← PruneLocked h;
    Ok (h, throw_if changed (TransactionConflictError kChunkChanged))).

Definition KeptCount (h : TxnHistory) : Z := len (kept h).
Definition KeptBytes (h : TxnHistory) : Z := kept_bytes h.
Definition RegisteredCount (h : TxnHistory) : Z := len (by_version h).

(** ** The invariant *)

(** A kept state without its links. *)
Record item := { it_tag : Z; it_coord : ChunkCoord; it_state : ChunkState; it_size : Z }.

Definition item_of (k : TxnKeptState) : item :=
  {| it_tag := kept_tag k; it_coord := kept_coord k; it_state := kept_state k; it_size := kept_size k |}.

(** [linked ns prev L]: from a node whose predecessor is [prev], the list in
    the heap [ns] runs through the nodes of [L]. *)
Fixpoint linked (ns : gmap nat TxnKeptState) (prev : option nat) (L : list (nat * item)) : Prop :=
  match L with
  | [] => True
  | (p, it) :: L' =>
      (exists k, ns !! p = Some k /\ item_of k = it /\ older k = prev /\ newer k = head L'.*1) /\ linked ns (Some p) L'
  end.

Definition total_size (L : list (nat * item)) : Z := foldr (fun e n => it_size e.2 + n) 0 L.

Definition coord_le (a b : ChunkCoord) : Prop := TxnCoordLess b a = false.

(** The kept states of a chunk, in the order of the map. *)
Definition items_at (h : TxnHistory) (c : ChunkCoord) : list item :=
  omap (fun p => item_of <$> nodes h !! p) (range h c).

(** The nodes in the order of their tags are [L]. *)
Record kept_as (h : TxnHistory) (L : list (nat * item)) : Prop := {
  ka_dom : forall p, is_Some (nodes h !! p) <-> p ∈ L.*1;
  ka_nodup : NoDup L.*1;
  ka_linked : linked (nodes h) None L;
  ka_oldest : oldest h = head L.*1;
  ka_newest : newest h = last L.*1;
  ka_sorted : StronglySorted (fun a b => it_tag a.2 <= it_tag b.2) L;
  ka_kept : kept h ≡ₚ (fun e => (it_coord e.2, e.1)) <$> L;
  ka_order : StronglySorted (fun a b => coord_le a.1 b.1) (kept h);
  ka_sizes : Forall (fun e => 0 <= it_size e.2) L;
  ka_bytes : kept_bytes h = total_size L;
  ka_limit : kept_bytes h <= limit_bytes h < 2 ^ 64
}.

(** The states of a chunk are in ascending tag order. *)
Definition tags_ok (h : TxnHistory) : Prop := forall c, StronglySorted (fun a b => it_tag a < it_tag b) (items_at h c).

(** The snapshots: [pending] more are counted than registered. *)
Record snaps_ok (pending : Z) (h : TxnHistory) : Prop := {
  so_versions : StronglySorted (fun a b => a.1 <= b.1) (by_version h);
  so_deadlines : StronglySorted (fun a b => a.1 <= b.1) (by_deadline h);
  so_nodup : NoDup (by_version h).*2;
  so_nodup' : NoDup (by_deadline h).*2;
  so_same : forall s, s ∈ (by_version h).*2 <-> s ∈ (by_deadline h).*2;
  so_registered : forall v s, (v, s) ∈ by_version h <->
    exists x, snapshots h !! s = Some x /\ registered x = true /\ snap_version x = v;
  so_open : open_count h = len (by_version h) + pending;
  so_pending : 0 <= pending;
  so_bound : open_count h < 2 ^ 64
}.

Record history_ok (pending : Z) (h : TxnHistory) : Prop := {
  ho_kept : exists L, kept_as h L;
  ho_tags : tags_ok h;
  ho_snaps : snaps_ok pending h
}.

(** No state is kept that no registered snapshot needs. *)
Definition tight (h : TxnHistory) : Prop := forall p k, nodes h !! p = Some k -> unneeded h (kept_tag k) = false.

(** ** The linked list *)

Lemma linked_lookup ns L : forall prev p it, linked ns prev L -> (p, it) ∈ L -> exists k, ns !! p = Some k /\ item_of k = it.
Proof.
  induction L as [|[q it'] L IH]; intros prev p it H Hin; [by apply not_elem_of_nil in Hin|].
  destruct H as [(k & Hk & Hi & _) H]. apply elem_of_cons in Hin as [[= -> ->]|Hin]; [by exists k|by apply (IH (Some q))].
Qed.

(** Only the nodes of the list matter. *)
Lemma linked_frame ns ns' L : forall prev, (forall p, p ∈ L.*1 -> ns' !! p = ns !! p) -> linked ns prev L -> linked ns' prev L.
Proof.
  induction L as [|[q it] L IH]; intros prev Hf H; [done|]. destruct H as [(k & Hk & Hi) H]. split.
  - exists k. rewrite Hf by (by left). done.
  - apply IH; [|done]. intros p Hp. apply Hf. by right.
Qed.

(** The tail of a list becomes a list of its own. *)
Lemma linked_tail ns p it L k prev : linked ns (Some p) L -> NoDup L.*1 -> head L.*1 = Some it -> ns !! it = Some k ->
  linked (<[it := with_older k prev]> ns) prev L.
Proof.
  destruct L as [|[q i] L]; [done|]. cbn [fmap list_fmap head fst]. intros [(k' & Hk' & Hi & Ho & Hn) HL] Hnd [= ->] Hk.
  rewrite Hk in Hk'. injection Hk' as <-. apply NoDup_cons in Hnd as [Hq _]. cbn [linked fst]. split.
  - exists (with_older k prev). rewrite lookup_insert. by rewrite decide_True by done.
  - apply (linked_frame ns); [|done]. intros r Hr. apply lookup_insert_ne. by intros ->.
Qed.

(** Two histories with the same snapshots. *)
Definition same_snaps (h h' : TxnHistory) : Prop :=
  limit_bytes h' = limit_bytes h /\ open_count h' = open_count h /\ by_version h' = by_version h /\
  by_deadline h' = by_deadline h /\ snapshots h' = snapshots h.

Lemma same_snaps_trans h1 h2 h3 : same_snaps h1 h2 -> same_snaps h2 h3 -> same_snaps h1 h3.
Proof. intros (E1 & E2 & E3 & E4 & E5) (F1 & F2 & F3 & F4 & F5). repeat split; congruence. Qed.

Lemma same_snaps_ok pending h h' : same_snaps h h' -> snaps_ok pending h -> snaps_ok pending h'.
Proof. intros (E1 & E2 & E3 & E4 & E5) []. constructor; rewrite ?E2, ?E3, ?E4, ?E5; done. Qed.

(** [keeps h h' L']: of the kept states of [h], [h'] has those in [L']. *)
Definition keeps (h h' : TxnHistory) (L' : list (nat * item)) : Prop :=
  kept h' = filter (fun e => e.2 ∈ L'.*1) (kept h).

Lemma deref_ok h p k : nodes h !! p = Some k -> deref h p = Ok k.
Proof. unfold deref. by intros ->. Qed.

Lemma total_size_cons e L : total_size (e :: L) = it_size e.2 + total_size L.
Proof. done. Qed.

#[export] Instance total_size_perm : Proper ((≡ₚ) ==> (=)) total_size.
Proof. induction 1; rewrite ?total_size_cons; lia. Qed.

Lemma total_size_nonneg L : Forall (fun e : nat * item => 0 <= it_size e.2) L -> 0 <= total_size L.
Proof. unfold total_size. induction 1; cbn in *; lia. Qed.

Lemma kept_without h p it L : kept_as h ((p, it) :: L) ->
  filter (fun e => e <> (it_coord it, p)) (kept h) = filter (fun e => e.2 ∈ L.*1) (kept h) /\
  filter (fun e => e.2 ∈ L.*1) (kept h) ≡ₚ (fun e => (it_coord e.2, e.1)) <$> L.
Proof.
  intros K. pose proof (ka_nodup _ _ K) as Hnd. rewrite fmap_cons in Hnd. apply NoDup_cons in Hnd as [Hp _]. cbn [fst] in Hp.
  assert (forall e, e ∈ (fun e => (it_coord e.2, e.1)) <$> L -> e.2 ∈ L.*1) as Hin.
  { intros e (e' & -> & He)%list_elem_of_fmap. cbn [snd]. by apply (list_elem_of_fmap_2 fst). }
  split.
  - apply filter_ext. intros [c q] Hq. rewrite (ka_kept _ _ K), fmap_cons in Hq. apply elem_of_cons in Hq as [[= -> ->]|Hq].
    + by split.
    + split; [intros _; by apply (Hin (c, q))|]. intros H [= _ ->]. by apply Hp.
  - rewrite (ka_kept _ _ K), fmap_cons, filter_cons, decide_False by done. by rewrite filter_all.
Qed.

Lemma EraseLocked_head h p it L : kept_as h ((p, it) :: L) ->
  exists h', EraseLocked h p = Ok h' /\ kept_as h' L /\ keeps h h' L /\ same_snaps h h'.
Proof.
  intros K. destruct (kept_without _ _ _ _ K) as [Hk HkL]. destruct K as [Kdom Knd Kl Ko Kn Ks Kk Kord Ksz Kb Klim].
  destruct Kl as [(k & Hp & Hi & Hold & Hnew) Kl]. rewrite fmap_cons in *. cbn [head fst] in *.
  apply NoDup_cons in Knd as [Hpn Knd]. apply Forall_cons in Ksz as [Hsz Ksz].
  apply StronglySorted_inv in Ks as [Ks _]. pose proof (total_size_nonneg _ Ksz) as Ht. rewrite total_size_cons in Kb.
  unfold EraseLocked. rewrite (deref_ok _ _ _ Hp), bind_Ok_l, Hold. subst it.
  cbn [item_of it_size it_coord snd] in *.
  assert (u64 (kept_bytes h - kept_size k) = total_size L) as Eb by (rewrite wrap_small; unfold in_u; lia).
  assert (StronglySorted (fun a b => coord_le a.1 b.1) (filter (fun e => e.2 ∈ L.*1) (kept h))) as Hord
    by (by apply StronglySorted_filter).
  destruct L as [|[q i] L]; rewrite ?fmap_cons, ?fmap_nil in *; cbn [head fst] in *; rewrite Hnew; rewrite bind_Ok_l.
  - rewrite bind_Ok_l. eexists. split; [reflexivity|]. split; [|split; [exact Hk|by repeat split]].
    split; cbn [with_kept nodes oldest newest kept kept_bytes limit_bytes]; rewrite ?Hk, ?Eb; try done.
    + intros r. rewrite lookup_delete. case_decide as E; [subst; split; [by intros []|by intros ?%elem_of_nil]|].
      rewrite Kdom. split; [intros [->|?]%elem_of_cons|intros ?%elem_of_nil]; done.
    + cbn. lia.
  - assert (exists kq, nodes h !! q = Some kq) as [kq Hq] by (apply Kdom; right; left).
    rewrite (deref_ok _ q kq) by exact Hq. rewrite !bind_Ok_l. eexists. split; [reflexivity|]. split; [|split; [exact Hk|by repeat split]].
    split; cbn [with_kept nodes oldest newest kept kept_bytes limit_bytes]; rewrite ?Hk, ?Eb; try done.
    + intros r. rewrite lookup_delete, lookup_insert. case_decide as E.
      { subst. split; [by intros []|done]. }
      case_decide as E'; [subst; split; [intros _; left|by eauto]|]. rewrite Kdom. split; [|by right].
      by intros [->|?]%elem_of_cons.
    + apply (linked_frame (<[q := with_older kq None]> (nodes h))).
      * intros r Hr. rewrite lookup_delete_ne; [done|]. by intros ->.
      * by apply (linked_tail _ p).
    + lia.
Qed.

Lemma kept_as_size h L : kept_as h L -> size (nodes h) = length L.
Proof.
  intros K. rewrite <- (length_fmap fst L), <- (size_list_to_set (C := gset nat)) by apply K.
  rewrite <- (size_dom (D := gset nat)). f_equal. apply set_eq. intros p. by rewrite elem_of_dom, elem_of_list_to_set, (ka_dom _ _ K).
Qed.

Lemma kept_in h L c p : kept_as h L -> (c, p) ∈ kept h -> exists it, (p, it) ∈ L /\ it_coord it = c.
Proof. intros K. rewrite (ka_kept _ _ K). intros ([q it] & [= -> ->] & H)%list_elem_of_fmap. by exists it. Qed.

Lemma keeps_refl h L : kept_as h L -> keeps h h L.
Proof.
  intros K. symmetry. apply filter_all. intros [c p] Hp. destruct (kept_in _ _ _ _ K Hp) as (it & Hin & _).
  by apply (list_elem_of_fmap_2 fst L (p, it)).
Qed.

Lemma keeps_trans h1 h2 h3 L2 L3 : keeps h1 h2 L2 -> keeps h2 h3 L3 -> L3 ⊆ L2 -> keeps h1 h3 L3.
Proof.
  unfold keeps. intros -> -> Hs. apply list_filter_filter_l. intros e (x & -> & Hx)%list_elem_of_fmap.
  apply (list_elem_of_fmap_2 fst). by apply Hs.
Qed.

Lemma unneeded_mono h a b : a <= b -> unneeded h a = false -> unneeded h b = false.
Proof. unfold unneeded. intros Hab. destruct (by_version h) as [|[v s] m]; [done|]. rewrite !Z.leb_gt. lia. Qed.

(** Whether a registered snapshot needs a state of this tag. *)
Abbreviation needed_tag h := (fun e : nat * item => unneeded h (it_tag e.2) = false).

Lemma PruneLoop_ok L : forall h fuel, kept_as h L -> (length L < fuel)%nat ->
  exists h', PruneLoop fuel h = Ok h' /\ kept_as h' (filter (needed_tag h) L) /\ keeps h h' (filter (needed_tag h) L) /\ same_snaps h h'.
Proof.
  induction L as [|[p it] L IH]; intros h [|fuel] K Hf; cbn [length] in Hf; try lia; cbn [PruneLoop]; rewrite (ka_oldest _ _ K).
  { exists h. split; [done|]. split; [done|]. split; [by apply keeps_refl|by repeat split]. }
  rewrite fmap_cons. cbn [head fst]. destruct (ka_linked _ _ K) as [(k & Hp & Hi & _) _].
  rewrite (deref_ok _ _ _ Hp), bind_Ok_l. assert (kept_tag k = it_tag it) as -> by (by subst it).
  rewrite filter_cons. cbn [snd]. destruct (unneeded h (it_tag it)) eqn:E.
  - rewrite decide_False by done. destruct (EraseLocked_head _ _ _ _ K) as (h1 & -> & K1 & Hk1 & Hs1). rewrite bind_Ok_l.
    destruct (IH h1 fuel K1 ltac:(lia)) as (h' & -> & K' & Hk' & Hs').
    assert (filter (needed_tag h1) L = filter (needed_tag h) L) as Ef.
    { apply filter_ext. intros e _. unfold unneeded. destruct Hs1 as (_ & _ & -> & _). done. }
    rewrite Ef in *. exists h'. split; [done|]. split; [done|]. split; [|by apply (same_snaps_trans _ h1)].
    apply (keeps_trans _ _ _ _ _ Hk1 Hk'). intros e [_ ?]%list_elem_of_filter. done.
  - rewrite decide_True by done. pose proof (ka_sorted _ _ K) as Hs. apply StronglySorted_inv in Hs as [_ Hs].
    rewrite filter_all. 2:{ intros e He. rewrite Forall_forall in Hs. apply (unneeded_mono _ (it_tag it)); [by apply (Hs e)|done]. }
    exists h. split; [done|]. split; [done|]. split; [by apply keeps_refl|by repeat split].
Qed.

Lemma PruneLocked_ok h L : kept_as h L ->
  exists h', PruneLocked h = Ok h' /\ kept_as h' (filter (needed_tag h) L) /\ keeps h h' (filter (needed_tag h) L) /\ same_snaps h h'.
Proof. intros K. apply PruneLoop_ok; [done|]. rewrite (kept_as_size _ _ K). lia. Qed.

(** The states of a chunk after dropping some. *)
Lemma items_at_keeps h h' L (P : item -> Prop) `{!forall x, Decision (P x)} c :
  kept_as h L -> kept_as h' (filter (fun e => P e.2) L) -> keeps h h' (filter (fun e => P e.2) L) ->
  items_at h' c = filter P (items_at h c).
Proof.
  intros K K' Hk. unfold items_at, range. rewrite Hk. rewrite list_filter_filter.
  rewrite (filter_ext _ (fun e => e.2 ∈ (filter (fun e => P e.2) L).*1 /\ e.1 = c)) by (intros; tauto).
  rewrite <- list_filter_filter.
  assert (forall e, e ∈ filter (fun e => e.1 = c) (kept h) -> e ∈ kept h) as Hin by (intros e [_ ?]%list_elem_of_filter; done).
  induction (filter (fun e => e.1 = c) (kept h)) as [|[c' p] l IH]; [done|].
  destruct (kept_in _ _ c' p K) as (it & HL & Hc'); [by apply Hin; left|].
  destruct (linked_lookup _ _ _ _ _ (ka_linked _ _ K) HL) as (k & Hp & Hi).
  rewrite fmap_cons. cbn [snd omap list_omap]. rewrite Hp. cbn [fmap option_fmap option_map]. rewrite Hi.
  rewrite !filter_cons. specialize (IH ltac:(intros e He; apply Hin; by right)). cbn [snd].
  destruct (decide (P it)) as [HP|HP].
  - assert ((p, it) ∈ filter (fun e => P e.2) L) as HL' by (by apply list_elem_of_filter).
    rewrite decide_True by (by apply (list_elem_of_fmap_2 fst _ (p, it))).
    destruct (linked_lookup _ _ _ _ _ (ka_linked _ _ K') HL') as (k' & Hp' & Hi').
    rewrite fmap_cons. cbn [snd omap list_omap]. rewrite Hp'. cbn [fmap option_fmap option_map]. rewrite Hi'. by f_equal.
  - rewrite decide_False; [done|]. intros ([q i] & Eq & [Hq HqL]%list_elem_of_filter)%list_elem_of_fmap. cbn in Eq. subst q.
    destruct (linked_lookup _ _ _ _ _ (ka_linked _ _ K) HqL) as (k2 & Hp2 & Hi2). rewrite Hp in Hp2. injection Hp2 as <-.
    cbn in Hq. by subst.
Qed.

(** ** Dropping snapshots *)

(** What a read at [v] takes from the kept states of a chunk. *)
Definition above (l : list item) (v : Z) : option item := head (filter (fun it => v < it_tag it) l).

(** [h'] is [h] after some snapshots went: for the ones that stay, nothing
    changed. *)
Record shrinks (h h' : TxnHistory) : Prop := {
  sr_versions : forall e, e ∈ by_version h' -> e ∈ by_version h;
  sr_above : forall v s c, (v, s) ∈ by_version h' -> above (items_at h' c) v = above (items_at h c) v;
  sr_items : forall c it, it ∈ items_at h' c -> it ∈ items_at h c;
  sr_nodes : forall p, is_Some (nodes h' !! p) -> is_Some (nodes h !! p);
  sr_snaps : forall s, snap_version <$> snapshots h' !! s = snap_version <$> snapshots h !! s;
  sr_limit : limit_bytes h' = limit_bytes h
}.

Lemma sr_snap h h' s x : shrinks h h' -> snapshots h !! s = Some x -> exists x', snapshots h' !! s = Some x' /\ snap_version x' = snap_version x.
Proof. intros Hsh Hx. pose proof (sr_snaps _ _ Hsh s) as E. rewrite Hx in E. destruct (snapshots h' !! s) as [y|]; [|done]. exists y. by injection E as ->. Qed.

Lemma shrinks_refl h : shrinks h h.
Proof. by split. Qed.

Lemma shrinks_trans h1 h2 h3 : shrinks h1 h2 -> shrinks h2 h3 -> shrinks h1 h3.
Proof.
  intros [A1 A2 A3 A4 A5 A6] [B1 B2 B3 B4 B5 B6]. split; eauto.
  - intros v s c Hv. rewrite (B2 v s c Hv). by apply (A2 v s), B1.
  - intros s. by rewrite B5.
  - congruence.
Qed.

Lemma above_filter (P : item -> Prop) `{!forall x, Decision (P x)} l v :
  (forall it, it ∈ l -> v < it_tag it -> P it) -> above (filter P l) v = above l v.
Proof. intros HP. unfold above. f_equal. rewrite list_filter_filter. apply filter_ext. intros x Hx. split; [tauto|]. eauto. Qed.

Lemma above_in l v it : above l v = Some it -> it ∈ l /\ v < it_tag it.
Proof. unfold above. intros H%head_Some_elem_of. apply list_elem_of_filter in H. tauto. Qed.

Lemma above_None l v : above l v = None <-> forall it, it ∈ l -> it_tag it <= v.
Proof.
  unfold above. rewrite head_None. split.
  - intros H it Hit. destruct (decide (v < it_tag it)); [|lia]. exfalso.
    assert (it ∈ filter (fun it => v < it_tag it) l) as Hin by (by apply list_elem_of_filter). rewrite H in Hin. by apply elem_of_nil in Hin.
  - intros H. destruct (filter (fun it => v < it_tag it) l) as [|it l'] eqn:E; [done|].
    assert (it ∈ filter (fun it => v < it_tag it) l) as Hin by (rewrite E; left). apply list_elem_of_filter in Hin as [Hv Hin].
    specialize (H it Hin). lia.
Qed.

Lemma unneeded_min pending h v s tag : snaps_ok pending h -> (v, s) ∈ by_version h -> v < tag -> unneeded h tag = false.
Proof.
  intros [Hv _ _ _ _ _ _ _ _] Hin Ht. unfold unneeded. destruct (by_version h) as [|[v0 s0] m]; [by apply elem_of_nil in Hin|].
  apply Z.leb_gt. apply elem_of_cons in Hin as [[= -> ->]|Hin]; [done|]. apply StronglySorted_inv in Hv as [_ Hv].
  rewrite Forall_forall in Hv. specialize (Hv _ Hin). cbn in Hv. lia.
Qed.

Lemma PruneLocked_shrinks pending h : history_ok pending h ->
  exists h', PruneLocked h = Ok h' /\ history_ok pending h' /\ shrinks h h' /\ tight h' /\ same_snaps h h'.
Proof.
  intros [[L K] Ht Hs]. destruct (PruneLocked_ok h L K) as (h' & -> & K' & Hk & Hss). exists h'. split; [done|].
  pose proof (fun c => items_at_keeps h h' L (fun it => unneeded h (it_tag it) = false) c K K' Hk) as Hi.
  pose proof Hss as (El & _ & Ev & _ & Es). assert (forall t, unneeded h' t = unneeded h t) as Eu by (intros t; unfold unneeded; by rewrite Ev).
  split; [|split; [|split; [|done]]].
  - split; [by eexists|intros c; rewrite Hi; by apply StronglySorted_filter|by apply (same_snaps_ok _ h)].
  - split; try congruence.
    + intros v s c Hin. rewrite Ev in Hin. rewrite Hi. apply above_filter. intros it _ Hlt. by apply (unneeded_min pending h v s).
    + intros c it. rewrite Hi. intros [_ ?]%list_elem_of_filter. done.
    + intros p. rewrite (ka_dom _ _ K'), (ka_dom _ _ K). intros (e & -> & [_ He]%list_elem_of_filter)%list_elem_of_fmap.
      by apply (list_elem_of_fmap_2 fst).
  - intros p k Hp. rewrite Eu. assert (p ∈ (filter (needed_tag h) L).*1) as Hin by (apply (ka_dom _ _ K'); by eexists).
    apply list_elem_of_fmap in Hin as ([q it] & Eq & He). cbn in Eq. subst q.
    destruct (linked_lookup _ _ _ _ _ (ka_linked _ _ K') He) as (k' & Hp' & Hi'). rewrite Hp in Hp'. injection Hp' as <-.
    apply list_elem_of_filter in He as [He _]. cbn in He. by subst it.
Qed.

Lemma filter_ne_length {A} (l : list (A * nat)) s : NoDup l.*2 -> s ∈ l.*2 ->
  length l = S (length (filter (fun e => e.2 <> s) l)).
Proof.
  induction l as [|[a t] l IH]; [by intros _ ?%elem_of_nil|]. rewrite fmap_cons. intros [Ht Hnd]%NoDup_cons Hs.
  rewrite filter_cons. cbn [snd length] in *. case_decide as E.
  - cbn [length]. f_equal. apply IH; [done|]. by apply elem_of_cons in Hs as [->|?].
  - f_equal. rewrite filter_all; [done|]. intros [b u] Hu. assert (s = t) as -> by (destruct (decide (s = t)); [done|by destruct E]).
    cbn. intros ->. apply Ht. by apply (list_elem_of_fmap_2 snd _ (b, t)).
Qed.

Lemma NoDup_filter_snd {A} (l : list (A * nat)) (P : A * nat -> Prop) `{!forall x, Decision (P x)} :
  NoDup l.*2 -> NoDup (filter P l).*2.
Proof.
  induction l as [|e l IH]; [done|]. rewrite fmap_cons. intros [He Hnd]%NoDup_cons. rewrite filter_cons.
  case_decide; [|by apply IH]. rewrite fmap_cons. apply NoDup_cons. split; [|by apply IH].
  intros (x & Ex & [_ Hx]%list_elem_of_filter)%list_elem_of_fmap. apply He. rewrite Ex. by apply (list_elem_of_fmap_2 snd).
Qed.

Lemma elem_of_filter_snd {A} (l : list (A * nat)) s t : t ∈ (filter (fun e => e.2 <> s) l).*2 <-> t <> s /\ t ∈ l.*2.
Proof.
  rewrite !list_elem_of_fmap. split.
  - intros (e & -> & [Hne He]%list_elem_of_filter). eauto.
  - intros (Hne & e & -> & He). exists e. split; [done|]. by apply list_elem_of_filter.
Qed.

Lemma UnregisterLocked_ok pending h s reason : history_ok pending h -> s ∈ (by_version h).*2 ->
  exists h', UnregisterLocked h s reason = Ok h' /\ history_ok pending h' /\ shrinks h h' /\
    by_version h' = filter (fun e => e.2 <> s) (by_version h) /\ by_deadline h' = filter (fun e => e.2 <> s) (by_deadline h) /\
    kept_bytes h' = kept_bytes h.
Proof.
  intros [[L K] Ht Hs] Hin. pose proof Hs as [Sv Sd Sn Sn' Ss Sr So Sp Sb].
  pose proof Hin as ([v s'] & Es & Hvs)%list_elem_of_fmap. cbn in Es. subst s'.
  pose proof Hvs as (x & Hx & Hreg & Hxv)%Sr. unfold UnregisterLocked, snap_at. rewrite Hx, bind_Ok_l.
  eexists. split; [reflexivity|]. pose proof (filter_ne_length _ _ Sn Hin) as Hl. split; [|split; [|done]].
  - split; [exists L; by destruct K|exact Ht|].
    split; cbn [with_snaps by_version by_deadline snapshots open_count]; try done.
    + by apply StronglySorted_filter.
    + by apply StronglySorted_filter.
    + by apply NoDup_filter_snd.
    + by apply NoDup_filter_snd.
    + intros t. by rewrite !elem_of_filter_snd, Ss.
    + intros w t. rewrite list_elem_of_filter, lookup_insert, Sr. cbn [snd]. case_decide as E.
      * subst t. split; [by intros [? _]|]. by intros (y & [= <-] & ? & _).
      * split; [by intros [_ ?]|]. intros H. split; [by intros ->|done].
    + rewrite wrap_small; unfold in_u; lia.
    + rewrite wrap_small; unfold in_u; lia.
  - split; cbn [with_snaps by_version items_at nodes snapshots limit_bytes]; try done.
    + intros e [_ ?]%list_elem_of_filter. done.
    + intros t. rewrite lookup_insert. case_decide; [|done]. subst t. by rewrite Hx.
Qed.

Lemma by_deadline_head pending h d s m : history_ok pending h -> by_deadline h = (d, s) :: m -> s ∈ (by_version h).*2.
Proof. intros [_ _ Hs] E. apply (so_same _ _ Hs). rewrite E. left. Qed.

Lemma ExpireLoop_ok pending now fuel : forall h, history_ok pending h -> (length (by_deadline h) < fuel)%nat ->
  exists h', ExpireLoop fuel h now = Ok h' /\ history_ok pending h' /\ shrinks h h' /\ (expired h now = false -> h' = h).
Proof.
  induction fuel as [|fuel IH]; intros h Hok Hf; [lia|]. cbn [ExpireLoop].
  destruct (by_deadline h) as [|[d s] m] eqn:Ed. { exists h. split; [done|]. split; [done|]. split; [apply shrinks_refl|done]. }
  unfold expired. rewrite Ed. destruct (d <=? now). 2:{ exists h. split; [done|]. split; [done|]. split; [apply shrinks_refl|done]. }
  destruct (UnregisterLocked_ok pending h s (Some kDuration) Hok) as (h1 & -> & Hok1 & Hsh1 & _ & Hd1 & _).
  { by apply (by_deadline_head pending h d s m). }
  rewrite bind_Ok_l. destruct (IH h1 Hok1) as (h' & -> & Hok' & Hsh' & _).
  { rewrite Hd1, Ed, filter_cons, decide_False by (by intros []). pose proof (length_filter (fun e : Z * nat => e.2 <> s) m).
    cbn [length] in Hf. lia. }
  exists h'. split; [done|]. split; [done|]. split; [by apply (shrinks_trans _ h1)|done].
Qed.

Lemma ExpireLocked_ok pending h now : history_ok pending h ->
  exists h', ExpireLocked h now = Ok h' /\ history_ok pending h' /\ shrinks h h' /\ (tight h -> tight h').
Proof.
  intros Hok. unfold ExpireLocked. destruct (ExpireLoop_ok pending now _ h Hok (Nat.lt_succ_diag_r _)) as (h1 & -> & Hok1 & Hsh1 & E).
  rewrite bind_Ok_l. destruct (expired h now). 2:{ rewrite E by done. exists h. split; [done|]. split; [done|]. split; [apply shrinks_refl|done]. }
  destruct (PruneLocked_shrinks pending h1 Hok1) as (h' & -> & Hok' & Hsh' & Ht' & _).
  exists h'. split; [done|]. split; [done|]. split; [by apply (shrinks_trans _ h1)|done].
Qed.

(** ** Kept states of a chunk *)

Lemma range_items h L c : kept_as h L -> Forall2 (fun p it => item_of <$> nodes h !! p = Some it) (range h c) (items_at h c).
Proof.
  intros K. unfold items_at, range.
  assert (forall e, e ∈ filter (fun e => e.1 = c) (kept h) -> e ∈ kept h) as Hin by (intros e [_ ?]%list_elem_of_filter; done).
  induction (filter (fun e => e.1 = c) (kept h)) as [|[c' p] l IH]; [constructor|].
  destruct (kept_in _ _ c' p K) as (it & HL & _); [by apply Hin; left|].
  destruct (linked_lookup _ _ _ _ _ (ka_linked _ _ K) HL) as (k & Hp & Hi).
  rewrite fmap_cons. cbn [snd omap list_omap]. rewrite Hp. cbn [fmap option_fmap option_map]. constructor.
  - by rewrite Hp.
  - apply IH. intros e He. apply Hin. by right.
Qed.

Lemma OldestAboveLocked_ok h L c v : kept_as h L ->
  exists r, OldestAboveLocked h c v = Ok r /\ item_of <$> r = above (items_at h c) v.
Proof.
  intros K. unfold OldestAboveLocked, above. induction (range_items h L c K) as [|p it ps l Hp _ IH]; [by exists None|].
  cbn [FirstAbove]. destruct (nodes h !! p) as [k|] eqn:Ek; [|done]. rewrite (deref_ok _ _ _ Ek), bind_Ok_l.
  injection Hp as <-. rewrite filter_cons. cbn [item_of it_tag]. destruct (Z.ltb_spec v (kept_tag k)) as [Hlt|Hge].
  - rewrite decide_True by done. by exists (Some k).
  - rewrite decide_False by lia. done.
Qed.

Lemma items_at_in h L c it : kept_as h L -> it ∈ items_at h c -> exists p, (p, it) ∈ L /\ it_coord it = c.
Proof.
  intros K (p & Hp & Hr)%list_elem_of_omap. apply list_elem_of_fmap in Hp as ([c' q] & Eq & [Ec Hq]%list_elem_of_filter).
  cbn in Eq, Ec. subst q c'. destruct (kept_in _ _ _ _ K Hq) as (it' & HL & Hc).
  destruct (linked_lookup _ _ _ _ _ (ka_linked _ _ K) HL) as (k & Hk & Hi). rewrite Hk in Hr. injection Hr as <-.
  exists p. rewrite Hi. done.
Qed.

(** ** Publishing *)

(** When a state is needed some snapshot is older than its write; when it is
    not, every registered snapshot is not older or reads another state. *)
Lemma needed_ok pending h state : history_ok pending h ->
  exists b, needed h state = Ok b /\
    (b = true -> unneeded h (kept_tag state) = false) /\
    (b = false -> forall v s, (v, s) ∈ by_version h -> kept_tag state <= v \/ is_Some (above (items_at h (kept_coord state)) v)).
Proof.
  intros [[L K] Ht Hs]. unfold needed. destruct (unneeded h (kept_tag state)) eqn:Eu.
  { exists false. split; [done|]. split; [done|]. intros _ v s Hv. left. destruct (decide (kept_tag state <= v)); [done|].
    rewrite (unneeded_min _ _ _ _ _ Hs Hv) in Eu by lia. done. }
  pose proof (Forall2_last _ _ _ (range_items h L (kept_coord state) K)) as Hl.
  destruct (last (range h (kept_coord state))) as [p|]; [|by exists true].
  destruct (last (by_version h)) as [[v s]|] eqn:Ev; [|by exists true].
  destruct (last (items_at h (kept_coord state))) as [it|] eqn:Hlast; inversion Hl as [? ? Hp|]; subst. destruct (nodes h !! p) as [k|] eqn:Ek; [|done].
  injection Hp as <-. rewrite (deref_ok _ _ _ Ek), bind_Ok_l. eexists. split; [reflexivity|]. split; [done|].
  rewrite negb_false_iff, Z.ltb_lt. intros Hlt w t Hw. right.
  destruct (above (items_at h (kept_coord state)) w) eqn:Ea; [done|]. exfalso. rewrite above_None in Ea.
  specialize (Ea _ (last_Some_elem_of _ _ Hlast)). cbn in Ea.
  destruct (sorted_last _ _ _ _ (so_versions _ _ Hs) Ev Hw) as [[= -> ->]|Hle]; [lia|]. cbn in Hle. lia.
Qed.

Lemma MakeRoom_ok pending state fuel : forall h, history_ok pending h -> (length (by_version h) < fuel)%nat ->
  0 <= kept_size state -> kept_size state + limit_bytes h < 2 ^ 64 ->
  exists h', MakeRoom fuel h state = Ok h' /\ history_ok pending h' /\ shrinks h h' /\ (tight h -> tight h') /\
    (needed h' state = Ok true -> kept_bytes h' + kept_size state <= limit_bytes h').
Proof.
  induction fuel as [|fuel IH]; intros h Hok Hf Hsz Hlim; [lia|]. cbn [MakeRoom].
  destruct (needed_ok pending h state Hok) as (b & Hb & Ht & _). rewrite Hb, bind_Ok_l.
  destruct (ho_kept _ _ Hok) as [L K]. pose proof (ka_limit _ _ K) as Hkl. pose proof (ka_bytes _ _ K) as Hkb.
  pose proof (total_size_nonneg _ (ka_sizes _ _ K)) as Hnn. rewrite wrap_small by (unfold in_u; lia).
  destruct (b && (limit_bytes h <? kept_bytes h + kept_size state)) eqn:E.
  2:{ exists h. split; [done|]. split; [done|]. split; [apply shrinks_refl|]. split; [done|]. rewrite Hb. intros [= ->].
      cbn in E. lia. }
  apply andb_true_iff in E as [-> _]. destruct (by_version h) as [|[v s] m] eqn:Ev.
  { specialize (Ht eq_refl). unfold unneeded in Ht. by rewrite Ev in Ht. }
  destruct (UnregisterLocked_ok pending h s (Some kHistoryLimit) Hok) as (h1 & -> & Hok1 & Hsh1 & Hv1 & _ & _).
  { rewrite Ev. left. }
  rewrite bind_Ok_l. destruct (PruneLocked_shrinks pending h1 Hok1) as (h2 & -> & Hok2 & Hsh2 & Ht2 & Hss2). rewrite bind_Ok_l.
  pose proof (shrinks_trans _ _ _ Hsh1 Hsh2) as Hsh. destruct (IH h2 Hok2) as (h' & Hm & Hok' & Hsh' & Ht' & Hb'); try done.
  { destruct Hss2 as (_ & _ & -> & _). rewrite Hv1, Ev, filter_cons, decide_False by (by intros []).
    pose proof (length_filter (fun e : Z * nat => e.2 <> s) m). cbn [length] in Hf. lia. }
  { by rewrite (sr_limit _ _ Hsh). }
  exists h'. split; [done|]. split; [done|]. split; [by apply (shrinks_trans _ h2)|]. split; [by eauto|done].
Qed.

(** The links of a node inside the list. *)
Lemma linked_mid ns q i B : forall A prev, linked ns prev (A ++ (q, i) :: B) ->
  exists k, ns !! q = Some k /\ item_of k = i /\ older k = (match last A.*1 with Some x => Some x | None => prev end) /\
    newer k = head B.*1.
Proof.
  induction A as [|[p j] A IH]; intros prev H.
  - destruct H as [(k & Hk & Hi & Ho & Hn) _]. by exists k.
  - destruct H as [_ H]. destruct (IH _ H) as (k & Hk & Hi & Ho & Hn). exists k. rewrite fmap_cons. cbn [fst].
    repeat split; try done. rewrite last_cons. rewrite Ho. by destruct (last A.*1).
Qed.

(** Where the walk back ends: after the states with tags up to [tag]. *)
Lemma WalkBack_ok h tag : forall fuel L1 L2, linked (nodes h) None (L1 ++ L2) -> (length L1 < fuel)%nat ->
  StronglySorted (fun a b => it_tag a.2 <= it_tag b.2) (L1 ++ L2) -> Forall (fun e => tag < it_tag e.2) L2 ->
  exists A B, WalkBack fuel h (last L1.*1) tag = Ok (last A.*1) /\ L1 ++ L2 = A ++ B /\
    Forall (fun e => it_tag e.2 <= tag) A /\ Forall (fun e => tag < it_tag e.2) B.
Proof.
  induction fuel as [|fuel IH]; intros L1 L2 Hl Hf Hs H2; [lia|]. cbn [WalkBack].
  destruct L1 as [|[q i] A _] using rev_ind; [by exists [], L2|]. rewrite fmap_app, fmap_cons, fmap_nil, last_snoc. cbn [fst].
  rewrite <- app_assoc in *. cbn [app] in *. destruct (linked_mid _ _ _ _ _ _ Hl) as (k & Hk & <- & Ho & _).
  rewrite (deref_ok _ _ _ Hk), bind_Ok_l. rewrite length_app in Hf. cbn [length] in Hf.
  destruct (Z.ltb_spec tag (kept_tag k)) as [Hlt|Hge].
  - rewrite Ho. destruct (IH A ((q, item_of k) :: L2)) as (A' & B & Hw & E & HA & HB); try done; [lia|by constructor|].
    exists A', B. by destruct (last A.*1).
  - exists (A ++ [(q, item_of k)]), L2. rewrite fmap_app, fmap_cons, fmap_nil, last_snoc. split; [done|].
    split; [by rewrite <- app_assoc|]. split; [|done]. apply Forall_app. split; [|by constructor].
    apply Forall_forall. intros e He. assert (it_tag e.2 <= kept_tag k); [|lia].
    apply (StronglySorted_app_1_elem_of _ _ _ e (q, item_of k) Hs He). left.
Qed.

(** A part of the list that leads to [next]. *)
Fixpoint segment (ns : gmap nat TxnKeptState) (prev : option nat) (L : list (nat * item)) (next : option nat) : Prop :=
  match L with
  | [] => True
  | (p, it) :: L' =>
      (exists k, ns !! p = Some k /\ item_of k = it /\ older k = prev /\ newer k = head (L'.*1 ++ option_list next)) /\
      segment ns (Some p) L' next
  end.

Definition end_of (prev : option nat) (L : list (nat * item)) : option nat :=
  match last L.*1 with Some p => Some p | None => prev end.

Lemma end_of_cons prev p it L : end_of prev ((p, it) :: L) = end_of (Some p) L.
Proof. unfold end_of. rewrite fmap_cons, last_cons. cbn. by destruct (last L.*1). Qed.

Lemma head_app_list (A B : list nat) : head (A ++ B) = head (A ++ option_list (head B)).
Proof. by destruct A, B. Qed.

Lemma linked_app ns B : forall A prev, linked ns prev (A ++ B) <-> segment ns prev A (head B.*1) /\ linked ns (end_of prev A) B.
Proof.
  induction A as [|[p it] A IH]; intros prev; [by split; [intros|intros []]|].
  cbn [app linked segment]. rewrite IH, end_of_cons, fmap_app, <- (head_app_list A.*1 B.*1). tauto.
Qed.

Lemma segment_frame ns ns' next L : forall prev, (forall p, p ∈ L.*1 -> ns' !! p = ns !! p) -> segment ns prev L next -> segment ns' prev L next.
Proof.
  induction L as [|[q it] L IH]; intros prev Hf H; [done|]. destruct H as [(k & Hk & Hi) H]. split.
  - exists k. rewrite Hf by (by left). done.
  - apply IH; [|done]. intros p Hp. apply Hf. by right.
Qed.

(** Changing where a part leads to. *)
Lemma segment_next ns b k next next' : forall L prev, segment ns prev L next -> NoDup L.*1 -> last L.*1 = Some b -> ns !! b = Some k ->
  segment (<[b := with_newer k next']> ns) prev L next'.
Proof.
  induction L as [|[p it] L IH]; intros prev H Hnd Hb Hk; [done|]. rewrite fmap_cons in *. cbn [fst] in *.
  apply NoDup_cons in Hnd as [Hp Hnd]. destruct H as [(k' & Hk' & Hi & Ho & Hn) H]. rewrite last_cons in Hb.
  destruct (last L.*1) as [x|] eqn:El.
  - injection Hb as ->. split; [|by apply IH]. exists k'. rewrite lookup_insert_ne.
    2:{ intros <-. apply Hp. by apply last_Some_elem_of. }
    repeat split; try done. rewrite Hn. destruct L; [done|]. by rewrite fmap_cons.
  - injection Hb as ->. apply last_None in El. apply fmap_nil_inv in El. subst L. split; [|done].
    rewrite Hk in Hk'. injection Hk' as <-. exists (with_newer k next'). rewrite lookup_insert, decide_True by done.
    repeat split; try done. by destruct next'.
Qed.

(** A new node [p] between [A] and [B]: its links, the one back from [B] and the
    one on from [A]. *)
Definition link_nodes (ns : gmap nat TxnKeptState) (p : nat) (state : TxnKeptState) (before after : option nat) : gmap nat TxnKeptState :=
  let ns := <[p := with_newer (with_older state before) after]> ns in
  let ns := match after with
            | Some a => match ns !! a with Some k => <[a := with_older k (Some p)]> ns | None => ns end
            | None => ns end in
  match before with
  | Some b => match ns !! b with Some k => <[b := with_newer k (Some p)]> ns | None => ns end
  | None => ns
  end.

Section LinkNodes.
Context (ns : gmap nat TxnKeptState) (A B : list (nat * item)) (p : nat) (state : TxnKeptState).
Hypothesis Hl : linked ns None (A ++ B).
Hypothesis Hnd : NoDup (A ++ B).*1.
Hypothesis Hp : p ∉ (A ++ B).*1.

Let ns1 := <[p := with_newer (with_older state (last A.*1)) (head B.*1)]> ns.
Let ns2 := match head B.*1 with
           | Some a => match ns1 !! a with Some k => <[a := with_older k (Some p)]> ns1 | None => ns1 end
           | None => ns1 end.

Lemma not_both q : q ∈ A.*1 -> q ∈ B.*1 -> False.
Proof using Hnd. rewrite fmap_app in Hnd. apply NoDup_app in Hnd as (_ & Hd & _). apply Hd. Qed.

Lemma ns1_in q : q ∈ (A ++ B).*1 -> ns1 !! q = ns !! q.
Proof using Hp. intros Hq. apply lookup_insert_ne. by intros ->. Qed.

Lemma ns2_B : linked ns2 (Some p) B /\ forall q, q ∉ B.*1 -> ns2 !! q = ns1 !! q.
Proof using Hl Hnd Hp.
  pose proof Hl as [_ HB]%linked_app. assert (forall q, q ∈ B.*1 -> ns1 !! q = ns !! q) as Hin.
  { intros q Hq. apply ns1_in. rewrite fmap_app. apply elem_of_app. by right. }
  assert (NoDup B.*1) as HndB by (rewrite fmap_app in Hnd; apply NoDup_app in Hnd; tauto).
  unfold ns2. clear ns2. clearbody ns1. destruct B as [|[a i] B']; [by split|].
  rewrite fmap_cons in *. cbn [head fst] in *. apply NoDup_cons in HndB as [Ha _].
  destruct HB as [(k & Hk & Hi & Ho & Hn) HB]. rewrite Hin, Hk by set_solver. split.
  - split.
    + exists (with_older k (Some p)). by rewrite lookup_insert, decide_True.
    + apply (linked_frame ns); [|done]. intros q Hq. rewrite lookup_insert_ne by (by intros <-). apply Hin. by right.
  - intros q Hq. apply lookup_insert_ne. set_solver.
Qed.

Lemma linked_insert : linked (link_nodes ns p state (last A.*1) (head B.*1)) None (A ++ (p, item_of state) :: B) /\
  forall q, q ∉ (A ++ B).*1 -> q <> p -> link_nodes ns p state (last A.*1) (head B.*1) !! q = ns !! q.
Proof using Hl Hnd Hp.
  destruct ns2_B as [HB H2]. pose proof Hl as [HA _]%linked_app. unfold link_nodes. cbv zeta. fold ns1. fold ns2.
  pose proof Hp as Hpq. rewrite fmap_app in Hpq. apply not_elem_of_app in Hpq as [HpA HpB].
  assert (ns1 !! p = Some (with_newer (with_older state (last A.*1)) (head B.*1))) as Hp1 by (unfold ns1; by rewrite lookup_insert, decide_True).
  assert (forall q, q ∈ A.*1 -> ns2 !! q = ns !! q) as HA2.
  { intros q Hq. rewrite H2 by (intros Hq'; by apply (not_both q)). apply ns1_in. rewrite fmap_app. apply elem_of_app. by left. }
  destruct (last A.*1) as [b|] eqn:Eb.
  - pose proof (last_Some_elem_of _ _ Eb) as Hb. rewrite (HA2 b Hb).
    assert (exists kb, ns !! b = Some kb) as [kb Hkb].
    { apply list_elem_of_fmap in Hb as ([b' i] & Eb' & Hin). cbn in Eb'. subst b'.
      destruct (linked_lookup ns (A ++ B) None b i) as (k & Hk & _); [done|by apply elem_of_app; left|]. by exists k. }
    rewrite Hkb. split.
    + apply linked_app. split.
      * apply (segment_next _ _ _ (head B.*1)); [|rewrite fmap_app in Hnd; apply NoDup_app in Hnd as [? _]; done|done|by rewrite HA2].
        by apply (segment_frame ns).
      * split; [exists (with_newer (with_older state (Some b)) (head B.*1))|].
        -- rewrite lookup_insert_ne by (by intros ->). rewrite H2 by done. unfold end_of. by rewrite Eb.
        -- apply (linked_frame ns2); [|done]. intros q Hq. apply lookup_insert_ne. intros <-. by apply (not_both b).
    + intros q Hq Hqp. rewrite fmap_app in Hq. apply not_elem_of_app in Hq as [HqA HqB].
      rewrite lookup_insert_ne by (by intros ->). rewrite H2 by done. by apply lookup_insert_ne.
  - apply last_None, fmap_nil_inv in Eb. rewrite Eb in *. split.
    + split; [|done]. exists (with_newer (with_older state None) (head B.*1)). rewrite H2 by done. done.
    + intros q Hq Hqp. rewrite fmap_app in Hq. apply not_elem_of_app in Hq as [HqA HqB]. rewrite H2 by done. by apply lookup_insert_ne.
Qed.

End LinkNodes.

(** ** Insertion into a multimap *)

Lemma mm_insert_perm {K V} (less : K -> K -> bool) key (value : V) m : mm_insert less key value m ≡ₚ (key, value) :: m.
Proof. induction m as [|e m IH]; [done|]. cbn. destruct (less key e.1); [done|]. rewrite IH. by apply perm_swap. Qed.

Section MultiMap.
Context {K V : Type} `{!EqDecision K} (less : K -> K -> bool).
Hypothesis less_irrefl : forall k, less k k = false.
Hypothesis less_trans : forall a b c, less a b = true -> less b c = true -> less a c = true.
Hypothesis less_total : forall a b, less a b = false -> less b a = false -> a = b.

Lemma less_le a b c : less a b = true -> less c b = false -> less a c = true.
Proof using All.
  intros Hab Hcb. destruct (less a c) eqn:E; [done|]. destruct (less c a) eqn:E'.
  - by rewrite (less_trans c a b) in Hcb.
  - rewrite (less_total a c) in Hab by done. congruence.
Qed.

Lemma mm_insert_sorted key (value : V) m :
  StronglySorted (fun a b => less b.1 a.1 = false) m -> StronglySorted (fun a b => less b.1 a.1 = false) (mm_insert less key value m).
Proof using All.
  induction 1 as [|e m Hm IH He]; cbn [mm_insert]; [by repeat constructor|]. destruct (less key e.1) eqn:E.
  - constructor; [by constructor|]. constructor.
    + cbn [fst]. destruct (less e.1 key) eqn:E'; [|done].
      pose proof (less_trans _ _ _ E E') as Ek. by rewrite less_irrefl in Ek.
    + eapply Forall_impl; [exact He|]. intros x Hx. cbn [fst] in *. destruct (less x.1 key) eqn:E'; [|done].
      by rewrite (less_trans x.1 key e.1) in Hx.
  - constructor; [done|]. apply Forall_forall. intros x Hx. rewrite mm_insert_perm in Hx.
    apply elem_of_cons in Hx as [->|Hx]; [done|]. rewrite Forall_forall in He. by apply He.
Qed.

(** The equal range of a key after the insertion. *)
Lemma mm_insert_range key (value : V) m k : StronglySorted (fun a b => less b.1 a.1 = false) m ->
  filter (fun e => e.1 = k) (mm_insert less key value m) =
  filter (fun e => e.1 = k) m ++ (if decide (key = k) then [(key, value)] else []).
Proof using All.
  induction 1 as [|e m Hm IH He]; cbn [mm_insert]; [by rewrite filter_cons|]. destruct (less key e.1) eqn:E.
  - rewrite !filter_cons. cbn [fst]. destruct (decide (key = k)) as [->|]; [|by rewrite app_nil_r].
    rewrite decide_False by (intros <-; congruence). assert (filter (fun e => e.1 = k) m = []) as ->; [|done].
    destruct (filter (fun e => e.1 = k) m) as [|x l] eqn:Ef; [done|].
    assert (x ∈ filter (fun e => e.1 = k) m) as Hx by (rewrite Ef; left). apply list_elem_of_filter in Hx as [Hk Hx].
    rewrite Forall_forall in He. specialize (He x Hx). cbn in He. rewrite Hk in He. congruence.
  - rewrite !filter_cons, IH. by destruct (decide (e.1 = k)).
Qed.

End MultiMap.

Lemma TxnCoordLess_spec a b : TxnCoordLess a b = true <-> cx a < cx b \/ cx a = cx b /\ cy a < cy b.
Proof. unfold TxnCoordLess. destruct (Z.eqb_spec (cx a) (cx b)); cbn [negb]; rewrite Z.ltb_lt; lia. Qed.

Lemma TxnCoordLess_irrefl c : TxnCoordLess c c = false.
Proof. apply not_true_iff_false. rewrite TxnCoordLess_spec. lia. Qed.

Lemma TxnCoordLess_trans a b c : TxnCoordLess a b = true -> TxnCoordLess b c = true -> TxnCoordLess a c = true.
Proof. rewrite !TxnCoordLess_spec. lia. Qed.

Lemma TxnCoordLess_total a b : TxnCoordLess a b = false -> TxnCoordLess b a = false -> a = b.
Proof.
  rewrite <- !not_true_iff_false, !TxnCoordLess_spec. destruct a as [ax ay], b as [bx by_]. cbn. intros H1 H2.
  f_equal; lia.
Qed.

Lemma after_ok h A B : linked (nodes h) None (A ++ B) -> oldest h = head (A ++ B).*1 ->
  (match last A.*1 with Some b => k ← deref h b; Ok (newer k) | None => Ok (oldest h) end) = Ok (head B.*1).
Proof.
  intros Hl Ho. destruct A as [|[b i] A _] using rev_ind; [cbn; by rewrite Ho|].
  rewrite fmap_app, fmap_cons, fmap_nil, last_snoc. rewrite <- app_assoc in Hl.
  destruct (linked_mid _ _ _ _ _ _ Hl) as (k & Hk & _ & _ & Hn). cbn [fst]. by rewrite (deref_ok _ _ _ Hk), bind_Ok_l, Hn.
Qed.

(** The two links that change, as one update of the nodes. *)
Lemma Relink_ok h p state before after K :
  (forall a, after = Some a -> a <> p /\ is_Some (nodes h !! a)) -> (forall b, before = Some b -> b <> p /\ is_Some (nodes h !! b)) ->
  Relink (with_kept h K (oldest h) (newest h) (kept_bytes h) (<[p := with_newer (with_older state before) after]> (nodes h))) p before after =
  Ok (with_kept h K (match before with Some _ => oldest h | None => Some p end) (match after with Some _ => newest h | None => Some p end)
        (kept_bytes h) (link_nodes (nodes h) p state before after)).
Proof.
  intros Ha Hb. unfold Relink, link_nodes. set (ns1 := <[p := _]> (nodes h)).
  assert (forall q, q <> p -> ns1 !! q = nodes h !! q) as H1 by (intros q Hq; by apply lookup_insert_ne).
  assert (forall b, before = Some b -> is_Some (ns1 !! b)) as Hb1 by (intros b Eb; destruct (Hb b Eb); by rewrite H1).
  destruct after as [a|].
  - destruct (Ha a eq_refl) as [Hap [k Hk]]. rewrite <- H1 in Hk by done. rewrite (deref_ok _ a k) by exact Hk.
    rewrite Hk, !bind_Ok_l. destruct before as [b|]; [|reflexivity].
    assert (is_Some (<[a := with_older k (Some p)]> ns1 !! b)) as [k2 Hk2].
    { rewrite lookup_insert. case_decide; [done|by apply Hb1]. }
    rewrite (deref_ok _ b k2) by exact Hk2. by rewrite Hk2.
  - destruct before as [b|]; [|reflexivity]. destruct (Hb1 b eq_refl) as [k Hk]. rewrite bind_Ok_l.
    rewrite (deref_ok _ b k) by exact Hk. by rewrite Hk.
Qed.

Lemma head_in (L : list (nat * item)) a : head L.*1 = Some a -> exists it, (a, it) ∈ L.
Proof. destruct L as [|[b i] L]; [done|]. intros [= ->]. exists i. left. Qed.

Lemma last_in (L : list (nat * item)) b : last L.*1 = Some b -> exists it, (b, it) ∈ L.
Proof. intros ([b' i] & Eb & H)%last_Some_elem_of%list_elem_of_fmap. cbn in Eb. subst. by exists i. Qed.

Lemma Link_ok h L p state : kept_as h L -> nodes h !! p = None -> 0 <= kept_size state ->
  kept_bytes h + kept_size state <= limit_bytes h ->
  exists h' L', Link h p state = Ok h' /\ kept_as h' L' /\ same_snaps h h' /\ L' ≡ₚ (p, item_of state) :: L /\
    kept h' = mm_insert TxnCoordLess (kept_coord state) p (kept h).
Proof.
  intros K Hp Hsz Hroom. destruct K as [Kdom Knd Kl Ko Kn Ks Kk Kord Ksz Kb Klim].
  destruct (WalkBack_ok h (kept_tag state) (S (size (nodes h))) L []) as (A & B & Hw & E & HA & HB); rewrite ?app_nil_r; try done.
  { rewrite (kept_as_size h L); [lia|by constructor]. }
  rewrite app_nil_r in E. subst L. rewrite <- Kn in Hw. unfold Link. rewrite Hw, bind_Ok_l, (after_ok h A B) by done. rewrite bind_Ok_l.
  assert (p ∉ (A ++ B).*1) as Hpn by (rewrite <- Kdom, Hp; by intros []).
  assert (forall q it, (q, it) ∈ A ++ B -> q <> p /\ is_Some (nodes h !! q)) as Hq.
  { intros q it Hin. apply (list_elem_of_fmap_2 fst) in Hin. cbn in Hin. split; [by intros ->|by apply Kdom]. }
  rewrite Relink_ok.
  2:{ intros a (it & Hin)%head_in. apply (Hq a it). apply elem_of_app. by right. }
  2:{ intros b (it & Hin)%last_in. apply (Hq b it). apply elem_of_app. by left. }
  rewrite bind_Ok_l. destruct (linked_insert (nodes h) A B p state Kl Knd Hpn) as [HL Hother].
  pose proof (Permutation_middle A B (p, item_of state)) as HP. pose proof (total_size_nonneg _ Ksz) as Hnn.
  eexists _, (A ++ (p, item_of state) :: B). split; [reflexivity|]. split; [|split; [by repeat split|by split]].
  split; cbn [with_kept nodes oldest newest kept kept_bytes limit_bytes].
  - intros q. split.
    + intros Hs. destruct (decide (q ∈ (A ++ (p, item_of state) :: B).*1)) as [|Hn]; [done|].
      rewrite <- HP, fmap_cons in Hn. apply not_elem_of_cons in Hn as [Hqp Hn]. rewrite Hother in Hs by done. by apply Kdom in Hs.
    + intros ([q' it] & Eq & Hin)%list_elem_of_fmap. cbn in Eq. subst q'.
      destruct (linked_lookup _ _ _ _ _ HL Hin) as (k & -> & _). done.
  - rewrite <- HP, fmap_cons. by apply NoDup_cons.
  - done.
  - rewrite Ko. destruct A as [|[a i] A]; [done|]. rewrite fmap_cons, last_cons. by destruct (last A.*1).
  - rewrite Kn. destruct B as [|[b i] B]; rewrite !fmap_app, !fmap_cons; [by rewrite fmap_nil, last_snoc|].
    cbn [head]. by rewrite !last_app_cons, last_cons_cons.
  - apply StronglySorted_app in Ks as (Hab & HsA & HsB). apply StronglySorted_app. rewrite Forall_forall in HA, HB. split; [|split; [done|]].
    + intros e1 e2 H1 [->|H2]%elem_of_cons; [by apply (HA e1)|by apply Hab].
    + constructor; [done|]. apply Forall_forall. intros e He. specialize (HB e He). cbn in *. lia.
  - rewrite mm_insert_perm, Kk, <- HP. done.
  - apply mm_insert_sorted; [apply TxnCoordLess_irrefl|apply TxnCoordLess_trans|apply TxnCoordLess_total|done].
  - rewrite <- HP. by constructor.
  - rewrite <- HP, total_size_cons, <- Kb, wrap_small by (unfold in_u; lia). cbn. lia.
  - rewrite wrap_small by (unfold in_u; lia). lia.
Qed.

Lemma items_of_range h L (ps : list nat) : kept_as h L -> (forall p, p ∈ ps -> p ∈ L.*1) ->
  forall h' L', kept_as h' L' -> L ⊆ L' ->
  omap (fun p => item_of <$> nodes h' !! p) ps = omap (fun p => item_of <$> nodes h !! p) ps.
Proof.
  intros K Hps h' L' K' Hsub. induction ps as [|p ps IH]; [done|]. cbn [omap list_omap].
  destruct (proj1 (list_elem_of_fmap fst L p) (Hps p ltac:(left))) as ([q it] & Eq & Hin). cbn in Eq. subst q.
  destruct (linked_lookup _ _ _ _ _ (ka_linked _ _ K) Hin) as (k & -> & Hi).
  destruct (linked_lookup _ _ _ _ _ (ka_linked _ _ K') (Hsub _ Hin)) as (k' & -> & Hi'). cbn. rewrite Hi, Hi'.
  f_equal. apply IH. intros q Hq. apply Hps. by right.
Qed.

Lemma items_at_link h h' L L' p state c : kept_as h L -> kept_as h' L' -> L' ≡ₚ (p, item_of state) :: L ->
  kept h' = mm_insert TxnCoordLess (kept_coord state) p (kept h) ->
  items_at h' c = items_at h c ++ (if decide (kept_coord state = c) then [item_of state] else []).
Proof.
  intros K K' HL Hk. unfold items_at, range. rewrite Hk.
  rewrite (mm_insert_range _ TxnCoordLess_irrefl TxnCoordLess_trans TxnCoordLess_total) by apply K.
  rewrite fmap_app, omap_app. f_equal.
  - apply (items_of_range h L _ K) with L'; [|done|].
    + intros q ([c' q'] & Eq & [_ Hin]%list_elem_of_filter)%list_elem_of_fmap. cbn in Eq. subst q'.
      destruct (kept_in _ _ _ _ K Hin) as (it & HinL & _). by apply (list_elem_of_fmap_2 fst _ (q, it)).
    + intros e He. rewrite HL. by right.
  - destruct (decide (kept_coord state = c)); [|done]. cbn.
    destruct (linked_lookup _ _ _ p (item_of state) (ka_linked _ _ K')) as (k & -> & Hi); [rewrite HL; left|]. cbn. by rewrite Hi.
Qed.

Lemma above_snoc l it v : above (l ++ [it]) v = match above l v with Some x => Some x | None => if v <? it_tag it then Some it else None end.
Proof.
  unfold above. rewrite filter_app, filter_cons, filter_nil. destruct (filter (fun it => v < it_tag it) l); [|done]. cbn.
  destruct (Z.ltb_spec v (it_tag it)); [by rewrite decide_True|by rewrite decide_False by lia].
Qed.

Lemma tight_items h L : kept_as h L -> tight h <-> forall e, e ∈ L -> unneeded h (it_tag e.2) = false.
Proof.
  intros K. split.
  - intros Ht [p it] Hin. destruct (linked_lookup _ _ _ _ _ (ka_linked _ _ K) Hin) as (k & Hk & <-). by apply (Ht p).
  - intros HL p k Hp. assert (p ∈ L.*1) as ([q it] & Eq & Hin)%list_elem_of_fmap by (by apply (ka_dom _ _ K)). cbn in Eq. subst q.
    destruct (linked_lookup _ _ _ _ _ (ka_linked _ _ K) Hin) as (k' & Hk' & <-). rewrite Hp in Hk'. injection Hk' as <-. by apply (HL _ Hin).
Qed.

(** What publishing a state does for the snapshots that stay registered. *)
Record published (h h' : TxnHistory) (p : nat) (it : item) : Prop := {
  pb_versions : forall e, e ∈ by_version h' -> e ∈ by_version h;
  pb_above : forall v s c, (v, s) ∈ by_version h' -> above (items_at h' c) v =
    (if decide (c = it_coord it) then
       match above (items_at h c) v with Some x => Some x | None => if v <? it_tag it then Some it else None end
     else above (items_at h c) v);
  pb_items : forall c x, x ∈ items_at h' c -> x ∈ items_at h c \/ c = it_coord it /\ x = it;
  pb_nodes : forall q, is_Some (nodes h' !! q) -> is_Some (nodes h !! q) \/ q = p;
  pb_snaps : forall s, snap_version <$> snapshots h' !! s = snap_version <$> snapshots h !! s;
  pb_limit : limit_bytes h' = limit_bytes h
}.

Lemma published_skip h h' p state : shrinks h h' ->
  (forall v s, (v, s) ∈ by_version h' -> kept_tag state <= v \/ is_Some (above (items_at h' (kept_coord state)) v)) ->
  published h h' p (item_of state).
Proof.
  intros [S1 S2 S3 S4 S5 S6] Hn. split; try done; [|by intros c x Hx; left; apply S3|by intros q Hq; left; apply S4].
  intros v s c Hv. rewrite (S2 v s c Hv). cbn [item_of it_coord it_tag]. case_decide as E; [|done]. subst c.
  destruct (above (items_at h (kept_coord state)) v) eqn:Ea; [done|]. destruct (Z.ltb_spec v (kept_tag state)); [|done].
  destruct (Hn v s Hv) as [|Hs]; [lia|]. rewrite (S2 v s _ Hv), Ea in Hs. by destruct Hs.
Qed.

Lemma Publish_ok pending h now p state : history_ok pending h -> nodes h !! p = None -> 0 <= kept_size state ->
  kept_size state + limit_bytes h < 2 ^ 64 -> (forall it, it ∈ items_at h (kept_coord state) -> it_tag it < kept_tag state) ->
  exists h' r, Publish h now (Some (p, state)) = Ok (h', r) /\ history_ok pending h' /\ published h h' p (item_of state) /\
    (tight h -> tight h').
Proof.
  intros Hok Hp Hsz Hlim Htag. unfold Publish. destruct (ExpireLocked_ok pending h now Hok) as (h1 & -> & Hok1 & Hsh1 & Ht1).
  rewrite bind_Ok_l. destruct (needed_ok pending h1 state Hok1) as (n1 & -> & _ & Hn1). rewrite bind_Ok_l.
  destruct n1; cbn [negb].
  2:{ exists h1. eexists. split; [reflexivity|]. split; [done|]. split; [|done]. apply published_skip; [done|]. by apply Hn1. }
  destruct (MakeRoom_ok pending state _ h1 Hok1 (Nat.lt_succ_diag_r _) Hsz) as (h2 & -> & Hok2 & Hsh2 & Ht2 & Hroom).
  { by rewrite (sr_limit _ _ Hsh1). }
  pose proof (shrinks_trans _ _ _ Hsh1 Hsh2) as Hsh. rewrite bind_Ok_l.
  destruct (needed_ok pending h2 state Hok2) as (n2 & Hn & Hun & Hn2). rewrite Hn, bind_Ok_l. destruct n2; cbn [negb].
  2:{ exists h2. eexists. split; [reflexivity|]. split; [done|]. split; [|by eauto]. apply published_skip; [done|]. by apply Hn2. }
  destruct Hok2 as [[L K] Htags Hs2]. destruct (Link_ok h2 L p state K) as (h' & L' & -> & K' & Hss & HL & Hk); try done.
  { destruct (nodes h2 !! p) eqn:E; [|done]. destruct (sr_nodes _ _ Hsh p) as [? Hx]; [by rewrite E|]. by rewrite Hp in Hx. }
  { by apply Hroom. }
  rewrite bind_Ok_l. exists h', None. split; [done|].
  pose proof (fun c => items_at_link h2 h' L L' p state c K K' HL Hk) as Hi. pose proof Hss as (El & _ & Ev & _ & Es).
  split; [|split].
  - split; [by exists L'| |by apply (same_snaps_ok _ h2)]. intros c. rewrite Hi. apply StronglySorted_app_2; [|apply Htags|].
    + intros x1 x2 H1 H2. case_decide as E; [|by apply elem_of_nil in H2]. apply list_elem_of_singleton in H2 as ->. subst c.
      apply Htag. by apply (sr_items _ _ Hsh).
    + case_decide; repeat constructor.
  - split; try congruence.
    + intros e. rewrite Ev. apply Hsh.
    + intros v s c Hv. rewrite Ev in Hv. rewrite Hi. cbn [item_of it_coord it_tag]. case_decide as E.
      * subst c. rewrite decide_True by done. rewrite above_snoc, (sr_above _ _ Hsh v s _ Hv). done.
      * rewrite decide_False, app_nil_r by done. by apply (sr_above _ _ Hsh v s).
    + intros c x. rewrite Hi. intros [Hx|Hx]%elem_of_app; [left; by apply (sr_items _ _ Hsh)|]. right.
      case_decide as E; [|by apply elem_of_nil in Hx]. by apply list_elem_of_singleton in Hx as ->.
    + intros q. rewrite (ka_dom _ _ K'), HL, fmap_cons. intros [->|Hq]%elem_of_cons; [by right|]. left.
      apply (sr_nodes _ _ Hsh). by apply (ka_dom _ _ K).
    + intros s. rewrite Es. apply Hsh.
    + rewrite El. apply Hsh.
  - intros Ht%Ht1%Ht2. rewrite (tight_items _ _ K'). rewrite (tight_items _ _ K) in Ht. intros e.
    assert (forall t, unneeded h' t = unneeded h2 t) as -> by (intros t; unfold unneeded; by rewrite Ev).
    rewrite HL. intros [->|He]%elem_of_cons; [by apply Hun|by apply Ht].
Qed.

(** ** Snapshots *)

Lemma registered_iff pending h s x : snaps_ok pending h -> snapshots h !! s = Some x ->
  registered x = true <-> (snap_version x, s) ∈ by_version h.
Proof.
  intros Hs Hx. rewrite (so_registered _ _ Hs). split; [by exists x|]. intros (y & Hy & Hr & _). congruence.
Qed.

Lemma shrinks_length pending h h' : snaps_ok pending h' -> shrinks h h' -> (length (by_version h') <= length (by_version h))%nat.
Proof. intros Hs Hsh. apply submseteq_length, NoDup_submseteq; [apply (NoDup_fmap_1 snd), Hs|apply Hsh]. Qed.

Lemma RegisterCount_ok h now : history_ok 0 h -> open_count h + 1 < 2 ^ 64 ->
  exists h', RegisterCount h now = Ok h' /\ history_ok 1 h' /\ shrinks h h' /\ (tight h -> tight h').
Proof.
  intros Hok Hb. unfold RegisterCount. destruct (ExpireLocked_ok 0 h now Hok) as (h1 & -> & Hok1 & Hsh1 & Ht1). rewrite bind_Ok_l.
  pose proof (shrinks_length 0 h h1 (ho_snaps _ _ Hok1) Hsh1) as Hl. pose proof (so_open _ _ (ho_snaps _ _ Hok)) as Ho.
  eexists. split; [reflexivity|]. destruct Hok1 as [[L K] Ht [Sv Sd Sn Sn' Ss Sr So Sp Sb]]. split; [|split; [by destruct Hsh1|exact Ht1]].
  split; [exists L; by destruct K|done|]. split; cbn [with_snaps by_version by_deadline snapshots open_count]; try done.
  - rewrite wrap_small; unfold in_u; lia.
  - rewrite wrap_small; unfold in_u; lia.
Qed.

Lemma mm_insert_z_sorted version (s : nat) m : StronglySorted (fun a b : Z * nat => a.1 <= b.1) m ->
  StronglySorted (fun a b => a.1 <= b.1) (mm_insert Z.ltb version s m).
Proof.
  intros Hm. assert (forall l : list (Z * nat), StronglySorted (fun a b => a.1 <= b.1) l <-> StronglySorted (fun a b => (b.1 <? a.1) = false) l) as Hiff.
  { intros l. split; induction 1; constructor; try done; eapply Forall_impl; try done; cbn; intros; lia. }
  rewrite Hiff in *. apply mm_insert_sorted; [intros; lia|intros; lia|intros; lia|done].
Qed.

Lemma RegisterPublish_ok h s version deadline : history_ok 1 h -> snapshots h !! s = None ->
  history_ok 0 (RegisterPublish h s version deadline) /\
  by_version (RegisterPublish h s version deadline) ≡ₚ (version, s) :: by_version h /\
  (tight h -> tight (RegisterPublish h s version deadline)).
Proof.
  intros [[L K] Ht [Sv Sd Sn Sn' Ss Sr So Sp Sb]] Hs. assert (s ∉ (by_version h).*2) as Hn.
  { intros ([v t] & Et & Hin)%list_elem_of_fmap. cbn in Et. subst t. apply Sr in Hin as (x & Hx & _). congruence. }
  pose proof (mm_insert_perm Z.ltb version s (by_version h)) as Hp. pose proof (mm_insert_perm Z.ltb deadline s (by_deadline h)) as Hp'.
  split; [|split; [done|]].
  - split; [exists L; by destruct K|done|]. split; cbn [RegisterPublish with_snaps by_version by_deadline snapshots open_count]; try done.
    + by apply mm_insert_z_sorted.
    + by apply mm_insert_z_sorted.
    + rewrite Hp, fmap_cons. by apply NoDup_cons.
    + rewrite Hp', fmap_cons. apply NoDup_cons. by rewrite <- Ss.
    + intros t. by rewrite Hp, Hp', !fmap_cons, !elem_of_cons, Ss.
    + intros v t. rewrite Hp, elem_of_cons, lookup_insert, Sr. case_decide as E.
      * subst t. split; [intros [[= ->]|(x & Hx & _)]; [by eexists|congruence]|]. intros (x & [= <-] & _ & <-). by left.
      * split; [intros [[= -> ->]|?]; done|by right].
    + rewrite Hp. cbn [length]. lia.
  - intros Htight p k Hk. specialize (Htight p k Hk). unfold unneeded in *. cbn [RegisterPublish with_snaps by_version].
    destruct (by_version h) as [|[v t] m]; [done|]. cbn [mm_insert fst]. destruct (Z.ltb_spec version v); lia.
Qed.

(** The errors of a transaction that is over. *)
Definition over (e : exn) : Prop :=
  (exists r, e = TransactionConflictError r) \/ e = invalid_argument "the transaction has ended".

Lemma RequireRegistered_ok pending h s x : snaps_ok pending h -> snapshots h !! s = Some x ->
  match RequireRegisteredLocked h s with
  | Ok y => y = x /\ (snap_version x, s) ∈ by_version h
  | Err e => (s ∉ (by_version h).*2) /\ over e
  end.
Proof.
  intros Hs Hx. unfold RequireRegisteredLocked, snap_at. rewrite Hx, bind_Ok_l. pose proof (registered_iff _ _ _ _ Hs Hx) as Hr.
  destruct (registered x) eqn:E; [split; [done|by apply Hr]|].
  assert (s ∉ (by_version h).*2).
  { intros ([v t] & Et & Hin)%list_elem_of_fmap. cbn in Et. subst t. apply (so_registered _ _ Hs) in Hin as (y & Hy & Hry & _). congruence. }
  destruct (end_reason x) as [r|]; split; try done; [left; by exists r|by right].
Qed.

(** Every operation on a snapshot expires the others first. *)
Lemma when_registered_ok {A} pending h now s x (f : TxnHistory -> TxnSnapshot -> res (TxnHistory * res A)) (Q : TxnHistory -> A -> Prop) (E : exn -> Prop) :
  history_ok pending h -> snapshots h !! s = Some x -> (forall e, over e -> E e) ->
  (forall h1 y, history_ok pending h1 -> shrinks h h1 -> (tight h -> tight h1) -> snap_version y = snap_version x ->
    (snap_version x, s) ∈ by_version h1 ->
    exists h' r, f h1 y = Ok (h', r) /\ history_ok pending h' /\ shrinks h h' /\ (tight h -> tight h') /\
      match r with Ok a => Q h' a | Err e => (s ∉ (by_version h').*2) /\ E e end) ->
  exists h' r, (h1 ← ExpireLocked h now; when_registered h1 s (f h1)) = Ok (h', r) /\ history_ok pending h' /\ shrinks h h' /\
    (tight h -> tight h') /\ match r with Ok a => Q h' a | Err e => (s ∉ (by_version h').*2) /\ E e end.
Proof.
  intros Hok Hx HE Hf. destruct (ExpireLocked_ok pending h now Hok) as (h1 & -> & Hok1 & Hsh1 & Ht1). rewrite bind_Ok_l.
  destruct (sr_snap _ _ s x Hsh1 Hx) as (y & Hy & Ey). unfold when_registered.
  pose proof (RequireRegistered_ok pending h1 s y (ho_snaps _ _ Hok1) Hy) as Hr. destruct (RequireRegisteredLocked h1 s) as [z|e].
  - destruct Hr as [-> Hin]. rewrite Ey in Hin. by apply Hf.
  - destruct Hr as [Hn Ho]. exists h1, (Err e). split; [done|]. split; [done|]. split; [done|]. split; [done|]. split; [done|by apply HE].
Qed.

Lemma VisitAt_ok pending h now s x c : history_ok pending h -> snapshots h !! s = Some x ->
  exists h' r, VisitAt h now s c = Ok (h', r) /\ history_ok pending h' /\ shrinks h h' /\ (tight h -> tight h') /\
    match r with
    | Ok st => (snap_version x, s) ∈ by_version h' /\ st = it_state <$> above (items_at h c) (snap_version x)
    | Err e => (s ∉ (by_version h').*2) /\ over e
    end.
Proof.
  intros Hok Hx. apply (when_registered_ok pending h now s x
    (fun h y => k ← OldestAboveLocked h c (snap_version y); Ok (h, Ok (option_map kept_state k)))
    (fun h' st => (snap_version x, s) ∈ by_version h' /\ st = it_state <$> above (items_at h c) (snap_version x)) over); try done.
  intros h1 y Hok1 Hsh1 Ht1 Ey Hin. destruct (ho_kept _ _ Hok1) as [L K].
  destruct (OldestAboveLocked_ok h1 L c (snap_version y) K) as (k & -> & Hk). rewrite bind_Ok_l. do 2 eexists. split; [reflexivity|].
  split; [done|]. split; [done|]. split; [done|]. split; [done|]. rewrite <- (sr_above _ _ Hsh1 _ s c Hin), <- Ey, <- Hk. by destruct k.
Qed.

Lemma ChangedSince_ok pending h now s x c : history_ok pending h -> snapshots h !! s = Some x ->
  exists h' r, ChangedSince h now s c = Ok (h', r) /\ history_ok pending h' /\ shrinks h h' /\ (tight h -> tight h') /\
    match r with
    | Ok b => (snap_version x, s) ∈ by_version h' /\ b = bool_decide (is_Some (above (items_at h c) (snap_version x)))
    | Err e => (s ∉ (by_version h').*2) /\ over e
    end.
Proof.
  intros Hok Hx. apply (when_registered_ok pending h now s x
    (fun h y => k ← OldestAboveLocked h c (snap_version y); Ok (h, Ok (bool_decide (is_Some k))))
    (fun h' b => (snap_version x, s) ∈ by_version h' /\ b = bool_decide (is_Some (above (items_at h c) (snap_version x)))) over); try done.
  intros h1 y Hok1 Hsh1 Ht1 Ey Hin. destruct (ho_kept _ _ Hok1) as [L K].
  destruct (OldestAboveLocked_ok h1 L c (snap_version y) K) as (k & -> & Hk). rewrite bind_Ok_l. do 2 eexists. split; [reflexivity|].
  split; [done|]. split; [done|]. split; [done|]. split; [done|]. rewrite <- (sr_above _ _ Hsh1 _ s c Hin), <- Ey, <- Hk. by destruct k.
Qed.

Lemma AnyAbove_ok h L v coords : kept_as h L ->
  exists b, AnyAbove h coords v = Ok b /\ (b = true <-> exists c, c ∈ coords /\ is_Some (above (items_at h c) v)).
Proof.
  intros K. induction coords as [|c coords IH]; [exists false; split; [done|]; split; [done|]; by intros (c & Hc%elem_of_nil & _)|].
  cbn [AnyAbove]. destruct (OldestAboveLocked_ok h L c v K) as (k & -> & Hk). rewrite bind_Ok_l.
  destruct k as [k|]; cbn [fmap option_fmap option_map] in Hk; rewrite ?bool_decide_true, ?bool_decide_false by (by eexists || by intros []).
  - exists true. split; [done|]. split; [|done]. intros _. exists c. split; [left|]. rewrite <- Hk. done.
  - destruct IH as (b & -> & Hb). exists b. split; [done|]. rewrite Hb. split; intros (d & Hd & Hs).
    + exists d. split; [by right|done].
    + apply elem_of_cons in Hd as [->|Hd]; [rewrite <- Hk in Hs; by destruct Hs|by exists d].
Qed.

Lemma End_ok pending h s x : history_ok pending h -> snapshots h !! s = Some x ->
  exists h', End_ h s = Ok h' /\ history_ok pending h' /\ shrinks h h' /\ (tight h -> tight h') /\ s ∉ (by_version h').*2.
Proof.
  intros Hok Hx. unfold End_, snap_at. rewrite Hx, bind_Ok_l. pose proof (registered_iff _ _ _ _ (ho_snaps _ _ Hok) Hx) as Hr.
  destruct (registered x) eqn:E.
  - destruct (UnregisterLocked_ok pending h s None Hok) as (h1 & -> & Hok1 & Hsh1 & Hv & _).
    { apply (list_elem_of_fmap_2 snd _ (snap_version x, s)). by apply Hr. }
    rewrite bind_Ok_l. destruct (PruneLocked_shrinks pending h1 Hok1) as (h' & -> & Hok' & Hsh' & Ht' & (_ & _ & Ev & _)).
    exists h'. split; [done|]. split; [done|]. split; [by apply (shrinks_trans _ h1)|]. split; [done|].
    rewrite Ev, Hv, elem_of_filter_snd. by intros [? _].
  - exists h. split; [done|]. split; [done|]. split; [apply shrinks_refl|]. split; [done|].
    intros ([v t] & Et & Hin)%list_elem_of_fmap. cbn in Et. subst t.
    apply (so_registered _ _ (ho_snaps _ _ Hok)) in Hin as (y & Hy & Hry & _). congruence.
Qed.

Lemma ValidateAndEnd_ok pending h now s x coords : history_ok pending h -> snapshots h !! s = Some x ->
  exists h' r, ValidateAndEnd h now s coords = Ok (h', r) /\ history_ok pending h' /\ shrinks h h' /\ (tight h -> tight h') /\
    (s ∉ (by_version h').*2) /\
    match r with
    | Ok _ => (snap_version x, s) ∈ by_version h /\ forall c, c ∈ coords -> above (items_at h c) (snap_version x) = None
    | Err e => over e
    end.
Proof.
  intros Hok Hx. destruct (when_registered_ok pending h now s x
    (fun h y => changed ← AnyAbove h coords (snap_version y); h ← UnregisterLocked h s None; h ← PruneLocked h;
       Ok (h, throw_if changed (TransactionConflictError kChunkChanged)))
    (fun h' _ => (s ∉ (by_version h').*2) /\ (snap_version x, s) ∈ by_version h /\
       forall c, c ∈ coords -> above (items_at h c) (snap_version x) = None) over) as (h' & r & H1 & H2 & H3 & H4 & H5); try done.
  - intros h1 y Hok1 Hsh1 Ht1 Ey Hin. destruct (ho_kept _ _ Hok1) as [L K].
    destruct (AnyAbove_ok h1 L (snap_version y) coords K) as (b & -> & Hb). rewrite bind_Ok_l.
    destruct (UnregisterLocked_ok pending h1 s None Hok1) as (h2 & -> & Hok2 & Hsh2 & Hv & _).
    { by apply (list_elem_of_fmap_2 snd _ (snap_version x, s)). }
    rewrite bind_Ok_l. destruct (PruneLocked_shrinks pending h2 Hok2) as (h' & -> & Hok' & Hsh' & Ht' & (_ & _ & Ev & _)).
    rewrite bind_Ok_l. do 2 eexists. split; [reflexivity|]. split; [done|].
    split; [apply (shrinks_trans _ h1); [done|by apply (shrinks_trans _ h2)]|]. split; [done|].
    assert (s ∉ (by_version h').*2) as Hn by (rewrite Ev, Hv, elem_of_filter_snd; by intros [? _]).
    destruct b; cbn [throw_if]; [split; [done|left; by eexists]|]. split; [done|]. split; [by apply Hsh1|].
    intros c Hc. rewrite <- (sr_above _ _ Hsh1 _ s c Hin), <- Ey. destruct (above (items_at h1 c) (snap_version y)) eqn:Ea; [|done].
    exfalso. assert (false = true); [|done]. apply Hb. exists c. by rewrite Ea.
  - exists h', r. split; [done|]. split; [done|]. split; [done|]. split; [done|]. destruct r; tauto.
Qed.

(** PrepareTxnKeepLocked for a whole-chunk write reserves without the payload
    and the presence; filled in at the commit it is the plain reservation. *)
Lemma FillPayload_Reserve overhead p coord tag st :
  FillPayload overhead (Reserve overhead p coord tag
    {| cs_version := cs_version st; cs_payload := []; cs_presence := []; cs_vars := cs_vars st; cs_written := cs_written st |})
    (cs_payload st) (cs_presence st) = Reserve overhead p coord tag st.
Proof. by destruct st. Qed.

(** ** Runs of the history *)

(** An operation with the values it depends on: the time, the clock, addresses. *)
Inductive op :=
| OpPublish (now : Z) (p : node_ptr) (coord : ChunkCoord) (tag : Z) (state : ChunkState)
| OpRegister (now next : Z) (s : snap_ptr) (deadline : Z)
| OpEnd (s : snap_ptr)
| OpVisit (now : Z) (s : snap_ptr) (coord : ChunkCoord)
| OpChanged (now : Z) (s : snap_ptr) (coord : ChunkCoord)
| OpValidate (now : Z) (s : snap_ptr) (coords : list ChunkCoord).

Definition run_op (overhead : Z) (h : TxnHistory) (o : op) : res TxnHistory :=
  match o with
  | OpPublish now p coord tag state => r ← Publish h now (Reserve overhead p coord tag state); Ok r.1
  | OpRegister now next s deadline => Register h now next s deadline
  | OpEnd s => End_ h s
  | OpVisit now s coord => r ← VisitAt h now s coord; Ok r.1
  | OpChanged now s coord => r ← ChangedSince h now s coord; Ok r.1
  | OpValidate now s coords => r ← ValidateAndEnd h now s coords; Ok r.1
  end.

(** What the store guarantees of a call: fresh addresses, sizes of an address
    space, snapshots that exist, and ascending tags for each chunk. *)
Definition valid_op (overhead : Z) (h : TxnHistory) (o : op) : Prop :=
  match o with
  | OpPublish now p coord tag state =>
      nodes h !! p = None /\ 0 <= overhead /\ StateBytes overhead state + limit_bytes h < 2 ^ 64 /\
      forall it, it ∈ items_at h coord -> it_tag it < tag
  | OpRegister now next s deadline => snapshots h !! s = None /\ open_count h + 1 < 2 ^ 64
  | OpEnd s | OpVisit _ s _ | OpChanged _ s _ | OpValidate _ s _ => is_Some (snapshots h !! s)
  end.

Inductive reachable (overhead limit : Z) : TxnHistory -> Prop :=
| reach_start : reachable overhead limit (MakeTxnHistory limit)
| reach_step h o h' : reachable overhead limit h -> valid_op overhead h o -> run_op overhead h o = Ok h' -> reachable overhead limit h'.

Lemma StateBytes_nonneg overhead state : 0 <= overhead -> 0 <= StateBytes overhead state.
Proof. unfold StateBytes, Vars.encoded_size. lia. Qed.

Lemma run_op_ok overhead h o : history_ok 0 h -> tight h -> valid_op overhead h o ->
  exists h', run_op overhead h o = Ok h' /\ history_ok 0 h' /\ tight h' /\ limit_bytes h' = limit_bytes h.
Proof.
  intros Hok Ht Hv. destruct o as [now p c tag st|now next s d|s|now s c|now s c|now s cs]; cbn [run_op valid_op] in *.
  - destruct Hv as (Hp & Ho & Hl & Htag). unfold Reserve.
    edestruct (Publish_ok 0 h now p) as (h' & r & -> & Hok' & Hpub & Ht'); [done|exact Hp|by apply StateBytes_nonneg|done|done|].
    exists h'. split; [done|]. split; [done|]. split; [by apply Ht'|apply Hpub].
  - destruct Hv as [Hs Ho]. unfold Register. destruct (RegisterCount_ok h now Hok Ho) as (h1 & -> & Hok1 & Hsh1 & Ht1). rewrite bind_Ok_l.
    eexists. split; [reflexivity|]. destruct (RegisterPublish_ok h1 s (RegisterVersion next) d Hok1) as (Hok' & _ & Ht').
    { pose proof (sr_snaps _ _ Hsh1 s) as E. rewrite Hs in E. by destruct (snapshots h1 !! s). }
    split; [done|]. split; [by apply Ht', Ht1|apply Hsh1].
  - destruct Hv as [x Hx]. destruct (End_ok 0 h s x Hok Hx) as (h' & -> & Hok' & Hsh' & Ht' & _). exists h'. split; [done|].
    split; [done|]. split; [by apply Ht'|apply Hsh'].
  - destruct Hv as [x Hx]. destruct (VisitAt_ok 0 h now s x c Hok Hx) as (h' & r & -> & Hok' & Hsh' & Ht' & _). exists h'. split; [done|].
    split; [done|]. split; [by apply Ht'|apply Hsh'].
  - destruct Hv as [x Hx]. destruct (ChangedSince_ok 0 h now s x c Hok Hx) as (h' & r & -> & Hok' & Hsh' & Ht' & _). exists h'. split; [done|].
    split; [done|]. split; [by apply Ht'|apply Hsh'].
  - destruct Hv as [x Hx]. destruct (ValidateAndEnd_ok 0 h now s x cs Hok Hx) as (h' & r & -> & Hok' & Hsh' & Ht' & _). exists h'.
    split; [done|]. split; [done|]. split; [by apply Ht'|apply Hsh'].
Qed.

Lemma reachable_ok overhead limit h : 0 <= limit < 2 ^ 64 -> reachable overhead limit h ->
  history_ok 0 h /\ tight h /\ limit_bytes h = limit.
Proof.
  intros Hl. induction 1 as [|h o h' _ (Hok & Ht & El) Hv Hr].
  - split; [|done]. split; [exists []|intros c; constructor|].
    + split; cbn; try done; try lia; try (by constructor). intros p. rewrite lookup_empty. split; [by intros []|by intros ?%elem_of_nil].
    + split; cbn; try done; try lia; try (by constructor). intros v s. split; [by intros ?%elem_of_nil|].
      intros (x & Hx & _). by rewrite lookup_empty in Hx.
  - destruct (run_op_ok overhead h o Hok Ht Hv) as (h2 & Hr2 & Hok2 & Ht2 & El2). rewrite Hr in Hr2. injection Hr2 as <-.
    split; [done|]. split; [done|congruence].
Qed.

(** C9: through any sequence of operations every pointer the history follows is to a live node and every loop ends;
    the kept states stay within the byte limit, each is needed by a registered snapshot older than its write, and none
    is kept once no snapshot is registered; the open count is the number of registered snapshots. *)
Theorem history_invariant overhead limit h : 0 <= limit < 2 ^ 64 -> reachable overhead limit h ->
  (forall o, valid_op overhead h o -> exists h', run_op overhead h o = Ok h') /\
  KeptBytes h <= limit /\ open_count h = RegisteredCount h /\
  (forall p k, nodes h !! p = Some k -> exists v s, (v, s) ∈ by_version h /\ v < kept_tag k) /\
  (RegisteredCount h = 0 -> KeptCount h = 0).
Proof.
  intros Hl Hr. destruct (reachable_ok _ _ _ Hl Hr) as (Hok & Ht & El). pose proof Hok as [[L K] _ Hs]. split; [|split; [|split; [|split]]].
  - intros o Hv. destruct (run_op_ok overhead h o Hok Ht Hv) as (h' & H & _). by exists h'.
  - unfold KeptBytes. rewrite <- El. apply K.
  - unfold RegisteredCount. rewrite (so_open _ _ Hs). lia.
  - intros p k Hp. specialize (Ht p k Hp). unfold unneeded in Ht. destruct (by_version h) as [|[v s] m]; [done|].
    exists v, s. split; [left|]. lia.
  - unfold RegisteredCount, KeptCount. intros E. destruct (by_version h) as [|e m] eqn:Ev; [|cbn in E; lia].
    rewrite (ka_kept _ _ K), length_fmap. destruct L as [|[p it] L]; [done|]. exfalso.
    rewrite (tight_items _ _ K) in Ht. specialize (Ht (p, it) ltac:(left)). unfold unneeded in Ht. by rewrite Ev in Ht.
Qed.

(** ** An example run *)

#[export] Instance valid_op_dec overhead h o : Decision (valid_op overhead h o).
Proof.
  destruct o; cbn [valid_op]; try apply _. repeat apply and_dec; try apply _.
  destruct (decide (Forall (fun it => it_tag it < tag) (items_at h coord))) as [H|H]; [left|right];
    rewrite Forall_forall in H; exact H.
Defined.

Fixpoint run_ops (overhead : Z) (h : TxnHistory) (ops : list op) : res TxnHistory :=
  match ops with
  | [] => Ok h
  | o :: ops =>
      if decide (valid_op overhead h o) then h ← run_op overhead h o; run_ops overhead h ops else Err (logic_error "invalid operation")
  end.

Lemma run_ops_reachable overhead limit ops : forall h h', reachable overhead limit h -> run_ops overhead h ops = Ok h' ->
  reachable overhead limit h'.
Proof.
  induction ops as [|o ops IH]; intros h h' Hr H; cbn in H; [by injection H as <-|]. case_decide as Hv; [|done].
  apply bind_ok in H as (h1 & H1 & H). apply (IH h1); [|done]. by apply (reach_step _ _ h o).
Qed.

Definition example_state : ChunkState :=
  {| cs_version := 1; cs_payload := [1; 2]; cs_presence := [1]; cs_vars := Vars.no_vars; cs_written := true |}.

(** Two snapshots and three writes; the limit has no room for the third state
    until the older snapshot goes. *)
Definition example_ops : list op :=
  [OpRegister 0 5 0 100; OpPublish 1 0 {| cx := 0; cy := 0 |} 5 example_state;
   OpPublish 2 1 {| cx := 1; cy := 0 |} 6 example_state; OpRegister 3 7 1 100;
   OpPublish 4 2 {| cx := 0; cy := 0 |} 7 example_state].

Definition example_history : TxnHistory :=
  Eval vm_compute in match run_ops 10 (MakeTxnHistory 30) example_ops with Ok h => h | Err _ => MakeTxnHistory 0 end.

Lemma history_invariant_witness :
  by_version example_history = [(6, 1%nat)] /\ KeptBytes example_history = 13 /\ KeptBytes example_history <= 30 /\
  open_count example_history = RegisteredCount example_history.
Proof.
  destruct (history_invariant 10 30 example_history) as (_ & H2 & H3 & _); [lia| |].
  - apply (run_ops_reachable _ _ example_ops (MakeTxnHistory 30)); [constructor|vm_compute; reflexivity].
  - split; [reflexivity|]. split; [reflexivity|]. split; [exact H2|exact H3].
Defined.

End TxnHistory.
