(* ===== verification/VersionClock.v ===== *)
(** * The version clock (src/src/version_clock.cpp)

    Every mutation takes a version token from one clock of the store.  The file
    chunkdb.version holds a ceiling above every token issued so far; a token at
    or above it is issued only after a higher ceiling is durable, and a restart
    continues at the ceiling.  The records are modelled with their readers, the
    start-up with its refusals, and the clock as it is used: threads take, check
    and reserve tokens and raise the clock in any interleaving, writes of the
    record may fail with or without taking effect, and the process may crash at
    any time.  The counter has 64 bits and wraps, as fetch_add does; the theorem:
    until it wraps no token is issued twice, and how long that is at least. *)
From stdpp Require Import prelude strings gmap sorting.
From Stdlib Require Import ZArith Lia.
From S2P Require Import Prelude Bits Crc32 LittleEndian.

#[local] Open Scope Z_scope.

Module VersionClock.
Import LittleEndian.

(** ** Records *)

Definition kVersionClockReservationBatch : Z := 16384.
Definition kVersionClockMagic : bytes := str "CKVR".
Definition kVersionClockRecordSize : Z := 16.
Definition kInitializedMarkerMagic : bytes := str "CKID".
Definition kInitializedMarkerRecordSize : Z := 16.
Definition max_u64 : Z := 2 ^ 64 - 1.

Definition SerializeInitializedMarker : bytes :=
  let bytes := kInitializedMarkerMagic ++ WriteLe64 1 in
  bytes ++ WriteLe32 (Crc32.Crc32 bytes).

Definition IsValidInitializedMarker (bytes : bytes) : bool :=
  (len bytes =? kInitializedMarkerRecordSize) && bool_decide (take 4 bytes = kInitializedMarkerMagic) &&
  (ReadLe64 bytes 4 =? 1) && (ReadLe32 bytes 12 =? Crc32.Crc32 (take 12 bytes)).

Definition SerializeVersionClockRecord (ceiling : Z) : bytes :=
  let bytes := kVersionClockMagic ++ WriteLe64 ceiling in
  bytes ++ WriteLe32 (Crc32.Crc32 bytes).

Definition TryParseVersionClockRecord (bytes : bytes) : option Z :=
  if negb (len bytes =? kVersionClockRecordSize) then None
  else if negb (bool_decide (take 4 bytes = kVersionClockMagic)) then None
  else if negb (ReadLe32 bytes 12 =? Crc32.Crc32 (take 12 bytes)) then None
  else
    let ceiling := ReadLe64 bytes 4 in
    if ceiling =? 0 then None else Some ceiling.

(** ** Start-up *)

(** What the file system says of a record file: it is not there, it cannot be
    inspected, it is there but cannot be read, or it has these bytes. *)
Inductive record_file :=
| Missing
| Uninspectable
| Unreadable
| Holds (b : bytes).

Record clock_files := { version_file : record_file; marker_file : record_file }.

Record VersionClock := { clock : Z; ceiling : Z }.

(** The start-up as it reads the files; the writes it makes are next to the
    result, in order: the version record, then the marker. *)
Definition InitializeVersionClock (files : clock_files) (store_preexisting inventory_error : bool) (initial_version_floor : Z) :
  res (VersionClock * option bytes * option bytes) :=
  marker ← match marker_file files with
           | Uninspectable => Err (runtime_error "cannot inspect initialized-store marker")
           | Missing => Ok false
           | Unreadable => Err (runtime_error "failed to read file")
           | Holds b => if IsValidInitializedMarker b then Ok true else Err (runtime_error "initialized-store marker is invalid")
           end;
  match version_file files with
  | Uninspectable => Err (runtime_error "cannot inspect version bookkeeping")
  | Missing =>
      _ ← throw_if marker (runtime_error "version bookkeeping is missing but the valid initialized-store marker proves");
      _ ← throw_if inventory_error (runtime_error "both version bookkeeping records are missing: startup inventory is unavailable");
      _ ← throw_if store_preexisting (runtime_error "both version bookkeeping records are missing: chunk artifacts");
      let first := Z.max 1 (Z.min initial_version_floor (max_u64 - 1)) in
      Ok ({| clock := first; ceiling := first |}, Some (SerializeVersionClockRecord first), Some SerializeInitializedMarker)
  | Unreadable => Err (runtime_error "version bookkeeping exists but could not be read")
  | Holds b =>
      _ ← throw_if (negb (len b =? kVersionClockRecordSize)) (runtime_error "version bookkeeping exists but could not be read");
      match TryParseVersionClockRecord b with
      | None => Err (runtime_error "version bookkeeping is malformed, truncated, oversized, or corrupt")
      | Some persisted =>
          Ok ({| clock := persisted; ceiling := persisted |}, None, if marker then None else Some SerializeInitializedMarker)
      end
  end.

(** ** Tokens, one caller at a time *)

(** The ceiling ExtendVersionClockCeilingLocked makes durable. *)
Definition NewCeiling (ceiling minimum_exclusive : Z) : res Z :=
  if ceiling <=? minimum_exclusive then
    _ ← throw_if (max_u64 - kVersionClockReservationBatch <? minimum_exclusive) (overflow_error "chunk version clock exhausted");
    Ok (minimum_exclusive + kVersionClockReservationBatch)
  else Ok ceiling.

(** [write] is AtomicWrite of the record: it succeeds or throws. *)
Definition ExtendVersionClockCeilingLocked (write : bytes -> res unit) (c : VersionClock) (minimum_exclusive : Z) : res VersionClock :=
  new_ceiling ← NewCeiling (ceiling c) minimum_exclusive;
  _ ← write (SerializeVersionClockRecord new_ceiling);
  Ok {| clock := clock c; ceiling := new_ceiling |}.

(** The clock has moved also when the token cannot be issued. *)
Definition NextChunkVersion (write : bytes -> res unit) (c : VersionClock) : VersionClock * res Z :=
  let candidate := clock c in
  let c := {| clock := u64 (clock c + 1); ceiling := ceiling c |} in
  if candidate <? ceiling c then (c, Ok candidate)
  else match ExtendVersionClockCeilingLocked write c candidate with
       | Ok c => (c, Ok candidate)
       | Err e => (c, Err e)
       end.

Definition RaiseVersionClockAbove (write : bytes -> res unit) (c : VersionClock) (revision : Z) : res VersionClock :=
  if (revision =? 0) || (revision =? max_u64) then Ok c
  else if revision <? clock c then Ok c
  else
    let next := revision + 1 in
    c ← (if ceiling c <=? next then ExtendVersionClockCeilingLocked write c next else Ok c);
    Ok {| clock := Z.max (clock c) next; ceiling := ceiling c |}.

(** NextCommitTimeMs: the commit time issued and the new last one. *)
Definition NextCommitTimeMs (now chunk_time last : Z) : Z := Z.max (Z.max now chunk_time) last.

(** ** Tokens, taken by threads *)

(** Where a caller of NextChunkVersion or RaiseVersionClockAbove is; the phases
    from [Holding] and [RaiseHolding] on hold the clock's mutex. *)
Inductive phase :=
| Taken (candidate : Z)
| Waiting (candidate : Z)
| Holding (candidate : Z)
| Written (candidate new_ceiling : Z)
| RaiseWaiting (revision : Z)
| RaiseHolding (next : Z)
| RaiseWritten (next new_ceiling : Z)
| Raising (next : Z).

(** [on_disk] is the ceiling of the durable record; [issued] and [raised] record
    the tokens returned and the revisions the clock was raised above since the
    store was opened, [wrapped] whether a fetch_add took the clock from 2^64 - 1
    to 0. *)
Record system := {
  sys_clock : Z;
  sys_ceiling : Z;
  on_disk : Z;
  mutex : option nat;
  phases : gmap nat phase;
  issued : list Z;
  raised : list Z;
  wrapped : bool
}.

Inductive event :=
| Take (t : nat)
| CheckCeiling (t : nat)
| Lock (t : nat)
| WriteRecord (t : nat)
| FailRecord (t : nat) (took_effect : bool)
| StoreCeiling (t : nat)
| Raise (t : nat) (revision : Z)
| RaiseClock (t : nat)
| Crash.

Definition put (s : system) clk ceil disk mx ph iss ra : system :=
  {| sys_clock := clk; sys_ceiling := ceil; on_disk := disk; mutex := mx; phases := ph; issued := iss ++ issued s; raised := ra ++ raised s; wrapped := wrapped s |}.

Definition take_token (s : system) (t : nat) : system :=
  {| sys_clock := u64 (sys_clock s + 1); sys_ceiling := sys_ceiling s; on_disk := on_disk s; mutex := mutex s;
     phases := <[t := Taken (sys_clock s)]> (phases s); issued := issued s; raised := raised s;
     wrapped := wrapped s || (max_u64 <=? sys_clock s) |}.

(** [None] when the thread cannot take the step. *)
Definition step (s : system) (e : event) : option system :=
  let clk := sys_clock s in let ceil := sys_ceiling s in let disk := on_disk s in let ph := phases s in
  match e with
  | Take t =>
      match ph !! t with
      | None => Some (take_token s t)
      | _ => None
      end
  | CheckCeiling t =>
      match ph !! t with
      | Some (Taken c) =>
          if c <? ceil then Some (put s clk ceil disk (mutex s) (delete t ph) [c] []) else Some (put s clk ceil disk (mutex s) (<[t := Waiting c]> ph) [] [])
      | _ => None
      end
  | Lock t =>
      match mutex s, ph !! t with
      | None, Some (Waiting c) =>
          if ceil <=? c then Some (put s clk ceil disk (Some t) (<[t := Holding c]> ph) [] []) else Some (put s clk ceil disk None (delete t ph) [c] [])
      | None, Some (RaiseWaiting r) =>
          if r <? clk then Some (put s clk ceil disk None (delete t ph) [] [r])
          else if ceil <=? r + 1 then Some (put s clk ceil disk (Some t) (<[t := RaiseHolding (r + 1)]> ph) [] [])
          else Some (put s clk ceil disk (Some t) (<[t := Raising (r + 1)]> ph) [] [])
      | _, _ => None
      end
  | WriteRecord t =>
      match ph !! t with
      | Some (Holding c) =>
          match NewCeiling ceil c with
          | Ok new => Some (put s clk ceil new (mutex s) (<[t := Written c new]> ph) [] [])
          | Err _ => Some (put s clk ceil disk None (delete t ph) [] [])
          end
      | Some (RaiseHolding n) =>
          match NewCeiling ceil n with
          | Ok new => Some (put s clk ceil new (mutex s) (<[t := RaiseWritten n new]> ph) [] [])
          | Err _ => Some (put s clk ceil disk None (delete t ph) [] [])
          end
      | _ => None
      end
  | FailRecord t took_effect =>
      match ph !! t with
      | Some (Holding c) | Some (RaiseHolding c) =>
          match NewCeiling ceil c with
          | Ok new => Some (put s clk ceil (if took_effect : bool then new else disk) None (delete t ph) [] [])
          | Err _ => None
          end
      | _ => None
      end
  | StoreCeiling t =>
      match ph !! t with
      | Some (Written c new) => Some (put s clk new disk None (delete t ph) [c] [])
      | Some (RaiseWritten n new) => Some (put s clk new disk (mutex s) (<[t := Raising n]> ph) [] [])
      | _ => None
      end
  | Raise t r =>
      match ph !! t with
      | None =>
          if (r <=? 0) || (max_u64 <=? r) then None
          else if r <? clk then Some (put s clk ceil disk (mutex s) ph [] [r]) else Some (put s clk ceil disk (mutex s) (<[t := RaiseWaiting r]> ph) [] [])
      | _ => None
      end
  | RaiseClock t =>
      match ph !! t with
      | Some (Raising n) => Some (put s (Z.max clk n) ceil disk None (delete t ph) [] [n - 1])
      | _ => None
      end
  | Crash => Some {| sys_clock := disk; sys_ceiling := disk; on_disk := disk; mutex := None; phases := ∅; issued := issued s; raised := []; wrapped := wrapped s |}
  end.

Fixpoint run (s : system) (es : list event) : option system :=
  match es with [] => Some s | e :: es => s' ← step s e; run s' es end.

(** A store just opened at ceiling [first]. *)
Definition opened (first : Z) : system :=
  {| sys_clock := first; sys_ceiling := first; on_disk := first; mutex := None; phases := ∅; issued := []; raised := []; wrapped := false |}.

(** ** No token is issued twice *)

Definition cand (p : phase) : option Z :=
  match p with Taken c | Waiting c | Holding c | Written c _ => Some c | _ => None end.

Definition holds_mutex (p : phase) : bool :=
  match p with Holding _ | Written _ _ | RaiseHolding _ | RaiseWritten _ _ | Raising _ => true | _ => false end.

(** What a phase knows of the ceiling, the record and its own values. *)
Definition phase_ok (s : system) (p : phase) : Prop :=
  match p with
  | Taken _ | Waiting _ => True
  | Holding c => sys_ceiling s <= c
  | Written c new => c < new /\ on_disk s = new /\ sys_ceiling s <= new
  | RaiseWaiting r => 0 < r < max_u64
  | RaiseHolding n => sys_ceiling s <= n /\ 1 < n <= max_u64
  | RaiseWritten n new => n < new /\ on_disk s = new /\ sys_ceiling s <= new /\ 1 < n <= max_u64
  | Raising n => 1 < n <= max_u64
  end.

Record inv (s : system) : Prop := {
  i_clock : 1 <= sys_clock s <= max_u64;
  i_ceiling : 1 <= sys_ceiling s <= on_disk s;
  i_disk : on_disk s <= max_u64;
  i_nodup : NoDup (issued s);
  i_issued : forall c, c ∈ issued s -> c < sys_ceiling s /\ c < sys_clock s;
  i_cand : forall t p c, phases s !! t = Some p -> cand p = Some c -> 1 <= c < sys_clock s /\ c ∉ issued s;
  i_distinct : forall t1 t2 p1 p2 c, phases s !! t1 = Some p1 -> phases s !! t2 = Some p2 -> cand p1 = Some c -> cand p2 = Some c -> t1 = t2;
  i_mutex : forall t p, phases s !! t = Some p -> holds_mutex p = true -> mutex s = Some t;
  i_phase : forall t p, phases s !! t = Some p -> phase_ok s p;
  i_raised : forall r, r ∈ raised s -> r < sys_clock s
}.

Lemma NewCeiling_ok ceil c new : NewCeiling ceil c = Ok new -> ceil <= c -> c < new <= max_u64.
Proof.
  unfold NewCeiling. intros Hn Hc. destruct (Z.leb_spec ceil c); [|lia]. apply bind_ok in Hn as ([] & Hb%throw_if_ok & [= <-]).
  unfold kVersionClockReservationBatch, max_u64 in *. lia.
Qed.

(** A phase that is not of the mutex holder keeps its knowledge whatever the
    ceiling and the record become. *)
Lemma phase_ok_free s s' p : holds_mutex p = false -> phase_ok s p -> phase_ok s' p.
Proof. by destruct p. Qed.

Lemma phase_ok_same s s' p : sys_ceiling s' = sys_ceiling s -> on_disk s' = on_disk s -> phase_ok s p -> phase_ok s' p.
Proof. intros E1 E2. destruct p; cbn; by rewrite ?E1, ?E2. Qed.

Definition set_phase (ph : gmap nat phase) (t : nat) (p : option phase) : gmap nat phase :=
  match p with Some p => <[t := p]> ph | None => delete t ph end.

Lemma set_phase_lookup ph t p u q : set_phase ph t p !! u = Some q -> u = t /\ p = Some q \/ u <> t /\ ph !! u = Some q.
Proof.
  unfold set_phase. destruct p as [p|]; rewrite ?lookup_insert, ?lookup_delete; case_decide as E; intros H; try done; try (right; by split).
  injection H as <-. by left.
Qed.

(** The moves of one thread: from the phase [p0] to [p1], issuing the token it
    has or none. *)
Section Move.
Context (s : system) (t : nat) (p0 p1 : option phase) (clk ceil disk : Z) (mx : option nat) (iss ra : list Z).
Hypothesis Hs : inv s.
Hypothesis Hp0 : phases s !! t = p0.
Hypothesis Hclk : sys_clock s <= clk <= max_u64.
Hypothesis Hceil : sys_ceiling s <= ceil <= disk.
Hypothesis Hdisk : disk <= max_u64.
Hypothesis Hother : (ceil = sys_ceiling s /\ disk = on_disk s) \/ mutex s = Some t.
Hypothesis Hmx : mx = mutex s \/ mutex s = Some t \/ mutex s = None.
Hypothesis Hiss : iss = [] \/ exists c, iss = [c] /\ p0 ≫= cand = Some c /\ c < ceil /\ p1 ≫= cand = None.
Hypothesis Hcand : forall c, p1 ≫= cand = Some c -> p0 ≫= cand = Some c \/ p0 = None /\ c = sys_clock s /\ c < clk.
Hypothesis Hhold : forall p, p1 = Some p -> holds_mutex p = true -> mx = Some t.
Hypothesis Hok : forall p, p1 = Some p -> phase_ok (put s clk ceil disk mx (set_phase (phases s) t p1) iss ra) p.
Hypothesis Hra : Forall (fun r => r < clk) ra.

Lemma old_cand c : p0 ≫= cand = Some c -> 1 <= c < sys_clock s /\ c ∉ issued s.
Proof using All. destruct p0 as [p|]; [|done]. cbn. by apply (i_cand _ Hs t). Qed.

(** The candidate of the new phase is no other thread's. *)
Lemma new_cand c u q : p1 ≫= cand = Some c -> u <> t -> phases s !! u = Some q -> cand q = Some c -> False.
Proof using All.
  intros H1 Hne Hu Hq. destruct (Hcand c H1) as [H0|(_ & -> & _)].
  - destruct p0 as [p|]; [|done]. apply Hne. by apply (i_distinct _ Hs u t q p c).
  - destruct (i_cand _ Hs u q _ Hu Hq) as [? _]. lia.
Qed.

Lemma issued_old c : c ∈ iss -> p0 ≫= cand = Some c /\ c < ceil /\ p1 ≫= cand = None.
Proof using All.
  destruct Hiss as [->|(d & -> & H1 & H2 & H3)]; [by intros ?%elem_of_nil|]. by intros ->%list_elem_of_singleton.
Qed.

Lemma inv_move : inv (put s clk ceil disk mx (set_phase (phases s) t p1) iss ra).
Proof using All.
  pose proof Hs as [I1 I2 I3 I4 I5 I6 I7 I8 I9 I10].
  split; cbn [put sys_clock sys_ceiling on_disk mutex phases issued raised]; try lia.
  - apply NoDup_app. split; [destruct Hiss as [->|(c & -> & _)]; [constructor|apply NoDup_singleton]|]. split; [|done].
    intros c (H0 & _ & _)%issued_old. by apply (old_cand c).
  - intros c [(H0 & Hlt & _)%issued_old|Hin]%elem_of_app; [apply old_cand in H0; lia|]. specialize (I5 c Hin). lia.
  - intros u q c [[-> Ep]|[Hne Hu]]%set_phase_lookup Hq.
    + assert (p1 ≫= cand = Some c) as H1 by (by rewrite Ep). destruct (Hcand c H1) as [H0|(Ep0 & Ec & Hlt)].
      * pose proof (old_cand c H0) as [? Hn]. split; [lia|]. intros [(_ & _ & E)%issued_old|?]%elem_of_app; [congruence|done].
      * split; [lia|]. intros [(E & _)%issued_old|Hin]%elem_of_app; [by rewrite Ep0 in E|]. specialize (I5 _ Hin). lia.
    + destruct (I6 u q c Hu Hq) as [? Hn]. split; [lia|]. intros [(H0 & _)%issued_old|?]%elem_of_app; [|done].
      destruct p0 as [p|]; [|done]. apply Hne. by apply (I7 u t q p c).
  - intros u1 u2 q1 q2 c [[-> E1]|[N1 U1]]%set_phase_lookup [[-> E2]|[N2 U2]]%set_phase_lookup Q1 Q2; [done| | |by apply (I7 u1 u2 q1 q2 c)].
    + exfalso. apply (new_cand c u2 q2); try done. by rewrite E1.
    + exfalso. apply (new_cand c u1 q1); try done. by rewrite E2.
  - intros u q [[-> Ep]|[Hne Hu]]%set_phase_lookup Hq; [by apply (Hhold q)|]. specialize (I8 u q Hu Hq).
    destruct Hmx as [->|[E|E]]; congruence.
  - intros u q [[-> Ep]|[Hne Hu]]%set_phase_lookup; [by apply Hok|]. specialize (I9 u q Hu). destruct (holds_mutex q) eqn:Eq.
    + specialize (I8 u q Hu Eq). destruct Hother as [[-> ->]|E]; [by apply (phase_ok_same s)|congruence].
    + by apply (phase_ok_free s).
  - intros r [Hr|Hr]%elem_of_app; [rewrite Forall_forall in Hra; by apply Hra|]. specialize (I10 r Hr). lia.
Qed.

End Move.

(** Applies [inv_move] to the move of thread [t] from [p0] to [p1], and settles
    its conditions but the one on the issued token. *)
Ltac phase_move t p0 p1 :=
  match goal with Hs : inv ?s |- inv (put _ ?clk ?ceil ?disk ?mx _ ?iss ?ra) =>
    change (inv (put s clk ceil disk mx (set_phase (phases s) t p1) iss ra)); apply (inv_move s t p0 p1);
    try done; try lia; try (by left); try (by right; left); try (by right; right); try (by right);
    try (intros ? [= <-]; cbn; (done || lia || (by left) || (right; split; [done|split; [done|lia]]))); try (repeat constructor; lia)
  end.

Lemma step_take s t s' : inv s -> step s (Take t) = Some s' -> wrapped s' = false -> inv s'.
Proof.
  intros Hs H. pose proof (i_clock _ Hs). pose proof (i_ceiling _ Hs). pose proof (i_disk _ Hs). cbn [step] in H.
  destruct (phases s !! t) eqn:Ep; [done|]. injection H as <-. cbn [take_token wrapped]. intros [Hw Hlt%Z.leb_gt]%orb_false_iff.
  enough (inv (put s (sys_clock s + 1) (sys_ceiling s) (on_disk s) (mutex s) (<[t := Taken (sys_clock s)]> (phases s)) [] [])) as [I1 I2 I3 I4 I5 I6 I7 I8 I9 I10].
  { assert (u64 (sys_clock s + 1) = sys_clock s + 1) as Ew by (apply wrap_small; unfold in_u, max_u64 in *; lia).
    split; cbn [take_token sys_clock sys_ceiling on_disk mutex phases issued raised]; by rewrite ?Ew. }
  phase_move t (@None phase) (Some (Taken (sys_clock s))).
Qed.

Lemma step_check s t s' : inv s -> step s (CheckCeiling t) = Some s' -> inv s'.
Proof.
  intros Hs H. pose proof (i_clock _ Hs). pose proof (i_ceiling _ Hs). pose proof (i_disk _ Hs). cbn [step] in H.
  destruct (phases s !! t) as [[c| | | | | | | ]|] eqn:Ep; try done. destruct (Z.ltb_spec c (sys_ceiling s)); injection H as <-.
  - phase_move t (Some (Taken c)) (@None phase). right. by exists c.
  - phase_move t (Some (Taken c)) (Some (Waiting c)).
Qed.

Lemma step_lock s t s' : inv s -> step s (Lock t) = Some s' -> inv s'.
Proof.
  intros Hs H. pose proof (i_clock _ Hs). pose proof (i_ceiling _ Hs). pose proof (i_disk _ Hs). cbn [step] in H.
  destruct (mutex s) eqn:Em; [done|]. destruct (phases s !! t) as [[|c| | |r| | | ]|] eqn:Ep; try done.
  - destruct (Z.leb_spec (sys_ceiling s) c); injection H as <-.
    + phase_move t (Some (Waiting c)) (Some (Holding c)).
    + phase_move t (Some (Waiting c)) (@None phase). right. by exists c.
  - pose proof (i_phase _ Hs t _ Ep) as Hr. cbn in Hr. destruct (Z.ltb_spec r (sys_clock s)).
    { injection H as <-. phase_move t (Some (RaiseWaiting r)) (@None phase). }
    destruct (Z.leb_spec (sys_ceiling s) (r + 1)); injection H as <-.
    + phase_move t (Some (RaiseWaiting r)) (Some (RaiseHolding (r + 1))).
    + phase_move t (Some (RaiseWaiting r)) (Some (Raising (r + 1))).
Qed.

Lemma step_write s t s' : inv s -> step s (WriteRecord t) = Some s' -> inv s'.
Proof.
  intros Hs H. pose proof (i_clock _ Hs). pose proof (i_ceiling _ Hs). pose proof (i_disk _ Hs). cbn [step] in H.
  destruct (phases s !! t) as [[| |c| | |c| | ]|] eqn:Ep; try done; pose proof (i_mutex _ Hs t _ Ep eq_refl) as Em;
    pose proof (i_phase _ Hs t _ Ep) as Hph; cbn in Hph;
    destruct (NewCeiling (sys_ceiling s) c) as [new|e] eqn:En; injection H as <-; try pose proof (NewCeiling_ok _ _ _ En ltac:(lia)).
  - phase_move t (Some (Holding c)) (Some (Written c new)).
  - phase_move t (Some (Holding c)) (@None phase).
  - phase_move t (Some (RaiseHolding c)) (Some (RaiseWritten c new)).
  - phase_move t (Some (RaiseHolding c)) (@None phase).
Qed.

Lemma step_fail s t took s' : inv s -> step s (FailRecord t took) = Some s' -> inv s'.
Proof.
  intros Hs H. pose proof (i_clock _ Hs). pose proof (i_ceiling _ Hs). pose proof (i_disk _ Hs). cbn [step] in H.
  destruct (phases s !! t) as [[| |c| | |c| | ]|] eqn:Ep; try done; pose proof (i_mutex _ Hs t _ Ep eq_refl) as Em;
    pose proof (i_phase _ Hs t _ Ep) as Hph; cbn in Hph;
    destruct (NewCeiling (sys_ceiling s) c) as [new|e] eqn:En; try done; injection H as <-; pose proof (NewCeiling_ok _ _ _ En ltac:(lia));
    destruct took.
  - phase_move t (Some (Holding c)) (@None phase).
  - phase_move t (Some (Holding c)) (@None phase).
  - phase_move t (Some (RaiseHolding c)) (@None phase).
  - phase_move t (Some (RaiseHolding c)) (@None phase).
Qed.

Lemma step_store s t s' : inv s -> step s (StoreCeiling t) = Some s' -> inv s'.
Proof.
  intros Hs H. pose proof (i_clock _ Hs). pose proof (i_ceiling _ Hs). pose proof (i_disk _ Hs). cbn [step] in H.
  destruct (phases s !! t) as [[| | |c new| | |n new| ]|] eqn:Ep; try done; pose proof (i_mutex _ Hs t _ Ep eq_refl) as Em;
    pose proof (i_phase _ Hs t _ Ep) as Hph; cbn in Hph; injection H as <-.
  - phase_move t (Some (Written c new)) (@None phase). right. exists c. repeat split; lia.
  - phase_move t (Some (RaiseWritten n new)) (Some (Raising n)).
Qed.

Lemma step_raise s t r s' : inv s -> step s (Raise t r) = Some s' -> inv s'.
Proof.
  intros Hs H. pose proof (i_clock _ Hs). pose proof (i_ceiling _ Hs). pose proof (i_disk _ Hs). cbn [step] in H.
  destruct (phases s !! t) eqn:Ep; [done|]. destruct ((r <=? 0) || (max_u64 <=? r)) eqn:Er; [done|]. apply orb_false_iff in Er as [? ?].
  destruct (Z.ltb_spec r (sys_clock s)); injection H as <-.
  - destruct Hs as [I1 I2 I3 I4 I5 I6 I7 I8 I9 I10]. split; try done. cbn. intros q [->|Hq]%elem_of_cons; [done|by apply I10].
  - phase_move t (@None phase) (Some (RaiseWaiting r)).
Qed.

Lemma step_raise_clock s t s' : inv s -> step s (RaiseClock t) = Some s' -> inv s'.
Proof.
  intros Hs H. pose proof (i_clock _ Hs). pose proof (i_ceiling _ Hs). pose proof (i_disk _ Hs). cbn [step] in H.
  destruct (phases s !! t) as [[| | | | | | |n]|] eqn:Ep; try done. pose proof (i_mutex _ Hs t _ Ep eq_refl) as Em.
  pose proof (i_phase _ Hs t _ Ep) as Hph. cbn in Hph. injection H as <-. phase_move t (Some (Raising n)) (@None phase).
Qed.

Lemma clock_step_inv s e s' : inv s -> step s e = Some s' -> wrapped s' = false -> inv s'.
Proof.
  intros Hs H Hw. destruct e as [t|t|t|t|t took|t|t r|t|]; [by eapply step_take|by eapply step_check|by eapply step_lock|by eapply step_write|by eapply step_fail
    |by eapply step_store|by eapply step_raise|by eapply step_raise_clock|].
  destruct Hs as [I1 I2 I3 I4 I5 I6 I7 I8 I9 I10]. injection H as <-. split; cbn; try done; try lia.
  - intros c Hc. specialize (I5 c Hc). lia.
  - by intros r ?%elem_of_nil.
Qed.

Lemma step_wrapped s e s' : step s e = Some s' -> wrapped s' = false -> wrapped s = false.
Proof.
  intros H Hw. destruct e; cbn [step] in H; repeat case_match; simplify_eq; cbn [put take_token wrapped] in Hw; try done.
  by apply orb_false_iff in Hw as [? _].
Qed.

Lemma run_wrapped es : forall s s', run s es = Some s' -> wrapped s' = false -> wrapped s = false.
Proof.
  induction es as [|e es IH]; intros s s' H Hw; cbn in H; [by injection H as <-|].
  destruct (step s e) as [s1|] eqn:E; [|done]. eapply step_wrapped; [exact E|]. by eapply IH.
Qed.

Lemma run_inv es : forall s s', inv s -> run s es = Some s' -> wrapped s' = false -> inv s'.
Proof.
  induction es as [|e es IH]; intros s s' Hs H Hw; cbn in H; [by injection H as <-|].
  destruct (step s e) as [s1|] eqn:E; [|done]. apply (IH s1); [|done|done]. apply (clock_step_inv s e); [done|done|]. by eapply run_wrapped.
Qed.

Lemma opened_inv first : 1 <= first <= max_u64 -> inv (opened first).
Proof. intros Hf. split; cbn; try done; try lia; try apply NoDup_nil_2; by intros ? ?%elem_of_nil. Qed.

(** ** How far the clock gets *)

(** The clock, the ceilings and the values threads hold are at most [n]. *)
Definition phase_below (n : Z) (p : phase) : Prop :=
  match p with
  | Taken c | Waiting c | Holding c => c <= n
  | RaiseWaiting r => r + 1 <= n
  | RaiseHolding m | Raising m => m <= n
  | Written c new | RaiseWritten c new => c <= n /\ 0 <= new <= n
  end.

Definition phases_below (n : Z) (ph : gmap nat phase) : Prop := map_Forall (fun _ => phase_below n) ph.

Record below (n : Z) (s : system) : Prop := {
  b_clock : 0 <= sys_clock s <= n;
  b_ceiling : 0 <= sys_ceiling s <= n;
  b_disk : 0 <= on_disk s <= n;
  b_phases : phases_below n (phases s)
}.

Definition event_below (n : Z) (e : event) : Prop := match e with Raise _ r => r + 1 <= n | _ => True end.

Lemma phase_below_mono n m p : n <= m -> phase_below n p -> phase_below m p.
Proof. intros H. destruct p; cbn; lia. Qed.

Lemma NewCeiling_below ceil c new n : NewCeiling ceil c = Ok new -> 0 <= ceil <= n -> c <= n -> 0 <= new <= n + kVersionClockReservationBatch.
Proof.
  unfold NewCeiling, kVersionClockReservationBatch. destruct (Z.leb_spec ceil c); intros E; [apply bind_ok in E as (_ & _ & E)|]; injection E as <-; lia.
Qed.

(** A step moves no value by more than a batch. *)
Lemma step_below n s e s' : below n s -> event_below n e -> n + kVersionClockReservationBatch <= max_u64 -> step s e = Some s' ->
  below (n + kVersionClockReservationBatch) s' /\ wrapped s' = wrapped s.
Proof.
  intros [B1 B2 B3 B4] He Hn H. assert (0 < kVersionClockReservationBatch) as Hb by done. set (K := kVersionClockReservationBatch) in *.
  assert (phases_below (n + K) (phases s)) as B4' by (intros t p Hp; apply (phase_below_mono n); [lia|by apply (B4 t)]).
  assert (forall t, phases_below (n + K) (delete t (phases s))) as Hdel by (intros t; by apply map_Forall_delete).
  assert (forall t p, phase_below (n + K) p -> phases_below (n + K) (<[t := p]> (phases s))) as Hins by (intros t p Hp; by apply map_Forall_insert_2).
  destruct e as [t|t|t|t|t took|t|t r|t|]; cbn [step] in H; cbn in He.
  9:{ injection H as <-. split; [|done]. split; cbn; try lia. done. }
  all: destruct (phases s !! t) as [p|] eqn:Ep; [pose proof (B4 t p Ep) as Hp|].
  all: repeat case_match; simplify_eq; try (cbn in Hp).
  all: try match goal with E : NewCeiling _ _ = Ok _ |- _ => pose proof (NewCeiling_below _ _ _ n E B2 ltac:(lia)) end.
  all: split; [|try done].
  2:{ cbn. rewrite (proj2 (Z.leb_gt _ _)) by lia. apply orb_false_r. }
  1:{ assert (u64 (sys_clock s + 1) = sys_clock s + 1) as Ew by (apply wrap_small; unfold in_u, max_u64 in *; lia).
      split; cbn; rewrite ?Ew; try lia. apply Hins. cbn. lia. }
  all: split; cbn [put sys_clock sys_ceiling on_disk phases]; try lia; auto; apply Hins; cbn; lia.
Qed.

Lemma run_below es : forall n s s', below n s -> Forall (event_below n) es -> n + kVersionClockReservationBatch * len es <= max_u64 ->
  run s es = Some s' -> wrapped s' = wrapped s.
Proof.
  induction es as [|e es IH]; intros n s s' Hb He Hn H; cbn in H; [by injection H as <-|].
  destruct (step s e) as [s1|] eqn:E; [|done]. apply Forall_cons in He as [He Hes]. rewrite length_cons in Hn.
  assert (0 < kVersionClockReservationBatch) as HK by done. set (K := kVersionClockReservationBatch) in *.
  destruct (step_below n s e s1 Hb He ltac:(fold K; nia) E) as [Hb1 <-]. apply (IH (n + K) s1); [exact Hb1| |nia|exact H].
  eapply Forall_impl; [exact Hes|]. intros [] Hx; cbn in *; lia.
Qed.

(** C8: whatever the threads do, however their steps interleave, whichever writes of the record fail and whenever the
    process crashes and reopens: as long as the 64-bit clock has not wrapped no token is issued twice, the durable
    ceiling is above every issued token and the clock above every revision it was raised above. The clock does not wrap
    within [(2^64 - 2 - m) / 16384] steps, where [m] bounds the version the store was opened at and the revisions
    it is raised above. *)
Theorem version_tokens_unique first es s : 1 <= first <= max_u64 -> run (opened first) es = Some s ->
  (wrapped s = false ->
   NoDup (issued s) /\ (forall c, c ∈ issued s -> c < on_disk s) /\ (forall r, r ∈ raised s -> r < sys_clock s)) /\
  (forall m, first <= m -> Forall (event_below (m + 1)) es -> m + 1 + kVersionClockReservationBatch * len es <= max_u64 -> wrapped s = false).
Proof.
  intros Hf H. split.
  - intros Hw. pose proof (run_inv es _ _ (opened_inv first Hf) H Hw) as [I1 I2 I3 I4 I5 I6 I7 I8 I9 I10].
    split; [done|]. split; [|done]. intros c Hc. specialize (I5 c Hc). lia.
  - intros m Hm He Hl. rewrite (run_below es (m + 1) (opened first) s); [done| |done|lia|done]. split; cbn; try lia. done.
Qed.

(** Two threads take tokens at the ceiling, the second record write fails after
    taking effect, and the store crashes and reopens. *)
Definition example_events : list event :=
  [Take 1; Take 2; CheckCeiling 1; CheckCeiling 2; Lock 2; WriteRecord 2; StoreCeiling 2; Lock 1; Raise 3 40000; Lock 3;
   FailRecord 3 true; Take 1; CheckCeiling 1; Crash; Take 1; CheckCeiling 1; Lock 1; WriteRecord 1; StoreCeiling 1].

Definition example_system : system :=
  Eval vm_compute in match run (opened 1) example_events with Some s => s | None => opened 0 end.

Lemma version_tokens_unique_witness :
  issued example_system = [56385; 3; 1; 2] /\ wrapped example_system = false /\ NoDup (issued example_system) /\ 56385 < on_disk example_system.
Proof.
  destruct (version_tokens_unique 1 example_events example_system) as [H1 H2]; [split; vm_compute; discriminate|vm_compute; reflexivity|].
  assert (wrapped example_system = false) as Hw.
  { apply (H2 40000); [lia| |vm_compute; discriminate]. repeat first [apply List.Forall_nil|apply List.Forall_cons]; first [exact I|vm_compute; discriminate]. }
  destruct (H1 Hw) as (H3 & H4 & _). split; [reflexivity|]. split; [exact Hw|]. split; [exact H3|]. apply H4. left.
Defined.

(** A call of NextChunkVersion is the steps of a thread that nobody disturbs. *)
Lemma NextChunkVersion_steps s t c v : mutex s = None -> phases s !! t = None ->
  NextChunkVersion (fun _ => Ok tt) {| clock := sys_clock s; ceiling := sys_ceiling s |} = (c, Ok v) ->
  exists es s', run s es = Some s' /\ issued s' = v :: issued s /\ sys_clock s' = clock c /\ sys_ceiling s' = ceiling c.
Proof.
  intros Hm Hp. unfold NextChunkVersion, ExtendVersionClockCeilingLocked. cbn [clock ceiling].
  assert (forall ph p, (<[t := p]> ph : gmap nat phase) !! t = Some p) as Hl by (intros; by rewrite lookup_insert, decide_True).
  destruct (Z.ltb_spec (sys_clock s) (sys_ceiling s)) as [Hlt|Hge].
  - intros [= <- <-]. exists [Take t; CheckCeiling t]. eexists. cbn. rewrite Hp. cbn.
    rewrite Hl, (proj2 (Z.ltb_lt _ _)) by done. by repeat split.
  - destruct (NewCeiling (sys_ceiling s) (sys_clock s)) as [new|e] eqn:En; [|done]. intros [= <- <-].
    exists [Take t; CheckCeiling t; Lock t; WriteRecord t; StoreCeiling t]. eexists. cbn. rewrite Hp. cbn.
    rewrite Hl, (proj2 (Z.ltb_ge _ _)) by lia. cbn. rewrite Hm, Hl, (proj2 (Z.leb_le _ _)) by lia. cbn. rewrite Hl, En. cbn. rewrite Hl.
    by repeat split.
Qed.

(** At the end of the range the throw leaves the clock wrapped, and the next
    call issues token zero, the one after it token one. *)
Theorem clock_wraps_after_exhaustion : exists c1 c2,
  NextChunkVersion (fun _ => Ok tt) {| clock := max_u64; ceiling := max_u64 |} = (c1, Err (overflow_error "chunk version clock exhausted")) /\
  NextChunkVersion (fun _ => Ok tt) c1 = (c2, Ok 0) /\ (NextChunkVersion (fun _ => Ok tt) c2).2 = Ok 1.
Proof. do 2 eexists. split; [reflexivity|]. split; reflexivity. Qed.

(** ** Records and start-up *)

Lemma SerializeVersionClockRecord_bytes c : SerializeVersionClockRecord c =
  (kVersionClockMagic ++ le_bytes 8 c) ++ le_bytes 4 (Crc32.Crc32 (kVersionClockMagic ++ le_bytes 8 c)).
Proof. unfold SerializeVersionClockRecord. by rewrite WriteLe64_bytes, WriteLe32_bytes. Qed.

Lemma version_record_roundtrip c : 0 < c < 2 ^ 64 -> TryParseVersionClockRecord (SerializeVersionClockRecord c) = Some c.
Proof.
  intros Hc. rewrite SerializeVersionClockRecord_bytes. unfold TryParseVersionClockRecord.
  set (head := kVersionClockMagic ++ le_bytes 8 c). assert (len head = 12) as Hh by reflexivity.
  assert (bytes_ok head) as Hb by (apply bytes_ok_app; split; [by apply (bool_decide_unpack _)|apply bytes_ok_le_bytes]).
  pose proof (Crc32.Crc32_bound head Hb) as Hcrc. set (crc := Crc32.Crc32 head) in *.
  assert (len (head ++ le_bytes 4 crc) = 16) as Hl by (rewrite length_app, length_le_bytes; lia).
  rewrite Hl. cbn [negb Z.eqb]. change (16 =? kVersionClockRecordSize) with true. cbn [negb].
  rewrite bool_decide_true by reflexivity. cbn [negb].
  rewrite (ReadLe32_at _ 12 crc), take_app_length', Z.eqb_refl; [|lia|lia|lia|done|by rewrite <- Hh, slice_app_end].
  cbn [negb]. rewrite (ReadLe64_at _ 4 c); [|lia|lia|unfold in_u; lia|].
  - by rewrite (proj2 (Z.eqb_neq c 0)) by lia.
  - unfold head. rewrite <- app_assoc. apply slice_app; [reflexivity|by rewrite length_le_bytes].
Qed.

Lemma version_record_canonical b c : bytes_ok b -> TryParseVersionClockRecord b = Some c ->
  b = SerializeVersionClockRecord c /\ 0 < c < 2 ^ 64.
Proof.
  intros Hb. unfold TryParseVersionClockRecord. destruct (Z.eqb_spec (len b) kVersionClockRecordSize) as [Hl|]; [|done]. cbn [negb].
  change kVersionClockRecordSize with 16 in Hl. case_bool_decide as Hm; [|done]. cbn [negb].
  destruct (Z.eqb_spec (ReadLe32 b 12) (Crc32.Crc32 (take 12 b))) as [Hc|]; [|done]. cbn [negb].
  destruct (Z.eqb_spec (ReadLe64 b 4) 0) as [|Hz]; [done|]. intros [= <-].
  pose proof (ReadLe64_bound b 4 Hb ltac:(lia) ltac:(lia)) as Hr. unfold in_u in Hr.
  split; [|lia]. rewrite SerializeVersionClockRecord_bytes.
  assert (le_bytes 8 (ReadLe64 b 4) = slice b 4 8) as ->.
  { rewrite ReadLe64_slice by lia. rewrite <- (le_bytes_le_value (slice b 4 8)) at 2 by (by apply bytes_ok_slice).
    f_equal. unfold slice. rewrite length_take, length_drop. lia. }
  assert (kVersionClockMagic ++ slice b 4 8 = take 12 b) as ->.
  { rewrite <- Hm. unfold slice. change (Z.to_nat 4) with 4%nat. change (Z.to_nat 8) with 8%nat.
    exact (take_take_drop b 4 8). }
  rewrite <- Hc, ReadLe32_slice by lia.
  assert (le_bytes 4 (le_value (slice b 12 4)) = slice b 12 4) as ->.
  { rewrite <- (le_bytes_le_value (slice b 12 4)) at 2 by (by apply bytes_ok_slice). f_equal. unfold slice. rewrite length_take, length_drop. lia. }
  unfold slice. change (Z.to_nat 12) with 12%nat. rewrite (firstn_all2 (n := Z.to_nat 4)) by (rewrite length_drop; lia). by rewrite take_drop.
Qed.

(** The only marker that is taken is the one that is written. *)
Lemma marker_canonical b : bytes_ok b -> IsValidInitializedMarker b = true <-> b = SerializeInitializedMarker.
Proof.
  intros Hb. split; [|intros ->; vm_compute; reflexivity]. unfold IsValidInitializedMarker. rewrite !andb_true_iff, bool_decide_eq_true, !Z.eqb_eq.
  intros (((Hl & Hm) & H1) & Hc). change kInitializedMarkerRecordSize with 16 in Hl.
  rewrite ReadLe64_slice in H1 by lia. rewrite ReadLe32_slice in Hc by lia.
  assert (forall o n, 0 <= o -> 0 <= n -> o + n <= 16 -> slice b o n = le_bytes (Z.to_nat n) (le_value (slice b o n))) as Hsl.
  { intros o n H2 H3 H4. rewrite <- (le_bytes_le_value (slice b o n)) at 1 by (by apply bytes_ok_slice). f_equal. unfold slice. rewrite length_take, length_drop. lia. }
  assert (b = take 4 b ++ slice b 4 8 ++ slice b 12 4) as Eb.
  { unfold slice. change (Z.to_nat 4) with 4%nat. change (Z.to_nat 8) with 8%nat. change (Z.to_nat 12) with 12%nat.
    rewrite (firstn_all2 (n := 4) (drop 12 b)) by (rewrite length_drop; lia). rewrite app_assoc, (take_take_drop b 4 8). by rewrite take_drop. }
  assert (take 12 b = kInitializedMarkerMagic ++ le_bytes 8 1) as E12.
  { rewrite Eb, Hm, (Hsl 4 8), H1 by lia. rewrite app_assoc. by rewrite take_app_length'. }
  rewrite E12 in Hc. rewrite Eb, Hm, (Hsl 4 8), (Hsl 12 4), H1, Hc by lia. unfold SerializeInitializedMarker. rewrite WriteLe64_bytes, WriteLe32_bytes. by rewrite app_assoc.
Qed.

(** What a start-up leaves of the marker it finds: it is there, or it is written now. *)
Definition marker_kept (marker : record_file) (wm : option bytes) : Prop :=
  marker = Holds SerializeInitializedMarker /\ wm = None \/ marker = Missing /\ wm = Some SerializeInitializedMarker.

(** C37: a start-up succeeds exactly when it finds a valid version record and a valid marker or none, and then continues
    at the record's ceiling and writes the marker that is missing; or finds neither record in a store it knows to be new,
    and then starts at the floor and writes both. So a damaged or unreadable record of either kind, a version record lost
    while the marker is there, and both lost in a store not known to be new are always refused; and the record the
    clock stands at reads back as its ceiling. *)
Theorem clock_startup files preexisting inventory_error floor c wv wm :
  (forall b, version_file files = Holds b -> bytes_ok b) -> (forall b, marker_file files = Holds b -> bytes_ok b) ->
  (InitializeVersionClock files preexisting inventory_error floor = Ok (c, wv, wm) <->
   exists k, c = {| clock := k; ceiling := k |} /\ 0 < k < 2 ^ 64 /\
     TryParseVersionClockRecord (SerializeVersionClockRecord k) = Some k /\
     (version_file files = Holds (SerializeVersionClockRecord k) /\ wv = None /\ marker_kept (marker_file files) wm \/
      version_file files = Missing /\ marker_file files = Missing /\ preexisting = false /\ inventory_error = false /\
      k = Z.max 1 (Z.min floor (max_u64 - 1)) /\
      wv = Some (SerializeVersionClockRecord k) /\ wm = Some SerializeInitializedMarker)).
Proof.
  intros Hb Hbm. split.
  - intros H. unfold InitializeVersionClock in H. apply bind_ok in H as (marker & Hm & H).
    assert (marker_file files = if marker then Holds SerializeInitializedMarker else Missing) as Hmf.
    { destruct (marker_file files) as [| | |b]; try done; [by injection Hm as <-|]. specialize (Hbm b eq_refl).
      destruct (IsValidInitializedMarker b) eqn:Ei; [|done]. injection Hm as <-. f_equal. by apply (marker_canonical b). }
    clear Hm. destruct (version_file files) as [| | |b] eqn:Ev; try discriminate H.
    + apply bind_ok in H as ([] & Hk%throw_if_ok & H). apply bind_ok in H as ([] & Hi%throw_if_ok & H).
      apply bind_ok in H as ([] & Hp%throw_if_ok & [= <- <- <-]). unfold max_u64 in *. set (k := Z.max 1 _). exists k. assert (0 < k < 2 ^ 64) by lia.
      split; [done|]. split; [done|]. split; [by apply version_record_roundtrip|]. right. rewrite Hk in Hmf. by repeat split.
    + apply bind_ok in H as ([] & _ & H). destruct (TryParseVersionClockRecord b) as [k|] eqn:Ek; [|discriminate H]. injection H as <- <- <-.
      destruct (version_record_canonical b k (Hb b eq_refl) Ek) as [-> Hk]. exists k.
      split; [done|]. split; [done|]. split; [done|]. left. split; [done|]. split; [done|]. unfold marker_kept. rewrite Hmf. destruct marker; [left|right]; split; reflexivity.
  - intros (k & -> & Hk & Hrt & [(Hv & -> & Hm)|(Hv & Hm & -> & -> & -> & -> & ->)]); unfold InitializeVersionClock; rewrite Hv.
    + assert ((len (SerializeVersionClockRecord k) =? kVersionClockRecordSize) = true) as Hl by (rewrite SerializeVersionClockRecord_bytes; reflexivity).
      destruct Hm as [[-> ->]|[-> ->]].
      * assert (IsValidInitializedMarker SerializeInitializedMarker = true) as -> by (vm_compute; reflexivity). by rewrite bind_Ok_l, Hl, Hrt.
      * by rewrite bind_Ok_l, Hl, Hrt.
    + by rewrite Hm.
Qed.

Lemma clock_startup_witness :
  TryParseVersionClockRecord (SerializeVersionClockRecord 16385) = Some 16385 /\
  InitializeVersionClock {| version_file := Holds (SerializeVersionClockRecord 16385); marker_file := Missing |} true false 0 =
    Ok ({| clock := 16385; ceiling := 16385 |}, None, Some SerializeInitializedMarker).
Proof.
  assert (InitializeVersionClock {| version_file := Holds (SerializeVersionClockRecord 16385); marker_file := Missing |} true false 0 =
    Ok ({| clock := 16385; ceiling := 16385 |}, None, Some SerializeInitializedMarker)) as Hi by (vm_compute; reflexivity).
  split; [|exact Hi]. apply (clock_startup {| version_file := Holds (SerializeVersionClockRecord 16385); marker_file := Missing |}) in Hi.
  - destruct Hi as (k & E & _ & H & _). injection E as <-. exact H.
  - intros b [= <-]. apply (bool_decide_unpack _). vm_compute. exact I.
  - intros b [=].
Defined.

End VersionClock.
