(* ===== verification/Files.v ===== *)
(** * Files, failures and crashes (src/src/durability_io.cpp, src/src/atomic_write.cpp)

    The store's promises are about what a restart finds on disk, so files are
    modelled with what a crash may leave of them: bytes that were not synced
    may be lost or replaced, and a directory entry that was not synced may be
    any of the entries the name had since the last sync.

    A routine is a function of the disk and of the list of what happens at each
    of its system calls ([choice]): it works, it fails, or the process dies in
    it.  A statement for every such list is a statement for every failure and
    every crash point.  [wp] gives the usual rules of a program logic with a
    crash condition. *)
From stdpp Require Import prelude strings gmap.
From Stdlib Require Import ZArith Lia.
From S2P Require Import Prelude Text.

#[local] Open Scope Z_scope.

Module Files.
Import Text.

(** ** The disk *)

(** A file's directory and its name there. *)
Definition path : Type := bytes * bytes.

Definition parent_path (p : path) : bytes := p.1.
Definition filename (p : path) : bytes := p.2.

(** [kept]: [None] when everything is synced, otherwise how many leading bytes a
    crash keeps.  [links]: std::filesystem::hard_link_count. *)
Record file := { data : bytes; kept : option nat; links : Z }.

(** [older]: the other entries a crash may bring back, those a name had since
    its directory was last synced. *)
Record disk := { names : gmap path file; older : gmap path (list (option file)) }.

Definition olders (d : disk) (p : path) : list (option file) := default [] (older d !! p).

Definition candidates (d : disk) (p : path) : list (option file) := names d !! p :: olders d p.

Definition content (d : disk) (p : path) : option bytes := data <$> names d !! p.

Definition survives (f : file) (b : bytes) : Prop :=
  match kept f with None => b = data f | Some n => take n (data f) `prefix_of` b end.

(** What a name may hold after a crash: nothing, or a file with these bytes. *)
Definition may (d : disk) (p : path) (x : option bytes) : Prop :=
  exists c, c ∈ candidates d p /\ match c, x with None, None => True | Some f, Some b => survives f b | _, _ => False end.

(** What a restart after a power loss may find: what it finds is all there is. *)
Record crashed (d d' : disk) : Prop := {
  crashed_names : forall p, exists c, c ∈ candidates d p /\
    match c, names d' !! p with
    | None, None => True
    | Some f, Some f' => survives f (data f') /\ kept f' = None /\ links f' = links f
    | _, _ => False
    end;
  crashed_older : older d' = ∅
}.

(** One of them: every directory goes back to its last sync, and of every file
    only what was synced is left. *)
Definition kept_part (f : file) : file :=
  {| data := match kept f with None => data f | Some n => take n (data f) end; kept := None; links := links f |}.

Definition power_loss (d : disk) : disk :=
  {| names := merge (fun now l => kept_part <$> default now (last (default [] l))) (names d) (older d); older := ∅ |}.

(** Changes of a directory entry, and of a file in place. *)
Definition set_entry (p : path) (v : option file) (d : disk) : disk :=
  {| names := partial_alter (fun _ => v) p (names d); older := <[p := candidates d p]> (older d) |}.

Definition set_file (p : path) (f : file) (d : disk) : disk := {| names := <[p := f]> (names d); older := older d |}.

(** open with O_CREAT: an existing file is left as it is. *)
Definition create (p : path) (d : disk) : disk :=
  match names d !! p with Some _ => d | None => set_entry p (Some {| data := []; kept := Some O; links := 1 |}) d end.

Definition append (p : path) (b : bytes) (d : disk) : disk :=
  match names d !! p with
  | Some f => set_file p {| data := data f ++ b; kept := Some (Nat.min (default (length (data f)) (kept f)) (length (data f))); links := links f |} d
  | None => d
  end.

Definition resize (p : path) (n : nat) (d : disk) : disk :=
  match names d !! p with
  | Some f =>
      set_file p {| data := take n (data f) ++ replicate (n - length (data f)) 0;
                    kept := Some (Nat.min (Nat.min (default (length (data f)) (kept f)) (length (data f))) n); links := links f |} d
  | None => d
  end.

Definition sync_file (p : path) (d : disk) : disk :=
  match names d !! p with
  | Some f => set_file p {| data := data f; kept := None; links := links f |} d
  | None => d
  end.

Definition sync_dir (dir : bytes) (d : disk) : disk :=
  {| names := names d; older := filter (fun '(p, _) => parent_path p <> dir) (older d) |}.

Definition unlink (p : path) (d : disk) : disk := match names d !! p with Some _ => set_entry p None d | None => d end.

Definition move (p q : path) (d : disk) : disk := match names d !! p with Some f => set_entry p None (set_entry q (Some f) d) | None => d end.

(** ** Routines *)

(** What happens at a system call: it works; it fails with an error code, after
    [done] of its work; the process dies in it, after [done] of its work. *)
Inductive choice :=
| Works
| Fails (done : nat) (ec : Z)
| Dies (done : nat).

Inductive result (A : Type) : Type :=
| Done (a : A) (os : list choice) (d : disk)
| Threw (e : exn) (os : list choice) (d : disk)
| Died (d : disk).
Arguments Done {A} a os d.
Arguments Threw {A} e os d.
Arguments Died {A} d.

Definition io (A : Type) : Type := list choice -> disk -> result A.

#[global] Instance io_ret : MRet io := fun A a os d => Done a os d.
#[global] Instance io_bind : MBind io := fun A B f m os d =>
  match m os d with Done a os d => f a os d | Threw e os d => Threw e os d | Died d => Died d end.

Definition throw {A} (e : exn) : io A := fun os d => Threw e os d.

(** try and catch: the exception as a value. *)
Definition attempt {A} (m : io A) : io (A + exn) := fun os d =>
  match m os d with Done a os d => Done (inl a) os d | Threw e os d => Done (inr e) os d | Died d => Died d end.

Definition throw_when (b : bool) (e : exn) : io unit := if b then throw e else mret tt.

Fixpoint for_each {A} (l : list A) (f : A -> io unit) : io unit :=
  match l with [] => mret tt | a :: l' => _ ← f a; for_each l' f end.

Fixpoint map_io {A B} (f : A -> io B) (l : list A) : io (list B) :=
  match l with [] => mret [] | a :: l' => b ← f a; bs ← map_io f l'; mret (b :: bs) end.

(** A system call: its error code, zero when it works.  [failed k] and [died k]
    say what it has done when it fails or the process dies. *)
Definition call (full : disk -> disk) (failed died : nat -> disk -> disk) : io Z := fun os d =>
  match os with
  | [] => Done 0 [] (full d)
  | Works :: os => Done 0 os (full d)
  | Fails k ec :: os => Done (if ec =? 0 then 1 else ec) os (failed k d)
  | Dies k :: _ => Died (died k d)
  end.

(** A call that does all of its work or nothing. *)
Definition all_or_nothing (full : disk -> disk) (k : nat) (d : disk) : disk := match k with O => d | S _ => full d end.
Definition nothing (k : nat) (d : disk) : disk := d.

Definition atomic_call (full : disk -> disk) : io Z := call full nothing (all_or_nothing full).

(** The call throws [e] when it fails. *)
Definition checked (c : io Z) (e : exn) : io unit := ec ← c; throw_when (negb (ec =? 0)) e.

(** Reading what a call tells of the disk. *)
Definition ask {A} (f : disk -> A) : io A := fun os d => Done (f d) os d.

(** A call that changes no file and can fail. *)
Definition may_fail (e : exn) : io unit := checked (call id nothing nothing) e.

Definition exists_ (p : path) (e : exn) : io bool := _ ← may_fail e; ask (fun d => bool_decide (is_Some (names d !! p))).

(** The paths a disk has something of, now or after a crash. *)
Definition occupied (dir : bytes) (d : disk) : bool :=
  existsb (fun p => bool_decide (parent_path p = dir)) ((map_to_list (names d)).*1 ++ (map_to_list (older d)).*1).

(** Whether a directory exists; a disk holds files, and of a directory without
    any either answer is possible. *)
Definition directory_exists (dir : bytes) (e : exn) : io bool :=
  _ ← may_fail e;
  r ← attempt (may_fail e);
  match r with inl _ => mret true | inr _ => ask (occupied dir) end.

Definition file_size (p : path) (e : exn) : io Z :=
  _ ← may_fail e; o ← ask (fun d => content d p);
  match o with Some b => mret (len b) | None => throw e end.

Definition LoadFile (p : path) : io bytes :=
  let e := runtime_error "failed to open file" in
  _ ← may_fail e; o ← ask (fun d => content d p);
  match o with Some b => mret b | None => throw e end.

(** std::filesystem::remove; the file may be gone already. *)
Definition remove (p : path) : io Z := atomic_call (unlink p).

(** SyncFilePath and SyncDirectoryPath. *)
Definition SyncFilePath (p : path) : io unit :=
  let e := runtime_error "failed to open file for durability sync" in
  o ← ask (fun d => content d p);
  match o with
  | None => throw e
  | Some _ => checked (call (sync_file p) nothing nothing) (runtime_error "failed to fsync file")
  end.

Definition SyncDirectoryPath (dir : bytes) : io unit := checked (call (sync_dir dir) nothing nothing) (runtime_error "failed to sync directory").

(** The entries of a directory. *)
Definition listing (dir : bytes) (d : disk) : list bytes :=
  omap (fun '(p, _) => if bool_decide (parent_path p = dir) then Some (filename p) else None) (map_to_list (names d)).

(** ** Replacing a file *)

(** Linux's values of the error codes. *)
Definition IsAtomicWriteTransientError (ec : Z) : bool :=
  (ec =? 13) || (ec =? 16) || (ec =? 11) || (ec =? 1) || (ec =? 26) || (ec =? 17).

Definition kAtomicWriteRetryCount : nat := 6.

(** [suffix]: the process, the thread, the clock and a counter. *)
Definition BuildAtomicTmpPath (p : path) (suffix : bytes) : path := (parent_path p, filename p ++ str ".tmp." ++ suffix).

(** The write loop is one call, which may stop after any number of bytes. *)
Definition write_all (p : path) (b : bytes) : io Z :=
  call (append p b) (fun k => append p (take k b)) (fun k => append p (take k b)).

Definition WriteAtomicTempFile (tmp : path) (b : bytes) (durable_sync : bool) : io unit :=
  there ← ask (fun d => bool_decide (is_Some (names d !! tmp)));
  _ ← throw_when there (runtime_error "failed to open temporary file");
  _ ← checked (atomic_call (create tmp)) (runtime_error "failed to open temporary file");
  r ← attempt (
    _ ← may_fail (runtime_error "owner-only descriptor");
    _ ← checked (write_all tmp b) (runtime_error "failed to write temporary file");
    _ ← (if durable_sync then checked (call (sync_file tmp) nothing nothing) (runtime_error "failed to fsync file") else mret tt);
    may_fail (runtime_error "failed to close temporary file"));
  match r with
  | inl _ => mret tt
  | inr e => _ ← remove tmp; throw e
  end.

Definition ReplacePathAtomically (tmp target : path) : io Z := atomic_call (move tmp target).

(** The rename, tried again while the error is transient. *)
Fixpoint ReplaceWithRetries (attempts : nat) (tmp target : path) : io Z :=
  ec ← ReplacePathAtomically tmp target;
  match attempts with
  | S (S _ as left) => if negb (ec =? 0) && IsAtomicWriteTransientError ec then ReplaceWithRetries left tmp target else mret ec
  | _ => mret ec
  end.

(** What [*out_replaced] is at the end, and the exception when there is one.
    [tmp] is the name BuildAtomicTmpPath makes. *)
Definition AtomicWrite (tmp p : path) (b : bytes) (fsync_file fsync_directory : bool) : io (bool * option exn) :=
  r ← attempt (
    _ ← may_fail (runtime_error "failed to inspect directory path");
    WriteAtomicTempFile tmp b fsync_file);
  match r with
  | inr e => mret (false, Some e)
  | inl _ =>
      ec ← ReplaceWithRetries kAtomicWriteRetryCount tmp p;
      if negb (ec =? 0) then
        _ ← remove tmp;
        mret (false, Some (runtime_error "failed to move temporary file into place"))
      else
        r ← attempt (if fsync_directory then SyncDirectoryPath (parent_path p) else mret tt);
        match r with inl _ => mret (true, None) | inr e => mret (true, Some e) end
  end.

(** The same where the caller lets the exception pass. *)
Definition AtomicWriteOrThrow (tmp p : path) (b : bytes) (fsync_file fsync_directory : bool) : io unit :=
  r ← AtomicWrite tmp p b fsync_file fsync_directory;
  match r.2 with Some e => throw e | None => mret tt end.

(** ** Which temporary files go *)

Section Cleanup.
Context (current_pid : Z) (IsProcessAlive : Z -> bool) (TmpArtifactAgeMs : path -> Z).

Definition kAtomicTmpCurrentPidCleanupMinAgeMs : Z := 500.

(** std::stoll of a whole text. *)
Definition TryParseInt64 (text : bytes) : option Z :=
  let '(negative, after) := sign (span is_space text).2 in
  let '(ds, rest) := span is_digit after in
  let v := if negative : bool then - digits_value ds else digits_value ds in
  if bool_decide (ds = []) || negb (bool_decide (rest = [])) || (v <? - 2 ^ 63) || (2 ^ 63 <=? v) then None else Some v.

Definition ShouldCleanupTmpArtifactForCurrentProcess (target tmp : path) : bool :=
  let prefix := filename target ++ str ".tmp." in
  if negb (starts_with (filename tmp) prefix) then false
  else
    let suffix := drop (length prefix) (filename tmp) in
    match find suffix (str ".") with
    | None | Some O => true
    | Some dot =>
        match TryParseInt64 (take dot suffix) with
        | None => true
        | Some pid =>
            if pid <=? 0 then true
            else if negb (pid =? current_pid) then negb (IsProcessAlive pid)
            else kAtomicTmpCurrentPidCleanupMinAgeMs <=? TmpArtifactAgeMs tmp
        end
    end.

Definition CleanupAtomicTmpArtifacts (target : path) : io unit :=
  _ ← may_fail (runtime_error "failed to inspect chunk directory for temporary artifacts");
  found ← ask (listing (parent_path target));
  for_each found (fun n =>
    let tmp := (parent_path target, n) in
    if negb (ShouldCleanupTmpArtifactForCurrentProcess target tmp) then mret tt
    else checked (remove tmp) (runtime_error "failed to remove stale temporary chunk artifact")).

End Cleanup.

(** ** Cutting a file *)

Definition ResizeWalPreservingLinks (tmp p : path) (size : Z) (durable : bool) : io bool :=
  count ← ask (fun d => links <$> names d !! p);
  match count with
  | None => throw (runtime_error "filesystem error")
  | Some count =>
      if 1 <? count then
        b ← LoadFile p;
        _ ← throw_when (len b <? size) (runtime_error "WAL trim exceeds its current length");
        _ ← AtomicWriteOrThrow tmp p (take (Z.to_nat size) b) true false;
        _ ← (if durable then SyncDirectoryPath (parent_path p) else mret tt);
        mret true
      else
        _ ← checked (atomic_call (resize p (Z.to_nat size))) (runtime_error "filesystem error");
        mret false
  end.

(** ** Reasoning about routines *)

(** Whatever happens at its calls, [m] started on [d] returns with [Q], throws
    with [E] or dies with [C]. *)
Definition wp {A} (m : io A) (Q : A -> disk -> Prop) (E : exn -> disk -> Prop) (C : disk -> Prop) (d : disk) : Prop :=
  forall os, match m os d with Done a _ d' => Q a d' | Threw e _ d' => E e d' | Died d' => C d' end.

Lemma wp_conseq {A} (m : io A) Q E C Q' E' C' d : wp m Q E C d ->
  (forall a d', Q a d' -> Q' a d') -> (forall e d', E e d' -> E' e d') -> (forall d', C d' -> C' d') -> wp m Q' E' C' d.
Proof. intros H HQ HE HC os. specialize (H os). destruct (m os d); eauto. Qed.

Lemma wp_ret {A} (a : A) Q E C d : Q a d -> wp (mret a) Q E C d.
Proof. by intros H os. Qed.

Lemma wp_bind {A B} (m : io A) (f : A -> io B) Q E C d :
  wp m (fun a d' => wp (f a) Q E C d') E C d -> wp (m ≫= f) Q E C d.
Proof.
  intros H os. specialize (H os). unfold mbind, io_bind. destruct (m os d) as [a os' d'|e os' d'|d']; [|done|done]. apply (H os').
Qed.

Lemma wp_throw {A} e (Q : A -> disk -> Prop) E C d : E e d -> wp (throw e) Q E C d.
Proof. by intros H os. Qed.

Lemma wp_attempt {A} (m : io A) (Q : A + exn -> disk -> Prop) E C d :
  wp m (fun a => Q (inl a)) (fun e => Q (inr e)) C d -> wp (attempt m) Q E C d.
Proof. intros H os. specialize (H os). unfold attempt. by destruct (m os d). Qed.

Lemma wp_throw_when b e (Q : unit -> disk -> Prop) E C d : (b = true -> E e d) -> (b = false -> Q tt d) -> wp (throw_when b e) Q E C d.
Proof. intros HE HQ. destruct b; [apply wp_throw; auto|apply wp_ret; auto]. Qed.

Lemma wp_ask {A} (f : disk -> A) Q E C d : Q (f d) d -> wp (ask f) Q E C d.
Proof. by intros H os. Qed.

Lemma wp_call full failed died Q E C d : Q 0 (full d) -> (forall k ec, ec <> 0 -> Q ec (failed k d)) -> (forall k, C (died k d)) ->
  wp (call full failed died) Q E C d.
Proof.
  intros H1 H2 H3 [|[|k ec|k] os]; cbn; [done|done| |done]. apply H2. destruct (Z.eqb_spec ec 0); [done|done].
Qed.

Lemma wp_checked full failed died e (Q : unit -> disk -> Prop) E C d : Q tt (full d) -> (forall k, E e (failed k d)) -> (forall k, C (died k d)) ->
  wp (checked (call full failed died) e) Q E C d.
Proof.
  intros H1 H2 H3. apply wp_bind, wp_call; [apply wp_ret, H1| |done].
  intros k ec He. apply wp_throw_when; [done|]. intros H. apply negb_false_iff, Z.eqb_eq in H. done.
Qed.

Lemma wp_may_fail e (Q : unit -> disk -> Prop) E C d : Q tt d -> E e d -> C d -> wp (may_fail e) Q E C d.
Proof. intros H1 H2 H3. by apply wp_checked. Qed.

Lemma wp_exists p e Q (E : exn -> disk -> Prop) C d : Q (bool_decide (is_Some (names d !! p))) d -> E e d -> C d -> wp (exists_ p e) Q E C d.
Proof. intros H1 H2 H3. apply wp_bind, wp_may_fail; [|done|done]. by apply wp_ask. Qed.

Lemma not_occupied dir d p : occupied dir d = false -> parent_path p = dir -> candidates d p = [None].
Proof.
  intros H Hp. assert (forall q, q ∈ (map_to_list (names d)).*1 ++ (map_to_list (older d)).*1 -> parent_path q <> dir) as Hno.
  { intros q Hq E. apply not_true_iff_false in H. apply H, existsb_exists. exists q. split; [by apply list_elem_of_In|by apply bool_decide_eq_true]. }
  unfold candidates, olders. destruct (names d !! p) as [f|] eqn:Ef.
  - destruct (Hno p); [|done]. apply elem_of_app. left. apply list_elem_of_fmap. exists (p, f). split; [done|by apply elem_of_map_to_list].
  - destruct (older d !! p) as [l|] eqn:El; [|done]. destruct (Hno p); [|done]. apply elem_of_app. right. apply list_elem_of_fmap. exists (p, l).
    split; [done|by apply elem_of_map_to_list].
Qed.

Lemma wp_directory_exists dir e (Q : bool -> disk -> Prop) E C d : Q true d -> ((forall p, parent_path p = dir -> candidates d p = [None]) -> Q false d) ->
  E e d -> C d -> wp (directory_exists dir e) Q E C d.
Proof.
  intros H1 H2 H3 H4. apply wp_bind, wp_may_fail; [|done|done]. apply wp_bind, wp_attempt, wp_may_fail; [by apply wp_ret| |done].
  apply wp_ask. destruct (occupied dir d) eqn:Eo; [done|]. apply H2. intros p. by apply not_occupied.
Qed.

Lemma wp_file_size p e Q (E : exn -> disk -> Prop) C d : (forall b, content d p = Some b -> Q (len b) d) -> E e d -> C d -> wp (file_size p e) Q E C d.
Proof.
  intros H1 H2 H3. apply wp_bind, wp_may_fail; [|done|done]. apply wp_bind, wp_ask.
  destruct (content d p) as [b|]; [by apply wp_ret, H1|by apply wp_throw].
Qed.

Lemma wp_LoadFile p Q (E : exn -> disk -> Prop) C d : (forall b, content d p = Some b -> Q b d) -> (forall e, E e d) -> C d -> wp (LoadFile p) Q E C d.
Proof.
  intros H1 H2 H3. apply wp_bind, wp_may_fail; [|done|done]. apply wp_bind, wp_ask.
  destruct (content d p) as [b|]; [by apply wp_ret, H1|by apply wp_throw].
Qed.

Lemma wp_atomic full Q E C d : Q 0 (full d) -> (forall ec, ec <> 0 -> Q ec d) -> C d -> C (full d) -> wp (atomic_call full) Q E C d.
Proof. intros H1 H2 H3 H4. apply wp_call; [done|intros k ec; apply H2|by intros [|k]]. Qed.

Lemma wp_checked_atomic full e (Q : unit -> disk -> Prop) E C d : Q tt (full d) -> E e d -> C d -> C (full d) -> wp (checked (atomic_call full) e) Q E C d.
Proof. intros H1 H2 H3 H4. apply wp_checked; [done|done|by intros [|k]]. Qed.

Lemma wp_SyncFilePath p (Q : unit -> disk -> Prop) E C d : (is_Some (names d !! p) -> Q tt (sync_file p d)) -> (forall e, E e d) -> C d ->
  wp (SyncFilePath p) Q E C d.
Proof.
  intros H1 H2 H3. apply wp_bind, wp_ask. unfold content. destruct (names d !! p) as [f|] eqn:Ef; cbn; [|by apply wp_throw].
  apply wp_checked; [by apply H1|done|done].
Qed.

Lemma wp_SyncDirectoryPath dir (Q : unit -> disk -> Prop) E C d : Q tt (sync_dir dir d) -> (forall e, E e d) -> C d -> wp (SyncDirectoryPath dir) Q E C d.
Proof. intros H1 H2 H3. apply wp_checked; done. Qed.

(** A loop whose [i]-th round takes the invariant from [i] to [i + 1]. *)
Lemma wp_for_each {A} (f : A -> io unit) (I : list A -> disk -> Prop) (E : exn -> disk -> Prop) (C : disk -> Prop) (l : list A) :
  (forall l1 a l2 d, l = l1 ++ a :: l2 -> I l1 d -> wp (f a) (fun _ d' => I (l1 ++ [a]) d') E C d) ->
  forall d, I [] d -> wp (for_each l f) (fun _ d' => I l d') E C d.
Proof.
  intros Hf. assert (forall l2 l1 d, l = l1 ++ l2 -> I l1 d -> wp (for_each l2 f) (fun _ d' => I l d') E C d) as H.
  { induction l2 as [|a l2 IH]; intros l1 d El HI; cbn [for_each].
    - rewrite app_nil_r in El. subst l1. by apply wp_ret.
    - apply wp_bind. eapply wp_conseq; [by apply (Hf l1 a l2)| |done|done]. intros u d' H'. cbn beta.
      apply (IH (l1 ++ [a])); [|done]. by rewrite <- app_assoc. }
  intros d. by apply (H l []).
Qed.

(** ** What a routine leaves alone *)

(** [d'] holds what [d] held outside [T]: the same entries, with the older ones
    the same or gone. *)
Definition frame (T : list path) (d d' : disk) : Prop :=
  forall p, p ∉ T -> names d' !! p = names d !! p /\ (olders d' p = olders d p \/ olders d' p = []).

Lemma frame_refl T d : frame T d d.
Proof. intros p Hp. split; [done|by left]. Qed.

Lemma frame_trans T d1 d2 d3 : frame T d1 d2 -> frame T d2 d3 -> frame T d1 d3.
Proof. intros H1 H2 p Hp. destruct (H1 p Hp) as [E1 I1], (H2 p Hp) as [E2 I2]. split; [congruence|].
  destruct I1 as [I1|I1], I2 as [I2|I2]; rewrite I2; auto.
Qed.

Lemma frame_weaken T T' d d' : T ⊆ T' -> frame T d d' -> frame T' d d'.
Proof. intros HT H p Hp. apply H. set_solver. Qed.

#[global] Instance frame_preorder T : PreOrder (frame T).
Proof. split; [exact (frame_refl T)|exact (frame_trans T)]. Qed.

Lemma set_entry_other p q v d : q <> p -> names (set_entry p v d) !! q = names d !! q /\ olders (set_entry p v d) q = olders d q.
Proof.
  intros Hq. unfold olders, set_entry. cbn [names older]. rewrite lookup_partial_alter_ne, lookup_insert_ne by done. done.
Qed.

Lemma frame_set_entry p v d : frame [p] d (set_entry p v d).
Proof. intros q Hq. destruct (set_entry_other p q v d) as [-> ->]; [set_solver|]. split; [done|by left]. Qed.

Lemma frame_set_file p f d : frame [p] d (set_file p f d).
Proof.
  intros q Hq. unfold olders, set_file. cbn [names older]. rewrite lookup_insert_ne by set_solver. split; [done|by left].
Qed.

Lemma frame_create p d : frame [p] d (create p d).
Proof. unfold create. destruct (names d !! p); [apply frame_refl|apply frame_set_entry]. Qed.
Lemma frame_append p b d : frame [p] d (append p b d).
Proof. unfold append. destruct (names d !! p); [apply frame_set_file|apply frame_refl]. Qed.
Lemma frame_resize p n d : frame [p] d (resize p n d).
Proof. unfold resize. destruct (names d !! p); [apply frame_set_file|apply frame_refl]. Qed.
Lemma frame_sync_file p d : frame [p] d (sync_file p d).
Proof. unfold sync_file. destruct (names d !! p); [apply frame_set_file|apply frame_refl]. Qed.
Lemma frame_unlink p d : frame [p] d (unlink p d).
Proof. unfold unlink. destruct (names d !! p); [apply frame_set_entry|apply frame_refl]. Qed.
Lemma frame_move p q d : frame [p; q] d (move p q d).
Proof.
  unfold move. destruct (names d !! p); [|apply frame_refl].
  transitivity (set_entry q (Some f) d); eapply frame_weaken; [|apply frame_set_entry| |apply frame_set_entry]; set_solver.
Qed.
Lemma frame_sync_dir dir T d : frame T d (sync_dir dir d).
Proof.
  intros q _. split; [done|]. unfold olders, sync_dir. cbn [older].
  destruct (filter (fun '(p, _) => parent_path p <> dir) (older d) !! q) as [l|] eqn:El; [|by right].
  apply map_lookup_filter_Some in El as [-> _]. by left.
Qed.

#[global] Hint Resolve frame_refl frame_create frame_append frame_resize frame_sync_file frame_unlink frame_move frame_sync_dir frame_set_entry frame_set_file : chunkdb.

(** ** What a name may hold *)

(** [holds d p S]: now and after any crash, what the name [p] holds is in [S]. *)
Definition holds (d : disk) (p : path) (S : option bytes -> Prop) : Prop := forall x, may d p x -> S x.

Lemma power_loss_crashed d : crashed d (power_loss d).
Proof.
  constructor; [|done]. intros p. unfold power_loss. cbn [names]. rewrite lookup_merge. unfold candidates, olders, diag_None.
  assert (forall c, match c, kept_part <$> c with
    | None, None => True | Some f, Some f' => survives f (data f') /\ kept f' = None /\ links f' = links f | _, _ => False end) as Hk.
  { intros [f|]; cbn; [|done]. split; [|done]. unfold survives. by destruct (kept f). }
  destruct (older d !! p) as [l|] eqn:El; cbn [default from_option id].
  - destruct (last l) as [c|] eqn:E; cbn [default from_option id].
    + exists c. split; [right; by apply last_Some_elem_of|]. specialize (Hk c). destruct (names d !! p), c; exact Hk.
    + exists (names d !! p). split; [by left|]. destruct (names d !! p) as [f|]; [exact (Hk (Some f))|exact (Hk None)].
  - exists (names d !! p). split; [by left|]. destruct (names d !! p) as [f|]; [exact (Hk (Some f))|done].
Qed.

Lemma may_content d p : may d p (content d p).
Proof.
  exists (names d !! p). split; [left|]. unfold content. destruct (names d !! p) as [f|]; cbn; [|done].
  unfold survives. destruct (kept f); [apply prefix_take|done].
Qed.

Lemma holds_content d p S : holds d p S -> S (content d p).
Proof. intros H. apply H, may_content. Qed.

Lemma holds_mono d p (S S' : option bytes -> Prop) : (forall x, S x -> S' x) -> holds d p S -> holds d p S'.
Proof. intros H1 H2 x Hx. auto. Qed.

Lemma holds_frame T d d' p S : frame T d d' -> p ∉ T -> holds d p S -> holds d' p S.
Proof.
  intros H1 Hp H2 x (c & Hc & Hx). apply H2. exists c. split; [|done]. unfold candidates in *. destruct (H1 p Hp) as [<- Ho].
  apply elem_of_cons. apply elem_of_cons in Hc as [->|Hc]; [by left|right]. destruct Ho as [<-|Ho]; [done|]. rewrite Ho in Hc. by apply elem_of_nil in Hc.
Qed.

Lemma olders_frame T d d' p : frame T d d' -> p ∉ T -> olders d p = [] -> olders d' p = [].
Proof. intros H Hp Ho. destruct (H p Hp) as [_ [->| ->]]; done. Qed.

Lemma content_frame T d d' p : frame T d d' -> p ∉ T -> content d' p = content d p.
Proof. intros H Hp. unfold content. by destruct (H p Hp) as [-> _]. Qed.

(** A restart finds what the name may hold, and nothing else after it. *)
Lemma crashed_may d d' p x : crashed d d' -> may d' p x -> x = content d' p.
Proof.
  intros [Hn Ho] (c & Hc & Hx). unfold candidates, olders in Hc. rewrite Ho, lookup_empty in Hc. cbn in Hc.
  apply list_elem_of_singleton in Hc as ->. unfold content. destruct (Hn p) as (c & _ & Hm).
  destruct (names d' !! p) as [f|], x as [b|]; cbn; try done. destruct c as [f0|]; [|done]. destruct Hm as (_ & Hk & _).
  unfold survives in Hx. rewrite Hk in Hx. by subst.
Qed.

Lemma holds_crashed d d' p S : crashed d d' -> holds d p S -> holds d' p S.
Proof.
  intros Hc H x Hx. rewrite (crashed_may d d' p x Hc Hx). apply H. destruct (crashed_names _ _ Hc p) as (c & Hin & Hm).
  exists c. split; [done|]. unfold content. by destruct c, (names d' !! p); try destruct Hm.
Qed.

Lemma holds_set_entry p v d (S : option bytes -> Prop) : holds d p S -> match v with None => S None | Some f => forall b, survives f b -> S (Some b) end ->
  holds (set_entry p v d) p S.
Proof.
  intros H1 H2 x (c & Hc & Hx). unfold candidates, olders, set_entry in Hc. cbn [names older] in Hc.
  rewrite lookup_partial_alter_eq, lookup_insert_eq in Hc. cbn in Hc. apply elem_of_cons in Hc as [->|Hc].
  - destruct v as [f|], x; try done. by apply H2.
  - apply H1. by exists c.
Qed.

Lemma holds_set_file p f d (S : option bytes -> Prop) : holds d p S -> (forall b, survives f b -> S (Some b)) -> holds (set_file p f d) p S.
Proof.
  intros H1 H2 x (c & Hc & Hx). unfold candidates, set_file in Hc. cbn [names older] in Hc.
  rewrite lookup_insert_eq in Hc. apply elem_of_cons in Hc as [->|Hc].
  - destruct x; [by apply H2|done].
  - apply H1. exists c. split; [by right|done].
Qed.

Lemma holds_unlink p d (S : option bytes -> Prop) : holds d p S -> S None -> holds (unlink p d) p S.
Proof. intros H1 H2. unfold unlink. destruct (names d !! p); [by apply holds_set_entry|done]. Qed.

(** After its directory is synced a name holds what its file does. *)
Lemma holds_sync_dir d p S : match names d !! p with None => S None | Some f => forall b, survives f b -> S (Some b) end ->
  holds (sync_dir (parent_path p) d) p S.
Proof.
  intros H x (c & Hc & Hx). unfold candidates, olders, sync_dir in Hc. cbn [names older] in Hc. apply elem_of_cons in Hc as [->|Hc].
  - destruct (names d !! p), x; try done. by apply H.
  - destruct (filter (fun '(p, _) => parent_path p <> parent_path _) (older d) !! p) as [l|] eqn:El; [|by apply elem_of_nil in Hc].
    by apply map_lookup_filter_Some in El as [_ ?].
Qed.

(** ** Replacing a file is atomic *)

Lemma content_some d p f : names d !! p = Some f -> content d p = Some (data f).
Proof. intros Ef. unfold content. by rewrite Ef. Qed.

Lemma create_file p d : exists f, names (create p d) !! p = Some f /\ (names d !! p = None -> data f = [] /\ kept f = Some O).
Proof.
  unfold create. destruct (names d !! p) as [f|] eqn:Ef; [by exists f|]. eexists. cbn [set_entry names].
  rewrite lookup_partial_alter_eq. split; [done|]. by split.
Qed.

Lemma append_file p b d f : names d !! p = Some f -> exists f', names (append p b d) !! p = Some f' /\ data f' = data f ++ b.
Proof. intros Ef. unfold append. rewrite Ef. eexists. cbn [set_file names]. by rewrite lookup_insert_eq. Qed.

Lemma sync_file_file p d f : names d !! p = Some f -> names (sync_file p d) !! p = Some {| data := data f; kept := None; links := links f |}.
Proof. intros Ef. unfold sync_file. rewrite Ef. cbn [set_file names]. by rewrite lookup_insert_eq. Qed.

Lemma resize_file p n d f : names d !! p = Some f -> exists f', names (resize p n d) !! p = Some f' /\ data f' = take n (data f) ++ replicate (n - length (data f)) 0.
Proof. intros Ef. unfold resize. rewrite Ef. eexists. cbn [set_file names]. by rewrite lookup_insert_eq. Qed.

Lemma unlink_file p d : names (unlink p d) !! p = None.
Proof. unfold unlink. destruct (names d !! p) as [f|] eqn:Ef; [|done]. cbn [set_entry names]. by rewrite lookup_partial_alter_eq. Qed.

Lemma move_file p q d f : p <> q -> names d !! p = Some f -> names (move p q d) !! q = Some f /\ olders (move p q d) q = candidates d q.
Proof.
  intros Hpq Ef. unfold move. rewrite Ef. destruct (set_entry_other p q None (set_entry q (Some f) d)) as [-> ->]; [done|].
  unfold olders. cbn [set_entry names older]. by rewrite lookup_partial_alter_eq, lookup_insert_eq.
Qed.

(** Closes a goal [frame T d d'] where [d'] is [d] after calls on names of [T]. *)
Ltac frames :=
  repeat match goal with
  | |- frame _ ?d ?d => apply frame_refl
  | H : frame ?T ?d ?d' |- frame ?T ?d ?d' => exact H
  | |- frame _ _ (sync_dir _ ?d) => apply (frame_trans _ _ d); [|apply frame_sync_dir]
  | |- frame _ _ (?op ?x ?y ?d) => apply (frame_trans _ _ d); [|eapply frame_weaken; [|by auto with chunkdb]; set_solver]
  | |- frame _ _ (?op ?x ?d) => apply (frame_trans _ _ d); [|eapply frame_weaken; [|by auto with chunkdb]; set_solver]
  | H : frame ?T ?e ?d' |- frame _ _ ?d' => apply (frame_trans _ _ e); [clear H|eapply frame_weaken; [|exact H]; set_solver]
  end.

Lemma WriteAtomicTempFile_ok tmp b durable d :
  wp (WriteAtomicTempFile tmp b durable)
    (fun _ d' => frame [tmp] d d' /\ exists f, names d' !! tmp = Some f /\ data f = b /\ (durable = true -> kept f = None))
    (fun _ d' => frame [tmp] d d') (fun d' => frame [tmp] d d') d.
Proof.
  apply wp_bind, wp_ask. apply wp_bind, wp_throw_when; [intros _; apply frame_refl|].
  rewrite bool_decide_eq_false, <- eq_None_not_Some. intros Hn. apply wp_bind, wp_checked_atomic; [|apply frame_refl|apply frame_refl|frames].
  destruct (create_file tmp d) as (f & Ef & Hf). destruct (Hf Hn) as [Hd Hk]. set (d1 := create tmp d) in *.
  assert (frame [tmp] d d1) as F1 by apply frame_create. apply wp_bind, wp_attempt, wp_bind.
  assert (forall d2, frame [tmp] d d2 -> forall e, wp (remove tmp ≫= fun _ : Z => throw e) (fun (_ : unit) d' => frame [tmp] d d' /\ exists f, names d' !! tmp = Some f /\ data f = b /\
    (durable = true -> kept f = None)) (fun _ d' => frame [tmp] d d') (fun d' => frame [tmp] d d') d2) as Hcl.
  { intros d2 F2 e. apply wp_bind, wp_atomic; try (intros; apply wp_throw); frames. }
  apply wp_may_fail; [|by apply Hcl|done]. apply wp_bind, wp_checked.
  2: { intros k. apply Hcl. frames. }
  2: { intros k. frames. }
  destruct (append_file tmp b d1 f Ef) as (f2 & Ef2 & Hd2). rewrite Hd in Hd2. cbn in Hd2. set (d2 := append tmp b d1) in *.
  assert (frame [tmp] d d2) as F2 by (subst d2; frames). apply wp_bind. destruct durable.
  - apply wp_checked; [|by intros; apply Hcl|done]. pose proof (sync_file_file tmp d2 f2 Ef2) as Es.
    apply wp_may_fail; [|apply Hcl; frames|frames]. apply wp_ret. split; [frames|]. rewrite Es. eexists. split; [done|]. by cbn.
  - apply wp_ret, wp_may_fail; [|by apply Hcl|done]. apply wp_ret. split; [done|]. by exists f2.
Qed.

Lemma ReplaceWithRetries_ok n tmp p d :
  wp (ReplaceWithRetries n tmp p) (fun ec d' => d' = if ec =? 0 then move tmp p d else d) (fun _ _ => False) (fun d' => d' = d \/ d' = move tmp p d) d.
Proof.
  induction n as [|n IH]; cbn [ReplaceWithRetries]; apply wp_bind, wp_atomic; try (by left); try (by right).
  - by apply wp_ret.
  - intros ec He. apply wp_ret. by destruct (Z.eqb_spec ec 0).
  - destruct n; by apply wp_ret.
  - intros ec He. destruct n; [|destruct (negb (ec =? 0) && _)]; [apply wp_ret|exact IH|apply wp_ret]; by destruct (Z.eqb_spec ec 0).
Qed.

(** Whatever fails and wherever the process dies, the name holds what it held or
    exactly the new bytes: the new ones when the call returns, what it held when
    it reports that nothing was replaced. *)
Lemma AtomicWrite_ok tmp p b fd d S : tmp <> p -> holds d p S ->
  wp (AtomicWrite tmp p b true fd)
    (fun r d' => frame [tmp; p] d d' /\
       match r with
       | (true, e) =>
           holds d' p (fun x => S x \/ x = Some b) /\ (exists f, names d' !! p = Some f /\ data f = b /\ kept f = None) /\
           (e = None -> fd = true -> holds d' p (fun x => x = Some b))
       | (false, e) => e <> None /\ frame [tmp] d d'
       end)
    (fun _ _ => False)
    (fun d' => frame [tmp; p] d d' /\ (holds d' p S \/ holds d' p (fun x => S x \/ x = Some b) /\ content d' p = Some b)) d.
Proof.
  intros Hne HS.
  assert (forall d', frame [tmp] d d' -> frame [tmp; p] d d' /\ (holds d' p S \/ holds d' p (fun x => S x \/ x = Some b) /\ content d' p = Some b)) as Hsame.
  { intros d' F. split; [eapply frame_weaken; [|done]; set_solver|]. left. apply (holds_frame [tmp] d); [done|set_solver|done]. }
  apply wp_bind, wp_attempt, wp_bind. apply wp_may_fail.
  2: { apply wp_ret. split; [apply frame_refl|]. split; [done|apply frame_refl]. }
  2: { apply Hsame, frame_refl. }
  eapply wp_conseq; [apply WriteAtomicTempFile_ok| | |exact Hsame].
  2: { intros e d' F. apply wp_ret. split; [by apply Hsame|done]. }
  intros _ d1 [F1 (f & Ef & Hd & Hk)]. apply wp_bind. specialize (Hk eq_refl).
  destruct (move_file tmp p d1 f Hne Ef) as [Em Ec]. set (d2 := move tmp p d1) in *.
  assert (frame [tmp; p] d d2) as F2 by (subst d2; frames).
  assert (forall x, survives f x -> x = b) as Hs by (unfold survives; rewrite Hk; congruence).
  assert (holds d2 p (fun x => S x \/ x = Some b)) as Hd2.
  { intros x (c & Hc & Hx). unfold candidates in Hc. rewrite Em, Ec in Hc. apply elem_of_cons in Hc as [->|Hc].
    - right. destruct x as [x|]; [|done]. f_equal. by apply Hs.
    - left. apply (holds_frame [tmp] d d1 p S F1); [set_solver|done|]. by exists c. }
  assert (exists f, names d2 !! p = Some f /\ data f = b /\ kept f = None) as Hc2 by (by exists f).
  assert (frame [tmp; p] d d2 /\ (holds d2 p S \/ holds d2 p (fun x => S x \/ x = Some b) /\ content d2 p = Some b)) as Hmoved.
  { split; [done|]. right. split; [done|]. rewrite (content_some _ _ _ Em). congruence. }
  eapply wp_conseq; [apply ReplaceWithRetries_ok| |done|].
  2: { intros d' [->| ->]; [by apply Hsame|done]. }
  intros ec d' ->. change (move tmp p d1) with d2. destruct (Z.eqb_spec ec 0) as [->|Hec]; cbn [negb].
  - apply wp_bind, wp_attempt. destruct fd.
    + apply wp_SyncDirectoryPath; [| |done].
      * assert (holds (sync_dir (parent_path p) d2) p (fun x => x = Some b)) as Hb.
        { apply holds_sync_dir. rewrite Em. intros x Hx. f_equal. by apply Hs. }
        apply wp_ret. split; [frames|]. split; [|done]. eapply holds_mono; [|exact Hb]. by right.
      * intros e. by apply wp_ret.
    + by apply wp_ret, wp_ret.
  - apply wp_bind, wp_atomic.
    + apply wp_ret. split; [frames|]. split; [done|frames].
    + intros. apply wp_ret. split; [by apply Hsame|done].
    + by apply Hsame.
    + apply Hsame. frames.
Qed.

(** ** Other lemmas on what a name holds *)

Lemma holds_create p d (S : option bytes -> Prop) : holds d p S -> (names d !! p = None -> forall b, S (Some b)) -> holds (create p d) p S.
Proof.
  intros H1 H2. unfold create. destruct (names d !! p) as [f|] eqn:Ef; [done|]. apply holds_set_entry; [done|]. intros b _. by apply H2.
Qed.

(** What does not depend on the bytes a file gets at its end survives an append. *)
Lemma holds_append p b d (S : option bytes -> Prop) : holds d p S -> (forall x y, S (Some x) -> S (Some (x ++ y))) -> holds (append p b d) p S.
Proof.
  intros H1 H2. unfold append. destruct (names d !! p) as [f|] eqn:Ef; [|done]. apply holds_set_file; [done|].
  intros x [y ->]. cbn [data kept]. set (n := Nat.min _ _) in *. rewrite take_app_le by (subst n; lia).
  destruct (kept f) as [k|] eqn:Ek; cbn in n.
  - apply H1. exists (Some f). split; [rewrite <- Ef; left|]. unfold survives. rewrite Ek.
    destruct (decide (k <= length (data f))%nat).
    + replace n with k by (subst n; lia). by apply prefix_app_r.
    + rewrite (firstn_all2 (n := k)) by lia. replace n with (length (data f)) by (subst n; lia). rewrite firstn_all. by apply prefix_app_r.
  - replace n with (length (data f)) by (subst n; lia). rewrite firstn_all. apply H2. apply H1. exists (Some f).
    split; [rewrite <- Ef; left|]. unfold survives. by rewrite Ek.
Qed.

Lemma holds_sync_file p d (S : option bytes -> Prop) : holds d p S -> holds (sync_file p d) p S.
Proof.
  intros H. unfold sync_file. destruct (names d !! p) as [f|] eqn:Ef; [|done]. apply holds_set_file; [done|].
  intros b Hb. unfold survives in Hb. cbn in Hb. subst b. pose proof (holds_content d p S H) as Hc. unfold content in Hc. by rewrite Ef in Hc.
Qed.

Lemma olders_create p d : is_Some (names d !! p) -> create p d = d.
Proof. intros [f Ef]. unfold create. by rewrite Ef. Qed.

Lemma olders_set_file p q f d : olders (set_file p f d) q = olders d q.
Proof. done. Qed.

Lemma olders_append p b d q : olders (append p b d) q = olders d q.
Proof. unfold append. by destruct (names d !! p). Qed.
Lemma olders_resize p n d q : olders (resize p n d) q = olders d q.
Proof. unfold resize. by destruct (names d !! p). Qed.
Lemma olders_sync_file p d q : olders (sync_file p d) q = olders d q.
Proof. unfold sync_file. by destruct (names d !! p). Qed.
Lemma olders_sync_dir d p : olders (sync_dir (parent_path p) d) p = [].
Proof.
  unfold olders, sync_dir. cbn [older]. destruct (filter _ (older d) !! p) as [l|] eqn:El; [|done]. by apply map_lookup_filter_Some in El as [_ ?].
Qed.

(** A name with one possible entry, whose file is synced, holds its bytes. *)
Lemma holds_settled d p f (S : option bytes -> Prop) : names d !! p = Some f -> olders d p = [] -> kept f = None -> S (Some (data f)) -> holds d p S.
Proof.
  intros Ef Ho Hk HS x (c & Hc & Hx). unfold candidates in Hc. rewrite Ef, Ho in Hc. apply list_elem_of_singleton in Hc as ->.
  destruct x as [b|]; [|done]. unfold survives in Hx. rewrite Hk in Hx. by subst.
Qed.

Lemma content_none d p : names d !! p = None -> content d p = None.
Proof. intros Ef. unfold content. by rewrite Ef. Qed.

Lemma listing_spec dir d n : n ∈ listing dir d <-> is_Some (names d !! (dir, n)).
Proof.
  unfold listing. rewrite list_elem_of_omap. split.
  - intros ([[a m] f] & Hin & H). case_bool_decide as Hd; [|done]. injection H as <-. cbn in Hd. subst a. apply elem_of_map_to_list in Hin. by exists f.
  - intros [f Ef]. exists ((dir, n), f). split; [by apply elem_of_map_to_list|]. by rewrite bool_decide_true.
Qed.

Lemma listing_NoDup dir d : NoDup (listing dir d).
Proof.
  unfold listing. pose proof (NoDup_fst_map_to_list (names d)) as H. induction (map_to_list (names d)) as [|[[a m] f] l IH]; cbn; [constructor|].
  apply NoDup_cons in H as [Hn H]. case_bool_decide as Hd; [|by apply IH]. cbn in Hd. subst a. apply NoDup_cons. split; [|by apply IH].
  rewrite list_elem_of_omap. intros ([[a' m'] f'] & Hin & Hm). case_bool_decide as Hd'; [|done]. injection Hm as ->. cbn in Hd'. subst a'.
  apply Hn. apply list_elem_of_fmap. by exists ((dir, m), f').
Qed.

Lemma wp_map_io {A B} (f : A -> io B) (R : A -> B -> Prop) l d :
  (forall a, a ∈ l -> wp (f a) (fun b d' => d' = d /\ R a b) (fun _ d' => d' = d) (fun d' => d' = d) d) ->
  wp (map_io f l) (fun bs d' => d' = d /\ Forall2 R l bs) (fun _ d' => d' = d) (fun d' => d' = d) d.
Proof.
  induction l as [|a l IH]; intros H; cbn [map_io]; [by apply wp_ret|]. apply wp_bind.
  eapply wp_conseq; [apply H; left| |done|done]. intros b d' [-> Hb]. apply wp_bind.
  eapply wp_conseq; [apply IH; intros a' Ha'; apply H; by right| |done|done]. intros bs d' [-> Hbs]. apply wp_ret. split; [done|by constructor].
Qed.

(** ** Runs without failures *)

(** [m] started on [d] returns when every call works. *)
Definition fine {A} (m : io A) (d : disk) : Prop := exists a d', m [] d = Done a [] d'.

Lemma fine_bind {A B} (m : io A) (f : A -> io B) Q E C d : fine m d -> wp m Q E C d -> (forall a d', Q a d' -> fine (f a) d') -> fine (m ≫= f) d.
Proof.
  intros (a & d' & Hm) Hw Hf. specialize (Hw []). rewrite Hm in Hw. destruct (Hf a d' Hw) as (b & d2 & Hb).
  exists b, d2. unfold mbind, io_bind. by rewrite Hm.
Qed.

Lemma wp_true {A} (m : io A) d : wp m (fun _ _ => True) (fun _ _ => True) (fun _ => True) d.
Proof. intros os. by destruct (m os d). Qed.

Lemma fine_ret {A} (a : A) d : fine (mret a) d.
Proof. by exists a, d. Qed.

Lemma fine_call full failed died d : fine (call full failed died) d.
Proof. by exists 0, (full d). Qed.

Lemma fine_checked full failed died e d : fine (checked (call full failed died) e) d.
Proof. by exists tt, (full d). Qed.

Lemma fine_ask {A B} (f : disk -> A) (k : A -> io B) d : fine (k (f d)) d -> fine (ask f ≫= k) d.
Proof. intros (b & d' & H). by exists b, d'. Qed.

Lemma fine_checked_bind {B} full failed died e (k : unit -> io B) d : fine (k tt) (full d) -> fine (checked (call full failed died) e ≫= k) d.
Proof. intros (b & d' & H). by exists b, d'. Qed.

Lemma fine_when {B} b e (k : unit -> io B) d : b = false -> fine (k tt) d -> fine (throw_when b e ≫= k) d.
Proof. intros -> (x & d' & H). by exists x, d'. Qed.

Lemma fine_exists {B} p e (k : bool -> io B) d : fine (k (bool_decide (is_Some (names d !! p)))) d -> fine (exists_ p e ≫= k) d.
Proof. intros (x & d' & H). by exists x, d'. Qed.

Lemma fine_directory_exists {B} dir e (k : bool -> io B) d : fine (k true) d -> fine (directory_exists dir e ≫= k) d.
Proof. done. Qed.

Lemma fine_file_size {B} p e (k : Z -> io B) d f : names d !! p = Some f -> fine (k (len (data f))) d -> fine (file_size p e ≫= k) d.
Proof.
  intros Ef (x & d' & H). exists x, d'. rewrite <- H. unfold mbind at 1, io_bind at 1. unfold file_size, may_fail, checked, ask, mbind, io_bind. cbn.
  unfold id. by rewrite (content_some _ _ _ Ef).
Qed.

Lemma fine_LoadFile {B} p (k : bytes -> io B) d b : content d p = Some b -> fine (k b) d -> fine (LoadFile p ≫= k) d.
Proof.
  intros Eb (x & d' & H). exists x, d'. rewrite <- H. unfold mbind at 1, io_bind at 1. unfold LoadFile, may_fail, checked, ask, mbind, io_bind. cbn.
  unfold id. by rewrite Eb.
Qed.

Lemma fine_SyncFilePath p d : is_Some (names d !! p) -> fine (SyncFilePath p) d.
Proof. intros [f Ef]. unfold SyncFilePath. apply fine_ask. rewrite (content_some _ _ _ Ef). apply fine_checked. Qed.

Lemma fine_for_each {A} (f : A -> io unit) (I : list A -> disk -> Prop) E C (l : list A) :
  (forall l1 a l2 d, l = l1 ++ a :: l2 -> I l1 d -> fine (f a) d /\ wp (f a) (fun _ d' => I (l1 ++ [a]) d') E C d) ->
  forall d, I [] d -> fine (for_each l f) d.
Proof.
  intros Hf. assert (forall l2 l1 d, l = l1 ++ l2 -> I l1 d -> fine (for_each l2 f) d) as H; [|intros d; by apply (H l [])].
  induction l2 as [|a l2 IH]; intros l1 d El HI; cbn [for_each]; [apply fine_ret|]. destruct (Hf l1 a l2 d El HI) as [H1 H2].
  eapply fine_bind; [exact H1|exact H2|]. intros u d' HI'. apply (IH (l1 ++ [a])); [by rewrite <- app_assoc|done].
Qed.

Lemma fine_map_io {A B} (f : A -> io B) l d : (forall a, a ∈ l -> exists b, f a [] d = Done b [] d) -> exists bs, map_io f l [] d = Done bs [] d.
Proof.
  induction l as [|a l IH]; intros H; cbn [map_io]; [by exists []|]. destruct (H a) as [b Hb]; [by left|]. destruct IH as [bs Hbs]; [intros a' Ha'; apply H; by right|].
  exists (b :: bs). unfold mbind, io_bind. by rewrite Hb, Hbs.
Qed.

(** ** Routines that never touch a path *)

(** Whatever happens, the file at [p] stays. *)
Definition spares {A} (p : path) (m : io A) : Prop :=
  forall d, wp m (fun _ d' => names d' !! p = names d !! p) (fun _ d' => names d' !! p = names d !! p) (fun d' => names d' !! p = names d !! p) d.

Lemma spares_ret {A} p (a : A) : spares p (mret a).
Proof. intros d. by apply wp_ret. Qed.
Lemma spares_throw {A} p e : spares p (@throw A e).
Proof. intros d. by apply wp_throw. Qed.
Lemma spares_bind {A B} p (m : io A) (f : A -> io B) : spares p m -> (forall a, spares p (f a)) -> spares p (m ≫= f).
Proof.
  intros Hm Hf d. apply wp_bind. eapply wp_conseq; [apply Hm| |done|done]. intros a d1 E. cbn beta.
  eapply wp_conseq; [apply Hf| | |]; cbn beta; intros; congruence.
Qed.
Lemma spares_attempt {A} p (m : io A) : spares p m -> spares p (attempt m).
Proof. intros Hm d. apply wp_attempt. eapply wp_conseq; [apply Hm| | |]; done. Qed.
Lemma spares_ask {A} p (f : disk -> A) : spares p (ask f).
Proof. intros d. by apply wp_ask. Qed.
Lemma spares_when p b e : spares p (throw_when b e).
Proof. intros d. by apply wp_throw_when. Qed.
Lemma spares_call p full failed died : (forall d, names (full d) !! p = names d !! p) -> (forall k d, names (failed k d) !! p = names d !! p) ->
  (forall k d, names (died k d) !! p = names d !! p) -> spares p (call full failed died).
Proof. intros H1 H2 H3 d. apply wp_call; auto. Qed.
Lemma spares_for_each {A} p (l : list A) (f : A -> io unit) : (forall a, a ∈ l -> spares p (f a)) -> spares p (for_each l f).
Proof.
  induction l as [|a l IH]; intros Hf; cbn [for_each]; [apply spares_ret|]. apply spares_bind; [apply Hf; by left|]. intros _. apply IH. intros b Hb. apply Hf. by right.
Qed.

Lemma names_frame q d d' p : frame [q] d d' -> p <> q -> names d' !! p = names d !! p.
Proof. intros F Hp. apply F. by rewrite list_elem_of_singleton. Qed.

Lemma names_move p q r d : r <> p -> r <> q -> names (move p q d) !! r = names d !! r.
Proof. intros Hp Hq. apply (frame_move p q d). rewrite elem_of_cons, list_elem_of_singleton. tauto. Qed.

Lemma names_sync_dir dir p d : names (sync_dir dir d) !! p = names d !! p.
Proof. done. Qed.

(** Goes through a routine to its calls. *)
Ltac spare :=
  repeat first
    [ done | match goal with |- forall _, _ => intro end | apply spares_ret | apply spares_throw | apply spares_ask | apply spares_when | apply spares_attempt | apply spares_bind
    | match goal with
      | |- spares _ (may_fail _) => unfold may_fail
      | |- spares _ (ReplacePathAtomically _ _) => unfold ReplacePathAtomically
      | |- spares _ (checked _ _) => unfold checked
      | |- spares _ (atomic_call _) => unfold atomic_call
      | |- spares _ (call _ _ _) => apply spares_call; intros; unfold all_or_nothing, nothing, id
      | |- spares _ (remove _) => unfold remove
      | |- spares _ (write_all _ _) => unfold write_all
      | |- spares _ (exists_ _ _) => unfold exists_
      | |- spares _ (LoadFile _) => unfold LoadFile
      | |- spares _ (SyncFilePath _) => unfold SyncFilePath
      | |- spares _ (SyncDirectoryPath _) => unfold SyncDirectoryPath
      | |- spares _ (match ?x with _ => _ end) => destruct x
      | |- names (match ?x with _ => _ end) !! _ = _ => destruct x
      | |- names (sync_dir _ _) !! _ = _ => apply names_sync_dir
      | |- names (move _ _ _) !! _ = _ => apply names_move
      | |- names (unlink _ _) !! _ = _ => eapply names_frame; [apply frame_unlink|]
      | |- names (append _ _ _) !! _ = _ => eapply names_frame; [apply frame_append|]
      | |- names (create _ _) !! _ = _ => eapply names_frame; [apply frame_create|]
      | |- names (resize _ _ _) !! _ = _ => eapply names_frame; [apply frame_resize|]
      | |- names (sync_file _ _) !! _ = _ => eapply names_frame; [apply frame_sync_file|]
      end ].

Lemma spares_replace n tmp p q : q <> tmp -> q <> p -> spares q (ReplaceWithRetries n tmp p).
Proof.
  intros H1 H2. induction n as [|n IH]; cbn [ReplaceWithRetries]; unfold ReplacePathAtomically; [spare|].
  destruct n as [|n]; [spare|]. apply spares_bind; [spare|]. intros ec. destruct (_ && _); [exact IH|spare].
Qed.

Lemma spares_AtomicWrite tmp p b fd dd q : q <> tmp -> q <> p -> spares q (AtomicWrite tmp p b fd dd).
Proof.
  intros H1 H2. pose proof (spares_replace kAtomicWriteRetryCount tmp p q H1 H2). unfold AtomicWrite, WriteAtomicTempFile. spare.
Qed.

Lemma spares_ResizeWal tmp p size durable q : q <> tmp -> q <> p -> spares q (ResizeWalPreservingLinks tmp p size durable).
Proof.
  intros H1 H2. pose proof (spares_AtomicWrite tmp p) as HA. unfold ResizeWalPreservingLinks, AtomicWriteOrThrow. spare; by apply HA.
Qed.

End Files.
