(* ===== verification/TxnIntent.v ===== *)
(** * Transaction intents (src/src/txn_intent.cpp, src/src/file_layout.cpp)

    The record a commit writes before it touches the WALs of several chunks,
    its file name, and the paths of the chunks' files. *)
From stdpp Require Import prelude strings gmap.
From Stdlib Require Import ZArith Lia.
From S2P Require Import Prelude Bits Crc32 Geometry LittleEndian Text Files.

#[local] Open Scope Z_scope.

Module TxnIntent.
Import Geometry LittleEndian Text Files.

(** ** Paths *)

(** A directory below another. *)
Definition subdir (dir : bytes) (name : bytes) : bytes := dir ++ str "/" ++ name.

Definition LargeChunkDirectory (data_dir : bytes) (large : ChunkCoord) : bytes :=
  subdir data_dir (str "L_" ++ to_string (cx large) ++ str "_" ++ to_string (cy large)).

Definition ChunkDataPath (data_dir : bytes) (g : Geometry) (c : ChunkCoord) : path :=
  (LargeChunkDirectory data_dir (ChunkToLarge g c), str "C_" ++ to_string (cx c) ++ str "_" ++ to_string (cy c) ++ str ".chk").

Definition ChunkWalPath (data_dir : bytes) (g : Geometry) (c : ChunkCoord) : path :=
  (LargeChunkDirectory data_dir (ChunkToLarge g c), str "C_" ++ to_string (cx c) ++ str "_" ++ to_string (cy c) ++ str ".wal").

Definition LargeName (g : Geometry) (c : ChunkCoord) : bytes :=
  str "L_" ++ to_string (cx (ChunkToLarge g c)) ++ str "_" ++ to_string (cy (ChunkToLarge g c)).

Definition kConditionalIntentDirName : bytes := str ".chunkdb.intents".

Definition ConditionalIntentDirectory (data_dir : bytes) : bytes := subdir data_dir kConditionalIntentDirName.

(** The WAL's path below the data directory with its separator as two
    underscores, and a suffix. *)
Definition ConditionalIntentPathForWal (data_dir : bytes) (g : Geometry) (c : ChunkCoord) : path :=
  (ConditionalIntentDirectory data_dir, LargeName g c ++ str "__" ++ filename (ChunkWalPath data_dir g c) ++ str ".rollback").

(** ** The record *)

Inductive TxnIntentState := kRollback | kCommitted.
#[global] Instance TxnIntentState_eq_dec : EqDecision TxnIntentState.
Proof. solve_decision. Defined.

(** [wal_boundary]: the WAL's size before the transaction; zero means it had no WAL. *)
Record TxnIntentEntry := { entry_coord : ChunkCoord; wal_boundary : Z }.

Record TxnIntent := { intent_state : TxnIntentState; intent_version : Z; intent_entries : list TxnIntentEntry }.

Definition kTxnRollbackMagic : bytes := str "CKTB".
Definition kTxnCommittedMagic : bytes := str "CKTC".
Definition kTxnIntentFixedBytes : Z := 4 + 8 + 4 + 4.
Definition kTxnIntentEntryBytes : Z := 24.
Definition kMaxTxnWrittenChunks : Z := 64.
Definition kTxnIntentPrefix : bytes := str "txn-".
Definition kTxnIntentSuffix : bytes := str ".rollback".

Definition SerializeEntry (e : TxnIntentEntry) : bytes :=
  WriteLe64 (u64 (cx (entry_coord e))) ++ WriteLe64 (u64 (cy (entry_coord e))) ++ WriteLe64 (wal_boundary e).

Definition SerializeTxnIntent (i : TxnIntent) : bytes :=
  let magic := match intent_state i with kRollback => kTxnRollbackMagic | kCommitted => kTxnCommittedMagic end in
  let bytes := magic ++ WriteLe64 (intent_version i) ++ WriteLe32 (u32 (len (intent_entries i))) ++ concat (map SerializeEntry (intent_entries i)) in
  bytes ++ WriteLe32 (Crc32.Crc32 bytes).

Definition ReadEntry (bytes : bytes) (i : Z) : TxnIntentEntry :=
  let at_ := 16 + kTxnIntentEntryBytes * i in
  {| entry_coord := {| cx := i64 (ReadLe64 bytes at_); cy := i64 (ReadLe64 bytes (at_ + 8)) |};
     wal_boundary := ReadLe64 bytes (at_ + 16) |}.

Definition TryParseTxnIntent (bytes : bytes) : option TxnIntent :=
  if len bytes <? kTxnIntentFixedBytes then None
  else
    let count := ReadLe32 bytes 12 in
    if (count =? 0) || (kMaxTxnWrittenChunks <? count) || negb (len bytes =? kTxnIntentFixedBytes + kTxnIntentEntryBytes * count) ||
       negb (ReadLe32 bytes (len bytes - 4) =? Crc32.Crc32 (take (Z.to_nat (len bytes - 4)) bytes))
    then None
    else
      let intent state := Some {| intent_state := state; intent_version := ReadLe64 bytes 4;
                                  intent_entries := map (ReadEntry bytes) (seqZ 0 count) |} in
      if bool_decide (take 4 bytes = kTxnRollbackMagic) then intent kRollback
      else if bool_decide (take 4 bytes = kTxnCommittedMagic) then intent kCommitted
      else None.

Definition TxnIntentName (version : Z) : bytes := kTxnIntentPrefix ++ to_string version ++ kTxnIntentSuffix.

Definition TxnIntentPath (data_dir : bytes) (version : Z) : path := (ConditionalIntentDirectory data_dir, TxnIntentName version).

(** The part of a name between the prefix and the suffix. *)
Definition name_digits (name : bytes) : bytes :=
  take (length name - length kTxnIntentPrefix - length kTxnIntentSuffix) (drop (length kTxnIntentPrefix) name).

Definition IsTxnIntentFileName (name : bytes) : bool :=
  if (length name <=? length kTxnIntentPrefix + length kTxnIntentSuffix)%nat || negb (starts_with name kTxnIntentPrefix) ||
     negb (ends_with name kTxnIntentSuffix)
  then false
  else forallb is_digit (name_digits name).

Definition IsTxnIntentArtifactName (name : bytes) : bool := starts_with name kTxnIntentPrefix.

(** The boundary a read-only load stops at: the smallest one the pending
    rollback intents record for the chunk. *)
Definition EntryBoundary (coord : ChunkCoord) (boundary : option Z) (e : TxnIntentEntry) : option Z :=
  if bool_decide (entry_coord e = coord) then Some (Z.min (default (wal_boundary e) boundary) (wal_boundary e)) else boundary.

Definition TxnRollbackBoundaryForChunk (intents : list bytes) (coord : ChunkCoord) : res (option Z) :=
  fold_res (fun boundary bytes =>
      match TryParseTxnIntent bytes with
      | None => Err (runtime_error "read-only chunk snapshot contains a malformed transaction intent")
      | Some i =>
          match intent_state i with
          | kCommitted => Ok boundary
          | kRollback => Ok (fold_left (EntryBoundary coord) (intent_entries i) boundary)
          end
      end) None intents.

(** ** Records read back *)

Definition entry_ok (e : TxnIntentEntry) : Prop := in_i 64 (cx (entry_coord e)) /\ in_i 64 (cy (entry_coord e)) /\ in_u 64 (wal_boundary e).

Definition intent_ok (i : TxnIntent) : Prop :=
  in_u 64 (intent_version i) /\ 0 < len (intent_entries i) <= kMaxTxnWrittenChunks /\ Forall entry_ok (intent_entries i).

Lemma SerializeEntry_bytes e : SerializeEntry e = le_bytes 8 (u64 (cx (entry_coord e))) ++ le_bytes 8 (u64 (cy (entry_coord e))) ++ le_bytes 8 (wal_boundary e).
Proof. unfold SerializeEntry. by rewrite !WriteLe64_bytes. Qed.

Lemma len_SerializeEntry e : len (SerializeEntry e) = 24.
Proof. rewrite SerializeEntry_bytes, !length_app, !length_le_bytes. done. Qed.

Lemma bytes_ok_SerializeEntry e : bytes_ok (SerializeEntry e).
Proof. rewrite SerializeEntry_bytes. repeat (apply bytes_ok_app; split); apply bytes_ok_le_bytes. Qed.

Lemma len_intent_entries es : len (concat (map SerializeEntry es)) = 24 * len es.
Proof.
  induction es as [|e es IH]; [done|]. cbn [map concat]. rewrite length_app. pose proof (len_SerializeEntry e).
  change (length (e :: es)) with (S (length es)). lia.
Qed.

Lemma ReadIntentEntry_at pre e post i : entry_ok e -> len pre = 16 + 24 * i -> 0 <= i -> ReadEntry (pre ++ SerializeEntry e ++ post) i = e.
Proof.
  intros (Hx & Hy & Hb) Hp Hi. unfold ReadEntry, kTxnIntentEntryBytes. rewrite SerializeEntry_bytes, <- Hp.
  set (a := le_bytes 8 (u64 (cx (entry_coord e)))). set (b := le_bytes 8 (u64 (cy (entry_coord e)))). set (c := le_bytes 8 (wal_boundary e)).
  assert (len a = 8 /\ len b = 8 /\ len c = 8) as (La & Lb & Lc) by (subst a b c; rewrite !length_le_bytes; done).
  assert (len (pre ++ (a ++ b ++ c) ++ post) = len pre + 24 + len post) as Hl by (rewrite !length_app; lia).
  assert (forall x, in_u 64 (u64 x)) as Hu by (intros x; apply wrap_bound; lia).
  rewrite (ReadLe64_at _ (len pre) (u64 (cx (entry_coord e)))); [|lia|lia|apply Hu|].
  2: { rewrite <- !app_assoc. by apply slice_app. }
  rewrite (ReadLe64_at _ (len pre + 8) (u64 (cy (entry_coord e)))); [|lia|lia|apply Hu|].
  2: { replace (pre ++ (a ++ b ++ c) ++ post) with ((pre ++ a) ++ b ++ c ++ post) by (by rewrite <- !app_assoc). apply slice_app; [rewrite length_app; lia|done]. }
  rewrite (ReadLe64_at _ (len pre + 16) (wal_boundary e)); [|lia|lia|done|].
  2: { replace (pre ++ (a ++ b ++ c) ++ post) with ((pre ++ a ++ b) ++ c ++ post) by (by rewrite <- !app_assoc). apply slice_app; [rewrite !length_app; lia|done]. }
  rewrite !signed_wrap by (done || lia). by destruct e as [[x y] w].
Qed.

Lemma ReadEntries_at es : forall pre post k, Forall entry_ok es -> len pre = 16 + 24 * k -> 0 <= k ->
  map (ReadEntry (pre ++ concat (map SerializeEntry es) ++ post)) (seqZ k (len es)) = es.
Proof.
  induction es as [|e es IH]; intros pre post k Hes Hp Hk; [done|]. inversion Hes as [|? ? He Hes']; subst.
  change (len (e :: es)) with (Z.of_nat (S (length es))). rewrite Nat2Z.inj_succ, seqZ_cons by lia. cbn [map concat]. f_equal.
  - rewrite <- app_assoc. by apply ReadIntentEntry_at.
  - replace (Z.pred (Z.succ (len es))) with (len es) by lia.
    replace (pre ++ (SerializeEntry e ++ concat (map SerializeEntry es)) ++ post)
      with ((pre ++ SerializeEntry e) ++ concat (map SerializeEntry es) ++ post) by (by rewrite <- !app_assoc).
    apply IH; [done|rewrite length_app; pose proof (len_SerializeEntry e); lia|lia].
Qed.

Lemma txn_intent_roundtrip i : intent_ok i -> TryParseTxnIntent (SerializeTxnIntent i) = Some i.
Proof.
  intros (Hv & Hc & He). unfold kMaxTxnWrittenChunks in Hc. destruct i as [st v es]. cbn [intent_state intent_version intent_entries] in Hv, Hc, He. unfold SerializeTxnIntent. cbn [intent_state intent_version intent_entries]. cbv zeta.
  rewrite WriteLe64_bytes, !WriteLe32_bytes, (wrap_small 32 (len es)) by (unfold in_u; lia).
  set (magic := match st with kRollback => _ | kCommitted => _ end). assert (len magic = 4) as Hm by (by destruct st).
  assert (bytes_ok magic) as Hmb by (destruct st; apply (bool_decide_unpack _); vm_compute; exact I).
  set (body := concat (map SerializeEntry es)). assert (len body = 24 * len es) as Hb by apply len_intent_entries.
  set (head := magic ++ le_bytes 8 v ++ le_bytes 4 (len es) ++ body).
  assert (len head = 16 + 24 * len es) as Hh by (subst head; rewrite !length_app, !length_le_bytes; lia).
  assert (bytes_ok head) as Hok.
  { repeat (apply bytes_ok_app; split); [done|apply bytes_ok_le_bytes|apply bytes_ok_le_bytes|].
    subst body. clear. induction es as [|e es IH]; cbn; [constructor|]. apply bytes_ok_app. split; [apply bytes_ok_SerializeEntry|done]. }
  pose proof (Crc32.Crc32_bound head Hok) as Hcrc. set (crc := Crc32.Crc32 head) in *.
  assert (len (head ++ le_bytes 4 crc) = 20 + 24 * len es) as Hl by (rewrite length_app, length_le_bytes; lia).
  unfold TryParseTxnIntent. rewrite Hl. unfold kTxnIntentFixedBytes, kMaxTxnWrittenChunks.
  destruct (Z.ltb_spec (20 + 24 * len es) (4 + 8 + 4 + 4)); [lia|].
  assert (head ++ le_bytes 4 crc = (magic ++ le_bytes 8 v) ++ le_bytes 4 (len es) ++ body ++ le_bytes 4 crc) as E1 by (subst head; by rewrite <- !app_assoc).
  assert (ReadLe32 (head ++ le_bytes 4 crc) 12 = len es) as Ec.
  { apply ReadLe32_at; [lia|lia|unfold in_u; lia|]. rewrite E1. apply slice_app; [rewrite length_app, length_le_bytes; lia|by rewrite length_le_bytes]. }
  rewrite Ec. destruct (Z.eqb_spec (len es) 0); [lia|]. destruct (Z.ltb_spec 64 (len es)); [lia|].
  unfold kTxnIntentEntryBytes at 1. replace (20 + 24 * len es =? 4 + 8 + 4 + 4 + 24 * len es) with true by (symmetry; lia).
  rewrite (ReadLe32_at _ (20 + 24 * len es - 4) crc); [|lia|lia|done|].
  2: { replace (20 + 24 * len es - 4) with (len head) by lia. by rewrite slice_app_end. }
  rewrite take_app_length' by lia. fold crc. rewrite Z.eqb_refl. cbn [orb negb].
  rewrite (ReadLe64_at _ 4 v); [|lia|lia|done|].
  2: { subst head. rewrite <- !app_assoc. apply slice_app; [done|by rewrite length_le_bytes]. }
  replace (head ++ le_bytes 4 crc) with ((magic ++ le_bytes 8 v ++ le_bytes 4 (len es)) ++ body ++ le_bytes 4 crc) by (subst head; by rewrite <- !app_assoc).
  rewrite (ReadEntries_at es _ _ 0); [|done|rewrite !length_app, !length_le_bytes; lia|lia].
  assert (take 4 ((magic ++ le_bytes 8 v ++ le_bytes 4 (len es)) ++ body ++ le_bytes 4 crc) = magic) as ->.
  { rewrite <- app_assoc. apply take_app_length'. lia. }
  subst magic. destruct st; by repeat case_bool_decide.
Qed.

(** ** Names *)

Lemma not_digit_46 : is_digit 46 = false. Proof. done. Qed.

Lemma name_digits_name v : name_digits (TxnIntentName v) = to_string v.
Proof.
  unfold name_digits, TxnIntentName. rewrite drop_app_length, !length_app. apply take_app_length'. lia.
Qed.

Lemma IsTxnIntentFileName_name v : 0 <= v -> IsTxnIntentFileName (TxnIntentName v) = true.
Proof.
  intros Hv. unfold IsTxnIntentFileName. rewrite name_digits_name. pose proof (digits_nonempty v Hv) as Hne.
  rewrite (to_string_nonneg v) in * by done. unfold TxnIntentName. rewrite to_string_nonneg by done.
  rewrite starts_with_app, (app_assoc kTxnIntentPrefix), ends_with_app.
  rewrite (proj2 (Nat.leb_gt _ _)); [|rewrite !length_app; destruct (digits v); [done|cbn [length]; lia]].
  cbn. apply forallb_forall. intros c Hc. by apply (proj1 (List.Forall_forall _ _) (digits_are_digits v Hv)).
Qed.

Lemma IsTxnIntentArtifactName_name v : IsTxnIntentArtifactName (TxnIntentName v) = true.
Proof. apply starts_with_app. Qed.

Lemma TxnIntentName_inj v w : TxnIntentName v = TxnIntentName w -> v = w.
Proof. intros H%app_inv_head. by apply to_string_app in H as [? _]. Qed.

(** The name of a temporary file contains .tmp., the name of an intent does not. *)
Lemma find_none_app l s c p : Forall (fun x => x <> c) l -> find (l ++ s) (c :: p) = (fun n => (length l + n)%nat) <$> find s (c :: p).
Proof.
  intros Hl. induction Hl as [|x l Hx Hl IH]; cbn [app length].
  - by destruct (find s (c :: p)).
  - cbn [find]. assert (starts_with (x :: l ++ s) (c :: p) = false) as ->.
    { unfold starts_with. cbn [length take]. apply bool_decide_eq_false. congruence. }
    rewrite IH. by destruct (find s (c :: p)).
Qed.

Lemma name_not_tmp v : 0 <= v -> find (TxnIntentName v) (str ".tmp.") = None.
Proof.
  intros Hv. unfold TxnIntentName. rewrite to_string_nonneg by done. rewrite app_assoc.
  change (str ".tmp.") with (46 :: str "tmp."). rewrite find_none_app; [done|]. apply Forall_app. split.
  - apply (bool_decide_unpack _). vm_compute. exact I.
  - eapply Forall_impl; [by apply digits_are_digits|]. intros c Hc ->. done.
Qed.

(** A file name that is an intent's is no temporary file's. *)
Lemma IsTxnIntentFileName_shape n : IsTxnIntentFileName n = true -> n = kTxnIntentPrefix ++ name_digits n ++ kTxnIntentSuffix /\ Forall (fun c => is_digit c = true) (name_digits n).
Proof.
  unfold IsTxnIntentFileName. destruct (_ || _) eqn:E; [done|]. intros H. apply orb_false_iff in E as [E E3]. apply orb_false_iff in E as [E1 E2].
  apply Nat.leb_gt in E1. apply negb_false_iff in E2, E3. unfold starts_with in E2. unfold ends_with in E3. apply bool_decide_eq_true in E2.
  apply andb_prop in E3 as [_ E3]. apply bool_decide_eq_true in E3.
  split; [|apply List.Forall_forall; by apply forallb_forall].
  unfold name_digits. rewrite <- E2 at 1. rewrite <- E3 at 2. rewrite <- (take_drop (length kTxnIntentPrefix) n) at 1. f_equal.
  rewrite <- (take_drop (length n - length kTxnIntentPrefix - length kTxnIntentSuffix) (drop (length kTxnIntentPrefix) n)) at 1. f_equal.
  rewrite drop_drop. f_equal. lia.
Qed.

Lemma file_name_artifact n : IsTxnIntentFileName n = true -> IsTxnIntentArtifactName n = true /\ find n (str ".tmp.") = None.
Proof.
  intros H. apply IsTxnIntentFileName_shape in H as [En Hd]. rewrite En. split; [apply starts_with_app|].
  rewrite app_assoc. change (str ".tmp.") with (46 :: str "tmp."). rewrite find_none_app; [done|]. apply Forall_app. split.
  - apply (bool_decide_unpack _). vm_compute. exact I.
  - eapply Forall_impl; [exact Hd|]. intros c Hc ->. done.
Qed.

Lemma find_some_app a p b : find (a ++ p ++ b) p <> None.
Proof.
  induction a as [|x a IH].
  - change ([] ++ p ++ b) with (p ++ b). destruct (p ++ b) eqn:E; cbn [find]; rewrite <- E, starts_with_app; done.
  - change ((x :: a) ++ p ++ b) with (x :: (a ++ p ++ b)). cbn [find]. destruct (starts_with _ _); [done|]. by destruct (find (a ++ p ++ b) p).
Qed.

Lemma starts_with_spec l p : starts_with l p = true -> l = p ++ drop (length p) l.
Proof. unfold starts_with. rewrite bool_decide_eq_true. intros H. rewrite <- H at 1. by rewrite take_drop. Qed.

(** Different chunks have different WALs, outside the intent directory. *)
Lemma ChunkWalPath_inj dir g a b : ChunkWalPath dir g a = ChunkWalPath dir g b -> a = b.
Proof.
  intros [= _ H]. cbn in H. apply to_string_app in H as [Hx H]; [|done]. injection H as H. apply to_string_app in H as [Hy _]; [|done].
  destruct a, b; cbn in *; by subst.
Qed.

Lemma ChunkWalPath_dir dir g c : parent_path (ChunkWalPath dir g c) <> ConditionalIntentDirectory dir.
Proof. cbn. unfold LargeChunkDirectory, ConditionalIntentDirectory, subdir. intros H%app_inv_head. by injection H. Qed.

(** *** The files of a chunk that a transaction leaves alone *)

Lemma data_not_wal dir g c c' sfx : filename (ChunkDataPath dir g c) <> filename (ChunkWalPath dir g c') ++ sfx.
Proof.
  cbn [filename snd ChunkDataPath ChunkWalPath]. intros H. rewrite <- !app_assoc in H. apply app_inv_head in H.
  apply to_string_app in H as [_ H]; [|done]. apply app_inv_head in H. apply to_string_app in H as [_ H]; [|done]. discriminate H.
Qed.

Lemma ChunkDataPath_dir dir g c : parent_path (ChunkDataPath dir g c) <> ConditionalIntentDirectory dir.
Proof. exact (ChunkWalPath_dir dir g c). Qed.

Lemma conditional_not_txn dir g c v sfx : filename (ConditionalIntentPathForWal dir g c) <> TxnIntentName v ++ sfx.
Proof. unfold ConditionalIntentPathForWal, TxnIntentName, LargeName. cbn. intros H. discriminate H. Qed.

End TxnIntent.
