(* ===== verification/ConditionalIntent.v ===== *)
(** * Conditional intents (src/src/conditional_intent.cpp)

    The record a conditional chunk write publishes before it touches the WAL of
    its chunk: the size the WAL goes back to, or that the write is committed. *)
From stdpp Require Import prelude strings gmap.
From Stdlib Require Import ZArith Lia.
From S2P Require Import Prelude Bits Crc32 Geometry LittleEndian Text Files TxnIntent.

#[local] Open Scope Z_scope.

Module ConditionalIntent.
Import Geometry LittleEndian Text Files.

Inductive ConditionalIntentState := kRollback | kCommitted.
#[global] Instance ConditionalIntentState_eq_dec : EqDecision ConditionalIntentState.
Proof. solve_decision. Defined.

Definition kRollbackIntentMagic : bytes := str "CKRB".
Definition kCommittedIntentMagic : bytes := str "CKRC".
Definition kRollbackIntentRecordSize : Z := 16.
Definition kRollbackIntentSuffix : bytes := str ".rollback".

Definition SerializeConditionalIntent (state : ConditionalIntentState) (committed_wal_size : Z) : bytes :=
  let bytes := (match state with kRollback => kRollbackIntentMagic | kCommitted => kCommittedIntentMagic end) ++ WriteLe64 committed_wal_size in
  bytes ++ WriteLe32 (Crc32.Crc32 bytes).

Definition TryParseIntent (bytes : bytes) : option (ConditionalIntentState * Z) :=
  if negb (len bytes =? kRollbackIntentRecordSize) || negb (ReadLe32 bytes 12 =? Crc32.Crc32 (take 12 bytes)) then None
  else if bool_decide (take 4 bytes = kRollbackIntentMagic) then Some (kRollback, ReadLe64 bytes 4)
  else if bool_decide (take 4 bytes = kCommittedIntentMagic) then Some (kCommitted, ReadLe64 bytes 4)
  else None.

Definition TryParseConditionalIntent (bytes : bytes) : option (ConditionalIntentState * Z) := TryParseIntent bytes.

Definition TryParseConditionalRollbackIntent (bytes : bytes) : option Z :=
  match TryParseIntent bytes with Some (kRollback, size) => Some size | _ => None end.

Lemma conditional_intent_roundtrip state size : in_u 64 size -> TryParseIntent (SerializeConditionalIntent state size) = Some (state, size).
Proof.
  intros Hs. unfold SerializeConditionalIntent. rewrite WriteLe64_bytes, WriteLe32_bytes.
  set (magic := match state with kRollback => _ | kCommitted => _ end). assert (len magic = 4) as Hm by (by destruct state).
  assert (bytes_ok magic) as Hmb by (destruct state; apply (bool_decide_unpack _); vm_compute; exact I).
  set (head := magic ++ le_bytes 8 size). assert (len head = 12) as Hh by (subst head; rewrite length_app, length_le_bytes; lia).
  assert (bytes_ok head) as Hok by (apply bytes_ok_app; split; [done|apply bytes_ok_le_bytes]).
  pose proof (Crc32.Crc32_bound head Hok) as Hcrc. set (crc := Crc32.Crc32 head) in *.
  assert (len (head ++ le_bytes 4 crc) = 16) as Hl by (rewrite length_app, length_le_bytes; lia).
  unfold TryParseIntent, kRollbackIntentRecordSize. rewrite Hl. cbn [Z.eqb negb orb Pos.eqb].
  rewrite (ReadLe32_at _ 12 crc); [|lia|lia|done|by rewrite <- Hh, slice_app_end by (done || by rewrite length_le_bytes)].
  rewrite take_app_length' by lia. fold crc. rewrite Z.eqb_refl. cbn [negb].
  rewrite (ReadLe64_at _ 4 size); [|lia|lia|done|]. 2: { subst head. rewrite <- app_assoc. apply slice_app; [done|by rewrite length_le_bytes]. }
  assert (take 4 (head ++ le_bytes 4 crc) = magic) as -> by (subst head; rewrite <- app_assoc; apply take_app_length'; lia).
  subst magic. destruct state; [by rewrite bool_decide_true|]. rewrite bool_decide_false by (intros E; discriminate E). by rewrite bool_decide_true.
Qed.

End ConditionalIntent.
