(* ===== verification/TxnCommit.v ===== *)
(** * Committing a transaction to the WALs of several chunks
      (src/src/txn_commit.cpp, src/src/txn_intent.cpp)

    A commit publishes an intent that records how long each WAL is, appends one
    frame to each of them, and replaces the intent by its commit form: that
    rename is the commit point.  A start cuts the WALs of an intent that is not
    committed.  Failures and crashes are those of [Files]. *)
From stdpp Require Import prelude strings gmap sorting.
From Stdlib Require Import ZArith Lia.
From S2P Require Import Prelude Bits Crc32 Geometry LittleEndian Text Files TxnIntent.

#[local] Open Scope Z_scope.

Module TxnCommit.
Import Geometry Text Files TxnIntent.

(** ** Recovery *)

Section Store.
Context (data_dir : bytes) (g : Geometry).
Context (current_pid : Z) (IsProcessAlive : Z -> bool) (TmpArtifactAgeMs : path -> Z) (barrier_durability_floor : bool).

Abbreviation intent_dir := (ConditionalIntentDirectory data_dir).
Abbreviation wal_path := (ChunkWalPath data_dir g).

Definition lift {A} (r : res A) : io A := match r with Ok a => mret a | Err e => throw e end.

(** The names of the intent directory: the intents with their versions, and the
    intents of which a crash left a temporary file.  The loop skips an entry that
    is not a regular file; a disk of the model has no others. *)
Definition Classify (acc : list (Z * bytes) * list bytes) (name : bytes) : res (list (Z * bytes) * list bytes) :=
  let '(intents, interrupted) := acc in
  if negb (IsTxnIntentArtifactName name) then Ok acc
  else match find name (str ".tmp.") with
       | Some tmp => Ok (intents, interrupted ++ [take tmp name])
       | None =>
           _ ← throw_if (negb (IsTxnIntentFileName name)) (runtime_error "unexpected transaction intent file");
           match TryParseUint64 (name_digits name) with
           | None => Err (runtime_error "unexpected transaction intent file")
           | Some version => Ok (intents ++ [(version, name)], interrupted)
           end
       end.

(** The order of std::sort: by version, then by name. *)
Fixpoint lex_le (a b : bytes) : bool :=
  match a, b with
  | [], _ => true
  | _, [] => false
  | x :: a', y :: b' => if x <? y then true else if y <? x then false else lex_le a' b'
  end.

Definition intent_le (a b : Z * bytes) : Prop := Is_true ((a.1 <? b.1) || ((a.1 =? b.1) && lex_le a.2 b.2)).
#[global] Instance intent_le_dec : RelDecision intent_le.
Proof. intros a b. unfold intent_le. apply _. Defined.

Definition LoadIntent (i : Z * bytes) : io TxnIntent :=
  b ← LoadFile (intent_dir, i.2);
  match TryParseTxnIntent b with
  | Some intent => if intent_version intent =? i.1 then mret intent else throw (runtime_error "invalid transaction intent")
  | None => throw (runtime_error "invalid transaction intent")
  end.

(** The WAL goes back to the boundary, durably. *)
Definition RollBackWal (e : TxnIntentEntry) : io unit :=
  let wal := wal_path (entry_coord e) in
  present ← exists_ wal (runtime_error "failed to inspect WAL");
  if negb present then
    _ ← throw_when (negb (wal_boundary e =? 0)) (runtime_error "WAL required by transaction intent is missing");
    parent ← directory_exists (parent_path wal) (runtime_error "failed to inspect the directory of a WAL");
    if parent : bool then SyncDirectoryPath (parent_path wal) else mret tt
  else
    size ← file_size wal (runtime_error "failed to inspect WAL size");
    _ ← throw_when (size <? wal_boundary e) (runtime_error "WAL is shorter than the boundary transaction intent records");
    if wal_boundary e =? 0 then
      _ ← checked (remove wal) (runtime_error "failed to remove WAL of an uncommitted transaction");
      SyncDirectoryPath (parent_path wal)
    else
      _ ← (if negb (size =? wal_boundary e)
           then checked (atomic_call (resize wal (Z.to_nat (wal_boundary e)))) (runtime_error "failed to truncate WAL of an uncommitted transaction")
           else mret tt);
      SyncFilePath wal.

Definition RecoverIntent (i : (Z * bytes) * TxnIntent) : io unit :=
  let '((_, name), intent) := i in
  _ ← match intent_state intent with
      | kRollback => for_each (intent_entries intent) RollBackWal
      | kCommitted => mret tt
      end;
  _ ← checked (remove (intent_dir, name)) (runtime_error "failed to remove transaction intent");
  SyncDirectoryPath intent_dir.

Definition RecoverTransactionIntents : io unit :=
  _ ← may_fail (runtime_error "failed to inspect intent directory");
  found ← ask (listing intent_dir);
  '(intents, interrupted) ← lift (fold_res Classify ([], []) found);
  let intents := merge_sort intent_le intents in
  parsed ← map_io LoadIntent intents;
  _ ← for_each (zip intents parsed) RecoverIntent;
  for_each interrupted (fun name => CleanupAtomicTmpArtifacts current_pid IsProcessAlive TmpArtifactAgeMs (intent_dir, name)).

(** ** The commit *)

(** What a commit appends to one WAL: the frame, after the WAL's header when the
    WAL is new. *)
Record Change := { change_coord : ChunkCoord; boundary : Z; new_wal : bool; frame_bytes : bytes }.

(** The stream is opened, which makes the WAL when it is new; a directory that
    has been removed is prepared again. *)
Definition OpenFrameStream (c : Change) : io unit :=
  let open := atomic_call (create (wal_path (change_coord c))) in
  _ ← (if new_wal c then may_fail (runtime_error "failed to prepare the WAL directory") else mret tt);
  ec ← open;
  if ec =? 0 then mret tt
  else if new_wal c then
    _ ← may_fail (runtime_error "failed to prepare the WAL directory");
    checked open (runtime_error "failed to open WAL file for append")
  else throw (runtime_error "failed to open WAL file for append").

Definition WriteFrame (c : Change) : io unit :=
  let wal := wal_path (change_coord c) in
  _ ← checked (write_all wal (frame_bytes c)) (runtime_error "failed to append a transaction frame to WAL");
  _ ← may_fail (runtime_error "failed to close WAL after a transaction frame");
  _ ← SyncFilePath wal;
  if new_wal c then SyncDirectoryPath (parent_path wal) else mret tt.

Definition AppendTxnFrameLocked (c : Change) : io unit := _ ← OpenFrameStream c; WriteFrame c.

(** [tmp]: the temporary name a WAL with other links is replaced through. *)
Definition TruncateWalTail (tmp : bytes) (coord : ChunkCoord) (committed_size : Z) (force_sync : bool) : io unit :=
  let wal := wal_path coord in
  _ ← may_fail (runtime_error "snapshot generation");
  present ← exists_ wal (runtime_error "failed to stat WAL during rollback");
  _ ← (if negb present then mret tt
       else if committed_size =? 0 then
         _ ← checked (remove wal) (runtime_error "failed to remove WAL during rollback");
         if force_sync then SyncDirectoryPath (parent_path wal) else mret tt
       else
         _ ← ResizeWalPreservingLinks (BuildAtomicTmpPath wal tmp) wal committed_size (force_sync || barrier_durability_floor);
         if force_sync then SyncFilePath wal else mret tt);
  may_fail (runtime_error "snapshot generation").

Section Commit.
Context (version : Z) (changes : list Change) (suffix1 suffix2 : bytes) (suffix3 : ChunkCoord -> bytes).

Definition intent_path : path := TxnIntentPath data_dir version.

Definition intent_of (state : TxnIntentState) : TxnIntent :=
  {| intent_state := state; intent_version := version;
     intent_entries := map (fun c => {| entry_coord := change_coord c; wal_boundary := boundary c |}) changes |}.

Definition rollback_record : bytes := SerializeTxnIntent (intent_of kRollback).
Definition commit_record : bytes := SerializeTxnIntent (intent_of kCommitted).

Definition RemoveIntent : io unit :=
  there ← ask (fun d => bool_decide (is_Some (names d !! intent_path)));
  ec ← remove intent_path;
  _ ← throw_when (negb there || negb (ec =? 0)) (runtime_error "failed to remove transaction intent");
  SyncDirectoryPath intent_dir.

(** The frames, in order; the changes whose append was started, and the error. *)
Fixpoint AppendFrames (todo started : list Change) : io (list Change * option exn) :=
  r ← attempt (may_fail (runtime_error "injected failure of transaction frames"));
  match r, todo with
  | inr e, _ => mret (started, Some e)
  | inl _, [] => mret (started, None)
  | inl _, c :: todo' =>
      r ← attempt (AppendTxnFrameLocked c);
      match r with
      | inr e => mret (started ++ [c], Some e)
      | inl _ => AppendFrames todo' (started ++ [c])
      end
  end.

(** How CommitTransaction ends once the chunks are locked and the version is
    taken: it returns; it throws that the outcome is unknown; it throws the error
    [e], with the table fail-closed or not. *)
Inductive CommitOutcome :=
| Applied
| OutcomeUnknown
| NotApplied (e : exn) (fail_closed : bool).

(** Before the commit point: the WALs go back, then the intent goes. *)
Definition GoBack (started : list Change) (e : exn) : io CommitOutcome :=
  r ← attempt (
    _ ← for_each started (fun c => TruncateWalTail (suffix3 (change_coord c)) (change_coord c) (boundary c) true);
    RemoveIntent);
  match r with
  | inl _ => mret (NotApplied e false)
  | inr _ => mret (NotApplied e true)
  end.

Definition CommitFiles : io CommitOutcome :=
  r ← attempt (may_fail (runtime_error "failed to inspect directory path"));
  match r with
  | inr e => mret (NotApplied e false)
  | inl _ =>
      '(intent_visible, error) ← AtomicWrite (BuildAtomicTmpPath intent_path suffix1) intent_path rollback_record true true;
      match error with
      | Some e =>
          if intent_visible : bool then
            r ← attempt RemoveIntent;
            match r with inl _ => mret (NotApplied e false) | inr _ => mret (NotApplied e true) end
          else mret (NotApplied e false)
      | None =>
          '(started, error) ← AppendFrames changes [];
          match error with
          | Some e => GoBack started e
          | None =>
              '(replaced, error) ← AtomicWrite (BuildAtomicTmpPath intent_path suffix2) intent_path commit_record true true;
              match error with
              | Some e =>
                  if replaced : bool then
                    r ← attempt (SyncDirectoryPath intent_dir);
                    match r with
                    | inl _ => _ ← attempt RemoveIntent; mret Applied
                    | inr _ => mret OutcomeUnknown
                    end
                  else GoBack started e
              | None => _ ← attempt RemoveIntent; mret Applied
              end
          end
      end
  end.

End Commit.
End Store.

(** ** The WALs of a commit *)

Section Atomic.
Context (data_dir : bytes) (g : Geometry).
Context (barrier_durability_floor : bool).
Context (version : Z) (changes : list Change) (suffix1 suffix2 : bytes) (suffix3 : ChunkCoord -> bytes).
(** What each WAL holds before the commit; a WAL without bytes may be missing. *)
Context (old : Change -> bytes).

Abbreviation intent_dir := (ConditionalIntentDirectory data_dir).
Abbreviation ip := (intent_path data_dir version).
Definition wal (c : Change) : path := ChunkWalPath data_dir g (change_coord c).

Definition is_old (c : Change) (x : option bytes) : Prop := default [] x = old c.
Definition is_new (c : Change) (x : option bytes) : Prop := x = Some (old c ++ frame_bytes c).
(** What recovery can cut back to the old bytes. *)
Definition is_loose (c : Change) (x : option bytes) : Prop := old c = [] \/ exists y, x = Some (old c ++ y).

(** A WAL with bytes keeps its directory entry, and no WAL has other links. *)
Record wal_state (S : Change -> option bytes -> Prop) (d : disk) (c : Change) : Prop := {
  ws_holds : holds d (wal c) (S c);
  ws_pinned : old c <> [] -> olders d (wal c) = [];
  ws_links : forall f, Some f ∈ candidates d (wal c) -> links f <= 1
}.

Lemma old_loose c x : is_old c x -> is_loose c x.
Proof. unfold is_old, is_loose. destruct x as [b|]; cbn; intros <-; [right; exists []; by rewrite app_nil_r|by left]. Qed.

Lemma new_loose c x : is_new c x -> is_loose c x.
Proof. intros ->. right. by eexists. Qed.

Lemma wal_state_mono (S S' : Change -> option bytes -> Prop) d c : (forall x, S c x -> S' c x) -> wal_state S d c -> wal_state S' d c.
Proof. intros H [H1 H2 H3]. split; [|done|done]. by eapply holds_mono. Qed.

Lemma wal_state_frame S T d d' c : frame T d d' -> wal c ∉ T -> wal_state S d c -> wal_state S d' c.
Proof.
  intros F Hc [H1 H2 H3]. split.
  - by apply (holds_frame T d d').
  - intros Ho. by apply (olders_frame T d d'); [| |apply H2].
  - intros f Hf. apply H3. destruct (F _ Hc) as [En Eo]. unfold candidates in *. rewrite En in Hf. apply elem_of_cons.
    apply elem_of_cons in Hf as [Hf|Hf]; [by left|right]. destruct Eo as [<-|Eo]; [done|]. rewrite Eo in Hf. by apply elem_of_nil in Hf.
Qed.

Lemma wal_state_crashed S d d' c : crashed d d' -> wal_state S d c -> wal_state S d' c.
Proof.
  intros Hc [H1 H2 H3]. assert (olders d' (wal c) = []) as Ho by (unfold olders; by rewrite (crashed_older _ _ Hc), lookup_empty).
  split; [by eapply holds_crashed|done|]. intros f Hf. unfold candidates in Hf. rewrite Ho in Hf. apply list_elem_of_singleton in Hf.
  destruct (crashed_names _ _ Hc (wal c)) as (x & Hx & Hm). rewrite <- Hf in Hm. destruct x as [f0|]; [|done]. destruct Hm as (_ & _ & ->). by apply H3.
Qed.

(** Changes of the file in place. *)
Lemma wal_state_set_file (S S' : Change -> option bytes -> Prop) d c f f' : wal_state S d c -> names d !! wal c = Some f -> links f' = links f ->
  holds (set_file (wal c) f' d) (wal c) (S' c) -> wal_state S' (set_file (wal c) f' d) c.
Proof.
  intros [H1 H2 H3] Ef El Hh. split; [done|done|]. intros f0 Hf. unfold candidates, set_file in Hf. cbn [names] in Hf. rewrite lookup_insert_eq in Hf.
  apply elem_of_cons in Hf as [[= ->]|Hf].
  - rewrite El. apply H3. unfold candidates. rewrite Ef. by left.
  - apply H3. unfold candidates. by right.
Qed.

Lemma loose_closed c x y : is_loose c (Some x) -> is_loose c (Some (x ++ y)).
Proof. intros [H|[z [= ->]]]; [by left|]. right. exists (z ++ y). by rewrite app_assoc. Qed.

Lemma loose_absent d c : wal_state is_loose d c -> names d !! wal c = None -> old c = [].
Proof. intros [H _ _] En. apply holds_content in H. rewrite (content_none _ _ En) in H. by destruct H as [H|[y ?]]. Qed.

Lemma loose_create d c : wal_state is_loose d c -> wal_state is_loose (create (wal c) d) c.
Proof.
  intros H. pose proof (loose_absent d c H) as Ha. destruct H as [H1 H2 H3]. unfold create. destruct (names d !! wal c) as [f|] eqn:Ef; [done|].
  specialize (Ha eq_refl). split.
  - apply holds_set_entry; [done|]. intros b _. by left.
  - done.
  - intros f Hf. unfold candidates, olders, set_entry in Hf. cbn [names older] in Hf. rewrite lookup_partial_alter_eq, lookup_insert_eq in Hf. cbn in Hf.
    apply elem_of_cons in Hf as [[= ->]|Hf]; [done|]. by apply H3.
Qed.

Lemma loose_append d c b : wal_state is_loose d c -> wal_state is_loose (append (wal c) b d) c.
Proof.
  intros H. destruct (names d !! wal c) as [f|] eqn:Ef; [|unfold append; by rewrite Ef].
  assert (holds (append (wal c) b d) (wal c) (is_loose c)) as Hh by (apply holds_append; [apply H|apply loose_closed]).
  unfold append in *. rewrite Ef in *. by eapply wal_state_set_file.
Qed.

Lemma wal_state_sync_file S d c : wal_state S d c -> wal_state S (sync_file (wal c) d) c.
Proof.
  intros H. pose proof (holds_sync_file (wal c) d (S c) (ws_holds _ _ _ H)) as Hh. unfold sync_file in *.
  destruct (names d !! wal c) as [f|] eqn:Ef; [|done]. by eapply wal_state_set_file.
Qed.

Lemma wal_state_sync_dir S d c dir : wal_state S d c -> wal_state S (sync_dir dir d) c.
Proof. apply (wal_state_frame S []); [apply frame_sync_dir|apply not_elem_of_nil]. Qed.

Lemma loose_resize d c : wal_state is_loose d c -> wal_state is_loose (resize (wal c) (length (old c)) d) c.
Proof.
  intros H. unfold resize. destruct (names d !! wal c) as [f|] eqn:Ef; [|done]. eapply wal_state_set_file; [done|done|done|].
  apply holds_set_file; [apply H|]. intros b [y ->]. cbn [data kept]. destruct (decide (old c = [])) as [|Hne]; [by left|]. right.
  pose proof (holds_content _ _ _ (ws_holds _ _ _ H)) as Hc. rewrite (content_some _ _ _ Ef) in Hc. destruct Hc as [|[z [= Hd]]]; [done|].
  assert (length (old c) <= default (length (data f)) (kept f))%nat as Hk.
  { destruct (kept f) as [k|] eqn:Ek; cbn; [|rewrite Hd, length_app; lia].
    assert (is_loose c (Some (take k (data f)))) as [|[w [= Hw]]]; [|done|].
    - apply (ws_holds _ _ _ H). exists (Some f). split; [rewrite <- Ef; left|]. unfold survives. by rewrite Ek.
    - apply (f_equal length) in Hw. rewrite length_take, length_app in Hw. lia. }
  rewrite Hd, length_app in *. rewrite !Nat.min_r by lia. rewrite take_app_length.
  replace (length (old c) - _)%nat with O by lia. cbn [replicate]. rewrite app_nil_r, firstn_all. by eexists.
Qed.

Lemma loose_unlink d c : old c = [] -> wal_state is_loose d c -> wal_state is_loose (unlink (wal c) d) c.
Proof.
  intros Ho [H1 H2 H3]. unfold unlink. destruct (names d !! wal c) as [f|] eqn:Ef; [|done]. split.
  - apply holds_set_entry; [done|by left].
  - done.
  - intros f0 Hf. unfold candidates, olders, set_entry in Hf. cbn [names older] in Hf. rewrite lookup_partial_alter_eq, lookup_insert_eq in Hf. cbn in Hf.
    apply elem_of_cons in Hf as [[=]|Hf]. by apply H3.
Qed.

(** ** Appending the frames and cutting them off *)

Record setup : Prop := {
  setup_intent : forall s, intent_ok (intent_of version changes s);
  setup_coords : NoDup (map change_coord changes);
  setup_boundary : forall c, c ∈ changes -> boundary c = len (old c);
  setup_new : forall c, c ∈ changes -> boundary c = 0 -> new_wal c = true
}.

Context (Hsetup : setup).

Lemma boundary_zero c : c ∈ changes -> (boundary c =? 0) = bool_decide (old c = []).
Proof.
  intros Hc. rewrite (setup_boundary Hsetup c Hc). destruct (old c) as [|b l]; [done|]. rewrite bool_decide_false by done.
  apply Z.eqb_neq. cbn [length]. lia.
Qed.

Lemma append_file_ok c d f : names d !! wal c = Some f -> data f = old c -> wal_state is_loose d c ->
  let d' := sync_file (wal c) (append (wal c) (frame_bytes c) d) in
  olders d' (wal c) = [] -> wal_state is_new d' c.
Proof.
  intros Ef Hd H d' Ho. destruct (append_file (wal c) (frame_bytes c) d f Ef) as (f' & Ef' & Hd').
  pose proof (sync_file_file (wal c) _ f' Ef') as Es. split; [|done|].
  - eapply holds_settled; [exact Es|done|done|]. cbn [data]. unfold is_new. by rewrite Hd', Hd.
  - apply (ws_links _ _ _ (wal_state_sync_file _ _ _ (loose_append _ _ (frame_bytes c) H))).
Qed.

(** What a failed append leaves: something that can be cut, and the WAL as it
    was when there still is none. *)
Definition partial (c : Change) (d d' : disk) : Prop :=
  frame [wal c] d d' /\ wal_state is_loose d' c /\ (names d' !! wal c = None -> wal_state is_old d' c).

Lemma partial_refl c d : wal_state is_old d c -> partial c d d.
Proof. intros H. split; [apply frame_refl|]. split; [|done]. eapply wal_state_mono; [apply old_loose|done]. Qed.

Lemma partial_present c d d' f : frame [wal c] d d' -> wal_state is_loose d' c -> names d' !! wal c = Some f -> partial c d d'.
Proof. intros F H Ef. split; [done|]. split; [done|]. by rewrite Ef. Qed.

(** The stream is open on a file that holds the old bytes. *)
Lemma opened_ok c d : wal_state is_old d c -> let d1 := create (wal c) d in
  frame [wal c] d d1 /\ wal_state is_loose d1 c /\ (old c <> [] -> d1 = d) /\ exists f, names d1 !! wal c = Some f /\ data f = old c.
Proof.
  intros H d1. assert (wal_state is_loose d c) as Hl by (eapply wal_state_mono; [apply old_loose|done]).
  split; [subst d1; frames|]. split; [by apply loose_create|]. split.
  - intros Hne. apply olders_create. destruct (names d !! wal c) as [f0|] eqn:E0; [done|]. by destruct (Hne (loose_absent d c Hl E0)).
  - destruct (create_file (wal c) d) as (f & Ef & Hf). exists f. split; [done|].
    pose proof (holds_content _ _ _ (ws_holds _ _ _ H)) as Ho. destruct (names d !! wal c) as [f0|] eqn:E0.
    + rewrite (content_some _ _ _ E0) in Ho. rewrite olders_create in Ef by done. rewrite E0 in Ef. injection Ef as <-. done.
    + rewrite (content_none _ _ E0) in Ho. unfold is_old in Ho. cbn in Ho. by destruct (Hf eq_refl) as [-> _].
Qed.

Lemma OpenFrameStream_ok c d : wal_state is_old d c ->
  wp (OpenFrameStream data_dir g c) (fun _ d' => d' = create (wal c) d) (fun _ => partial c d) (partial c d) d.
Proof.
  intros H. pose proof (partial_refl c d H) as Hd. destruct (opened_ok c d H) as (F & Hl & _ & f & Ef & _).
  pose proof (partial_present c d _ f F Hl Ef) as H1.
  assert (wp (ec ← atomic_call (create (wal c));
    if ec =? 0 then mret tt else if new_wal c then _ ← may_fail (runtime_error "failed to prepare the WAL directory");
         checked (atomic_call (create (wal c))) (runtime_error "failed to open WAL file for append")
       else throw (runtime_error "failed to open WAL file for append"))
    (fun _ d' => d' = create (wal c) d) (fun _ => partial c d) (partial c d) d) as Hopen.
  { apply wp_bind, wp_atomic; [by apply wp_ret|intros ec Hec|done|done]. rewrite (proj2 (Z.eqb_neq ec 0) Hec).
    destruct (new_wal c); [|by apply wp_throw]. apply wp_bind, wp_may_fail; [|done|done]. by apply wp_checked_atomic. }
  unfold OpenFrameStream. apply wp_bind. destruct (new_wal c); [by apply wp_may_fail|by apply wp_ret].
Qed.

Lemma WriteFrame_ok c d : c ∈ changes -> wal_state is_old d c ->
  wp (WriteFrame data_dir g c) (fun _ d' => frame [wal c] d d' /\ wal_state is_new d' c) (fun _ => partial c d) (partial c d) (create (wal c) d).
Proof.
  intros Hc H. destruct (opened_ok c d H) as (F & Hl & Hsame & f & Ef & Hdf). set (d1 := create (wal c) d) in *.
  assert (forall b, partial c d (append (wal c) b d1)) as Hp.
  { intros b. destruct (append_file (wal c) b d1 f Ef) as (f2 & Ef2 & _). eapply partial_present; [frames|by apply loose_append|done]. }
  destruct (append_file (wal c) (frame_bytes c) d1 f Ef) as (f2 & Ef2 & Hd2). unfold WriteFrame. fold (wal c).
  apply wp_bind, wp_checked; [|by intros; apply Hp|by intros; apply Hp]. specialize (Hp (frame_bytes c)). set (d2 := append (wal c) (frame_bytes c) d1) in *.
  apply wp_bind, wp_may_fail; [|done|done]. apply wp_bind, wp_SyncFilePath; [intros _|done|done].
  pose proof (sync_file_file (wal c) d2 f2 Ef2) as Es. set (d3 := sync_file (wal c) d2) in *.
  assert (partial c d d3) as L3 by (eapply partial_present; [subst d3 d2; frames|by apply wal_state_sync_file, loose_append|done]).
  destruct (new_wal c) eqn:Enew.
  - apply wp_SyncDirectoryPath; [|done|done]. destruct L3 as (F3 & H3 & _). split; [frames|]. split.
    + apply holds_sync_dir. rewrite Es. unfold survives. cbn [data kept]. intros b ->. unfold is_new. by rewrite Hd2, Hdf.
    + intros _. apply olders_sync_dir.
    + apply (ws_links _ _ _ (wal_state_sync_dir _ _ _ _ H3)).
  - apply wp_ret. split; [apply L3|]. assert (old c <> []) as Hne.
    { intros Hne. pose proof (boundary_zero c Hc) as Hb. rewrite bool_decide_true in Hb by done. apply Z.eqb_eq in Hb.
      by rewrite (setup_new Hsetup c Hc Hb) in Enew. }
    apply (append_file_ok c d1 f); [done|done|done|]. change (olders d3 (wal c) = []). unfold d3, d2. rewrite olders_sync_file, olders_append, (Hsame Hne).
    by apply (ws_pinned _ _ _ H).
Qed.

(** The append ends with the frame durably there. *)
Lemma AppendTxnFrame_ok c d : c ∈ changes -> wal_state is_old d c ->
  wp (AppendTxnFrameLocked data_dir g c) (fun _ d' => frame [wal c] d d' /\ wal_state is_new d' c) (fun _ => partial c d) (partial c d) d.
Proof.
  intros Hc H. apply wp_bind. eapply wp_conseq; [by apply OpenFrameStream_ok| |done|done]. intros _ d' ->. by apply WriteFrame_ok.
Qed.

(** What is there can be cut back durably. *)
Lemma remove_wal_ok c d e (P : disk -> Prop) : old c = [] -> wal_state is_loose d c ->
  (forall d', frame [wal c] d d' -> wal_state is_loose d' c -> P d') ->
  wp (_ ← checked (remove (wal c)) e; SyncDirectoryPath (parent_path (wal c)))
    (fun _ d' => frame [wal c] d d' /\ wal_state is_old d' c) (fun _ => P) P d.
Proof.
  intros Ho H HP. assert (P d) by (apply HP; [apply frame_refl|done]). assert (wal_state is_loose (unlink (wal c) d) c) as Hu by by apply loose_unlink.
  assert (P (unlink (wal c) d)) by (apply HP; [frames|done]).
  apply wp_bind, wp_checked_atomic; [|done|done|done]. apply wp_SyncDirectoryPath; [|done|done]. split; [frames|]. split.
  - apply holds_sync_dir. rewrite unlink_file. unfold is_old. by rewrite Ho.
  - done.
  - apply (ws_links _ _ _ (wal_state_sync_dir _ _ _ _ Hu)).
Qed.

Lemma resize_wal_ok c d f : wal_state is_loose d c -> old c <> [] -> names d !! wal c = Some f -> data f = old c ->
  wal_state is_old (sync_file (wal c) d) c.
Proof.
  intros H Hne Ef Hd. pose proof (sync_file_file (wal c) d f Ef) as Es. destruct (wal_state_sync_file _ _ _ H) as [H1 H2 H3]. split; [|done|done].
  eapply holds_settled; [exact Es|by apply H2|done|]. unfold is_old. cbn. done.
Qed.

Lemma loose_data c d f : wal_state is_loose d c -> names d !! wal c = Some f -> exists y, data f = old c ++ y.
Proof.
  intros H Ef. pose proof (holds_content _ _ _ (ws_holds _ _ _ H)) as Hc. rewrite (content_some _ _ _ Ef) in Hc.
  destruct Hc as [->|[y [= ->]]]; [by eexists|by exists y].
Qed.

Lemma resized_data c d f : wal_state is_loose d c -> names d !! wal c = Some f ->
  exists f', names (resize (wal c) (length (old c)) d) !! wal c = Some f' /\ data f' = old c.
Proof.
  intros H Ef. destruct (loose_data c d f H Ef) as [y Hy]. destruct (resize_file (wal c) (length (old c)) d f Ef) as (f' & Ef' & Hd). exists f'. split; [done|].
  rewrite Hd, Hy, length_app, take_app_length. replace (length (old c) - _)%nat with O by lia. by rewrite app_nil_r.
Qed.

Lemma RollBackWal_ok c d : c ∈ changes -> wal_state is_loose d c ->
  wp (RollBackWal data_dir g {| entry_coord := change_coord c; wal_boundary := boundary c |})
    (fun _ d' => frame [wal c] d d' /\ wal_state is_old d' c)
    (fun _ d' => frame [wal c] d d' /\ wal_state is_loose d' c) (fun d' => frame [wal c] d d' /\ wal_state is_loose d' c) d.
Proof.
  intros Hc H. assert (frame [wal c] d d /\ wal_state is_loose d c) as Hd by (split; [apply frame_refl|done]).
  unfold RollBackWal. cbn [entry_coord wal_boundary]. fold (wal c). pose proof (setup_boundary Hsetup c Hc) as Hb.
  apply wp_bind, wp_exists; [|done|done]. rewrite boundary_zero by done. destruct (names d !! wal c) as [f|] eqn:Ef.
  - rewrite bool_decide_true by done. cbn [negb]. apply wp_bind, wp_file_size; [|done|done]. intros b Eb.
    apply wp_bind, wp_throw_when; [done|intros _]. case_bool_decide as Ho.
    + apply remove_wal_ok; [done|done|]. by intros.
    + destruct (resized_data c d f H Ef) as (f' & Ef' & Hf').
      assert (wal_state is_loose (resize (wal c) (length (old c)) d) c) as Hr by by apply loose_resize.
      assert (Z.to_nat (boundary c) = length (old c)) as -> by lia. apply wp_bind. destruct (Z.eqb_spec (len b) (boundary c)) as [El|El]; cbn [negb].
      * apply wp_ret. apply wp_SyncFilePath; [intros _|done|done]. split; [frames|]. apply (resize_wal_ok c d f); [done|done|done|].
        destruct (loose_data c d f H Ef) as [y Hy]. rewrite (content_some _ _ _ Ef) in Eb. injection Eb as <-. rewrite Hy in *. rewrite length_app in El.
        destruct y as [|z y]; [by rewrite app_nil_r|]. cbn [length] in El. lia.
      * assert (frame [wal c] d (resize (wal c) (length (old c)) d)) by frames. apply wp_checked_atomic; [|done|done|done].
        apply wp_SyncFilePath; [intros _|done|done]. split; [frames|]. by apply (resize_wal_ok c _ f').
  - rewrite bool_decide_false by (by intros [? ?]). cbn [negb]. pose proof (loose_absent d c H Ef) as Ho. apply wp_bind, wp_throw_when; [done|intros _].
    apply wp_bind, wp_directory_exists; [| |done|done].
    + apply wp_SyncDirectoryPath; [|done|done]. split; [frames|]. split; [|done|apply (ws_links _ _ _ (wal_state_sync_dir _ _ _ _ H))].
      apply holds_sync_dir. rewrite Ef. unfold is_old. by rewrite Ho.
    + intros Hnone. apply wp_ret. split; [apply frame_refl|]. split; [|done|apply H]. intros x (o & Hx & Hs).
      rewrite (Hnone (wal c) eq_refl) in Hx. apply list_elem_of_singleton in Hx as ->. destruct x; [done|]. unfold is_old. by rewrite Ho.
Qed.

Lemma TruncateWalTail_ok c d sfx : c ∈ changes -> wal_state is_loose d c -> (names d !! wal c = None -> wal_state is_old d c) ->
  wp (TruncateWalTail data_dir g barrier_durability_floor sfx (change_coord c) (boundary c) true)
    (fun _ d' => frame [wal c] d d' /\ wal_state is_old d' c)
    (fun _ d' => frame [wal c] d d' /\ wal_state is_loose d' c) (fun d' => frame [wal c] d d' /\ wal_state is_loose d' c) d.
Proof.
  intros Hc H Habs. assert (frame [wal c] d d /\ wal_state is_loose d c) as Hd by (split; [apply frame_refl|done]).
  assert (forall d', frame [wal c] d d' /\ wal_state is_old d' c -> wp (may_fail (runtime_error "snapshot generation")) (fun _ d' => frame [wal c] d d' /\ wal_state is_old d' c)
    (fun _ d' => frame [wal c] d d' /\ wal_state is_loose d' c) (fun d' => frame [wal c] d d' /\ wal_state is_loose d' c) d') as Hend.
  { intros d' Hd'. assert (frame [wal c] d d' /\ wal_state is_loose d' c) by (split; [apply Hd'|eapply wal_state_mono; [apply old_loose|apply Hd']]). by apply wp_may_fail. }
  unfold TruncateWalTail. fold (wal c). pose proof (setup_boundary Hsetup c Hc) as Hb.
  apply wp_bind, wp_may_fail; [|done|done]. apply wp_bind, wp_exists; [|done|done]. apply wp_bind. rewrite boundary_zero by done.
  destruct (names d !! wal c) as [f|] eqn:Ef.
  - rewrite bool_decide_true by done. cbn [negb]. case_bool_decide as Ho.
    + eapply wp_conseq; [apply (remove_wal_ok c d _ (fun d' => frame [wal c] d d' /\ wal_state is_loose d' c)); [done|done|by intros]|exact (fun _ => Hend)|done|done].
    + apply wp_bind, wp_bind, wp_ask. rewrite Ef. cbn [fmap option_fmap option_map].
      assert (links f <= 1) as Hlk by (apply (ws_links _ _ _ H); rewrite <- Ef; left). rewrite (proj2 (Z.ltb_ge _ _) Hlk).
      assert (Z.to_nat (boundary c) = length (old c)) as -> by lia. destruct (resized_data c d f H Ef) as (f' & Ef' & Hf').
      assert (wal_state is_loose (resize (wal c) (length (old c)) d) c) as Hr by by apply loose_resize.
      assert (frame [wal c] d (resize (wal c) (length (old c)) d)) by frames.
      apply wp_bind, wp_checked_atomic; [|done|done|done]. apply wp_ret, wp_SyncFilePath; [intros _|done|done]. apply Hend. split; [frames|]. by apply (resize_wal_ok c _ f').
  - rewrite bool_decide_false by (by intros [? ?]). apply wp_ret. apply Hend. split; [apply frame_refl|by apply Habs].
Qed.

(** ** The states of a commit *)

Lemma wal_inj c c' : c ∈ changes -> c' ∈ changes -> wal c = wal c' -> c = c'.
Proof.
  intros Hc Hc' H. apply (ChunkWalPath_inj data_dir g (change_coord c) (change_coord c')) in H. pose proof (setup_coords Hsetup) as Hn. apply list_elem_of_lookup in Hc as [i Hi], Hc' as [j Hj].
  assert (i = j) as <-; [|congruence]. eapply NoDup_lookup; [exact Hn| |]; rewrite list_lookup_fmap; [rewrite Hi|rewrite Hj]; cbn; by rewrite ?H.
Qed.

Lemma wal_not_ip c : wal c <> ip.
Proof. intros H. apply (ChunkWalPath_dir data_dir g (change_coord c)). change (parent_path (wal c) = intent_dir). by rewrite H. Qed.

Lemma other_wal S c c' d d' : c ∈ changes -> c' ∈ changes -> c' <> c -> frame [wal c] d d' -> wal_state S d c' -> wal_state S d' c'.
Proof. intros Hc Hc' Hne F. apply (wal_state_frame S [wal c]); [done|]. rewrite list_elem_of_singleton. intros H. by apply Hne, wal_inj. Qed.

(** The other intents of the directory are committed ones. *)
Definition committed_intent (n : bytes) (x : option bytes) : Prop :=
  x = None \/ exists i, intent_ok i /\ intent_state i = kCommitted /\ n = TxnIntentName (intent_version i) /\ x = Some (SerializeTxnIntent i).

Definition others_ok (d : disk) : Prop :=
  forall n, n <> TxnIntentName version -> IsTxnIntentArtifactName n = true -> find n (str ".tmp.") = None -> holds d (intent_dir, n) (committed_intent n).

(** Names that are no other intent. *)
Definition own (p : path) : Prop := parent_path p <> intent_dir \/ p = ip \/ find (filename p) (str ".tmp.") <> None.

Lemma others_frame T d d' : frame T d d' -> Forall own T -> others_ok d -> others_ok d'.
Proof.
  intros F HT H n Hn Ha Hf. apply (holds_frame T d d'); [done| |by apply H]. intros Hin. rewrite Forall_forall in HT.
  destruct (HT _ Hin) as [Hp|[Hp|Hp]]; [done| |done]. injection Hp as Hp. done.
Qed.

Lemma own_wal c : own (wal c).
Proof. left. exact (ChunkWalPath_dir data_dir g (change_coord c)). Qed.
Lemma own_ip : own ip.
Proof. by right; left. Qed.
Lemma own_tmp sfx : own (BuildAtomicTmpPath ip sfx).
Proof. right; right. apply find_some_app. Qed.

Lemma tmp_not_ip sfx : BuildAtomicTmpPath ip sfx <> ip.
Proof.
  intros H. apply (f_equal (fun p => length p.2)) in H. cbn [BuildAtomicTmpPath snd] in H. rewrite !length_app in H.
  cbn [str length] in H. change (length (filename ip)) with (length ip.2) in H. lia.
Qed.

Abbreviation rb := (fun x => x = Some (rollback_record version changes)).
Abbreviation cm := (fun x => x = Some (commit_record version changes)).
Abbreviation gone := (fun x => x = None).

Definition inv (I : option bytes -> Prop) (S : Change -> option bytes -> Prop) (d : disk) : Prop :=
  others_ok d /\ holds d ip I /\ forall c, c ∈ changes -> wal_state S d c.

(** A restart finds the transaction gone once recovery has run. *)
Definition inv_old (d : disk) : Prop := inv rb is_loose d \/ inv (fun x => x = None \/ rb x) is_old d.
(** A restart finds it applied. *)
Definition inv_new (d : disk) : Prop := inv (fun x => x = None \/ cm x) is_new d.
(** A power loss decides. *)
Definition inv_both (d : disk) : Prop := inv (fun x => x = None \/ rb x \/ cm x) is_new d /\ content d ip <> Some (rollback_record version changes).

Lemma inv_mono (I I' : option bytes -> Prop) (S S' : Change -> option bytes -> Prop) d : (forall x, I x -> I' x) -> (forall c x, S c x -> S' c x) -> inv I S d -> inv I' S' d.
Proof.
  intros HI HS (H1 & H2 & H3). split; [done|]. split; [by eapply holds_mono|]. intros c Hc. eapply wal_state_mono; [apply HS|by apply H3].
Qed.

Lemma inv_ip I I' S T d d' : frame T d d' -> Forall (fun p => p = ip \/ exists sfx, p = BuildAtomicTmpPath ip sfx) T -> holds d' ip I' -> inv I S d -> inv I' S d'.
Proof.
  intros F HT Hh (H1 & H2 & H3). split; [|split; [done|]].
  - eapply others_frame; [done| |done]. eapply Forall_impl; [exact HT|]. intros p [->|[sfx ->]]; [apply own_ip|apply own_tmp].
  - intros c Hc. eapply wal_state_frame; [done| |by apply H3]. intros Hin. rewrite Forall_forall in HT.
    apply (ChunkWalPath_dir data_dir g (change_coord c)). change (parent_path (wal c) = intent_dir). by destruct (HT _ Hin) as [->|[sfx ->]].
Qed.

Lemma magic_differs : rollback_record version changes <> commit_record version changes.
Proof.
  intros H. pose proof (txn_intent_roundtrip _ (setup_intent Hsetup kRollback)) as H1.
  change (SerializeTxnIntent (intent_of version changes kRollback)) with (rollback_record version changes) in H1.
  rewrite H in H1. unfold commit_record in H1. rewrite txn_intent_roundtrip in H1 by apply (setup_intent Hsetup). done.
Qed.

Lemma new_both d : inv_new d -> inv_both d.
Proof.
  intros H. split; [eapply inv_mono; [| |exact H]; [|done]; intros x [?|?]; auto|]. destruct H as (_ & H & _). apply holds_content in H as [->| ->]; [done|].
  intros E. apply magic_differs. congruence.
Qed.

(** ** The commit keeps them *)

Lemma RemoveIntent_ok (I : option bytes -> Prop) d : holds d ip I ->
  let left d' := frame [ip] d d' /\ holds d' ip (fun x => x = None \/ I x) in
  wp (RemoveIntent data_dir version) (fun _ d' => frame [ip] d d' /\ holds d' ip gone) (fun _ => left) left d.
Proof.
  intros H left. assert (left d) by (split; [apply frame_refl|eapply holds_mono; [|exact H]; by right]).
  assert (left (unlink ip d)) by (split; [frames|apply holds_unlink; [eapply holds_mono; [|exact H]; by right|by left]]).
  apply wp_bind, wp_ask, wp_bind, wp_atomic; [|intros ec Hec|done|done].
  - apply wp_bind, wp_throw_when; [done|intros _]. apply wp_SyncDirectoryPath; [|done|done]. split; [frames|].
    apply (holds_sync_dir (unlink ip d) ip). by rewrite unlink_file.
  - apply wp_bind, wp_throw_when; [done|]. intros [_ Hz%negb_false_iff%Z.eqb_eq]%orb_false_iff. done.
Qed.

Lemma all_loose (S : Change -> option bytes -> Prop) d : (forall c x, S c x -> is_loose c x) -> inv rb S d -> inv_old d.
Proof. intros HS H. left. by eapply inv_mono; [| |exact H]. Qed.

(** What the loop of appends leaves when it stops at an error. *)
Definition stopped (l : list Change) (d : disk) : Prop :=
  others_ok d /\ holds d ip rb /\
  forall c, c ∈ changes -> wal_state is_loose d c /\ (names d !! wal c = None -> wal_state is_old d c) /\ (c ∉ l -> wal_state is_old d c).

Lemma stopped_old l d : stopped l d -> inv_old d.
Proof. intros (H1 & H2 & H3). left. split; [done|]. split; [done|]. intros c Hc. by apply H3. Qed.

Lemma new_stopped l d : inv rb is_new d -> l = changes -> stopped l d.
Proof.
  intros (H1 & H2 & H3) ->. split; [done|]. split; [done|]. intros c Hc. split; [eapply wal_state_mono; [apply new_loose|by apply H3]|]. split; [|done].
  intros Hn. pose proof (holds_content _ _ _ (ws_holds _ _ _ (H3 c Hc))) as Hx. by rewrite (content_none _ _ Hn) in Hx.
Qed.

(** In the middle of the loop: the frames of [started] are there, those of [todo] are not. *)
Definition midway (started todo : list Change) (d : disk) : Prop :=
  others_ok d /\ holds d ip rb /\ (forall c, c ∈ started -> wal_state is_new d c) /\ (forall c, c ∈ todo -> wal_state is_old d c).

Lemma midway_frame started c todo d d' : started ++ c :: todo = changes -> frame [wal c] d d' -> midway started todo d -> midway started todo d'.
Proof.
  intros Hch F (H1 & H2 & H3 & H4). assert (NoDup changes) as Hnd by (eapply NoDup_fmap_1; exact (setup_coords Hsetup)).
  rewrite <- Hch in Hnd. apply NoDup_app in Hnd as (_ & Hdis & [Hnc _]%NoDup_cons).
  assert (c ∈ changes /\ (forall c', c' ∈ started -> c' ∈ changes) /\ (forall c', c' ∈ todo -> c' ∈ changes)) as (Hc & Hs & Ht).
  { rewrite <- Hch. split; [|split]; intros; set_solver. }
  split; [eapply others_frame; [done|apply Forall_singleton, own_wal|done]|]. split.
  - eapply holds_frame; [done| |done]. rewrite list_elem_of_singleton. intros E. by apply (wal_not_ip c).
  - split; intros c' Hc'.
    + apply (other_wal _ c c' d); auto. intros ->. apply (Hdis c Hc'). by left.
    + apply (other_wal _ c c' d); auto. by intros ->.
Qed.

Lemma midway_stopped started c todo l d : started ++ c :: todo = changes -> midway started todo d ->
  wal_state is_loose d c /\ (names d !! wal c = None -> wal_state is_old d c) -> (c ∉ l -> wal_state is_old d c) -> started ⊆ l -> stopped l d.
Proof.
  intros Hch (H1 & H2 & H3 & H4) [Hc1 Hc2] Hc3 Hsub. split; [done|]. split; [done|]. intros c' Hc'. rewrite <- Hch in Hc'.
  apply elem_of_app in Hc' as [Hc'|[->|Hc']%elem_of_cons].
  - split; [eapply wal_state_mono; [apply new_loose|by apply H3]|]. split; [|intros Hx; by destruct (Hx (Hsub c' Hc'))]. intros Hx.
    pose proof (holds_content _ _ _ (ws_holds _ _ _ (H3 c' Hc'))) as Hy. by rewrite (content_none _ _ Hx) in Hy.
  - done.
  - split; [eapply wal_state_mono; [apply old_loose|by apply H4]|]. split; intros _; by apply H4.
Qed.

Lemma AppendFrames_ok todo : forall started d, started ++ todo = changes -> midway started todo d ->
  wp (AppendFrames data_dir g todo started)
    (fun r d' => match r.2 with None => r.1 = changes /\ inv rb is_new d' | Some _ => r.1 ⊆ changes /\ stopped r.1 d' end)
    (fun _ _ => False) inv_old d.
Proof.
  induction todo as [|c todo IH]; intros started d Hch Hm; cbn [AppendFrames].
  - rewrite app_nil_r in Hch. subst started. assert (inv rb is_new d) as Hi by (destruct Hm as (H1 & H2 & H3 & _); done).
    assert (inv_old d) by (eapply all_loose; [apply new_loose|done]).
    apply wp_bind, wp_attempt, wp_may_fail; [by apply wp_ret| |done]. apply wp_ret. cbn. split; [done|]. by apply new_stopped.
  - assert (c ∈ changes /\ started ⊆ changes) as [Hin Hsub] by (rewrite <- Hch; set_solver).
    assert (wal_state is_old d c) as Hc by (apply Hm; left). pose proof (partial_refl c d Hc) as (_ & Hpl & _).
    assert (midway started todo d) as Hm' by (destruct Hm as (H1 & H2 & H3 & H4); do 3 (split; [done|]); intros; apply H4; by right).
    assert (stopped started d) as Hsd by by apply (midway_stopped started c todo).
    assert (forall d', partial c d d' -> stopped (started ++ [c]) d') as Hpart.
    { intros d' (F & Hl & Ha). apply (midway_stopped started c todo); [done|by apply (midway_frame started c todo d)|done| |set_solver].
      intros Hx. destruct Hx. set_solver. }
    apply wp_bind, wp_attempt, wp_may_fail; [|apply wp_ret; by cbn|by eapply stopped_old].
    apply wp_bind, wp_attempt. eapply wp_conseq; [by apply AppendTxnFrame_ok| | |].
    + intros _ d' [F Hn]. apply IH; [by rewrite <- app_assoc|]. destruct (midway_frame started c todo d d' Hch F Hm') as (H1 & H2 & H3 & H4).
      split; [done|]. split; [done|]. split; [|done]. intros c' Hc'. apply elem_of_app in Hc' as [Hc'| ->%list_elem_of_singleton]; [by apply H3|apply Hn].
    + intros e d' Hp. apply wp_ret. cbn. split; [set_solver|by apply Hpart].
    + intros d' Hp. eapply stopped_old. by apply Hpart.
Qed.

(** While the WALs are cut: those of [cut] are back. *)
Lemma stopped_cut l c cut d d' : c ∈ changes -> frame [wal c] d d' -> wal_state is_loose d' c -> (names d' !! wal c = None -> wal_state is_old d' c) ->
  (c ∉ l -> wal_state is_old d' c) -> (c ∈ cut -> wal_state is_old d' c) ->
  stopped l d /\ (forall c', c' ∈ cut -> wal_state is_old d c') -> cut ⊆ changes -> stopped l d' /\ (forall c', c' ∈ cut -> wal_state is_old d' c').
Proof.
  intros Hc F Hl Ha Hn Hcut [(H1 & H2 & H3) H4] Hsub. split.
  - split; [eapply others_frame; [done|apply Forall_singleton, own_wal|done]|]. split.
    + eapply holds_frame; [done| |done]. rewrite list_elem_of_singleton. intros E. by apply (wal_not_ip c).
    + intros c' Hc'. destruct (H3 c' Hc') as (A1 & A2 & A3). assert ({c' = c} + {c' <> c}) as [->|Hne]; [|done|].
      { destruct (decide (wal c' = wal c)) as [E|E]; [left; by apply wal_inj|right; by intros ->]. }
      split; [by apply (other_wal _ c c' d)|]. assert (wal c' ∉ [wal c]) as Hnw by (rewrite list_elem_of_singleton; intros E; by apply Hne, wal_inj).
      destruct (F _ Hnw) as [-> _]. split; intros; apply (other_wal _ c c' d); auto.
  - intros c' Hc'. destruct (decide (wal c' = wal c)) as [E|E].
    + assert (c' = c) as -> by (apply wal_inj; auto). auto.
    + apply (other_wal _ c c' d); auto. by intros ->.
Qed.

Lemma GoBack_ok started e d : started ⊆ changes -> stopped started d ->
  wp (GoBack data_dir g barrier_durability_floor version suffix3 started e)
    (fun r d' => exists closed, r = NotApplied e closed /\ inv_old d' /\ (closed = false -> inv gone is_old d')) (fun _ _ => False) inv_old d.
Proof.
  intros Hsub Hst. unfold GoBack. apply wp_bind, wp_attempt.
  assert (forall d', inv_old d' -> wp (mret (NotApplied e true)) (fun r d' => exists closed, r = NotApplied e closed /\ inv_old d' /\ (closed = false -> inv gone is_old d'))
    (fun _ _ => False) inv_old d') as Hbad by (intros d' Hd'; apply wp_ret; by exists true).
  apply wp_bind. eapply wp_conseq.
  - apply (wp_for_each _ (fun cut d' => stopped started d' /\ (forall c', c' ∈ cut -> wal_state is_old d' c')) (fun _ => inv_old) inv_old).
    + intros l1 c l2 d1 Hl [Hs Hcut]. assert (c ∈ started /\ l1 ⊆ started) as [Hin Hl1] by (subst started; split; set_solver).
      assert (c ∈ changes) as Hc by by apply Hsub. destruct (proj2 (proj2 Hs) c Hc) as (A1 & A2 & _).
      assert (forall d', frame [wal c] d1 d' /\ wal_state is_loose d' c -> inv_old d') as Hleft.
      { intros d' [F Hl']. left. destruct Hs as (H1 & H2 & H3). split; [eapply others_frame; [done|apply Forall_singleton, own_wal|done]|]. split.
        - eapply holds_frame; [done| |done]. rewrite list_elem_of_singleton. intros E. by apply (wal_not_ip c).
        - intros c' Hc'. destruct (decide (wal c' = wal c)) as [E|E]; [assert (c' = c) as -> by by apply wal_inj|]; [done|].
          apply (other_wal _ c c' d1); auto; [by intros ->|by apply H3]. }
      eapply wp_conseq; [by apply TruncateWalTail_ok| |exact (fun _ => Hleft)|exact Hleft].
      intros _ d' [F Ho]. destruct (stopped_cut started c l1 d1 d') as [B1 B2]; auto; [eapply wal_state_mono; [apply old_loose|done]|set_solver|].
      split; [done|]. intros c' Hc'. apply elem_of_app in Hc' as [Hc'| ->%list_elem_of_singleton]; auto.
    + split; [done|]. intros c' Hc'. by apply elem_of_nil in Hc'.
  - intros _ d1 [Hs Hall]. assert (inv rb is_old d1) as Hi.
    { destruct Hs as (H1 & H2 & H3). split; [done|]. split; [done|]. intros c Hc. destruct (H3 c Hc) as (_ & _ & Hn).
      destruct (decide (wal c ∈ map wal started)) as [Hin|Hnin].
      - apply list_elem_of_fmap in Hin as (c' & E & Hin). assert (c = c') as -> by (apply wal_inj; auto). by apply Hall.
      - apply Hn. intros Hin. apply Hnin. apply list_elem_of_fmap. by exists c. }
    assert (forall d', frame [ip] d1 d' /\ holds d' ip (fun x => x = None \/ rb x) -> inv_old d') as Hleft.
    { intros d' [F Hh]. right. by eapply inv_ip; [exact F|apply Forall_singleton; by left| |exact Hi]. }
    eapply wp_conseq; [exact (RemoveIntent_ok rb d1 (proj1 (proj2 Hi)))| |intros e' d' Hd'; exact (Hbad d' (Hleft d' Hd'))|exact Hleft].
    intros _ d' [F Hh]. apply wp_ret. exists false. split; [done|]. assert (inv gone is_old d') as Hg by (eapply inv_ip; [exact F|apply Forall_singleton; by left|done|exact Hi]).
    split; [|done]. right. by eapply inv_mono; [| |exact Hg]; [by left|].
  - intros e' d' Hd'. by apply Hbad.
  - done.
Qed.

(** The commit point: the commit form replaces the intent. *)
Lemma commit_point_ok d : inv rb is_new d ->
  wp (AtomicWrite (BuildAtomicTmpPath ip suffix2) ip (commit_record version changes) true true)
    (fun r d' => match r with
       | (true, None) => inv cm is_new d'
       | (true, Some _) => inv_both d' /\ exists f, names d' !! ip = Some f /\ data f = commit_record version changes /\ kept f = None
       | (false, None) => False
       | (false, Some _) => inv rb is_new d'
       end) (fun _ _ => False) (fun d' => inv_old d' \/ inv_both d') d.
Proof.
  intros Hi. assert (forall b, Forall (fun p => p = ip \/ exists sfx, p = BuildAtomicTmpPath ip sfx) ([BuildAtomicTmpPath ip suffix2] ++ if b : bool then [ip] else [])) as HT.
  { intros []; repeat apply Forall_cons_2; eauto; constructor. }
  assert (forall d', frame [BuildAtomicTmpPath ip suffix2; ip] d d' -> holds d' ip (fun x => rb x \/ cm x) -> content d' ip = Some (commit_record version changes) -> inv_both d') as Hboth.
  { intros d' F Hh Hc. split; [eapply inv_ip; [exact F|apply (HT true)| |exact Hi]; eapply holds_mono; [|exact Hh]; intros x [?|?]; auto|].
    rewrite Hc. intros E. apply magic_differs. congruence. }
  pose proof (proj1 (proj2 Hi)) as Hip.
  eapply wp_conseq; [exact (AtomicWrite_ok _ _ _ true d rb (tmp_not_ip suffix2) Hip)| |intros ? ? []|].
  - intros [[] e] d' [F Hr].
    + destruct Hr as (Hh & Hf & Hs). destruct e as [e|].
      * split; [|done]. destruct Hf as (f & Ef & Hd & _). apply Hboth; [done|done|]. by rewrite (content_some _ _ _ Ef), Hd.
      * eapply inv_ip; [exact F|apply (HT true)|by apply Hs|exact Hi].
    + destruct Hr as [He F']. destruct e as [e|]; [|done]. eapply inv_ip; [exact F'|apply (HT false)| |exact Hi].
      eapply holds_frame; [exact F'| |exact Hip]. rewrite list_elem_of_singleton. intros E. symmetry in E. by apply tmp_not_ip in E.
  - intros d' [F [Hh|[Hh Hc]]]; [left|right; by apply Hboth]. eapply all_loose; [apply new_loose|]. eapply inv_ip; [exact F|apply (HT true)|exact Hh|exact Hi].
Qed.

Lemma intent_point_ok d : inv gone is_old d ->
  wp (AtomicWrite (BuildAtomicTmpPath ip suffix1) ip (rollback_record version changes) true true)
    (fun r d' => match r with
       | (true, None) => inv rb is_old d'
       | (true, Some _) => inv (fun x => x = None \/ rb x) is_old d'
       | (false, None) => False
       | (false, Some _) => inv gone is_old d'
       end) (fun _ _ => False) inv_old d.
Proof.
  intros Hi. assert (forall b, Forall (fun p => p = ip \/ exists sfx, p = BuildAtomicTmpPath ip sfx) ([BuildAtomicTmpPath ip suffix1] ++ if b : bool then [ip] else [])) as HT.
  { intros []; repeat apply Forall_cons_2; eauto; constructor. }
  pose proof (proj1 (proj2 Hi)) as Hip.
  eapply wp_conseq; [exact (AtomicWrite_ok _ _ _ true d gone (tmp_not_ip suffix1) Hip)| |intros ? ? []|].
  - intros [[] e] d' [F Hr].
    + destruct Hr as (Hh & _ & Hs). destruct e as [e|]; (eapply inv_ip; [exact F|apply (HT true)| |exact Hi]); [done|by apply Hs].
    + destruct Hr as [He F']. destruct e as [e|]; [|done]. eapply inv_ip; [exact F'|apply (HT false)| |exact Hi].
      eapply holds_frame; [exact F'| |exact Hip]. rewrite list_elem_of_singleton. intros E. symmetry in E. by apply tmp_not_ip in E.
  - intros d' [F Hh]. right. eapply inv_ip; [exact F|apply (HT true)| |exact Hi]. destruct Hh as [Hh|[Hh _]]; eapply holds_mono; [|exact Hh| |exact Hh]; auto.
Qed.

Definition outcome_ok (r : CommitOutcome) (d : disk) : Prop :=
  match r with
  | Applied => inv_new d
  | OutcomeUnknown => inv_both d
  | NotApplied _ closed => inv_old d /\ (closed = false -> inv gone is_old d)
  end.

(** After the commit point the intent goes, or stays in its commit form. *)
Lemma finish_ok d : inv cm is_new d -> wp (_ ← attempt (RemoveIntent data_dir version); mret Applied) outcome_ok (fun _ _ => False) (fun d' => inv_old d' \/ inv_both d') d.
Proof.
  intros Hi. assert (forall d', frame [ip] d d' /\ holds d' ip (fun x => x = None \/ cm x) -> inv_new d') as Hn.
  { intros d' [F Hh]. by eapply inv_ip; [exact F|apply Forall_singleton; by left| |exact Hi]. }
  apply wp_bind, wp_attempt. eapply wp_conseq; [exact (RemoveIntent_ok cm d (proj1 (proj2 Hi)))| | |].
  - intros _ d' [F Hh]. apply wp_ret, Hn. split; [done|]. eapply holds_mono; [|exact Hh]. by left.
  - intros e d' H. by apply wp_ret, Hn.
  - intros d' H. right. by apply new_both, Hn.
Qed.

Lemma CommitFiles_ok d : inv gone is_old d ->
  wp (CommitFiles data_dir g barrier_durability_floor version changes suffix1 suffix2 suffix3) outcome_ok (fun _ _ => False) (fun d' => inv_old d' \/ inv_both d') d.
Proof.
  intros Hi. assert (forall d', inv gone is_old d' -> inv_old d' /\ (false = false -> inv gone is_old d')) as Hgone.
  { intros d' H. split; [|done]. right. eapply inv_mono; [| |exact H]; auto. }
  unfold CommitFiles. apply wp_bind, wp_attempt, wp_may_fail; [|by apply wp_ret, Hgone|left; by apply Hgone].
  apply wp_bind. eapply wp_conseq; [by apply intent_point_ok| |done|by left]. intros [[] [e|]] d1 H1; [| | |done].
  - assert (forall d', frame [ip] d1 d' /\ holds d' ip (fun x => x = None \/ x = None \/ rb x) -> inv_old d') as Hleft.
    { intros d' [F Hh]. right. eapply inv_ip; [exact F|apply Forall_singleton; by left| |exact H1]. eapply holds_mono; [|exact Hh]. intros x [?|?]; auto. }
    apply wp_bind, wp_attempt. eapply wp_conseq; [exact (RemoveIntent_ok (fun x => x = None \/ rb x) d1 (proj1 (proj2 H1)))| | |].
    + intros _ d' [F Hh]. apply wp_ret, Hgone. by eapply inv_ip; [exact F|apply Forall_singleton; by left| |exact H1].
    + intros e' d' H'. apply wp_ret. split; [by apply Hleft|done].
    + intros d' H'. left. by apply Hleft.
  - apply wp_bind. eapply wp_conseq; [apply (AppendFrames_ok changes []); [done|]| |done|by left].
    { destruct H1 as (A1 & A2 & A3). split; [done|]. split; [done|]. split; [|done]. intros c Hc. by apply elem_of_nil in Hc. }
    assert (forall l e d', l ⊆ changes -> stopped l d' -> wp (GoBack data_dir g barrier_durability_floor version suffix3 l e) outcome_ok (fun _ _ => False) (fun d' => inv_old d' \/ inv_both d') d') as Hback.
    { intros l e d' Hl Hs. eapply wp_conseq; [by apply GoBack_ok| |done|by left]. intros r d2 (closed & -> & H2 & H3). by split. }
    intros [started [e|]] d2 H2; cbn [fst snd] in H2; [destruct H2; by apply Hback|]. destruct H2 as [-> H2].
    apply wp_bind. eapply wp_conseq; [by apply commit_point_ok| |done|done]. intros [[] [e|]] d3 H3; [| | |done].
    + destruct H3 as [H3 (f & Ef & Hd & Hk)]. apply wp_bind, wp_attempt, wp_SyncDirectoryPath; [|intros e'; by apply wp_ret|by right].
      apply finish_ok. eapply inv_ip; [apply (frame_sync_dir _ [])|by constructor| |exact (proj1 H3)].
      apply (holds_sync_dir d3 ip). rewrite Ef. intros b Hb. unfold survives in Hb. rewrite Hk in Hb. congruence.
    + by apply finish_ok.
    + apply Hback; [done|]. by apply new_stopped.
  - by apply wp_ret, Hgone.
Qed.

(** ** What a commit leaves alone *)

Definition elsewhere (q : path) : Prop :=
  forall sfx, (q <> (parent_path ip, filename ip ++ sfx)) /\ forall c, q <> (parent_path (wal c), filename (wal c) ++ sfx).

Lemma CommitFiles_spares q : elsewhere q -> spares q (CommitFiles data_dir g barrier_durability_floor version changes suffix1 suffix2 suffix3).
Proof.
  intros Hq. assert (q <> ip) as H1 by (destruct (Hq []) as [H _]; by rewrite app_nil_r in H).
  assert (forall c, q <> ChunkWalPath data_dir g (change_coord c)) as H2 by (intros c; destruct (Hq []) as [_ H]; specialize (H c); by rewrite app_nil_r in H).
  assert (forall sfx, q <> BuildAtomicTmpPath ip sfx) as H3 by (intros sfx; apply Hq).
  assert (forall c sfx, q <> BuildAtomicTmpPath (ChunkWalPath data_dir g (change_coord c)) sfx) as H4 by (intros c sfx; apply Hq).
  assert (spares q (RemoveIntent data_dir version)) as HR by (unfold RemoveIntent; spare).
  assert (forall c, spares q (AppendTxnFrameLocked data_dir g c)) as HA by (intros c; unfold AppendTxnFrameLocked, OpenFrameStream, WriteFrame; spare; apply H2).
  assert (forall todo started, spares q (AppendFrames data_dir g todo started)) as HF.
  { induction todo as [|c todo IH]; intros started; cbn [AppendFrames]; spare. }
  assert (forall l e, spares q (GoBack data_dir g barrier_durability_floor version suffix3 l e)) as HG.
  { intros l e. unfold GoBack. apply spares_bind; [|intros []; spare]. apply spares_attempt, spares_bind; [|done]. apply spares_for_each. intros c _.
    unfold TruncateWalTail. pose proof (fun size durable => spares_ResizeWal _ _ size durable q (H4 c (suffix3 (change_coord c))) (H2 c)). spare. }
  pose proof (fun b => spares_AtomicWrite _ _ b true true q (H3 suffix1) H1). pose proof (fun b => spares_AtomicWrite _ _ b true true q (H3 suffix2) H1).
  unfold CommitFiles. spare.
Qed.

End Atomic.

End TxnCommit.
