(* ===== verification/TxnRecovery.v ===== *)
(** * A committed transaction is there after a crash, another one is not
      (src/src/txn_intent.cpp, src/src/txn_commit.cpp)

    Recovery started on any state a commit can leave, and started again after
    crashes of its own, ends with the frames of the transaction in every WAL or
    in none. *)
From stdpp Require Import prelude strings gmap sorting.
From Stdlib Require Import ZArith Lia.
From S2P Require Import Prelude Bits Crc32 Geometry LittleEndian Text Files TxnIntent TxnCommit.

#[local] Open Scope Z_scope.

Module TxnRecovery.
Import Geometry Text Files TxnIntent TxnCommit.

Section Recovery.
Context (data_dir : bytes) (g : Geometry).
Context (current_pid : Z) (IsProcessAlive : Z -> bool) (TmpArtifactAgeMs : path -> Z).
Context (version : Z).

Abbreviation intent_dir := (ConditionalIntentDirectory data_dir).
Abbreviation ip := (intent_path data_dir version).
Abbreviation ours := (TxnIntentName version).
Abbreviation others_ok := (others_ok data_dir version).
Abbreviation cleanup := (CleanupAtomicTmpArtifacts current_pid IsProcessAlive TmpArtifactAgeMs).

(** ** The names of the directory *)

Definition intent_name (n : bytes) : option (Z * bytes) :=
  if IsTxnIntentArtifactName n then
    match find n (str ".tmp.") with None => (fun v => (v, n)) <$> TryParseUint64 (name_digits n) | Some _ => None end
  else None.

Lemma Classify_found found : forall acc intents interrupted, fold_res Classify acc found = Ok (intents, interrupted) ->
  intents = acc.1 ++ omap intent_name found /\ (forall n, n ∈ found -> IsTxnIntentArtifactName n = true -> find n (str ".tmp.") = None -> is_Some (intent_name n)).
Proof.
  induction found as [|n found IH]; intros [ints rest] intents interrupted H; cbn [fold_res] in H.
  - injection H as <- <-. cbn. rewrite app_nil_r. split; [done|]. intros n Hn. by apply elem_of_nil in Hn.
  - apply bind_ok in H as ([ints' rest'] & Hc & H). apply IH in H as [-> Hall]. cbn [omap list_omap fst]. unfold Classify in Hc.
    assert (intent_name n = if IsTxnIntentArtifactName n then
      match find n (str ".tmp.") with None => (fun v => (v, n)) <$> TryParseUint64 (name_digits n) | Some _ => None end else None) as En by done.
    destruct (IsTxnIntentArtifactName n) eqn:Ea; cbn [negb] in Hc.
    2: { injection Hc as <- <-. rewrite En. split; [done|]. intros m [->|Hm]%elem_of_cons; [congruence|by apply Hall]. }
    destruct (find n (str ".tmp.")) as [k|] eqn:Ek.
    { injection Hc as <- <-. rewrite En. split; [done|]. intros m [->|Hm]%elem_of_cons; [congruence|by apply Hall]. }
    apply bind_ok in Hc as ([] & _ & Hc). destruct (TryParseUint64 (name_digits n)) as [v|] eqn:Ev; [|done]. injection Hc as <- <-. rewrite En. cbn [fmap option_fmap option_map].
    split; [by rewrite <- app_assoc|]. intros m [->|Hm]%elem_of_cons; [|by apply Hall]. intros _ _. by rewrite En.
Qed.

Lemma intent_name_some n v m : intent_name n = Some (v, m) -> m = n /\ IsTxnIntentArtifactName n = true /\ find n (str ".tmp.") = None /\ TryParseUint64 (name_digits n) = Some v.
Proof.
  unfold intent_name. destruct (IsTxnIntentArtifactName n); [|done]. destruct (find n (str ".tmp.")); [done|].
  destruct (TryParseUint64 (name_digits n)); [|done]. cbn. by intros [= <- <-].
Qed.

Lemma intent_names_NoDup found : NoDup found -> NoDup ((omap intent_name found).*2).
Proof.
  induction found as [|n found IH]; intros H; [constructor|]. apply NoDup_cons in H as [Hn H]. cbn [omap list_omap].
  destruct (intent_name n) as [[v m]|] eqn:En; [|by apply IH]. apply intent_name_some in En as (-> & _). rewrite fmap_cons. apply NoDup_cons. split; [|by apply IH].
  intros ([v' m'] & E & Hin)%list_elem_of_fmap. cbn in E. subst m'. apply list_elem_of_omap in Hin as (n' & Hin & En'). by apply intent_name_some in En' as (-> & _).
Qed.

Lemma ours_name : in_u 64 version -> intent_name ours = Some (version, ours).
Proof.
  intros Hv. unfold intent_name. rewrite IsTxnIntentArtifactName_name, name_not_tmp by apply Hv. by rewrite name_digits_name, TryParseUint64_to_string.
Qed.

(** ** Other names of the directory *)

Definition foreign (p : path) : Prop := parent_path p = intent_dir /\ filename p <> ours.
Definition temporary (p : path) : Prop := parent_path p = intent_dir /\ find (filename p) (str ".tmp.") <> None.

Lemma temporary_foreign p : 0 <= version -> temporary p -> foreign p.
Proof. intros Hv [H1 H2]. split; [done|]. intros E. apply H2. rewrite E. by apply name_not_tmp. Qed.

(** Keeps its truth when other files of the directory change. *)
Definition closed (P : disk -> Prop) : Prop := forall T d d', Forall foreign T -> frame T d d' -> P d -> P d'.

Lemma cleanup_ok t d : wp (cleanup (intent_dir, t))
  (fun _ d' => exists T, Forall temporary T /\ frame T d d') (fun _ d' => exists T, Forall temporary T /\ frame T d d')
  (fun d' => exists T, Forall temporary T /\ frame T d d') d.
Proof.
  assert (exists T, Forall temporary T /\ frame T d d) as Hd by (exists []; split; [constructor|apply frame_refl]).
  apply wp_bind, wp_may_fail; [|done|done]. apply wp_bind, wp_ask.
  apply (wp_for_each _ (fun _ d' => exists T, Forall temporary T /\ frame T d d')); [|done].
  intros l1 n l2 d1 _ (T & HT & F). cbn [parent_path fst]. destruct (ShouldCleanupTmpArtifactForCurrentProcess _ _ _ _ _) eqn:Es; cbn [negb].
  2: { apply wp_ret. by exists T. }
  assert (exists T, Forall temporary T /\ frame T d (unlink (intent_dir, n) d1)) as Hu.
  { exists ((intent_dir, n) :: T). split.
    - apply Forall_cons. split; [|done]. split; [done|]. unfold ShouldCleanupTmpArtifactForCurrentProcess in Es. cbn [filename snd] in *.
      destruct (starts_with n (t ++ str ".tmp.")) eqn:Esw; [|done]. apply starts_with_spec in Esw. rewrite Esw, <- app_assoc. apply find_some_app.
    - apply (frame_trans _ _ d1); [eapply frame_weaken; [|exact F]; set_solver|]. eapply frame_weaken; [|apply frame_unlink]. set_solver. }
  apply wp_checked_atomic; [done|by exists T|by exists T|done].
Qed.

Lemma others_foreign n d d' : n <> ours -> frame [(intent_dir, n)] d d' ->
  (IsTxnIntentArtifactName n = true -> find n (str ".tmp.") = None -> holds d' (intent_dir, n) (committed_intent n)) -> others_ok d -> others_ok d'.
Proof.
  intros Hn F Hh H m Hm Ha Hf. destruct (decide (m = n)) as [->|Hne]; [by apply Hh|].
  apply (holds_frame _ _ _ _ _ F); [|by apply H]. rewrite list_elem_of_singleton. by intros [= ->].
Qed.

Lemma others_temporary T d d' : Forall temporary T -> frame T d d' -> others_ok d -> others_ok d'.
Proof. intros HT F. apply (others_frame data_dir version T d d' F). eapply Forall_impl; [exact HT|]. intros p [_ H]. by right; right. Qed.

(** Another intent is a committed one: its file goes. *)
Lemma other_intent_ok v n i d : n <> ours -> IsTxnIntentArtifactName n = true -> find n (str ".tmp.") = None -> intent_state i = kCommitted -> others_ok d ->
  let after d' := frame [(intent_dir, n)] d d' /\ others_ok d' in
  wp (RecoverIntent data_dir g ((v, n), i)) (fun _ => after) (fun _ => after) after d.
Proof.
  intros Hn Ha Hf Hs Ho after. assert (after d) as Hd by (split; [apply frame_refl|done]).
  assert (after (unlink (intent_dir, n) d)) as Hu.
  { split; [apply frame_unlink|]. apply (others_foreign n d); [done|apply frame_unlink| |done]. intros _ _. apply holds_unlink; [by apply Ho|by left]. }
  unfold RecoverIntent. rewrite Hs. apply wp_bind, wp_ret, wp_bind, wp_checked_atomic; [|done|done|done].
  apply wp_SyncDirectoryPath; [|done|done]. split; [frames|]. apply (others_frame data_dir version [] (unlink (intent_dir, n) d)); [apply frame_sync_dir|constructor|apply Hu].
Qed.

(** ** One start *)

(** [Inv] holds until our intent, if it is there, is dealt with; [Fin] afterwards. *)
Context (Inv Fin : disk -> Prop).
Hypothesis Hversion : in_u 64 version.
Hypothesis Inv_closed : closed Inv.
Hypothesis Fin_closed : closed Fin.
Hypothesis Fin_Inv : forall d, Fin d -> Inv d.
Hypothesis Inv_absent : forall d, Inv d -> content d ip = None -> Fin d.
Hypothesis ours_ok : forall d b i, Inv d -> others_ok d -> content d ip = Some b -> TryParseTxnIntent b = Some i ->
  wp (RecoverIntent data_dir g ((version, ours), i)) (fun _ d' => Fin d' /\ others_ok d') (fun _ d' => Inv d' /\ others_ok d') (fun d' => Inv d' /\ others_ok d') d.

Lemma closed_foreign P n d d' : closed P -> n <> ours -> frame [(intent_dir, n)] d d' -> P d -> P d'.
Proof. intros Hp Hn F. apply (Hp [(intent_dir, n)]); [|done]. by apply Forall_singleton. Qed.

Lemma ip_ours p : foreign p -> p <> ip.
Proof. intros [_ H] ->. done. Qed.

(** What was read of an intent. *)
Definition loaded (d : disk) (p : Z * bytes) (i : TxnIntent) : Prop :=
  exists b, content d (intent_dir, p.2) = Some b /\ TryParseTxnIntent b = Some i /\ intent_version i = p.1.

Lemma LoadIntent_ok p d : wp (LoadIntent data_dir p) (fun i d' => d' = d /\ loaded d p i) (fun _ d' => d' = d) (fun d' => d' = d) d.
Proof.
  apply wp_bind, wp_LoadFile; [|done|done]. intros b Hb. destruct (TryParseTxnIntent b) as [i|] eqn:Ei; [|by apply wp_throw].
  destruct (Z.eqb_spec (intent_version i) p.1); [|by apply wp_throw]. apply wp_ret. split; [done|]. by exists b.
Qed.

Lemma loaded_other d n v i : others_ok d -> n <> ours -> IsTxnIntentArtifactName n = true -> find n (str ".tmp.") = None -> loaded d (v, n) i -> intent_state i = kCommitted.
Proof.
  intros Ho Hn Ha Hf (b & Hb & Hp & _). destruct (holds_content _ _ _ (Ho n Hn Ha Hf)) as [E|(j & Hj & Hs & _ & E)]; cbn in Hb; rewrite Hb in E; [done|].
  injection E as ->. rewrite txn_intent_roundtrip in Hp by done. by injection Hp as <-.
Qed.

(** The loop over the intents that were read from [d0]. *)
Definition loop_inv (d0 : disk) (l : list ((Z * bytes) * TxnIntent)) (d : disk) : Prop :=
  others_ok d /\ (if bool_decide (ours ∈ l.*1.*2) then Fin d else Inv d /\ content d ip = content d0 ip).

Lemma loop_step d0 l1 v n i l2 d : others_ok d0 -> NoDup ((l1 ++ ((v, n), i) :: l2).*1.*2) -> intent_name n = Some (v, n) -> loaded d0 (v, n) i ->
  loop_inv d0 l1 d -> wp (RecoverIntent data_dir g ((v, n), i)) (fun _ => loop_inv d0 (l1 ++ [((v, n), i)])) (fun _ d' => Inv d' /\ others_ok d') (fun d' => Inv d' /\ others_ok d') d.
Proof.
  intros H0 Hnd Hname Hl [Ho HI]. apply intent_name_some in Hname as (_ & Ha & Hf & Hv).
  assert (forall m, m ∈ (l1 ++ [((v, n), i)]).*1.*2 <-> m ∈ l1.*1.*2 \/ m = n) as Hin.
  { intros m. rewrite !fmap_app. cbn. by rewrite elem_of_app, list_elem_of_singleton. }
  destruct (decide (n = ours)) as [->|Hne].
  - assert (ours ∉ l1.*1.*2) as Hnot. { rewrite !fmap_app in Hnd. cbn in Hnd. apply NoDup_app in Hnd as (_ & Hd & _). intros Hx. apply (Hd _ Hx). by left. }
    rewrite bool_decide_false in HI by done. destruct HI as [HI Hc]. destruct Hl as (b & Hb & Hp & Hver). rewrite name_digits_name, TryParseUint64_to_string in Hv by done.
    injection Hv as <-. eapply wp_conseq; [apply (ours_ok d b i HI Ho); [by rewrite Hc|done]| |done|done].
    intros _ d' [HF Ho']. split; [done|]. rewrite bool_decide_true; [done|]. apply Hin. by right.
  - assert (forall d', frame [(intent_dir, n)] d d' /\ others_ok d' -> loop_inv d0 (l1 ++ [((v, n), i)]) d' /\ Inv d' /\ others_ok d') as Hafter.
    { intros d' [F Ho']. assert (ip ∉ [(intent_dir, n)]) as Hip by (rewrite list_elem_of_singleton; intros [= E]; done).
      assert (if bool_decide (ours ∈ (l1 ++ [((v, n), i)]).*1.*2) then Fin d' else Inv d' /\ content d' ip = content d0 ip) as HI'.
      { rewrite (bool_decide_ext _ (ours ∈ l1.*1.*2)) by (rewrite Hin; split; [intros [?|E]; [done|by destruct Hne]|by left]). case_bool_decide.
        - by apply (closed_foreign Fin n d).
        - destruct HI as [HI Hc]. split; [by apply (closed_foreign Inv n d)|]. by rewrite (content_frame _ _ _ _ F Hip). }
      split; [by split|]. split; [|done]. case_bool_decide; [by apply Fin_Inv|by apply HI']. }
    eapply wp_conseq; [apply other_intent_ok; try done; by apply (loaded_other d0 n v)| | |]; intros; by apply Hafter.
Qed.

Lemma recover_ok d : Inv d -> others_ok d ->
  wp (RecoverTransactionIntents data_dir g current_pid IsProcessAlive TmpArtifactAgeMs)
    (fun _ d' => Fin d' /\ others_ok d') (fun _ d' => Inv d' /\ others_ok d') (fun d' => Inv d' /\ others_ok d') d.
Proof.
  intros HI Ho. assert (Inv d /\ others_ok d) as Hd by done. apply wp_bind, wp_may_fail; [|done|done]. apply wp_bind, wp_ask, wp_bind.
  destruct (fold_res Classify ([], []) (listing intent_dir d)) as [[intents interrupted]|e] eqn:Ec; [|by apply wp_throw].
  apply Classify_found in Ec as [-> Hall]. cbn [fst app]. apply wp_ret. set (found := listing intent_dir d) in *. set (sorted := merge_sort intent_le _).
  assert (sorted ≡ₚ omap intent_name found) as Hperm by apply merge_sort_Permutation.
  apply wp_bind. eapply wp_conseq; [apply (wp_map_io _ (loaded d)); intros p _; apply LoadIntent_ok| |by intros e d' ->|by intros d' ->].
  intros parsed d' [-> Hload]. apply wp_bind.
  assert ((zip sorted parsed).*1 = sorted) as Ezip by (apply fst_zip; pose proof (Forall2_length _ _ _ Hload); lia).
  assert (NoDup sorted.*2) as Hnd by (rewrite Hperm; apply intent_names_NoDup, listing_NoDup).
  eapply wp_conseq; [apply (wp_for_each _ (loop_inv d) (fun _ d' => Inv d' /\ others_ok d') (fun d' => Inv d' /\ others_ok d'))| |done|done].
  - intros l1 [[v n] i] l2 d1 El Hl1.
    assert (((v, n), i) ∈ zip sorted parsed) as Hin by (rewrite El; apply elem_of_app; right; by left).
    apply (loop_step d l1 v n i l2); [done| | | |done].
    + by rewrite <- El, Ezip.
    + assert ((v, n) ∈ omap intent_name found) as Hm by (rewrite <- Hperm, <- Ezip; apply list_elem_of_fmap; by exists ((v, n), i)).
      apply list_elem_of_omap in Hm as (m & _ & Hm). pose proof Hm as Hm'. by apply intent_name_some in Hm' as (-> & _).
    + rewrite Forall2_lookup in Hload. apply list_elem_of_lookup in Hin as [k Hk]. apply lookup_zip_with_Some in Hk as (p & j & [= <- <-] & Hp & Hj).
      specialize (Hload k). rewrite Hp, Hj in Hload. by inversion Hload.
  - split; [done|]. rewrite bool_decide_false; [done|]. apply not_elem_of_nil.
  - intros _ d1 [Ho1 HF]. assert (Fin d1) as HF1.
    { rewrite Ezip in HF. case_bool_decide as Hin; [done|]. destruct HF as [HI1 Hc1]. apply Inv_absent; [done|]. rewrite Hc1.
      destruct (content d ip) as [b|] eqn:Eb; [|done]. destruct Hin. rewrite Hperm. apply list_elem_of_fmap. exists (version, ours). split; [done|].
      apply list_elem_of_omap. exists ours. split; [|by apply ours_name]. apply listing_spec. apply fmap_Some in Eb as (f & Ef & _). by exists f. }
    eapply wp_conseq; [apply (wp_for_each _ (fun _ d' => Fin d' /\ others_ok d') (fun _ d' => Fin d' /\ others_ok d') (fun d' => Fin d' /\ others_ok d'))| | |].
    + intros l1 t l2 d2 _ [HF2 Ho2]. assert (forall d', (exists T, Forall temporary T /\ frame T d2 d') -> Fin d' /\ others_ok d') as Hafter.
      { intros d' (T & HT & F). split; [|by apply (others_temporary T d2)]. apply (Fin_closed T d2); [|done|done].
        eapply Forall_impl; [exact HT|]. intros p. apply temporary_foreign, Hversion. }
      eapply wp_conseq; [apply cleanup_ok| | |]; intros; by apply Hafter.
    + done.
    + done.
    + intros e d' [? ?]. split; [by apply Fin_Inv|done].
    + intros d' [? ?]. split; [by apply Fin_Inv|done].
Qed.

(** ** A start without failures ends *)

Lemma committed_name n d : others_ok d -> n <> ours -> IsTxnIntentArtifactName n = true -> find n (str ".tmp.") = None -> n ∈ listing intent_dir d ->
  exists i, intent_ok i /\ n = TxnIntentName (intent_version i) /\ content d (intent_dir, n) = Some (SerializeTxnIntent i).
Proof.
  intros Ho Hn Ha Hf [f Ef]%listing_spec. destruct (holds_content _ _ _ (Ho n Hn Ha Hf)) as [E|(i & Hi & _ & En & E)]; [|by exists i].
  by rewrite (content_some _ _ _ Ef) in E.
Qed.

Lemma classify_fine d found : others_ok d -> (forall n, n ∈ found -> n ∈ listing intent_dir d) -> forall acc, exists r, fold_res Classify acc found = Ok r.
Proof.
  intros Ho. induction found as [|n found IH]; intros Hf [ints rest]; cbn [fold_res]; [by eexists|].
  assert (exists r, Classify (ints, rest) n = Ok r) as [r Hr].
  { unfold Classify. destruct (IsTxnIntentArtifactName n) eqn:Ea; cbn [negb]; [|by eexists]. destruct (find n (str ".tmp.")) as [k|] eqn:Ek; [by eexists|].
    assert (exists v, in_u 64 v /\ n = TxnIntentName v) as (v & Hv & ->).
    { destruct (decide (n = ours)) as [->|Hne]; [by exists version|]. destruct (committed_name n d Ho Hne Ea Ek) as (i & Hi & E & _); [apply Hf; by left|].
      exists (intent_version i). split; [apply Hi|done]. }
    rewrite IsTxnIntentFileName_name by apply Hv. cbn [negb throw_if]. rewrite bind_Ok_l, name_digits_name, TryParseUint64_to_string by done. by eexists. }
  rewrite Hr. cbn [mbind res_bind]. apply IH. intros m Hm. apply Hf. by right.
Qed.

Lemma cleanup_fine t d : fine (cleanup (intent_dir, t)) d.
Proof.
  unfold CleanupAtomicTmpArtifacts. apply fine_checked_bind, fine_ask.
  apply (fine_for_each _ (fun _ _ => True) (fun _ _ => True) (fun _ => True)); [|done]. intros l1 n l2 d1 _ _.
  split; [|apply wp_true]. destruct (ShouldCleanupTmpArtifactForCurrentProcess _ _ _ _ _); cbn [negb]; [apply fine_checked|apply fine_ret].
Qed.

Hypothesis ours_fine : forall d b, Inv d -> others_ok d -> content d ip = Some b ->
  exists i, TryParseTxnIntent b = Some i /\ intent_version i = version /\ fine (RecoverIntent data_dir g ((version, ours), i)) d.

Lemma LoadIntent_fine d v n : Inv d -> others_ok d -> intent_name n = Some (v, n) -> n ∈ listing intent_dir d ->
  exists i, LoadIntent data_dir (v, n) [] d = Done i [] d.
Proof.
  intros HI Ho Hn Hfound. apply intent_name_some in Hn as (_ & Ha & Hf & Hv).
  assert (exists b i, content d (intent_dir, n) = Some b /\ TryParseTxnIntent b = Some i /\ intent_version i = v) as (b & i & Hb & Hi & Hver).
  { destruct (decide (n = ours)) as [->|Hne].
    - apply listing_spec in Hfound as [f Ef]. destruct (ours_fine d (data f) HI Ho (content_some _ _ _ Ef)) as (i & Hi & Hver & _).
      exists (data f), i. split; [exact (content_some _ _ _ Ef)|]. split; [done|]. rewrite name_digits_name, TryParseUint64_to_string in Hv by done. congruence.
    - destruct (committed_name n d Ho Hne Ha Hf Hfound) as (i & Hi & -> & Hc). exists (SerializeTxnIntent i), i. split; [done|]. split; [by apply txn_intent_roundtrip|].
      rewrite name_digits_name, TryParseUint64_to_string in Hv by apply Hi. congruence. }
  exists i. unfold LoadIntent, LoadFile, may_fail, checked, ask, mbind, io_bind. cbn. unfold id. rewrite Hb. cbn. rewrite Hi. cbn. rewrite Hver, Z.eqb_refl. done.
Qed.

Lemma RecoverIntent_fine d0 l1 v n i l2 d : others_ok d0 -> NoDup ((l1 ++ ((v, n), i) :: l2).*1.*2) -> intent_name n = Some (v, n) -> loaded d0 (v, n) i ->
  loop_inv d0 l1 d -> fine (RecoverIntent data_dir g ((v, n), i)) d.
Proof.
  intros H0 Hnd Hname Hli [Ho HI]. apply intent_name_some in Hname as (_ & Ha & Hf & Hv). destruct (decide (n = ours)) as [->|Hne].
  - rewrite bool_decide_false in HI.
    2: { rewrite !fmap_app in Hnd. cbn in Hnd. apply NoDup_app in Hnd as (_ & Hd & _). intros Hx. apply (Hd _ Hx). by left. }
    destruct HI as [HI Hc]. destruct Hli as (b & Hb & Hp & Hver). change (content d0 ip = Some b) in Hb. rewrite <- Hc in Hb.
    destruct (ours_fine d b HI Ho Hb) as (j & Hj & Hver' & Hfine). rewrite Hp in Hj. injection Hj as <-.
    rewrite name_digits_name, TryParseUint64_to_string in Hv by done. by injection Hv as <-.
  - unfold RecoverIntent. rewrite (loaded_other d0 n v i H0 Hne Ha Hf Hli).
    eapply fine_bind; [apply fine_ret|apply wp_true|].
    intros _ d2 _. apply fine_checked_bind, fine_checked.
Qed.

Lemma recover_fine d : Inv d -> others_ok d -> fine (RecoverTransactionIntents data_dir g current_pid IsProcessAlive TmpArtifactAgeMs) d.
Proof.
  intros HI Ho. unfold RecoverTransactionIntents. apply fine_checked_bind, fine_ask. change (id d) with d.
  destruct (classify_fine d (listing intent_dir d) Ho (fun n H => H) ([], [])) as [[intents interrupted] Ec]. rewrite Ec.
  apply Classify_found in Ec as [-> Hall]. cbn [fst app lift]. set (found := listing intent_dir d) in *. set (sorted := merge_sort intent_le (omap intent_name found)).
  assert (sorted ≡ₚ omap intent_name found) as Hperm by apply merge_sort_Permutation.
  assert (forall v n, (v, n) ∈ sorted -> intent_name n = Some (v, n) /\ n ∈ found) as Hsorted.
  { intros v n Hp. rewrite Hperm in Hp. apply list_elem_of_omap in Hp as (m & Hm & E). pose proof E as E'. by apply intent_name_some in E' as (-> & _). }
  destruct (fine_map_io (LoadIntent data_dir) sorted d) as [parsed Hparsed].
  { intros [v n] Hp. destruct (Hsorted v n Hp). by apply LoadIntent_fine. }
  change (fine (parsed ← map_io (LoadIntent data_dir) sorted; _ ← for_each (zip sorted parsed) (RecoverIntent data_dir g); for_each interrupted (fun name => cleanup (intent_dir, name))) d).
  eapply fine_bind; [by exists parsed, d|apply (wp_map_io _ (loaded d)); intros p _; apply LoadIntent_ok|]. intros ps d' [-> Hl]. clear parsed Hparsed.
  assert ((zip sorted ps).*1 = sorted) as Ezip by (apply fst_zip; pose proof (Forall2_length _ _ _ Hl); lia).
  assert (NoDup sorted.*2) as Hnd by (rewrite Hperm; apply intent_names_NoDup, listing_NoDup).
  assert (forall l1 p l2 d1, zip sorted ps = l1 ++ p :: l2 -> loop_inv d l1 d1 -> fine (RecoverIntent data_dir g p) d1 /\
    wp (RecoverIntent data_dir g p) (fun _ => loop_inv d (l1 ++ [p])) (fun _ d' => Inv d' /\ others_ok d') (fun d' => Inv d' /\ others_ok d') d1) as Hstep.
  { intros l1 [[v n] i] l2 d1 El Hl1. assert (((v, n), i) ∈ zip sorted ps) as Hin by (rewrite El; apply elem_of_app; right; by left).
    assert ((v, n) ∈ sorted) as Hin' by (rewrite <- Ezip; apply list_elem_of_fmap; by exists ((v, n), i)). destruct (Hsorted _ _ Hin') as [Hn _].
    assert (loaded d (v, n) i) as Hli.
    { rewrite Forall2_lookup in Hl. apply list_elem_of_lookup in Hin as [k Hk]. apply lookup_zip_with_Some in Hk as (p & j & [= <- <-] & Hp & Hj).
      specialize (Hl k). rewrite Hp, Hj in Hl. by inversion Hl. }
    assert (NoDup ((l1 ++ ((v, n), i) :: l2).*1.*2)) by by rewrite <- El, Ezip.
    split; [by apply (RecoverIntent_fine d l1 v n i l2)|by apply (loop_step d l1 v n i l2)]. }
  assert (loop_inv d [] d) as H0 by (split; [done|]; rewrite bool_decide_false; [done|apply not_elem_of_nil]).
  eapply fine_bind.
  - by apply (fine_for_each _ (loop_inv d) (fun _ d' => Inv d' /\ others_ok d') (fun d' => Inv d' /\ others_ok d')).
  - apply (wp_for_each _ (loop_inv d) (fun _ d' => Inv d' /\ others_ok d') (fun d' => Inv d' /\ others_ok d')); [|done]. intros l1 p l2 d1 El Hl1. by apply (Hstep l1 p l2 d1).
  - intros _ d1 _. apply (fine_for_each _ (fun _ _ => True) (fun _ _ => True) (fun _ => True)); [|done]. intros l1 t l2 d2 _ _.
    split; [apply cleanup_fine|apply wp_true].
Qed.

End Recovery.

(** ** A completed start leaves no intent *)

Section Clears.
Context (data_dir : bytes) (g : Geometry).
Context (current_pid : Z) (IsProcessAlive : Z -> bool) (TmpArtifactAgeMs : path -> Z).

Abbreviation intent_dir := (ConditionalIntentDirectory data_dir).

(** No file has appeared. *)
Definition shrinks (d d' : disk) : Prop := forall p, names d !! p = None -> names d' !! p = None.

#[local] Instance shrinks_preorder : PreOrder shrinks.
Proof. split; [by intros d p|]. intros d1 d2 d3 H1 H2 p Hp. by apply H2, H1. Qed.

Lemma shrinks_unlink p d : shrinks d (unlink p d).
Proof. intros q Hq. destruct (decide (q = p)) as [->|Hne]; [apply unlink_file|]. destruct (frame_unlink p d q) as [-> _]; [set_solver|done]. Qed.
Lemma shrinks_resize p n d : shrinks d (resize p n d).
Proof. intros q Hq. unfold resize. destruct (names d !! p) eqn:E; [|done]. cbn. rewrite lookup_insert. case_decide; [congruence|done]. Qed.
Lemma shrinks_sync_file p d : shrinks d (sync_file p d).
Proof. intros q Hq. unfold sync_file. destruct (names d !! p) eqn:E; [|done]. cbn. rewrite lookup_insert. case_decide; [congruence|done]. Qed.
Lemma shrinks_sync_dir dir d : shrinks d (sync_dir dir d).
Proof. intros q Hq. exact Hq. Qed.

Lemma RollBackWal_shrinks e d : wp (RollBackWal data_dir g e) (fun _ => shrinks d) (fun _ _ => True) (fun _ => True) d.
Proof.
  apply wp_bind, wp_exists; [|done|done]. case_bool_decide; cbn [negb].
  - apply wp_bind, wp_file_size; [|done|done]. intros b _. apply wp_bind, wp_throw_when; [done|intros _]. destruct (wal_boundary e =? 0).
    + apply wp_bind, wp_checked_atomic; [|done|done|done]. apply wp_SyncDirectoryPath; [|done|done]. apply shrinks_unlink.
    + apply wp_bind. destruct (negb (len b =? wal_boundary e)).
      * apply wp_checked_atomic; [|done|done|done]. apply wp_SyncFilePath; [intros _|done|done]. etransitivity; [apply shrinks_resize|apply shrinks_sync_file].
      * apply wp_ret, wp_SyncFilePath; [intros _; apply shrinks_sync_file|done|done].
  - apply wp_bind, wp_throw_when; [done|intros _]. apply wp_bind, wp_directory_exists; [|intros _; by apply wp_ret|done|done].
    apply wp_SyncDirectoryPath; [apply shrinks_sync_dir|done|done].
Qed.

Lemma RecoverIntent_clears v n i d : wp (RecoverIntent data_dir g ((v, n), i)) (fun _ d' => shrinks d d' /\ names d' !! (intent_dir, n) = None)
  (fun _ _ => True) (fun _ => True) d.
Proof.
  assert (forall d1, shrinks d d1 -> wp (_ ← checked (remove (intent_dir, n)) (runtime_error "failed to remove transaction intent"); SyncDirectoryPath intent_dir)
    (fun _ d' => shrinks d d' /\ names d' !! (intent_dir, n) = None) (fun _ _ => True) (fun _ => True) d1) as Hend.
  { intros d1 H1. apply wp_bind, wp_checked_atomic; [|done|done|done]. apply wp_SyncDirectoryPath; [|done|done].
    split; [etransitivity; [exact H1|apply shrinks_unlink]|apply unlink_file]. }
  apply wp_bind. destruct (intent_state i); [|by apply wp_ret, Hend].
  eapply wp_conseq; [apply (wp_for_each _ (fun _ => shrinks d) (fun _ _ => True) (fun _ => True))|intros u d'; apply Hend|done|done]; [|done].
  intros l1 e l2 d1 _ H1. eapply wp_conseq; [apply RollBackWal_shrinks| |done|done]. intros u d2 H2. by etransitivity.
Qed.

Lemma recover_clears d : wp (RecoverTransactionIntents data_dir g current_pid IsProcessAlive TmpArtifactAgeMs)
  (fun _ d' => forall n, IsTxnIntentFileName n = true -> names d' !! (intent_dir, n) = None) (fun _ _ => True) (fun _ => True) d.
Proof.
  apply wp_bind, wp_may_fail; [|done|done]. apply wp_bind, wp_ask, wp_bind.
  destruct (fold_res Classify ([], []) (listing intent_dir d)) as [[intents interrupted]|e] eqn:Ec; [|by apply wp_throw].
  apply Classify_found in Ec as [-> Hall]. cbn [fst app]. apply wp_ret. set (sorted := merge_sort intent_le _).
  assert (sorted ≡ₚ omap intent_name (listing intent_dir d)) as Hperm by apply merge_sort_Permutation.
  apply wp_bind. eapply wp_conseq; [eapply wp_conseq; [apply (wp_map_io _ (loaded data_dir d)); intros p _; apply LoadIntent_ok|intros a d' H; exact H|done|done]| |done|done].
  intros parsed d' [-> Hload]. apply wp_bind.
  assert ((zip sorted parsed).*1 = sorted) as Ezip by (apply fst_zip; pose proof (Forall2_length _ _ _ Hload); lia).
  eapply wp_conseq; [apply (wp_for_each _ (fun l d' => shrinks d d' /\ forall n, n ∈ l.*1.*2 -> names d' !! (intent_dir, n) = None) (fun _ _ => True) (fun _ => True))| |done|done].
  - intros l1 [[v n] i] l2 d1 _ [H1 H2]. eapply wp_conseq; [apply RecoverIntent_clears| |done|done]. intros u d2 [H3 H4].
    split; [by etransitivity|]. intros m. rewrite !fmap_app, elem_of_app. cbn. rewrite list_elem_of_singleton. intros [Hm| ->]; [by apply H3, H2|done].
  - split; [done|]. by intros n ?%elem_of_nil.
  - intros u d1 [H1 H2]. rewrite Ezip in H2.
    assert (forall n, IsTxnIntentFileName n = true -> names d1 !! (intent_dir, n) = None) as Hgone.
    { intros n Hn. destruct (file_name_artifact n Hn) as [Ha Hf]. destruct (names d !! (intent_dir, n)) as [f|] eqn:Ef; [|by apply H1].
      assert (n ∈ listing intent_dir d) as Hl by (apply listing_spec; by exists f). destruct (Hall n Hl Ha Hf) as [[v m] Hm].
      pose proof Hm as Hm'. apply intent_name_some in Hm' as (-> & _). apply H2. rewrite Hperm. apply list_elem_of_fmap. exists (v, n). split; [done|].
      apply list_elem_of_omap. by exists n. }
    eapply wp_conseq; [apply (wp_for_each _ (fun _ => shrinks d1) (fun _ _ => True) (fun _ => True))| |done|done]; [|done|].
    + intros l1 t l2 d2 _ H3. apply wp_bind, wp_may_fail; [|done|done]. apply wp_bind, wp_ask.
      eapply wp_conseq; [apply (wp_for_each _ (fun _ => shrinks d1) (fun _ _ => True) (fun _ => True))|done|done|done]; [|done].
      intros k1 m k2 d3 _ H4. cbv zeta. destruct (ShouldCleanupTmpArtifactForCurrentProcess _ _ _ _ _); cbn [negb]; [|by apply wp_ret]. apply wp_checked_atomic; [|done|done|done]. etransitivity; [exact H4|apply shrinks_unlink].
    + intros u' d2 H3 n Hn. by apply H3, Hgone.
Qed.

End Clears.

(** ** The transaction after restarts *)

Section Restarts.
Context (data_dir : bytes) (g : Geometry).
Context (current_pid : Z) (IsProcessAlive : Z -> bool) (TmpArtifactAgeMs : path -> Z) (barrier_durability_floor : bool).
Context (version : Z) (changes : list Change) (suffix1 suffix2 : bytes) (suffix3 : ChunkCoord -> bytes).
Context (old : Change -> bytes).
Context (Hsetup : setup version changes old).

Abbreviation intent_dir := (ConditionalIntentDirectory data_dir).
Abbreviation ip := (intent_path data_dir version).
Abbreviation wal := (wal data_dir g).
Abbreviation others_ok := (others_ok data_dir version).
Abbreviation wal_state := (wal_state data_dir g old).
Abbreviation is_old := (is_old old).
Abbreviation is_new := (is_new old).
Abbreviation is_loose := (is_loose old).
Abbreviation inv := (inv data_dir g version changes old).
Abbreviation inv_old := (inv_old data_dir g version changes old).
Abbreviation inv_new := (inv_new data_dir g version changes old).
Abbreviation inv_both := (inv_both data_dir g version changes old).
Abbreviation Recover := (RecoverTransactionIntents data_dir g current_pid IsProcessAlive TmpArtifactAgeMs).
Abbreviation rb := (fun x => x = Some (rollback_record version changes)).
Abbreviation cm := (fun x => x = Some (commit_record version changes)).

(** An invariant without the other intents. *)
Definition core (I : option bytes -> Prop) (S : Change -> option bytes -> Prop) (d : disk) : Prop :=
  holds d ip I /\ forall c, c ∈ changes -> wal_state S d c.
Definition core_old (d : disk) : Prop := core rb is_loose d \/ core (fun x => x = None \/ rb x) is_old d.
Definition core_both (d : disk) : Prop := core (fun x => x = None \/ rb x \/ cm x) is_new d /\ content d ip <> Some (rollback_record version changes).
Definition core_new (d : disk) : Prop := core (fun x => x = None \/ cm x) is_new d.

Lemma version_ok : in_u 64 version.
Proof. apply (setup_intent _ _ _ Hsetup kRollback). Qed.

Lemma core_inv I S d : inv I S d <-> others_ok d /\ core I S d.
Proof. unfold TxnCommit.inv, core. tauto. Qed.

Lemma core_closed I S : closed data_dir version (core I S).
Proof.
  intros T d d' HT F [H1 H2]. rewrite Forall_forall in HT. split.
  - eapply holds_frame; [exact F| |exact H1]. intros Hin. by apply (ip_ours data_dir version ip (HT _ Hin)).
  - intros c Hc. eapply wal_state_frame; [exact F| |by apply H2]. intros Hin. exact (ChunkWalPath_dir data_dir g (change_coord c) (proj1 (HT _ Hin))).
Qed.

Lemma core_both_closed : closed data_dir version core_both.
Proof.
  intros T d d' HT F [H1 H2]. split; [by eapply core_closed|]. rewrite (content_frame T d d' ip F); [done|].
  rewrite Forall_forall in HT. intros Hin. by apply (ip_ours data_dir version ip (HT _ Hin)).
Qed.

Lemma core_old_closed : closed data_dir version core_old.
Proof. intros T d d' HT F [H|H]; [left|right]; by eapply core_closed. Qed.

(** The intent's own file goes. *)
Lemma remove_ours_ok (I : option bytes -> Prop) S (P : disk -> Prop) d : core I S d -> others_ok d ->
  (forall d', core (fun x => x = None \/ I x) S d' -> content d' ip = None \/ d' = d -> P d') ->
  wp (_ ← checked (remove ip) (runtime_error "failed to remove transaction intent"); SyncDirectoryPath intent_dir)
    (fun _ d' => P d' /\ others_ok d') (fun _ d' => P d' /\ others_ok d') (fun d' => P d' /\ others_ok d') d.
Proof.
  intros [H1 H2] Ho HP. assert (forall d', frame [ip] d d' -> holds d' ip (fun x => x = None \/ I x) -> content d' ip = None \/ d' = d -> P d' /\ others_ok d') as Hafter.
  { intros d' F Hh Hc. split; [|eapply others_frame; [exact F|apply Forall_singleton, own_ip|done]]. apply HP; [|done]. split; [done|].
    intros c Hc'. eapply wal_state_frame; [exact F| |by apply H2]. rewrite list_elem_of_singleton. apply wal_not_ip. }
  assert (holds d ip (fun x => x = None \/ I x)) as Hd by (eapply holds_mono; [|exact H1]; by right).
  assert (holds (unlink ip d) ip (fun x => x = None \/ I x)) as Hu by (apply holds_unlink; [done|by left]).
  pose proof (content_none _ _ (unlink_file ip d)) as Hc.
  assert (P (unlink ip d) /\ others_ok (unlink ip d)) as Hup by (apply Hafter; [frames|done|by left]).
  assert (P d /\ others_ok d) as Hdp by (apply Hafter; [frames|done|by right]).
  apply wp_bind, wp_checked_atomic; [|done|done|done]. apply wp_SyncDirectoryPath; [|done|done].
  apply Hafter; [frames| |by left]. eapply holds_frame; [apply (frame_sync_dir _ [])|apply not_elem_of_nil|done].
Qed.

Lemma inv_step I I' S d : (forall x, I x -> I' x) -> core I S d -> core I' S d.
Proof. intros H [H1 H2]. split; [by eapply holds_mono|done]. Qed.

(** Cutting a WAL that holds the old bytes changes nothing of them. *)
Lemma RollBackWal_keeps c d : c ∈ changes -> wal_state is_old d c ->
  let after d' := frame [wal c] d d' /\ wal_state is_old d' c in
  wp (RollBackWal data_dir g {| entry_coord := change_coord c; wal_boundary := boundary c |}) (fun _ => after) (fun _ => after) after d.
Proof.
  intros Hc H after. assert (after d) as Hd by (split; [apply frame_refl|done]).
  unfold RollBackWal. cbn [entry_coord wal_boundary]. change (ChunkWalPath data_dir g (change_coord c)) with (wal c).
  apply wp_bind, wp_exists; [|done|done]. rewrite (boundary_zero _ _ _ Hsetup) by done. pose proof (setup_boundary _ _ _ Hsetup c Hc) as Hb.
  assert (forall d', after d' -> after (sync_dir (parent_path (wal c)) d')) as Hsync.
  { intros d' [F Hs]. split; [frames|]. by apply wal_state_sync_dir. }
  destruct (names d !! wal c) as [f|] eqn:Ef.
  - rewrite bool_decide_true by done. cbn [negb]. apply wp_bind, wp_file_size; [|done|done]. intros b Eb.
    apply wp_bind, wp_throw_when; [done|intros _]. pose proof (holds_content _ _ _ (ws_holds _ _ _ _ _ _ H)) as Hold. rewrite Eb in Hold. unfold TxnCommit.is_old in Hold. cbn in Hold. subst b.
    case_bool_decide as Ho.
    + assert (after (unlink (wal c) d)) as Hu.
      { split; [frames|]. pose proof (loose_unlink data_dir g old d c Ho (wal_state_mono _ _ _ _ _ _ _ (old_loose old c) H)) as [_ Hp Hl]. split; [|done|done].
        apply holds_unlink; [apply H|]. unfold TxnCommit.is_old. by rewrite Ho. }
      apply wp_bind, wp_checked_atomic; [|done|done|done]. apply wp_SyncDirectoryPath; [by apply Hsync|done|done].
    + apply wp_bind. rewrite Hb, Z.eqb_refl. cbn [negb]. apply wp_ret, wp_SyncFilePath; [intros _|done|done]. split; [frames|by apply wal_state_sync_file].
  - rewrite bool_decide_false by (by intros [? ?]). cbn [negb]. apply wp_bind, wp_throw_when; [done|intros _].
    apply wp_bind, wp_directory_exists; [|intros _; by apply wp_ret|done|done]. apply wp_SyncDirectoryPath; [by apply Hsync|done|done].
Qed.

(** Cutting every WAL of the intent. *)
Lemma roll_back_step (S S' : Change -> option bytes -> Prop) I d d' c l : c ∈ changes -> frame [wal c] d d' -> wal_state S d' c ->
  core I S d /\ (forall c', c' ∈ l -> wal_state S' d c') -> l ⊆ changes -> c ∉ l -> others_ok d ->
  core I S d' /\ (forall c', c' ∈ l -> wal_state S' d' c') /\ others_ok d'.
Proof.
  intros Hc F Hs [[H1 H2] H3] Hsub Hcl Ho. split; [split|split].
  - eapply holds_frame; [exact F| |exact H1]. rewrite list_elem_of_singleton. intros E. symmetry in E. by apply wal_not_ip in E.
  - intros c' Hc'. destruct (decide (wal c' = wal c)) as [E|E].
    + assert (c' = c) as -> by by eapply (wal_inj data_dir g version changes old Hsetup). done.
    + eapply wal_state_frame; [exact F|by rewrite list_elem_of_singleton|by apply H2].
  - intros c' Hc'. eapply wal_state_frame; [exact F| |by apply H3]. rewrite list_elem_of_singleton. intros E. apply Hcl.
    assert (c' = c) as <-; [|done]. apply (wal_inj data_dir g version changes old Hsetup); auto.
  - eapply others_frame; [exact F|apply Forall_singleton, own_wal|done].
Qed.

Lemma roll_back_all (S : Change -> option bytes -> Prop) I d : core I S d -> others_ok d ->
  (forall c d1, c ∈ changes -> wal_state S d1 c -> wp (RollBackWal data_dir g {| entry_coord := change_coord c; wal_boundary := boundary c |})
     (fun _ d' => frame [wal c] d1 d' /\ wal_state is_old d' c) (fun _ d' => frame [wal c] d1 d' /\ wal_state S d' c) (fun d' => frame [wal c] d1 d' /\ wal_state S d' c) d1) ->
  (forall c x, is_old c x -> S c x) ->
  wp (for_each (intent_entries (intent_of version changes kRollback)) (RollBackWal data_dir g))
    (fun _ d' => core I is_old d' /\ others_ok d') (fun _ d' => core I S d' /\ others_ok d') (fun d' => core I S d' /\ others_ok d') d.
Proof.
  intros Hcore Ho Hstep HS. set (entry c := {| entry_coord := change_coord c; wal_boundary := boundary c |}).
  assert (NoDup changes) as Hnd by (eapply NoDup_fmap_1; exact (setup_coords _ _ _ Hsetup)).
  eapply wp_conseq; [apply (wp_for_each _ (fun es d' => exists l, es = map entry l /\ l `prefix_of` changes /\ core I S d' /\ (forall c, c ∈ l -> wal_state is_old d' c) /\ others_ok d')
    (fun _ d' => core I S d' /\ others_ok d') (fun d' => core I S d' /\ others_ok d'))| |done|done].
  - intros es1 e es2 d1 El (l & -> & [k Hk] & Hc1 & Hl & Ho1). cbn [intent_of intent_entries] in El. fold entry in El. rewrite Hk, map_app in El.
    apply app_inv_head in El. destruct k as [|c k]; [done|]. cbn [map] in El. injection El as <- _.
    assert (c ∈ changes /\ l ⊆ changes) as [Hc Hsub] by (rewrite Hk; split; set_solver).
    assert (c ∉ l) as Hcl. { rewrite Hk in Hnd. apply NoDup_app in Hnd as (_ & Hd & _). intros Hx. apply (Hd c Hx). by left. }
    eapply wp_conseq; [exact (Hstep c d1 Hc (proj2 Hc1 c Hc))| | |].
    + intros _ d' [F Hs]. destruct (roll_back_step S is_old I d1 d' c l) as (B1 & B2 & B3); auto; [eapply wal_state_mono; [apply HS|done]|].
      exists (l ++ [c]). split; [by rewrite map_app|]. split; [exists k; by rewrite <- app_assoc|]. split; [done|]. split; [|done].
      intros c' [Hc'| ->%list_elem_of_singleton]%elem_of_app; auto.
    + intros e d' [F Hs]. destruct (roll_back_step S is_old I d1 d' c l) as (B1 & _ & B3); auto.
    + intros d' [F Hs]. destruct (roll_back_step S is_old I d1 d' c l) as (B1 & _ & B3); auto.
  - exists []. split; [done|]. split; [apply prefix_nil|]. split; [done|]. split; [|done]. intros c Hc. by apply elem_of_nil in Hc.
  - intros _ d' (l & El & [k Hk] & Hc & Hl & Ho'). split; [|done]. split; [exact (proj1 Hc)|]. intros c Hc'. apply Hl.
    assert (length changes = length l) as Hlen by (apply (f_equal length) in El; cbn [intent_of intent_entries] in El; by rewrite !length_map in El).
    assert (k = []) as -> by (rewrite Hk, length_app in Hlen; destruct k; [done|cbn in Hlen; lia]). by rewrite app_nil_r in Hk; subst.
Qed.

(** ** A start keeps what was decided *)

Lemma parsed_rollback b i : b = rollback_record version changes -> TryParseTxnIntent b = Some i -> i = intent_of version changes kRollback.
Proof. intros -> H. unfold rollback_record in H. rewrite txn_intent_roundtrip in H by exact (setup_intent _ _ _ Hsetup kRollback). by injection H. Qed.

Lemma parsed_commit b i : b = commit_record version changes -> TryParseTxnIntent b = Some i -> i = intent_of version changes kCommitted.
Proof. intros -> H. unfold commit_record in H. rewrite txn_intent_roundtrip in H by exact (setup_intent _ _ _ Hsetup kCommitted). by injection H. Qed.

Definition core_gone (d : disk) : Prop := core (fun x => x = None \/ rb x) is_old d.

Lemma ours_rollback d b i : core_old d -> others_ok d -> content d ip = Some b -> TryParseTxnIntent b = Some i ->
  wp (RecoverIntent data_dir g ((version, TxnIntentName version), i)) (fun _ d' => core_gone d' /\ others_ok d')
    (fun _ d' => core_old d' /\ others_ok d') (fun d' => core_old d' /\ others_ok d') d.
Proof.
  intros HI Ho Hb Hp. assert (i = intent_of version changes kRollback) as ->.
  { apply (parsed_rollback b); [|done]. destruct HI as [[Hh _]|[Hh _]]; apply holds_content in Hh; rewrite Hb in Hh; [by injection Hh|]. destruct Hh as [?|Hh]; [done|by injection Hh]. }
  unfold RecoverIntent. change (intent_state (intent_of version changes kRollback)) with kRollback. cbv iota.
  assert (forall I d1, (forall x, I x -> x = None \/ rb x) -> core I is_old d1 /\ others_ok d1 ->
    wp (_ ← checked (remove ip) (runtime_error "failed to remove transaction intent"); SyncDirectoryPath intent_dir)
     (fun _ d' => core_gone d' /\ others_ok d') (fun _ d' => core_old d' /\ others_ok d') (fun d' => core_old d' /\ others_ok d') d1) as Hend.
  { intros I d1 HI1 [Hc1 Ho1]. eapply wp_conseq; [apply (remove_ours_ok I is_old core_gone d1 Hc1 Ho1)| | |].
    - intros d' Hc' _. eapply inv_step; [|exact Hc']. intros x [?|?]; auto.
    - done.
    - intros _ d' [? ?]. split; [by right|done].
    - intros d' [? ?]. split; [by right|done]. }
  destruct HI as [HI|HI]; apply wp_bind.
  - eapply wp_conseq; [apply (roll_back_all is_loose rb d HI Ho)| | |].
    + intros c d1 Hc Hs. exact (RollBackWal_ok data_dir g version changes old Hsetup c d1 Hc Hs).
    + exact (old_loose old).
    + intros u d1 H1. apply (Hend rb); [by right|exact H1].
    + intros e d1 [H1 H2]. split; [by left|done].
    + intros d1 [H1 H2]. split; [by left|done].
  - eapply wp_conseq; [apply (roll_back_all is_old (fun x => x = None \/ rb x) d HI Ho)| | |].
    + intros c d1 Hc Hs. exact (RollBackWal_keeps c d1 Hc Hs).
    + done.
    + intros u d1 H1. apply (Hend (fun x => x = None \/ rb x)); [done|exact H1].
    + intros e d1 [H1 H2]. split; [by right|done].
    + intros d1 [H1 H2]. split; [by right|done].
Qed.

Lemma ours_both d b i : core_both d -> others_ok d -> content d ip = Some b -> TryParseTxnIntent b = Some i ->
  wp (RecoverIntent data_dir g ((version, TxnIntentName version), i)) (fun _ d' => core_both d' /\ others_ok d')
    (fun _ d' => core_both d' /\ others_ok d') (fun d' => core_both d' /\ others_ok d') d.
Proof.
  intros [HI Hn] Ho Hb Hp. assert (i = intent_of version changes kCommitted) as ->.
  { apply (parsed_commit b); [|done]. destruct (holds_content _ _ _ (proj1 HI)) as [E|[E|E]]; rewrite Hb in E; [done|congruence|by injection E]. }
  unfold RecoverIntent. change (intent_state (intent_of version changes kCommitted)) with kCommitted. cbv iota. apply wp_bind, wp_ret.
  apply (remove_ours_ok _ is_new core_both d HI Ho). intros d' Hc' [Hnone| ->]; [|by split]. split; [|by rewrite Hnone].
  eapply inv_step; [|exact Hc']. intros x [?|?]; auto.
Qed.

Lemma ours_new d b i : core_new d -> others_ok d -> content d ip = Some b -> TryParseTxnIntent b = Some i ->
  wp (RecoverIntent data_dir g ((version, TxnIntentName version), i)) (fun _ d' => core_new d' /\ others_ok d')
    (fun _ d' => core_new d' /\ others_ok d') (fun d' => core_new d' /\ others_ok d') d.
Proof.
  intros HI Ho Hb Hp. assert (i = intent_of version changes kCommitted) as ->.
  { apply (parsed_commit b); [|done]. destruct (holds_content _ _ _ (proj1 HI)) as [E|E]; rewrite Hb in E; [done|by injection E]. }
  unfold RecoverIntent. change (intent_state (intent_of version changes kCommitted)) with kCommitted. cbv iota. apply wp_bind, wp_ret.
  apply (remove_ours_ok _ is_new core_new d HI Ho). intros d' Hc' _. eapply inv_step; [|exact Hc']. intros x [?|?]; auto.
Qed.

Lemma recover_old d : core_old d -> others_ok d ->
  wp Recover (fun _ d' => core_gone d' /\ others_ok d') (fun _ d' => core_old d' /\ others_ok d') (fun d' => core_old d' /\ others_ok d') d.
Proof.
  apply recover_ok.
  - exact version_ok.
  - exact core_old_closed.
  - exact (core_closed _ _).
  - intros d' H. by right.
  - intros d' [H|H] Hn; [|exact H]. pose proof (holds_content _ _ _ (proj1 H)) as E. rewrite Hn in E. done.
  - exact ours_rollback.
Qed.

Lemma recover_both d : core_both d -> others_ok d ->
  wp Recover (fun _ d' => core_both d' /\ others_ok d') (fun _ d' => core_both d' /\ others_ok d') (fun d' => core_both d' /\ others_ok d') d.
Proof. apply recover_ok; [exact version_ok|exact core_both_closed|exact core_both_closed|done|done|exact ours_both]. Qed.

Lemma recover_new d : core_new d -> others_ok d ->
  wp Recover (fun _ d' => core_new d' /\ others_ok d') (fun _ d' => core_new d' /\ others_ok d') (fun d' => core_new d' /\ others_ok d') d.
Proof. apply recover_ok; [exact version_ok|exact (core_closed _ _)|exact (core_closed _ _)|done|done|exact ours_new]. Qed.

(** ** Power losses *)

Lemma core_crashed I S d d' : crashed d d' -> core I S d -> core I S d'.
Proof. intros Hc [H1 H2]. split; [by eapply holds_crashed|]. intros c Hin. by eapply wal_state_crashed; [|apply H2]. Qed.

Lemma others_crashed d d' : crashed d d' -> others_ok d -> others_ok d'.
Proof. intros Hc H n Hn Ha Hf. eapply holds_crashed; [exact Hc|by apply H]. Qed.

Lemma core_both_crashed d d' : crashed d d' -> core_both d -> core_old d' \/ core_both d'.
Proof.
  intros Hc [H _]. pose proof (core_crashed _ _ d d' Hc H) as H'. destruct (decide (content d' ip = Some (rollback_record version changes))) as [E|E].
  - left. left. split.
    + intros x Hx. by rewrite (crashed_may d d' ip x Hc Hx).
    + intros c Hin. eapply wal_state_mono; [apply new_loose|exact (proj2 H' c Hin)].
  - right. by split.
Qed.

(** A start: of a process that ended, or after a power loss. *)
Definition restart (d d' : disk) : Prop := d' = d \/ crashed d d'.

Definition completed {A} (r : result A) : bool := match r with Done _ _ _ => true | _ => false end.
Definition disk_of {A} (r : result A) : disk := match r with Done _ _ d => d | Threw _ _ d => d | Died d => d end.

(** What any number of starts leaves, and whether the recovery of the last one
    was completed. *)
Inductive after_starts (d : disk) : bool -> disk -> Prop :=
| no_start : after_starts d false d
| one_more b d1 d2 os : after_starts d b d1 -> restart d1 d2 -> after_starts d (completed (Recover os d2)) (disk_of (Recover os d2)).

Lemma wp_run {A} (m : io A) (Q : disk -> Prop) (P : disk -> Prop) d os : wp m (fun _ => Q) (fun _ => P) P d -> (forall d', Q d' -> P d') ->
  P (disk_of (m os d)) /\ (completed (m os d) = true -> Q (disk_of (m os d))).
Proof. intros H HP. specialize (H os). destruct (m os d); cbn; split; auto; done. Qed.

Lemma starts_new d b d' : after_starts d b d' -> core_new d /\ others_ok d -> core_new d' /\ others_ok d'.
Proof.
  intros H Hd. induction H as [|b d1 d2 os H IH Hr]; [done|]. destruct IH as [H1 H2]. assert (core_new d2 /\ others_ok d2) as [H3 H4].
  { destruct Hr as [->|Hc]; [done|]. split; [by eapply core_crashed|by eapply others_crashed]. }
  by destruct (wp_run Recover _ _ d2 os (recover_new d2 H3 H4)) as [? _].
Qed.

Lemma starts_old d b d' : after_starts d b d' -> core_old d /\ others_ok d -> (core_old d' /\ others_ok d') /\ (b = true -> core_gone d').
Proof.
  intros H Hd. induction H as [|b d1 d2 os H IH Hr]; [done|]. destruct IH as [[H1 H2] _]. assert (core_old d2 /\ others_ok d2) as [H3 H4].
  { destruct Hr as [->|Hc]; [done|]. split; [|by eapply others_crashed]. destruct H1 as [H1|H1]; [left|right]; by eapply core_crashed. }
  destruct (wp_run Recover _ _ d2 os (recover_old d2 H3 H4)) as [B1 B2]; [intros d' [? ?]; split; [by right|done]|]. split; [done|]. intros E. by apply B2.
Qed.

Lemma starts_both d b d' : after_starts d b d' -> (core_old d \/ core_both d) /\ others_ok d ->
  others_ok d' /\ (core_old d' /\ (b = true -> core_gone d') \/ core_both d').
Proof.
  intros H Hd. induction H as [|b d1 d2 os H IH Hr]; [destruct Hd as [[?|?] ?]; (split; [done|]); [by left|by right]|]. destruct IH as [H1 H2].
  assert (others_ok d2 /\ (core_old d2 \/ core_both d2)) as [H3 H4].
  { destruct Hr as [->|Hc]; [destruct H2 as [[? _]|?]; auto|]. split; [by eapply others_crashed|]. destruct H2 as [[H2 _]|H2]; [|by eapply core_both_crashed].
    left. destruct H2 as [H2|H2]; [left|right]; by eapply core_crashed. }
  destruct H4 as [H4|H4].
  - destruct (wp_run Recover _ _ d2 os (recover_old d2 H4 H3)) as [[B1 B2] B3]; [intros d' [? ?]; split; [by right|done]|]. split; [done|]. left. split; [done|].
    intros E. by apply B3.
  - destruct (wp_run Recover _ _ d2 os (recover_both d2 H4 H3)) as [[B1 B2] _]; [done|]. split; [done|by right].
Qed.

(** What the WALs hold. *)
Definition all_old (d : disk) : Prop := forall c, c ∈ changes -> default [] (content d (wal c)) = old c.
Definition all_new (d : disk) : Prop := forall c, c ∈ changes -> content d (wal c) = Some (old c ++ frame_bytes c).

Lemma core_all_old I d : core I is_old d -> all_old d.
Proof. intros [_ H] c Hc. exact (holds_content _ _ _ (ws_holds _ _ _ _ _ _ (H c Hc))). Qed.
Lemma core_all_new I d : core I is_new d -> all_new d.
Proof. intros [_ H] c Hc. exact (holds_content _ _ _ (ws_holds _ _ _ _ _ _ (H c Hc))). Qed.

Lemma inv_core_old d : inv_old d -> core_old d /\ others_ok d.
Proof. intros [H|H]; apply core_inv in H as [? ?]; (split; [|done]); [by left|by right]. Qed.
Lemma inv_core_both d : inv_both d -> core_both d /\ others_ok d.
Proof. intros [H1 H2]. apply core_inv in H1 as [? ?]. split; [by split|done]. Qed.
Lemma inv_core_new d : inv_new d -> core_new d /\ others_ok d.
Proof. intros H. apply core_inv in H as [? ?]. done. Qed.

Abbreviation Commit := (CommitFiles data_dir g barrier_durability_floor version changes suffix1 suffix2 suffix3).

(** The disk a commit starts on.  Its chunks' WALs hold what the commit found in
    them and that is synced, the transaction has no intent yet,
    and every other transaction intent in the directory is a committed one.  No WAL
    has a second link: a backup of the store makes such links, and until they are
    gone the guarantee does not cover the chunk (TxnAtomic.replaced_wal_not_atomic).
    A rollback intent of another transaction is there only while that one commits
    or after it failed closed. *)
Definition ready (d : disk) : Prop := inv (fun x => x = None) is_old d.

Lemma commit_then_starts os d : ready d ->
  match Commit os d with
  | Done Applied _ d' => all_new d' /\ (forall b d2, after_starts d' b d2 -> all_new d2)
  | Done (NotApplied _ closed) _ d' => (closed = false -> all_old d') /\ (forall d2, after_starts d' true d2 -> all_old d2)
  | Done OutcomeUnknown _ d' => all_new d' /\ (forall d2, after_starts d' true d2 -> all_old d2 \/ all_new d2)
  | Threw _ _ _ => False
  | Died d' => forall d2, after_starts d' true d2 -> all_old d2 \/ all_new d2
  end.
Proof.
  intros Hr. pose proof (CommitFiles_ok data_dir g barrier_durability_floor version changes suffix1 suffix2 suffix3 old Hsetup d Hr os) as H.
  assert (forall d', (core_old d' \/ core_both d') /\ others_ok d' -> forall d2, after_starts d' true d2 -> all_old d2 \/ all_new d2) as Hany.
  { intros d' Hd' d2 H2. destruct (starts_both d' true d2 H2 Hd') as [_ [[_ Hg]|Hb]]; [left; by eapply core_all_old, Hg|right; exact (core_all_new _ _ (proj1 Hb))]. }
  destruct (Commit os d) as [[| |e closed] os' d'|e os' d'|d']; cbn in H; [| | |done|].
  - apply inv_core_new in H. split; [exact (core_all_new _ _ (proj1 H))|]. intros b d2 H2. exact (core_all_new _ _ (proj1 (starts_new d' b d2 H2 H))).
  - apply inv_core_both in H as [H1 H2]. split; [exact (core_all_new _ _ (proj1 H1))|]. apply Hany. by split; [right|].
  - destruct H as [H1 H2]. split; [intros E; specialize (H2 E); apply core_inv in H2 as [_ H2]; exact (core_all_old _ _ H2)|].
    intros d2 H3. apply inv_core_old in H1. destruct (starts_old d' true d2 H3 H1) as [_ Hg]. exact (core_all_old _ _ (Hg eq_refl)).
  - apply Hany. destruct H as [H|H]; [apply inv_core_old in H as [? ?]|apply inv_core_both in H as [? ?]]; auto.
Qed.

(** ** Recovery ends *)

Lemma RollBackWal_fine c d : c ∈ changes -> wal_state is_loose d c -> fine (RollBackWal data_dir g {| entry_coord := change_coord c; wal_boundary := boundary c |}) d.
Proof.
  intros Hc H. unfold RollBackWal. cbn [entry_coord wal_boundary]. change (ChunkWalPath data_dir g (change_coord c)) with (wal c).
  apply fine_exists. rewrite (boundary_zero _ _ _ Hsetup) by done. pose proof (setup_boundary _ _ _ Hsetup c Hc) as Hb.
  destruct (names d !! wal c) as [f|] eqn:Ef.
  - rewrite bool_decide_true by done. cbn [negb]. apply (fine_file_size _ _ _ _ f Ef). destruct (loose_data _ _ _ _ _ _ H Ef) as [y Hy].
    apply fine_when; [apply Z.ltb_ge; rewrite Hb, Hy, length_app; lia|]. case_bool_decide.
    + apply fine_checked_bind, fine_checked.
    + destruct (Z.eqb_spec (len (data f)) (boundary c)); cbn [negb].
      * eapply fine_bind; [apply fine_ret|exact (wp_ret tt (fun _ d' => d' = d) (fun _ _ => True) (fun _ => True) d eq_refl)|]. intros _ d' ->. apply fine_SyncFilePath. by rewrite Ef.
      * apply fine_checked_bind, fine_SyncFilePath. destruct (resize_file (wal c) (Z.to_nat (boundary c)) d f Ef) as (f' & -> & _). by eexists.
  - rewrite bool_decide_false by (by intros [? ?]). cbn [negb]. pose proof (loose_absent _ _ _ _ _ H Ef) as Ho.
    apply fine_when; [by rewrite bool_decide_true|]. apply fine_directory_exists, fine_checked.
Qed.

Lemma roll_back_fine d : (forall c, c ∈ changes -> wal_state is_loose d c) -> fine (for_each (intent_entries (intent_of version changes kRollback)) (RollBackWal data_dir g)) d.
Proof.
  set (I := fun d : disk => forall c, c ∈ changes -> wal_state is_loose d c). intros H.
  apply (fine_for_each _ (fun _ => I) (fun _ => I) I); [|exact H]. intros es1 e es2 d1 El HI.
  assert (e ∈ intent_entries (intent_of version changes kRollback)) as Hin by (rewrite El; apply elem_of_app; right; by left).
  apply list_elem_of_fmap in Hin as (c & -> & Hc). split; [by apply RollBackWal_fine, HI|].
  assert (forall d', frame [wal c] d1 d' /\ wal_state is_loose d' c -> I d') as HI'.
  { intros d' [F Hs] c' Hc'. destruct (decide (wal c' = wal c)) as [E|E].
    - assert (c' = c) as -> by by eapply (wal_inj data_dir g version changes old Hsetup). done.
    - eapply wal_state_frame; [exact F|by rewrite list_elem_of_singleton|by apply HI]. }
  eapply wp_conseq; [exact (RollBackWal_ok data_dir g version changes old Hsetup c d1 Hc (HI c Hc))| | |]; intros.
  - apply HI'. destruct H0 as [F Ho]. split; [done|]. eapply wal_state_mono; [apply old_loose|done].
  - by apply HI'.
  - by apply HI'.
Qed.

Lemma old_fine d : core_old d -> others_ok d -> fine Recover d.
Proof.
  apply (recover_fine data_dir g current_pid IsProcessAlive TmpArtifactAgeMs version core_old core_gone).
  - exact version_ok.
  - exact core_old_closed.
  - exact (core_closed _ _).
  - intros d' H. by right.
  - exact ours_rollback.
  - intros d1 b HI Ho Hb. exists (intent_of version changes kRollback). assert (b = rollback_record version changes) as ->.
    { destruct HI as [[Hh _]|[Hh _]]; apply holds_content in Hh; rewrite Hb in Hh; [by injection Hh|]. destruct Hh as [?|Hh]; [done|by injection Hh]. }
    split; [exact (txn_intent_roundtrip _ (setup_intent _ _ _ Hsetup kRollback))|]. split; [done|]. unfold RecoverIntent.
    change (intent_state (intent_of version changes kRollback)) with kRollback. cbv iota.
    assert (forall c, c ∈ changes -> wal_state is_loose d1 c) as Hl.
    { destruct HI as [[_ H]|[_ H]]; [exact H|]. intros c Hc. eapply wal_state_mono; [apply old_loose|by apply H]. }
    eapply fine_bind; [by apply roll_back_fine|apply wp_true|]. intros _ d2 _. apply fine_checked_bind, fine_checked.
Qed.

Lemma both_fine d : core_both d -> others_ok d -> fine Recover d.
Proof.
  apply (recover_fine data_dir g current_pid IsProcessAlive TmpArtifactAgeMs version core_both core_both).
  - exact version_ok.
  - exact core_both_closed.
  - exact core_both_closed.
  - done.
  - exact ours_both.
  - intros d1 b [HI Hn] Ho Hb. exists (intent_of version changes kCommitted). assert (b = commit_record version changes) as ->.
    { destruct (holds_content _ _ _ (proj1 HI)) as [E|[E|E]]; rewrite Hb in E; [done|congruence|by injection E]. }
    split; [exact (txn_intent_roundtrip _ (setup_intent _ _ _ Hsetup kCommitted))|]. split; [done|]. unfold RecoverIntent.
    change (intent_state (intent_of version changes kCommitted)) with kCommitted. cbv iota.
    eapply fine_bind; [apply fine_ret|apply wp_true|]. intros _ d2 _. apply fine_checked_bind, fine_checked.
Qed.

Lemma commit_leaves os d : ready d -> (core_old (disk_of (Commit os d)) \/ core_both (disk_of (Commit os d))) /\ others_ok (disk_of (Commit os d)).
Proof.
  intros Hr. pose proof (CommitFiles_ok data_dir g barrier_durability_floor version changes suffix1 suffix2 suffix3 old Hsetup d Hr os) as H.
  assert (forall d', inv_both d' -> (core_old d' \/ core_both d') /\ others_ok d') as Hb by (intros d' H'; apply inv_core_both in H' as [? ?]; auto).
  assert (forall d', inv_old d' -> (core_old d' \/ core_both d') /\ others_ok d') as Ho by (intros d' H'; apply inv_core_old in H' as [? ?]; auto).
  destruct (Commit os d) as [[| |e closed] os' d'|e os' d'|d']; cbn [outcome_ok] in H; cbn [disk_of].
  - by apply Hb, (new_both data_dir g version changes old Hsetup).
  - by apply Hb.
  - exact (Ho _ (proj1 H)).
  - destruct H.
  - destruct H; auto.
Qed.

Lemma recovery_ends os b d d1 d2 : ready d -> after_starts (disk_of (Commit os d)) b d1 -> restart d1 d2 ->
  exists d3, Recover [] d2 = Done tt [] d3 /\ (forall n, IsTxnIntentFileName n = true -> names d3 !! (intent_dir, n) = None) /\ (all_old d3 \/ all_new d3).
Proof.
  intros Hr H1 H2. pose proof (commit_leaves os d Hr) as Hl. destruct (starts_both _ b d1 H1 Hl) as [Ho H3].
  assert (others_ok d2 /\ (core_old d2 \/ core_both d2)) as [Ho2 Hc2].
  { destruct H2 as [->|Hc]; [destruct H3 as [[? _]|?]; auto|]. split; [by eapply others_crashed|]. destruct H3 as [[H3 _]|H3]; [|by eapply core_both_crashed].
    left. destruct H3 as [H3|H3]; [left|right]; by eapply core_crashed. }
  assert (fine Recover d2) as ([] & d3 & Hd3) by (destruct Hc2; [by apply old_fine|by apply both_fine]). exists d3. split; [done|].
  split; [by pose proof (recover_clears data_dir g current_pid IsProcessAlive TmpArtifactAgeMs d2 []) as Hc; rewrite Hd3 in Hc|].
  assert (after_starts (disk_of (Commit os d)) true d3) as Hs.
  { replace d3 with (disk_of (Recover [] d2)) by (by rewrite Hd3). replace true with (completed (Recover [] d2)) by (by rewrite Hd3). by eapply one_more. }
  destruct (starts_both _ true d3 Hs Hl) as [_ [[_ Hg]|Hb]]; [left; exact (core_all_old _ _ (Hg eq_refl))|right; exact (core_all_new _ _ (proj1 Hb))].
Qed.

End Restarts.

End TxnRecovery.
