(* ===== verification/TxnDiff.v ===== *)
(** * The frame of a transaction (src/src/txn_commit.cpp)

    A commit writes, for each chunk, one frame with what differs between the
    chunk as it is and as the transaction leaves it: spans of the payload and
    the presence bitmap, and the values put and deleted.  Applied to the chunk
    as it is, the frame gives the chunk of the transaction. *)
From stdpp Require Import prelude strings gmap sorting.
From Stdlib Require Import ZArith Lia.
From S2P Require Import Prelude Bits Vars Columns Schema Layout Geometry Features LittleEndian ChunkFormat WalFrame WalReplay.

#[local] Open Scope Z_scope.

Module TxnDiff.
Import Schema Layout Geometry ChunkFormat WalFrame WalReplay.

(** ** The source *)

Definition kTxnSpanMergeGap : Z := 16.

(** The span that is open: its begin and its end. *)
Abbreviation run_t := (option (Z * Z)).

Definition AppendRun (frame : WalFrameBuilder) (base : Z) (after : bytes) (begin_ end_ : Z) : res WalFrameBuilder :=
  AppendSpan frame (u32 (base + begin_)) (slice after begin_ (end_ - begin_)).

(** The loop over [after] from byte [i], with [n] bytes left. *)
Fixpoint DiffLoop (n : nat) (i : Z) (frame : WalFrameBuilder) (base : Z) (before after : bytes) (open : run_t) : res WalFrameBuilder :=
  match n with
  | O => match open with Some (begin_, end_) => AppendRun frame base after begin_ end_ | None => Ok frame end
  | S n' =>
      if byte_at before i =? byte_at after i then DiffLoop n' (i + 1) frame base before after open
      else match open with
           | Some (begin_, end_) =>
               if i - end_ <=? kTxnSpanMergeGap then DiffLoop n' (i + 1) frame base before after (Some (begin_, i + 1))
               else frame ← AppendRun frame base after begin_ end_;
                    DiffLoop n' (i + 1) frame base before after (Some (i, i + 1))
           | None => DiffLoop n' (i + 1) frame base before after (Some (i, i + 1))
           end
  end.

Definition AppendDiffSpans (frame : WalFrameBuilder) (base : Z) (before after : bytes) : res WalFrameBuilder :=
  DiffLoop (length after) 0 frame base before after None.

Abbreviation entry_t := (Vars.VarKey * bytes)%type.

(** The two iterators, each with the entries it has left. *)
Fixpoint VarDiffLoop (old : list entry_t) : list entry_t -> WalFrameBuilder -> res WalFrameBuilder :=
  fix walk (new : list entry_t) (frame : WalFrameBuilder) : res WalFrameBuilder :=
    match old, new with
    | [], [] => Ok frame
    | (k, _) :: old', [] => frame ← AppendVarDel frame k; VarDiffLoop old' [] frame
    | [], (k', v') :: new' => frame ← AppendVarPut frame k' v'; walk new' frame
    | (k, v) :: old', (k', v') :: new' =>
        if Vars.packed k <? Vars.packed k' then frame ← AppendVarDel frame k; VarDiffLoop old' new frame
        else if Vars.packed k' <? Vars.packed k then frame ← AppendVarPut frame k' v'; walk new' frame
        else frame ← (if bool_decide (v = v') then Ok frame else AppendVarPut frame k' v'); VarDiffLoop old' new' frame
    end.

Definition AppendVarDiff (frame : WalFrameBuilder) (before after : Vars.ChunkVars) : res WalFrameBuilder :=
  VarDiffLoop (entries before) (entries after) frame.

(** What a transaction finds of a chunk and what it leaves. *)
Record State := { payload : bytes; presence : bytes; vars : Vars.ChunkVars }.

(** The frame of one change, after the header [bytes] of a new WAL. *)
Definition BuildTxnFrame (g : Geometry) (header : bytes) (user : option bytes) (before after : State) (version_ commit_time_ms : Z) : res bytes :=
  frame ← MakeWalFrameBuilder header (version (schema_ (layout_ g))) [] user false;
  frame ← AppendDiffSpans frame 0 (payload before) (payload after);
  frame ← AppendDiffSpans frame (ChunkPayloadBytes g) (presence before) (presence after);
  frame ← AppendVarDiff frame (vars before) (vars after);
  '(frame, _) ← Finish frame version_ commit_time_ms;
  Ok (batch_ frame).

(** ** The records it appends *)

Fixpoint diff_runs (n : nat) (i : Z) (before after : bytes) (open : run_t) : list (Z * Z) :=
  match n with
  | O => match open with Some r => [r] | None => [] end
  | S n' =>
      if byte_at before i =? byte_at after i then diff_runs n' (i + 1) before after open
      else match open with
           | Some (begin_, end_) =>
               if i - end_ <=? kTxnSpanMergeGap then diff_runs n' (i + 1) before after (Some (begin_, i + 1))
               else (begin_, end_) :: diff_runs n' (i + 1) before after (Some (i, i + 1))
           | None => diff_runs n' (i + 1) before after (Some (i, i + 1))
           end
  end.

Definition runs (before after : bytes) : list (Z * Z) := diff_runs (length after) 0 before after None.

Definition run_span (base : Z) (after : bytes) (r : Z * Z) : Z * bytes := (base + r.1, slice after r.1 (r.2 - r.1)).

Definition diff_spans (base : Z) (before after : bytes) : list (Z * bytes) := run_span base after <$> runs before after.

Fixpoint diff_vars (old : list entry_t) : list entry_t -> list Vars.VarChange :=
  fix walk (new : list entry_t) : list Vars.VarChange :=
    match old, new with
    | [], [] => []
    | (k, _) :: old', [] => {| Vars.change_key := k; Vars.change_value := None |} :: diff_vars old' []
    | [], (k', v') :: new' => {| Vars.change_key := k'; Vars.change_value := Some v' |} :: walk new'
    | (k, v) :: old', (k', v') :: new' =>
        if Vars.packed k <? Vars.packed k' then {| Vars.change_key := k; Vars.change_value := None |} :: diff_vars old' new
        else if Vars.packed k' <? Vars.packed k then {| Vars.change_key := k'; Vars.change_value := Some v' |} :: walk new'
        else (if bool_decide (v = v') then [] else [{| Vars.change_key := k'; Vars.change_value := Some v' |}]) ++ diff_vars old' new'
    end.

Definition span_record (s : Z * bytes) : wal_record := RSpan s.1 s.2.
Definition change_record (c : Vars.VarChange) : wal_record :=
  match Vars.change_value c with Some v => RVarPut (Vars.change_key c) v | None => RVarDel (Vars.change_key c) end.

Definition txn_frame (g : Geometry) (user : option bytes) (before after : State) (version_ commit_time_ms : Z) : frame_t :=
  {| fr_revision := version_; fr_time := commit_time_ms; fr_version := version (schema_ (layout_ g)); fr_tag := []; fr_user := user; fr_gc := false;
     fr_records := (span_record <$> diff_spans 0 (payload before) (payload after)) ++
                   (span_record <$> diff_spans (ChunkPayloadBytes g) (presence before) (presence after)) ++
                   (change_record <$> diff_vars (entries (vars before)) (entries (vars after))) |}.

(** ** Spans *)

(** The runs lie in the bytes that are left, in order, and cover what differs. *)
Record runs_ok (from to_ : Z) (before after : bytes) (rs : list (Z * Z)) : Prop := {
  ro_bounds : Forall (fun r => from <= r.1 < r.2 /\ r.2 <= to_) rs;
  ro_total : foldr (fun r acc => r.2 - r.1 + acc) 0 rs <= to_ - from;
  ro_cover : forall j, from <= j < to_ -> byte_at before j <> byte_at after j -> Exists (fun r => r.1 <= j < r.2) rs
}.

Lemma runs_cons from mid to_ before after b e rs : from <= b < e -> e <= mid -> mid <= to_ -> runs_ok mid to_ before after rs ->
  (forall j, from <= j < mid -> byte_at before j <> byte_at after j -> b <= j < e) -> runs_ok from to_ before after ((b, e) :: rs).
Proof.
  intros H1 H2 H3 [B T C] Hj. constructor.
  - constructor; [cbn; lia|]. eapply Forall_impl; [exact B|]. cbn. lia.
  - cbn [foldr fst snd]. lia.
  - intros j H Hne. destruct (Z_lt_ge_dec j mid); [left; apply Hj; [lia|done]|right; apply C; [lia|done]].
Qed.

Lemma runs_later from mid to_ before after rs : from <= mid -> runs_ok mid to_ before after rs ->
  (forall j, from <= j < mid -> byte_at before j = byte_at after j) -> runs_ok from to_ before after rs.
Proof.
  intros H1 [B T C] Hj. constructor.
  - eapply Forall_impl; [exact B|]. cbn. lia.
  - lia.
  - intros j H Hne. apply C; [|done]. destruct (Z_lt_ge_dec j mid); [|lia]. exfalso. apply Hne, Hj. lia.
Qed.

Lemma diff_runs_ok before after n : forall i open, 0 <= i ->
  match open with Some (b, e) => 0 <= b < e /\ e <= i /\ (forall j, e <= j < i -> byte_at before j = byte_at after j) | None => True end ->
  runs_ok (match open with Some (b, _) => b | None => i end) (i + Z.of_nat n) before after (diff_runs n i before after open).
Proof.
  induction n as [|n IH]; intros i open Hi Hopen; cbn [diff_runs].
  - rewrite Z.add_0_r. destruct open as [[b e]|]; [|constructor; [constructor|cbn; lia|lia]].
    destruct Hopen as (H1 & H2 & H3). apply (runs_cons b i); [lia|lia|lia|constructor; [constructor|cbn; lia|lia]|].
    intros j Hj Hne. destruct (Z_lt_ge_dec j e); [lia|]. exfalso. apply Hne, H3. lia.
  - replace (i + Z.of_nat (S n)) with (i + 1 + Z.of_nat n) by lia. destruct (Z.eqb_spec (byte_at before i) (byte_at after i)) as [E|E].
    + destruct open as [[b e]|].
      * destruct Hopen as (H1 & H2 & H3). apply (IH (i + 1) (Some (b, e))); [lia|]. split; [done|]. split; [lia|]. intros j Hj.
        destruct (decide (j = i)) as [->|]; [done|apply H3; lia].
      * apply (runs_later i (i + 1)); [lia|by apply (IH (i + 1) None); [lia|]|]. intros j Hj. by replace j with i by lia.
    + destruct open as [[b e]|]; [|apply (IH (i + 1) (Some (i, i + 1))); [lia|]; repeat split; lia].
      destruct Hopen as (H1 & H2 & H3). case_match.
      * apply (IH (i + 1) (Some (b, i + 1))); [lia|]. repeat split; lia.
      * apply (runs_cons b i); [lia|lia|lia|apply (IH (i + 1) (Some (i, i + 1))); [lia|]; repeat split; lia|].
        intros j Hj Hne. destruct (Z_lt_ge_dec j e); [lia|]. exfalso. apply Hne, H3. lia.
Qed.

Lemma runs_spec before after : runs_ok 0 (len after) before after (runs before after).
Proof. exact (diff_runs_ok before after (length after) 0 None ltac:(lia) I). Qed.

(** The loop appends the spans of the runs. *)
Lemma AppendRun_record frame base after b e : in_u 32 (base + b) ->
  AppendRun frame base after b e = AppendRecord frame (span_record (run_span base after (b, e))).
Proof. intros H. unfold AppendRun. by rewrite wrap_small. Qed.

Lemma DiffLoop_records base before after n : forall i frame open,
  Forall (fun r => in_u 32 (base + r.1)) (diff_runs n i before after open) ->
  DiffLoop n i frame base before after open = fold_res AppendRecord frame (span_record <$> (run_span base after <$> diff_runs n i before after open)).
Proof.
  induction n as [|n IH]; intros i frame open H; cbn [DiffLoop diff_runs] in *.
  - destruct open as [[b e]|]; [|done]. apply Forall_cons in H as [H _]. rewrite AppendRun_record by exact H. cbn [fmap list_fmap fold_res].
    destruct (AppendRecord _ _); done.
  - destruct (byte_at before i =? byte_at after i); [by apply IH|]. destruct open as [[b e]|]; [|by apply IH]. case_match; [by apply IH|].
    apply Forall_cons in H as [H1 H2]. rewrite AppendRun_record by exact H1. cbn [fmap list_fmap fold_res].
    destruct (AppendRecord _ _); [|done]. cbn [mbind res_bind]. by apply IH.
Qed.

(** Writing the runs makes the bytes equal. *)
Lemma write_runs base after rs state : 0 <= base -> base + len after <= len state ->
  Forall (fun r => 0 <= r.1 < r.2 /\ r.2 <= len after) rs ->
  let state' := write_spans (run_span base after <$> rs) state in
  len state' = len state /\
  (forall j, 0 <= j -> ~ Exists (fun r => r.1 <= j - base < r.2) rs -> byte_at state' j = byte_at state j) /\
  (forall j, Exists (fun r => r.1 <= j < r.2) rs -> byte_at state' (base + j) = byte_at after j).
Proof.
  intros Hb Hl. revert state Hl. induction rs as [|[b e] rs IH]; intros state Hl H; cbn [fmap list_fmap write_spans fold_left].
  { split; [done|]. split; [done|]. intros j Hj. by apply Exists_nil in Hj. }
  apply Forall_cons in H as [He H]. cbn in He. set (s := splice state (run_span base after (b, e)).1 (run_span base after (b, e)).2).
  assert (len (slice after b (e - b)) = e - b) as Ls by (apply len_slice; lia).
  assert (len s = len state) as Es by (apply len_splice; cbn [run_span fst snd]; lia).
  destruct (IH s ltac:(lia) H) as (I1 & I2 & I3). cbv zeta. fold (write_spans (run_span base after <$> rs) s).
  assert (forall j, 0 <= j -> byte_at s j = if (base + b <=? j) && (j <? base + e) then byte_at after (j - base) else byte_at state j) as Hs.
  { intros j Hj. unfold s, run_span. cbn [fst snd]. rewrite byte_at_splice by lia. rewrite Ls. replace (base + b + (e - b)) with (base + e) by lia.
    destruct (Z.leb_spec (base + b) j), (Z.ltb_spec j (base + e)); cbn [andb]; [|done|done|done]. rewrite byte_at_slice by lia. f_equal. lia. }
  split; [lia|]. split.
  - intros j Hj Hn. rewrite I2, Hs; [|done|done|intros Hx; apply Hn; by right].
    destruct (Z.leb_spec (base + b) j), (Z.ltb_spec j (base + e)); cbn [andb]; try done. exfalso. apply Hn. left. cbn. lia.
  - intros j Hj. destruct (decide (Exists (fun r => r.1 <= j < r.2) rs)) as [Hx|Hx]; [by apply I3|].
    apply Exists_cons in Hj as [Hj|Hj]; [|done]. cbn in Hj. rewrite I2; [|lia|].
    + rewrite Hs by lia. rewrite (proj2 (Z.leb_le _ _)), (proj2 (Z.ltb_lt _ _)) by lia. cbn [andb]. f_equal. lia.
    + intros Hy. apply Hx. eapply Exists_impl; [exact Hy|]. cbn. lia.
Qed.

Lemma bytes_ext l1 l2 : len l1 = len l2 -> (forall j, 0 <= j < len l1 -> byte_at l1 j = byte_at l2 j) -> l1 = l2.
Proof.
  intros L H. apply list_eq_same_length with (length l2); [done|lia|]. intros i x y Hi Hx Hy.
  specialize (H (Z.of_nat i)). rewrite !byte_at_lookup, Nat2Z.id, Hx, Hy in H. apply H. lia.
Qed.

Lemma splice_mid pre q post b x : 0 <= b -> b + len x <= len q -> splice (pre ++ q ++ post) (len pre + b) x = pre ++ splice q b x ++ post.
Proof.
  intros H1 H2. unfold splice. replace (Z.to_nat (len pre + b)) with (length pre + Z.to_nat b)%nat by lia.
  replace (length pre + Z.to_nat b + length x)%nat with (length pre + (Z.to_nat b + length x))%nat by lia.
  rewrite take_app_add, drop_app_add, take_app_le, drop_app_le by lia. by rewrite <- !app_assoc.
Qed.

Lemma write_spans_mid pre q post after rs : len q = len after -> Forall (fun r => 0 <= r.1 < r.2 /\ r.2 <= len after) rs ->
  write_spans (run_span (len pre) after <$> rs) (pre ++ q ++ post) = pre ++ write_spans (run_span 0 after <$> rs) q ++ post.
Proof.
  revert q. induction rs as [|[b e] rs IH]; intros q L H; [done|]. apply Forall_cons in H as [He H]. cbn in He.
  assert (len (slice after b (e - b)) = e - b) as Ls by (apply len_slice; lia).
  rewrite !fmap_cons. unfold write_spans. cbn [fold_left run_span fst snd]. rewrite splice_mid by lia. apply IH; [|done]. rewrite <- L. apply len_splice; lia.
Qed.

(** What the spans of two strings of bytes do to a third one. *)
Definition overlay (before after q : bytes) : bytes := write_spans (diff_spans 0 before after) q.

Lemma diff_spans_mid pre q post before after : len q = len after ->
  write_spans (diff_spans (len pre) before after) (pre ++ q ++ post) = pre ++ overlay before after q ++ post.
Proof. intros L. apply write_spans_mid; [done|]. exact (ro_bounds _ _ _ _ _ (runs_spec before after)). Qed.

Lemma overlay_bytes before after q : len q = len after -> len (overlay before after q) = len q /\
  forall j, 0 <= j < len after -> byte_at (overlay before after q) j = byte_at after j \/
    byte_at (overlay before after q) j = byte_at q j /\ byte_at before j = byte_at after j.
Proof.
  intros L. destruct (runs_spec before after) as [B _ C]. destruct (write_runs 0 after (runs before after) q) as (W1 & W2 & W3); [lia|lia|exact B|].
  split; [exact W1|]. intros j Hj. destruct (decide (Exists (fun r => r.1 <= j < r.2) (runs before after))) as [Hx|Hx].
  - left. rewrite <- (W3 j Hx). by rewrite Z.add_0_l.
  - right. split; [apply W2; [lia|by rewrite Z.sub_0_r]|]. destruct (decide (byte_at before j = byte_at after j)); [done|]. exfalso. by apply Hx, C.
Qed.

Lemma overlay_same before after : len before = len after -> overlay before after before = after.
Proof.
  intros L. destruct (overlay_bytes before after before L) as [O1 O2]. apply bytes_ext; [lia|]. intros j Hj.
  destruct (O2 j ltac:(lia)) as [E|[E1 E2]]; congruence.
Qed.

Lemma diff_spans_each base before after : bytes_ok after -> 0 <= base -> base + len after + 4 < 2 ^ 32 ->
  Forall (fun s => record_sized (span_record s) /\ bytes_ok s.2 /\ base <= s.1 /\ s.1 + len s.2 <= base + len after) (diff_spans base before after).
Proof.
  intros Ha Hb Hl. apply Forall_fmap. eapply Forall_impl; [exact (ro_bounds _ _ _ _ _ (runs_spec before after))|]. intros [b e] Hr. cbn in Hr. cbn.
  assert (len (slice after b (e - b)) = e - b) as Ls by (apply len_slice; lia). split; [|split; [by apply bytes_ok_slice|lia]].
  unfold span_record, run_span, record_sized. cbn [fst snd record_body]. rewrite length_app, length_le_bytes, Nat2Z.inj_add, Ls.
  split; [lia|]. split; [|lia]. intros E. rewrite E in Ls. cbn in Ls. lia.
Qed.

Lemma diff_spans_size base before after :
  len (concat (record_bytes <$> (span_record <$> diff_spans base before after))) <= 10 * len after /\ len (diff_spans base before after) <= len after.
Proof.
  destruct (runs_spec before after) as [B T _]. unfold diff_spans. rewrite Z.sub_0_r in T.
  enough (len (concat (record_bytes <$> (span_record <$> (run_span base after <$> runs before after)))) <= 10 * foldr (fun r acc => r.2 - r.1 + acc) 0 (runs before after) /\
    len (runs before after) <= foldr (fun r acc => r.2 - r.1 + acc) 0 (runs before after)) by (rewrite length_fmap; lia).
  clear T. induction (runs before after) as [|[b e] rs IH]; [done|]. apply Forall_cons in B as [Hr B]. cbn in Hr. specialize (IH B). rewrite !fmap_cons. cbn [concat foldr fst snd].
  rewrite length_app, Nat2Z.inj_add. assert (len (record_bytes (span_record (run_span base after (b, e)))) = 9 + (e - b)) as ->.
  { unfold record_bytes, span_record, run_span. cbn [fst snd record_body]. rewrite !length_app, !length_le_bytes, !Nat2Z.inj_add, len_slice by lia. cbn. lia. }
  cbn [length]. lia.
Qed.

(** ** Values *)

Abbreviation below k := (fun e : entry_t => Vars.packed k < Vars.packed e.1).

Definition above (last : option Vars.VarKey) (E : list entry_t) : Prop :=
  match last with Some k => Forall (below k) E | None => True end.

Lemma above_below last k (E : list entry_t) : match last with Some l => Vars.packed l < Vars.packed k | None => True end -> Forall (below k) E -> above last E.
Proof. destruct last as [l|]; [|done]. intros H1 H2. eapply Forall_impl; [exact H2|]. cbn. lia. Qed.

Lemma VarDiffLoop_records old : forall new frame, VarDiffLoop old new frame = fold_res AppendRecord frame (change_record <$> diff_vars old new).
Proof.
  induction old as [|[k v] old IHo]; induction new as [|[k' v'] new IHn]; intros frame; cbn [VarDiffLoop diff_vars]; [done| | |].
  - cbn [fmap list_fmap fold_res]. change (AppendRecord frame _) with (AppendVarPut frame k' v') at 1.
    destruct (AppendVarPut frame k' v'); [|done]. cbn [mbind res_bind]. apply IHn.
  - cbn [fmap list_fmap fold_res]. change (AppendRecord frame _) with (AppendVarDel frame k) at 1.
    destruct (AppendVarDel frame k); [|done]. cbn [mbind res_bind]. apply IHo.
  - destruct (Vars.packed k <? Vars.packed k').
    { cbn [fmap list_fmap fold_res]. change (AppendRecord frame _) with (AppendVarDel frame k) at 1. destruct (AppendVarDel frame k); [|done]. cbn [mbind res_bind]. apply IHo. }
    destruct (Vars.packed k' <? Vars.packed k).
    { cbn [fmap list_fmap fold_res]. change (AppendRecord frame _) with (AppendVarPut frame k' v') at 1. destruct (AppendVarPut frame k' v'); [|done]. cbn [mbind res_bind]. apply IHn. }
    destruct (bool_decide (v = v')); [cbn [app mbind res_bind]; apply IHo|]. cbn [app fmap list_fmap fold_res].
    change (AppendRecord frame _) with (AppendVarPut frame k' v') at 1. destruct (AppendVarPut frame k' v'); [|done]. cbn [mbind res_bind]. apply IHo.
Qed.

(** How the walk goes over two lists of entries in key order. *)
Inductive diffs : list entry_t -> list entry_t -> list Vars.VarChange -> Prop :=
| diffs_nil : diffs [] [] []
| diffs_del k v old new cs : Forall (below k) old -> Forall (below k) new -> diffs old new cs ->
    diffs ((k, v) :: old) new ({| Vars.change_key := k; Vars.change_value := None |} :: cs)
| diffs_put k v old new cs : Forall (below k) old -> Forall (below k) new -> diffs old new cs ->
    diffs old ((k, v) :: new) ({| Vars.change_key := k; Vars.change_value := Some v |} :: cs)
| diffs_same k v old new cs : Forall (below k) old -> Forall (below k) new -> diffs old new cs -> diffs ((k, v) :: old) ((k, v) :: new) cs
| diffs_change k v v' old new cs : Forall (below k) old -> Forall (below k) new -> diffs old new cs ->
    diffs ((k, v) :: old) ((k, v') :: new) ({| Vars.change_key := k; Vars.change_value := Some v' |} :: cs).

Lemma sorted_cons k v (E : list entry_t) : StronglySorted Vars.before ((k, v) :: E) -> StronglySorted Vars.before E /\ Forall (below k) E.
Proof. intros H. by apply StronglySorted_inv in H. Qed.

Lemma below_trans k k' (E : list entry_t) : Vars.packed k < Vars.packed k' -> Forall (below k') E -> Forall (below k) E.
Proof. intros H HE. eapply Forall_impl; [exact HE|]. cbn. lia. Qed.

Lemma diff_vars_diffs old : forall new, StronglySorted Vars.before old -> StronglySorted Vars.before new -> Forall Vars.entry_ok old -> Forall Vars.entry_ok new ->
  diffs old new (diff_vars old new).
Proof.
  induction old as [|[k v] old IHo]; induction new as [|[k' v'] new IHn]; intros S1 S2 O1 O2; cbn [diff_vars]; [constructor| | |].
  - apply sorted_cons in S2 as [S2 B2]. apply Forall_cons in O2 as [_ O2]. constructor; auto.
  - apply sorted_cons in S1 as [S1 B1]. apply Forall_cons in O1 as [_ O1]. constructor; auto.
  - pose proof (sorted_cons _ _ _ S1) as [S1' B1]. pose proof (sorted_cons _ _ _ S2) as [S2' B2].
    pose proof (Forall_cons_1 _ _ _ O1) as [E1 O1']. pose proof (Forall_cons_1 _ _ _ O2) as [E2 O2'].
    destruct (Z.ltb_spec (Vars.packed k) (Vars.packed k')) as [H|H].
    { constructor; [done| |auto]. constructor; [done|]. by eapply below_trans. }
    destruct (Z.ltb_spec (Vars.packed k') (Vars.packed k)) as [H'|H'].
    { constructor; [|done|auto]. constructor; [done|]. by eapply below_trans. }
    assert (k = k') as <- by (apply Vars.packed_inj; [apply E1|apply E2|lia]).
    case_bool_decide as Hv; cbn [app]; [subst v'; apply diffs_same|apply diffs_change]; auto.
Qed.

Lemma below_not_in k (E : list entry_t) : Forall (below k) E -> Vars.to_map E !! k = None.
Proof. intros H. apply Vars.to_map_not_in. by apply Vars.Forall_after_ne. Qed.

(** The keys of shorter lists are keys of the lists. *)
Ltac in_keys :=
  match goal with H : _ ∈ _ |- _ => clear - H; revert H end; rewrite !elem_of_app; rewrite ?elem_of_cons; tauto.

(** The changes turn the old values into the new ones. *)
Lemma diffs_apply old new cs : diffs old new cs -> forall m, (forall k, k ∈ old.*1 ++ new.*1 -> m !! k = None) ->
  foldl Vars.apply_change (m ∪ Vars.to_map old) cs = m ∪ Vars.to_map new.
Proof.
  assert (forall k (m : gmap Vars.VarKey bytes) (E : list entry_t) v, Forall (below k) E -> (forall j, j ∈ E.*1 -> m !! j = None) -> forall j, j ∈ E.*1 -> <[k := v]> m !! j = None) as Hins.
  { intros k m E v HE Hm j Hj. rewrite lookup_insert_ne; [by apply Hm|]. intros <-. apply list_elem_of_fmap in Hj as ([k' v'] & -> & Hin).
    rewrite Forall_forall in HE. specialize (HE _ Hin). cbn in HE. lia. }
  assert (forall k (m : gmap Vars.VarKey bytes) (E1 E2 : list entry_t) v, Forall (below k) E1 -> Forall (below k) E2 ->
    (forall j, j ∈ E1.*1 ++ E2.*1 -> m !! j = None) -> forall j, j ∈ E1.*1 ++ E2.*1 -> <[k := v]> m !! j = None) as Hins2.
  { intros k m E1 E2 v H1 H2 Hm j [Hj|Hj]%elem_of_app; [apply (Hins k m E1)|apply (Hins k m E2)]; auto; intros i Hi; apply Hm, elem_of_app; auto. }
  induction 1 as [|k v old new cs B1 B2 _ IH|k v old new cs B1 B2 _ IH|k v old new cs B1 B2 _ IH|k v v' old new cs B1 B2 _ IH]; intros m Hm;
    cbn [foldl Vars.to_map list_to_map foldr fst snd fmap list_fmap] in *; [done| | | |]; fold (Vars.to_map old) (Vars.to_map new).
  all: assert (m !! k = None) as Hk by (apply Hm, elem_of_app; cbn; set_solver).
  - rewrite <- IH by (intros j Hj; apply Hm; in_keys). f_equal. unfold Vars.apply_change. cbn [Vars.change_key Vars.change_value].
    rewrite <- insert_union_r by done. rewrite delete_insert_id; [done|]. apply lookup_union_None. split; [done|by apply below_not_in].
  - unfold Vars.apply_change at 2. cbn [Vars.change_key Vars.change_value]. rewrite insert_union_l, IH.
    + by rewrite <- insert_union_l, insert_union_r.
    + apply Hins2; [done|done|]. intros j Hj. apply Hm. in_keys.
  - rewrite <- !insert_union_r by done. rewrite !insert_union_l. apply IH. apply Hins2; [done|done|]. intros j Hj. apply Hm. in_keys.
  - unfold Vars.apply_change at 2. cbn [Vars.change_key Vars.change_value]. rewrite <- !insert_union_r by done. rewrite insert_insert_eq, !insert_union_l.
    apply IH. apply Hins2; [done|done|]. intros j Hj. apply Hm. in_keys.
Qed.

Lemma diffs_keys (P : Vars.VarKey -> Prop) old new cs : diffs old new cs -> Forall (fun e => P e.1) old -> Forall (fun e => P e.1) new -> Forall (fun c => P (Vars.change_key c)) cs.
Proof. induction 1; rewrite ?Forall_cons; cbn; intuition. Qed.

Lemma diffs_ok old new cs : diffs old new cs -> Forall Vars.entry_ok old -> Forall Vars.entry_ok new -> Forall Vars.change_ok cs.
Proof. induction 1; rewrite ?Forall_cons; unfold Vars.entry_ok, Vars.change_ok; cbn; intuition. Qed.

Lemma diffs_order old new cs : diffs old new cs -> forall last, above last old -> above last new ->
  Vars.RequireAscending last cs = Ok tt /\ in_order (last, false) (change_record <$> cs).
Proof.
  assert (forall last k v E, above last ((k, v) :: E) -> (match last with Some l => Vars.packed k <=? Vars.packed l | None => false end) = false) as Hstep.
  { intros [l|] k v E H; [|done]. apply Forall_cons in H as [H _]. apply Z.leb_gt. exact H. }
  assert (forall last k v E, above last ((k, v) :: E) -> above last E) as Htail.
  { intros [l|] k v E H; [|done]. by apply Forall_cons in H as [_ H]. }
  induction 1 as [|k v old new cs B1 B2 _ IH|k v old new cs B1 B2 _ IH|k v old new cs B1 B2 _ IH|k v v' old new cs B1 B2 _ IH]; intros last A1 A2; [done| | | |].
  - destruct (IH (Some k) B1 B2) as [I1 I2]. cbn. rewrite (Hstep _ _ _ _ A1). done.
  - destruct (IH (Some k) B1 B2) as [I1 I2]. cbn. rewrite (Hstep _ _ _ _ A2). done.
  - apply IH; by eapply Htail.
  - destruct (IH (Some k) B1 B2) as [I1 I2]. cbn. rewrite (Hstep _ _ _ _ A1). done.
Qed.

(** The records are not much longer than the entries. *)
Lemma diffs_size old new cs : diffs old new cs ->
  len (concat (record_bytes <$> (change_record <$> cs))) <= 2 * (len (Vars.enc old) + len (Vars.enc new)) /\ len cs <= len (Vars.enc old) + len (Vars.enc new).
Proof.
  assert (forall e E, len (Vars.enc (e :: E)) = 12 + len e.2 + len (Vars.enc E)) as He.
  { intros e E. unfold Vars.enc. cbn [flat_map]. rewrite length_app, Nat2Z.inj_add, Vars.len_encode_entry. unfold Vars.kVarEntryHeaderBytes. done. }
  assert (forall k v, len (record_bytes (RVarPut k v)) = 17 + len v) as Hp.
  { intros k v. unfold record_bytes. cbn [record_body]. rewrite !length_app, !Nat2Z.inj_add, Vars.len_encode_entry, length_le_bytes. unfold Vars.kVarEntryHeaderBytes. cbn. lia. }
  assert (forall k, len (record_bytes (RVarDel k)) = 13) as Hd by (intros k; unfold record_bytes; cbn [record_body]; by rewrite !length_app, !length_le_bytes).
  induction 1 as [|k v old new cs B1 B2 _ IH|k v old new cs B1 B2 _ IH|k v old new cs B1 B2 _ IH|k v v' old new cs B1 B2 _ IH]; rewrite ?He; cbn [fst snd]; [cbn; lia| | | |];
    rewrite ?fmap_cons; cbn [concat]; unfold change_record at 1; cbn [Vars.change_value Vars.change_key]; rewrite ?length_app, ?Nat2Z.inj_add, ?Hp, ?Hd; cbn [length]; fold change_record; lia.
Qed.

(** ** The frame *)

Record state_ok (g : Geometry) (s : State) : Prop := {
  so_payload : bytes_ok (payload s) /\ len (payload s) = ChunkPayloadBytes g;
  so_presence : bytes_ok (presence s) /\ len (presence s) = ChunkPresenceBitmapBytes g;
  so_vars : Vars.wf (vars s) /\ Vars.encoded_size (vars s) <= Vars.kVarMaxChunkBytesLimit;
  so_valid : RequireValidVars (layout_ g) (vars s) (presence s) = Ok tt;
  so_masked : MaskUnusedPresenceBits g (presence s) = presence s
}.

(** Masking is done byte by byte. *)
Definition mask_byte (g : Geometry) (n j b : Z) : Z :=
  if (n * 8 - ChunkBlockCount g =? 0) || negb (j =? n - 1) then b else Z.land b (u8 (Z.shiftr 0xFF (n * 8 - ChunkBlockCount g))).

Lemma mask_bytes g q j : 0 <= j < len q -> byte_at (MaskUnusedPresenceBits g q) j = mask_byte g (len q) j (byte_at q j).
Proof.
  intros Hj. unfold MaskUnusedPresenceBits, mask_byte. rewrite bool_decide_false by (intros ->; cbn in Hj; lia). cbv zeta.
  destruct (_ =? 0); [done|]. cbn [orb]. rewrite byte_at_set_byte, (Z.eqb_sym _ j) by lia. destruct (Z.eqb_spec j (len q - 1)) as [Ej|]; [by rewrite Ej|done].
Qed.

Lemma len_mask g q : length (MaskUnusedPresenceBits g q) = length q.
Proof. unfold MaskUnusedPresenceBits. do 2 (case_match; [done|]). apply length_set_byte. Qed.

(** The spans of masked bitmaps, written over a bitmap that is masked later. *)
Lemma mask_overlay g before after q q' : len q = len after -> len before = len after ->
  MaskUnusedPresenceBits g q = before -> MaskUnusedPresenceBits g after = after -> len q' = len q ->
  (forall j, 0 <= j < len after -> byte_at q' j = byte_at after j \/ byte_at q' j = byte_at q j /\ byte_at before j = byte_at after j) ->
  MaskUnusedPresenceBits g q' = after.
Proof.
  intros L1 L2 Hq Ha L3 H. apply bytes_ext; [rewrite len_mask; lia|]. intros j Hj. rewrite len_mask in Hj. rewrite mask_bytes by lia.
  destruct (H j ltac:(lia)) as [->|[-> E]].
  - rewrite <- Ha at 2. rewrite mask_bytes by lia. by rewrite L3, L1.
  - rewrite <- E, <- Hq, mask_bytes by lia. by rewrite L3.
Qed.

Lemma SplitChunkStateBytes_inv g state p pr : geometry_ok g -> SplitChunkStateBytes g state = Ok (p, pr) ->
  exists q, state = p ++ q /\ len q = ChunkPresenceBitmapBytes g /\ MaskUnusedPresenceBits g q = pr.
Proof.
  intros Hg. destruct (geometry_sizes g Hg) as [Sp Sb]. unfold SplitChunkStateBytes. intros H. apply bind_ok in H as (u & Hu & H). injection H as <- <-. eexists. split; [symmetry; apply take_drop|]. split; [|done].
  destruct (Z.eqb_spec (len state) (ChunkPayloadBytes g + ChunkPresenceBitmapBytes g)); [|done]. rewrite length_drop. lia.
Qed.

Lemma SplitChunkStateBytes_ok g p q : len p = ChunkPayloadBytes g -> len q = ChunkPresenceBitmapBytes g ->
  SplitChunkStateBytes g (p ++ q) = Ok (p, MaskUnusedPresenceBits g q).
Proof.
  intros L1 L2. unfold SplitChunkStateBytes. rewrite length_app. pass_guard by (apply negb_false_iff, Z.eqb_eq; lia).
  rewrite take_app_length', drop_app_length' by lia. done.
Qed.

(** A loop of checks that passes has passed each of them. *)
Lemma fold_res_each {A B} (check : A -> res B) l : forall a b x, fold_res (fun _ e => check e) a l = Ok b -> x ∈ l -> exists u, check x = Ok u.
Proof.
  induction l as [|y l IH]; intros a b x H Hin; [by apply elem_of_nil in Hin|]. cbn [fold_res] in H. apply bind_ok in H as (c & Hc & H).
  apply elem_of_cons in Hin as [->|Hin]; eauto.
Qed.

Section Frame.
Context (g : Geometry) (user : option bytes) (before after : State) (version_ time : Z).
Hypothesis Hg : geometry_ok g.
Hypothesis Hbefore : state_ok g before.
Hypothesis Hafter : state_ok g after.
Hypothesis Huser : len (default [] user) <= 1024 /\ bytes_ok (default [] user).

Abbreviation f := (txn_frame g user before after version_ time).
Abbreviation E1 := (entries (vars before)).
Abbreviation E2 := (entries (vars after)).

Lemma entries_ok s : Vars.wf (vars s) -> Vars.entries_wf (entries (vars s)) /\ vars s = Vars.rep (entries (vars s)).
Proof. intros (E & HE & ->). unfold entries. by rewrite Vars.entries_rep. Qed.

Lemma vars_diffs : diffs E1 E2 (diff_vars E1 E2).
Proof.
  destruct (entries_ok before) as [[? ? _] _]; [apply Hbefore|]. destruct (entries_ok after) as [[? ? _] _]; [apply Hafter|]. by apply diff_vars_diffs.
Qed.

(** A value is of a block and a column of the table. *)
Lemma valid_keys s e : state_ok g s -> e ∈ entries (vars s) ->
  has_var_columns (layout_ g) = true /\ Vars.block_index e.1 < block_count_ (layout_ g).
Proof.
  intros Hs He. pose proof (so_valid _ _ Hs) as Hv. unfold RequireValidVars in Hv.
  assert (exists u, RequireValidVar (layout_ g) (presence s) e = Ok u) as [u Hu].
  { by eapply (fold_res_each (RequireValidVar (layout_ g) (presence s))). }
  destruct e as [k v]. unfold RequireValidVar in Hu. cbn [fst]. destruct (VarColumn (layout_ g) (Vars.column_id k)) as [c|] eqn:Ec; [|done].
  apply bind_ok in Hu as (x & Hx & _). split.
  - unfold has_var_columns. rewrite bool_decide_false; [done|]. intros E0. unfold VarColumn in Ec. rewrite E0 in Ec. done.
  - destruct (Z.leb_spec (block_count_ (layout_ g)) (Vars.block_index k)); [done|lia].
Qed.

Lemma enc_size s : state_ok g s -> len (Vars.enc (entries (vars s))) <= Vars.kVarMaxChunkBytesLimit.
Proof.
  intros [_ _ [Hwf Hs] _ _]. destruct (entries_ok s Hwf) as [_ E]. rewrite E in Hs. exact Hs.
Qed.

Lemma in_order_spans l rs : in_order (None, false) rs -> in_order (None, false) ((span_record <$> l) ++ rs).
Proof. intros H. induction l as [|s l IH]; [done|]. exact IH. Qed.

Lemma record_sized_change c : record_sized (change_record c) <-> len (record_body (change_record c)) < 2 ^ 32.
Proof. unfold record_sized, change_record. destruct (Vars.change_value c); tauto. Qed.

Lemma concat_part (l : list wal_record) r : r ∈ l -> len (record_body r) <= len (concat (record_bytes <$> l)).
Proof.
  induction l as [|x l IH]; intros H; [by apply elem_of_nil in H|]. rewrite fmap_cons. cbn [concat]. rewrite length_app.
  apply elem_of_cons in H as [->|H]; [unfold record_bytes; rewrite !length_app; lia|]. specialize (IH H). lia.
Qed.

Lemma txn_frame_sized : before <> after -> frame_sized f.
Proof.
  intros Hne. destruct (geometry_sizes g Hg) as [Sp Sb]. unfold kMaxImageSectionRawBytes in *.
  destruct (so_payload _ _ Hafter) as [Bp Lp]. destruct (so_presence _ _ Hafter) as [Bb Lb].
  destruct (diff_spans_size 0 (payload before) (payload after)) as [P1 P2].
  destruct (diff_spans_size (ChunkPayloadBytes g) (presence before) (presence after)) as [Q1 Q2].
  destruct (diffs_size _ _ _ vars_diffs) as [V1 V2]. pose proof (enc_size before Hbefore) as M1. pose proof (enc_size after Hafter) as M2. unfold Vars.kVarMaxChunkBytesLimit in *.
  constructor; cbn [txn_frame fr_tag fr_user fr_records].
  - cbn. unfold max_u16, kWalTlvHeaderSize. lia.
  - unfold max_u16. lia.
  - rewrite len_frame_tlvs. cbn [txn_frame fr_tag fr_user fr_version]. unfold kWalTlvHeaderSize. rewrite bool_decide_true by done. destruct (1 <? _), (bool_decide _); lia.
  - intros E. apply app_nil in E as [E1' E]. apply app_nil in E as [E2' E3']. apply fmap_nil_inv in E1', E2', E3'. apply Hne.
    pose proof (overlay_same (payload before) (payload after)) as W1. pose proof (overlay_same (presence before) (presence after)) as W2.
    unfold overlay, diff_spans in *. apply fmap_nil_inv in E1', E2'. rewrite E1' in W1. rewrite E2' in W2. cbn [write_spans fmap list_fmap fold_left] in W1, W2.
    destruct Hbefore as [[_ L1] [_ L2] [Hw1 _] _ _]. destruct Hafter as [[_ L3] [_ L4] [Hw2 _] _ _].
    assert (vars before = vars after) as W3.
    { apply Vars.abs_inj; [done|done|]. pose proof (diffs_apply _ _ _ vars_diffs ∅) as D. rewrite E3' in D. cbn [foldl] in D. rewrite !(left_id_L ∅ (∪)) in D.
      apply D. intros. apply lookup_empty. }
    destruct before, after. cbn in *. f_equal; [apply W1|apply W2|done]; lia.
  - rewrite !length_app, !length_fmap. lia.
  - unfold frame_body. cbn [txn_frame fr_records]. rewrite !fmap_app, !concat_app, !length_app. lia.
  - repeat apply Forall_app_2.
    + apply Forall_fmap. eapply Forall_impl; [apply (diff_spans_each 0 (payload before)); [done|lia|lia]|]. by intros s [? _].
    + apply Forall_fmap. eapply Forall_impl; [apply (diff_spans_each (ChunkPayloadBytes g) (presence before)); [done|lia|lia]|]. by intros s [? _].
    + apply Forall_fmap, Forall_forall. intros c Hc. apply record_sized_change. pose proof (concat_part _ _ (list_elem_of_fmap_2 change_record _ _ Hc)). lia.
  - apply in_order_spans, in_order_spans. by apply (diffs_order _ _ _ vars_diffs None).
Qed.

Abbreviation shape := (ShapeOf g (layout_ g) false).

Lemma spans_fit : Forall (record_fits shape) ((span_record <$> diff_spans 0 (payload before) (payload after)) ++
  (span_record <$> diff_spans (ChunkPayloadBytes g) (presence before) (presence after))).
Proof.
  destruct (geometry_sizes g Hg) as [Sp Sb]. unfold kMaxImageSectionRawBytes in *.
  destruct (so_payload _ _ Hafter) as [Bp Lp]. destruct (so_presence _ _ Hafter) as [Bb Lb].
  apply Forall_app_2; apply Forall_fmap; (eapply Forall_impl; [apply diff_spans_each; [done|lia|lia]|]); intros s (_ & Hs & H1 & H2);
    cbn [span_record record_fits compose ShapeOf payload_boundary state_size]; (split; [done|]); (split; [lia|]); (split; [unfold ChunkPayloadBytes in *; lia|]);
    unfold SpanShapeValid, ChunkPayloadBytes in *; apply orb_true_intro; left; apply orb_true_intro; [left|right]; apply Z.leb_le; lia.
Qed.

Lemma changes_fit : Forall (record_fits shape) (change_record <$> diff_vars E1 E2).
Proof.
  pose proof (entries_ok before (proj1 (so_vars _ _ Hbefore))) as [[O1 _ _] _]. pose proof (entries_ok after (proj1 (so_vars _ _ Hafter))) as [[O2 _ _] _].
  pose proof (diffs_ok _ _ _ vars_diffs O1 O2) as Hok.
  pose proof (diffs_keys (fun k => has_var_columns (layout_ g) = true /\ Vars.block_index k < block_count_ (layout_ g)) _ _ _ vars_diffs) as Hk.
  rewrite Forall_forall in Hok. rewrite !Forall_forall in Hk. apply Forall_fmap, Forall_forall. intros c Hc.
  destruct (Hk (fun e He => valid_keys before e Hbefore He) (fun e He => valid_keys after e Hafter He) c Hc) as [K1 K2]. destruct (Hok c Hc) as [C1 C2].
  unfold compose, change_record. destruct (Vars.change_value c); cbn; auto.
Qed.

Lemma txn_frame_fits slots : before <> after -> in_u 64 version_ -> in_u 64 time -> (slots = false -> default [] user = []) -> frame_fits g (layout_ g) slots f.
Proof.
  intros Hne Hv Ht Hs. pose proof (lo_schema _ (go_layout _ Hg)) as Hvalid. constructor; cbn [txn_frame fr_revision fr_time fr_tag fr_user fr_version fr_records fr_gc]; try done.
  - by apply txn_frame_sized.
  - constructor.
  - apply Huser.
  - apply (ValidateTableSchema_ok _ (lo_version _ (go_layout _ Hg))) in Hvalid as (_ & ? & _). lia.
  - unfold LayoutFresh. by rewrite Z.eqb_refl.
  - rewrite app_assoc. apply Forall_app_2; [exact spans_fit|exact changes_fit].
  - intros E. by rewrite Hs.
Qed.

(** The builder writes that frame after the header. *)
Lemma BuildTxnFrame_ok header : before <> after -> BuildTxnFrame g header user before after version_ time = Ok (header ++ frame_bytes f).
Proof.
  intros Hne. destruct (BuildFrame_ok header f (txn_frame_sized Hne)) as (b & Hb & Eb). unfold BuildTxnFrame. unfold BuildFrame in Hb.
  destruct (geometry_sizes g Hg) as [Sp Sb]. unfold kMaxImageSectionRawBytes in *. destruct (so_payload _ _ Hafter) as [Bp Lp]. destruct (so_presence _ _ Hafter) as [Bb Lb].
  cbn [txn_frame fr_revision fr_time fr_tag fr_user fr_version fr_records fr_gc] in Hb. apply bind_ok in Hb as (b1 & H1 & Hb). rewrite H1, bind_Ok_l.
  assert (forall base x y frame, 0 <= base -> base + len y + 4 < 2 ^ 32 ->
    AppendDiffSpans frame base x y = fold_res AppendRecord frame (span_record <$> diff_spans base x y)) as Happ.
  { intros base x y frame B1 B2. apply DiffLoop_records. fold (runs x y). eapply Forall_impl; [exact (ro_bounds _ _ _ _ _ (runs_spec x y))|].
    intros [b0 e0] Hr. cbn in Hr |- *. unfold in_u. lia. }
  apply bind_ok in Hb as (b2 & H2 & Hb). rewrite fold_res_app in H2. apply bind_ok in H2 as (b3 & H3 & H2). rewrite fold_res_app in H2. apply bind_ok in H2 as (b4 & H4 & H2).
  rewrite Happ, H3, bind_Ok_l, Happ, H4, bind_Ok_l by lia. unfold AppendVarDiff. rewrite VarDiffLoop_records, H2, bind_Ok_l, Hb, bind_Ok_l. by rewrite Eb.
Qed.

(** What it does to the chunk. *)
Lemma spans_of_frame : spans_of (fr_records f) = diff_spans 0 (payload before) (payload after) ++ diff_spans (ChunkPayloadBytes g) (presence before) (presence after).
Proof.
  assert (forall l, spans_of (span_record <$> l) = l) as Hs by (intros l; induction l as [|[o d] l IH]; [done|]; cbn; f_equal; exact IH).
  assert (forall l, spans_of (change_record <$> l) = []) as Hc.
  { intros l. induction l as [|c l IH]; [done|]. rewrite fmap_cons. unfold spans_of, change_record. cbn [omap list_omap]. destruct (Vars.change_value c); exact IH. }
  unfold spans_of in *. cbn [txn_frame fr_records]. by rewrite !omap_app, !Hs, Hc, app_nil_r.
Qed.

Lemma changes_of_frame : changes_of (fr_records f) = diff_vars E1 E2 /\ replace_of (fr_records f) = None.
Proof.
  assert (forall l, changes_of (span_record <$> l) = [] /\ omap (fun r => match r with RVarReplace v => Some v | _ => None end) (span_record <$> l) = []) as Hs
    by (intros l; induction l as [|[o d] l [IH1 IH2]]; done).
  assert (forall l, changes_of (change_record <$> l) = l /\ omap (fun r => match r with RVarReplace v => Some v | _ => None end) (change_record <$> l) = []) as Hc.
  { intros l. induction l as [|[k [v|]] l [IH1 IH2]]; [done| |]; (split; [|exact IH2]); cbn; f_equal; exact IH1. }
  unfold changes_of, replace_of in *. cbn [txn_frame fr_records]. rewrite !omap_app, !(proj1 (Hs _)), !(proj2 (Hs _)), !(proj1 (Hc _)), !(proj2 (Hc _)). done.
Qed.

Lemma apply_values_frame : apply_values (fr_records f) (vars before) = Ok (vars after).
Proof.
  destruct changes_of_frame as [Ec Er]. unfold apply_values. rewrite Er, Ec. set (cs := diff_vars E1 E2).
  pose proof (so_vars _ _ Hbefore) as [W1 _]. pose proof (so_vars _ _ Hafter) as [W2 _].
  destruct (entries_ok before W1) as [K1 R1]. destruct (entries_ok after W2) as [K2 R2].
  pose proof (diffs_ok _ _ _ vars_diffs (Vars.ewf_ok _ K1) (Vars.ewf_ok _ K2)) as Hok. destruct (diffs_order _ _ _ vars_diffs None I I) as [Hasc _]. fold cs in Hok, Hasc.
  assert (foldl Vars.apply_change (Vars.abs (vars before)) cs = Vars.abs (vars after)) as Hmap.
  { pose proof (diffs_apply _ _ _ vars_diffs ∅ (fun k _ => lookup_empty k)) as D. by rewrite !(left_id_L ∅ (∪)) in D. }
  destruct cs as [|c [|c2 cs']] eqn:Ecs.
  - f_equal. by apply Vars.abs_inj.
  - apply Forall_cons in Hok as [Hc _]. pose proof (Vars.ChangeOne_spec (vars before) c W1 Hc) as Hspec. cbv zeta in Hspec. cbn [foldl] in Hmap.
    rewrite <- (Vars.map_size_abs (vars before)), <- Vars.map_size_change, Hmap, Vars.map_size_abs in Hspec by done.
    rewrite (proj2 (Z.ltb_lt _ _)) in Hspec by (by apply Vars.encoded_size_bound). destruct Hspec as (v' & -> & W' & A' & _). f_equal. apply Vars.abs_inj; [done|done|congruence].
  - rewrite R1. destruct (Vars.Merge_entries E1 K1 _ Hok Hasc) as (M & OM & SM & MM & ->).
    assert (M = E2) as ->.
    { apply Vars.to_map_unique; [done|apply K2|]. rewrite MM, <- (Vars.abs_rep E1), <- R1, Hmap, R2, Vars.abs_rep by done. by rewrite <- R2. }
    rewrite (proj2 (Z.ltb_lt _ _)) by apply K2. by rewrite <- R2.
Qed.

(** Applied to the chunk as it was, whatever it was laid out by, the frame gives
    the chunk of the transaction. *)
Lemma txn_frame_mutates pr c : c.1.1 <= version (schema_ (layout_ g)) ->
  settle g pr c = Ok (payload before, presence before, vars before) ->
  exists c', mutate g pr c f = Ok c' /\ c'.1.1 = version (schema_ (layout_ g)) /\ settle g pr c' = Ok (payload after, presence after, vars after).
Proof.
  destruct c as [[v state] vs]. cbn [fst]. intros Hv Hs. unfold settle in Hs. unfold mutate. cbn [txn_frame fr_version fr_gc].
  rewrite (proj2 (Z.ltb_ge _ _)) by lia. cbn [throw_if]. rewrite bind_Ok_l. set (V := version (schema_ (layout_ g))) in *.
  apply bind_ok in Hs as ([state1 vs1] & H1 & Hs). apply bind_ok in Hs as ([p pr'] & H2 & Hs). injection Hs as -> -> ->.
  rewrite Z.eqb_sym, H1, bind_Ok_l. unfold LayoutFresh. fold V. rewrite Z.eqb_refl, bind_Ok_l. cbn [andb throw_if]. rewrite bind_Ok_l.
  change (fr_records (txn_frame g user before after version_ time)) with (fr_records f). rewrite apply_values_frame, bind_Ok_l.
  eexists. split; [reflexivity|]. split; [done|]. unfold settle. fold V. rewrite Z.eqb_refl. cbn [negb]. rewrite bind_Ok_l.
  destruct (SplitChunkStateBytes_inv _ _ _ _ Hg H2) as (q & -> & Lq & Hm). destruct Hbefore as [[_ L1] [_ L2] _ _ M1]. destruct Hafter as [[_ L3] [_ L4] _ _ M2].
  rewrite spans_of_frame. unfold write_spans. rewrite fold_left_app. fold (write_spans (diff_spans 0 (payload before) (payload after)) (payload before ++ q)).
  pose proof (diff_spans_mid [] (payload before) q (payload before) (payload after) ltac:(lia)) as D1. cbn [app length] in D1. change (Z.of_nat 0) with 0 in D1.
  rewrite D1, overlay_same by lia.
  pose proof (diff_spans_mid (payload after) q [] (presence before) (presence after) ltac:(lia)) as D2. rewrite !app_nil_r, L3 in D2. unfold write_spans in D2. rewrite D2.
  destruct (overlay_bytes (presence before) (presence after) q ltac:(lia)) as [O1 O2].
  rewrite SplitChunkStateBytes_ok, bind_Ok_l by lia. do 3 f_equal. apply (mask_overlay g (presence before) (presence after) q); [lia|lia|done|done|lia|done].
Qed.

End Frame.

End TxnDiff.
