(* ===== verification/BlockOps.v ===== *)
(** * Blocks of a chunk (src/src/block_ops.cpp)

    Setting, clearing and reading one block of a chunk's state, as a transaction
    and an ordinary write do it: the values given by column name are checked and
    encoded first ([PrepareSetBlockWrite]), a new block gets a value for every
    other column ([AddNewBlockColumns]), and only then the state changes
    ([ApplyBlockWriteToState]).

    The theorems say that a block reads back as it was set, column by column,
    that no other block of the chunk changes, which writes are refused, and that
    the state stays valid. *)
From stdpp Require Import prelude strings gmap sorting.
From Stdlib Require Import ZArith Lia.
From S2P Require Import Prelude Bits BitCodec Vars Utf8 Columns Schema Layout Geometry ChunkFormat WalFrame WalReplay TxnDiff.

#[local] Open Scope Z_scope.

Module BlockOps.
Import Columns Schema Layout Geometry ChunkFormat TxnDiff.

(** ** A write before it is applied *)

Record ColumnAssignment := { column : bytes; value : ColumnValue }.

(** The value of one fixed-width column; [edit_value] is what the code keeps in
    [values] from the offset on. *)
Record Edit := { edit_fixed : FixedColumn; edit_null : bool; edit_value : bytes }.

Record BlockWrite := {
  edits : list Edit;
  var_changes : list Vars.VarChange;
  given : list bool
}.

Definition ThreadBlockWrite : BlockWrite := {| edits := []; var_changes := []; given := [] |}.

Definition Add (w : BlockWrite) (fixed : FixedColumn) (null : bool) (v : bytes) : BlockWrite :=
  {| edits := edits w ++ [{| edit_fixed := fixed; edit_null := null; edit_value := v |}]; var_changes := var_changes w; given := given w |}.

Definition AddChange (w : BlockWrite) (c : Vars.VarChange) : BlockWrite :=
  {| edits := edits w; var_changes := var_changes w ++ [c]; given := given w |}.

Definition Give (w : BlockWrite) (index : nat) : BlockWrite :=
  {| edits := edits w; var_changes := var_changes w; given := <[index := true]> (given w) |}.

(** The zero bytes of an added value. *)
Definition zero_value (fixed : FixedColumn) : bytes := zeros ((width fixed + 7) / 8).

Section Blocks.
Context (g : Geometry) (var_max_chunk_bytes_ : Z).

Abbreviation layout := (layout_ g).
Abbreviation cols := (columns (schema_ (layout_ g))).

Definition key_of (block_index : Z) (c : Column) : Vars.VarKey := {| Vars.column_id := id c; Vars.block_index := u32 block_index |}.

(** A value the narrowing in progress would lose is refused. *)
Definition RequireNarrowFits (c : Column) (v : ColumnValue) : res unit :=
  match pending (schema_ layout) with
  | Some p =>
      if pending_column_id p =? id c then
        fits ← ValueFits (pending_type p) v;
        throw_if (negb fits) (invalid_argument "column is being narrowed to a type which does not hold this value")
      else Ok tt
  | None => Ok tt
  end.

(** One turn of the loop of PrepareSetBlockWrite. *)
Definition PrepareAssignment (block_index : Z) (w : BlockWrite) (a : ColumnAssignment) : res BlockWrite :=
  match FindColumn layout (column a) with
  | None => Err (invalid_argument "the table has no column")
  | Some index =>
      _ ← throw_if (default false (given w !! index)) (invalid_argument "column is given twice");
      let w := Give w index in
      match cols !! index with
      | None => Err (out_of_range "columns")
      | Some c =>
          let null := bool_decide (value a = VNull) in
          _ ← RequireNarrowFits c (value a);
          _ ← throw_if (null && negb (nullable c)) (invalid_argument "column cannot be NULL");
          match FixedColumnAt layout index with
          | None =>
              bytes ← (if null then Ok [] else EncodeVarValue c (value a));
              Ok (AddChange w {| Vars.change_key := key_of block_index c;
                                 Vars.change_value := if null || (bool_decide (bytes = []) && negb (nullable c)) then None else Some bytes |})
          | Some fixed =>
              if null then Ok (Add w fixed true (zero_value fixed))
              else v ← EncodeColumnValueInto c (value a); Ok (Add w fixed false v)
          end
      end
  end.

Definition PrepareSetBlockWrite (values : list ColumnAssignment) (block_index : Z) : res BlockWrite :=
  let w := ThreadBlockWrite in
  fold_res (PrepareAssignment block_index)
    {| edits := edits w; var_changes := var_changes w; given := replicate (length cols) false |} values.

(** One turn of the loop of AddNewBlockColumns. *)
Definition AddNewBlockColumn (block_index : Z) (w : BlockWrite) (ic : nat * Column) : res BlockWrite :=
  let '(index, c) := ic in
  if default false (given w !! index) then Ok w
  else
    _ ← throw_if (required c) (invalid_argument "column is REQUIRED: a new block must give it");
    Ok match FixedColumnAt layout index with
       | None =>
           if has_default c && (negb (bool_decide (default_value c = [])) || nullable c)
           then AddChange w {| Vars.change_key := key_of block_index c; Vars.change_value := Some (default_value c) |}
           else w
       | Some fixed => if has_default c then Add w fixed false (default_value c) else Add w fixed (nullable c) (zero_value fixed)
       end.

Definition AddNewBlockColumns (w : BlockWrite) (block_index : Z) : res BlockWrite :=
  fold_res (AddNewBlockColumn block_index) w (imap pair cols).

Definition PrepareUnsetBlockWrite (block_index : Z) : BlockWrite :=
  let w := fold_left (fun w fixed => Add w fixed (bool_decide (is_Some (validity fixed))) (zero_value fixed)) (fixed_ layout) ThreadBlockWrite in
  fold_left (fun w c => if negb (IsFixedWidth (kind (type c)))
                        then AddChange w {| Vars.change_key := key_of block_index c; Vars.change_value := None |} else w) cols w.

(** ** Limits *)

Definition RequireVarWrite (current : Vars.ChunkVars) (update : Vars.VarUpdate) : res unit :=
  if bool_decide (Vars.changes update = []) && match Vars.replace_ update with Some _ => false | None => true end then Ok tt
  else
    let after := Vars.VarsSizeAfter current update in
    throw_if ((var_max_chunk_bytes_ <? after) && (Vars.encoded_size current <? after))
      (invalid_argument "the text and bytes values of the chunk would take more than var_max_chunk_bytes").

Definition VarUpdateForState (current : Vars.ChunkVars) (presence : bytes) : Vars.VarUpdate :=
  {| Vars.changes := fold_left (fun cs e => if negb (BlockPresent presence (Vars.block_index e.1))
                                            then cs ++ [{| Vars.change_key := e.1; Vars.change_value := None |}] else cs) (entries current) [];
     Vars.replace_ := None |}.

(** ** Applying a write to a state *)

(** A change that changes nothing. *)
Definition same (vars : Vars.ChunkVars) (c : Vars.VarChange) : bool :=
  match Vars.change_value c, Vars.Find vars (Vars.change_key c) with
  | Some v, Some current => bool_decide (current = v)
  | Some _, None => false
  | None, Some _ => false
  | None, None => true
  end.

(** The validity bit of a block. *)
Definition PutValidity (d : bytes) (validity block_index : Z) (null : bool) : bytes :=
  let at_ := validity + block_index / 8 in
  let mask := u8 (Z.shiftl 1 (block_index mod 8)) in
  set_byte d at_ (if null then u8 (Z.land (byte_at d at_) (Z.lnot mask)) else u8 (Z.lor (byte_at d at_) mask)).

Definition ApplyEdit (block_index : Z) (d : bytes) (e : Edit) : bytes :=
  let d := WriteValueBits d (values (edit_fixed e) * 8 + block_index * width (edit_fixed e)) (edit_value e) (width (edit_fixed e)) in
  match validity (edit_fixed e) with
  | Some v => PutValidity d v block_index (edit_null e)
  | None => d
  end.

Definition ApplyBlockWriteToState (s : State) (block_index : Z) (w : BlockWrite) (present : bool) : res State :=
  let changes := merge_sort key_le (List.filter (fun c => negb (same (vars s) c)) (var_changes w)) in
  let var_update := {| Vars.changes := changes; Vars.replace_ := None |} in
  _ ← RequireVarWrite (vars s) var_update;
  let payload := fold_left (ApplyEdit block_index) (edits w) (payload s) in
  let presence := SetBlockPresent (presence s) block_index present in
  vars ← (if bool_decide (changes = []) then Ok (vars s) else '(vars, _) ← Vars.ApplyVarUpdate (vars s) var_update; Ok vars);
  Ok {| payload := payload; presence := presence; vars := vars |}.

(** The index of a block in its chunk. *)
Definition BlockIndex (block_x block_y : Z) : res Z :=
  let '(local_x, local_y) := BlockToLocal g block_x block_y in LocalBlockIndex g local_x local_y.

Definition SetBlockInState (s : State) (block_x block_y : Z) (values : list ColumnAssignment) : res State :=
  block_index ← BlockIndex block_x block_y;
  write ← PrepareSetBlockWrite values block_index;
  write ← (if negb (BlockPresent (presence s) block_index) then AddNewBlockColumns write block_index else Ok write);
  ApplyBlockWriteToState s block_index write true.

Definition UnsetBlockInState (s : State) (block_x block_y : Z) : res State :=
  block_index ← BlockIndex block_x block_y;
  if bit_string_blocks_ layout then
    payload ← BitCodec.WriteBits (payload s) (block_index * block_bits (config_ g)) (replicate (Z.to_nat (block_bits (config_ g))) 48);
    Ok {| payload := payload; presence := SetBlockPresent (presence s) block_index false; vars := vars s |}
  else ApplyBlockWriteToState s block_index (PrepareUnsetBlockWrite block_index) false.

(** ** Reading a block *)

(** The digits of each value of a byte, copied eight at a time. *)
Definition byte_digits (b : Z) : bytes := map (fun bit => if negb (Z.land (Z.shiftr b bit) 1 =? 0) then 49 else 48) (seqZ 0 8).

Definition DecodeFeedColumnValue (c : Column) (data : bytes) : res ColumnValue :=
  if negb (bool_decide (kind (type c) = kBits)) then DecodeColumnValue c data
  else Ok (VBits (concat (map (fun k => take (Z.to_nat (Z.min 8 (size (type c) - 8 * k))) (byte_digits (byte_at data k)))
                            (seqZ 0 ((size (type c) + 7) / 8))))).

(** One turn of the loop of DecodeBlockColumns. *)
Definition DecodeBlockColumn (l : ChunkLayout) (payload : bytes) (vars : Vars.ChunkVars) (block_index : Z) (scratch : bool)
    (index : nat) (c : Column) : res ColumnValue :=
  match FixedColumnAt l index with
  | None =>
      Ok match Vars.Find vars (key_of block_index c) with
         | Some v => DecodeVarValue c v
         | None => if nullable c then VNull else DecodeVarValue c []
         end
  | Some fixed =>
      if match validity fixed with
         | Some v => Z.land (Z.shiftr (byte_at payload (v + block_index / 8)) (block_index mod 8)) 1 =? 0
         | None => false
         end then Ok VNull
      else
        let bit := values fixed * 8 + block_index * width fixed in
        if scratch && (bit mod 8 =? 0) && (width fixed mod 8 =? 0)
        then DecodeFeedColumnValue c (slice payload (bit / 8) ((width fixed + 7) / 8))
        else
          let data := ReadValueBits payload bit (width fixed) in
          if scratch then DecodeFeedColumnValue c data else DecodeColumnValue c data
  end.

Fixpoint DecodeBlockLoop (l : ChunkLayout) (payload : bytes) (vars : Vars.ChunkVars) (block_index : Z) (scratch : bool)
    (index : nat) (cs : list Column) : res (list ColumnValue) :=
  match cs with
  | [] => Ok []
  | c :: cs' =>
      v ← DecodeBlockColumn l payload vars block_index scratch index c;
      vs ← DecodeBlockLoop l payload vars block_index scratch (S index) cs';
      Ok (v :: vs)
  end.

(** [scratch]: the caller lends a buffer, as the change feed does. *)
Definition DecodeBlockColumns (l : ChunkLayout) (payload : bytes) (vars : Vars.ChunkVars) (block_index : Z) (scratch : bool)
    : res (list ColumnValue) :=
  DecodeBlockLoop l payload vars block_index scratch 0 (columns (schema_ l)).

Definition BlockInState (s : State) (block_x block_y : Z) : res (option (list ColumnValue)) :=
  block_index ← BlockIndex block_x block_y;
  if negb (BlockPresent (presence s) block_index) then Ok None
  else vs ← DecodeBlockColumns layout (payload s) (vars s) block_index false; Ok (Some vs).

(** ** A whole state given by a transaction *)

Definition narrowed_out : exn := invalid_argument "column is being narrowed to a type which does not hold the value of a block".

(** [vars_given]: the write replaces the text and bytes values too. *)
Definition RequirePendingFits (payload presence : bytes) (vars_given : option Vars.ChunkVars) : res unit :=
  match pending (schema_ layout) with
  | None => Ok tt
  | Some p =>
      match IndexOfId layout (pending_column_id p) with
      | None => Err (out_of_range "columns")
      | Some index =>
          match cols !! index with
          | None => Err (out_of_range "columns")
          | Some c =>
              match FixedColumnAt layout index with
              | None =>
                  match vars_given with
                  | None => Ok tt
                  | Some vars =>
                      fold_res (fun _ e =>
                        if Vars.column_id e.1 =? id c then
                          fits ← ValueFits (pending_type p) (DecodeVarValue c e.2); throw_if (negb fits) narrowed_out
                        else Ok tt) tt (entries vars)
                  end
              | Some fixed =>
                  fold_res (fun _ block =>
                    if negb (BlockPresent presence block) ||
                       match validity fixed with
                       | Some v => Z.land (Z.shiftr (byte_at payload (v + block / 8)) (block mod 8)) 1 =? 0
                       | None => false
                       end then Ok tt
                    else
                      v ← DecodeColumnValue c (ReadValueBits payload (values fixed * 8 + block * width fixed) (width fixed));
                      fits ← ValueFits (pending_type p) v; throw_if (negb fits) narrowed_out) tt (seqZ 0 (block_count_ layout))
              end
          end
      end
  end.

Definition PrepareTxnChunkState (s : State) (current : Vars.ChunkVars) : res State :=
  _ ← throw_if (negb (len (payload s) =? ChunkPayloadBytes g)) (invalid_argument "payload byte length does not match configured chunk size");
  _ ← throw_if (negb (len (presence s) =? ChunkPresenceBitmapBytes g))
        (invalid_argument "presence byte length does not match configured chunk block count");
  payload ← MaskUnusedPayloadBits g (payload s);
  let presence := MaskUnusedPresenceBits g (presence s) in
  payload ← CanonicalizeAbsentBlocks g presence payload;
  _ ← RequireValidVars layout (vars s) presence;
  _ ← RequirePendingFits payload presence (Some (vars s));
  _ ← RequireVarWrite current {| Vars.changes := []; Vars.replace_ := Some (vars s) |};
  Ok {| payload := payload; presence := presence; vars := vars s |}.

End Blocks.

(** ** One edit *)

(** An edit the layout has a place for: a value of the column's width, and NULL
    only where there is a validity bit. *)
Definition edit_ok (l : ChunkLayout) (e : Edit) : Prop :=
  FixedColumnAt l (fixed_column (edit_fixed e)) = Some (edit_fixed e) /\
  value_ok (width (edit_fixed e)) (edit_value e) /\ (edit_null e = true -> validity (edit_fixed e) <> None).

Lemma PutValidity_bit d v b null : 0 <= v -> 0 <= b -> PutValidity d v b null = set_bit d (8 * v + b) (negb null).
Proof.
  intros Hv Hb. unfold PutValidity, set_bit. cbv zeta. destruct (bit_shift v b) as [-> ->]. by destruct null.
Qed.

(** What an edit leaves in its cell, and that it leaves the rest alone. *)
Definition edit_cell (e : Edit) : option bytes := if edit_null e then None else Some (edit_value e).

Lemma ApplyEdit_spec l e d b : layout_ok l -> edit_ok l e -> 0 <= b < block_count_ l -> sized (payload_bytes_ l) d ->
  let d' := ApplyEdit b d e in
  sized (payload_bytes_ l) d' /\ Cell (edit_fixed e) d' b = edit_cell e /\
  forall j, 0 <= j -> ~ own_bits (edit_fixed e) b j -> bit_at d' j = bit_at d j.
Proof.
  intros Hl (Hf & Hv & Hn) Hb [Ld Bd] d'. set (f := edit_fixed e) in *. pose proof (place_in_layout _ _ _ Hl Hf) as Hin. rewrite <- Ld in Hin.
  destruct (PutCell_spec _ f d b (edit_value e) Hb Hin Bd Hv) as (L & B & C & F). pose proof (lo_count l Hl) as Hc.
  assert (0 <= block_count_ l * width f) as Hbw by (destruct Hin; nia). pose proof (BytesForBits_bounds _ Hbw) as HB.
  assert (edit_null e = false -> d' = PutCell f d b (edit_value e)) as Hput.
  { intros E. unfold d', ApplyEdit, PutCell, PutBit. fold f. destruct (validity f) as [v|] eqn:Ev; [|done].
    pose proof (validity_bits_in _ _ f b v Hb Hin Ev) as Hvb. destruct Hin as (_ & H0 & _ & Hva). rewrite Ev in Hva.
    rewrite PutValidity_bit by lia. by rewrite E. }
  unfold edit_cell. destruct (edit_null e) eqn:En; [|rewrite Hput by done; split; [split; [lia|done]|done]].
  clear Hput L B C F. specialize (Hn eq_refl). destruct (validity f) as [v|] eqn:Ev; [|done]. unfold d', ApplyEdit. fold f. rewrite Ev, En.
  pose proof (validity_bits_in _ _ f b v Hb Hin Ev) as Hvb. pose proof (value_bits_in _ _ f b Hb Hin) as Hvb'. pose proof Hin as (Hw & H0 & Hn' & Hva). rewrite Ev in Hva.
  destruct Hv as (Lv & Bv & Zv). pose proof (BytesForBits_bounds (width f) ltac:(lia)).
  destruct (WriteValueBits_spec d (values f * 8 + b * width f) (edit_value e) (width f)) as (L1 & B1 & S1); [lia..|done|].
  set (d1 := WriteValueBits _ _ _ _) in *. rewrite PutValidity_bit by lia. cbn [negb]. split; [|split].
  - split; [rewrite length_set_bit; lia|by apply bytes_ok_set_bit, B1].
  - unfold Cell. rewrite Ev, GetBit_spec, bit_at_set_bit, Z.eqb_refl by lia. done.
  - intros j Hj Hno. unfold own_bits in Hno. rewrite Ev in Hno. rewrite bit_at_set_bit by lia. rewrite (proj2 (Z.eqb_neq _ _)), S1 by lia.
    destruct (Z.leb_spec (values f * 8 + b * width f) j), (Z.ltb_spec j (values f * 8 + b * width f + width f)); try done. lia.
Qed.

(** ** The edits of a write *)

Definition edits_ok (l : ChunkLayout) (es : list Edit) : Prop :=
  Forall (edit_ok l) es /\ NoDup ((fun e => fixed_column (edit_fixed e)) <$> es).

Lemma edits_unique l es e e' : edits_ok l es -> e ∈ es -> e' ∈ es -> fixed_column (edit_fixed e) = fixed_column (edit_fixed e') -> e = e'.
Proof.
  intros [_ Hnd] (i & Hi)%list_elem_of_lookup (j & Hj)%list_elem_of_lookup E.
  assert (i = j) as -> by (eapply (NoDup_lookup _ i j); [exact Hnd|rewrite list_lookup_fmap, Hi; reflexivity|rewrite list_lookup_fmap, Hj; cbn; by rewrite E]).
  congruence.
Qed.

Lemma own_bits_columns l i i' f f' b b' j : layout_ok l -> FixedColumnAt l i = Some f -> FixedColumnAt l i' = Some f' ->
  0 <= b < block_count_ l -> 0 <= b' < block_count_ l -> own_bits f b j -> own_bits f' b' j -> i = i'.
Proof.
  intros Hl Hf Hf' Hb Hb' H H'. destruct (layout_place _ _ _ Hl Hf) as (_ & _ & _ & _ & _ & _ & _ & R).
  destruct (layout_place _ _ _ Hl Hf') as (_ & _ & _ & _ & _ & _ & _ & R').
  apply (region_disjoint l i i' j Hl); [by apply (R b)|by apply (R' b')].
Qed.

Lemma ApplyEdits_spec l es d b : layout_ok l -> edits_ok l es -> 0 <= b < block_count_ l -> sized (payload_bytes_ l) d ->
  let d' := fold_left (ApplyEdit b) es d in
  sized (payload_bytes_ l) d' /\ (forall e, e ∈ es -> Cell (edit_fixed e) d' b = edit_cell e) /\
  forall j, 0 <= j -> (forall e, e ∈ es -> ~ own_bits (edit_fixed e) b j) -> bit_at d' j = bit_at d j.
Proof.
  intros Hl Hes Hb Hd d'. pose proof Hes as [Hok Hnd]. rewrite Forall_forall in Hok.
  destruct (fold_own (fun d => d) (fun e j => own_bits (edit_fixed e) b j) (fun d e => Ok (ApplyEdit b d e)) es
    (sized (payload_bytes_ l)) (fun _ _ => True) (fun e d => Cell (edit_fixed e) d b = edit_cell e)) with (l := es) (s := d) (s' := d')
    as (H1 & H2 & H3); try done.
  - intros e e' j He He' H H'. apply (edits_unique l es); try done.
    eapply (own_bits_columns l _ _ _ _ b b j Hl); [apply (Hok e He)|apply (Hok e' He')|done..].
  - intros e d1 d2 He [L1 B1] [L2 B2] Hown <-. destruct (Hok e He) as (Hf & _). apply (Cell_own (block_count_ l)); try done; [|lia].
    rewrite L1. by apply (place_in_layout l _ _ Hl Hf).
  - intros e d1 d2 He Hs _ [= <-]. apply (ApplyEdit_spec l); [done|by apply Hok|done|done].
  - by apply NoDup_fmap_1 in Hnd.
  - apply fold_res_pure.
Qed.

(** A column that is not edited, and every other block, keeps its cell. *)
Lemma ApplyEdits_other l es d b i f b' : layout_ok l -> edits_ok l es -> 0 <= b < block_count_ l -> 0 <= b' < block_count_ l ->
  sized (payload_bytes_ l) d -> FixedColumnAt l i = Some f -> b' <> b \/ (forall e, e ∈ es -> edit_fixed e <> f) ->
  Cell f (fold_left (ApplyEdit b) es d) b' = Cell f d b'.
Proof.
  intros Hl Hes Hb Hb' [Ld Bd] Hf Hother. destruct (ApplyEdits_spec l es d b Hl Hes Hb (conj Ld Bd)) as ([L B] & _ & F).
  pose proof (place_in_layout l i f Hl Hf) as Hin. apply (Cell_own (block_count_ l)); try done; [by rewrite Ld|lia|].
  intros j Hj Hown. apply F; [done|]. intros e He Ho. destruct Hes as [Hok _]. rewrite Forall_forall in Hok. destruct (Hok e He) as (Hfe & _).
  pose proof (own_bits_columns l _ _ _ _ b b' j Hl Hfe Hf Hb Hb' Ho Hown) as E. rewrite E in Hfe. assert (edit_fixed e = f) as Ef by congruence. rewrite Ef in Ho.
  destruct Hother as [Hne|Hne]; [|by apply (Hne e He)]. apply Hne. by apply (own_bits_disjoint (block_count_ l) (payload_bytes_ l) f b' b j).
Qed.

(** ** The values of a write *)

(** Each of the entries is valid. *)
Lemma valid_vars l v pr : Vars.wf v ->
  RequireValidVars l v pr = Ok tt <-> forall k x, Vars.abs v !! k = Some x -> RequireValidVar l pr (k, x) = Ok tt.
Proof.
  intros (E & Hwf & ->). unfold RequireValidVars. rewrite Vars.abs_rep by done.
  assert (entries (Vars.rep E) = E) as -> by by apply Vars.entries_rep. pose proof (Vars.sorted_NoDup E (Vars.ewf_sorted E Hwf)) as Hnd.
  assert (fold_res (fun _ e => RequireValidVar l pr e) tt E = Ok tt <-> Forall (fun e => RequireValidVar l pr e = Ok tt) E) as ->.
  { clear. induction E as [|e E IH]; cbn [fold_res]; [by split|]. rewrite Forall_cons, <- IH. split.
    - intros H. res_inv. units. done.
    - intros [-> H]. by rewrite bind_Ok_l. }
  rewrite Forall_forall. split.
  - intros H k x Hx. apply (H (k, x)). by apply elem_of_list_to_map_2.
  - intros H [k x] Hx. apply H. by apply elem_of_list_to_map_1.
Qed.

(** Changes of distinct keys, one after the other. *)
Lemma changes_lookup cs : forall m, NoDup (Vars.change_key <$> cs) ->
  (forall c, c ∈ cs -> foldl Vars.apply_change m cs !! Vars.change_key c = Vars.change_value c) /\
  (forall k, k ∉ Vars.change_key <$> cs -> foldl Vars.apply_change m cs !! k = m !! k).
Proof.
  induction cs as [|c cs IH]; intros m Hnd; cbn [foldl]; [split; [intros c Hc; by apply elem_of_nil in Hc|done]|].
  rewrite fmap_cons in Hnd. apply NoDup_cons in Hnd as [Hc Hnd]. destruct (IH (Vars.apply_change m c) Hnd) as [I1 I2]. split.
  - intros c' [->|Hc']%elem_of_cons; [|by apply I1]. rewrite I2 by done. apply Vars.apply_change_same.
  - intros k Hk. rewrite fmap_cons in Hk. apply not_elem_of_cons in Hk as [Hk1 Hk2]. rewrite I2 by done. by apply Vars.apply_change_other.
Qed.

#[local] Instance key_le_total : Total key_le.
Proof. intros a b. unfold key_le. lia. Qed.
#[local] Instance key_le_trans : Transitive key_le.
Proof. intros a b c. unfold key_le. lia. Qed.

Lemma ascending_from cs : forall last, StronglySorted key_le cs -> NoDup (Vars.change_key <$> cs) -> Forall Vars.change_ok cs ->
  Forall (fun c => match last with Some k => Vars.packed k < Vars.packed (Vars.change_key c) | None => True end) cs ->
  Vars.RequireAscending last cs = Ok tt.
Proof.
  induction cs as [|c cs IH]; intros last Hs Hnd Hok Hl; cbn [Vars.RequireAscending]; [done|].
  apply StronglySorted_inv in Hs as [Hs Hc]. rewrite fmap_cons in Hnd. apply NoDup_cons in Hnd as [Hn Hnd].
  apply Forall_cons in Hok as [Hk Hok]. apply Forall_cons in Hl as [Hl _].
  pass_guard by (destruct last; [apply Z.leb_gt; lia|done]). apply IH; try done. apply Forall_forall. intros c' Hc'.
  rewrite Forall_forall in Hc, Hok. specialize (Hc c' Hc'). unfold key_le in Hc.
  destruct (decide (Vars.packed (Vars.change_key c) = Vars.packed (Vars.change_key c'))) as [E|]; [|lia]. exfalso. apply Hn.
  rewrite (Vars.packed_inj _ _ (proj1 Hk) (proj1 (Hok c' Hc')) E). by apply list_elem_of_fmap_2.
Qed.

Lemma sorted_ascending cs : NoDup (Vars.change_key <$> cs) -> Forall Vars.change_ok cs -> Vars.RequireAscending None (merge_sort key_le cs) = Ok tt.
Proof.
  intros Hnd Hok. apply ascending_from.
  - apply StronglySorted_merge_sort; apply _.
  - by rewrite merge_sort_Permutation.
  - by rewrite merge_sort_Permutation.
  - by apply Forall_true.
Qed.

Definition changes_size (cs : list Vars.VarChange) : Z := foldr (fun c n => Vars.slot_size (Vars.change_value c) + n) 0 cs.

Lemma slot_size_pos o : 0 <= Vars.slot_size o.
Proof. destruct o; cbn; unfold Vars.kVarEntryHeaderBytes; lia. Qed.

Lemma changes_size_bound cs : forall m, Vars.map_size (foldl Vars.apply_change m cs) <= Vars.map_size m + changes_size cs.
Proof.
  induction cs as [|c cs IH]; intros m; cbn [foldl changes_size foldr]; [lia|]. specialize (IH (Vars.apply_change m c)).
  rewrite Vars.map_size_change in IH. pose proof (slot_size_pos (m !! Vars.change_key c)). fold (changes_size cs). lia.
Qed.

Lemma changes_size_filter P cs : changes_size (List.filter P cs) <= changes_size cs.
Proof.
  induction cs as [|c cs IH]; cbn [List.filter changes_size foldr]; [done|]. pose proof (slot_size_pos (Vars.change_value c)). fold (changes_size cs).
  destruct (P c); cbn [changes_size foldr]; fold (changes_size (List.filter P cs)); lia.
Qed.

#[global] Instance changes_size_proper : Proper (Permutation ==> eq) changes_size.
Proof. intros l1 l2 H. induction H; cbn [changes_size foldr] in *; unfold changes_size in *; lia. Qed.

Lemma same_spec v c : same v c = bool_decide (Vars.change_value c = Vars.Find v (Vars.change_key c)).
Proof.
  unfold same. destruct (Vars.change_value c), (Vars.Find v (Vars.change_key c)); symmetry; try (by apply bool_decide_eq_false); try (by apply bool_decide_eq_true).
  apply bool_decide_ext. split; congruence.
Qed.

(** The changes that change something, in the order of their keys. *)
Definition real_changes (v : Vars.ChunkVars) (cs : list Vars.VarChange) : list Vars.VarChange :=
  merge_sort key_le (List.filter (fun c => negb (same v c)) cs).

Lemma elem_of_real v cs c : c ∈ real_changes v cs <-> c ∈ cs /\ Vars.change_value c <> Vars.Find v (Vars.change_key c).
Proof.
  unfold real_changes. rewrite merge_sort_Permutation, !list_elem_of_In, filter_In. rewrite same_spec, negb_true_iff, bool_decide_eq_false. done.
Qed.

Lemma real_nodup v cs : NoDup (Vars.change_key <$> cs) -> NoDup (Vars.change_key <$> real_changes v cs).
Proof.
  intros H. unfold real_changes. rewrite merge_sort_Permutation. induction cs as [|c cs IH]; [done|]. rewrite fmap_cons in H. apply NoDup_cons in H as [Hc H].
  cbn [List.filter]. destruct (negb (same v c)); [|by apply IH]. rewrite fmap_cons. apply NoDup_cons. split; [|by apply IH].
  intros (c' & E & Hin)%list_elem_of_fmap. apply Hc. rewrite E. apply list_elem_of_fmap_2. rewrite list_elem_of_In in *. by apply filter_In in Hin as [? _].
Qed.

Definition update_of (cs : list Vars.VarChange) : Vars.VarUpdate := {| Vars.changes := cs; Vars.replace_ := None |}.

(** The values after changes of distinct keys. *)
Definition map_after (m m' : gmap Vars.VarKey bytes) (cs : list Vars.VarChange) : Prop :=
  (forall c, c ∈ cs -> m' !! Vars.change_key c = Vars.change_value c) /\
  (forall k, k ∉ Vars.change_key <$> cs -> m' !! k = m !! k).
Definition vars_after (v v' : Vars.ChunkVars) (cs : list Vars.VarChange) : Prop := map_after (Vars.abs v) (Vars.abs v') cs.

(** What bounds the values a write brings along. *)
Definition changes_fit (cs : list Vars.VarChange) : Prop :=
  Forall Vars.change_ok cs /\ NoDup (Vars.change_key <$> cs) /\ changes_size cs <= 2 ^ 40.

Lemma real_fit v cs : changes_fit cs -> changes_fit (real_changes v cs).
Proof.
  intros (Hok & Hnd & Hs). split; [|split].
  - rewrite Forall_forall in *. intros c Hc. apply elem_of_real in Hc as [Hc _]. by apply Hok.
  - by apply real_nodup.
  - unfold real_changes. rewrite merge_sort_Permutation. pose proof (changes_size_filter (fun c => negb (same v c)) cs). lia.
Qed.

Lemma real_after v cs : Vars.wf v -> changes_fit cs -> map_after (Vars.abs v) (foldl Vars.apply_change (Vars.abs v) (real_changes v cs)) cs.
Proof.
  intros Hwf (Hok & Hnd & _). destruct (changes_lookup (real_changes v cs) (Vars.abs v) (real_nodup v cs Hnd)) as [L1 L2]. split.
  - intros c Hc. rewrite Forall_forall in Hok. destruct (Hok c Hc) as [Hk _].
    destruct (decide (Vars.change_value c = Vars.Find v (Vars.change_key c))) as [Es|Hne]; [|apply L1; by apply elem_of_real].
    rewrite L2, Es; [symmetry; by apply Vars.Find_abs|]. intros (c' & E' & Hc')%list_elem_of_fmap. apply elem_of_real in Hc' as [Hc' Hne].
    apply Hne. rewrite <- E', <- Es. f_equal. apply list_elem_of_lookup in Hc as (i & Hi). apply list_elem_of_lookup in Hc' as (j & Hj).
    assert (i = j) as -> by (eapply (NoDup_lookup _ i j); [exact Hnd|rewrite list_lookup_fmap, Hi; reflexivity|rewrite list_lookup_fmap, Hj; cbn; by rewrite E']).
    congruence.
  - intros k Hk. apply L2. intros (c & -> & Hc)%list_elem_of_fmap. apply Hk, list_elem_of_fmap_2. by apply elem_of_real in Hc as [? _].
Qed.

(** The check of the size and the update: refused when the values would be over the
    limit and more than they are, and otherwise applied. *)
Lemma write_values lim v cs : Vars.wf v -> Vars.encoded_size v <= Vars.kVarMaxChunkBytesLimit -> 0 <= lim <= Vars.kVarMaxChunkBytesLimit -> changes_fit cs ->
  let ds := real_changes v cs in
  let m := foldl Vars.apply_change (Vars.abs v) ds in
  (RequireVarWrite lim v (update_of ds) = if bool_decide (ds = []) then Ok tt else
     throw_if ((lim <? Vars.map_size m) && (Vars.encoded_size v <? Vars.map_size m))
       (invalid_argument "the text and bytes values of the chunk would take more than var_max_chunk_bytes")) /\
  (RequireVarWrite lim v (update_of ds) = Ok tt ->
     exists v' undo, Vars.ApplyVarUpdate v (update_of ds) = Ok (v', undo) /\ Vars.wf v' /\ Vars.encoded_size v' <= Vars.kVarMaxChunkBytesLimit /\
       vars_after v v' cs /\ Vars.keys undo = map Vars.change_key ds /\ Vars.replaced undo = false /\ Vars.UndoVarUpdate v' undo = Ok v /\
       (ds = [] -> v' = v)).
Proof.
  intros Hwf Hs Hlim Hcs ds m. pose proof (real_fit v cs Hcs) as (Hok & Hnd & Hsz). fold ds in Hok, Hnd, Hsz.
  assert (Vars.RequireAscending None ds = Ok tt) as Hasc.
  { destruct Hcs as (Hok' & Hnd' & _). apply sorted_ascending.
    - pose proof (real_nodup v cs Hnd') as H. unfold real_changes in H. by rewrite merge_sort_Permutation in H.
    - rewrite Forall_forall in *. intros c Hc. apply Hok'. rewrite list_elem_of_In in *. by apply filter_In in Hc as [? _]. }
  assert (Vars.map_size m <= Vars.encoded_size v + 2 ^ 40) as Hm.
  { pose proof (changes_size_bound ds (Vars.abs v)) as H. rewrite Vars.map_size_abs in H by done. fold m in H. lia. }
  unfold Vars.kVarMaxChunkBytesLimit in *.
  assert (Vars.VarsSizeAfter v (update_of ds) = Vars.map_size m) as Hafter by (apply Vars.VarsSizeAfter_changes; try done; fold m; lia).
  assert (RequireVarWrite lim v (update_of ds) = if bool_decide (ds = []) then Ok tt else
     throw_if ((lim <? Vars.map_size m) && (Vars.encoded_size v <? Vars.map_size m))
       (invalid_argument "the text and bytes values of the chunk would take more than var_max_chunk_bytes")) as Hreq.
  { unfold RequireVarWrite. rewrite Hafter. cbn [update_of Vars.changes Vars.replace_]. rewrite andb_true_r. by destruct (bool_decide (ds = [])). }
  split; [done|]. rewrite Hreq. intros Hpass.
  assert (Vars.map_size m <= 64 * 1024 * 1024) as Hsmall.
  { case_bool_decide as Ed; [unfold m; rewrite Ed; cbn [foldl]; by rewrite Vars.map_size_abs|]. apply throw_if_ok in Hpass. apply andb_false_iff in Hpass as [H%Z.ltb_ge|H%Z.ltb_ge]; lia. }
  destruct (Vars.vars_apply_total v ds Hwf Hok Hasc) as (v' & undo & Happ); [|fold m; lia|].
  { apply Forall_forall. intros c Hc. by apply elem_of_real in Hc as [_ ?]. }
  destruct (Vars.ApplyVarUpdate_changes v ds v' undo Hwf Hok Happ) as (Hwf' & Habs & _ & Hundo & Hkeys). exists v', undo.
  split; [done|]. split; [done|]. split; [rewrite <- Vars.map_size_abs, Habs by done; fold m; lia|]. split; [unfold vars_after; rewrite Habs; by apply real_after|]. split; [done|].
  split; [|split; [done|intros E; rewrite E in Habs; by apply Vars.abs_inj]].
  unfold Vars.ApplyVarUpdate in Happ. cbn [update_of Vars.replace_ Vars.changes] in Happ. apply bind_ok in Happ as (u & _ & Happ).
  destruct ds as [|c [|c2 cs']]; apply bind_ok in Happ as (v1 & _ & [= _ <-]); done.
Qed.

(** ** The columns of a table *)

(** A table: its geometry, column ids and defaults within the types that hold
    them, and which tables have bit-string blocks. *)
Record table_ok (g : Geometry) : Prop := {
  tk_geometry : geometry_ok g;
  tk_columns : Forall (fun c => in_u 32 (id c) /\ bytes_ok (default_value c)) (columns (schema_ (layout_ g)));
  tk_bit_string : bit_string_blocks_ (layout_ g) = true -> exists c, columns (schema_ (layout_ g)) = [c] /\ kind (type c) = kBits /\ nullable c = false /\
    size (type c) = block_bits (config_ g)
}.

(** The geometries the constructor makes are tables. *)
Lemma MakeGeometry_table config schema g : config_unsigned config -> in_u 64 (version schema) ->
  Forall (fun c => in_u 32 (id c) /\ bytes_ok (default_value c)) (columns schema) -> MakeGeometry config schema = Ok g -> table_ok g.
Proof.
  intros Hc Hv Hcols H. destruct (MakeGeometry_ok config schema g Hc Hv H) as (Hg & Econf & Es & Ebits). constructor; [done|by rewrite Es|]. rewrite Es, Econf.
  unfold MakeGeometry, MakeLayout in H. cbv zeta in H. res_inv. subst g. cbn [layout_ bit_string_blocks_]. subst. cbn [bit_string_blocks_].
  destruct (columns schema) as [|c cs] eqn:Ec; [done|]. rewrite andb_true_iff. intros [E1%Nat.eqb_eq E2]. destruct cs; [|done]. apply andb_true_iff in E2 as [E2%bool_decide_eq_true E3%negb_true_iff].
  exists c. split; [done|]. split; [done|]. split; [done|]. rewrite Ebits. unfold FixedBitsPerBlock, fixed_bits. rewrite Ec. cbn [foldr map fold_left]. unfold FixedWidthBits. rewrite E2. cbn [IsFixedWidth].
  pose proof (lo_schema _ (go_layout _ Hg)) as Hsch. apply (ValidateTableSchema_ok _ (lo_version _ (go_layout _ Hg))) in Hsch as [Hsch _]. apply ValidateColumns_ok in Hsch as ((Hsch & _) & _). cbn [layout_ schema_] in Hsch.
  rewrite Ec in Hsch. apply Forall_cons in Hsch as [(_ & _ & _ & Hty%ValidateColumnType_ok & _) _]. unfold type_ok, kMaxFixedBitsPerBlock in Hty. rewrite E2 in Hty.
  rewrite Z.add_0_l, (wrap_small 64) by (unfold in_u; lia). rewrite (proj2 (Z.ltb_ge _ _)) by lia. symmetry. apply wrap_small. unfold in_u. lia.
Qed.

(** The bytes a text or bytes column may store. *)
Definition stored_ok (c : Column) (x : bytes) : Prop :=
  bytes_ok x /\ len x <= size (type c) /\ (x = [] -> nullable c = true) /\ (kind (type c) = kText -> Utf8.IsUtf8 x = true).

(** What a text or bytes column without an entry reads as. *)
Definition absent_value (c : Column) : ColumnValue := if nullable c then VNull else DecodeVarValue c [].

Definition stored_value (c : Column) (o : option bytes) : ColumnValue := match o with Some x => DecodeVarValue c x | None => absent_value c end.

Section Write.
Context (g : Geometry) (b : Z).
Hypothesis Ht : table_ok g.
Hypothesis Hb : 0 <= b < block_count_ (layout_ g).

Abbreviation layout := (layout_ g).
Abbreviation cols := (columns (schema_ (layout_ g))).

Lemma Hlayout : layout_ok layout.
Proof. apply go_layout, tk_geometry, Ht. Qed.

Lemma columns_facts : columns_valid (next_column_id (schema_ layout)) cols /\ 1 <= len cols <= kMaxColumnsPerTable.
Proof.
  pose proof Hlayout as Hl. pose proof (lo_schema _ Hl) as H. apply (ValidateTableSchema_ok _ (lo_version _ Hl)) in H as (H & _).
  apply ValidateColumns_ok in H as (H1 & H2 & _). done.
Qed.

Lemma column_facts i c : cols !! i = Some c -> column_ok c /\ in_u 32 (id c) /\ FindColumn layout (name c) = Some i /\ (nullable c && required c)%bool = false.
Proof.
  intros Hc. destruct columns_facts as [[H _] _]. rewrite Forall_lookup in H. destruct (H i c Hc) as (_ & _ & _ & H1 & H2 & H3).
  pose proof (tk_columns g Ht) as Hk. rewrite Forall_lookup in Hk. destruct (Hk i c Hc) as [K1 K2].
  split; [by split; [apply ValidateColumnType_ok|]|]. split; [done|]. split; [|done]. apply (lo_name _ Hlayout). eauto.
Qed.

Lemma column_unique c c' i i' : cols !! i = Some c -> cols !! i' = Some c' -> id c = id c' -> i = i'.
Proof.
  intros Hc Hc' E. destruct columns_facts as [(_ & _ & Hnd) _]. eapply (NoDup_lookup _ i i'); [exact Hnd|by rewrite list_lookup_fmap, Hc|].
  by rewrite list_lookup_fmap, Hc', E.
Qed.

Lemma fixed_iff i c : cols !! i = Some c -> if IsFixedWidth (kind (type c)) then exists f, FixedColumnAt layout i = Some f /\ fixed_column f = i /\ width f = FixedWidthBits (type c) /\
    (validity f = None <-> nullable c = false) else FixedColumnAt layout i = None.
Proof.
  intros Hc. destruct (column_facts i c Hc) as ((Hty & _) & _). pose proof (lo_at _ Hlayout i) as E.
  destruct (FixedColumnAt layout i) as [f|] eqn:Ef.
  - destruct (layout_place _ _ _ Hlayout Ef) as (c' & Hc' & Hw & Hv & Hin & _). assert (c' = c) as -> by congruence.
    destruct Hin as (Hw1 & _). rewrite fixed_width_kind by lia. exists f. split; [done|]. split; [|done]. by apply (place_index (block_count_ layout) cols).
  - unfold place in E. rewrite Hc in E. destruct (Z.eqb_spec (FixedWidthBits (type c)) 0) as [E0|]; [|done].
    unfold FixedWidthBits in E0. destruct (IsFixedWidth (kind (type c))) eqn:Ek; [|done]. unfold type_ok in Hty. destruct (kind (type c)); try done; lia.
Qed.

Lemma block_u32 : u32 b = b.
Proof.
  apply wrap_small. pose proof (go_count _ (tk_geometry g Ht)) as E. pose proof (go_config _ (tk_geometry g Ht)) as Hc. destruct (chunk_blocks_ok _ Hc) as [Ew _].
  destruct Hc as (_ & _ & _ & _ & _ & Hbc & _). unfold ChunkBlockCount in E. unfold kMaxChunkBlockCount in Hbc. unfold in_u. lia.
Qed.

Lemma key_of_ok i c : cols !! i = Some c -> Vars.key_ok (key_of b c).
Proof.
  intros Hc. destruct (column_facts i c Hc) as (_ & Hid & _). split; [done|]. cbn. by apply (wrap_bound 32).
Qed.

Lemma key_of_inj i i' c c' : cols !! i = Some c -> cols !! i' = Some c' -> key_of b c = key_of b c' -> i = i'.
Proof. intros Hc Hc' E. apply (column_unique c c'); try done. by injection E. Qed.

Lemma DecodeBlockColumn_fixed i c f d vs : FixedColumnAt layout i = Some f -> sized (payload_bytes_ layout) d ->
  DecodeBlockColumn layout d vs b false i c = match Cell f d b with None => Ok VNull | Some x => DecodeColumnValue c x end.
Proof.
  intros Hf [Ld Bd]. unfold DecodeBlockColumn, Cell. rewrite Hf. pose proof (place_in_layout _ _ _ Hlayout Hf) as Hin. cbn [andb].
  assert (match validity f with Some v => Z.land (Z.shiftr (byte_at d (v + b / 8)) (b mod 8)) 1 =? 0 | None => false end =
    negb match validity f with None => true | Some v => GetBit d (8 * v + b) end) as ->.
  { destruct (validity f) as [v|] eqn:Ev; [|done]. unfold GetBit. destruct (bit_shift v b) as [-> ->]. by rewrite negb_involutive. }
  by destruct (match validity f with None => true | Some v => GetBit d (8 * v + b) end).
Qed.

Lemma DecodeBlockColumn_var i c d vs : FixedColumnAt layout i = None -> Vars.wf vs -> cols !! i = Some c ->
  DecodeBlockColumn layout d vs b false i c = Ok (stored_value c (Vars.abs vs !! key_of b c)).
Proof.
  intros Hf Hwf Hc. unfold DecodeBlockColumn. rewrite Hf, Vars.Find_abs by (done || by apply (key_of_ok i)). by destruct (Vars.abs vs !! key_of b c).
Qed.

(** ** What a write says of the columns *)

Record change_for (ch : Vars.VarChange) (i : nat) (c : Column) : Prop := {
  cf_column : cols !! i = Some c;
  cf_var : FixedColumnAt layout i = None;
  cf_key : Vars.change_key ch = key_of b c;
  cf_value : match Vars.change_value ch with Some x => stored_ok c x | None => True end
}.

Record write_ok (w : BlockWrite) : Prop := {
  wo_edits : edits_ok layout (edits w);
  wo_changes : Forall (fun ch => exists i c, change_for ch i c) (var_changes w);
  wo_distinct : NoDup (Vars.change_key <$> var_changes w)
}.

(** The write gives column [i] the value [v], or leaves it as it is. *)
Definition written (w : BlockWrite) (i : nat) (c : Column) (v : ColumnValue) : Prop :=
  match FixedColumnAt layout i with
  | Some f => exists e, e ∈ edits w /\ edit_fixed e = f /\ (if edit_null e then v = VNull else DecodeColumnValue c (edit_value e) = Ok v)
  | None => exists ch, ch ∈ var_changes w /\ Vars.change_key ch = key_of b c /\ v = stored_value c (Vars.change_value ch)
  end.

Definition untouched (w : BlockWrite) (i : nat) (c : Column) : Prop :=
  match FixedColumnAt layout i with
  | Some f => forall e, e ∈ edits w -> edit_fixed e <> f
  | None => key_of b c ∉ Vars.change_key <$> var_changes w
  end.

Lemma write_changes_fit w : write_ok w -> changes_fit (var_changes w).
Proof.
  intros [_ Hch Hnd]. split; [|split; [done|]].
  - eapply Forall_impl; [exact Hch|]. intros ch (i & c & [Hc _ Hk Hv]). split; [rewrite Hk; by apply (key_of_ok i)|].
    destruct (Vars.change_value ch); [apply Hv|done].
  - assert (length (var_changes w) <= length cols)%nat as Hl.
    { rewrite <- (length_fmap Vars.change_key (var_changes w)), <- (length_fmap (key_of b) cols). apply submseteq_length, NoDup_submseteq; [done|].
      intros k (ch & -> & Hin)%list_elem_of_fmap. rewrite Forall_forall in Hch. destruct (Hch ch Hin) as (i & c & [Hc _ -> _]).
      apply list_elem_of_fmap_2. by eapply list_elem_of_lookup_2. }
    assert (changes_size (var_changes w) <= len (var_changes w) * (12 + kMaxVariableValueBytes)) as Hs.
    { clear - Hch Ht. induction Hch as [|ch l (i & c & [Hc _ _ Hv]) _ IH]; cbn [changes_size foldr length]; [done|]. fold (changes_size l).
      assert (Vars.slot_size (Vars.change_value ch) <= 12 + kMaxVariableValueBytes) as H; [|lia].
      destruct (Vars.change_value ch) as [x|]; cbn [Vars.slot_size]; unfold kMaxVariableValueBytes, Vars.kVarEntryHeaderBytes in *; [|lia].
      destruct Hv as (_ & Hv & _). destruct (column_facts i c Hc) as ((Hty & _) & _). unfold type_ok, kMaxVariableValueBytes, kMaxFixedBitsPerBlock in Hty.
      destruct (kind (type c)); lia. }
    destruct columns_facts as [_ Hn]. unfold kMaxColumnsPerTable, kMaxVariableValueBytes in *. nia.
Qed.

(** ** Applying a write *)

Lemma presence_bits pr present : bytes_ok pr -> len pr = ChunkPresenceBitmapBytes g -> MaskUnusedPresenceBits g pr = pr ->
  let pr' := SetBlockPresent pr b present in
  bytes_ok pr' /\ len pr' = ChunkPresenceBitmapBytes g /\ MaskUnusedPresenceBits g pr' = pr' /\
  forall b', 0 <= b' -> bit_at pr' b' = if b =? b' then present else bit_at pr b'.
Proof.
  intros B L M pr'. pose proof (tk_geometry g Ht) as Hg. pose proof (go_count _ Hg) as Ec.
  assert (0 <= b < 8 * len pr) as Hin.
  { rewrite L. unfold ChunkPresenceBitmapBytes. pose proof (BytesForBits_bounds (ChunkBlockCount g) ltac:(lia)). unfold BytesForBits in *. lia. }
  assert (bytes_ok pr') as B' by by apply bytes_ok_set_bit. assert (len pr' = ChunkPresenceBitmapBytes g) as L' by (unfold pr', SetBlockPresent; by rewrite length_set_bit).
  split; [done|]. split; [done|]. assert (forall b', 0 <= b' -> bit_at pr' b' = if b =? b' then present else bit_at pr b') as S by (intros; by apply bit_at_set_bit).
  split; [|done]. apply mask_clear; try done. intros i Hi. rewrite S by lia. rewrite (proj2 (Z.eqb_neq _ _)) by lia.
  destruct (MaskUnusedPresenceBits_spec g pr Hg B L) as (_ & _ & H). rewrite <- M, H by lia. by rewrite (proj2 (Z.ltb_ge _ _)).
Qed.

Lemma BlockPresent_bit pr b' : 0 <= b' -> BlockPresent pr b' = bit_at pr b'.
Proof.
  intros Hb'. unfold BlockPresent, bit_at. pose proof (div_mod_8 b' Hb') as (Hm & _). rewrite wrap_small.
  2:{ rewrite Z.shiftl_1_l. split; [lia|]. change (2 ^ 8) with 256. pose proof (Z.pow_lt_mono_r 2 (b' mod 8) 8). lia. }
  destruct (Z.eqb_spec (Z.land (byte_at pr (b' / 8)) (Z.shiftl 1 (b' mod 8))) 0) as [E|E]; cbn [negb].
  - apply (f_equal (fun x => Z.testbit x (b' mod 8))) in E. rewrite Z.land_spec, Z.shiftl_1_l, Z.pow2_bits_true, andb_true_r, Z.bits_0 in E by lia. done.
  - symmetry. apply not_false_iff_true. intros H. apply E. apply Z.bits_inj'. intros n Hn. rewrite Z.land_spec, Z.shiftl_1_l, Z.pow2_bits_eqb, Z.bits_0 by lia.
    destruct (Z.eqb_spec (b' mod 8) n) as [<-|]; [|by rewrite andb_false_r]. by rewrite H.
Qed.

Lemma valid_var_iff pr k x : RequireValidVar layout pr (k, x) = Ok tt <->
  exists c, VarColumn layout (Vars.column_id k) = Some c /\ Vars.block_index k < block_count_ layout /\ GetBit pr (Vars.block_index k) = true /\
    len x <= size (type c) /\ (x = [] -> nullable c = true) /\ (kind (type c) = kText -> Utf8.IsUtf8 x = true).
Proof.
  unfold RequireValidVar. destruct (VarColumn layout (Vars.column_id k)) as [c|]; [|split; [done|by intros (? & ? & _)]]. split.
  - intros H. res_inv. apply orb_false_iff in Hs as [H1%Z.leb_gt H2%negb_false_iff]. apply Z.ltb_ge in Hs0. exists c. split; [done|]. split; [done|]. split; [done|]. split; [done|].
    apply andb_false_iff in Hs1, H. split.
    + intros ->. destruct Hs1 as [Hs1|Hs1]; [done|by apply negb_false_iff].
    + intros E. destruct H as [H|H]; [by apply bool_decide_eq_false in H|by apply negb_false_iff].
  - intros (c' & [= <-] & H1 & H2 & H3 & H4 & H5). pass_guard by (rewrite orb_false_iff, Z.leb_gt, H2; done). pass_guard by (apply Z.ltb_ge; lia).
    pass_guard by (case_bool_decide; [rewrite H4 by done; done|done]). apply throw_if_false. case_bool_decide; [by rewrite H5|done].
Qed.

Lemma var_column i c : cols !! i = Some c -> FixedColumnAt layout i = None <-> VarColumn layout (id c) = Some c.
Proof.
  intros Hc. pose proof (fixed_iff i c Hc) as Hfix. rewrite (lo_var _ Hlayout). unfold FixedWidthBits. destruct (IsFixedWidth (kind (type c))) eqn:Ek.
  - destruct Hfix as (f & Hf & _ & Hw & _). destruct (place_in_layout _ _ _ Hlayout Hf) as (Hw1 & _). unfold FixedWidthBits in Hw. rewrite Ek in Hw.
    split; [congruence|]. intros (_ & _ & E). lia.
  - split; [|done]. intros _. split; [by eapply list_elem_of_lookup_2|done].
Qed.

(** The text and bytes values after the write are valid: of the block when it is
    present, and none of it when it is not. *)
Lemma write_vars_valid pr v v' w present : Vars.wf v -> Vars.wf v' -> write_ok w -> RequireValidVars layout v pr = Ok tt ->
  vars_after v v' (var_changes w) -> bytes_ok pr -> len pr = ChunkPresenceBitmapBytes g -> MaskUnusedPresenceBits g pr = pr ->
  (present = false -> (forall ch, ch ∈ var_changes w -> Vars.change_value ch = None) /\
     forall i c, cols !! i = Some c -> FixedColumnAt layout i = None -> key_of b c ∈ Vars.change_key <$> var_changes w) ->
  RequireValidVars layout v' (SetBlockPresent pr b present) = Ok tt.
Proof.
  intros Hwf Hwf' Hw Hval [A1 A2] B L M Hgone. destruct (presence_bits pr present B L M) as (_ & _ & _ & S). apply valid_vars; [done|]. intros k x Hx.
  rewrite valid_vars in Hval by done. pose proof block_u32 as Eb. apply valid_var_iff.
  destruct (decide (k ∈ Vars.change_key <$> var_changes w)) as [Hk|Hk].
  - apply list_elem_of_fmap in Hk as (ch & -> & Hin). rewrite A1 in Hx by done. pose proof (wo_changes w Hw) as Hall. rewrite Forall_forall in Hall.
    destruct (Hall ch Hin) as (i & c & [Hc Hv Hkey Hs]). rewrite Hx in Hs. destruct Hs as (Bx & Sx & Ex & Tx). exists c. rewrite Hkey.
    cbn [key_of Vars.column_id Vars.block_index]. rewrite Eb, GetBit_spec, S, Z.eqb_refl by lia. split; [by apply (var_column i)|]. split; [lia|].
    split; [|done]. destruct present; [done|]. destruct (Hgone eq_refl) as [Hn _]. by rewrite Hn in Hx.
  - rewrite A2 in Hx by done. destruct (proj1 (valid_var_iff _ _ _) (Hval k x Hx)) as (c & Ec & Hlt & Hpr & Hrest). exists c. split; [done|]. split; [done|]. split; [|done].
    assert (Vars.key_ok k) as [_ [Hk0 _]].
    { destruct Hwf as (E & HE & ->). rewrite Vars.abs_rep in Hx by done. apply elem_of_list_to_map_2 in Hx. pose proof (Vars.ewf_ok _ HE) as Ho. rewrite Forall_forall in Ho. by destruct (Ho _ Hx). }
    rewrite GetBit_spec in * by lia. rewrite S by lia. destruct (Z.eqb_spec b (Vars.block_index k)) as [E|]; [|done]. destruct present; [done|]. exfalso.
    pose proof Ec as Ec'. apply (lo_var _ Hlayout) in Ec' as ((i & Hi)%list_elem_of_lookup & Eid & _). rewrite <- Eid in Ec. apply Hk.
    destruct (Hgone eq_refl) as [_ Hall]. specialize (Hall i c Hi (proj2 (var_column i c Hi) Ec)). unfold key_of in Hall. rewrite Eb, Eid, E in Hall. by destruct k.
Qed.

(** The state after a write, when its values fit. *)
Record write_done (s s' : State) (w : BlockWrite) (present : bool) : Prop := {
  wd_ok : state_ok g s';
  wd_presence : forall b', 0 <= b' -> BlockPresent (presence s') b' = if b =? b' then present else BlockPresent (presence s) b';
  wd_written : forall i c v, cols !! i = Some c -> written w i c v -> DecodeBlockColumn layout (payload s') (vars s') b false i c = Ok v;
  wd_untouched : forall i c, cols !! i = Some c -> untouched w i c ->
    DecodeBlockColumn layout (payload s') (vars s') b false i c = DecodeBlockColumn layout (payload s) (vars s) b false i c
}.

End Write.

Definition too_large : exn := invalid_argument "the text and bytes values of the chunk would take more than var_max_chunk_bytes".

Lemma ApplyBlockWriteToState_ok g lim b s w present : table_ok g -> 0 <= b < block_count_ (layout_ g) -> 0 <= lim <= Vars.kVarMaxChunkBytesLimit ->
  state_ok g s -> write_ok g b w ->
  (present = false -> (forall ch, ch ∈ var_changes w -> Vars.change_value ch = None) /\
     forall i c, columns (schema_ (layout_ g)) !! i = Some c -> FixedColumnAt (layout_ g) i = None -> key_of b c ∈ Vars.change_key <$> var_changes w) ->
  let m := foldl Vars.apply_change (Vars.abs (vars s)) (real_changes (vars s) (var_changes w)) in
  (lim < Vars.map_size m /\ Vars.encoded_size (vars s) < Vars.map_size m /\ ApplyBlockWriteToState lim s b w present = Err too_large) \/
  exists s', ApplyBlockWriteToState lim s b w present = Ok s' /\ write_done g b s s' w present /\
    payload s' = fold_left (ApplyEdit b) (edits w) (payload s) /\ vars_after (vars s) (vars s') (var_changes w) /\
    forall b' i c, 0 <= b' < block_count_ (layout_ g) -> b' <> b -> columns (schema_ (layout_ g)) !! i = Some c ->
      DecodeBlockColumn (layout_ g) (payload s') (vars s') b' false i c = DecodeBlockColumn (layout_ g) (payload s) (vars s) b' false i c.
Proof.
  intros Ht Hb Hlim Hs Hw Hgone m. pose proof (write_changes_fit g b Ht w Hw) as Hfit. destruct Hs as [[Bp Lp] [Bb Lb] [Hwf Hsz] Hval Hmask].
  pose proof (Hlayout g Ht) as Hl. pose proof (wo_edits _ _ _ Hw) as Hes.
  destruct (write_values lim (vars s) (var_changes w) Hwf Hsz Hlim Hfit) as [Hreq Hdo]. fold m in Hreq.
  unfold ApplyBlockWriteToState. cbv zeta. fold (real_changes (vars s) (var_changes w)). set (ds := real_changes (vars s) (var_changes w)) in *. fold (update_of ds).
  destruct (RequireVarWrite lim (vars s) (update_of ds)) as [[]|e] eqn:Er.
  2:{ left. case_bool_decide as Ed; [done|]. destruct ((lim <? Vars.map_size m) && (Vars.encoded_size (vars s) <? Vars.map_size m)) eqn:Eb; [|done].
      apply andb_true_iff in Eb as [E1%Z.ltb_lt E2%Z.ltb_lt]. split; [done|]. split; [done|]. by injection Hreq as ->. }
  right. rewrite bind_Ok_l. destruct (Hdo eq_refl) as (v' & undo & Happ & Hwf' & Hsz' & Hafter & _ & _ & _ & Hsame).
  destruct (ApplyEdits_spec (layout_ g) (edits w) (payload s) b Hl Hes Hb (conj Lp Bp)) as (Hsized & Hcells & _).
  destruct (presence_bits g b Ht Hb (presence s) present Bb Lb Hmask) as (Bb' & Lb' & Hm' & Sb').
  exists {| payload := fold_left (ApplyEdit b) (edits w) (payload s); presence := SetBlockPresent (presence s) b present; vars := v' |}.
  split; [case_bool_decide as Ed; [by rewrite Hsame|by rewrite Happ, bind_Ok_l]|]. cbn [payload presence vars].
  split; [|split; [done|split; [done|]]].
  - constructor; cbn [payload presence vars].
    + constructor; cbn [payload presence vars]; try done; [by destruct Hsized|by apply (write_vars_valid g b Ht Hb (presence s) (vars s) v' w present)].
    + intros b' Hb'. rewrite !BlockPresent_bit by done. by apply Sb'.
    + intros i c v Hc Hwr. unfold written in Hwr. destruct (FixedColumnAt (layout_ g) i) as [f|] eqn:Ef.
      * rewrite (DecodeBlockColumn_fixed g b Ht i c f) by done. destruct Hwr as (e & He & Hf & Hv). rewrite <- Hf, Hcells by done. unfold edit_cell.
        destruct (edit_null e); [by subst|done].
      * rewrite (DecodeBlockColumn_var g b Ht i c) by done. destruct Hwr as (ch & Hch & Hk & ->). destruct Hafter as [A1 _]. by rewrite <- Hk, A1.
    + intros i c Hc Hun. unfold untouched in Hun. destruct (FixedColumnAt (layout_ g) i) as [f|] eqn:Ef.
      * rewrite !(DecodeBlockColumn_fixed g b Ht i c f) by done. rewrite (ApplyEdits_other (layout_ g) _ _ b i f b) by (done || by right). done.
      * rewrite !(DecodeBlockColumn_var g b Ht i c) by done. destruct Hafter as [_ A2]. by rewrite A2.
  - intros b' i c Hb' Hne Hc. destruct (FixedColumnAt (layout_ g) i) as [f|] eqn:Ef.
    + rewrite !(DecodeBlockColumn_fixed g b' Ht i c f) by done. rewrite (ApplyEdits_other (layout_ g) _ _ b i f b') by (done || by left). done.
    + rewrite !(DecodeBlockColumn_var g b' Ht i c) by done. destruct Hafter as [_ A2]. rewrite A2; [done|].
      intros (ch & E & Hch)%list_elem_of_fmap. pose proof (wo_changes _ _ _ Hw) as Hall. rewrite Forall_forall in Hall. destruct (Hall ch Hch) as (i' & c' & [_ _ Hk _]).
      rewrite Hk in E. injection E as _ E. rewrite !(block_u32 g) in E by done. done.
Qed.


(** ** Preparing a write *)

Section Prepare.
Context (g : Geometry) (b : Z).
Hypothesis Ht : table_ok g.
Hypothesis Hb : 0 <= b < block_count_ (layout_ g).

Abbreviation layout := (layout_ g).
Abbreviation cols := (columns (schema_ (layout_ g))).

Lemma fixed_value i c f v : cols !! i = Some c -> FixedColumnAt layout i = Some f -> representable v ->
  match EncodeColumnValueInto c v with
  | Ok x => holds (type c) v /\ value_ok (width f) x /\ DecodeColumnValue c x = Ok v
  | Err _ => ~ holds (type c) v
  end.
Proof.
  intros Hc Hf Hr. destruct (column_facts g Ht i c Hc) as ((Hty & _) & _). pose proof (fixed_iff g Ht i c Hc) as Hfix.
  destruct (IsFixedWidth (kind (type c))) eqn:Ek; [|congruence]. destruct Hfix as (f' & Hf' & _ & Hw & _). assert (f' = f) as -> by congruence.
  assert (EncodeColumnValue c v = EncodeColumnValueInto c v) as E by (unfold EncodeColumnValue; by rewrite (proj2 (ValidateColumnType_ok c) Hty), bind_Ok_l).
  rewrite <- E. destruct (EncodeColumnValue c v) as [x|e] eqn:Ex.
  - destruct (EncodeColumnValue_only c v x Hr Ex) as (_ & _ & Hh). split; [done|]. destruct (EncodeColumnValue_holds c v Hty Ek Hh) as (x' & Ex' & L & B & P & D).
    assert (x' = x) as -> by congruence. split; [|done]. rewrite Hw. by apply value_ok_padding.
  - intros Hh. destruct (EncodeColumnValue_holds c v Hty Ek Hh) as (x' & Ex' & _). congruence.
Qed.

Lemma var_value i c v : cols !! i = Some c -> FixedColumnAt layout i = None -> representable v ->
  match EncodeVarValue c v with
  | Ok x => holds (type c) v /\ v = DecodeVarValue c x /\ bytes_ok x /\ len x <= size (type c) /\ (kind (type c) = kText -> Utf8.IsUtf8 x = true)
  | Err _ => ~ holds (type c) v
  end.
Proof.
  intros Hc Hf Hr. pose proof (fixed_iff g Ht i c Hc) as Hfix. destruct (IsFixedWidth (kind (type c))) eqn:Ek; [destruct Hfix as (f & Hf' & _); congruence|].
  unfold EncodeVarValue, DecodeVarValue, holds. destruct (kind (type c)); try discriminate.
  all: destruct v; cbn [representable throw_if mbind res_bind bool_decide] in *; try (by rewrite ?bool_decide_true, ?bool_decide_false by done; intros (_ & [])); try (by intros []).
  - rewrite bool_decide_false by done. cbn [throw_if mbind res_bind]. destruct (Utf8.IsUtf8 text) eqn:Eu; cbn [negb throw_if mbind res_bind]; [|by intros (_ & ? & _)].
    destruct (Z.ltb_spec (size (type c)) (len text)); cbn [throw_if mbind res_bind]; [intros (_ & _ & ?); lia|]. rewrite bool_decide_true by done. done.
  - rewrite bool_decide_false by done. cbn [throw_if mbind res_bind].
    destruct (Z.ltb_spec (size (type c)) (len data)); cbn [throw_if mbind res_bind]; [intros (_ & ?); lia|]. rewrite bool_decide_false by done. done.
Qed.

(** One more column written. *)
Record extends (i : nat) (c : Column) (v : ColumnValue) (w w' : BlockWrite) : Prop := {
  ex_ok : write_ok g b w';
  ex_given : given w' = given w;
  ex_written : written g b w' i c v;
  ex_others : forall j c', j <> i -> cols !! j = Some c' ->
    (forall u, written g b w j c' u -> written g b w' j c' u) /\ (untouched g b w j c' -> untouched g b w' j c')
}.

Lemma Add_extends w i c f null x v : write_ok g b w -> cols !! i = Some c -> FixedColumnAt layout i = Some f -> untouched g b w i c ->
  value_ok (width f) x -> (null = true -> validity f <> None) -> (if null then v = VNull else DecodeColumnValue c x = Ok v) ->
  extends i c v w (Add w f null x).
Proof.
  intros [[H1 H2] H3 H4] Hc Hf Hun Hx Hn Hv. unfold untouched in Hun. rewrite Hf in Hun. pose proof (lo_at _ (Hlayout g Ht) i) as Epl. rewrite Hf in Epl. symmetry in Epl.
  pose proof (place_index _ _ _ _ Epl) as Ei.
  constructor; [constructor; [|done|done]|done| |].
  - split; cbn [Add edits]; [apply Forall_app_2; [done|]; constructor; [|constructor]; split; [cbn; by rewrite Ei|done]|].
    rewrite fmap_app. apply NoDup_app. split; [done|]. split; [|apply NoDup_singleton]. intros k (e & -> & He)%list_elem_of_fmap Hk.
    apply list_elem_of_singleton in Hk. cbn in Hk. rewrite Forall_forall in H1. destruct (H1 e He) as (Hfe & _). apply (Hun e He). rewrite Hk, Ei in Hfe. congruence.
  - unfold written. rewrite Hf. eexists. split; [apply elem_of_app; right; by apply list_elem_of_singleton|]. by split.
  - intros j c' Hj Hc'. unfold written, untouched. destruct (FixedColumnAt layout j) as [f'|] eqn:Ef'; [|done]. split.
    + intros u (e & He & Hrest). exists e. split; [apply elem_of_app; by left|done].
    + intros H e [He|He]%elem_of_app; [by apply H|]. apply list_elem_of_singleton in He as ->. cbn. intros ->.
      pose proof (lo_at _ (Hlayout g Ht) j) as Epl'. rewrite Ef' in Epl'. symmetry in Epl'. pose proof (place_index _ _ _ _ Epl'). congruence.
Qed.

Lemma AddChange_extends w i c o : write_ok g b w -> cols !! i = Some c -> FixedColumnAt layout i = None -> untouched g b w i c ->
  match o with Some x => stored_ok c x | None => True end ->
  extends i c (stored_value c o) w (AddChange w {| Vars.change_key := key_of b c; Vars.change_value := o |}).
Proof.
  intros [H1 H2 H3] Hc Hf Hun Ho. unfold untouched in Hun. rewrite Hf in Hun. constructor; [constructor; [done| |]|done| |].
  - cbn [AddChange var_changes]. apply Forall_app_2; [done|]. constructor; [|constructor]. exists i, c. by constructor.
  - cbn [AddChange var_changes]. rewrite fmap_app. apply NoDup_app. split; [done|]. split; [|apply NoDup_singleton].
    intros k Hk Hk'. apply list_elem_of_singleton in Hk'. cbn in Hk'. by subst.
  - unfold written. rewrite Hf. eexists. split; [apply elem_of_app; right; by apply list_elem_of_singleton|]. done.
  - intros j c' Hj Hc'. unfold written, untouched. destruct (FixedColumnAt layout j) as [f'|] eqn:Ef'; [done|]. split.
    + intros u (ch & Hch & Hrest). exists ch. split; [apply elem_of_app; by left|done].
    + intros H. cbn [AddChange var_changes]. rewrite fmap_app, elem_of_app. intros [Hk|Hk]; [done|]. apply list_elem_of_singleton in Hk. cbn in Hk.
      apply Hj. by apply (key_of_inj g b Ht j i c' c).
Qed.

(** ** The values that are given *)

Definition admissible (c : Column) (v : ColumnValue) : Prop :=
  ((v = VNull /\ nullable c = true) \/ holds (type c) v) /\ RequireNarrowFits g c v = Ok tt.

(** The name is a column's, and the column takes the value. *)
Definition takes (a : ColumnAssignment) : Prop := exists i c, cols !! i = Some c /\ name c = column a /\ admissible c (value a).

(** The error a column refuses a value with. *)
Inductive misfits (c : Column) (v : ColumnValue) : exn -> Prop :=
| misfit_narrowed p : pending (schema_ layout) = Some p -> pending_column_id p = id c -> ValueFits (pending_type p) v = Ok false ->
    misfits c v (invalid_argument "column is being narrowed to a type which does not hold this value")
| misfit_narrowed_kind p e : pending (schema_ layout) = Some p -> pending_column_id p = id c -> ValueFits (pending_type p) v = Err e -> misfits c v e
| misfit_null : v = VNull -> nullable c = false -> misfits c v (invalid_argument "column cannot be NULL")
| misfit_value e : v <> VNull -> ~ holds (type c) v ->
    (if IsFixedWidth (kind (type c)) then EncodeColumnValueInto c v else EncodeVarValue c v) = Err e -> misfits c v e.

(** The error an assignment is refused with, after the assignments [done]. *)
Inductive refuses (done : list ColumnAssignment) (a : ColumnAssignment) : exn -> Prop :=
| refuse_unknown : (forall c, c ∈ cols -> name c <> column a) -> refuses done a (invalid_argument "the table has no column")
| refuse_twice : column a ∈ column <$> done -> refuses done a (invalid_argument "column is given twice")
| refuse_value i c e : cols !! i = Some c -> name c = column a -> column a ∉ column <$> done -> misfits c (value a) e -> refuses done a e.

Definition is_given (w : BlockWrite) (i : nat) : bool := default false (given w !! i).

Record prepared (done : list ColumnAssignment) (w : BlockWrite) : Prop := {
  pp_ok : write_ok g b w;
  pp_length : length (given w) = length cols;
  pp_columns : forall i c, cols !! i = Some c ->
    if is_given w i then exists a, a ∈ done /\ column a = name c /\ written g b w i c (value a)
    else untouched g b w i c /\ name c ∉ column <$> done;
  pp_takes : Forall takes done;
  pp_once : NoDup (column <$> done)
}.

Lemma is_given_insert w i j : (i < length (given w))%nat -> is_given (Give w i) j = if decide (i = j) then true else is_given w j.
Proof.
  intros Hi. unfold is_given, Give. cbn [given]. destruct (decide (i = j)) as [<-|Hne]; [by rewrite list_lookup_insert_eq|by rewrite list_lookup_insert_ne].
Qed.

Lemma find_column i c n : cols !! i = Some c -> FindColumn layout n = Some i <-> name c = n.
Proof.
  intros Hc. rewrite (lo_name _ (Hlayout g Ht)). split; [intros (c' & Hc' & E); congruence|intros E; by exists c].
Qed.

(** A column is taken into the write. *)
Lemma prepared_extends done w a i c w' : prepared done w -> cols !! i = Some c -> name c = column a -> is_given w i = false ->
  admissible c (value a) -> extends i c (value a) (Give w i) w' -> prepared (done ++ [a]) w'.
Proof.
  intros [H1 H2 H3 H4 H5] Hc Hn Hg Ha [E1 E2 E3 E4]. assert (i < length (given w))%nat as Hi by (rewrite H2; by eapply lookup_lt_Some).
  pose proof (H3 i c Hc) as Hci. rewrite Hg, Hn in Hci. destruct Hci as [_ Hnew].
  constructor; [done|by rewrite E2; cbn; rewrite length_insert| |by apply Forall_app_2; [done|constructor; [exists i, c; done|constructor]]|].
  - intros j cj Hj. assert (is_given w' j = is_given (Give w i) j) as -> by (unfold is_given; by rewrite E2). rewrite is_given_insert by done.
    destruct (decide (i = j)) as [<-|Hne]; [exists a; assert (cj = c) as -> by congruence; split; [apply elem_of_app; right; by left|done]|].
    pose proof (H3 j cj Hj) as Hcj. destruct (E4 j cj (not_eq_sym Hne) Hj) as [E5 E6]. destruct (is_given w j).
    + destruct Hcj as (a' & Ha' & Hn' & Hw'). exists a'. split; [apply elem_of_app; by left|]. split; [done|]. by apply E5.
    + destruct Hcj as [Hu Hd]. split; [by apply E6|]. rewrite fmap_app, elem_of_app. intros [?|E]; [done|]. apply list_elem_of_singleton in E.
      apply Hne. destruct (column_facts g Ht j cj Hj) as (_ & _ & Hfj & _). destruct (column_facts g Ht i c Hc) as (_ & _ & Hfi & _). congruence.
  - rewrite fmap_app. apply NoDup_app. split; [done|]. split; [|apply NoDup_singleton]. intros n Hin E. apply list_elem_of_singleton in E. by subst.
Qed.

Lemma PrepareAssignment_ok done w a : prepared done w -> representable (value a) ->
  match PrepareAssignment g b w a with
  | Ok w' => prepared (done ++ [a]) w'
  | Err _ => ~ (takes a /\ column a ∉ column <$> done)
  end.
Proof.
  intros Hp Hr. unfold PrepareAssignment. destruct (FindColumn layout (column a)) as [i|] eqn:Ef.
  2:{ intros [(i & c & Hc & Hn & _) _]. apply (find_column i c _ Hc) in Hn. congruence. }
  pose proof (proj1 (lo_name _ (Hlayout g Ht) _ _) Ef) as (c & Hc & Hn). fold (is_given w i). pose proof (pp_columns _ _ Hp i c Hc) as Hci.
  destruct (is_given w i) eqn:Eg; cbn [throw_if mbind res_bind].
  { intros [_ Hnew]. destruct Hci as (a' & Ha' & Hn' & _). apply Hnew. rewrite <- Hn, <- Hn'. by apply list_elem_of_fmap_2. }
  rewrite Hc. destruct Hci as [Hun Hnew]. assert (forall P : Prop, (admissible c (value a) -> P) -> takes a -> P) as Htakes.
  { intros P HP (i' & c' & Hc' & Hn' & Ha). apply HP. apply (find_column i' c' _ Hc') in Hn'. assert (i' = i) as -> by congruence. by assert (c' = c) as -> by congruence. }
  destruct (RequireNarrowFits g c (value a)) as [[]|e] eqn:Enar; cbn [mbind res_bind]; [|intros [H _]; revert H; apply Htakes; intros [_ E]; congruence].
  assert (admissible c (value a) <-> (value a = VNull /\ nullable c = true) \/ holds (type c) (value a)) as Hadm by (unfold admissible; tauto).
  assert (holds (type c) VNull -> False) as Hnull by (unfold holds; by destruct (kind (type c))).
  pose proof (pp_ok _ _ Hp) as Hwok. assert (write_ok g b (Give w i)) as Hwg by (destruct Hwok; by constructor). assert (untouched g b (Give w i) i c) as Hug by done.
  destruct (bool_decide_reflect (value a = VNull)) as [Ev|Ev]; cbn [andb orb].
  - destruct (nullable c) eqn:Enull; cbn [negb throw_if mbind res_bind].
    2:{ intros [H _]. revert H. apply Htakes. rewrite Hadm, Ev. intros [[_ ?]|?]; [done|auto]. }
    destruct (FixedColumnAt layout i) as [f|] eqn:Efix.
    + pose proof (fixed_iff g Ht i c Hc) as Hfix. destruct (IsFixedWidth (kind (type c))); [|congruence]. destruct Hfix as (f' & Hf' & _ & Hw & Hval). assert (f' = f) as -> by congruence.
      apply (prepared_extends done w a i c); try done; [by apply Hadm; left|]. rewrite Ev. apply Add_extends; try done.
      * pose proof (place_in_layout _ _ _ (Hlayout g Ht) Efix) as (Hw1 & _). pose proof (BytesForBits_bounds (width f) ltac:(lia)) as HB. unfold zero_value. change ((width f + 7) / 8) with (BytesForBits (width f)).
        split; [rewrite len_zeros; lia|]. split; [apply bytes_ok_zeros|intros; apply bit_at_zeros].
      * intros _ E. apply Hval in E. congruence.
    + cbn [mbind res_bind]. apply (prepared_extends done w a i c); try done; [by apply Hadm; left|]. rewrite Ev. replace VNull with (stored_value c None) by (cbn; unfold absent_value; by rewrite Enull).
      by apply AddChange_extends.
  - cbn [throw_if mbind res_bind]. destruct (FixedColumnAt layout i) as [f|] eqn:Efix.
    + pose proof (fixed_value i c f (value a) Hc Efix Hr) as Hv. destruct (EncodeColumnValueInto c (value a)) as [x|e]; cbn [mbind res_bind].
      * destruct Hv as (Hh & Hx & Hd). apply (prepared_extends done w a i c); try done; [by apply Hadm; right|]. by apply Add_extends.
      * intros [H _]. revert H. apply Htakes. rewrite Hadm. intros [[? _]|?]; done.
    + pose proof (var_value i c (value a) Hc Efix Hr) as Hv. destruct (EncodeVarValue c (value a)) as [x|e]; cbn [mbind res_bind].
      * destruct Hv as (Hh & Hd & Bx & Sx & Tx). apply (prepared_extends done w a i c); try done; [by apply Hadm; right|].
        match goal with |- extends _ _ _ _ (AddChange _ {| Vars.change_key := _; Vars.change_value := ?o' |}) => set (o := o') end. assert (value a = stored_value c o) as ->.
        { unfold o. destruct (bool_decide_reflect (x = [])) as [->|]; [|done]. cbn [andb]. unfold stored_value, absent_value. by destruct (nullable c); cbn [negb]. }
        apply AddChange_extends; try done. unfold o. destruct (bool_decide_reflect (x = [])) as [->|Hne]; cbn [andb]; [destruct (nullable c) eqn:En; cbn [negb]|]; try done.
      * intros [H _]. revert H. apply Htakes. rewrite Hadm. intros [[? _]|?]; done.
Qed.

Lemma PrepareAssignment_refuses done w a e : prepared done w -> representable (value a) -> PrepareAssignment g b w a = Err e -> refuses done a e.
Proof.
  intros Hp Hr. unfold PrepareAssignment. destruct (FindColumn layout (column a)) as [i|] eqn:Ef.
  2:{ intros [= <-]. constructor. intros c (i & Hc)%list_elem_of_lookup Hn. apply (find_column i c _ Hc) in Hn. congruence. }
  pose proof (proj1 (lo_name _ (Hlayout g Ht) _ _) Ef) as (c & Hc & Hn). fold (is_given w i). pose proof (pp_columns _ _ Hp i c Hc) as Hci.
  destruct (is_given w i) eqn:Eg; cbn [throw_if mbind res_bind].
  { intros [= <-]. destruct Hci as (a' & Ha' & Hn' & _). apply refuse_twice. rewrite <- Hn, <- Hn'. by apply list_elem_of_fmap_2. }
  rewrite Hc. destruct Hci as [_ Hnew]. rewrite Hn in Hnew. intros He. apply (refuse_value _ _ i c e Hc Hn Hnew). revert He.
  pose proof (fixed_iff g Ht i c Hc) as Hfix. unfold RequireNarrowFits.
  destruct (pending (schema_ layout)) as [p|] eqn:Ep; [destruct (Z.eqb_spec (pending_column_id p) (id c)) as [Eid|]|].
  1: destruct (ValueFits (pending_type p) (value a)) as [[]|e0] eqn:Evf; cbn [negb throw_if mbind res_bind].
  2: { intros [= <-]. by eapply misfit_narrowed. }
  2: { intros [= <-]. by eapply misfit_narrowed_kind. }
  all: cbn [mbind res_bind].
  all: destruct (bool_decide_reflect (value a = VNull)) as [Ev|Ev]; cbn [andb].
  all: try (destruct (nullable c) eqn:En; cbn [negb throw_if mbind res_bind]; [|intros [= <-]; by apply misfit_null]; by destruct (FixedColumnAt layout i)).
  all: cbn [throw_if mbind res_bind]; destruct (FixedColumnAt layout i) as [f|] eqn:Efix.
  all: destruct (IsFixedWidth (kind (type c))) eqn:Ek; [try by destruct Hfix as (? & ? & _)|try congruence].
  all: [> pose proof (fixed_value i c f (value a) Hc Efix Hr) as Hv; destruct (EncodeColumnValueInto c (value a)) as [x|e1] eqn:Ee
       | pose proof (var_value i c (value a) Hc Efix Hr) as Hv; destruct (EncodeVarValue c (value a)) as [x|e1] eqn:Ee
       | pose proof (fixed_value i c f (value a) Hc Efix Hr) as Hv; destruct (EncodeColumnValueInto c (value a)) as [x|e1] eqn:Ee
       | pose proof (var_value i c (value a) Hc Efix Hr) as Hv; destruct (EncodeVarValue c (value a)) as [x|e1] eqn:Ee
       | pose proof (fixed_value i c f (value a) Hc Efix Hr) as Hv; destruct (EncodeColumnValueInto c (value a)) as [x|e1] eqn:Ee
       | pose proof (var_value i c (value a) Hc Efix Hr) as Hv; destruct (EncodeVarValue c (value a)) as [x|e1] eqn:Ee ].
  all: cbn [mbind res_bind]; intros H; simplify_eq; apply misfit_value; try done; by rewrite Ek.
Qed.

Lemma PrepareSetBlockWrite_ok values : Forall (fun a => representable (value a)) values ->
  match PrepareSetBlockWrite g values b with
  | Ok w => prepared values w
  | Err e => ~ (Forall takes values /\ NoDup (column <$> values)) /\
      exists done a rest, values = done ++ a :: rest /\ Forall takes done /\ NoDup (column <$> done) /\ refuses done a e
  end.
Proof.
  intros Hr. unfold PrepareSetBlockWrite. cbv zeta. set (w0 := {| edits := _ |}).
  assert (prepared [] w0) as H0.
  { constructor; [|by cbn; rewrite length_replicate| |constructor|constructor].
    - constructor; [split; constructor|constructor|constructor].
    - intros i c Hc. unfold is_given. cbn [w0 given]. rewrite lookup_replicate_2 by (by eapply lookup_lt_Some). cbn. split; [|apply not_elem_of_nil].
      unfold untouched. destruct (FixedColumnAt layout i); [|apply not_elem_of_nil]. intros e He. by apply elem_of_nil in He. }
  clearbody w0. change values with ([] ++ values) at 2 3 4 5. revert H0. generalize (@nil ColumnAssignment) as done. revert w0.
  induction Hr as [|a values Ha _ IH]; intros w done Hp; cbn [fold_res]; [by rewrite app_nil_r|].
  pose proof (PrepareAssignment_ok done w a Hp Ha) as Hstep. pose proof (PrepareAssignment_refuses done w a) as Href.
  destruct (PrepareAssignment g b w a) as [w1|e]; cbn [mbind res_bind].
  - specialize (IH w1 (done ++ [a]) Hstep). by rewrite <- app_assoc in IH.
  - split; [|exists done, a, values; split; [done|]; split; [apply Hp|]; split; [apply Hp|by apply Href]]. intros [Hall Hnd]. apply Hstep. apply Forall_app in Hall as [_ Hall]. apply Forall_cons in Hall as [Hta _]. split; [done|].
    rewrite fmap_app, fmap_cons in Hnd. apply NoDup_app in Hnd as (_ & Hnd & _). intros Hin. apply (Hnd _ Hin). by left.
Qed.

(** ** The columns a new block does not give *)

Lemma le_value_zeros n : le_value (zeros n) = 0.
Proof. unfold zeros. induction (Z.to_nat n) as [|k IH]; cbn [replicate le_value]; [done|]. by rewrite IH. Qed.

Lemma slice_of_zeros n k m : slice (zeros n) k m = zeros (len (slice (zeros n) k m)).
Proof.
  apply list_eq_same_length with (n := length (slice (zeros n) k m)); [unfold zeros; rewrite length_replicate; lia|done|].
  intros i x y _ Hx Hy. unfold slice, zeros in *. apply lookup_take_Some in Hx as [Hx _]. rewrite lookup_drop in Hx. apply lookup_replicate in Hx as [-> _]. by apply lookup_replicate in Hy as [-> _].
Qed.

(** The zero bytes are the value a column without DEFAULT falls back to. *)
Lemma zero_fallback i c f : cols !! i = Some c -> FixedColumnAt layout i = Some f -> has_default c = false -> nullable c = false ->
  FallbackOf c = DecodeColumnValue c (zero_value f).
Proof.
  intros Hc Hf Hd Hn. destruct (column_facts g Ht i c Hc) as ((Hty & _) & _). pose proof (fixed_iff g Ht i c Hc) as Hfix. unfold FallbackOf. rewrite Hd, Hn.
  destruct (IsFixedWidth (kind (type c))) eqn:Ek; [|congruence]. destruct Hfix as (f' & Hf' & _ & Hw & _). assert (f' = f) as -> by congruence.
  unfold DecodeColumnValue, zero_value. cbv zeta. rewrite slice_of_zeros, le_value_zeros. unfold IntegerValue, FloatValue. pose proof Hty as Hty'. unfold type_ok in Hty'.
  unfold FixedWidthBits in *. rewrite Ek in *. destruct (kind (type c)) eqn:Ekind; try discriminate; cbn [FamilyOf bool_decide]; try done.
  - rewrite Z.shiftr_0_l. change (Z.land 0 1 =? 0) with true. cbn [negb]. by rewrite andb_false_r.
  - rewrite bool_decide_true by done. do 2 f_equal. rewrite (map_ext_in _ (fun _ => 48)).
    2:{ intros k _. rewrite byte_at_lookup. unfold zeros. destruct (replicate _ 0 !! _) as [x|] eqn:Ex; [apply lookup_replicate in Ex as [-> _]|]; cbn; by rewrite Z.shiftr_0_l. }
    unfold seqZ. symmetry. apply list_eq_same_length with (n := Z.to_nat (size (type c))); [by rewrite length_replicate|by rewrite length_map, length_fmap, length_seq|].
    intros k x y _ Hx Hy. apply lookup_replicate in Hy as [-> _]. rewrite list_lookup_fmap in Hx. apply fmap_Some in Hx as (? & _ & ->). done.
Qed.

Lemma fallback_is i c : cols !! i = Some c -> FixedColumnAt layout i = None -> has_default c = false \/ (default_value c = [] /\ nullable c = false) -> FallbackOf c = Ok (absent_value c).
Proof.
  intros Hc Hf Hd. pose proof (fixed_iff g Ht i c Hc) as Hfix. destruct (IsFixedWidth (kind (type c))) eqn:Ek; [destruct Hfix as (f & Hf' & _); congruence|].
  unfold FallbackOf, absent_value. rewrite Ek. destruct (has_default c).
  - destruct Hd as [?|[-> ->]]; [done|]. done.
  - destruct (nullable c); [done|]. unfold VarValue, DecodeVarValue. by destruct (kind (type c)).
Qed.

Definition required_missing : exn := invalid_argument "column is REQUIRED: a new block must give it".

(** What a column of a new block reads as once the write is applied. *)
Definition filled (w : BlockWrite) (i : nat) (c : Column) : Prop :=
  exists v, FallbackOf c = Ok v /\ (written g b w i c v \/ untouched g b w i c /\ FixedColumnAt layout i = None /\ v = absent_value c).

Lemma AddNewBlockColumn_ok w i c : write_ok g b w -> cols !! i = Some c -> untouched g b w i c -> is_given w i = false ->
  match AddNewBlockColumn g b w (i, c) with
  | Ok w' => required c = false /\ filled w' i c /\ write_ok g b w' /\ given w' = given w /\
      forall j c', j <> i -> cols !! j = Some c' -> (forall u, written g b w j c' u -> written g b w' j c' u) /\ (untouched g b w j c' -> untouched g b w' j c')
  | Err e => required c = true /\ e = required_missing
  end.
Proof.
  intros Hw Hc Hun Hg. unfold AddNewBlockColumn. fold (is_given w i). rewrite Hg. destruct (required c) eqn:Er; cbn [throw_if mbind res_bind]; [done|]. split; [done|].
  destruct (column_facts g Ht i c Hc) as (Hcok & _). pose proof (fixed_iff g Ht i c Hc) as Hfix.
  assert (forall v w', FallbackOf c = Ok v -> extends i c v w w' -> filled w' i c /\ write_ok g b w' /\ given w' = given w /\
    forall j c', j <> i -> cols !! j = Some c' -> (forall u, written g b w j c' u -> written g b w' j c' u) /\ (untouched g b w j c' -> untouched g b w' j c')) as Hdone.
  { intros v w' Hv [E1 E2 E3 E4]. split; [exists v; auto|done]. }
  destruct (FixedColumnAt layout i) as [f|] eqn:Ef.
  - destruct (IsFixedWidth (kind (type c))) eqn:Ek; [|done]. destruct Hfix as (f' & [= <-] & _ & Hwid & Hval). destruct (place_in_layout _ _ _ (Hlayout g Ht) Ef) as (Hw1 & _).
    destruct (has_default c) eqn:Ed.
    + destruct (default_holds c Hcok Ed) as (v & Hv & _). rewrite Ek in Hv. apply (Hdone v); [unfold FallbackOf; by rewrite Ed, Ek|].
      apply Add_extends; try done. rewrite Hwid. apply default_value_ok; [done|lia|done].
    + assert (value_ok (width f) (zero_value f)) as Hz.
      { unfold zero_value. change ((width f + 7) / 8) with (BytesForBits (width f)). pose proof (BytesForBits_bounds (width f) ltac:(lia)). split; [rewrite len_zeros; lia|]. split; [apply bytes_ok_zeros|intros; apply bit_at_zeros]. }
      destruct (nullable c) eqn:En.
      * apply (Hdone VNull); [unfold FallbackOf; by rewrite Ed, En|]. apply Add_extends; try done. intros _ E. apply Hval in E. congruence.
      * destruct (FallbackOf_holds c Hcok) as (v & Hv & _). apply (Hdone v); [done|]. apply Add_extends; try done. rewrite <- Hv. symmetry. by apply (zero_fallback i).
  - destruct (IsFixedWidth (kind (type c))) eqn:Ek; [by destruct Hfix as (? & ? & _)|]. destruct (has_default c && (negb (bool_decide (default_value c = [])) || nullable c)) eqn:Ecase.
    + apply andb_true_iff in Ecase as [Ed Ecase]. destruct (default_holds c Hcok Ed) as (v & Hv & Hh). rewrite Ek in Hv. injection Hv as Hv.
      apply (Hdone v); [unfold FallbackOf; rewrite Ed, Ek; by rewrite Hv|]. rewrite <- Hv. change (DecodeVarValue c (default_value c)) with (stored_value c (Some (default_value c))).
      apply AddChange_extends; try done. destruct Hcok as (_ & _ & Bd). split; [done|]. rewrite <- Hv in Hh. unfold DecodeVarValue, holds in Hh.
      split; [destruct (kind (type c)); try done; case_bool_decide; try done; lia|].
      split; [intros E; rewrite E, bool_decide_true in Ecase by done; exact Ecase|]. intros E. rewrite E in Hh. rewrite bool_decide_true in Hh by done. apply Hh.
    + apply andb_false_iff in Ecase. split; [|by split; [|split]]. exists (absent_value c). split; [|by right]. apply (fallback_is i); [done|done|].
      destruct Ecase as [?|H]; [by left|right]. apply orb_false_iff in H as [H%negb_false_iff%bool_decide_eq_true H']. done.
Qed.

(** The loop, from column [k] on. *)
Lemma AddNewBlockColumns_loop (values : list ColumnAssignment) w : forall rest k w', (forall j c, rest !! j = Some c -> cols !! (k + j)%nat = Some c) -> (k + length rest = length cols)%nat -> write_ok g b w' -> given w' = given w ->
    (forall i c, cols !! i = Some c -> is_given w i = true -> exists a, a ∈ values /\ column a = name c /\ written g b w' i c (value a)) ->
    (forall i c, cols !! i = Some c -> is_given w i = false -> if decide (i < k)%nat then filled w' i c /\ required c = false else untouched g b w' i c) ->
    match fold_res (AddNewBlockColumn g b) w' (imap (fun j => pair (k + j)%nat) rest) with
    | Ok w'' => write_ok g b w'' /\ (forall i c, cols !! i = Some c -> is_given w i = true -> exists a, a ∈ values /\ column a = name c /\ written g b w'' i c (value a)) /\
        (forall i c, cols !! i = Some c -> is_given w i = false -> filled w'' i c /\ required c = false)
    | Err e => e = required_missing /\ exists i c, cols !! i = Some c /\ is_given w i = false /\ required c = true
    end.
Proof.
  induction rest as [|c rest IH]; intros k w' Hrest Hlen Hw Hgv Hgiven Hfill; cbn [imap fold_res].
  - split; [done|]. split; [done|]. intros i c Hc Hgi. specialize (Hfill i c Hc Hgi). apply lookup_lt_Some in Hc as Hi. cbn in Hlen. by rewrite decide_True in Hfill by lia.
  - rewrite Nat.add_0_r. assert (cols !! k = Some c) as Hc by (rewrite <- (Nat.add_0_r k); by apply Hrest). 
    assert (imap ((fun j => pair (k + j)%nat) ∘ S) rest = imap (fun j => pair (S k + j)%nat) rest) as -> by (apply imap_ext; intros; cbn; f_equal; lia).
    assert (forall j c0, rest !! j = Some c0 -> cols !! (S k + j)%nat = Some c0) as Hrest' by (intros j c0 Hj; replace (S k + j)%nat with (k + S j)%nat by lia; by apply Hrest).
    assert (S k + length rest = length cols)%nat as Hlen' by (cbn in Hlen; lia).
    destruct (is_given w k) eqn:Ek.
    + assert (AddNewBlockColumn g b w' (k, c) = Ok w') as -> by (unfold AddNewBlockColumn; unfold is_given in Ek; by rewrite Hgv, Ek). rewrite bind_Ok_l. apply IH; try done.
      intros i c' Hc' Hgi. specialize (Hfill i c' Hc' Hgi). destruct (decide (i < k)%nat), (decide (i < S k)%nat); try done; try lia. assert (i = k) as -> by lia. congruence.
    + assert (is_given w' k = false) as Ek' by (unfold is_given in *; by rewrite Hgv). pose proof (Hfill k c Hc Ek) as Hun. rewrite decide_False in Hun by lia.
      pose proof (AddNewBlockColumn_ok w' k c Hw Hc Hun Ek') as Hone. destruct (AddNewBlockColumn g b w' (k, c)) as [w1|e]; cbn [mbind res_bind]; [|destruct Hone as [? ->]; by split; [|exists k, c]].
      destruct Hone as (Hreq & Hf1 & Hw1 & Hg1 & Hoth). apply IH; try done; [congruence| |].
      * intros i c' Hc' Hgi. destruct (Hgiven i c' Hc' Hgi) as (a & Ha & Hn & Hwr). exists a. split; [done|]. split; [done|]. apply (Hoth i c'); try done. intros ->. congruence.
      * intros i c' Hc' Hgi. specialize (Hfill i c' Hc' Hgi). destruct (decide (i = k)) as [->|Hne].
        -- rewrite decide_True by lia. by assert (c' = c) as -> by congruence.
        -- destruct (Hoth i c' Hne Hc') as [O1 O2]. destruct (decide (i < k)%nat), (decide (i < S k)%nat); try lia; [|by apply O2].
           destruct Hfill as [(v & Hv & Hor) Hr]. split; [|done]. exists v. split; [done|]. destruct Hor as [?|(? & ? & ?)]; [left; by apply O1|right; by split; [apply O2|]].
Qed.

Lemma AddNewBlockColumns_ok values w : prepared values w ->
  match AddNewBlockColumns g w b with
  | Ok w' => write_ok g b w' /\ (forall c, c ∈ cols -> required c = true -> name c ∈ column <$> values) /\
      forall i c, cols !! i = Some c -> (exists a, a ∈ values /\ column a = name c /\ written g b w' i c (value a)) \/ (name c ∉ column <$> values) /\ filled w' i c
  | Err e => e = required_missing /\ exists c, c ∈ cols /\ required c = true /\ name c ∉ column <$> values
  end.
Proof.
  intros Hp. unfold AddNewBlockColumns.
  pose proof (AddNewBlockColumns_loop values w cols 0%nat w) as Hloop. cbn [Nat.add] in Hloop. specialize (Hloop (fun j c H => H) eq_refl (pp_ok _ _ Hp) eq_refl). destruct Hp as [P1 P2 P3 P4 P5].
  assert (imap (fun j => pair j) cols = imap pair cols) as Eimap by done. rewrite Eimap in Hloop.
  assert (forall i c, cols !! i = Some c -> is_given w i = false -> name c ∉ column <$> values) as Hnot by (intros i c Hc Hgi; specialize (P3 i c Hc); rewrite Hgi in P3; apply P3).
  destruct (fold_res (AddNewBlockColumn g b) w (imap pair cols)) as [w'|e].
  - destruct Hloop as (L1 & L2 & L3).
    + intros i c Hc Hgi. specialize (P3 i c Hc). by rewrite Hgi in P3.
    + intros i c Hc Hgi. specialize (P3 i c Hc). rewrite Hgi in P3. rewrite decide_False by lia. apply P3.
    + split; [done|]. split.
      * intros c (i & Hc)%list_elem_of_lookup Hr. specialize (P3 i c Hc). destruct (is_given w i) eqn:Eg; [|destruct (L3 i c Hc Eg); congruence].
        destruct P3 as (a & Ha & <- & _). by apply list_elem_of_fmap_2.
      * intros i c Hc. destruct (is_given w i) eqn:Eg; [left; by apply L2|right]. split; [by apply (Hnot i)|by apply L3].
  - destruct Hloop as (-> & i & c & Hc & Hgi & Hr).
    + intros i c Hc Hgi. specialize (P3 i c Hc). by rewrite Hgi in P3.
    + intros i c Hc Hgi. specialize (P3 i c Hc). rewrite Hgi in P3. rewrite decide_False by lia. apply P3.
    + split; [done|]. exists c. split; [by eapply list_elem_of_lookup_2|]. split; [done|by apply (Hnot i)].
Qed.

End Prepare.

(** ** A block that is set reads as it was set *)

(** The index of a block stands for it within its chunk. *)
Lemma BlockIndex_ok g x y : geometry_ok g -> in_i 64 x -> in_i 64 y ->
  exists b, BlockIndex g x y = Ok b /\ 0 <= b < block_count_ (layout_ g) /\
    forall x' y' b', in_i 64 x' -> in_i 64 y' -> BlockToChunk g x' y' = BlockToChunk g x y -> BlockIndex g x' y' = Ok b' ->
      b' = b -> x' = x /\ y' = y.
Proof.
  intros Hg Hx Hy. pose proof (block_place g x y Hg Hx Hy) as Hp. unfold BlockIndex. destruct (BlockToLocal g x y) as [lx ly].
  destruct Hp as (Ex & _ & Ey & _ & _ & _ & _ & _ & b & Eb & Hb & Hlx & Hly). exists b. split; [done|]. split; [by rewrite (go_count _ Hg)|].
  intros x' y' b' Hx' Hy' Hc Hb' ->. pose proof (block_place g x' y' Hg Hx' Hy') as Hp'. destruct (BlockToLocal g x' y') as [lx' ly'].
  destruct Hp' as (Ex' & _ & Ey' & _ & _ & _ & _ & _ & b' & Eb' & _ & Hlx' & Hly'). assert (b' = b) as -> by congruence. rewrite Hc in Ex', Ey'. split; congruence.
Qed.

Lemma DecodeBlockLoop_ok l p vs b scratch (f : nat -> Column -> ColumnValue) cs : forall k,
  (forall j c, cs !! j = Some c -> DecodeBlockColumn l p vs b scratch (k + j) c = Ok (f (k + j)%nat c)) ->
  DecodeBlockLoop l p vs b scratch k cs = Ok (imap (fun j c => f (k + j)%nat c) cs).
Proof.
  induction cs as [|c cs IH]; intros k H; cbn [DecodeBlockLoop imap]; [done|]. pose proof (H 0%nat c eq_refl) as H0. rewrite Nat.add_0_r in *. rewrite H0, bind_Ok_l.
  rewrite (IH (S k)); [|intros j c' Hj; replace (S k + j)%nat with (k + S j)%nat by lia; by apply H]. rewrite bind_Ok_l. do 2 f_equal. apply imap_ext. intros j c' _. cbn. f_equal. lia.
Qed.

Lemma DecodeBlockLoop_same l p p' vs vs' b cs : forall k,
  (forall j c, cs !! j = Some c -> DecodeBlockColumn l p vs b false (k + j) c = DecodeBlockColumn l p' vs' b false (k + j) c) ->
  DecodeBlockLoop l p vs b false k cs = DecodeBlockLoop l p' vs' b false k cs.
Proof.
  induction cs as [|c cs IH]; intros k H; cbn [DecodeBlockLoop]; [done|]. pose proof (H 0%nat c eq_refl) as H0. rewrite Nat.add_0_r in H0. rewrite H0.
  rewrite (IH (S k)); [done|]. intros j c' Hj. replace (S k + j)%nat with (k + S j)%nat by lia. by apply H.
Qed.

(** What column [c] of the block reads as after the write: the value given; of a
    block that was there what it was; of a new one DEFAULT, NULL or zero. *)
Definition value_after (g : Geometry) (s : State) (b : Z) (values : list ColumnAssignment) (i : nat) (c : Column) : res ColumnValue :=
  match List.find (fun a => bool_decide (column a = name c)) values with
  | Some a => Ok (value a)
  | None =>
      if BlockPresent (presence s) b then DecodeBlockColumn (layout_ g) (payload s) (vars s) b false i c
      else FallbackOf c
  end.

(** The writes that are taken: every name is a column's that takes the value,
    none is given twice, and a new block gives every REQUIRED column. *)
Definition accepts (g : Geometry) (s : State) (b : Z) (values : list ColumnAssignment) : Prop :=
  Forall (takes g) values /\ NoDup (column <$> values) /\
  (BlockPresent (presence s) b = false -> forall c, c ∈ columns (schema_ (layout_ g)) -> required c = true -> name c ∈ column <$> values).

(** The error a write is refused with: that of the first assignment at fault, or
    the one for a REQUIRED column a new block does not give. *)
Inductive refused (g : Geometry) (s : State) (b : Z) (values : list ColumnAssignment) : exn -> Prop :=
| refused_assignment done a rest e : values = done ++ a :: rest -> Forall (takes g) done -> NoDup (column <$> done) -> refuses g done a e -> refused g s b values e
| refused_required c : Forall (takes g) values -> NoDup (column <$> values) -> BlockPresent (presence s) b = false ->
    c ∈ columns (schema_ (layout_ g)) -> required c = true -> name c ∉ column <$> values -> refused g s b values required_missing.

Lemma find_given (values : list ColumnAssignment) n :
  match List.find (fun a => bool_decide (column a = n)) values with
  | Some a => a ∈ values /\ column a = n
  | None => n ∉ column <$> values
  end.
Proof.
  destruct (List.find _ values) as [a|] eqn:Ef.
  - apply find_some in Ef as [Hin E%bool_decide_eq_true]. by rewrite list_elem_of_In.
  - intros (a & -> & Ha)%list_elem_of_fmap. rewrite list_elem_of_In in Ha. pose proof (find_none _ _ Ef a Ha) as H. cbn in H. by rewrite bool_decide_true in H.
Qed.

Lemma find_unique (values : list ColumnAssignment) a n : NoDup (column <$> values) -> a ∈ values -> column a = n ->
  List.find (fun a => bool_decide (column a = n)) values = Some a.
Proof.
  intros Hnd Ha Hn. pose proof (find_given values n) as Hf. destruct (List.find _ values) as [a'|]; [|exfalso; apply Hf; rewrite <- Hn; by apply list_elem_of_fmap_2].
  destruct Hf as [Ha' Hn']. apply list_elem_of_lookup in Ha as (j & Hj). apply list_elem_of_lookup in Ha' as (j' & Hj').
  assert (j' = j) as -> by (eapply (NoDup_lookup _ j' j); [exact Hnd|by rewrite list_lookup_fmap, Hj'|rewrite list_lookup_fmap, Hj; cbn; congruence]). congruence.
Qed.

Lemma find_not_given (values : list ColumnAssignment) n : n ∉ column <$> values -> List.find (fun a => bool_decide (column a = n)) values = None.
Proof.
  intros Hn. pose proof (find_given values n) as Hf. destruct (List.find _ values) as [a|]; [|done]. exfalso. destruct Hf as [Ha <-]. apply Hn. by apply list_elem_of_fmap_2.
Qed.

(** A write that says of every column what [value_after] is. *)
Definition fulfils (g : Geometry) (s : State) (b : Z) (values : list ColumnAssignment) (w : BlockWrite) : Prop :=
  forall i c, columns (schema_ (layout_ g)) !! i = Some c -> exists v, value_after g s b values i c = Ok v /\
    (written g b w i c v \/ untouched g b w i c /\ DecodeBlockColumn (layout_ g) (payload s) (vars s) b false i c = Ok v).

Lemma decode_total g s b i c : table_ok g -> 0 <= b < block_count_ (layout_ g) -> state_ok g s -> columns (schema_ (layout_ g)) !! i = Some c ->
  exists v, DecodeBlockColumn (layout_ g) (payload s) (vars s) b false i c = Ok v.
Proof.
  intros Ht Hb [[Bp Lp] _ [Hwf _] _ _] Hc. destruct (FixedColumnAt (layout_ g) i) as [f|] eqn:Ef; [|rewrite (DecodeBlockColumn_var g b Ht i c) by done; eauto].
  rewrite (DecodeBlockColumn_fixed g b Ht i c f) by done. destruct (Cell f (payload s) b) as [x|] eqn:Ex; [|eauto].
  pose proof (place_in_layout _ _ _ (Hlayout g Ht) Ef) as Hin. assert (len (payload s) = payload_bytes_ (layout_ g)) as Lp' by exact Lp. rewrite <- Lp' in Hin.
  pose proof (Cell_value_ok _ _ _ _ _ Hb Hin Bp Ex) as Hv. pose proof (fixed_iff g Ht i c Hc) as Hfix. destruct (column_facts g Ht i c Hc) as ((Hty & _) & _).
  destruct (IsFixedWidth (kind (type c))) eqn:Ek; [|congruence]. destruct Hfix as (f' & Hf' & _ & Hw & _). assert (f' = f) as -> by congruence.
  rewrite Hw in Hv. apply value_ok_padding in Hv as (L & B & P). destruct (DecodeColumnValue_holds c x Hty Ek B L P) as (v & Hv & _). eauto.
Qed.

(** An absent block has no text or bytes values. *)
Lemma absent_no_value g s b i c : table_ok g -> 0 <= b < block_count_ (layout_ g) -> state_ok g s -> columns (schema_ (layout_ g)) !! i = Some c ->
  BlockPresent (presence s) b = false -> Vars.abs (vars s) !! key_of b c = None.
Proof.
  intros Ht Hb [_ _ [Hwf _] Hval _] Hc Hp. destruct (Vars.abs (vars s) !! key_of b c) as [x|] eqn:Ex; [|done]. exfalso. rewrite valid_vars in Hval by done.
  destruct (proj1 (valid_var_iff g _ _ _) (Hval _ _ Ex)) as (c' & _ & _ & Hbit & _). cbn [key_of Vars.block_index] in Hbit. rewrite (block_u32 g b Ht Hb), GetBit_spec in Hbit by lia.
  rewrite BlockPresent_bit in Hp by lia. congruence.
Qed.

(** The two steps before a write is applied. *)
Lemma prepare_block g s b values : table_ok g -> 0 <= b < block_count_ (layout_ g) -> state_ok g s -> Forall (fun a => representable (value a)) values ->
  match (write ← PrepareSetBlockWrite g values b; if negb (BlockPresent (presence s) b) then AddNewBlockColumns g write b else Ok write) with
  | Ok w => accepts g s b values /\ write_ok g b w /\ fulfils g s b values w
  | Err e => ~ accepts g s b values /\ refused g s b values e
  end.
Proof.
  intros Ht Hb Hs Hr. pose proof (PrepareSetBlockWrite_ok g b Ht Hb values Hr) as Hp. destruct (PrepareSetBlockWrite g values b) as [w|e]; cbn [mbind res_bind].
  2:{ destruct Hp as (Hp & done & a & rest & Hv & Hd). split; [|by eapply refused_assignment; [exact Hv|apply Hd..]]. intros (H1 & H2 & _). by apply Hp. }
  pose proof (pp_once _ _ _ _ Hp) as Honce. destruct (BlockPresent (presence s) b) eqn:Epr; cbn [negb].
  - split; [split; [apply Hp|split; [done|congruence]]|]. split; [apply Hp|]. intros i c Hc. unfold value_after. rewrite Epr. pose proof (pp_columns _ _ _ _ Hp i c Hc) as Hci.
    destruct (is_given w i).
    + destruct Hci as (a & Ha & Hn & Hwr). rewrite (find_unique values a) by done. eauto.
    + destruct Hci as [Hu Hn]. rewrite find_not_given by done. destruct (decode_total g s b i c Ht Hb Hs Hc) as (v & Hv). eauto.
  - pose proof (AddNewBlockColumns_ok g b Ht values w Hp) as Hnew. destruct (AddNewBlockColumns g w b) as [w'|e].
    2:{ destruct Hnew as (-> & c & Hc & Hq & Hn). split; [intros (_ & _ & H); by apply Hn, H|]. apply (refused_required _ _ _ _ c); try done. apply Hp. }
    destruct Hnew as (Hw' & Hreq & Hcols). split; [by split; [apply Hp|split]|]. split; [done|]. intros i c Hc. unfold value_after. rewrite Epr.
    destruct (Hcols i c Hc) as [(a & Ha & Hn & Hwr)|(Hn & v & Hv & Hor)]; [rewrite (find_unique values a) by done; eauto|].
    rewrite find_not_given by done. exists v. split; [done|]. destruct Hor as [?|(Hu & Hvar & ->)]; [by left|right]. split; [done|].
    rewrite (DecodeBlockColumn_var g b Ht i c) by (done || apply Hs). by rewrite (absent_no_value g s b i c).
Qed.

Lemma in_block_spec g s x y b (f : nat -> Column -> res ColumnValue) : BlockIndex g x y = Ok b -> BlockPresent (presence s) b = true ->
  (forall i c, columns (schema_ (layout_ g)) !! i = Some c -> exists v, f i c = Ok v /\ DecodeBlockColumn (layout_ g) (payload s) (vars s) b false i c = Ok v) ->
  exists vs, BlockInState g s x y = Ok (Some vs) /\ length vs = length (columns (schema_ (layout_ g))) /\
    forall i c, columns (schema_ (layout_ g)) !! i = Some c -> exists v, vs !! i = Some v /\ f i c = Ok v.
Proof.
  intros Eb Hp Hv. unfold BlockInState. rewrite Eb, bind_Ok_l, Hp. cbn [negb]. unfold DecodeBlockColumns.
  set (val := fun (i : nat) (c : Column) => match f i c with Ok v => v | Err _ => VNull end).
  rewrite (DecodeBlockLoop_ok _ _ _ _ _ val); [|intros j c Hj; cbn [Nat.add]; destruct (Hv j c Hj) as (v & E1 & ->); unfold val; by rewrite E1].
  rewrite bind_Ok_l. eexists. split; [reflexivity|]. split; [by rewrite length_imap|]. intros i c Hc. rewrite list_lookup_imap, Hc. cbn [fmap option_fmap option_map Nat.add].
  destruct (Hv i c Hc) as (v & E1 & _). exists v. split; [unfold val; by rewrite E1|done].
Qed.

Lemma res_bind_assoc {A B C} (m : res A) (f : A -> res B) (h : B -> res C) : ((m ≫= f) ≫= h) = (m ≫= fun a => f a ≫= h).
Proof. by destruct m. Qed.

(** The values the write would leave. *)
Lemma block_map g s b values w : table_ok g -> 0 <= b < block_count_ (layout_ g) -> state_ok g s -> write_ok g b w -> fulfils g s b values w ->
  let m := foldl Vars.apply_change (Vars.abs (vars s)) (real_changes (vars s) (var_changes w)) in
  (forall k, Vars.block_index k <> b -> m !! k = Vars.abs (vars s) !! k) /\
  forall i c, columns (schema_ (layout_ g)) !! i = Some c -> FixedColumnAt (layout_ g) i = None ->
    value_after g s b values i c = Ok (stored_value c (m !! key_of b c)).
Proof.
  intros Ht Hb Hs Hw Hful m. destruct (real_after (vars s) (var_changes w) (proj1 (so_vars _ _ Hs)) (write_changes_fit g b Ht w Hw)) as [A1 A2]. fold m in A1, A2. split.
  - intros k Hk. apply A2. intros (ch & -> & Hch)%list_elem_of_fmap. pose proof (wo_changes _ _ _ Hw) as Hall. rewrite Forall_forall in Hall.
    destruct (Hall ch Hch) as (i & c & [_ _ E _]). apply Hk. rewrite E. cbn. by apply (block_u32 g).
  - intros i c Hc Hf. destruct (Hful i c Hc) as (v & -> & [Hwr|[Hun Hd]]); f_equal.
    + unfold written in Hwr. rewrite Hf in Hwr. destruct Hwr as (ch & Hch & Hk & ->). by rewrite <- Hk, A1.
    + unfold untouched in Hun. rewrite Hf in Hun. rewrite (DecodeBlockColumn_var g b Ht i c) in Hd by (done || apply Hs). injection Hd as <-. by rewrite A2.
Qed.

(** Blocks with another index read as before. *)
Lemma others_same g s s' x y b present : table_ok g -> in_i 64 x -> in_i 64 y -> BlockIndex g x y = Ok b ->
  (forall b', 0 <= b' -> BlockPresent (presence s') b' = if b =? b' then present else BlockPresent (presence s) b') ->
  (forall b' i c, 0 <= b' < block_count_ (layout_ g) -> b' <> b -> columns (schema_ (layout_ g)) !! i = Some c ->
     DecodeBlockColumn (layout_ g) (payload s') (vars s') b' false i c = DecodeBlockColumn (layout_ g) (payload s) (vars s) b' false i c) ->
  forall x' y', in_i 64 x' -> in_i 64 y' -> BlockToChunk g x' y' = BlockToChunk g x y -> (x', y') <> (x, y) ->
    BlockInState g s' x' y' = BlockInState g s x' y'.
Proof.
  intros Ht Hx Hy Eb Hpr Hother x' y' Hx' Hy' Hc Hne. destruct (BlockIndex_ok g x y (tk_geometry g Ht) Hx Hy) as (b0 & Eb0 & _ & Hinj). assert (b0 = b) as -> by congruence.
  destruct (BlockIndex_ok g x' y' (tk_geometry g Ht) Hx' Hy') as (b' & Eb' & Hb' & _). unfold BlockInState. rewrite Eb', !bind_Ok_l.
  assert (b' <> b) as Hbb by (intros ->; destruct (Hinj x' y' b Hx' Hy' Hc Eb' eq_refl) as [-> ->]; done).
  rewrite Hpr by lia. rewrite (proj2 (Z.eqb_neq _ _)) by lia. destruct (negb _); [done|]. unfold DecodeBlockColumns.
  rewrite (DecodeBlockLoop_same _ _ (payload s) _ (vars s)); [done|]. intros j c Hj. by apply Hother.
Qed.


(** ** A block that is cleared is gone *)

Lemma PrepareUnsetBlockWrite_eq g b :
  PrepareUnsetBlockWrite g b =
    {| edits := (fun fixed => {| edit_fixed := fixed; edit_null := bool_decide (is_Some (validity fixed)); edit_value := zero_value fixed |}) <$> fixed_ (layout_ g);
       var_changes := (fun c => {| Vars.change_key := key_of b c; Vars.change_value := None |}) <$> List.filter (fun c => negb (IsFixedWidth (kind (type c)))) (columns (schema_ (layout_ g)));
       given := [] |}.
Proof.
  unfold PrepareUnsetBlockWrite.
  assert (forall fs w, fold_left (fun w fixed => Add w fixed (bool_decide (is_Some (validity fixed))) (zero_value fixed)) fs w =
    {| edits := edits w ++ ((fun fixed => {| edit_fixed := fixed; edit_null := bool_decide (is_Some (validity fixed)); edit_value := zero_value fixed |}) <$> fs);
       var_changes := var_changes w; given := given w |}) as Hf.
  { induction fs as [|f fs IH]; intros w; cbn [fold_left]; [destruct w; cbn; by rewrite app_nil_r|]. rewrite IH. cbn. by rewrite <- app_assoc. }
  assert (forall cs w, fold_left (fun w c => if negb (IsFixedWidth (kind (type c))) then AddChange w {| Vars.change_key := key_of b c; Vars.change_value := None |} else w) cs w =
    {| edits := edits w; var_changes := var_changes w ++ ((fun c => {| Vars.change_key := key_of b c; Vars.change_value := None |}) <$> List.filter (fun c => negb (IsFixedWidth (kind (type c)))) cs);
       given := given w |}) as Hc.
  { induction cs as [|c cs IH]; intros w; cbn [fold_left List.filter]; [destruct w; cbn; by rewrite app_nil_r|]. rewrite IH. destruct (negb _); cbn; [by rewrite <- app_assoc|done]. }
  by rewrite Hc, Hf.
Qed.

Lemma NoDup_list_filter {A} (P : A -> bool) (l : list A) : NoDup l -> NoDup (List.filter P l).
Proof.
  induction 1 as [|x l Hx _ IH]; cbn [List.filter]; [constructor|]. destruct (P x); [|done]. constructor; [|done]. rewrite list_elem_of_In, filter_In, <- list_elem_of_In. tauto.
Qed.

Lemma unset_write_ok g b : table_ok g -> 0 <= b < block_count_ (layout_ g) -> write_ok g b (PrepareUnsetBlockWrite g b).
Proof.
  intros Ht Hb. pose proof (Hlayout g Ht) as Hl. rewrite PrepareUnsetBlockWrite_eq. constructor; cbn [edits var_changes].
  - split.
    + apply Forall_fmap, Forall_forall. intros f Hf. pose proof (elem_of_fixed _ f Hl Hf) as Hat. split; [done|]. cbn [edit_fixed edit_value edit_null].
      destruct (place_in_layout _ _ _ Hl Hat) as (Hw & _). pose proof (BytesForBits_bounds (width f) ltac:(lia)). split.
      * unfold zero_value. change ((width f + 7) / 8) with (BytesForBits (width f)). split; [rewrite len_zeros; lia|]. split; [apply bytes_ok_zeros|intros; apply bit_at_zeros].
      * intros E%bool_decide_eq_true E'. rewrite E' in E. by destruct E.
    + rewrite <- list_fmap_compose. apply NoDup_fmap_2_strong; [|by apply NoDup_fixed]. intros f f' Hf Hf' E. cbn in E. apply (elem_of_fixed _ f Hl) in Hf. apply (elem_of_fixed _ f' Hl) in Hf'. congruence.
  - apply Forall_fmap, Forall_forall. intros c Hc. rewrite list_elem_of_In, filter_In, <- list_elem_of_In in Hc. destruct Hc as [(i & Hi)%list_elem_of_lookup Hv%negb_true_iff].
    exists i, c. constructor; try done. pose proof (fixed_iff g Ht i c Hi) as H. by rewrite Hv in H.
  - rewrite <- list_fmap_compose. destruct (columns_facts g Ht) as [(_ & _ & Hid) _]. apply NoDup_fmap_2_strong; [|apply NoDup_list_filter; by eapply NoDup_fmap_1].
    intros c c' Hc Hc' E. rewrite list_elem_of_In, filter_In, <- list_elem_of_In in Hc, Hc'. destruct Hc as [(i & Hi)%list_elem_of_lookup _], Hc' as [(i' & Hi')%list_elem_of_lookup _].
    assert (i = i') as -> by (by apply (key_of_inj g b Ht i i' c c')). congruence.
Qed.

Lemma deletes_size cs m : (forall ch, ch ∈ cs -> Vars.change_value ch = None) -> Vars.map_size (foldl Vars.apply_change m cs) <= Vars.map_size m.
Proof.
  intros H. pose proof (changes_size_bound cs m) as Hb. assert (changes_size cs = 0) as E; [|lia].
  clear Hb. induction cs as [|c cs IH]; cbn [changes_size foldr]; [done|]. rewrite (H c) by (by left). cbn. apply IH. intros ch Hch. apply H. by right.
Qed.

(** The block of a bit-string table. *)
Lemma bit_string_layout g c : table_ok g -> columns (schema_ (layout_ g)) = [c] -> kind (type c) = kBits -> nullable c = false ->
  exists f, FixedColumnAt (layout_ g) 0 = Some f /\ values f = 0 /\ width f = size (type c) /\ validity f = None /\ (forall m, VarColumn (layout_ g) m = None).
Proof.
  intros Ht Ec Ek En. pose proof (Hlayout g Ht) as Hl. assert (columns (schema_ (layout_ g)) !! 0%nat = Some c) as Hc by by rewrite Ec.
  pose proof (fixed_iff g Ht 0 c Hc) as H. rewrite Ek in H. cbn [IsFixedWidth] in H. destruct H as (f & Hf & _ & Hw & Hv). exists f. split; [done|].
  assert (values f = 0) as Ev.
  { rewrite (lo_at _ Hl) in Hf. unfold place in Hf. rewrite Ec in Hf. cbn in Hf. destruct (FixedWidthBits (type c) =? 0); [done|]. by injection Hf as <-. }
  split; [done|]. split; [rewrite Hw; unfold FixedWidthBits; by rewrite Ek|]. split; [by apply Hv|]. intros m. destruct (VarColumn (layout_ g) m) as [c'|] eqn:E; [|done]. exfalso.
  apply (lo_var _ Hl) in E as (Hin & _ & E0). rewrite Ec in Hin. apply list_elem_of_singleton in Hin as ->. destruct (place_in_layout _ _ _ Hl Hf) as (? & _). lia.
Qed.

Lemma unset_bits g s b : table_ok g -> 0 <= b < block_count_ (layout_ g) -> state_ok g s -> bit_string_blocks_ (layout_ g) = true ->
  exists p, BitCodec.WriteBits (payload s) (b * block_bits (config_ g)) (replicate (Z.to_nat (block_bits (config_ g))) 48) = Ok p /\
    state_ok g {| payload := p; presence := SetBlockPresent (presence s) b false; vars := vars s |} /\
    forall b' i c, 0 <= b' < block_count_ (layout_ g) -> b' <> b -> columns (schema_ (layout_ g)) !! i = Some c ->
      DecodeBlockColumn (layout_ g) p (vars s) b' false i c = DecodeBlockColumn (layout_ g) (payload s) (vars s) b' false i c.
Proof.
  intros Ht Hb [[Bp Lp] [Bb Lb] [Hwf Hsz] Hval Hmask] Hbits. destruct (tk_bit_string g Ht Hbits) as (c & Ec & Ek & En & Esz).
  destruct (bit_string_layout g c Ht Ec Ek En) as (f & Hf & Ev & Hw & Hvd & Hnov). pose proof (place_in_layout _ _ _ (Hlayout g Ht) Hf) as Hin. pose proof (value_bits_in _ _ f b Hb Hin) as Hvb.
  rewrite Ev, Hw, Esz in Hvb. pose proof Hin as (Hw1 & _ & Hle & _). rewrite Hw, Esz in Hw1, Hle. set (w := block_bits (config_ g)) in *. rewrite Ev in Hle.
  pose proof (geometry_sizes g (tk_geometry g Ht)) as [Sp _]. unfold kMaxImageSectionRawBytes, ChunkPayloadBytes in *.
  assert (len (replicate (Z.to_nat w) 48) = w) as Lr by (rewrite length_replicate; lia).
  rewrite BitCodec.WriteBits_spec; [|done| |lia|rewrite Lr, Lp; lia].
  2:{ unfold BitCodec.IsBitString. apply forallb_forall. intros x Hx. rewrite <- list_elem_of_In in Hx. apply elem_of_replicate in Hx as [-> _]. done. }
  eexists. split; [reflexivity|]. set (p := BitCodec.write_string _ _ _). assert (sized (payload_bytes_ (layout_ g)) p) as [Lp' Bp'].
  { split; [unfold p; by rewrite BitCodec.length_write_string|by apply BitCodec.bytes_ok_write_string]. }
  destruct (presence_bits g b Ht Hb (presence s) false Bb Lb Hmask) as (Bb' & Lb' & Hm' & _). split.
  - constructor; cbn [payload presence vars]; try done. apply valid_vars; [done|]. intros k x Hx. rewrite valid_vars in Hval by done.
    destruct (proj1 (valid_var_iff g _ _ _) (Hval k x Hx)) as (c' & E & _). by rewrite Hnov in E.
  - intros b' i c' Hb' Hne Hc'. rewrite Ec in Hc'. destruct i; [|done]. injection Hc' as <-. rewrite !(DecodeBlockColumn_fixed g b' Ht 0 c f) by done.
    rewrite (Cell_own (block_count_ (layout_ g)) f (payload s) p b'); try done; [by rewrite Lp|lia|]. intros j Hj Ho. unfold p. rewrite BitCodec.bit_at_write_string by (rewrite ?Lr, ?Lp; lia).
    destruct (Z.leb_spec (b * w) j), (Z.ltb_spec j (b * w + len (replicate (Z.to_nat w) 48))); cbn [andb]; try done. exfalso. apply Hne.
    apply (own_bits_disjoint (block_count_ (layout_ g)) (payload_bytes_ (layout_ g)) f b' b j); try done. left. rewrite Ev, Hw, Esz. lia.
Qed.

(** C22: clearing a block of a chunk's state always works, whether the table has
    columns or bit-string blocks: the state stays valid, the block is gone, and
    every other block of the chunk reads as before. *)
Theorem unset_block g lim s x y : table_ok g -> 0 <= lim <= Vars.kVarMaxChunkBytesLimit -> state_ok g s -> in_i 64 x -> in_i 64 y ->
  exists s', UnsetBlockInState g lim s x y = Ok s' /\ state_ok g s' /\ BlockInState g s' x y = Ok None /\
    forall x' y', in_i 64 x' -> in_i 64 y' -> BlockToChunk g x' y' = BlockToChunk g x y -> (x', y') <> (x, y) ->
      BlockInState g s' x' y' = BlockInState g s x' y'.
Proof.
  intros Ht Hlim Hs Hx Hy. destruct (BlockIndex_ok g x y (tk_geometry g Ht) Hx Hy) as (b & Eb & Hb & _). unfold UnsetBlockInState. rewrite Eb, bind_Ok_l.
  assert (forall s', (forall b', 0 <= b' -> BlockPresent (presence s') b' = if b =? b' then false else BlockPresent (presence s) b') -> BlockInState g s' x y = Ok None) as Hgone.
  { intros s' Hpr. unfold BlockInState. rewrite Eb, bind_Ok_l, Hpr, Z.eqb_refl by lia. done. }
  destruct (bit_string_blocks_ (layout_ g)) eqn:Ebits.
  - destruct (unset_bits g s b Ht Hb Hs Ebits) as (p & -> & Hok & Hother). rewrite bind_Ok_l. eexists. split; [reflexivity|]. split; [done|].
    destruct Hs as [_ [Bb Lb] _ _ Hmask]. destruct (presence_bits g b Ht Hb (presence s) false Bb Lb Hmask) as (_ & _ & _ & Sb).
    assert (forall b', 0 <= b' -> BlockPresent (SetBlockPresent (presence s) b false) b' = if b =? b' then false else BlockPresent (presence s) b') as Hpr
      by (intros b' Hb'; rewrite !BlockPresent_bit by done; by apply Sb).
    split; [by apply Hgone|by apply (others_same g s _ x y b false)].
  - pose proof (unset_write_ok g b Ht Hb) as Hw. assert (forall ch, ch ∈ var_changes (PrepareUnsetBlockWrite g b) -> Vars.change_value ch = None) as Hnone.
    { intros ch Hch. rewrite PrepareUnsetBlockWrite_eq in Hch. by apply list_elem_of_fmap in Hch as (c & -> & _). }
    destruct (ApplyBlockWriteToState_ok g lim b s (PrepareUnsetBlockWrite g b) false Ht Hb Hlim Hs Hw) as [(_ & M2 & _)|(s' & -> & Hdone & _ & _ & Hother)].
    + intros _. split; [done|]. intros i c Hc Hf. rewrite PrepareUnsetBlockWrite_eq. cbn [var_changes]. rewrite <- list_fmap_compose. apply list_elem_of_fmap. exists c. split; [done|].
      rewrite list_elem_of_In, filter_In, <- list_elem_of_In. split; [by eapply list_elem_of_lookup_2|]. pose proof (fixed_iff g Ht i c Hc) as H.
      destruct (IsFixedWidth _); [destruct H as (f & Hf' & _); congruence|done].
    + exfalso. rewrite <- Vars.map_size_abs in M2 by apply Hs. pose proof (deletes_size (real_changes (vars s) (var_changes (PrepareUnsetBlockWrite g b))) (Vars.abs (vars s))) as H.
      specialize (H ltac:(intros ch Hch; apply elem_of_real in Hch as [Hch _]; by apply Hnone)). lia.
    + exists s'. split; [done|]. split; [apply Hdone|]. split; [apply Hgone, Hdone|]. apply (others_same g s s' x y b false); try done. apply Hdone.
Qed.

(** ** The change feed's decoder *)

(** The values the change feed reads, eight digits at a time and straight from the
    payload where they are aligned, are those a read returns. *)
Lemma feed_value c data : type_ok (type c) -> len data = BytesForWidth (FixedWidthBits (type c)) -> DecodeFeedColumnValue c data = DecodeColumnValue c data.
Proof.
  intros Hty Hl. unfold DecodeFeedColumnValue, DecodeColumnValue. destruct (bool_decide_reflect (kind (type c) = kBits)) as [Ek|]; [|done]. cbn [negb]. do 2 f_equal.
  assert (FixedWidthBits (type c) = size (type c)) as Ew by (unfold FixedWidthBits; by rewrite Ek). rewrite Ew in *. unfold type_ok in Hty. rewrite Ek in Hty. destruct Hty as [Hpos _].
  set (n := size (type c)) in *. set (dig := fun i => if negb (Z.land (Z.shiftr (byte_at data (i / 8)) (i mod 8)) 1 =? 0) then 49 else 48).
  change (map _ (seqZ 0 n)) with (map dig (seqZ 0 n)).
  assert (forall m k, 0 <= k -> n - 8 * k <= 8 * Z.of_nat m ->
    concat (map (fun k => take (Z.to_nat (Z.min 8 (n - 8 * k))) (byte_digits (byte_at data k))) (seqZ k (Z.of_nat m))) = map dig (seqZ (8 * k) (n - 8 * k))) as Hloop.
  { induction m as [|m IH]; intros k Hk Hm.
    - rewrite (seqZ_nil (8 * k)) by lia. done.
    - rewrite Nat2Z.inj_succ, seqZ_cons by lia. cbn [map concat]. rewrite Z.pred_succ. replace (Z.succ k) with (k + 1) by lia. rewrite IH by lia.
      assert (take (Z.to_nat (Z.min 8 (n - 8 * k))) (byte_digits (byte_at data k)) = map dig (seqZ (8 * k) (Z.min 8 (n - 8 * k)))) as ->.
      { apply list_eq. intros i. unfold byte_digits. destruct (decide (i < Z.to_nat (Z.min 8 (n - 8 * k)))%nat) as [Hi|Hi].
        - rewrite lookup_take_lt by done. rewrite !list_lookup_fmap. rewrite !lookup_seqZ_lt by lia. cbn. unfold dig. do 2 f_equal.
          destruct (bit_shift k (Z.of_nat i)) as [-> ->]. rewrite Z.div_small, Z.mod_small by lia. by rewrite Z.add_0_r.
        - rewrite lookup_take_ge by lia. symmetry. apply lookup_ge_None. rewrite length_map, length_seqZ. lia. }
      destruct (Z.le_gt_cases (n - 8 * k) 8) as [Hle|Hgt].
      + rewrite Z.min_r by lia. rewrite (seqZ_nil (8 * (k + 1))) by lia. by rewrite app_nil_r.
      + rewrite Z.min_l by lia. replace (n - 8 * k) with (8 + (n - 8 * (k + 1))) by lia. rewrite seqZ_app by lia. rewrite map_app. do 3 f_equal. lia. }
  pose proof (BytesForBits_bounds n ltac:(lia)) as HB. unfold BytesForBits in HB. specialize (Hloop (Z.to_nat ((n + 7) / 8)) 0 ltac:(lia)). rewrite Z2Nat.id in Hloop by lia.
  rewrite Z.mul_0_r, Z.sub_0_r in Hloop. apply Hloop. lia.
Qed.

Lemma feed_block g s b : table_ok g -> 0 <= b < block_count_ (layout_ g) -> state_ok g s ->
  DecodeBlockColumns (layout_ g) (payload s) (vars s) b true = DecodeBlockColumns (layout_ g) (payload s) (vars s) b false.
Proof.
  intros Ht Hb [[Bp Lp] _ _ _ _]. unfold DecodeBlockColumns.
  assert (forall i c, columns (schema_ (layout_ g)) !! i = Some c -> DecodeBlockColumn (layout_ g) (payload s) (vars s) b true i c = DecodeBlockColumn (layout_ g) (payload s) (vars s) b false i c) as H.
  { intros i c Hc. unfold DecodeBlockColumn. destruct (FixedColumnAt (layout_ g) i) as [f|] eqn:Ef; [|done]. destruct (match validity f with Some _ => _ | None => _ end); [done|]. cbv zeta. cbn [andb].
    destruct (column_facts g Ht i c Hc) as ((Hty & _) & _). pose proof (fixed_iff g Ht i c Hc) as Hfix. destruct (IsFixedWidth (kind (type c))); [|congruence].
    destruct Hfix as (f' & Hf' & _ & Hw & _). assert (f' = f) as -> by congruence. pose proof (place_in_layout _ _ _ (Hlayout g Ht) Ef) as Hin. pose proof (value_bits_in _ _ f b Hb Hin) as Hvb.
    destruct Hin as (Hw1 & Hv0 & Hle & _). unfold ChunkPayloadBytes in Lp.
    destruct (ReadValueBits_spec (payload s) (values f * 8 + b * width f) (width f)) as (L & _); [lia|lia|lia|done|].
    assert (DecodeFeedColumnValue c (ReadValueBits (payload s) (values f * 8 + b * width f) (width f)) = DecodeColumnValue c (ReadValueBits (payload s) (values f * 8 + b * width f) (width f))) as E
      by (apply feed_value; [done|]; by rewrite L, Hw).
    destruct ((values f * 8 + b * width f) mod 8 =? 0) eqn:E1, (width f mod 8 =? 0) eqn:E2; cbn [andb]; try exact E.
    unfold ReadValueBits in E |- *. rewrite E1, E2 in *. cbn [andb] in *. rewrite <- E. f_equal. apply Z.eqb_eq in E2. pose proof (Z.div_mod (width f) 8 ltac:(lia)). symmetry. f_equal. apply (Z.div_unique _ _ _ 7); lia. }
  assert (forall cs k, (forall j c, cs !! j = Some c -> columns (schema_ (layout_ g)) !! (k + j)%nat = Some c) ->
    DecodeBlockLoop (layout_ g) (payload s) (vars s) b true k cs = DecodeBlockLoop (layout_ g) (payload s) (vars s) b false k cs) as Hloop; [|by apply Hloop].
  induction cs as [|c cs IH]; intros k Hcs; cbn [DecodeBlockLoop]; [done|]. rewrite (H k c) by (rewrite <- (Nat.add_0_r k); by apply Hcs). rewrite (IH (S k)); [done|].
  intros j c' Hj. replace (S k + j)%nat with (k + S j)%nat by lia. by apply Hcs.
Qed.

(** ** The state of a transaction *)

Lemma fold_checks {A} (check : A -> res unit) l : fold_res (fun _ e => check e) tt l = Ok tt -> forall x, x ∈ l -> check x = Ok tt.
Proof. intros H x Hx. destruct (fold_res_each check l tt tt x H Hx) as ([] & E). done. Qed.

Lemma fixed_elem l i f : FixedColumnAt l i = Some f -> f ∈ fixed_ l.
Proof. unfold FixedColumnAt. destruct (fixed_index_ l !! i) as [[k|]|]; try done. apply list_elem_of_lookup_2. Qed.

(** Making a state canonical changes nothing a present block reads as. *)
Lemma canonical_state g p pr : table_ok g -> bytes_ok p -> bytes_ok pr -> len p = ChunkPayloadBytes g -> len pr = ChunkPresenceBitmapBytes g ->
  exists d d', MaskUnusedPayloadBits g p = Ok d /\ CanonicalizeAbsentBlocks g (MaskUnusedPresenceBits g pr) d = Ok d' /\ sized (payload_bytes_ (layout_ g)) d' /\
    forall f b, f ∈ fixed_ (layout_ g) -> 0 <= b < block_count_ (layout_ g) ->
      Cell f d' b = if bit_at pr b then Cell f p b else empty_cell f.
Proof.
  intros Ht Bp Bb Lp Lb. pose proof (Hlayout g Ht) as Hl. pose proof (tk_geometry g Ht) as Hg. destruct (mask_padding_cells _ p Hl Bp Lp) as (d & Ed & [Ld Bd] & Hcells).
  destruct (MaskUnusedPresenceBits_spec g pr Hg Bb Lb) as (M1 & M2 & M3). set (m := MaskUnusedPresenceBits g pr) in *.
  destruct (clear_empty_values_cells _ m d Hl Bd M2 Ld) as (d' & Ed' & Hsz & Hclear).
  { rewrite M1, Lb. unfold ChunkPresenceBitmapBytes. by rewrite <- (go_count _ Hg). }
  exists d, d'. split; [done|]. split; [done|]. split; [done|]. intros f b Hf Hb. destruct (Hclear f b Hf Hb) as [-> _]. rewrite GetBit_spec, M3 by lia.
  rewrite (proj2 (Z.ltb_lt _ _)) by (rewrite <- (go_count _ Hg); lia). cbn [andb]. destruct (Hcells f Hf) as [_ Hc]. by rewrite Hc.
Qed.

Lemma state_sized g s : state_ok g s -> sized (payload_bytes_ (layout_ g)) (payload s).
Proof. intros [[B L] _ _ _ _]. done. Qed.

(** What the check of a narrowing in progress finds of a block that is there. *)
Lemma pending_fits g s p i c b : table_ok g -> 0 <= b < block_count_ (layout_ g) -> state_ok g s -> pending (schema_ (layout_ g)) = Some p ->
  IndexOfId (layout_ g) (pending_column_id p) = Some i -> columns (schema_ (layout_ g)) !! i = Some c ->
  RequirePendingFits g (payload s) (presence s) (Some (vars s)) = Ok tt -> BlockPresent (presence s) b = true ->
  exists v, DecodeBlockColumn (layout_ g) (payload s) (vars s) b false i c = Ok v /\
    (v = VNull \/ v = absent_value c \/ ValueFits (pending_type p) v = Ok true).
Proof.
  intros Ht Hb Hs Ep Ei Hc H Hpr. unfold RequirePendingFits in H. rewrite Ep, Ei, Hc in H. destruct (FixedColumnAt (layout_ g) i) as [f|] eqn:Ef.
  - rewrite (DecodeBlockColumn_fixed g b Ht i c f) by (done || by apply state_sized). pose proof (fold_checks _ _ H b ltac:(apply elem_of_seqZ; lia)) as Hone. cbn beta in Hone.
    rewrite Hpr in Hone. cbn [negb orb] in Hone. unfold Cell. destruct (validity f) as [v|].
    + unfold GetBit. destruct (bit_shift v b) as [-> ->]. destruct (Z.land (Z.shiftr (byte_at (payload s) (v + b / 8)) (b mod 8)) 1 =? 0); cbn [negb]; [eauto|].
      apply bind_ok in Hone as (x & Hx & Hone). rewrite Hx. apply bind_ok in Hone as (fits & Hfits & Hone%throw_if_ok%negb_false_iff). subst fits. eauto.
    + apply bind_ok in Hone as (x & Hx & Hone). rewrite Hx. apply bind_ok in Hone as (fits & Hfits & Hone%throw_if_ok%negb_false_iff). subst fits. eauto.
  - rewrite (DecodeBlockColumn_var g b Ht i c) by (done || apply Hs). destruct (Vars.abs (vars s) !! key_of b c) as [x|] eqn:Ex; [|eauto]. eexists. split; [reflexivity|]. right. right. cbn [stored_value].
    assert ((key_of b c, x) ∈ entries (vars s)) as Hin.
    { destruct (so_vars _ _ Hs) as [(E & HE & Ev) _]. rewrite Ev in *. rewrite Vars.abs_rep in Ex by done. assert (entries (Vars.rep E) = E) as -> by by apply Vars.entries_rep. by apply elem_of_list_to_map_2. }
    pose proof (fold_checks _ _ H _ Hin) as Hone. cbn [fst snd key_of Vars.column_id] in Hone. rewrite Z.eqb_refl in Hone.
    apply bind_ok in Hone as (fits & Hfits & Hone%throw_if_ok%negb_false_iff). by subst fits.
Qed.

(** C23: a whole state a transaction gives for a chunk is refused or made canonical:
    the result is a valid state with the same text and bytes values, every block
    that is there reads as it was given, absent blocks are zero or NULL, and under
    a narrowing in progress no block holds a value the new type would lose. *)
Theorem txn_chunk_state g lim s current s' : table_ok g -> 0 <= lim <= Vars.kVarMaxChunkBytesLimit -> bytes_ok (payload s) -> bytes_ok (presence s) -> Vars.wf (vars s) ->
  Vars.encoded_size current <= Vars.kVarMaxChunkBytesLimit -> PrepareTxnChunkState g lim s current = Ok s' ->
  state_ok g s' /\ vars s' = vars s /\
  forall b, 0 <= b < block_count_ (layout_ g) ->
    BlockPresent (presence s') b = BlockPresent (presence s) b /\
    (forall f, f ∈ fixed_ (layout_ g) -> BlockPresent (presence s) b = false -> Cell f (payload s') b = empty_cell f) /\
    (BlockPresent (presence s) b = true ->
      DecodeBlockColumns (layout_ g) (payload s') (vars s') b false = DecodeBlockColumns (layout_ g) (payload s) (vars s) b false /\
      forall p i c, pending (schema_ (layout_ g)) = Some p -> IndexOfId (layout_ g) (pending_column_id p) = Some i -> columns (schema_ (layout_ g)) !! i = Some c ->
        exists v, DecodeBlockColumn (layout_ g) (payload s') (vars s') b false i c = Ok v /\ (v = VNull \/ v = absent_value c \/ ValueFits (pending_type p) v = Ok true)).
Proof.
  intros Ht Hlim Bp Bb Hwf Hcur H. pose proof (Hlayout g Ht) as Hl. pose proof (tk_geometry g Ht) as Hg. unfold PrepareTxnChunkState in H. res_inv.
  apply negb_false_iff, Z.eqb_eq in Hs, Hs0. destruct (canonical_state g (payload s) (presence s) Ht Bp Bb Hs Hs0) as (d & d' & E1 & E2 & [Ld Bd] & Hcells).
  assert (a1 = d) as -> by congruence. assert (a2 = d') as -> by congruence. clear Hs1 Hs2.
  destruct (MaskUnusedPresenceBits_spec g (presence s) Hg Bb Hs0) as (M1 & M2 & M3). subst s'. cbn [payload presence vars].
  assert (forall b, 0 <= b < block_count_ (layout_ g) -> BlockPresent (MaskUnusedPresenceBits g (presence s)) b = BlockPresent (presence s) b) as Hpres.
  { intros b Hb. rewrite !BlockPresent_bit, M3 by lia. by rewrite (proj2 (Z.ltb_lt _ _)) by (rewrite <- (go_count _ Hg); lia). }
  set (s1 := {| payload := d'; presence := MaskUnusedPresenceBits g (presence s); vars := vars s |}).
  assert (state_ok g s1) as Hok.
  { constructor; cbn [s1 payload presence vars]; [done|by rewrite M1|split; [done|]|by destruct a3|].
    - unfold RequireVarWrite in Hs5. cbn [Vars.changes Vars.replace_ andb] in Hs5. rewrite bool_decide_true in Hs5 by done. cbn [andb] in Hs5.
      destruct a5. apply throw_if_ok, andb_false_iff in Hs5. cbn [Vars.VarsSizeAfter Vars.replace_] in Hs5. rewrite !Z.ltb_ge in Hs5. lia.
    - apply mask_clear; try done; [by rewrite M1|]. intros i Hi. destruct (chunk_blocks_ok _ (go_config _ Hg)). unfold ChunkBlockCount in *. rewrite M3 by lia. by rewrite (proj2 (Z.ltb_ge _ _)). }
  split; [done|]. split; [done|]. intros b Hb. split; [by apply Hpres|]. split.
  - intros f Hf Hp. rewrite Hcells by done. rewrite BlockPresent_bit in Hp by lia. by rewrite Hp.
  - intros Hp. split; [|intros p i c Ep Ei Hc; by apply (pending_fits g s1 p i c b); try done; [destruct a4|cbn; rewrite Hpres]].
    apply DecodeBlockLoop_same. intros i c Hc. cbn [Nat.add]. destruct (FixedColumnAt (layout_ g) i) as [f|] eqn:Ef; [|by rewrite !(DecodeBlockColumn_var g b Ht i c)].
    rewrite !(DecodeBlockColumn_fixed g b Ht i c f) by done. rewrite Hcells; [|by eapply fixed_elem|done]. rewrite BlockPresent_bit in Hp by lia. by rewrite Hp.
Qed.

(** ** A small table *)

(** Blocks of a height, a label and a note. *)
Definition example_columns : list Column :=
  [{| id := 1; name := str "height"; type := {| kind := kUnsigned; size := 10 |}; nullable := false; required := false; has_default := true; default_value := [7; 0] |};
   {| id := 2; name := str "label"; type := {| kind := kText; size := 8 |}; nullable := false; required := true; has_default := false; default_value := [] |};
   {| id := 3; name := str "note"; type := {| kind := kBytes; size := 16 |}; nullable := true; required := false; has_default := false; default_value := [] |}].

Definition example_table : Geometry :=
  match MakeGeometry {| large_chunk_width_chunks := 8; large_chunk_height_chunks := 8; chunk_width_blocks := 4; chunk_height_blocks := 4; block_bits := 10 |}
          {| version := 1; next_column_id := 4; columns := example_columns; history := []; pending := None |} with
  | Ok g => g
  | Err _ => example_geometry
  end.

Definition example_state : State := {| payload := zeros 20; presence := zeros 2; vars := Vars.no_vars |}.

Lemma example_table_ok : table_ok example_table.
Proof.
  apply (MakeGeometry_table {| large_chunk_width_chunks := 8; large_chunk_height_chunks := 8; chunk_width_blocks := 4; chunk_height_blocks := 4; block_bits := 10 |}
          {| version := 1; next_column_id := 4; columns := example_columns; history := []; pending := None |}).
  - unfold config_unsigned, in_u. by vm_compute.
  - unfold in_u. by vm_compute.
  - repeat (constructor; [split; [unfold in_u; by vm_compute|by repeat constructor]|]). constructor.
  - by vm_compute.
Qed.

Lemma example_blocks_ok : state_ok example_table example_state.
Proof.
  assert (Vars.wf Vars.no_vars) as Hwf by (exists []; split; [constructor; [constructor|constructor|reflexivity]|reflexivity]).
  constructor; cbn [payload presence vars example_state].
  - split; [apply bytes_ok_zeros|by vm_compute].
  - split; [apply bytes_ok_zeros|by vm_compute].
  - split; [exact Hwf|by vm_compute].
  - by vm_compute.
  - by vm_compute.
Qed.

(** The label and the note of the block at (5, -2), whose height is the default. *)
Definition example_values : list ColumnAssignment :=
  [{| column := str "note"; value := VBytes [1; 2] |}; {| column := str "label"; value := VText (str "hut") |}].

Definition example_set : State := match SetBlockInState example_table 1000 example_state 5 (-2) example_values with Ok s => s | Err _ => example_state end.


Lemma example_set_ok : state_ok example_table example_set.
Proof.
  assert (exists E, Vars.entries_wf E /\ vars example_set = Vars.rep E) as Hwf.
  { exists [({| Vars.column_id := 2; Vars.block_index := 9 |}, str "hut"); ({| Vars.column_id := 3; Vars.block_index := 9 |}, [1; 2])].
    split; [|vm_compute; reflexivity]. constructor; [| |reflexivity].
    - repeat constructor; vm_compute; first [reflexivity|discriminate].
    - repeat constructor; vm_compute; reflexivity. }
  constructor; [| |split; [exact Hwf|by vm_compute]|by vm_compute|by vm_compute];
    (split; [apply (bool_decide_unpack _); vm_compute; exact I|vm_compute; reflexivity]).
Qed.

(** The block that was set is cleared. *)
Lemma unset_block_witness : exists s', UnsetBlockInState example_table 1000 example_set 5 (-2) = Ok s' /\
  BlockInState example_table example_set 5 (-2) = Ok (Some [VUnsigned 7; VText (str "hut"); VBytes [1; 2]]) /\ BlockInState example_table s' 5 (-2) = Ok None.
Proof.
  destruct (unset_block example_table 1000 example_set 5 (-2)) as (s' & E & _ & H & _).
  - exact example_table_ok.
  - unfold Vars.kVarMaxChunkBytesLimit. lia.
  - exact example_set_ok.
  - unfold in_i. lia.
  - unfold in_i. lia.
  - exists s'. split; [exact E|]. split; [vm_compute; reflexivity|exact H].
Defined.

(** The same chunk with bits in the cells of blocks that are absent. *)
Definition example_stray : State := {| payload := [255; 255] ++ drop 2 (payload example_set); presence := presence example_set; vars := vars example_set |}.

Lemma txn_chunk_state_witness : PrepareTxnChunkState example_table 1000 example_stray Vars.no_vars = Ok example_set /\ example_stray <> example_set /\ state_ok example_table example_set.
Proof.
  assert (PrepareTxnChunkState example_table 1000 example_stray Vars.no_vars = Ok example_set) as E by (vm_compute; reflexivity).
  split; [exact E|]. split; [intros H; apply (f_equal payload) in H; vm_compute in H; discriminate H|].
  refine (proj1 (txn_chunk_state example_table 1000 example_stray Vars.no_vars example_set _ _ _ _ _ _ E)).
  - exact example_table_ok.
  - unfold Vars.kVarMaxChunkBytesLimit. lia.
  - apply (bool_decide_unpack _). vm_compute. exact I.
  - apply (bool_decide_unpack _). vm_compute. exact I.
  - exact (proj1 (so_vars _ _ example_set_ok)).
  - vm_compute. discriminate.
Defined.

End BlockOps.
