(* ===== verification/TxnSession.v ===== *)
(** * A session's transaction (src/src/engine_cql.cpp, src/src/txn_commit.cpp)

    What a transaction keeps between BEGIN and COMMIT: the chunks it read and
    its private copies of the chunks it wrote.  A read adds the chunk to the
    read set first; a write works on the private copy, which the first write of
    a chunk takes from the snapshot, and goes back to the copy as it was when
    the change or a limit refuses it.  COMMIT passes both to the store, which
    checks the writes and makes one list of targets: every chunk read or
    written, once, in coordinate order, the written ones with their state.

    The lemmas say that the targets are exactly the chunks the transaction read
    or wrote. *)
From stdpp Require Import prelude strings gmap sorting.
From Stdlib Require Import ZArith Lia.
From S2P Require Import Prelude Vars Geometry Layout ChunkFormat WalReplay TxnHistory TxnIntent BlockOps.

#[local] Open Scope Z_scope.

Module TxnSession.
Import Geometry Layout ChunkFormat WalReplay.

#[global] Instance ChunkCoord_countable : Countable ChunkCoord.
Proof. refine (inj_countable' (fun c => (cx c, cy c)) (fun p => {| cx := p.1; cy := p.2 |}) _). by intros []. Defined.

#[global] Instance ChunkVars_eq_dec : EqDecision Vars.ChunkVars.
Proof. solve_decision. Defined.

(** ** The session's part *)

Definition kMaxTxnReadChunks : Z := 1024.

(** The ordered set and the ordered map of the source, as a finite set and a
    finite map; [CommitReads] and [CommitWrites] list them in their order. *)
Record SessionTransaction := { read_set : gset ChunkCoord; writes : gmap ChunkCoord ChunkState }.

Definition NewTransaction : SessionTransaction := {| read_set := ∅; writes := ∅ |}.

Definition TooManyReads : exn := invalid_argument "a transaction reads at most 1024 chunks".
Definition TxnWrittenChunksError : exn := invalid_argument "a transaction writes at most 64 chunks".
Definition TxnBytesError : exn := invalid_argument "the transaction's changes would take more bytes than a limit".

Definition TxnRead (txn : SessionTransaction) (coords : list ChunkCoord) : res SessionTransaction :=
  let added := len (filter (fun c => c ∉ read_set txn) coords) in
  _ ← throw_if (kMaxTxnReadChunks <? Z.of_nat (size (read_set txn)) + added) TooManyReads;
  Ok {| read_set := read_set txn ∪ list_to_set coords; writes := writes txn |}.

(** Whether a first write of the chunk is refused before anything is read. *)
Definition writes_full (txn : SessionTransaction) (coord : ChunkCoord) : bool :=
  bool_decide (writes txn !! coord = None) && (TxnIntent.kMaxTxnWrittenChunks <=? Z.of_nat (size (writes txn))).

(** [found] is the chunk at the snapshot, read when there is no private copy;
    [fits] is the answer of the limits on the bytes of a transaction and of all
    open ones, which depends on the other sessions.  An error leaves the
    transaction as it was. *)
Definition TxnWrite (txn : SessionTransaction) (coord : ChunkCoord) (found : ChunkState) (change : ChunkState -> res ChunkState)
    (fits : bool) : res SessionTransaction :=
  _ ← throw_if (writes_full txn coord) TxnWrittenChunksError;
  let before := default found (writes txn !! coord) in
  state ← change before;
  let state := {| cs_version := cs_version state; cs_payload := cs_payload state; cs_presence := cs_presence state; cs_vars := cs_vars state;
                  cs_written := cs_written before || existsb (fun byte => negb (byte =? 0)) (cs_presence state) |} in
  _ ← throw_if (negb fits) TxnBytesError;
  Ok {| read_set := read_set txn; writes := <[coord := state]> (writes txn) |}.

Abbreviation TxnChunkWrite := (ChunkCoord * ChunkState)%type (only parsing).

#[global] Instance coord_le_dec a b : Decision (TxnHistory.coord_le a b).
Proof. unfold TxnHistory.coord_le. apply _. Defined.
Definition write_le (a b : TxnChunkWrite) : Prop := TxnHistory.coord_le a.1 b.1.
#[global] Instance write_le_dec a b : Decision (write_le a b).
Proof. unfold write_le. apply _. Defined.

(** What COMMIT passes to the store. *)
Definition CommitReads (txn : SessionTransaction) : list ChunkCoord :=
  filter (fun c => writes txn !! c = None) (merge_sort TxnHistory.coord_le (elements (read_set txn))).

Definition CommitWrites (txn : SessionTransaction) : list TxnChunkWrite := merge_sort write_le (map_to_list (writes txn)).

(** ** The store's part: what CommitTransaction does before it locks *)

(** std::unique on a sorted list. *)
Fixpoint unique (l : list ChunkCoord) : list ChunkCoord :=
  match l with
  | a :: l' =>
      match unique l' with
      | b :: u => if decide (a = b) then b :: u else a :: b :: u
      | [] => [a]
      end
  | [] => []
  end.

Definition PrepareReads (read_set : list ChunkCoord) : res (list ChunkCoord) :=
  let reads := unique (merge_sort TxnHistory.coord_le read_set) in
  _ ← throw_if (kMaxTxnReadChunks <? len reads) TooManyReads;
  Ok reads.

Section Commit.
Context (g : Geometry).

Definition CheckWrite (state : ChunkState) : res ChunkState :=
  _ ← throw_if (negb (len (cs_payload state) =? ChunkPayloadBytes g)) (invalid_argument "payload byte length does not match configured chunk size");
  _ ← throw_if (negb (len (cs_presence state) =? ChunkPresenceBitmapBytes g))
        (invalid_argument "presence byte length does not match configured chunk block count");
  payload ← MaskUnusedPayloadBits g (cs_payload state);
  let presence := MaskUnusedPresenceBits g (cs_presence state) in
  payload ← CanonicalizeAbsentBlocks g presence payload;
  _ ← RequireValidVars (layout_ g) (cs_vars state) presence;
  _ ← BlockOps.RequirePendingFits g payload presence (Some (cs_vars state));
  Ok {| cs_version := cs_version state; cs_payload := payload; cs_presence := presence; cs_vars := cs_vars state; cs_written := cs_written state |}.

(** The loop over the sorted writes; [last] is the coordinate of the one before. *)
Fixpoint PrepareWrites (last : option ChunkCoord) (ws : list TxnChunkWrite) : res (list TxnChunkWrite) :=
  match ws with
  | [] => Ok []
  | (coord, state) :: ws' =>
      _ ← throw_if (bool_decide (last = Some coord)) (invalid_argument "chunk is written twice");
      state ← CheckWrite state;
      rest ← PrepareWrites (Some coord) ws';
      Ok ((coord, state) :: rest)
  end.

(** [target_write]: the state written, for a chunk locked exclusively. *)
Record Target := { target_coord : ChunkCoord; target_write : option ChunkState }.

Definition target_le (a b : Target) : Prop := TxnHistory.coord_le (target_coord a) (target_coord b).
#[global] Instance target_le_dec a b : Decision (target_le a b).
Proof. unfold target_le. apply _. Defined.

Definition MakeTargets (reads : list ChunkCoord) (ws : list TxnChunkWrite) : list Target :=
  merge_sort target_le
    (((fun w => {| target_coord := w.1; target_write := Some w.2 |}) <$> ws) ++
     ((fun c => {| target_coord := c; target_write := None |}) <$> filter (fun c => c ∉ ws.*1) reads)).

Definition CommitTargets (read_set : list ChunkCoord) (ws : list TxnChunkWrite) : res (list Target) :=
  _ ← throw_if (TxnIntent.kMaxTxnWrittenChunks <? len ws) TxnWrittenChunksError;
  reads ← PrepareReads read_set;
  ws ← PrepareWrites None (merge_sort write_le ws);
  Ok (MakeTargets reads ws).

(** ** The targets are what the transaction touched *)

Definition coords (ts : list Target) : list ChunkCoord := target_coord <$> ts.

Lemma elem_of_unique c l : c ∈ unique l <-> c ∈ l.
Proof using Type.
  induction l as [|a l IH]; [done|]. cbn [unique]. rewrite elem_of_cons, <- IH. destruct (unique l) as [|b u]; [by rewrite list_elem_of_singleton, elem_of_nil; naive_solver|].
  case_decide; subst; rewrite !elem_of_cons; naive_solver.
Qed.

Lemma PrepareReads_in read_set reads c : PrepareReads read_set = Ok reads -> c ∈ reads <-> c ∈ read_set.
Proof using Type. intros H. unfold PrepareReads in H. res_inv. subst reads. by rewrite elem_of_unique, merge_sort_Permutation. Qed.

Lemma PrepareWrites_coords ws : forall last ws', PrepareWrites last ws = Ok ws' -> ws'.*1 = ws.*1.
Proof using Type.
  induction ws as [|[c st] ws IH]; intros last ws' H; [by injection H as <-|]. cbn [PrepareWrites] in H. res_inv. subst ws'. cbn. f_equal. by eapply IH.
Qed.

Lemma MakeTargets_in reads ws c : c ∈ coords (MakeTargets reads ws) <-> c ∈ ws.*1 \/ c ∈ reads.
Proof using Type.
  unfold coords, MakeTargets. rewrite merge_sort_Permutation, fmap_app, elem_of_app, <- !list_fmap_compose.
  change (target_coord ∘ (fun w : TxnChunkWrite => {| target_coord := w.1; target_write := Some w.2 |})) with (fst : TxnChunkWrite -> ChunkCoord).
  change (target_coord ∘ (fun c : ChunkCoord => {| target_coord := c; target_write := None |})) with (fun c : ChunkCoord => c).
  rewrite list_fmap_id, list_elem_of_filter. destruct (decide (c ∈ ws.*1)); tauto.
Qed.

Definition touched (txn : SessionTransaction) (c : ChunkCoord) : Prop := c ∈ read_set txn \/ is_Some (writes txn !! c).

Lemma CommitTargets_in read_set ws ts c : CommitTargets read_set ws = Ok ts -> c ∈ coords ts <-> c ∈ ws.*1 \/ c ∈ read_set.
Proof using Type.
  intros H. unfold CommitTargets in H. res_inv. subst ts. rewrite MakeTargets_in.
  rewrite (PrepareReads_in _ _ c ltac:(eassumption)). erewrite (PrepareWrites_coords _ None) by eassumption. by rewrite merge_sort_Permutation.
Qed.

(** The chunks a commit locks and validates are exactly the chunks its transaction read or wrote. *)
Lemma session_targets txn ts c : CommitTargets (CommitReads txn) (CommitWrites txn) = Ok ts -> c ∈ coords ts <-> touched txn c.
Proof using Type.
  intros H. rewrite (CommitTargets_in _ _ _ _ H). unfold CommitReads, CommitWrites, touched.
  rewrite list_elem_of_filter, !merge_sort_Permutation, elem_of_elements, list_elem_of_fmap.
  split.
  - intros [([d st] & -> & Hin%elem_of_map_to_list)|[_ Hr]]; [right; by exists st|by left].
  - intros [Hr|[st Hst]].
    + destruct (writes txn !! c) as [st|] eqn:E; [left; exists (c, st); split; [done|by apply elem_of_map_to_list]|by right].
    + left. exists (c, st). split; [done|by apply elem_of_map_to_list].
Qed.

End Commit.

End TxnSession.
