(* ===== verification/Isolation.v ===== *)
(** * Snapshot isolation (src/src/txn_commit.cpp, src/src/block_ops.cpp, src/src/engine_cql.cpp)

    How the store's threads use the version clock, the chunk locks and the
    history of open transactions: writes and commits take their chunks' locks,
    then a version, then load the open count, and keep the states they replace;
    a snapshot counts itself open, then reads the clock, then registers; a read
    at a snapshot copies the chunk under its shared lock, releases it, and asks
    the history.  The sessions' transactions of TxnSession sit on top: a
    statement that reads puts its chunk in the read set before it reads, a
    statement that writes changes the private copy, and COMMIT locks, validates
    and writes the targets computed from the two.  The steps of the threads
    interleave in any order.  The theorems: every read of a snapshot returns the
    chunk as of the snapshot's version, and what a transaction read is still
    current at the version it commits with.

    The clock is a number here, not a 64-bit counter: the model covers the
    executions before the counter wraps ([versions_fit] says a run of fewer than
    2^64 steps takes no version outside it; VersionClock says how far the
    ceiling on disk carries).  A version that the clock refuses, a write that a
    limit refuses under the locks and a failure before the commit point all are
    [ERollback], which a writer may take at any moment before its first chunk is
    written.

    The store is a client of the history: its theorems are proved against the
    interface [HistoryLaws], which TxnHistory implements. *)
From stdpp Require Import prelude strings gmap sorting.
From Stdlib Require Import ZArith Lia.
From S2P Require Import Prelude Vars Geometry WalReplay TxnHistory TxnDiff BlockOps TxnSession.

#[local] Open Scope Z_scope.

Module Isolation.
Import Geometry WalReplay TxnSession.

(** ** What the store uses of the history *)

Class HistoryOps (H : Type) := {
  (** observations *)
  h_open : H -> Z;
  h_snaps : H -> list (Z * nat);
  h_version : H -> nat -> option Z;
  h_reads : H -> ChunkCoord -> Z -> option ChunkState;
  h_tags : H -> ChunkCoord -> list Z;
  (** the allocator's and the address space's part *)
  h_room : H -> nat -> ChunkState -> bool;
  h_more : H -> nat -> bool;
  (** operations *)
  h_publish : H -> Z -> nat -> ChunkCoord -> Z -> ChunkState -> res H;
  h_count : H -> Z -> res H;
  h_enter : H -> nat -> Z -> Z -> H;
  h_end : H -> nat -> res H;
  h_visit : H -> Z -> nat -> ChunkCoord -> res (H * res (option ChunkState));
  h_validate : H -> Z -> nat -> list ChunkCoord -> res (H * res unit)
}.

(** Snapshots went, and the ones that stay read what they read before. *)
Record narrows {H} `{!HistoryOps H} (h h' : H) : Prop := {
  nw_snaps : forall e, e ∈ h_snaps h' -> e ∈ h_snaps h;
  nw_reads : forall v s c, (v, s) ∈ h_snaps h' -> h_reads h' c v = h_reads h c v;
  nw_tags : forall c t, t ∈ h_tags h' c -> t ∈ h_tags h c;
  nw_version : forall s, h_version h' s = h_version h s
}.

Class HistoryLaws (H : Type) `{!HistoryOps H} := {
  h_ok : Z -> H -> Prop;
  h_open_count pending h : h_ok pending h -> h_open h = len (h_snaps h) + pending;
  h_reads_tag pending h c v st : h_ok pending h -> h_reads h c v = Some st -> exists t, t ∈ h_tags h c /\ v < t;
  h_snap_version pending h v s : h_ok pending h -> (v, s) ∈ h_snaps h -> h_version h s = Some v;
  (** a published state is what the older snapshots read that read nothing kept before *)
  h_publish_ok pending h now p c tag st : h_ok pending h -> h_room h p st = true -> Forall (fun t => t < tag) (h_tags h c) ->
    exists h', h_publish h now p c tag st = Ok h' /\ h_ok pending h' /\
      (forall e, e ∈ h_snaps h' -> e ∈ h_snaps h) /\
      (forall v s d, (v, s) ∈ h_snaps h' -> h_reads h' d v =
        (if decide (d = c) then match h_reads h d v with Some x => Some x | None => if v <? tag then Some st else None end
         else h_reads h d v)) /\
      (forall d t, t ∈ h_tags h' d -> t ∈ h_tags h d \/ d = c /\ t = tag) /\
      (forall s, h_version h' s = h_version h s);
  h_count_ok h now s : h_ok 0 h -> h_more h s = true -> exists h', h_count h now = Ok h' /\ h_ok 1 h' /\ narrows h h' /\ h_version h' s = None;
  h_enter_ok h s v d : h_ok 1 h -> h_version h s = None ->
    h_ok 0 (h_enter h s v d) /\ (forall e, e ∈ h_snaps (h_enter h s v d) <-> e = (v, s) \/ e ∈ h_snaps h) /\
    (forall c w, h_reads (h_enter h s v d) c w = h_reads h c w) /\ (forall c, h_tags (h_enter h s v d) c = h_tags h c) /\
    (forall t, h_version (h_enter h s v d) t = if decide (t = s) then Some v else h_version h t);
  h_end_ok pending h s v : h_ok pending h -> h_version h s = Some v -> exists h', h_end h s = Ok h' /\ h_ok pending h' /\ narrows h h';
  h_visit_ok pending h now s v c : h_ok pending h -> h_version h s = Some v ->
    exists h' r, h_visit h now s c = Ok (h', r) /\ h_ok pending h' /\ narrows h h' /\
      forall st, r = Ok st -> (v, s) ∈ h_snaps h' /\ st = h_reads h c v;
  h_validate_ok pending h now s v cs : h_ok pending h -> h_version h s = Some v ->
    exists h' r, h_validate h now s cs = Ok (h', r) /\ h_ok pending h' /\ narrows h h' /\
      (r = Ok tt -> (v, s) ∈ h_snaps h /\ forall c, c ∈ cs -> h_reads h c v = None)
}.

(** ** The store *)

(** A commit: the snapshot of its transaction, its targets, and those it has not
    locked yet. *)
Record commit := { cm_snap : nat; cm_targets : list Target; cm_todo : list Target }.

(** A write or a commit in progress: the commit, the chunks it holds exclusively
    and shared, the version of the snapshot it validated, its version, whether it
    keeps what it replaces, the chunk it is changing with the state before, and
    the chunks it changed. *)
Record writer := {
  w_commit : option commit;
  w_excl : list ChunkCoord;
  w_shared : list ChunkCoord;
  w_snap : option Z;
  w_version : option Z;
  w_keep : option bool;
  w_dirty : option (ChunkCoord * ChunkState);
  w_done : list ChunkCoord
}.

Definition new_writer (cm : option commit) : writer :=
  {| w_commit := cm; w_excl := []; w_shared := []; w_snap := None; w_version := None; w_keep := None; w_dirty := None; w_done := [] |}.

(** What a statement reads a chunk for: to answer, or to make the private copy
    it changes. *)
Inductive purpose :=
| ToAnswer
| ToChange (change : ChunkState -> res ChunkState) (fits : bool).

(** A thread is a writer, or a read that copied the chunk and released it. *)
Inductive thread :=
| Writing (w : writer)
| Reading (s : nat) (c : ChunkCoord) (copy : ChunkState) (p : purpose).

(** [st_reg] is the registration that holds the history's lock; [st_txns] are
    the sessions' transactions by their snapshot.  The last four members record
    what happened: the committed writes of each chunk; the reads of snapshots;
    for each transaction, by its snapshot, the chunks as its statements found
    them; and the commits: the version, the version of the snapshot, the
    snapshot and the chunks validated. *)
Record store (H : Type) := {
  st_clock : Z;
  st_hist : H;
  st_chunks : ChunkCoord -> ChunkState;
  st_threads : gmap nat thread;
  st_reg : option (nat * option Z * Z);
  st_txns : gmap nat SessionTransaction;
  st_log : ChunkCoord -> list (Z * ChunkState);
  st_reads : list (Z * ChunkCoord * ChunkState);
  st_used : list (nat * ChunkCoord * ChunkState);
  st_commits : list (Z * Z * nat * list ChunkCoord)
}.
Arguments st_clock {H} _. Arguments st_hist {H} _. Arguments st_chunks {H} _. Arguments st_threads {H} _.
Arguments st_reg {H} _. Arguments st_txns {H} _. Arguments st_log {H} _. Arguments st_reads {H} _. Arguments st_used {H} _.
Arguments st_commits {H} _.

Inductive event :=
| EBegin (t : nat)
| ELock (t : nat) (c : ChunkCoord)
| ELockShared (t : nat) (c : ChunkCoord)
| ECommit (t : nat) (now : Z) (s : nat)
| ETarget (t : nat)
| EValidate (t : nat) (now : Z)
| EVersion (t : nat)
| ECount (t : nat)
| EWrite (t : nat) (c : ChunkCoord) (st : ChunkState)
| EApply (t : nat) (c : ChunkCoord)
| EPublish (t : nat) (now : Z) (p : nat)
| ERollback (t : nat)
| ERelease (t : nat)
| ERegCount (now : Z) (s : nat) (deadline : Z)
| ERegVersion
| ERegEnter
| EEnd (s : nat)
| ERead (t : nat) (s : nat) (c : ChunkCoord)
| EChange (t : nat) (s : nat) (c : ChunkCoord) (change : ChunkState -> res ChunkState) (fits : bool)
| EVisit (t : nat) (now : Z).

(** A step of a thread that cannot be taken in this state. *)
Definition disabled : exn := logic_error "the step is not enabled".
Definition guard (b : bool) : res unit := throw_if (negb b) disabled.
Definition the {A} (o : option A) : res A := match o with Some a => Ok a | None => Err disabled end.

Definition upd {A} (f : ChunkCoord -> A) (c : ChunkCoord) (a : A) (d : ChunkCoord) : A := if decide (d = c) then a else f d.

Definition with_threads {H} (σ : store H) ts : store H :=
  {| st_clock := st_clock σ; st_hist := st_hist σ; st_chunks := st_chunks σ; st_threads := ts; st_reg := st_reg σ; st_txns := st_txns σ;
     st_log := st_log σ; st_reads := st_reads σ; st_used := st_used σ; st_commits := st_commits σ |}.

Definition with_hist {H} (σ : store H) h reg : store H :=
  {| st_clock := st_clock σ; st_hist := h; st_chunks := st_chunks σ; st_threads := st_threads σ; st_reg := reg; st_txns := st_txns σ;
     st_log := st_log σ; st_reads := st_reads σ; st_used := st_used σ; st_commits := st_commits σ |}.

Definition with_txns {H} (σ : store H) txns : store H :=
  {| st_clock := st_clock σ; st_hist := st_hist σ; st_chunks := st_chunks σ; st_threads := st_threads σ; st_reg := st_reg σ; st_txns := txns;
     st_log := st_log σ; st_reads := st_reads σ; st_used := st_used σ; st_commits := st_commits σ |}.

Definition with_reads {H} (σ : store H) reads used : store H :=
  {| st_clock := st_clock σ; st_hist := st_hist σ; st_chunks := st_chunks σ; st_threads := st_threads σ; st_reg := st_reg σ; st_txns := st_txns σ;
     st_log := st_log σ; st_reads := reads; st_used := used; st_commits := st_commits σ |}.

Definition set_thread {H} (σ : store H) t th : store H := with_threads σ (<[t := th]> (st_threads σ)).
Definition drop_thread {H} (σ : store H) t : store H := with_threads σ (delete t (st_threads σ)).

Definition writer_of {H} (σ : store H) t : res writer :=
  match st_threads σ !! t with Some (Writing w) => Ok w | _ => Err disabled end.

Definition holds_excl (c : ChunkCoord) (th : thread) : bool := match th with Writing w => bool_decide (c ∈ w_excl w) | Reading _ _ _ _ => false end.
Definition holds (c : ChunkCoord) (th : thread) : bool :=
  match th with Writing w => bool_decide (c ∈ w_excl w ++ w_shared w) | Reading _ _ _ _ => false end.
Definition reads_at (s : nat) (th : thread) : bool := match th with Reading s' _ _ _ => (s' =? s)%nat | Writing _ => false end.

(** Whether no thread satisfies [P]. *)
Definition no_thread {H} (σ : store H) (P : thread -> bool) : bool := forallb (fun e => negb (P e.2)) (map_to_list (st_threads σ)).

Definition is_commit (w : writer) : bool := match w_commit w with Some _ => true | None => false end.
Definition locked_all (cm : commit) : bool := match cm_todo cm with [] => true | _ => false end.

(** ** What a commit changes *)

(** The comparison that leaves a chunk out of the changes. *)
Definition unchanged (chunk state : ChunkState) : bool :=
  bool_decide (cs_payload state = cs_payload chunk) && bool_decide (cs_presence state = cs_presence chunk) && bool_decide (cs_vars state = cs_vars chunk).

Definition changes {H} (σ : store H) (cm : commit) : list ChunkCoord :=
  coords (List.filter (fun tg => match target_write tg with Some st => negb (unchanged (st_chunks σ (target_coord tg)) st) | None => false end)
            (cm_targets cm)).

(** The chunk as the commit with version [T] leaves it. *)
Definition commit_state (cm : commit) (c : ChunkCoord) (T : Z) : option ChunkState :=
  match list_find (fun tg => target_coord tg = c) (cm_targets cm) with
  | Some (_, {| target_write := Some st |}) =>
      Some {| cs_version := T; cs_payload := cs_payload st; cs_presence := cs_presence st; cs_vars := cs_vars st; cs_written := true |}
  | _ => None
  end.

Section Steps.
Context {H : Type} `{!HistoryOps H} (g : Geometry).
Implicit Types (σ : store H).

(** The writer [w] of thread [t] takes a lock and goes on as the commit [cm]. *)
Definition take_lock σ t w cm c (shared : bool) : res (store H) :=
  _ ← guard (bool_decide (w_version w = None) && bool_decide (w_snap w = None) && no_thread (drop_thread σ t) (if shared then holds_excl c else holds c)
             && bool_decide (c ∉ w_excl w ++ w_shared w));
  Ok (set_thread σ t (Writing
    {| w_commit := cm; w_excl := if shared then w_excl w else c :: w_excl w; w_shared := if shared then c :: w_shared w else w_shared w;
       w_snap := w_snap w; w_version := w_version w; w_keep := w_keep w; w_dirty := w_dirty w; w_done := w_done w |})).

Definition lock_step σ t c (shared : bool) : res (store H) :=
  w ← writer_of σ t; _ ← guard (negb (is_commit w)); take_lock σ t w None c shared.

(** COMMIT: the transaction leaves the session and the store makes its targets.
    One that wrote nothing only has to be registered still. *)
Definition commit_step σ t now s : res (store H) :=
  txn ← the (st_txns σ !! s);
  _ ← the (h_version (st_hist σ) s);
  _ ← guard (bool_decide (st_threads σ !! t = None) && no_thread σ (reads_at s) && bool_decide (st_reg σ = None));
  let σ := with_txns σ (delete s (st_txns σ)) in
  match CommitTargets g (CommitReads txn) (CommitWrites txn) with
  | Err _ => h ← h_end (st_hist σ) s; Ok (with_hist σ h None)
  | Ok targets =>
      match CommitWrites txn with
      | [] => '(h, _) ← h_validate (st_hist σ) now s []; Ok (with_hist σ h None)
      | _ => Ok (set_thread σ t (Writing (new_writer (Some {| cm_snap := s; cm_targets := targets; cm_todo := targets |}))))
      end
  end.

(** The lock of the next target: exclusive if it is written, else shared. *)
Definition target_step σ t : res (store H) :=
  w ← writer_of σ t;
  cm ← the (w_commit w);
  match cm_todo cm with
  | [] => Err disabled
  | tg :: todo =>
      take_lock σ t w (Some {| cm_snap := cm_snap cm; cm_targets := cm_targets cm; cm_todo := todo |}) (target_coord tg)
        match target_write tg with Some _ => false | None => true end
  end.

(** CommitTransaction's validation, with every target locked. *)
Definition validate_step σ t now : res (store H) :=
  w ← writer_of σ t;
  cm ← the (w_commit w);
  v ← the (h_version (st_hist σ) (cm_snap cm));
  _ ← guard (locked_all cm && bool_decide (w_version w = None) && bool_decide (w_snap w = None) && bool_decide (st_reg σ = None));
  '(h, r) ← h_validate (st_hist σ) now (cm_snap cm) (coords (cm_targets cm));
  let σ := with_hist σ h None in
  match r with
  | Err _ => Ok (drop_thread σ t)
  | Ok _ => Ok (set_thread σ t (Writing
      {| w_commit := w_commit w; w_excl := w_excl w; w_shared := w_shared w; w_snap := Some v; w_version := w_version w; w_keep := w_keep w;
         w_dirty := w_dirty w; w_done := w_done w |}))
  end.

(** NextChunkVersion, as far as the clock goes; a commit takes a version only
    once it is validated and when it changes a chunk. *)
Definition version_step σ t : res (store H) :=
  w ← writer_of σ t;
  _ ← guard (bool_decide (w_version w = None) &&
             match w_commit w with
             | Some cm => bool_decide (is_Some (w_snap w)) && negb (bool_decide (changes σ cm = []))
             | None => true
             end);
  let σ := set_thread σ t (Writing
    {| w_commit := w_commit w; w_excl := w_excl w; w_shared := w_shared w; w_snap := w_snap w; w_version := Some (st_clock σ); w_keep := w_keep w;
       w_dirty := w_dirty w; w_done := w_done w |}) in
  Ok {| st_clock := st_clock σ + 1; st_hist := st_hist σ; st_chunks := st_chunks σ; st_threads := st_threads σ; st_reg := st_reg σ;
        st_txns := st_txns σ; st_log := st_log σ; st_reads := st_reads σ; st_used := st_used σ;
        st_commits := match w_commit w, w_snap w with
                      | Some cm, Some v => (st_clock σ, v, cm_snap cm, coords (cm_targets cm)) :: st_commits σ
                      | _, _ => st_commits σ
                      end |}.

(** The load of the open count in PrepareTxnKeepLocked and CommitTransaction. *)
Definition count_step σ t : res (store H) :=
  w ← writer_of σ t;
  _ ← guard (bool_decide (is_Some (w_version w)) && bool_decide (w_keep w = None));
  Ok (set_thread σ t (Writing
    {| w_commit := w_commit w; w_excl := w_excl w; w_shared := w_shared w; w_snap := w_snap w; w_version := w_version w;
       w_keep := Some (0 <? h_open (st_hist σ)); w_dirty := w_dirty w; w_done := w_done w |})).

(** The chunk takes its new state in memory. *)
Definition put_state σ t w c st : res (store H) :=
  _ ← guard (bool_decide (is_Some (w_keep w)) && bool_decide (w_dirty w = None) && bool_decide (c ∈ w_excl w) && bool_decide (c ∉ w_done w));
  let σ := set_thread σ t (Writing
    {| w_commit := w_commit w; w_excl := w_excl w; w_shared := w_shared w; w_snap := w_snap w; w_version := w_version w; w_keep := w_keep w;
       w_dirty := Some (c, st_chunks σ c); w_done := w_done w |}) in
  Ok {| st_clock := st_clock σ; st_hist := st_hist σ; st_chunks := upd (st_chunks σ) c st; st_threads := st_threads σ; st_reg := st_reg σ;
        st_txns := st_txns σ; st_log := st_log σ; st_reads := st_reads σ; st_used := st_used σ; st_commits := st_commits σ |}.

Definition write_step σ t c st : res (store H) :=
  w ← writer_of σ t; _ ← guard (negb (is_commit w)); put_state σ t w c st.

(** A chunk of the commit's changes. *)
Definition apply_step σ t c : res (store H) :=
  w ← writer_of σ t;
  cm ← the (w_commit w);
  T ← the (w_version w);
  st ← the (commit_state cm c T);
  _ ← guard (bool_decide (c ∈ changes σ cm));
  put_state σ t w c st.

Definition keep_state σ (keep : bool) now p c tag prev : res H :=
  if keep then _ ← guard (bool_decide (st_reg σ = None) && h_room (st_hist σ) p prev); h_publish (st_hist σ) now p c tag prev
  else Ok (st_hist σ).

(** The commit of the chunk: the state it replaced goes to the history. *)
Definition publish_step σ t now p : res (store H) :=
  w ← writer_of σ t;
  '(c, prev) ← the (w_dirty w);
  tag ← the (w_version w);
  keep ← the (w_keep w);
  h ← keep_state σ keep now p c tag prev;
  let σ := set_thread σ t (Writing
    {| w_commit := w_commit w; w_excl := w_excl w; w_shared := w_shared w; w_snap := w_snap w; w_version := w_version w; w_keep := w_keep w;
       w_dirty := None; w_done := c :: w_done w |}) in
  Ok {| st_clock := st_clock σ; st_hist := h; st_chunks := st_chunks σ; st_threads := st_threads σ; st_reg := st_reg σ; st_txns := st_txns σ;
        st_log := upd (st_log σ) c (st_log σ c ++ [(tag, st_chunks σ c)]); st_reads := st_reads σ; st_used := st_used σ;
        st_commits := st_commits σ |}.

(** A failure before the commit point: memory goes back, the locks go.  A commit
    fails before it changes memory. *)
Definition rollback_step σ t : res (store H) :=
  w ← writer_of σ t;
  _ ← guard (bool_decide (w_done w = []) && (negb (is_commit w) || bool_decide (w_dirty w = None)));
  let chunks := match w_dirty w with Some (c, prev) => upd (st_chunks σ) c prev | None => st_chunks σ end in
  let σ := drop_thread σ t in
  Ok {| st_clock := st_clock σ; st_hist := st_hist σ; st_chunks := chunks; st_threads := st_threads σ; st_reg := st_reg σ; st_txns := st_txns σ;
        st_log := st_log σ; st_reads := st_reads σ; st_used := st_used σ; st_commits := st_commits σ |}.

(** The end of a write, or of a commit that has no change left. *)
Definition release_step σ t : res (store H) :=
  w ← writer_of σ t;
  _ ← guard (bool_decide (w_dirty w = None) &&
             match w_commit w, w_version w with Some cm, Some _ => bool_decide (changes σ cm = []) | _, _ => true end);
  Ok (drop_thread σ t).

(** Register, in its three steps under the history's lock; the snapshot becomes
    the transaction's. *)
Definition reg_count_step σ now s d : res (store H) :=
  _ ← guard (bool_decide (st_reg σ = None) && h_more (st_hist σ) s);
  h ← h_count (st_hist σ) now;
  Ok (with_hist σ h (Some (s, None, d))).

Definition reg_version_step σ : res (store H) :=
  '(s, v, d) ← the (st_reg σ);
  _ ← guard (bool_decide (v = None));
  Ok (with_hist σ (st_hist σ) (Some (s, Some (TxnHistory.RegisterVersion (st_clock σ)), d))).

Definition reg_enter_step σ : res (store H) :=
  '(s, v, d) ← the (st_reg σ);
  v ← the v;
  Ok (with_txns (with_hist σ (h_enter (st_hist σ) s v d) None) (<[s := NewTransaction]> (st_txns σ))).

(** ROLLBACK, or the end of a transaction that ran too long. *)
Definition end_step σ s : res (store H) :=
  _ ← the (h_version (st_hist σ) s);
  _ ← guard (bool_decide (st_reg σ = None));
  h ← h_end (st_hist σ) s;
  Ok (with_txns (with_hist σ h None) (delete s (st_txns σ))).

(** ReadChunkStateAt: the copy under the shared lock, then the history. *)
Definition copy_step σ t s c p : res (store H) :=
  _ ← the (h_version (st_hist σ) s);
  _ ← guard (bool_decide (st_threads σ !! t = None) && no_thread σ (holds_excl c));
  Ok (set_thread σ t (Reading s c (st_chunks σ c) p)).

(** A statement that reads the chunk: into the read set, then the private copy
    or the snapshot.  A session runs one statement at a time. *)
Definition read_step σ t s c : res (store H) :=
  txn ← the (st_txns σ !! s);
  _ ← guard (no_thread σ (reads_at s));
  match TxnRead txn [c] with
  | Err _ => Ok σ
  | Ok txn =>
      let σ := with_txns σ (<[s := txn]> (st_txns σ)) in
      match writes txn !! c with Some _ => Ok σ | None => copy_step σ t s c ToAnswer end
  end.

(** A statement that writes the chunk's private copy. *)
Definition change_step σ t s c change fits : res (store H) :=
  txn ← the (st_txns σ !! s);
  _ ← guard (no_thread σ (reads_at s));
  match writes txn !! c with
  | Some own =>
      match TxnWrite txn c own change fits with Ok txn => Ok (with_txns σ (<[s := txn]> (st_txns σ))) | Err _ => Ok σ end
  | None => if writes_full txn c then Ok σ else copy_step σ t s c (ToChange change fits)
  end.

(** What the statement does with the chunk it found. *)
Definition finish_read σ s c found p : store H :=
  let used := with_reads σ (st_reads σ) ((s, c, found) :: st_used σ) in
  match p with
  | ToAnswer => used
  | ToChange change fits =>
      match st_txns σ !! s with
      | Some txn => match TxnWrite txn c found change fits with Ok txn => with_txns used (<[s := txn]> (st_txns σ)) | Err _ => σ end
      | None => σ
      end
  end.

(** A conflict aborts the transaction. *)
Definition visit_step σ t now : res (store H) :=
  match st_threads σ !! t with
  | Some (Reading s c copy p) =>
      v ← the (h_version (st_hist σ) s);
      _ ← guard (bool_decide (st_reg σ = None));
      '(h, r) ← h_visit (st_hist σ) now s c;
      let σ := with_hist (drop_thread σ t) h None in
      match r with
      | Err _ => Ok (with_txns σ (delete s (st_txns σ)))
      | Ok kept =>
          let found := default copy kept in
          Ok (finish_read (with_reads σ ((v, c, found) :: st_reads σ) (st_used σ)) s c found p)
      end
  | _ => Err disabled
  end.

Definition step σ (e : event) : res (store H) :=
  match e with
  | EBegin t => _ ← guard (bool_decide (st_threads σ !! t = None)); Ok (set_thread σ t (Writing (new_writer None)))
  | ELock t c => lock_step σ t c false
  | ELockShared t c => lock_step σ t c true
  | ECommit t now s => commit_step σ t now s
  | ETarget t => target_step σ t
  | EValidate t now => validate_step σ t now
  | EVersion t => version_step σ t
  | ECount t => count_step σ t
  | EWrite t c st => write_step σ t c st
  | EApply t c => apply_step σ t c
  | EPublish t now p => publish_step σ t now p
  | ERollback t => rollback_step σ t
  | ERelease t => release_step σ t
  | ERegCount now s d => reg_count_step σ now s d
  | ERegVersion => reg_version_step σ
  | ERegEnter => reg_enter_step σ
  | EEnd s => end_step σ s
  | ERead t s c => read_step σ t s c
  | EChange t s c change fits => change_step σ t s c change fits
  | EVisit t now => visit_step σ t now
  end.

Definition run σ (es : list event) : res (store H) := fold_res step σ es.

(** A store at rest: its next version, its history, its chunks. *)
Definition start (clock : Z) (h : H) (chunks : ChunkCoord -> ChunkState) : store H :=
  {| st_clock := clock; st_hist := h; st_chunks := chunks; st_threads := ∅; st_reg := None; st_txns := ∅; st_log := fun _ => []; st_reads := [];
     st_used := []; st_commits := [] |}.

End Steps.

(** ** The specification *)

(** The state of a chunk as of version [v], from its writes in order. *)
Definition as_of (first : ChunkState) (log : list (Z * ChunkState)) (v : Z) : ChunkState :=
  match last (filter (fun e => e.1 <= v) log) with Some e => e.2 | None => first end.

Definition current (first : ChunkState) (log : list (Z * ChunkState)) : ChunkState :=
  match last log with Some e => e.2 | None => first end.

(** What the history has to keep for a snapshot at [v]: the chunk as of [v]
    once it was written since. *)
Definition expected (first : ChunkState) (log : list (Z * ChunkState)) (v : Z) : option ChunkState :=
  if bool_decide (Exists (fun e => v < e.1) log) then Some (as_of first log v) else None.

(** ** Logs *)

Definition ascending (log : list (Z * ChunkState)) : Prop := StronglySorted (fun a b => a.1 < b.1) log.

Lemma as_of_all first log v : (forall e, e ∈ log -> e.1 <= v) -> as_of first log v = current first log.
Proof. intros Hl. unfold as_of. by rewrite filter_all. Qed.

Lemma as_of_snoc_above first log v t st : v < t -> as_of first (log ++ [(t, st)]) v = as_of first log v.
Proof. intros Ht. unfold as_of. rewrite filter_app, filter_cons, decide_False, filter_nil, app_nil_r by (cbn; lia). done. Qed.

Lemma expected_None first log v : expected first log v = None <-> forall e, e ∈ log -> e.1 <= v.
Proof.
  unfold expected. case_bool_decide as E.
  - split; [done|]. intros Hl. apply Exists_exists in E as (e & He & Hlt). specialize (Hl e He). lia.
  - split; [|done]. intros _ e He. destruct (decide (v < e.1)); [|lia]. destruct E. apply Exists_exists. by exists e.
Qed.

(** A further write: what it replaced is what the snapshots below it need. *)
Lemma expected_snoc first log v t st : expected first (log ++ [(t, st)]) v =
  match expected first log v with Some x => Some x | None => if v <? t then Some (current first log) else None end \/
  exists e, e ∈ log /\ t <= e.1.
Proof.
  destruct (decide (Exists (fun e => t <= e.1) log)) as [E|E]; [right; by apply Exists_exists in E|]. left.
  assert (forall e, e ∈ log -> e.1 < t) as Hl by (intros e He; destruct (decide (t <= e.1)); [destruct E; apply Exists_exists; by exists e|lia]).
  destruct (expected first log v) as [x|] eqn:Ex.
  - unfold expected in *. case_bool_decide as E1; [|done]. injection Ex as <-. rewrite bool_decide_true by (apply Exists_app; by left).
    apply Exists_exists in E1 as (e & He & Hv). rewrite as_of_snoc_above by (specialize (Hl e He); lia). done.
  - pose proof (proj1 (expected_None _ _ _) Ex) as Hle. destruct (Z.ltb_spec v t).
    + unfold expected. rewrite bool_decide_true by (apply Exists_app; right; by constructor). f_equal.
      rewrite as_of_snoc_above by done. by apply as_of_all.
    + apply expected_None. intros e [He| ->%list_elem_of_singleton]%elem_of_app; [by apply Hle|cbn; lia].
Qed.

Lemma current_snoc first log e : current first (log ++ [e]) = e.2.
Proof. unfold current. by rewrite last_snoc. Qed.

(** ** The invariant *)

Section Invariant.
Context {H : Type} `{!HistoryOps H, !HistoryLaws H} (first : ChunkCoord -> ChunkState).
Implicit Types (σ : store H).

(** No write of the chunk with a version up to [v] is still to come. *)
Definition settled σ (c : ChunkCoord) (v : Z) : Prop :=
  v < st_clock σ /\
  forall t w T, st_threads σ !! t = Some (Writing w) -> c ∈ w_excl w -> w_version w = Some T -> v < T.

Record writer_good σ (w : writer) : Prop := {
  wg_version : forall T, w_version w = Some T -> T < st_clock σ;
  wg_log : forall T c e, w_version w = Some T -> c ∈ w_excl w -> c ∉ w_done w -> e ∈ st_log σ c -> e.1 < T;
  wg_snaps : forall T v s, w_version w = Some T -> w_keep w = Some false -> (v, s) ∈ h_snaps (st_hist σ) -> T <= v;
  wg_reg : forall T s v d, w_version w = Some T -> w_keep w = Some false -> st_reg σ = Some (s, Some v, d) -> T <= v;
  wg_dirty : forall c p, w_dirty w = Some (c, p) -> c ∈ w_excl w /\ (c ∉ w_done w) /\ p = current (first c) (st_log σ c) /\ is_Some (w_version w);
  wg_snap : forall S, w_snap w = Some S -> S < st_clock σ /\ exists cm, w_commit w = Some cm /\ cm_todo cm = [] /\
    forall c e, w_version w = None -> c ∈ coords (cm_targets cm) -> e ∈ st_log σ c -> e.1 <= S;
  wg_targets : forall cm c, w_commit w = Some cm -> c ∈ coords (cm_targets cm) -> c ∈ coords (cm_todo cm) \/ c ∈ w_excl w ++ w_shared w;
  wg_keep : w_version w = None -> w_keep w = None
}.

Definition pending σ : Z := match st_reg σ with Some _ => 1 | None => 0 end.

Record good σ : Prop := {
  g_clock : 1 <= st_clock σ;
  g_hist : h_ok (pending σ) (st_hist σ);
  g_reg : forall s ov d, st_reg σ = Some (s, ov, d) -> h_version (st_hist σ) s = None /\
    forall v, ov = Some v -> v < st_clock σ /\ forall c e, e ∈ st_log σ c -> e.1 <= v;
  g_versions : forall s v, h_version (st_hist σ) s = Some v -> v < st_clock σ;
  g_log : forall c, ascending (st_log σ c);
  g_below : forall c e, e ∈ st_log σ c -> e.1 < st_clock σ;
  g_locks : forall t1 t2 w1 w2 c, t1 <> t2 -> st_threads σ !! t1 = Some (Writing w1) -> st_threads σ !! t2 = Some (Writing w2) ->
    c ∈ w_excl w1 -> c ∉ w_excl w2 ++ w_shared w2;
  g_writer : forall t w, st_threads σ !! t = Some (Writing w) -> writer_good σ w;
  g_chunks : forall c, (forall t w p, st_threads σ !! t = Some (Writing w) -> w_dirty w <> Some (c, p)) ->
    st_chunks σ c = current (first c) (st_log σ c);
  g_tags : forall c t, t ∈ h_tags (st_hist σ) c -> exists st, (t, st) ∈ st_log σ c;
  g_kept : forall v s c, (v, s) ∈ h_snaps (st_hist σ) -> h_reads (st_hist σ) c v = expected (first c) (st_log σ c) v;
  g_reading : forall t s c copy p, st_threads σ !! t = Some (Reading s c copy p) -> exists v, h_version (st_hist σ) s = Some v /\
    (copy = as_of (first c) (st_log σ c) v \/ exists e, e ∈ st_log σ c /\ v < e.1) /\ settled σ c v;
  g_reads : forall v c x, (v, c, x) ∈ st_reads σ -> x = as_of (first c) (st_log σ c) v /\ settled σ c v;
  g_commits : forall T S s cs c, (T, S, s, cs) ∈ st_commits σ -> c ∈ cs -> S < T < st_clock σ /\
    (forall e, e ∈ st_log σ c -> e.1 <= S \/ T <= e.1) /\
    (forall t w T2, st_threads σ !! t = Some (Writing w) -> c ∈ w_excl w -> w_version w = Some T2 -> T <= T2)
}.

Lemma no_thread_spec σ P : no_thread σ P = true <-> forall t th, st_threads σ !! t = Some th -> P th = false.
Proof using Type.
  unfold no_thread. rewrite forallb_forall. split.
  - intros Hall t th Ht. apply negb_true_iff. apply (Hall (t, th)). apply list_elem_of_In, elem_of_map_to_list. done.
  - intros Hall [t th] Hin. apply list_elem_of_In, elem_of_map_to_list in Hin. cbn [snd]. by rewrite (Hall t th).
Qed.

Lemma guard_ok b u : guard b = Ok u <-> b = true.
Proof using Type. unfold guard. rewrite throw_if_ok. by rewrite negb_false_iff. Qed.

Lemma the_ok {A} (o : option A) a : the o = Ok a <-> o = Some a.
Proof using Type. destruct o; split; (intros [= ->] || intros [=]); done. Qed.

Lemma writer_of_ok σ t w : writer_of σ t = Ok w <-> st_threads σ !! t = Some (Writing w).
Proof using Type. unfold writer_of. destruct (st_threads σ !! t) as [[]|]; split; (intros [= ->] || intros [=]); done. Qed.

(** *** Steps that only narrow the history *)

Lemma good_hist σ h reg : good σ -> narrows (st_hist σ) h -> (st_reg σ = None \/ st_reg σ = reg) ->
  h_ok (match reg with Some _ => 1 | None => 0 end) h ->
  (forall s ov d, reg = Some (s, ov, d) -> h_version h s = None /\ ov = None) -> good (with_hist σ h reg).
Proof using Type.
  intros [G1 G2 G3 G4 G5 G6 G7 G8 G9 G10 G11 G12 G13 G14] [N1 N2 N3 N4] Hreg Hok Hnew.
  split; cbn [with_hist st_clock st_hist st_reg st_chunks st_threads st_log st_txns st_reads st_used st_commits]; try done.
  - intros s ov d E. destruct (Hnew s ov d E) as [? ->]. split; [done|]. intros v [=].
  - intros s v. rewrite N4. apply G4.
  - intros t w Ht. destruct (G8 t w Ht) as [A1 A2 A3 A4 A5 A6 A7 A8]. split; cbn; try done.
    + intros T v s HT Hk Hin. apply (A3 T v s HT Hk). by apply N1.
    + intros T s v d _ _ E. destruct (Hnew _ _ _ E) as [_ [=]].
  - intros c t Ht. apply G10. by apply N3.
  - intros v s c Hin. rewrite (N2 v s c Hin). apply (G11 v s). by apply N1.
  - intros t s c copy pu Ht. rewrite N4. apply (G12 t s c copy pu Ht).
Qed.

(** *** Steps of one thread *)

Lemma dirty_or_not σ t c :
  (exists w p, st_threads σ !! t = Some (Writing w) /\ w_dirty w = Some (c, p)) \/
  ~ (exists w p, st_threads σ !! t = Some (Writing w) /\ w_dirty w = Some (c, p)).
Proof using Type.
  destruct (st_threads σ !! t) as [[w|s d cp]|]; [|right; by intros (? & ? & [=] & _)..].
  destruct (w_dirty w) as [[d q]|] eqn:E; [destruct (decide (d = c)) as [->|Hn]|].
  - left. by exists w, q.
  - right. intros (w2 & p & [= <-] & E2). congruence.
  - right. intros (w2 & p & [= <-] & E2). congruence.
Qed.

Lemma good_drop σ t : good σ ->
  (forall w c p, st_threads σ !! t = Some (Writing w) -> w_dirty w = Some (c, p) -> st_chunks σ c = p) -> good (drop_thread σ t).
Proof using Type.
  intros [G1 G2 G3 G4 G5 G6 G7 G8 G9 G10 G11 G12 G13 G14] Hd.
  assert (forall u th, delete t (st_threads σ) !! u = Some th -> st_threads σ !! u = Some th) as Hu
    by (intros u th; rewrite lookup_delete; case_decide; done).
  assert (forall c v, settled σ c v -> settled (drop_thread σ t) c v) as Hs by (intros c v [? Hw]; split; [done|]; cbn; eauto).
  split; cbn [drop_thread with_threads st_clock st_hist st_reg st_chunks st_threads st_log st_txns st_reads st_used st_commits]; try done.
  - intros t1 t2 w1 w2 c Hne H1 H2. apply (G7 t1 t2); eauto.
  - intros u w Hw. by destruct (G8 u w (Hu _ _ Hw)).
  - intros c Hc. destruct (dirty_or_not σ t c) as [(w & p & Hw & Ep)|Hno].
    { rewrite (Hd w c p Hw Ep). by destruct (wg_dirty _ _ (G8 t w Hw) c p Ep) as (_ & _ & -> & _). }
    apply G9. intros u w p Hw Ep. destruct (decide (u = t)) as [->|Hne]; [by destruct Hno; exists w, p|].
    apply (Hc u w p); [|done]. by rewrite lookup_delete_ne.
  - intros u s c copy pu Hw. destruct (G12 u s c copy pu (Hu _ _ Hw)) as (v & B1 & B2 & B3). exists v. split; [done|]. split; [done|by apply Hs].
  - intros v c x Hx. destruct (G13 v c x Hx). split; [done|by apply Hs].
  - intros T S s cs c Hin Hc. destruct (G14 T S s cs c Hin Hc) as (A1 & A2 & A3). split; [done|]. split; [done|]. eauto.
Qed.

(** A thread that becomes the writer [w'], with the versions it had. *)
Lemma good_set σ t w' : good σ ->
  (forall u w c, u <> t -> st_threads σ !! u = Some (Writing w) ->
    (c ∈ w_excl w' -> c ∉ w_excl w ++ w_shared w) /\ (c ∈ w_excl w -> c ∉ w_excl w' ++ w_shared w')) ->
  writer_good σ w' ->
  (forall w c p, st_threads σ !! t = Some (Writing w) -> w_dirty w = Some (c, p) -> w_dirty w' = Some (c, p)) ->
  (forall T c, w_version w' = Some T -> c ∈ w_excl w' ->
    exists w, st_threads σ !! t = Some (Writing w) /\ w_version w = Some T /\ c ∈ w_excl w) ->
  good (set_thread σ t (Writing w')).
Proof using Type.
  intros [G1 G2 G3 G4 G5 G6 G7 G8 G9 G10 G11 G12 G13 G14] Hlock Hw' Hdirty Hver.
  assert (forall u w, <[t := Writing w']> (st_threads σ) !! u = Some (Writing w) -> u = t /\ w = w' \/ u <> t /\ st_threads σ !! u = Some (Writing w)) as Hu
    by (intros u w; rewrite lookup_insert; case_decide as E; [intros [= ->]; by left|intros ?; right; by split]).
  assert (forall u s c copy pu, <[t := Writing w']> (st_threads σ) !! u = Some (Reading s c copy pu) -> st_threads σ !! u = Some (Reading s c copy pu)) as Hr
    by (intros u s c copy pu; rewrite lookup_insert; case_decide; [intros [=]|done]).
  assert (forall c v, settled σ c v -> settled (set_thread σ t (Writing w')) c v) as Hs.
  { intros c v [? Hw]. split; [done|]. cbn. intros u w T Hin Hc HT. apply Hu in Hin as [[-> ->]|[_ Hin]]; [|by eauto].
    destruct (Hver T c HT Hc) as (w & Hw1 & Hw2 & Hw3). by apply (Hw t w). }
  split; cbn [set_thread with_threads st_clock st_hist st_reg st_chunks st_threads st_log st_txns st_reads st_used st_commits]; try done.
  - intros t1 t2 w1 w2 c Hne H1 H2. apply Hu in H1 as [[-> ->]|[Hn1 H1]], H2 as [[-> ->]|[Hn2 H2]]; [done| | |by apply (G7 t1 t2)].
    + apply (Hlock t2 w2); done.
    + apply (Hlock t1 w1); done.
  - intros u w Hin. apply Hu in Hin as [[_ ->]|[_ Hin]]; [by destruct Hw'|by destruct (G8 u w Hin)].
  - intros c Hc. apply G9. intros u w p Hin Ep. destruct (decide (u = t)) as [->|Hne].
    + apply (Hc t w' p); [by rewrite lookup_insert, decide_True|by apply (Hdirty w)].
    + apply (Hc u w p); [by rewrite lookup_insert_ne|done].
  - intros u s c copy pu Hin. destruct (G12 u s c copy pu (Hr _ _ _ _ _ Hin)) as (v & B1 & B2 & B3). exists v. split; [done|]. split; [done|by apply Hs].
  - intros v c x Hx. destruct (G13 v c x Hx). split; [done|by apply Hs].
  - intros T S s cs c Hin Hc. destruct (G14 T S s cs c Hin Hc) as (A1 & A2 & A3). split; [done|]. split; [done|].
    intros u w T2 Hw Hcw HT2. apply Hu in Hw as [[-> ->]|[_ Hw]]; [|by apply (A3 u w T2)].
    destruct (Hver T2 c HT2 Hcw) as (w & Hw1 & Hw2 & Hw3). by apply (A3 t w T2).
Qed.

Lemma clean_writer σ w : writer_good σ w -> w_version w = None -> w_dirty w = None.
Proof using Type. intros W Hv. destruct (w_dirty w) as [[c p]|] eqn:E; [|done]. destruct (wg_dirty _ _ W c p E) as (_ & _ & _ & [T HT]). congruence. Qed.

Lemma locks_of σ t w : good σ -> st_threads σ !! t = Some (Writing w) ->
  forall u w' c, u <> t -> st_threads σ !! u = Some (Writing w') ->
    (c ∈ w_excl w -> c ∉ w_excl w' ++ w_shared w') /\ (c ∈ w_excl w' -> c ∉ w_excl w ++ w_shared w).
Proof using Type.
  intros G Hw u w' c Hne Hu. split; [by apply (g_locks _ G t u w w' c (not_eq_sym Hne))|by apply (g_locks _ G u t w' w c Hne)].
Qed.

Ltac step_inv H :=
  repeat match type of H with
  | (writer_of _ _ ≫= _) = Ok _ => let w := fresh "w" in let Hw := fresh "Hw" in apply bind_ok in H as (w & Hw & H); apply writer_of_ok in Hw
  | (the _ ≫= _) = Ok _ => let x := fresh "x" in let Hx := fresh "Hx" in apply bind_ok in H as (x & Hx & H); apply the_ok in Hx
  | (guard _ ≫= _) = Ok _ => let Hg := fresh "Hg" in apply bind_ok in H as ([] & Hg & H); apply guard_ok in Hg
  | Ok _ = Ok _ => injection H as <-
  end;
  repeat match goal with
  | Hg : (_ && _) = true |- _ => let H1 := fresh "Hg" in apply andb_true_iff in Hg as [Hg H1]
  | Hg : bool_decide _ = true |- _ => apply bool_decide_eq_true in Hg
  end.

Lemma good_txns σ txns : good σ -> good (with_txns σ txns).
Proof using Type. intros G. destruct G as [G1 G2 G3 G4 G5 G6 G7 G8 G9 G10 G11 G12 G13 G14]. split; try done. intros u w Hw. by destruct (G8 u w Hw). Qed.

(** A writer that begins, with all its targets to lock. *)
Lemma good_new σ t cm : good σ -> st_threads σ !! t = None -> (forall x, cm = Some x -> cm_todo x = cm_targets x) ->
  good (set_thread σ t (Writing (new_writer cm))).
Proof using Type.
  intros G Ht Hcm. apply good_set; [done| | | |done].
  - intros u w c _ _. cbn. split; [by intros ?%elem_of_nil|by intros _ ?%elem_of_nil].
  - split; try done. cbn. intros x c Hx Hc. left. by rewrite (Hcm x Hx).
  - intros w c p Hw. congruence.
Qed.

Lemma begin_good g σ t σ' : good σ -> step g σ (EBegin t) = Ok σ' -> good σ'.
Proof using Type.
  intros G Hs. cbn [step] in Hs. step_inv Hs. by apply good_new.
Qed.

Lemma take_lock_good σ t w cm c shared σ' : good σ -> st_threads σ !! t = Some (Writing w) ->
  (forall x d, cm = Some x -> d ∈ coords (cm_targets x) -> d ∈ coords (cm_todo x) \/ d = c \/ d ∈ w_excl w ++ w_shared w) ->
  take_lock σ t w cm c shared = Ok σ' -> good σ'.
Proof using Type.
  intros G Hw Hcm Hs. unfold take_lock in Hs. step_inv Hs. pose proof (g_writer _ G _ _ Hw) as W.
  apply good_set; [done| | | |].
  - intros u w' d Hne Hu. pose proof (proj1 (no_thread_spec _ _) Hg1 u (Writing w')) as Hn. cbn in Hn.
    rewrite lookup_delete_ne in Hn by done. specialize (Hn Hu).
    destruct (locks_of σ t w G Hw u w' d Hne Hu) as [L1 L2].
    destruct shared; cbn in Hn |- *; apply bool_decide_eq_false in Hn; split.
    + exact L1.
    + intros Hd. rewrite elem_of_app, elem_of_cons. specialize (L2 Hd). rewrite elem_of_app in L2. intros [?|[->|?]]; tauto.
    + intros [->|Hd]%elem_of_cons; [done|by apply L1].
    + intros Hd. rewrite elem_of_cons. intros [->|?]; [apply Hn, elem_of_app; by left|by apply L2].
  - pose proof (clean_writer σ w W Hg) as Hc. pose proof (wg_keep _ _ W Hg). split; cbn; rewrite ?Hg, ?Hg2, ?Hc; try done.
    intros x d Hx Hd. destruct (Hcm x d Hx Hd) as [?|Hin]; [by left|right]. destruct shared; rewrite ?elem_of_app, ?elem_of_cons in *; tauto.
  - intros w' d p Hw'. rewrite Hw in Hw'. injection Hw' as <-. done.
  - cbn. intros T d HT. congruence.
Qed.

Lemma lock_good σ t c shared σ' : good σ -> lock_step σ t c shared = Ok σ' -> good σ'.
Proof using Type. intros G Hs. unfold lock_step in Hs. step_inv Hs. by apply (take_lock_good σ t w None c shared). Qed.

Lemma target_good σ t σ' : good σ -> target_step σ t = Ok σ' -> good σ'.
Proof using Type.
  intros G Hs. unfold target_step in Hs. step_inv Hs. destruct (cm_todo x) as [|tg todo] eqn:E; [done|].
  eapply take_lock_good; [done|done| |exact Hs]. intros y d [= <-] Hd. cbn in Hd |- *.
  destruct (wg_targets _ _ (g_writer _ G _ _ Hw) x d Hx Hd) as [Hin|?]; [|by right; right]. rewrite E in Hin. cbn in Hin.
  apply elem_of_cons in Hin as [->|?]; [by right; left|by left].
Qed.

Lemma validate_good σ t now σ' : good σ -> validate_step σ t now = Ok σ' -> good σ'.
Proof using Type.
  intros G Hs. unfold validate_step in Hs. step_inv Hs. pose proof (g_writer _ G _ _ Hw) as W. pose proof (g_hist _ G) as Hok.
  unfold pending in Hok. rewrite Hg0 in Hok.
  destruct (h_validate_ok _ _ now _ x0 (coords (cm_targets x)) Hok Hx0) as (h & r & E & Hok' & Hn & Hr). rewrite E in Hs. cbn [mbind res_bind] in Hs.
  assert (good (with_hist σ h None)) as G' by (apply good_hist; [done|done|by left|done|done]).
  assert (cm_todo x = []) as Htodo by (unfold locked_all in Hg; by destruct (cm_todo x)).
  pose proof (clean_writer σ w W Hg2) as Hc. destruct r as [[]|e]; injection Hs as <-.
  2:{ apply good_drop; [done|]. cbn. intros w' c p Hw'. congruence. }
  destruct (Hr eq_refl) as [Hin Hnone]. apply good_set; [done| | | |].
  - exact (locks_of σ t w G Hw).
  - pose proof (wg_keep _ _ W Hg2). split; cbn; rewrite ?Hg2, ?Hc; try done.
    + intros S [= <-]. split; [by apply (g_versions _ G (cm_snap x))|]. exists x. split; [done|]. split; [done|]. intros c e _ Hce He.
      specialize (Hnone c Hce). rewrite (g_kept _ G x0 (cm_snap x) c Hin), expected_None in Hnone. by apply Hnone.
    + apply (wg_targets _ _ W).
  - intros w' d p Hw'. cbn in Hw'. rewrite Hw in Hw'. injection Hw' as <-. done.
  - cbn. intros T d HT. congruence.
Qed.

Lemma count_good σ t σ' : good σ -> count_step σ t = Ok σ' -> good σ'.
Proof using Type.
  intros G Hs. unfold count_step in Hs. step_inv Hs. pose proof (g_writer _ G _ _ Hw) as [A1 A2 A3 A4 A5 A6 A7 A8].
  pose proof (h_open_count _ _ (g_hist _ G)) as Ho. apply good_set; [done| | | |].
  - exact (locks_of σ t w G Hw).
  - split; cbn; try done.
    + intros T v s HT [= Hk] Hin. apply Z.ltb_ge in Hk. unfold pending in Ho. destruct (h_snaps (st_hist σ)); [by apply elem_of_nil in Hin|].
      cbn [length] in Ho. destruct (st_reg σ); lia.
    + intros T s v d HT [= Hk] E. apply Z.ltb_ge in Hk. unfold pending in Ho. rewrite E in Ho. lia.
    + intros HT. destruct Hg as [? Hg]. congruence.
  - intros w' d p Hw'. rewrite Hw in Hw'. injection Hw' as <-. done.
  - cbn. intros T d HT Hd. by exists w.
Qed.

Lemma version_good σ t σ' : good σ -> version_step σ t = Ok σ' -> good σ'.
Proof using Type.
  intros G Hs. unfold version_step in Hs. step_inv Hs. pose proof (g_writer _ G _ _ Hw) as W. pose proof (clean_writer σ w W Hg) as Hc.
  pose proof (wg_keep _ _ W Hg) as Hk. pose proof (locks_of σ t w G Hw) as HL.
  pose proof G as [G1 G2 G3 G4 G5 G6 G7 G8 G9 G10 G11 G12 G13 G14]. 
  cbn [set_thread with_threads st_clock st_hist st_reg st_chunks st_threads st_log st_txns st_reads st_used st_commits].
  match goal with |- context [<[t := Writing ?x]> _] => set (w' := x) end.
  assert (forall u w2, <[t := Writing w']> (st_threads σ) !! u = Some (Writing w2) -> u = t /\ w2 = w' \/ u <> t /\ st_threads σ !! u = Some (Writing w2)) as Hu
    by (intros u w2; rewrite lookup_insert; case_decide as E; [intros [= ->]; by left|intros ?; right; by split]).
  match goal with |- good ?s => set (σ' := s) end.
  assert (forall c v, settled σ c v -> settled σ' c v) as Hset.
  { intros c v [Hv Hall]. split; [cbn; lia|]. cbn. intros u w2 T Hin Hc2 HT. apply Hu in Hin as [[-> ->]|[_ Hin]]; [|by eauto].
    cbn in HT. injection HT as <-. done. }
  split; cbn [σ' st_clock st_hist st_reg st_chunks st_threads st_log st_txns st_reads st_used st_commits set_thread with_threads]; try done.
  - lia.
  - intros s ov d E. destruct (G3 s ov d E) as [A1 A2]. split; [done|]. intros v Ev. destruct (A2 v Ev). split; [lia|done].
  - intros s v E. specialize (G4 s v E). lia.
  - intros c e He. specialize (G6 c e He). lia.
  - intros t1 t2 w1 w2 c Hne H1 H2. apply Hu in H1 as [[-> ->]|[Hn1 H1]], H2 as [[-> ->]|[Hn2 H2]]; [done| | |by apply (G7 t1 t2)].
    + by apply (HL t2 w2).
    + by apply (HL t1 w1).
  - intros u w2 Hin. apply Hu in Hin as [[_ ->]|[_ Hin]].
    + split; cbn; try done; rewrite ?Hc, ?Hk; try done.
      * intros T [= <-]. lia.
      * intros T c e [= <-] _ _ He. by apply (G6 c).
      * intros S HS. destruct (wg_snap _ _ W S HS) as (? & cm & ? & ? & _). split; [lia|]. by exists cm.
      * apply (wg_targets _ _ W).
    + destruct (G8 u w2 Hin) as [A1 A2 A3 A4 A5 A6 A7 A8]. split; try done.
      * intros T HT. specialize (A1 T HT). cbn. lia.
      * intros S HS. destruct (A6 S HS) as (? & Hcm). split; [cbn; lia|done].
  - intros c Hno. apply G9. intros u w2 p Hin Ep. destruct (decide (u = t)) as [->|Hne]; [congruence|].
    apply (Hno u w2 p); [by rewrite lookup_insert_ne|done].
  - intros u s c copy pu Hin. rewrite lookup_insert in Hin. case_decide; [done|].
    destruct (G12 u s c copy pu Hin) as (v & B1 & B2 & B3). exists v. split; [done|]. split; [done|by apply Hset].
  - intros v c x Hx. destruct (G13 v c x Hx). split; [done|by apply Hset].
  - intros T S s cs c Hin Hcs. assert ((T, S, s, cs) ∈ st_commits σ \/
      T = st_clock σ /\ w_snap w = Some S /\ exists cm, w_commit w = Some cm /\ cs = coords (cm_targets cm)) as [Hold|(-> & HS & cm & Hcm & ->)].
    { destruct (w_commit w) as [cm|], (w_snap w) as [S0|]; try by left. apply elem_of_cons in Hin as [[= -> -> -> ->]|?]; [right|by left].
      split; [done|]. split; [done|]. by exists cm. }
    + destruct (G14 T S s cs c Hold Hcs) as (A1 & A2 & A3). split; [lia|]. split; [done|]. intros u w2 T2 Hw2 Hc2 HT2.
      apply Hu in Hw2 as [[-> ->]|[_ Hw2]]; [|by apply (A3 u w2 T2)]. cbn in HT2. injection HT2 as <-. lia.
    + destruct (wg_snap _ _ W S HS) as (HSc & cm' & Hcm' & Htodo & Hle). rewrite Hcm in Hcm'. injection Hcm' as <-.
      destruct (wg_targets _ _ W cm c Hcm Hcs) as [Hno|Hheld]; [rewrite Htodo in Hno; by apply elem_of_nil in Hno|].
      split; [lia|]. split; [intros e He; left; by apply (Hle c e)|]. intros u w2 T2 Hw2 Hc2 HT2.
      apply Hu in Hw2 as [[-> ->]|[Hne Hw2]]; [cbn in HT2; injection HT2 as <-; lia|]. destruct (HL u w2 c Hne Hw2) as [_ Hx]. by destruct (Hx Hc2).
Qed.

(** A chunk that is being changed may hold anything. *)
Lemma good_chunk σ c st : good σ -> (exists t w p, st_threads σ !! t = Some (Writing w) /\ w_dirty w = Some (c, p)) ->
  good {| st_clock := st_clock σ; st_hist := st_hist σ; st_chunks := upd (st_chunks σ) c st; st_threads := st_threads σ; st_reg := st_reg σ; st_txns := st_txns σ;
          st_log := st_log σ; st_reads := st_reads σ; st_used := st_used σ; st_commits := st_commits σ |}.
Proof using Type.
  intros [G1 G2 G3 G4 G5 G6 G7 G8 G9 G10 G11 G12 G13 G14] (t & w & p & Hw & Ep). split; cbn; try done.
  - intros u w2 Hin. by destruct (G8 u w2 Hin).
  - intros d Hd. unfold upd. case_decide as E; [subst d; by destruct (Hd t w p Hw)|by apply G9].
Qed.

Lemma put_good σ t w c st σ' : good σ -> st_threads σ !! t = Some (Writing w) -> put_state σ t w c st = Ok σ' -> good σ'.
Proof using Type.
  intros G Hw Hs. unfold put_state in Hs. step_inv Hs. pose proof (g_writer _ G _ _ Hw) as W. pose proof (locks_of σ t w G Hw) as HL.
  cbn [set_thread with_threads st_clock st_hist st_reg st_chunks st_threads st_log st_txns st_reads st_used st_commits].
  match goal with |- context [<[t := Writing ?x]> _] => set (w' := x) end.
  assert (good (set_thread σ t (Writing w'))) as G'.
  { apply good_set; [done|exact HL| | |].
    - destruct W as [A1 A2 A3 A4 A5 A6 A7 A8]. split; try done. intros d p [= <- <-]. split; [done|]. split; [done|]. split.
      + apply (g_chunks _ G). intros u w2 p Hu Ep. destruct (decide (u = t)) as [->|Hne]; [congruence|].
        destruct (wg_dirty _ _ (g_writer _ G u w2 Hu) c p Ep) as [Hin _]. destruct (HL u w2 c Hne Hu) as [_ Hx].
        apply (Hx Hin), elem_of_app. by left.
      + cbn. destruct (w_version w); [done|]. rewrite A8 in Hg by done. by destruct Hg.
    - intros w2 d p Hw2 Ep. congruence.
    - intros T d HT Hd. by exists w. }
  apply (good_chunk (set_thread σ t (Writing w')) c st) in G'; [exact G'|]. exists t, w', (st_chunks σ c).
  split; [cbn; by rewrite lookup_insert, decide_True|done].
Qed.

Lemma write_good σ t c st σ' : good σ -> write_step σ t c st = Ok σ' -> good σ'.
Proof using Type. intros G Hs. unfold write_step in Hs. step_inv Hs. by apply (put_good σ t w c st). Qed.

Lemma apply_good σ t c σ' : good σ -> apply_step σ t c = Ok σ' -> good σ'.
Proof using Type. intros G Hs. unfold apply_step in Hs. step_inv Hs. by apply (put_good σ t w c x1). Qed.

Lemma rollback_good σ t σ' : good σ -> rollback_step σ t = Ok σ' -> good σ'.
Proof using Type.
  intros G Hs. unfold rollback_step in Hs. step_inv Hs. destruct (w_dirty w) as [[c p]|] eqn:Ed.
  - assert (exists t w p, st_threads σ !! t = Some (Writing w) /\ w_dirty w = Some (c, p)) as Hex by (by exists t, w, p).
    apply (good_drop _ t (good_chunk σ c p G Hex)). cbn. intros w2 d q Hw2 Eq. rewrite Hw in Hw2. injection Hw2 as <-.
    rewrite Ed in Eq. injection Eq as <- <-. unfold upd. by rewrite decide_True.
  - apply (good_drop σ t G). intros w2 d q Hw2 Eq. congruence.
Qed.

Lemma release_good σ t σ' : good σ -> release_step σ t = Ok σ' -> good σ'.
Proof using Type.
  intros G Hs. unfold release_step in Hs. step_inv Hs. apply good_drop; [done|]. intros w2 d q Hw2 Eq. congruence.
Qed.

(** The history after a chunk's commit, against the longer log. *)
Record kept_for σ (c : ChunkCoord) (l : list (Z * ChunkState)) (h : H) : Prop := {
  kf_ok : h_ok (pending σ) h;
  kf_snaps : forall e, e ∈ h_snaps h -> e ∈ h_snaps (st_hist σ);
  kf_reads : forall v s d, (v, s) ∈ h_snaps h -> h_reads h d v = expected (first d) (upd (st_log σ) c l d) v;
  kf_tags : forall d t, t ∈ h_tags h d -> exists st, (t, st) ∈ upd (st_log σ) c l d;
  kf_version : forall s, h_version h s = h_version (st_hist σ) s
}.

Lemma keep_state_good σ t w c prev tag keep now p st h : good σ -> st_threads σ !! t = Some (Writing w) ->
  w_dirty w = Some (c, prev) -> w_version w = Some tag -> w_keep w = Some keep ->
  keep_state σ keep now p c tag prev = Ok h -> kept_for σ c (st_log σ c ++ [(tag, st)]) h.
Proof using Type.
  intros G Hw Ed Ev Ek Hs. pose proof (g_writer _ G _ _ Hw) as W. destruct (wg_dirty _ _ W c prev Ed) as (Hc & Hnd & Hp & _).
  assert (forall e, e ∈ st_log σ c -> e.1 < tag) as Hlt by (intros e He; by apply (wg_log _ _ W tag c e)).
  assert (forall v, expected (first c) (st_log σ c ++ [(tag, st)]) v =
    match expected (first c) (st_log σ c) v with Some x => Some x | None => if v <? tag then Some prev else None end) as Hex.
  { intros v. rewrite Hp. destruct (expected_snoc (first c) (st_log σ c) v tag st) as [E|(e & He & Hle)]; [done|].
    specialize (Hlt e He). lia. }
  unfold keep_state in Hs. destruct keep.
  - step_inv Hs. destruct (h_publish_ok (pending σ) (st_hist σ) now p c tag prev (g_hist _ G) Hg0) as (h' & E & Hok & P1 & P2 & P3 & P4).
    { apply Forall_forall. intros x (st' & Hx)%(g_tags _ G). apply (Hlt (x, st') Hx). }
    rewrite E in Hs. injection Hs as <-. split; try done.
    + intros v s d Hin. rewrite (P2 v s d Hin). unfold upd. rewrite (g_kept _ G v s d) by (by apply P1). case_decide; [subst; by rewrite Hex|done].
    + intros d x Hx. unfold upd. destruct (P3 d x Hx) as [Hold|[-> ->]].
      * destruct (g_tags _ G d x Hold) as [st' Hst']. exists st'. case_decide; [subst; apply elem_of_app; by left|done].
      * rewrite decide_True by done. exists st. apply elem_of_app. right. left.
  - injection Hs as <-. split; try done.
    + apply (g_hist _ G).
    + intros v s d Hin. rewrite (g_kept _ G v s d Hin). unfold upd. case_decide; [subst d|done]. rewrite Hex.
      destruct (expected (first c) (st_log σ c) v); [done|]. pose proof (wg_snaps _ _ W tag v s Ev Ek Hin).
      destruct (Z.ltb_spec v tag); [lia|done].
    + intros d x Hx. destruct (g_tags _ G d x Hx) as [st' Hst']. exists st'. unfold upd. case_decide; [subst; apply elem_of_app; by left|done].
Qed.

(** A writer that does not hold the chunk, after the chunk's commit. *)
Lemma writer_good_log σ σ' c l w : writer_good σ w -> st_clock σ' = st_clock σ -> st_reg σ' = st_reg σ ->
  (forall e, e ∈ h_snaps (st_hist σ') -> e ∈ h_snaps (st_hist σ)) -> st_log σ' = upd (st_log σ) c l -> c ∉ w_excl w ++ w_shared w ->
  writer_good σ' w.
Proof using Type.
  intros [A1 A2 A3 A4 A5 A6 A7 A8] Ec Er Hs El Hc.
  assert (forall d, d ∈ w_excl w ++ w_shared w -> st_log σ' d = st_log σ d) as Hsame.
  { intros d Hd. rewrite El. unfold upd. case_decide; [by subst d|done]. }
  assert (forall d, d ∈ w_excl w -> st_log σ' d = st_log σ d) as Hsame' by (intros d Hd; apply Hsame, elem_of_app; by left).
  split; rewrite ?Ec, ?Er; try done; eauto.
  - intros T d e HT Hd Hnot. rewrite Hsame' by done. by apply A2.
  - intros d q Eq. destruct (A5 d q Eq) as (B1 & B2 & B3 & B4). by rewrite Hsame'.
  - intros S HS. destruct (A6 S HS) as (? & cm & Hcm & Htodo & Hle). split; [done|]. exists cm. split; [done|]. split; [done|]. intros d e Hv Hd.
    rewrite Hsame; [by apply Hle|]. destruct (A7 cm d Hcm Hd) as [Hno|?]; [rewrite Htodo in Hno; by apply elem_of_nil in Hno|done].
Qed.

Lemma publish_good σ t now p σ' : good σ -> publish_step σ t now p = Ok σ' -> good σ'.
Proof using Type.
  intros G Hs. unfold publish_step in Hs. apply bind_ok in Hs as (w & Hw%writer_of_ok & Hs).
  apply bind_ok in Hs as ([c prev] & Ed%the_ok & Hs). apply bind_ok in Hs as (tag & Ev%the_ok & Hs).
  apply bind_ok in Hs as (keep & Ek%the_ok & Hs). apply bind_ok in Hs as (h & Hh & [= <-]).
  pose proof (keep_state_good σ t w c prev tag keep now p (st_chunks σ c) h G Hw Ed Ev Ek Hh) as [K1 K2 K3 K4 K5].
  pose proof (g_writer _ G _ _ Hw) as W. destruct (wg_dirty _ _ W c prev Ed) as (Hc & Hnd & _ & _). pose proof (locks_of σ t w G Hw) as HL.
  assert (forall e, e ∈ st_log σ c -> e.1 < tag) as Hlt by (intros e He; by apply (wg_log _ _ W tag c e)).
  pose proof G as [G1 G2 G3 G4 G5 G6 G7 G8 G9 G10 G11 G12 G13 G14].
  cbn [set_thread with_threads st_clock st_hist st_reg st_chunks st_threads st_log st_txns st_reads st_used st_commits].
  set (l := st_log σ c ++ [(tag, st_chunks σ c)]) in *. match goal with |- context [<[t := Writing ?x]> _] => set (w' := x) end.
  match goal with |- good ?s => set (σ' := s) end.
  assert (forall u w2, <[t := Writing w']> (st_threads σ) !! u = Some (Writing w2) -> u = t /\ w2 = w' \/ u <> t /\ st_threads σ !! u = Some (Writing w2)) as Hu
    by (intros u w2; rewrite lookup_insert; case_decide as E; [intros [= ->]; by left|intros ?; right; by split]).
  assert (forall d v, settled σ d v -> settled σ' d v /\ (d = c -> v < tag)) as Hset.
  { intros d v [Hv Hall]. split; [split; [done|]|intros ->; by apply (Hall t w)]. cbn. intros u w2 T Hin Hd HT.
    apply Hu in Hin as [[-> ->]|[_ Hin]]; [by apply (Hall t w)|by eauto]. }
  assert (forall d v, settled σ d v -> as_of (first d) (upd (st_log σ) c l d) v = as_of (first d) (st_log σ d) v) as Hasof.
  { intros d v Hd. unfold upd. case_decide as E; [subst d|done]. apply as_of_snoc_above. by apply (Hset c v). }
  split; cbn [σ' st_clock st_hist st_reg st_chunks st_threads st_log st_txns st_reads st_used st_commits]; try done.
  - intros s ov d E. rewrite K5. destruct (G3 s ov d E) as [B1 B2]. split; [done|]. intros v Eov. destruct (B2 v Eov) as [B3 B4].
    split; [done|]. intros d' e. unfold upd. case_decide; [|by apply B4]. intros [He| ->%list_elem_of_singleton]%elem_of_app; [by apply (B4 c)|].
    cbn. destruct keep; [|subst ov; by apply (wg_reg _ _ W tag s v d)]. unfold keep_state in Hh. step_inv Hh. congruence.
  - intros s v. rewrite K5. apply G4.
  - intros d. unfold upd. case_decide as E; [|done]. apply StronglySorted_app_2; [|apply G5|repeat constructor].
    intros e1 e2 H1 ->%list_elem_of_singleton. by apply Hlt.
  - intros d e. unfold upd. case_decide as E; [|apply G6]. intros [He| ->%list_elem_of_singleton]%elem_of_app; [by apply (G6 c)|].
    by apply (wg_version _ _ W).
  - intros t1 t2 w1 w2 d Hne H1 H2. apply Hu in H1 as [[-> ->]|[Hn1 H1]], H2 as [[-> ->]|[Hn2 H2]]; [done| | |by apply (G7 t1 t2)].
    + by apply (HL t2 w2).
    + by apply (HL t1 w1).
  - intros u w2 Hin. apply Hu in Hin as [[_ ->]|[Hne Hin]]; [destruct W as [A1 A2 A3 A4 A5 A6 A7 A8]|].
    + split; cbn; try done; eauto.
      * intros T d e HT Hd Hnot. apply not_elem_of_cons in Hnot as [Hdc Hdn]. unfold upd. rewrite decide_False by done. by apply A2.
      * intros S HS. destruct (A6 S HS) as (? & cm & Hcm & Htodo & _). split; [done|]. exists cm. split; [done|]. split; [done|]. congruence.
    + apply (writer_good_log σ σ' c l); try done; [by apply (G8 u)|]. destruct (HL u w2 c Hne Hin) as [Hx _]. by apply Hx.
  - intros d Hd. unfold upd. case_decide as E; [subst d; unfold l; by rewrite current_snoc|]. apply G9. intros u w2 q Hin Eq.
    destruct (decide (u = t)) as [->|Hne]; [congruence|]. apply (Hd u w2 q); [by rewrite lookup_insert_ne|done].
  - intros u s d copy pu Hin. rewrite K5. rewrite lookup_insert in Hin. case_decide; [done|].
    destruct (G12 u s d copy pu Hin) as (v & Hv & Hcopy & Hst). exists v. split; [done|]. split; [|by apply Hset]. rewrite (Hasof d v Hst).
    destruct Hcopy as [->|(e & He & Hlt2)]; [by left|]. right. exists e. split; [|done]. unfold upd. case_decide; [subst; apply elem_of_app; by left|done].
  - intros v d x Hx. destruct (G13 v d x Hx) as [-> Hst]. split; [by rewrite Hasof|by apply Hset].
  - intros T S s cs d Hin Hcs. destruct (G14 T S s cs d Hin Hcs) as (A1 & A2 & A3). split; [done|]. split.
    + intros e. unfold upd. case_decide as E; [|by apply A2]. subst d. intros [He| ->%list_elem_of_singleton]%elem_of_app; [by apply A2|].
      right. by apply (A3 t w).
    + intros u w2 T2 Hw2 Hd HT2. apply Hu in Hw2 as [[-> ->]|[_ Hw2]]; [by apply (A3 t w)|by apply (A3 u w2)].
Qed.

Lemma reg_count_good σ now s d σ' : good σ -> reg_count_step σ now s d = Ok σ' -> good σ'.
Proof using Type.
  intros G Hs. unfold reg_count_step in Hs. step_inv Hs. pose proof (g_hist _ G) as Hok. unfold pending in Hok. rewrite Hg in Hok.
  destruct (h_count_ok (st_hist σ) now s Hok Hg0) as (h & E & Hok' & Hn & Hv). rewrite E in Hs. injection Hs as <-.
  apply good_hist; try done; [by left|]. intros s' ov d' [= <- <- <-]. done.
Qed.

Lemma reg_version_good σ σ' : good σ -> reg_version_step σ = Ok σ' -> good σ'.
Proof using Type.
  intros G Hs. unfold reg_version_step in Hs. apply bind_ok in Hs as ([[s v] d] & Er%the_ok & Hs). step_inv Hs. subst v.
  assert (TxnHistory.RegisterVersion (st_clock σ) = st_clock σ - 1) as ->.
  { unfold TxnHistory.RegisterVersion. pose proof (g_clock _ G). destruct (Z.eqb_spec (st_clock σ) 0); lia. }
  destruct G as [G1 G2 G3 G4 G5 G6 G7 G8 G9 G10 G11 G12 G13 G14].
  split; cbn [with_hist st_clock st_hist st_reg st_chunks st_threads st_log st_txns st_reads st_used st_commits]; try done.
  - unfold pending in *. cbn. by rewrite Er in G2.
  - intros s' ov d' [= <- <- <-]. split; [by apply (G3 s None d)|]. intros v [= <-]. split; [lia|]. intros c e He. specialize (G6 c e He). lia.
  - intros t w Ht. destruct (G8 t w Ht) as [A1 A2 A3 A4 A5 A6 A7 A8]. split; try done. cbn. intros T s' v d' HT _ [= <- <- <-].
    specialize (A1 T HT). lia.
Qed.

Lemma reg_enter_good σ σ' : good σ -> reg_enter_step σ = Ok σ' -> good σ'.
Proof using Type.
  intros G Hs. unfold reg_enter_step in Hs. apply bind_ok in Hs as ([[s ov] d] & Er%the_ok & Hs).
  apply bind_ok in Hs as (v & Ev%the_ok & [= <-]). subst ov. pose proof G as [G1 G2 G3 G4 G5 G6 G7 G8 G9 G10 G11 G12 G13 G14].
  destruct (G3 s (Some v) d Er) as [Hnone Hv]. destruct (Hv v eq_refl) as [Hvc Hvl]. unfold pending in G2. rewrite Er in G2.
  destruct (h_enter_ok (st_hist σ) s v d G2 Hnone) as (Hok & E1 & E2 & E3 & E4).
  split; cbn [with_hist st_clock st_hist st_reg st_chunks st_threads st_log st_txns st_reads st_used st_commits]; try done.
  - intros t w. rewrite E4. case_decide; [by intros [= <-]|apply G4].
  - intros t w Ht. destruct (G8 t w Ht) as [A1 A2 A3 A4 A5 A6 A7 A8]. split; try done. cbn. intros T v' s' HT Hk [[= -> ->]|Hin]%E1.
    + by apply (A4 T s v d).
    + by apply (A3 T v' s').
  - intros c t. rewrite E3. apply G10.
  - intros v' s' c. rewrite E2. intros [[= -> ->]|Hin]%E1; [|by apply (G11 v' s')]. clear E2.
    rewrite (proj2 (expected_None _ _ _)) by apply Hvl. destruct (h_reads (st_hist σ) c v) as [st|] eqn:Eh; [|done]. exfalso.
    destruct (h_reads_tag _ _ _ _ _ G2 Eh) as (t & Ht & Hlt). destruct (G10 c t Ht) as [st' Hst']. specialize (Hvl c _ Hst'). cbn in Hvl. lia.
  - intros t s' c copy pu Ht. destruct (G12 t s' c copy pu Ht) as (v' & B1 & B2 & B3). exists v'. rewrite E4. case_decide; [congruence|done].
Qed.

Lemma end_good σ s σ' : good σ -> end_step σ s = Ok σ' -> good σ'.
Proof using Type.
  intros G Hs. unfold end_step in Hs. step_inv Hs. pose proof (g_hist _ G) as Hok. unfold pending in Hok. rewrite Hg in Hok.
  destruct (h_end_ok 0 (st_hist σ) s x Hok Hx) as (h & E & Hok' & Hn). rewrite E in Hs. injection Hs as <-.
  apply good_txns, good_hist; try done. by left.
Qed.

Lemma commit_good g σ t now s σ' : good σ -> commit_step g σ t now s = Ok σ' -> good σ'.
Proof using Type.
  intros G Hs. unfold commit_step in Hs. step_inv Hs. pose proof (g_hist _ G) as Hok. unfold pending in Hok. rewrite Hg0 in Hok.
  pose proof (good_txns σ (delete s (st_txns σ)) G) as G'. destruct (CommitTargets g (CommitReads x) (CommitWrites x)) as [ts|e].
  - destruct (CommitWrites x); [|injection Hs as <-; apply good_new; [done|done|by intros y [= <-]]].
    destruct (h_validate_ok 0 (st_hist σ) now s x0 [] Hok Hx0) as (h & r & E & Hok' & Hn & _). cbn in Hs. rewrite E in Hs. injection Hs as <-.
    apply good_hist; try done. by left.
  - destruct (h_end_ok 0 (st_hist σ) s x0 Hok Hx0) as (h & E & Hok' & Hn). cbn in Hs. rewrite E in Hs. injection Hs as <-.
    apply good_hist; try done. by left.
Qed.

Lemma copy_good σ t s c pu σ' : good σ -> copy_step σ t s c pu = Ok σ' -> good σ'.
Proof using Type.
  intros G Hs. unfold copy_step in Hs. step_inv Hs. pose proof (proj1 (no_thread_spec _ _) Hg0) as Hno.
  pose proof G as [G1 G2 G3 G4 G5 G6 G7 G8 G9 G10 G11 G12 G13 G14].
  assert (forall u w, <[t := Reading s c (st_chunks σ c) pu]> (st_threads σ) !! u = Some (Writing w) -> st_threads σ !! u = Some (Writing w)) as Hu
    by (intros u w; rewrite lookup_insert; case_decide; done).
  assert (forall u w, st_threads σ !! u = Some (Writing w) -> c ∉ w_excl w) as Hfree.
  { intros u w Hw. specialize (Hno u _ Hw). by apply bool_decide_eq_false in Hno. }
  assert (forall d v, settled σ d v -> settled (set_thread σ t (Reading s c (st_chunks σ c) pu)) d v) as Hset.
  { intros d v [Hv Hall]. split; [done|]. cbn. intros u w T Hin. apply Hu in Hin. by apply (Hall u w T). }
  split; cbn [set_thread with_threads st_clock st_hist st_reg st_chunks st_threads st_log st_txns st_reads st_used st_commits]; try done.
  - intros t1 t2 w1 w2 d Hne H1%Hu H2%Hu. by apply (G7 t1 t2).
  - intros u w Hin%Hu. by destruct (G8 u w Hin).
  - intros d Hd. apply G9. intros u w p Hw. apply (Hd u w p). rewrite lookup_insert. case_decide; [congruence|done].
  - intros u s' d copy pu' Hin. rewrite lookup_insert in Hin. case_decide.
    + injection Hin as <- <- <- <-. exists x. split; [done|]. split; [|split; [by apply (G4 s)|by intros u' w T Hw%Hu Hex; destruct (Hfree u' w Hw)]].
      rewrite (G9 c) by (intros u' w p Hw Ep; apply (Hfree u' w Hw); by destruct (wg_dirty _ _ (G8 u' w Hw) c p Ep)).
      destruct (expected (first c) (st_log σ c) x) eqn:Ex.
      * right. unfold expected in Ex. case_bool_decide as Hex; [|done]. by apply Exists_exists in Hex.
      * left. symmetry. apply as_of_all. by apply (expected_None (first c)).
    + destruct (G12 u s' d copy pu' Hin) as (v & B1 & B2 & B3). exists v. split; [done|]. split; [done|by apply Hset].
  - intros v d y Hy. destruct (G13 v d y Hy). split; [done|by apply Hset].
  - intros T S s0 cs d Hin Hcs. destruct (G14 T S s0 cs d Hin Hcs) as (A1 & A2 & A3). split; [done|]. split; [done|].
    intros u w T2 Hw%Hu. by apply (A3 u).
Qed.

Lemma read_good σ t s c σ' : good σ -> read_step σ t s c = Ok σ' -> good σ'.
Proof using Type.
  intros G Hs. unfold read_step in Hs. step_inv Hs. destruct (TxnRead x [c]) as [txn|e]; [|by injection Hs as <-].
  pose proof (good_txns σ (<[s := txn]> (st_txns σ)) G) as G'. destruct (writes txn !! c); [by injection Hs as <-|]. by eapply copy_good.
Qed.

Lemma change_good σ t s c change fits σ' : good σ -> change_step σ t s c change fits = Ok σ' -> good σ'.
Proof using Type.
  intros G Hs. unfold change_step in Hs. step_inv Hs. destruct (writes x !! c).
  - destruct (TxnWrite _ _ _ _ _); injection Hs as <-; [by apply good_txns|done].
  - destruct (writes_full x c); [by injection Hs as <-|]. by eapply copy_good.
Qed.

Lemma good_reads σ reads used : good σ ->
  (forall v c x, (v, c, x) ∈ reads -> x = as_of (first c) (st_log σ c) v /\ settled σ c v) -> good (with_reads σ reads used).
Proof using Type.
  intros [G1 G2 G3 G4 G5 G6 G7 G8 G9 G10 G11 G12 G13 G14] Hr. split; try done. intros u w Hw. by destruct (G8 u w Hw).
Qed.

Lemma finish_good σ s c found p : good σ -> good (finish_read σ s c found p).
Proof using Type.
  intros G. assert (good (with_reads σ (st_reads σ) ((s, c, found) :: st_used σ))) as Gu by (apply good_reads; [done|apply (g_reads _ G)]).
  unfold finish_read. destruct p as [|change fits]; [done|]. destruct (st_txns σ !! s); [|done].
  destruct (TxnWrite _ _ _ _ _); [by apply good_txns|done].
Qed.

Lemma visit_good σ t now σ' : good σ -> visit_step σ t now = Ok σ' -> good σ'.
Proof using Type.
  intros G Hs. unfold visit_step in Hs. destruct (st_threads σ !! t) as [[w|s c copy pu]|] eqn:Et; [done| |done].
  step_inv Hs. pose proof (g_hist _ G) as Hok. unfold pending in Hok. rewrite Hg in Hok.
  destruct (h_visit_ok 0 (st_hist σ) now s x c Hok Hx) as (h & r & E & Hok' & Hn & Hr). rewrite E in Hs. cbn [mbind res_bind] in Hs.
  destruct (g_reading _ G t s c copy pu Et) as (v & Hv & Hcopy & Hset). rewrite Hx in Hv. injection Hv as <-.
  assert (good (with_hist (drop_thread σ t) h None)) as G'.
  { apply good_hist; try done; [|by left]. apply good_drop; [done|]. intros w d p Hw. congruence. }
  destruct r as [kept|e]; injection Hs as <-; [|by apply good_txns]. apply finish_good, good_reads; [done|].
  destruct (Hr kept eq_refl) as [Hin ->]. rewrite (g_kept _ G x s c) by (by apply (nw_snaps _ _ Hn)).
  assert (default copy (expected (first c) (st_log σ c) x) = as_of (first c) (st_log σ c) x) as ->.
  { unfold expected. case_bool_decide as Hex; [done|]. destruct Hcopy as [->|(e & He & Hlt)]; [done|]. destruct Hex.
    apply Exists_exists. by exists e. }
  intros v d y [[= -> -> ->]|Hy]%elem_of_cons; [|by apply (g_reads _ G')]. split; [done|].
  destruct Hset as [H1 H2]. split; [done|]. cbn. intros u w T. rewrite lookup_delete. case_decide; [done|]. apply H2.
Qed.

Lemma step_good g σ e σ' : good σ -> step g σ e = Ok σ' -> good σ'.
Proof using Type.
  destruct e; [apply begin_good|cbn [step]..]; [apply lock_good|apply lock_good|apply commit_good|apply target_good|apply validate_good|apply version_good
    |apply count_good|apply write_good|apply apply_good|apply publish_good|apply rollback_good|apply release_good|apply reg_count_good
    |apply reg_version_good|apply reg_enter_good|apply end_good|apply read_good|apply change_good|apply visit_good].
Qed.

Lemma start_good clock h : 1 <= clock -> h_ok 0 h -> (forall s v, h_version h s = Some v -> v < clock) -> h_snaps h = [] ->
  (forall c, h_tags h c = []) -> good (start clock h first).
Proof using Type.
  intros Hc Hok Hv Hs Ht. split; cbn [start st_clock st_hist st_reg st_chunks st_threads st_log st_txns st_reads st_used st_commits]; try done.
  - intros c. constructor.
  - by intros c e ?%elem_of_nil.
  - intros c t. rewrite Ht. by intros ?%elem_of_nil.
  - intros v s c. rewrite Hs. by intros ?%elem_of_nil.
  - by intros v c x ?%elem_of_nil.
  - by intros T S s cs c ?%elem_of_nil.
Qed.

Lemma bind_err {A B} (m : res A) (f : A -> res B) x :
  (m ≫= f) = Err x -> m = Err x \/ exists a, m = Ok a /\ f a = Err x.
Proof using Type. destruct m; [right; by eexists|intros [= ->]; by left]. Qed.

Lemma guard_err b x : guard b = Err x -> x = disabled.
Proof using Type. unfold guard, throw_if. destruct (negb b); by intros [= <-]. Qed.

Lemma the_err {A} (o : option A) x : the o = Err x -> x = disabled.
Proof using Type. destruct o; by intros [= <-]. Qed.

Lemma writer_of_err σ t x : writer_of σ t = Err x -> x = disabled.
Proof using Type. unfold writer_of. by destruct (st_threads σ !! t) as [[]|]; intros [= <-]. Qed.

(** Walks a step that failed up to the operation that failed. *)
Ltac err_inv H :=
  repeat (apply bind_err in H as [H|(? & ? & H)];
    [first [by apply writer_of_err in H|by apply the_err in H|by apply guard_err in H|idtac]|]).

Lemma commit_safe g σ t now s x : good σ -> commit_step g σ t now s = Err x -> x = disabled.
Proof using Type.
  intros G Hs. pose proof (g_hist _ G) as Hok. unfold pending in Hok. unfold commit_step in Hs.
  apply bind_err in Hs as [Hs|(txn & _ & Hs)]; [by apply the_err in Hs|].
  apply bind_err in Hs as [Hs|(v & Hv%the_ok & Hs)]; [by apply the_err in Hs|].
  apply bind_err in Hs as [Hs|([] & Hg%guard_ok & Hs)]; [by apply guard_err in Hs|].
  apply andb_true_iff in Hg as [_ Hr%bool_decide_eq_true]. rewrite Hr in Hok. cbv zeta in Hs.
  destruct (CommitTargets g (CommitReads txn) (CommitWrites txn)) as [ts|e].
  - destruct (CommitWrites txn); [|done]. destruct (h_validate_ok _ _ now s v [] Hok Hv) as (h & r & E & _). cbn in Hs. by rewrite E in Hs.
  - destruct (h_end_ok _ _ s v Hok Hv) as (h & E & _). cbn in Hs. by rewrite E in Hs.
Qed.

(** A step fails only by not being enabled. *)
Lemma step_safe g σ e x : good σ -> step g σ e = Err x -> x = disabled.
Proof using Type.
  intros G Hs. pose proof (g_hist _ G) as Hok. unfold pending in Hok.
  destruct e as [t|t c|t c|t now s|t|t now|t|t|t c st|t c|t now p|t|t|now s d| | |s|t s c|t s c change fits|t now]; cbn [step] in Hs.
  - by err_inv Hs.
  - unfold lock_step, take_lock in Hs. by err_inv Hs.
  - unfold lock_step, take_lock in Hs. by err_inv Hs.
  - by apply (commit_safe g σ t now s).
  - unfold target_step in Hs. apply bind_err in Hs as [Hs|(w & Hw & Hs)]; [by apply writer_of_err in Hs|].
    apply bind_err in Hs as [Hs|(cm & _ & Hs)]; [by apply the_err in Hs|]. destruct (cm_todo cm); [by injection Hs as <-|].
    unfold take_lock in Hs. by err_inv Hs.
  - unfold validate_step in Hs. apply bind_err in Hs as [Hs|(w & Hw & Hs)]; [by apply writer_of_err in Hs|].
    apply bind_err in Hs as [Hs|(cm & _ & Hs)]; [by apply the_err in Hs|].
    apply bind_err in Hs as [Hs|(v & Hv%the_ok & Hs)]; [by apply the_err in Hs|].
    apply bind_err in Hs as [Hs|([] & Hg%guard_ok & Hs)]; [by apply guard_err in Hs|].
    apply andb_true_iff in Hg as [_ Hr%bool_decide_eq_true]. rewrite Hr in Hok.
    destruct (h_validate_ok _ _ now _ v (coords (cm_targets cm)) Hok Hv) as (h & r & E & _). rewrite E in Hs. cbn in Hs. by destruct r.
  - unfold version_step in Hs. by err_inv Hs.
  - unfold count_step in Hs. by err_inv Hs.
  - unfold write_step, put_state in Hs. by err_inv Hs.
  - unfold apply_step, put_state in Hs. by err_inv Hs.
  - unfold publish_step in Hs. apply bind_err in Hs as [Hs|(w & Hw%writer_of_ok & Hs)]; [by apply writer_of_err in Hs|].
    apply bind_err in Hs as [Hs|([c prev] & Ed%the_ok & Hs)]; [by apply the_err in Hs|].
    apply bind_err in Hs as [Hs|(tag & Ev%the_ok & Hs)]; [by apply the_err in Hs|].
    apply bind_err in Hs as [Hs|(keep & Ek%the_ok & Hs)]; [by apply the_err in Hs|].
    apply bind_err in Hs as [Hs|(h & _ & [=])]. unfold keep_state in Hs. destruct keep; [|done].
    apply bind_err in Hs as [Hs|([] & Hg%guard_ok & Hs)]; [by apply guard_err in Hs|]. apply andb_true_iff in Hg as [_ Hroom].
    pose proof (g_writer _ G _ _ Hw) as W. destruct (wg_dirty _ _ W c prev Ed) as (Hc & Hnd & _).
    destruct (h_publish_ok _ _ now p c tag prev Hok Hroom) as (h' & E & _); [|congruence].
    apply Forall_forall. intros t' (st' & Hx)%(g_tags _ G). by apply (wg_log _ _ W tag c (t', st')).
  - unfold rollback_step in Hs. by err_inv Hs.
  - unfold release_step in Hs. by err_inv Hs.
  - unfold reg_count_step in Hs. apply bind_err in Hs as [Hs|([] & Hg%guard_ok & Hs)]; [by apply guard_err in Hs|].
    apply andb_true_iff in Hg as [Hr%bool_decide_eq_true Hm]. rewrite Hr in Hok.
    destruct (h_count_ok _ now s Hok Hm) as (h & E & _). by rewrite E in Hs.
  - unfold reg_version_step in Hs. apply bind_err in Hs as [Hs|([[s v] d] & _ & Hs)]; [by apply the_err in Hs|]. by err_inv Hs.
  - unfold reg_enter_step in Hs. apply bind_err in Hs as [Hs|([[s v] d] & _ & Hs)]; [by apply the_err in Hs|]. by err_inv Hs.
  - unfold end_step in Hs. apply bind_err in Hs as [Hs|(v & Hv%the_ok & Hs)]; [by apply the_err in Hs|].
    apply bind_err in Hs as [Hs|([] & Hr%guard_ok%bool_decide_eq_true & Hs)]; [by apply guard_err in Hs|]. rewrite Hr in Hok.
    destruct (h_end_ok _ _ s v Hok Hv) as (h & E & _). by rewrite E in Hs.
  - unfold read_step in Hs. apply bind_err in Hs as [Hs|(txn & _ & Hs)]; [by apply the_err in Hs|].
    apply bind_err in Hs as [Hs|([] & _ & Hs)]; [by apply guard_err in Hs|]. destruct (TxnRead txn [c]) as [txn'|]; [|done].
    cbv zeta in Hs. destruct (writes txn' !! c); [done|]. unfold copy_step in Hs. by err_inv Hs.
  - unfold change_step in Hs. apply bind_err in Hs as [Hs|(txn & _ & Hs)]; [by apply the_err in Hs|].
    apply bind_err in Hs as [Hs|([] & _ & Hs)]; [by apply guard_err in Hs|]. destruct (writes txn !! c); [by destruct (TxnWrite _ _ _ _ _)|].
    destruct (writes_full txn c); [done|]. unfold copy_step in Hs. by err_inv Hs.
  - unfold visit_step in Hs. destruct (st_threads σ !! t) as [[w|s c copy pu]|]; [by injection Hs as <-| |by injection Hs as <-].
    apply bind_err in Hs as [Hs|(v & Hv%the_ok & Hs)]; [by apply the_err in Hs|].
    apply bind_err in Hs as [Hs|([] & Hr%guard_ok%bool_decide_eq_true & Hs)]; [by apply guard_err in Hs|]. rewrite Hr in Hok.
    destruct (h_visit_ok _ _ now s v c Hok Hv) as (h & r & E & _). rewrite E in Hs. cbn in Hs. by destruct r.
Qed.

(** ** What a transaction touched is what its commit validates *)

(** The chunks validated for the transaction at snapshot [s]: by its commit in
    progress, or by the one it made. *)
Definition claims σ (s : nat) (cs : list ChunkCoord) : Prop :=
  (exists t w cm, st_threads σ !! t = Some (Writing w) /\ w_commit w = Some cm /\ cm_snap cm = s /\ coords (cm_targets cm) = cs) \/
  (exists T S, (T, S, s, cs) ∈ st_commits σ).

Record writer_tracked σ (w : writer) : Prop := {
  wt_todo : forall cm c, w_commit w = Some cm -> c ∈ coords (cm_todo cm) -> c ∈ coords (cm_targets cm);
  wt_excl : forall cm c, w_commit w = Some cm -> c ∈ w_excl w -> c ∈ coords (cm_targets cm);
  wt_snap : forall S, w_snap w = Some S -> exists cm, w_commit w = Some cm /\ h_version (st_hist σ) (cm_snap cm) = Some S;
  wt_own : forall T S s cs c, w_version w = Some T -> (T, S, s, cs) ∈ st_commits σ -> c ∈ w_excl w -> c ∈ cs
}.

Record tracked σ : Prop := {
  tk_version : forall s cs, claims σ s cs -> is_Some (h_version (st_hist σ) s);
  tk_claims : forall s cs c x, claims σ s cs -> (s, c, x) ∈ st_used σ -> c ∈ cs;
  tk_txns : forall s txn, st_txns σ !! s = Some txn -> is_Some (h_version (st_hist σ) s) /\ (forall cs, ~ claims σ s cs) /\
    forall c x, (s, c, x) ∈ st_used σ -> touched txn c;
  tk_reading : forall t s c copy p, st_threads σ !! t = Some (Reading s c copy p) -> (forall cs, ~ claims σ s cs) /\
    forall txn, st_txns σ !! s = Some txn -> p = ToAnswer -> c ∈ read_set txn;
  tk_used : forall s c x, (s, c, x) ∈ st_used σ -> exists v, h_version (st_hist σ) s = Some v /\ (v, c, x) ∈ st_reads σ;
  tk_writer : forall t w, st_threads σ !! t = Some (Writing w) -> writer_tracked σ w;
  tk_commits : forall T S s cs, (T, S, s, cs) ∈ st_commits σ -> h_version (st_hist σ) s = Some S /\ T < st_clock σ;
  tk_wrote : forall T S s cs c st, (T, S, s, cs) ∈ st_commits σ -> (T, st) ∈ st_log σ c -> c ∈ cs
}.

(** A writer's step that keeps its commit's targets. *)
Record follows σ (w w' : writer) : Prop := {
  fo_commit : forall cm', w_commit w' = Some cm' -> exists cm, w_commit w = Some cm /\ cm_snap cm' = cm_snap cm /\ cm_targets cm' = cm_targets cm /\
    forall c, c ∈ coords (cm_todo cm') -> c ∈ coords (cm_todo cm);
  fo_excl : forall c, c ∈ w_excl w' -> c ∈ w_excl w \/ w_version w' = None /\ forall cm, w_commit w' = Some cm -> c ∈ coords (cm_targets cm);
  fo_snap : forall S, w_snap w' = Some S -> exists cm, w_commit w' = Some cm /\ h_version (st_hist σ) (cm_snap cm) = Some S;
  fo_version : w_version w' = w_version w
}.

(** Transactions that went on or ended. *)
Definition later (txns txns' : gmap nat SessionTransaction) : Prop :=
  forall s txn', txns' !! s = Some txn' -> exists txn, txns !! s = Some txn /\ (forall c, touched txn c -> touched txn' c) /\
    forall c, c ∈ read_set txn -> c ∈ read_set txn'.

(** What a step of a thread does to the rest of the store. *)
Record keeps σ σ' : Prop := {
  ks_clock : st_clock σ' = st_clock σ;
  ks_version : forall s v, h_version (st_hist σ) s = Some v -> h_version (st_hist σ') s = Some v;
  ks_used : st_used σ' = st_used σ;
  ks_reads : forall r, r ∈ st_reads σ -> r ∈ st_reads σ';
  ks_commits : st_commits σ' = st_commits σ;
  ks_log : forall c, st_log σ' c = st_log σ c;
  ks_txns : later (st_txns σ) (st_txns σ');
  ks_writers : forall t w', st_threads σ' !! t = Some (Writing w') -> exists w, st_threads σ !! t = Some (Writing w) /\ follows σ' w w';
  ks_reading : forall t s c copy p, st_threads σ' !! t = Some (Reading s c copy p) -> st_threads σ !! t = Some (Reading s c copy p)
}.

Lemma keeps_claims σ σ' s cs : keeps σ σ' -> claims σ' s cs -> claims σ s cs.
Proof using Type.
  intros K [(t & w' & cm' & Ht & Hcm & <- & <-)|(T & S & Hin)].
  - destruct (ks_writers _ _ K t w' Ht) as (w & Hw & F). destruct (fo_commit _ _ _ F cm' Hcm) as (cm & Hcm0 & -> & -> & _). left. by exists t, w, cm.
  - right. exists T, S. by rewrite <- (ks_commits _ _ K).
Qed.

Lemma tracked_keeps σ σ' : tracked σ -> keeps σ σ' -> tracked σ'.
Proof using Type.
  intros [K1 K2 K3 K4 K5 K6 K7 K8] Q. pose proof (fun s cs => keeps_claims σ σ' s cs Q) as Hcl. destruct Q as [Q0 Q1 Q2 Q3 Q4 Q5 Q6 Q7 Q8].
  assert (forall s, is_Some (h_version (st_hist σ) s) -> is_Some (h_version (st_hist σ') s)) as Hsome by (intros s [v Hv]; exists v; by apply Q1).
  split; rewrite ?Q2, ?Q4; eauto.
  - intros s txn' Hs. destruct (Q6 s txn' Hs) as (txn & Htxn & Hto & _). destruct (K3 s txn Htxn) as (B1 & B2 & B3).
    split; [by apply Hsome|]. split; [intros cs Hc; by apply (B2 cs), Hcl|]. intros c x Hx. by apply Hto, (B3 c x).
  - intros t s c copy p Ht. destruct (K4 t s c copy p (Q8 _ _ _ _ _ Ht)) as [B1 B2]. split; [intros cs Hc; by apply (B1 cs), Hcl|].
    intros txn' Hs Hp. destruct (Q6 s txn' Hs) as (txn & Htxn & _ & Hr). by apply Hr, (B2 txn).
  - intros s c x Hx. destruct (K5 s c x Hx) as (v & Hv & Hin). exists v. split; [by apply Q1|by apply Q3].
  - intros t w' Ht. destruct (Q7 t w' Ht) as (w & Hw & [F1 F2 F3 F4]). destruct (K6 t w Hw) as [B1 B2 B3 B4]. split; [..|rewrite Q4].
    + intros cm' c Hcm Hc. destruct (F1 cm' Hcm) as (cm & Hcm0 & _ & -> & Htodo). by apply B1; [|apply Htodo].
    + intros cm' c Hcm Hc. destruct (F2 c Hc) as [Hold|[_ Hnew]]; [|by apply Hnew]. destruct (F1 cm' Hcm) as (cm & Hcm0 & _ & -> & _). by apply B2.
    + done.
    + intros T S s cs c HT Hin Hc. rewrite F4 in HT. destruct (F2 c Hc) as [Hold|[Hn _]]; [by apply (B4 T S s cs c)|congruence].
  - intros T S s cs Hin. rewrite Q0. destruct (K7 T S s cs Hin) as [Hv Ht]. split; [by apply Q1|done].
  - intros T S s cs c st Hin. rewrite Q5. by apply (K8 T S s cs).
Qed.

Lemma follows_refl σ w : writer_tracked σ w -> follows σ w w.
Proof using Type. intros [B1 B2 B3 B4]. split; eauto 8. Qed.

(** A step that leaves the threads as they are or ends some. *)
Lemma keeps_rest σ σ' : tracked σ -> st_clock σ' = st_clock σ -> st_used σ' = st_used σ -> (forall r, r ∈ st_reads σ -> r ∈ st_reads σ') -> st_commits σ' = st_commits σ ->
  st_log σ' = st_log σ -> (forall s v, h_version (st_hist σ) s = Some v -> h_version (st_hist σ') s = Some v) ->
  later (st_txns σ) (st_txns σ') ->
  (forall t th, st_threads σ' !! t = Some th -> st_threads σ !! t = Some th) -> tracked σ'.
Proof using Type.
  intros K E0 E1 E2 E3 E4 E5 E6 E7. apply (tracked_keeps σ); [done|]. split; try done; [by rewrite E4| |by eauto].
  intros t w Hw. exists w. split; [by apply E7|]. destruct (tk_writer _ K t w (E7 _ _ Hw)) as [B1 B2 B3 B4]. split; eauto 8.
  - intros S HS. destruct (B3 S HS) as (cm & Hcm & Hv). exists cm. split; [done|by apply E5].
Qed.

Lemma later_refl txns : later txns txns.
Proof using Type. intros s txn Hs. by exists txn. Qed.

Lemma later_delete txns s : later txns (delete s txns).
Proof using Type. intros s' txn. rewrite lookup_delete. case_decide; [done|]. intros Hs. by exists txn. Qed.

Lemma drop_thread_sub σ t u th : delete t (st_threads σ) !! u = Some th -> st_threads σ !! u = Some th.
Proof using Type. rewrite lookup_delete. case_decide; done. Qed.

(** A writer's step on its own. *)
Lemma tracked_set σ t w w' : tracked σ -> st_threads σ !! t = Some (Writing w) -> follows σ w w' -> tracked (set_thread σ t (Writing w')).
Proof using Type.
  intros K Hw F. apply (tracked_keeps σ); [done|]. split; try done; cbn.
  - apply later_refl.
  - intros u w2. rewrite lookup_insert. case_decide as E; [intros [= <-]; exists w; subst u; split; [done|by destruct F]|].
    intros Hu. exists w2. split; [done|]. by destruct (follows_refl σ w2 (tk_writer _ K u w2 Hu)).
  - intros u s c copy p. rewrite lookup_insert. by case_decide.
Qed.

(** A thread that begins as the writer [w], without locks or version. *)
Lemma tracked_new σ t cm : tracked σ -> st_threads σ !! t = None ->
  (forall x, cm = Some x -> cm_todo x = cm_targets x /\ is_Some (h_version (st_hist σ) (cm_snap x)) /\ st_txns σ !! cm_snap x = None /\
    (forall c y, (cm_snap x, c, y) ∈ st_used σ -> c ∈ coords (cm_targets x)) /\
    forall u c copy p, st_threads σ !! u <> Some (Reading (cm_snap x) c copy p)) ->
  tracked (set_thread σ t (Writing (new_writer cm))).
Proof using Type.
  intros [K1 K2 K3 K4 K5 K6 K7 K8] Ht Hnew.
  assert (forall s cs, claims (set_thread σ t (Writing (new_writer cm))) s cs ->
    claims σ s cs \/ exists x, cm = Some x /\ s = cm_snap x /\ cs = coords (cm_targets x)) as Hcl.
  { intros s cs [(u & w & x & Hu & Hx & <- & <-)|Hc]; [|left; by right]. cbn in Hu. rewrite lookup_insert in Hu. case_decide.
    - injection Hu as <-. right. by exists x.
    - left. left. by exists u, w, x. }
  split; cbn; try done.
  - intros s cs [Hc|(x & E & -> & ->)]%Hcl; [by apply (K1 s cs)|by apply (Hnew x E)].
  - intros s cs c y [Hc|(x & E & -> & ->)]%Hcl; [by apply K2|by apply (Hnew x E)].
  - intros s txn Hs. destruct (K3 s txn Hs) as (B1 & B2 & B3). split; [done|]. split; [|done]. intros cs [Hc|(x & E & -> & ->)]%Hcl; [by apply (B2 cs)|].
    destruct (Hnew x E) as (_ & _ & Hno & _). congruence.
  - intros u s c copy p. rewrite lookup_insert. case_decide; [done|]. intros Hu. destruct (K4 u s c copy p Hu) as [B1 B2]. split; [|done].
    intros cs [Hc|(x & E & -> & ->)]%Hcl; [by apply (B1 cs)|]. by destruct (Hnew x E) as (_ & _ & _ & _ & Hr); apply Hr in Hu.
  - intros u w. rewrite lookup_insert. case_decide; [intros [= <-]|by intros Hu; destruct (K6 u w Hu)].
    split; cbn; try done; [|by intros ? ? ? ?%elem_of_nil].
    intros x c E. by rewrite (proj1 (Hnew x E)).
Qed.

Lemma take_lock_tracked σ t w cm c shared σ' : tracked σ -> st_threads σ !! t = Some (Writing w) ->
  (forall x, cm = Some x -> c ∈ coords (cm_targets x) /\ exists y, w_commit w = Some y /\ cm_snap x = cm_snap y /\ cm_targets x = cm_targets y /\
    forall d, d ∈ coords (cm_todo x) -> d ∈ coords (cm_todo y)) ->
  take_lock σ t w cm c shared = Ok σ' -> tracked σ'.
Proof using Type.
  intros K Hw Hcm Hs. unfold take_lock in Hs. step_inv Hs. apply (tracked_set σ t w); [done|done|]. split; cbn; try done.
  - intros x E. destruct (Hcm x E) as [_ (y & B1 & B2 & B3 & B4)]. by exists y.
  - intros d Hd. destruct shared; [by left|]. apply elem_of_cons in Hd as [->|?]; [|by left]. right. split; [done|]. intros x E. by apply (Hcm x E).
  - intros S HS. congruence.
Qed.

Lemma target_tracked σ t σ' : tracked σ -> target_step σ t = Ok σ' -> tracked σ'.
Proof using Type.
  intros K Hs. unfold target_step in Hs. step_inv Hs. destruct (cm_todo x) as [|tg todo] eqn:E; [done|].
  eapply take_lock_tracked; [done|done| |exact Hs]. intros y [= <-]. cbn. split.
  - apply (wt_todo _ _ (tk_writer _ K t w Hw) x); [done|]. rewrite E. left.
  - exists x. split; [done|]. split; [done|]. split; [done|]. intros d Hd. rewrite E. by right.
Qed.

Lemma commit_tracked g σ t now s σ' : good σ -> tracked σ -> commit_step g σ t now s = Ok σ' -> tracked σ'.
Proof using Type.
  intros G K Hs. unfold commit_step in Hs. step_inv Hs. pose proof (g_hist _ G) as Hok. unfold pending in Hok. rewrite Hg0 in Hok.
  assert (tracked (with_txns σ (delete s (st_txns σ)))) as K' by (apply (keeps_rest σ); try done; apply later_delete).
  destruct (CommitTargets g (CommitReads x) (CommitWrites x)) as [ts|e] eqn:Ets.
  - destruct (CommitWrites x) eqn:Ews.
    { destruct (h_validate_ok 0 (st_hist σ) now s x0 [] Hok Hx0) as (h & r & E & Hok' & Hn & _). cbn in Hs. rewrite E in Hs. injection Hs as <-.
      apply (keeps_rest _ _ K'); try done; [intros ? ?; cbn; by rewrite (nw_version _ _ Hn)|apply later_refl]. }
    injection Hs as <-. apply tracked_new; [done|done|]. intros y [= <-]. cbn. split; [done|]. split; [by exists x0|]. split; [apply lookup_delete_eq|].
    rewrite <- Ews in Ets. split.
    + intros c y Hy. apply (session_targets g x ts c Ets). by apply (tk_txns _ K s x Hx) in Hy.
    + intros u c copy pu Hu. pose proof (proj1 (no_thread_spec _ _) Hg1 u _ Hu) as Hn. cbn in Hn. by rewrite Nat.eqb_refl in Hn.
  - destruct (h_end_ok 0 (st_hist σ) s x0 Hok Hx0) as (h & E & Hok' & Hn). cbn in Hs. rewrite E in Hs. injection Hs as <-.
    apply (keeps_rest _ _ K'); try done; [intros ? ?; cbn; by rewrite (nw_version _ _ Hn)|apply later_refl].
Qed.

Lemma validate_tracked σ t now σ' : good σ -> tracked σ -> validate_step σ t now = Ok σ' -> tracked σ'.
Proof using Type.
  intros G K Hs. unfold validate_step in Hs. step_inv Hs. pose proof (g_hist _ G) as Hok. unfold pending in Hok. rewrite Hg0 in Hok.
  destruct (h_validate_ok _ _ now _ x0 (coords (cm_targets x)) Hok Hx0) as (h & r & E & Hok' & Hn & Hr). rewrite E in Hs. cbn [mbind res_bind] in Hs.
  assert (tracked (with_hist σ h None)) as K'.
  { apply (keeps_rest _ _ K); try done; [intros ? ?; cbn; by rewrite (nw_version _ _ Hn)|apply later_refl]. }
  destruct r as [[]|e]; injection Hs as <-.
  2:{ apply (keeps_rest _ _ K'); try done; [apply later_refl|]. intros u th. apply drop_thread_sub. }
  apply (tracked_set _ t w); [done|done|]. split; cbn; try done; [by eauto 8|by left|].
  intros S [= <-]. exists x. split; [done|]. by rewrite (nw_version _ _ Hn).
Qed.

Lemma version_tracked σ t σ' : good σ -> tracked σ -> version_step σ t = Ok σ' -> tracked σ'.
Proof using Type.
  intros G K Hs. unfold version_step in Hs. step_inv Hs. pose proof (g_writer _ G _ _ Hw) as W. pose proof (tk_writer _ K _ _ Hw) as [W1 W2 W3 W4].
  cbn [set_thread with_threads st_clock st_hist st_reg st_chunks st_threads st_log st_txns st_reads st_used st_commits].
  match goal with |- context [<[t := Writing ?x]> _] => set (w' := x) end. match goal with |- tracked ?s => set (σ' := s) end.
  pose proof K as [K1 K2 K3 K4 K5 K6 K7 K8].
  assert (forall T S s cs, (T, S, s, cs) ∈ st_commits σ' -> (T, S, s, cs) ∈ st_commits σ \/
    T = st_clock σ /\ w_snap w = Some S /\ exists cm, w_commit w = Some cm /\ s = cm_snap cm /\ cs = coords (cm_targets cm)) as Hcs.
  { intros T S s cs. cbn. destruct (w_commit w) as [cm|], (w_snap w) as [S0|]; try by left. intros [[= -> -> -> ->]|?]%elem_of_cons; [right|by left].
    split; [done|]. split; [done|]. by exists cm. }
  assert (forall u w2, st_threads σ' !! u = Some (Writing w2) -> u = t /\ w2 = w' \/ u <> t /\ st_threads σ !! u = Some (Writing w2)) as Hu
    by (intros u w2; cbn; rewrite lookup_insert; case_decide as E; [intros [= ->]; by left|intros ?; right; by split]).
  assert (forall s cs, claims σ' s cs -> claims σ s cs) as Hcl.
  { intros s cs [(u & w2 & cm & Hin & Hcm & <- & <-)|(T & S & Hin)].
    - left. apply Hu in Hin as [[-> ->]|[_ Hin]]; [by exists t, w, cm|by exists u, w2, cm].
    - apply Hcs in Hin as [Hin|(_ & _ & cm & Hcm & -> & ->)]; [right; by exists T, S|left; by exists t, w, cm]. }
  split; cbn [σ' st_hist st_threads st_txns st_used st_reads st_log]; eauto.
  - intros s txn Hs. destruct (K3 s txn Hs) as (B1 & B2 & B3). split; [done|]. split; [|done]. intros cs Hc. by apply (B2 cs), Hcl.
  - intros u s c copy p Hin. rewrite lookup_insert in Hin. case_decide; [done|]. destruct (K4 u s c copy p Hin) as [B1 B2]. split; [|done].
    intros cs Hc. by apply (B1 cs), Hcl.
  - intros u w2 Hin. apply Hu in Hin as [[-> ->]|[_ Hin]].
    + split; [done..|]. intros T S s cs c [= <-] [Hin|(_ & _ & cm & Hcm & _ & ->)]%Hcs Hc; [|by apply (W2 cm)].
      destruct (K7 _ _ _ _ Hin). lia.
    + pose proof (wg_version _ _ (g_writer _ G u w2 Hin)) as Hv. destruct (K6 u w2 Hin) as [B1 B2 B3 B4]. split; [done..|].
      intros T S s cs c HT [Hin2|(-> & _)]%Hcs Hc; [by apply (B4 T S s cs c)|]. specialize (Hv _ HT). lia.
  - cbn. intros T S s cs [Hin|(-> & HS & cm & Hcm & -> & _)]%Hcs; [destruct (K7 T S s cs Hin); split; [done|lia]|].
    destruct (W3 S HS) as (cm' & Hcm' & Hv). split; [congruence|lia].
  - intros T S s cs c st [Hin|(-> & _)]%Hcs Hst; [by apply (K8 T S s cs c st)|]. pose proof (g_below _ G c _ Hst) as Hb. cbn in Hb. lia.
Qed.

Lemma put_tracked σ t w c st σ' : tracked σ -> st_threads σ !! t = Some (Writing w) -> put_state σ t w c st = Ok σ' -> tracked σ'.
Proof using Type.
  intros K Hw Hs. unfold put_state in Hs. step_inv Hs. pose proof (follows_refl σ w (tk_writer _ K t w Hw)) as [F1 F2 F3 F4].
  cbn [set_thread with_threads st_threads]. match goal with |- context [<[t := Writing ?x]> _] => set (w' := x) end.
  assert (tracked (set_thread σ t (Writing w'))) as K' by (by apply (tracked_set σ t w)).
  apply (keeps_rest _ _ K'); try done. apply later_refl.
Qed.

Lemma publish_tracked σ t now p σ' : good σ -> tracked σ -> publish_step σ t now p = Ok σ' -> tracked σ'.
Proof using Type.
  intros G K Hs. unfold publish_step in Hs. apply bind_ok in Hs as (w & Hw%writer_of_ok & Hs).
  apply bind_ok in Hs as ([c prev] & Ed%the_ok & Hs). apply bind_ok in Hs as (tag & Ev%the_ok & Hs).
  apply bind_ok in Hs as (keep & Ek%the_ok & Hs). apply bind_ok in Hs as (h & Hh & [= <-]).
  pose proof (keep_state_good σ t w c prev tag keep now p (st_chunks σ c) h G Hw Ed Ev Ek Hh) as [_ _ _ _ Hver].
  destruct (wg_dirty _ _ (g_writer _ G _ _ Hw) c prev Ed) as (Hc & _). pose proof (tk_writer _ K t w Hw) as Wt.
  pose proof (follows_refl σ w Wt) as [F1 F2 F3 F4]. cbn [set_thread with_threads st_chunks].
  match goal with |- context [<[t := Writing ?x]> _] => set (w' := x) end.
  assert (tracked (set_thread σ t (Writing w'))) as K' by (by apply (tracked_set σ t w)).
  assert (tracked (with_hist (set_thread σ t (Writing w')) h (st_reg σ))) as [K1 K2 K3 K4 K5 K6 K7 K8].
  { apply (keeps_rest _ _ K'); try done; [intros ? ?; cbn; by rewrite Hver|apply later_refl]. }
  split; try done; [intros u w2 Hu; by destruct (K6 u w2 Hu)|]. cbn. intros T S s cs d st Hin. unfold upd. case_decide; [subst d|by apply (K8 T S s cs)].
  intros [?|[= -> ->]%list_elem_of_singleton]%elem_of_app; [by apply (K8 T S s cs c st)|]. by apply (wt_own _ _ Wt tag S s cs).
Qed.

Lemma reg_enter_tracked σ σ' : good σ -> tracked σ -> reg_enter_step σ = Ok σ' -> tracked σ'.
Proof using Type.
  intros G K Hs. unfold reg_enter_step in Hs. apply bind_ok in Hs as ([[s ov] d] & Er%the_ok & Hs).
  apply bind_ok in Hs as (v & Ev%the_ok & [= <-]). subst ov. destruct (g_reg _ G s (Some v) d Er) as [Hnone _].
  pose proof (g_hist _ G) as Hok. unfold pending in Hok. rewrite Er in Hok. destruct (h_enter_ok (st_hist σ) s v d Hok Hnone) as (_ & _ & _ & _ & E4).
  assert (tracked (with_hist σ (h_enter (st_hist σ) s v d) None)) as K'.
  { apply (keeps_rest _ _ K); try done; [|apply later_refl]. intros s' v'. cbn. rewrite E4. case_decide; congruence. }
  assert (forall cs, ~ claims σ s cs) as Hno by (intros cs [v' Hv']%(tk_version _ K); congruence).
  destruct K' as [K1 K2 K3 K4 K5 K6 K7 K8]. split; try done.
  - cbn. intros s' txn. rewrite lookup_insert. case_decide; [|apply K3]. intros [= <-]. subst s'. rewrite E4, decide_True by done.
    split; [by exists v|]. split; [exact Hno|]. intros c x (v' & Hv' & _)%(tk_used _ K). congruence.
  - cbn. intros t s' c copy p Ht. destruct (K4 t s' c copy p Ht) as [B1 B2]. split; [done|]. intros txn. rewrite lookup_insert. case_decide; [|apply B2].
    subst s'. destruct (g_reading _ G t s c copy p Ht) as (v' & Hv' & _). congruence.
  - intros u w Hu. by destruct (K6 u w Hu).
Qed.

Lemma copy_tracked σ t s c p σ' : tracked σ -> (forall cs, ~ claims σ s cs) ->
  (forall txn, st_txns σ !! s = Some txn -> p = ToAnswer -> c ∈ read_set txn) -> copy_step σ t s c p = Ok σ' -> tracked σ'.
Proof using Type.
  intros [K1 K2 K3 K4 K5 K6 K7 K8] Hno Hr Hs. unfold copy_step in Hs. step_inv Hs.
  assert (forall u w, <[t := Reading s c (st_chunks σ c) p]> (st_threads σ) !! u = Some (Writing w) -> st_threads σ !! u = Some (Writing w)) as Hu
    by (intros u w; rewrite lookup_insert; case_decide; done).
  assert (forall s' cs, claims (set_thread σ t (Reading s c (st_chunks σ c) p)) s' cs -> claims σ s' cs) as Hcl.
  { intros s' cs [(u & w & cm & Hw%Hu & H1)|Hc]; [left; by exists u, w, cm|by right]. }
  split; cbn; eauto.
  - intros s' txn Hs. destruct (K3 s' txn Hs) as (B1 & B2 & B3). split; [done|]. split; [|done]. intros cs Hc. by apply (B2 cs), Hcl.
  - intros u s' d copy p'. rewrite lookup_insert. case_decide.
    + intros [= <- <- <- <-]. split; [|done]. intros cs Hc. by apply (Hno cs), Hcl.
    + intros Hin. destruct (K4 u s' d copy p' Hin) as [B1 B2]. split; [|done]. intros cs Hc. by apply (B1 cs), Hcl.
  - intros u w Hw%Hu. by destruct (K6 u w Hw).
Qed.

Lemma later_insert txns s txn txn' : txns !! s = Some txn -> (forall c, touched txn c -> touched txn' c) ->
  (forall c, c ∈ read_set txn -> c ∈ read_set txn') -> later txns (<[s := txn']> txns).
Proof using Type.
  intros Hs H1 H2 s' txn2. rewrite lookup_insert. case_decide; [intros [= <-]; subst s'; by exists txn|]. intros Hs'. by exists txn2.
Qed.

Lemma TxnWrite_touched txn c found change fits txn' : TxnWrite txn c found change fits = Ok txn' ->
  read_set txn' = read_set txn /\ touched txn' c /\ forall d, touched txn d -> touched txn' d.
Proof using Type.
  intros Hw. unfold TxnWrite in Hw. res_inv. subst txn'. split; [done|]. unfold touched. cbn. split; [right; rewrite lookup_insert, decide_True by done; by eexists|].
  intros d [?|Hd]; [by left|right]. rewrite lookup_insert. case_decide; [by eexists|done].
Qed.

Lemma with_txns_tracked σ s txn txn' : tracked σ -> st_txns σ !! s = Some txn -> (forall c, touched txn c -> touched txn' c) ->
  (forall c, c ∈ read_set txn -> c ∈ read_set txn') -> tracked (with_txns σ (<[s := txn']> (st_txns σ))).
Proof using Type. intros K Hs H1 H2. apply (keeps_rest _ _ K); try done. by apply (later_insert _ _ txn). Qed.

Lemma read_tracked σ t s c σ' : tracked σ -> read_step σ t s c = Ok σ' -> tracked σ'.
Proof using Type.
  intros K Hs. unfold read_step in Hs. step_inv Hs. destruct (TxnRead x [c]) as [txn|e] eqn:E; [|by injection Hs as <-].
  unfold TxnRead in E. res_inv. subst txn. match type of Hs with context [<[s := ?y]> _] => set (txn := y) in * end.
  assert (tracked (with_txns σ (<[s := txn]> (st_txns σ)))) as K'.
  { apply (with_txns_tracked σ s x); [done|done| |]; intros d; [intros [?|?]; [left|by right]|intros ?]; apply elem_of_union; by left. }
  destruct (writes txn !! c) eqn:Ew; [by injection Hs as <-|]. apply (copy_tracked _ t s c ToAnswer) in Hs; [done|done| |].
  - apply (tk_txns _ K' s txn). cbn. by rewrite lookup_insert, decide_True.
  - cbn. rewrite lookup_insert, decide_True by done. intros y [= <-] _. apply elem_of_union. right. apply elem_of_union. left. by apply elem_of_singleton.
Qed.

Lemma change_tracked σ t s c change fits σ' : tracked σ -> change_step σ t s c change fits = Ok σ' -> tracked σ'.
Proof using Type.
  intros K Hs. unfold change_step in Hs. step_inv Hs. destruct (writes x !! c).
  - destruct (TxnWrite _ _ _ _ _) as [txn|] eqn:E; injection Hs as <-; [|done]. apply TxnWrite_touched in E as (E1 & _ & E2).
    apply (with_txns_tracked σ s x); [done|done|done|]. by rewrite E1.
  - destruct (writes_full x c); [by injection Hs as <-|]. apply (copy_tracked _ t s c (ToChange change fits)) in Hs; [done|done| |done].
    by apply (tk_txns _ K s x).
Qed.

(** A chunk found for the transaction, which has touched it by now. *)
Lemma used_tracked σ s v c found : tracked σ -> h_version (st_hist σ) s = Some v -> (v, c, found) ∈ st_reads σ -> (forall cs, ~ claims σ s cs) ->
  (forall txn, st_txns σ !! s = Some txn -> touched txn c) -> tracked (with_reads σ (st_reads σ) ((s, c, found) :: st_used σ)).
Proof using Type.
  intros [K1 K2 K3 K4 K5 K6 K7 K8] Hv Hin Hno Ht. split; try done; cbn.
  - intros s' cs d x Hc [[= -> -> ->]|Hx]%elem_of_cons; [by destruct (Hno cs)|by apply (K2 s' cs d x)].
  - intros s' txn Hs. destruct (K3 s' txn Hs) as (B1 & B2 & B3). split; [done|]. split; [done|].
    intros d x [[= -> -> ->]|Hx]%elem_of_cons; [by apply Ht|by apply (B3 d x)].
  - intros s' d x [[= -> -> ->]|Hx]%elem_of_cons; [by exists v|by apply K5].
  - intros u w Hu. by destruct (K6 u w Hu).
Qed.

Lemma finish_tracked σ s v c found p : tracked σ -> h_version (st_hist σ) s = Some v -> (v, c, found) ∈ st_reads σ -> (forall cs, ~ claims σ s cs) ->
  (forall txn, st_txns σ !! s = Some txn -> p = ToAnswer -> c ∈ read_set txn) -> tracked (finish_read σ s c found p).
Proof using Type.
  intros K Hv Hin Hno Hr. unfold finish_read. destruct p as [|change fits].
  - apply (used_tracked σ s v); try done. intros txn Hs. left. by apply Hr.
  - destruct (st_txns σ !! s) as [txn|] eqn:Es; [|done]. destruct (TxnWrite txn c found change fits) as [txn'|] eqn:E; [|done].
    apply TxnWrite_touched in E as (E1 & E2 & E3). assert (tracked (with_txns σ (<[s := txn']> (st_txns σ)))) as K'.
    { apply (with_txns_tracked σ s txn); [done|done|done|]. by rewrite E1. }
    apply (used_tracked _ s v c found K'); try done. intros y. cbn. rewrite lookup_insert, decide_True by done. by intros [= <-].
Qed.

Lemma visit_tracked σ t now σ' : good σ -> tracked σ -> visit_step σ t now = Ok σ' -> tracked σ'.
Proof using Type.
  intros G K Hs. unfold visit_step in Hs. destruct (st_threads σ !! t) as [[w|s c copy pu]|] eqn:Et; [done| |done].
  step_inv Hs. pose proof (g_hist _ G) as Hok. unfold pending in Hok. rewrite Hg in Hok.
  destruct (h_visit_ok 0 (st_hist σ) now s x c Hok Hx) as (h & r & E & Hok' & Hn & Hr). rewrite E in Hs. cbn [mbind res_bind] in Hs.
  assert (forall reads txns, (forall r, r ∈ st_reads σ -> r ∈ reads) -> later (st_txns σ) txns ->
    keeps σ (with_txns (with_reads (with_hist (drop_thread σ t) h None) reads (st_used σ)) txns)) as Hkeep.
  { intros reads txns Hreads Htxns. split; try done; cbn.
    - intros s' v'. by rewrite (nw_version _ _ Hn).
    - intros u w Hu%drop_thread_sub. exists w. split; [done|]. destruct (follows_refl σ w (tk_writer _ K u w Hu)) as [F1 F2 F3 F4]. split; try done.
      cbn. intros S HS. destruct (F3 S HS) as (cm & Hcm & Hv). exists cm. by rewrite (nw_version _ _ Hn).
    - intros u s' d cp p Hu. by apply drop_thread_sub in Hu. }
  destruct (tk_reading _ K t s c copy pu Et) as [Hno Hrs]. destruct r as [kept|e]; injection Hs as <-.
  - specialize (Hkeep ((x, c, default copy kept) :: st_reads σ) (st_txns σ) ltac:(by right) (later_refl _)).
    pose proof (tracked_keeps _ _ K Hkeep) as K'. apply (finish_tracked _ s x); try done.
    + cbn. by rewrite (nw_version _ _ Hn).
    + left.
    + intros cs Hc. by apply (Hno cs), (keeps_claims _ _ _ _ Hkeep).
  - apply (tracked_keeps σ); [done|]. apply (Hkeep (st_reads σ)); [done|apply later_delete].
Qed.

Lemma step_tracked g σ e σ' : good σ -> tracked σ -> step g σ e = Ok σ' -> tracked σ'.
Proof using Type.
  intros G K Hs. destruct e as [t|t c|t c|t now s|t|t now|t|t|t c st|t c|t now p|t|t|now s d| | |s|t s c|t s c change fits|t now]; cbn [step] in Hs.
  - step_inv Hs. by apply tracked_new.
  - unfold lock_step in Hs. step_inv Hs. by apply (take_lock_tracked σ t w None c false).
  - unfold lock_step in Hs. step_inv Hs. by apply (take_lock_tracked σ t w None c true).
  - by apply (commit_tracked g σ t now s).
  - by apply (target_tracked σ t).
  - by apply (validate_tracked σ t now).
  - by apply (version_tracked σ t).
  - unfold count_step in Hs. step_inv Hs. destruct (follows_refl σ w (tk_writer _ K t w Hw)). by apply (tracked_set σ t w).
  - unfold write_step in Hs. step_inv Hs. by apply (put_tracked σ t w c st).
  - unfold apply_step in Hs. step_inv Hs. by apply (put_tracked σ t w c x1).
  - by apply (publish_tracked σ t now p).
  - unfold rollback_step in Hs. step_inv Hs. apply (keeps_rest _ _ K); try done; [apply later_refl|]. intros u th. apply drop_thread_sub.
  - unfold release_step in Hs. step_inv Hs. apply (keeps_rest _ _ K); try done; [apply later_refl|]. intros u th. apply drop_thread_sub.
  - unfold reg_count_step in Hs. step_inv Hs. pose proof (g_hist _ G) as Hok. unfold pending in Hok. rewrite Hg in Hok.
    destruct (h_count_ok (st_hist σ) now s Hok Hg0) as (h & E & Hok' & Hn & Hv). rewrite E in Hs. injection Hs as <-.
    apply (keeps_rest _ _ K); try done; [intros ? ?; cbn; by rewrite (nw_version _ _ Hn)|apply later_refl].
  - unfold reg_version_step in Hs. apply bind_ok in Hs as ([[s v] d] & Er%the_ok & Hs). step_inv Hs. apply (keeps_rest _ _ K); try done. apply later_refl.
  - by apply (reg_enter_tracked σ).
  - unfold end_step in Hs. step_inv Hs. pose proof (g_hist _ G) as Hok. unfold pending in Hok. rewrite Hg in Hok.
    destruct (h_end_ok 0 (st_hist σ) s x Hok Hx) as (h & E & Hok' & Hn). rewrite E in Hs. injection Hs as <-.
    apply (keeps_rest _ _ K); try done; [intros ? ?; cbn; by rewrite (nw_version _ _ Hn)|apply later_delete].
  - by apply (read_tracked σ t s c).
  - by apply (change_tracked σ t s c change fits).
  - by apply (visit_tracked σ t now).
Qed.

Lemma run_good g es : forall σ σ', good σ -> tracked σ -> run g σ es = Ok σ' -> good σ' /\ tracked σ'.
Proof using Type.
  intros σ σ' G K. apply (fold_res_inv (step g) (fun σ => good σ /\ tracked σ) es); [|done].
  intros s a s' _ [Gs Ks] Hs. split; [by apply (step_good g s a)|by apply (step_tracked g s a)].
Qed.

Lemma start_tracked clock h : tracked (start clock h first).
Proof using Type. 
  assert (forall s cs, ~ claims (start clock h first) s cs) as Hno by (intros s cs [(t & w & cm & Ht & _)|(T & S & ?%elem_of_nil)]; done).
  split; cbn; try done; [by intros s cs ?%Hno|by intros s cs c x ?%Hno|by intros s c x ?%elem_of_nil|by intros T S s cs ?%elem_of_nil
    |by intros T S s cs c st ?%elem_of_nil].
Qed.

(** A step takes one version at most. *)
Lemma step_clock g σ e σ' : step g σ e = Ok σ' -> st_clock σ <= st_clock σ' <= st_clock σ + 1.
Proof using Type.
  assert (forall t w cm c shared, take_lock σ t w cm c shared = Ok σ' -> st_clock σ' = st_clock σ) as H1 by (intros *; unfold take_lock; intros Hs; step_inv Hs; done).
  assert (forall ρ t s c p, copy_step ρ t s c p = Ok σ' -> st_clock σ' = st_clock ρ) as H2 by (intros *; unfold copy_step; intros Hs; step_inv Hs; done).
  assert (forall t w c st, put_state σ t w c st = Ok σ' -> st_clock σ' = st_clock σ) as H3 by (intros *; unfold put_state; intros Hs; step_inv Hs; done).
  intros Hs. destruct e; cbn [step] in Hs; unfold lock_step, commit_step, target_step, validate_step, version_step, count_step, write_step, apply_step,
    publish_step, rollback_step, release_step, reg_count_step, reg_version_step, reg_enter_step, end_step, read_step, change_step, visit_step, finish_read in Hs;
    repeat first [apply H1 in Hs|apply H2 in Hs; cbn in Hs|apply H3 in Hs|match type of Hs with
    | (_ ≫= _) = Ok _ => apply bind_ok in Hs as (? & _ & Hs)
    | Ok _ = Ok _ => injection Hs as <-
    | Err _ = Ok _ => discriminate Hs
    | context [match ?x with _ => _ end] => destruct x
    end]; cbn; try lia; repeat case_match; cbn; lia.
Qed.

End Invariant.

(** ** TxnHistory implements the interface *)

Section Implementation.
Import TxnHistory.
Context (overhead : Z).
#[local] Arguments Publish : simpl never.
#[local] Arguments RegisterCount : simpl never.
#[local] Arguments End_ : simpl never.
#[local] Arguments VisitAt : simpl never.
#[local] Arguments ValidateAndEnd : simpl never.

Definition kept_read (h : TxnHistory) (c : ChunkCoord) (v : Z) : option ChunkState :=
  match OldestAboveLocked h c v with Ok k => option_map kept_state k | Err _ => None end.

#[export] Instance txn_history_ops : HistoryOps TxnHistory := {|
  h_open := open_count;
  h_snaps := by_version;
  h_version h s := snap_version <$> snapshots h !! s;
  h_reads := kept_read;
  h_tags h c := it_tag <$> items_at h c;
  h_room h p st := bool_decide (nodes h !! p = None) && (0 <=? overhead) && (StateBytes overhead st + limit_bytes h <? 2 ^ 64);
  h_more h s := bool_decide (snapshots h !! s = None) && (open_count h + 1 <? 2 ^ 64);
  h_publish h now p c tag st := r ← Publish h now (Reserve overhead p c tag st); Ok r.1;
  h_count := RegisterCount;
  h_enter := RegisterPublish;
  h_end := End_;
  h_visit := VisitAt;
  h_validate := ValidateAndEnd
|}.

Lemma kept_read_above pending h c v : history_ok pending h -> kept_read h c v = it_state <$> above (items_at h c) v.
Proof using Type.
  intros Hok. destruct (ho_kept _ _ Hok) as [L K]. unfold kept_read. destruct (OldestAboveLocked_ok h L c v K) as (k & -> & <-).
  by destruct k.
Qed.

Lemma shrinks_narrows pending h h' : history_ok pending h -> history_ok pending h' -> shrinks h h' -> narrows h h'.
Proof using Type.
  intros Hok Hok' [S1 S2 S3 S4 S5 S6]. split; cbn; try done.
  - intros v s c Hin. rewrite (kept_read_above pending h) by done. rewrite (kept_read_above pending h') by done. by rewrite (S2 v s c Hin).
  - intros c t (it & -> & Hit)%list_elem_of_fmap. apply list_elem_of_fmap_2. by apply S3.
Qed.

Lemma snap_of h s v : snap_version <$> snapshots h !! s = Some v -> exists x, snapshots h !! s = Some x /\ snap_version x = v.
Proof using Type. destruct (snapshots h !! s) as [x|]; [|done]. intros [= <-]. by exists x. Qed.

#[export] Instance txn_history_laws : HistoryLaws TxnHistory.
Proof using Type.
  refine {| h_ok := history_ok |}; cbn.
  - intros pending h Hok. apply Hok.
  - intros pending h c v st Hok. rewrite (kept_read_above pending h) by done. destruct (above (items_at h c) v) as [it|] eqn:E; [|done].
    intros _. apply above_in in E as [Hin Hlt]. exists (it_tag it). split; [by apply list_elem_of_fmap_2|done].
  - intros pending h v s Hok Hin. apply (so_registered _ _ (ho_snaps _ _ Hok)) in Hin as (x & -> & _ & <-). done.
  - intros pending h now p c tag st Hok Hroom Htags. apply andb_true_iff in Hroom as [Hroom Hb]. apply andb_true_iff in Hroom as [Hp Ho].
    apply bool_decide_eq_true in Hp. unfold Reserve.
    edestruct (Publish_ok pending h now p) as (h' & r & -> & Hok' & Hpub & _); [done|exact Hp|apply StateBytes_nonneg; lia|cbn; lia| |].
    { cbn. intros it Hit. rewrite Forall_forall in Htags. apply Htags. by apply list_elem_of_fmap_2. }
    destruct Hpub as [P1 P2 P3 P4 P5 P6]. exists h'. split; [done|]. split; [done|]. split; [done|]. split; [|split; [|done]].
    + intros v s d Hin. rewrite (kept_read_above pending h') by done. rewrite !(kept_read_above pending h) by done. rewrite (P2 v s d Hin). cbn.
      case_decide; [|done]. destruct (above (items_at h d) v); [done|]. by destruct (v <? tag).
    + intros d t (it & -> & Hit)%list_elem_of_fmap. destruct (P3 d it Hit) as [Hold|[-> ->]]; [left; by apply list_elem_of_fmap_2|by right].
  - intros h now s Hok Hmore. apply andb_true_iff in Hmore as [Hs Hb]. apply bool_decide_eq_true in Hs.
    destruct (RegisterCount_ok h now Hok ltac:(lia)) as (h' & -> & Hok' & Hsh & _). exists h'. split; [done|]. split; [done|].
    rewrite (sr_snaps _ _ Hsh s), Hs. split; [|done]. destruct Hsh as [S1 S2 S3 S4 S5 S6]. split; cbn; try done.
    + intros v t c Hin. rewrite (kept_read_above 0 h), (kept_read_above 1 h') by done. by rewrite (S2 v t c Hin).
    + intros c t (it & -> & Hit)%list_elem_of_fmap. apply list_elem_of_fmap_2. by apply S3.
  - intros h s v d Hok Hs. assert (snapshots h !! s = None) as Hs' by (by destruct (snapshots h !! s)).
    destruct (RegisterPublish_ok h s v d Hok Hs') as (Hok' & Hp & _). split; [done|]. split; [intros e; by rewrite Hp, elem_of_cons|].
    split; [intros c w; by rewrite (kept_read_above 0 _ _ _ Hok'), (kept_read_above 1 h _ _ Hok)|]. split; [done|].
    intros t. rewrite lookup_insert. by case_decide; [rewrite decide_True by done|rewrite decide_False by done].
  - intros pending h s v Hok (x & Hx & _)%snap_of. destruct (End_ok pending h s x Hok Hx) as (h' & -> & Hok' & Hsh & _).
    exists h'. split; [done|]. split; [done|]. by apply (shrinks_narrows pending).
  - intros pending h now s v c Hok (x & Hx & <-)%snap_of. destruct (VisitAt_ok pending h now s x c Hok Hx) as (h' & r & -> & Hok' & Hsh & _ & Hr).
    exists h', r. split; [done|]. split; [done|]. split; [by apply (shrinks_narrows pending)|]. intros st ->.
    by rewrite (kept_read_above pending h).
  - intros pending h now s v cs Hok (x & Hx & <-)%snap_of.
    destruct (ValidateAndEnd_ok pending h now s x cs Hok Hx) as (h' & r & -> & Hok' & Hsh & _ & _ & Hr).
    exists h', r. split; [done|]. split; [done|]. split; [by apply (shrinks_narrows pending)|]. intros ->. destruct Hr as [H1 H2]. split; [done|].
    intros c Hc. rewrite (kept_read_above pending h) by done. by rewrite (H2 c Hc).
Defined.

End Implementation.

(** ** The theorems *)

(** The store of a table over its history, from a state at rest. *)
Definition run_store (g : Geometry) (overhead limit clock : Z) (first : ChunkCoord -> ChunkState) (es : list event) : res (store TxnHistory.TxnHistory) :=
  run (HistoryOps0 := txn_history_ops overhead) g (start clock (TxnHistory.MakeTxnHistory limit) first) es.

Lemma run_store_good g overhead limit clock first es σ : 1 <= clock -> 0 <= limit < 2 ^ 64 -> run_store g overhead limit clock first es = Ok σ ->
  good (HistoryOps0 := txn_history_ops overhead) first σ /\ tracked (HistoryOps0 := txn_history_ops overhead) σ.
Proof.
  intros Hc Hl. apply run_good; [|apply start_tracked]. apply start_good; try done.
  destruct (TxnHistory.reachable_ok overhead limit (TxnHistory.MakeTxnHistory limit) Hl) as [Hok _]; [apply TxnHistory.reach_start|exact Hok].
Qed.

(** The versions of a run that is not longer than the counter is wide: none wraps. *)
Lemma versions_fit g overhead limit clock first es σ : 1 <= clock -> clock + len es < 2 ^ 64 -> run_store g overhead limit clock first es = Ok σ ->
  in_u 64 (st_clock σ).
Proof.
  intros Hc Hlen Hr. assert (forall es ρ σ, run (HistoryOps0 := txn_history_ops overhead) g ρ es = Ok σ ->
    st_clock ρ <= st_clock σ <= st_clock ρ + len es) as Hrun.
  { clear. intros es. induction es as [|e es IH]; intros ρ σ H; [injection H as <-; cbn; lia|].
    apply bind_ok in H as (ρ' & H1 & H2). apply step_clock in H1. specialize (IH ρ' σ H2). cbn [length]. lia. }
  apply Hrun in Hr. cbn in Hr. unfold in_u. lia.
Qed.

(** C2: in any interleaving of writes, commits, rollbacks, registrations and reads, every read at a snapshot returns
    the chunk as of the snapshot's version: with exactly the writes that took a version up to it. *)
Theorem snapshot_isolation g overhead limit clock first es σ : 1 <= clock -> 0 <= limit < 2 ^ 64 ->
  run_store g overhead limit clock first es = Ok σ ->
  forall v c x, (v, c, x) ∈ st_reads σ -> x = as_of (first c) (st_log σ c) v.
Proof. intros Hc Hl Hr v c x Hx. by apply (g_reads _ _ (proj1 (run_store_good _ _ _ _ _ _ _ Hc Hl Hr))). Qed.


(** No reachable step follows a dangling pointer, runs out of fuel or throws: a step either is not enabled or is taken. *)
Theorem store_steps_safe g overhead limit clock first es σ : 1 <= clock -> 0 <= limit < 2 ^ 64 ->
  run_store g overhead limit clock first es = Ok σ ->
  forall e x, step (HistoryOps0 := txn_history_ops overhead) g σ e = Err x -> x = disabled.
Proof. intros Hc Hl Hr e x. apply step_safe with first. by apply (run_store_good g overhead limit clock first es). Qed.

(** ** An example run *)

Definition chunk_a : ChunkCoord := {| cx := 0; cy := 0 |}.
Definition chunk_b : ChunkCoord := {| cx := 1; cy := 0 |}.
Definition chunk_c : ChunkCoord := {| cx := 1; cy := 5 |}.

Definition state_at (version byte : Z) : ChunkState :=
  {| cs_version := version; cs_payload := byte :: zeros 19; cs_presence := [1; 0]; cs_vars := Vars.no_vars; cs_written := true |}.

Definition example_first (c : ChunkCoord) : ChunkState :=
  {| cs_version := 1; cs_payload := zeros 20; cs_presence := zeros 2; cs_vars := Vars.no_vars; cs_written := false |}.

(** SET BLOCK in a transaction, of block (5, 1) with BlockOps' example values. *)
Definition set_example_block (st : ChunkState) : res ChunkState :=
  s ← BlockOps.SetBlockInState BlockOps.example_table 1000
        {| TxnDiff.payload := cs_payload st; TxnDiff.presence := cs_presence st; TxnDiff.vars := cs_vars st |} 5 1 BlockOps.example_values;
  Ok {| cs_version := cs_version st; cs_payload := TxnDiff.payload s; cs_presence := TxnDiff.presence s; cs_vars := TxnDiff.vars s;
        cs_written := cs_written st |}.

(** Snapshot 0 at version 9, a write of chunk a with version 10 between the two
    halves of a read, and a transaction at snapshot 1 that reads a, sets a block
    of b and commits with version 12, after a write of chunk c took version 11. *)
Definition example_events : list event :=
  [ERegCount 0 0 100; ERegVersion; ERegEnter;
   ERead 2 0 chunk_a; EBegin 1; ELock 1 chunk_a; EVersion 1; ECount 1; EWrite 1 chunk_a (state_at 10 7); EPublish 1 1 0; ERelease 1;
   EVisit 2 2; ERegCount 3 1 100; ERegVersion; ERegEnter; ERead 2 1 chunk_a; EVisit 2 3;
   ERead 2 0 chunk_a; EVisit 2 3; EChange 2 1 chunk_b set_example_block true; EVisit 2 3;
   ECommit 3 4 1; ETarget 3; ETarget 3; EBegin 4; ELock 4 chunk_c; EVersion 4; ECount 4;
   EValidate 3 4; EVersion 3; EWrite 4 chunk_c (state_at 11 9); ECount 3; EApply 3 chunk_b; EPublish 4 4 2;
   EPublish 3 5 1; ERelease 4; ERelease 3; EEnd 0].

Definition example_store : store TxnHistory.TxnHistory :=
  Eval vm_compute in match run_store BlockOps.example_table 10 1000 10 example_first example_events with
                     | Ok σ => σ | Err _ => start 0 (TxnHistory.MakeTxnHistory 0) example_first end.

Lemma example_run : run_store BlockOps.example_table 10 1000 10 example_first example_events = Ok example_store.
Proof. vm_compute. reflexivity. Qed.

Lemma snapshot_isolation_witness :
  st_reads example_store = [(10, chunk_b, example_first chunk_b); (9, chunk_a, example_first chunk_a); (10, chunk_a, state_at 10 7); (9, chunk_a, example_first chunk_a)] /\
  forall v c x, (v, c, x) ∈ st_reads example_store -> x = as_of (example_first c) (st_log example_store c) v.
Proof.
  split; [vm_compute; reflexivity|]. apply (snapshot_isolation BlockOps.example_table 10 1000 10 example_first example_events); [lia|lia|apply example_run].
Defined.


Lemma store_steps_safe_witness : step (HistoryOps0 := txn_history_ops 10) BlockOps.example_table example_store (EVisit 2 6) = Err disabled.
Proof.
  destruct (step (HistoryOps0 := txn_history_ops 10) BlockOps.example_table example_store (EVisit 2 6)) as [σ|x] eqn:E; [vm_compute in E; discriminate|].
  f_equal. exact (store_steps_safe BlockOps.example_table 10 1000 10 example_first example_events example_store ltac:(lia) ltac:(lia) example_run (EVisit 2 6) x E).
Defined.

End Isolation.
