(* ===== verification/ChunkLoad.v ===== *)
(** * Loading a chunk (src/src/chunk_cache.cpp)

    A load reads the chunk's image, replays its WAL over it and brings the state
    to the table's schema version.  A writer cuts the tail a crash left; a
    read-only store stops at the boundary of a write that is not committed. *)
From stdpp Require Import prelude strings gmap sorting.
From Stdlib Require Import ZArith Lia.
From S2P Require Import Prelude Bits Vars Columns Schema Layout Geometry Features LittleEndian ChunkFormat WalFrame WalReplay Text Files TxnIntent ConditionalIntent TxnCommit TxnDiff.

#[local] Open Scope Z_scope.

Module ChunkLoad.
Import Schema Layout Geometry Features ChunkFormat WalFrame WalReplay Files TxnIntent TxnDiff.

Section Load.
Context (g : Geometry) (store_id : bytes) (features : FeatureFlags) (coord : ChunkCoord).

Record LoadedChunkPayload := {
  ld_payload : bytes;
  ld_presence_bitmap : bytes;
  ld_schema_version : Z;
  ld_revision : Z;
  ld_commit_time_ms : Z;
  ld_wal_bytes : Z;
  ld_deferred_wal_compaction : bool;
  ld_wal_header_written : bool;
  ld_vars : Vars.ChunkVars
}.

Definition EmptyPayload : bytes := zeros (ChunkPayloadBytes g).
Definition EmptyPresenceBitmap : bytes := zeros (ChunkPresenceBitmapBytes g).

Definition empty_load : LoadedChunkPayload :=
  {| ld_payload := EmptyPayload; ld_presence_bitmap := EmptyPresenceBitmap; ld_schema_version := 0; ld_revision := 0; ld_commit_time_ms := 0;
     ld_wal_bytes := 0; ld_deferred_wal_compaction := false; ld_wal_header_written := false; ld_vars := Vars.no_vars |}.

Definition LoadImage (data : bytes) : res LoadedChunkPayload :=
  image ← ParseChunkImage data g coord store_id features;
  Ok {| ld_payload := image_payload image; ld_presence_bitmap := image_presence image; ld_schema_version := image_schema_version image;
        ld_revision := image_revision image; ld_commit_time_ms := image_commit_time_ms image;
        ld_wal_bytes := 0; ld_deferred_wal_compaction := false; ld_wal_header_written := false; ld_vars := image_vars image |}.

Definition Replay_ (l : LoadedChunkPayload) (wal : bytes) : res Replayed :=
  ReplayWal wal g coord store_id features (ld_revision l) (ld_schema_version l) (ld_payload l) (ld_presence_bitmap l) (ld_vars l).

(** The load once ReplayWal has changed the state. *)
Definition after_replay (l : LoadedChunkPayload) (out : Replayed) : LoadedChunkPayload :=
  {| ld_payload := out_payload out; ld_presence_bitmap := out_presence out; ld_schema_version := version (schema_ (layout_ g));
     ld_revision := ld_revision l; ld_commit_time_ms := ld_commit_time_ms l; ld_wal_bytes := ld_wal_bytes l;
     ld_deferred_wal_compaction := ld_deferred_wal_compaction l; ld_wal_header_written := ld_wal_header_written l; ld_vars := out_vars out |}.

(** [if (replay.applied_frames > 0)]. *)
Definition with_revision (l : LoadedChunkPayload) (r : WalReplayResult) : LoadedChunkPayload :=
  if 0 <? applied_frames r then
    {| ld_payload := ld_payload l; ld_presence_bitmap := ld_presence_bitmap l; ld_schema_version := ld_schema_version l;
       ld_revision := revision r; ld_commit_time_ms := commit_time_ms r; ld_wal_bytes := ld_wal_bytes l;
       ld_deferred_wal_compaction := ld_deferred_wal_compaction l; ld_wal_header_written := ld_wal_header_written l; ld_vars := ld_vars l |}
  else l.

Definition with_wal (l : LoadedChunkPayload) (valid_end_ : Z) : LoadedChunkPayload :=
  {| ld_payload := ld_payload l; ld_presence_bitmap := ld_presence_bitmap l; ld_schema_version := ld_schema_version l;
     ld_revision := ld_revision l; ld_commit_time_ms := ld_commit_time_ms l; ld_wal_bytes := valid_end_;
     ld_deferred_wal_compaction := true; ld_wal_header_written := true; ld_vars := ld_vars l |}.

(** A writer's load of a WAL: the load, and the size TrimWalForAppend cuts the
    WAL to when there is something to cut. *)
Definition LoadWal (l : LoadedChunkPayload) (wal : bytes) : res (LoadedChunkPayload * option Z) :=
  out ← Replay_ l wal;
  let replay := out_result out in
  let l := after_replay l out in
  if torn_creation replay then Ok (l, Some 0)
  else
    _ ← throw_if (negb (replayable replay)) (runtime_error "WAL cannot be replayed");
    _ ← throw_if (tail_truncated_or_corrupt replay && negb (stopped_at_crash_tail replay)) (runtime_error "WAL is damaged before its end");
    _ ← throw_if (negb (bool_decide (vars_problem replay = ""%string))) (runtime_error "WAL leaves inconsistent text and bytes values");
    let l := with_revision l replay in
    Ok (with_wal l (valid_end replay), if tail_truncated_or_corrupt replay then Some (valid_end replay) else None).

(** What a read-only store reads of a chunk. *)
Record ReadOnlyChunkDiskSnapshot := {
  snap_image : option bytes;
  snap_wal : option bytes;
  snap_intent : option bytes;
  snap_txn_intents : list bytes
}.

(** The boundary of a write that is not committed. *)
Definition RollbackBoundary (s : ReadOnlyChunkDiskSnapshot) : res (option Z) :=
  conditional ← match snap_intent s with
                | None => Ok None
                | Some b =>
                    match ConditionalIntent.TryParseConditionalIntent b with
                    | None => Err (runtime_error "read-only chunk snapshot contains a malformed conditional intent")
                    | Some (ConditionalIntent.kRollback, size) => Ok (Some size)
                    | Some (ConditionalIntent.kCommitted, _) => Ok None
                    end
                end;
  txn_boundary ← TxnRollbackBoundaryForChunk (snap_txn_intents s) coord;
  Ok match conditional, txn_boundary with
     | Some a, Some b => Some (Z.min a b)
     | None, b => b
     | a, None => a
     end.

(** The bytes of the WAL that count. *)
Definition ReplayBytes (s : ReadOnlyChunkDiskSnapshot) (boundary : option Z) : res bytes :=
  match boundary with
  | None => Ok (default [] (snap_wal s))
  | Some size =>
      match snap_wal s with
      | None => _ ← throw_if (negb (size =? 0)) (runtime_error "read-only chunk snapshot is missing the WAL required by CKRB boundary"); Ok []
      | Some wal => _ ← throw_if (len wal <? size) (runtime_error "read-only chunk snapshot WAL is shorter than CKRB boundary"); Ok (take (Z.to_nat size) wal)
      end
  end.

(** A committed record that is not a rollback boundary still sets
    committed_wal_size, which bounds where a crash tail may start. *)
Definition committed_wal_size (s : ReadOnlyChunkDiskSnapshot) (boundary : option Z) : Z :=
  match boundary with
  | Some size => size
  | None => match snap_intent s with
            | Some b => match ConditionalIntent.TryParseConditionalIntent b with Some (_, size) => size | None => 0 end
            | None => 0
            end
  end.

(** [still_on_disk]: RequireStoreStillOnDisk. *)
Definition LoadSnapshot (still_on_disk : res unit) (s : ReadOnlyChunkDiskSnapshot) : res LoadedChunkPayload :=
  _ ← (match snap_image s, snap_wal s with None, None => still_on_disk | _, _ => Ok tt end);
  l ← (match snap_image s with Some data => LoadImage data | None => Ok empty_load end);
  boundary ← RollbackBoundary s;
  replay_bytes ← ReplayBytes s boundary;
  if bool_decide (replay_bytes = []) then Ok l
  else
    out ← Replay_ l replay_bytes;
    let replay := out_result out in
    let l := after_replay l out in
    if torn_creation replay then
      _ ← (match snap_image s with None => still_on_disk | Some _ => Ok tt end);
      Ok l
    else
      let crash_tail := stopped_at_crash_tail replay && (committed_wal_size s boundary <=? valid_end replay) in
      _ ← throw_if (negb (replayable replay) || (tail_truncated_or_corrupt replay && negb crash_tail)) (runtime_error "read-only chunk snapshot rejected WAL");
      _ ← throw_if (negb (bool_decide (vars_problem replay = ""%string))) (runtime_error "read-only chunk snapshot has inconsistent text and bytes values");
      Ok (with_revision l replay).

(** GetOrLoadRegularChunk brings the load to the current schema version. *)
Definition LoadedState (l : LoadedChunkPayload) : res State :=
  '(payload, vars) ← BringToCurrentSchema g (ld_schema_version l) (ld_presence_bitmap l) (ld_payload l) (ld_vars l);
  Ok {| payload := payload; presence := ld_presence_bitmap l; vars := vars |}.

(** The load of a writer, from the bytes of the files. *)
Definition LoadBytes (image wal : option bytes) : res (State * option Z) :=
  l ← (match image with Some data => LoadImage data | None => Ok empty_load end);
  '(l, trim) ← (match wal with Some b => LoadWal l b | None => Ok (l, None) end);
  s ← LoadedState l;
  Ok (s, trim).

(** The load of a read-only store. *)
Definition ReadOnlyState (still_on_disk : res unit) (s : ReadOnlyChunkDiskSnapshot) : res State :=
  l ← LoadSnapshot still_on_disk s; LoadedState l.

(** ** A load of files *)

Section Files.
Context (data_dir : bytes) (current_pid : Z) (IsProcessAlive : Z -> bool) (TmpArtifactAgeMs : path -> Z) (strict : bool) (tmp : bytes).

Abbreviation data_path := (ChunkDataPath data_dir g coord).
Abbreviation wal_path := (ChunkWalPath data_dir g coord).

(** [strict]: the table is not relaxed, or its barrier floor is up. *)
Definition TrimWalForAppend (keep_bytes : Z) : io unit :=
  _ ← may_fail (runtime_error "snapshot generation");
  _ ← (if keep_bytes =? 0 then checked (remove wal_path) (runtime_error "failed to trim WAL before appending")
       else _ ← ResizeWalPreservingLinks (BuildAtomicTmpPath wal_path tmp) wal_path keep_bytes strict; mret tt);
  _ ← (if negb strict then mret tt
       else if keep_bytes =? 0 then SyncDirectoryPath (parent_path wal_path)
       else SyncFilePath wal_path);
  may_fail (runtime_error "snapshot generation").

Definition LoadChunkPayload : io LoadedChunkPayload :=
  _ ← CleanupAtomicTmpArtifacts current_pid IsProcessAlive TmpArtifactAgeMs data_path;
  present ← exists_ data_path (runtime_error "filesystem error");
  l ← (if present : bool then
         r ← attempt (data ← LoadFile data_path; TxnCommit.lift (LoadImage data));
         match r with
         | inl l => mret l
         | inr e => present ← exists_ data_path (runtime_error "filesystem error"); if present : bool then throw e else mret empty_load
         end
       else mret empty_load);
  present ← exists_ wal_path (runtime_error "filesystem error");
  if negb present then mret l
  else
    r ← attempt (LoadFile wal_path);
    match r with
    | inr e => present ← exists_ wal_path (runtime_error "filesystem error"); if present : bool then throw e else mret l
    | inl wal =>
        '(l, trim) ← TxnCommit.lift (LoadWal l wal);
        _ ← (match trim with Some keep => TrimWalForAppend keep | None => mret tt end);
        mret l
    end.

End Files.

End Load.

(** ** What a read-only store reads *)

Definition name_le (a b : bytes) : Prop := Is_true (TxnCommit.lex_le a b).
#[global] Instance name_le_dec : RelDecision name_le.
Proof. intros a b. unfold name_le. apply _. Defined.

(** The pending transaction intents of the directory, in name order. *)
Definition intents_of (intent_dir : bytes) (d : disk) : list bytes :=
  omap (fun n => content d (intent_dir, n)) (merge_sort name_le (filter (fun n => Is_true (IsTxnIntentFileName n)) (listing intent_dir d))).

(** The files of a chunk on one disk. *)
Definition snapshot_of (data_path wal_path intent_path : path) (intent_dir : bytes) (d : disk) : ReadOnlyChunkDiskSnapshot :=
  {| snap_image := content d data_path; snap_wal := content d wal_path; snap_intent := content d intent_path;
     snap_txn_intents := intents_of intent_dir d |}.

(** ** What a load finds *)

Section Logged.
Context (g : Geometry) (store_id : bytes) (features : FeatureFlags) (coord : ChunkCoord).
Hypothesis Hg : geometry_ok g.

Abbreviation V := (version (schema_ (layout_ g))).

Definition image_load (image : option bytes) (l : LoadedChunkPayload) : Prop :=
  match image with
  | Some data => bytes_ok data /\ LoadImage g store_id features coord data = Ok l
  | None => l = empty_load g
  end.

(** The chunk that an image and the frames of a log above it give. *)
Definition logged (image : option bytes) (fs : list frame_t) (s : State) : Prop :=
  exists l c, image_load image l /\ Forall (fits g (slots_enabled features)) fs /\ revisions_from 0 fs /\
    run_log g (ld_presence_bitmap l) (ld_revision l) (base_chunk (ld_schema_version l) (ld_payload l) (ld_presence_bitmap l) (ld_vars l)) fs = Ok c /\
    settle g (ld_presence_bitmap l) c = Ok (payload s, presence s, vars s).

Lemma version_pos : 1 <= V.
Proof.
  pose proof (lo_schema _ (go_layout _ Hg)) as H. apply (ValidateTableSchema_ok _ (lo_version _ (go_layout _ Hg))) in H as (_ & ? & _). lia.
Qed.

Record base_facts (l : LoadedChunkPayload) : Prop := {
  bf_ok : base_ok g (ld_schema_version l) (ld_payload l) (ld_presence_bitmap l);
  bf_presence : len (ld_presence_bitmap l) = ChunkPresenceBitmapBytes g /\ MaskUnusedPresenceBits g (ld_presence_bitmap l) = ld_presence_bitmap l;
  bf_empty : ld_schema_version l = 0 -> ld_vars l = Vars.no_vars
}.

Lemma image_facts image l : image_load image l -> base_facts l.
Proof.
  destruct image as [data|]; cbn [image_load].
  - intros [Hb H]. unfold LoadImage in H. apply bind_ok in H as (img & Hp & [= <-]).
    destruct (ParseChunkImage_sound data g coord store_id features img Hg Hb Hp) as (la & L1 & _ & L2 & L3 & _ & L4 & L5 & L6 & _). constructor; cbn.
    + split; [lia|]. intros _. by exists la.
    + split; [done|]. by apply mask_clear.
    + lia.
  - intros ->. destruct (geometry_sizes g Hg) as [_ Sb]. assert (len (EmptyPresenceBitmap g) = ChunkPresenceBitmapBytes g) as Le by (apply len_zeros; lia).
    constructor; cbn; [|split; [done|]|done].
    + split; [pose proof version_pos; lia|done].
    + apply mask_clear; [done|apply bytes_ok_zeros|done|]. intros. apply bit_at_zeros.
Qed.

Lemma split_state p pr vs s : len pr = ChunkPresenceBitmapBytes g -> MaskUnusedPresenceBits g pr = pr ->
  ('(payload, presence) ← SplitChunkStateBytes g (p ++ pr); Ok (payload, presence, vs)) = Ok (payload s, presence s, vars s) ->
  s = {| payload := p; presence := pr; vars := vs |}.
Proof.
  intros L M E. apply bind_ok in E as ([p1 pr1] & Hs & E). injection E as -> -> E3. pose proof Hs as Hs'. unfold SplitChunkStateBytes in Hs'.
  apply bind_ok in Hs' as (u & Hu & _). destruct (Z.eqb_spec (len (p ++ pr)) (ChunkPayloadBytes g + ChunkPresenceBitmapBytes g)) as [El|]; [|done].
  rewrite length_app in El. rewrite SplitChunkStateBytes_ok in Hs by lia. injection Hs as E1 E2. destruct s. cbn in *. congruence.
Qed.

(** A chunk without frames is settled as the load brings it to the current version. *)
Lemma LoadedState_settled l s : base_facts l ->
  settle g (ld_presence_bitmap l) (base_chunk (ld_schema_version l) (ld_payload l) (ld_presence_bitmap l) (ld_vars l)) = Ok (payload s, presence s, vars s) ->
  LoadedState g l = Ok s.
Proof.
  intros [[Hv Hb] [Lp Mp] He] H. unfold settle, base_chunk in H. unfold LoadedState, BringToCurrentSchema. pose proof version_pos as HV.
  assert (LayoutFresh g V = Ok (layout_ g)) as HL by (unfold LayoutFresh; by rewrite Z.eqb_refl).
  apply bind_ok in H as ([state vs] & Hm & H). destruct (Z.eqb_spec (ld_schema_version l) 0) as [E0|E0].
  - rewrite E0, (proj2 (Z.eqb_neq 0 V)) in Hm by lia. cbn [negb] in Hm. unfold MoveStateTo in Hm. rewrite HL, bind_Ok_l in Hm. injection Hm as <- <-.
    rewrite bind_Ok_l, (split_state _ _ _ _ Lp Mp H), (He E0). done.
  - destruct (Hb E0) as (la & Hla & L1 & _). destruct (Z.eqb_spec (ld_schema_version l) V) as [E|E]; cbn [negb] in Hm.
    + injection Hm as <- <-. rewrite E, Z.sub_diag. change (Z.to_nat 0) with 0%nat. cbn [BringForward]. rewrite bind_Ok_l. by rewrite (split_state _ _ _ _ Lp Mp H).
    + unfold MoveStateTo in Hm. rewrite HL, bind_Ok_l, (proj2 (Z.eqb_neq _ _)), Hla, bind_Ok_l in Hm by done. cbv zeta in Hm.
      rewrite take_app_length', drop_app_length' in Hm by lia. apply bind_ok in Hm as ([p1 vs1] & Hf & [= <- <-]). rewrite Hf, bind_Ok_l.
      by rewrite (split_state _ _ _ _ Lp Mp H).
Qed.

Lemma VarsProblem_none s : state_ok g s -> VarsProblem g (vars s) (presence s) = Ok ""%string.
Proof. intros [_ _ [_ Hs] Hv _]. unfold VarsProblem. by rewrite (proj2 (Z.ltb_ge _ _)), Hv by done. Qed.

Lemma LoadedState_current l p pr vs : ld_payload l = p -> ld_presence_bitmap l = pr -> ld_vars l = vs -> ld_schema_version l = V ->
  LoadedState g l = Ok {| payload := p; presence := pr; vars := vs |}.
Proof.
  intros <- <- <- E. unfold LoadedState, BringToCurrentSchema. pose proof version_pos. rewrite E, (proj2 (Z.eqb_neq _ _)), Z.sub_diag by lia. done.
Qed.

(** The load of a log: the state it gives, with the torn tail to cut. *)
Lemma load_logged i image fs torn s : id_ok i features -> id_coord i = coord -> id_store i = store_id -> logged image fs s -> state_ok g s -> torn_part torn ->
  LoadBytes g store_id features coord image (Some (wal_bytes i fs torn)) =
  Ok (s, if bool_decide (torn = []) then None else Some (kWalHeaderSize + len (concat (frame_bytes <$> fs)))).
Proof.
  intros Hi Ec Es (l & c & Hl & Hf & Hr & Hrun & Hset) Hs Ht. pose proof (image_facts _ _ Hl) as [Hb _ _]. unfold LoadBytes.
  assert (match image with Some data => LoadImage g store_id features coord data | None => Ok (empty_load g) end = Ok l) as -> by (destruct image; [apply Hl|by rewrite Hl]).
  rewrite bind_Ok_l. unfold LoadWal, Replay_. rewrite <- Ec, <- Es.
  destruct (replay_log g i features _ _ _ _ _ fs torn c _ _ _ Hg Hi Hb Hf Hr Ht Hrun Hset) as (out & -> & P1 & P2 & P3 & _ & R1 & R2 & R3 & R4 & R5 & R6 & R7 & R8 & R9).
  rewrite bind_Ok_l. cbv zeta. rewrite R8, R5, R6, R7. cbn [negb throw_if]. rewrite bind_Ok_l.
  rewrite VarsProblem_none in R9 by done. injection R9 as R9. rewrite <- R9, (bool_decide_true (""%string = ""%string)) by done. cbn [negb].
  assert (forall b : bool, b && negb b = false) as -> by (by intros []). cbn [throw_if]. rewrite !bind_Ok_l.
  assert (ld_schema_version (with_wal (with_revision (after_replay g l out) (out_result out)) (valid_end (out_result out))) = V) as Ev
    by (unfold with_wal, with_revision; by destruct (0 <? _)).
  rewrite (LoadedState_current _ (payload s) (presence s) (vars s)); [|unfold with_wal, with_revision; by destruct (0 <? _)..|done].
  rewrite bind_Ok_l. rewrite R1. destruct s. by case_bool_decide.
Qed.

(** Without a WAL, and with one that was only created. *)
Lemma load_absent image s : logged image [] s -> LoadBytes g store_id features coord image None = Ok (s, None) /\
  LoadBytes g store_id features coord image (Some []) = Ok (s, Some 0).
Proof.
  intros (l & c & Hl & _ & _ & Hrun & Hset). pose proof (image_facts _ _ Hl) as Hb. injection Hrun as <-. unfold LoadBytes.
  assert (match image with Some data => LoadImage g store_id features coord data | None => Ok (empty_load g) end = Ok l) as -> by (destruct image; [apply Hl|by rewrite Hl]).
  pose proof (LoadedState_settled l s Hb Hset) as HL. rewrite !bind_Ok_l. split; [by rewrite HL|].
  unfold LoadWal, Replay_, ReplayWal. cbv zeta. change (len [] <? kWalHeaderSize) with true. cbv iota.
  unfold LoadedState in HL. apply bind_ok in HL as ([p vs] & HL & E). rewrite HL, bind_Ok_l. injection E as <-.
  assert (IsInterruptedCreation [] coord store_id = true) as -> by (unfold IsInterruptedCreation; by rewrite drop_nil). rewrite bind_Ok_l. cbn [out_result set_stop torn_creation after_replay].
  rewrite bind_Ok_l. by rewrite (LoadedState_current _ p (ld_presence_bitmap l) vs).
Qed.

(** A read-only store loads what the bytes before the boundary give. *)
Lemma snapshot_logged i snap boundary fs s : id_ok i features -> id_coord i = coord -> id_store i = store_id ->
  RollbackBoundary coord snap = Ok boundary -> ReplayBytes snap boundary = Ok (wal_bytes i fs []) -> is_Some (snap_wal snap) ->
  logged (snap_image snap) fs s -> state_ok g s -> forall still, ReadOnlyState g store_id features coord still snap = Ok s.
Proof.
  intros Hi Ec Es Hb Hw [w Hw'] (l & c & Hl & Hf & Hr & Hrun & Hset) Hs still. pose proof (image_facts _ _ Hl) as [Hbf _ _]. unfold ReadOnlyState, LoadSnapshot.
  assert (match snap_image snap with Some data => LoadImage g store_id features coord data | None => Ok (empty_load g) end = Ok l) as -> by (destruct (snap_image snap); [apply Hl|by rewrite Hl]).
  assert (match snap_image snap, snap_wal snap with None, None => still | _, _ => Ok tt end = Ok tt) as -> by (rewrite Hw'; by destruct (snap_image snap)).
  rewrite !bind_Ok_l, Hb, bind_Ok_l, Hw, bind_Ok_l. rewrite bool_decide_false.
  2: { intros E. apply (f_equal length) in E. unfold wal_bytes in E. rewrite length_app in E. pose proof (len_wal_header coord store_id (id_features i)) as L.
       unfold wal_header in E. rewrite Ec, Es in E. rewrite <- Es in L. destruct Hi as (_ & L16 & _). specialize (L L16). rewrite Es in L. unfold kWalHeaderSize in L. cbn in E. lia. }
  unfold Replay_. rewrite <- Ec, <- Es.
  destruct (replay_log g i features _ _ _ _ _ fs [] c _ _ _ Hg Hi Hbf Hf Hr torn_nothing Hrun Hset) as (out & -> & P1 & P2 & P3 & _ & R1 & R2 & R3 & R4 & R5 & R6 & R7 & R8 & R9).
  rewrite bind_Ok_l. cbv zeta. rewrite R8, R5, R6, (bool_decide_true ([] = [])) by done. cbn [negb orb andb throw_if]. rewrite bind_Ok_l.
  rewrite VarsProblem_none in R9 by done. injection R9 as R9. rewrite <- R9, (bool_decide_true (""%string = ""%string)) by done. cbn [negb throw_if]. rewrite !bind_Ok_l.
  rewrite (LoadedState_current _ (payload s) (presence s) (vars s)); [by destruct s|unfold with_revision; by destruct (0 <? _)..].
Qed.

Lemma snapshot_absent snap boundary s : RollbackBoundary coord snap = Ok boundary -> ReplayBytes snap boundary = Ok [] -> logged (snap_image snap) [] s ->
  ReadOnlyState g store_id features coord (Ok tt) snap = Ok s.
Proof.
  intros Hb Hw (l & c & Hl & _ & _ & Hrun & Hset). pose proof (image_facts _ _ Hl) as Hbf. injection Hrun as <-. unfold ReadOnlyState, LoadSnapshot.
  assert (match snap_image snap with Some data => LoadImage g store_id features coord data | None => Ok (empty_load g) end = Ok l) as -> by (destruct (snap_image snap); [apply Hl|by rewrite Hl]).
  assert (match snap_image snap, snap_wal snap with None, None => Ok tt | _, _ => Ok tt end = Ok tt) as -> by (by destruct (snap_image snap), (snap_wal snap)).
  rewrite !bind_Ok_l, Hb, bind_Ok_l, Hw, bind_Ok_l, bool_decide_true, bind_Ok_l by done. exact (LoadedState_settled l s Hbf Hset).
Qed.

End Logged.

End ChunkLoad.
