(* ===== verification/SnapshotGeneration.v ===== *)
(** * Reading the files of a running writer (src/src/snapshot_generation.cpp)

    A read-only store reads the files of a table that another process writes.
    The writer brackets every change of the files by the live generation, a
    64-bit counter both processes map: the first of the brackets that are open
    makes it odd, the last that finishes makes it even with the next epoch, and
    a bracket that is abandoned leaves it odd for good.  The reader reads the
    generation, collects the files one call after the other, reads the
    generation again, and takes the collection only when both were the same even
    number; else it tries again, within a bounded budget.

    Between two calls of the reader the writer takes any number of steps.  The
    theorems: a collection that was taken is what the files were at one moment
    at which no bracket was open, and the loop of attempts ends.

    One session of a writer is modelled: the record of the session, which opening
    and closing a table replace, stays. *)
From stdpp Require Import prelude strings gmap sorting.
From Stdlib Require Import ZArith Lia.
From S2P Require Import Prelude Crc32 Geometry LittleEndian Files TxnIntent TxnCommit ChunkLoad.

#[local] Open Scope Z_scope.

Module SnapshotGeneration.
Import LittleEndian Files TxnIntent ChunkLoad.

(** ** The counter *)

Definition kGenerationOdd : Z := 1.
Definition kGenerationFailed : Z := 2.
Definition kGenerationCountOne : Z := 4.
Definition kGenerationEpochStep : Z := 2 ^ 18.
Definition kGenerationCountMask : Z := kGenerationEpochStep - 4.

Definition has (state flags : Z) : bool := negb (Z.land state flags =? 0).

(** The value of the exchange that succeeds, or what is thrown before it. *)
Definition BeginSnapshotGenerationWrite (current : Z) : res Z :=
  _ ← throw_if (has current kGenerationFailed || (has current kGenerationOdd && (Z.land current kGenerationCountMask =? 0)))
        (runtime_error "snapshot generation is unresolved");
  _ ← throw_if ((Z.land current kGenerationCountMask =? kGenerationCountMask) || (2 ^ 64 - 1 - kGenerationEpochStep <? current))
        (overflow_error "snapshot generation exhausted; refusing to wrap");
  Ok (Z.lor (u64 (current + kGenerationCountOne)) kGenerationOdd).

(** The counter afterwards, and what the caller gets. *)
Definition FinishSnapshotGenerationWrite (current : Z) : Z * res unit :=
  if Z.land current kGenerationCountMask =? 0 then (current, Err (logic_error "snapshot generation active-writer underflow"))
  else
    let last := Z.land current kGenerationCountMask =? kGenerationCountOne in
    let failed := has current kGenerationFailed in
    let desired := u64 (current - kGenerationCountOne) in
    let desired := if last && negb failed then Z.land (u64 (desired + kGenerationEpochStep)) (Z.lnot kGenerationOdd) else desired in
    (desired, if last && failed then Err (runtime_error "a concurrent snapshot transition failed") else Ok tt).

Definition AbandonSnapshotGenerationWrite (fail_epoch : bool) (current : Z) : Z :=
  let desired := if fail_epoch then Z.lor current (Z.lor kGenerationFailed kGenerationOdd) else current in
  if has current kGenerationCountMask then u64 (desired - kGenerationCountOne) else desired.

(** *** The fields of a counter: the epoch, the open brackets, failed, odd *)

Definition pack (e n f o : Z) : Z := e * 262144 + n * 4 + f * 2 + o.

Definition fields (e n f o : Z) : Prop := 0 <= e < 2 ^ 46 /\ 0 <= n < 2 ^ 16 /\ 0 <= f <= 1 /\ 0 <= o <= 1.

Lemma land_shift c m k : 0 <= k -> Z.land c (Z.shiftl m k) = Z.shiftl (Z.land (Z.shiftr c k) m) k.
Proof.
  intros Hk. apply Z.bits_inj'. intros i Hi. rewrite Z.land_spec, !Z.shiftl_spec, Z.land_spec by done. destruct (Z.ltb_spec i k).
  - rewrite !(Z.testbit_neg_r _ (i - k)) by lia. by rewrite andb_false_r.
  - rewrite Z.shiftr_spec by lia. by replace (i - k + k) with i by lia.
Qed.

Lemma lor_ones c k : 0 <= k -> Z.lor c (Z.ones k) = 2 ^ k * (c / 2 ^ k) + Z.ones k.
Proof.
  intros Hk. assert (Z.lor c (Z.ones k) = Z.lor (Z.ldiff c (Z.ones k)) (Z.ones k)) as ->.
  { apply Z.bits_inj'. intros i Hi. rewrite !Z.lor_spec, Z.ldiff_spec. by destruct (Z.testbit c i), (Z.testbit (Z.ones k) i). }
  rewrite <- Z.add_nocarry_lor by apply Z.land_ldiff. f_equal. rewrite Z.ldiff_ones_r, Z.shiftl_mul_pow2, Z.shiftr_div_pow2 by done. lia.
Qed.

Section Fields.
Context (e n f o : Z) (F : fields e n f o).

Lemma pack_odd : has (pack e n f o) kGenerationOdd = (o =? 1).
Proof using F.
  unfold has, pack. change kGenerationOdd with (Z.ones 1). rewrite Z.land_ones by lia. destruct F as (_ & _ & _ & Ho).
  replace ((e * 262144 + n * 4 + f * 2 + o) mod 2 ^ 1) with o by (apply (Z.mod_unique_pos _ _ (e * 131072 + n * 2 + f)); lia).
  destruct (Z.eqb_spec o 0), (Z.eqb_spec o 1); try done; lia.
Qed.

Lemma pack_failed : has (pack e n f o) kGenerationFailed = (f =? 1).
Proof using F.
  unfold has, pack. change kGenerationFailed with (Z.shiftl (Z.ones 1) 1). rewrite land_shift, Z.land_ones, Z.shiftr_div_pow2, Z.shiftl_mul_pow2 by lia.
  destruct F as (_ & _ & Hf & Ho). change (2 ^ 1) with 2.
  replace ((e * 262144 + n * 4 + f * 2 + o) / 2) with (e * 131072 + n * 2 + f) by (apply (Z.div_unique_pos _ _ _ o); lia).
  replace ((e * 131072 + n * 2 + f) mod 2) with f by (apply (Z.mod_unique_pos _ _ (e * 65536 + n)); lia).
  destruct (Z.eqb_spec (f * 2) 0), (Z.eqb_spec f 1); try done; lia.
Qed.

Lemma pack_count : Z.land (pack e n f o) kGenerationCountMask = n * 4.
Proof using F.
  change kGenerationCountMask with (Z.shiftl (Z.ones 16) 2). rewrite land_shift, Z.land_ones, Z.shiftr_div_pow2, Z.shiftl_mul_pow2 by lia.
  destruct F as (_ & Hn & Hf & Ho). unfold pack. change (2 ^ 2) with 4. f_equal.
  replace ((e * 262144 + n * 4 + f * 2 + o) / 4) with (e * 65536 + n) by (apply (Z.div_unique_pos _ _ _ (f * 2 + o)); lia).
  symmetry. apply (Z.mod_unique_pos _ _ e); lia.
Qed.

Lemma pack_set_odd : Z.lor (pack e n f o) kGenerationOdd = pack e n f 1.
Proof using F.
  change kGenerationOdd with (Z.ones 1). rewrite lor_ones by lia. destruct F as (_ & _ & _ & Ho). unfold pack. change (2 ^ 1) with 2. change (Z.ones 1) with 1.
  replace ((e * 262144 + n * 4 + f * 2 + o) / 2) with (e * 131072 + n * 2 + f) by (apply (Z.div_unique_pos _ _ _ o); lia). lia.
Qed.

Lemma pack_fail : Z.lor (pack e n f o) (Z.lor kGenerationFailed kGenerationOdd) = pack e n 1 1.
Proof using F.
  change (Z.lor kGenerationFailed kGenerationOdd) with (Z.ones 2). rewrite lor_ones by lia. destruct F as (_ & _ & Hf & Ho). unfold pack.
  change (2 ^ 2) with 4. change (Z.ones 2) with 3.
  replace ((e * 262144 + n * 4 + f * 2 + o) / 4) with (e * 65536 + n) by (apply (Z.div_unique_pos _ _ _ (f * 2 + o)); lia). lia.
Qed.

Lemma pack_clear_odd : Z.land (pack e n f o) (Z.lnot kGenerationOdd) = pack e n f 0.
Proof using F.
  rewrite <- Z.ldiff_land. change kGenerationOdd with (Z.ones 1). rewrite Z.ldiff_ones_r, Z.shiftl_mul_pow2, Z.shiftr_div_pow2 by lia.
  destruct F as (_ & _ & _ & Ho). unfold pack. change (2 ^ 1) with 2.
  replace ((e * 262144 + n * 4 + f * 2 + o) / 2) with (e * 131072 + n * 2 + f) by (apply (Z.div_unique_pos _ _ _ o); lia). lia.
Qed.

Lemma pack_range : 0 <= pack e n f o < 2 ^ 64.
Proof using F. destruct F as (He & Hn & Hf & Ho). unfold pack. lia. Qed.

End Fields.

Lemma pack_inj e n f o e' n' f' o' : fields e n f o -> fields e' n' f' o' -> pack e n f o = pack e' n' f' o' -> e = e' /\ n = n' /\ f = f' /\ o = o'.
Proof. unfold fields, pack. lia. Qed.

Lemma u64_pack e n f o x : fields e n f o -> x = pack e n f o -> u64 x = pack e n f o.
Proof. intros F ->. apply wrap_small. exact (pack_range _ _ _ _ F). Qed.

Lemma Begin_pack e n f o c : fields e n f o -> BeginSnapshotGenerationWrite (pack e n f o) = Ok c ->
  f = 0 /\ n < 2 ^ 16 - 1 /\ e <= 2 ^ 46 - 2 /\ c = pack e (n + 1) 0 1.
Proof.
  intros F H. unfold BeginSnapshotGenerationWrite in H. rewrite (pack_odd _ _ _ _ F), (pack_failed _ _ _ _ F), (pack_count _ _ _ _ F) in H. res_inv.
  destruct F as (He & Hn & Hf & Ho). apply orb_false_iff in Hs as [Hs _], Hs0 as [Hs0 Hs1]. apply Z.eqb_neq in Hs, Hs0. apply Z.ltb_ge in Hs1.
  assert (f = 0) as -> by lia. assert (n < 2 ^ 16 - 1) by (unfold kGenerationCountMask, kGenerationEpochStep in Hs0; lia).
  assert (e <= 2 ^ 46 - 2) by (unfold kGenerationEpochStep, pack in Hs1; lia). split; [done|]. split; [done|]. split; [done|]. subst c.
  assert (fields e (n + 1) 0 o) as F' by (unfold fields; lia). rewrite (u64_pack e (n + 1) 0 o); [by apply pack_set_odd|done|unfold pack, kGenerationCountOne; lia].
Qed.

Lemma Finish_pack e n f o : fields e n f o -> 0 < n -> e <= 2 ^ 46 - 2 ->
  (FinishSnapshotGenerationWrite (pack e n f o)).1 = if (n =? 1) && (f =? 0) then pack (e + 1) 0 0 0 else pack e (n - 1) f o.
Proof.
  intros F Hn He. unfold FinishSnapshotGenerationWrite. rewrite (pack_failed _ _ _ _ F), (pack_count _ _ _ _ F).
  destruct F as (He' & Hn' & Hf & Ho). rewrite (proj2 (Z.eqb_neq (n * 4) 0)) by lia. cbn [fst].
  assert (fields e (n - 1) f o) as F' by (unfold fields; lia). rewrite (u64_pack e (n - 1) f o (pack e n f o - kGenerationCountOne)) by (done || (unfold pack, kGenerationCountOne; lia)).
  replace (n * 4 =? kGenerationCountOne) with (n =? 1) by (unfold kGenerationCountOne; destruct (Z.eqb_spec n 1), (Z.eqb_spec (n * 4) 4); try done; lia).
  replace (negb (f =? 1)) with (f =? 0) by (destruct (Z.eqb_spec f 0), (Z.eqb_spec f 1); try done; lia).
  destruct (Z.eqb_spec n 1), (Z.eqb_spec f 0); cbn [andb]; try done. subst.
  assert (fields (e + 1) 0 0 o) as F2 by (unfold fields; lia). rewrite (u64_pack (e + 1) 0 0 o); [by apply pack_clear_odd|done|].
  unfold pack, kGenerationEpochStep. lia.
Qed.

Lemma Abandon_pack e n f o b : fields e n f o -> 0 < n ->
  AbandonSnapshotGenerationWrite b (pack e n f o) = pack e (n - 1) (if b then 1 else f) (if b then 1 else o).
Proof.
  intros F Hn. unfold AbandonSnapshotGenerationWrite, has. rewrite (pack_count _ _ _ _ F), (pack_fail _ _ _ _ F).
  destruct F as (He' & Hn' & Hf & Ho). rewrite (proj2 (Z.eqb_neq (n * 4) 0)) by lia. cbn [negb].
  destruct b; apply u64_pack; unfold fields, pack, kGenerationCountOne; lia.
Qed.

(** ** The writer *)

(** The files, the session and the counter of the live mapping, the brackets that
    are open, and whether the writer's process is there and holds its lease. *)
Record world := { wd_disk : disk; wd_session : Z; wd_counter : Z; wd_active : Z; wd_alive : bool }.

Definition counted (w : world) (counter active : Z) : world :=
  {| wd_disk := wd_disk w; wd_session := wd_session w; wd_counter := counter; wd_active := active; wd_alive := wd_alive w |}.

(** A change of the files comes inside a bracket.  Only a bracket inside another
    one is abandoned without failing the epoch. *)
Inductive wstep : world -> world -> Prop :=
| w_begin w c : wd_alive w = true -> BeginSnapshotGenerationWrite (wd_counter w) = Ok c -> wstep w (counted w c (wd_active w + 1))
| w_change w d : wd_alive w = true -> 0 < wd_active w ->
    wstep w {| wd_disk := d; wd_session := wd_session w; wd_counter := wd_counter w; wd_active := wd_active w; wd_alive := true |}
| w_finish w : wd_alive w = true -> 0 < wd_active w -> wstep w (counted w (FinishSnapshotGenerationWrite (wd_counter w)).1 (wd_active w - 1))
| w_abandon w fail_epoch : wd_alive w = true -> 0 < wd_active w -> (fail_epoch = false -> 1 < wd_active w) ->
    wstep w (counted w (AbandonSnapshotGenerationWrite fail_epoch (wd_counter w)) (wd_active w - 1))
| w_die w : wstep w {| wd_disk := wd_disk w; wd_session := wd_session w; wd_counter := wd_counter w; wd_active := wd_active w; wd_alive := false |}.

(** The counter counts the open brackets, and is even only without one. *)
Definition counts (w : world) (e f o : Z) : Prop :=
  wd_counter w = pack e (wd_active w) f o /\ fields e (wd_active w) f o /\ (o = 0 -> wd_active w = 0 /\ f = 0) /\ (0 < wd_active w -> e <= 2 ^ 46 - 2).

Definition valid (w : world) : Prop := exists e f o, counts w e f o.

(** A later epoch, or the same one with its counter odd. *)
Definition ahead (e0 : Z) (w : world) : Prop := exists e f o, counts w e f o /\ (e0 < e \/ e0 = e /\ o = 1).

(** What a step does to the fields. *)
Lemma wstep_counts w w' e f o : wstep w w' -> counts w e f o ->
  exists e' f' o', counts w' e' f' o' /\ (e < e' \/ e = e' /\ (o = 1 -> o' = 1) /\ (o' = 0 -> wd_active w' = 0 /\ wd_disk w' = wd_disk w)).
Proof.
  intros Hs (Hc & F & Hev & Hmax). pose proof F as (He & Hn & Hf & Ho). destruct Hs as [w c Hal Hb|w d Hal Ha|w Hal Ha|w b Hal Ha Hb|w].
  - rewrite Hc in Hb. apply Begin_pack in Hb as (-> & Hlt & Hle & ->); [|done]. exists e, 0, 1. split; [|right; split; [done|]; split; [done|lia]].
    unfold counts, counted. cbn. unfold fields. split; [done|]. lia.
  - exists e, f, o. split; [done|]. right. split; [done|]. split; [done|]. cbn. intros ->. destruct (Hev eq_refl). lia.
  - unfold counts, counted. cbn. rewrite Hc, Finish_pack by (done || auto). specialize (Hmax Ha).
    destruct (Z.eqb_spec (wd_active w) 1) as [E|E], (Z.eqb_spec f 0) as [->|Ef]; cbn [andb].
    + exists (e + 1), 0, 0. rewrite E. unfold fields. split; [|left; lia]. split; [f_equal; lia|]. lia.
    + exists e, f, o. unfold fields. split; [|right; lia]. split; [done|]. lia.
    + exists e, 0, o. unfold fields. split; [|right; lia]. split; [done|]. lia.
    + exists e, f, o. unfold fields. split; [|right; lia]. split; [done|]. lia.
  - unfold counts, counted. cbn. rewrite Hc, Abandon_pack by done. specialize (Hmax Ha). exists e, (if b then 1 else f), (if b then 1 else o).
    unfold fields. destruct b.
    + split; [|right; lia]. split; [done|]. lia.
    + specialize (Hb eq_refl). split; [|right; lia]. split; [done|]. lia.
  - exists e, f, o. split; [done|]. right. split; [done|]. split; [done|]. cbn. intros ->. destruct (Hev eq_refl). done.
Qed.

Lemma wsteps_valid w w' : rtc wstep w w' -> valid w -> valid w'.
Proof. intros H. induction H as [|w w1 w2 H1 _ IH]; [done|]. intros (e & f & o & Hc). apply IH. destruct (wstep_counts _ _ _ _ _ H1 Hc) as (e' & f' & o' & Hc' & _). by exists e', f', o'. Qed.

Lemma wsteps_ahead e0 w w' : rtc wstep w w' -> ahead e0 w -> ahead e0 w'.
Proof.
  intros H. induction H as [|w w1 w2 H1 _ IH]; [done|]. intros (e & f & o & Hc & He). apply IH.
  destruct (wstep_counts _ _ _ _ _ H1 Hc) as (e' & f' & o' & Hc' & Hn). exists e', f', o'. split; [done|]. destruct Hn as [?|(<- & Hodd & _)]; [lia|].
  destruct He as [?|[-> ->]]; [by left|right; split; [done|by apply Hodd]].
Qed.

(** From a moment at which the counter is even, the files stay until the counter
    has left its value for good. *)
Lemma wsteps_stay w w' e : rtc wstep w w' -> counts w e 0 0 ->
  (counts w' e 0 0 /\ wd_active w' = 0 /\ wd_disk w' = wd_disk w) \/ ahead e w'.
Proof.
  intros H. induction H as [w|w w1 w2 H1 H2 IH]; intros Hc.
  - left. split; [done|]. split; [by apply Hc|done].
  - destruct (wstep_counts _ _ _ _ _ H1 Hc) as (e' & f' & o' & Hc' & [Hlt|(<- & _ & Hev)]).
    + right. apply (wsteps_ahead e w1); [done|]. exists e', f', o'. split; [done|by left].
    + pose proof Hc' as (_ & (_ & _ & _ & Ho) & Hz & _). destruct (decide (o' = 0)) as [->|Hne].
      * destruct (Hz eq_refl) as [_ ->]. destruct (Hev eq_refl) as [_ Hd]. rewrite <- Hd. by apply IH.
      * right. apply (wsteps_ahead e w1); [done|]. exists e, f', o'. split; [done|]. right. split; [done|lia].
Qed.

Lemma even_counts w : valid w -> has (wd_counter w) kGenerationOdd = false -> exists e, counts w e 0 0 /\ wd_active w = 0.
Proof.
  intros (e & f & o & Hc) H. pose proof Hc as (Ew & F & Hev & _). rewrite Ew, (pack_odd _ _ _ _ F) in H. apply Z.eqb_neq in H.
  destruct F as (_ & _ & _ & Ho). assert (o = 0) as -> by lia. destruct (Hev eq_refl) as [Ha ->]. by exists e.
Qed.

Lemma ahead_differs w0 w2 e : counts w0 e 0 0 -> ahead e w2 -> wd_counter w2 <> wd_counter w0.
Proof.
  intros (E0 & F0 & _) (e2 & f2 & o2 & (E2 & F2 & _) & Hgt) Heq. rewrite E0, E2 in Heq.
  destruct (pack_inj _ _ _ _ _ _ _ _ F2 F0 Heq) as (-> & _ & _ & ->). lia.
Qed.

(** The same even counter at two moments: no bracket was open in between. *)
Lemma between w0 w1 w2 : valid w0 -> rtc wstep w0 w1 -> rtc wstep w1 w2 -> has (wd_counter w0) kGenerationOdd = false -> wd_counter w2 = wd_counter w0 ->
  wd_active w1 = 0 /\ has (wd_counter w1) kGenerationOdd = false /\ wd_disk w1 = wd_disk w0.
Proof.
  intros Hv H01 H12 Hodd Heq. destruct (even_counts w0 Hv Hodd) as (e & Hc & _). destruct (wsteps_stay w0 w1 e H01 Hc) as [(Hc1 & Ha & Hd)|Hah].
  - split; [done|]. split; [|done]. destruct Hc1 as (-> & F & _). by rewrite (pack_odd _ _ _ _ F).
  - by destruct (ahead_differs w0 w2 e Hc (wsteps_ahead e w1 w2 H12 Hah)).
Qed.

(** An epoch that failed stays failed, and odd. *)
Lemma wstep_failed w w' e : wstep w w' -> counts w e 1 1 -> counts w' e 1 1.
Proof.
  intros Hs (Hc & F & Hev & Hmax). pose proof F as (He & Hn & _). destruct Hs as [w c Hal Hb|w d Hal Ha|w Hal Ha|w b Hal Ha Hb|w]; try done.
  - rewrite Hc in Hb. by apply Begin_pack in Hb as (? & _); [|done].
  - unfold counts, counted. cbn. rewrite Hc, Finish_pack by (done || auto). specialize (Hmax Ha). rewrite andb_false_r. split; [done|]. unfold fields. lia.
  - unfold counts, counted. cbn. rewrite Hc, Abandon_pack by done. specialize (Hmax Ha). unfold fields. destruct b; split; try done; lia.
Qed.

Lemma abandon_fails w : valid w -> 0 < wd_active w ->
  exists e, counts (counted w (AbandonSnapshotGenerationWrite true (wd_counter w)) (wd_active w - 1)) e 1 1.
Proof.
  intros (e & f & o & Hc & F & Hev & Hmax) Ha. exists e. specialize (Hmax Ha). destruct F as (He & Hn & F). unfold counts, counted. cbn.
  rewrite Hc, Abandon_pack by done. split; [done|]. unfold fields. lia.
Qed.

Lemma counts_odd w e f : counts w e f 1 -> has (wd_counter w) kGenerationOdd = true.
Proof. intros (-> & F & _). by rewrite (pack_odd _ _ _ _ F). Qed.

(** ** The record of the session *)

Definition kSnapshotGenerationMagic : bytes := str "CKSG".
Definition kSnapshotGenerationRecordSize : Z := 16.

Definition SerializeSnapshotGenerationRecord (generation : Z) : bytes :=
  let bytes := kSnapshotGenerationMagic ++ WriteLe64 generation in
  bytes ++ WriteLe32 (Crc32.Crc32 bytes).

Definition TryParseSnapshotGenerationRecord (bytes : bytes) : option Z :=
  if negb (len bytes =? kSnapshotGenerationRecordSize) || negb (bool_decide (take 4 bytes = kSnapshotGenerationMagic)) then None
  else if negb (Crc32.Crc32 (take 12 bytes) =? ReadLe32 bytes 12) then None
  else Some (ReadLe64 bytes 4).

Definition kSnapshotGenerationFile : bytes := str "chunkdb.snapshot".
Definition snapshot_generation_path (data_dir : bytes) : path := (data_dir, kSnapshotGenerationFile).

(** ** The reader *)

(** How a step of the reader ends: with a result, with SnapshotArtifactUnstable,
    or with another exception. *)
Inductive outcome (A : Type) : Type :=
| Got (a : A)
| Unstable
| Failed (e : exn).
Arguments Got {A} a.
Arguments Unstable {A}.
Arguments Failed {A} e.

(** The calls to come: how much later each is than the one before, and whether it works. *)
Abbreviation schedule := (list (nat * bool)).

(** The generation a reader observes: the session and the counter. *)
Abbreviation SnapshotGenerationObservation := (Z * Z)%type.

Definition kReadOnlySnapshotSpinAttempts : Z := 8.
Definition kReadOnlySnapshotBackoffBudgetUs : Z := 250 * 1000.
Definition kReadOnlySnapshotBackoffStartUs : Z := 250.
Definition kReadOnlySnapshotBackoffMaxUs : Z := 20000.

Section Reader.
(** The files and the counter at each moment. *)
Context (world_at : nat -> world).

Definition reader (A : Type) : Type := nat -> schedule -> outcome A * nat * schedule.

#[local] Instance reader_ret : MRet reader := fun A a t ks => (Got a, t, ks).
#[local] Instance reader_bind : MBind reader := fun A B f m t ks =>
  match m t ks with
  | (Got a, t, ks) => f a t ks
  | (Unstable, t, ks) => (Unstable, t, ks)
  | (Failed e, t, ks) => (Failed e, t, ks)
  end.

Definition unstable {A} : reader A := fun t ks => (Unstable, t, ks).
Definition failed {A} (e : exn) : reader A := fun t ks => (Failed e, t, ks).

(** A call: what it tells of its moment, or that it failed.  Reading a file and
    listing a directory are one call each; what they give while a bracket is open
    is not used. *)
Definition observe {A} (f : world -> A) : reader (option A) := fun t ks =>
  match ks with
  | [] => (Got (Some (f (world_at t))), t, [])
  | (k, works) :: ks => (Got (if works : bool then Some (f (world_at (t + k)%nat)) else None), (t + k)%nat, ks)
  end.

Definition present (p : path) (w : world) : bool := bool_decide (is_Some (names (wd_disk w) !! p)).

(** A name holds a regular file. *)
Definition ReadArtifactForSnapshot (p : path) : reader (option bytes) :=
  status ← observe (present p);
  match status with
  | None => failed (runtime_error "read-only snapshot cannot inspect artifact")
  | Some false => mret None
  | Some true =>
      loaded ← observe (fun w => content (wd_disk w) p);
      match loaded with
      | Some (Some b) => mret (Some b)
      | _ =>
          restat ← observe (present p);
          match restat with
          | None => failed (runtime_error "read-only snapshot cannot re-inspect artifact")
          | Some false => mret None
          | Some true => unstable
          end
      end
  end.

(** The loop over the names. *)
Fixpoint ReadIntents (dir : bytes) (ns : list bytes) : reader (list bytes) :=
  match ns with
  | [] => mret []
  | n :: ns =>
      intent ← ReadArtifactForSnapshot (dir, n);
      intents ← ReadIntents dir ns;
      mret (match intent with Some b => b :: intents | None => intents end)
  end.

Definition ReadTxnIntentsForSnapshot (intent_dir : bytes) : reader (list bytes) :=
  found ← observe (fun w => listing intent_dir (wd_disk w));
  match found with
  | None => unstable
  | Some ns => ReadIntents intent_dir (merge_sort name_le (filter (fun n => Is_true (IsTxnIntentFileName n)) ns))
  end.

Definition CollectReadOnlyChunkDiskSnapshot (data_path wal_path intent_path : path) (txn_intent_dir : bytes) : reader ReadOnlyChunkDiskSnapshot :=
  image ← ReadArtifactForSnapshot data_path;
  wal ← ReadArtifactForSnapshot wal_path;
  intent ← ReadArtifactForSnapshot intent_path;
  txn_intents ← ReadTxnIntentsForSnapshot txn_intent_dir;
  mret {| snap_image := image; snap_wal := wal; snap_intent := intent; snap_txn_intents := txn_intents |}.

(** A writer that is gone reads as odd.  The header of the live file is well formed. *)
Definition ReadLiveSnapshotGeneration (session : Z) : reader SnapshotGenerationObservation :=
  if negb (has session 1) then mret (session, 0)
  else
    alive ← observe wd_alive;
    match alive with
    | None => failed (runtime_error "snapshot writer lease is unavailable")
    | Some false => mret (session, kGenerationOdd)
    | Some true =>
        live ← observe (fun w => (wd_session w, wd_counter w));
        match live with
        | None => unstable
        | Some (live_session, state) =>
            if negb (live_session =? session) then unstable
            else if negb (has state kGenerationOdd) && has state (Z.lor kGenerationFailed kGenerationCountMask)
            then failed (runtime_error "snapshot live counter is malformed")
            else mret (session, state)
        end
    end.

Definition ReadSnapshotGeneration (generation_path : path) (record_required : bool) : reader SnapshotGenerationObservation :=
  artifact ← ReadArtifactForSnapshot generation_path;
  match artifact with
  | None => if record_required then failed (runtime_error "snapshot generation record disappeared after the store was opened") else mret (0, 0)
  | Some b =>
      match TryParseSnapshotGenerationRecord b with
      | None => failed (runtime_error "read-only snapshot generation metadata is malformed")
      | Some generation => ReadLiveSnapshotGeneration generation
      end
  end.

Definition caught {A} (m : reader (option A)) : reader (option A) := fun t ks =>
  match m t ks with (Unstable, t, ks) => (Got None, t, ks) | r => r end.

Definition StableSnapshotGeneration (path : path) (record_required : bool) : reader (option SnapshotGenerationObservation) :=
  caught (
    observed ← ReadSnapshotGeneration path record_required;
    mret (if has observed.2 1 then None else Some observed)).

Section Stable.
Context (data_path wal_path intent_path : path) (txn_intent_dir : bytes) (generation_path : path) (record_required : bool).

(** The body of the loop: a collection that is taken, or none. *)
Definition Attempt : reader (option (ReadOnlyChunkDiskSnapshot * SnapshotGenerationObservation)) :=
  before ← ReadSnapshotGeneration generation_path record_required;
  snapshot ← CollectReadOnlyChunkDiskSnapshot data_path wal_path intent_path txn_intent_dir;
  after ← ReadSnapshotGeneration generation_path record_required;
  mret (if negb (has before.2 1) && bool_decide (before = after) then Some (snapshot, before) else None).

(** The loop with [fuel] attempts left. *)
Fixpoint Attempts (fuel : nat) (attempt slept next_sleep : Z) : reader (ReadOnlyChunkDiskSnapshot * SnapshotGenerationObservation) :=
  match fuel with
  | O => failed out_of_fuel
  | S fuel =>
      let attempt := attempt + 1 in
      r ← caught Attempt;
      match r with
      | Some x => mret x
      | None =>
          if attempt <? kReadOnlySnapshotSpinAttempts then Attempts fuel attempt slept next_sleep
          else if kReadOnlySnapshotBackoffBudgetUs <=? slept then failed (runtime_error "read-only chunk snapshot remained unstable")
          else
            let sleep_for := Z.min next_sleep (kReadOnlySnapshotBackoffBudgetUs - slept) in
            Attempts fuel attempt (slept + sleep_for) (Z.min (next_sleep * 2) kReadOnlySnapshotBackoffMaxUs)
      end
  end.

(** Eight attempts at once and one after each sleep; see [attempts_bounded]. *)
Definition LoadStableReadOnlyChunkDiskSnapshot : reader (ReadOnlyChunkDiskSnapshot * SnapshotGenerationObservation) :=
  Attempts 26 0 0 kReadOnlySnapshotBackoffStartUs.

(** *** The loop ends *)

(** Whether [fuel] attempts are enough when none succeeds. *)
Fixpoint enough (fuel : nat) (attempt slept next_sleep : Z) : bool :=
  match fuel with
  | O => false
  | S fuel =>
      let attempt := attempt + 1 in
      if attempt <? kReadOnlySnapshotSpinAttempts then enough fuel attempt slept next_sleep
      else if kReadOnlySnapshotBackoffBudgetUs <=? slept then true
      else
        let sleep_for := Z.min next_sleep (kReadOnlySnapshotBackoffBudgetUs - slept) in
        enough fuel attempt (slept + sleep_for) (Z.min (next_sleep * 2) kReadOnlySnapshotBackoffMaxUs)
  end.

(** An attempt never runs out of fuel by itself. *)
Definition no_fuel {A} (m : reader A) : Prop := forall t ks t' ks', m t ks <> (Failed out_of_fuel, t', ks').

Lemma no_fuel_ret {A} (a : A) : no_fuel (mret a).
Proof using Type. by intros t ks t' ks'. Qed.
Lemma no_fuel_observe {A} (f : world -> A) : no_fuel (observe f).
Proof using Type. intros [|] [|[k []] ks] t' ks'; done. Qed.
Lemma no_fuel_failed {A} e : e <> out_of_fuel -> no_fuel (@failed A e).
Proof using Type. intros He t ks t' ks' [=]. done. Qed.
Lemma no_fuel_unstable {A} : no_fuel (@unstable A).
Proof using Type. by intros t ks t' ks'. Qed.
Lemma no_fuel_bind {A B} (m : reader A) (f : A -> reader B) : no_fuel m -> (forall a, no_fuel (f a)) -> no_fuel (m ≫= f).
Proof using Type.
  intros Hm Hf t ks t' ks' H. unfold mbind, reader_bind in H. destruct (m t ks) as [[[a| |e] t1] ks1] eqn:E; [by apply Hf in H|done|].
  injection H as -> -> ->. by apply Hm in E.
Qed.

Ltac no_fuel :=
  repeat first [ solve [auto] | apply no_fuel_ret | apply no_fuel_observe | apply no_fuel_unstable | (apply no_fuel_failed; discriminate) | apply no_fuel_bind
               | match goal with
                 | |- forall _, _ => intro
                 | |- no_fuel (match ?x with _ => _ end) => destruct x
                 end ].

Lemma artifact_fuel p : no_fuel (ReadArtifactForSnapshot p).
Proof using Type. unfold ReadArtifactForSnapshot. no_fuel. Qed.

Lemma attempt_fuel : no_fuel Attempt.
Proof using Type.
  pose proof artifact_fuel as Ha. assert (forall ns, no_fuel (ReadIntents txn_intent_dir ns)) as Hi.
  { induction ns as [|n ns IH]; cbn [ReadIntents]; no_fuel. }
  unfold Attempt, ReadSnapshotGeneration, CollectReadOnlyChunkDiskSnapshot, ReadTxnIntentsForSnapshot, ReadLiveSnapshotGeneration. no_fuel.
Qed.

Lemma attempts_end fuel : forall attempt slept next, enough fuel attempt slept next = true -> no_fuel (Attempts fuel attempt slept next).
Proof using Type.
  induction fuel as [|fuel IH]; intros attempt slept next He; [done|]. cbn [enough Attempts] in *. cbv zeta in *. apply no_fuel_bind.
  - intros t ks t' ks' H. unfold caught in H. pose proof (attempt_fuel t ks) as Hf. destruct (Attempt t ks) as [[[a| |e] t1] ks1]; try done. by apply Hf in H.
  - intros [x|]; [apply no_fuel_ret|]. destruct (attempt + 1 <? kReadOnlySnapshotSpinAttempts); [by apply IH|].
    destruct (kReadOnlySnapshotBackoffBudgetUs <=? slept); [by apply no_fuel_failed|by apply IH].
Qed.

Lemma attempts_bounded : no_fuel LoadStableReadOnlyChunkDiskSnapshot.
Proof using Type. apply attempts_end. vm_compute. reflexivity. Qed.

End Stable.

(** *** What a collection that is taken shows *)

(** Time only goes on. *)
Definition later {A} (m : reader A) : Prop := forall t ks, (t <= (m t ks).1.2)%nat.
(** While [view] stays as it is, what [m] returns is [Q] of it. *)
Definition shows {V A} (view : world -> V) (m : reader A) (Q : V -> A -> Prop) : Prop := forall t ks a t' ks' v,
  m t ks = (Got a, t', ks') -> (forall u, (t <= u <= t')%nat -> view (world_at u) = v) -> Q v a.

Lemma later_ret {A} (a : A) : later (mret a).
Proof using Type. intros t ks. cbn. lia. Qed.
Lemma later_observe {A} (f : world -> A) : later (observe f).
Proof using Type. intros t [|[k works] ks]; cbn; lia. Qed.
Lemma later_failed {A} e : later (@failed A e).
Proof using Type. intros t ks. cbn. lia. Qed.
Lemma later_unstable {A} : later (@unstable A).
Proof using Type. intros t ks. cbn. lia. Qed.
Lemma later_bind {A B} (m : reader A) (f : A -> reader B) : later m -> (forall a, later (f a)) -> later (m ≫= f).
Proof using Type.
  intros Hm Hf t ks. unfold mbind, reader_bind. specialize (Hm t ks). destruct (m t ks) as [[[a| |e] t1] ks1]; [|done|done].
  specialize (Hf a t1 ks1). cbn in Hm. lia.
Qed.
Lemma later_caught {A} (m : reader (option A)) : later m -> later (caught m).
Proof using Type. intros Hm t ks. specialize (Hm t ks). unfold caught. by destruct (m t ks) as [[[a| |e] t1] ks1]. Qed.

Ltac later :=
  repeat first [ solve [auto] | apply later_ret | apply later_observe | apply later_unstable | apply later_failed | apply later_caught | apply later_bind
               | match goal with
                 | |- forall _, _ => intro
                 | |- later (match ?x with _ => _ end) => destruct x
                 end ].

Lemma artifact_later p : later (ReadArtifactForSnapshot p).
Proof using Type. unfold ReadArtifactForSnapshot. later. Qed.
Lemma intents_later dir ns : later (ReadIntents dir ns).
Proof using Type. pose proof artifact_later. induction ns as [|n ns IH]; cbn [ReadIntents]; later. Qed.
Lemma collect_later p1 p2 p3 dir : later (CollectReadOnlyChunkDiskSnapshot p1 p2 p3 dir).
Proof using Type. pose proof artifact_later. pose proof intents_later. unfold CollectReadOnlyChunkDiskSnapshot, ReadTxnIntentsForSnapshot. later. Qed.
Lemma generation_later p required : later (ReadSnapshotGeneration p required).
Proof using Type. pose proof artifact_later. unfold ReadSnapshotGeneration, ReadLiveSnapshotGeneration. later. Qed.
Lemma attempt_later p1 p2 p3 dir p required : later (Attempt p1 p2 p3 dir p required).
Proof using Type. pose proof generation_later. pose proof collect_later. unfold Attempt. later. Qed.

(** What a sequence of calls returned. *)
Lemma bind_got {A B} (m : reader A) (f : A -> reader B) t ks b t' ks' : (m ≫= f) t ks = (Got b, t', ks') ->
  exists a t1 ks1, m t ks = (Got a, t1, ks1) /\ f a t1 ks1 = (Got b, t', ks').
Proof using Type. unfold mbind, reader_bind. destruct (m t ks) as [[[a| |e] t1] ks1]; [by exists a, t1, ks1|done|done]. Qed.

Lemma later_got {A} (m : reader A) t ks a t' ks' : later m -> m t ks = (Got a, t', ks') -> (t <= t')%nat.
Proof using Type. intros H E. specialize (H t ks). by rewrite E in H. Qed.

Section View.
Context {V : Type} (view : world -> V).

Lemma shows_weaken {A} (m : reader A) (Q R : V -> A -> Prop) : shows view m Q -> (forall v a, Q v a -> R v a) -> shows view m R.
Proof using Type. intros H1 H2 t ks a t' ks' d E Hd. eapply H2, H1; done. Qed.
Lemma shows_ret {A} (a : A) (Q : V -> A -> Prop) : (forall v, Q v a) -> shows view (mret a) Q.
Proof using Type. intros H t ks b t' ks' d [= <- _ _] _. apply H. Qed.
Lemma shows_unstable {A} (Q : V -> A -> Prop) : shows view unstable Q.
Proof using Type. by intros t ks b t' ks' d H. Qed.
Lemma shows_failed {A} e (Q : V -> A -> Prop) : shows view (failed e) Q.
Proof using Type. by intros t ks b t' ks' d H. Qed.
Lemma shows_observe {A} (f : world -> A) (h : V -> A) : (forall w, f w = h (view w)) -> shows view (observe f) (fun v a => a = None \/ a = Some (h v)).
Proof using Type.
  intros Hf t [|[k works] ks] a t' ks' v H Hv; cbn in H; injection H as <- <- _.
  - right. by rewrite Hf, (Hv t) by lia.
  - destruct works; [right|by left]. by rewrite Hf, (Hv (t + k)%nat) by lia.
Qed.
Lemma shows_bind {A B} (m : reader A) (f : A -> reader B) (Q : V -> A -> Prop) (R : V -> B -> Prop) : later m -> (forall a, later (f a)) ->
  shows view m Q -> (forall a, shows view (f a) (fun v b => Q v a -> R v b)) -> shows view (m ≫= f) R.
Proof using Type.
  intros Lm Lf Hm Hf t ks b t' ks' v H Hv. apply bind_got in H as (a & t1 & ks1 & E & H). pose proof (later_got _ _ _ _ _ _ Lm E). pose proof (later_got _ _ _ _ _ _ (Lf a) H).
  eapply (Hf a); [exact H|intros u Hu; apply Hv; lia|]. eapply Hm; [exact E|]. intros u Hu. apply Hv. lia.
Qed.
End View.

Lemma shows_via {V V' A} (view : world -> V) (f : V -> V') (m : reader A) (Q : V' -> A -> Prop) : shows (fun w => f (view w)) m Q -> shows view m (fun v => Q (f v)).
Proof using Type. intros H t ks a t' ks' v E Hv. eapply H; [exact E|]. intros u Hu. by rewrite Hv. Qed.

Lemma present_content p w : present p w = bool_decide (is_Some (content (wd_disk w) p)).
Proof using Type. unfold present, content. apply bool_decide_ext. by rewrite fmap_is_Some. Qed.

Lemma artifact_shows p : shows (fun w => content (wd_disk w) p) (ReadArtifactForSnapshot p) (fun x a => a = x).
Proof using Type.
  pose proof (shows_observe (fun w => content (wd_disk w) p) (present p) (fun x => bool_decide (is_Some x)) (present_content p)) as Hp.
  assert (forall x : option bytes, bool_decide (is_Some x) = false -> None = x) as Habsent
    by (intros x H%bool_decide_eq_false; destruct x; [by destruct H|done]).
  unfold ReadArtifactForSnapshot. eapply shows_bind; [later|later|exact Hp|].
  intros [[]|]; [|apply shows_ret; intros x [?|[= H]]; [done|by apply Habsent]|apply shows_failed].
  eapply shows_bind; [later|later|exact (shows_observe _ (fun w => content (wd_disk w) p) id (fun _ => eq_refl))|].
  intros [[b|]|]; [apply shows_ret; intros x [?|[= H]]; done| |]; (eapply shows_bind; [later|later|exact Hp|];
    intros [[]|]; [apply shows_unstable|apply shows_ret; intros x [?|[= H]] _ _; [done|by apply Habsent]|apply shows_failed]).
Qed.

Lemma file_shows p : shows wd_disk (ReadArtifactForSnapshot p) (fun d a => a = content d p).
Proof using Type. apply (shows_via wd_disk (fun d => content d p) _ (fun x a => a = x)), artifact_shows. Qed.

Lemma read_intents_show dir ns : shows wd_disk (ReadIntents dir ns) (fun d a => a = omap (fun n => content d (dir, n)) ns).
Proof using Type.
  pose proof artifact_later. pose proof intents_later. induction ns as [|n ns IH]; cbn [ReadIntents]; [by apply shows_ret|].
  eapply shows_bind; [later|later|apply file_shows|]. intros x. eapply shows_bind; [later|later|exact IH|]. intros bs.
  apply shows_ret. intros d -> ->. cbn. by destruct (content d (dir, n)).
Qed.

Lemma collect_shows p1 p2 p3 dir : shows wd_disk (CollectReadOnlyChunkDiskSnapshot p1 p2 p3 dir) (fun d s => s = snapshot_of p1 p2 p3 dir d).
Proof using Type.
  pose proof artifact_later. pose proof intents_later. unfold CollectReadOnlyChunkDiskSnapshot, ReadTxnIntentsForSnapshot.
  eapply shows_bind; [later|later|apply file_shows|]. intros x1. eapply shows_bind; [later|later|apply file_shows|]. intros x2.
  eapply shows_bind; [later|later|apply file_shows|]. intros x3.
  eapply (shows_bind _ _ _ (fun d a => a = intents_of dir d)); [later|later| |].
  - eapply shows_bind; [later|later|exact (shows_observe wd_disk (fun w => listing dir (wd_disk w)) (listing dir) (fun _ => eq_refl))|]. intros [ns|]; [|apply shows_unstable].
    eapply shows_weaken; [apply read_intents_show|]. intros d a -> [?|[= ->]]; done.
  - intros bs. apply shows_ret. by intros d -> -> -> ->.
Qed.

End Reader.

(** ** A session of a writer *)

Lemma record_roundtrip session : in_u 64 session -> TryParseSnapshotGenerationRecord (SerializeSnapshotGenerationRecord session) = Some session.
Proof.
  intros Hs. unfold SerializeSnapshotGenerationRecord. cbv zeta. rewrite WriteLe64_bytes, WriteLe32_bytes. set (head := kSnapshotGenerationMagic ++ le_bytes 8 session).
  assert (bytes_ok head) as Hok by (apply bytes_ok_app; split; [apply (bool_decide_unpack _); vm_compute; exact I|apply bytes_ok_le_bytes]).
  assert (len head = 12) as Hl by (subst head; rewrite length_app, length_le_bytes; reflexivity). pose proof (Crc32.Crc32_bound head Hok) as Hcrc.
  unfold TryParseSnapshotGenerationRecord. set (crc := Crc32.Crc32 head) in *.
  assert (take 12 (head ++ le_bytes 4 crc) = head) as -> by (apply take_app_length'; lia). fold crc. rewrite length_app, length_le_bytes. rewrite (ReadLe32_at _ 12 crc); [|lia|rewrite length_app, length_le_bytes; lia|done|].
  2: { rewrite <- Hl. by rewrite slice_app_end. }
  rewrite (ReadLe64_at _ 4 session); [|lia|rewrite length_app, length_le_bytes; lia|done|].
  2: { subst head. rewrite <- !app_assoc. apply slice_app; [done|by rewrite length_le_bytes]. }
  rewrite (Z.eqb_refl crc), (proj2 (Z.eqb_eq _ kSnapshotGenerationRecordSize)) by (unfold kSnapshotGenerationRecordSize; lia). done.
Qed.

Section Session.
(** The files and the counter at each moment, between which the writer takes any
    number of steps. *)
Context (world_at : nat -> world).
Hypothesis Hvalid : valid (world_at 0).
Hypothesis Hsteps : forall u, rtc wstep (world_at u) (world_at (S u)).
(** The record of the session, which stays. *)
Context (generation_path : path) (session : Z).
Hypothesis Hsession : in_u 64 session /\ has session 1 = true.
Hypothesis Hrecord : forall u, content (wd_disk (world_at u)) generation_path = Some (SerializeSnapshotGenerationRecord session).

Lemma steps_from u v : (u <= v)%nat -> rtc wstep (world_at u) (world_at v).
Proof using Hsteps. induction 1 as [|v _ IH]; [done|]. by etrans; [exact IH|apply Hsteps]. Qed.

Lemma valid_at u : valid (world_at u).
Proof using Hsteps Hvalid. eapply wsteps_valid; [apply (steps_from 0); lia|done]. Qed.

(** An even generation is the counter at a moment of the call. *)
Lemma generation_observed required t ks obs t' ks' : ReadSnapshotGeneration world_at generation_path required t ks = (Got obs, t', ks') -> has obs.2 1 = false ->
  exists u, (t <= u <= t')%nat /\ obs = (session, wd_counter (world_at u)).
Proof using Hsession Hrecord.
  intros H Hodd. apply bind_got in H as (a & t1 & ks1 & H1 & H). pose proof (later_got _ _ _ _ _ _ (artifact_later _ _) H1) as L1.
  rewrite (artifact_shows world_at generation_path t ks a t1 ks1 _ H1 (fun u _ => Hrecord u)) in H. destruct Hsession as [Hs Ho]. rewrite record_roundtrip in H by done.
  unfold ReadLiveSnapshotGeneration in H. rewrite Ho in H. cbn [negb] in H. apply bind_got in H as (al & t2 & ks2 & H2 & H). pose proof (later_got _ _ _ _ _ _ (later_observe _ _) H2) as L2.
  destruct al as [[]|]; [|by injection H as <- _ _|done]. apply bind_got in H as (live & t3 & ks3 & H3 & H). pose proof (later_got _ _ _ _ _ _ (later_observe _ _) H3) as L3.
  assert (live = None \/ live = Some (wd_session (world_at t3), wd_counter (world_at t3))) as [->| ->]; [|done|].
  { destruct ks2 as [|[k []] ks2]; cbn in H3; injection H3 as <- <- _; auto. }
  destruct (negb (_ =? _)); [done|]. destruct (negb _ && _); [done|]. injection H as <- <- _. exists t3. split; [lia|done].
Qed.

Context (data_path wal_path intent_path : path) (txn_intent_dir : bytes) (record_required : bool).
Abbreviation Load := (LoadStableReadOnlyChunkDiskSnapshot world_at data_path wal_path intent_path txn_intent_dir generation_path record_required).

Lemma attempts_got fuel attempt slept next t ks x t' ks' :
  Attempts world_at data_path wal_path intent_path txn_intent_dir generation_path record_required fuel attempt slept next t ks = (Got x, t', ks') ->
  exists t1 ks1, (t <= t1)%nat /\ Attempt world_at data_path wal_path intent_path txn_intent_dir generation_path record_required t1 ks1 = (Got (Some x), t', ks').
Proof using Type.
  revert attempt slept next t ks. induction fuel as [|fuel IH]; intros attempt slept next t ks H; [done|]. cbn [Attempts] in H. cbv zeta in H.
  apply bind_got in H as (r & t1 & ks1 & H1 & H). pose proof (later_got _ _ _ _ _ _ (later_caught _ (attempt_later world_at data_path wal_path intent_path txn_intent_dir generation_path record_required)) H1) as L.
  destruct r as [y|].
  - injection H as -> -> ->. exists t, ks. split; [lia|]. unfold caught in H1. by destruct (Attempt _ _ _ _ _ _ _ t ks) as [[[z| |e] t2] ks2].
  - enough (exists attempt slept next, Attempts world_at data_path wal_path intent_path txn_intent_dir generation_path record_required fuel attempt slept next t1 ks1 = (Got x, t', ks')) as (a' & s' & n' & E).
    { destruct (IH _ _ _ _ _ E) as (t2 & ks2 & L2 & E2). exists t2, ks2. split; [lia|done]. }
    destruct (_ <? _); [by eexists _, _, _|]. destruct (_ <=? _); [done|by eexists _, _, _].
Qed.

(** What an attempt that succeeds did. *)
Lemma attempt_got t ks s gen t' ks' : Attempt world_at data_path wal_path intent_path txn_intent_dir generation_path record_required t ks = (Got (Some (s, gen)), t', ks') ->
  exists t1 ks1 t2 ks2, ReadSnapshotGeneration world_at generation_path record_required t ks = (Got gen, t1, ks1) /\
    CollectReadOnlyChunkDiskSnapshot world_at data_path wal_path intent_path txn_intent_dir t1 ks1 = (Got s, t2, ks2) /\
    ReadSnapshotGeneration world_at generation_path record_required t2 ks2 = (Got gen, t', ks') /\ has gen.2 1 = false.
Proof using Type.
  unfold Attempt. intros H. apply bind_got in H as (b & t1 & ks1 & H1 & H). apply bind_got in H as (sn & t2 & ks2 & H2 & H). apply bind_got in H as (a & t3 & ks3 & H3 & H).
  exists t1, ks1, t2, ks2. destruct (has b.2 1) eqn:Hodd; cbn [negb andb] in H; [done|]. case_bool_decide as Eb; [|done]. subst a. injection H as -> -> -> ->. done.
Qed.

Lemma load_got t ks x t' ks' : Load t ks = (Got x, t', ks') ->
  exists t1 ks1, (t <= t1)%nat /\ Attempt world_at data_path wal_path intent_path txn_intent_dir generation_path record_required t1 ks1 = (Got (Some x), t', ks').
Proof using Type. unfold LoadStableReadOnlyChunkDiskSnapshot. generalize 26%nat as fuel. intros fuel. apply attempts_got. Qed.

(** A collection that is taken is what the files were at one moment, at which no
    bracket was open and the counter was the generation it is returned with. *)
Lemma stable_snapshot t ks s gen t' ks' : Load t ks = (Got (s, gen), t', ks') ->
  exists u, (t <= u <= t')%nat /\ wd_active (world_at u) = 0 /\ has (wd_counter (world_at u)) kGenerationOdd = false /\
    gen = (session, wd_counter (world_at u)) /\ s = snapshot_of data_path wal_path intent_path txn_intent_dir (wd_disk (world_at u)).
Proof using Hvalid Hsteps Hsession Hrecord.
  intros H. apply load_got in H as (t0 & ks0 & L0 & H). apply attempt_got in H as (t1 & ks1 & t2 & ks2 & H1 & H2 & H3 & Hodd).
  pose proof (later_got _ _ _ _ _ _ (generation_later _ _ _) H1) as L1. pose proof (later_got _ _ _ _ _ _ (collect_later _ _ _ _ _) H2) as L2.
  pose proof (later_got _ _ _ _ _ _ (generation_later _ _ _) H3) as L3.
  destruct (generation_observed _ _ _ _ _ _ H1 Hodd) as (u & Hu & Eu). destruct (generation_observed _ _ _ _ _ _ H3 Hodd) as (v & Hv & Ev).
  rewrite Eu in Hodd, Ev. cbn in Hodd. injection Ev as Ev.
  assert (forall x, (u <= x <= v)%nat -> wd_active (world_at x) = 0 /\ has (wd_counter (world_at x)) kGenerationOdd = false /\ wd_disk (world_at x) = wd_disk (world_at u)) as Hb.
  { intros x Hx. apply (between _ _ (world_at v)); [apply valid_at|apply steps_from; lia|apply steps_from; lia|done|done]. }
  exists u. destruct (Hb u ltac:(lia)) as (Ha & _ & _). split; [lia|]. split; [done|]. split; [done|]. split; [done|].
  apply (collect_shows world_at _ _ _ _ t1 ks1 s t2 ks2 _ H2). intros x Hx. apply Hb. lia.
Qed.

(** A generation that was observed again shows that nothing changed in between. *)
Lemma stable_generation t ks gen t' ks' : StableSnapshotGeneration world_at generation_path record_required t ks = (Got (Some gen), t', ks') ->
  exists u, (t <= u <= t')%nat /\ has (wd_counter (world_at u)) kGenerationOdd = false /\ gen = (session, wd_counter (world_at u)).
Proof using Hsession Hrecord.
  intros H. unfold StableSnapshotGeneration, caught in H.
  match type of H with (match ?m t ks with _ => _ end) = _ => assert (m t ks = (Got (Some gen), t', ks')) as H' by (by destruct (m t ks) as [[[z| |e] t2] ks2]) end.
  apply bind_got in H' as (o & t1 & ks1 & H1 & H'). destruct (has o.2 1) eqn:Hodd; [done|]. injection H' as -> -> <-.
  destruct (generation_observed _ _ _ _ _ _ H1 Hodd) as (u & Hu & ->). exists u. split; [lia|done].
Qed.

End Session.

End SnapshotGeneration.
