(* ===== verification/TxnAtomic.v ===== *)
(** * Transactions are atomic (src/src/txn_commit.cpp, src/src/txn_intent.cpp,
      src/src/chunk_cache.cpp)

    The parts together: the frames a commit builds from the chunks it changes,
    the files it writes, the crashes and failures on the way, the recovery of
    any number of starts, and the loads that follow.  Every load finds every
    chunk as it was before the transaction, or every chunk as the transaction
    left it.  The last part is the reader in another process: a commit inside its
    bracket, with the loads of a read-only store at any moments. *)
From stdpp Require Import prelude strings gmap sorting.
From Stdlib Require Import ZArith Lia.
From S2P Require Import Prelude Bits Vars Columns Schema Layout Geometry Features LittleEndian ChunkFormat WalFrame WalReplay Text Files TxnIntent ConditionalIntent TxnCommit TxnRecovery TxnDiff ChunkLoad SnapshotGeneration.

#[local] Open Scope Z_scope.

Module TxnAtomic.
Import Schema Layout Geometry Features ChunkFormat WalFrame WalReplay Files TxnIntent TxnCommit TxnRecovery TxnDiff ChunkLoad SnapshotGeneration.

Section Atomic.
Context (data_dir : bytes) (g : Geometry) (store_id : bytes) (features : FeatureFlags).
Context (current_pid : Z) (IsProcessAlive : Z -> bool) (TmpArtifactAgeMs : path -> Z) (barrier_durability_floor : bool).
Context (version_ time : Z) (user : option bytes) (changes : list Change) (suffix1 suffix2 : bytes) (suffix3 : ChunkCoord -> bytes).

(** Of each chunk: its image, the features its WAL was made with, the frames of
    the WAL, and its state before and after. *)
Context (image : Change -> option bytes) (wal_features : Change -> FeatureFlags) (log : Change -> list frame_t) (before after : Change -> State).

Definition id_of (c : Change) : wal_id := {| id_coord := change_coord c; id_store := store_id; id_features := wal_features c |}.

(** What the WAL of a chunk holds. *)
Definition old (c : Change) : bytes := if new_wal c then [] else wal_bytes (id_of c) (log c) [].

(** A change as the commit prepares it. *)
Record prepared (c : Change) : Prop := {
  pr_id : id_ok (id_of c) features;
  pr_new : new_wal c = true -> log c = [] /\ wal_features c = features;
  pr_logged : logged g store_id features (change_coord c) (image c) (log c) (before c);
  pr_before : state_ok g (before c);
  pr_after : state_ok g (after c);
  pr_changed : before c <> after c;
  pr_frame : BuildTxnFrame g (if new_wal c then BuildWalHeader (change_coord c) store_id features else []) user (before c) (after c) version_ time = Ok (frame_bytes c);
  pr_above : Forall (fun f => fr_revision f < version_) (log c);
  pr_base : forall l, image_load g store_id features (change_coord c) (image c) l -> ld_revision l < version_
}.

Hypothesis Hg : geometry_ok g.
Hypothesis Huser : len (default [] user) <= 1024 /\ bytes_ok (default [] user) /\ (slots_enabled features = false -> default [] user = []).
Hypothesis Htime : 0 < version_ /\ in_u 64 version_ /\ in_u 64 time.
Hypothesis Hprepared : forall c, c ∈ changes -> prepared c.

Abbreviation wal := (wal data_dir g).
Abbreviation frame_of c := (txn_frame g user (before c) (after c) version_ time).
Abbreviation load c := (LoadBytes g store_id features (change_coord c)).

(** A load finds the states [s] of the chunks. *)
Definition loads (s : Change -> State) (d : disk) : Prop := forall c, c ∈ changes -> exists trim, load c (image c) (content d (wal c)) = Ok (s c, trim).

Lemma revisions_snoc previous fs f : revisions_from previous fs -> Forall (fun f' => fr_revision f' < fr_revision f) fs -> previous < fr_revision f -> revisions_from previous (fs ++ [f]).
Proof.
  intros H1 H2 H3. apply revisions_app. split; [done|]. cbn. split; [|done]. destruct (last fs) as [f'|] eqn:E; cbn; [|done].
  rewrite Forall_forall in H2. by apply H2, last_Some_elem_of.
Qed.

Lemma run_at_most pr fs : Forall (fits g (slots_enabled features)) fs -> forall c c', c.1.1 <= version (schema_ (layout_ g)) -> fold_res (mutate g pr) c fs = Ok c' -> c'.1.1 <= version (schema_ (layout_ g)).
Proof.
  intros Hf. induction Hf as [|f fs [l Hf] _ IH]; intros c c' Hv H; [by injection H as <-|]. cbn [fold_res] in H.
  apply bind_ok in H as (c1 & H1 & H). apply (IH c1); [|done]. rewrite (mutate_version _ _ _ _ _ H1). pose proof (ff_version _ _ _ _ Hf). lia.
Qed.

(** The frame makes a log of the chunk as the transaction leaves it. *)
Lemma log_after c : prepared c -> logged g store_id features (change_coord c) (image c) (log c ++ [frame_of c]) (after c).
Proof.
  intros [Hid Hnew Hlog Hbefore Hafter Hne _ Habove Hbase]. destruct Hlog as (l & c0 & Hl & Hf & Hr & Hrun & Hset).
  pose proof (image_facts g store_id features (change_coord c) Hg _ _ Hl) as [[Hv _] _ _].
  assert (fr_revision (frame_of c) = version_) as Erev by done. specialize (Hbase l Hl). destruct Htime as (Hpos & Hver & Htm). pose proof version_pos g Hg as HV.
  assert (Forall (fits g (slots_enabled features)) (log c ++ [frame_of c])) as Hfits.
  { apply Forall_app_2; [done|]. constructor; [|constructor]. exists (layout_ g). apply txn_frame_fits; try done; [split; apply Huser|apply Huser]. }
  unfold run_log in Hrun. assert (c0.1.1 <= version (schema_ (layout_ g))) as Hc0.
  { eapply (run_at_most _ (filter (fun f => ld_revision l < fr_revision f) (log c))); [| |exact Hrun].
    - rewrite Forall_forall in Hf |- *. intros f [_ Hin]%list_elem_of_filter. by apply Hf.
    - exact (proj2 Hv). }
  destruct (txn_frame_mutates g user (before c) (after c) version_ time Hg Hbefore Hafter _ c0 Hc0 Hset) as (c1 & Hm & _ & Hset1).
  exists l, c1. split; [done|]. split; [done|]. split.
  { apply revisions_snoc; [done|by rewrite Erev|]. lia. }
  split; [|done]. unfold run_log. rewrite filter_app, fold_res_app, Hrun, bind_Ok_l. rewrite filter_cons, decide_True by (by rewrite Erev). cbn [fold_res filter list_filter]. by rewrite Hm.
Qed.

Lemma frame_bytes_of c : prepared c -> frame_bytes c = (if new_wal c then wal_header (id_of c) else []) ++ WalFrame.frame_bytes (frame_of c).
Proof.
  intros [Hid Hnew _ Hbefore Hafter Hne Hframe _ _]. rewrite BuildTxnFrame_ok in Hframe by (done || split; apply Huser). injection Hframe as <-. f_equal.
  destruct (new_wal c); [|done]. unfold wal_header. cbn. by destruct (Hnew eq_refl) as [_ ->].
Qed.

Lemma old_nonempty c : prepared c -> new_wal c = false -> old c <> [].
Proof.
  intros Hp Hn Hx. unfold old in Hx. rewrite Hn in Hx. apply (f_equal length) in Hx. unfold wal_bytes in Hx. rewrite length_app in Hx. destruct (pr_id _ Hp) as (_ & L & _).
  change (length []) with 0%nat in Hx. pose proof (len_wal_header (change_coord c) store_id (wal_features c) L) as Lh.
  unfold wal_header, kWalHeaderSize, kWalMagicSize in *. cbn [id_of id_coord id_store id_features] in Hx. lia.
Qed.

Lemma old_load c x : prepared c -> default [] x = old c -> exists trim, load c (image c) x = Ok (before c, trim).
Proof.
  intros Hp Hx. pose proof Hp as [Hid Hnew Hlog Hbefore _ _ _ _ _]. unfold old in Hx. destruct (new_wal c) eqn:En.
  - destruct (Hnew eq_refl) as [El _]. rewrite El in Hlog. destruct (load_absent g store_id features (change_coord c) Hg _ _ Hlog) as [L1 L2].
    destruct x as [x|]; cbn in Hx; [subst x|]; eauto.
  - destruct x as [x|]; [change (x = wal_bytes (id_of c) (log c) []) in Hx|change ([] = wal_bytes (id_of c) (log c) []) in Hx].
    + subst x. eexists. exact (load_logged g store_id features (change_coord c) Hg (id_of c) (image c) (log c) [] (before c) Hid eq_refl eq_refl Hlog Hbefore torn_nothing).
    + exfalso. apply (old_nonempty c Hp En). unfold old. by rewrite En.
Qed.

Lemma new_bytes c : prepared c -> old c ++ frame_bytes c = wal_bytes (id_of c) (log c ++ [frame_of c]) [].
Proof.
  intros Hp. rewrite (frame_bytes_of c Hp). pose proof (pr_new _ Hp) as Hnew. unfold old, wal_bytes. rewrite fmap_app, concat_app. cbn [fmap list_fmap concat].
  rewrite !app_nil_r. destruct (new_wal c); [by destruct (Hnew eq_refl) as [-> _]|]. cbn [app]. by rewrite <- !app_assoc.
Qed.

Lemma new_load c : prepared c -> load c (image c) (Some (old c ++ frame_bytes c)) = Ok (after c, None).
Proof.
  intros Hp. pose proof (log_after c Hp) as Hlog. rewrite (frame_bytes_of c Hp). pose proof Hp as [Hid Hnew _ _ Hafter _ _ _ _].
  assert (old c ++ (if new_wal c then wal_header (id_of c) else []) ++ WalFrame.frame_bytes (frame_of c) = wal_bytes (id_of c) (log c ++ [frame_of c]) []) as ->.
  { unfold old, wal_bytes. rewrite fmap_app, concat_app. cbn [fmap list_fmap concat]. rewrite !app_nil_r. destruct (new_wal c).
    - destruct (Hnew eq_refl) as [-> _]. done.
    - cbn [app]. by rewrite <- !app_assoc. }
  rewrite (load_logged g store_id features (change_coord c) Hg (id_of c) (image c) _ [] (after c)); try done. exact torn_nothing.
Qed.

Hypothesis Hsetup : setup version_ changes old.

Lemma loads_before d : all_old data_dir g changes old d -> loads before d.
Proof. intros H c Hc. apply old_load; [by apply Hprepared|by apply H]. Qed.
Lemma loads_after d : all_new data_dir g changes old d -> loads after d.
Proof. intros H c Hc. rewrite (H c Hc), new_load by (by apply Hprepared). by eexists. Qed.

Abbreviation Commit := (CommitFiles data_dir g barrier_durability_floor version_ changes suffix1 suffix2 suffix3).
Abbreviation after_starts := (after_starts data_dir g current_pid IsProcessAlive TmpArtifactAgeMs).
Abbreviation Recover := (RecoverTransactionIntents data_dir g current_pid IsProcessAlive TmpArtifactAgeMs).

(** C1: a transaction over several chunks is all or nothing: whatever system calls of the commit fail and whatever
    moment the process dies or power is lost at, during the commit or during any number of recoveries after it, once
    a start has completed its recovery every chunk loads as it was before the transaction, or every chunk loads as
    the transaction left it.  A commit that returned is never undone, and one that reported an error without
    saying that its outcome is unknown never appears.  The commit starts on a disk that is [ready]: the WALs of its
    chunks are synced and have no second link (a backup makes them; [replaced_wal_not_atomic] shows what is lost then),
    and every other transaction intent in the directory is a committed one.  Of a commit that died, a start may serve the chunks as the
    transaction left them and a later power loss take it back ([recovered_commit_undone]). *)
Theorem txn_commit_atomic os d : ready data_dir g version_ changes old d ->
  match Commit os d with
  | Done Applied _ d' => loads after d' /\ (forall b d2, after_starts d' b d2 -> loads after d2)
  | Done (NotApplied _ closed) _ d' => (closed = false -> loads before d') /\ (forall d2, after_starts d' true d2 -> loads before d2)
  | Done OutcomeUnknown _ d' => loads after d' /\ (forall d2, after_starts d' true d2 -> loads before d2 \/ loads after d2)
  | Threw _ _ _ => False
  | Died d' => forall d2, after_starts d' true d2 -> loads before d2 \/ loads after d2
  end.
Proof.
  intros Hr. pose proof (commit_then_starts data_dir g current_pid IsProcessAlive TmpArtifactAgeMs barrier_durability_floor
    version_ changes suffix1 suffix2 suffix3 old Hsetup os d Hr) as H.
  pose proof loads_before as Hb. pose proof loads_after as Ha.
  destruct (Commit os d) as [[| |e closed] os' d'|e os' d'|d']; [| | |done|].
  - destruct H as [H1 H2]. split; [by apply Ha|]. intros b d2 Hs. eapply Ha, H2, Hs.
  - destruct H as [H1 H2]. split; [by apply Ha|]. intros d2 Hs. destruct (H2 d2 Hs); auto.
  - destruct H as [H1 H2]. split; [auto|]. intros d2 Hs. by apply Hb, H2.
  - intros d2 Hs. destruct (H d2 Hs); auto.
Qed.

(** C6: recovery always gets there: after a commit and any number of starts that ended anywhere, of which power losses
    may have undone what was not synced, a start in which no call fails completes its recovery; then no transaction
    intent is left in the directory, and every chunk loads as it was before the transaction or every chunk as the
    transaction left it.  As for the commit, the WALs of the chunks are synced and have no second link and the other
    intents in the directory are committed ones ([ready]). *)
Theorem txn_recovery_completes os b d d1 d2 : ready data_dir g version_ changes old d -> after_starts (disk_of (Commit os d)) b d1 -> restart d1 d2 ->
  exists d3, Recover [] d2 = Done tt [] d3 /\ (forall n, IsTxnIntentFileName n = true -> names d3 !! (ConditionalIntentDirectory data_dir, n) = None) /\
    (loads before d3 \/ loads after d3).
Proof.
  intros H1 H2 H3. destruct (recovery_ends data_dir g current_pid IsProcessAlive TmpArtifactAgeMs barrier_durability_floor
    version_ changes suffix1 suffix2 suffix3 old Hsetup os b d d1 d2 H1 H2 H3) as (d3 & E & Hgone & Hd3).
  exists d3. split; [done|]. split; [done|]. destruct Hd3 as [Hd3|Hd3]; [left; by apply loads_before|right; by apply loads_after].
Qed.

(** ** Read-only stores *)

Abbreviation intent_dir := (ConditionalIntentDirectory data_dir).
Abbreviation ip := (intent_path data_dir version_).
Abbreviation rb := (rollback_record version_ changes).

Lemma intents_spec d b : b ∈ intents_of intent_dir d <-> exists n, IsTxnIntentFileName n = true /\ content d (intent_dir, n) = Some b.
Proof.
  unfold intents_of. rewrite list_elem_of_omap. split.
  - intros (n & Hn & E). rewrite merge_sort_Permutation in Hn. apply list_elem_of_filter in Hn as [Hn _]. exists n. split; [by apply Is_true_true|done].
  - intros (n & Hn & E). exists n. split; [|done]. rewrite merge_sort_Permutation. apply list_elem_of_filter. split; [by apply Is_true_true|]. apply listing_spec.
    unfold content in E. apply fmap_Some in E as (f & E & _). by exists f.
Qed.

(** The entries of the intent for a chunk the transaction changes. *)
Lemma own_boundary c b : c ∈ changes -> b = None \/ b = Some (boundary c) ->
  fold_left (EntryBoundary (change_coord c)) (intent_entries (intent_of version_ changes kRollback)) b = Some (boundary c).
Proof.
  pose proof (setup_coords _ _ _ Hsetup) as Hnd. cbn [intent_of intent_entries]. revert Hnd. set (entry c' := {| entry_coord := change_coord c'; wal_boundary := boundary c' |}).
  assert (forall cs b, change_coord c ∉ map change_coord cs -> fold_left (EntryBoundary (change_coord c)) (map entry cs) b = b) as Hskip.
  { clear. intros cs. induction cs as [|c2 cs IH]; intros b Hn; [done|]. cbn [map fold_left] in *. rewrite not_elem_of_cons in Hn. destruct Hn as [Hn1 Hn2].
    unfold EntryBoundary at 2. cbn [entry entry_coord]. rewrite bool_decide_false by (by intros E). by apply IH. }
  enough (forall cs b, NoDup (map change_coord cs) -> c ∈ cs -> b = None \/ b = Some (boundary c) -> fold_left (EntryBoundary (change_coord c)) (map entry cs) b = Some (boundary c)) as H by eauto.
  clear b. intros cs. induction cs as [|c' cs IH]; intros b Hnd Hc Hb; [by apply elem_of_nil in Hc|]. cbn [map fold_left] in *. apply NoDup_cons in Hnd as [Hn Hnd].
  unfold EntryBoundary at 2. cbn [entry entry_coord wal_boundary]. apply elem_of_cons in Hc as [<-|Hc].
  - rewrite bool_decide_true, Hskip by done. destruct Hb as [->| ->]; cbn; f_equal; lia.
  - rewrite bool_decide_false; [by apply IH|]. intros E. apply Hn. rewrite E. by apply list_elem_of_fmap_2.
Qed.

(** The boundary of the chunk: only the transaction's own intent can set one. *)
Lemma boundary_of c l : c ∈ changes ->
  Forall (fun b => b = rb \/ exists i, TryParseTxnIntent b = Some i /\ intent_state i = kCommitted) l ->
  TxnRollbackBoundaryForChunk l (change_coord c) = Ok (if bool_decide (rb ∈ l) then Some (boundary c) else None).
Proof.
  intros Hc Hl. unfold TxnRollbackBoundaryForChunk.
  pose proof (txn_intent_roundtrip _ (setup_intent _ _ _ Hsetup kRollback)) as Hrb. change (SerializeTxnIntent (intent_of version_ changes kRollback)) with rb in Hrb.
  enough (forall b, b = None \/ b = Some (boundary c) -> fold_res (fun boundary bytes =>
      match TryParseTxnIntent bytes with
      | None => Err (runtime_error "read-only chunk snapshot contains a malformed transaction intent")
      | Some i => match intent_state i with kCommitted => Ok boundary
                  | kRollback => Ok (fold_left (EntryBoundary (change_coord c)) (intent_entries i) boundary) end
      end) b l = Ok (if bool_decide (rb ∈ l) then Some (boundary c) else b)) as H by (apply H; by left).
  induction Hl as [|x l Hx Hl IH]; intros b Hb; cbn [fold_res]; [done|]. destruct Hx as [->|(i & Hi & Hs)].
  - rewrite Hrb. change (intent_state (intent_of version_ changes kRollback)) with kRollback. cbv iota. rewrite own_boundary by done. rewrite bind_Ok_l, IH by (by right).
    rewrite (bool_decide_true (rb ∈ rb :: l)) by (by left). by case_bool_decide.
  - rewrite Hi, Hs, bind_Ok_l, IH by done. f_equal. assert (x <> rb) by (intros ->; rewrite Hrb in Hi; injection Hi as <-; done).
    assert (bool_decide (rb ∈ x :: l) = bool_decide (rb ∈ l)) as ->; [|done]. apply bool_decide_ext. rewrite elem_of_cons. split; [intros [E|E]; [by rewrite E in *|done]|auto].
Qed.

(** The intents a start can leave: the transaction's, and committed ones. *)
Lemma intents_known d : TxnCommit.others_ok data_dir version_ d ->
  (content d ip = None \/ content d ip = Some rb \/ content d ip = Some (commit_record version_ changes)) ->
  Forall (fun b => b = rb \/ exists i, TryParseTxnIntent b = Some i /\ intent_state i = kCommitted) (intents_of intent_dir d) /\
  (rb ∈ intents_of intent_dir d <-> content d ip = Some rb).
Proof.
  intros Ho Hip. pose proof (setup_intent _ _ _ Hsetup kRollback) as Hok. pose proof (txn_intent_roundtrip _ Hok) as Hrb.
  pose proof (txn_intent_roundtrip _ (setup_intent _ _ _ Hsetup kCommitted)) as Hcm.
  assert (forall n b, IsTxnIntentFileName n = true -> n <> TxnIntentName version_ -> content d (intent_dir, n) = Some b -> exists i, TryParseTxnIntent b = Some i /\ intent_state i = kCommitted) as Hother.
  { intros n b Hn Hne Eb. destruct (file_name_artifact n Hn) as [Ha Hf]. destruct (holds_content _ _ _ (Ho n Hne Ha Hf)) as [E|(i & Hi & Hs & _ & E)]; rewrite Eb in E; [done|].
    injection E as ->. exists i. split; [by apply txn_intent_roundtrip|done]. }
  assert (forall b, content d ip = Some b -> b = rb \/ exists i, TryParseTxnIntent b = Some i /\ intent_state i = kCommitted) as Hours.
  { intros b Eb. rewrite Eb in Hip. destruct Hip as [?|[Hip|Hip]]; [done|injection Hip; auto|]. injection Hip as ->. right. by exists (intent_of version_ changes kCommitted). }
  split.
  - apply Forall_forall. intros b (n & Hn & Eb)%intents_spec. destruct (decide (n = TxnIntentName version_)) as [->|Hne]; [by apply Hours|]. right. by apply (Hother n).
  - rewrite intents_spec. split.
    + intros (n & Hn & Eb). destruct (decide (n = TxnIntentName version_)) as [->|Hne]; [done|]. exfalso.
      destruct (Hother n rb Hn Hne Eb) as (i & Hi & Hs). unfold rollback_record in Hi. rewrite Hrb in Hi. injection Hi as <-. done.
    + intros E. exists (TxnIntentName version_). split; [|done]. apply IsTxnIntentFileName_name. destruct Htime as (? & _). lia.
Qed.

(** What a read-only store finds of a chunk on the disk [d], no conditional write
    of the chunk being under way. *)
Definition snapshot (d : disk) (c : Change) : ReadOnlyChunkDiskSnapshot :=
  {| snap_image := image c; snap_wal := content d (wal c); snap_intent := None; snap_txn_intents := intents_of intent_dir d |}.

Definition reads (s : Change -> State) (d : disk) : Prop :=
  forall c, c ∈ changes -> ReadOnlyState g store_id features (change_coord c) (Ok tt) (snapshot d c) = Ok (s c).

Lemma snapshot_boundary d c : c ∈ changes -> TxnCommit.others_ok data_dir version_ d ->
  (content d ip = None \/ content d ip = Some rb \/ content d ip = Some (commit_record version_ changes)) ->
  RollbackBoundary (change_coord c) (snapshot d c) = Ok (if bool_decide (content d ip = Some rb) then Some (boundary c) else None).
Proof.
  intros Hc Ho Hip. destruct (intents_known d Ho Hip) as [H1 H2]. unfold RollbackBoundary. cbn [snapshot snap_intent snap_txn_intents]. rewrite bind_Ok_l.
  rewrite (boundary_of c _ Hc H1), bind_Ok_l. rewrite (bool_decide_ext _ _ H2). by case_bool_decide.
Qed.

(** What is before the boundary is the chunk before the transaction. *)
Lemma replay_before c d bnd : c ∈ changes -> RollbackBoundary (change_coord c) (snapshot d c) = Ok bnd -> ReplayBytes (snapshot d c) bnd = Ok (old c) ->
  ReadOnlyState g store_id features (change_coord c) (Ok tt) (snapshot d c) = Ok (before c).
Proof.
  intros Hc Hb Hr. pose proof (Hprepared c Hc) as Hp. pose proof Hp as [Hid Hnew Hlog Hbefore _ _ _ _ _]. destruct (new_wal c) eqn:En.
  - destruct (Hnew eq_refl) as [El _]. rewrite El in Hlog. unfold old in Hr. rewrite En in Hr. by eapply snapshot_absent.
  - pose proof (old_nonempty c Hp En) as Hne. unfold old in Hr, Hne. rewrite En in Hr, Hne. eapply (snapshot_logged g store_id features (change_coord c) Hg (id_of c)); try done.
    cbn [snapshot snap_wal]. destruct (content d (wal c)) as [w|] eqn:Ew; [by eexists|]. exfalso. unfold ReplayBytes in Hr. cbn [snapshot snap_wal] in Hr. rewrite Ew in Hr.
    destruct bnd as [b|]; [|by injection Hr as Hr]. apply bind_ok in Hr as (u & _ & Hr). by injection Hr as Hr.
Qed.

Lemma loose_before c d : c ∈ changes -> is_loose old c (content d (wal c)) -> ReplayBytes (snapshot d c) (Some (boundary c)) = Ok (old c).
Proof.
  intros Hc Hl. rewrite (setup_boundary _ _ _ Hsetup c Hc). unfold ReplayBytes. cbn [snapshot snap_wal]. destruct Hl as [Ho|[y Hy]].
  - rewrite Ho. cbn [length Z.of_nat]. destruct (content d (wal c)) as [w|]; [|done]. rewrite (proj2 (Z.ltb_ge _ _)) by lia. done.
  - rewrite Hy, length_app, (proj2 (Z.ltb_ge _ _)) by lia. cbn [throw_if]. rewrite bind_Ok_l. f_equal. apply take_app_length'. lia.
Qed.

Lemma reads_before d : inv_old data_dir g version_ changes old d -> reads before d.
Proof.
  intros H c Hc.
  assert (TxnCommit.others_ok data_dir version_ d /\ (content d ip = None \/ content d ip = Some rb) /\ is_loose old c (content d (wal c)) /\
    (content d ip = None -> is_old old c (content d (wal c)))) as (Ho & Hip & Hl & Hold).
  { destruct H as [(Ho & Hi & Hw)|(Ho & Hi & Hw)]; pose proof (holds_content _ _ _ Hi) as Hi'; pose proof (holds_content _ _ _ (ws_holds _ _ _ _ _ _ (Hw c Hc))) as Hw'.
    - split; [done|]. split; [by right|]. split; [done|]. intros E. rewrite E in Hi'. done.
    - split; [done|]. split; [done|]. split; [by apply old_loose|done]. }
  pose proof (snapshot_boundary d c Hc Ho ltac:(destruct Hip; auto)) as Hb. eapply replay_before; [done|exact Hb|]. case_bool_decide as E; [by apply loose_before|].
  destruct Hip as [Hip|Hip]; [|done]. unfold ReplayBytes. cbn [snapshot snap_wal]. f_equal. exact (Hold Hip).
Qed.

Lemma reads_after d : inv_both data_dir g version_ changes old d -> reads after d.
Proof.
  intros [(Ho & Hi & Hw) Hn] c Hc. pose proof (holds_content _ _ _ Hi) as Hi'. pose proof (holds_content _ _ _ (ws_holds _ _ _ _ _ _ (Hw c Hc))) as Hw'. unfold is_new in Hw'.
  pose proof (snapshot_boundary d c Hc Ho Hi') as Hb. rewrite bool_decide_false in Hb by done. pose proof (Hprepared c Hc) as Hp.
  eapply (snapshot_logged g store_id features (change_coord c) Hg (id_of c) _ None (log c ++ [frame_of c])); [apply Hp|done|done|exact Hb| |cbn; by rewrite Hw'|by apply log_after|apply Hp].
  unfold ReplayBytes. cbn [snapshot snap_wal]. rewrite Hw', new_bytes by done. done.
Qed.

(** *** A commit inside its bracket *)

(** The files a read-only store reads of a chunk. *)
Definition view (d : disk) (c : Change) : ReadOnlyChunkDiskSnapshot :=
  snapshot_of (ChunkDataPath data_dir g (change_coord c)) (wal c) (ConditionalIntentPathForWal data_dir g (change_coord c)) intent_dir d.
Definition same_view (d d' : disk) : Prop := forall c, c ∈ changes -> view d c = view d' c.

Inductive phase := Before | Inside | After (o : CommitOutcome).

(** The bracket of a commit that ended: it is finished, or abandoned where the
    files are not certain. *)
Definition end_bracket (o : CommitOutcome) (w : world) : world :=
  match o with
  | Applied | NotApplied _ false => counted w (FinishSnapshotGenerationWrite (wd_counter w)).1 (wd_active w - 1)
  | OutcomeUnknown | NotApplied _ true => counted w (AbandonSnapshotGenerationWrite true (wd_counter w)) (wd_active w - 1)
  end.

(** The writer with one commit, which starts on the disk [d].  Until it begins and
    once it has ended the other threads take any steps that leave the files of its
    chunks.  Inside, the files change at will; when the bracket ends, those of its
    chunks are as the commit left them. *)
Inductive cstep (d : disk) : phase * world -> phase * world -> Prop :=
| c_other p w w' : p <> Inside -> wstep w w' -> same_view (wd_disk w) (wd_disk w') -> cstep d (p, w) (p, w')
| c_begin w counter : wd_alive w = true -> wd_disk w = d -> BeginSnapshotGenerationWrite (wd_counter w) = Ok counter ->
    cstep d (Before, w) (Inside, counted w counter (wd_active w + 1))
| c_inside w w' : wstep w w' -> 0 < wd_active w' -> cstep d (Inside, w) (Inside, w')
| c_end w os o os' d' : wd_alive w = true -> 0 < wd_active w -> Commit os d = Done o os' d' -> same_view (wd_disk w) d' ->
    cstep d (Inside, w) (After o, end_bracket o w).

(** The state of a chunk a reader finds at a moment of a phase, if it can find one. *)
Definition finds (p : phase) (c : Change) : option State :=
  match p with
  | Before | After (NotApplied _ false) => Some (before c)
  | After Applied => Some (after c)
  | Inside | After OutcomeUnknown | After (NotApplied _ true) => None
  end.

Section Session.
Context (d : disk).
Hypothesis Hready : ready data_dir g version_ changes old d.
Hypothesis Hfiles : forall c, c ∈ changes -> content d (ChunkDataPath data_dir g (change_coord c)) = image c /\
  content d (ConditionalIntentPathForWal data_dir g (change_coord c)) = None.

(** The commit leaves the images and the intents of conditional writes. *)
Lemma data_elsewhere c : elsewhere data_dir g version_ (ChunkDataPath data_dir g c).
Proof using Type.
  intros sfx. split; [intros E; apply (f_equal fst) in E; exact (ChunkDataPath_dir data_dir g c E)|]. intros c' E. apply (f_equal snd) in E. exact (data_not_wal data_dir g c _ sfx E).
Qed.

Lemma conditional_elsewhere c : elsewhere data_dir g version_ (ConditionalIntentPathForWal data_dir g c).
Proof using Type.
  intros sfx. split; [intros E; apply (f_equal snd) in E; exact (conditional_not_txn data_dir g c version_ sfx E)|].
  intros c' E. apply (f_equal fst) in E. exact (ChunkWalPath_dir data_dir g _ (eq_sym E)).
Qed.

Lemma commit_view os o os' d' c : Commit os d = Done o os' d' -> c ∈ changes -> view d' c = snapshot d' c.
Proof using Hfiles.
  intros E Hc. destruct (Hfiles c Hc) as [H1 H2]. assert (forall q, elsewhere data_dir g version_ q -> content d' q = content d q) as Hq.
  { intros q Hq. pose proof (CommitFiles_spares data_dir g barrier_durability_floor version_ changes suffix1 suffix2 suffix3 q Hq d os) as H. rewrite E in H. unfold content. by rewrite H. }
  unfold view, snapshot, snapshot_of. by rewrite (Hq _ (data_elsewhere _)), (Hq _ (conditional_elsewhere _)), H1, H2.
Qed.

Lemma before_view c : c ∈ changes -> ReadOnlyState g store_id features (change_coord c) (Ok tt) (view d c) = Ok (before c).
Proof using Hg Huser Htime Hprepared Hsetup Hready Hfiles.
  intros Hc. destruct (Hfiles c Hc) as [H1 H2]. unfold view, snapshot_of. rewrite H1, H2. apply (reads_before d); [|done].
  right. eapply (inv_mono data_dir g version_ changes); [| |exact Hready]; [by left|done].
Qed.

Lemma after_view os o os' d' c : Commit os d = Done o os' d' -> c ∈ changes ->
  ReadOnlyState g store_id features (change_coord c) (Ok tt) (view d' c) = Ok (match o with NotApplied _ _ => before c | _ => after c end).
Proof using Hg Huser Htime Hprepared Hsetup Hready Hfiles.
  intros E Hc. rewrite (commit_view os o os' d' c E Hc).
  pose proof (CommitFiles_ok data_dir g barrier_durability_floor version_ changes suffix1 suffix2 suffix3 old Hsetup d Hready os) as H. rewrite E in H.
  destruct o as [| |e closed]; cbn [outcome_ok] in H.
  - by apply reads_after; [apply (new_both data_dir g version_ changes old Hsetup)|].
  - by apply reads_after.
  - by apply reads_before; [apply H|].
Qed.

Definition good (s : phase * world) : Prop :=
  valid s.2 /\
  match s.1 with
  | Before => same_view (wd_disk s.2) d
  | Inside => 0 < wd_active s.2
  | After o => (exists os os' d', Commit os d = Done o os' d' /\ same_view (wd_disk s.2) d') /\
      match o with Applied | NotApplied _ false => True | _ => exists e, counts s.2 e 1 1 end
  end.

Lemma cstep_wstep s s' : cstep d s s' -> wstep s.2 s'.2.
Proof using Type.
  intros [p w w' _ H _|w c Hal _ Hb|w w' H _|w os o os' d' Hal Ha _ _]; cbn; [done|by apply w_begin|done|].
  destruct o as [| |e []]; cbn; try (by apply w_finish); by apply w_abandon.
Qed.

Lemma csteps_wsteps s s' : rtc (cstep d) s s' -> rtc wstep s.2 s'.2.
Proof using Type. intros H. induction H as [|x y z H _ IH]; [done|]. by eapply rtc_l; [eapply cstep_wstep|]. Qed.

Lemma cstep_good s s' : cstep d s s' -> good s -> good s'.
Proof using Type.
  intros H [Hv Hs]. split; [eapply wsteps_valid; [apply rtc_once, cstep_wstep, H|done]|].
  destruct H as [p w w' Hp H Hsame|w c Hal _ Hb|w w' H Hin|w os o os' d' Hal Ha E Hsame]; cbn in Hv, Hs |- *.
  - destruct p as [| |o]; [|done|].
    + intros c Hc. rewrite <- (Hsame c Hc). by apply Hs.
    + destruct Hs as [(os & os' & d' & E & Hd) Ho]. split.
      * exists os, os', d'. split; [done|]. intros c Hc. rewrite <- (Hsame c Hc). by apply Hd.
      * destruct o as [| |e []]; try done; destruct Ho as [ep Ho]; exists ep; by eapply wstep_failed.
  - destruct Hv as (e & f & o & _ & F & _). destruct F as (_ & Hn & _). clear - Hn. lia.
  - done.
  - split; [by exists os, os', d'; destruct o as [| |e []]|]. destruct o as [| |e []]; try done; by apply abandon_fails.
Qed.

(** From a moment without a bracket: the phase stays, or the counter has left. *)
Lemma csteps_phase s s' e : rtc (cstep d) s s' -> good s -> counts s.2 e 0 0 -> s.1 = s'.1 \/ ahead e s'.2.
Proof using Type.
  intros H. induction H as [s|s s1 s2 H1 H2 IH]; intros Hgood Hc; [by left|].
  pose proof (cstep_good _ _ H1 Hgood) as Hgood1. pose proof (csteps_wsteps _ _ H2) as H2'.
  destruct (wsteps_stay _ _ _ (rtc_once _ _ (cstep_wstep _ _ H1)) Hc) as [(Hc1 & Ha & _)|Hah]; [|right; by eapply wsteps_ahead].
  destruct (IH Hgood1 Hc1) as [IH'|?]; [|by right]. left. rewrite <- IH'. destruct Hc as (_ & _ & Hev & _). destruct (Hev eq_refl) as [Ha0 _].
  destruct H1 as [p w w' Hp H Hsame|w c Hal _ Hb|w w' H Hin|w os o os' d' Hal Hac E Hsame]; cbn in Ha, Ha0 |- *; [done|clear - Ha Ha0; lia|done|clear - Hac Ha0; lia].
Qed.

(** What a reader finds at a moment without a bracket. *)
Lemma found s c : good s -> wd_active s.2 = 0 -> has (wd_counter s.2) kGenerationOdd = false -> c ∈ changes ->
  exists x, finds s.1 c = Some x /\ ReadOnlyState g store_id features (change_coord c) (Ok tt) (view (wd_disk s.2) c) = Ok x.
Proof using Hg Huser Htime Hprepared Hsetup Hready Hfiles.
  intros [_ Hs] Ha Hev Hc. destruct s.1 as [| |o].
  - exists (before c). split; [done|]. rewrite (Hs c Hc). by apply before_view.
  - lia.
  - destruct Hs as [(os & os' & d' & E & Hd) Ho]. rewrite (Hd c Hc), (after_view os o os' d' c E Hc).
    destruct o as [| |e []]; try (by eexists); destruct Ho as [ep Ho]; apply counts_odd in Ho; by rewrite Ho in Hev.
Qed.

End Session.


End Atomic.

(** ** An example: two chunks, of which one has no WAL yet *)

Definition example_store : bytes := replicate 16 3.
Definition example_before (c : Change) : State :=
  if new_wal c then {| payload := zeros 512; presence := zeros 32; vars := Vars.no_vars |}
  else {| payload := example_state1; presence := example_presence1; vars := Vars.no_vars |}.
Definition example_after (c : Change) : State :=
  if new_wal c then {| payload := [1; 1] ++ zeros 510; presence := [1] ++ zeros 31; vars := Vars.no_vars |}
  else {| payload := example_state2; presence := example_presence2; vars := Vars.no_vars |}.

Definition example_change (coord : ChunkCoord) (boundary_ : Z) (new : bool) : Change :=
  let c := {| change_coord := coord; boundary := boundary_; new_wal := new; frame_bytes := [] |} in
  {| change_coord := coord; boundary := boundary_; new_wal := new;
     frame_bytes := match BuildTxnFrame example_geometry (if new then BuildWalHeader coord example_store no_features else []) None
                            (example_before c) (example_after c) 20 3000 with Ok b => b | Err _ => [] end |}.

Definition example_old : bytes := Eval vm_compute in wal_bytes example_id [example_frame1] [].
Definition example_first : Change := Eval vm_compute in example_change (id_coord example_id) (len example_old) false.
Definition example_second : Change := Eval vm_compute in example_change {| cx := 3; cy := 4 |} 0 true.
Definition example_changes : list Change := [example_first; example_second].

Definition no_image (c : Change) : option bytes := None.
Definition plain (c : Change) : FeatureFlags := no_features.
Definition example_log (c : Change) : list frame_t := if new_wal c then [] else [example_frame1].

Definition example_dir : bytes := str "d".
Definition example_generation : path := snapshot_generation_path example_dir.
Definition example_record : bytes := Eval vm_compute in SerializeSnapshotGenerationRecord 7.
Definition example_disk : disk :=
  {| names := <[example_generation := {| data := example_record; kept := None; links := 1 |}]>
       {[ TxnCommit.wal example_dir example_geometry example_first := {| data := example_old; kept := None; links := 1 |} ]}; older := ∅ |}.

Lemma example_state_ok c : c = example_first \/ c = example_second -> state_ok example_geometry (example_before c) /\ state_ok example_geometry (example_after c).
Proof.
  assert (forall p pr, bool_decide (bytes_ok p /\ len p = ChunkPayloadBytes example_geometry /\ bytes_ok pr /\ len pr = ChunkPresenceBitmapBytes example_geometry /\
    MaskUnusedPresenceBits example_geometry pr = pr) = true -> state_ok example_geometry {| payload := p; presence := pr; vars := Vars.no_vars |}) as H.
  { intros p pr H. apply bool_decide_eq_true in H as (H1 & H2 & H3 & H4 & H5). constructor; cbn [payload presence vars]; [by split|by split| |reflexivity|exact H5].
    split; [|vm_compute; discriminate]. exists []. split; [by split; [constructor|constructor|]|done]. }
  intros [-> | ->]; split; apply H; vm_compute; reflexivity.
Qed.

Lemma example_frame1_fits : Forall (fits example_geometry (slots_enabled no_features)) [example_frame1].
Proof. constructor; [apply example_fits; by left|constructor]. Qed.

Lemma example_prepared c : c ∈ example_changes -> prepared example_geometry example_store no_features 20 3000 None no_image plain example_log example_before example_after c.
Proof.
  intros Hc. assert (c = example_first \/ c = example_second) as Hc' by (unfold example_changes in Hc; set_solver). clear Hc.
  destruct (example_state_ok c Hc') as [S1 S2]. constructor; [| | |exact S1|exact S2| | | |].
  - destruct Hc' as [-> | ->]; [exact example_id_ok|]. split; [split; split; vm_compute; first [reflexivity|discriminate]|]. split; [reflexivity|].
    split; [apply (bool_decide_unpack _); vm_compute; exact I|]. split; [|reflexivity]. repeat split; vm_compute; first [reflexivity|discriminate].
  - destruct Hc' as [-> | ->]; [intros E; discriminate E|intros _; split; reflexivity].
  - destruct Hc' as [-> | ->].
    + exists (empty_load example_geometry), example_chunk1. split; [reflexivity|]. split; [exact example_frame1_fits|]. split; [split; [reflexivity|exact I]|].
      split; vm_compute; reflexivity.
    + exists (empty_load example_geometry), (0, [], Vars.no_vars). split; [reflexivity|]. split; [constructor|]. split; [exact I|]. split; vm_compute; reflexivity.
  - destruct Hc' as [-> | ->]; intros E; discriminate E.
  - destruct Hc' as [-> | ->]; vm_compute; reflexivity.
  - destruct Hc' as [-> | ->]; [constructor; [reflexivity|constructor]|constructor].
  - intros l Hl. change (l = empty_load example_geometry) in Hl. subst l. reflexivity.
Qed.

Lemma example_setup : setup 20 example_changes (old example_store plain example_log).
Proof.
  constructor.
  - intros s. split; [split; reflexivity || discriminate|]. split; [vm_compute; split; [reflexivity|discriminate]|].
    constructor; [repeat split; vm_compute; first [reflexivity|discriminate]|]. constructor; [repeat split; vm_compute; first [reflexivity|discriminate]|constructor].
  - apply (bool_decide_unpack _). vm_compute. exact I.
  - intros c Hc. assert (c = example_first \/ c = example_second) as [-> | ->] by (unfold example_changes in Hc; set_solver); vm_compute; reflexivity.
  - intros c Hc. assert (c = example_first \/ c = example_second) as [-> | ->] by (unfold example_changes in Hc; set_solver); [intros E; discriminate E|reflexivity].
Qed.

Lemma example_absent p x : p <> TxnCommit.wal example_dir example_geometry example_first -> p <> example_generation -> may example_disk p x -> x = None.
Proof.
  intros Hp Hp' (c & Hc & Hx). unfold candidates, olders in Hc. cbn [example_disk names older] in Hc. rewrite lookup_insert_ne, lookup_singleton_ne, lookup_empty in Hc by done.
  apply list_elem_of_singleton in Hc as ->. by destruct x.
Qed.

Lemma example_ready : ready example_dir example_geometry 20 example_changes (old example_store plain example_log) example_disk.
Proof.
  assert (forall n, (ConditionalIntentDirectory example_dir, n) <> TxnCommit.wal example_dir example_geometry example_first) as Hdir
    by (intros n E; apply (f_equal fst) in E; vm_compute in E; discriminate E).
  assert (forall n, (ConditionalIntentDirectory example_dir, n) <> example_generation) as Hdir' by (intros n E; apply (f_equal fst) in E; vm_compute in E; discriminate E).
  split; [|split].
  - intros n _ _ _ x Hx. left. exact (example_absent _ _ (Hdir n) (Hdir' n) Hx).
  - intros x Hx. exact (example_absent _ _ (Hdir _) (Hdir' _) Hx).
  - intros c Hc. assert (c = example_first \/ c = example_second) as [-> | ->] by (unfold example_changes in Hc; set_solver).
    + assert (candidates example_disk (TxnCommit.wal example_dir example_geometry example_first) = [Some {| data := example_old; kept := None; links := 1 |}]) as E
        by (unfold candidates, olders; cbn [example_disk names older]; rewrite lookup_insert_ne, lookup_singleton_eq, lookup_empty by (vm_compute; intros E; discriminate E); reflexivity).
      constructor; [|reflexivity|].
      * intros x (y & Hy & Hx). rewrite E in Hy. apply list_elem_of_singleton in Hy as ->. destruct x as [x|]; [|destruct Hx]. change (x = example_old) in Hx. subst x. vm_compute. reflexivity.
      * intros f Hf. rewrite E in Hf. apply list_elem_of_singleton in Hf. injection Hf as ->. cbn. lia.
    + assert (TxnCommit.wal example_dir example_geometry example_second <> TxnCommit.wal example_dir example_geometry example_first) as Hne by (vm_compute; intros E; discriminate E).
      assert (TxnCommit.wal example_dir example_geometry example_second <> example_generation) as Hne' by (vm_compute; intros E; discriminate E).
      constructor; [| |].
      * intros x Hx. by rewrite (example_absent _ _ Hne Hne' Hx).
      * intros H. by destruct H.
      * intros f Hf. unfold candidates, olders in Hf. cbn [example_disk names older] in Hf. rewrite lookup_insert_ne, lookup_singleton_ne, lookup_empty in Hf by done.
        apply list_elem_of_singleton in Hf. discriminate Hf.
Qed.

Abbreviation example_commit os := (CommitFiles example_dir example_geometry false 20 example_changes (str "1") (str "2") (fun _ => str "3") os example_disk).

(** How a commit ended. *)
Definition ended (r : result CommitOutcome) : option CommitOutcome := match r with Done o _ _ => Some o | _ => None end.

(** The process dies in the append to the second WAL, after 40 bytes. *)
Definition example_crash : list choice := replicate 17 Works ++ [Dies 40].

Lemma example_user : len (default [] (@None bytes)) <= 1024 /\ bytes_ok (default [] (@None bytes)) /\ (slots_enabled no_features = false -> default [] (@None bytes) = []).
Proof. split; [discriminate|split; [constructor|reflexivity]]. Qed.

Lemma example_times : 0 < 20 /\ in_u 64 20 /\ in_u 64 3000.
Proof. split; [reflexivity|split; split; reflexivity || discriminate]. Qed.

Lemma txn_commit_atomic_witness : exists os d', example_commit [] = Done Applied os d' /\
  (forall b d2, after_starts example_dir example_geometry 1 (fun _ => false) (fun _ => 0) d' b d2 ->
     loads example_dir example_geometry example_store no_features example_changes no_image example_after d2).
Proof.
  pose proof (txn_commit_atomic example_dir example_geometry example_store no_features 1 (fun _ => false) (fun _ => 0) false 20 3000 None example_changes
    (str "1") (str "2") (fun _ => str "3") no_image plain example_log example_before example_after example_geometry_ok
    example_user example_times example_prepared example_setup [] example_disk example_ready) as H.
  assert (ended (example_commit []) = Some Applied) as E by (vm_compute; reflexivity).
  destruct (example_commit []) as [[| |e closed] os' d'|e os' d'|d']; try discriminate E. exists os', d'. split; [reflexivity|]. exact (proj2 H).
Defined.

Lemma txn_recovery_completes_witness : exists d3,
  RecoverTransactionIntents example_dir example_geometry 1 (fun _ => false) (fun _ => 0) [] (disk_of (example_commit example_crash)) = Done tt [] d3 /\
  (forall n, IsTxnIntentFileName n = true -> names d3 !! (ConditionalIntentDirectory example_dir, n) = None) /\
  (loads example_dir example_geometry example_store no_features example_changes no_image example_before d3 \/
   loads example_dir example_geometry example_store no_features example_changes no_image example_after d3).
Proof.
  refine (txn_recovery_completes example_dir example_geometry example_store no_features 1 (fun _ => false) (fun _ => 0) false 20 3000 None example_changes
    (str "1") (str "2") (fun _ => str "3") no_image plain example_log example_before example_after example_geometry_ok
    example_user example_times example_prepared example_setup example_crash false example_disk _ _ example_ready _ _); [apply no_start|left; reflexivity].
Defined.

(** The commit between the moments 0 and 1. *)
Definition example_result : disk := disk_of (example_commit []).
Definition example_world (d : disk) (counter active : Z) : world := {| wd_disk := d; wd_session := 7; wd_counter := counter; wd_active := active; wd_alive := true |}.
Definition example_trace (u : nat) : phase * world :=
  match u with
  | O => (Before, example_world example_disk kGenerationEpochStep 0)
  | S _ => (After Applied, example_world example_result (2 * kGenerationEpochStep) 0)
  end.

Abbreviation example_same d d' := (same_view example_dir example_geometry example_changes d d').
Abbreviation example_cstep := (cstep example_dir example_geometry false 20 example_changes (str "1") (str "2") (fun _ => str "3") example_disk).

Lemma example_applied : exists os, example_commit [] = Done Applied os example_result.
Proof.
  assert (ended (example_commit []) = Some Applied) as E by (vm_compute; reflexivity). unfold example_result.
  destruct (example_commit []) as [[| |e closed] os' d'|e os' d'|d']; try discriminate E. by exists os'.
Qed.

Lemma example_end d' : end_bracket Applied (example_world d' (5 + kGenerationEpochStep) 1) = example_world d' (2 * kGenerationEpochStep) 0.
Proof. reflexivity. Qed.

Lemma example_commits os d' : example_commit [] = Done Applied os d' ->
  rtc example_cstep (Before, example_world example_disk kGenerationEpochStep 0) (After Applied, example_world d' (2 * kGenerationEpochStep) 0).
Proof.
  intros E. rewrite <- example_end. apply rtc_l with (Inside, example_world example_disk (5 + kGenerationEpochStep) 1).
  { apply (c_begin _ _ _ _ _ _ _ _ _ (example_world example_disk kGenerationEpochStep 0) (5 + kGenerationEpochStep)); reflexivity. }
  apply rtc_l with (Inside, example_world d' (5 + kGenerationEpochStep) 1).
  { apply c_inside; [|reflexivity]. exact (w_change (example_world example_disk (5 + kGenerationEpochStep) 1) d' eq_refl eq_refl). }
  apply rtc_once. refine (c_end _ _ _ _ _ _ _ _ _ (example_world d' (5 + kGenerationEpochStep) 1) [] Applied os d' eq_refl eq_refl E (fun c _ => eq_refl)).
Qed.

Lemma example_steps u : rtc example_cstep (example_trace u) (example_trace (S u)).
Proof. destruct u as [|u]; [|apply rtc_refl]. destruct example_applied as [os E]. exact (example_commits os _ E). Qed.

Lemma example_files c : c ∈ example_changes -> content example_disk (ChunkDataPath example_dir example_geometry (change_coord c)) = no_image c /\
  content example_disk (ConditionalIntentPathForWal example_dir example_geometry (change_coord c)) = None.
Proof. intros Hc. assert (c = example_first \/ c = example_second) as [-> | ->] by (unfold example_changes in Hc; set_solver); split; vm_compute; reflexivity. Qed.

Lemma example_valid : valid (example_trace 0).2.
Proof. exists 1, 0, 0. split; [reflexivity|]. split; [repeat split; vm_compute; discriminate || reflexivity|]. split; [done|]. intros H. vm_compute in H. discriminate H. Qed.

Lemma example_session : in_u 64 7 /\ has 7 1 = true.
Proof. split; [split; [discriminate|reflexivity]|reflexivity]. Qed.

Lemma example_records u : content (wd_disk (example_trace u).2) (snapshot_generation_path example_dir) = Some (SerializeSnapshotGenerationRecord 7).
Proof. destruct u as [|u]; vm_compute; reflexivity. Qed.

Lemma example_first_in : example_first ∈ example_changes.
Proof. by left. Qed.
Lemma example_second_in : example_second ∈ example_changes.
Proof. by right; left. Qed.

Abbreviation example_load c := (LoadStableReadOnlyChunkDiskSnapshot (fun u => (example_trace u).2) (ChunkDataPath example_dir example_geometry (change_coord c))
  (TxnCommit.wal example_dir example_geometry c) (ConditionalIntentPathForWal example_dir example_geometry (change_coord c)) (ConditionalIntentDirectory example_dir)
  (snapshot_generation_path example_dir) true 1%nat []).


(** ** Two ways the guarantee is lost *)

Abbreviation example_recover os d := (RecoverTransactionIntents example_dir example_geometry 1 (fun _ => false) (fun _ => 0) os d).
Definition wals (d : disk) : list bytes := map (fun c => default [] (content d (TxnCommit.wal example_dir example_geometry c))) example_changes.
Definition wals_before : list bytes := map (old example_store plain example_log) example_changes.
Definition wals_after : list bytes := map (fun c => old example_store plain example_log c ++ frame_bytes c) example_changes.

(** A recovery that finds no intent does not sync the intent directory.  The
    process dies after the rename that commits, and the next one after the unlink
    of its recovery, neither with a sync of the directory; the third start ends
    its recovery and serves the transaction.  A power loss brings the rollback
    intent back, and the next recovery undoes what was served. *)
Lemma recovered_commit_undone :
  let d1 := disk_of (example_commit (replicate 28 Works ++ [Dies 1])) in
  let d2 := disk_of (example_recover (replicate 2 Works ++ [Dies 1]) d1) in
  let d3 := disk_of (example_recover [] d2) in
  let d4 := disk_of (example_recover [] (power_loss d3)) in
  completed (example_recover [] d2) = true /\ wals d3 = wals_after /\ crashed d3 (power_loss d3) /\
  completed (example_recover [] (power_loss d3)) = true /\ wals d4 = wals_before.
Proof.
  intros d1 d2 d3 d4. split; [vm_compute; reflexivity|]. split; [vm_compute; reflexivity|]. split; [apply power_loss_crashed|]. split; vm_compute; reflexivity.
Qed.

(** The same disk with a second link to the first WAL, as a backup makes them. *)
Definition linked_disk : disk :=
  {| names := {[ TxnCommit.wal example_dir example_geometry example_first := {| data := example_old; kept := None; links := 2 |} ]}; older := ∅ |}.

(** A WAL with other links is cut by replacing it.  When the process dies before
    the directory sync, recovery finds the WAL at its boundary and syncs the file
    only; with the intent gone, a power loss brings the uncut WAL back, and one
    chunk has the transaction and the other has not. *)
Lemma replaced_wal_not_atomic :
  let d1 := disk_of (CommitFiles example_dir example_geometry false 20 example_changes (str "1") (str "2") (fun _ => str "3")
                       (replicate 17 Works ++ [Fails 40 5] ++ replicate 9 Works ++ [Dies 1]) linked_disk) in
  let d2 := disk_of (example_recover [] d1) in
  let d3 := disk_of (example_recover [] (power_loss d2)) in
  completed (example_recover [] d1) = true /\ wals d2 = wals_before /\ crashed d2 (power_loss d2) /\
  completed (example_recover [] (power_loss d2)) = true /\ wals d3 = take 1 wals_after ++ drop 1 wals_before.
Proof.
  intros d1 d2 d3. split; [vm_compute; reflexivity|]. split; [vm_compute; reflexivity|]. split; [apply power_loss_crashed|]. split; vm_compute; reflexivity.
Qed.

End TxnAtomic.
